(* ===== verification/_CoqProject ===== *)
-Q . S2P
Prelude.v
Util.v
Sds.v
SdsText.v
Intset.v
Ziplist.v
ZiplistSpec.v
Dict.v
DictTypes.v
DictSpec.v
DictIter.v
DictScan.v
DictRandom.v
Adlist.v
AdlistSpec.v
Object.v
ObjectSpec.v
Lzf.v
LzfSpec.v
Zset.v
ZsetSpec.v
Monad.v
State.v
Db.v
DictMap.v
HeapSpec.v
DbSpec.v
DbRun.v
Reply.v
ReplySpec.v
Sample.v
ReplyRun.v
Commands.v
Serving.v
CommandSpec.v
Multi.v
Server.v
Proto.v
ServerSpec.v
ServerRun.v
ProtoSpec.v
ProtoRun.v
Quicklist.v
QuicklistSpec.v
QuicklistOps.v
QuicklistEdit.v
QuicklistRange.v
QuicklistRun.v
Backlog.v
ScriptCache.v
Repl.v
ReplSpec.v
ReplFeed.v
ReplSync.v
ReplFull.v
ReplStart.v
ReplRun.v
Ae.v
AeSpec.v
AeDispatch.v
AeTimers.v
AeRun.v
