(* ===== verification/Prelude.v ===== *)
(** * Redis core: a verification library

    The program is a Redis server, version 3.2 and partly stripped: data
    structures written for it, a heap of reference counted objects, databases
    of keys with times of expiry, and a single threaded server that reads
    requests, runs commands and queues replies.  This library models its core
    and proves it correct.

    ** Parts

    Strings and numbers.
    - [Util] (src/util.c): printing and reading decimal integers.
    - [Sds] (src/sds.h, src/sds.c): the dynamic strings, their five headers,
      growth and shrinking.  [sds_rep s x] says that the structure [s] holds
      the bytes [x].
    - [SdsText] (src/sds.c): slices, trimming, comparison, splitting, joining,
      quoting and formatting.

    Containers.
    - [Intset] (src/intset.c): sorted arrays of integers of 16, 32 or 64 bits.
    - [Ziplist] and [ZiplistSpec] (src/ziplist.c): lists of strings and
      integers in one block of memory, with the cascading update of lengths.
    - [Dict], [DictTypes], [DictSpec], [DictIter], [DictScan], [DictRandom],
      [DictMap] (src/dict.c, src/dict.h, the key types of src/server.c): hash
      tables rehashed step by step; iterators; the cursor of SCAN.
      [dictType] is the interface to the functions on keys, [dictTypeLaws]
      what the tables need of them; [DictMap] gives the view as a finite map.
    - [Adlist], [AdlistSpec] (src/adlist.c): doubly linked lists in a heap.
    - [Zset], [ZsetSpec] (src/t_zset.c): skip lists in a heap of nodes.
    - [Lzf], [LzfSpec] (src/lzf_c.c, src/lzf_d.c): compression.
    - [Quicklist] (src/quicklist.c): lists of compact lists, in a heap of
      nodes whose compact lists may be compressed.  [QuicklistSpec] has the
      links and the compression, [QuicklistOps] the pushes and pops and the
      invariant [repr], [QuicklistEdit] indices, replacing, inserting with
      splits and merges, [QuicklistRange] ranges and iterators,
      [QuicklistRun] the theorems and the runs that go wrong.

    The server.
    - [Object], [ObjectSpec], [HeapSpec] (src/object.c): the heap of objects,
      a map from addresses to records with a count of references; encodings.
    - [Monad]: programs over a state that may abort, with weakest
      preconditions [wp], which say that the program does return.
    - [State] (src/server.h): the state of the server, a client, the
      configuration; [sound_config] is what is relied on of the allocators.
    - [Db], [DbSpec], [DbRun] (src/db.c, src/notify.c): lookups, expiry,
      storing and deleting.  [adb] is the specification, a map with times.
    - [Reply], [ReplySpec], [ReplyRun] (src/networking.c): reply buffers,
      shared objects in the list of replies, limits, sending and closing.
      The specification is the sequence of bytes still to be sent.
    - [Sample]: a small server on which the theorems are tried.
    - [Commands], [Serving], [CommandSpec] (src/t_string.c, src/db.c): SET,
      GET and DEL.  [Serving] is the calculus of their proofs: [up] says that
      a database, a client's output and the arguments it holds are well formed
      together, and a rule for each primitive keeps it.  The specification is
      a store of strings with times of expiry, [kv].
    - [Multi] (src/multi.c): the queue of a transaction.
    - [Server], [ServerSpec], [ServerRun] (src/server.c): the table of the
      commands, looking one up, the checks before it and the call.
    - [Proto], [ProtoSpec], [ProtoRun] (src/networking.c): reading requests,
      inline or in the format with counts, from whatever pieces the socket
      delivers.  [outstanding] is what a client still has to be served and
      the bytes that are left of it, [receive] a whole connection.

    Replication.
    - [Backlog] (src/replication.c): the circular buffer of the last bytes of
      the stream of commands; [feeding b o x] says that the stream [x] was fed
      since the offset [o].
    - [ScriptCache] (src/replication.c): the scripts that every replica knows.
    - [Repl] (src/replication.c, src/networking.c): feeding the backlog and
      the replicas, SYNC and PSYNC, the start of a save for the replicas.  The
      clients are a map from numbers, and an operation of [Reply] is run with
      one of them in place ([with_client]).
    - [ReplSpec] (queueing for several clients that share objects), [ReplFeed]
      (a command is fed), [ReplSync] (what a replica follows), [ReplFull]
      (PSYNC, sharing the output of another replica), [ReplStart] (SYNC, the
      start of a save), [ReplRun] (sequences of events).  [follows] is the
      specification: a replica has still to be sent the stream from its
      offset, and [boundary] that it can tell the database of each command.

    The event loop.
    - [Ae] (src/ae.c, src/ae.h, src/ae_epoll.c): the array of file events, the
      list of time events in a heap, polling and the loop.  The functions of a
      client are programs on the same state; [kernel] is what the system
      does, an argument.
    - [AeSpec]: [kernel_laws] is what is relied on of the system, and
      [registered r s] says that the array, the highest descriptor and the
      system agree with the map [r].  [AeDispatch]: what is reported is handed
      to what is registered at that moment.  [AeTimers]: [timeline] is the
      list in the heap, [evolves] what a function of a client may do to it
      ([scripts_good]: those that only use the loop's operations do no more),
      [passed] what a pass does to each time event.  [AeRun]: the theorems.

    ** Conventions

    Bytes are integers of [0, 255]; an integer of the code is a [Z] that is
    wrapped to its width where the code computes ([u8] to [u64], [s32],
    [s64]).  A function that would read or write outside of a block, use a
    freed one or fail an assertion returns [None]; the theorems that say
    [Some] therefore say that it does none of these.  What an allocator, the
    clock, the random numbers or the socket answer are arguments.  Sharing is
    modelled: objects and list nodes have addresses, and a theorem says what
    happens to the count of every address.

    ** What is proved

    - Refinement of an abstract structure: integer sets and sets, compact
      lists and lists of strings, dictionaries and finite maps, linked lists
      and lists, skip lists and sorted lists, a database and a map with
      times, requests and commands on a store of strings, reply buffers and
      a stream of bytes.  Each theorem covers any
      sequence of operations or each operation on every branch.
    - Replication: for any sequence of commands and requests every replica is
      sent the stream from its offset, byte for byte, and the backlog has the
      last bytes of it; the one thing that may stand before the stream is the
      error that the code sends when an offset is not a number.
    - Round trips: decimal text, splitting and joining, quoting and parsing,
      compression.
    - Safety: decompression of any input stays in its buffers, no object is
      freed while somebody holds it or kept when nobody does.
    - Termination and progress: rehashing ends, the scan of a dictionary
      meets every key that stays, a willing socket is sent the whole reply in a
      bounded number of turns, a time event that is due is called, and the
      loop sleeps no longer than until the next one, when that is less than
      [2 ^ 31] milliseconds away.
    - The event loop: registrations agree with the system for any sequence of
      calls, and only functions that are registered are called.

    ** Bounds

    Sizes are those of the code: strings below [2 ^ 60] bytes, compact lists
    below [2 ^ 32], dictionaries of at most [2 ^ 29] entries (a bucket index
    is an [int]), replies of at most [2 ^ 20] nodes per client, counts of
    references below [2 ^ 31], lists of compact lists of fewer than [2 ^ 31]
    strings (insertions ask that all of them fit in one compact list, so that
    any merge does), a stream of commands of at most [2 ^ 59] bytes and fewer
    than 512 clients when commands are fed to replicas, time events less than
    [2 ^ 59] milliseconds away.  Loops without a structural argument have a
    fuel argument; the theorems give a bound that is enough, the length of a
    list, the number of buckets or the bytes to send.

    ** Not modelled

    The parts that only call the system (src/anet.c, src/zmalloc.c, the
    other back ends of the event loop, process titles, crash reports), the third-party
    SHA1, and code that is commented out in the repository (cluster slots,
    publish and subscribe, replication to slaves of deletions, the EXEC
    command).  Of replication the side of the replica, the sending of the
    file of a save and the cron function are left: they are about files and
    connections.  Formatting through the C library ([sdscatprintf], printing of
    floating point numbers) is left out.

    The reading of inline requests is modelled without theorems; keys under
    WATCH are not modelled; insertions into lists of compact lists and their
    ranges are proved for lists that are not compressed.
*)

From Stdlib Require Export ZArith Lia.
From stdpp Require Export base tactics numbers option list gmap strings sorting.

#[global] Open Scope Z_scope.

(** ** Notations *)

Declare Scope redis_scope.
Delimit Scope redis_scope with R.

(** A run of bytes of C memory.  A byte is an integer of [0, 255]. *)
Abbreviation bytes := (list Z).

(** ** Tactics shared by the components *)

(** Case analysis on the next [if]/[match] of the goal, closing the absurd
    branches by arithmetic. *)
Ltac case_step :=
  first [ case_decide | case_match ]; try done; try lia.

(** Split a conjunction and solve each part by [lia] where it can. *)
Ltac split_lia := split_and?; try lia; try done.

(** [lia] with division and remainder turned into equations. *)
Ltac dlia := intros; Z.to_euclidean_division_equations; lia.

(** ** Fixed width integers

    The platform is LP64 little endian: [int] has 32 bits, [long], [long
    long] and [size_t] have 64. *)

Definition wrapu (w : Z) (z : Z) : Z := z mod 2 ^ w.

Definition wraps (w : Z) (z : Z) : Z :=
  (z + 2 ^ (w - 1)) mod 2 ^ w - 2 ^ (w - 1).

Abbreviation u8 := (wrapu 8).
Abbreviation u16 := (wrapu 16).
Abbreviation u32 := (wrapu 32).
Abbreviation u64 := (wrapu 64).
Abbreviation s32 := (wraps 32).
Abbreviation s64 := (wraps 64).

Definition is_unsigned (w z : Z) : Prop := 0 <= z < 2 ^ w.
Definition is_signed (w z : Z) : Prop := - 2 ^ (w - 1) <= z < 2 ^ (w - 1).

Abbreviation is_u8 := (is_unsigned 8).
Abbreviation is_u16 := (is_unsigned 16).
Abbreviation is_u32 := (is_unsigned 32).
Abbreviation is_u64 := (is_unsigned 64).
Abbreviation is_int := (is_signed 32).
Abbreviation is_llong := (is_signed 64).

Definition LLONG_MAX : Z := 2 ^ 63 - 1.
Definition LLONG_MIN : Z := - 2 ^ 63.
Definition ULLONG_MAX : Z := 2 ^ 64 - 1.

#[export] Instance is_unsigned_dec w z : Decision (is_unsigned w z).
Proof. unfold is_unsigned. apply _. Defined.

#[export] Instance is_signed_dec w z : Decision (is_signed w z).
Proof. unfold is_signed. apply _. Defined.

Create HintDb redis.
Create Rewrite HintDb redis.

Lemma wrapu_small w z : is_unsigned w z -> wrapu w z = z.
Proof. apply Z.mod_small. Qed.

Lemma wrapu_range w z : 0 <= w -> is_unsigned w (wrapu w z).
Proof. intros. apply Z.mod_pos_bound. lia. Qed.

Lemma wraps_small w z : 0 < w -> is_signed w z -> wraps w z = z.
Proof.
  unfold wraps, is_signed. intros Hw Hz.
  assert (2 ^ w = 2 * 2 ^ (w - 1)) by (rewrite <- Z.pow_succ_r; [f_equal|]; lia).
  rewrite Z.mod_small; lia.
Qed.

Lemma wraps_range w z : 0 < w -> is_signed w (wraps w z).
Proof.
  unfold wraps, is_signed. intros Hw.
  assert (2 ^ w = 2 * 2 ^ (w - 1)) by (rewrite <- Z.pow_succ_r; [f_equal|]; lia).
  pose proof (Z.mod_pos_bound (z + 2 ^ (w - 1)) (2 ^ w) ltac:(lia)). lia.
Qed.

Lemma wraps_wrapu w z : 0 < w -> wraps w (wrapu w z) = wraps w z.
Proof.
  intros. unfold wraps, wrapu. f_equal. rewrite Zplus_mod_idemp_l. done.
Qed.

(** [ints] unfolds the range predicates and hands the goal to [lia]. *)
Ltac ints :=
  unfold is_unsigned, is_signed, LLONG_MAX, LLONG_MIN, ULLONG_MAX in *;
  change (2 ^ 8) with 256 in *; change (2 ^ 16) with 65536 in *;
  change (2 ^ 32) with 4294967296 in *; change (2 ^ (32 - 1)) with 2147483648 in *;
  change (2 ^ 63) with 9223372036854775808 in *;
  change (2 ^ (64 - 1)) with 9223372036854775808 in *;
  change (2 ^ 64) with 18446744073709551616 in *; lia.

#[export] Hint Resolve wrapu_range wraps_range : redis.

(** ** Lists *)

Section Lists.
Context {A : Type}.
Implicit Types l : list A.

Lemma take_app_len l k n : n = length l -> take n (l ++ k) = l.
Proof. intros ->. apply take_app_length. Qed.

Lemma drop_app_len l k n : n = length l -> drop n (l ++ k) = k.
Proof. intros ->. apply drop_app_length. Qed.

Lemma lookup_app_len l k x n : n = length l -> (l ++ x :: k) !! n = Some x.
Proof. intros ->. by apply list_lookup_middle. Qed.

Lemma list_split3 l i n :
  (i + n <= length l)%nat ->
  exists a b c, l = a ++ b ++ c /\ length a = i /\ length b = n.
Proof.
  intros H. exists (take i l), (take n (drop i l)), (drop n (drop i l)).
  rewrite !take_drop. split; [done|].
  rewrite length_take, length_take, length_drop. lia.
Qed.

(** *** Filters *)

Lemma filter_all (P : A -> Prop) `{!forall x, Decision (P x)} l : Forall P l -> filter P l = l.
Proof. induction 1 as [|x l Hx _ IH]; [done|]. by rewrite filter_cons_True, IH. Qed.

Lemma filter_none (P : A -> Prop) `{!forall x, Decision (P x)} l :
  Forall (fun x => ~ P x) l -> filter P l = [].
Proof. induction 1 as [|x l Hx _ IH]; [done|]. by rewrite filter_cons_False, IH. Qed.

Lemma filter_split (P Q R : A -> Prop)
  `{!forall x, Decision (P x), !forall x, Decision (Q x), !forall x, Decision (R x)} l :
  (forall x, x ∈ l -> P x <-> Q x \/ R x) -> (forall x, x ∈ l -> Q x -> ~ R x) ->
  filter P l ≡ₚ filter Q l ++ filter R l.
Proof.
  induction l as [|x l IH]; [done|]. intros Hiff Hdis.
  assert (filter P l ≡ₚ filter Q l ++ filter R l) as IHl.
  { apply IH; intros y Hy; [apply Hiff|apply Hdis]; by right. }
  specialize (Hiff x ltac:(by left)). specialize (Hdis x ltac:(by left)). rewrite !filter_cons.
  repeat case_decide; try tauto; rewrite IHl; solve_Permutation.
Qed.

End Lists.

(** ** C strings

    [str] turns a literal into the bytes the compiler stores for it, without
    the terminating zero. *)

Fixpoint str (s : string) : bytes :=
  match s with
  | EmptyString => []
  | String c s' => Z.of_N (Ascii.N_of_ascii c) :: str s'
  end.

Definition chr (s : string) : Z := hd 0 (str s).

(** Bytes of the characters the parsers compare with. *)
Definition ch_0 : Z := 48.
Definition ch_9 : Z := 57.
Definition ch_minus : Z := 45.
Definition ch_cr : Z := 13.
Definition ch_lf : Z := 10.

(** ** Checked memory

    A buffer is the list of its bytes; a pointer into it is an offset.  Every
    access is checked: [None] is an access outside the allocation, so a
    theorem that an operation returns [Some] is also its memory safety. *)

Definition rdn (m : bytes) (p n : nat) : option bytes :=
  if decide (p + n <= length m)%nat then Some (take n (drop p m)) else None.

Definition wrn (m : bytes) (p : nat) (bs : bytes) : option bytes :=
  if decide (p + length bs <= length m)%nat
  then Some (take p m ++ bs ++ drop (p + length bs) m) else None.

(** [memmove m dst src n]: as if the source were copied aside first. *)
Definition memmove (m : bytes) (dst src n : nat) : option bytes :=
  bs ← rdn m src n; wrn m dst bs.

(** [realloc] keeps the common prefix; [junk] is whatever the allocator
    leaves in the bytes that are new. *)
Definition resize (junk : nat -> Z) (m : bytes) (n : nat) : bytes :=
  take n m ++ (junk <$> seq (length m) (n - length m)).

Section Memory.
Implicit Types a b c bs m : bytes.

Lemma rdn_app a b c p n :
  p = length a -> n = length b -> rdn (a ++ b ++ c) p n = Some b.
Proof.
  intros -> ->. unfold rdn. rewrite decide_True by (rewrite !length_app; lia).
  by rewrite drop_app_length, take_app_length.
Qed.

Lemma rdn_app_nil a b p n :
  p = length a -> n = length b -> rdn (a ++ b) p n = Some b.
Proof. intros. rewrite <- (app_nil_r b) at 1. by apply rdn_app. Qed.

Lemma wrn_app a b c p bs :
  p = length a -> length bs = length b -> wrn (a ++ b ++ c) p bs = Some (a ++ bs ++ c).
Proof.
  intros -> H. unfold wrn. rewrite decide_True by (rewrite !length_app; lia).
  rewrite take_app_length, H, <- drop_drop, drop_app_length, drop_app_length. done.
Qed.

Lemma wrn_app0 b c bs : length bs = length b -> wrn (b ++ c) 0 bs = Some (bs ++ c).
Proof. intros. by apply (wrn_app [] b). Qed.

Lemma rdn_app0 b c n : n = length b -> rdn (b ++ c) 0 n = Some b.
Proof. intros. by apply (rdn_app [] b). Qed.

Lemma rdn_Some m p n bs :
  rdn m p n = Some bs -> length bs = n /\ (p + n <= length m)%nat.
Proof.
  unfold rdn. case_decide; [|done]. intros [= <-].
  rewrite length_take, length_drop. lia.
Qed.

Lemma wrn_length m p bs m' : wrn m p bs = Some m' -> length m' = length m.
Proof.
  unfold wrn. case_decide; [|done]. intros [= <-].
  rewrite !length_app, length_take, length_drop. lia.
Qed.

(** Moving a block down or up inside a buffer given by its parts. *)
Lemma memmove_app m a b c a' d e dst src n :
  m = a ++ b ++ c -> m = a' ++ d ++ e ->
  src = length a -> n = length b -> dst = length a' -> length d = n ->
  memmove m dst src n = Some (a' ++ b ++ e).
Proof.
  intros Hm Hm' -> -> -> Hd. unfold memmove.
  rewrite Hm, rdn_app by done. cbn. rewrite <- Hm, Hm'. by apply wrn_app.
Qed.

Lemma length_resize junk m n : length (resize junk m n) = n.
Proof.
  unfold resize. rewrite length_app, length_take, length_fmap, length_seq. lia.
Qed.

Lemma resize_grow junk m n :
  (length m <= n)%nat ->
  exists g, resize junk m n = m ++ g /\ length g = (n - length m)%nat.
Proof.
  intros H. eexists. unfold resize. rewrite take_ge by lia.
  split; [done|]. by rewrite length_fmap, length_seq.
Qed.

(** Reallocation keeps any prefix that still fits. *)
Lemma resize_prefix junk a b n :
  (length a <= n)%nat ->
  exists c, resize junk (a ++ b) n = a ++ c /\ length c = (n - length a)%nat.
Proof.
  intros H. unfold resize. rewrite take_app, (take_ge a) by lia. rewrite <- app_assoc.
  eexists. split; [done|].
  rewrite !length_app, length_take, length_fmap, length_seq. lia.
Qed.

Lemma resize_shrink junk m k n : n = length m -> resize junk (m ++ k) n = m.
Proof.
  intros ->. unfold resize. rewrite take_app_length, length_app.
  replace (length m - (length m + length k))%nat with 0%nat by lia.
  apply app_nil_r.
Qed.

End Memory.

#[export] Hint Resolve rdn_app rdn_app_nil wrn_app : redis.

(** ** Little endian integers *)

Fixpoint le_dec (bs : bytes) : Z :=
  match bs with [] => 0 | b :: bs => b + 256 * le_dec bs end.

Fixpoint le_enc (n : nat) (z : Z) : bytes :=
  match n with O => [] | S n => z mod 256 :: le_enc n (z / 256) end.

Definition is_byte (b : Z) : Prop := 0 <= b < 256.

#[export] Instance is_byte_dec b : Decision (is_byte b).
Proof. unfold is_byte. apply _. Defined.

Lemma length_le_enc n z : length (le_enc n z) = n.
Proof. revert z; induction n; intros; simpl; auto. Qed.

Lemma le_enc_bytes n z : Forall is_byte (le_enc n z).
Proof.
  revert z; induction n; intros; simpl; constructor; auto.
  apply Z.mod_pos_bound. lia.
Qed.

Lemma le_dec_enc n z : le_dec (le_enc n z) = z mod 256 ^ Z.of_nat n.
Proof.
  revert z; induction n; intros z.
  - by rewrite Z.mod_1_r.
  - cbn [le_enc le_dec]. rewrite IHn, Nat2Z.inj_succ, Z.pow_succ_r by lia.
    by rewrite Z.rem_mul_r by lia.
Qed.

Lemma le_dec_range bs :
  Forall is_byte bs -> 0 <= le_dec bs < 256 ^ Z.of_nat (length bs).
Proof.
  induction 1 as [|b bs Hb _ IH]; [done|].
  cbn [le_dec length]. rewrite Nat2Z.inj_succ, Z.pow_succ_r by lia.
  unfold is_byte in Hb. lia.
Qed.

Lemma le_enc_dec bs : Forall is_byte bs -> le_enc (length bs) (le_dec bs) = bs.
Proof.
  induction 1 as [|b bs Hb _ IH]; [done|]. cbn [le_dec length le_enc].
  unfold is_byte in Hb. f_equal.
  - rewrite Z.mul_comm, Z.mod_add by lia. by apply Z.mod_small.
  - rewrite Z.mul_comm, Z.div_add by lia. by rewrite Z.div_small.
Qed.

Lemma le_dec_enc_small n z :
  0 <= z < 256 ^ Z.of_nat n -> le_dec (le_enc n z) = z.
Proof. intros. rewrite le_dec_enc. by apply Z.mod_small. Qed.

#[export] Hint Resolve le_enc_bytes : redis.
#[export] Hint Rewrite length_le_enc length_resize : redis.

(** ** The C library on bytes (the "C" locale) *)

Definition isspace (c : Z) : bool := ((9 <=? c) && (c <=? 13)) || (c =? 32).
Definition isprint (c : Z) : bool := (32 <=? c) && (c <=? 126).
Definition tolower (c : Z) : Z := if (65 <=? c) && (c <=? 90) then c + 32 else c.
Definition toupper (c : Z) : Z := if (97 <=? c) && (c <=? 122) then c - 32 else c.

(** ** Bits *)

(** Two fields that do not overlap: [lor] is addition. *)
Lemma lor_shiftl_add a b k :
  0 <= k -> 0 <= b < 2 ^ k -> Z.lor (Z.shiftl a k) b = a * 2 ^ k + b.
Proof.
  intros Hk Hb. rewrite <- (Z.shiftl_mul_pow2 a k) by lia.
  assert (Z.land (Z.shiftl a k) b = 0) as H0.
  { apply Z.bits_inj'. intros n Hn. rewrite Z.land_spec, Z.bits_0.
    destruct (decide (n < k)); [by rewrite Z.shiftl_spec_low|].
    destruct (decide (b = 0)) as [->|]; [by rewrite Z.bits_0, andb_false_r|].
    rewrite (Z.bits_above_log2 b), andb_false_r; [done|lia|].
    apply Z.log2_lt_pow2; [lia|]. apply Z.lt_le_trans with (2 ^ k); [lia|].
    apply Z.pow_le_mono_r; lia. }
  rewrite <- Z.lxor_lor by done. symmetry. by apply Z.add_nocarry_lxor.
Qed.

Lemma land_ones_mod a k m : 0 <= k -> m = Z.ones k -> Z.land a m = a mod 2 ^ k.
Proof. intros Hk ->. by apply Z.land_ones. Qed.

Lemma shiftr_div a k : 0 <= k -> Z.shiftr a k = a / 2 ^ k.
Proof. apply Z.shiftr_div_pow2. Qed.
