(* ===== verification/Util.v ===== *)
(** * Integers and their decimal text (src/util.c)

    [ll2string], [digits10], [sdigits10], [string2ll] and [string2l].  The
    reference is [decimal], the usual decimal notation of an integer; the
    optimised two-digits-at-a-time printer and the overflow-checked parser
    are proved against it. *)

From S2P Require Import Prelude.

Module Util.

(** ** Reference notation *)

(** Decimal digits of [v >= 0]; [n] bounds the number of digits minus one. *)
Fixpoint udec (n : nat) (v : Z) : bytes :=
  match n with
  | O => [48 + v mod 10]
  | S n => if v <? 10 then [48 + v] else udec n (v / 10) ++ [48 + v mod 10]
  end.

(** Every integer of at most 65 bits has fewer than 64 decimal digits. *)
Definition udecimal (v : Z) : bytes := udec 64 v.

Definition decimal (v : Z) : bytes :=
  if v <? 0 then ch_minus :: udecimal (- v) else udecimal v.

(** Value of a string of digits. *)
Definition undec_from (v : Z) (s : bytes) : Z :=
  fold_left (fun v c => 10 * v + (c - 48)) s v.

Definition is_digit (c : Z) : Prop := 48 <= c <= 57.

#[export] Instance is_digit_dec c : Decision (is_digit c).
Proof. unfold is_digit. apply _. Defined.

(** ** src/util.c *)

(** [digits10] calls itself on [v / 10^12]; two levels are enough for 64
    bits, since [2^64 < 10^24]. *)
Fixpoint digits10_fuel (n : nat) (v : Z) : Z :=
  if v <? 10 then 1
  else if v <? 100 then 2
  else if v <? 1000 then 3
  else if v <? 1000000000000 then
    if v <? 100000000 then
      if v <? 1000000 then
        if v <? 10000 then 4
        else 5 + (if v >=? 100000 then 1 else 0)
      else 7 + (if v >=? 10000000 then 1 else 0)
    else if v <? 10000000000 then 9 + (if v >=? 1000000000 then 1 else 0)
    else 11 + (if v >=? 100000000000 then 1 else 0)
  else match n with
       | O => 0
       | S n => 12 + digits10_fuel n (v / 1000000000000)
       end.

Definition digits10 (v : Z) : Z := digits10_fuel 2 v.

(** The magnitude of a [long long] as an [unsigned long long]: negating
    [LLONG_MIN] is avoided, as in the code. *)
Definition llabs (v : Z) : Z :=
  if v <? 0 then
    if v =? LLONG_MIN then u64 (LLONG_MAX + 1) else u64 (s64 (- v))
  else v.

Definition sdigits10 (v : Z) : Z :=
  if v <? 0 then digits10 (llabs v) + 1 else digits10 v.

(** The table of the two digit numbers. *)
Definition digits : bytes := str
  "00010203040506070809101112131415161718192021222324252627282930313233343536373839404142434445464748495051525354555657585960616263646566676869707172737475767778798081828384858687888990919293949596979899"%string.

(** The loop that writes two digits per turn, from the right; ten turns are
    enough for the 20 digits of 64 bits. *)
Fixpoint ll2string_loop (n : nat) (dst : bytes) (next : nat) (value : Z)
  : option (bytes * nat * Z) :=
  if value <? 100 then Some (dst, next, value)
  else match n with
  | O => None
  | S n =>
    let i := Z.to_nat (value mod 100 * 2) in
    d1 ← digits !! (i + 1)%nat;
    d0 ← digits !! i;
    dst ← wrn dst next [d1];
    dst ← wrn dst (next - 1) [d0];
    ll2string_loop n dst (next - 2) (value / 100)
  end.

(** The writes after the loop: the last one or two digits. *)
Definition ll2string_last (dst : bytes) (next : nat) (value : Z) : option bytes :=
  if value <? 10 then wrn dst next [48 + value]
  else
    let i := Z.to_nat (value * 2) in
    d1 ← digits !! (i + 1)%nat;
    d0 ← digits !! i;
    dst ← wrn dst next [d1];
    wrn dst (next - 1) [d0].

(** [ll2string dst dstlen svalue]: [Some (0, dst)] when the buffer is too
    small, [Some (length, dst')] otherwise; [None] would be a write outside
    of [dst]. *)
Definition ll2string (dst : bytes) (dstlen : Z) (svalue : Z) : option (Z * bytes) :=
  let negative := if svalue <? 0 then 1 else 0 in
  let value := llabs svalue in
  let length := digits10 value + negative in
  if length >=? dstlen then Some (0, dst)
  else
    dst ← wrn dst (Z.to_nat length) [0];
    '(dst, next, value) ← ll2string_loop 10 dst (Z.to_nat length - 1) value;
    dst ← ll2string_last dst next value;
    dst ← (if negative =? 1 then wrn dst 0 [ch_minus] else Some dst);
    Some (length, dst).

(** The digit loop of [string2ll]: the accumulated value and the bytes that
    are left, [None] on overflow of [unsigned long long]. *)
Fixpoint string2ll_digits (p : bytes) (v : Z) : option (Z * bytes) :=
  match p with
  | [] => Some (v, [])
  | c :: p' =>
    if (48 <=? c) && (c <=? 57) then
      if v >? ULLONG_MAX / 10 then None
      else
        let v := v * 10 in
        if v >? ULLONG_MAX - (c - 48) then None
        else string2ll_digits p' (v + (c - 48))
    else Some (v, p)
  end.

Definition string2ll (s : bytes) : option Z :=
  match s with
  | [] => None
  | c0 :: s' =>
    if (length s =? 1)%nat && (c0 =? ch_0) then Some 0
    else
      let negative := c0 =? ch_minus in
      let p := if negative then s' else s in
      match p with
      | [] => None
      | c :: p' =>
        if (49 <=? c) && (c <=? 57) then
          match string2ll_digits p' (c - 48) with
          | None => None
          | Some (v, _ :: _) => None
          | Some (v, []) =>
            if negative then
              if v >? u64 (- (LLONG_MIN + 1)) + 1 then None
              else Some (s64 (u64 (- v)))
            else if v >? LLONG_MAX then None else Some v
          end
        else if (c =? ch_0) && (length s =? 1)%nat then Some 0
        else None
      end
  end.

(** [long] and [long long] have the same range here. *)
Definition string2l (s : bytes) : option Z :=
  match string2ll s with
  | None => None
  | Some v => if (v <? LLONG_MIN) || (v >? LLONG_MAX) then None else Some v
  end.

(** ** The reference notation *)

Lemma pow10_S n : 10 ^ Z.of_nat (S n) = 10 * 10 ^ Z.of_nat n.
Proof. rewrite Nat2Z.inj_succ, Z.pow_succ_r; lia. Qed.

Lemma udec_fuel n m v :
  0 <= v < 10 ^ Z.of_nat (S n) -> (n <= m)%nat -> udec m v = udec n v.
Proof.
  revert m v. induction n as [|n IH]; intros m v Hv Hm.
  - destruct m; [done|]. change (10 ^ Z.of_nat 1) with 10 in Hv. cbn.
    rewrite (proj2 (Z.ltb_lt _ _)) by dlia. by rewrite Z.mod_small by dlia.
  - destruct m as [|m]; [dlia|]. rewrite pow10_S in Hv. cbn.
    destruct (v <? 10); [done|]. rewrite (IH m); [done| |dlia]. dlia.
Qed.

Lemma udecimal_digit v : 0 <= v < 10 -> udecimal v = [48 + v].
Proof.
  intros. unfold udecimal. rewrite (udec_fuel 0) by (try exact H; dlia).
  cbn. by rewrite Z.mod_small.
Qed.

Lemma udecimal_step v :
  10 <= v < 10 ^ 64 -> udecimal v = udecimal (v / 10) ++ [48 + v mod 10].
Proof.
  intros Hv. unfold udecimal at 1.
  change (udec 64 v) with (if v <? 10 then [48 + v] else udec 63 (v / 10) ++ [48 + v mod 10]).
  rewrite (proj2 (Z.ltb_ge _ _)) by dlia.
  assert (udecimal (v / 10) = udec 63 (v / 10)) as ->; [|done].
  apply udec_fuel; [change (Z.of_nat (S 63)) with 64|]; dlia.
Qed.

(** Induction along the digits of an integer. *)
Lemma udecimal_ind (P : Z -> Prop) :
  (forall v, 0 <= v < 10 -> P v) ->
  (forall v, 10 <= v < 10 ^ 64 -> P (v / 10) -> P v) ->
  forall v, 0 <= v < 10 ^ 64 -> P v.
Proof.
  intros H0 HS v Hv. generalize Hv.
  apply (Z_lt_induction (fun v => 0 <= v < 10 ^ 64 -> P v)); [|lia].
  clear v Hv. intros v IH Hv.
  destruct (decide (v < 10)); [apply H0; lia|]. apply HS; [lia|]. apply IH; dlia.
Qed.

Lemma undec_from_snoc v s c : undec_from v (s ++ [c]) = 10 * undec_from v s + (c - 48).
Proof. unfold undec_from. by rewrite fold_left_app. Qed.

Lemma udecimal_digits v : 0 <= v < 10 ^ 64 -> Forall is_digit (udecimal v).
Proof.
  apply (udecimal_ind (fun v => Forall is_digit (udecimal v))); clear; intros v Hv.
  - rewrite udecimal_digit by dlia. repeat constructor; unfold is_digit; dlia.
  - intros IH. rewrite udecimal_step by dlia. apply Forall_app; split; [done|].
    pose proof (Z.mod_pos_bound v 10). repeat constructor; unfold is_digit; dlia.
Qed.

Lemma undec_udecimal v : 0 <= v < 10 ^ 64 -> undec_from 0 (udecimal v) = v.
Proof.
  apply (udecimal_ind (fun v => undec_from 0 (udecimal v) = v)); clear; intros v Hv.
  - rewrite udecimal_digit by dlia. cbn. dlia.
  - intros IH. rewrite udecimal_step, undec_from_snoc, IH by dlia. dlia.
Qed.

Lemma udecimal_length v k :
  (0 < k)%nat -> 0 <= v < 10 ^ 64 -> 10 ^ Z.of_nat (k - 1) <= v < 10 ^ Z.of_nat k ->
  length (udecimal v) = k.
Proof.
  revert v. induction k as [|k IH]; [dlia|]. intros v _ Hv Hk.
  destruct (decide (k = 0)%nat) as [->|Hk0].
  { change (10 ^ Z.of_nat 1) with 10 in Hk. by rewrite udecimal_digit by dlia. }
  rewrite pow10_S in Hk. replace (S k - 1)%nat with (S (k - 1)) in Hk by dlia.
  rewrite pow10_S in Hk. pose proof (Z.pow_pos_nonneg 10 (Z.of_nat (k - 1))).
  rewrite udecimal_step by dlia. rewrite length_app, (IH (v / 10)) by dlia. cbn. dlia.
Qed.

Lemma udecimal_ne v : 0 <= v < 10 ^ 64 -> (0 < length (udecimal v))%nat.
Proof.
  intros Hv. destruct (decide (v < 10)).
  - rewrite udecimal_digit by lia. cbn. lia.
  - rewrite udecimal_step by dlia. rewrite length_app. cbn. lia.
Qed.

(** A digit string that does not start with a zero is its own notation. *)
Lemma udecimal_unique d s :
  49 <= d <= 57 -> Forall is_digit s -> undec_from 0 (d :: s) < 10 ^ 64 ->
  udecimal (undec_from 0 (d :: s)) = d :: s /\ 0 < undec_from 0 (d :: s).
Proof.
  intros Hd. induction s as [|c s IH] using rev_ind; intros Hs Hlt.
  - change (undec_from 0 [d]) with (d - 48) in *.
    rewrite udecimal_digit by lia. split; [f_equal|]; lia.
  - apply Forall_app in Hs as [Hs [Hc _]%Forall_cons]. unfold is_digit in Hc.
    rewrite app_comm_cons in *. rewrite undec_from_snoc in *.
    destruct IH as [IH Hpos]; [done| dlia |].
    rewrite udecimal_step by dlia. split; [|dlia].
    replace ((10 * undec_from 0 (d :: s) + (c - 48)) / 10) with (undec_from 0 (d :: s)) by dlia.
    rewrite IH. repeat f_equal. dlia.
Qed.

(** The notation of a positive number: a non-zero digit, then digits. *)
Lemma udecimal_pos v :
  1 <= v < 10 ^ 64 ->
  exists d s, udecimal v = d :: s /\ 49 <= d <= 57 /\ Forall is_digit s /\
              undec_from 0 (d :: s) = v.
Proof.
  intros Hv.
  assert (exists d s, udecimal v = d :: s /\ 49 <= d <= 57) as (d & s & Hs & Hd).
  { assert (0 <= v < 10 ^ 64) as H by lia. generalize (proj1 Hv).
    apply (udecimal_ind (fun v => 1 <= v -> exists d s, udecimal v = d :: s /\ 49 <= d <= 57));
      [| |done]; clear; intros v Hv.
    - intros. rewrite udecimal_digit by lia. eexists _, _. split; [done|]. lia.
    - intros IH _. rewrite udecimal_step by lia. destruct IH as (d & s & -> & Hd); [dlia|].
      by eexists _, _. }
  exists d, s. pose proof (udecimal_digits v ltac:(lia)) as Hdig.
  pose proof (undec_udecimal v ltac:(lia)) as Hval. rewrite Hs in *.
  apply Forall_cons in Hdig as [_ Hdig]. done.
Qed.

(** ** The parser *)

Lemma undec_from_mono v s : 0 <= v -> Forall is_digit s -> v <= undec_from v s.
Proof.
  intros Hv Hs. revert v Hv. induction Hs as [|c s Hc _ IH]; intros v Hv; cbn; [lia|].
  unfold is_digit in Hc. fold (undec_from (10 * v + (c - 48)) s).
  specialize (IH (10 * v + (c - 48))). lia.
Qed.

(** The digit loop computes the value, and overflows exactly when the value
    does not fit in 64 bits. *)
Lemma string2ll_digits_all p v :
  0 <= v <= ULLONG_MAX -> Forall is_digit p ->
  string2ll_digits p v =
    if decide (undec_from v p <= ULLONG_MAX) then Some (undec_from v p, []) else None.
Proof.
  intros Hv Hp. revert v Hv. induction Hp as [|c p Hc Hp IH]; intros v Hv.
  - cbn. by rewrite decide_True by lia.
  - unfold is_digit in Hc. cbn [string2ll_digits].
    rewrite (proj2 (Z.leb_le 48 c)), (proj2 (Z.leb_le c 57)) by lia. cbn [andb].
    change (undec_from v (c :: p)) with (undec_from (10 * v + (c - 48)) p).
    pose proof (undec_from_mono (10 * v + (c - 48)) p ltac:(lia) Hp).
    destruct (Z.gtb_spec v (ULLONG_MAX / 10)) as [Ho|Ho].
    { rewrite decide_False; [done|]. unfold ULLONG_MAX in *. dlia. }
    destruct (Z.gtb_spec (v * 10) (ULLONG_MAX - (c - 48))).
    { rewrite decide_False; [done|]. lia. }
    replace (v * 10 + (c - 48)) with (10 * v + (c - 48)) by lia. apply IH. lia.
Qed.

Lemma string2ll_digits_Some p v v' :
  string2ll_digits p v = Some (v', []) -> Forall is_digit p.
Proof.
  revert v. induction p as [|c p IH]; intros v; cbn; [constructor|].
  destruct (Z.leb_spec 48 c); cbn; [|done].
  destruct (Z.leb_spec c 57); cbn; [|done].
  do 2 (case_match; [done|]). intros ?%IH. by constructor.
Qed.

(** What is left of [string2ll] after the sign. *)
Definition magnitude (negative : bool) (v : Z) : option Z :=
  if negative then if decide (v <= 2 ^ 63) then Some (- v) else None
  else if decide (v < 2 ^ 63) then Some v else None.

Lemma string2ll_head (negative : bool) d p :
  49 <= d <= 57 -> Forall is_digit p ->
  match string2ll_digits p (d - 48) with
  | None => None
  | Some (v, _ :: _) => None
  | Some (v, []) =>
    if negative then
      if v >? u64 (- (LLONG_MIN + 1)) + 1 then None else Some (s64 (u64 (- v)))
    else if v >? LLONG_MAX then None else Some v
  end = magnitude negative (undec_from 0 (d :: p)).
Proof.
  intros Hd Hp. rewrite string2ll_digits_all by (done || ints).
  change (undec_from 0 (d :: p)) with (undec_from (d - 48) p).
  pose proof (undec_from_mono (d - 48) p ltac:(lia) Hp) as Hpos.
  generalize dependent (undec_from (d - 48) p). intros v Hpos. unfold magnitude.
  change (u64 (- (LLONG_MIN + 1)) + 1) with (2 ^ 63).
  destruct (decide (v <= ULLONG_MAX)) as [Hv|Hv]; cycle 1.
  { destruct negative; rewrite decide_False by ints; done. }
  destruct negative.
  - destruct (Z.gtb_spec v (2 ^ 63)).
    + by rewrite decide_False by lia.
    + rewrite decide_True, wraps_wrapu by lia. by rewrite wraps_small by ints.
  - destruct (Z.gtb_spec v LLONG_MAX); [rewrite decide_False by ints|rewrite decide_True by ints]; done.
Qed.

Ltac leb_true := rewrite (proj2 (Z.leb_le _ _)), (proj2 (Z.leb_le _ _)) by lia; cbn [andb].

Lemma string2ll_nat d s :
  49 <= d <= 57 -> Forall is_digit s ->
  string2ll (d :: s) = magnitude false (undec_from 0 (d :: s)).
Proof.
  intros Hd Hs. unfold string2ll, ch_0, ch_minus.
  rewrite (proj2 (Z.eqb_neq d 48)), (proj2 (Z.eqb_neq d 45)), andb_false_r by lia.
  leb_true. by apply (string2ll_head false).
Qed.

Lemma string2ll_neg d s :
  49 <= d <= 57 -> Forall is_digit s ->
  string2ll (ch_minus :: d :: s) = magnitude true (undec_from 0 (d :: s)).
Proof.
  intros Hd Hs. cbn [string2ll length Nat.eqb andb]. rewrite Z.eqb_refl.
  leb_true. by apply (string2ll_head true).
Qed.

Lemma string2ll_decimal v : is_llong v -> string2ll (decimal v) = Some v.
Proof.
  intros Hv. unfold decimal. destruct (Z.ltb_spec v 0) as [Hneg|Hpos].
  - destruct (udecimal_pos (- v)) as (d & s & -> & Hd & Hs & Hval); [ints|].
    rewrite string2ll_neg, Hval by done. unfold magnitude.
    rewrite decide_True by ints. f_equal. lia.
  - destruct (decide (v = 0)) as [->|]; [done|].
    destruct (udecimal_pos v) as (d & s & -> & Hd & Hs & Hval); [ints|].
    rewrite string2ll_nat, Hval by done. unfold magnitude. by rewrite decide_True by ints.
Qed.

(** What the parser accepts: a lone zero, or an optional minus sign, a
    non-zero digit and digits. *)
Lemma string2ll_shape s v :
  string2ll s = Some v ->
  s = [ch_0] \/
  exists d s', 49 <= d <= 57 /\ Forall is_digit s' /\
    (s = d :: s' \/ s = ch_minus :: d :: s').
Proof.
  destruct s as [|c0 s]; [done|]. cbn [string2ll].
  destruct ((length (c0 :: s) =? 1)%nat && (c0 =? ch_0)) eqn:E0.
  { intros _. left. apply andb_true_iff in E0 as [El%Nat.eqb_eq ->%Z.eqb_eq].
    by destruct s. }
  destruct (Z.eqb_spec c0 ch_minus) as [->|_]; cbn [andb].
  - destruct s as [|d s]; [done|].
    destruct ((49 <=? d) && (d <=? 57)) eqn:Ed; [|by rewrite andb_false_r].
    apply andb_true_iff in Ed as [?%Z.leb_le ?%Z.leb_le].
    destruct (string2ll_digits s (d - 48)) as [[x [|??]]|] eqn:El; try done.
    intros _. right. exists d, s. split; [done|]. split; [by eapply string2ll_digits_Some|auto].
  - destruct ((49 <=? c0) && (c0 <=? 57)) eqn:Ed; [|by rewrite andb_comm, E0].
    apply andb_true_iff in Ed as [?%Z.leb_le ?%Z.leb_le].
    destruct (string2ll_digits s (c0 - 48)) as [[x [|??]]|] eqn:El; try done.
    intros _. right. exists c0, s. split; [done|]. split; [by eapply string2ll_digits_Some|auto].
Qed.

Lemma string2ll_spec s v : string2ll s = Some v <-> is_llong v /\ s = decimal v.
Proof.
  split; [|intros [Hv ->]; by apply string2ll_decimal].
  intros H. destruct (string2ll_shape s v H) as [->|(d & s' & Hd & Hs & [->| ->])].
  - cbn in H. injection H as <-. split; [ints|done].
  - rewrite string2ll_nat in H by done. revert H.
    generalize (udecimal_unique d s' Hd Hs). generalize (undec_from 0 (d :: s')).
    unfold magnitude. intros x Hu H. case_decide; [|done]. injection H as <-.
    destruct Hu as [Heq Hpos]; [ints|]. unfold decimal.
    rewrite (proj2 (Z.ltb_ge _ _)), Heq by lia. split; [ints|done].
  - rewrite string2ll_neg in H by done. revert H.
    generalize (udecimal_unique d s' Hd Hs). generalize (undec_from 0 (d :: s')).
    unfold magnitude. intros x Hu H. case_decide; [|done]. injection H as <-.
    destruct Hu as [Heq Hpos]; [ints|]. unfold decimal.
    rewrite (proj2 (Z.ltb_lt _ _)), Z.opp_involutive, Heq by lia. split; [ints|done].
Qed.

(** ** The printer *)

Lemma llabs_spec v : is_llong v -> llabs v = Z.abs v.
Proof.
  intros Hv. unfold llabs. destruct (Z.ltb_spec v 0); [|lia].
  destruct (Z.eqb_spec v LLONG_MIN) as [->|]; [done|].
  rewrite wraps_small by ints. rewrite wrapu_small by ints. lia.
Qed.

Lemma udecimal_length_between v lo hi k :
  lo = 10 ^ Z.of_nat (k - 1) -> hi = 10 ^ Z.of_nat k -> (0 < k <= 64)%nat ->
  lo <= v < hi -> Z.of_nat (length (udecimal v)) = Z.of_nat k.
Proof.
  intros -> -> Hk Hv. f_equal. apply udecimal_length; [lia| |done].
  assert (10 ^ Z.of_nat k <= 10 ^ 64) by (apply Z.pow_le_mono_r; lia).
  pose proof (Z.pow_pos_nonneg 10 (Z.of_nat (k - 1))). lia.
Qed.

Lemma udecimal_length_zero v : 0 <= v < 10 -> Z.of_nat (length (udecimal v)) = 1.
Proof. intros. by rewrite udecimal_digit by lia. Qed.

(** Dividing by [10^12] removes twelve digits. *)
Lemma udecimal_length_div v k :
  10 ^ Z.of_nat k <= v < 10 ^ 64 ->
  length (udecimal v) = (k + length (udecimal (v / 10 ^ Z.of_nat k)))%nat.
Proof.
  revert v. induction k as [|k IH]; intros v Hv.
  - by rewrite Z.div_1_r.
  - rewrite pow10_S in *. pose proof (Z.pow_pos_nonneg 10 (Z.of_nat k)).
    rewrite udecimal_step, length_app, IH by dlia.
    rewrite Z.div_div by lia. cbn. lia.
Qed.

(** The twelve thresholds below [10^12]. *)
Lemma digits10_small n v :
  0 <= v < 10 ^ 12 -> digits10_fuel n v = Z.of_nat (length (udecimal v)).
Proof.
  intros Hv.
  assert (forall k lo hi, lo <= v < hi -> lo = 10 ^ Z.of_nat (k - 1) ->
            hi = 10 ^ Z.of_nat k -> (0 < k <= 64)%nat ->
            Z.of_nat (length (udecimal v)) = Z.of_nat k) as Hlen
    by (intros; by eapply udecimal_length_between).
  destruct (decide (v < 10)).
  { rewrite udecimal_length_zero by lia. destruct n; cbn; by rewrite (proj2 (Z.ltb_lt _ _)) by lia. }
  destruct n; cbn [digits10_fuel]; repeat (case_match; rewrite ?Z.geb_leb in * );
    rewrite ?Z.ltb_lt, ?Z.ltb_ge, ?Z.leb_le, ?Z.leb_gt in *; try lia; symmetry;
    first [ by apply (Hlen 2%nat 10 100); [lia|reflexivity..|lia]
          | by apply (Hlen 3%nat 100 1000); [lia|reflexivity..|lia]
          | by apply (Hlen 4%nat 1000 10000); [lia|reflexivity..|lia]
          | by apply (Hlen 5%nat 10000 100000); [lia|reflexivity..|lia]
          | by apply (Hlen 6%nat 100000 1000000); [lia|reflexivity..|lia]
          | by apply (Hlen 7%nat 1000000 10000000); [lia|reflexivity..|lia]
          | by apply (Hlen 8%nat 10000000 100000000); [lia|reflexivity..|lia]
          | by apply (Hlen 9%nat 100000000 1000000000); [lia|reflexivity..|lia]
          | by apply (Hlen 10%nat 1000000000 10000000000); [lia|reflexivity..|lia]
          | by apply (Hlen 11%nat 10000000000 100000000000); [lia|reflexivity..|lia]
          | by apply (Hlen 12%nat 100000000000 1000000000000); [lia|reflexivity..|lia] ].
Qed.

Lemma digits10_big n v :
  10 ^ 12 <= v -> digits10_fuel (S n) v = 12 + digits10_fuel n (v / 10 ^ 12).
Proof.
  intros Hv. cbn [digits10_fuel]. by do 4 (rewrite (proj2 (Z.ltb_ge _ _)) by lia).
Qed.

Lemma digits10_spec v : is_u64 v -> digits10 v = Z.of_nat (length (udecimal v)).
Proof.
  intros Hv. unfold digits10. destruct (decide (v < 10 ^ 12)).
  { apply digits10_small. ints. }
  rewrite digits10_big, (udecimal_length_div v 12), digits10_small;
    unfold is_unsigned in *; change (Z.of_nat 12) with 12; dlia.
Qed.

Lemma decimal_length v :
  is_llong v ->
  Z.of_nat (length (decimal v)) = digits10 (llabs v) + (if v <? 0 then 1 else 0).
Proof.
  intros Hv. rewrite llabs_spec, digits10_spec by ints. unfold decimal.
  destruct (Z.ltb_spec v 0); cbn [length]; rewrite ?(Z.abs_neq v), ?(Z.abs_eq v) by lia; lia.
Qed.

Lemma udec_length n v : (length (udec n v) <= S n)%nat.
Proof.
  revert v. induction n as [|n IH]; intros v; cbn [udec length]; [lia|].
  destruct (v <? 10); cbn [length]; [lia|]. rewrite length_app. cbn. specialize (IH (v / 10)). lia.
Qed.

Lemma udecimal_length_le n v :
  0 <= v < 10 ^ Z.of_nat (S n) -> (n <= 63)%nat -> (0 < length (udecimal v) <= S n)%nat.
Proof.
  intros Hv Hn. assert (10 ^ Z.of_nat (S n) <= 10 ^ 64) by (apply Z.pow_le_mono_r; lia).
  split; [apply udecimal_ne; lia|]. unfold udecimal. rewrite (udec_fuel n) by lia.
  apply udec_length.
Qed.

(** Twenty digits are enough for 64 bits, sign included. *)
Lemma udecimal_length_20 v : is_u64 v -> (0 < length (udecimal v) <= 20)%nat.
Proof. intros. apply (udecimal_length_le 19); [change (Z.of_nat 20) with 20; ints|lia]. Qed.

Lemma decimal_length_20 v : is_llong v -> (0 < length (decimal v) <= 20)%nat.
Proof.
  intros Hv. unfold decimal. destruct (Z.ltb_spec v 0); cbn [length].
  - pose proof (udecimal_length_le 18 (- v)). change (Z.of_nat 19) with 19 in *.
    enough (0 < length (udecimal (- v)) <= 19)%nat by lia. apply H0; [ints|lia].
  - apply udecimal_length_20. ints.
Qed.

Lemma sdigits10_spec v : is_llong v -> sdigits10 v = Z.of_nat (length (decimal v)).
Proof.
  intros Hv. rewrite decimal_length by done. unfold sdigits10.
  destruct (Z.ltb_spec v 0); [done|]. rewrite llabs_spec, Z.abs_eq by done. lia.
Qed.

(** The table holds the tens and the units of each two digit number. *)
Lemma digits_lookup r :
  0 <= r < 100 ->
  digits !! Z.to_nat (r * 2) = Some (48 + r / 10) /\
  digits !! (Z.to_nat (r * 2) + 1)%nat = Some (48 + r mod 10).
Proof.
  intros Hr.
  assert (forallb (fun n => bool_decide (
            digits !! (n * 2)%nat = Some (48 + Z.of_nat n / 10) /\
            digits !! (n * 2 + 1)%nat = Some (48 + Z.of_nat n mod 10))) (seq 0 100) = true)
    as Hall by (vm_compute; reflexivity).
  rewrite forallb_forall in Hall. specialize (Hall (Z.to_nat r)).
  rewrite bool_decide_eq_true, Z2Nat.id in Hall by lia.
  replace (Z.to_nat (r * 2)) with (Z.to_nat r * 2)%nat by lia.
  apply Hall, in_seq. lia.
Qed.

Lemma udecimal_two v :
  10 <= v < 100 -> udecimal v = [48 + v / 10; 48 + v mod 10].
Proof. intros. by rewrite udecimal_step, udecimal_digit by dlia. Qed.

Lemma udecimal_step2 v :
  100 <= v < 10 ^ 64 ->
  udecimal v = udecimal (v / 100) ++ [48 + (v mod 100) / 10; 48 + (v mod 100) mod 10].
Proof.
  intros. rewrite udecimal_step, udecimal_step by dlia.
  rewrite Z.div_div, <- app_assoc by lia. cbn [app]. change (10 * 10) with 100.
  assert ((v / 10) mod 10 = (v mod 100) / 10) as -> by dlia.
  by assert (v mod 10 = (v mod 100) mod 10) as -> by dlia.
Qed.

(** Writing two bytes that end at offset [next]. *)
Lemma wrn_two pre x y post d0 d1 next :
  next = (length pre + 1)%nat ->
  (dst ← wrn (pre ++ [x; y] ++ post) next [d1]; wrn dst (next - 1) [d0])
  = Some (pre ++ [d0; d1] ++ post).
Proof.
  intros ->.
  rewrite (app_assoc pre [x; y] post).
  change [x; y] with ([x] ++ [y]). rewrite (app_assoc pre), <- app_assoc.
  rewrite wrn_app by (rewrite ?length_app; cbn; lia). cbn.
  rewrite <- app_assoc. apply wrn_app; cbn; lia.
Qed.

Lemma ll2string_loop_spec n dst pre mid post value next :
  dst = pre ++ mid ++ post -> 0 <= value < 10 ^ 64 ->
  value < 100 * 100 ^ Z.of_nat n ->
  length mid = length (udecimal value) -> next = (length pre + length mid - 1)%nat ->
  exists mid' suf value' next',
    ll2string_loop n dst next value = Some (pre ++ mid' ++ suf ++ post, next', value') /\
    0 <= value' < 100 /\ udecimal value = udecimal value' ++ suf /\
    length mid' = length (udecimal value') /\ next' = (length pre + length mid' - 1)%nat.
Proof.
  revert dst mid post value next. induction n as [|n IH]; intros dst mid post value next.
  all: intros -> Hv Hlt Hmid ->; cbn [ll2string_loop]; destruct (Z.ltb_spec value 100).
  1, 3: exists mid, [], value, (length pre + length mid - 1)%nat; rewrite app_nil_r; auto with lia.
  { change (100 ^ Z.of_nat 0) with 1 in Hlt. lia. }
  rewrite Nat2Z.inj_succ, Z.pow_succ_r in Hlt by lia.
  destruct (digits_lookup (value mod 100)) as [-> ->]; [dlia|]. cbn [mbind option_bind].
  rewrite udecimal_step2 in Hmid |- * by lia. rewrite length_app in Hmid. cbn [length] in Hmid.
  pose proof (udecimal_ne (value / 100) ltac:(dlia)).
  destruct (list_split3 mid (length mid - 2) 2) as (m1 & m2 & m3 & -> & Hm1 & Hm2); [lia|].
  rewrite !length_app in *. destruct m3; [|cbn in *; lia]. rewrite app_nil_r in *.
  destruct m2 as [|x [|y [|]]]; try (cbn in *; lia). cbn [length] in *.
  pose proof (wrn_two (pre ++ m1) x y post (48 + value mod 100 / 10)
    (48 + (value mod 100) mod 10) (length pre + (length m1 + 2) - 1)%nat) as Hw.
  rewrite length_app in Hw. specialize (Hw ltac:(lia)).
  replace (pre ++ (m1 ++ [x; y]) ++ post) with ((pre ++ m1) ++ [x; y] ++ post)
    by (by rewrite <- !app_assoc).
  cbn [length]. rewrite Nat.add_0_r.
  destruct (wrn _ _ _) as [d1|]; [|done]. cbn [mbind option_bind] in Hw |- *. rewrite Hw.
  cbn [mbind option_bind].
  edestruct (IH ((pre ++ m1) ++ [48 + value mod 100 / 10; 48 + (value mod 100) mod 10] ++ post)
    m1 ([48 + value mod 100 / 10; 48 + (value mod 100) mod 10] ++ post) (value / 100))
    as (mid' & suf & value' & next' & Hl & Hv' & Hd & Hm & Hn);
    [by rewrite <- app_assoc|dlia|dlia|lia|reflexivity|].
  exists mid', (suf ++ [48 + value mod 100 / 10; 48 + (value mod 100) mod 10]), value', next'.
  split; [|by rewrite Hd, <- app_assoc].
  rewrite <- (app_assoc suf), <- Hl. f_equal. lia.
Qed.

Lemma ll2string_last_spec pre mid post value :
  0 <= value < 100 -> length mid = length (udecimal value) ->
  ll2string_last (pre ++ mid ++ post) (length pre + length mid - 1) value
  = Some (pre ++ udecimal value ++ post).
Proof.
  intros Hv Hm. unfold ll2string_last. destruct (Z.ltb_spec value 10).
  - rewrite udecimal_digit in * by lia. cbn in Hm.
    apply wrn_app; cbn; lia.
  - destruct (digits_lookup value) as [-> ->]; [lia|]. cbn [mbind option_bind].
    rewrite udecimal_two in * by lia. destruct mid as [|x [|y [|]]]; try done.
    apply wrn_two. cbn. lia.
Qed.

(** Digits and terminator, written behind a prefix that holds the sign. *)
(** Digits and terminator, written behind a prefix that holds the sign. *)
Lemma ll2string_digits {B} (k : bytes -> option B) pre mid post value next :
  0 <= value < 10 ^ 20 -> length mid = length (udecimal value) ->
  next = (length pre + length mid - 1)%nat ->
  ('(dst, next, value') ← ll2string_loop 10 (pre ++ mid ++ post) next value;
   dst ← ll2string_last dst next value'; k dst) = k (pre ++ udecimal value ++ post).
Proof.
  intros Hv Hm ->.
  edestruct (ll2string_loop_spec 10 (pre ++ mid ++ post) pre mid post value)
    as (mid' & suf & value' & next' & -> & Hv' & -> & Hm' & ->);
    [done|lia|change (Z.of_nat 10) with 10; lia|done|reflexivity|].
  cbn [mbind option_bind]. rewrite ll2string_last_spec by done. by rewrite <- app_assoc.
Qed.

Lemma ll2string_spec dst dstlen v :
  is_llong v -> 0 <= dstlen <= Z.of_nat (length dst) ->
  ll2string dst dstlen v =
    if decide (Z.of_nat (length (decimal v)) < dstlen)
    then Some (Z.of_nat (length (decimal v)),
               decimal v ++ [0] ++ drop (S (length (decimal v))) dst)
    else Some (0, dst).
Proof.
  intros Hv Hdst. unfold ll2string. rewrite <- decimal_length by done.
  remember (length (decimal v)) as n eqn:Hn. rewrite Z.geb_leb.
  destruct (Z.leb_spec dstlen (Z.of_nat n)); [by rewrite decide_False by lia|].
  rewrite decide_True, Nat2Z.id by lia.
  destruct (list_split3 dst n 1) as (mid & x & post & -> & Hmid & Hx); [lia|].
  rewrite wrn_app by (cbn; lia). cbn [mbind option_bind].
  replace (drop (S n) (mid ++ x ++ post)) with post
    by (symmetry; rewrite app_assoc; apply drop_app_len; rewrite length_app; lia).
  assert (Hu : 0 <= Z.abs v < 10 ^ 20) by ints.
  rewrite llabs_spec by done. unfold decimal in *.
  destruct (Z.ltb_spec v 0) as [Hneg|Hpos]; cbn [Z.eqb Pos.eqb].
  - destruct mid as [|y mid]; [by subst|]. cbn [length] in Hn, Hmid.
    rewrite <- (Z.abs_neq v) in * by lia.
    change ((y :: mid) ++ [0] ++ post) with ([y] ++ mid ++ [0] ++ post).
    rewrite ll2string_digits by (cbn [length]; lia).
    by rewrite wrn_app0.
  - rewrite (Z.abs_eq v) in * by lia. change (mid ++ [0] ++ post) with ([] ++ mid ++ [0] ++ post).
    by rewrite ll2string_digits by (cbn [length]; lia).
Qed.

(** ** Properties *)

(** C22. [string2ll] accepts exactly the decimal notations of the [long long]
    integers, without a plus sign, leading zeros, spaces or any other byte,
    and returns the integer they stand for: nothing overflows and nothing
    else is accepted. *)
Theorem string2ll_exact s v : string2ll s = Some v <-> is_llong v /\ s = decimal v.
Proof. apply string2ll_spec. Qed.

(** C23. [ll2string] never writes outside of its buffer; it returns zero and
    leaves the buffer alone exactly when the notation and its terminator do
    not fit, and otherwise writes the decimal notation, from which [string2ll]
    recovers the integer. *)
Theorem ll2string_string2ll dst dstlen v :
  is_llong v -> 0 <= dstlen <= Z.of_nat (length dst) ->
  exists n dst', ll2string dst dstlen v = Some (n, dst') /\
    ((n = 0 /\ dst' = dst /\ dstlen <= sdigits10 v) \/
     (n = sdigits10 v /\ n < dstlen /\
      dst' = decimal v ++ 0 :: drop (S (Z.to_nat n)) dst /\
      string2ll (take (Z.to_nat n) dst') = Some v)).
Proof.
  intros Hv Hd. rewrite ll2string_spec, sdigits10_spec by done. case_decide.
  - eexists _, _. split; [done|]. right. rewrite Nat2Z.id.
    rewrite take_app_length, string2ll_decimal by done. done.
  - eexists _, _. split; [done|]. left. split_and!; [done|done|lia].
Qed.

Lemma ll2string_string2ll_witness :
  exists n dst', ll2string (replicate 21 7) 21 LLONG_MIN = Some (n, dst') /\
    ((n = 0 /\ dst' = replicate 21 7 /\ 21 <= sdigits10 LLONG_MIN) \/
     (n = sdigits10 LLONG_MIN /\ n < 21 /\
      dst' = decimal LLONG_MIN ++ 0 :: drop (S (Z.to_nat n)) (replicate 21 7) /\
      string2ll (take (Z.to_nat n) dst') = Some LLONG_MIN)).
Proof.
  apply (ll2string_string2ll (replicate 21 7) 21 LLONG_MIN); [by vm_compute|].
  cbn. lia.
Defined.

End Util.
