(* ===== verification/Sds.v ===== *)
(** * Dynamic strings (src/sds.h, src/sds.c)

    An [sds] is the header in front of the pointer and the bytes behind it.
    [sds_str] is the string it stands for; every operation is proved against
    the corresponding operation on plain byte strings, and keeps [sds_wf]. *)

From S2P Require Import Prelude Util.
Import Util.

Module Sds.

(** ** The C library on strings *)

(** [strchr] also finds the terminator of its string. *)
Definition strchr (cset : bytes) (c : Z) : bool := bool_decide (c ∈ cset) || (c =? 0).

(** Position of the first zero byte. *)
Fixpoint strlen (m : bytes) : option nat :=
  match m with
  | [] => None
  | c :: m => if c =? 0 then Some O else S <$> strlen m
  end.

(** Only the sign of [memcmp] is specified; here, the first difference. *)
Fixpoint memcmp (a b : bytes) : Z :=
  match a, b with
  | x :: a, y :: b => if x =? y then memcmp a b else x - y
  | _, _ => 0
  end.

(** ** The header *)

Definition SDS_MAX_PREALLOC : Z := 1024 * 1024.
Definition SDS_TYPE_5 : Z := 0.
Definition SDS_TYPE_8 : Z := 1.
Definition SDS_TYPE_16 : Z := 2.
Definition SDS_TYPE_32 : Z := 3.
Definition SDS_TYPE_64 : Z := 4.
Definition SDS_TYPE_MASK : Z := 7.
Definition SDS_TYPE_BITS : Z := 3.

(** [flags] is the byte at [s[-1]]; [hlen] and [halloc] are the two fields of
    the header, which a string of type 5 does not have; [buf] is what the
    allocation holds from [s] on. *)
Record sds := Sds { flags : Z; hlen : Z; halloc : Z; buf : bytes }.

Definition sds_type (s : sds) : Z := Z.land (flags s) SDS_TYPE_MASK.

(** Width of the two header fields. *)
Definition sds_width (type : Z) : Z :=
  match type with 1 => 8 | 2 => 16 | 3 => 32 | _ => 64 end.

Definition SDS_TYPE_5_LEN (f : Z) : Z := Z.shiftr f SDS_TYPE_BITS.

Definition sdslen (s : sds) : Z :=
  match sds_type s with
  | 0 => SDS_TYPE_5_LEN (flags s)
  | 1 | 2 | 3 | 4 => hlen s
  | _ => 0
  end.

Definition sdsavail (s : sds) : Z :=
  match sds_type s with
  | 1 | 2 => u64 (halloc s - hlen s)
  | 3 => u32 (halloc s - hlen s)
  | 4 => u64 (halloc s - hlen s)
  | _ => 0
  end.

Definition sdssetlen (s : sds) (newlen : Z) : sds :=
  match sds_type s with
  | 0 => Sds (u8 (Z.lor SDS_TYPE_5 (Z.shiftl newlen SDS_TYPE_BITS))) (hlen s) (halloc s) (buf s)
  | 1 | 2 | 3 | 4 => Sds (flags s) (wrapu (sds_width (sds_type s)) newlen) (halloc s) (buf s)
  | _ => s
  end.

Definition sdsinclen (s : sds) (inc : Z) : sds :=
  match sds_type s with
  | 0 =>
    let newlen := u8 (SDS_TYPE_5_LEN (flags s) + inc) in
    Sds (u8 (Z.lor SDS_TYPE_5 (Z.shiftl newlen SDS_TYPE_BITS))) (hlen s) (halloc s) (buf s)
  | 1 | 2 | 3 | 4 =>
    Sds (flags s) (wrapu (sds_width (sds_type s)) (hlen s + inc)) (halloc s) (buf s)
  | _ => s
  end.

Definition sdsalloc (s : sds) : Z :=
  match sds_type s with
  | 0 => SDS_TYPE_5_LEN (flags s)
  | 1 | 2 | 3 | 4 => halloc s
  | _ => 0
  end.

Definition sdssetalloc (s : sds) (newlen : Z) : sds :=
  match sds_type s with
  | 1 | 2 | 3 | 4 => Sds (flags s) (hlen s) (wrapu (sds_width (sds_type s)) newlen) (buf s)
  | _ => s
  end.

Definition sdsHdrSize (type : Z) : Z :=
  match Z.land type SDS_TYPE_MASK with
  | 0 => 1 | 1 => 3 | 2 => 5 | 3 => 9 | 4 => 17 | _ => 0
  end.

Definition sdsReqType (string_size : Z) : Z :=
  if string_size <? 2 ^ 5 then SDS_TYPE_5
  else if string_size <? 2 ^ 8 then SDS_TYPE_8
  else if string_size <? 2 ^ 16 then SDS_TYPE_16
  else if string_size <? 2 ^ 32 then SDS_TYPE_32
  else SDS_TYPE_64.

(** Replacing the bytes behind the pointer. *)
Definition set_buf (s : sds) (b : bytes) : sds := Sds (flags s) (hlen s) (halloc s) b.

(** A checked write behind the pointer. *)
Definition sds_write (s : sds) (p : Z) (bs : bytes) : option sds :=
  if decide (0 <= p) then set_buf s <$> wrn (buf s) (Z.to_nat p) bs else None.

(** ** What an [sds] represents

    [sds_rep s x]: the header is well formed, the buffer is the string [x],
    its terminator and the free space, and the header's length and capacity
    agree with them. *)

Definition sds_hdr (s : sds) : Prop :=
  0 <= sds_type s <= 4 /\
  (sds_type s = 0 -> is_u8 (flags s)) /\
  (sds_type s <> 0 -> 0 <= hlen s <= halloc s /\ halloc s < 2 ^ sds_width (sds_type s)).

Definition sds_repz (z : Z) (s : sds) (x : bytes) : Prop :=
  sds_hdr s /\
  exists tl, buf s = x ++ z :: tl /\ sdslen s = Z.of_nat (length x) /\
             sdsalloc s <= Z.of_nat (length x + length tl).

(** [sds_repz z] is the same with the byte [z] where the terminator goes:
    [sdscatfmt] works on such strings until its last line. *)
Abbreviation sds_rep := (sds_repz 0).

(** No allocation of the program reaches this size. *)
Definition SDS_LIMIT : Z := 2 ^ 60.

Section Ops.

(** The allocator: what [malloc] and [realloc] leave in new bytes.  The
    allocation itself never fails, since zmalloc.c aborts instead. *)
Context (junk : nat -> Z).

(** ** Creation *)

(** The switch of [sdsnewlen] that fills the header. *)
Definition sds_newhdr (type initlen : Z) (b : bytes) : sds :=
  match type with
  | 0 => Sds (u8 (Z.lor type (Z.shiftl initlen SDS_TYPE_BITS))) 0 0 b
  | _ => Sds type (wrapu (sds_width type) initlen) (wrapu (sds_width type) initlen) b
  end.

(** [init = None] is the null pointer: the bytes are zeroed. *)
Definition sds_newbuf (init : option bytes) (n : nat) : bytes :=
  match init with None => replicate n 0 | Some _ => resize junk [] n end.

Definition sds_init (s : sds) (init : option bytes) (initlen : Z) : option sds :=
  match init with
  | Some i =>
    if initlen =? 0 then Some s
    else bs ← rdn i 0 (Z.to_nat initlen); sds_write s 0 bs
  | None => Some s
  end.

Definition sdsnewlen (init : option bytes) (initlen : Z) : option sds :=
  let type := sdsReqType initlen in
  let type := if (type =? SDS_TYPE_5) && (initlen =? 0) then SDS_TYPE_8 else type in
  let s := sds_newhdr type initlen (sds_newbuf init (Z.to_nat (initlen + 1))) in
  s ← sds_init s init initlen;
  sds_write s initlen [0].

Definition sdsempty : option sds := sdsnewlen (Some []) 0.

(** A C string argument is given by its bytes before the terminator. *)
Definition sdsnew (init : option bytes) : option sds :=
  match init with
  | None => sdsnewlen None 0
  | Some i => sdsnewlen (Some i) (Z.of_nat (length i))
  end.

Definition sdsdup (s : sds) : option sds := sdsnewlen (Some (buf s)) (sdslen s).

Definition sdsupdatelen (s : sds) : option sds :=
  n ← strlen (buf s); Some (sdssetlen s (s32 (Z.of_nat n))).

Definition sdsclear (s : sds) : option sds := sds_write (sdssetlen s 0) 0 [0].

(** ** Allocation *)

(** The end of [sdsMakeRoomFor] and of [sdsRemoveFreeSpace]: reallocate in
    place when the header keeps its size, move the string otherwise. *)
Definition sds_realloc (s : sds) (type len newlen : Z) : option sds :=
  let n := Z.to_nat (newlen + 1) in
  s ← (if sds_type s =? type then Some (set_buf s (resize junk (buf s) n))
       else
         bs ← rdn (buf s) 0 (Z.to_nat (len + 1));
         b ← wrn (resize junk [] n) 0 bs;
         Some (sdssetlen (Sds type 0 0 b) len));
  Some (sdssetalloc s newlen).

Definition sdsMakeRoomFor (s : sds) (addlen : Z) : option sds :=
  let avail := sdsavail s in
  if avail >=? addlen then Some s
  else
    let len := sdslen s in
    let newlen := u64 (len + addlen) in
    let newlen := if newlen <? SDS_MAX_PREALLOC then u64 (newlen * 2)
                  else u64 (newlen + SDS_MAX_PREALLOC) in
    let type := sdsReqType newlen in
    let type := if type =? SDS_TYPE_5 then SDS_TYPE_8 else type in
    sds_realloc s type len newlen.

Definition sdsRemoveFreeSpace (s : sds) : option sds :=
  let len := sdslen s in
  sds_realloc s (sdsReqType len) len len.

Definition sdsAllocSize (s : sds) : Z := sdsHdrSize (flags s) + sdsalloc s + 1.

(** [None] is also a failed [assert]. *)
Definition sdsIncrLen (s : sds) (incr : Z) : option sds :=
  let oldlen := sdslen s in
  let ok :=
    match sds_type s with
    | 0 => ((0 <? incr) && (oldlen + incr <? 32))
           || ((incr <? 0) && (oldlen >=? u32 (- incr)))
    | 1 | 2 => ((0 <=? incr) && (halloc s - hlen s >=? incr))
           || ((incr <? 0) && (hlen s >=? u32 (- incr)))
    | 3 => ((0 <=? incr) && (u32 (halloc s - hlen s) >=? u32 incr))
           || ((incr <? 0) && (hlen s >=? u32 (- incr)))
    | 4 => ((0 <=? incr) && (u64 (halloc s - hlen s) >=? u64 incr))
           || ((incr <? 0) && (hlen s >=? u64 (- incr)))
    | _ => true
    end in
  if ok then
    let s := match sds_type s with
             | 0 => Sds (u8 (Z.lor SDS_TYPE_5 (Z.shiftl (oldlen + incr) SDS_TYPE_BITS)))
                        (hlen s) (halloc s) (buf s)
             | _ => sdsinclen s incr
             end in
    let len := match sds_type s with
               | 0 => oldlen + incr
               | 1 | 2 | 3 | 4 => hlen s
               | _ => 0
               end in
    sds_write s len [0]
  else None.

(** ** Concatenation and copy *)

Definition sdsgrowzero (s : sds) (len : Z) : option sds :=
  let curlen := sdslen s in
  if len <=? curlen then Some s
  else
    s ← sdsMakeRoomFor s (len - curlen);
    s ← sds_write s curlen (replicate (Z.to_nat (len - curlen + 1)) 0);
    Some (sdssetlen s len).

Definition sdscatlen (s : sds) (t : bytes) (len : Z) : option sds :=
  let curlen := sdslen s in
  s ← sdsMakeRoomFor s len;
  bs ← rdn t 0 (Z.to_nat len);
  s ← sds_write s curlen bs;
  sds_write (sdssetlen s (curlen + len)) (curlen + len) [0].

Definition sdscat (s : sds) (t : bytes) : option sds :=
  sdscatlen s t (Z.of_nat (length t)).

Definition sdscatsds (s t : sds) : option sds := sdscatlen s (buf t) (sdslen t).

Definition sdscpylen (s : sds) (t : bytes) (len : Z) : option sds :=
  s ← (if sdsalloc s <? len then sdsMakeRoomFor s (u64 (len - sdslen s)) else Some s);
  bs ← rdn t 0 (Z.to_nat len);
  s ← sds_write s 0 bs;
  s ← sds_write s len [0];
  Some (sdssetlen s len).

Definition sdscpy (s : sds) (t : bytes) : option sds :=
  sdscpylen s t (Z.of_nat (length t)).

(** ** The header fields *)

Definition sds_cap (s : sds) : Z :=
  if sds_type s =? 0 then 31 else 2 ^ sds_width (sds_type s) - 1.

Lemma sds_hdr_cases s :
  sds_hdr s -> sds_type s = 0 \/ sds_type s = 1 \/ sds_type s = 2 \/ sds_type s = 3 \/ sds_type s = 4.
Proof. intros [? _]. lia. Qed.

Lemma flags5 n :
  0 <= n < 32 ->
  u8 (Z.lor SDS_TYPE_5 (Z.shiftl n SDS_TYPE_BITS)) = 8 * n.
Proof.
  intros. unfold SDS_TYPE_5, SDS_TYPE_BITS. rewrite Z.lor_0_l, Z.shiftl_mul_pow2 by lia.
  change (2 ^ 3) with 8. rewrite wrapu_small by ints. lia.
Qed.

Lemma flags5_type n : Z.land (8 * n) SDS_TYPE_MASK = 0.
Proof.
  unfold SDS_TYPE_MASK. change 7 with (Z.ones 3). rewrite Z.land_ones by lia.
  change (2 ^ 3) with 8. rewrite Z.mul_comm. apply Z.mod_mul. lia.
Qed.

Lemma flags5_len n : SDS_TYPE_5_LEN (8 * n) = n.
Proof.
  unfold SDS_TYPE_5_LEN, SDS_TYPE_BITS. rewrite Z.shiftr_div_pow2 by lia.
  change (2 ^ 3) with 8. rewrite Z.mul_comm. apply Z.div_mul. lia.
Qed.

Lemma sds_len_alloc s : sds_hdr s -> 0 <= sdslen s <= sdsalloc s /\ sdsalloc s <= sds_cap s.
Proof.
  intros H. destruct H as (Ht & H5 & Hn). unfold sdslen, sdsalloc, sds_cap.
  destruct (Z.eqb_spec (sds_type s) 0) as [E|E].
  - rewrite E. specialize (H5 E). unfold SDS_TYPE_5_LEN, SDS_TYPE_BITS.
    rewrite Z.shiftr_div_pow2 by lia. change (2 ^ 3) with 8. unfold is_unsigned in H5.
    change (2 ^ 8) with 256 in H5. dlia.
  - specialize (Hn E).
    assert (sds_type s = 1 \/ sds_type s = 2 \/ sds_type s = 3 \/ sds_type s = 4)
      as [E'|[E'|[E'|E']]] by lia; rewrite E' in *; lia.
Qed.

Lemma sdsavail_spec s :
  sds_hdr s -> sdsavail s = if sds_type s =? 0 then 0 else sdsalloc s - sdslen s.
Proof.
  intros H. pose proof (sds_len_alloc s H) as Hla. unfold sdsavail, sdslen, sdsalloc, sds_cap in *.
  destruct (sds_hdr_cases s H) as [E|[E|[E|[E|E]]]]; rewrite E in *; cbn [Z.eqb Pos.eqb sds_width] in *;
    try done; apply wrapu_small; ints.
Qed.

(** Writing the length field. *)
Lemma sdssetlen_spec s n :
  sds_hdr s -> 0 <= n <= (if sds_type s =? 0 then 31 else sdsalloc s) ->
  sds_hdr (sdssetlen s n) /\ sds_type (sdssetlen s n) = sds_type s /\
  sdslen (sdssetlen s n) = n /\ buf (sdssetlen s n) = buf s /\
  sdsalloc (sdssetlen s n) = if sds_type s =? 0 then n else sdsalloc s.
Proof.
  intros H Hn. pose proof (sds_len_alloc s H) as Hla. pose proof H as (Ht & H5 & Hw).
  unfold sds_cap in Hla.
  destruct (sds_hdr_cases s H) as [E|[E|[E|[E|E]]]]; rewrite E in *; cbn [Z.eqb Pos.eqb] in *.
  1: { unfold sdssetlen. rewrite E, flags5 by lia.
    unfold sds_hdr, sdslen, sdsalloc, sds_type. cbn [flags hlen halloc buf].
    rewrite flags5_type, flags5_len. split_and!; try done; intros; ints. }
  all: unfold sdsalloc in Hn, Hla; rewrite E in *; specialize (Hw ltac:(lia)); cbn [sds_width] in *.
  all: unfold sdssetlen; rewrite E, wrapu_small by (cbn [sds_width]; ints); cbn [sds_width].
  all: unfold sds_hdr, sdslen, sdsalloc; unfold sds_type in *; cbn [flags hlen halloc buf];
    rewrite E; split_and!; try done; intros; cbn [sds_width]; lia.
Qed.

Lemma sdssetalloc_spec s n :
  sds_hdr s -> sdslen s <= n <= sds_cap s ->
  sds_hdr (sdssetalloc s n) /\ sds_type (sdssetalloc s n) = sds_type s /\
  sdslen (sdssetalloc s n) = sdslen s /\ buf (sdssetalloc s n) = buf s /\
  sdsalloc (sdssetalloc s n) = if sds_type s =? 0 then sdslen s else n.
Proof.
  intros H Hn. pose proof (sds_len_alloc s H) as Hla. pose proof H as (Ht & H5 & Hw).
  unfold sds_cap in *. unfold sdssetalloc.
  destruct (sds_hdr_cases s H) as [E|[E|[E|[E|E]]]]; rewrite E in *; cbn [Z.eqb Pos.eqb] in *.
  1: { unfold sdslen, sdsalloc. by rewrite E. }
  all: specialize (Hw ltac:(lia)); unfold sdslen in *; rewrite E in *; cbn [sds_width] in *.
  all: rewrite wrapu_small by ints.
  all: unfold sds_hdr, sdslen, sdsalloc; unfold sds_type in *; cbn [flags hlen halloc buf];
    rewrite E; split_and!; try done; intros; cbn [sds_width]; lia.
Qed.

Lemma sdsReqType_spec n :
  0 <= n < 2 ^ 64 ->
  0 <= sdsReqType n <= 4 /\ (sdsReqType n = 0 <-> n < 32) /\
  (sdsReqType n <> 0 -> n < 2 ^ sds_width (sdsReqType n)).
Proof.
  intros Hn. unfold sdsReqType, SDS_TYPE_5, SDS_TYPE_8, SDS_TYPE_16, SDS_TYPE_32, SDS_TYPE_64.
  change (2 ^ 5) with 32 in *.
  repeat match goal with |- context [n <? ?b] => destruct (Z.ltb_spec n b) end;
    cbn [sds_width]; ints.
Qed.

(** ** Buffers *)

Lemma sdslen_set_buf s b : sdslen (set_buf s b) = sdslen s.
Proof. done. Qed.

Lemma sdsalloc_set_buf s b : sdsalloc (set_buf s b) = sdsalloc s.
Proof. done. Qed.

Lemma sds_type_set_buf s b : sds_type (set_buf s b) = sds_type s.
Proof. done. Qed.

Lemma sds_cap_set_buf s b : sds_cap (set_buf s b) = sds_cap s.
Proof. done. Qed.

Hint Rewrite sdslen_set_buf sdsalloc_set_buf sds_type_set_buf sds_cap_set_buf : redis.

Lemma sds_write_mid s p a b c bs :
  buf s = a ++ b ++ c -> p = Z.of_nat (length a) -> length bs = length b ->
  sds_write s p bs = Some (set_buf s (a ++ bs ++ c)).
Proof.
  intros Hb -> Hl. unfold sds_write. rewrite decide_True, Nat2Z.id, Hb by lia.
  by rewrite wrn_app.
Qed.

Lemma sds_rep_intro {z} s x tl :
  sds_hdr s -> buf s = x ++ z :: tl -> sdslen s = Z.of_nat (length x) ->
  sdsalloc s <= Z.of_nat (length x + length tl) -> sds_repz z s x.
Proof. intros. split; [done|]. by exists tl. Qed.

Lemma sds_rep_hdr {z} s x : sds_repz z s x -> sds_hdr s.
Proof. by intros [? _]. Qed.

Lemma sds_rep_len {z} s x : sds_repz z s x -> sdslen s = Z.of_nat (length x).
Proof. by intros (_ & tl & _ & ? & _). Qed.

(** The string is determined by the representation. *)
Definition sds_str (s : sds) : bytes := take (Z.to_nat (sdslen s)) (buf s).

Lemma sds_rep_str {z} s x : sds_repz z s x -> sds_str s = x.
Proof.
  intros (_ & tl & Hb & Hl & _). unfold sds_str. rewrite Hb, Hl, Nat2Z.id.
  by rewrite take_app_length.
Qed.

Lemma sds_rep_read {z} s x : sds_repz z s x -> rdn (buf s) 0 (Z.to_nat (sdslen s)) = Some x.
Proof.
  intros (_ & tl & Hb & Hl & _). rewrite Hb, Hl, Nat2Z.id. by apply rdn_app0.
Qed.

(** A header made from nothing by [sds_realloc]. *)
Lemma sds_fresh_hdr T len newlen b :
  0 <= T <= 4 -> 0 <= len <= newlen ->
  newlen <= (if T =? 0 then 31 else 2 ^ sds_width T - 1) -> (T = 0 -> newlen = len) ->
  let s := sdssetalloc (sdssetlen (Sds T 0 0 b) len) newlen in
  sds_hdr s /\ sds_type s = T /\ sdslen s = len /\ sdsalloc s = newlen /\ buf s = b.
Proof.
  intros HT Hl Hn H0. assert (T = 0 \/ T = 1 \/ T = 2 \/ T = 3 \/ T = 4)
    as [->|[->|[->|[->| ->]]]] by lia; cbn [Z.eqb Pos.eqb sds_width] in *.
  1: { specialize (H0 eq_refl) as ->. unfold sdssetlen. change (sds_type (Sds 0 0 0 b)) with 0.
    cbn iota. rewrite flags5 by lia. unfold sdssetalloc, sds_hdr, sdslen, sdsalloc, sds_type.
    cbn [flags hlen halloc buf]. rewrite flags5_type. cbn [flags hlen halloc buf].
    rewrite flags5_type, flags5_len. split_and!; try done; intros; ints. }
  all: unfold sdssetlen, sdssetalloc, sds_hdr, sdslen, sdsalloc, sds_type;
    repeat (cbn [flags hlen halloc buf];
            match goal with |- context [Z.land ?n SDS_TYPE_MASK] =>
              change (Z.land n SDS_TYPE_MASK) with n end; cbn iota);
    cbn [flags hlen halloc buf sds_width]; rewrite !wrapu_small by ints;
    split_and!; try done; intros; ints.
Qed.

Lemma sds_realloc_spec {z} s x T newlen :
  sds_repz z s x -> 0 <= T <= 4 -> Z.of_nat (length x) <= newlen ->
  newlen <= (if T =? 0 then 31 else 2 ^ sds_width T - 1) ->
  (T = 0 -> newlen = Z.of_nat (length x)) ->
  exists s', sds_realloc s T (sdslen s) newlen = Some s' /\ sds_repz z s' x /\
    sds_type s' = T /\ (T <> 0 -> sdsalloc s' = newlen).
Proof.
  intros (Hh & tl & Hb & Hl & Ha) HT Hn Hc H0. unfold sds_realloc. rewrite Hb.
  replace (x ++ z :: tl) with ((x ++ [z]) ++ tl) by (by rewrite <- app_assoc).
  destruct (Z.eqb_spec (sds_type s) T) as [<-|Hne].
  - destruct (resize_prefix junk (x ++ [z]) tl (Z.to_nat (newlen + 1))) as (c & -> & Hcl);
      [rewrite length_app; cbn; lia|].
    rewrite length_app in Hcl. cbn [length] in Hcl. cbn [mbind option_bind].
    eexists. split; [done|].
    destruct (sdssetalloc_spec (set_buf s ((x ++ [z]) ++ c)) newlen)
      as (Hh' & Ht' & Hl' & Hb' & Ha'); [done| |].
    { autorewrite with redis. unfold sds_cap. lia. }
    autorewrite with redis in *.
    split_and!; [|done|].
    + apply (sds_rep_intro _ x c); [done|by rewrite Hb'; cbn; rewrite <- app_assoc|lia|].
      rewrite Ha'. case_match; lia.
    + intros E%Z.eqb_neq. by rewrite Ha', E.
  - rewrite rdn_app0 by (rewrite length_app; cbn; lia). cbn [mbind option_bind].
    destruct (resize_grow junk [] (Z.to_nat (newlen + 1))) as (g & -> & Hg); [cbn; lia|].
    cbn [app length] in *.
    destruct (list_split3 g 0 (length (x ++ [z]))) as (g0 & g1 & g2 & -> & Hg0 & Hg1);
      [rewrite length_app; cbn; lia|].
    destruct g0; [|done]. cbn [app]. rewrite wrn_app0 by done. cbn [mbind option_bind].
    eexists. split; [done|].
    destruct (sds_fresh_hdr T (sdslen s) newlen ((x ++ [z]) ++ g2))
      as (Hh' & Ht' & Hl' & Ha' & Hb'); [done|lia|done|lia|].
    cbn [app] in Hg. rewrite length_app in Hg. rewrite length_app in Hg1. cbn [length] in *.
    split_and!; [|done|by intros].
    apply (sds_rep_intro _ x g2); [done|by rewrite Hb'; rewrite <- app_assoc|lia|lia].
Qed.

(** ** Making room *)

Lemma sds_room_tail {z} s x n :
  sds_repz z s x -> n <= sdsavail s ->
  exists mid tl, buf s = x ++ (z :: mid) ++ tl /\ Z.of_nat (length mid) = Z.max 0 n.
Proof.
  intros (Hh & tl & Hb & Hl & Ha) Hn. rewrite sdsavail_spec in Hn by done.
  destruct (list_split3 tl 0 (Z.to_nat n)) as (t0 & t1 & t2 & -> & Ht0 & Ht1).
  { case_match; lia. }
  destruct t0; [|done]. cbn [app] in *. exists t1, t2. split; [done|lia].
Qed.

Lemma sdsMakeRoomFor_room {z} s x n :
  sds_repz z s x -> 0 <= n -> Z.of_nat (length x) + n < SDS_LIMIT ->
  exists s', sdsMakeRoomFor s n = Some s' /\ sds_repz z s' x /\ n <= sdsavail s' /\
    (n <= sdsavail s -> s' = s) /\
    (sdsavail s < n ->
       sdsalloc s' = Z.of_nat (length x) + n
                     + Z.min (Z.of_nat (length x) + n) SDS_MAX_PREALLOC).
Proof.
  intros Hs Hn Hlim. unfold sdsMakeRoomFor, SDS_LIMIT in *. rewrite Z.geb_leb.
  destruct (Z.leb_spec n (sdsavail s)) as [Ha|Ha]; [exists s; split_and!; try done; lia|].
  rewrite (sds_rep_len s x) by done.
  rewrite (wrapu_small 64 (_ + n)) by ints. unfold SDS_MAX_PREALLOC.
  set (m := Z.of_nat (length x) + n) in *.
  set (newlen := if m <? 1024 * 1024 then u64 (m * 2) else u64 (m + 1024 * 1024)).
  assert (m <= newlen < 2 ^ 62 /\ newlen = m + Z.min m (1024 * 1024)) as [Hm Hnew].
  { unfold newlen. destruct (Z.ltb_spec m (1024 * 1024)); rewrite wrapu_small; ints. }
  clearbody newlen. destruct (sdsReqType_spec newlen) as (HT & H0 & Hw); [ints|].
  unfold SDS_TYPE_5, SDS_TYPE_8.
  set (T := if sdsReqType newlen =? 0 then 1 else sdsReqType newlen).
  assert (1 <= T <= 4 /\ newlen < 2 ^ sds_width T) as [HT' Hw'].
  { unfold T. destruct (Z.eqb_spec (sdsReqType newlen) 0); [|split; [lia|auto]].
    cbn. lia. }
  clearbody T. rewrite <- (sds_rep_len s x) by done.
  destruct (sds_realloc_spec (z := z) s x T newlen) as (s' & -> & Hr & Ht & Hal); [done|lia|lia| |lia|].
  { rewrite (proj2 (Z.eqb_neq _ _)) by lia. lia. }
  exists s'. split_and!; [done|done| |lia|intros _; rewrite Hal by lia; exact Hnew].
  rewrite sdsavail_spec by (by eapply sds_rep_hdr).
  rewrite (proj2 (Z.eqb_neq _ _)), Hal, (sds_rep_len s' x) by (done || lia). lia.
Qed.

(** Extending the length over bytes that were written behind the string. *)
Lemma sds_extend s x y :
  sds_rep s x -> Z.of_nat (length y) <= sdsavail s ->
  exists s1, sds_write s (sdslen s) y = Some s1 /\
  exists s2, sds_write (sdssetlen s1 (sdslen s + Z.of_nat (length y)))
               (sdslen s + Z.of_nat (length y)) [0] = Some s2 /\ sds_rep s2 (x ++ y).
Proof.
  intros Hs Ha. pose proof (sds_rep_hdr s x Hs) as Hh. pose proof (sds_rep_len s x Hs) as Hl.
  destruct (sds_room_tail s x _ Hs Ha) as (mid & tl & Hb & Hm). rewrite Hl.
  assert (exists a b, 0 :: mid = a ++ [b] /\ length a = length y) as (a & b & Hab & Hla).
  { destruct (exists_last (l := 0 :: mid)) as (a & b & Hab); [done|]. exists a, b.
    split; [done|]. apply (f_equal length) in Hab. rewrite length_app in Hab. cbn in Hab. lia. }
  rewrite Hab, <- !app_assoc in Hb.
  erewrite sds_write_mid by (done || lia). eexists. split; [done|].
  set (s1 := set_buf s _).
  destruct (sdssetlen_spec s1 (Z.of_nat (length x) + Z.of_nat (length y)))
    as (Hh2 & Ht2 & Hl2 & Hb2 & Ha2); [done| |].
  { unfold s1. autorewrite with redis.
    pose proof (sds_len_alloc s Hh) as Hla'. unfold sds_cap in *.
    rewrite sdsavail_spec in Ha by done. destruct (sds_type s =? 0); lia. }
  erewrite (sds_write_mid _ _ (x ++ y) [b] tl);
    [|rewrite Hb2; unfold s1; cbn; by rewrite <- app_assoc|rewrite length_app; lia|done].
  eexists. split; [done|].
  apply (sds_rep_intro _ (x ++ y) tl); [done|done| |].
  - rewrite length_app, Nat2Z.inj_add. exact Hl2.
  - autorewrite with redis. rewrite Ha2. unfold s1. autorewrite with redis.
    destruct Hs as (_ & tl0 & Hb0 & _ & Hal0).
    rewrite length_app. destruct (sds_type s =? 0); [lia|].
    apply (f_equal length) in Hb0. rewrite Hb in Hb0. rewrite !length_app in Hb0.
    cbn [length] in Hb0. lia.
Qed.

(** Replacing the string in place by one that fits. *)
Lemma sds_replace s x y b tl :
  sds_rep s x -> b = y ++ 0 :: tl -> length b = length (buf s) ->
  Z.of_nat (length y) <= sdsalloc s ->
  sds_rep (sdssetlen (set_buf s b) (Z.of_nat (length y))) y.
Proof.
  intros (Hh & tl0 & Hb & Hl & Ha) -> Hlen Hy.
  pose proof (sds_len_alloc s Hh) as Hla. unfold sds_cap in Hla.
  destruct (sdssetlen_spec (set_buf s (y ++ 0 :: tl)) (Z.of_nat (length y)))
    as (Hh2 & Ht2 & Hl2 & Hb2 & Ha2); [done| |].
  { autorewrite with redis. destruct (sds_type s =? 0); lia. }
  apply (sds_rep_intro _ y tl); [done..|].
  rewrite Ha2. autorewrite with redis. rewrite Hb, !length_app in Hlen. cbn [length] in Hlen.
  destruct (sds_type s =? 0); lia.
Qed.

(** ** Specifications of the operations *)

Lemma sds_newhdr_spec T n b :
  0 <= T <= 4 -> 0 <= n -> (T = 0 -> n < 32) -> (T <> 0 -> n < 2 ^ sds_width T) ->
  let s := sds_newhdr T n b in
  sds_hdr s /\ sdslen s = n /\ sdsalloc s = n /\ buf s = b.
Proof.
  intros HT Hn H0 Hw. unfold sds_newhdr.
  assert (T = 0 \/ T = 1 \/ T = 2 \/ T = 3 \/ T = 4) as [->|[->|[->|[->| ->]]]] by lia.
  1: { rewrite flags5 by lia. unfold sds_hdr, sdslen, sdsalloc, sds_type. cbn [flags hlen halloc buf].
    rewrite flags5_type, flags5_len. split_and!; try done; intros; ints. }
  all: specialize (Hw ltac:(done)); cbn [sds_width] in *; rewrite !wrapu_small by ints.
  all: unfold sds_hdr, sdslen, sdsalloc, sds_type; cbn [flags hlen halloc buf];
    match goal with |- context [Z.land ?n SDS_TYPE_MASK] =>
      change (Z.land n SDS_TYPE_MASK) with n end; split_and!; try done; intros; cbn [sds_width]; lia.
Qed.

(** The string that [sdsnewlen] is asked for. *)
Definition init_str (init : option bytes) (n : nat) : bytes :=
  match init with Some i => take n i | None => replicate n 0 end.

(** A new buffer is the string, or room for it, and one more byte. *)
Lemma sds_newbuf_split init n :
  exists x0 z, sds_newbuf init (S n) = x0 ++ [z] /\ length x0 = n /\
    (init = None -> x0 = replicate n 0).
Proof.
  destruct init as [i|]; cbn [sds_newbuf].
  - destruct (exists_last (l := resize junk [] (S n))) as (x0 & z & E).
    { intros E%(f_equal length). by rewrite length_resize in E. }
    exists x0, z. split_and!; [done| |done].
    apply (f_equal length) in E. rewrite length_resize, length_app in E. cbn in E. lia.
  - exists (replicate n 0), 0. rewrite replicate_S_end, length_replicate. done.
Qed.

Lemma sds_init_spec s init n x0 z :
  buf s = x0 ++ [z] -> length x0 = Z.to_nat n -> 0 <= n ->
  (forall i, init = Some i -> n <= Z.of_nat (length i)) ->
  (init = None -> x0 = replicate (Z.to_nat n) 0) ->
  sds_init s init n = Some (set_buf s (init_str init (Z.to_nat n) ++ [z])).
Proof.
  intros Hb Hl Hn Hi H0. destruct s as [f h a b]; cbn [buf] in Hb; subst b.
  destruct init as [i|]; cbn [sds_init init_str].
  - specialize (Hi i eq_refl). destruct (Z.eqb_spec n 0) as [->|].
    + destruct x0; [|done]. by rewrite take_0.
    + unfold rdn. rewrite decide_True by lia. cbn [mbind option_bind]. rewrite drop_0.
      by erewrite (sds_write_mid _ 0 [] x0 [z]) by (done || (rewrite length_take; lia)).
  - by rewrite H0.
Qed.

Lemma sdsnewlen_rep init n :
  0 <= n < SDS_LIMIT -> (forall i, init = Some i -> n <= Z.of_nat (length i)) ->
  exists s, sdsnewlen init n = Some s /\ sds_rep s (init_str init (Z.to_nat n)).
Proof.
  intros Hn Hi. unfold sdsnewlen, SDS_LIMIT in *.
  destruct (sdsReqType_spec n) as (HT & H0 & Hw); [ints|].
  unfold SDS_TYPE_5, SDS_TYPE_8 in *.
  set (T := if (sdsReqType n =? 0) && (n =? 0) then 1 else sdsReqType n).
  assert (0 <= T <= 4 /\ (T = 0 -> n < 32) /\ (T <> 0 -> n < 2 ^ sds_width T)) as (HT' & H0' & Hw').
  { unfold T. destruct (Z.eqb_spec (sdsReqType n) 0); destruct (Z.eqb_spec n 0); cbn [andb];
      split_and!; intros; try lia; auto; subst; cbn; lia. }
  clearbody T. replace (Z.to_nat (n + 1)) with (S (Z.to_nat n)) by lia.
  destruct (sds_newbuf_split init (Z.to_nat n)) as (x0 & z & -> & Hx0 & Hnone).
  destruct (sds_newhdr_spec T n (x0 ++ [z])) as (Hh & Hl & Ha & Hb); [done|lia|done..|].
  rewrite (sds_init_spec _ _ _ x0 z) by (done || lia). cbn [mbind option_bind].
  assert (length (init_str init (Z.to_nat n)) = Z.to_nat n) as Hx.
  { destruct init as [i|]; cbn; [|apply length_replicate].
    rewrite length_take. specialize (Hi i eq_refl). lia. }
  erewrite (sds_write_mid _ _ _ [z] []) by (done || lia).
  eexists. split; [done|].
  apply (sds_rep_intro _ _ []); autorewrite with redis; [done|done|lia|lia].
Qed.

Lemma sdscatlen_rep s x t n :
  sds_rep s x -> 0 <= n <= Z.of_nat (length t) -> Z.of_nat (length x) + n < SDS_LIMIT ->
  exists s', sdscatlen s t n = Some s' /\ sds_rep s' (x ++ take (Z.to_nat n) t).
Proof.
  intros Hs Hn Hlim. unfold sdscatlen.
  destruct (sdsMakeRoomFor_room (z := 0) s x n) as (s1 & -> & Hs1 & Hav & _); [done|lia..|].
  cbn [mbind option_bind]. unfold rdn. rewrite decide_True by lia. cbn [mbind option_bind].
  rewrite drop_0, (sds_rep_len s x), <- (sds_rep_len s1 x) by done.
  destruct (sds_extend s1 x (take (Z.to_nat n) t)) as (s2 & -> & s3 & Hw & Hr);
    [done|rewrite length_take; lia|].
  rewrite length_take in Hw. replace (Z.of_nat (Z.to_nat n `min` length t)) with n in Hw by lia.
  exists s3. done.
Qed.

Lemma sdscatsds_rep s x t y :
  sds_rep s x -> sds_rep t y -> Z.of_nat (length x) + Z.of_nat (length y) < SDS_LIMIT ->
  exists s', sdscatsds s t = Some s' /\ sds_rep s' (x ++ y).
Proof.
  intros Hs Ht Hlim. unfold sdscatsds. pose proof Ht as (_ & tl & Hb & Hl & _).
  destruct (sdscatlen_rep s x (buf t) (sdslen t)) as (s' & -> & Hr); [done| |lia|].
  { rewrite Hb, Hl, length_app. cbn. lia. }
  exists s'. split; [done|]. by rewrite Hb, Hl, Nat2Z.id, take_app_length in Hr.
Qed.

Lemma sdscat_rep s x t :
  sds_rep s x -> Z.of_nat (length x) + Z.of_nat (length t) < SDS_LIMIT ->
  exists s', sdscat s t = Some s' /\ sds_rep s' (x ++ t).
Proof.
  intros Hs Hlim. unfold sdscat.
  destruct (sdscatlen_rep s x t (Z.of_nat (length t))) as (s' & -> & Hr); [done|lia..|].
  exists s'. by rewrite Nat2Z.id, take_ge in Hr.
Qed.

Lemma sdscpylen_rep s x t n :
  sds_rep s x -> 0 <= n <= Z.of_nat (length t) -> Z.of_nat (length x) + n < SDS_LIMIT ->
  exists s', sdscpylen s t n = Some s' /\ sds_rep s' (take (Z.to_nat n) t).
Proof.
  intros Hs Hn Hlim. unfold sdscpylen. unfold SDS_LIMIT in Hlim.
  assert (exists s1, (if sdsalloc s <? n then sdsMakeRoomFor s (u64 (n - sdslen s)) else Some s)
            = Some s1 /\ sds_rep s1 x /\ n <= sdsalloc s1) as (s1 & -> & Hs1 & Ha).
  { pose proof (sds_len_alloc s (sds_rep_hdr s x Hs)). pose proof (sds_rep_len s x Hs).
    destruct (Z.ltb_spec (sdsalloc s) n); [|by exists s].
    rewrite wrapu_small by ints.
    destruct (sdsMakeRoomFor_room (z := 0) s x (n - sdslen s)) as (s1 & -> & Hs1 & Hav & _);
      [done|lia|unfold SDS_LIMIT; lia|].
    exists s1. split_and!; [done..|]. rewrite sdsavail_spec in Hav by (by eapply sds_rep_hdr).
    pose proof (sds_rep_len s1 x Hs1). pose proof (sds_len_alloc s1 (sds_rep_hdr s1 x Hs1)).
    destruct (sds_type s1 =? 0); lia. }
  cbn [mbind option_bind]. unfold rdn. rewrite decide_True, drop_0 by lia. cbn [mbind option_bind].
  set (y := take (Z.to_nat n) t).
  assert (Z.of_nat (length y) = n) as Hy by (unfold y; rewrite length_take; lia).
  pose proof Hs1 as (_ & tl & Hb & _ & Hal).
  assert (exists b0 z b2, buf s1 = b0 ++ [z] ++ b2 /\ length b0 = length y) as (b0 & z & b2 & Hb' & Hb0).
  { destruct (list_split3 (buf s1) (length y) 1) as (b0 & z & b2 & E & Hl0 & Hlz).
    - rewrite Hb, length_app. cbn. lia.
    - destruct z as [|z [|]]; try done. by exists b0, z, b2. }
  erewrite (sds_write_mid s1 0 [] b0 ([z] ++ b2)) by done. cbn [mbind option_bind app].
  erewrite (sds_write_mid _ n y [z] b2) by done. cbn [mbind option_bind].
  eexists. split; [done|]. rewrite <- Hy.
  apply (sds_replace s1 x y _ b2); [done..| |lia]. rewrite Hb', !length_app. cbn. lia.
Qed.

Lemma sdsempty_rep : exists s, sdsempty = Some s /\ sds_rep s [].
Proof.
  destruct (sdsnewlen_rep (Some []) 0) as (s & Hs & Hr); [done| |by exists s].
  by intros i [= <-].
Qed.

Lemma sdsdup_rep s x :
  sds_rep s x -> Z.of_nat (length x) < SDS_LIMIT ->
  exists s', sdsdup s = Some s' /\ sds_rep s' x.
Proof.
  intros Hs Hlim. unfold sdsdup. rewrite (sds_rep_len s x) by done.
  pose proof Hs as (_ & tl & Hb & _).
  destruct (sdsnewlen_rep (Some (buf s)) (Z.of_nat (length x))) as (s' & -> & Hr); [lia| |].
  { intros i [= <-]. rewrite Hb, length_app. lia. }
  exists s'. split; [done|]. by rewrite Hb in Hr; cbn [init_str] in Hr; rewrite Nat2Z.id, take_app_length in Hr.
Qed.

(** Truncating in place. *)
Lemma sds_truncate s x n :
  sds_rep s x -> (n <= length x)%nat ->
  exists s1, sds_write (sdssetlen s (Z.of_nat n)) (Z.of_nat n) [0] = Some s1 /\
    sds_rep s1 (take n x) /\
  exists s2, sds_write s (Z.of_nat n) [0] = Some s2 /\
    sds_rep (sdssetlen s2 (Z.of_nat n)) (take n x).
Proof.
  intros Hs Hn. pose proof Hs as (Hh & tl & Hb & Hl & Ha).
  pose proof (sds_len_alloc s Hh) as Hla. unfold sds_cap in Hla.
  assert (exists b c, drop n x ++ 0 :: tl = [b] ++ c) as (b & c & Hbc).
  { destruct (drop n x) as [|b c]; [by exists 0, tl|]. by exists b, (c ++ 0 :: tl). }
  assert (buf s = take n x ++ [b] ++ c) as Hb'.
  { by rewrite <- Hbc, app_assoc, take_drop. }
  destruct (sdssetlen_spec s (Z.of_nat n)) as (Hh2 & Ht2 & Hl2 & Hb2 & Ha2); [done| |].
  { destruct (sds_type s =? 0); lia. }
  assert (length (take n x) = n) as Hlt by (rewrite length_take; lia).
  assert (length x + length tl = n + length c)%nat as Hlc.
  { apply (f_equal length) in Hbc. rewrite !length_app, length_drop in Hbc. cbn in Hbc. lia. }
  erewrite (sds_write_mid (sdssetlen s _) _ (take n x) [b] c) by (by rewrite ?Hb2, ?Hlt).
  eexists. split; [done|]. split.
  { apply (sds_rep_intro _ _ c); autorewrite with redis; [done|done|lia|].
    rewrite Ha2, Hlt. destruct (sds_type s =? 0); lia. }
  erewrite (sds_write_mid s _ (take n x) [b] c) by (by rewrite ?Hlt).
  eexists. split; [done|]. rewrite <- Hlt at 2.
  eapply (sds_replace s x); [done|done| |rewrite Hlt; lia].
  rewrite Hb'. rewrite !length_app. done.
Qed.

Lemma sdsclear_rep s x : sds_rep s x -> exists s', sdsclear s = Some s' /\ sds_rep s' [].
Proof.
  intros Hs. destruct (sds_truncate s x 0 Hs) as (s' & Hw & Hr & _); [lia|]. by exists s'.
Qed.

Lemma sdsupdatelen_rep s x y tl :
  sds_rep s x -> buf s = y ++ 0 :: tl -> 0 ∉ y -> Z.of_nat (length y) < 2 ^ 31 ->
  Z.of_nat (length y) <= sdsalloc s ->
  exists s', sdsupdatelen s = Some s' /\ sds_rep s' y.
Proof.
  intros Hs Hb Hy Hlim Ha. unfold sdsupdatelen.
  assert (strlen (buf s) = Some (length y)) as ->.
  { rewrite Hb. clear -Hy. induction y as [|c y IH]; cbn; [done|].
    apply not_elem_of_cons in Hy as [Hc Hy]. rewrite (proj2 (Z.eqb_neq c 0)) by done.
    by rewrite IH. }
  cbn [mbind option_bind]. rewrite wraps_small by ints. eexists. split; [done|].
  replace s with (set_buf s (buf s)) at 1 by (by destruct s).
  by apply (sds_replace s x y _ tl).
Qed.

Lemma sdsgrowzero_rep s x n :
  sds_rep s x -> Z.of_nat (length x) <= n < SDS_LIMIT ->
  exists s', sdsgrowzero s n = Some s' /\
    sds_rep s' (x ++ replicate (Z.to_nat n - length x) 0).
Proof.
  intros Hs Hn. unfold sdsgrowzero. rewrite (sds_rep_len s x) by done.
  destruct (Z.leb_spec n (Z.of_nat (length x))).
  { exists s. split; [done|]. replace (Z.to_nat n - length x)%nat with 0%nat by lia.
    by rewrite app_nil_r. }
  destruct (sdsMakeRoomFor_room (z := 0) s x (n - Z.of_nat (length x))) as (s1 & -> & Hs1 & Hav & _);
    [done|lia|lia|]. cbn [mbind option_bind].
  destruct (sds_room_tail s1 x _ Hs1 Hav) as (mid & tl & Hb & Hm).
  set (k := (Z.to_nat n - length x)%nat).
  replace (Z.to_nat (n - Z.of_nat (length x) + 1)) with (S k) by (unfold k; lia).
  erewrite (sds_write_mid _ _ x (0 :: mid) tl);
    [|done|done|rewrite length_replicate; cbn; unfold k; lia].
  cbn [mbind option_bind]. eexists. split; [done|].
  assert (length (x ++ replicate k 0) = Z.to_nat n) as Hlk.
  { rewrite length_app, length_replicate. unfold k. lia. }
  replace n with (Z.of_nat (length (x ++ replicate k 0))) by lia.
  pose proof (sds_rep_hdr s1 x Hs1) as Hh. pose proof (sds_rep_len s1 x Hs1) as Hl1.
  apply (sds_replace s1 x _ _ tl); [done|..].
  - rewrite replicate_S_end, <- !app_assoc. done.
  - rewrite Hb, !length_app, length_replicate. cbn. unfold k. lia.
  - rewrite Hlk. rewrite sdsavail_spec in Hav by done. pose proof (sds_len_alloc s1 Hh).
    destruct (sds_type s1 =? 0); lia.
Qed.

Lemma sdsRemoveFreeSpace_rep s x :
  sds_rep s x -> Z.of_nat (length x) < SDS_LIMIT ->
  exists s', sdsRemoveFreeSpace s = Some s' /\ sds_rep s' x /\ sdsavail s' = 0 /\
    sds_type s' = sdsReqType (Z.of_nat (length x)).
Proof.
  intros Hs Hlim. unfold sdsRemoveFreeSpace, SDS_LIMIT in *. pose proof (sds_rep_len s x Hs) as Hl.
  destruct (sdsReqType_spec (sdslen s)) as (HT & H0 & Hw); [ints|].
  destruct (sds_realloc_spec (z := 0) s x (sdsReqType (sdslen s)) (sdslen s))
    as (s' & -> & Hr & Ht & Hal); [done|done|lia| |lia|].
  { destruct (Z.eqb_spec (sdsReqType (sdslen s)) 0); [|specialize (Hw ltac:(done))]; lia. }
  exists s'. rewrite Hl in *. split_and!; [done..| |done].
  rewrite sdsavail_spec by (by eapply sds_rep_hdr). pose proof (sds_rep_len s' x Hr).
  rewrite Ht. destruct (Z.eqb_spec (sdsReqType (Z.of_nat (length x))) 0); [done|].
  rewrite Hal by done. lia.
Qed.

Lemma sdsinclen_setlen s n :
  sds_hdr s -> sds_type s <> 0 -> sdsinclen s n = sdssetlen s (sdslen s + n).
Proof.
  intros H H0. unfold sdsinclen, sdssetlen, sdslen.
  by destruct (sds_hdr_cases s H) as [E|[E|[E|[E|E]]]]; rewrite E in *.
Qed.

(** Bytes written behind the string by the caller become part of it. *)
Lemma sdsIncrLen_rep s x y :
  sds_rep s x -> 0 < Z.of_nat (length y) <= sdsavail s -> Z.of_nat (length y) < 2 ^ 31 ->
  exists s1, sds_write s (sdslen s) y = Some s1 /\
  exists s2, sdsIncrLen s1 (Z.of_nat (length y)) = Some s2 /\ sds_rep s2 (x ++ y).
Proof.
  intros Hs Ha Hn. destruct (sds_extend s x y Hs) as (s1 & Hw & s2 & Hw2 & Hr); [lia|].
  exists s1. split; [done|]. exists s2. split; [|done].
  pose proof (sds_rep_hdr s x Hs) as Hh. rewrite sdsavail_spec in Ha by done.
  assert (sds_hdr s1 /\ sds_type s1 = sds_type s /\ sdslen s1 = sdslen s /\ sdsalloc s1 = sdsalloc s)
    as (Hh1 & Ht1 & Hl1 & Ha1).
  { unfold sds_write in Hw. case_decide; [|done].
    apply fmap_Some in Hw as (b & _ & ->). done. }
  set (n := Z.of_nat (length y)) in *. clearbody n. rewrite <- Ht1, <- Hl1, <- Ha1 in *.
  clear Hw Hr. destruct (Z.eqb_spec (sds_type s1) 0) as [|Hne]; [lia|].
  pose proof (sdsinclen_setlen s1 n Hh1 Hne) as Hi.
  pose proof (sds_len_alloc s1 Hh1) as Hla.
  unfold sdsIncrLen, sds_cap in *. pose proof Hh1 as (_ & _ & Hcap). specialize (Hcap Hne).
  destruct (sdssetlen_spec s1 (sdslen s1 + n)) as (_ & Ht2 & Hl2 & _); [done| |].
  { rewrite (proj2 (Z.eqb_neq _ _)) by done. lia. }
  rewrite Hi, <- Hw2.
  set (s3 := sdssetlen s1 (sdslen s1 + n)) in *. clearbody s3. clear Hi Hw2.
  unfold sdsalloc, sdslen in *. rewrite Ht2 in *.
  destruct (sds_hdr_cases s1 Hh1) as [E|[E|[E|[E|E]]]]; rewrite E in *; [done|..];
    cbn [Z.eqb Pos.eqb sds_width] in *; cbn iota in *;
    rewrite ?wrapu_small by ints; rewrite (proj2 (Z.leb_le 0 n)) by lia; rewrite Z.geb_leb;
    rewrite (proj2 (Z.leb_le n _)) by lia; cbn [andb orb]; by rewrite Ht2, Hl2.
Qed.

End Ops.

(** ** Properties *)

(** C24. Appending [n] bytes of a buffer: [sdscatlen] stays inside its
    allocation whatever the header type and the free space are, and the
    result is a well-formed string that holds the old bytes followed by the
    first [n] bytes of the buffer and a terminator. *)
Theorem sdscatlen_appends junk s x t n :
  sds_rep s x -> 0 <= n <= Z.of_nat (length t) -> Z.of_nat (length x) + n < SDS_LIMIT ->
  exists s', sdscatlen junk s t n = Some s' /\ sds_rep s' (x ++ take (Z.to_nat n) t).
Proof. apply sdscatlen_rep. Qed.

(** A string of 31 bytes, the largest of type 5, becomes one of type 8. *)
Lemma sdscatlen_appends_witness :
  sds_rep (Sds 248 0 0 (replicate 31 97 ++ [0])) (replicate 31 97) /\
  exists s', sdscatlen (fun _ => 0) (Sds 248 0 0 (replicate 31 97 ++ [0])) [98; 99] 1 = Some s' /\
    sds_rep s' (replicate 31 97 ++ [98]).
Proof.
  assert (sds_rep (Sds 248 0 0 (replicate 31 97 ++ [0])) (replicate 31 97)) as H.
  { split; [split_and!; [by vm_compute..|by intros []]|]. exists []. by vm_compute. }
  split; [exact H|]. apply (sdscatlen_appends (fun _ => 0) _ _ [98; 99] 1 H); [cbn; lia|by vm_compute].
Defined.

(** [sdsMakeRoomFor] keeps the string and leaves at least [n] free bytes;
    it moves the string to a larger header when the new capacity does not fit
    the old one, and does nothing when there already is room.  When it does
    allocate, it allocates at least twice the new length, or one megabyte more
    than it, so that appending is amortised. *)
Theorem sdsMakeRoomFor_makes_room junk s x n :
  sds_rep s x -> 0 <= n -> Z.of_nat (length x) + n < SDS_LIMIT ->
  exists s', sdsMakeRoomFor junk s n = Some s' /\ sds_rep s' x /\ n <= sdsavail s' /\
    (n <= sdsavail s -> s' = s) /\
    (sdsavail s < n ->
       sdsalloc s' = Z.of_nat (length x) + n
                     + Z.min (Z.of_nat (length x) + n) SDS_MAX_PREALLOC).
Proof.
  intros Hs Hn Hlim.
  destruct (sdsMakeRoomFor_room (z := 0) junk s x n Hs Hn Hlim) as (s' & E & Hr & Ha & Hsame & Hal).
  by exists s'.
Qed.

Lemma sdsMakeRoomFor_makes_room_witness :
  sds_rep (Sds 8 0 0 [97; 0]) [97] /\
  exists s', sdsMakeRoomFor (fun _ => 0) (Sds 8 0 0 [97; 0]) 200 = Some s' /\ sds_rep s' [97] /\
    200 <= sdsavail s' /\ (200 <= sdsavail (Sds 8 0 0 [97; 0]) -> s' = Sds 8 0 0 [97; 0]) /\
    (sdsavail (Sds 8 0 0 [97; 0]) < 200 -> sdsalloc s' = 1 + 200 + Z.min (1 + 200) SDS_MAX_PREALLOC).
Proof.
  assert (sds_rep (Sds 8 0 0 [97; 0]) [97]) as H.
  { split; [split_and!; [by vm_compute..|by intros []]|]. exists []. by vm_compute. }
  split; [exact H|]. apply (sdsMakeRoomFor_makes_room (fun _ => 0) _ _ 200 H); [lia|by vm_compute].
Defined.

End Sds.
