(* ===== verification/SdsText.v ===== *)
(** * Dynamic strings as text (src/sds.c)

    Trimming, ranges, comparison, splitting and joining, numbers, the quoted
    representation and its parser, and the formatter, on top of [Sds]. *)

From S2P Require Import Prelude Util Sds.
Import Util Sds.

Module SdsText.

Section Ops.

(** What the allocator leaves in new bytes. *)
Context (junk : nat -> Z).

#[local] Abbreviation sdsnewlen := (Sds.sdsnewlen junk).
#[local] Abbreviation sdsempty := (Sds.sdsempty junk).
#[local] Abbreviation sdscatlen := (Sds.sdscatlen junk).
#[local] Abbreviation sdscat := (Sds.sdscat junk).
#[local] Abbreviation sdscatsds := (Sds.sdscatsds junk).
#[local] Abbreviation sdsMakeRoomFor := (Sds.sdsMakeRoomFor junk).

(** ** Parts of a string *)

(** The pointers of [sdstrim] are offsets; [end] is [-1] for the empty
    string. *)
Fixpoint trim_left (n : nat) (m cset : bytes) (sp en : Z) : option Z :=
  if sp <=? en then
    c ← m !! Z.to_nat sp;
    if strchr cset c then
      match n with O => None | S n => trim_left n m cset (sp + 1) en end
    else Some sp
  else Some sp.

Fixpoint trim_right (n : nat) (m cset : bytes) (sp ep : Z) : option Z :=
  if ep >? sp then
    c ← m !! Z.to_nat ep;
    if strchr cset c then
      match n with O => None | S n => trim_right n m cset sp (ep - 1) end
    else Some ep
  else Some ep.

Definition sds_memmove0 (s : sds) (src len : Z) : option sds :=
  set_buf s <$> memmove (buf s) 0 (Z.to_nat src) (Z.to_nat len).

Definition sdstrim (s : sds) (cset : bytes) : option sds :=
  let en := sdslen s - 1 in
  sp ← trim_left (length (buf s)) (buf s) cset 0 en;
  ep ← trim_right (length (buf s)) (buf s) cset sp en;
  let len := if sp >? ep then 0 else ep - sp + 1 in
  s ← (if sp =? 0 then Some s else sds_memmove0 s sp len);
  s ← sds_write s len [0];
  Some (sdssetlen s len).

Definition sdsrange (s : sds) (start en : Z) : option sds :=
  let len := sdslen s in
  if len =? 0 then Some s
  else
    let index i := if i <? 0 then let i := s32 (len + i) in if i <? 0 then 0 else i else i in
    let start := index start in
    let en := index en in
    let newlen := if start >? en then 0 else u64 (s32 (en - start + 1)) in
    let '(start, newlen) :=
      if negb (newlen =? 0) then
        if start >=? s32 len then (start, 0)
        else if en >=? s32 len then
          let en := s32 (len - 1) in
          (start, if start >? en then 0 else u64 (s32 (en - start + 1)))
        else (start, newlen)
      else (0, newlen) in
    s ← (if negb (start =? 0) && negb (newlen =? 0) then sds_memmove0 s start newlen else Some s);
    s ← sds_write s newlen [0];
    Some (sdssetlen s newlen).

(** Rewriting every character in place. *)
Definition sds_map (f : Z -> Z) (s : sds) : sds :=
  let n := Z.to_nat (sdslen s) in
  set_buf s ((f <$> take n (buf s)) ++ drop n (buf s)).

Definition sdstolower (s : sds) : sds := sds_map tolower s.
Definition sdstoupper (s : sds) : sds := sds_map toupper s.

(** The inner loop of [sdsmapchars]. *)
Fixpoint mapchar (from to : bytes) (setlen : nat) (c : Z) : Z :=
  match setlen, from, to with
  | S setlen, f :: from, t :: to => if c =? f then t else mapchar from to setlen c
  | _, _, _ => c
  end.

Definition sdsmapchars (s : sds) (from to : bytes) (setlen : nat) : sds :=
  sds_map (mapchar from to setlen) s.

Definition sdscmp (s1 s2 : sds) : Z :=
  let l1 := sdslen s1 in
  let l2 := sdslen s2 in
  let minlen := if l1 <? l2 then l1 else l2 in
  let cmp := memcmp (take (Z.to_nat minlen) (buf s1)) (take (Z.to_nat minlen) (buf s2)) in
  if cmp =? 0 then s32 (l1 - l2) else cmp.

(** ** Splitting and joining *)

(** [tokens] is the array under construction and [slots] its capacity: a
    token is stored only if there is a slot for it. *)
Definition push_token (tokens : list sds) (slots : Z) (s : bytes) (start en : Z)
  : option (list sds) :=
  if Z.of_nat (length tokens) <? slots then
    tok ← sdsnewlen (Some (drop (Z.to_nat start) s)) (en - start);
    Some (tokens ++ [tok])
  else None.

Fixpoint split_loop (n : nat) (s : bytes) (len : Z) (sep : bytes) (seplen : Z)
    (tokens : list sds) (slots start j : Z) : option (list sds * Z * Z) :=
  if j <? len - (seplen - 1) then
    match n with
    | O => None
    | S n =>
      let slots := if slots <? Z.of_nat (length tokens) + 2 then slots * 2 else slots in
      c ← s !! Z.to_nat j;
      c0 ← sep !! 0%nat;
      here ← rdn s (Z.to_nat j) (Z.to_nat seplen);
      if ((seplen =? 1) && (c =? c0)) || (memcmp here sep =? 0) then
        tokens ← push_token tokens slots s start j;
        split_loop n s len sep seplen tokens slots (j + seplen) (j + seplen - 1 + 1)
      else split_loop n s len sep seplen tokens slots start (j + 1)
    end
  else Some (tokens, slots, start).

(** [Some None] is the null pointer that reports bad lengths. *)
Definition sdssplitlen (s : bytes) (len : Z) (sep : bytes) (seplen : Z)
  : option (option (list sds)) :=
  if (seplen <? 1) || (len <? 0) then Some None
  else if len =? 0 then Some (Some [])
  else
    '(tokens, slots, start) ← split_loop (Z.to_nat len) s len sep seplen [] 5 0 0;
    tokens ← push_token tokens slots s start len;
    Some (Some tokens).

Fixpoint joinsds_loop (join : sds) (argv : list sds) (sep : bytes) (seplen : Z) : option sds :=
  match argv with
  | [] => Some join
  | a :: rest =>
    join ← sdscatsds join a;
    join ← (match rest with [] => Some join | _ => sdscatlen join sep seplen end);
    joinsds_loop join rest sep seplen
  end.

Definition sdsjoinsds (argv : list sds) (sep : bytes) (seplen : Z) : option sds :=
  join ← sdsempty; joinsds_loop join argv sep seplen.

Fixpoint join_loop (join : sds) (argv : list bytes) (sep : bytes) : option sds :=
  match argv with
  | [] => Some join
  | a :: rest =>
    join ← sdscat join a;
    join ← (match rest with [] => Some join | _ => sdscat join sep end);
    join_loop join rest sep
  end.

Definition sdsjoin (argv : list bytes) (sep : bytes) : option sds :=
  join ← sdsempty; join_loop join argv sep.

(** ** Numbers *)

(** Digits of [v], the last one first. *)
Fixpoint ll_digits (n : nat) (v : Z) : bytes :=
  match n with
  | O => []
  | S n => 48 + v mod 10 :: (if v / 10 =? 0 then [] else ll_digits n (v / 10))
  end.

(** The loop that reverses [m] between the offsets [s] and [p]. *)
Fixpoint swap_loop (n : nat) (m : bytes) (s p : nat) : option bytes :=
  if (s <? p)%nat then
    match n with
    | O => None
    | S n =>
      aux ← m !! s;
      b ← m !! p;
      m ← wrn m s [b];
      m ← wrn m p [aux];
      swap_loop n m (s + 1) (p - 1)
    end
  else Some m.

(** Storing the digits (and the sign) at [s], terminating and reversing;
    twenty digits are enough for 64 bits. *)
Definition ll2str_store (s text : bytes) : option (Z * bytes) :=
  s ← wrn s 0 (text ++ [0]);
  s ← swap_loop 20 s 0 (length text - 1);
  Some (Z.of_nat (length text), s).

Definition sdsll2str (s : bytes) (value : Z) : option (Z * bytes) :=
  let v := u64 (if value <? 0 then s64 (- value) else value) in
  ll2str_store s (ll_digits 20 v ++ (if value <? 0 then [ch_minus] else [])).

Definition sdsull2str (s : bytes) (v : Z) : option (Z * bytes) :=
  ll2str_store s (ll_digits 20 v).

Definition SDS_LLSTR_SIZE : nat := 21.

Definition sdsfromlonglong (value : Z) : option sds :=
  '(len, b) ← sdsll2str (resize junk [] SDS_LLSTR_SIZE) value;
  sdsnewlen (Some b) len.


(** ** The quoted representation *)

Definition ch_bslash : Z := 92.
Definition ch_dquote : Z := 34.
Definition ch_squote : Z := 39.
Definition ch_tab : Z := 9.
Definition ch_bell : Z := 7.
Definition ch_bs : Z := 8.
Definition ch_space : Z := 32.

(** A digit printed by [%x]. *)
Definition hex_char (d : Z) : Z := if d <? 10 then 48 + d else 87 + d.

(** What [sdscatrepr] appends for one character. *)
Definition repr_char (c : Z) : bytes :=
  if (c =? ch_bslash) || (c =? ch_dquote) then [ch_bslash; c]
  else if c =? ch_lf then [ch_bslash; chr "n"]
  else if c =? ch_cr then [ch_bslash; chr "r"]
  else if c =? ch_tab then [ch_bslash; chr "t"]
  else if c =? ch_bell then [ch_bslash; chr "a"]
  else if c =? ch_bs then [ch_bslash; chr "b"]
  else if isprint c then [c]
  else [ch_bslash; chr "x"; hex_char (c / 16); hex_char (c mod 16)].

Fixpoint sdscatrepr_loop (s : sds) (p : bytes) : option sds :=
  match p with
  | [] => Some s
  | c :: p => s ← sdscat s (repr_char c); sdscatrepr_loop s p
  end.

Definition sdscatrepr (s : sds) (p : bytes) : option sds :=
  s ← sdscatlen s [ch_dquote] 1;
  s ← sdscatrepr_loop s p;
  sdscatlen s [ch_dquote] 1.

Definition is_hex_digit (c : Z) : bool :=
  ((48 <=? c) && (c <=? 57)) || ((97 <=? c) && (c <=? 102)) || ((65 <=? c) && (c <=? 70)).

Definition hex_digit_to_int (c : Z) : Z :=
  if (48 <=? c) && (c <=? 57) then c - 48
  else if (97 <=? c) && (c <=? 102) then c - 87
  else if (65 <=? c) && (c <=? 70) then c - 55
  else 0.

(** [p] is the rest of the line; [at_ p k] is [p[k]], and [p[length p]] is
    the terminator. *)
Definition at_ (p : bytes) (k : nat) : option Z := (p ++ [0]) !! k.

(** Which quotes the token is inside of. *)
Inductive quote := Unquoted | Inq | Insq.

(** [None] in the second place of [TokStep] is [goto err]. *)
Inductive tok_step :=
  | TokErr
  | TokDone
  | TokMode (q : quote)
  | TokChar (c : Z) (skip : nat).

Definition unescape (c : Z) : Z :=
  if c =? chr "n" then ch_lf
  else if c =? chr "r" then ch_cr
  else if c =? chr "t" then ch_tab
  else if c =? chr "b" then ch_bs
  else if c =? chr "a" then ch_bell
  else c.

(** [*p == '\\' && p[1] == 'x' && is_hex_digit(p[2]) && is_hex_digit(p[3])],
    reading no further than the first test that fails. *)
Definition hex_escape (p : bytes) : option bool :=
  c ← at_ p 0;
  if negb (c =? ch_bslash) then Some false else
  c1 ← at_ p 1;
  if negb (c1 =? chr "x") then Some false else
  c2 ← at_ p 2;
  if negb (is_hex_digit c2) then Some false else
  c3 ← at_ p 3;
  Some (is_hex_digit c3).

(** A closing quote must be followed by a space or by nothing at all. *)
Definition close_quote (p : bytes) : option tok_step :=
  c1 ← at_ p 1;
  Some (if negb (c1 =? 0) && negb (isspace c1) then TokErr else TokDone).

(** One turn of the inner loop: what it does and how far [p] has advanced
    before the final [if ( *p) p++]. *)
Definition step_inq (p : bytes) : option tok_step :=
  hex ← hex_escape p;
  c ← at_ p 0;
  if (hex : bool) then
    c2 ← at_ p 2;
    c3 ← at_ p 3;
    Some (TokChar (u8 (hex_digit_to_int c2 * 16 + hex_digit_to_int c3)) 3)
  else
    esc ← (if c =? ch_bslash then c1 ← at_ p 1; Some (negb (c1 =? 0)) else Some false);
    if (esc : bool) then c1 ← at_ p 1; Some (TokChar (unescape c1) 1)
    else if c =? ch_dquote then close_quote p
    else if c =? 0 then Some TokErr
    else Some (TokChar c 0).

Definition step_insq (p : bytes) : option tok_step :=
  c ← at_ p 0;
  esc ← (if c =? ch_bslash then c1 ← at_ p 1; Some (c1 =? ch_squote) else Some false);
  if (esc : bool) then Some (TokChar ch_squote 1)
  else if c =? ch_squote then close_quote p
  else if c =? 0 then Some TokErr
  else Some (TokChar c 0).

Definition step_unquoted (p : bytes) : option tok_step :=
  c ← at_ p 0;
  if (c =? ch_space) || (c =? ch_lf) || (c =? ch_cr) || (c =? ch_tab) || (c =? 0)
  then Some TokDone
  else if c =? ch_dquote then Some (TokMode Inq)
  else if c =? ch_squote then Some (TokMode Insq)
  else Some (TokChar c 0).

Definition step_token (q : quote) (p : bytes) : option tok_step :=
  match q with Unquoted => step_unquoted p | Inq => step_inq p | Insq => step_insq p end.

(** [if ( *p) p++]. *)
Definition next (p : bytes) : bytes := match p with [] => [] | _ :: p => p end.

(** The inner loop: the rest of the line and the token, or the error. *)
Fixpoint get_token (n : nat) (q : quote) (p : bytes) (current : sds)
  : option (option (bytes * sds)) :=
  match n with
  | O => None
  | S n =>
    st ← step_token q p;
    match st with
    | TokErr => Some None
    | TokDone => Some (Some (next p, current))
    | TokMode q => get_token n q (next p) current
    | TokChar c skip =>
      current ← sdscatlen current [c] 1;
      get_token n q (next (drop skip p)) current
    end
  end.

Fixpoint skip_blanks (p : bytes) : bytes :=
  match p with
  | [] => []
  | c :: p' => if isspace c then skip_blanks p' else p
  end.

Fixpoint splitargs_loop (n : nat) (p : bytes) (vector : list sds)
  : option (option (list sds)) :=
  match n with
  | O => None
  | S n =>
    match skip_blanks p with
    | [] => Some (Some vector)
    | p =>
      current ← sdsempty;
      tok ← get_token (length p + 1) Unquoted p current;
      match tok with
      | None => Some None
      | Some (p, current) => splitargs_loop n p (vector ++ [current])
      end
    end
  end.

(** [line] is a C string, up to its null byte and without it: the caller cuts
    the text there ([strlen]), and bytes behind a null byte are not looked at by
    the code.  [Some None] is the null pointer that reports unbalanced quotes. *)
Definition sdssplitargs (line : bytes) : option (option (list sds)) :=
  splitargs_loop (length line + 1) line [].

(** ** The formatter *)

(** The variadic arguments. *)
Inductive fmt_arg :=
  | FStr (s : bytes)
  | FSds (s : sds)
  | FNum (v : Z)
  | FUnum (v : Z).

Definition fmt_room (s : sds) (l : Z) : option sds :=
  if sdsavail s <? l then sdsMakeRoomFor s l else Some s.

(** Copy [l] bytes at [i] and lengthen the string. *)
Definition fmt_put (s : sds) (i : Z) (bs : bytes) : option (sds * Z) :=
  let l := Z.of_nat (length bs) in
  s ← fmt_room s l;
  s ← sds_write s i bs;
  Some (sdsinclen s l, s32 (i + l)).

Definition fmt_putc (s : sds) (i : Z) (c : Z) : option (sds * Z) :=
  s ← sds_write s i [c];
  Some (sdsinclen s 1, s32 (i + 1)).

(** The text of the argument that the conversion [next] takes from [args];
    a conversion applied to an argument of another type is undefined. *)
Definition fmt_conv (next : Z) (args : list fmt_arg) : option (option bytes * list fmt_arg) :=
  if next =? chr "s" then
    match args with FStr s :: args => Some (Some s, args) | _ => None end
  else if next =? chr "S" then
    match args with
    | FSds s :: args => bs ← rdn (buf s) 0 (Z.to_nat (sdslen s)); Some (Some bs, args)
    | _ => None
    end
  else if (next =? chr "i") || (next =? chr "I") then
    match args with
    | FNum v :: args =>
      '(l, b) ← sdsll2str (resize junk [] SDS_LLSTR_SIZE) v;
      bs ← rdn b 0 (Z.to_nat l); Some (Some bs, args)
    | _ => None
    end
  else if (next =? chr "u") || (next =? chr "U") then
    match args with
    | FUnum v :: args =>
      '(l, b) ← sdsull2str (resize junk [] SDS_LLSTR_SIZE) v;
      bs ← rdn b 0 (Z.to_nat l); Some (Some bs, args)
    | _ => None
    end
  else Some (None, args).

(** The loop over the format; a format that ends in [%] makes it read past
    the terminator, which is the last [None]. *)
Fixpoint fmt_loop (s : sds) (f : bytes) (i : Z) (args : list fmt_arg) : option (sds * Z) :=
  match f with
  | [] => Some (s, i)
  | c :: f =>
    s ← (if sdsavail s =? 0 then sdsMakeRoomFor s 1 else Some s);
    if c =? chr "%" then
      match f with
      | [] => None
      | next :: f =>
        '(text, args) ← fmt_conv next args;
        '(s, i) ← (match text with Some bs => fmt_put s i bs | None => fmt_putc s i next end);
        fmt_loop s f i args
      end
    else
      '(s, i) ← fmt_putc s i c;
      fmt_loop s f i args
  end.

Definition sdscatfmt (s : sds) (fmt : bytes) (args : list fmt_arg) : option sds :=
  '(s, i) ← fmt_loop s fmt (s32 (sdslen s)) args;
  sds_write s i [0].

(** ** Parts of a string *)

Lemma sds_memmove0_rep s x st n :
  sds_rep s x -> 0 <= st -> 0 <= n -> st + n <= Z.of_nat (length x) ->
  exists s1, sds_memmove0 s st n = Some s1 /\
    sds_rep s1 (take (Z.to_nat n) (drop (Z.to_nat st) x) ++ drop (Z.to_nat n) x).
Proof.
  intros (Hh & tl & Hb & Hl & Ha) Hst Hn Hle. unfold sds_memmove0, memmove, rdn.
  rewrite Hb, decide_True by (rewrite length_app; lia). cbn [mbind option_bind].
  rewrite drop_app_le, take_app_le by (rewrite ?length_drop; lia).
  set (b := take (Z.to_nat n) (drop (Z.to_nat st) x)).
  assert (length b = Z.to_nat n) as Hlb by (unfold b; rewrite length_take, length_drop; lia).
  unfold wrn. rewrite decide_True by (rewrite length_app; lia). rewrite Hlb. cbn [plus take fmap option_fmap option_map app].
  rewrite drop_app_le by lia. eexists. split; [done|].
  assert (length (b ++ drop (Z.to_nat n) x) = length x) as Hlx.
  { rewrite length_app, length_drop. lia. }
  apply (sds_rep_intro _ _ tl); autorewrite with redis; [done| |by rewrite Hlx|by rewrite Hlx].
  cbn [buf set_buf]. by rewrite <- app_assoc.
Qed.

(** The string an index range designates, both ends included. *)
Definition range_index (len i : Z) : Z := if i <? 0 then Z.max 0 (len + i) else i.

Definition byte_range (x : bytes) (start en : Z) : bytes :=
  let len := Z.of_nat (length x) in
  let st := range_index len start in
  let en := Z.min (range_index len en) (len - 1) in
  take (Z.to_nat (en - st + 1)) (drop (Z.to_nat st) x).

(** The end of [sdsrange] and [sdstrim]: move the part down and cut. *)
Lemma sds_cut s x st n :
  sds_rep s x -> 0 <= st -> 0 <= n -> (n <> 0 -> st + n <= Z.of_nat (length x)) ->
  exists s1, (if negb (st =? 0) && negb (n =? 0) then sds_memmove0 s st n else Some s) = Some s1 /\
  exists s2, sds_write s1 n [0] = Some s2 /\
    sds_rep (sdssetlen s2 n) (take (Z.to_nat n) (drop (Z.to_nat st) x)).
Proof.
  intros Hs Hst Hn Hle. destruct (Z.eqb_spec n 0) as [->|Hn0].
  { rewrite andb_false_r. exists s. split; [done|].
    destruct (sds_truncate s x 0 Hs) as (_ & _ & _ & s2 & Hw & Hr); [lia|].
    exists s2. rewrite take_0 in *. done. }
  specialize (Hle Hn0). destruct (Z.eqb_spec st 0) as [->|Hst0].
  { exists s. split; [done|].
    destruct (sds_truncate s x (Z.to_nat n) Hs) as (_ & _ & _ & s2 & Hw & Hr); [lia|].
    rewrite Z2Nat.id in * by done. by exists s2. }
  cbn [negb andb]. destruct (sds_memmove0_rep s x st n Hs) as (s1 & Hm & Hr1); [done..|].
  exists s1. split; [done|].
  destruct (sds_truncate s1 _ (Z.to_nat n) Hr1) as (_ & _ & _ & s2 & Hw & Hr).
  { rewrite length_app, length_take, !length_drop. lia. }
  rewrite Z2Nat.id in * by done. exists s2. split; [done|].
  rewrite take_app_le in Hr by (rewrite length_take, length_drop; lia).
  by rewrite take_take, Nat.min_id in Hr.
Qed.

Lemma range_index_s32 len i :
  0 <= len < 2 ^ 31 -> is_int i ->
  (if i <? 0 then let i := s32 (len + i) in if i <? 0 then 0 else i else i) = range_index len i.
Proof.
  intros Hl Hi. unfold range_index. destruct (Z.ltb_spec i 0); [|done].
  rewrite wraps_small by ints. cbn zeta. destruct (Z.ltb_spec (len + i) 0); lia.
Qed.

Lemma range_index_range len i :
  0 <= len < 2 ^ 31 -> is_int i -> 0 <= range_index len i < 2 ^ 31.
Proof. intros. unfold range_index. destruct (Z.ltb_spec i 0); ints. Qed.

(** [newlen] is zero exactly when the range is empty, even where [end -
    start + 1] wraps. *)
Lemma range_newlen st en :
  0 <= st < 2 ^ 31 -> 0 <= en < 2 ^ 31 -> st <= en ->
  u64 (s32 (en - st + 1)) <> 0 /\ (en < 2 ^ 31 - 1 -> u64 (s32 (en - st + 1)) = en - st + 1).
Proof.
  intros Hs He Hle. destruct (decide (en - st + 1 = 2 ^ 31)) as [E|]; [rewrite E|].
  - split; [done|]. intros. lia.
  - rewrite wraps_small, wrapu_small by ints. lia.
Qed.

Lemma sdsrange_rep s x start en :
  sds_rep s x -> Z.of_nat (length x) < 2 ^ 31 -> is_int start -> is_int en ->
  exists s', sdsrange s start en = Some s' /\ sds_rep s' (byte_range x start en).
Proof.
  intros Hs Hlim Hst Hen. unfold sdsrange, byte_range. rewrite (sds_rep_len s x) by done.
  set (L := Z.of_nat (length x)) in *.
  rewrite !range_index_s32 by (done || lia).
  pose proof (range_index_range L start ltac:(lia) Hst) as Hs'.
  pose proof (range_index_range L en ltac:(lia) Hen) as He'.
  destruct (Z.eqb_spec L 0) as [HL|HL].
  { exists s. split; [done|]. assert (x = []) as -> by (apply nil_length_inv; lia).
    by rewrite drop_nil, take_nil. }
  set (st := range_index L start) in *. set (e := range_index L en) in *. clearbody st e.
  rewrite !(wraps_small 32 L), !(wraps_small 32 (L - 1)) by ints. rewrite Z.gtb_ltb.
  assert (exists st' n, (let '(a, b) :=
      if negb ((if e <? st then 0 else u64 (s32 (e - st + 1))) =? 0)
      then if st >=? L then (st, 0)
           else if e >=? L then (st, if st >? L - 1 then 0 else u64 (s32 (L - 1 - st + 1)))
                else (st, if e <? st then 0 else u64 (s32 (e - st + 1)))
      else (0, if e <? st then 0 else u64 (s32 (e - st + 1))) in (a, b)) = (st', n) /\
      0 <= st' /\ 0 <= n /\ (n <> 0 -> st' + n <= L) /\
      take (Z.to_nat n) (drop (Z.to_nat st') x)
      = take (Z.to_nat (Z.min e (L - 1) - st + 1)) (drop (Z.to_nat st) x))
    as (st' & n & Heq & H1 & H2 & H3 & H4).
  { rewrite !Z.geb_leb, !Z.gtb_ltb. destruct (Z.ltb_spec e st).
    { exists 0, 0. split_and!; try done || lia.
      replace (Z.to_nat (Z.min e (L - 1) - st + 1)) with 0%nat by lia. by rewrite !take_0. }
    destruct (range_newlen st e) as [Hne Heq]; [lia..|].
    rewrite (proj2 (Z.eqb_neq _ _)) by done. cbn [negb].
    destruct (Z.leb_spec L st).
    { exists st, 0. split_and!; try done || lia.
      replace (Z.to_nat (Z.min e (L - 1) - st + 1)) with 0%nat by lia. by rewrite !take_0. }
    destruct (Z.leb_spec L e).
    - rewrite (proj2 (Z.ltb_ge _ _)) by lia.
      destruct (range_newlen st (L - 1)) as [_ ->]; [lia|lia|lia| |lia].
      eexists _, _. split; [done|]. replace (Z.min e (L - 1)) with (L - 1) by lia. split_and!; done || lia.
    - rewrite Heq by lia. eexists _, _. split; [done|].
      replace (Z.min e (L - 1)) with e by lia. split_and!; done || lia. }
  match goal with |- context [let '(_, _) := ?p in _] => assert (p = (st', n)) as Hp end.
  { revert Heq. rewrite !Z.geb_leb, !Z.gtb_ltb. repeat case_match; congruence. }
  cbn zeta. rewrite Hp. cbn iota.
  destruct (sds_cut s x st' n Hs H1 H2 H3) as (s1 & -> & s2 & Hw & Hr).
  cbn [mbind option_bind]. rewrite Hw. cbn [mbind option_bind].
  eexists. split; [done|]. by rewrite <- H4.
Qed.

(** ** Trimming *)

Fixpoint skip_while (f : Z -> bool) (x : bytes) : bytes :=
  match x with [] => [] | c :: x' => if f c then skip_while f x' else x end.

(** [x] without the characters of [f] at both ends. *)
Definition trim (f : Z -> bool) (x : bytes) : bytes :=
  reverse (skip_while f (reverse (skip_while f x))).

Lemma skip_while_suffix f x : exists a, x = a ++ skip_while f x.
Proof.
  induction x as [|c x [a IH]]; cbn; [by exists []|].
  destruct (f c); [exists (c :: a); cbn; by rewrite <- IH|by exists []].
Qed.

Lemma skip_while_head f x c y : skip_while f x = c :: y -> f c = false.
Proof.
  induction x as [|d x IH]; cbn; [done|]. destruct (f d) eqn:E; [done|]. by intros [= -> ->].
Qed.

Lemma trim_left_spec cset tl y : forall a n,
  (length y <= n)%nat ->
  trim_left n (a ++ y ++ tl) cset (Z.of_nat (length a)) (Z.of_nat (length (a ++ y)) - 1)
  = Some (Z.of_nat (length (a ++ y)) - Z.of_nat (length (skip_while (strchr cset) y))).
Proof.
  induction y as [|c y IH]; intros a n Hn.
  - rewrite app_nil_r. cbn [skip_while length]. destruct n; cbn [trim_left];
      rewrite (proj2 (Z.leb_gt _ _)) by lia; f_equal; lia.
  - destruct n as [|n]; [cbn in Hn; lia|]. cbn [trim_left skip_while length] in *.
    rewrite (proj2 (Z.leb_le _ _)) by (rewrite length_app; cbn; lia).
    rewrite Nat2Z.id. cbn [app]. rewrite lookup_app_len by done. cbn [mbind option_bind].
    destruct (strchr cset c).
    + specialize (IH (a ++ [c]) n ltac:(lia)). rewrite <- !app_assoc in IH. cbn [app] in IH.
      rewrite <- IH. f_equal. rewrite length_app. cbn. lia.
    + f_equal. rewrite length_app. cbn. lia.
Qed.

Lemma trim_right_spec cset a tl y : forall n,
  (length y <= n)%nat -> (forall c y', y = c :: y' -> strchr cset c = false) ->
  trim_right n (a ++ y ++ tl) cset (Z.of_nat (length a)) (Z.of_nat (length (a ++ y)) - 1)
  = Some (Z.of_nat (length a + length (skip_while (strchr cset) (reverse y))) - 1).
Proof.
  revert tl. induction y as [|c y IH] using rev_ind; intros tl n Hn Hh.
  - rewrite app_nil_r. cbn. destruct n; cbn [trim_right];
      rewrite Z.gtb_ltb, (proj2 (Z.ltb_ge _ _)) by lia; f_equal; lia.
  - rewrite length_app in Hn. cbn in Hn. destruct n as [|n]; [lia|]. cbn [trim_right].
    rewrite !length_app. cbn [length]. rewrite reverse_snoc. cbn [skip_while].
    rewrite Z.gtb_ltb. destruct y as [|d y].
    { rewrite (proj2 (Z.ltb_ge _ _)) by (cbn; lia). rewrite (Hh c []) by done.
      cbn. by f_equal. }
    rewrite (proj2 (Z.ltb_lt _ _)) by (cbn; lia).
    rewrite <- !(app_assoc (d :: y)). rewrite (app_assoc a). cbn [app].
    rewrite lookup_app_len by (rewrite length_app; cbn; lia). cbn [mbind option_bind].
    destruct (strchr cset c).
    + rewrite <- app_assoc. rewrite <- (IH (c :: tl) n); [|cbn in *; lia|].
      * f_equal. rewrite length_app. cbn. lia.
      * intros ? ? [= <- <-]. by apply (Hh d (y ++ [c])).
    + pose proof (length_reverse (d :: y)). cbn [length] in *. f_equal. lia.
Qed.

Lemma sdstrim_rep s x cset :
  sds_rep s x -> exists s', sdstrim s cset = Some s' /\ sds_rep s' (trim (strchr cset) x).
Proof.
  intros Hs. pose proof Hs as (_ & tl & Hb & Hl & _). unfold sdstrim, trim. rewrite Hb, Hl.
  pose proof (trim_left_spec cset (0 :: tl) x [] (length (x ++ 0 :: tl))) as E.
  cbn [app length] in E. change (Z.of_nat 0) with 0 in E.
  rewrite E by (rewrite length_app; lia). clear E. cbn [mbind option_bind].
  destruct (skip_while_suffix (strchr cset) x) as [a Hx].
  pose proof (skip_while_head (strchr cset) x) as Hh.
  set (y := skip_while (strchr cset) x) in *. clearbody y.
  assert (Z.of_nat (length x) - Z.of_nat (length y) = Z.of_nat (length a)) as ->.
  { rewrite Hx, length_app. lia. }
  pose proof (trim_right_spec cset a (0 :: tl) y (length (x ++ 0 :: tl))) as E.
  rewrite app_assoc, <- Hx in E. rewrite E; [|rewrite Hx, !length_app; lia|done].
  clear E. cbn [mbind option_bind].
  destruct (skip_while_suffix (strchr cset) (reverse y)) as [b Hy].
  set (z := skip_while (strchr cset) (reverse y)) in *. clearbody z.
  assert (y = reverse z ++ reverse b) as Hyz.
  { rewrite <- (reverse_involutive y), Hy. apply reverse_app. }
  set (len := if _ >? _ then 0 else _).
  assert (len = Z.of_nat (length z)) as ->.
  { unfold len. rewrite Z.gtb_ltb. destruct (Z.ltb_spec (Z.of_nat (length a + length z) - 1) (Z.of_nat (length a))); lia. }
  assert (length y = length z + length b)%nat as Hyl.
  { rewrite Hyz, length_app, !length_reverse. lia. }
  assert (length x = length a + length y)%nat as Hxl by (rewrite Hx; apply length_app).
  assert (exists s1, (if Z.of_nat (length a) =? 0 then Some s
      else sds_memmove0 s (Z.of_nat (length a)) (Z.of_nat (length z))) = Some s1 /\
      exists w, sds_rep s1 (reverse z ++ w)) as (s1 & -> & w & Hw).
  { destruct (Z.eqb_spec (Z.of_nat (length a)) 0).
    { exists s. split; [done|]. assert (a = []) as -> by (apply nil_length_inv; lia).
      exists (reverse b). by rewrite <- Hyz, <- (app_nil_l y), <- Hx. }
    destruct (sds_memmove0_rep s x (Z.of_nat (length a)) (Z.of_nat (length z)) Hs)
      as (s1 & Hm & Hr); [lia..|]. exists s1. split; [done|].
    rewrite !Nat2Z.id in Hr. rewrite Hx, drop_app_length, Hyz in Hr.
    rewrite take_app_len in Hr by (by rewrite length_reverse). by eexists. }
  cbn [mbind option_bind].
  destruct (sds_truncate s1 _ (length z) Hw) as (_ & _ & _ & s2 & -> & Hr).
  { rewrite length_app, length_reverse. lia. }
  cbn [mbind option_bind]. eexists. split; [done|].
  by rewrite take_app_len in Hr by (by rewrite length_reverse).
Qed.

(** ** Mapping and comparing *)

Lemma sds_map_rep f s x : sds_rep s x -> sds_rep (sds_map f s) (f <$> x).
Proof.
  intros (Hh & tl & Hb & Hl & Ha). unfold sds_map. rewrite Hb, Hl, Nat2Z.id.
  rewrite take_app_length, drop_app_length.
  apply (sds_rep_intro _ _ tl); autorewrite with redis; rewrite ?length_fmap; done.
Qed.

(** Lexicographic order, a proper prefix being smaller. *)
Fixpoint lex (x y : bytes) : comparison :=
  match x, y with
  | [], [] => Eq
  | [], _ => Lt
  | _, [] => Gt
  | c :: x, d :: y => match c ?= d with Eq => lex x y | r => r end
  end.

Lemma memcmp_lex x : forall y,
  let m := Nat.min (length x) (length y) in
  let c := memcmp (take m x) (take m y) in
  (c <> 0 -> (c ?= 0) = lex x y) /\
  (c = 0 -> (Z.of_nat (length x) - Z.of_nat (length y) ?= 0) = lex x y).
Proof.
  induction x as [|c x IH]; intros [|d y]; cbn [length Nat.min take memcmp lex]; try (by split).
  destruct (Z.eqb_spec c d) as [->|Hne].
  - rewrite Z.compare_refl. destruct (IH y) as [I1 I2]. split; intros H; [by apply I1|].
    rewrite <- I2 by done. f_equal. lia.
  - split; [|lia]. intros _. destruct (Z.compare_spec c d); [done|apply Z.compare_lt_iff; lia|].
    apply Z.compare_gt_iff; lia.
Qed.

Lemma sdscmp_rep s1 s2 x y :
  sds_rep s1 x -> sds_rep s2 y ->
  Z.of_nat (length x) < 2 ^ 31 -> Z.of_nat (length y) < 2 ^ 31 ->
  (sdscmp s1 s2 ?= 0) = lex x y.
Proof.
  intros H1 H2 Hx Hy. unfold sdscmp.
  rewrite (sds_rep_len s1 x), (sds_rep_len s2 y) by done.
  set (m := if _ <? _ then _ else _).
  assert (Z.to_nat m = Nat.min (length x) (length y)) as ->.
  { unfold m. destruct (Z.ltb_spec (Z.of_nat (length x)) (Z.of_nat (length y))); lia. }
  destruct H1 as (_ & t1 & -> & _), H2 as (_ & t2 & -> & _).
  rewrite !take_app_le by lia. destruct (memcmp_lex x y) as [I1 I2].
  destruct (Z.eqb_spec (memcmp (take (Nat.min (length x) (length y)) x)
    (take (Nat.min (length x) (length y)) y)) 0) as [E|E]; [|by apply I1].
  rewrite wraps_small by ints. by apply I2.
Qed.

(** ** Numbers *)

Lemma ll_digits_udec n v :
  0 <= v < 10 ^ Z.of_nat (S n) -> reverse (ll_digits (S n) v) = udec n v.
Proof.
  revert v. induction n as [|n IH]; intros v Hv.
  - change (10 ^ Z.of_nat 1) with 10 in Hv. cbn [ll_digits udec].
    rewrite Z.mod_small, Z.div_small by lia. done.
  - rewrite pow10_S in Hv.
    change (ll_digits (S (S n)) v)
      with (48 + v mod 10 :: if v / 10 =? 0 then [] else ll_digits (S n) (v / 10)).
    cbn [udec]. rewrite reverse_cons. destruct (Z.ltb_spec v 10).
    + rewrite Z.div_small, Z.mod_small by lia. done.
    + rewrite (proj2 (Z.eqb_neq _ _)) by dlia. by rewrite IH by dlia.
Qed.

Lemma ll_digits_spec v : is_u64 v -> reverse (ll_digits 20 v) = udecimal v.
Proof.
  intros Hv. rewrite ll_digits_udec by (change (Z.of_nat 20) with 20; ints).
  symmetry. apply udec_fuel; [change (Z.of_nat 20) with 20; ints|lia].
Qed.

Lemma swap_loop_spec n : forall pre mid post,
  (length mid <= 2 * n + 1)%nat ->
  swap_loop n (pre ++ mid ++ post) (length pre) (length pre + length mid - 1)
  = Some (pre ++ reverse mid ++ post).
Proof.
  induction n as [|n IH]; intros pre mid post Hn; cbn [swap_loop].
  - destruct mid as [|a [|]]; cbn [length] in *; [| |lia];
      (rewrite (proj2 (Nat.ltb_ge _ _)) by lia; done).
  - destruct mid as [|a mid].
    { rewrite (proj2 (Nat.ltb_ge _ _)) by (cbn; lia). done. }
    destruct mid as [|b mid _] using rev_ind.
    { rewrite (proj2 (Nat.ltb_ge _ _)) by (cbn; lia). done. }
    cbn [length] in *. rewrite length_app in *. cbn [length] in *.
    rewrite (proj2 (Nat.ltb_lt _ _)) by lia.
    assert (pre ++ (a :: mid ++ [b]) ++ post = pre ++ a :: mid ++ b :: post) as ->
      by (cbn [app]; by rewrite <- app_assoc).
    rewrite (lookup_app_len pre _ a (length pre)) by done. cbn [mbind option_bind].
    assert (pre ++ a :: mid ++ b :: post = (pre ++ a :: mid) ++ b :: post) as E
      by (by rewrite <- app_assoc).
    rewrite E, (lookup_app_len (pre ++ a :: mid)), <- E by (rewrite length_app; cbn; lia).
    cbn [mbind option_bind].
    rewrite (wrn_app pre [a] (mid ++ b :: post) _ [b]) by done. cbn [mbind option_bind app].
    assert (pre ++ b :: mid ++ b :: post = (pre ++ b :: mid) ++ b :: post) as ->
      by (by rewrite <- app_assoc).
    rewrite (wrn_app (pre ++ b :: mid) [b] post _ [a]) by (rewrite ?length_app; cbn; lia).
    cbn [mbind option_bind app].
    specialize (IH (pre ++ [b]) mid (a :: post) ltac:(lia)). rewrite length_app in IH. cbn [length] in IH.
    replace (length pre + S (length mid + 1) - 1 - 1)%nat with (length pre + 1 + length mid - 1)%nat by lia.
    rewrite <- !app_assoc in IH. rewrite <- app_assoc. cbn [app] in *. rewrite IH.
    rewrite reverse_cons, reverse_snoc. cbn [app]. by rewrite <- app_assoc.
Qed.

Lemma ll2str_store_spec text s :
  (0 < length text)%nat -> (length text < length s)%nat -> (length text <= 41)%nat ->
  exists rest, ll2str_store s text = Some (Z.of_nat (length text), reverse text ++ 0 :: rest) /\
    (length text + S (length rest) = length s)%nat.
Proof.
  intros H0 Hs Hl. unfold ll2str_store.
  destruct (list_split3 s 0 (length (text ++ [0]))) as (a & b & c & -> & Ha & Hb);
    [rewrite length_app; cbn; lia|].
  destruct a; [|done]. cbn [app]. rewrite wrn_app0 by done. cbn [mbind option_bind].
  pose proof (swap_loop_spec 20 [] text ([0] ++ c) ltac:(lia)) as E. cbn [length app Nat.add] in E.
  rewrite <- app_assoc. cbn [app]. rewrite E. cbn [mbind option_bind].
  exists c. split; [done|]. rewrite !length_app in *. cbn [length] in *. lia.
Qed.

Lemma sdsll2str_spec s v :
  is_llong v -> length s = SDS_LLSTR_SIZE ->
  exists rest, sdsll2str s v = Some (Z.of_nat (length (decimal v)), decimal v ++ 0 :: rest).
Proof.
  intros Hv Hs. unfold sdsll2str.
  set (w := u64 (if v <? 0 then s64 (- v) else v)).
  assert (w = Z.abs v) as Hw.
  { unfold w. destruct (Z.ltb_spec v 0).
    - destruct (decide (v = LLONG_MIN)) as [->|]; [done|].
      rewrite wraps_small, wrapu_small by ints. lia.
    - rewrite wrapu_small by ints. lia. }
  set (text := ll_digits 20 w ++ _).
  assert (reverse text = decimal v) as Ht.
  { unfold text, decimal. rewrite reverse_app, ll_digits_spec by ints. rewrite Hw.
    destruct (Z.ltb_spec v 0); [rewrite (Z.abs_neq v)|rewrite (Z.abs_eq v)]; done || lia. }
  assert (length text = length (decimal v)) as Hl by (by rewrite <- Ht, length_reverse).
  pose proof (decimal_length_20 v Hv).
  destruct (ll2str_store_spec text s) as (rest & -> & _);
    [lia|unfold SDS_LLSTR_SIZE in Hs; lia|lia|].
  exists rest. by rewrite Ht, Hl.
Qed.

Lemma sdsull2str_spec s v :
  is_u64 v -> length s = SDS_LLSTR_SIZE ->
  exists rest, sdsull2str s v = Some (Z.of_nat (length (udecimal v)), udecimal v ++ 0 :: rest).
Proof.
  intros Hv Hs. unfold sdsull2str. pose proof (ll_digits_spec v Hv) as Ht.
  assert (length (ll_digits 20 v) = length (udecimal v)) as Hl by (by rewrite <- Ht, length_reverse).
  pose proof (udecimal_length_20 v Hv).
  destruct (ll2str_store_spec (ll_digits 20 v) s) as (rest & -> & _);
    [lia|unfold SDS_LLSTR_SIZE in Hs; lia|lia|].
  exists rest. by rewrite Ht, Hl.
Qed.

Lemma sdsfromlonglong_rep v :
  is_llong v -> exists s, sdsfromlonglong v = Some s /\ sds_rep s (decimal v).
Proof.
  intros Hv. unfold sdsfromlonglong.
  destruct (sdsll2str_spec (resize junk [] SDS_LLSTR_SIZE) v Hv) as (rest & ->);
    [apply length_resize|]. cbn [mbind option_bind].
  pose proof (decimal_length_20 v Hv).
  destruct (sdsnewlen_rep junk (Some (decimal v ++ 0 :: rest)) (Z.of_nat (length (decimal v))))
    as (s & Hs & Hr); [unfold SDS_LIMIT; lia| |].
  { intros i [= <-]. rewrite length_app. lia. }
  exists s. split; [done|]. cbn [init_str] in Hr. by rewrite Nat2Z.id, take_app_length in Hr.
Qed.

(** ** Joining *)

(** The strings of [ys] with [sep] in between. *)
Fixpoint intercalate (sep : bytes) (ys : list bytes) : bytes :=
  match ys with
  | [] => []
  | [y] => y
  | y :: ys => y ++ sep ++ intercalate sep ys
  end.

Lemma intercalate_cons sep y ys :
  ys <> [] -> intercalate sep (y :: ys) = y ++ sep ++ intercalate sep ys.
Proof. by destruct ys. Qed.

Lemma joinsds_loop_rep argv ys sep n : Forall2 sds_rep argv ys ->
  forall join x, sds_rep join x -> 0 <= n <= Z.of_nat (length sep) ->
  Z.of_nat (length (x ++ intercalate (take (Z.to_nat n) sep) ys)) < SDS_LIMIT ->
  exists s', joinsds_loop join argv sep n = Some s' /\
    sds_rep s' (x ++ intercalate (take (Z.to_nat n) sep) ys).
Proof.
  induction 1 as [|a y argv ys Ha Hargv IH]; intros join x Hj Hn Hlim; cbn [joinsds_loop].
  { exists join. by rewrite app_nil_r. }
  set (w := take (Z.to_nat n) sep) in *.
  assert (Z.of_nat (length w) = n) as Hw by (unfold w; rewrite length_take; lia).
  assert (length y <= length (intercalate w (y :: ys)))%nat as Hy.
  { destruct ys; cbn [intercalate]; rewrite ?length_app; lia. }
  rewrite length_app in Hlim.
  destruct (sdscatsds_rep junk join x a y Hj Ha) as (j1 & -> & Hj1); [lia|].
  cbn [mbind option_bind]. destruct Hargv as [|a' y' argv ys Ha' Hargv].
  { cbn [mbind option_bind joinsds_loop]. by exists j1. }
  rewrite intercalate_cons, !length_app in Hlim by done.
  destruct (sdscatlen_rep junk j1 (x ++ y) sep n Hj1 Hn) as (j2 & -> & Hj2).
  { rewrite length_app. lia. }
  cbn [mbind option_bind]. rewrite intercalate_cons by done. fold w in Hj2.
  destruct (IH j2 ((x ++ y) ++ w) Hj2 Hn) as (s' & Hs' & Hr).
  { rewrite !length_app. lia. }
  exists s'. split; [done|]. by rewrite <- !app_assoc in Hr.
Qed.

Lemma sdsjoinsds_rep argv ys sep n :
  Forall2 sds_rep argv ys -> 0 <= n <= Z.of_nat (length sep) ->
  Z.of_nat (length (intercalate (take (Z.to_nat n) sep) ys)) < SDS_LIMIT ->
  exists s', sdsjoinsds argv sep n = Some s' /\
    sds_rep s' (intercalate (take (Z.to_nat n) sep) ys).
Proof.
  intros Ha Hn Hlim. unfold sdsjoinsds. destruct (sdsempty_rep junk) as (j & -> & Hj).
  by apply (joinsds_loop_rep argv ys sep n Ha j []).
Qed.

(** ** Splitting *)

(** [sep] occurs at no position below [n] of [x]. *)
Definition no_occ (sep x : bytes) (n : nat) : Prop :=
  forall a b, x = a ++ sep ++ b -> (n <= length a)%nat.

(** The tokens of [s]: every token but the last one is followed by the first
    occurrence of the separator that starts in what is left. *)
Inductive tokens (sep : bytes) : bytes -> list bytes -> Prop :=
  | tok_last x : no_occ sep x (S (length x)) -> tokens sep x [x]
  | tok_sep x rest ys :
      no_occ sep (x ++ sep ++ rest) (length x) -> tokens sep rest ys ->
      tokens sep (x ++ sep ++ rest) (x :: ys).

Lemma tokens_ne sep x ys : tokens sep x ys -> ys <> [].
Proof. by destruct 1. Qed.

Lemma tokens_intercalate sep x ys : tokens sep x ys -> intercalate sep ys = x.
Proof.
  induction 1 as [|x rest ys Hx Hr IH]; [done|].
  by rewrite intercalate_cons, IH by (by eapply tokens_ne).
Qed.

Lemma app_split_len (a b c d : bytes) :
  a ++ b = c ++ d -> length a = length c -> a = c /\ b = d.
Proof. intros H Hl. by apply app_inj_1 in H. Qed.

(** There is only one way to split. *)
Lemma tokens_unique sep x ys :
  sep <> [] -> tokens sep x ys -> forall zs, tokens sep x zs -> ys = zs.
Proof.
  intros Hsep. induction 1 as [x Hx|x rest ys Hx Hr IH]; intros zs Hz.
  - inversion Hz as [|y r zs' Hy Hzs E]; subst; [done|].
    specialize (Hx y r eq_refl). rewrite length_app in Hx. lia.
  - inversion Hz as [y Hy E|y r zs' Hy Hzs E]; subst.
    + specialize (Hy x rest eq_refl). rewrite length_app in Hy. lia.
    + pose proof (Hx y r (eq_sym E)) as H1. rewrite E in Hy. pose proof (Hy x rest eq_refl) as H2.
      destruct (app_split_len _ _ _ _ E) as [-> E2]; [lia|].
      apply app_inv_head in E2 as ->. f_equal. by apply IH.
Qed.

Lemma memcmp_eq a : forall b, (length a <= length b)%nat -> memcmp a b = 0 <-> a = take (length a) b.
Proof.
  induction a as [|x a IH]; intros [|y b] Hl; cbn in *; [done|done|lia|].
  destruct (Z.eqb_spec x y) as [->|Hne].
  - rewrite (IH b) by lia. split; [intros H; by f_equal|by intros [=]].
  - split; [lia|]. congruence.
Qed.

Section Split.
Context (s sep : bytes) (seplen : Z).
Hypothesis Hsep : seplen = Z.of_nat (length sep) /\ 0 < seplen.
Hypothesis Hs : Z.of_nat (length s) < 2 ^ 31.

(** [ys] are the tokens of a prefix that ends with a separator. *)
Inductive done_tokens : bytes -> list bytes -> bytes -> Prop :=
  | dt_nil rest : done_tokens [] [] rest
  | dt_cons x pre ys rest :
      no_occ sep (x ++ sep ++ pre ++ rest) (length x) -> done_tokens pre ys rest ->
      done_tokens (x ++ sep ++ pre) (x :: ys) rest.

Lemma done_tokens_all pre ys rest zs :
  done_tokens pre ys rest -> tokens sep rest zs -> tokens sep (pre ++ rest) (ys ++ zs).
Proof.
  induction 1 as [|x pre ys rest Hx _ IH]; intros Hz; [done|].
  rewrite <- !app_assoc. cbn [app]. apply tok_sep; [done|by apply IH].
Qed.

Lemma done_tokens_snoc pre ys rest x rest' :
  done_tokens pre ys rest -> rest = x ++ sep ++ rest' -> no_occ sep rest (length x) ->
  done_tokens (pre ++ x ++ sep) (ys ++ [x]) rest'.
Proof.
  induction 1 as [rest|y pre ys rest Hy _ IH]; intros -> Hx.
  - cbn [app]. rewrite <- (app_nil_r sep) at 1. constructor; [done|constructor].
  - rewrite <- !app_assoc. cbn [app]. constructor; [by rewrite <- !app_assoc|by apply IH].
Qed.

Lemma no_occ_extend cur c rest :
  no_occ sep (cur ++ c :: rest) (length cur) ->
  take (length sep) (c :: rest) <> sep -> no_occ sep (cur ++ c :: rest) (S (length cur)).
Proof.
  intros Hn Hne a b E. pose proof (Hn a b E). destruct (decide (length a = length cur)); [|lia].
  destruct (app_split_len _ _ _ _ E) as [_ E2]; [lia|].
  exfalso. apply Hne. by rewrite E2, take_app_length.
Qed.

Lemma no_occ_short cur rest :
  no_occ sep (cur ++ rest) (length cur) -> (length rest < length sep)%nat ->
  no_occ sep (cur ++ rest) (S (length (cur ++ rest))).
Proof.
  intros Hn Hl a b E. pose proof (Hn a b E). apply (f_equal length) in E.
  rewrite !length_app in *. lia.
Qed.

Lemma push_token_rep toks slots pre cur rest :
  s = pre ++ cur ++ rest -> Z.of_nat (length toks) + 1 <= slots ->
  exists tok, push_token toks slots s (Z.of_nat (length pre)) (Z.of_nat (length (pre ++ cur)))
    = Some (toks ++ [tok]) /\ sds_rep tok cur.
Proof.
  intros -> Hslots. unfold push_token. rewrite (proj2 (Z.ltb_lt _ _)) by lia.
  rewrite Nat2Z.id, drop_app_length, length_app.
  replace (Z.of_nat (length pre + length cur) - Z.of_nat (length pre)) with (Z.of_nat (length cur)) by lia.
  destruct (sdsnewlen_rep junk (Some (cur ++ rest)) (Z.of_nat (length cur))) as (t & -> & Ht).
  { rewrite !length_app in Hs. unfold SDS_LIMIT. lia. }
  { intros i [= <-]. rewrite length_app. lia. }
  exists t. split; [done|]. cbn [init_str] in Ht. by rewrite Nat2Z.id, take_app_length in Ht.
Qed.

Lemma split_loop_rep n : forall pre cur rest toks ys slots,
  s = pre ++ cur ++ rest -> done_tokens pre ys (cur ++ rest) -> Forall2 sds_rep toks ys ->
  no_occ sep (cur ++ rest) (length cur) -> Z.of_nat (length toks) + 1 <= slots ->
  (length rest <= n)%nat ->
  exists toks' slots' pre' last ys',
    split_loop n s (Z.of_nat (length s)) sep seplen toks slots
      (Z.of_nat (length pre)) (Z.of_nat (length (pre ++ cur)))
    = Some (toks', slots', Z.of_nat (length pre')) /\
    s = pre' ++ last /\ done_tokens pre' ys' last /\ Forall2 sds_rep toks' ys' /\
    no_occ sep last (S (length last)) /\ Z.of_nat (length toks') + 1 <= slots'.
Proof.
  destruct Hsep as [Hl Hpos].
  induction n as [|n IH]; intros pre cur rest toks ys slots Es Hd Hf Hn Hsl Hle; cbn [split_loop].
  { rewrite (proj2 (Z.ltb_ge _ _)) by (rewrite Es, !length_app; lia).
    exists toks, slots, pre, (cur ++ rest), ys. split_and!; try done.
    apply no_occ_short; [done|lia]. }
  destruct (Z.ltb_spec (Z.of_nat (length (pre ++ cur))) (Z.of_nat (length s) - (seplen - 1))) as [Hlt|Hge].
  2: { exists toks, slots, pre, (cur ++ rest), ys. split_and!; try done.
    apply no_occ_short; [done|]. rewrite Es, !length_app in Hge. lia. }
  set (slots2 := if slots <? Z.of_nat (length toks) + 2 then slots * 2 else slots).
  assert (Z.of_nat (length toks) + 2 <= slots2) as Hsl2.
  { unfold slots2. destruct (Z.ltb_spec slots (Z.of_nat (length toks) + 2)); lia. }
  clearbody slots2.
  assert (length sep <= length rest)%nat as Hfit by (rewrite Es, !length_app in Hlt; lia).
  destruct rest as [|c rest]; [cbn in Hfit; lia|].
  destruct sep as [|c0 sep'] eqn:Esep; [cbn in Hl; lia|]. rewrite <- Esep in *.
  rewrite Nat2Z.id.
  assert (s !! length (pre ++ cur) = Some c) as ->
    by (by rewrite Es, app_assoc, lookup_app_len).
  cbn [mbind option_bind]. replace (sep !! 0%nat) with (Some c0) by (by rewrite Esep).
  cbn [mbind option_bind]. rewrite Hl, Nat2Z.id.
  assert (rdn s (length (pre ++ cur)) (length sep) = Some (take (length sep) (c :: rest))) as ->.
  { unfold rdn. rewrite decide_True by (rewrite Es, app_assoc, (length_app (pre ++ cur)); lia).
    by rewrite Es, app_assoc, drop_app_length. }
  cbn [mbind option_bind].
  set (here := take (length sep) (c :: rest)).
  assert (length here = length sep) as Hhere by (unfold here; rewrite length_take; lia).
  assert ((Z.of_nat (length sep) =? 1) && (c =? c0) || (memcmp here sep =? 0) = bool_decide (here = sep)) as ->.
  { pose proof (memcmp_eq here sep ltac:(lia)) as Hm. rewrite Hhere, (take_ge sep) in Hm by lia.
    destruct (bool_decide_reflect (here = sep)) as [E|E].
    - rewrite (proj2 Hm E). by rewrite orb_true_r.
    - rewrite (proj2 (Z.eqb_neq (memcmp _ _) 0)) by (by rewrite Hm). rewrite orb_false_r.
      apply andb_false_iff. destruct (Z.eqb_spec (Z.of_nat (length sep)) 1); [|by left]. right.
      apply Z.eqb_neq. intros ->. apply E. unfold here. destruct sep as [|? [|]]; [done| |cbn in *; lia].
      injection Esep as -> ->. done. }
  case_bool_decide as E.
  - destruct (push_token_rep toks slots2 pre cur (c :: rest) Es) as (tok & -> & Htok); [lia|].
    cbn [mbind option_bind].
    assert (c :: rest = sep ++ drop (length sep) (c :: rest)) as Er.
    { rewrite <- (take_drop (length sep) (c :: rest)) at 1. fold here. by rewrite E. }
    set (rest2 := drop (length sep) (c :: rest)) in *.
    assert (length (c :: rest) = length sep + length rest2)%nat as Hlr by (rewrite Er; apply length_app).
    clearbody rest2. rewrite Er in Es, Hd, Hn.
    destruct (IH (pre ++ cur ++ sep) [] rest2 (toks ++ [tok]) (ys ++ [cur]) slots2)
      as (t' & sl' & p' & l' & ys' & Hloop & Hrest).
    + by rewrite <- !app_assoc.
    + eapply done_tokens_snoc; done.
    + by apply Forall2_app; [|constructor].
    + intros a b _. cbn. lia.
    + rewrite length_app. cbn. lia.
    + cbn [length] in *. lia.
    + exists t', sl', p', l', ys'. split; [|done]. rewrite <- Hloop. rewrite app_nil_r.
      rewrite Hl. f_equal; rewrite !length_app; lia.
  - destruct (IH pre (cur ++ [c]) rest toks ys slots2) as (t' & sl' & p' & l' & ys' & Hloop & Hrest).
    + by rewrite <- !app_assoc.
    + by rewrite <- !app_assoc.
    + done.
    + rewrite <- app_assoc, length_app, Nat.add_1_r. by apply no_occ_extend.
    + lia.
    + cbn [length] in *. lia.
    + exists t', sl', p', l', ys'. split; [|done]. rewrite <- Hloop.
      rewrite Hl. f_equal. rewrite !length_app. cbn. lia.
Qed.

End Split.

Lemma sdssplitlen_rep s sep :
  sep <> [] -> s <> [] -> Z.of_nat (length s) < 2 ^ 31 ->
  exists toks ys, sdssplitlen s (Z.of_nat (length s)) sep (Z.of_nat (length sep))
    = Some (Some toks) /\ Forall2 sds_rep toks ys /\ tokens sep s ys.
Proof.
  intros Hsep Hs0 Hs. unfold sdssplitlen.
  assert (0 < length s /\ 0 < length sep)%nat as [Hsl Hpl].
  { destruct s, sep; try done. cbn. lia. }
  rewrite (proj2 (Z.ltb_ge _ 1)) by lia. rewrite (proj2 (Z.ltb_ge _ 0)) by lia. cbn [orb].
  rewrite (proj2 (Z.eqb_neq _ 0)) by lia. rewrite Nat2Z.id.
  destruct (split_loop_rep s sep (Z.of_nat (length sep)) ltac:(lia) Hs (length s) [] [] s [] [] 5)
    as (toks & slots & pre & last & ys & Hloop & E & Hd & Hf & Hn & Hsl2);
    [done|constructor|constructor|intros ?; cbn; lia|cbn; lia|done|].
  cbn [app length] in Hloop. change (Z.of_nat 0) with 0 in Hloop. rewrite Hloop.
  cbn [mbind option_bind].
  destruct (push_token_rep s sep Hs toks slots pre last []) as (tok & Hp & Htok); [by rewrite app_nil_r|lia|].
  rewrite <- E in Hp. rewrite Hp. cbn [mbind option_bind].
  exists (toks ++ [tok]), (ys ++ [last]). split_and!; [done|by apply Forall2_app; [|constructor]|].
  rewrite E. eapply done_tokens_all; [done|by constructor].
Qed.

(** ** The quoted representation and its parser *)

Definition repr (x : bytes) : bytes :=
  ch_dquote :: flat_map repr_char x ++ [ch_dquote].

Lemma repr_char_length c : (1 <= length (repr_char c) <= 4)%nat.
Proof. unfold repr_char. repeat case_match; cbn; lia. Qed.

Lemma repr_length x : (length (repr x) <= 4 * length x + 2)%nat.
Proof.
  unfold repr. cbn [length]. rewrite length_app. cbn [length].
  enough (length (flat_map repr_char x) <= 4 * length x)%nat by lia.
  induction x as [|c x IH]; cbn [flat_map length]; [lia|]. rewrite length_app.
  pose proof (repr_char_length c). lia.
Qed.

Lemma sdscatrepr_loop_rep p : forall s x,
  sds_rep s x -> Z.of_nat (length x + 4 * length p) < SDS_LIMIT ->
  exists s', sdscatrepr_loop s p = Some s' /\ sds_rep s' (x ++ flat_map repr_char p).
Proof.
  induction p as [|c p IH]; intros s x Hs Hlim; cbn [sdscatrepr_loop].
  { exists s. cbn. by rewrite app_nil_r. }
  pose proof (repr_char_length c). cbn [length] in Hlim.
  destruct (sdscat_rep junk s x (repr_char c) Hs) as (s1 & -> & Hs1); [lia|].
  cbn [mbind option_bind].
  destruct (IH s1 _ Hs1) as (s' & Hs' & Hr); [rewrite length_app; lia|].
  exists s'. split; [done|]. rewrite <- app_assoc in Hr. done.
Qed.

Lemma sdscatrepr_rep s x p :
  sds_rep s x -> Z.of_nat (length x + 4 * length p + 2) < SDS_LIMIT ->
  exists s', sdscatrepr s p = Some s' /\ sds_rep s' (x ++ repr p).
Proof.
  intros Hs Hlim. unfold sdscatrepr.
  destruct (sdscatlen_rep junk s x [ch_dquote] 1 Hs) as (s1 & -> & Hs1); [cbn; lia..|].
  cbn [mbind option_bind]. change (take (Z.to_nat 1) [ch_dquote]) with [ch_dquote] in Hs1.
  destruct (sdscatrepr_loop_rep p s1 _ Hs1) as (s2 & -> & Hs2).
  { rewrite length_app. cbn [length]. lia. }
  cbn [mbind option_bind].
  destruct (sdscatlen_rep junk s2 _ [ch_dquote] 1 Hs2) as (s3 & -> & Hs3); [cbn; lia| |].
  { pose proof (repr_length p) as Hp. unfold repr in Hp. cbn [length] in Hp.
    rewrite length_app in Hp. rewrite !length_app. cbn [length] in *. lia. }
  exists s3. split; [done|].
  change (take (Z.to_nat 1) [ch_dquote]) with [ch_dquote] in Hs3.
  rewrite <- !app_assoc in Hs3. done.
Qed.

(** The parser undoes the quoting of every byte. *)
Lemma step_inq_repr c rest :
  is_byte c ->
  step_inq (repr_char c ++ rest) = Some (TokChar c (length (repr_char c) - 1)).
Proof.
  intros Hc. assert (c ∈ seqZ 0 256) as Hin by (apply elem_of_seqZ; unfold is_byte in Hc; lia).
  clear Hc. revert c Hin. apply Forall_forall.
  repeat (apply Forall_cons; split; [reflexivity|]). apply Forall_nil_2.
Qed.

(** The end of a line, or a blank. *)
Definition at_break (p : bytes) : Prop :=
  match p with [] => True | c :: _ => isspace c = true end.

Lemma close_quote_break p : at_break p -> close_quote (ch_dquote :: p) = Some TokDone.
Proof.
  destruct p as [|c p]; [done|]. cbn. intros ->. by rewrite andb_false_r.
Qed.

Lemma get_token_repr x : forall n rest cur y,
  Forall is_byte x -> at_break rest -> sds_rep cur y ->
  Z.of_nat (length y + length x) < SDS_LIMIT -> (length x < n)%nat ->
  exists cur', get_token n Inq (flat_map repr_char x ++ ch_dquote :: rest) cur
    = Some (Some (rest, cur')) /\ sds_rep cur' (y ++ x).
Proof.
  induction x as [|c x IH]; intros n rest cur y Hx Hb Hc Hlim Hn; (destruct n as [|n]; [lia|]).
  - cbn [flat_map app get_token step_token].
    assert (step_inq (ch_dquote :: rest) = Some TokDone) as ->.
    { unfold step_inq, hex_escape. cbn. by apply close_quote_break. }
    exists cur. by rewrite app_nil_r.
  - apply Forall_cons in Hx as [Hcb Hx]. cbn [flat_map get_token step_token].
    rewrite <- app_assoc, step_inq_repr by done. cbn [mbind option_bind].
    cbn [length] in *.
    destruct (sdscatlen_rep junk cur y [c] 1 Hc) as (c1 & -> & Hc1); [cbn; lia..|].
    cbn [mbind option_bind]. change (take (Z.to_nat 1) [c]) with [c] in Hc1.
    pose proof (repr_char_length c).
    assert (forall z, next (drop (length (repr_char c) - 1) (repr_char c ++ z)) = z) as Hnext.
    { intros z. generalize dependent (repr_char c). clear. intros l Hl.
      rewrite drop_app_le by lia. destruct l as [|l a _] using rev_ind; [cbn in Hl; lia|].
      rewrite length_app. cbn [length]. by rewrite Nat.add_sub, drop_app_length. }
    rewrite Hnext.
    destruct (IH n rest c1 _ Hx Hb Hc1) as (c2 & Hg & Hr).
    { rewrite length_app. cbn [length]. lia. }
    { lia. }
    exists c2. split; [exact Hg|]. rewrite <- app_assoc in Hr. done.
Qed.

Lemma splitargs_loop_repr xs : forall n vector ys,
  Forall (Forall is_byte) xs -> Forall2 sds_rep vector ys ->
  Forall (fun x => Z.of_nat (length x) < SDS_LIMIT) xs -> (length xs < n)%nat ->
  exists v, splitargs_loop n (intercalate [ch_space] (repr <$> xs)) vector = Some (Some v) /\
    Forall2 sds_rep v (ys ++ xs).
Proof.
  induction xs as [|x xs IH]; intros n vector ys Hb Hv Hlim Hn; (destruct n as [|n]; [cbn in Hn; lia|]).
  { exists vector. rewrite app_nil_r. done. }
  apply Forall_cons in Hb as [Hb1 Hb], Hlim as [Hl1 Hlim].
  assert (exists rest, intercalate [ch_space] (repr <$> x :: xs) = repr x ++ rest /\
    at_break rest /\ skip_blanks rest = skip_blanks (intercalate [ch_space] (repr <$> xs)))
    as (rest & -> & Hbr & Hskip).
  { destruct xs as [|x2 xs]; [exists []; by rewrite app_nil_r|].
    exists (ch_space :: intercalate [ch_space] (repr <$> x2 :: xs)).
    rewrite fmap_cons, intercalate_cons by done. done. }
  unfold repr. rewrite <- (app_comm_cons _ rest), <- app_assoc. cbn [app].
  cbn [splitargs_loop skip_blanks].
  change (isspace ch_dquote) with false. cbn iota.
  destruct (sdsempty_rep junk) as (c0 & -> & Hc0). cbn [mbind option_bind].
  cbn [length]. rewrite Nat.add_1_r.
  remember (S (length (flat_map repr_char x ++ ch_dquote :: rest))) as m eqn:Hm.
  cbn [get_token step_token].
  change (step_unquoted (ch_dquote :: ?p)) with (Some (TokMode Inq)).
  cbn [mbind option_bind next].
  destruct (get_token_repr x m rest c0 []) as (c1 & -> & Hc1); [done..|cbn; lia| |].
  { rewrite Hm, length_app. cbn [length].
    enough (length x <= length (flat_map repr_char x))%nat by lia.
    clear. induction x as [|c x IH]; cbn [flat_map length]; [lia|]. rewrite length_app.
    pose proof (repr_char_length c). lia. }
  cbn [mbind option_bind].
  assert (splitargs_loop n rest (vector ++ [c1])
    = splitargs_loop n (intercalate [ch_space] (repr <$> xs)) (vector ++ [c1])) as ->.
  { destruct n; [done|]. cbn [splitargs_loop]. by rewrite Hskip. }
  destruct (IH n (vector ++ [c1]) (ys ++ [x])) as (v & Hs & Hr);
    [done|by apply Forall2_app; [|constructor]|done|cbn in Hn; lia|].
  exists v. split; [done|]. by rewrite <- app_assoc in Hr.
Qed.

Lemma length_intercalate_ge sep (ys : list bytes) :
  Forall (fun y => (0 < length y)%nat) ys -> (length ys <= length (intercalate sep ys))%nat.
Proof.
  induction 1 as [|y ys Hy Hys IH]; [done|]. destruct ys as [|z ys]; [cbn; lia|].
  rewrite intercalate_cons, !length_app by done. cbn [length] in *. lia.
Qed.

(** Every line is parsed, to tokens or to an error, without reading past its
    terminator. *)
Lemma at_Some p k : (k <= length p)%nat -> exists c, at_ p k = Some c.
Proof. intros. apply lookup_lt_is_Some. rewrite length_app. cbn. lia. Qed.

Lemma at_nonzero p k c : at_ p k = Some c -> c <> 0 -> (k < length p)%nat.
Proof.
  unfold at_. intros H Hc. destruct (decide (k < length p)%nat); [done|].
  rewrite lookup_app_r in H by lia. apply list_lookup_singleton_Some in H as [_ <-]. done.
Qed.

Lemma is_hex_nonzero c : is_hex_digit c = true -> c <> 0.
Proof. by intros H ->. Qed.

Ltac read_at p k c H :=
  let E := fresh "E" in
  destruct (at_Some p k) as (c & E); [lia|]; rewrite E; cbn [mbind option_bind];
  pose proof (at_nonzero p k c E) as H.

Definition step_ok (p : bytes) (st : tok_step) : Prop :=
  match st with
  | TokErr | TokDone => True
  | TokMode _ => p <> []
  | TokChar _ skip => (skip < length p)%nat
  end.

Lemma hex_escape_total p :
  exists b, hex_escape p = Some b /\ (b = true -> (3 < length p)%nat).
Proof.
  unfold hex_escape. read_at p 0%nat c H0. destruct (Z.eqb_spec c ch_bslash) as [->|]; [|by eexists].
  specialize (H0 ltac:(done)). cbn [negb]. read_at p 1%nat c1 H1.
  destruct (Z.eqb_spec c1 (chr "x")) as [->|]; [|by eexists].
  specialize (H1 ltac:(done)). cbn [negb]. read_at p 2%nat c2 H2.
  destruct (is_hex_digit c2) eqn:Hx2; [|by eexists]. apply is_hex_nonzero in Hx2. specialize (H2 Hx2).
  cbn [negb]. read_at p 3%nat c3 H3. eexists. split; [done|]. intros Hx3%is_hex_nonzero. auto.
Qed.

Lemma close_quote_total p : (0 < length p)%nat -> exists st, close_quote p = Some st /\ step_ok p st.
Proof.
  intros. unfold close_quote. read_at p 1%nat c H1. eexists. split; [done|]. by case_match.
Qed.

Lemma step_token_total q p : exists st, step_token q p = Some st /\ step_ok p st.
Proof.
  destruct q; cbn [step_token].
  - unfold step_unquoted. read_at p 0%nat c H0.
    destruct ((c =? ch_space) || (c =? ch_lf) || (c =? ch_cr) || (c =? ch_tab) || (c =? 0)) eqn:E0;
      [by eexists|]. apply orb_false_iff in E0 as [_ E0%Z.eqb_neq]. specialize (H0 E0).
    assert (p <> []) by (intros ->; cbn in H0; lia).
    repeat case_match; eexists; (split; [done|]); cbn [step_ok]; auto.
  - unfold step_inq. destruct (hex_escape_total p) as (b & -> & Hb). cbn [mbind option_bind].
    read_at p 0%nat c H0. destruct b.
    { specialize (Hb eq_refl). read_at p 2%nat c2 H2. read_at p 3%nat c3 H3.
      eexists. split; [done|]. done. }
    clear Hb. destruct (Z.eqb_spec c ch_bslash) as [->|].
    { specialize (H0 ltac:(done)). read_at p 1%nat c1 H1.
      destruct (Z.eqb_spec c1 0) as [->|Hc1]; cbn [negb].
      - cbn. eexists. split; [done|]. done.
      - eexists. split; [done|]. cbn. auto. }
    cbn [mbind option_bind]. destruct (Z.eqb_spec c ch_dquote) as [->|].
    { apply close_quote_total. auto. }
    destruct (Z.eqb_spec c 0); eexists; (split; [done|]); cbn; auto.
  - unfold step_insq. read_at p 0%nat c H0. destruct (Z.eqb_spec c ch_bslash) as [->|].
    { specialize (H0 ltac:(done)). read_at p 1%nat c1 H1.
      destruct (Z.eqb_spec c1 ch_squote) as [->|Hc1].
      - eexists. split; [done|]. cbn. auto.
      - cbn. eexists. split; [done|]. done. }
    cbn [mbind option_bind]. destruct (Z.eqb_spec c ch_squote) as [->|].
    { apply close_quote_total. auto. }
    destruct (Z.eqb_spec c 0); eexists; (split; [done|]); cbn; auto.
Qed.

Lemma length_next p : length (next p) = (length p - 1)%nat.
Proof. destruct p; cbn; lia. Qed.

Lemma get_token_total n : forall q p cur x,
  sds_rep cur x -> Z.of_nat (length x + length p) < SDS_LIMIT -> (length p < n)%nat ->
  exists r, get_token n q p cur = Some r /\
    match r with
    | None => True
    | Some (p', cur') => (length p' <= length p - 1)%nat /\ exists y, sds_rep cur' y
    end.
Proof.
  induction n as [|n IH]; intros q p cur x Hc Hlim Hn; [lia|]. cbn [get_token].
  destruct (step_token_total q p) as (st & -> & Hst). cbn [mbind option_bind].
  destruct st as [| |q'|c skip]; cbn [step_ok] in Hst.
  - by exists None.
  - eexists. split; [done|]. cbn. split; [by rewrite length_next|by exists x].
  - assert (0 < length p)%nat by (destruct p; [done|cbn; lia]).
    destruct (IH q' (next p) cur x Hc) as (r & -> & Hr); [rewrite length_next; lia..|].
    exists r. split; [done|]. destruct r as [[p' cur']|]; [|done].
    rewrite length_next in Hr. destruct Hr. split; [lia|done].
  - destruct (sdscatlen_rep junk cur x [c] 1 Hc) as (c1 & -> & Hc1); [cbn; lia..|].
    cbn [mbind option_bind]. change (take (Z.to_nat 1) [c]) with [c] in Hc1.
    destruct (IH q (next (drop skip p)) c1 _ Hc1) as (r & -> & Hr).
    { rewrite length_app, length_next, length_drop. cbn [length]. lia. }
    { rewrite length_next, length_drop. lia. }
    exists r. split; [done|]. destruct r as [[p' cur']|]; [|done].
    rewrite length_next, length_drop in Hr. destruct Hr. split; [lia|done].
Qed.

Lemma length_skip_blanks p : (length (skip_blanks p) <= length p)%nat.
Proof. induction p as [|c p IH]; cbn; [done|]. case_match; cbn; lia. Qed.

Lemma splitargs_loop_total n : forall p vector ys,
  Forall2 sds_rep vector ys -> Z.of_nat (length p) < SDS_LIMIT -> (length p < n)%nat ->
  exists r, splitargs_loop n p vector = Some r /\
    match r with None => True | Some v => exists zs, Forall2 sds_rep v zs end.
Proof.
  induction n as [|n IH]; intros p vector ys Hv Hlim Hn; [lia|]. cbn [splitargs_loop].
  pose proof (length_skip_blanks p). destruct (skip_blanks p) as [|c q].
  { eexists. split; [done|]. by exists ys. }
  destruct (sdsempty_rep junk) as (c0 & -> & Hc0). cbn [mbind option_bind].
  destruct (get_token_total (length (c :: q) + 1) Unquoted (c :: q) c0 [] Hc0) as (r & -> & Hr);
    [cbn in *; lia..|]. cbn [mbind option_bind].
  destruct r as [[p' cur']|]; [|by exists None]. destruct Hr as (Hp & y & Hy).
  apply (IH p' _ (ys ++ [y])); [by apply Forall2_app; [|constructor]|cbn in *; lia..].
Qed.

(** ** The formatter *)

(** The text a format and its arguments stand for. *)
Definition conv_text (next : Z) (args : list fmt_arg) : option (bytes * list fmt_arg) :=
  if next =? chr "s" then
    match args with FStr s :: args => Some (s, args) | _ => None end
  else if next =? chr "S" then
    match args with FSds s :: args => Some (sds_str s, args) | _ => None end
  else if (next =? chr "i") || (next =? chr "I") then
    match args with FNum v :: args => Some (decimal v, args) | _ => None end
  else if (next =? chr "u") || (next =? chr "U") then
    match args with FUnum v :: args => Some (udecimal v, args) | _ => None end
  else Some ([next], args).

Fixpoint fmt_text (f : bytes) (args : list fmt_arg) : option bytes :=
  match f with
  | [] => Some []
  | c :: f =>
    if c =? chr "%" then
      match f with
      | [] => None
      | next :: f =>
        '(t, args) ← conv_text next args; t' ← fmt_text f args; Some (t ++ t')
      end
    else t' ← fmt_text f args; Some (c :: t')
  end.

Definition arg_ok (a : fmt_arg) : Prop :=
  match a with
  | FStr _ => True
  | FSds s => exists y, sds_rep s y
  | FNum v => is_llong v
  | FUnum v => is_u64 v
  end.

Lemma sds_put z s x y :
  sds_repz z s x -> 0 < sdsavail s -> Z.of_nat (length y) <= sdsavail s ->
  exists s1, sds_write s (sdslen s) y = Some s1 /\
  exists b, sds_repz b (sdsinclen s1 (Z.of_nat (length y))) (x ++ y).
Proof.
  intros Hs H0 Ha. pose proof (sds_rep_hdr s x Hs) as Hh. pose proof (sds_rep_len s x Hs) as Hl.
  destruct (sds_room_tail s x _ Hs Ha) as (mid & tl & Hb & Hm). rewrite Hl.
  assert (exists a b, z :: mid = a ++ [b] /\ length a = length y) as (a & b & Hab & Hla).
  { destruct (exists_last (l := z :: mid)) as (a & b & Hab); [done|]. exists a, b.
    split; [done|]. apply (f_equal length) in Hab. rewrite length_app in Hab. cbn in Hab. lia. }
  rewrite Hab, <- !app_assoc in Hb.
  erewrite sds_write_mid by (done || lia). eexists. split; [done|]. exists b.
  rewrite sdsavail_spec in H0, Ha by done.
  set (s1 := set_buf s _). assert (sds_type s <> 0) as Ht by (intros E; rewrite E in *; cbn in *; lia).
  rewrite (proj2 (Z.eqb_neq _ _) Ht) in *.
  rewrite sdsinclen_setlen by done. change (sdslen s1) with (sdslen s). rewrite Hl.
  destruct (sdssetlen_spec s1 (Z.of_nat (length x) + Z.of_nat (length y)))
    as (Hh2 & Ht2 & Hl2 & Hb2 & Ha2); [done| |].
  { change (sds_type s1) with (sds_type s). change (sdsalloc s1) with (sdsalloc s).
    rewrite (proj2 (Z.eqb_neq _ _) Ht). lia. }
  apply (sds_rep_intro _ (x ++ y) tl).
  - done.
  - rewrite Hb2. unfold s1. cbn [buf set_buf]. by rewrite <- app_assoc.
  - rewrite length_app. lia.
  - rewrite Ha2. change (sds_type s1) with (sds_type s). change (sdsalloc s1) with (sdsalloc s).
    rewrite (proj2 (Z.eqb_neq _ _) Ht). destruct Hs as (_ & tl0 & Hb0 & _ & Hal0).
    apply (f_equal length) in Hb0. rewrite Hb in Hb0. rewrite !length_app in *.
    cbn [length] in Hb0. lia.
Qed.

Lemma fmt_room_spec z s x l :
  sds_repz z s x -> 0 <= l -> Z.of_nat (length x) + l < SDS_LIMIT ->
  exists s', fmt_room s l = Some s' /\ sds_repz z s' x /\ l <= sdsavail s' /\
    (0 < sdsavail s -> 0 < sdsavail s').
Proof.
  intros Hs Hl Hlim. unfold fmt_room. destruct (Z.ltb_spec (sdsavail s) l); [|by exists s].
  destruct (sdsMakeRoomFor_room junk s x l Hs) as (s' & -> & Hr & Ha & _); [done..|].
  exists s'. split_and!; [done..|lia].
Qed.

Lemma fmt_put_spec z s x y :
  sds_repz z s x -> 0 < sdsavail s -> Z.of_nat (length x) + Z.of_nat (length y) < 2 ^ 31 ->
  exists s', fmt_put s (Z.of_nat (length x)) y = Some (s', Z.of_nat (length (x ++ y))) /\
    exists b, sds_repz b s' (x ++ y).
Proof.
  intros Hs H0 Hlim. unfold fmt_put.
  destruct (fmt_room_spec z s x (Z.of_nat (length y)) Hs) as (s1 & -> & Hs1 & Ha & H1);
    [lia|unfold SDS_LIMIT; lia|]. cbn [mbind option_bind].
  destruct (sds_put z s1 x y Hs1) as (s2 & Hw & b & Hr); [auto|done|].
  rewrite (sds_rep_len s1 x) in Hw by done. rewrite Hw. cbn [mbind option_bind].
  rewrite wraps_small by ints. rewrite length_app, Nat2Z.inj_add.
  eexists. split; [done|]. by exists b.
Qed.

Lemma fmt_putc_spec z s x c :
  sds_repz z s x -> 0 < sdsavail s -> Z.of_nat (length x) + 1 < 2 ^ 31 ->
  exists s', fmt_putc s (Z.of_nat (length x)) c = Some (s', Z.of_nat (length (x ++ [c]))) /\
    exists b, sds_repz b s' (x ++ [c]).
Proof.
  intros Hs H0 Hlim. unfold fmt_putc.
  destruct (sds_put z s x [c] Hs) as (s2 & Hw & b & Hr); [done|cbn; lia|].
  rewrite (sds_rep_len s x) in Hw by done. rewrite Hw. cbn [mbind option_bind].
  rewrite wraps_small by ints. rewrite length_app, Nat2Z.inj_add.
  eexists. split; [done|]. by exists b.
Qed.

(** A conversion yields its text; [None] stands for the text [[next]]. *)
Lemma fmt_conv_spec next args t args' :
  Forall arg_ok args -> conv_text next args = Some (t, args') ->
  exists r, fmt_conv next args = Some (r, args') /\ default [next] r = t /\ Forall arg_ok args'.
Proof.
  intros Hok. unfold conv_text, fmt_conv.
  destruct (next =? chr "s").
  { destruct args as [|[] args]; try done. intros [= <- <-]. apply Forall_cons in Hok as [_ Hok].
    by eexists. }
  destruct (next =? chr "S").
  { destruct args as [|[] args]; try done. intros [= <- <-]. apply Forall_cons in Hok as [[y Hy] Hok].
    rewrite (sds_rep_read s y Hy). cbn [mbind option_bind]. eexists. split; [done|].
    split; [|done]. cbn. symmetry. by apply (sds_rep_str (z := 0) s y). }
  destruct ((next =? chr "i") || (next =? chr "I")).
  { destruct args as [|[] args]; try done. intros [= <- <-]. apply Forall_cons in Hok as [Hv Hok].
    destruct (sdsll2str_spec (resize junk [] SDS_LLSTR_SIZE) v Hv) as (rest & ->);
      [apply length_resize|]. cbn [mbind option_bind]. rewrite Nat2Z.id, rdn_app0 by done.
    by eexists. }
  destruct ((next =? chr "u") || (next =? chr "U")).
  { destruct args as [|[] args]; try done. intros [= <- <-]. apply Forall_cons in Hok as [Hv Hok].
    destruct (sdsull2str_spec (resize junk [] SDS_LLSTR_SIZE) v Hv) as (rest & ->);
      [apply length_resize|]. cbn [mbind option_bind]. rewrite Nat2Z.id, rdn_app0 by done.
    by eexists. }
  intros [= <- <-]. by eexists.
Qed.

Lemma fmt_loop_spec k : forall f z s x args t,
  (length f <= k)%nat -> sds_repz z s x -> Forall arg_ok args -> fmt_text f args = Some t ->
  Z.of_nat (length x + length t) < 2 ^ 31 ->
  exists s', fmt_loop s f (Z.of_nat (length x)) args = Some (s', Z.of_nat (length (x ++ t))) /\
    exists b, sds_repz b s' (x ++ t).
Proof.
  induction k as [|k IH]; intros f z s x args t Hk Hs Hok Ht Hlim; (destruct f as [|c f]; [|cbn in Hk; try lia]).
  1,2: injection Ht as <-; rewrite app_nil_r; exists s; split; [done|by exists z].
  cbn [fmt_loop].
  assert (exists s1, (if sdsavail s =? 0 then sdsMakeRoomFor s 1 else Some s) = Some s1 /\
    sds_repz z s1 x /\ 0 < sdsavail s1) as (s1 & -> & Hs1 & Ha1).
  { pose proof (sdsavail_spec s (sds_rep_hdr s x Hs)). pose proof (sds_len_alloc s (sds_rep_hdr s x Hs)).
    destruct (Z.eqb_spec (sdsavail s) 0).
    - destruct (sdsMakeRoomFor_room junk s x 1 Hs) as (s1 & -> & Hr & Ha & _);
        [lia|unfold SDS_LIMIT; lia|]. exists s1. split_and!; [done..|lia].
    - exists s. split_and!; [done..|]. destruct (sds_type s =? 0); lia. }
  cbn [mbind option_bind fmt_text] in *. destruct (c =? chr "%").
  - destruct f as [|next f]; [done|].
    destruct (conv_text next args) as [[t1 args']|] eqn:Ec; cbn [mbind option_bind] in Ht; [|done].
    destruct (fmt_text f args') as [t2|] eqn:E2; cbn [mbind option_bind] in Ht; [|done].
    injection Ht as <-. rewrite length_app in Hlim.
    destruct (fmt_conv_spec next args t1 args' Hok Ec) as (r & -> & Hr & Hok').
    cbn [mbind option_bind].
    assert (exists s2 b, (match r with Some bs => fmt_put s1 (Z.of_nat (length x)) bs
       | None => fmt_putc s1 (Z.of_nat (length x)) next end) = Some (s2, Z.of_nat (length (x ++ t1))) /\
       sds_repz b s2 (x ++ t1)) as (s2 & b & -> & Hs2).
    { destruct r as [bs|]; cbn [default] in Hr; subst t1.
      - destruct (fmt_put_spec z s1 x bs Hs1 Ha1) as (s2 & Hp & b & Hb); [cbn in *; lia|]. by exists s2, b.
      - destruct (fmt_putc_spec z s1 x next Hs1 Ha1) as (s2 & Hp & b & Hb); [cbn in *; lia|]. by exists s2, b. }
    cbn [mbind option_bind].
    destruct (IH f b s2 (x ++ t1) args' t2) as (s' & Hl & Hr'); [cbn in Hk; lia|done..| |].
    { rewrite length_app. lia. }
    rewrite <- app_assoc in *. by exists s'.
  - destruct (fmt_text f args) as [t2|] eqn:E2; cbn [mbind option_bind] in Ht; [|done].
    injection Ht as <-. cbn [length] in Hlim.
    destruct (fmt_putc_spec z s1 x c Hs1 Ha1) as (s2 & -> & b & Hs2); [lia|].
    cbn [mbind option_bind].
    destruct (IH f b s2 (x ++ [c]) args t2) as (s' & Hl & Hr'); [lia|done..| |].
    { rewrite length_app. cbn [length]. lia. }
    rewrite <- app_assoc in *. by exists s'.
Qed.

Lemma sdscatfmt_rep s x f args t :
  sds_rep s x -> Forall arg_ok args -> fmt_text f args = Some t ->
  Z.of_nat (length x + length t) < 2 ^ 31 ->
  exists s', sdscatfmt s f args = Some s' /\ sds_rep s' (x ++ t).
Proof.
  intros Hs Hok Ht Hlim. unfold sdscatfmt. rewrite (sds_rep_len s x), wraps_small by (done || ints).
  destruct (fmt_loop_spec (length f) f 0 s x args t) as (s1 & -> & b & Hs1); [done..|].
  cbn [mbind option_bind]. destruct Hs1 as (Hh & tl & Hb & Hl & Ha).
  erewrite (sds_write_mid s1 _ (x ++ t) [b] tl) by done.
  eexists. split; [done|]. by apply (sds_rep_intro _ _ tl).
Qed.

End Ops.

(** ** Properties *)

(** A string of type 8 without free space, for the examples. *)
Definition lit (x : bytes) : sds :=
  Sds SDS_TYPE_8 (Z.of_nat (length x)) (Z.of_nat (length x)) (x ++ [0]).

Lemma lit_rep x : Z.of_nat (length x) < 256 -> sds_rep (lit x) x.
Proof.
  intros. split.
  - split_and!; [done|done|done|]. intros _. cbn [hlen halloc lit].
    change (2 ^ sds_width (sds_type (lit x))) with 256. lia.
  - exists []. split_and!; [done|done|]. cbn [length]. rewrite Nat.add_0_r. done.
Qed.

(** [sdsrange] on any two [int] indexes, negative ones counting from the
    end and both ends possibly out of range: the string becomes exactly the
    bytes from [start] to [end] inclusive, without an access outside of it. *)
Theorem sdsrange_slices s x start en :
  sds_rep s x -> Z.of_nat (length x) < 2 ^ 31 -> is_int start -> is_int en ->
  exists s', sdsrange s start en = Some s' /\ sds_rep s' (byte_range x start en).
Proof. apply sdsrange_rep. Qed.

Lemma sdsrange_slices_witness :
  byte_range (str "Hello World") 1 (-1) = str "ello World" /\
  exists s', sdsrange (lit (str "Hello World")) 1 (-1) = Some s' /\
    sds_rep s' (byte_range (str "Hello World") 1 (-1)).
Proof.
  split; [reflexivity|].
  apply sdsrange_slices; [apply lit_rep; by vm_compute|by vm_compute|by vm_compute|by vm_compute].
Defined.

(** [sdstrim] removes exactly the longest prefix and the longest suffix
    made of characters of the set (a NUL byte counts as one of them, since
    [strchr] finds the terminator of the set). *)
Theorem sdstrim_trims s x cset :
  sds_rep s x -> exists s', sdstrim s cset = Some s' /\ sds_rep s' (trim (strchr cset) x).
Proof. apply sdstrim_rep. Qed.

Lemma sdstrim_trims_witness :
  trim (strchr (str "Aa. :")) (str "AA...AA.a.aa.aHelloWorld     :::") = str "HelloWorld" /\
  exists s', sdstrim (lit (str "AA...AA.a.aa.aHelloWorld     :::")) (str "Aa. :") = Some s' /\
    sds_rep s' (trim (strchr (str "Aa. :")) (str "AA...AA.a.aa.aHelloWorld     :::")).
Proof.
  split; [reflexivity|].
  apply (sdstrim_trims (lit (str "AA...AA.a.aa.aHelloWorld     :::"))).
  apply lit_rep. by vm_compute.
Defined.

(** Splitting and joining are inverse: [sdssplitlen] on a non-empty
    string and separator returns the only way to cut the string at the first
    occurrence of the separator, again and again (so no token contains it),
    the token array never overflows, and [sdsjoinsds] with the same separator
    gives the string back. *)
Theorem sdssplitlen_sdsjoinsds junk s sep :
  sep <> [] -> s <> [] -> Z.of_nat (length s) < 2 ^ 31 ->
  exists toks ys,
    sdssplitlen junk s (Z.of_nat (length s)) sep (Z.of_nat (length sep)) = Some (Some toks) /\
    Forall2 sds_rep toks ys /\ tokens sep s ys /\ (forall zs, tokens sep s zs -> zs = ys) /\
    exists s', sdsjoinsds junk toks sep (Z.of_nat (length sep)) = Some s' /\ sds_rep s' s.
Proof.
  intros Hsep Hs0 Hs. destruct (sdssplitlen_rep junk s sep Hsep Hs0 Hs) as (toks & ys & E & Hf & Ht).
  exists toks, ys. split_and!; [done..| |].
  { intros zs Hz. by rewrite (tokens_unique sep s ys Hsep Ht zs Hz). }
  pose proof (tokens_intercalate sep s ys Ht) as Hi.
  destruct (sdsjoinsds_rep junk toks ys sep (Z.of_nat (length sep)) Hf) as (s' & Ej & Hr).
  { lia. }
  { rewrite Nat2Z.id, take_ge, Hi by lia. unfold SDS_LIMIT. lia. }
  rewrite Nat2Z.id, take_ge, Hi in Hr by lia. by exists s'.
Qed.

Lemma sdssplitlen_sdsjoinsds_witness :
  exists toks ys,
    sdssplitlen (fun _ => 0) (str "foo_-_bar") 9 (str "_-_") 3 = Some (Some toks) /\
    Forall2 sds_rep toks ys /\ tokens (str "_-_") (str "foo_-_bar") ys /\
    (forall zs, tokens (str "_-_") (str "foo_-_bar") zs -> zs = ys) /\
    exists s', sdsjoinsds (fun _ => 0) toks (str "_-_") 3 = Some s' /\ sds_rep s' (str "foo_-_bar").
Proof.
  apply (sdssplitlen_sdsjoinsds (fun _ => 0) (str "foo_-_bar") (str "_-_")); done.
Defined.

(** C25. Quoting and parsing are inverse: arguments of arbitrary bytes,
    written by [sdscatrepr] one after the other with a space in between, are
    what [sdssplitargs] returns for that line. *)
Theorem sdssplitargs_sdscatrepr junk xs :
  Forall (Forall is_byte) xs ->
  Forall (fun x => Z.of_nat (4 * length x + 2) < SDS_LIMIT) xs ->
  exists ss vector zs,
    Forall2 (fun x s => exists s0, sdsempty junk = Some s0 /\ sdscatrepr junk s0 x = Some s) xs ss /\
    Forall2 sds_rep ss zs /\
    sdssplitargs junk (intercalate [ch_space] zs) = Some (Some vector) /\
    Forall2 sds_rep vector xs.
Proof.
  intros Hb Hlim.
  assert (exists ss, Forall2 (fun x s => exists s0, sdsempty junk = Some s0 /\
      sdscatrepr junk s0 x = Some s) xs ss /\ Forall2 sds_rep ss (repr <$> xs)) as (ss & Hss & Hz).
  { clear Hb. induction Hlim as [|x xs Hx _ (ss & IH1 & IH2)]; [by exists []|].
    destruct (sdsempty_rep junk) as (s0 & E0 & H0).
    destruct (sdscatrepr_rep junk s0 [] x H0) as (s & E & Hr); [cbn [length]; lia|].
    exists (s :: ss). split; constructor; [by exists s0|done..]. }
  destruct (splitargs_loop_repr junk xs (length (intercalate [ch_space] (repr <$> xs)) + 1) [] [])
    as (v & Hv & Hr); [done|constructor| |..].
  { eapply Forall_impl; [exact Hlim|]. cbn beta. intros. lia. }
  { assert (length (repr <$> xs) = length xs) as Hl by apply length_fmap.
    pose proof (length_intercalate_ge [ch_space] (repr <$> xs)) as Hi. rewrite Hl in Hi.
    specialize (Hi ltac:(apply Forall_fmap, Forall_forall; intros; cbn; lia)). lia. }
  by exists ss, v, (repr <$> xs).
Qed.

Lemma sdssplitargs_sdscatrepr_witness :
  exists ss vector zs,
    Forall2 (fun x s => exists s0, sdsempty (fun _ => 0) = Some s0 /\
      sdscatrepr (fun _ => 0) s0 x = Some s) [[0; 34; 92; 255]; []; str "x y"] ss /\
    Forall2 sds_rep ss zs /\
    sdssplitargs (fun _ => 0) (intercalate [ch_space] zs) = Some (Some vector) /\
    Forall2 sds_rep vector [[0; 34; 92; 255]; []; str "x y"].
Proof.
  apply (sdssplitargs_sdscatrepr (fun _ => 0)).
  - repeat constructor; by vm_compute.
  - repeat constructor; by vm_compute.
Defined.

(** On any line [sdssplitargs] terminates without reading past the
    terminator: it returns well-formed strings, or the null pointer. *)
Theorem sdssplitargs_total junk line :
  Z.of_nat (length line) < SDS_LIMIT ->
  exists r, sdssplitargs junk line = Some r /\
    match r with None => True | Some v => exists ys, Forall2 sds_rep v ys end.
Proof. intros H. apply (splitargs_loop_total junk _ line [] []); [constructor|done|lia]. Qed.

Lemma sdssplitargs_total_witness :
  sdssplitargs (fun _ => 0) (str "set 'unbalanced") = Some None /\
  exists r, sdssplitargs (fun _ => 0) (str "set 'unbalanced") = Some r /\
    match r with None => True | Some v => exists ys, Forall2 sds_rep v ys end.
Proof.
  split; [by vm_compute|]. apply (sdssplitargs_total (fun _ => 0)). by vm_compute.
Defined.

(** [sdscatfmt] appends exactly the text its format and arguments stand
    for, growing the string as needed, for every format that does not end in
    a lone percent sign. *)
Theorem sdscatfmt_formats junk s x f args t :
  sds_rep s x -> Forall arg_ok args -> fmt_text f args = Some t ->
  Z.of_nat (length x + length t) < 2 ^ 31 ->
  exists s', sdscatfmt junk s f args = Some s' /\ sds_rep s' (x ++ t).
Proof. apply sdscatfmt_rep. Qed.

Lemma sdscatfmt_formats_witness :
  fmt_text (str "%I,%u%% %s") [FNum LLONG_MIN; FUnum 7; FStr (str "ok")]
    = Some (str "-9223372036854775808,7% ok") /\
  exists s', sdscatfmt (fun _ => 0) (lit (str "--")) (str "%I,%u%% %s")
      [FNum LLONG_MIN; FUnum 7; FStr (str "ok")] = Some s' /\
    sds_rep s' (str "--" ++ str "-9223372036854775808,7% ok").
Proof.
  split; [by vm_compute|].
  apply (sdscatfmt_formats (fun _ => 0)); [apply lit_rep; by vm_compute| |by vm_compute..].
  repeat constructor; by vm_compute.
Defined.

End SdsText.
