(* ===== verification/Intset.v ===== *)
(** * Integer sets (src/intset.c)

    The blob as the code lays it out: a header and the elements, sorted, each
    in the width the set currently uses, as bytes of checked memory.
    [intset_rep] relates a blob to the finite set it stands for. *)

From S2P Require Import Prelude.

Module Intset.

(** The platform is little endian, so that the conversions of endianconv.h
    are the identity. *)
Record intset := Intset { encoding : Z; ilength : Z; contents : bytes }.

Definition INTSET_ENC_INT16 : Z := 2.
Definition INTSET_ENC_INT32 : Z := 4.
Definition INTSET_ENC_INT64 : Z := 8.

Definition _intsetValueEncoding (v : Z) : Z :=
  if (v <? - 2 ^ 31) || (v >? 2 ^ 31 - 1) then INTSET_ENC_INT64
  else if (v <? - 2 ^ 15) || (v >? 2 ^ 15 - 1) then INTSET_ENC_INT32
  else INTSET_ENC_INT16.

(** The width in bytes that the branches on the encoding select. *)
Definition enc_width (enc : Z) : nat :=
  if enc =? INTSET_ENC_INT64 then 8%nat
  else if enc =? INTSET_ENC_INT32 then 4%nat
  else 2%nat.

(** [contents + pos] with pointer arithmetic in units of [w] bytes. *)
Definition elem_off (pos : Z) (w : nat) : option nat :=
  if decide (0 <= pos) then Some (Z.to_nat pos * w)%nat else None.

Definition _intsetGetEncoded (s : intset) (pos : Z) (enc : Z) : option Z :=
  let w := enc_width enc in
  o ← elem_off pos w;
  bs ← rdn (contents s) o w;
  Some (wraps (8 * Z.of_nat w) (le_dec bs)).

Definition _intsetGet (s : intset) (pos : Z) : option Z :=
  _intsetGetEncoded s pos (u8 (encoding s)).

Definition _intsetSet (s : intset) (pos value : Z) : option intset :=
  let w := enc_width (encoding s) in
  o ← elem_off pos w;
  c ← wrn (contents s) o (le_enc w value);
  Some (Intset (encoding s) (ilength s) c).

Definition intsetNew : intset := Intset INTSET_ENC_INT16 0 [].

(** The loop of [intsetSearch], with the last [cur] and [mid]. *)
Fixpoint search_loop (n : nat) (s : intset) (value min max mid cur : Z)
  : option (Z * Z * Z) :=
  if max >=? min then
    match n with
    | O => None
    | S n =>
      let mid := s32 (Z.shiftr (u32 (u32 min + u32 max)) 1) in
      cur ← _intsetGet s mid;
      if value >? cur then search_loop n s value (mid + 1) max mid cur
      else if value <? cur then search_loop n s value min (mid - 1) mid cur
      else Some (min, mid, cur)
    end
  else Some (min, mid, cur).

(** The result and the position. *)
Definition intsetSearch (s : intset) (value : Z) : option (bool * Z) :=
  if ilength s =? 0 then Some (false, 0)
  else
    last ← _intsetGet s (s32 (u32 (ilength s - 1)));
    if value >? last then Some (false, ilength s)
    else
      first ← _intsetGet s 0;
      if value <? first then Some (false, 0)
      else
        '(min, mid, cur) ← search_loop (Z.to_nat (ilength s)) s value 0
          (s32 (u32 (ilength s - 1))) (-1) (-1);
        Some (if value =? cur then (true, mid) else (false, min)).

Section Ops.

(** What [zrealloc] leaves in new bytes. *)
Context (junk : nat -> Z).

Definition intsetResize (s : intset) (len : Z) : intset :=
  Intset (encoding s) (ilength s)
    (resize junk (contents s) (Z.to_nat (u32 (len * encoding s)))).

(** The loop that widens the elements, from the last one to the first. *)
Fixpoint upgrade_loop (n : nat) (s : intset) (prepend curenc : Z) : option intset :=
  match n with
  | O => Some s
  | S n =>
    v ← _intsetGetEncoded s (Z.of_nat n) curenc;
    s ← _intsetSet s (Z.of_nat n + prepend) v;
    upgrade_loop n s prepend curenc
  end.

Definition intsetUpgradeAndAdd (s : intset) (value : Z) : option intset :=
  let curenc := u8 (encoding s) in
  let newenc := _intsetValueEncoding value in
  let prepend := if value <? 0 then 1 else 0 in
  let s' := Intset newenc (ilength s) (contents s) in
  let s' := intsetResize s' (u32 (ilength s' + 1)) in
  s' ← upgrade_loop (Z.to_nat (ilength s)) s' prepend curenc;
  s' ← (if prepend =? 1 then _intsetSet s' 0 value else _intsetSet s' (s32 (ilength s')) value);
  Some (Intset (encoding s') (u32 (ilength s' + 1)) (contents s')).

Definition intsetMoveTail (s : intset) (from to : Z) : option intset :=
  let n := u32 (ilength s - from) in
  let w := enc_width (encoding s) in
  src ← elem_off from w;
  dst ← elem_off to w;
  c ← memmove (contents s) dst src (Z.to_nat (u32 (n * Z.of_nat w)));
  Some (Intset (encoding s) (ilength s) c).

Definition intsetAdd (s : intset) (value : Z) : option (intset * bool) :=
  let valenc := _intsetValueEncoding value in
  if valenc >? encoding s then
    s ← intsetUpgradeAndAdd s value; Some (s, true)
  else
    '(found, pos) ← intsetSearch s value;
    if (found : bool) then Some (s, false)
    else
      let s := intsetResize s (u32 (ilength s + 1)) in
      s ← (if pos <? ilength s then intsetMoveTail s pos (pos + 1) else Some s);
      s ← _intsetSet s (s32 pos) value;
      Some (Intset (encoding s) (u32 (ilength s + 1)) (contents s), true).

Definition intsetRemove (s : intset) (value : Z) : option (intset * bool) :=
  let valenc := _intsetValueEncoding value in
  if valenc <=? encoding s then
    '(found, pos) ← intsetSearch s value;
    if (found : bool) then
      let len := ilength s in
      s ← (if pos <? len - 1 then intsetMoveTail s (pos + 1) pos else Some s);
      let s := intsetResize s (len - 1) in
      Some (Intset (encoding s) (len - 1) (contents s), true)
    else Some (s, false)
  else Some (s, false).

End Ops.

Definition intsetFind (s : intset) (value : Z) : option bool :=
  let valenc := _intsetValueEncoding value in
  if valenc <=? encoding s then
    '(found, _) ← intsetSearch s value; Some found
  else Some false.

(** [rand] is a parameter: the C library's generator. *)
Definition intsetRandom (rand : Z) (s : intset) : option Z :=
  if ilength s =? 0 then None else _intsetGet s (s32 (u32 rand mod ilength s)).

Definition intsetGet (s : intset) (pos : Z) : option (option Z) :=
  if pos <? ilength s then v ← _intsetGet s (s32 pos); Some (Some v) else Some None.

Definition intsetLen (s : intset) : Z := ilength s.

Definition intsetBlobLen (s : intset) : Z := 8 + u32 (ilength s * encoding s).

(** ** What a blob represents *)

Definition is_enc (e : Z) : Prop := e = 2 \/ e = 4 \/ e = 8.

Definition fits (e v : Z) : Prop := is_signed (8 * e) v.

Definition encode (e : Z) (vs : list Z) : bytes := flat_map (le_enc (Z.to_nat e)) vs.

(** The elements in order. *)
Definition intset_vals (s : intset) (vs : list Z) : Prop :=
  is_enc (encoding s) /\ ilength s = Z.of_nat (length vs) /\
  contents s = encode (encoding s) vs /\
  Forall (fits (encoding s)) vs /\ StronglySorted Z.lt vs.

Definition intset_rep (s : intset) (X : gset Z) : Prop :=
  exists vs, intset_vals s vs /\ X = list_to_set vs.

(** The size below which no 32 bit quantity of the code overflows. *)
Definition INTSET_LIMIT : Z := 2 ^ 28.

(** ** Encoding and decoding *)

Lemma length_encode e vs : 0 <= e -> length (encode e vs) = (length vs * Z.to_nat e)%nat.
Proof.
  intros He. unfold encode. induction vs as [|v vs IH]; cbn [flat_map length]; [done|].
  rewrite length_app, length_le_enc, IH. lia.
Qed.

Lemma encode_app e a b : encode e (a ++ b) = encode e a ++ encode e b.
Proof. apply flat_map_app. Qed.

Lemma encode_cons e v b : encode e (v :: b) = le_enc (Z.to_nat e) v ++ encode e b.
Proof. done. Qed.

Lemma enc_width_enc e : is_enc e -> enc_width e = Z.to_nat e /\ 2 <= e <= 8 /\ u8 e = e.
Proof. by intros [-> | [-> | ->]]. Qed.

Lemma decode_elem e v :
  is_enc e -> fits e v -> wraps (8 * Z.of_nat (Z.to_nat e)) (le_dec (le_enc (Z.to_nat e) v)) = v.
Proof.
  intros He Hv. assert (0 < e) by (destruct He as [-> | [-> | ->]]; lia).
  rewrite Z2Nat.id, le_dec_enc, Z2Nat.id by lia.
  assert (256 ^ e = 2 ^ (8 * e)) as -> by (rewrite Z.pow_mul_r by lia; done).
  change (v mod 2 ^ (8 * e)) with (wrapu (8 * e) v). rewrite wraps_wrapu by lia.
  apply wraps_small; [lia|done].
Qed.

Lemma elem_off_nat i w : elem_off (Z.of_nat i) w = Some (i * w)%nat.
Proof. unfold elem_off. by rewrite decide_True, Nat2Z.id by lia. Qed.

Lemma get_encoded_mid s e p v q i :
  is_enc e -> fits e v -> contents s = p ++ le_enc (Z.to_nat e) v ++ q ->
  length p = (i * Z.to_nat e)%nat -> _intsetGetEncoded s (Z.of_nat i) e = Some v.
Proof.
  intros He Hv Hc Hp. unfold _intsetGetEncoded. destruct (enc_width_enc e He) as (-> & _).
  rewrite elem_off_nat. cbn [mbind option_bind].
  rewrite Hc, rdn_app by (by rewrite ?length_le_enc). cbn [mbind option_bind].
  by rewrite decode_elem.
Qed.

Lemma set_mid s p w q i v :
  is_enc (encoding s) -> contents s = p ++ w ++ q ->
  length p = (i * Z.to_nat (encoding s))%nat -> length w = Z.to_nat (encoding s) ->
  _intsetSet s (Z.of_nat i) v =
    Some (Intset (encoding s) (ilength s) (p ++ le_enc (Z.to_nat (encoding s)) v ++ q)).
Proof.
  intros He Hc Hp Hw. unfold _intsetSet. destruct (enc_width_enc _ He) as (-> & _).
  rewrite elem_off_nat. cbn [mbind option_bind].
  rewrite Hc, wrn_app by (by rewrite ?length_le_enc). done.
Qed.

Lemma get_lookup s vs i v :
  intset_vals s vs -> vs !! i = Some v -> _intsetGet s (Z.of_nat i) = Some v.
Proof.
  intros (He & _ & Hc & Hf & _) Hi. unfold _intsetGet.
  destruct (enc_width_enc _ He) as (_ & Hr & ->).
  apply list_elem_of_split_length in Hi as (a & b & -> & ->).
  apply Forall_app in Hf as [_ [Hv _]%Forall_cons].
  rewrite encode_app, encode_cons in Hc.
  eapply get_encoded_mid; [done|done|exact Hc|]. apply length_encode. lia.
Qed.

(** ** Binary search *)

Lemma sorted_lookup_lt vs i j x y :
  StronglySorted Z.lt vs -> vs !! i = Some x -> vs !! j = Some y -> (i < j)%nat -> x < y.
Proof.
  intros Hs. revert i j. induction Hs as [|v vs Hs IH Hall]; intros i j Hi Hj Hlt; [done|].
  destruct j as [|j]; [lia|]. destruct i as [|i]; cbn in *.
  - injection Hi as <-. rewrite Forall_forall in Hall. apply Hall. by eapply list_elem_of_lookup_2.
  - eapply IH; [done..|lia].
Qed.

(** Where [value] is, or where it goes. *)
Definition search_ok (vs : list Z) (value : Z) (found : bool) (pos : nat) : Prop :=
  if found then vs !! pos = Some value
  else (pos <= length vs)%nat /\ Forall (fun v => v < value) (take pos vs) /\
       Forall (fun v => value < v) (drop pos vs).

Lemma search_bounds vs value lo :
  StronglySorted Z.lt vs -> (lo <= length vs)%nat ->
  (forall i v, vs !! i = Some v -> (i < lo)%nat -> v < value) ->
  (forall i v, vs !! i = Some v -> (lo <= i)%nat -> value < v) ->
  search_ok vs value false lo.
Proof.
  intros Hs Hlo H1 H2. split; [done|]. split; apply Forall_lookup; intros i v.
  - intros [Hi Hl]%lookup_take_Some. eauto.
  - rewrite lookup_drop. intros Hi. eapply H2; [done|lia].
Qed.

Lemma search_loop_spec n : forall s vs value lo hi mid cur,
  intset_vals s vs -> Z.of_nat (length vs) < INTSET_LIMIT ->
  0 <= lo -> lo <= hi + 1 <= Z.of_nat (length vs) ->
  (forall i v, vs !! i = Some v -> Z.of_nat i < lo -> v < value) ->
  (forall i v, vs !! i = Some v -> hi < Z.of_nat i -> value < v) ->
  (hi < lo -> cur <> value) ->
  (Z.to_nat (hi - lo + 1) <= n)%nat ->
  exists mn md cr, search_loop n s value lo hi mid cur = Some (mn, md, cr) /\
    if value =? cr then exists i, md = Z.of_nat i /\ search_ok vs value true i
    else exists i, mn = Z.of_nat i /\ search_ok vs value false i.
Proof.
  induction n as [|n IH]; intros s vs value lo hi mid cur Hv Hlim Hlo Hhi Hlt Hgt Hcur Hn;
    cbn [search_loop]; rewrite Z.geb_leb; pose proof Hv as (_ & _ & _ & _ & Hs).
  1: assert (hi < lo) by lia.
  2: destruct (Z.leb_spec lo hi) as [Hle|Hle].
  2: { assert (exists x, vs !! Z.to_nat ((lo + hi) / 2) = Some x) as (x & Hx).
    { apply lookup_lt_is_Some. assert (lo <= (lo + hi) / 2 <= hi) by dlia. lia. }
    unfold INTSET_LIMIT in *.
    rewrite !(wrapu_small 32 lo), !(wrapu_small 32 hi) by ints.
    rewrite (wrapu_small 32 (lo + hi)), Z.shiftr_div_pow2 by ints. change (2 ^ 1) with 2.
    assert (lo <= (lo + hi) / 2 <= hi) by dlia. set (m := (lo + hi) / 2) in *. clearbody m.
    rewrite wraps_small by ints.
    assert (_intsetGet s m = Some x) as ->.
    { rewrite <- (Z2Nat.id m) by lia. by apply (get_lookup s vs). }
    cbn [mbind option_bind].
    rewrite Z.gtb_ltb. destruct (Z.ltb_spec x value); [|destruct (Z.ltb_spec value x)].
    - apply (IH s vs); try done; try lia. intros i v Hi Hl.
      destruct (decide (i = Z.to_nat m)) as [->|]; [congruence|].
      destruct (decide (i < Z.to_nat m)%nat); [|lia].
      pose proof (sorted_lookup_lt vs i (Z.to_nat m) v x Hs Hi Hx ltac:(lia)). lia.
    - apply (IH s vs); try done; try lia. intros i v Hi Hl.
      destruct (decide (i = Z.to_nat m)) as [->|]; [congruence|].
      pose proof (sorted_lookup_lt vs (Z.to_nat m) i x v Hs Hx Hi ltac:(lia)). lia.
    - assert (x = value) as -> by lia. eexists _, _, _. split; [done|]. rewrite Z.eqb_refl.
      exists (Z.to_nat m). split; [lia|done]. }
  all: try rewrite (proj2 (Z.leb_gt _ _)) by lia.
  all: eexists _, _, _; (split; [done|]); rewrite (proj2 (Z.eqb_neq _ _)) by (intros ->; by apply Hcur).
  all: exists (Z.to_nat lo); (split; [lia|]); apply search_bounds; [done|lia|..]; intros i v Hi Hl.
  all: first [by apply (Hlt i v Hi ltac:(lia))|by apply (Hgt i v Hi ltac:(lia))].
Qed.

Lemma intsetSearch_spec s vs value :
  intset_vals s vs -> Z.of_nat (length vs) < INTSET_LIMIT ->
  exists found pos, intsetSearch s value = Some (found, Z.of_nat pos) /\
    search_ok vs value found pos.
Proof.
  intros Hv Hlim. unfold intsetSearch. pose proof Hv as (_ & Hl & _ & _ & Hs). rewrite Hl.
  destruct (Z.eqb_spec (Z.of_nat (length vs)) 0).
  { exists false, 0%nat. split; [done|]. assert (vs = []) as -> by (apply nil_length_inv; lia).
    split_and!; [done|constructor..]. }
  unfold INTSET_LIMIT in *. rewrite wrapu_small, wraps_small by ints.
  assert (exists x, vs !! (length vs - 1)%nat = Some x) as (x & Hx) by (apply lookup_lt_is_Some; lia).
  assert (exists y, vs !! 0%nat = Some y) as (y & Hy) by (apply lookup_lt_is_Some; lia).
  replace (Z.of_nat (length vs) - 1) with (Z.of_nat (length vs - 1)) by lia.
  rewrite (get_lookup s vs _ x Hv Hx). cbn [mbind option_bind]. rewrite Z.gtb_ltb.
  destruct (Z.ltb_spec x value).
  { exists false, (length vs). split; [done|]. apply search_bounds; [done..| |].
    - intros i v Hi Hlt. destruct (decide (i = length vs - 1)%nat) as [->|]; [congruence|].
      pose proof (sorted_lookup_lt vs i _ v x Hs Hi Hx ltac:(lia)). lia.
    - intros i v Hi%lookup_lt_Some Hge. lia. }
  assert (_intsetGet s 0 = Some y) as -> by (by apply (get_lookup s vs 0 y Hv)).
  cbn [mbind option_bind].
  destruct (Z.ltb_spec value y).
  { exists false, 0%nat. split; [done|]. apply search_bounds; [done|lia|intros; lia|].
    intros i v Hi _. destruct (decide (i = 0)%nat) as [->|]; [congruence|].
    pose proof (sorted_lookup_lt vs _ i y v Hs Hy Hi ltac:(lia)). lia. }
  destruct (search_loop_spec (Z.to_nat (Z.of_nat (length vs))) s vs value 0 (Z.of_nat (length vs - 1)) (-1) (-1))
    as (mn & md & cr & -> & Hr); [done|unfold INTSET_LIMIT; lia|lia|lia|intros; lia| |lia|lia|].
  { intros i v Hi%lookup_lt_Some ?. lia. }
  cbn [mbind option_bind]. destruct (value =? cr); destruct Hr as (i & -> & Hi).
  - by exists true, i.
  - by exists false, i.
Qed.

(** ** Sorted lists as sets *)

Lemma sorted_app a b :
  StronglySorted Z.lt (a ++ b) ->
  StronglySorted Z.lt a /\ StronglySorted Z.lt b.
Proof. intros H. split; [by eapply StronglySorted_app_1_l|by eapply StronglySorted_app_1_r]. Qed.

Lemma sorted_insert a b v :
  StronglySorted Z.lt (a ++ b) -> Forall (fun x => x < v) a -> Forall (fun x => v < x) b ->
  StronglySorted Z.lt (a ++ v :: b).
Proof.
  intros Hs Ha Hb. induction a as [|x a IH]; cbn in *.
  - by constructor.
  - apply StronglySorted_inv in Hs as [Hs Hx]. apply Forall_cons in Ha as [Hxv Ha].
    constructor; [by apply IH|]. apply Forall_app in Hx as [Hxa Hxb].
    apply Forall_app. split; [done|]. by constructor.
Qed.

Lemma sorted_delete a b v :
  StronglySorted Z.lt (a ++ v :: b) -> StronglySorted Z.lt (a ++ b).
Proof.
  induction a as [|x a IH]; cbn; intros Hs; apply StronglySorted_inv in Hs as [Hs Hx]; [done|].
  constructor; [by apply IH|]. apply Forall_app in Hx as [Ha Hb]. apply Forall_app.
  split; [done|]. by apply Forall_cons in Hb as [_ ?].
Qed.

Lemma search_ok_set vs value found pos :
  StronglySorted Z.lt vs -> search_ok vs value found pos ->
  found = bool_decide (value ∈ vs).
Proof.
  intros Hs. destruct found; cbn.
  - intros H. symmetry. apply bool_decide_eq_true. by eapply list_elem_of_lookup_2.
  - intros (_ & Ha & Hb). symmetry. apply bool_decide_eq_false. rewrite <- (take_drop pos vs).
    intros [Hin|Hin]%elem_of_app; [rewrite Forall_forall in Ha; specialize (Ha _ Hin)
      |rewrite Forall_forall in Hb; specialize (Hb _ Hin)]; lia.
Qed.

Lemma insert_set a b (v : Z) :
  (list_to_set (a ++ v :: b) : gset Z) = {[v]} ∪ list_to_set (a ++ b).
Proof.
  rewrite !list_to_set_app_L, list_to_set_cons. apply set_eq. intros x.
  rewrite !elem_of_union. tauto.
Qed.

Lemma insert_present vs (v : Z) :
  v ∈ vs -> (list_to_set vs : gset Z) = {[v]} ∪ list_to_set vs.
Proof.
  intros H. apply set_eq. intros x. rewrite elem_of_union, elem_of_singleton, elem_of_list_to_set.
  split; [tauto|]. intros [->|?]; done.
Qed.

Lemma delete_absent vs (v : Z) :
  v ∉ vs -> (list_to_set vs : gset Z) = list_to_set vs ∖ {[v]}.
Proof.
  intros H. apply set_eq. intros x. rewrite elem_of_difference, elem_of_singleton, elem_of_list_to_set.
  split; [|tauto]. intros Hx. split; [done|]. by intros ->.
Qed.

Lemma sorted_delete_set a b v :
  StronglySorted Z.lt (a ++ v :: b) ->
  (list_to_set (a ++ b) : gset Z) = list_to_set (a ++ v :: b) ∖ {[v]}.
Proof.
  intros Hs. assert (v ∉ a ++ b) as Hv.
  { rewrite elem_of_app. intros [Hin|Hin].
    - apply list_elem_of_lookup in Hin as [i Hi].
      assert (v < v); [|lia]. eapply (sorted_lookup_lt _ i (length a) _ _ Hs).
      + rewrite lookup_app_l; [done|by eapply lookup_lt_Some].
      + by apply lookup_app_len.
      + by apply lookup_lt_Some in Hi.
    - apply sorted_app in Hs as [_ Hs]. apply StronglySorted_inv in Hs as [_ Hs].
      rewrite Forall_forall in Hs. specialize (Hs _ Hin). lia. }
  rewrite !list_to_set_app_L, list_to_set_cons. apply not_elem_of_app in Hv as [H1 H2].
  apply set_eq. intros x. rewrite elem_of_difference, !elem_of_union, elem_of_singleton, !elem_of_list_to_set.
  split; [|tauto]. intros Hx. split; [tauto|]. intros ->. tauto.
Qed.

Section Specs.
Context (junk : nat -> Z).

(** ** Growing and moving *)

Lemma intsetResize_grow s vs n :
  is_enc (encoding s) -> contents s = encode (encoding s) vs ->
  Z.of_nat (length vs) < INTSET_LIMIT -> n = Z.of_nat (length vs) + 1 ->
  exists g, intsetResize junk s n
      = Intset (encoding s) (ilength s) (encode (encoding s) vs ++ g) /\
    length g = Z.to_nat (encoding s).
Proof.
  intros He Hc Hlim ->. destruct (enc_width_enc _ He) as (_ & Hr & _).
  unfold intsetResize, INTSET_LIMIT in *. rewrite Hc, wrapu_small by (unfold is_unsigned; nia).
  pose proof (length_encode (encoding s) vs ltac:(lia)) as Hl.
  destruct (resize_grow junk (encode (encoding s) vs) (Z.to_nat ((Z.of_nat (length vs) + 1) * encoding s)))
    as (g & -> & Hg); [nia|]. exists g. split; [done|]. nia.
Qed.

Lemma intsetMoveTail_up s a b g :
  is_enc (encoding s) -> contents s = encode (encoding s) (a ++ b) ++ g ->
  length g = Z.to_nat (encoding s) -> ilength s = Z.of_nat (length (a ++ b)) ->
  Z.of_nat (length (a ++ b)) < INTSET_LIMIT ->
  exists x, intsetMoveTail s (Z.of_nat (length a)) (Z.of_nat (length a) + 1)
      = Some (Intset (encoding s) (ilength s)
               (encode (encoding s) a ++ x ++ encode (encoding s) b)) /\
    length x = Z.to_nat (encoding s).
Proof.
  intros He Hc Hg Hl Hlim. destruct (enc_width_enc _ He) as (Hw & Hr & _).
  unfold intsetMoveTail. rewrite Hw, Hl. rewrite length_app in *. unfold INTSET_LIMIT in *.
  set (e := encoding s) in *.
  replace (Z.of_nat (length a) + 1) with (Z.of_nat (length a + 1)) by lia.
  rewrite !elem_off_nat. cbn [mbind option_bind].
  rewrite (wrapu_small 32 (_ - _)) by ints.
  replace (Z.of_nat (length a + length b) - Z.of_nat (length a)) with (Z.of_nat (length b)) by lia.
  rewrite wrapu_small by (unfold is_unsigned; nia).
  rewrite Z2Nat.id by lia.
  pose proof (length_encode e a ltac:(lia)) as Ha. pose proof (length_encode e b ltac:(lia)) as Hb.
  destruct (list_split3 (encode e b ++ g) (Z.to_nat e) (length b * Z.to_nat e)) as (x & d & z & E & Hx & Hd).
  { rewrite length_app. lia. }
  assert (z = []) as ->.
  { apply nil_length_inv. apply (f_equal length) in E. rewrite !length_app in E. lia. }
  rewrite encode_app, <- app_assoc in Hc.
  rewrite (memmove_app _ (encode e a) (encode e b) g (encode e a ++ x) d []).
  - cbn [mbind option_bind]. exists x. split; [|done]. by rewrite app_nil_r, <- app_assoc.
  - done.
  - by rewrite Hc, E, <- !app_assoc.
  - lia.
  - rewrite Hb. nia.
  - rewrite length_app. lia.
  - nia.
Qed.

Lemma intsetMoveTail_down s a v b :
  is_enc (encoding s) -> contents s = encode (encoding s) (a ++ v :: b) ->
  ilength s = Z.of_nat (length (a ++ v :: b)) ->
  Z.of_nat (length (a ++ v :: b)) < INTSET_LIMIT ->
  exists x, intsetMoveTail s (Z.of_nat (length a) + 1) (Z.of_nat (length a))
      = Some (Intset (encoding s) (ilength s) (encode (encoding s) (a ++ b) ++ x)).
Proof.
  intros He Hc Hl Hlim. destruct (enc_width_enc _ He) as (Hw & Hr & _).
  unfold intsetMoveTail. rewrite Hw, Hl. rewrite length_app in *. cbn [length] in *.
  unfold INTSET_LIMIT in *. set (e := encoding s) in *.
  replace (Z.of_nat (length a) + 1) with (Z.of_nat (length a + 1)) by lia.
  rewrite !elem_off_nat. cbn [mbind option_bind].
  rewrite (wrapu_small 32 (_ - _)) by ints.
  replace (Z.of_nat (length a + S (length b)) - Z.of_nat (length a + 1)) with (Z.of_nat (length b)) by lia.
  rewrite wrapu_small by (unfold is_unsigned; nia). rewrite Z2Nat.id by lia.
  pose proof (length_encode e a ltac:(lia)) as Ha. pose proof (length_encode e b ltac:(lia)) as Hb.
  rewrite encode_app, encode_cons in Hc.
  set (lv := le_enc (Z.to_nat e) v) in *. assert (length lv = Z.to_nat e) as Hlv by apply length_le_enc.
  destruct (list_split3 (lv ++ encode e b) 0 (length b * Z.to_nat e)) as (z & d & x & E & Hz & Hd).
  { rewrite length_app. lia. }
  destruct z; [|done]. cbn [app] in E.
  rewrite (memmove_app _ (encode e a ++ lv) (encode e b) [] (encode e a) d x).
  - cbn [mbind option_bind]. exists x. by rewrite encode_app, <- app_assoc.
  - by rewrite Hc, app_nil_r, <- app_assoc.
  - by rewrite Hc, E.
  - rewrite length_app. lia.
  - rewrite Hb. nia.
  - lia.
  - nia.
Qed.

(** ** Upgrading *)

Lemma upgrade_loop_spec cur vs pre n : forall s g tl,
  is_enc cur -> is_enc (encoding s) -> Forall (fits cur) vs ->
  cur <= encoding s -> 0 <= pre <= 1 -> (n <= length vs)%nat ->
  contents s = encode cur (take n vs) ++ g ++ encode (encoding s) (drop n vs) ++ tl ->
  (n * Z.to_nat cur + length g = (n + Z.to_nat pre) * Z.to_nat (encoding s))%nat ->
  exists g', upgrade_loop n s pre cur
    = Some (Intset (encoding s) (ilength s) (g' ++ encode (encoding s) vs ++ tl)) /\
    length g' = (Z.to_nat pre * Z.to_nat (encoding s))%nat.
Proof.
  induction n as [|n IH]; intros s g tl Hcur Hnew Hf Hle Hpre Hn Hc Hg; cbn [upgrade_loop].
  { exists g. split; [|lia]. destruct s; cbn in *. by rewrite Hc. }
  destruct (lookup_lt_is_Some_2 vs n) as (v & Hv); [lia|].
  assert (fits cur v) as Hfv by (rewrite Forall_lookup in Hf; eauto).
  destruct (enc_width_enc _ Hcur) as (_ & Hrc & _), (enc_width_enc _ Hnew) as (_ & Hrn & _).
  rewrite (take_S_r _ _ _ Hv), encode_app, <- app_assoc in Hc.
  cbn [encode flat_map] in Hc. rewrite app_nil_r in Hc.
  pose proof (length_encode cur (take n vs) ltac:(lia)) as Hlen.
  rewrite length_take, Nat.min_l in Hlen by lia.
  rewrite (get_encoded_mid s cur _ v _ n Hcur Hfv Hc) by done. cbn [mbind option_bind].
  set (G := le_enc (Z.to_nat cur) v ++ g).
  assert (length G = Z.to_nat cur + length g)%nat as HG by (unfold G; rewrite length_app, length_le_enc; done).
  set (k := (length G - Z.to_nat (encoding s))%nat).
  assert (Z.to_nat (encoding s) <= length G)%nat as HkG by nia.
  assert (contents s = (encode cur (take n vs) ++ take k G) ++ drop k G ++
    encode (encoding s) (drop (S n) vs) ++ tl) as Hc'.
  { rewrite Hc, <- app_assoc, (app_assoc (take k G)), take_drop. unfold G. by rewrite <- app_assoc. }
  replace (Z.of_nat n + pre) with (Z.of_nat (n + Z.to_nat pre)) by lia.
  erewrite set_mid; [|done|exact Hc'| |].
  2: { rewrite length_app, length_take, Hlen, HG. unfold k. rewrite HG. nia. }
  2: { rewrite length_drop. unfold k. lia. }
  cbn [mbind option_bind].
  rewrite (app_assoc (le_enc _ v)), <- encode_cons, <- (drop_S _ _ _ Hv), <- app_assoc.
  destruct (IH (Intset (encoding s) (ilength s) (encode cur (take n vs) ++ take k G ++
    encode (encoding s) (drop n vs) ++ tl)) (take k G) tl) as (g' & Hl & Hg'); try done.
  - lia.
  - cbn [encoding]. rewrite length_take. unfold k. nia.
  - by exists g'.
Qed.

Lemma valueEncoding_spec v :
  is_llong v -> is_enc (_intsetValueEncoding v) /\
  (forall e, is_enc e -> _intsetValueEncoding v <= e <-> fits e v).
Proof.
  intros Hv. unfold _intsetValueEncoding, INTSET_ENC_INT64, INTSET_ENC_INT32, INTSET_ENC_INT16.
  rewrite !Z.gtb_ltb. change (- 2 ^ 31) with (-2147483648). change (2 ^ 31 - 1) with 2147483647.
  change (- 2 ^ 15) with (-32768). change (2 ^ 15 - 1) with 32767.
  assert (forall e, is_enc e -> fits e v <->
    (if e =? 2 then -32768 <= v < 32768 else if e =? 4 then -2147483648 <= v < 2147483648 else True)) as Hf.
  { intros e [-> | [-> | ->]]; cbn [Z.eqb Pos.eqb]; unfold fits.
    - done.
    - done.
    - split; [done|]. intros _. exact Hv. }
  destruct (Z.ltb_spec v (-2147483648)); [|destruct (Z.ltb_spec 2147483647 v)]; cbn [orb];
    [| |destruct (Z.ltb_spec v (-32768)); [|destruct (Z.ltb_spec 32767 v)]; cbn [orb]];
    (split; [unfold is_enc; lia|]); intros e He; rewrite Hf by done;
    destruct He as [-> | [-> | ->]]; cbn [Z.eqb Pos.eqb]; split; intros; try exact I; lia.
Qed.

Lemma fits_mono e e' v : is_enc e -> is_enc e' -> e <= e' -> fits e v -> fits e' v.
Proof.
  unfold fits, is_signed. intros He He' Hle Hv.
  assert (2 ^ (8 * e - 1) <= 2 ^ (8 * e' - 1)).
  { apply Z.pow_le_mono_r; [lia|]. lia. }
  lia.
Qed.

(** A value that does not fit lies below or above all the elements. *)
Lemma unfit_outside e v vs :
  is_enc e -> ~ fits e v -> Forall (fits e) vs ->
  if v <? 0 then Forall (fun x => v < x) vs else Forall (fun x => x < v) vs.
Proof.
  unfold fits, is_signed. intros He Hv Hf.
  assert (0 < 2 ^ (8 * e - 1)) by (apply Z.pow_pos_nonneg; destruct He as [-> | [-> | ->]]; lia).
  destruct (Z.ltb_spec v 0); (eapply Forall_impl; [exact Hf|]); cbn beta; intros x Hx; lia.
Qed.

Lemma intsetUpgradeAndAdd_vals s vs v :
  intset_vals s vs -> is_llong v -> Z.of_nat (length vs) < INTSET_LIMIT ->
  encoding s < _intsetValueEncoding v ->
  exists s', intsetUpgradeAndAdd junk s v = Some s' /\ (v ∉ vs) /\
    intset_vals s' (if v <? 0 then v :: vs else vs ++ [v]).
Proof.
  intros (He & Hl & Hc & Hf & Hs) Hv Hlim Hgt.
  destruct (valueEncoding_spec v Hv) as (Hnew & Hfit).
  assert (~ fits (encoding s) v) as Hnf by (rewrite <- Hfit by done; lia).
  assert (fits (_intsetValueEncoding v) v) as Hfv by (apply Hfit; [done|lia]).
  pose proof (unfit_outside _ _ _ He Hnf Hf) as Hout.
  assert (v ∉ vs) as Hni.
  { intros Hin. apply Hnf. rewrite Forall_forall in Hf. by apply Hf. }
  destruct (enc_width_enc _ He) as (_ & Hr & Hu).
  unfold intsetUpgradeAndAdd. rewrite Hu.
  set (new := _intsetValueEncoding v) in *. clearbody new.
  destruct (enc_width_enc _ Hnew) as (_ & Hrn & _).
  set (pre := if v <? 0 then 1 else 0).
  assert (0 <= pre <= 1) as Hpre by (unfold pre; destruct (v <? 0); lia).
  cbn [ilength contents]. unfold intsetResize. cbn [encoding ilength contents].
  unfold INTSET_LIMIT in *. rewrite Hl, (wrapu_small 32 (_ + 1)) by ints.
  rewrite wrapu_small by (unfold is_unsigned; nia).
  pose proof (length_encode (encoding s) vs ltac:(lia)) as Hlen. rewrite Hc.
  destruct (resize_grow junk (encode (encoding s) vs) (Z.to_nat ((Z.of_nat (length vs) + 1) * new)))
    as (g & -> & Hg); [nia|].
  set (n := length vs) in *. assert ((n + 1) * Z.to_nat new = length g + n * Z.to_nat (encoding s))%nat as Hgl by nia.
  destruct (list_split3 g (length g - (1 - Z.to_nat pre) * Z.to_nat new) ((1 - Z.to_nat pre) * Z.to_nat new))
    as (g1 & tl & z & -> & Hg1 & Htl); [nia|].
  rewrite !length_app in *. assert (z = []) as -> by (apply nil_length_inv; nia). rewrite app_nil_r in *.
  rewrite Nat2Z.id.
  destruct (upgrade_loop_spec (encoding s) vs pre n
    (Intset new (Z.of_nat n) (encode (encoding s) vs ++ g1 ++ tl)) g1 tl)
    as (g' & -> & Hg'); try done; cbn [encoding contents ilength].
  - lia.
  - unfold n. by rewrite take_ge, drop_ge by lia.
  - cbn [length] in *. nia.
  - cbn [mbind option_bind].
    assert (length tl = (1 - Z.to_nat pre) * Z.to_nat new)%nat as Htl' by lia.
    assert (n = length vs) as Hnv by done. clearbody n. unfold pre in *. clear Hg1. cbn [encoding] in Hg'.
    destruct (Z.ltb_spec v 0); cbn [Z.eqb Pos.eqb] in *.
    + assert (tl = []) as -> by (apply nil_length_inv; lia).
      change 0 with (Z.of_nat 0) at 1.
      erewrite (set_mid _ [] g' (encode new vs ++ []) 0) by (try done; cbn [encoding]; lia).
      cbn [mbind option_bind encoding ilength contents app].
      eexists. split; [done|]. split; [done|]. rewrite app_nil_r.
      split_and!; cbn [encoding ilength contents]; [done| |by rewrite encode_cons| |].
      * rewrite wrapu_small by ints. cbn [length]. lia.
      * constructor; [done|]. eapply Forall_impl; [exact Hf|]. intros. eapply (fits_mono (encoding s)); done || lia.
      * by constructor.
    + assert (g' = []) as -> by (apply nil_length_inv; lia). cbn [ilength]. rewrite wraps_small by ints.
      erewrite (set_mid _ (encode new vs) tl [] n).
      2: { done. } 2: { cbn [contents]. by rewrite app_nil_r. }
      2: { cbn [encoding]. rewrite length_encode by lia. lia. } 2: { cbn [encoding]. lia. }
      cbn [mbind option_bind encoding ilength contents app].
      eexists. split; [done|]. split; [done|]. rewrite app_nil_r.
      split_and!; cbn [encoding ilength contents]; [done| | | |].
      * rewrite wrapu_small by ints. rewrite length_app. cbn [length]. lia.
      * rewrite encode_app, encode_cons. cbn [encode flat_map]. by rewrite app_nil_r.
      * apply Forall_app. split; [|by constructor].
        eapply Forall_impl; [exact Hf|]. intros. eapply (fits_mono (encoding s)); done || lia.
      * apply sorted_insert; [by rewrite app_nil_r|done|constructor].
Qed.

(** ** The operations on sets *)

Lemma intsetAdd_vals s vs v :
  intset_vals s vs -> is_llong v -> Z.of_nat (length vs) < INTSET_LIMIT ->
  exists s' vs', intsetAdd junk s v = Some (s', bool_decide (v ∉ vs)) /\
    intset_vals s' vs' /\ (list_to_set vs' : gset Z) = {[v]} ∪ list_to_set vs.
Proof.
  intros Hvals Hv Hlim. unfold intsetAdd. rewrite Z.gtb_ltb.
  destruct (Z.ltb_spec (encoding s) (_intsetValueEncoding v)) as [Hgt|Hle].
  { destruct (intsetUpgradeAndAdd_vals s vs v Hvals Hv Hlim Hgt) as (s' & -> & Hni & Hr).
    rewrite bool_decide_true by done. eexists _, _. split; [done|]. split; [exact Hr|].
    destruct (v <? 0); [done|]. by rewrite insert_set, app_nil_r. }
  pose proof Hvals as (He & Hl & Hc & Hf & Hs).
  destruct (intsetSearch_spec s vs v Hvals Hlim) as (found & pos & -> & Hok).
  cbn [mbind option_bind]. pose proof (search_ok_set vs v found pos Hs Hok) as Hfound.
  destruct found.
  { symmetry in Hfound. apply bool_decide_eq_true in Hfound.
    rewrite bool_decide_false by tauto. exists s, vs. split_and!; [done..|]. by apply insert_present. }
  symmetry in Hfound. apply bool_decide_eq_false in Hfound.
  rewrite bool_decide_true by done. destruct Hok as (Hpos & Ha & Hb).
  assert (exists a b, vs = a ++ b /\ pos = length a /\ take pos vs = a /\ drop pos vs = b)
    as (a & b & Hab & -> & Ea & Eb).
  { exists (take pos vs), (drop pos vs). rewrite take_drop, length_take. split_and!; done || lia. }
  rewrite Ea in Ha. rewrite Eb in Hb. clear Ea Eb Hpos.
  assert (fits (encoding s) v) as Hfv by (by apply valueEncoding_spec).
  rewrite Hl. unfold INTSET_LIMIT in *. rewrite (wrapu_small 32 (_ + 1)) by ints.
  destruct (intsetResize_grow s vs (Z.of_nat (length vs) + 1) He Hc) as (g & Er & Hg);
    [unfold INTSET_LIMIT; lia|lia|]. rewrite Er. cbn [encoding ilength contents].
  assert (exists x, (if Z.of_nat (length a) <? ilength s
    then intsetMoveTail (Intset (encoding s) (ilength s) (encode (encoding s) vs ++ g))
           (Z.of_nat (length a)) (Z.of_nat (length a) + 1)
    else Some (Intset (encoding s) (ilength s) (encode (encoding s) vs ++ g)))
    = Some (Intset (encoding s) (ilength s) (encode (encoding s) a ++ x ++ encode (encoding s) b)) /\
    length x = Z.to_nat (encoding s)) as (x & Em & Hx).
  { destruct (Z.ltb_spec (Z.of_nat (length a)) (ilength s)).
    - apply (intsetMoveTail_up (Intset _ _ _) a b g); cbn [encoding ilength contents];
        rewrite <- ?Hab; done || (unfold INTSET_LIMIT; lia).
    - assert (b = []) as ->.
      { apply nil_length_inv. rewrite Hl, Hab, length_app in *. lia. }
      exists g. change (encode (encoding s) []) with (@nil Z). by rewrite Hab, !app_nil_r. }
  rewrite Em. cbn [mbind option_bind].
  assert (length vs = length a + length b)%nat as Hlab by (rewrite Hab; apply length_app).
  rewrite wraps_small by ints.
  erewrite (set_mid _ (encode (encoding s) a) x (encode (encoding s) b));
    [|done|done| |done].
  2: { cbn [encoding]. apply length_encode. destruct (enc_width_enc _ He). lia. }
  cbn [mbind option_bind encoding ilength contents].
  eexists _, (a ++ v :: b). split; [done|]. split.
  - split_and!; cbn [encoding ilength contents]; [done| |by rewrite encode_app, encode_cons| |].
    + rewrite Hl, wrapu_small by ints. rewrite length_app. cbn [length]. lia.
    + rewrite Hab in Hf. apply Forall_app in Hf as [Hfa Hfb]. apply Forall_app.
      split; [done|by constructor].
    + rewrite Hab in Hs. by apply sorted_insert.
  - rewrite Hab. apply insert_set.
Qed.

Lemma intsetRemove_vals s vs v :
  intset_vals s vs -> is_llong v -> Z.of_nat (length vs) < INTSET_LIMIT ->
  exists s' vs', intsetRemove junk s v = Some (s', bool_decide (v ∈ vs)) /\
    intset_vals s' vs' /\ (list_to_set vs' : gset Z) = list_to_set vs ∖ {[v]}.
Proof.
  intros Hvals Hv Hlim. unfold intsetRemove. pose proof Hvals as (He & Hl & Hc & Hf & Hs).
  destruct (Z.leb_spec (_intsetValueEncoding v) (encoding s)) as [Hle|Hgt].
  2: { assert (v ∉ vs) as Hni.
    { intros Hin. rewrite Forall_forall in Hf. specialize (Hf v Hin).
      apply valueEncoding_spec in Hf; [lia|done..]. }
    rewrite bool_decide_false by done. exists s, vs. split_and!; [done..|]. by apply delete_absent. }
  destruct (intsetSearch_spec s vs v Hvals Hlim) as (found & pos & -> & Hok).
  cbn [mbind option_bind]. pose proof (search_ok_set vs v found pos Hs Hok) as ->.
  destruct (bool_decide_reflect (v ∈ vs)) as [Hin|Hni].
  2: { exists s, vs. split_and!; [done..|]. by apply delete_absent. }
  cbn [search_ok] in Hok. apply list_elem_of_split_length in Hok as (a & b & -> & ->).
  destruct (enc_width_enc _ He) as (_ & Hr & _).
  assert (exists x, (if Z.of_nat (length a) <? ilength s - 1
    then intsetMoveTail s (Z.of_nat (length a) + 1) (Z.of_nat (length a)) else Some s)
    = Some (Intset (encoding s) (ilength s) (encode (encoding s) (a ++ b) ++ x))) as (x & ->).
  { destruct (Z.ltb_spec (Z.of_nat (length a)) (ilength s - 1)).
    - by apply (intsetMoveTail_down s a v b).
    - assert (b = []) as ->.
      { apply nil_length_inv. rewrite Hl, length_app in *. cbn [length] in *. lia. }
      exists (le_enc (Z.to_nat (encoding s)) v). rewrite encode_app in Hc.
      change (encode (encoding s) [v]) with (le_enc (Z.to_nat (encoding s)) v ++ []) in Hc.
      rewrite app_nil_r in *. destruct s; cbn [encoding ilength contents] in *. by rewrite Hc. }
  cbn [mbind option_bind]. unfold intsetResize. cbn [encoding ilength contents].
  rewrite Hl. rewrite length_app in *. cbn [length] in *. unfold INTSET_LIMIT in *.
  rewrite wrapu_small by (unfold is_unsigned; nia).
  pose proof (length_encode (encoding s) (a ++ b) ltac:(lia)) as Hlen. rewrite length_app in Hlen.
  rewrite resize_shrink by nia.
  eexists _, (a ++ b). split; [done|]. split; [|by apply sorted_delete_set].
  split_and!; cbn [encoding ilength contents]; [done| |done| |].
  - rewrite length_app. lia.
  - apply Forall_app in Hf as [Hfa [_ Hfb]%Forall_cons]. by apply Forall_app.
  - by eapply sorted_delete.
Qed.

End Specs.

Lemma intsetFind_vals s vs v :
  intset_vals s vs -> is_llong v -> Z.of_nat (length vs) < INTSET_LIMIT ->
  intsetFind s v = Some (bool_decide (v ∈ vs)).
Proof.
  intros Hvals Hv Hlim. unfold intsetFind. pose proof Hvals as (He & Hl & Hc & Hf & Hs).
  destruct (Z.leb_spec (_intsetValueEncoding v) (encoding s)) as [Hle|Hgt].
  - destruct (intsetSearch_spec s vs v Hvals Hlim) as (found & pos & -> & Hok).
    cbn [mbind option_bind]. by rewrite (search_ok_set vs v found pos Hs Hok).
  - rewrite bool_decide_false; [done|]. intros Hin. rewrite Forall_forall in Hf.
    specialize (Hf v Hin). apply valueEncoding_spec in Hf; [lia|done..].
Qed.

(** ** Sequences of operations *)

Inductive op := Add (v : Z) | Remove (v : Z) | Find (v : Z).

Definition op_arg (o : op) : Z := match o with Add v | Remove v | Find v => v end.

(** The operations of the code, the flag being the result they report. *)
Definition run_op (junk : nat -> Z) (s : intset) (o : op) : option (intset * bool) :=
  match o with
  | Add v => intsetAdd junk s v
  | Remove v => intsetRemove junk s v
  | Find v => b ← intsetFind s v; Some (s, b)
  end.

Fixpoint run_ops (junk : nat -> Z) (s : intset) (os : list op) : option (intset * list bool) :=
  match os with
  | [] => Some (s, [])
  | o :: os => '(s, b) ← run_op junk s o; '(s, bs) ← run_ops junk s os; Some (s, b :: bs)
  end.

(** The same on finite sets. *)
Definition set_op (X : gset Z) (o : op) : gset Z * bool :=
  match o with
  | Add v => ({[v]} ∪ X, bool_decide (v ∉ X))
  | Remove v => (X ∖ {[v]}, bool_decide (v ∈ X))
  | Find v => (X, bool_decide (v ∈ X))
  end.

Fixpoint set_ops (X : gset Z) (os : list op) : gset Z * list bool :=
  match os with
  | [] => (X, [])
  | o :: os => let '(X, b) := set_op X o in let '(X, bs) := set_ops X os in (X, b :: bs)
  end.

Lemma vals_size s vs : intset_vals s vs -> size (list_to_set vs : gset Z) = length vs.
Proof.
  intros (_ & _ & _ & _ & Hs). apply size_list_to_set.
  induction Hs as [|v vs Hs IH Hv]; constructor; [|done].
  intros Hin. rewrite Forall_forall in Hv. specialize (Hv v Hin). lia.
Qed.

Lemma run_op_set junk s X o :
  intset_rep s X -> is_llong (op_arg o) -> Z.of_nat (size X) < INTSET_LIMIT ->
  exists s', run_op junk s o = Some (s', snd (set_op X o)) /\ intset_rep s' (fst (set_op X o)).
Proof.
  intros (vs & Hvals & ->) Hv Hlim. rewrite (vals_size s vs Hvals) in Hlim.
  destruct o as [v|v|v]; cbn [run_op set_op op_arg fst snd] in *.
  - destruct (intsetAdd_vals junk s vs v Hvals Hv Hlim) as (s' & vs' & -> & Hr & Hset).
    exists s'. split; [|by exists vs'].
    do 2 f_equal. apply bool_decide_ext. by rewrite elem_of_list_to_set.
  - destruct (intsetRemove_vals junk s vs v Hvals Hv Hlim) as (s' & vs' & -> & Hr & Hset).
    exists s'. split; [|by exists vs'].
    do 2 f_equal. apply bool_decide_ext. by rewrite elem_of_list_to_set.
  - rewrite (intsetFind_vals s vs v Hvals Hv Hlim). cbn [mbind option_bind].
    exists s. split; [|by exists vs].
    do 2 f_equal. apply bool_decide_ext. by rewrite elem_of_list_to_set.
Qed.

Lemma set_op_size X o : (size (set_op X o).1 <= S (size X))%nat.
Proof.
  destruct o as [v|v|v]; cbn [set_op fst].
  - rewrite size_union_alt, size_singleton.
    pose proof (subseteq_size (X ∖ {[v]}) X (subseteq_difference_l _ _ _ (reflexivity X))). lia.
  - pose proof (subseteq_size (X ∖ {[v]}) X (subseteq_difference_l _ _ _ (reflexivity X))). lia.
  - lia.
Qed.

Lemma run_ops_set junk os : forall s X,
  intset_rep s X -> Forall (fun o => is_llong (op_arg o)) os ->
  Z.of_nat (size X + length os) <= INTSET_LIMIT ->
  exists s', run_ops junk s os = Some (s', snd (set_ops X os)) /\ intset_rep s' (fst (set_ops X os)).
Proof.
  induction os as [|o os IH]; intros s X Hr Hos Hlim; cbn [run_ops set_ops].
  { by exists s. }
  apply Forall_cons in Hos as [Ho Hos]. cbn [length] in Hlim.
  destruct (run_op_set junk s X o Hr Ho) as (s1 & -> & Hr1); [lia|]. cbn [mbind option_bind].
  pose proof (set_op_size X o) as Hsz. destruct (set_op X o) as [X1 b]. cbn [fst snd] in *.
  destruct (IH s1 X1 Hr1 Hos) as (s2 & -> & Hr2); [lia|]. cbn [mbind option_bind].
  destruct (set_ops X1 os) as [X2 bs]. by exists s2.
Qed.

Lemma intsetNew_rep : intset_rep intsetNew ∅.
Proof.
  exists []. split; [|done]. split_and!; [by left|done|done|constructor|constructor].
Qed.

(** ** Properties *)

(** C16. Integer sets refine finite sets: any sequence of additions, removals
    and searches, started on the empty blob, stays inside its memory, reports
    for each operation exactly what the same operation on a finite set of
    integers reports, and leaves a blob, in whatever width it has come to use,
    that holds exactly that set, sorted and without duplicates. *)
Theorem intset_refines_set junk os :
  Forall (fun o => is_llong (op_arg o)) os -> Z.of_nat (length os) <= INTSET_LIMIT ->
  exists s, run_ops junk intsetNew os = Some (s, snd (set_ops ∅ os)) /\
    intset_rep s (fst (set_ops ∅ os)).
Proof.
  intros Hos Hlim. apply run_ops_set; [apply intsetNew_rep|done|]. by rewrite size_empty.
Qed.

Lemma intset_refines_set_witness :
  snd (set_ops ∅ [Add 5; Add (-40000); Add 5; Add (2 ^ 40); Remove 5; Find (2 ^ 40)])
    = [true; true; false; true; true; true] /\
  exists s, run_ops (fun _ => 0) intsetNew
      [Add 5; Add (-40000); Add 5; Add (2 ^ 40); Remove 5; Find (2 ^ 40)]
    = Some (s, snd (set_ops ∅ [Add 5; Add (-40000); Add 5; Add (2 ^ 40); Remove 5; Find (2 ^ 40)])) /\
    intset_rep s (fst (set_ops ∅ [Add 5; Add (-40000); Add 5; Add (2 ^ 40); Remove 5; Find (2 ^ 40)])).
Proof.
  split; [by vm_compute|]. apply (intset_refines_set (fun _ => 0)); [|by vm_compute].
  repeat constructor; by vm_compute.
Defined.

(** The binary search finishes and is right: the position it reports is
    the position of the value, or the only position where inserting it keeps
    the elements sorted. *)
Theorem intsetSearch_finds s vs value :
  intset_vals s vs -> Z.of_nat (length vs) < INTSET_LIMIT ->
  exists found pos, intsetSearch s value = Some (found, Z.of_nat pos) /\
    search_ok vs value found pos.
Proof. apply intsetSearch_spec. Qed.

Lemma intsetSearch_finds_witness :
  intset_vals (Intset 2 3 [1; 0; 5; 0; 9; 0]) [1; 5; 9] /\
  exists found pos, intsetSearch (Intset 2 3 [1; 0; 5; 0; 9; 0]) 7 = Some (found, Z.of_nat pos) /\
    search_ok [1; 5; 9] 7 found pos.
Proof.
  assert (intset_vals (Intset 2 3 [1; 0; 5; 0; 9; 0]) [1; 5; 9]) as H.
  { split_and!; [by left|done|done|repeat constructor; by vm_compute|].
    repeat constructor. }
  split; [exact H|]. apply (intsetSearch_finds _ _ 7 H). by vm_compute.
Defined.

(** Upgrading: a value that does not fit the current width is new and
    lies outside of the range of the others; the elements are widened in
    place, from the last one to the first, without overwriting one that is
    still to be read, and the value goes before or after all of them. *)
Theorem intsetUpgradeAndAdd_widens junk s vs v :
  intset_vals s vs -> is_llong v -> Z.of_nat (length vs) < INTSET_LIMIT ->
  encoding s < _intsetValueEncoding v ->
  exists s', intsetUpgradeAndAdd junk s v = Some s' /\ (v ∉ vs) /\
    intset_vals s' (if v <? 0 then v :: vs else vs ++ [v]) /\
    (forall x, x ∈ vs -> if v <? 0 then v < x else x < v).
Proof.
  intros H1 H2 H3 H4. destruct (intsetUpgradeAndAdd_vals junk s vs v H1 H2 H3 H4) as (s' & E & Hni & Hr).
  exists s'. split_and!; [done..|]. destruct Hr as (_ & _ & _ & _ & Hs). intros x Hx.
  destruct (v <? 0).
  - apply StronglySorted_inv in Hs as [_ Hs]. rewrite Forall_forall in Hs. by apply Hs.
  - apply list_elem_of_lookup in Hx as [i Hi].
    eapply (sorted_lookup_lt _ i (length vs) _ _ Hs); [by apply lookup_app_l_Some|by apply lookup_app_len|].
    by apply lookup_lt_Some in Hi.
Qed.

Lemma intsetUpgradeAndAdd_widens_witness :
  intset_vals (Intset 2 2 [255; 255; 5; 0]) [-1; 5] /\
  exists s', intsetUpgradeAndAdd (fun _ => 7) (Intset 2 2 [255; 255; 5; 0]) (-40000) = Some s' /\
    (-40000 ∉ [-1; 5]) /\
    intset_vals s' (if -40000 <? 0 then -40000 :: [-1; 5] else [-1; 5] ++ [-40000]) /\
    (forall x, x ∈ [-1; 5] -> if -40000 <? 0 then -40000 < x else x < -40000).
Proof.
  assert (intset_vals (Intset 2 2 [255; 255; 5; 0]) [-1; 5]) as H.
  { split_and!; [by left|done|done|repeat constructor; by vm_compute|repeat constructor]. }
  split; [exact H|]. apply (intsetUpgradeAndAdd_widens (fun _ => 7) _ _ (-40000) H); by vm_compute.
Defined.

End Intset.
