(* ===== verification/Ziplist.v ===== *)
(** * Compact lists (src/ziplist.c)

    The blob is checked memory: a header (total bytes, offset of the last
    entry, number of entries), the entries and a closing byte.  A pointer into
    it is an offset.  This file holds the layout and the operations; the
    proofs that they refine lists of byte strings are in [ZiplistSpec]. *)

From S2P Require Import Prelude Util.
Import Util.

Module Ziplist.

Definition ZIP_END : Z := 255.
Definition ZIP_BIGLEN : Z := 254.

Definition ZIP_STR_MASK : Z := 192.
Definition ZIP_STR_06B : Z := Z.shiftl 0 6.
Definition ZIP_STR_14B : Z := Z.shiftl 1 6.
Definition ZIP_STR_32B : Z := Z.shiftl 2 6.
Definition ZIP_INT_16B : Z := Z.lor 192 (Z.shiftl 0 4).
Definition ZIP_INT_32B : Z := Z.lor 192 (Z.shiftl 1 4).
Definition ZIP_INT_64B : Z := Z.lor 192 (Z.shiftl 2 4).
Definition ZIP_INT_24B : Z := Z.lor 192 (Z.shiftl 3 4).
Definition ZIP_INT_8B : Z := 254.
Definition ZIP_INT_IMM_MASK : Z := 15.
Definition ZIP_INT_IMM_MIN : Z := 241.
Definition ZIP_INT_IMM_MAX : Z := 253.
Definition INT24_MAX : Z := 8388607.
Definition INT24_MIN : Z := - INT24_MAX - 1.
Definition UINT16_MAX : Z := 65535.

Definition ZIP_IS_STR (enc : Z) : bool := Z.land enc ZIP_STR_MASK <? ZIP_STR_MASK.

(** ** The header *)

Definition rd16 (m : bytes) (p : nat) : option Z := bs ← rdn m p 2; Some (le_dec bs).
Definition rd32 (m : bytes) (p : nat) : option Z := bs ← rdn m p 4; Some (le_dec bs).
Definition wr16 (m : bytes) (p : nat) (v : Z) : option bytes := wrn m p (le_enc 2 v).
Definition wr32 (m : bytes) (p : nat) (v : Z) : option bytes := wrn m p (le_enc 4 v).

Definition ZIPLIST_BYTES (zl : bytes) : option Z := rd32 zl 0.
Definition ZIPLIST_TAIL_OFFSET (zl : bytes) : option Z := rd32 zl 4.
Definition ZIPLIST_LENGTH (zl : bytes) : option Z := rd16 zl 8.
Definition set_bytes (zl : bytes) (v : Z) : option bytes := wr32 zl 0 v.
Definition set_tail_offset (zl : bytes) (v : Z) : option bytes := wr32 zl 4 v.
Definition set_length (zl : bytes) (v : Z) : option bytes := wr16 zl 8 v.

Definition ZIPLIST_HEADER_SIZE : nat := 10.
Definition ZIPLIST_END_SIZE : nat := 1.
Definition ZIPLIST_ENTRY_HEAD : nat := ZIPLIST_HEADER_SIZE.
Definition ZIPLIST_ENTRY_TAIL (zl : bytes) : option nat :=
  t ← ZIPLIST_TAIL_OFFSET zl; Some (Z.to_nat t).
Definition ZIPLIST_ENTRY_END (zl : bytes) : option nat :=
  b ← ZIPLIST_BYTES zl; Some (Z.to_nat (b - 1)).

(** The length stops counting at [UINT16_MAX]. *)
Definition ZIPLIST_INCR_LENGTH (zl : bytes) (incr : Z) : option bytes :=
  l ← ZIPLIST_LENGTH zl;
  if l <? UINT16_MAX then set_length zl (u16 (l + incr)) else Some zl.

(** ** Entries *)

Record zlentry := Zlentry {
  prevrawlensize : Z; prevrawlen : Z; lensize : Z; len : Z;
  headersize : Z; encoding : Z; ep : nat }.

(** The bytes [zipEncodeLength] stores; with a null pointer it only returns
    how many there are. *)
Definition zipEncodeLength (encoding rawlen : Z) : bytes :=
  if ZIP_IS_STR encoding then
    if rawlen <=? 63 then [u8 (Z.lor ZIP_STR_06B rawlen)]
    else if rawlen <=? 16383 then
      [u8 (Z.lor ZIP_STR_14B (Z.land (Z.shiftr rawlen 8) 63)); u8 (Z.land rawlen 255)]
    else
      [ZIP_STR_32B; u8 (Z.land (Z.shiftr rawlen 24) 255); u8 (Z.land (Z.shiftr rawlen 16) 255);
       u8 (Z.land (Z.shiftr rawlen 8) 255); u8 (Z.land rawlen 255)]
  else [encoding].

Definition zipIntSize (encoding : Z) : Z :=
  if encoding =? ZIP_INT_8B then 1
  else if encoding =? ZIP_INT_16B then 2
  else if encoding =? ZIP_INT_24B then 3
  else if encoding =? ZIP_INT_32B then 4
  else if encoding =? ZIP_INT_64B then 8
  else 0.

Definition ZIP_ENTRY_ENCODING (m : bytes) (ptr : nat) : option Z :=
  c ← m !! ptr;
  Some (if c <? ZIP_STR_MASK then Z.land c ZIP_STR_MASK else c).

(** The encoding, the number of bytes of the length, and the length. *)
Definition ZIP_DECODE_LENGTH (m : bytes) (ptr : nat) : option (Z * Z * Z) :=
  enc ← ZIP_ENTRY_ENCODING m ptr;
  if enc <? ZIP_STR_MASK then
    c0 ← m !! ptr;
    if enc =? ZIP_STR_06B then Some (enc, 1, Z.land c0 63)
    else if enc =? ZIP_STR_14B then
      c1 ← m !! (ptr + 1)%nat;
      Some (enc, 2, Z.lor (Z.shiftl (Z.land c0 63) 8) c1)
    else if enc =? ZIP_STR_32B then
      c1 ← m !! (ptr + 1)%nat;
      c2 ← m !! (ptr + 2)%nat;
      c3 ← m !! (ptr + 3)%nat;
      c4 ← m !! (ptr + 4)%nat;
      Some (enc, 5, u32 (Z.lor (Z.lor (Z.lor (Z.shiftl c1 24) (Z.shiftl c2 16)) (Z.shiftl c3 8)) c4))
    else None
  else Some (enc, 1, zipIntSize enc).

(** The bytes [zipPrevEncodeLength] stores. *)
Definition zipPrevEncodeLengthForceLarge (len : Z) : bytes := ZIP_BIGLEN :: le_enc 4 len.

Definition zipPrevEncodeLength (len : Z) : bytes :=
  if len <? ZIP_BIGLEN then [len] else zipPrevEncodeLengthForceLarge len.

Definition ZIP_DECODE_PREVLENSIZE (m : bytes) (ptr : nat) : option Z :=
  c ← m !! ptr; Some (if c <? ZIP_BIGLEN then 1 else 5).

Definition ZIP_DECODE_PREVLEN (m : bytes) (ptr : nat) : option (Z * Z) :=
  n ← ZIP_DECODE_PREVLENSIZE m ptr;
  if n =? 1 then c ← m !! ptr; Some (n, c)
  else v ← rd32 m (ptr + 1); Some (n, v).

(** [int]: the number of bytes to grow or to shrink. *)
Definition zipPrevLenByteDiff (m : bytes) (p : nat) (len : Z) : option Z :=
  n ← ZIP_DECODE_PREVLENSIZE m p;
  Some (Z.of_nat (length (zipPrevEncodeLength len)) - n).

Definition zipRawEntryLength (m : bytes) (p : nat) : option Z :=
  prevlensize ← ZIP_DECODE_PREVLENSIZE m p;
  '(_, lensize, len) ← ZIP_DECODE_LENGTH m (p + Z.to_nat prevlensize);
  Some (u32 (prevlensize + lensize + len)).

(** The smallest encoding of an integer. *)
Definition zipIntEncoding (value : Z) : Z :=
  if (0 <=? value) && (value <=? 12) then u8 (ZIP_INT_IMM_MIN + value)
  else if (- 128 <=? value) && (value <=? 127) then ZIP_INT_8B
  else if (- 32768 <=? value) && (value <=? 32767) then ZIP_INT_16B
  else if (INT24_MIN <=? value) && (value <=? INT24_MAX) then ZIP_INT_24B
  else if (- 2 ^ 31 <=? value) && (value <=? 2 ^ 31 - 1) then ZIP_INT_32B
  else ZIP_INT_64B.

Definition zipTryEncoding (entry : bytes) : option (Z * Z) :=
  let entrylen := Z.of_nat (length entry) in
  if (entrylen >=? 32) || (entrylen =? 0) then None
  else value ← string2ll entry; Some (value, zipIntEncoding value).

(** The bytes [zipSaveInteger] stores. *)
Definition zipSaveInteger (value encoding : Z) : bytes :=
  if encoding =? ZIP_INT_8B then le_enc 1 value
  else if encoding =? ZIP_INT_16B then le_enc 2 value
  else if encoding =? ZIP_INT_24B then drop 1 (le_enc 4 (Z.shiftl value 8))
  else if encoding =? ZIP_INT_32B then le_enc 4 value
  else if encoding =? ZIP_INT_64B then le_enc 8 value
  else [].

Definition zipLoadInteger (m : bytes) (p : nat) (encoding : Z) : option Z :=
  if encoding =? ZIP_INT_8B then bs ← rdn m p 1; Some (wraps 8 (le_dec bs))
  else if encoding =? ZIP_INT_16B then bs ← rdn m p 2; Some (wraps 16 (le_dec bs))
  else if encoding =? ZIP_INT_32B then bs ← rdn m p 4; Some (wraps 32 (le_dec bs))
  else if encoding =? ZIP_INT_24B then
    bs ← rdn m p 3; Some (Z.shiftr (wraps 32 (le_dec (0 :: bs))) 8)
  else if encoding =? ZIP_INT_64B then bs ← rdn m p 8; Some (wraps 64 (le_dec bs))
  else if (ZIP_INT_IMM_MIN <=? encoding) && (encoding <=? ZIP_INT_IMM_MAX) then
    Some (Z.land encoding ZIP_INT_IMM_MASK - 1)
  else Some 0.

Definition zipEntry (m : bytes) (p : nat) : option zlentry :=
  '(prevrawlensize, prevrawlen) ← ZIP_DECODE_PREVLEN m p;
  '(encoding, lensize, len) ← ZIP_DECODE_LENGTH m (p + Z.to_nat prevrawlensize);
  Some (Zlentry prevrawlensize prevrawlen lensize len (prevrawlensize + lensize) encoding p).

(** ** Operations *)

Section Ops.

(** What the allocator leaves in new bytes. *)
Context (junk : nat -> Z).

Definition ziplistNew : option bytes :=
  let n := (ZIPLIST_HEADER_SIZE + 1)%nat in
  let zl := resize junk [] n in
  zl ← set_bytes zl (Z.of_nat n);
  zl ← set_tail_offset zl (Z.of_nat ZIPLIST_HEADER_SIZE);
  zl ← set_length zl 0;
  wrn zl (n - 1) [ZIP_END].

(** [len] is an [unsigned int]. *)
Definition ziplistResize (zl : bytes) (len : Z) : option bytes :=
  let len := u32 len in
  let zl := resize junk zl (Z.to_nat len) in
  zl ← set_bytes zl len;
  wrn zl (Z.to_nat (len - 1)) [ZIP_END].

(** The turns of the loop are bounded by the entries, hence by the bytes. *)
Fixpoint cascade_loop (n : nat) (zl : bytes) (p : nat) (curlen : Z) : option bytes :=
  c ← zl !! p;
  if c =? ZIP_END then Some zl
  else match n with
  | O => None
  | S n =>
    cur ← zipEntry zl p;
    let rawlen := headersize cur + len cur in
    let rawlensize := Z.of_nat (length (zipPrevEncodeLength rawlen)) in
    c ← zl !! (p + Z.to_nat rawlen)%nat;
    if c =? ZIP_END then Some zl
    else
      next ← zipEntry zl (p + Z.to_nat rawlen);
      if prevrawlen next =? rawlen then Some zl
      else if prevrawlensize next <? rawlensize then
        let extra := rawlensize - prevrawlensize next in
        zl ← ziplistResize zl (curlen + extra);
        let np := (p + Z.to_nat rawlen)%nat in
        let noffset := Z.of_nat np in
        tail ← ZIPLIST_ENTRY_TAIL zl;
        zl ← (if decide (tail = np) then Some zl
              else t ← ZIPLIST_TAIL_OFFSET zl; set_tail_offset zl (u32 (t + extra)));
        zl ← memmove zl (np + Z.to_nat rawlensize) (np + Z.to_nat (prevrawlensize next))
               (Z.to_nat (curlen - noffset - prevrawlensize next - 1));
        zl ← wrn zl np (zipPrevEncodeLength rawlen);
        cascade_loop n zl np (curlen + extra)
      else if prevrawlensize next >? rawlensize then
        wrn zl (p + Z.to_nat rawlen) (zipPrevEncodeLengthForceLarge rawlen)
      else wrn zl (p + Z.to_nat rawlen) (zipPrevEncodeLength rawlen)
  end.

Definition __ziplistCascadeUpdate (zl : bytes) (p : nat) : option bytes :=
  curlen ← ZIPLIST_BYTES zl;
  cascade_loop (length zl) zl p curlen.

(** The entries to delete: where they end and how many there are. *)
Fixpoint delete_span (num : nat) (zl : bytes) (p : nat) (deleted : Z) : option (nat * Z) :=
  c ← zl !! p;
  if c =? ZIP_END then Some (p, deleted)
  else match num with
  | O => Some (p, deleted)
  | S num =>
    l ← zipRawEntryLength zl p;
    delete_span num zl (p + Z.to_nat l) (deleted + 1)
  end.

Definition __ziplistDelete (zl : bytes) (p0 : nat) (num : nat) : option bytes :=
  first ← zipEntry zl p0;
  '(p, deleted) ← delete_span num zl p0 0;
  let totlen := Z.of_nat p - Z.of_nat p0 in
  if totlen >? 0 then
    c ← zl !! p;
    '(zl, nextdiff) ← (if negb (c =? ZIP_END) then
       nextdiff ← zipPrevLenByteDiff zl p (prevrawlen first);
       let p := Z.to_nat (Z.of_nat p - nextdiff) in
       zl ← wrn zl p (zipPrevEncodeLength (prevrawlen first));
       t ← ZIPLIST_TAIL_OFFSET zl;
       zl ← set_tail_offset zl (u32 (t - totlen));
       tail ← zipEntry zl p;
       c ← zl !! (p + Z.to_nat (headersize tail + len tail))%nat;
       zl ← (if negb (c =? ZIP_END) then
               t ← ZIPLIST_TAIL_OFFSET zl; set_tail_offset zl (u32 (t + nextdiff))
             else Some zl);
       b ← ZIPLIST_BYTES zl;
       zl ← memmove zl p0 p (Z.to_nat (b - Z.of_nat p - 1));
       Some (zl, nextdiff)
     else
       zl ← set_tail_offset zl (u32 (Z.of_nat p0 - prevrawlen first));
       Some (zl, 0));
    b ← ZIPLIST_BYTES zl;
    zl ← ziplistResize zl (b - totlen + nextdiff);
    zl ← ZIPLIST_INCR_LENGTH zl (- deleted);
    if negb (nextdiff =? 0) then __ziplistCascadeUpdate zl p0 else Some zl
  else Some zl.

(** The length of the entry before the position [p]. *)
Definition insert_prevlen (zl : bytes) (p : nat) : option Z :=
  c ← zl !! p;
  if negb (c =? ZIP_END) then
    '(_, prevlen) ← ZIP_DECODE_PREVLEN zl p; Some prevlen
  else
    ptail ← ZIPLIST_ENTRY_TAIL zl;
    c ← zl !! ptail;
    if negb (c =? ZIP_END) then zipRawEntryLength zl ptail else Some 0.

(** The second half of [__ziplistInsert]: writing the entry and counting it. *)
Definition insert_entry (zl : bytes) (p : nat) (prevlen encoding value : Z) (s : bytes)
  : option bytes :=
  zl ← wrn zl p (zipPrevEncodeLength prevlen);
  let p := (p + length (zipPrevEncodeLength prevlen))%nat in
  let slen := Z.of_nat (length s) in
  zl ← wrn zl p (zipEncodeLength encoding slen);
  let p := (p + length (zipEncodeLength encoding slen))%nat in
  zl ← wrn zl p (if ZIP_IS_STR encoding then s else zipSaveInteger value encoding);
  ZIPLIST_INCR_LENGTH zl 1.

Definition __ziplistInsert (zl : bytes) (p : nat) (s : bytes) : option bytes :=
  curlen ← ZIPLIST_BYTES zl;
  prevlen ← insert_prevlen zl p;
  let slen := Z.of_nat (length s) in
  let '(value, encoding, reqlen) :=
    match zipTryEncoding s with
    | Some (value, encoding) => (value, encoding, zipIntSize encoding)
    | None => (123456789, 0, slen)
    end in
  let reqlen := reqlen + Z.of_nat (length (zipPrevEncodeLength prevlen)) in
  let reqlen := reqlen + Z.of_nat (length (zipEncodeLength encoding slen)) in
  c ← zl !! p;
  nextdiff ← (if negb (c =? ZIP_END) then zipPrevLenByteDiff zl p reqlen else Some 0);
  let '(nextdiff, forcelarge) :=
    if (nextdiff =? -4) && (reqlen <? 4) then (0, true) else (nextdiff, false) in
  let offset := Z.of_nat p in
  zl ← ziplistResize zl (curlen + reqlen + nextdiff);
  c ← zl !! p;
  zl ← (if negb (c =? ZIP_END) then
     let q := (p + Z.to_nat reqlen)%nat in
     zl ← memmove zl q (Z.to_nat (Z.of_nat p - nextdiff))
            (Z.to_nat (curlen - offset - 1 + nextdiff));
     zl ← wrn zl q (if (forcelarge : bool) then zipPrevEncodeLengthForceLarge reqlen
                    else zipPrevEncodeLength reqlen);
     t ← ZIPLIST_TAIL_OFFSET zl;
     zl ← set_tail_offset zl (u32 (t + reqlen));
     tail ← zipEntry zl q;
     c ← zl !! (p + Z.to_nat (reqlen + headersize tail + len tail))%nat;
     if negb (c =? ZIP_END) then
       t ← ZIPLIST_TAIL_OFFSET zl; set_tail_offset zl (u32 (t + nextdiff))
     else Some zl
   else set_tail_offset zl (Z.of_nat p));
  zl ← (if negb (nextdiff =? 0) then __ziplistCascadeUpdate zl (p + Z.to_nat reqlen) else Some zl);
  insert_entry zl p prevlen encoding value s.

Inductive zl_where := ZIPLIST_HEAD | ZIPLIST_TAIL.

Definition ziplistPush (zl : bytes) (s : bytes) (where_ : zl_where) : option bytes :=
  p ← (match where_ with ZIPLIST_HEAD => Some ZIPLIST_ENTRY_HEAD | ZIPLIST_TAIL => ZIPLIST_ENTRY_END zl end);
  __ziplistInsert zl p s.

Definition ziplistInsert (zl : bytes) (p : nat) (s : bytes) : option bytes :=
  __ziplistInsert zl p s.

(** The list and the pointer to what follows the deleted entry. *)
Definition ziplistDelete (zl : bytes) (p : nat) : option (bytes * nat) :=
  zl ← __ziplistDelete zl p 1; Some (zl, p).

(** The merged list; the memory of one argument becomes the result and the
    other one is freed. *)
Definition ziplistMerge (first second : bytes) : option bytes :=
  first_bytes ← ZIPLIST_BYTES first;
  first_len ← ZIPLIST_LENGTH first;
  second_bytes ← ZIPLIST_BYTES second;
  second_len ← ZIPLIST_LENGTH second;
  let append := first_len >=? second_len in
  let zlbytes := first_bytes + second_bytes - Z.of_nat ZIPLIST_HEADER_SIZE - Z.of_nat ZIPLIST_END_SIZE in
  let zllength := first_len + second_len in
  let zllength := if zllength <? UINT16_MAX then zllength else UINT16_MAX in
  first_offset ← ZIPLIST_TAIL_OFFSET first;
  second_offset ← ZIPLIST_TAIL_OFFSET second;
  target ← (if append then
     let target := resize junk first (Z.to_nat zlbytes) in
     bs ← rdn second ZIPLIST_HEADER_SIZE (Z.to_nat second_bytes - ZIPLIST_HEADER_SIZE);
     wrn target (Z.to_nat first_bytes - ZIPLIST_END_SIZE) bs
   else
     let target := resize junk second (Z.to_nat zlbytes) in
     target ← memmove target (Z.to_nat first_bytes - ZIPLIST_END_SIZE) ZIPLIST_HEADER_SIZE
                (Z.to_nat second_bytes - ZIPLIST_HEADER_SIZE);
     bs ← rdn first 0 (Z.to_nat first_bytes - ZIPLIST_END_SIZE);
     wrn target 0 bs);
  target ← set_bytes target (u32 zlbytes);
  target ← set_length target (u16 zllength);
  target ← set_tail_offset target
    (u32 ((first_bytes - Z.of_nat ZIPLIST_END_SIZE) + (second_offset - Z.of_nat ZIPLIST_HEADER_SIZE)));
  __ziplistCascadeUpdate target (Z.to_nat first_offset).

End Ops.

(** ** Reading *)

(** The loops of [ziplistIndex]; both return the index that is left. *)
Fixpoint index_back (n : nat) (zl : bytes) (p : nat) (prevlen index : Z) : option (nat * Z) :=
  if prevlen >? 0 then
    if index =? 0 then Some (p, -1)
    else match n with
    | O => None
    | S n =>
      let p := (p - Z.to_nat prevlen)%nat in
      '(_, prevlen) ← ZIP_DECODE_PREVLEN zl p;
      index_back n zl p prevlen (index - 1)
    end
  else Some (p, index).

Fixpoint index_forward (n : nat) (zl : bytes) (p : nat) (index : Z) : option (nat * Z) :=
  c ← zl !! p;
  if negb (c =? ZIP_END) then
    if index =? 0 then Some (p, -1)
    else match n with
    | O => None
    | S n =>
      l ← zipRawEntryLength zl p;
      index_forward n zl (p + Z.to_nat l) (index - 1)
    end
  else Some (p, index).

(** [Some None] is the null pointer. *)
Definition ziplistIndex (zl : bytes) (index : Z) : option (option nat) :=
  '(p, index) ← (if index <? 0 then
     let index := (- index) - 1 in
     p ← ZIPLIST_ENTRY_TAIL zl;
     c ← zl !! p;
     if negb (c =? ZIP_END) then
       '(_, prevlen) ← ZIP_DECODE_PREVLEN zl p;
       index_back (length zl) zl p prevlen index
     else Some (p, index)
   else index_forward (length zl) zl ZIPLIST_ENTRY_HEAD index);
  c ← zl !! p;
  Some (if (c =? ZIP_END) || (index >? 0) then None else Some p).

Definition ziplistNext (zl : bytes) (p : nat) : option (option nat) :=
  c ← zl !! p;
  if c =? ZIP_END then Some None
  else
    l ← zipRawEntryLength zl p;
    let p := (p + Z.to_nat l)%nat in
    c ← zl !! p;
    Some (if c =? ZIP_END then None else Some p).

Definition ziplistPrev (zl : bytes) (p : nat) : option (option nat) :=
  c ← zl !! p;
  if c =? ZIP_END then
    p ← ZIPLIST_ENTRY_TAIL zl;
    c ← zl !! p;
    Some (if c =? ZIP_END then None else Some p)
  else if decide (p = ZIPLIST_ENTRY_HEAD) then Some None
  else '(_, prevlen) ← ZIP_DECODE_PREVLEN zl p; Some (Some (p - Z.to_nat prevlen)%nat).

(** What an entry holds: a string or an integer. *)
Inductive zl_value := VStr (s : bytes) | VInt (v : Z).

Definition ziplistGet (zl : bytes) (p : nat) : option (option zl_value) :=
  c ← zl !! p;
  if c =? ZIP_END then Some None
  else
    entry ← zipEntry zl p;
    let q := (p + Z.to_nat (headersize entry))%nat in
    if ZIP_IS_STR (encoding entry) then
      s ← rdn zl q (Z.to_nat (len entry)); Some (Some (VStr s))
    else v ← zipLoadInteger zl q (encoding entry); Some (Some (VInt v)).

Definition ziplistCompare (zl : bytes) (p : nat) (sstr : bytes) : option bool :=
  c ← zl !! p;
  if c =? ZIP_END then Some false
  else
    entry ← zipEntry zl p;
    let q := (p + Z.to_nat (headersize entry))%nat in
    if ZIP_IS_STR (encoding entry) then
      if len entry =? Z.of_nat (length sstr) then
        s ← rdn zl q (length sstr); Some (bool_decide (s = sstr))
      else Some false
    else
      match zipTryEncoding sstr with
      | Some (sval, _) => zval ← zipLoadInteger zl q (encoding entry); Some (zval =? sval)
      | None => Some false
      end.

Definition ziplistDeleteRange (junk : nat -> Z) (zl : bytes) (index : Z) (num : nat) : option bytes :=
  p ← ziplistIndex zl index;
  match p with None => Some zl | Some p => __ziplistDelete junk zl p num end.

(** The search: [vencoding] is zero until the string has been tried as an
    integer, and [UCHAR_MAX] when it is not one. *)
Fixpoint find_loop (n : nat) (zl : bytes) (p : nat) (vstr : bytes) (skip skipcnt vencoding vll : Z)
  : option (option nat) :=
  c ← zl !! p;
  if c =? ZIP_END then Some None
  else match n with
  | O => None
  | S n =>
    prevlensize ← ZIP_DECODE_PREVLENSIZE zl p;
    '(encoding, lensize, len) ← ZIP_DECODE_LENGTH zl (p + Z.to_nat prevlensize);
    let q := (p + Z.to_nat (prevlensize + lensize))%nat in
    let next := (q + Z.to_nat len)%nat in
    if skipcnt =? 0 then
      if ZIP_IS_STR encoding then
        same ← (if len =? Z.of_nat (length vstr) then
                  s ← rdn zl q (length vstr); Some (bool_decide (s = vstr)) else Some false);
        if (same : bool) then Some (Some p)
        else find_loop n zl next vstr skip skip vencoding vll
      else
        let '(vencoding, vll) :=
          if vencoding =? 0 then
            match zipTryEncoding vstr with Some (v, e) => (e, v) | None => (255, vll) end
          else (vencoding, vll) in
        same ← (if negb (vencoding =? 255) then
                  ll ← zipLoadInteger zl q encoding; Some (ll =? vll) else Some false);
        if (same : bool) then Some (Some p)
        else find_loop n zl next vstr skip skip vencoding vll
    else find_loop n zl next vstr skip (skipcnt - 1) vencoding vll
  end.

Definition ziplistFind (zl : bytes) (p : nat) (vstr : bytes) (skip : Z) : option (option nat) :=
  find_loop (length zl) zl p vstr skip 0 0 0.

Fixpoint count_loop (n : nat) (zl : bytes) (p : nat) (len : Z) : option Z :=
  c ← zl !! p;
  if c =? ZIP_END then Some len
  else match n with
  | O => None
  | S n => l ← zipRawEntryLength zl p; count_loop n zl (p + Z.to_nat l) (len + 1)
  end.

(** The length, stored again when it fits. *)
Definition ziplistLen (zl : bytes) : option (Z * bytes) :=
  l ← ZIPLIST_LENGTH zl;
  if l <? UINT16_MAX then Some (l, zl)
  else
    len ← count_loop (length zl) zl ZIPLIST_HEADER_SIZE 0;
    zl ← (if len <? UINT16_MAX then set_length zl len else Some zl);
    Some (len, zl).

Definition ziplistBlobLen (zl : bytes) : option Z := ZIPLIST_BYTES zl.

End Ziplist.
