(* ===== verification/ZiplistSpec.v ===== *)
(** * Compact lists refine lists of byte strings

    What an entry's bytes are as a function of the string it stores, the
    representation relation [zl_rep], and the specification of every operation
    of [Ziplist]: they stay inside the blob and do to the list of strings what
    they are meant to do. *)

From S2P Require Import Prelude Util Ziplist.
Import Util Ziplist.

Module ZiplistSpec.

(** ** The bytes of an entry *)

(** Encoding, length and contents of a string, which determine how it is
    stored. *)
Definition body (s : bytes) : bytes :=
  match zipTryEncoding s with
  | Some (v, e) => zipEncodeLength e (Z.of_nat (length s)) ++ zipSaveInteger v e
  | None => zipEncodeLength 0 (Z.of_nat (length s)) ++ s
  end.

(** An entry: whether the length of the entry before it is stored in the
    large form, which may be more than necessary, and the string. *)
Abbreviation entry := (bool * bytes)%type.

Definition psz (lg : bool) : nat := if lg then 5 else 1.

Definition prev_bytes (lg : bool) (prev : Z) : bytes :=
  if lg then zipPrevEncodeLengthForceLarge prev else [prev].

Definition elen (e : entry) : nat := psz e.1 + length (body e.2).

Definition ent (prev : Z) (e : entry) : bytes := prev_bytes e.1 prev ++ body e.2.

Fixpoint ents (prev : Z) (es : list entry) : bytes :=
  match es with
  | [] => []
  | e :: es => ent prev e ++ ents (Z.of_nat (elen e)) es
  end.

Definition str_ok (s : bytes) : Prop := Z.of_nat (length s) < 2 ^ 32.

Definition ent_ok (prev : Z) (e : entry) : Prop :=
  0 <= prev < 2 ^ 32 /\ (e.1 = false -> prev < ZIP_BIGLEN) /\ str_ok e.2.

Fixpoint wf_ents (prev : Z) (es : list entry) : Prop :=
  match es with
  | [] => True
  | e :: es => ent_ok prev e /\ wf_ents (Z.of_nat (elen e)) es
  end.

(** The offset of the last entry from the first one. *)
Fixpoint last_off (es : list entry) : nat :=
  match es with
  | [] | [_] => 0
  | e :: es => elen e + last_off es
  end.

(** The length of the entry before what follows [es]. *)
Fixpoint last_len (prev : Z) (es : list entry) : Z :=
  match es with
  | [] => prev
  | e :: es => last_len (Z.of_nat (elen e)) es
  end.

Definition strs (es : list entry) : list bytes := snd <$> es.

(** ** The blob *)

Definition hdr (total tail len : Z) : bytes := le_enc 4 total ++ le_enc 4 tail ++ le_enc 2 len.

Definition len_ok (lf : Z) (n : nat) : Prop :=
  0 <= lf <= UINT16_MAX /\ (lf < UINT16_MAX -> lf = Z.of_nat n).

Definition zl_ents (zl : bytes) (es : list entry) : Prop :=
  exists lf, zl = hdr (Z.of_nat (length zl)) (10 + Z.of_nat (last_off es)) lf
                  ++ ents 0 es ++ [ZIP_END] /\
  wf_ents 0 es /\ len_ok lf (length es) /\ Z.of_nat (length zl) < 2 ^ 32.

(** The blob [zl] holds the strings [xs]. *)
Definition zl_rep (zl : bytes) (xs : list bytes) : Prop :=
  exists es, zl_ents zl es /\ strs es = xs.

(** ** Lengths *)

Lemma cons_middle_app (P x : bytes) c : P ++ c :: x = (P ++ [c]) ++ x.
Proof. by rewrite <- app_assoc. Qed.

Lemma zipEncodeLength_length enc n : (1 <= length (zipEncodeLength enc n) <= 5)%nat.
Proof. unfold zipEncodeLength. repeat case_match; cbn; lia. Qed.

Lemma length_prev_bytes lg prev : length (prev_bytes lg prev) = psz lg.
Proof. destruct lg; done. Qed.

Lemma length_ent prev e : length (ent prev e) = elen e.
Proof. unfold ent, elen. by rewrite length_app, length_prev_bytes. Qed.

Lemma length_body_pos s : (1 <= length (body s))%nat.
Proof.
  unfold body. destruct (zipTryEncoding s) as [[v e]|]; rewrite length_app.
  - pose proof (zipEncodeLength_length e (Z.of_nat (length s))). lia.
  - pose proof (zipEncodeLength_length 0 (Z.of_nat (length s))). lia.
Qed.

Lemma psz_range lg : (1 <= psz lg <= 5)%nat.
Proof. destruct lg; cbn; lia. Qed.

Lemma elen_pos e : (2 <= elen e)%nat.
Proof. unfold elen. pose proof (psz_range e.1). pose proof (length_body_pos e.2). lia. Qed.

Lemma length_ents_prev prev prev' es : length (ents prev es) = length (ents prev' es).
Proof. destruct es; [done|]. cbn [ents]. by rewrite !length_app, !length_ent. Qed.

Lemma ents_app prev a b : ents prev (a ++ b) = ents prev a ++ ents (last_len prev a) b.
Proof.
  revert prev. induction a as [|e a IH]; intros prev; cbn [ents last_len app]; [done|].
  by rewrite IH, <- app_assoc.
Qed.

Lemma wf_ents_app prev a b :
  wf_ents prev (a ++ b) <-> wf_ents prev a /\ wf_ents (last_len prev a) b.
Proof.
  revert prev. induction a as [|e a IH]; intros prev; cbn [wf_ents last_len app]; [tauto|].
  rewrite IH. tauto.
Qed.

Lemma last_off_app prev a b :
  b <> [] -> last_off (a ++ b) = (length (ents prev a) + last_off b)%nat.
Proof.
  intros Hb. revert prev. induction a as [|e a IH]; intros prev; cbn [app ents]; [done|].
  rewrite length_app, length_ent.
  replace (last_off (e :: a ++ b)) with (elen e + last_off (a ++ b))%nat
    by (destruct (a ++ b) eqn:E; [by apply app_eq_nil in E as [_ ?]|done]).
  rewrite (IH (Z.of_nat (elen e))). lia.
Qed.

Lemma last_off_pos e f es : (0 < last_off (e :: f :: es))%nat.
Proof. cbn [last_off]. pose proof (elen_pos e). lia. Qed.

Lemma last_off_le prev es : (last_off es <= length (ents prev es))%nat.
Proof.
  revert prev. induction es as [|e [|f es] IH]; intros prev; [done|cbn; lia|].
  change (last_off (e :: f :: es)) with (elen e + last_off (f :: es))%nat.
  cbn [ents] in *. rewrite length_app, length_ent. specialize (IH (Z.of_nat (elen e))). lia.
Qed.

Lemma length_hdr t o l : length (hdr t o l) = 10%nat.
Proof. unfold hdr. by rewrite !length_app, !length_le_enc. Qed.

Lemma ents_size prev es : (2 * length es <= length (ents prev es))%nat.
Proof.
  revert prev. induction es as [|e es IH]; intros prev; cbn [ents length]; [lia|].
  rewrite length_app, length_ent. specialize (IH (Z.of_nat (elen e))). pose proof (elen_pos e). lia.
Qed.

(** ** Header fields *)

Section Header.
Context (t o l : Z) (x : bytes).
Implicit Types v : Z.

Lemma hdr_bytes : 0 <= t < 2 ^ 32 -> ZIPLIST_BYTES (hdr t o l ++ x) = Some t.
Proof.
  intros Ht. unfold ZIPLIST_BYTES, rd32, hdr. rewrite <- !app_assoc.
  rewrite rdn_app0 by (by rewrite length_le_enc). cbn [mbind option_bind].
  by rewrite le_dec_enc_small.
Qed.

Lemma hdr_tail : 0 <= o < 2 ^ 32 -> ZIPLIST_TAIL_OFFSET (hdr t o l ++ x) = Some o.
Proof.
  intros Ho. unfold ZIPLIST_TAIL_OFFSET, rd32, hdr. rewrite <- !app_assoc.
  rewrite rdn_app by (by rewrite length_le_enc). cbn [mbind option_bind].
  by rewrite le_dec_enc_small.
Qed.

Lemma hdr_length : 0 <= l < 2 ^ 16 -> ZIPLIST_LENGTH (hdr t o l ++ x) = Some l.
Proof.
  intros Hl. unfold ZIPLIST_LENGTH, rd16, hdr. rewrite <- !app_assoc.
  rewrite (app_assoc (le_enc 4 t)), rdn_app by (by rewrite ?length_app, !length_le_enc).
  cbn [mbind option_bind]. by rewrite le_dec_enc_small.
Qed.

Lemma hdr_set_bytes v : set_bytes (hdr t o l ++ x) v = Some (hdr v o l ++ x).
Proof.
  unfold set_bytes, wr32, hdr. rewrite <- !app_assoc.
  by rewrite wrn_app0 by (by rewrite !length_le_enc).
Qed.

Lemma hdr_set_tail v : set_tail_offset (hdr t o l ++ x) v = Some (hdr t v l ++ x).
Proof.
  unfold set_tail_offset, wr32, hdr. rewrite <- !app_assoc.
  by rewrite wrn_app by (by rewrite !length_le_enc).
Qed.

Lemma hdr_set_length v : set_length (hdr t o l ++ x) v = Some (hdr t o v ++ x).
Proof.
  unfold set_length, wr16, hdr. rewrite <- !app_assoc.
  rewrite (app_assoc (le_enc 4 t)), wrn_app by (by rewrite ?length_app, !length_le_enc).
  by rewrite <- !app_assoc.
Qed.

End Header.

Lemma hdr_incr t o l x n incr :
  len_ok l n -> 0 <= Z.of_nat n + incr < 2 ^ 31 ->
  (incr = 1 \/ incr <= 0) ->
  exists l', ZIPLIST_INCR_LENGTH (hdr t o l ++ x) incr = Some (hdr t o l' ++ x) /\
    len_ok l' (Z.to_nat (Z.of_nat n + incr)).
Proof.
  intros [Hl Hn] Hr Hi. unfold ZIPLIST_INCR_LENGTH, UINT16_MAX, len_ok, UINT16_MAX in *.
  rewrite hdr_length by lia. cbn [mbind option_bind]. destruct (Z.ltb_spec l 65535).
  - rewrite hdr_set_length. eexists. split; [done|]. rewrite Hn by lia. rewrite wrapu_small by ints. lia.
  - exists l. split; [done|]. lia.
Qed.

(** ** Decoding an entry *)

(** A boolean test of every integer of a range. *)
Lemma check_range (f : Z -> bool) lo n c :
  forallb f (seqZ lo n) = true -> lo <= c < lo + n -> f c = true.
Proof. intros H Hc. rewrite forallb_forall in H. apply H, list_elem_of_In, elem_of_seqZ. done. Qed.

Lemma u8_land n : u8 (Z.land n 255) = n mod 256.
Proof.
  rewrite (land_ones_mod n 8) by done. change (2 ^ 8) with 256. apply wrapu_small.
  pose proof (Z.mod_pos_bound n 256). unfold is_unsigned. change (2 ^ 8) with 256. lia.
Qed.

Lemma small_string_byte n :
  0 <= n <= 63 -> u8 (Z.lor ZIP_STR_06B n) = n /\ Z.land n 192 = 0 /\ Z.land n 63 = n.
Proof.
  intros Hn.
  pose proof (check_range (fun n => (u8 (Z.lor ZIP_STR_06B n) =? n) && (Z.land n 192 =? 0) && (Z.land n 63 =? n))
    0 64 n ltac:(by vm_compute) ltac:(lia)) as H.
  apply andb_true_iff in H as [[H1%Z.eqb_eq H2%Z.eqb_eq]%andb_true_iff H3%Z.eqb_eq]. done.
Qed.

Lemma mid_string_byte h :
  0 <= h <= 63 -> u8 (Z.lor ZIP_STR_14B h) = 64 + h /\ Z.land (64 + h) 192 = 64 /\
  Z.land (64 + h) 63 = h.
Proof.
  intros Hn.
  pose proof (check_range (fun n => (u8 (Z.lor ZIP_STR_14B n) =? 64 + n) && (Z.land (64 + n) 192 =? 64)
    && (Z.land (64 + n) 63 =? n)) 0 64 h ltac:(by vm_compute) ltac:(lia)) as H.
  apply andb_true_iff in H as [[H1%Z.eqb_eq H2%Z.eqb_eq]%andb_true_iff H3%Z.eqb_eq]. done.
Qed.

(** Four bytes, the most significant one first. *)
Lemma big_endian_32 n :
  0 <= n < 2 ^ 32 ->
  Z.lor (Z.lor (Z.lor (Z.shiftl (n / 2 ^ 24 mod 256) 24) (Z.shiftl (n / 2 ^ 16 mod 256) 16))
    (Z.shiftl (n / 2 ^ 8 mod 256) 8)) (n mod 256) = n.
Proof.
  intros Hn.
  replace (Z.shiftl (n / 2 ^ 24 mod 256) 24) with (Z.shiftl (Z.shiftl (n / 2 ^ 24 mod 256) 8) 16)
    by (by rewrite Z.shiftl_shiftl by lia).
  rewrite <- Z.shiftl_lor.
  rewrite (lor_shiftl_add (n / 2 ^ 24 mod 256) (n / 2 ^ 16 mod 256) 8) by (lia || (apply Z.mod_pos_bound; lia)).
  set (h := n / 2 ^ 24 mod 256 * 2 ^ 8 + n / 2 ^ 16 mod 256).
  replace (Z.shiftl h 16) with (Z.shiftl (Z.shiftl h 8) 8) by (by rewrite Z.shiftl_shiftl by lia).
  rewrite <- Z.shiftl_lor.
  rewrite (lor_shiftl_add h (n / 2 ^ 8 mod 256) 8) by (lia || (apply Z.mod_pos_bound; lia)).
  rewrite lor_shiftl_add by (lia || (apply Z.mod_pos_bound; lia)). unfold h.
  change (2 ^ 24) with 16777216 in *. change (2 ^ 16) with 65536 in *.
  change (2 ^ 8) with 256 in *. change (2 ^ 32) with 4294967296 in *.
  replace (n / 16777216) with (n / 256 / 256 / 256) by (rewrite !Z.div_div by lia; done).
  replace (n / 65536) with (n / 256 / 256) by (rewrite !Z.div_div by lia; done).
  pose proof (Z.div_mod n 256). pose proof (Z.div_mod (n / 256) 256).
  pose proof (Z.div_mod (n / 256 / 256) 256).
  rewrite (Z.mod_small (n / 256 / 256 / 256)) by (rewrite !Z.div_div by lia; dlia). lia.
Qed.

(** Reading the bytes just after a prefix. *)
Lemma lookup_shift (P x : bytes) k : (P ++ x) !! (length P + k)%nat = x !! k.
Proof. rewrite lookup_app_r by lia. f_equal. lia. Qed.

Lemma lookup_shift0 (P x : bytes) : (P ++ x) !! length P = x !! 0%nat.
Proof. by rewrite <- (lookup_shift P x 0), Nat.add_0_r. Qed.

(** The part of the header that gives the length of a string. *)
Lemma decode_string_length P n Q :
  0 <= n < 2 ^ 32 ->
  exists enc, ZIP_DECODE_LENGTH (P ++ zipEncodeLength 0 n ++ Q) (length P)
    = Some (enc, Z.of_nat (length (zipEncodeLength 0 n)), n) /\ ZIP_IS_STR enc = true.
Proof.
  intros Hn. unfold ZIP_DECODE_LENGTH, ZIP_ENTRY_ENCODING, zipEncodeLength.
  change (ZIP_IS_STR 0) with true. cbn iota.
  destruct (Z.leb_spec n 63); [|destruct (Z.leb_spec n 16383)].
  - destruct (small_string_byte n) as (-> & H1 & H2); [lia|].
    rewrite !lookup_shift0. cbn [app lookup list_lookup mbind option_bind].
    unfold ZIP_STR_MASK. rewrite (proj2 (Z.ltb_lt n 192)) by lia. rewrite H1. cbn [Z.ltb Z.compare].
    rewrite H2. exists 0. done.
  - rewrite !shiftr_div by lia. change (2 ^ 8) with 256.
    rewrite (land_ones_mod (n / 256) 6), u8_land by done. change (2 ^ 6) with 64.
    rewrite (Z.mod_small (n / 256)) by dlia.
    destruct (mid_string_byte (n / 256)) as (-> & H1 & H2); [dlia|].
    rewrite !lookup_shift0, !lookup_shift. cbn [app lookup list_lookup mbind option_bind].
    unfold ZIP_STR_MASK. rewrite (proj2 (Z.ltb_lt (64 + n / 256) 192)) by dlia. rewrite H1.
    change (64 <? 192) with true. change (64 =? ZIP_STR_06B) with false. change (64 =? ZIP_STR_14B) with true.
    cbn iota. rewrite H2, lor_shiftl_add; [|lia|change (2 ^ 8) with 256; dlia].
    exists 64. split; [|done]. do 2 f_equal. change (2 ^ 8) with 256. dlia.
  - rewrite !u8_land, !shiftr_div by lia.
    rewrite !lookup_shift0, !lookup_shift. cbn [app lookup list_lookup mbind option_bind].
    change (ZIP_STR_32B <? ZIP_STR_MASK) with true. cbn iota.
    change (Z.land ZIP_STR_32B ZIP_STR_MASK) with 128. change (128 <? ZIP_STR_MASK) with true.
    change (128 =? ZIP_STR_06B) with false. change (128 =? ZIP_STR_14B) with false.
    change (128 =? ZIP_STR_32B) with true. cbn iota.
    rewrite big_endian_32, wrapu_small by done. by exists 128.
Qed.

(** The integer encodings. *)
Definition is_int_enc (e : Z) : Prop := 192 <= e < 255 /\ ZIP_IS_STR e = false.

Lemma wrap_load w n v :
  w = 8 * Z.of_nat n -> (0 < n)%nat -> is_signed w v -> wraps w (le_dec (le_enc n v)) = v.
Proof.
  intros -> Hn Hv. rewrite le_dec_enc.
  replace (256 ^ Z.of_nat n) with (2 ^ (8 * Z.of_nat n)) by (rewrite Z.pow_mul_r by lia; done).
  change (v mod 2 ^ (8 * Z.of_nat n)) with (wrapu (8 * Z.of_nat n) v).
  rewrite wraps_wrapu by lia. apply wraps_small; [lia|done].
Qed.

(** Twenty-four bits travel in the upper part of a 32 bit integer. *)
Lemma save_24 v : drop 1 (le_enc 4 (Z.shiftl v 8)) = le_enc 3 v.
Proof.
  rewrite Z.shiftl_mul_pow2 by lia. change (2 ^ 8) with 256.
  cbn [le_enc drop]. rewrite !Z.div_mul by lia. done.
Qed.

Lemma load_24 v :
  INT24_MIN <= v <= INT24_MAX -> Z.shiftr (wraps 32 (le_dec (0 :: le_enc 3 v))) 8 = v.
Proof.
  unfold INT24_MIN, INT24_MAX. intros Hv. cbn [le_dec]. rewrite le_dec_enc.
  change (256 ^ Z.of_nat 3) with 16777216. rewrite shiftr_div by lia. change (2 ^ 8) with 256.
  unfold wraps. change (2 ^ (32 - 1)) with 2147483648. change (2 ^ 32) with 4294967296. dlia.
Qed.

Lemma imm_byte v :
  0 <= v <= 12 -> let e := u8 (ZIP_INT_IMM_MIN + v) in
  e = 241 + v /\ is_int_enc e /\ zipIntSize e = 0 /\ zipSaveInteger v e = [] /\
  (forall m p, zipLoadInteger m p e = Some v).
Proof.
  intros Hv. cbn zeta. unfold ZIP_INT_IMM_MIN. rewrite wrapu_small by ints.
  assert (v = 0 \/ v = 1 \/ v = 2 \/ v = 3 \/ v = 4 \/ v = 5 \/ v = 6 \/ v = 7 \/ v = 8 \/ v = 9 \/
    v = 10 \/ v = 11 \/ v = 12) as Hc by lia.
  repeat (destruct Hc as [-> | Hc]; [by vm_compute|]). subst. by vm_compute.
Qed.

(** Storing an integer in its smallest encoding and loading it back. *)
Lemma integer_encoding v :
  is_llong v -> let e := zipIntEncoding v in
  is_int_enc e /\ zipIntSize e = Z.of_nat (length (zipSaveInteger v e)) /\
  forall P Q, zipLoadInteger (P ++ zipSaveInteger v e ++ Q) (length P) e = Some v.
Proof.
  intros Hv. cbn zeta. unfold zipIntEncoding.
  destruct ((0 <=? v) && (v <=? 12)) eqn:E0.
  { destruct (imm_byte v) as (_ & H1 & H2 & H3 & H4); [lia|].
    split_and!; [done|by rewrite H3|intros; apply H4]. }
  destruct ((- 128 <=? v) && (v <=? 127)) eqn:E1.
  { split_and!; [by vm_compute|done|]. intros P Q. cbn [zipLoadInteger zipSaveInteger].
    change (zipSaveInteger v ZIP_INT_8B) with (le_enc 1 v).
    change (zipLoadInteger ?m ?p ZIP_INT_8B) with (bs ← rdn m p 1; Some (wraps 8 (le_dec bs))).
    rewrite rdn_app by (by rewrite ?length_le_enc). cbn [mbind option_bind].
    rewrite wrap_load; [done|done|lia|]. unfold is_signed. change (2 ^ (8 - 1)) with 128. lia. }
  destruct ((- 32768 <=? v) && (v <=? 32767)) eqn:E2.
  { split_and!; [by vm_compute|done|]. intros P Q.
    change (zipSaveInteger v ZIP_INT_16B) with (le_enc 2 v).
    change (zipLoadInteger ?m ?p ZIP_INT_16B) with (bs ← rdn m p 2; Some (wraps 16 (le_dec bs))).
    rewrite rdn_app by (by rewrite ?length_le_enc). cbn [mbind option_bind].
    rewrite wrap_load; [done|done|lia|]. unfold is_signed. change (2 ^ (16 - 1)) with 32768. lia. }
  destruct ((INT24_MIN <=? v) && (v <=? INT24_MAX)) eqn:E3.
  { split_and!; [by vm_compute|done|]. intros P Q.
    change (zipSaveInteger v ZIP_INT_24B) with (drop 1 (le_enc 4 (Z.shiftl v 8))). rewrite save_24.
    change (zipLoadInteger ?m ?p ZIP_INT_24B)
      with (bs ← rdn m p 3; Some (Z.shiftr (wraps 32 (le_dec (0 :: bs))) 8)).
    rewrite rdn_app by (by rewrite ?length_le_enc). cbn [mbind option_bind].
    rewrite load_24 by lia. done. }
  destruct ((- 2 ^ 31 <=? v) && (v <=? 2 ^ 31 - 1)) eqn:E4.
  { split_and!; [by vm_compute|done|]. intros P Q.
    change (zipSaveInteger v ZIP_INT_32B) with (le_enc 4 v).
    change (zipLoadInteger ?m ?p ZIP_INT_32B) with (bs ← rdn m p 4; Some (wraps 32 (le_dec bs))).
    rewrite rdn_app by (by rewrite ?length_le_enc). cbn [mbind option_bind].
    rewrite wrap_load; [done|done|lia|]. ints. }
  split_and!; [by vm_compute|done|]. intros P Q.
  change (zipSaveInteger v ZIP_INT_64B) with (le_enc 8 v).
  change (zipLoadInteger ?m ?p ZIP_INT_64B) with (bs ← rdn m p 8; Some (wraps 64 (le_dec bs))).
  rewrite rdn_app by (by rewrite ?length_le_enc). cbn [mbind option_bind].
  rewrite wrap_load; [done|done|lia|done].
Qed.

Lemma decode_int_length P e Q :
  is_int_enc e -> ZIP_DECODE_LENGTH (P ++ [e] ++ Q) (length P) = Some (e, 1, zipIntSize e).
Proof.
  intros [He _]. unfold ZIP_DECODE_LENGTH, ZIP_ENTRY_ENCODING, ZIP_STR_MASK.
  rewrite !lookup_shift0. cbn [app lookup list_lookup mbind option_bind].
  rewrite (proj2 (Z.ltb_ge e 192)) by lia. cbn iota. by rewrite (proj2 (Z.ltb_ge e 192)) by lia.
Qed.

(** How the contents of an entry read: the size of its length field, its
    length, and the string or the integer. *)
Definition reads_body (m : bytes) (p : nat) (s : bytes) (enc lsz l : Z) : Prop :=
  ZIP_DECODE_LENGTH m p = Some (enc, lsz, l) /\ 0 <= lsz /\ 0 <= l /\
  lsz + l = Z.of_nat (length (body s)) /\
  match zipTryEncoding s with
  | Some (v, _) => ZIP_IS_STR enc = false /\ zipLoadInteger m (p + Z.to_nat lsz) enc = Some v
  | None => ZIP_IS_STR enc = true /\ l = Z.of_nat (length s) /\
            rdn m (p + Z.to_nat lsz) (length s) = Some s
  end.

Lemma zipTryEncoding_Some s v e :
  zipTryEncoding s = Some (v, e) -> is_llong v /\ s = decimal v /\ e = zipIntEncoding v.
Proof.
  unfold zipTryEncoding. case_match; [done|].
  destruct (string2ll s) as [w|] eqn:E; [|done]. cbn. intros [= -> <-].
  apply string2ll_spec in E. tauto.
Qed.

Lemma decode_body P s Q :
  str_ok s -> exists enc lsz l, reads_body (P ++ body s ++ Q) (length P) s enc lsz l.
Proof.
  intros Hs. unfold reads_body, body. destruct (zipTryEncoding s) as [[v e]|] eqn:E.
  - apply zipTryEncoding_Some in E as (Hv & _ & ->).
    destruct (integer_encoding v Hv) as (He & Hsz & Hload).
    assert (zipEncodeLength (zipIntEncoding v) (Z.of_nat (length s)) = [zipIntEncoding v]) as ->.
    { unfold zipEncodeLength. destruct He as [_ ->]. done. }
    rewrite <- app_assoc, decode_int_length by done.
    eexists _, _, _. split_and!; [done|lia|lia|rewrite length_app; cbn [length]; lia|by destruct He|].
    specialize (Hload (P ++ [zipIntEncoding v]) Q). rewrite length_app in Hload.
    rewrite <- app_assoc in Hload. exact Hload.
  - rewrite <- app_assoc.
    destruct (decode_string_length P (Z.of_nat (length s)) (s ++ Q)) as (enc & -> & Hstr);
      [unfold str_ok in Hs; lia|].
    eexists _, _, _. split_and!; [done|lia|lia|rewrite length_app; lia|done|done|].
    rewrite Nat2Z.id, (app_assoc P), rdn_app; [done|by rewrite length_app|done].
Qed.

(** ** Reading an entry in place *)

Lemma ent_first prev e x :
  ent_ok prev e ->
  exists c, (ent prev e ++ x) !! 0%nat = Some c /\ (c =? ZIP_END) = false /\
    (c <? ZIP_BIGLEN) = negb e.1 /\ (e.1 = false -> c = prev).
Proof.
  intros (Hp & Hlg & _). unfold ent, prev_bytes, ZIP_END, ZIP_BIGLEN in *.
  destruct e as [[|] s]; cbn [fst snd] in *.
  - by exists 254.
  - specialize (Hlg eq_refl). exists prev. split_and!; [done| | |done].
    + apply Z.eqb_neq. lia.
    + by apply Z.ltb_lt.
Qed.

Lemma ent_head m P prev e x :
  m = P ++ ent prev e ++ x -> ent_ok prev e ->
  exists c, m !! length P = Some c /\ (c =? ZIP_END) = false.
Proof.
  intros -> H. destruct (ent_first prev e x H) as (c & Hc & Hn & _).
  exists c. by rewrite lookup_shift0.
Qed.

(** Read the first byte of an entry: it is not the closing byte. *)
Ltac at_entry H :=
  let c := fresh "c" in let E1 := fresh "E" in let E2 := fresh "E" in
  destruct H as (c & E1 & E2); rewrite E1; cbn [mbind option_bind]; rewrite E2;
  clear c E1 E2; cbn iota.

Lemma decode_prevlensize m P prev e x :
  m = P ++ ent prev e ++ x -> ent_ok prev e ->
  ZIP_DECODE_PREVLENSIZE m (length P) = Some (Z.of_nat (psz e.1)).
Proof.
  intros -> H. destruct (ent_first prev e x H) as (c & Hc & _ & Hb & _).
  unfold ZIP_DECODE_PREVLENSIZE. rewrite lookup_shift0, Hc. cbn [mbind option_bind].
  rewrite Hb. by destruct e as [[|] ?].
Qed.

Lemma decode_prevlen m P prev e x :
  m = P ++ ent prev e ++ x -> ent_ok prev e ->
  ZIP_DECODE_PREVLEN m (length P) = Some (Z.of_nat (psz e.1), prev).
Proof.
  intros Hm H. unfold ZIP_DECODE_PREVLEN. rewrite (decode_prevlensize m P prev e x) by done.
  cbn [mbind option_bind]. pose proof H as (Hp & _ & _). destruct e as [[|] s]; cbn [fst psz].
  - change (Z.of_nat 5 =? 1) with false. cbn iota. unfold rd32. rewrite Hm.
    unfold ent, prev_bytes, zipPrevEncodeLengthForceLarge. cbn [fst snd].
    rewrite <- app_assoc. cbn [app]. rewrite (cons_middle_app P), (rdn_app (P ++ [ZIP_BIGLEN]) (le_enc 4 prev)).
    + cbn [mbind option_bind]. by rewrite le_dec_enc_small.
    + rewrite length_app. done.
    + by rewrite length_le_enc.
  - change (Z.of_nat 1 =? 1) with true. cbn iota.
    destruct (ent_first prev (false, s) x H) as (c & Hc & _ & _ & Hcp).
    rewrite Hm, lookup_shift0, Hc, Hcp by done. done.
Qed.

Lemma decode_ent m P prev e x :
  m = P ++ ent prev e ++ x -> ent_ok prev e ->
  exists enc lsz l, reads_body m (length P + psz e.1) e.2 enc lsz l.
Proof.
  intros -> (_ & _ & Hs). unfold ent. rewrite <- app_assoc, app_assoc.
  rewrite <- (length_prev_bytes e.1 prev), <- length_app. by apply decode_body.
Qed.

Lemma zipEntry_spec m P prev e x :
  m = P ++ ent prev e ++ x -> ent_ok prev e ->
  exists ze, zipEntry m (length P) = Some ze /\
    prevrawlensize ze = Z.of_nat (psz e.1) /\ prevrawlen ze = prev /\
    headersize ze + len ze = Z.of_nat (elen e) /\ headersize ze = prevrawlensize ze + lensize ze /\
    reads_body m (length P + psz e.1) e.2 (encoding ze) (lensize ze) (len ze).
Proof.
  intros Hm H. unfold zipEntry. rewrite (decode_prevlen m P prev e x) by done.
  cbn [mbind option_bind]. rewrite Nat2Z.id.
  destruct (decode_ent m P prev e x Hm H) as (enc & lsz & l & Hr).
  pose proof Hr as (-> & H1 & H2 & H3 & _). cbn [mbind option_bind].
  eexists. split; [done|]. cbn [prevrawlensize prevrawlen headersize len lensize encoding].
  split_and!; [done|done|unfold elen; lia|done|exact Hr].
Qed.

Lemma zipRawEntryLength_spec m P prev e x :
  m = P ++ ent prev e ++ x -> ent_ok prev e -> Z.of_nat (elen e) < 2 ^ 32 ->
  zipRawEntryLength m (length P) = Some (Z.of_nat (elen e)).
Proof.
  intros Hm H He. unfold zipRawEntryLength. rewrite (decode_prevlensize m P prev e x) by done.
  cbn [mbind option_bind]. rewrite Nat2Z.id.
  destruct (decode_ent m P prev e x Hm H) as (enc & lsz & l & (-> & H1 & H2 & H3 & _)).
  cbn [mbind option_bind]. unfold elen in *. rewrite wrapu_small by ints. f_equal. lia.
Qed.

(** ** Resizing *)

Section Proofs.
Context (junk : nat -> Z).

(** Growing (or keeping the size): the closing byte stays where it was and
    there is one at the new end. *)
Lemma ziplistResize_grow t o l x L :
  Z.of_nat (11 + length x) <= L < 2 ^ 32 ->
  exists g, ziplistResize junk (hdr t o l ++ x ++ [ZIP_END]) L
      = Some (hdr L o l ++ x ++ ZIP_END :: g) /\
    Z.of_nat (11 + length x + length g) = L /\ exists g', ZIP_END :: g = g' ++ [ZIP_END].
Proof.
  intros HL. unfold ziplistResize. rewrite wrapu_small by ints.
  destruct (resize_grow junk (hdr t o l ++ x ++ [ZIP_END]) (Z.to_nat L)) as (g & -> & Hg).
  { rewrite !length_app, length_hdr. cbn. lia. }
  rewrite !length_app, length_hdr in Hg. cbn [length] in Hg.
  rewrite <- !app_assoc. rewrite hdr_set_bytes. cbn [mbind option_bind app].
  assert (exists g1 z, ZIP_END :: g = g1 ++ [z]) as (g1 & z & E).
  { destruct (exists_last (l := ZIP_END :: g)) as (g1 & z & E); [done|by exists g1, z]. }
  assert (length g1 = length g) as Hg1.
  { apply (f_equal length) in E. rewrite length_app in E. cbn in E. lia. }
  rewrite E. replace (hdr L o l ++ x ++ g1 ++ [z]) with ((hdr L o l ++ x ++ g1) ++ [z] ++ [])
    by (by rewrite app_nil_r, <- !app_assoc).
  rewrite wrn_app by (rewrite ?length_app, ?length_hdr; cbn; lia).
  rewrite app_nil_r, <- !app_assoc.
  destruct g1 as [|y g1].
  - exists []. split; [done|]. split; [destruct g; [|done]; cbn in *; lia|]. by exists [].
  - injection E as <- ->. exists (g1 ++ [ZIP_END]). split; [done|].
    split; [rewrite length_app in *; cbn in *; lia|]. by exists (ZIP_END :: g1).
Qed.

(** Shrinking to a prefix. *)
Lemma ziplistResize_shrink t o l x z L :
  z <> [] -> L = Z.of_nat (11 + length x) -> L < 2 ^ 32 ->
  ziplistResize junk (hdr t o l ++ x ++ z) L = Some (hdr L o l ++ x ++ [ZIP_END]).
Proof.
  intros Hz HL Hlt. unfold ziplistResize. rewrite wrapu_small by ints.
  destruct z as [|c z]; [done|].
  replace (hdr t o l ++ x ++ c :: z) with ((hdr t o l ++ x ++ [c]) ++ z)
    by (rewrite <- !app_assoc; done).
  rewrite resize_shrink by (rewrite !length_app, length_hdr; cbn; lia).
  rewrite hdr_set_bytes. cbn [mbind option_bind].
  rewrite (app_assoc (hdr L o l)), <- (app_nil_r [c]), wrn_app by (rewrite ?length_app, ?length_hdr; cbn; lia).
  by rewrite app_nil_r, <- app_assoc.
Qed.

(** ** Cascading updates *)

Lemma elen_large s : elen (true, s) = (elen (false, s) + 4)%nat.
Proof. unfold elen. cbn. lia. Qed.

Lemma prev_len_size r : length (zipPrevEncodeLength r) = if r <? ZIP_BIGLEN then 1%nat else 5%nat.
Proof. unfold zipPrevEncodeLength. by destruct (r <? ZIP_BIGLEN). Qed.

Lemma prev_bytes_exact lg r :
  (r <? ZIP_BIGLEN) = negb lg -> zipPrevEncodeLength r = prev_bytes lg r.
Proof. unfold zipPrevEncodeLength. intros ->. by destruct lg. Qed.

(** Moving the entries after a prefix that grows by four bytes. *)
Lemma cascade_move L o l A e0 stale s r es g tl :
  ZIP_END :: g = tl ++ [ZIP_END] -> length g = 4%nat ->
  memmove (hdr L o l ++ A ++ e0 ++ ent stale (false, s) ++ ents r es ++ ZIP_END :: g)
    (10 + length A + length e0 + 5) (10 + length A + length e0 + 1)
    (length (body s ++ ents r es))
  = Some (hdr L o l ++ A ++ e0 ++
      take 5 (ent stale (false, s) ++ ents r es ++ ZIP_END :: g) ++ body s ++ ents r es ++ [ZIP_END]).
Proof.
  intros E Hg. unfold ent. cbn [fst snd prev_bytes].
  set (B := body s ++ ents r es).
  replace (([stale] ++ body s) ++ ents r es ++ ZIP_END :: g) with (stale :: B ++ ZIP_END :: g)
    by (unfold B; cbn [app]; by rewrite <- app_assoc).
  destruct (list_split3 (stale :: B ++ ZIP_END :: g) 5 (length B)) as (a & d & z & Ez & Ha & Hd).
  { cbn [length]. rewrite length_app. cbn. lia. }
  assert (z = [ZIP_END]) as ->.
  { pose proof Ez as El. apply (f_equal length) in El. cbn [length] in El. rewrite !length_app in El.
    cbn [length] in El. rewrite E in Ez.
    assert (exists y, z = [y]) as (y & ->). { destruct z as [|y [|]]; cbn [length] in El; try lia. by exists y. }
    rewrite app_assoc, !app_comm_cons, app_assoc in Ez. by apply app_inj_2 in Ez as [_ ?]. }
  rewrite Ez, take_app_len by done.
  rewrite (memmove_app _ (hdr L o l ++ A ++ e0 ++ [stale]) B (ZIP_END :: g) (hdr L o l ++ A ++ e0 ++ a) d [ZIP_END]).
  - unfold B. by rewrite <- !app_assoc.
  - rewrite <- Ez. rewrite <- !app_assoc. done.
  - by rewrite <- !app_assoc.
  - rewrite !length_app, length_hdr. cbn. lia.
  - done.
  - rewrite !length_app, length_hdr. lia.
  - done.
Qed.

Lemma cascade_spec n : forall t o l A prev0 e stale rest,
  t = Z.of_nat (11 + length A + elen e + length (ents stale rest)) ->
  o = Z.of_nat (10 + length A + last_off (e :: rest)) ->
  t + 4 * Z.of_nat (length rest) < 2 ^ 32 -> 0 <= l < 2 ^ 16 ->
  ent_ok prev0 e -> wf_ents stale rest -> (length rest < n)%nat ->
  exists rest' t' o',
    cascade_loop junk n (hdr t o l ++ A ++ ent prev0 e ++ ents stale rest ++ [ZIP_END])
      (10 + length A) t
    = Some (hdr t' o' l ++ A ++ ent prev0 e ++ ents (Z.of_nat (elen e)) rest' ++ [ZIP_END]) /\
    wf_ents (Z.of_nat (elen e)) rest' /\ strs rest' = strs rest /\
    t' = Z.of_nat (11 + length A + elen e + length (ents (Z.of_nat (elen e)) rest')) /\
    t' < 2 ^ 32 /\ t <= t' /\ o' = Z.of_nat (10 + length A + last_off (e :: rest')).
Proof.
  induction n as [|n IH]; intros t o l A prev0 e stale rest Ht Ho Hlim Hl He Hwf Hn; [lia|].
  remember (hdr t o l ++ A ++ ent prev0 e ++ ents stale rest ++ [ZIP_END]) as m eqn:Hm0.
  assert (m = (hdr t o l ++ A) ++ ent prev0 e ++ ents stale rest ++ [ZIP_END]) as Hm
    by (by rewrite Hm0, <- app_assoc).
  assert (length (hdr t o l ++ A) = 10 + length A)%nat as HP by (by rewrite length_app, length_hdr).
  cbn [cascade_loop]. rewrite <- HP.
  at_entry (ent_head m _ prev0 e _ Hm He).
  destruct (zipEntry_spec m _ prev0 e _ Hm He) as (ze & -> & _ & _ & Hsz & _). cbn [mbind option_bind].
  rewrite Hsz, Nat2Z.id.
  set (P2 := (hdr t o l ++ A) ++ ent prev0 e).
  assert (length P2 = length (hdr t o l ++ A) + elen e)%nat as HP2 by (unfold P2; by rewrite length_app, length_ent).
  assert (m = P2 ++ ents stale rest ++ [ZIP_END]) as Hm2 by (unfold P2; by rewrite Hm, <- !app_assoc).
  rewrite <- HP2. destruct rest as [|[lg s] rest].
  { assert (m !! length P2 = Some ZIP_END) as -> by (by rewrite Hm2, lookup_shift0).
    cbn [mbind option_bind]. change (ZIP_END =? ZIP_END) with true. cbn iota.
    exists [], t, o. split_and!; first [by rewrite Hm0|done|cbn [ents length] in *; lia]. }
  cbn [wf_ents] in Hwf. destruct Hwf as [Hn2 Hwf].
  cbn [ents] in Hm2. rewrite <- app_assoc in Hm2.
  at_entry (ent_head m _ stale (lg, s) _ Hm2 Hn2).
  destruct (zipEntry_spec m _ stale (lg, s) _ Hm2 Hn2) as (ze2 & -> & Hps & Hpl & _).
  cbn [mbind option_bind]. rewrite Hpl, Hps. cbn [fst].
  set (r := Z.of_nat (elen e)).
  cbn [ents length] in Ht, Hlim. rewrite length_app, length_ent in Ht.
  destruct (Z.eqb_spec stale r) as [->|Hne].
  { exists ((lg, s) :: rest), t, o.
    split_and!; first [by rewrite Hm0|done|cbn [ents]; rewrite length_app, length_ent; lia|lia]. }
  rewrite prev_len_size.
  assert (ent_ok r (lg, s) <-> (lg = false -> r < ZIP_BIGLEN)) as Hok.
  { unfold ent_ok. cbn [fst snd]. destruct Hn2 as (_ & _ & Hs).
    split; [tauto|]. intros H. split_and!; [lia|lia|done|done]. }
  destruct (Z.ltb_spec (Z.of_nat (psz lg)) (Z.of_nat (if r <? ZIP_BIGLEN then 1 else 5))) as [Hlt|Hge].
  - (* the next entry grows *)
    assert (lg = false /\ (r <? ZIP_BIGLEN) = false) as [-> Hr].
    { destruct lg, (r <? ZIP_BIGLEN); cbn in Hlt; try lia. }
    rewrite Hr. cbn [psz]. change (Z.of_nat 5 - Z.of_nat 1) with 4.
    assert (m = hdr t o l ++ ((A ++ ent prev0 e) ++ ents stale ((false, s) :: rest)) ++ [ZIP_END]) as ->
      by (by rewrite Hm0, <- !app_assoc).
    destruct (ziplistResize_grow t o l ((A ++ ent prev0 e) ++ ents stale ((false, s) :: rest)) (t + 4))
      as (g & -> & Hgl & tl & Htl).
    { cbn [ents]. rewrite !length_app, !length_ent. cbn [elen fst snd] in *. lia. }
    cbn [mbind option_bind]. rewrite !length_app, !length_ent in Hgl. cbn [ents] in Hgl.
    rewrite length_app, length_ent in Hgl.
    rewrite <- !app_assoc. unfold ZIPLIST_ENTRY_TAIL.
    pose proof (last_off_le prev0 (e :: (false, s) :: rest)) as Hlo.
    cbn [ents] in Hlo. rewrite !length_app, !length_ent in Hlo.
    rewrite hdr_tail by lia. cbn [mbind option_bind].
    assert (exists o', (if decide (Z.to_nat o = length P2)
        then Some (hdr (t + 4) o l ++ A ++ ent prev0 e ++ ents stale ((false, s) :: rest) ++ ZIP_END :: g)
        else set_tail_offset (hdr (t + 4) o l ++ A ++ ent prev0 e ++ ents stale ((false, s) :: rest) ++ ZIP_END :: g) (u32 (o + 4)))
        = Some (hdr (t + 4) o' l ++ A ++ ent prev0 e ++ ents stale ((false, s) :: rest) ++ ZIP_END :: g) /\
        o' = Z.of_nat (10 + length A + elen e + last_off ((true, s) :: rest)))
      as (o' & -> & Ho').
    { destruct (decide (Z.to_nat o = length P2)) as [E|E]; rewrite HP2, HP in E; subst o.
      - exists (Z.of_nat (10 + length A + last_off (e :: (false, s) :: rest))). split; [done|].
        cbn [last_off] in *. destruct rest as [|f rest]; [lia|].
        pose proof (last_off_pos (false, s) f rest). cbn [last_off] in *. lia.
      - rewrite hdr_set_tail. eexists. split; [done|]. cbn [last_off] in *.
        destruct rest as [|f rest]; [lia|]. rewrite elen_large. rewrite wrapu_small by ints. lia. }
    cbn [mbind option_bind]. cbn [ents]. rewrite <- !app_assoc.
    assert (length g = 4%nat) as Hg4.
    { cbn [elen fst snd] in *. lia. }
    rewrite HP2, HP. rewrite Nat2Z.id.
    replace (Z.to_nat (t - Z.of_nat (10 + length A + elen e) - Z.of_nat 1 - 1))
      with (length (body s ++ ents (Z.of_nat (elen (false, s))) rest)).
    2: { rewrite length_app. cbn [elen fst snd psz] in *. unfold elen in *. cbn [fst snd psz] in *.
         lia. }
    replace (10 + length A + elen e)%nat with (10 + length A + length (ent prev0 e))%nat by (by rewrite length_ent).
    change (Z.to_nat (Z.of_nat 5)) with 5%nat. change (Z.to_nat (Z.of_nat 1)) with 1%nat.
    erewrite cascade_move by done. cbn [mbind option_bind].
    set (J := take 5 _).
    assert (length J = 5%nat) as HJ.
    { unfold J. rewrite length_take, !length_app. cbn [length]. lia. }
    replace (10 + length A + length (ent prev0 e))%nat with (length (hdr (t + 4) o' l ++ A ++ ent prev0 e))
      by (rewrite !length_app, length_hdr; lia).
    replace (hdr (t + 4) o' l ++ A ++ ent prev0 e ++ J ++ body s ++ ents (Z.of_nat (elen (false, s))) rest ++ [ZIP_END])
      with ((hdr (t + 4) o' l ++ A ++ ent prev0 e) ++ J ++ (body s ++ ents (Z.of_nat (elen (false, s))) rest ++ [ZIP_END]))
      by (by rewrite <- !app_assoc).
    rewrite wrn_app by (by rewrite ?prev_len_size, ?Hr). cbn [mbind option_bind].
    rewrite (prev_bytes_exact true r) by (by rewrite Hr).
    destruct (IH (t + 4) o' l (A ++ ent prev0 e) r (true, s) (Z.of_nat (elen (false, s))) rest)
      as (rest' & t' & o'' & Hloop & Hwf' & Hst & Ht' & Hlt' & Hle & Ho'').
    + rewrite length_app, length_ent, elen_large. lia.
    + rewrite length_app, length_ent. lia.
    + lia.
    + done.
    + unfold ent_ok. cbn [fst snd]. destruct Hn2 as (_ & _ & Hs). split_and!; [lia|lia|done|done].
    + done.
    + cbn [length] in Hn. lia.
    + rewrite length_app, length_ent in Ht', Ho''. rewrite length_app, length_ent, Nat.add_assoc in Hloop.
      exists ((true, s) :: rest'), t', o''.
      split_and!.
      * rewrite !length_app, length_hdr, length_ent, Nat.add_assoc.
        unfold ent at 2 in Hloop. cbn [fst snd] in Hloop. rewrite <- !app_assoc in Hloop.
        rewrite <- !app_assoc. rewrite Hloop. cbn [ents]. by rewrite <- !app_assoc.
      * cbn [wf_ents]. split; [|done]. unfold ent_ok. cbn [fst snd].
        destruct Hn2 as (_ & _ & Hs). split_and!; [lia|lia|done|done].
      * unfold strs in *. rewrite !fmap_cons. by f_equal.
      * cbn [ents]. rewrite length_app, length_ent. lia.
      * done.
      * lia.
      * rewrite Ho''. destruct rest'; cbn [last_off]; lia.
  - (* the next entry keeps its size *)
    assert (lg = false -> r < ZIP_BIGLEN) as Hlg.
    { destruct lg, (Z.ltb_spec r ZIP_BIGLEN); cbn [psz] in *; done || lia. }
    assert ((if Z.of_nat (psz lg) >? Z.of_nat (if r <? ZIP_BIGLEN then 1 else 5)
        then wrn m (length P2) (zipPrevEncodeLengthForceLarge r)
        else wrn m (length P2) (zipPrevEncodeLength r)) = wrn m (length P2) (prev_bytes lg r)) as ->.
    { unfold zipPrevEncodeLength. rewrite Z.gtb_ltb.
      destruct lg, (Z.ltb_spec r ZIP_BIGLEN); cbn [psz] in *; done || (specialize (Hlg eq_refl); lia). }
    rewrite Hm2. unfold ent. cbn [fst snd]. rewrite <- app_assoc.
    rewrite wrn_app by (by rewrite ?length_prev_bytes).
    exists ((lg, s) :: rest), t, o. split_and!; [|split; [by apply Hok|done]|done| |lia..].
    + unfold P2. cbn [ents]. unfold ent. cbn [fst snd]. by rewrite <- !app_assoc.
    + cbn [ents]. rewrite length_app, length_ent. lia.
Qed.

(** ** Size of a blob *)

(** More than any list of these strings takes. *)
Fixpoint zl_bound (xs : list bytes) : Z :=
  match xs with [] => 11 | x :: xs => Z.of_nat (length x) + 13 + zl_bound xs end.

Definition zl_fits (xs : list bytes) : Prop := zl_bound xs < 2 ^ 31.

Lemma body_bound s : (length (body s) <= length s + 8)%nat.
Proof.
  unfold body. destruct (zipTryEncoding s) as [[v e]|] eqn:E; rewrite length_app.
  - apply zipTryEncoding_Some in E as (Hv & -> & ->). destruct (integer_encoding v Hv) as ([_ He] & _ & _).
    assert (length (zipSaveInteger v (zipIntEncoding v)) <= 8)%nat.
    { unfold zipSaveInteger. repeat case_match; rewrite ?length_drop, ?length_le_enc; cbn; lia. }
    unfold zipEncodeLength. rewrite He. cbn [length]. pose proof (decimal_length_20 v Hv). lia.
  - pose proof (zipEncodeLength_length 0 (Z.of_nat (length s))). lia.
Qed.

Lemma elen_bound e : (elen e <= length e.2 + 13)%nat.
Proof. unfold elen. pose proof (body_bound e.2). pose proof (psz_range e.1). lia. Qed.

Lemma zl_bound_app xs ys : zl_bound (xs ++ ys) = zl_bound xs + zl_bound ys - 11.
Proof. induction xs as [|x xs IH]; cbn [app zl_bound]; lia. Qed.

Lemma zl_bound_cons x xs : zl_bound (x :: xs) = Z.of_nat (length x) + 13 + zl_bound xs.
Proof. done. Qed.

Lemma ents_bound prev es : Z.of_nat (11 + length (ents prev es)) <= zl_bound (strs es).
Proof.
  revert prev. induction es as [|e es IH]; intros prev; [done|].
  unfold strs in *. rewrite fmap_cons, zl_bound_cons. cbn [ents]. rewrite length_app, length_ent.
  specialize (IH (Z.of_nat (elen e))). pose proof (elen_bound e). lia.
Qed.

Lemma zl_bound_count xs : 11 + 13 * Z.of_nat (length xs) <= zl_bound xs.
Proof. induction xs as [|x xs IH]; [done|]. rewrite zl_bound_cons. cbn [length]. lia. Qed.

Lemma length_strs es : length (strs es) = length es.
Proof. apply length_fmap. Qed.

Lemma strs_app a b : strs (a ++ b) = strs a ++ strs b.
Proof. apply fmap_app. Qed.

Lemma last_len_range prev es :
  0 <= prev < 2 ^ 31 -> zl_fits (strs es) -> 0 <= last_len prev es < 2 ^ 31.
Proof.
  unfold zl_fits. revert prev. induction es as [|e es IH]; intros prev Hp Hf; [done|].
  unfold strs in *. rewrite fmap_cons, zl_bound_cons in Hf. cbn [last_len].
  pose proof (elen_bound e). pose proof (zl_bound_count (snd <$> es)). apply IH; lia.
Qed.

(** ** Positions in a blob *)

Lemma zl_ents_parts zl a b :
  zl_ents zl (a ++ b) -> exists lf,
  zl = (hdr (Z.of_nat (length zl)) (10 + Z.of_nat (last_off (a ++ b))) lf ++ ents 0 a)
       ++ ents (last_len 0 a) b ++ [ZIP_END] /\
  wf_ents 0 a /\ wf_ents (last_len 0 a) b /\ len_ok lf (length (a ++ b)) /\
  Z.of_nat (length zl) < 2 ^ 32 /\
  length zl = (11 + length (ents 0 a) + length (ents (last_len 0 a) b))%nat.
Proof.
  intros (lf & Hzl & Hwf & Hlen & Hsz). exists lf. apply wf_ents_app in Hwf as [Hwa Hwb].
  rewrite ents_app in Hzl. split_and!; try done.
  - rewrite Hzl at 1. by rewrite <- !app_assoc.
  - rewrite Hzl, !length_app, length_hdr. cbn. lia.
Qed.

Lemma zl_bytes zl es : zl_ents zl es -> ZIPLIST_BYTES zl = Some (Z.of_nat (length zl)).
Proof.
  intros (lf & Hzl & _ & _ & Hsz). rewrite Hzl at 1. apply hdr_bytes. lia.
Qed.

Lemma zl_tail zl es :
  zl_ents zl es -> ZIPLIST_ENTRY_TAIL zl = Some (10 + last_off es)%nat.
Proof.
  intros H. pose proof (zl_ents_parts zl [] es H) as (lf & Hzl & _ & _ & _ & Hsz & Hl).
  cbn [app ents last_len] in *. pose proof (last_off_le 0 es). cbn [length] in Hl.
  unfold ZIPLIST_ENTRY_TAIL. rewrite Hzl, app_nil_r, hdr_tail by lia.
  cbn [mbind option_bind]. f_equal. lia.
Qed.

(** The first byte at a position between two entries. *)
Lemma zl_at zl a b :
  zl_ents zl (a ++ b) ->
  exists c, zl !! (10 + length (ents 0 a))%nat = Some c /\
    (c =? ZIP_END) = match b with [] => true | _ => false end.
Proof.
  intros H. destruct (zl_ents_parts zl a b H) as (lf & Hzl & _ & Hwb & _).
  replace (10 + length (ents 0 a))%nat
    with (length (hdr (Z.of_nat (length zl)) (10 + Z.of_nat (last_off (a ++ b))) lf ++ ents 0 a))
    by (by rewrite length_app, length_hdr).
  destruct b as [|e b].
  - exists ZIP_END. rewrite Hzl at 2. by rewrite lookup_shift0.
  - destruct Hwb as [He _]. cbn [ents] in Hzl. rewrite <- (app_assoc (ent _ _)) in Hzl.
    apply (ent_head zl _ _ e _ Hzl He).
Qed.

(** An entry seen in its place. *)
Lemma zl_entry_at zl a e b :
  zl_ents zl (a ++ e :: b) ->
  exists P, length P = (10 + length (ents 0 a))%nat /\
    zl = P ++ ent (last_len 0 a) e ++ ents (Z.of_nat (elen e)) b ++ [ZIP_END] /\
    ent_ok (last_len 0 a) e /\ wf_ents (Z.of_nat (elen e)) b /\ Z.of_nat (elen e) < 2 ^ 32.
Proof.
  intros H. destruct (zl_ents_parts zl a (e :: b) H) as (lf & Hzl & _ & [He Hwb] & _ & Hsz & Hl).
  eexists. split; [|split; [rewrite Hzl at 1; cbn [ents]; by rewrite <- (app_assoc (ent _ _))|]].
  { by rewrite length_app, length_hdr. }
  cbn [ents] in Hl. rewrite length_app, length_ent in Hl. split_and!; [done|done|lia].
Qed.

(** ** Insertion *)

Lemma insert_prevlen_spec zl a b :
  zl_ents zl (a ++ b) ->
  insert_prevlen zl (10 + length (ents 0 a)) = Some (last_len 0 a).
Proof.
  intros H. unfold insert_prevlen. destruct (zl_at zl a b H) as (c & -> & Hc).
  cbn [mbind option_bind]. rewrite Hc. destruct b as [|e b]; cbn [negb].
  - rewrite (zl_tail zl _ H). cbn [mbind option_bind]. rewrite app_nil_r in *.
    destruct a as [|e a _] using rev_ind.
    { destruct (zl_at zl [] [] H) as (c1 & Hc1 & Hc2). cbn [ents length last_off Nat.add] in *.
      rewrite Hc1. cbn [mbind option_bind]. by rewrite Hc2. }
    rewrite (last_off_app 0 a [e]) by done. cbn [last_off]. rewrite Nat.add_0_r.
    destruct (zl_entry_at zl a e [] H) as (P & HP & Hzl & He & _ & Hlt).
    rewrite <- HP. at_entry (ent_head zl P _ e _ Hzl He). cbn [negb].
    rewrite (zipRawEntryLength_spec zl P _ e _ Hzl He Hlt).
    clear. generalize 0. induction a as [|f a IH]; intros z; [done|]. cbn [app last_len]. apply IH.
  - destruct (zl_entry_at zl a e b H) as (P & HP & Hzl & He & _). rewrite <- HP.
    by rewrite (decode_prevlen zl P _ e _ Hzl He).
Qed.

(** How [__ziplistInsert] encodes its string. *)
Definition insert_encoding (s : bytes) : Z * Z * Z :=
  match zipTryEncoding s with
  | Some (value, encoding) => (value, encoding, zipIntSize encoding)
  | None => (123456789, 0, Z.of_nat (length s))
  end.

Lemma insert_encoding_spec s :
  let '(value, encoding, n) := insert_encoding s in
  n + Z.of_nat (length (zipEncodeLength encoding (Z.of_nat (length s)))) = Z.of_nat (length (body s)) /\
  body s = zipEncodeLength encoding (Z.of_nat (length s)) ++
           (if ZIP_IS_STR encoding then s else zipSaveInteger value encoding).
Proof.
  unfold insert_encoding, body. destruct (zipTryEncoding s) as [[v e]|] eqn:E; rewrite length_app.
  - apply zipTryEncoding_Some in E as (Hv & _ & ->).
    destruct (integer_encoding v Hv) as ([_ He] & -> & _). rewrite He. split; [lia|done].
  - split; [lia|done].
Qed.

Definition large (prev : Z) : bool := negb (prev <? ZIP_BIGLEN).

Lemma prev_bytes_large prev : zipPrevEncodeLength prev = prev_bytes (large prev) prev.
Proof. apply prev_bytes_exact. unfold large. by rewrite negb_involutive. Qed.

Lemma insert_entry_spec t o l X J R prev s n :
  len_ok l n -> Z.of_nat n < 2 ^ 30 -> length J = elen (large prev, s) ->
  let '(value, encoding, _) := insert_encoding s in
  exists l', insert_entry (hdr t o l ++ X ++ J ++ R) (10 + length X) prev encoding value s
    = Some (hdr t o l' ++ X ++ ent prev (large prev, s) ++ R) /\ len_ok l' (S n).
Proof.
  intros Hl Hn HJ. pose proof (insert_encoding_spec s) as Henc.
  destruct (insert_encoding s) as [[value encoding] k]. destruct Henc as [_ Hb].
  unfold insert_entry. rewrite prev_bytes_large, length_prev_bytes.
  set (lenb := zipEncodeLength encoding (Z.of_nat (length s))) in *.
  set (pay := if ZIP_IS_STR encoding then s else zipSaveInteger value encoding) in *.
  unfold elen in HJ. cbn [fst snd] in HJ. rewrite Hb, length_app in HJ.
  destruct (list_split3 J (psz (large prev)) (length lenb)) as (j1 & j2 & j3 & -> & Hj1 & Hj2); [lia|].
  rewrite !length_app in HJ.
  replace (10 + length X)%nat with (length (hdr t o l ++ X)) by (by rewrite length_app, length_hdr).
  replace (hdr t o l ++ X ++ (j1 ++ j2 ++ j3) ++ R) with ((hdr t o l ++ X) ++ j1 ++ (j2 ++ j3 ++ R))
    by (by rewrite <- !app_assoc).
  rewrite wrn_app by (by rewrite ?length_prev_bytes). cbn [mbind option_bind].
  rewrite (app_assoc _ (prev_bytes _ _)), wrn_app by (by rewrite ?length_app, ?length_prev_bytes).
  cbn [mbind option_bind]. rewrite (app_assoc _ lenb), wrn_app by (rewrite ?length_app, ?length_prev_bytes; lia).
  cbn [mbind option_bind].
  destruct (hdr_incr t o l (X ++ ent prev (large prev, s) ++ R) n 1 Hl) as (l' & Hi & Hl'); [lia|by left|].
  exists l'. split; [|replace (S n) with (Z.to_nat (Z.of_nat n + 1)) by lia; done].
  rewrite <- Hi. f_equal. unfold ent. cbn [fst snd]. rewrite Hb. by rewrite <- !app_assoc.
Qed.

(** Moving what follows the new entry, whose predecessor field changes. *)
Lemma insert_shift L o l A pv lg lg' s E g tl reqlen d :
  Z.of_nat (psz lg') = Z.of_nat (psz lg) + d -> Z.of_nat (length g) = reqlen + d -> 0 <= reqlen ->
  d <= 4 -> ZIP_END :: g = tl ++ [ZIP_END] ->
  exists J,
    length J = Z.to_nat reqlen /\
    (m ← memmove (hdr L o l ++ A ++ ent pv (lg, s) ++ E ++ ZIP_END :: g)
       (10 + length A + Z.to_nat reqlen) (Z.to_nat (Z.of_nat (10 + length A) - d))
       (length (body s ++ E) + psz lg');
     wrn m (10 + length A + Z.to_nat reqlen) (prev_bytes lg' reqlen))
    = Some (hdr L o l ++ A ++ J ++ ent reqlen (lg', s) ++ E ++ [ZIP_END]).
Proof.
  intros Hd Hg Hr Hd4 Htl. unfold ent. cbn [fst snd].
  set (B := body s ++ E). set (W := hdr L o l ++ A ++ prev_bytes lg pv).
  assert (length W = 10 + length A + psz lg)%nat as HW.
  { unfold W. rewrite !length_app, length_hdr, length_prev_bytes. lia. }
  destruct (list_split3 W (Z.to_nat (Z.of_nat (10 + length A) - d)) (psz lg')) as (U & K & z & EW & HU & HK).
  { lia. }
  assert (z = []) as ->. { apply nil_length_inv. apply (f_equal length) in EW. rewrite !length_app in EW. lia. }
  rewrite app_nil_r in EW.
  set (m := hdr L o l ++ A ++ (prev_bytes lg pv ++ body s) ++ E ++ ZIP_END :: g).
  assert (m = W ++ B ++ ZIP_END :: g) as Hm by (unfold m, W, B; by rewrite <- !app_assoc).
  assert (length m = 10 + length A + Z.to_nat reqlen + psz lg' + length B + 1)%nat as Hlm.
  { rewrite Hm, !length_app, HW. cbn [length]. lia. }
  destruct (list_split3 m (10 + length A + Z.to_nat reqlen) (psz lg' + length B)) as (Q & D & y & Em & HQ & HD); [lia|].
  assert (y = [ZIP_END]) as ->.
  { pose proof (f_equal length Em) as El. rewrite !length_app in El.
    assert (exists w, y = [w]) as (w & ->). { destruct y as [|w [|]]; cbn [length] in El; try lia. by exists w. }
    rewrite Hm, Htl, !app_assoc in Em. by apply app_inj_2 in Em as [_ ?]. }
  assert (exists J, Q = hdr L o l ++ A ++ J /\ length J = Z.to_nat reqlen) as (J & -> & HJ).
  { exists (drop (10 + length A) Q). rewrite length_drop. split; [|lia].
    assert (take (10 + length A) Q = hdr L o l ++ A) as HtQ.
    { assert (take (10 + length A) m = take (10 + length A) Q) as <- by (rewrite Em, take_app_le by lia; done).
      unfold m. rewrite (app_assoc (hdr L o l)). apply take_app_len. by rewrite length_app, length_hdr. }
    rewrite <- (take_drop (10 + length A) Q) at 1. by rewrite HtQ, <- app_assoc. }
  exists J. split; [done|].
  rewrite (memmove_app m U (K ++ B) (ZIP_END :: g) (hdr L o l ++ A ++ J) D [ZIP_END]).
  - cbn [mbind option_bind]. rewrite <- (app_assoc K), wrn_app by (rewrite ?length_prev_bytes; lia).
    unfold B. by rewrite <- !app_assoc.
  - rewrite Hm, EW. by rewrite <- !app_assoc.
  - done.
  - lia.
  - rewrite length_app. lia.
  - lia.
  - lia.
Qed.

(** The header after the tail offset was moved past the new entry. *)
Lemma insert_tail t o l A J reqlen x x' E rest d :
  length J = Z.to_nat reqlen -> 0 <= reqlen -> d <= 4 -> ent_ok reqlen x' ->
  Z.of_nat (elen x') = Z.of_nat (elen x) + d ->
  o = Z.of_nat (10 + length A + last_off (x :: rest)) ->
  E = ents (Z.of_nat (elen x)) rest -> wf_ents (Z.of_nat (elen x)) rest ->
  Z.of_nat (30 + length A + length E + elen x) + reqlen < 2 ^ 32 ->
  (z ← ZIPLIST_TAIL_OFFSET (hdr t o l ++ A ++ J ++ ent reqlen x' ++ E ++ [ZIP_END]);
   zl ← set_tail_offset (hdr t o l ++ A ++ J ++ ent reqlen x' ++ E ++ [ZIP_END]) (u32 (z + reqlen));
   tail ← zipEntry zl (10 + length A + Z.to_nat reqlen);
   c ← zl !! (10 + length A + Z.to_nat (reqlen + headersize tail + len tail))%nat;
   if negb (c =? ZIP_END) then
     t ← ZIPLIST_TAIL_OFFSET zl; set_tail_offset zl (u32 (t + d))
   else Some zl)
  = Some (hdr t (Z.of_nat (10 + length A + length J + last_off (x' :: rest))) l
          ++ A ++ J ++ ent reqlen x' ++ E ++ [ZIP_END]).
Proof.
  intros HJ Hr Hd4 Hx' Hel -> -> Hwf Hlim. pose proof (last_off_le reqlen (x :: rest)) as Hlo.
  cbn [ents] in Hlo. rewrite length_app, length_ent in Hlo.
  rewrite hdr_tail by lia. cbn [mbind option_bind]. rewrite hdr_set_tail. cbn [mbind option_bind].
  rewrite (wrapu_small 32 (_ + reqlen)) by ints.
  set (o1 := Z.of_nat (10 + length A + last_off (x :: rest)) + reqlen).
  set (m := hdr t o1 l ++ A ++ J ++ ent reqlen x' ++ ents (Z.of_nat (elen x)) rest ++ [ZIP_END]).
  assert (m = (hdr t o1 l ++ A ++ J) ++ ent reqlen x' ++ ents (Z.of_nat (elen x)) rest ++ [ZIP_END]) as Hm
    by (unfold m; by rewrite <- !app_assoc).
  assert (length (hdr t o1 l ++ A ++ J) = 10 + length A + Z.to_nat reqlen)%nat as HP
    by (rewrite !length_app, length_hdr; lia).
  rewrite <- HP. destruct (zipEntry_spec m _ reqlen x' _ Hm Hx') as (ze & -> & _ & _ & Hsz & _).
  cbn [mbind option_bind].
  replace (10 + length A + Z.to_nat (reqlen + headersize ze + len ze))%nat
    with (length ((hdr t o1 l ++ A ++ J) ++ ent reqlen x')) by (rewrite length_app, HP, length_ent; lia).
  assert (m = ((hdr t o1 l ++ A ++ J) ++ ent reqlen x') ++ ents (Z.of_nat (elen x)) rest ++ [ZIP_END]) as Hm2
    by (rewrite Hm; by rewrite <- !app_assoc).
  destruct rest as [|f rest].
  - assert (m !! length ((hdr t o1 l ++ A ++ J) ++ ent reqlen x') = Some ZIP_END) as ->
      by (by rewrite Hm2, lookup_shift0).
    cbn [mbind option_bind negb Z.eqb]. unfold m.
    replace o1 with (Z.of_nat (10 + length A + length J + last_off [x'])); [done|].
    unfold o1. cbn [last_off]. lia.
  - destruct Hwf as [Hf _]. cbn [ents] in Hm2. rewrite <- (app_assoc (ent _ f)) in Hm2.
    at_entry (ent_head m _ _ f _ Hm2 Hf). cbn [negb]. unfold m. rewrite hdr_tail by lia.
    cbn [mbind option_bind]. rewrite hdr_set_tail, wrapu_small.
    2: { unfold o1. cbn [last_off] in *. ints. }
    replace (o1 + d) with (Z.of_nat (10 + length A + length J + last_off (x' :: f :: rest))); [done|].
    unfold o1. cbn [last_off] in *. lia.
Qed.

Lemma zl_ents_len zl es : zl_ents zl es -> exists lf, zl = hdr (Z.of_nat (length zl)) (10 + Z.of_nat (last_off es)) lf ++ ents 0 es ++ [ZIP_END] /\ len_ok lf (length es).
Proof. intros (lf & H1 & _ & H2 & _). by exists lf. Qed.

Lemma fits_count a s b :
  zl_fits (strs a ++ s :: strs b) ->
  Z.of_nat (length a + length b) < 2 ^ 28 /\ zl_fits (strs a) /\
  Z.of_nat (11 + length (ents 0 a) + (length s + 13)) + (zl_bound (strs b) - 11) < 2 ^ 31 /\
  (forall p, Z.of_nat (length (ents p b)) <= zl_bound (strs b) - 11) /\
  13 * Z.of_nat (length b) <= zl_bound (strs b) - 11.
Proof.
  unfold zl_fits. rewrite zl_bound_app, zl_bound_cons. intros Hf.
  pose proof (zl_bound_count (strs a)). pose proof (zl_bound_count (strs b)).
  rewrite !length_strs in *. pose proof (ents_bound 0 a).
  split_and!; [lia|lia|lia| |lia]. intros p. pose proof (ents_bound p b). lia.
Qed.

(** Inserting at the end. *)
Lemma insert_tail_end zl a s :
  zl_ents zl a -> str_ok s -> zl_fits (strs a ++ [s]) ->
  exists zl', __ziplistInsert junk zl (10 + length (ents 0 a)) s = Some zl' /\
    zl_ents zl' (a ++ [(large (last_len 0 a), s)]).
Proof.
  intros H Hs Hfits. unfold __ziplistInsert. rewrite (zl_bytes zl a H). cbn [mbind option_bind].
  rewrite <- (app_nil_r a) in H. rewrite (insert_prevlen_spec zl a [] H). cbn [mbind option_bind].
  destruct (zl_at zl a [] H) as (c & Hc & Hend). rewrite Hc. cbn [mbind option_bind]. rewrite Hend. cbn [negb].
  fold (insert_encoding s). pose proof (insert_encoding_spec s) as Henc.
  pose proof (insert_entry_spec) as Hent.
  specialize (fun t o l X J R prev n => Hent t o l X J R prev s n).
  destruct (insert_encoding s) as [[value encoding] k]. destruct Henc as [Hk _].
  destruct (fits_count a s [] Hfits) as (Hcnt & Hfa & Hsz & _).
  cbn [strs fmap list_fmap zl_bound] in Hsz.
  set (pv := last_len 0 a) in *. set (e := (large pv, s)).
  assert (0 <= pv < 2 ^ 31) as Hpv by (apply last_len_range; [lia|done]).
  assert (k + Z.of_nat (length (zipPrevEncodeLength pv))
    + Z.of_nat (length (zipEncodeLength encoding (Z.of_nat (length s)))) = Z.of_nat (elen e)) as ->.
  { rewrite prev_bytes_large, length_prev_bytes. unfold e, elen. cbn [fst snd]. lia. }
  cbn [mbind option_bind]. change (0 =? -4) with false. cbn [andb]. rewrite !Z.add_0_r.
  destruct (zl_ents_parts zl a [] H) as (lf & Hzl & Hwa & _ & Hlen & _ & Hl).
  cbn [ents length app] in *. rewrite app_nil_r in *. rewrite <- app_assoc in Hzl.
  pose proof (elen_bound e) as Heb. change e.2 with s in Heb.
  remember (length zl) as N eqn:HN. clear HN. rewrite Hzl. clear Hzl H Hc zl.
  destruct (ziplistResize_grow (Z.of_nat N) (10 + Z.of_nat (last_off a)) lf (ents 0 a)
    (Z.of_nat N + Z.of_nat (elen e))) as (g & -> & Hg & tl & Htl).
  { pose proof (elen_pos e). lia. }
  cbn [mbind option_bind].
  assert ((hdr (Z.of_nat N + Z.of_nat (elen e)) (10 + Z.of_nat (last_off a)) lf ++ ents 0 a ++ ZIP_END :: g)
    !! (10 + length (ents 0 a))%nat = Some ZIP_END) as ->.
  { rewrite app_assoc. apply lookup_app_len. by rewrite length_app, length_hdr. }
  cbn [mbind option_bind]. change (ZIP_END =? ZIP_END) with true. cbn [negb].
  rewrite hdr_set_tail. cbn [mbind option_bind]. change (0 =? 0) with true. cbn [negb].
  rewrite Htl.
  assert (length tl = elen e) as Htle.
  { apply (f_equal length) in Htl. rewrite length_app in Htl. cbn in Htl. lia. }
  cbn [mbind option_bind].
  destruct (Hent (Z.of_nat N + Z.of_nat (elen e)) (Z.of_nat (10 + length (ents 0 a))) lf (ents 0 a) tl [ZIP_END] pv (length a))
    as (l' & -> & Hl'); [done|lia|done|].
  eexists. split; [done|]. exists l'.
  assert (Z.of_nat N + Z.of_nat (elen e) = Z.of_nat (11 + length (ents 0 (a ++ [e])))) as Htot.
  { rewrite ents_app, length_app. cbn [ents]. rewrite app_nil_r, length_ent. lia. }
  split_and!.
  - rewrite !length_app, length_hdr, length_ent. cbn [length].
    rewrite ents_app, (last_off_app 0) by done. cbn [ents last_off]. rewrite app_nil_r. fold pv.
    rewrite <- !app_assoc. fold e. do 2 f_equal; lia.
  - apply wf_ents_app. split; [done|]. split; [|done]. fold pv. unfold ent_ok, large. cbn [e fst snd].
    split_and!; [lia|lia| |done]. intros Hlg. apply negb_false_iff, Z.ltb_lt in Hlg. done.
  - rewrite length_app. cbn [length]. by rewrite Nat.add_1_r.
  - rewrite !length_app, length_hdr, length_ent. fold e. cbn [length]. lia.
Qed.

(** The flag the next entry has after its predecessor changed, the number of
    bytes it grows by, and whether the large form is forced. *)
Definition next_flag (lg : bool) (reqlen : Z) : bool * Z * bool :=
  let d := Z.of_nat (length (zipPrevEncodeLength reqlen)) - Z.of_nat (psz lg) in
  if (d =? -4) && (reqlen <? 4) then (true, 0, true) else (large reqlen, d, false).

Lemma next_flag_spec lg reqlen :
  0 <= reqlen ->
  let '(lg', d, force) := next_flag lg reqlen in
  let d0 := Z.of_nat (length (zipPrevEncodeLength reqlen)) - Z.of_nat (psz lg) in
  (if (d0 =? -4) && (reqlen <? 4) then (0, true) else (d0, false)) = (d, force) /\
  Z.of_nat (psz lg') = Z.of_nat (psz lg) + d /\ -4 <= d <= 4 /\ 0 <= reqlen + d /\
  (d = 0 -> lg' = lg) /\ (lg' = false -> reqlen < ZIP_BIGLEN) /\
  (if force then zipPrevEncodeLengthForceLarge reqlen else zipPrevEncodeLength reqlen)
    = prev_bytes lg' reqlen.
Proof.
  intros Hr. unfold next_flag. cbn zeta. rewrite prev_len_size. unfold ZIP_BIGLEN.
  destruct lg, (Z.ltb_spec reqlen 254), (Z.ltb_spec reqlen 4); cbn [psz];
    unfold large, ZIP_BIGLEN; rewrite ?(proj2 (Z.ltb_lt reqlen 254)), ?(proj2 (Z.ltb_ge reqlen 254)) by lia;
    cbn; split_and!; try done; try lia;
    unfold zipPrevEncodeLength, ZIP_BIGLEN;
    rewrite ?(proj2 (Z.ltb_lt reqlen 254)), ?(proj2 (Z.ltb_ge reqlen 254)) by lia; done.
Qed.

Lemma insert_cascade L lf A J reqlen x x' d b :
  0 <= lf <= UINT16_MAX -> Z.of_nat (length J) = reqlen -> 0 <= reqlen ->
  ent_ok reqlen x' -> Z.of_nat (elen x') = Z.of_nat (elen x) + d -> (d = 0 -> x' = x) -> x'.2 = x.2 ->
  wf_ents (Z.of_nat (elen x)) b ->
  L = Z.of_nat (11 + length A + length J + elen x' + length (ents (Z.of_nat (elen x)) b)) ->
  L + 4 * Z.of_nat (length b) < 2 ^ 32 ->
  exists rest' t' o',
    (if negb (d =? 0)
     then __ziplistCascadeUpdate junk
       (hdr L (Z.of_nat (10 + length A + length J + last_off (x' :: b))) lf
        ++ A ++ J ++ ent reqlen x' ++ ents (Z.of_nat (elen x)) b ++ [ZIP_END])
       (10 + length A + Z.to_nat reqlen)
     else Some (hdr L (Z.of_nat (10 + length A + length J + last_off (x' :: b))) lf
        ++ A ++ J ++ ent reqlen x' ++ ents (Z.of_nat (elen x)) b ++ [ZIP_END]))
    = Some (hdr t' o' lf ++ A ++ J ++ ent reqlen x' ++ ents (Z.of_nat (elen x')) rest' ++ [ZIP_END]) /\
    wf_ents (Z.of_nat (elen x')) rest' /\ strs rest' = strs b /\
    t' = Z.of_nat (11 + length A + length J + elen x' + length (ents (Z.of_nat (elen x')) rest')) /\
    t' < 2 ^ 32 /\ o' = Z.of_nat (10 + length A + length J + last_off (x' :: rest')).
Proof.
  intros Hlf HJ Hr Hx' Hel Hd0 _ Hwf HL Hlim. destruct (Z.eqb_spec d 0) as [->|Hd]; cbn [negb].
  { rewrite (Hd0 eq_refl) in *. exists b, L, (Z.of_nat (10 + length A + length J + last_off (x :: b))).
    split_and!; try done. lia. }
  unfold __ziplistCascadeUpdate.
  set (o := Z.of_nat (10 + length A + length J + last_off (x' :: b))).
  set (m := hdr L o lf ++ A ++ J ++ ent reqlen x' ++ ents (Z.of_nat (elen x)) b ++ [ZIP_END]).
  assert (length b < length m)%nat as Hfuel.
  { unfold m. rewrite !length_app. pose proof (ents_size (Z.of_nat (elen x)) b). cbn. lia. }
  assert (ZIPLIST_BYTES m = Some L) as -> by (apply hdr_bytes; lia). cbn [mbind option_bind].
  destruct (cascade_spec (length m) L o lf (A ++ J) reqlen x' (Z.of_nat (elen x)) b)
    as (rest' & t' & o' & Hc & Hwf' & Hst & Ht' & Hlt' & _ & Ho'); try done.
  - rewrite length_app. lia.
  - rewrite length_app. unfold o. lia.
  - unfold UINT16_MAX in *. lia.
  - rewrite length_app in *. replace (10 + (length A + length J))%nat with (10 + length A + Z.to_nat reqlen)%nat in Hc by lia.
    exists rest', t', o'. rewrite <- !app_assoc in Hc. fold m in Hc. split_and!; try done; lia.
Qed.

Lemma insert_middle zl a lg sx b s :
  zl_ents zl (a ++ (lg, sx) :: b) -> str_ok s -> zl_fits (strs a ++ s :: sx :: strs b) ->
  exists zl' b', __ziplistInsert junk zl (10 + length (ents 0 a)) s = Some zl' /\
    zl_ents zl' (a ++ b') /\ strs b' = s :: sx :: strs b.
Proof.
  intros H Hs Hfits. unfold __ziplistInsert. rewrite (zl_bytes zl _ H). cbn [mbind option_bind].
  rewrite (insert_prevlen_spec zl a _ H). cbn [mbind option_bind].
  destruct (zl_entry_at zl a (lg, sx) b H) as (P & HP & Hzl0 & Hx & Hwb & _).
  rewrite <- HP. at_entry (ent_head zl P _ _ _ Hzl0 Hx). cbn [negb].
  fold (insert_encoding s). pose proof (insert_encoding_spec s) as Henc.
  pose proof (fun t o l X J R prev n => insert_entry_spec t o l X J R prev s n) as Hent.
  destruct (insert_encoding s) as [[value encoding] k]. destruct Henc as [Hk _].
  destruct (fits_count a s ((lg, sx) :: b) Hfits) as (Hcnt & Hfa & Hsz & Hsb & Hcb).
  set (pv := last_len 0 a) in *. set (e := (large pv, s)).
  assert (0 <= pv < 2 ^ 31) as Hpv by (apply last_len_range; [lia|done]).
  assert (k + Z.of_nat (length (zipPrevEncodeLength pv))
    + Z.of_nat (length (zipEncodeLength encoding (Z.of_nat (length s)))) = Z.of_nat (elen e)) as ->.
  { rewrite prev_bytes_large, length_prev_bytes. unfold e, elen. cbn [fst snd]. lia. }
  set (reqlen := Z.of_nat (elen e)).
  unfold zipPrevLenByteDiff. rewrite (decode_prevlensize zl P _ _ _ Hzl0 Hx). cbn [mbind option_bind fst].
  pose proof (next_flag_spec lg reqlen ltac:(unfold reqlen; lia)) as Hnf.
  destruct (next_flag lg reqlen) as [[lg' d] force]. cbn zeta in Hnf.
  destruct Hnf as (-> & Hpsz & Hd & Hrd & Hd0 & Hlg' & Henc).
  rewrite HP. clear HP Hzl0 P.
  destruct (zl_ents_parts zl a _ H) as (lf & Hzl & Hwa & _ & Hlen & _ & Hl).
  remember (length zl) as N eqn:HN. clear HN. rewrite Hzl. clear Hzl H zl.
  rewrite (last_off_app 0) by done. rewrite <- !app_assoc. fold pv in Hl |- *.
  pose proof (elen_bound e) as Heb. change e.2 with s in Heb.
  pose proof (elen_pos e) as Hep. pose proof (last_off_le pv ((lg, sx) :: b)) as Hlo.
  pose proof (Hsb pv) as Hsbp.
  rewrite (app_assoc (ents 0 a)).
  destruct (ziplistResize_grow (Z.of_nat N) (10 + Z.of_nat (length (ents 0 a) + last_off ((lg, sx) :: b))) lf
    (ents 0 a ++ ents pv ((lg, sx) :: b)) (Z.of_nat N + reqlen + d)) as (g & -> & Hg & tl & Htl).
  { rewrite length_app. unfold reqlen in *. lia. }
  cbn [mbind option_bind]. rewrite <- !app_assoc. rewrite length_app in Hg.
  set (L := Z.of_nat N + reqlen + d) in *.
  set (o := 10 + Z.of_nat (length (ents 0 a) + last_off ((lg, sx) :: b))) in *.
  set (A := ents 0 a) in *.
  replace (ents pv ((lg, sx) :: b)) with (ent pv (lg, sx) ++ ents (Z.of_nat (elen (lg, sx))) b) in * by done.
  rewrite length_app, length_ent in *. rewrite <- !app_assoc.
  set (E := ents (Z.of_nat (elen (lg, sx))) b) in *.
  assert (exists c, (hdr L o lf ++ A ++ ent pv (lg, sx) ++ E ++ ZIP_END :: g) !! (10 + length A)%nat = Some c
    /\ (c =? ZIP_END) = false) as (c & -> & Hc).
  { rewrite (app_assoc (hdr L o lf)). replace (10 + length A)%nat with (length (hdr L o lf ++ A))
      by (by rewrite length_app, length_hdr). by apply (ent_head _ _ pv (lg, sx) (E ++ ZIP_END :: g)). }
  cbn [mbind option_bind]. rewrite Hc. cbn [negb]. clear c Hc.
  destruct (insert_shift L o lf A pv lg lg' sx E g tl reqlen d) as (J & HJ & Hmove);
    [done|lia|unfold reqlen; lia|lia|done|].
  replace (Z.to_nat (Z.of_nat N - Z.of_nat (10 + length A) - 1 + d)) with (length (body sx ++ E) + psz lg')%nat.
  2: { rewrite length_app. unfold elen in Hl. cbn [fst snd] in Hl. lia. }
  rewrite Henc.
  destruct (memmove _ _ _ _) as [m1|]; [|done]. cbn [mbind option_bind] in Hmove |- *.
  rewrite Hmove. cbn [mbind option_bind].
  assert (ent_ok reqlen (lg', sx)) as Hx'.
  { unfold ent_ok. cbn [fst snd]. destruct Hx as (_ & _ & Hsx). unfold reqlen in *.
    split_and!; [lia|lia|done|done]. }
  assert (Z.of_nat (elen (lg', sx)) = Z.of_nat (elen (lg, sx)) + d) as Hel by (unfold elen; cbn [fst snd]; lia).
  pose proof (insert_tail L o lf A J reqlen (lg, sx) (lg', sx) E b d HJ ltac:(lia) ltac:(lia) Hx' Hel
    ltac:(unfold o; lia) eq_refl Hwb ltac:(unfold reqlen in *; lia)) as Htail.
  cbn [mbind option_bind] in Htail.
  rewrite Htail. cbn [mbind option_bind]. clear Htail Hmove m1. subst E.
  destruct (insert_cascade L lf A J reqlen (lg, sx) (lg', sx) d b)
    as (rest' & t' & o' & -> & Hwf' & Hst & Ht' & Hlt' & Ho');
    [by destruct Hlen|unfold reqlen in *; lia|unfold reqlen; lia|done|done|intros H0; by rewrite (Hd0 H0)
    |done|done|unfold L, reqlen in *; lia|unfold L, reqlen in *; cbn [length] in Hcb; lia|].
  cbn [mbind option_bind].
  destruct (Hent t' o' lf A J (ent reqlen (lg', sx) ++ ents (Z.of_nat (elen (lg', sx))) rest' ++ [ZIP_END]) pv
    (length a + length ((lg, sx) :: b))%nat) as (l' & -> & Hl'); [done| | |].
  { lia. }
  { unfold reqlen in HJ. fold e. lia. }
  exists (hdr t' o' l' ++ A ++ ent pv e ++ ent reqlen (lg', sx) ++ ents (Z.of_nat (elen (lg', sx))) rest' ++ [ZIP_END]).
  exists (e :: (lg', sx) :: rest').
  assert (last_len 0 a = pv) as Hpve by done.
  split; [done|]. split.
  - exists l'.
    assert (Z.of_nat (length (hdr t' o' l' ++ A ++ ent pv e ++ ent reqlen (lg', sx) ++
      ents (Z.of_nat (elen (lg', sx))) rest' ++ [ZIP_END])) = t') as Htot.
    { rewrite !length_app, length_hdr, !length_ent. cbn [length]. unfold reqlen in *. lia. }
    rewrite Htot. split_and!.
    + rewrite ents_app, (last_off_app 0) by done. fold A. rewrite Hpve. cbn [ents]. fold reqlen.
      rewrite <- !app_assoc. f_equal.
      replace o' with (10 + Z.of_nat (length A + last_off (e :: (lg', sx) :: rest'))); [done|].
      change (last_off (e :: (lg', sx) :: rest')) with (elen e + last_off ((lg', sx) :: rest'))%nat.
      unfold reqlen in *. lia.
    + apply wf_ents_app. split; [done|]. rewrite Hpve. split; [|split; [exact Hx'|exact Hwf']].
      unfold ent_ok, large. cbn [e fst snd]. split_and!; [lia|lia| |done].
      intros Hlg. by apply negb_false_iff, Z.ltb_lt in Hlg.
    + rewrite !length_app in *. cbn [length] in *.
      assert (length rest' = length b) as -> by (by rewrite <- (length_strs rest'), Hst, length_strs).
      replace (length a + S (S (length b)))%nat with (S (length a + S (length b))) by lia. done.
    + done.
  - unfold strs in *. by rewrite !fmap_cons, Hst.
Qed.

Lemma insert_ents zl a b s :
  zl_ents zl (a ++ b) -> str_ok s -> zl_fits (strs a ++ s :: strs b) ->
  exists zl' b', __ziplistInsert junk zl (10 + length (ents 0 a)) s = Some zl' /\
    zl_ents zl' (a ++ b') /\ strs b' = s :: strs b.
Proof.
  intros H Hs Hf. destruct b as [|[lg sx] b].
  - rewrite app_nil_r in H. destruct (insert_tail_end zl a s H Hs Hf) as (zl' & E & Hr).
    by exists zl', [(large (last_len 0 a), s)].
  - by apply (insert_middle zl a lg sx b s).
Qed.

(** ** Deletion *)

Lemma delete_span_spec num : forall m P pv es k,
  m = P ++ ents pv es ++ [ZIP_END] -> wf_ents pv es -> Z.of_nat (length m) < 2 ^ 32 ->
  delete_span num m (length P) k
    = Some ((length P + length (ents pv (take num es)))%nat, k + Z.of_nat (length (take num es))).
Proof.
  induction num as [|num IH]; intros m P pv es k Hm Hwf Hlt; (destruct es as [|e es]; cbn [delete_span]).
  1,3: rewrite Hm, lookup_shift0; cbn [ents app lookup list_lookup mbind option_bind];
    change (ZIP_END =? ZIP_END) with true; cbn [take ents length]; by rewrite Nat.add_0_r, Z.add_0_r.
  - destruct Hwf as [He Hwf]. cbn [ents] in Hm. rewrite <- app_assoc in Hm.
    at_entry (ent_head m P pv e _ Hm He). cbn [take ents length]. by rewrite Nat.add_0_r, Z.add_0_r.
  - destruct Hwf as [He Hwf]. cbn [ents] in Hm. rewrite <- app_assoc in Hm.
    at_entry (ent_head m P pv e _ Hm He).
    assert (Z.of_nat (elen e) < 2 ^ 32) as Hel.
    { rewrite Hm, !length_app, length_ent in Hlt. lia. }
    rewrite (zipRawEntryLength_spec m P pv e _ Hm He Hel). cbn [mbind option_bind].
    rewrite Nat2Z.id, <- (length_ent pv e), <- length_app.
    rewrite (IH m (P ++ ent pv e) (Z.of_nat (elen e)) es).
    + cbn [take ents length]. rewrite !length_app. f_equal. f_equal; lia.
    + by rewrite Hm, <- app_assoc.
    + done.
    + done.
Qed.

Lemma after_entry m P pr x stale rest :
  m = P ++ ent pr x ++ ents stale rest ++ [ZIP_END] -> wf_ents stale rest ->
  exists c, m !! (length P + elen x)%nat = Some c /\
    (c =? ZIP_END) = match rest with [] => true | _ => false end.
Proof.
  intros Hm Hwf. rewrite app_assoc in Hm.
  rewrite <- (length_ent pr x), <- length_app. destruct rest as [|f rest].
  - exists ZIP_END. by rewrite Hm, lookup_shift0.
  - destruct Hwf as [Hf _]. cbn [ents] in Hm. rewrite <- (app_assoc (ent _ f)) in Hm.
    apply (ent_head m _ _ f _ Hm Hf).
Qed.

Lemma last_len_off a : Z.of_nat (length (ents 0 a)) = Z.of_nat (last_off a) + last_len 0 a.
Proof.
  destruct a as [|e a _] using rev_ind; [done|].
  rewrite ents_app, (last_off_app 0), length_app by done. cbn [ents last_off].
  rewrite app_nil_r, length_ent, Nat.add_0_r.
  assert (forall z, last_len z (a ++ [e]) = Z.of_nat (elen e)) as ->; [|lia].
  induction a as [|f a IH]; intros z; [done|]. apply IH.
Qed.

(** Deleting everything from a position to the end. *)
Lemma delete_tail_end zl a c cs num :
  zl_ents zl (a ++ c :: cs) -> (length cs < num)%nat ->
  Z.of_nat (length (a ++ c :: cs)) < 2 ^ 30 ->
  exists zl', __ziplistDelete junk zl (10 + length (ents 0 a)) num = Some zl' /\ zl_ents zl' a.
Proof.
  intros H Hnum Hcnt. unfold __ziplistDelete.
  destruct (zl_entry_at zl a c cs H) as (P & HP & Hzl0 & Hc & Hwc & _). rewrite <- HP.
  destruct (zipEntry_spec zl P _ c _ Hzl0 Hc) as (ze & -> & _ & Hpl & _). cbn [mbind option_bind].
  destruct (zl_ents_parts zl a _ H) as (lf & Hzl & Hwa & Hwb & Hlen & Hlt & Hl).
  rewrite (delete_span_spec num zl P (last_len 0 a) (c :: cs) 0) by (done || (rewrite Hzl0; cbn [ents]; by rewrite <- app_assoc)).
  cbn [mbind option_bind]. rewrite take_ge by (cbn [length]; lia).
  set (pv := last_len 0 a) in *. set (C := ents pv (c :: cs)) in *.
  pose proof (elen_pos c) as Hcp. assert (elen c <= length C)%nat as HC.
  { unfold C. cbn [ents]. rewrite length_app, length_ent. lia. }
  rewrite Z.gtb_ltb, (proj2 (Z.ltb_lt _ _)) by lia.
  assert (zl !! (length P + length C)%nat = Some ZIP_END) as ->.
  { rewrite Hzl. rewrite <- length_hdr with (t := Z.of_nat (length zl)) (o := 10 + Z.of_nat (last_off (a ++ c :: cs))) (l := lf) in HP.
    rewrite HP, <- length_app, <- length_app, app_assoc. apply lookup_shift0. }
  cbn [mbind option_bind]. change (ZIP_END =? ZIP_END) with true. cbn [negb].
  rewrite HP, Hpl. pose proof (last_len_off a) as Hoff. fold pv in Hoff.
  remember (length zl) as N eqn:HN. clear HN. rewrite Hzl. clear Hzl Hzl0 P HP H zl.
  rewrite <- !app_assoc, hdr_set_tail. cbn [mbind option_bind]. rewrite hdr_bytes by lia. cbn [mbind option_bind].
  assert (u32 (Z.of_nat (10 + length (ents 0 a)) - pv) = 10 + Z.of_nat (last_off a)) as ->.
  { rewrite wrapu_small; [lia|]. pose proof (last_off_le 0 a). ints. }
  rewrite (ziplistResize_shrink _ _ _ (ents 0 a) (C ++ [ZIP_END])); [|by destruct C|lia|lia].
  cbn [mbind option_bind].
  destruct (hdr_incr (Z.of_nat N - (Z.of_nat (10 + length (ents 0 a) + length C) - Z.of_nat (10 + length (ents 0 a))) + 0)
    (10 + Z.of_nat (last_off a)) lf (ents 0 a ++ [ZIP_END]) (length (a ++ c :: cs)) (- Z.of_nat (length (c :: cs))) Hlen)
    as (l' & Hi & Hl'); [rewrite length_app in *; cbn [length] in *; lia|lia|].
  cbn [length] in *. rewrite Z.add_0_l in *. rewrite Hi. cbn [mbind option_bind].
  change (0 =? 0) with true. cbn [negb]. eexists. split; [done|].
  exists l'. split_and!.
  - rewrite !length_app, length_hdr. cbn [length]. f_equal. f_equal. lia.
  - done.
  - rewrite length_app in Hl'. cbn [length] in Hl'.
    replace (length a) with (Z.to_nat (Z.of_nat (length a + S (length cs)) + - Z.of_nat (S (length cs)))) by lia. done.
  - rewrite !length_app, length_hdr. cbn [length]. lia.
Qed.

(** Writing the predecessor field of the entry after the deleted ones. *)
Lemma delete_shift t o l A C pvx lg s E pv d :
  let lg' := large pv in
  Z.of_nat (psz lg') = Z.of_nat (psz lg) + d -> d <= Z.of_nat (length C) ->
  exists C',
    Z.of_nat (length C') = Z.of_nat (length C) - d + 0 /\
    wrn (hdr t o l ++ A ++ C ++ ent pvx (lg, s) ++ E ++ [ZIP_END])
      (Z.to_nat (Z.of_nat (10 + length A + length C) - d)) (zipPrevEncodeLength pv)
    = Some (hdr t o l ++ A ++ C' ++ ent pv (lg', s) ++ E ++ [ZIP_END]) /\
    length C' = Z.to_nat (Z.of_nat (length C) - d).
Proof.
  cbn zeta. intros Hd HdC. unfold ent. cbn [fst snd].
  set (W := C ++ prev_bytes lg pvx).
  assert (length W = length C + psz lg)%nat as HW by (unfold W; by rewrite length_app, length_prev_bytes).
  destruct (list_split3 W (Z.to_nat (Z.of_nat (length C) - d)) (psz (large pv))) as (C' & K & z & EW & HC' & HK); [lia|].
  assert (z = []) as ->. { apply nil_length_inv. apply (f_equal length) in EW. rewrite !length_app in EW. lia. }
  rewrite app_nil_r in EW. exists C'. split; [lia|]. split; [|done].
  replace (hdr t o l ++ A ++ C ++ (prev_bytes lg pvx ++ body s) ++ E ++ [ZIP_END])
    with ((hdr t o l ++ A ++ C') ++ K ++ (body s ++ E ++ [ZIP_END])).
  2: { rewrite <- !app_assoc. do 2 f_equal. rewrite (app_assoc C' K), <- EW. unfold W. by rewrite <- !app_assoc. }
  rewrite prev_bytes_large, wrn_app.
  - by rewrite <- !app_assoc.
  - rewrite !length_app, length_hdr. lia.
  - by rewrite length_prev_bytes.
Qed.

(** The cascade after the first entry of what follows changed its size. *)
Lemma delete_cascade L lf A pv x x' d b :
  0 <= lf <= UINT16_MAX -> ent_ok pv x' -> Z.of_nat (elen x') = Z.of_nat (elen x) + d ->
  (d = 0 -> x' = x) -> wf_ents (Z.of_nat (elen x)) b ->
  L = Z.of_nat (11 + length A + elen x' + length (ents (Z.of_nat (elen x)) b)) ->
  L + 4 * Z.of_nat (length b) < 2 ^ 32 ->
  exists rest' t' o',
    (if negb (d =? 0)
     then __ziplistCascadeUpdate junk
       (hdr L (Z.of_nat (10 + length A + last_off (x' :: b))) lf
        ++ A ++ ent pv x' ++ ents (Z.of_nat (elen x)) b ++ [ZIP_END]) (10 + length A)
     else Some (hdr L (Z.of_nat (10 + length A + last_off (x' :: b))) lf
        ++ A ++ ent pv x' ++ ents (Z.of_nat (elen x)) b ++ [ZIP_END]))
    = Some (hdr t' o' lf ++ A ++ ent pv x' ++ ents (Z.of_nat (elen x')) rest' ++ [ZIP_END]) /\
    wf_ents (Z.of_nat (elen x')) rest' /\ strs rest' = strs b /\
    t' = Z.of_nat (11 + length A + elen x' + length (ents (Z.of_nat (elen x')) rest')) /\
    t' < 2 ^ 32 /\ o' = Z.of_nat (10 + length A + last_off (x' :: rest')).
Proof.
  intros Hlf Hx' Hel Hd0 Hwf HL Hlim. destruct (Z.eqb_spec d 0) as [->|Hd]; cbn [negb].
  { rewrite (Hd0 eq_refl) in *. exists b, L, (Z.of_nat (10 + length A + last_off (x :: b))).
    split_and!; try done. lia. }
  unfold __ziplistCascadeUpdate.
  set (o := Z.of_nat (10 + length A + last_off (x' :: b))).
  set (m := hdr L o lf ++ A ++ ent pv x' ++ ents (Z.of_nat (elen x)) b ++ [ZIP_END]).
  assert (length b < length m)%nat as Hfuel.
  { unfold m. rewrite !length_app. pose proof (ents_size (Z.of_nat (elen x)) b). cbn. lia. }
  assert (ZIPLIST_BYTES m = Some L) as -> by (apply hdr_bytes; lia). cbn [mbind option_bind].
  destruct (cascade_spec (length m) L o lf A pv x' (Z.of_nat (elen x)) b)
    as (rest' & t' & o' & Hc & Hwf' & Hst & Ht' & Hlt' & _ & Ho'); try done.
  { unfold UINT16_MAX in *. lia. }
  by exists rest', t', o'.
Qed.

(** The two updates of the tail offset after the predecessor field changed. *)
Lemma delete_tail_offset t lf A C' pv x x' E d b :
  E = ents (Z.of_nat (elen x)) b -> wf_ents (Z.of_nat (elen x)) b -> ent_ok pv x' ->
  Z.of_nat (elen x') = Z.of_nat (elen x) + d -> d <= 4 ->
  Z.of_nat (30 + length A + elen x + length E) < 2 ^ 32 ->
  let m := hdr t (Z.of_nat (10 + length A + last_off (x :: b))) lf ++ A ++ C' ++ ent pv x' ++ E ++ [ZIP_END] in
  forall (B : Type) (k : bytes -> option B),
  (tail ← zipEntry m (10 + length A + length C');
   c ← m !! (10 + length A + length C' + Z.to_nat (headersize tail + len tail))%nat;
   zl ← (if negb (c =? ZIP_END) then
           t ← ZIPLIST_TAIL_OFFSET m; set_tail_offset m (u32 (t + d))
         else Some m);
   k zl)
  = k (hdr t (Z.of_nat (10 + length A + last_off (x' :: b))) lf ++ A ++ C' ++ ent pv x' ++ E ++ [ZIP_END]).
Proof.
  intros -> Hwf Hx' Hel Hd Hlim m B k.
  pose proof (last_off_le pv (x :: b)) as Hlo. cbn [ents] in Hlo. rewrite length_app, length_ent in Hlo.
  set (o := Z.of_nat (10 + length A + last_off (x :: b))) in *.
  assert (m = (hdr t o lf ++ A ++ C') ++ ent pv x' ++ ents (Z.of_nat (elen x)) b ++ [ZIP_END]) as Hm
    by (unfold m; by rewrite <- !app_assoc).
  replace (10 + length A + length C')%nat with (length (hdr t o lf ++ A ++ C'))
    by (rewrite !length_app, length_hdr; lia).
  destruct (zipEntry_spec m _ pv x' _ Hm Hx') as (ze & -> & _ & _ & Hsz & _). cbn [mbind option_bind].
  rewrite Hsz, Nat2Z.id. destruct (after_entry m _ pv x' _ b Hm Hwf) as (c & -> & Hc).
  cbn [mbind option_bind]. rewrite Hc. unfold m. destruct b as [|f b]; cbn [negb].
  - cbn [mbind option_bind]. replace o with (Z.of_nat (10 + length A + last_off [x'])); [done|].
    unfold o. cbn [last_off]. lia.
  - rewrite hdr_tail by lia. cbn [mbind option_bind]. rewrite hdr_set_tail, wrapu_small.
    2: { unfold o. cbn [last_off] in *. ints. }
    cbn [mbind option_bind].
    replace (o + d) with (Z.of_nat (10 + length A + last_off (x' :: f :: b))); [done|].
    unfold o. cbn [last_off] in *. lia.
Qed.

Lemma delete_move t o l A C' (F : bytes) :
  exists z, z <> [] /\
    memmove (hdr t o l ++ A ++ C' ++ F ++ [ZIP_END]) (10 + length A) (10 + length A + length C') (length F)
    = Some (hdr t o l ++ A ++ F ++ z).
Proof.
  destruct (list_split3 (C' ++ F ++ [ZIP_END]) 0 (length F)) as (z0 & D & z & E & Hz0 & HD).
  { rewrite !length_app. lia. }
  destruct z0; [|done]. cbn [app] in E. exists z. split.
  { intros ->. apply (f_equal length) in E. rewrite !length_app in E. cbn [length] in E. lia. }
  rewrite (memmove_app _ (hdr t o l ++ A ++ C') F [ZIP_END] (hdr t o l ++ A) D z).
  - by rewrite <- !app_assoc.
  - by rewrite <- !app_assoc.
  - by rewrite E, <- !app_assoc.
  - rewrite !length_app, length_hdr. lia.
  - done.
  - by rewrite length_app, length_hdr.
  - done.
Qed.

Lemma delete_middle zl a c cs lg sx b :
  zl_ents zl (a ++ (c :: cs) ++ (lg, sx) :: b) ->
  zl_fits (strs (a ++ (c :: cs) ++ (lg, sx) :: b)) ->
  exists zl' b', __ziplistDelete junk zl (10 + length (ents 0 a)) (length (c :: cs)) = Some zl' /\
    zl_ents zl' (a ++ b') /\ strs b' = sx :: strs b.
Proof.
  intros H Hfits. unfold __ziplistDelete.
  destruct (zl_entry_at zl a c (cs ++ (lg, sx) :: b) H) as (P & HP & Hzl0 & Hc & Hwc & _). rewrite <- HP.
  destruct (zipEntry_spec zl P _ c _ Hzl0 Hc) as (ze & -> & _ & Hpl & _). cbn [mbind option_bind].
  destruct (zl_ents_parts zl a _ H) as (lf & Hzl & Hwa & Hwb & Hlen & Hlt & Hl).
  rewrite (delete_span_spec _ zl P (last_len 0 a) ((c :: cs) ++ (lg, sx) :: b) 0)
    by (done || (rewrite Hzl0; cbn [ents app]; by rewrite <- app_assoc)).
  cbn [mbind option_bind]. rewrite take_app_length.
  set (pv := last_len 0 a) in *. set (C := ents pv (c :: cs)) in *.
  set (pvx := last_len pv (c :: cs)). set (E := ents (Z.of_nat (elen (lg, sx))) b).
  pose proof (elen_pos c) as Hcp. assert (elen c <= length C)%nat as HC.
  { unfold C. cbn [ents]. rewrite length_app, length_ent. lia. }
  rewrite Z.gtb_ltb, (proj2 (Z.ltb_lt _ _)) by lia.
  rewrite ents_app in Hzl, Hl. fold C pvx in Hzl, Hl. cbn [ents] in Hzl, Hl. fold E in Hzl, Hl.
  apply wf_ents_app in Hwb as [_ [Hx Hwb]]. fold pvx in Hx.
  set (t := Z.of_nat (length zl)) in *. set (A := ents 0 a) in *.
  assert (zl = (hdr t (10 + Z.of_nat (last_off (a ++ (c :: cs) ++ (lg, sx) :: b))) lf ++ A ++ C)
    ++ ent pvx (lg, sx) ++ E ++ [ZIP_END]) as Hzl1 by (rewrite Hzl; by rewrite <- !app_assoc).
  assert (length (hdr t (10 + Z.of_nat (last_off (a ++ (c :: cs) ++ (lg, sx) :: b))) lf ++ A ++ C)
    = length P + length C)%nat as HP1 by (rewrite !length_app, length_hdr; lia).
  rewrite <- HP1. at_entry (ent_head zl _ _ _ _ Hzl1 Hx). cbn [negb].
  unfold zipPrevLenByteDiff. rewrite (decode_prevlensize zl _ _ _ _ Hzl1 Hx). cbn [mbind option_bind fst].
  rewrite Hpl, prev_bytes_large, length_prev_bytes.
  set (d := Z.of_nat (psz (large pv)) - Z.of_nat (psz lg)).
  assert (d <= Z.of_nat (length C) /\ -4 <= d <= 4) as [HdC Hd4].
  { destruct Hc as (Hpv & Hclg & _). unfold d, large in *. destruct (Z.ltb_spec pv ZIP_BIGLEN); cbn [negb psz].
    - destruct lg; cbn [psz]; lia.
    - destruct c as [[|] sc]; [|specialize (Hclg eq_refl); lia]. unfold elen in HC. cbn [fst snd psz] in HC.
      destruct lg; cbn [psz]; lia. }
  rewrite HP1, HP. clear HP1 Hzl1 Hzl0 P HP.
  assert (o_eq : 10 + Z.of_nat (last_off (a ++ (c :: cs) ++ (lg, sx) :: b))
    = Z.of_nat (10 + length A + length C + last_off ((lg, sx) :: b))).
  { rewrite (last_off_app 0), (last_off_app pv) by done. fold A C. lia. }
  rewrite o_eq in Hzl. clear o_eq.
  assert (t = Z.of_nat (11 + length A + length C + elen (lg, sx) + length E)) as Ht.
  { rewrite !length_app, length_ent in Hl. unfold t. lia. }
  pose proof (ents_bound 0 (a ++ (c :: cs) ++ (lg, sx) :: b)) as Hbnd.
  pose proof (zl_bound_count (strs (a ++ (c :: cs) ++ (lg, sx) :: b))) as Hcnt.
  unfold zl_fits in Hfits. rewrite length_strs in Hcnt.
  rewrite !ents_app in Hbnd. fold A pv in Hbnd. fold C pvx in Hbnd. cbn [ents] in Hbnd. fold E in Hbnd.
  rewrite !length_app, length_ent in Hbnd. rewrite !length_app in Hcnt. cbn [length] in Hcnt.
  assert (t + 4 * Z.of_nat (length b) < 2 ^ 31 + 2 ^ 30) as Hlim by lia.
  clearbody t. rewrite Hzl. clear Hzl H zl Hl. rewrite <- !app_assoc.
  destruct (delete_shift t (Z.of_nat (10 + length A + length C + last_off ((lg, sx) :: b))) lf A C pvx lg sx E pv d)
    as (C' & _ & Hw & HC'); [unfold d; lia|done|].
  rewrite prev_bytes_large in Hw. rewrite Hw. clear Hw. cbn [mbind option_bind].
  set (x := (lg, sx)) in *. set (x' := (large pv, sx)).
  assert (Z.of_nat (elen x') = Z.of_nat (elen x) + d) as Hel by (unfold elen, x, x', d; cbn [fst snd]; lia).
  assert (0 <= pv < 2 ^ 32) as Hpv by (by destruct Hc).
  assert (ent_ok pv x') as Hx'.
  { unfold ent_ok, x', large. cbn [fst snd]. destruct Hx as (_ & _ & Hsx). split_and!; [lia|lia| |done].
    intros Hlg. by apply negb_false_iff, Z.ltb_lt in Hlg. }
  assert (d = 0 -> x' = x) as Hd0.
  { unfold d, x', x. intros H0. f_equal. by destruct (large pv), lg. }
  clearbody d.
  pose proof (last_off_le pvx (x :: b)) as Hlo. cbn [ents] in Hlo. rewrite length_app, length_ent in Hlo.
  fold E in Hlo.
  rewrite hdr_tail by lia. cbn [mbind option_bind]. rewrite hdr_set_tail. cbn [mbind option_bind].
  replace (Z.of_nat (10 + length A + length C + last_off (x :: b)) -
    (Z.of_nat (10 + length A + length C) - Z.of_nat (10 + length A)))
    with (Z.of_nat (10 + length A + last_off (x :: b))) by lia.
  rewrite wrapu_small by ints.
  replace (Z.to_nat (Z.of_nat (10 + length A + length C) - d)) with (10 + length A + length C')%nat by lia.
  rewrite (delete_tail_offset t lf A C' pv x x' E d b) by (done || lia). cbn [mbind option_bind].
  set (o2 := Z.of_nat (10 + length A + last_off (x' :: b))).
  rewrite hdr_bytes by lia. cbn [mbind option_bind].
  destruct (delete_move t o2 lf A C' (ent pv x' ++ E)) as (z & Hz & Hmove).
  rewrite length_app, length_ent in Hmove. rewrite <- !app_assoc in Hmove.
  replace (Z.to_nat (t - Z.of_nat (10 + length A + length C') - 1)) with (elen x' + length E)%nat by lia.
  rewrite Hmove. cbn [mbind option_bind]. rewrite hdr_bytes by lia. cbn [mbind option_bind].
  set (L := t - (Z.of_nat (10 + length A + length C) - Z.of_nat (10 + length A)) + d).
  replace (hdr t o2 lf ++ A ++ ent pv x' ++ E ++ z) with (hdr t o2 lf ++ (A ++ ent pv x' ++ E) ++ z)
    by (by rewrite <- !app_assoc).
  rewrite (ziplistResize_shrink _ _ _ (A ++ ent pv x' ++ E) z L);
    [|done|unfold L; rewrite !length_app, length_ent; lia|unfold L; lia].
  cbn [mbind option_bind].
  destruct (hdr_incr L o2 lf ((A ++ ent pv x' ++ E) ++ [ZIP_END]) (length (a ++ (c :: cs) ++ x :: b))
    (- (0 + Z.of_nat (length (c :: cs)))) Hlen) as (l' & -> & Hl');
    [rewrite !length_app in *; cbn [length] in *; lia|lia|].
  cbn [mbind option_bind]. rewrite <- !app_assoc. unfold o2, E.
  destruct (delete_cascade L l' A pv x x' d b)
    as (rest' & t' & o' & -> & Hwf' & Hst & Ht' & Hlt' & Ho');
    [by destruct Hl'|done|done|done|done|fold E; unfold L; lia|unfold L; lia|].
  exists (hdr t' o' l' ++ A ++ ent pv x' ++ ents (Z.of_nat (elen x')) rest' ++ [ZIP_END]), (x' :: rest').
  split; [done|].
  assert (length rest' = length b) as Hlb by (by rewrite <- (length_strs rest'), Hst, length_strs).
  split; [|unfold strs in *; by rewrite !fmap_cons, Hst].
  exists l'.
  assert (Z.of_nat (length (hdr t' o' l' ++ A ++ ent pv x' ++ ents (Z.of_nat (elen x')) rest' ++ [ZIP_END])) = t') as ->.
  { rewrite !length_app, length_hdr, length_ent. cbn [length]. lia. }
  split_and!.
  - rewrite ents_app, (last_off_app 0) by done. fold A pv. cbn [ents]. rewrite <- !app_assoc.
    replace o' with (10 + Z.of_nat (length A + last_off (x' :: rest'))) by lia. done.
  - apply wf_ents_app. split; [done|]. split; [done|exact Hwf'].
  - rewrite !length_app in *. cbn [length] in *. rewrite Hlb.
    replace (length a + S (length b))%nat
      with (Z.to_nat (Z.of_nat (length a + (S (length cs) + S (length b))) + - (0 + Z.of_nat (S (length cs))))) by lia.
    done.
  - done.
Qed.

Lemma delete_ents zl a e b num :
  zl_ents zl (a ++ e :: b) -> zl_fits (strs (a ++ e :: b)) ->
  exists zl' b', __ziplistDelete junk zl (10 + length (ents 0 a)) num = Some zl' /\
    zl_ents zl' (a ++ b') /\ strs b' = drop num (strs (e :: b)).
Proof.
  intros H Hf. destruct (decide (num <= length b)%nat) as [Hle|Hgt].
  - destruct num as [|num].
    + exists zl, (e :: b). split_and!; [|done|done]. unfold __ziplistDelete.
      destruct (zl_entry_at zl a e b H) as (P & <- & Hzl & He & Hwb & Hlt).
      destruct (zipEntry_spec zl P _ e _ Hzl He) as (ze & -> & _). cbn [mbind option_bind].
      destruct (zl_ents_parts zl a _ H) as (_ & _ & _ & _ & _ & Hsz & _).
      rewrite (delete_span_spec 0 zl P (last_len 0 a) (e :: b) 0)
        by (done || (rewrite Hzl; cbn [ents]; by rewrite <- app_assoc)).
      cbn [take ents length mbind option_bind]. by rewrite Nat.add_0_r, Z.sub_diag.
    + destruct (drop num b) as [|[lg sx] b'] eqn:Ed.
      { apply (f_equal length) in Ed. rewrite length_drop in Ed. cbn [length] in Ed. lia. }
      assert (e :: b = (e :: take num b) ++ (lg, sx) :: b') as Eb by (cbn [app]; by rewrite <- Ed, take_drop).
      rewrite Eb in H, Hf.
      destruct (delete_middle zl a e (take num b) lg sx b' H Hf) as (zl' & b2 & Hd & Hr & Hs).
      replace (length (e :: take num b)) with (S num) in Hd by (cbn [length]; rewrite length_take; lia).
      exists zl', b2. split_and!; [done|done|]. rewrite Hs, Eb. unfold strs. rewrite <- fmap_drop.
      replace (S num) with (length (e :: take num b)) by (cbn [length]; rewrite length_take; lia).
      by rewrite drop_app_length.
  - pose proof (zl_bound_count (strs (a ++ e :: b))) as Hc. rewrite length_strs in Hc. unfold zl_fits in Hf.
    destruct (delete_tail_end zl a e b num H) as (zl' & Hd & Hr); [lia|lia|].
    exists zl', []. rewrite app_nil_r. split_and!; [done|done|].
    rewrite drop_ge; [done|]. rewrite length_strs. cbn [length]. lia.
Qed.

(** ** Cursors *)

(** The position [p] of [zl] stands between the strings [pre] and [post]. *)
Definition zl_cursor (zl : bytes) (pre post : list bytes) (p : nat) : Prop :=
  exists a b, zl_ents zl (a ++ b) /\ strs a = pre /\ strs b = post /\
    p = (10 + length (ents 0 a))%nat.

Lemma cursor_rep zl pre post p : zl_cursor zl pre post p -> zl_rep zl (pre ++ post).
Proof.
  intros (a & b & H & <- & <- & _). exists (a ++ b). split; [done|]. apply strs_app.
Qed.

Lemma rep_cursor zl pre post :
  zl_rep zl (pre ++ post) -> exists p, zl_cursor zl pre post p.
Proof.
  intros (es & H & Hs). unfold strs in Hs. apply fmap_app_inv in Hs as (a & b & -> & -> & ->).
  by exists (10 + length (ents 0 a))%nat, a, b.
Qed.

Lemma cursor_cons zl pre x post p :
  zl_cursor zl pre (x :: post) p ->
  exists a e b, zl_ents zl (a ++ e :: b) /\ strs a = pre /\ e.2 = x /\ strs b = post /\
    p = (10 + length (ents 0 a))%nat.
Proof.
  intros (a & [|e b] & H & <- & Hs & ->); [done|]. unfold strs in *. rewrite fmap_cons in Hs.
  injection Hs as <- <-. by exists a, e, b.
Qed.

Lemma cursor_head zl xs : zl_rep zl xs -> zl_cursor zl [] xs ZIPLIST_ENTRY_HEAD.
Proof. intros (es & H & <-). by exists [], es. Qed.

Lemma ziplistNew_rep : exists zl, ziplistNew junk = Some zl /\ zl_rep zl [].
Proof.
  exists (hdr 11 10 0 ++ [ZIP_END]). split; [reflexivity|].
  exists []. split; [|done]. exists 0. by split_and!.
Qed.

Lemma cursor_end zl xs :
  zl_rep zl xs -> exists p, ZIPLIST_ENTRY_END zl = Some p /\ zl_cursor zl xs [] p.
Proof.
  intros (es & H & <-). pose proof H as H0. rewrite <- (app_nil_r es) in H.
  exists (10 + length (ents 0 es))%nat. split; [|by exists es, []].
  unfold ZIPLIST_ENTRY_END. rewrite (zl_bytes zl es H0). cbn [mbind option_bind].
  apply zl_ents_parts in H as (lf & _ & _ & _ & _ & _ & Hl). cbn [ents length] in Hl.
  unfold ZIPLIST_END_SIZE in *. f_equal. lia.
Qed.

(** *** Changing the list *)

Lemma ziplistInsert_cursor zl pre post p s :
  zl_cursor zl pre post p -> str_ok s -> zl_fits (pre ++ s :: post) ->
  exists zl', ziplistInsert junk zl p s = Some zl' /\ zl_cursor zl' pre (s :: post) p.
Proof.
  intros (a & b & H & <- & <- & ->) Hs Hf.
  destruct (insert_ents zl a b s H Hs Hf) as (zl' & b' & Hi & Hr & Hb).
  exists zl'. split; [exact Hi|]. by exists a, b'.
Qed.

Lemma ziplistPush_rep zl xs s w :
  zl_rep zl xs -> str_ok s -> zl_fits (s :: xs) ->
  exists zl', ziplistPush junk zl s w = Some zl' /\
    zl_rep zl' (match w with ZIPLIST_HEAD => s :: xs | ZIPLIST_TAIL => xs ++ [s] end).
Proof.
  intros H Hs Hf. unfold ziplistPush. destruct w; cbn [mbind option_bind].
  - destruct (ziplistInsert_cursor zl [] xs _ s (cursor_head zl xs H) Hs Hf) as (zl' & Hi & Hc).
    exists zl'. split; [exact Hi|]. apply (cursor_rep _ _ _ _ Hc).
  - destruct (cursor_end zl xs H) as (p & -> & Hc). cbn [mbind option_bind].
    destruct (ziplistInsert_cursor zl xs [] p s Hc Hs) as (zl' & Hi & Hc').
    { unfold zl_fits in *. rewrite zl_bound_cons in Hf. rewrite zl_bound_app, zl_bound_cons. cbn [zl_bound]. lia. }
    exists zl'. split; [exact Hi|]. apply (cursor_rep _ _ _ _ Hc').
Qed.

Lemma delete_cursor zl pre x post p num :
  zl_cursor zl pre (x :: post) p -> zl_fits (pre ++ x :: post) ->
  exists zl', __ziplistDelete junk zl p num = Some zl' /\ zl_cursor zl' pre (drop num (x :: post)) p.
Proof.
  intros (a & e & b & H & <- & <- & <- & ->)%cursor_cons Hf.
  destruct (delete_ents zl a e b num H) as (zl' & b' & Hd & Hr & Hb).
  { by rewrite strs_app. }
  exists zl'. split; [exact Hd|]. exists a, b'. by split_and!.
Qed.

Lemma ziplistDelete_cursor zl pre x post p :
  zl_cursor zl pre (x :: post) p -> zl_fits (pre ++ x :: post) ->
  exists zl', ziplistDelete junk zl p = Some (zl', p) /\ zl_cursor zl' pre post p.
Proof.
  intros H Hf. destruct (delete_cursor zl pre x post p 1 H Hf) as (zl' & Hd & Hc).
  exists zl'. split; [|exact Hc]. unfold ziplistDelete. by rewrite Hd.
Qed.

End Proofs.

(** *** Moving and reading *)

Lemma cursor_lookup zl pre post p :
  zl_cursor zl pre post p ->
  exists c, zl !! p = Some c /\ (c =? ZIP_END) = match post with [] => true | _ => false end.
Proof.
  intros (a & b & H & <- & <- & ->). destruct (zl_at zl a b H) as (c & Hc & E).
  exists c. split; [done|]. rewrite E. by destruct b.
Qed.

Lemma last_len_snoc prev a e : last_len prev (a ++ [e]) = Z.of_nat (elen e).
Proof. revert prev. induction a as [|f a IH]; intros prev; [done|]. apply IH. Qed.

Lemma length_ents_snoc prev a e :
  length (ents prev (a ++ [e])) = (length (ents prev a) + elen e)%nat.
Proof. rewrite ents_app, length_app. cbn [ents]. by rewrite app_nil_r, length_ent. Qed.

(** One entry forward: the raw length of the entry. *)
Lemma cursor_forward zl pre x post p :
  zl_cursor zl pre (x :: post) p -> exists l, zipRawEntryLength zl p = Some l /\
    zl_cursor zl (pre ++ [x]) post (p + Z.to_nat l).
Proof.
  intros (a & e & b & H & <- & <- & <- & ->)%cursor_cons.
  destruct (zl_entry_at zl a e b H) as (P & <- & Hzl & He & _ & Hlt).
  exists (Z.of_nat (elen e)). split; [by apply (zipRawEntryLength_spec zl P _ e _ Hzl He)|].
  destruct (zl_entry_at zl a e b H) as (P' & HP' & Hzl' & _).
  assert (length P = length P') as ->.
  { apply (f_equal length) in Hzl, Hzl'. rewrite length_app in Hzl, Hzl'. lia. }
  exists (a ++ [e]), b. rewrite <- app_assoc. split_and!; [done|apply strs_app|done|].
  rewrite length_ents_snoc. lia.
Qed.

(** The length of the entry before, and one entry back. *)
Lemma cursor_prevlen zl pre x post p :
  zl_cursor zl pre (x :: post) p -> exists sz l, ZIP_DECODE_PREVLEN zl p = Some (sz, l) /\
    0 <= l /\ (l = 0 <-> pre = []) /\
    forall pre' y, pre = pre' ++ [y] -> zl_cursor zl pre' (y :: x :: post) (p - Z.to_nat l).
Proof.
  intros (a & e & b & H & <- & <- & <- & ->)%cursor_cons.
  destruct (zl_entry_at zl a e b H) as (P & HP & Hzl & He & _).
  exists (Z.of_nat (psz e.1)), (last_len 0 a). rewrite <- HP.
  split; [by apply (decode_prevlen zl P _ e _ Hzl He)|]. split; [apply He|].
  destruct a as [|f a _] using rev_ind.
  { split; [by split|]. intros pre' y E. apply (f_equal length) in E. rewrite length_app in E. cbn in E. lia. }
  rewrite last_len_snoc. pose proof (elen_pos f). split.
  { split; [lia|]. rewrite strs_app. intros E. by apply app_eq_nil in E as [_ ?]. }
  intros pre' y E. rewrite strs_app in E. apply app_inj_2 in E as [<- E]; [|done]. injection E as <-.
  rewrite <- app_assoc in H. exists a, (f :: e :: b). split_and!; [done|done|done|].
  rewrite HP, length_ents_snoc. lia.
Qed.

Lemma index_forward_spec zl : forall n pre post p i,
  zl_cursor zl pre post p -> (length post <= n)%nat -> 0 <= i ->
  exists q, (if i <? Z.of_nat (length post)
             then index_forward n zl p i = Some (q, -1) /\
                  zl_cursor zl (pre ++ take (Z.to_nat i) post) (drop (Z.to_nat i) post) q
             else index_forward n zl p i = Some (q, i - Z.of_nat (length post)) /\
                  zl_cursor zl (pre ++ post) [] q).
Proof.
  induction n as [|n IH]; intros pre post p i H Hn Hi;
    (destruct (cursor_lookup zl pre post p H) as (c & Hc & E);
     destruct post as [|x post]; cbn [index_forward]; rewrite Hc; cbn [mbind option_bind]; rewrite E; cbn [negb]).
  1,3: exists p; cbn [length]; rewrite (proj2 (Z.ltb_ge i (Z.of_nat 0))), app_nil_r by lia;
    by rewrite Z.sub_0_r.
  - cbn [length] in Hn. lia.
  - destruct (Z.eqb_spec i 0) as [->|Hi0].
    { exists p. cbn [length]. rewrite (proj2 (Z.ltb_lt 0 _)) by lia. change (Z.to_nat 0) with 0%nat.
      cbn [take drop]. by rewrite app_nil_r. }
    destruct (cursor_forward zl pre x post p H) as (l & -> & Hnext). cbn [mbind option_bind].
    cbn [length] in *. destruct (IH _ _ _ (i - 1) Hnext ltac:(lia) ltac:(lia)) as (q & Hq). exists q.
    replace (Z.to_nat i) with (S (Z.to_nat (i - 1))) by lia. cbn [take drop].
    rewrite <- !app_assoc in Hq. cbn [app] in Hq.
    destruct (Z.ltb_spec (i - 1) (Z.of_nat (length post))), (Z.ltb_spec i (Z.of_nat (S (length post)))); try lia.
    + done.
    + by replace (i - Z.of_nat (S (length post))) with (i - 1 - Z.of_nat (length post)) by lia.
Qed.

Lemma index_back_spec zl : forall n pre x post p i sz l,
  zl_cursor zl pre (x :: post) p -> ZIP_DECODE_PREVLEN zl p = Some (sz, l) ->
  (length pre <= n)%nat -> 0 <= i ->
  exists q j, index_back n zl p l i = Some (q, j) /\
    (if i <=? Z.of_nat (length pre)
     then j <= 0 /\ let k := (length pre - Z.to_nat i)%nat in
          zl_cursor zl (take k pre) (drop k pre ++ x :: post) q
     else 0 < j /\ exists y, zl !! q = Some y).
Proof.
  induction n as [|n IH]; intros pre x post p i sz l H Hdec Hn Hi;
    (destruct (cursor_prevlen zl pre x post p H) as (sz' & l' & Hdec' & Hl & Hl0 & Hback);
     rewrite Hdec in Hdec'; injection Hdec' as <- <-; cbn [index_back]; rewrite Z.gtb_ltb;
     destruct (Z.ltb_spec 0 l) as [Hpos|Hz]).
  - assert (pre = []) as Hnil by (destruct pre; [done|cbn [length] in Hn; lia]). apply Hl0 in Hnil. lia.
  - assert (l = 0) as El by lia. apply Hl0 in El as ->. exists p, i. split; [done|]. cbn [length].
    destruct (Z.leb_spec i (Z.of_nat 0)); [split; [lia|]; exact H|].
    split; [lia|]. destruct (cursor_lookup zl _ _ _ H) as (c & ? & _). by exists c.
  - destruct (Z.eqb_spec i 0) as [->|Hi0].
    { exists p, (-1). split; [done|]. rewrite (proj2 (Z.leb_le _ _)) by lia. split; [done|].
      cbn zeta. rewrite Nat.sub_0_r, firstn_all, drop_all. exact H. }
    destruct pre as [|y pre _] using rev_ind; [assert (l = 0) by (by apply Hl0); lia|].
    pose proof (Hback pre y eq_refl) as Hp.
    destruct (cursor_prevlen zl _ _ _ _ Hp) as (sz2 & l2 & Hd2 & _). rewrite Hd2. cbn [mbind option_bind].
    rewrite length_app in *. cbn [length] in *.
    destruct (IH _ _ _ _ (i - 1) _ _ Hp Hd2 ltac:(lia) ltac:(lia)) as (q & j & Hq & Hc).
    exists q, j. split; [exact Hq|].
    destruct (Z.leb_spec (i - 1) (Z.of_nat (length pre))), (Z.leb_spec i (Z.of_nat (length pre + 1))); try lia; [|done].
    destruct Hc as [Hj Hc]. split; [done|]. cbn zeta in *.
    replace (length pre + 1 - Z.to_nat i)%nat with (length pre - Z.to_nat (i - 1))%nat by lia.
    rewrite take_app_le, drop_app_le, <- app_assoc by lia. exact Hc.
  - assert (l = 0) as El by lia. apply Hl0 in El as ->. exists p, i. split; [done|]. cbn [length].
    destruct (Z.leb_spec i (Z.of_nat 0)); [split; [lia|]; exact H|].
    split; [lia|]. destruct (cursor_lookup zl _ _ _ H) as (c & ? & _). by exists c.
Qed.

(** The position in [xs] an index of either sign denotes. *)
Definition resolve_index (n : nat) (index : Z) : option nat :=
  if index <? 0
  then if - index <=? Z.of_nat n then Some (n - Z.to_nat (- index))%nat else None
  else if index <? Z.of_nat n then Some (Z.to_nat index) else None.

Lemma resolve_index_lt n index k : resolve_index n index = Some k -> (k < n)%nat.
Proof. unfold resolve_index. repeat case_match; intros E; inversion E; lia. Qed.

Lemma rep_size zl xs : zl_rep zl xs -> (length xs <= length zl)%nat.
Proof.
  intros (es & H & <-). rewrite length_strs.
  destruct (zl_ents_parts zl [] es H) as (_ & _ & _ & _ & _ & _ & Hl). cbn [ents length last_len] in Hl.
  pose proof (ents_size 0 es). lia.
Qed.

Lemma cursor_drop_cons (xs : list bytes) k : (k < length xs)%nat -> exists y ys, drop k xs = y :: ys.
Proof.
  intros H. destruct (drop k xs) as [|y ys] eqn:E; [|by exists y, ys].
  apply (f_equal length) in E. rewrite length_drop in E. cbn in E. lia.
Qed.

Lemma ziplistIndex_spec zl xs index :
  zl_rep zl xs ->
  match resolve_index (length xs) index with
  | Some k => exists p, ziplistIndex zl index = Some (Some p) /\ zl_cursor zl (take k xs) (drop k xs) p
  | None => ziplistIndex zl index = Some None
  end.
Proof.
  intros H. pose proof (rep_size zl xs H) as Hsz. unfold resolve_index, ziplistIndex.
  destruct (Z.ltb_spec index 0) as [Hneg|Hpos].
  - assert (exists p, ZIPLIST_ENTRY_TAIL zl = Some p /\
      zl_cursor zl (take (length xs - 1) xs) (drop (length xs - 1) xs) p) as (p & -> & Hp).
    { destruct H as (es & H & <-). exists (10 + last_off es)%nat. split; [by apply zl_tail|].
      destruct es as [|e es _] using rev_ind; [by exists [], []|].
      rewrite length_strs, length_app. cbn [length]. rewrite Nat.add_sub, strs_app.
      rewrite take_app_length', drop_app_length' by (by rewrite length_strs).
      exists es, [e]. split_and!; [done|done|done|]. rewrite (last_off_app 0) by done. cbn [last_off]. lia. }
    cbn [mbind option_bind]. destruct (cursor_lookup zl _ _ _ Hp) as (c & -> & E). cbn [mbind option_bind]. rewrite E.
    destruct xs as [|x xs _] using rev_ind; cbn [negb drop mbind option_bind].
    { cbn [length]. rewrite (proj2 (Z.leb_gt _ _)) by lia. change (drop (0 - 1) []) with (@nil bytes).
      cbn [negb mbind option_bind].
      destruct (cursor_lookup zl _ _ _ Hp) as (c' & -> & E'). cbn [mbind option_bind]. by rewrite E'. }
    rewrite length_app in *. cbn [length] in *. rewrite Nat.add_sub in *.
    rewrite take_app_length, drop_app_length in Hp. rewrite drop_app_length. cbn [negb].
    destruct (cursor_prevlen zl _ _ _ _ Hp) as (sz & l & Hd & _). rewrite Hd. cbn [mbind option_bind].
    destruct (index_back_spec zl (length zl) _ _ _ _ (- index - 1) _ _ Hp Hd ltac:(lia) ltac:(lia))
      as (q & j & -> & Hc). cbn [mbind option_bind].
    destruct (Z.leb_spec (- index) (Z.of_nat (length xs + 1))), (Z.leb_spec (- index - 1) (Z.of_nat (length xs))); try lia.
    + destruct Hc as [Hj Hc]. exists q. cbn zeta in Hc.
      replace (length xs - Z.to_nat (- index - 1))%nat with (length xs + 1 - Z.to_nat (- index))%nat in Hc by lia.
      destruct (cursor_lookup zl _ _ _ Hc) as (c' & -> & E'). cbn [mbind option_bind].
      assert ((c' =? ZIP_END) = false) as ->.
      { rewrite E'. by destruct (drop _ xs). }
      cbn [orb]. rewrite Z.gtb_ltb, (proj2 (Z.ltb_ge _ _)) by lia. split; [done|].
      rewrite take_app_le, drop_app_le by lia. exact Hc.
    + destruct Hc as [Hj (y & ->)]. cbn [mbind option_bind]. rewrite Z.gtb_ltb, (proj2 (Z.ltb_lt _ _)) by lia.
      by rewrite orb_true_r.
  - destruct (index_forward_spec zl (length zl) [] xs _ index (cursor_head zl xs H) Hsz Hpos) as (q & Hq).
    destruct (Z.ltb_spec index (Z.of_nat (length xs))) as [Hlt|Hge]; destruct Hq as [-> Hc]; cbn [mbind option_bind].
    + exists q. cbn [app] in Hc. destruct (cursor_lookup zl _ _ _ Hc) as (c & -> & E). cbn [mbind option_bind].
      destruct (cursor_drop_cons xs (Z.to_nat index)) as (y & ys & Ed); [lia|]. rewrite Ed in E. rewrite E. done.
    + destruct (cursor_lookup zl _ _ _ Hc) as (c & -> & E). cbn [mbind option_bind]. by rewrite E.
Qed.

Lemma ziplistNext_spec zl pre x post p :
  zl_cursor zl pre (x :: post) p ->
  match post with
  | [] => ziplistNext zl p = Some None
  | _ => exists q, ziplistNext zl p = Some (Some q) /\ zl_cursor zl (pre ++ [x]) post q
  end.
Proof.
  intros H. unfold ziplistNext. destruct (cursor_lookup zl _ _ _ H) as (c & -> & E).
  cbn [mbind option_bind]. rewrite E. destruct (cursor_forward zl pre x post p H) as (l & -> & Hn).
  cbn [mbind option_bind]. destruct (cursor_lookup zl _ _ _ Hn) as (c' & -> & E').
  cbn [mbind option_bind]. rewrite E'. destruct post; [done|]. by exists (p + Z.to_nat l)%nat.
Qed.

Lemma ziplistPrev_spec zl pre post p :
  zl_cursor zl pre post p ->
  match reverse pre with
  | [] => ziplistPrev zl p = Some None
  | x :: pre' => exists q, ziplistPrev zl p = Some (Some q) /\
      zl_cursor zl (reverse pre') (x :: post) q
  end.
Proof.
  intros H. unfold ziplistPrev. destruct (cursor_lookup zl _ _ _ H) as (c & -> & E).
  cbn [mbind option_bind]. rewrite E. destruct post as [|y post].
  - assert (exists q, ZIPLIST_ENTRY_TAIL zl = Some q /\
      zl_cursor zl (take (length pre - 1) pre) (drop (length pre - 1) pre) q) as (q & -> & Hq).
    { destruct H as (a & [|] & H & <- & Hs & _); [|done]. rewrite app_nil_r in H.
      exists (10 + last_off a)%nat. split; [by apply zl_tail|].
      destruct a as [|e a _] using rev_ind; [by exists [], []|].
      rewrite length_strs, length_app. cbn [length]. rewrite Nat.add_sub, strs_app.
      rewrite take_app_length', drop_app_length' by (by rewrite length_strs).
      exists a, [e]. split_and!; [done|done|done|]. rewrite (last_off_app 0) by done. cbn [last_off]. lia. }
    cbn [mbind option_bind]. destruct (cursor_lookup zl _ _ _ Hq) as (c' & -> & E').
    cbn [mbind option_bind]. rewrite E'. destruct pre as [|x pre _] using rev_ind; [done|].
    rewrite reverse_snoc. rewrite length_app in *. cbn [length] in *. rewrite Nat.add_sub in *.
    rewrite take_app_length, drop_app_length in Hq. rewrite drop_app_length.
    rewrite reverse_involutive. by exists q.
  - pose proof H as (a & b & _ & Ha & _ & Hp). destruct (cursor_prevlen zl _ _ _ _ H) as (sz & l & -> & _ & Hl0 & Hback).
    destruct pre as [|x pre _] using rev_ind.
    + destruct a; [|done]. rewrite Hp. cbn [ents length]. by rewrite decide_True.
    + rewrite reverse_snoc, reverse_involutive.
      assert (a <> []) as Hne by (intros ->; by destruct pre).
      rewrite decide_False.
      2: { rewrite Hp. unfold ZIPLIST_ENTRY_HEAD, ZIPLIST_HEADER_SIZE. destruct a as [|e a]; [done|].
           cbn [ents]. rewrite length_app, length_ent. pose proof (elen_pos e). lia. }
      cbn [mbind option_bind]. eexists. split; [done|]. by apply Hback.
Qed.

(** The string an entry's value stands for. *)
Definition value_bytes (v : zl_value) : bytes :=
  match v with VStr s => s | VInt n => decimal n end.

(** Reading the contents behind a header. *)
Lemma cursor_entry zl pre x post p :
  zl_cursor zl pre (x :: post) p -> exists ze, zipEntry zl p = Some ze /\
    headersize ze = prevrawlensize ze + lensize ze /\ ZIP_DECODE_PREVLENSIZE zl p = Some (prevrawlensize ze) /\
    0 <= prevrawlensize ze /\
    reads_body zl (p + Z.to_nat (prevrawlensize ze)) x (encoding ze) (lensize ze) (len ze) /\
    zl_cursor zl (pre ++ [x]) post (p + Z.to_nat (headersize ze + len ze)).
Proof.
  intros H. destruct (cursor_forward zl pre x post p H) as (l & Hraw & Hn).
  revert Hn. apply cursor_cons in H as (a & e & b & H & <- & <- & <- & ->). intros Hn.
  destruct (zl_entry_at zl a e b H) as (P & HP & Hzl & He & _ & Hlt). rewrite <- HP in *.
  destruct (zipEntry_spec zl P _ e _ Hzl He) as (ze & -> & Hps & _ & Hsz & Hh & Hr).
  exists ze. rewrite Hps in *. rewrite Nat2Z.id.
  rewrite (zipRawEntryLength_spec zl P _ e _ Hzl He Hlt) in Hraw. injection Hraw as <-. rewrite Hsz.
  split_and!; [done|done|by apply (decode_prevlensize zl P _ e _ Hzl He)|lia|exact Hr|exact Hn].
Qed.

Lemma ziplistGet_value zl pre x post p :
  zl_cursor zl pre (x :: post) p ->
  exists v, ziplistGet zl p = Some (Some v) /\ value_bytes v = x /\
    match v with VInt n => is_llong n | VStr _ => True end.
Proof.
  intros H. unfold ziplistGet. destruct (cursor_lookup zl _ _ _ H) as (c & -> & E).
  cbn [mbind option_bind]. rewrite E.
  destruct (cursor_entry zl _ _ _ _ H) as (ze & -> & Hh & _ & Hp0 & (_ & Hl1 & Hl2 & _ & Hr) & _).
  cbn [mbind option_bind]. rewrite Hh.
  replace (p + Z.to_nat (prevrawlensize ze + lensize ze))%nat
    with (p + Z.to_nat (prevrawlensize ze) + Z.to_nat (lensize ze))%nat by lia.
  destruct (zipTryEncoding x) as [[v e]|] eqn:Ev.
  - destruct Hr as [-> ->]. exists (VInt v). split; [done|]. by apply zipTryEncoding_Some in Ev as (Hv & -> & _).
  - destruct Hr as (-> & -> & Hr). rewrite Nat2Z.id, Hr. by exists (VStr x).
Qed.

Lemma ziplistGet_spec zl pre x post p :
  zl_cursor zl pre (x :: post) p ->
  exists v, ziplistGet zl p = Some (Some v) /\ value_bytes v = x.
Proof. intros H. destruct (ziplistGet_value zl pre x post p H) as (v & Hv & Ev & _). by exists v. Qed.

Lemma ziplistGet_end zl pre p : zl_cursor zl pre [] p -> ziplistGet zl p = Some None.
Proof.
  intros H. unfold ziplistGet. destruct (cursor_lookup zl _ _ _ H) as (c & -> & E).
  cbn [mbind option_bind]. by rewrite E.
Qed.

(** Equal strings are stored alike: an integer entry equals a string exactly
    when the string reads as that integer. *)
Lemma zipTryEncoding_inj x s v e :
  zipTryEncoding x = Some (v, e) ->
  bool_decide (x = s) = match zipTryEncoding s with Some (w, _) => v =? w | None => false end.
Proof.
  intros H. destruct (zipTryEncoding s) as [[w e']|] eqn:Es.
  - apply zipTryEncoding_Some in H as (Hv & -> & _). apply zipTryEncoding_Some in Es as (Hw & -> & _).
    destruct (Z.eqb_spec v w) as [->|Hne]; [by apply bool_decide_eq_true|].
    apply bool_decide_eq_false. intros E. apply Hne.
    assert (string2ll (decimal v) = Some v) as H1 by (by apply string2ll_spec).
    rewrite E in H1.
    assert (string2ll (decimal w) = Some w) as H2 by (by apply string2ll_spec). congruence.
  - apply bool_decide_eq_false. intros ->. congruence.
Qed.

Lemma ziplistCompare_spec zl pre x post p s :
  zl_cursor zl pre (x :: post) p -> ziplistCompare zl p s = Some (bool_decide (x = s)).
Proof.
  intros H. unfold ziplistCompare. destruct (cursor_lookup zl _ _ _ H) as (c & -> & E).
  cbn [mbind option_bind]. rewrite E.
  destruct (cursor_entry zl _ _ _ _ H) as (ze & -> & Hh & _ & Hp0 & (_ & Hl1 & Hl2 & _ & Hr) & _).
  cbn [mbind option_bind]. rewrite Hh.
  replace (p + Z.to_nat (prevrawlensize ze + lensize ze))%nat
    with (p + Z.to_nat (prevrawlensize ze) + Z.to_nat (lensize ze))%nat by lia.
  destruct (zipTryEncoding x) as [[v e]|] eqn:Ev.
  - destruct Hr as [-> Hld]. rewrite (zipTryEncoding_inj x s v e Ev).
    destruct (zipTryEncoding s) as [[w e']|]; [|done]. by rewrite Hld.
  - destruct Hr as (-> & Hlen & Hr). destruct (Z.eqb_spec (len ze) (Z.of_nat (length s))) as [El|Hne].
    + replace (length s) with (length x) by lia. by rewrite Hr.
    + rewrite bool_decide_eq_false_2; [done|]. intros ->. lia.
Qed.

Lemma ziplistDeleteRange_spec junk zl xs index num :
  zl_rep zl xs -> zl_fits xs ->
  exists zl', ziplistDeleteRange junk zl index num = Some zl' /\
    zl_rep zl' (match resolve_index (length xs) index with
                | Some k => take k xs ++ drop (k + num) xs
                | None => xs
                end).
Proof.
  intros H Hf. unfold ziplistDeleteRange. pose proof (ziplistIndex_spec zl xs index H) as Hi.
  destruct (resolve_index (length xs) index) as [k|] eqn:Ek.
  - destruct Hi as (p & -> & Hc). cbn [mbind option_bind]. apply resolve_index_lt in Ek.
    destruct (cursor_drop_cons xs k Ek) as (y & ys & Ed). rewrite Ed in Hc.
    destruct (delete_cursor junk zl _ _ _ p num Hc) as (zl' & Hd & Hc').
    { by rewrite <- Ed, take_drop. }
    exists zl'. split; [exact Hd|]. rewrite <- Ed, drop_drop in Hc'. by apply cursor_rep in Hc'.
  - rewrite Hi. cbn [mbind option_bind]. by exists zl.
Qed.

Lemma count_loop_spec zl : forall n pre post p k,
  zl_cursor zl pre post p -> (length post <= n)%nat ->
  count_loop n zl p k = Some (k + Z.of_nat (length post)).
Proof.
  induction n as [|n IH]; intros pre post p k H Hn;
    (destruct (cursor_lookup zl pre post p H) as (c & Hc & E);
     destruct post as [|x post]; cbn [count_loop]; rewrite Hc; cbn [mbind option_bind]; rewrite E).
  1,3: by cbn [length]; rewrite Z.add_0_r.
  - cbn [length] in Hn. lia.
  - destruct (cursor_forward zl pre x post p H) as (l & -> & Hnext). cbn [mbind option_bind].
    cbn [length] in *. rewrite (IH _ _ _ _ Hnext) by lia. f_equal. lia.
Qed.

Lemma ziplistLen_spec zl xs :
  zl_rep zl xs -> exists zl', ziplistLen zl = Some (Z.of_nat (length xs), zl') /\ zl_rep zl' xs.
Proof.
  intros H. pose proof (rep_size zl xs H) as Hsz. pose proof (cursor_head zl xs H) as Hc.
  destruct H as (es & H & Hs). pose proof H as (lf & Hzl & Hwf & (Hlf & Hlen) & Hlt).
  assert (length es = length xs) as El by (by rewrite <- Hs, length_strs).
  unfold ziplistLen. assert (ZIPLIST_LENGTH zl = Some lf) as ->.
  { rewrite Hzl. apply hdr_length. unfold UINT16_MAX in *. lia. }
  cbn [mbind option_bind]. destruct (Z.ltb_spec lf UINT16_MAX) as [Hl|Hl].
  - exists zl. rewrite (Hlen Hl), El. split; [done|]. by exists es.
  - change ZIPLIST_HEADER_SIZE with ZIPLIST_ENTRY_HEAD.
    rewrite (count_loop_spec zl (length zl) [] xs _ 0 Hc Hsz). cbn [mbind option_bind]. rewrite Z.add_0_l.
    destruct (Z.ltb_spec (Z.of_nat (length xs)) UINT16_MAX) as [Hx|Hx]; [|by exists zl; split; [|exists es]].
    assert (forall m v, m = hdr (Z.of_nat (length zl)) (10 + Z.of_nat (last_off es)) lf ++ ents 0 es ++ [ZIP_END] ->
      set_length m v = Some (hdr (Z.of_nat (length zl)) (10 + Z.of_nat (last_off es)) v ++ ents 0 es ++ [ZIP_END])) as Hset
      by (intros m v ->; apply hdr_set_length).
    rewrite (Hset zl _ Hzl). cbn [mbind option_bind]. eexists. split; [done|].
    exists es. split; [|done]. exists (Z.of_nat (length xs)). unfold len_ok. rewrite El.
    assert (length (hdr (Z.of_nat (length zl)) (10 + Z.of_nat (last_off es)) (Z.of_nat (length xs)) ++ ents 0 es ++ [ZIP_END]) = length zl) as ->.
    { apply (f_equal length) in Hzl. rewrite length_app, length_hdr in *. lia. }
    split_and!; try done; lia.
Qed.

(** What the search knows of the string's integer reading. *)
Definition tried (s : bytes) (vencoding vll : Z) : Prop :=
  vencoding = 0 \/
  match zipTryEncoding s with
  | Some (v, e) => vencoding = e /\ vll = v
  | None => vencoding = 255
  end.

Lemma try_once s vencoding vll :
  tried s vencoding vll ->
  let '(venc, v) := if vencoding =? 0 then
      match zipTryEncoding s with Some (v, e) => (e, v) | None => (255, vll) end
    else (vencoding, vll) in
  tried s venc v /\
  match zipTryEncoding s with
  | Some (w, _) => (venc =? 255) = false /\ v = w
  | None => venc = 255
  end.
Proof.
  unfold tried. intros [->|H]; cbn [Z.eqb].
  - destruct (zipTryEncoding s) as [[v e]|] eqn:E; [|by split; [right|]].
    split; [by right|]. split; [|done]. apply zipTryEncoding_Some in E as (Hv & _ & ->).
    destruct (integer_encoding v Hv) as ([? _] & _). apply Z.eqb_neq. lia.
  - destruct (zipTryEncoding s) as [[v e]|] eqn:E.
    + destruct H as [-> ->]. apply zipTryEncoding_Some in E as (Hv & _ & ->).
      destruct (integer_encoding v Hv) as ([Hr _] & _).
      rewrite (proj2 (Z.eqb_neq (zipIntEncoding v) 0)) by lia.
      split; [by right|]. split; [|done]. apply Z.eqb_neq. lia.
    + subst. cbn. split; [by right|done].
Qed.

(** Whether the string is looked at the [j]-th entry from here. *)
Definition probed (skip cnt j : nat) : Prop := exists i, j = (cnt + i * S skip)%nat.

Lemma probed_S skip cnt j : probed skip (S cnt) (S j) <-> probed skip cnt j.
Proof. split; intros [i Hi]; exists i; lia. Qed.

Lemma probed_0S skip j : probed skip 0 (S j) <-> probed skip skip j.
Proof.
  split; intros [i Hi]; [|by exists (S i); lia].
  destruct i as [|i]; [lia|]. exists i. lia.
Qed.

(** The search's result: the first entry looked at that holds the string. *)
Definition finds (zl : bytes) (pre post : list bytes) (s : bytes) (skip cnt : nat) (r : option nat) : Prop :=
  match r with
  | Some q => exists k, zl_cursor zl (pre ++ take k post) (drop k post) q /\
      probed skip cnt k /\ post !! k = Some s /\
      (forall j, (j < k)%nat -> probed skip cnt j -> post !! j <> Some s)
  | None => forall j, probed skip cnt j -> post !! j <> Some s
  end.

Lemma finds_cons zl pre x post s skip cnt cnt' r :
  (probed skip cnt 0 -> x <> s) ->
  (forall j, probed skip cnt (S j) <-> probed skip cnt' j) ->
  finds zl (pre ++ [x]) post s skip cnt' r -> finds zl pre (x :: post) s skip cnt r.
Proof.
  intros H0 HS. unfold finds. destruct r as [q|].
  - intros (k & Hc & Hp & Hk & Hn). exists (S k). rewrite <- app_assoc in Hc. split_and!; [exact Hc|by apply HS|done|].
    intros [|j] Hj Hpr; cbn; [specialize (H0 Hpr); congruence|]. apply Hn; [lia|by apply HS].
  - intros Hn [|j] Hpr; cbn; [specialize (H0 Hpr); congruence|]. by apply Hn, HS.
Qed.

Lemma find_loop_spec zl s skip : forall n pre post p cnt vencoding vll,
  zl_cursor zl pre post p -> (length post <= n)%nat -> tried s vencoding vll ->
  exists r, find_loop n zl p s (Z.of_nat skip) (Z.of_nat cnt) vencoding vll = Some r /\
    finds zl pre post s skip cnt r.
Proof.
  induction n as [|n IH]; intros pre post p cnt venc vll H Hn Ht;
    (destruct (cursor_lookup zl pre post p H) as (c & Hc & E);
     destruct post as [|x post]; cbn [find_loop]; rewrite Hc; cbn [mbind option_bind]; rewrite E).
  1,3: by exists None.
  { cbn [length] in Hn. lia. }
  destruct (cursor_entry zl _ _ _ _ H) as (ze & _ & Hh & -> & Hp0 & (Hdec & Hl1 & Hl2 & _ & Hr) & Hnext).
  cbn [mbind option_bind]. rewrite Hdec. cbn [mbind option_bind]. cbn [length] in Hn.
  replace (p + Z.to_nat (prevrawlensize ze + lensize ze))%nat
    with (p + Z.to_nat (prevrawlensize ze) + Z.to_nat (lensize ze))%nat by lia.
  replace (p + Z.to_nat (prevrawlensize ze) + Z.to_nat (lensize ze) + Z.to_nat (len ze))%nat
    with (p + Z.to_nat (headersize ze + len ze))%nat by lia.
  destruct cnt as [|cnt].
  2: { rewrite (proj2 (Z.eqb_neq _ _)) by lia. replace (Z.of_nat (S cnt) - 1) with (Z.of_nat cnt) by lia.
       destruct (IH _ _ _ cnt venc vll Hnext ltac:(lia) Ht) as (r & -> & Hf). exists r. split; [done|].
       revert Hf. apply finds_cons; [intros [i Hi]; lia|intros j; apply probed_S]. }
  cbn [Z.of_nat Z.eqb].
  assert (forall (b : bool) venc' vll', b = bool_decide (x = s) -> tried s venc' vll' ->
    exists r, (if b then Some (Some p) else
      find_loop n zl (p + Z.to_nat (headersize ze + len ze)) s (Z.of_nat skip) (Z.of_nat skip) venc' vll') = Some r /\
      finds zl pre (x :: post) s skip 0 r) as Hstep.
  { intros b venc' vll' -> Ht'. destruct (bool_decide (x = s)) eqn:Eb.
    - apply bool_decide_eq_true in Eb as ->. exists (Some p). split; [done|]. exists 0%nat.
      cbn [take drop]. rewrite app_nil_r. split_and!; [done|by exists 0%nat|done|lia].
    - apply bool_decide_eq_false in Eb.
      destruct (IH _ _ _ skip venc' vll' Hnext ltac:(lia) Ht') as (r & -> & Hf). exists r. split; [done|].
      revert Hf. apply finds_cons; [done|intros j; apply probed_0S]. }
  destruct (zipTryEncoding x) as [[v e]|] eqn:Ex.
  - destruct Hr as [-> Hld]. pose proof (try_once s venc vll Ht) as Htry.
    destruct (if venc =? 0 then _ else _) as [venc' vll']. destruct Htry as [Ht' Hs].
    destruct (zipTryEncoding s) as [[w ew]|] eqn:Es.
    + destruct Hs as [-> ->]. cbn [negb]. rewrite Hld. cbn [mbind option_bind]. apply Hstep; [|done].
      rewrite (zipTryEncoding_inj x s v e Ex), Es. done.
    + subst venc'. cbn [Z.eqb Pos.eqb negb mbind option_bind]. apply (Hstep false); [|done].
      by rewrite (zipTryEncoding_inj x s v e Ex), Es.
  - destruct Hr as (-> & Hlen & Hr). destruct (Z.eqb_spec (len ze) (Z.of_nat (length s))) as [El|Hne].
    + replace (length s) with (length x) by lia. rewrite Hr. cbn [mbind option_bind]. by apply Hstep.
    + cbn [mbind option_bind]. apply (Hstep false); [|done].
      rewrite bool_decide_eq_false_2; [done|]. intros ->. lia.
Qed.

Lemma length_cursor zl pre post p : zl_cursor zl pre post p -> (length post <= length zl)%nat.
Proof. intros H%cursor_rep%rep_size. rewrite length_app in H. lia. Qed.

Lemma ziplistFind_spec zl pre post p s skip :
  zl_cursor zl pre post p ->
  exists r, ziplistFind zl p s (Z.of_nat skip) = Some r /\ finds zl pre post s skip 0 r.
Proof.
  intros H. apply (find_loop_spec zl s skip (length zl) pre post p 0 0 0 H); [|by left].
  by apply (length_cursor zl pre post p).
Qed.

(** ** Merging *)

Section Merge.
Context (junk : nat -> Z).

(** Both ways of building the merged blob give the bytes of the first list,
    without its closing byte, and those of the second without its header. *)
Lemma merge_append h1 E1 h2 E2 n :
  length h1 = 10%nat -> length h2 = 10%nat -> n = (11 + length E1 + length E2)%nat ->
  (bs ← rdn (h2 ++ E2 ++ [ZIP_END]) ZIPLIST_HEADER_SIZE (11 + length E2 - ZIPLIST_HEADER_SIZE);
   wrn (resize junk (h1 ++ E1 ++ [ZIP_END]) n) (11 + length E1 - ZIPLIST_END_SIZE) bs)
  = Some (h1 ++ E1 ++ E2 ++ [ZIP_END]).
Proof.
  intros H1 H2 ->. unfold ZIPLIST_HEADER_SIZE, ZIPLIST_END_SIZE.
  rewrite (rdn_app_nil h2 (E2 ++ [ZIP_END])) by (rewrite ?length_app; cbn [length]; lia).
  cbn [mbind option_bind].
  destruct (resize_grow junk (h1 ++ E1 ++ [ZIP_END]) (11 + length E1 + length E2)) as (g & -> & Hg).
  { rewrite !length_app. cbn [length]. lia. }
  rewrite !length_app in Hg. cbn [length] in Hg.
  replace ((h1 ++ E1 ++ [ZIP_END]) ++ g) with ((h1 ++ E1) ++ ([ZIP_END] ++ g) ++ [])
    by (by rewrite app_nil_r, <- !app_assoc).
  rewrite wrn_app by (rewrite ?length_app; cbn [length]; lia). by rewrite app_nil_r, <- !app_assoc.
Qed.

Lemma merge_prepend h1 E1 h2 E2 n :
  length h1 = 10%nat -> length h2 = 10%nat -> n = (11 + length E1 + length E2)%nat ->
  (target ← memmove (resize junk (h2 ++ E2 ++ [ZIP_END]) n) (11 + length E1 - ZIPLIST_END_SIZE)
     ZIPLIST_HEADER_SIZE (11 + length E2 - ZIPLIST_HEADER_SIZE);
   bs ← rdn (h1 ++ E1 ++ [ZIP_END]) 0 (11 + length E1 - ZIPLIST_END_SIZE);
   wrn target 0 bs)
  = Some (h1 ++ E1 ++ E2 ++ [ZIP_END]).
Proof.
  intros H1 H2 ->. unfold ZIPLIST_HEADER_SIZE, ZIPLIST_END_SIZE.
  destruct (resize_grow junk (h2 ++ E2 ++ [ZIP_END]) (11 + length E1 + length E2)) as (g & -> & Hg).
  { rewrite !length_app. cbn [length]. lia. }
  rewrite !length_app in Hg. cbn [length] in Hg.
  destruct (list_split3 ((h2 ++ E2 ++ [ZIP_END]) ++ g) (10 + length E1) (length (E2 ++ [ZIP_END])))
    as (a & b & c & E & Ha & Hb).
  { rewrite !length_app. cbn [length]. lia. }
  assert (c = []) as ->.
  { apply (f_equal length) in E. rewrite !length_app in *. cbn [length] in *. destruct c; [done|cbn [length] in *; lia]. }
  rewrite (memmove_app _ h2 (E2 ++ [ZIP_END]) g a b []);
    [|by rewrite <- !app_assoc|exact E|lia|rewrite length_app; cbn [length]; lia|lia
    |rewrite Hb, length_app; cbn [length]; lia].
  cbn [mbind option_bind]. rewrite (app_assoc h1).
  rewrite rdn_app0 by (rewrite length_app; lia). cbn [mbind option_bind].
  rewrite wrn_app0 by (rewrite length_app; lia). by rewrite app_nil_r, <- !app_assoc.
Qed.

(** Repairing the chain of lengths from the entry [e] on. *)
Lemma seam_cascade l a e stale rest :
  wf_ents 0 a -> ent_ok (last_len 0 a) e -> wf_ents stale rest ->
  len_ok l (length (a ++ e :: rest)) ->
  Z.of_nat (11 + length (ents 0 a) + elen e + length (ents stale rest)) + 4 * Z.of_nat (length rest) < 2 ^ 32 ->
  exists zl' rest', __ziplistCascadeUpdate junk
      (hdr (Z.of_nat (11 + length (ents 0 a) + elen e + length (ents stale rest)))
         (Z.of_nat (10 + length (ents 0 a) + last_off (e :: rest))) l ++
       ents 0 a ++ ent (last_len 0 a) e ++ ents stale rest ++ [ZIP_END]) (10 + length (ents 0 a)) = Some zl' /\
    zl_ents zl' (a ++ e :: rest') /\ strs rest' = strs rest.
Proof.
  intros Ha He Hr Hl Hlim. unfold __ziplistCascadeUpdate. rewrite hdr_bytes by lia. cbn [mbind option_bind].
  match goal with |- context [cascade_loop _ (length ?m)] => set (M := m) end.
  assert (length rest < length M)%nat as Hfuel.
  { unfold M. rewrite !length_app. pose proof (ents_size stale rest). cbn. lia. }
  destruct (cascade_spec junk (length M) _ _ l (ents 0 a) (last_len 0 a) e stale rest eq_refl eq_refl Hlim)
    as (rest' & t' & o' & Hc & Hwf' & Hst & Ht' & Hlt' & _ & Ho'); try done.
  { destruct Hl as [Hl _]. unfold UINT16_MAX in Hl. lia. }
  fold M in Hc. rewrite Hc. eexists _, rest'. split; [done|]. split; [|done].
  assert (length rest' = length rest) as Hlr by (by rewrite <- (length_strs rest'), Hst, length_strs).
  exists l. rewrite !length_app in *. rewrite length_hdr, length_ent. cbn [length] in *.
  replace (10 + (length (ents 0 a) + (elen e + (length (ents (Z.of_nat (elen e)) rest') + 1))))%nat
    with (Z.to_nat t') by lia.
  rewrite Z2Nat.id by lia. split_and!.
  - rewrite ents_app, (last_off_app 0), Ho' by done. cbn [ents]. rewrite <- !app_assoc.
    replace (10 + Z.of_nat (length (ents 0 a) + last_off (e :: rest')))
      with (Z.of_nat (10 + length (ents 0 a) + last_off (e :: rest'))) by lia. done.
  - apply wf_ents_app. split; [done|]. by split.
  - by rewrite Hlr.
  - done.
Qed.

Lemma merge_ents first second es1 e2 es2 :
  zl_ents first es1 -> zl_ents second (e2 :: es2) ->
  zl_fits (strs es1 ++ strs (e2 :: es2)) ->
  exists zl' es', ziplistMerge junk first second = Some zl' /\
    zl_ents zl' es' /\ strs es' = strs es1 ++ strs (e2 :: es2).
Proof.
  intros H1 H2 Hf. unfold ziplistMerge.
  rewrite (zl_bytes _ _ H1), (zl_bytes _ _ H2).
  destruct (zl_ents_parts first [] es1 H1) as (l1 & Hz1 & _ & Hw1 & Hl1 & Hlt1 & Hn1).
  destruct (zl_ents_parts second [] (e2 :: es2) H2) as (l2 & Hz2 & _ & Hw2 & Hl2 & Hlt2 & Hn2).
  clear H1 H2. cbn [app last_len] in *. change (ents 0 []) with (@nil Z) in *. rewrite app_nil_r in Hz1, Hz2.
  cbn [length] in Hn1, Hn2. pose proof (last_off_le 0 es1) as Ho1. pose proof (last_off_le 0 (e2 :: es2)) as Ho2.
  set (E1 := ents 0 es1) in *. set (E2 := ents 0 (e2 :: es2)) in *.
  unfold zl_fits in Hf. rewrite <- strs_app in Hf.
  pose proof (ents_bound 0 (es1 ++ e2 :: es2)) as Hb.
  pose proof (zl_bound_count (strs (es1 ++ e2 :: es2))) as Hcnt. rewrite length_strs in Hcnt.
  rewrite ents_app, length_app, (length_ents_prev (last_len 0 es1) 0) in Hb. fold E1 E2 in Hb.
  set (B1 := Z.of_nat (length first)) in *. set (B2 := Z.of_nat (length second)) in *.
  assert (B1 = Z.of_nat (11 + length E1)) as HB1 by (unfold B1; lia).
  assert (B2 = Z.of_nat (11 + length E2)) as HB2 by (unfold B2; lia).
  clearbody B1 B2. clear Hn1 Hn2.
  assert (forall l n, len_ok l n -> 0 <= l < 2 ^ 16) as Hr by (intros l n [? _]; unfold UINT16_MAX in *; lia).
  rewrite Hz1, Hz2. clear Hz1 Hz2 first second.
  do 2 (rewrite hdr_length by eauto; cbn [mbind option_bind]).
  do 2 (rewrite hdr_tail by lia; cbn [mbind option_bind]).
  replace (Z.to_nat (B1 + B2 - Z.of_nat ZIPLIST_HEADER_SIZE - Z.of_nat ZIPLIST_END_SIZE))
    with (11 + length E1 + length E2)%nat by (unfold ZIPLIST_HEADER_SIZE, ZIPLIST_END_SIZE; lia).
  rewrite HB1, HB2, !Nat2Z.id. rewrite <- HB1, <- HB2.
  rewrite merge_append, merge_prepend by (rewrite ?length_hdr; lia).
  assert (forall b (x : option bytes), (if b : bool then x else x) = x) as -> by (by intros []).
  cbn [mbind option_bind].
  rewrite hdr_set_bytes. cbn [mbind option_bind]. rewrite hdr_set_length. cbn [mbind option_bind].
  rewrite hdr_set_tail. cbn [mbind option_bind].
  set (l := u16 _). assert (len_ok l (length (es1 ++ e2 :: es2))) as Hl.
  { rewrite length_app. destruct Hl1 as [Hr1 Hl1], Hl2 as [Hr2 Hl2].
    unfold l. destruct (Z.ltb_spec (l1 + l2) UINT16_MAX) as [Hlt|Hge].
    - rewrite wrapu_small by (unfold UINT16_MAX in *; ints). unfold len_ok. rewrite Hl1, Hl2 by lia. lia.
    - rewrite wrapu_small by (unfold UINT16_MAX; ints). unfold len_ok. lia. }
  clearbody l. clear Hl1 Hl2 Hr l1 l2.
  replace (u32 (B1 + B2 - Z.of_nat ZIPLIST_HEADER_SIZE - Z.of_nat ZIPLIST_END_SIZE))
    with (Z.of_nat (11 + length E1 + length E2))
    by (unfold ZIPLIST_HEADER_SIZE, ZIPLIST_END_SIZE; rewrite wrapu_small; [lia|ints]).
  replace (u32 (B1 - Z.of_nat ZIPLIST_END_SIZE + (10 + Z.of_nat (last_off (e2 :: es2)) - Z.of_nat ZIPLIST_HEADER_SIZE)))
    with (Z.of_nat (10 + length E1 + last_off (e2 :: es2)))
    by (unfold ZIPLIST_HEADER_SIZE, ZIPLIST_END_SIZE; rewrite wrapu_small; [lia|ints]).
  replace (Z.to_nat (10 + Z.of_nat (last_off es1))) with (10 + last_off es1)%nat by lia.
  clear HB1 HB2 B1 B2 Hlt1 Hlt2.
  destruct es1 as [|e1 a _] using rev_ind.
  - destruct Hw2 as [He2 Hw2]. cbn [ents] in E2.
    destruct (seam_cascade l [] e2 (Z.of_nat (elen e2)) es2) as (zl' & rest' & Hc & Hr & Hst); try done.
    { unfold E1, E2 in Hb. rewrite length_app, length_ent in Hb. cbn [ents length app] in *. lia. }
    exists zl', (e2 :: rest'). split; [|split; [exact Hr|by unfold strs in *; rewrite !fmap_cons, Hst]].
    rewrite <- Hc. unfold E1, E2. cbn [ents length last_len app]. rewrite length_app, length_ent, <- !app_assoc.
    cbn [last_off Nat.add]. done.
  - apply wf_ents_app in Hw1 as [Hwa [He1 _]]. rewrite <- app_assoc in Hl. cbn [app] in Hl.
    unfold E1 in Hb. rewrite length_ents_snoc in Hb.
    destruct (seam_cascade l a e1 0 (e2 :: es2)) as (zl' & rest' & Hc & Hr & Hst); try done.
    { fold E2. rewrite !length_app in Hcnt. cbn [length] in *. lia. }
    exists zl', (a ++ e1 :: rest'). split; [|split; [exact Hr|]].
    2: { rewrite !strs_app, <- app_assoc. unfold strs in *. by rewrite fmap_cons, Hst. }
    rewrite <- Hc. unfold E1. fold E2. rewrite length_ents_snoc, ents_app. cbn [ents].
    rewrite app_nil_r, (last_off_app 0), <- !app_assoc by done. cbn [last_off]. rewrite Nat.add_0_r.
    rewrite !Nat.add_assoc. done.
Qed.

Lemma ziplistMerge_rep first second xs ys :
  zl_rep first xs -> zl_rep second ys -> ys <> [] -> zl_fits (xs ++ ys) ->
  exists zl', ziplistMerge junk first second = Some zl' /\ zl_rep zl' (xs ++ ys).
Proof.
  intros (es1 & H1 & <-) ([|e2 es2] & H2 & <-) Hne Hf; [done|].
  destruct (merge_ents first second es1 e2 es2 H1 H2 Hf) as (zl' & es' & Hm & Hr & Hs).
  exists zl'. split; [done|]. by exists es'.
Qed.

End Merge.

(** ** Building a list *)

Fixpoint zl_build (junk : nat -> Z) (zl : bytes) (xs : list bytes) : option bytes :=
  match xs with
  | [] => Some zl
  | x :: xs => zl ← ziplistPush junk zl x ZIPLIST_TAIL; zl_build junk zl xs
  end.

Lemma zl_build_rep junk xs : forall zl ys,
  zl_rep zl ys -> Forall str_ok xs -> zl_fits (ys ++ xs) ->
  exists zl', zl_build junk zl xs = Some zl' /\ zl_rep zl' (ys ++ xs).
Proof.
  induction xs as [|x xs IH]; intros zl ys H Hok Hf.
  { exists zl. by rewrite app_nil_r. }
  apply Forall_cons in Hok as [Hx Hok].
  destruct (ziplistPush_rep junk zl ys x ZIPLIST_TAIL H Hx) as (zl1 & Hp & H1).
  { unfold zl_fits in *. rewrite zl_bound_app, zl_bound_cons in Hf. rewrite zl_bound_cons.
    pose proof (zl_bound_count xs). lia. }
  cbn [zl_build]. rewrite Hp. cbn [mbind option_bind].
  destruct (IH zl1 (ys ++ [x]) H1 Hok) as (zl' & Hb & Hr); [by rewrite <- app_assoc|].
  exists zl'. by rewrite <- app_assoc in Hr.
Qed.

(** A list with these strings exists. *)
Lemma zl_exists junk xs :
  Forall str_ok xs -> zl_fits xs ->
  exists zl0 zl, ziplistNew junk = Some zl0 /\ zl_build junk zl0 xs = Some zl /\ zl_rep zl xs.
Proof.
  intros Hok Hf. destruct (ziplistNew_rep junk) as (zl0 & H0 & Hr0).
  destruct (zl_build_rep junk xs zl0 [] Hr0 Hok Hf) as (zl & Hb & Hr). by exists zl0, zl.
Qed.

(** The strings of the witnesses: a word, an integer of every width, and a
    string longer than the small form of a length. *)
Definition samples : list bytes :=
  [str "key"; str "7"; str "-300"; str "100000"; str "-9223372036854775808";
   repeat 120 300; str ""].

Lemma samples_ok : Forall str_ok samples /\ zl_fits samples.
Proof. split; [repeat constructor|]; by vm_compute. Qed.

(** ** Properties *)

(** C11. Inserting a string at a position of a compact list puts it there: the
    call stays inside the blob, the strings before and after keep their
    places, the predecessor lengths are repaired however far the change
    cascades, and the position given is the one of the new string. *)
Theorem ziplistInsert_inserts junk zl pre post p s :
  zl_cursor zl pre post p -> str_ok s -> zl_fits (pre ++ s :: post) ->
  exists zl', ziplistInsert junk zl p s = Some zl' /\
    zl_cursor zl' pre (s :: post) p /\ zl_rep zl' (pre ++ s :: post).
Proof.
  intros H Hs Hf. destruct (ziplistInsert_cursor junk zl pre post p s H Hs Hf) as (zl' & Hi & Hc).
  exists zl'. split_and!; [done|done|]. by apply cursor_rep in Hc.
Qed.

Lemma ziplistInsert_inserts_witness :
  exists zl p zl', zl_cursor zl (take 3 samples) (drop 3 samples) p /\
    ziplistInsert (fun _ => 0) zl p (repeat 7 260) = Some zl' /\
    zl_rep zl' (take 3 samples ++ repeat 7 260 :: drop 3 samples).
Proof.
  destruct samples_ok as [Hok Hf].
  destruct (zl_exists (fun _ => 0) samples Hok Hf) as (_ & zl & _ & _ & H).
  destruct (rep_cursor zl (take 3 samples) (drop 3 samples)) as (p & Hc); [by rewrite take_drop|].
  destruct (ziplistInsert_inserts (fun _ => 0) zl _ _ p (repeat 7 260) Hc) as (zl' & Hi & _ & Hr);
    [by vm_compute|by vm_compute|].
  by exists zl, p, zl'.
Defined.

(** C21. Deleting [num] entries from an index of either sign removes exactly
    the entries of that range that exist, and nothing when the index is
    outside of the list; the list that is left is well formed, cascades
    included. *)
Theorem ziplistDeleteRange_deletes junk zl xs index num :
  zl_rep zl xs -> zl_fits xs ->
  exists zl', ziplistDeleteRange junk zl index num = Some zl' /\
    zl_rep zl' (match resolve_index (length xs) index with
                | Some k => take k xs ++ drop (k + num) xs
                | None => xs
                end).
Proof. apply ziplistDeleteRange_spec. Qed.

Lemma ziplistDeleteRange_deletes_witness :
  exists zl zl', zl_rep zl samples /\ ziplistDeleteRange (fun _ => 0) zl (-3) 2 = Some zl' /\
    zl_rep zl' (take 4 samples ++ drop 6 samples).
Proof.
  destruct samples_ok as [Hok Hf].
  destruct (zl_exists (fun _ => 0) samples Hok Hf) as (_ & zl & _ & _ & H).
  destruct (ziplistDeleteRange_deletes (fun _ => 0) zl samples (-3) 2 H Hf) as (zl' & Hd & Hr).
  by exists zl, zl'.
Defined.

(** The entry at an index, counted from the front or, when negative, from
    the back by the predecessor lengths, is found; outside of the list the
    result is the null pointer. *)
Theorem ziplistIndex_finds zl xs index :
  zl_rep zl xs ->
  match resolve_index (length xs) index with
  | Some k => exists p, ziplistIndex zl index = Some (Some p) /\ zl_cursor zl (take k xs) (drop k xs) p
  | None => ziplistIndex zl index = Some None
  end.
Proof. apply ziplistIndex_spec. Qed.

Lemma ziplistIndex_finds_witness :
  exists zl, zl_rep zl samples /\
    (exists p, ziplistIndex zl (-2) = Some (Some p) /\ zl_cursor zl (take 5 samples) (drop 5 samples) p) /\
    ziplistIndex zl 7 = Some None /\ ziplistIndex zl (-8) = Some None.
Proof.
  destruct samples_ok as [Hok Hf].
  destruct (zl_exists (fun _ => 0) samples Hok Hf) as (_ & zl & _ & _ & H).
  exists zl. split; [exact H|]. split_and!.
  - exact (ziplistIndex_finds zl samples (-2) H).
  - exact (ziplistIndex_finds zl samples 7 H).
  - exact (ziplistIndex_finds zl samples (-8) H).
Defined.

(** What is read at an entry is what was stored, whether the string was
    stored as it is or as an integer: the value read prints as the string,
    and comparing the entry with a string is comparing the strings. *)
Theorem ziplistGet_reads zl pre x post p s :
  zl_cursor zl pre (x :: post) p ->
  (exists v, ziplistGet zl p = Some (Some v) /\ value_bytes v = x) /\
  ziplistCompare zl p s = Some (bool_decide (x = s)).
Proof.
  intros H. split; [by apply (ziplistGet_spec zl pre x post)|by apply (ziplistCompare_spec zl pre x post)].
Qed.

Lemma ziplistGet_reads_witness :
  exists zl p, zl_cursor zl (take 4 samples) (drop 4 samples) p /\
    (exists v, ziplistGet zl p = Some (Some v) /\ value_bytes v = str "-9223372036854775808") /\
    ziplistCompare zl p (str "-9223372036854775807") = Some false.
Proof.
  destruct samples_ok as [Hok Hf].
  destruct (zl_exists (fun _ => 0) samples Hok Hf) as (_ & zl & _ & _ & H).
  destruct (rep_cursor zl (take 4 samples) (drop 4 samples)) as (p & Hc); [by rewrite take_drop|].
  exists zl, p. split; [exact Hc|].
  exact (ziplistGet_reads zl (take 4 samples) _ _ p (str "-9223372036854775807") Hc).
Defined.

(** The search returns the first of the entries it looks at, every
    [skip + 1]-th from the start, that holds the string, and the null pointer
    when none of them does. *)
Theorem ziplistFind_finds zl pre post p s skip :
  zl_cursor zl pre post p ->
  exists r, ziplistFind zl p s (Z.of_nat skip) = Some r /\
  match r with
  | Some q => exists k, zl_cursor zl (pre ++ take k post) (drop k post) q /\
      probed skip 0 k /\ post !! k = Some s /\
      (forall j, (j < k)%nat -> probed skip 0 j -> post !! j <> Some s)
  | None => forall j, probed skip 0 j -> post !! j <> Some s
  end.
Proof. apply ziplistFind_spec. Qed.

Lemma ziplistFind_finds_witness :
  exists zl r, zl_rep zl samples /\ ziplistFind zl ZIPLIST_ENTRY_HEAD (str "-300") (Z.of_nat 1) = Some r /\
    match r with
    | Some q => exists k, zl_cursor zl (take k samples) (drop k samples) q /\
        probed 1 0 k /\ samples !! k = Some (str "-300") /\
        (forall j, (j < k)%nat -> probed 1 0 j -> samples !! j <> Some (str "-300"))
    | None => forall j, probed 1 0 j -> samples !! j <> Some (str "-300")
    end.
Proof.
  destruct samples_ok as [Hok Hf].
  destruct (zl_exists (fun _ => 0) samples Hok Hf) as (_ & zl & _ & _ & H).
  destruct (ziplistFind_finds zl [] samples ZIPLIST_ENTRY_HEAD (str "-300") 1 (cursor_head zl _ H)) as (r & Hr & Hs).
  by exists zl, r.
Defined.

(** Merging a list with a nonempty one gives the strings of both, in
    order, in a well-formed blob, whichever of the two blobs is reused. *)
Theorem ziplistMerge_concatenates junk first second xs ys :
  zl_rep first xs -> zl_rep second ys -> ys <> [] -> zl_fits (xs ++ ys) ->
  exists zl', ziplistMerge junk first second = Some zl' /\ zl_rep zl' (xs ++ ys).
Proof. apply ziplistMerge_rep. Qed.

Lemma ziplistMerge_concatenates_witness :
  exists first second zl', zl_rep first (drop 5 samples) /\ zl_rep second samples /\
    ziplistMerge (fun _ => 0) first second = Some zl' /\ zl_rep zl' (drop 5 samples ++ samples).
Proof.
  destruct samples_ok as [Hok Hf].
  destruct (zl_exists (fun _ => 0) samples Hok Hf) as (_ & second & _ & _ & H2).
  destruct (zl_exists (fun _ => 0) (drop 5 samples)) as (_ & first & _ & _ & H1);
    [by apply Forall_drop|by vm_compute|].
  destruct (ziplistMerge_concatenates (fun _ => 0) first second _ _ H1 H2) as (zl' & Hm & Hr);
    [done|by vm_compute|].
  by exists first, second, zl'.
Defined.

(** Merging with an empty second list leaves a tail offset that points at the
    closing byte, so the last entry can no longer be reached from the end. *)
Lemma ziplistMerge_empty_second :
  exists zl0 zl, ziplistNew (fun _ => 0) = Some zl0 /\
    zl_build (fun _ => 0) zl0 [str "a"; str "b"] = Some zl /\
    ziplistIndex zl (-1) = Some (Some 13%nat) /\
    (zl' ← ziplistMerge (fun _ => 0) zl zl0; ziplistIndex zl' (-1)) = Some None.
Proof.
  eexists _, _. split; [by vm_compute|]. split; [by vm_compute|]. split; by vm_compute.
Qed.

End ZiplistSpec.
