(* ===== verification/Dict.v ===== *)
(** * Hash tables with incremental rehashing (src/dict.c)

    A table is an array of chains; while a dictionary is rehashed its entries
    move bucket by bucket from [ht0] to [ht1].  An entry has the address the
    allocator gave it, which is what a [dictEntry *] is; the next entry of a
    chain is the one that follows in its bucket.  Reading a null or
    out-of-range bucket, or a dead entry, is [None]. *)

From S2P Require Import Prelude.

Module Dict.

(** ** Hash functions *)

Definition dictIntHashFunction (key : Z) : Z :=
  let key := u32 (key + u32 (Z.lnot (u32 (Z.shiftl key 15)))) in
  let key := Z.lxor key (Z.shiftr key 10) in
  let key := u32 (key + u32 (Z.shiftl key 3)) in
  let key := Z.lxor key (Z.shiftr key 6) in
  let key := u32 (key + u32 (Z.lnot (u32 (Z.shiftl key 11)))) in
  Z.lxor key (Z.shiftr key 16).

Definition dict_hash_function_seed : Z := 5381.

Definition murmur_m : Z := 1540483477.
Definition murmur_r : Z := 24.

(** The loop over words of four bytes; what is left of the input comes back
    with the hash. *)
Fixpoint murmur_words (h : Z) (data : bytes) : Z * bytes :=
  match data with
  | b0 :: b1 :: b2 :: b3 :: rest =>
    let k := le_dec [b0; b1; b2; b3] in
    let k := u32 (k * murmur_m) in
    let k := Z.lxor k (Z.shiftr k murmur_r) in
    let k := u32 (k * murmur_m) in
    let h := u32 (h * murmur_m) in
    murmur_words (Z.lxor h k) rest
  | _ => (h, data)
  end.

(** The [switch] falls through from each case to the next. *)
Definition murmur_tail (h : Z) (data : bytes) : Z :=
  match data with
  | [b0; b1; b2] =>
    u32 (Z.lxor (Z.lxor (Z.lxor h (u32 (Z.shiftl b2 16))) (u32 (Z.shiftl b1 8))) b0 * murmur_m)
  | [b0; b1] => u32 (Z.lxor (Z.lxor h (u32 (Z.shiftl b1 8))) b0 * murmur_m)
  | [b0] => u32 (Z.lxor h b0 * murmur_m)
  | _ => h
  end.

Definition dictGenHashFunction (seed : Z) (key : bytes) : Z :=
  let '(h, data) := murmur_words (Z.lxor seed (u32 (Z.of_nat (length key)))) key in
  let h := murmur_tail h data in
  let h := Z.lxor h (Z.shiftr h 13) in
  let h := u32 (h * murmur_m) in
  Z.lxor h (Z.shiftr h 15).

Definition dictGenCaseHashFunction (seed : Z) (buf : bytes) : Z :=
  foldl (fun hash c => u32 (u32 (u32 (Z.shiftl hash 5) + hash) + tolower c)) seed buf.

(** ** Types *)

(** What the user of a dictionary supplies.  A key that is the same pointer
    has the same content, so that the pointer comparison made before
    [keyCompare] is subsumed by it. *)
Class dictType (K V : Type) := DictType {
  hashFunction : K -> Z;
  keyDup : K -> K;
  valDup : V -> V;
  keyCompare : K -> K -> bool
}.

(** What the code relies on: comparing is an equivalence that hashing
    respects, and a copy of a key compares equal to it. *)
Class dictTypeLaws (K V : Type) `{T : dictType K V} : Prop := DictTypeLaws {
  compare_refl : forall k, keyCompare k k = true;
  compare_sym : forall a b, keyCompare a b = true -> keyCompare b a = true;
  compare_trans : forall a b c, keyCompare a b = true -> keyCompare b c = true -> keyCompare a c = true;
  compare_hash : forall a b, keyCompare a b = true -> hashFunction a = hashFunction b;
  compare_dup : forall k, keyCompare k (keyDup k) = true
}.

Abbreviation addr := Z (only parsing).

Record dictEntry (K V : Type) := DictEntry { eaddr : addr; ekey : K; evalue : V }.
#[global] Arguments DictEntry {K V} _ _ _.
#[global] Arguments eaddr {K V} _.
#[global] Arguments ekey {K V} _.
#[global] Arguments evalue {K V} _.

(** The null table is the empty list. *)
Record dictht (K V : Type) := Dictht {
  table : list (list (dictEntry K V)); size : Z; sizemask : Z; used : Z }.
#[global] Arguments Dictht {K V} _ _ _ _.
#[global] Arguments table {K V} _.
#[global] Arguments size {K V} _.
#[global] Arguments sizemask {K V} _.
#[global] Arguments used {K V} _.

Record dict (K V : Type) := MkDict {
  ht0 : dictht K V; ht1 : dictht K V; rehashidx : Z; iterators : Z }.
#[global] Arguments MkDict {K V} _ _ _ _.
#[global] Arguments ht0 {K V} _.
#[global] Arguments ht1 {K V} _.
#[global] Arguments rehashidx {K V} _.
#[global] Arguments iterators {K V} _.

Definition DICT_HT_INITIAL_SIZE : Z := 4.
Definition dict_force_resize_ratio : Z := 5.
Definition LONG_MAX : Z := 2 ^ 63 - 1.

Section Ops.
Context {K V : Type} {T : dictType K V}.
(** The value field of an entry nobody has written yet. *)
Context (junk : V).

Abbreviation entry := (dictEntry K V).
Abbreviation ht := (dictht K V).
Abbreviation dict := (dict K V).

Definition dictIsRehashing (d : dict) : bool := negb (rehashidx d =? -1).
Definition dictSize (d : dict) : Z := used (ht0 d) + used (ht1 d).
Definition dictSlots (d : dict) : Z := size (ht0 d) + size (ht1 d).

Definition _dictReset : ht := Dictht [] 0 0 0.

Definition _dictInit : dict := MkDict _dictReset _dictReset (-1) 0.

Definition dictCreate : dict := _dictInit.

(** Doubling: sixty-four turns pass any [unsigned long]. *)
Fixpoint next_power_loop (n : nat) (i size : Z) : option Z :=
  if i >=? size then Some i
  else match n with O => None | S n => next_power_loop n (u64 (i * 2)) size end.

Definition _dictNextPower (size : Z) : option Z :=
  if size >=? LONG_MAX then Some LONG_MAX
  else next_power_loop 64 DICT_HT_INITIAL_SIZE size.

(** [true] is [DICT_OK]. *)
Definition dictExpand (d : dict) (sz : Z) : option (dict * bool) :=
  realsize ← _dictNextPower sz;
  if dictIsRehashing d || (used (ht0 d) >? sz) then Some (d, false)
  else if realsize =? size (ht0 d) then Some (d, false)
  else
    let n := Dictht (replicate (Z.to_nat realsize) []) realsize (realsize - 1) 0 in
    match table (ht0 d) with
    | [] => Some (MkDict n (ht1 d) (rehashidx d) (iterators d), true)
    | _ => Some (MkDict (ht0 d) n 0 (iterators d), true)
    end.

Definition dictResize (can_resize : bool) (d : dict) : option (dict * bool) :=
  if negb can_resize || dictIsRehashing d then Some (d, false)
  else
    let minimal := s32 (used (ht0 d)) in
    let minimal := if minimal <? DICT_HT_INITIAL_SIZE then DICT_HT_INITIAL_SIZE else minimal in
    dictExpand d (u64 minimal).

(** ** Incremental rehashing *)

Definition bucket (t : ht) (i : Z) : option (list entry) :=
  if i <? 0 then None else table t !! Z.to_nat i.

Definition set_bucket (t : ht) (i : Z) (b : list entry) : ht :=
  Dictht (<[Z.to_nat i := b]> (table t)) (size t) (sizemask t) (used t).

Definition add_used (t : ht) (n : Z) : ht :=
  Dictht (table t) (size t) (sizemask t) (used t + n).

(** Moving the keys of a bucket, each to the top of its new chain. *)
Fixpoint move_bucket (t0 t1 : ht) (de : list entry) : option (ht * ht) :=
  match de with
  | [] => Some (t0, t1)
  | e :: de =>
    let h := Z.land (hashFunction (ekey e)) (sizemask t1) in
    b ← bucket t1 h;
    move_bucket (add_used t0 (-1)) (add_used (set_bucket t1 h (e :: b)) 1) de
  end.

(** Skipping empty buckets; [inl] when no more of them may be visited. *)
Fixpoint skip_empty (empty_visits : nat) (d : dict) : option (dict + dict * nat) :=
  b ← bucket (ht0 d) (rehashidx d);
  match b with
  | _ :: _ => Some (inr (d, empty_visits))
  | [] =>
    match empty_visits with
    | O => None
    | S ev =>
      let d := MkDict (ht0 d) (ht1 d) (rehashidx d + 1) (iterators d) in
      match ev with O => Some (inl d) | S _ => skip_empty ev d end
    end
  end.

(** The end of [dictRehash]: [true] when there is more to rehash. *)
Definition rehash_end (d : dict) : dict * bool :=
  if used (ht0 d) =? 0 then (MkDict (ht1 d) _dictReset (-1) (iterators d), false)
  else (d, true).

Fixpoint rehash_loop (n empty_visits : nat) (d : dict) : option (dict * bool) :=
  match n with
  | O => Some (rehash_end d)
  | S n =>
    if used (ht0 d) =? 0 then Some (rehash_end d)
    else
      r ← skip_empty empty_visits d;
      match r with
      | inl d => Some (d, true)
      | inr (d, empty_visits) =>
        de ← bucket (ht0 d) (rehashidx d);
        '(t0, t1) ← move_bucket (ht0 d) (ht1 d) de;
        rehash_loop n empty_visits
          (MkDict (set_bucket t0 (rehashidx d) []) t1 (rehashidx d + 1) (iterators d))
      end
  end.

Definition dictRehash (d : dict) (n : nat) : option (dict * bool) :=
  if negb (dictIsRehashing d) then Some (d, false) else rehash_loop n (n * 10) d.

Definition _dictRehashStep (d : dict) : option dict :=
  if iterators d =? 0 then '(d, _) ← dictRehash d 1; Some d else Some d.

Definition rehash_step_if (d : dict) : option dict :=
  if dictIsRehashing d then _dictRehashStep d else Some d.

(** The clock: the milliseconds elapsed after each batch. *)
Fixpoint dictRehashMilliseconds (clock : list Z) (d : dict) (ms rehashes : Z) : option (dict * Z) :=
  '(d, more) ← dictRehash d 100;
  if negb more then Some (d, rehashes)
  else
    match clock with
    | [] => None
    | now :: clock =>
      if now >? ms then Some (d, rehashes + 100)
      else dictRehashMilliseconds clock d ms (rehashes + 100)
    end.

(** ** Entries *)

Definition entries (t : ht) : list entry := concat (table t).
Definition dict_entries (d : dict) : list entry := entries (ht0 d) ++ entries (ht1 d).

(** What a [dictEntry *] points to. *)
Definition deref (d : dict) (a : addr) : option entry :=
  snd <$> list_find (fun e => eaddr e = a) (dict_entries d).

Definition update_entry (a : addr) (v : V) (e : entry) : entry :=
  if eaddr e =? a then DictEntry (eaddr e) (ekey e) v else e.

Definition map_entries (f : entry -> entry) (t : ht) : ht :=
  Dictht (map (map f) (table t)) (size t) (sizemask t) (used t).

Definition dictSetVal (d : dict) (a : addr) (v : V) : option dict :=
  _ ← deref d a;
  let f := update_entry a (valDup v) in
  Some (MkDict (map_entries f (ht0 d)) (map_entries f (ht1 d)) (rehashidx d) (iterators d)).

Definition dictGetVal (d : dict) (a : addr) : option V := evalue <$> deref d a.
Definition dictGetKey (d : dict) (a : addr) : option K := ekey <$> deref d a.

(** The walk along a chain. *)
Fixpoint find_in_chain (key : K) (he : list entry) : option entry :=
  match he with
  | [] => None
  | e :: he => if keyCompare key (ekey e) then Some e else find_in_chain key he
  end.

(** ** Adding *)

Definition _dictExpandIfNeeded (can_resize : bool) (d : dict) : option (dict * bool) :=
  if dictIsRehashing d then Some (d, true)
  else if size (ht0 d) =? 0 then dictExpand d DICT_HT_INITIAL_SIZE
  else if (used (ht0 d) >=? size (ht0 d)) &&
          (can_resize || (used (ht0 d) / size (ht0 d) >? dict_force_resize_ratio))
  then dictExpand d (used (ht0 d) * 2)
  else Some (d, true).

(** The index is an [int]; minus one when the key exists. *)
Definition _dictKeyIndex (can_resize : bool) (d : dict) (key : K) : option (dict * Z) :=
  '(d, ok) ← _dictExpandIfNeeded can_resize d;
  if negb ok then Some (d, -1)
  else
    let h := hashFunction key in
    let idx := Z.land h (sizemask (ht0 d)) in
    he ← bucket (ht0 d) idx;
    match find_in_chain key he with
    | Some _ => Some (d, -1)
    | None =>
      if negb (dictIsRehashing d) then Some (d, s32 idx)
      else
        let idx := Z.land h (sizemask (ht1 d)) in
        he ← bucket (ht1 d) idx;
        match find_in_chain key he with
        | Some _ => Some (d, -1)
        | None => Some (d, s32 idx)
        end
    end.

(** [a] is the address the allocator returns. *)
Definition push_entry (t : ht) (index : Z) (e : entry) : option ht :=
  b ← bucket t index; Some (add_used (set_bucket t index (e :: b)) 1).

Definition dictAddRaw (can_resize : bool) (a : addr) (d : dict) (key : K) : option (dict * option addr) :=
  d ← rehash_step_if d;
  '(d, index) ← _dictKeyIndex can_resize d key;
  if index =? -1 then Some (d, None)
  else
    let e := DictEntry a (keyDup key) junk in
    d ← (if dictIsRehashing d
         then t ← push_entry (ht1 d) index e; Some (MkDict (ht0 d) t (rehashidx d) (iterators d))
         else t ← push_entry (ht0 d) index e; Some (MkDict t (ht1 d) (rehashidx d) (iterators d)));
    Some (d, Some a).

Definition dictAdd (can_resize : bool) (a : addr) (d : dict) (key : K) (val : V) : option (dict * bool) :=
  '(d, entry) ← dictAddRaw can_resize a d key;
  match entry with
  | None => Some (d, false)
  | Some entry => d ← dictSetVal d entry val; Some (d, true)
  end.

(** ** Searching, replacing and deleting *)

Definition dictFind (d : dict) (key : K) : option (dict * option addr) :=
  if used (ht0 d) + used (ht1 d) =? 0 then Some (d, None)
  else
    d ← rehash_step_if d;
    let h := hashFunction key in
    he ← bucket (ht0 d) (Z.land h (sizemask (ht0 d)));
    match find_in_chain key he with
    | Some e => Some (d, Some (eaddr e))
    | None =>
      if negb (dictIsRehashing d) then Some (d, None)
      else
        he ← bucket (ht1 d) (Z.land h (sizemask (ht1 d)));
        Some (d, eaddr <$> find_in_chain key he)
    end.

Definition dictFetchValue (d : dict) (key : K) : option (dict * option V) :=
  '(d, he) ← dictFind d key;
  match he with
  | None => Some (d, None)
  | Some he => v ← dictGetVal d he; Some (d, Some v)
  end.

(** [true] when the key was added. *)
Definition dictReplace (can_resize : bool) (a : addr) (d : dict) (key : K) (val : V) : option (dict * bool) :=
  '(d, added) ← dictAdd can_resize a d key val;
  if (added : bool) then Some (d, true)
  else
    '(d, entry) ← dictFind d key;
    match entry with
    | None => None
    | Some entry => d ← dictSetVal d entry val; Some (d, false)
    end.

Definition dictReplaceRaw (can_resize : bool) (a : addr) (d : dict) (key : K) : option (dict * option addr) :=
  '(d, entry) ← dictFind d key;
  match entry with
  | Some entry => Some (d, Some entry)
  | None => dictAddRaw can_resize a d key
  end.

(** Unlinking the first entry with the key from a chain. *)
Fixpoint unlink (key : K) (he : list entry) : option (list entry) :=
  match he with
  | [] => None
  | e :: he => if keyCompare key (ekey e) then Some he else (cons e) <$> unlink key he
  end.

Definition delete_in (t : ht) (key : K) : option (option ht) :=
  let idx := Z.land (hashFunction key) (sizemask t) in
  he ← bucket t idx;
  match unlink key he with
  | Some he => Some (Some (add_used (set_bucket t idx he) (-1)))
  | None => Some None
  end.

Definition dictGenericDelete (d : dict) (key : K) : option (dict * bool) :=
  if size (ht0 d) =? 0 then Some (d, false)
  else
    d ← rehash_step_if d;
    r ← delete_in (ht0 d) key;
    match r with
    | Some t => Some (MkDict t (ht1 d) (rehashidx d) (iterators d), true)
    | None =>
      if negb (dictIsRehashing d) then Some (d, false)
      else
        r ← delete_in (ht1 d) key;
        match r with
        | Some t => Some (MkDict (ht0 d) t (rehashidx d) (iterators d), true)
        | None => Some (d, false)
        end
    end.

Definition dictDelete (d : dict) (key : K) : option (dict * bool) := dictGenericDelete d key.
Definition dictDeleteNoFree (d : dict) (key : K) : option (dict * bool) := dictGenericDelete d key.

(** The loop over the buckets: the entries freed, in order, and the count
    that is left.  The loop stops early when nothing is left. *)
Fixpoint clear_loop (bs : list (list entry)) (rest : Z) : list addr * Z :=
  match bs with
  | [] => ([], rest)
  | b :: bs =>
    if rest >? 0 then
      let '(freed, rest) := clear_loop bs (rest - Z.of_nat (length b)) in
      (map eaddr b ++ freed, rest)
    else ([], rest)
  end.

Definition _dictClear (t : ht) : ht * list addr :=
  (_dictReset, (clear_loop (take (Z.to_nat (size t)) (table t)) (used t)).1).

Definition dictEmpty (d : dict) : dict * list addr :=
  let '(t0, f0) := _dictClear (ht0 d) in
  let '(t1, f1) := _dictClear (ht1 d) in
  (MkDict t0 t1 (-1) 0, f0 ++ f1).

Definition dictRelease (d : dict) : list addr :=
  (_dictClear (ht0 d)).2 ++ (_dictClear (ht1 d)).2.

(** ** Iterators *)

(** The mixing of Tomas Wang's 64 bit hash, on a signed [long long]: a shift to
    the right keeps the sign. *)
Definition fingerprint_step (hash i : Z) : Z :=
  let hash := s64 (hash + i) in
  let hash := s64 (Z.lnot hash + s64 (Z.shiftl hash 21)) in
  let hash := Z.lxor hash (Z.shiftr hash 24) in
  let hash := s64 (s64 (hash + s64 (Z.shiftl hash 3)) + s64 (Z.shiftl hash 8)) in
  let hash := Z.lxor hash (Z.shiftr hash 14) in
  let hash := s64 (s64 (hash + s64 (Z.shiftl hash 2)) + s64 (Z.shiftl hash 4)) in
  let hash := Z.lxor hash (Z.shiftr hash 28) in
  s64 (hash + s64 (Z.shiftl hash 31)).

(** [p0] and [p1] are the addresses of the tables. *)
Definition dictFingerprint (p0 p1 : addr) (d : dict) : Z :=
  foldl fingerprint_step 0
    (s64 <$> [p0; size (ht0 d); used (ht0 d); p1; size (ht1 d); used (ht1 d)]).

(** [itable] is [false] for the first table. *)
Record dictIterator := DictIterator {
  index : Z; itable : bool; safe : bool;
  ientry : option addr; nextEntry : option addr }.

Definition dictGetIterator : dictIterator := DictIterator (-1) false false None None.
Definition dictGetSafeIterator : dictIterator := DictIterator (-1) false true None None.

(** The entry that follows in the chain of a live entry. *)
Fixpoint next_in_chain (a : addr) (he : list entry) : option addr :=
  match he with
  | [] => None
  | e :: he => if eaddr e =? a then eaddr <$> head he else next_in_chain a he
  end.

Definition entry_next (d : dict) (a : addr) : option (option addr) :=
  _ ← deref d a;
  match list_find (fun b => a ∈ map eaddr b) (table (ht0 d) ++ table (ht1 d)) with
  | Some (_, b) => Some (next_in_chain a b)
  | None => None
  end.

Definition table_of (d : dict) (second : bool) : ht := if second then ht1 d else ht0 d.

(** One turn of the loop up to the choice of the entry; [None] inside when
    the iteration is over. *)
Definition iter_advance (d : dict) (it : dictIterator) : option (dict * dictIterator * bool) :=
  match ientry it with
  | Some _ =>
    Some (d, DictIterator (index it) (itable it) (safe it) (nextEntry it) (nextEntry it), true)
  | None =>
    let d := if (index it =? -1) && negb (itable it) && safe it
             then MkDict (ht0 d) (ht1 d) (rehashidx d) (iterators d + 1) else d in
    let idx := index it + 1 in
    if idx >=? size (table_of d (itable it)) then
      if dictIsRehashing d && negb (itable it) then
        he ← bucket (ht1 d) 0;
        Some (d, DictIterator 0 true (safe it) (eaddr <$> head he) (nextEntry it), true)
      else Some (d, DictIterator idx (itable it) (safe it) (ientry it) (nextEntry it), false)
    else
      he ← bucket (table_of d (itable it)) idx;
      Some (d, DictIterator idx (itable it) (safe it) (eaddr <$> head he) (nextEntry it), true)
  end.

Fixpoint iter_loop (n : nat) (d : dict) (it : dictIterator) : option (dict * dictIterator * option addr) :=
  match n with
  | O => None
  | S n =>
    '(d, it, go) ← iter_advance d it;
    if negb (go : bool) then Some (d, it, None)
    else
      match ientry it with
      | Some a =>
        nx ← entry_next d a;
        Some (d, DictIterator (index it) (itable it) (safe it) (Some a) nx, Some a)
      | None => iter_loop n d it
      end
  end.

(** Every turn without an entry moves to another bucket. *)
Definition dictNext (d : dict) (it : dictIterator) : option (dict * dictIterator * option addr) :=
  iter_loop (length (table (ht0 d)) + length (table (ht1 d)) + 3) d it.

Definition dictReleaseIterator (d : dict) (it : dictIterator) : dict :=
  if negb ((index it =? -1) && negb (itable it)) && safe it
  then MkDict (ht0 d) (ht1 d) (rehashidx d) (iterators d - 1) else d.

(** ** Random keys *)

(** The numbers [random] returns are the list [rs]; [None] when it is
    used up. *)
Definition random_bucket (d : dict) (r : Z) : option (list entry) :=
  if dictIsRehashing d then
    let h := u32 (rehashidx d + r mod (size (ht0 d) + size (ht1 d) - rehashidx d)) in
    if h >=? size (ht0 d) then bucket (ht1 d) (h - size (ht0 d)) else bucket (ht0 d) h
  else bucket (ht0 d) (Z.land r (sizemask (ht0 d))).

Fixpoint random_loop (rs : list Z) (d : dict) : option (list entry * list Z) :=
  match rs with
  | [] => None
  | r :: rs =>
    he ← random_bucket d r;
    match he with [] => random_loop rs d | _ => Some (he, rs) end
  end.

Definition dictGetRandomKey (rs : list Z) (d : dict) : option (dict * option addr) :=
  if dictSize d =? 0 then Some (d, None)
  else
    d ← rehash_step_if d;
    '(he, rs) ← random_loop rs d;
    match rs with
    | [] => None
    | r :: _ => e ← he !! Z.to_nat (r mod Z.of_nat (length he)); Some (d, Some (eaddr e))
    end.

(** ** Sampling *)

(** The variables of the loop of [dictGetSomeKeys]: the index in the larger
    table, the run of empty buckets, the entries stored and the numbers
    [random] returns next. *)
Record some_state := SomeState {
  si : Z; semptylen : Z; sstored : list entry; srandom : list Z }.

(** Stores the entries of a bucket; [true] when [count] are stored. *)
Fixpoint store_bucket (count : Z) (he stored : list entry) : list entry * bool :=
  match he with
  | [] => (stored, false)
  | e :: he =>
    let stored := stored ++ [e] in
    if Z.of_nat (length stored) =? count then (stored, true) else store_bucket count he stored
  end.

(** One table at the current index; [true] when the function returns. *)
Definition some_visit (tables maxsizemask count : Z) (d : dict) (second : bool) (s : some_state)
  : option (some_state * bool) :=
  if (tables =? 2) && negb second && (si s <? u64 (rehashidx d)) then
    Some (SomeState (if si s >=? size (ht1 d) then rehashidx d else si s) (semptylen s) (sstored s) (srandom s), false)
  else if si s >=? size (table_of d second) then Some (s, false)
  else
    he ← bucket (table_of d second) (si s);
    match he with
    | [] =>
      let emptylen := semptylen s + 1 in
      if (emptylen >=? 5) && (emptylen >? count) then
        match srandom s with
        | [] => None
        | r :: rs => Some (SomeState (Z.land r maxsizemask) 0 (sstored s) rs, false)
        end
      else Some (SomeState (si s) emptylen (sstored s) (srandom s), false)
    | _ =>
      let '(stored, full) := store_bucket count he (sstored s) in
      Some (SomeState (si s) 0 stored (srandom s), full)
    end.

(** The loop makes at most [maxsteps] steps. *)
Fixpoint some_loop (maxsteps : nat) (tables maxsizemask count : Z) (d : dict) (s : some_state)
  : option (list entry) :=
  match maxsteps with
  | O => Some (sstored s)
  | S maxsteps =>
    if Z.of_nat (length (sstored s)) <? count then
      '(s, full) ← some_visit tables maxsizemask count d false s;
      if (full : bool) then Some (sstored s)
      else
        '(s, full) ← (if tables =? 2 then some_visit tables maxsizemask count d true s else Some (s, false));
        if (full : bool) then Some (sstored s)
        else some_loop maxsteps tables maxsizemask count d
               (SomeState (Z.land (si s + 1) maxsizemask) (semptylen s) (sstored s) (srandom s))
    else Some (sstored s)
  end.

(** The rehashing steps taken first. *)
Fixpoint some_rehash (count : nat) (d : dict) : option dict :=
  match count with
  | O => Some d
  | S count => if dictIsRehashing d then d ← _dictRehashStep d; some_rehash count d else Some d
  end.

Definition dictGetSomeKeys (rs : list Z) (d : dict) (count : Z) : option (dict * list entry) :=
  let count := if dictSize d <? count then dictSize d else count in
  let maxsteps := u32 (count * 10) in
  d ← some_rehash (Z.to_nat count) d;
  let tables := if dictIsRehashing d then 2 else 1 in
  let maxsizemask := sizemask (ht0 d) in
  let maxsizemask := if (tables >? 1) && (maxsizemask <? sizemask (ht1 d)) then sizemask (ht1 d) else maxsizemask in
  match rs with
  | [] => None
  | r :: rs =>
    des ← some_loop (Z.to_nat maxsteps) tables maxsizemask count d (SomeState (Z.land r maxsizemask) 0 [] rs);
    Some (d, des)
  end.

(** ** Scanning *)

(** [s] halves until it is zero. *)
Fixpoint rev_loop (n : nat) (s mask v : Z) : Z :=
  match n with
  | O => v
  | S n =>
    let s := Z.shiftr s 1 in
    if s >? 0 then
      let mask := Z.lxor mask (u64 (Z.shiftl mask s)) in
      let v := Z.lor (Z.land (Z.shiftr v s) mask)
                     (Z.land (u64 (Z.shiftl v s)) (u64 (Z.lnot mask))) in
      rev_loop n s mask v
    else v
  end.

Definition rev (v : Z) : Z := rev_loop 7 64 ULLONG_MAX v.

(** The expansions of the cursor in the larger table. *)
Fixpoint scan_larger (n : nat) (t1 : ht) (m0 m1 v : Z) : option (list entry * Z) :=
  de ← bucket t1 (Z.land v m1);
  let v := Z.lor (Z.land (u64 (Z.lor v m0 + 1)) (u64 (Z.lnot m0))) (Z.land v m0) in
  if Z.land v (Z.lxor m0 m1) =? 0 then Some (de, v)
  else match n with
  | O => None
  | S n => '(es, v) ← scan_larger n t1 m0 m1 v; Some (de ++ es, v)
  end.

(** The entries given to the callback and the next cursor. *)
Definition dictScan (d : dict) (v : Z) : option (list entry * Z) :=
  if dictSize d =? 0 then Some ([], 0)
  else
    '(es, m0, v) ← (if negb (dictIsRehashing d) then
       let m0 := sizemask (ht0 d) in
       de ← bucket (ht0 d) (Z.land v m0);
       Some (de, m0, v)
     else
       let '(t0, t1) := if size (ht0 d) >? size (ht1 d) then (ht1 d, ht0 d) else (ht0 d, ht1 d) in
       let m0 := sizemask t0 in
       let m1 := sizemask t1 in
       de ← bucket t0 (Z.land v m0);
       '(es, v) ← scan_larger (length (table t1)) t1 m0 m1 v;
       Some (de ++ es, m0, v));
    let v := Z.lor v (u64 (Z.lnot m0)) in
    let v := rev v in
    let v := u64 (v + 1) in
    Some (es, rev v).

End Ops.
End Dict.
