(* ===== verification/DictTypes.v ===== *)
(** * Dictionary types (src/server.c)

    The hash and comparison functions the server gives its dictionaries of
    strings, and that they keep the promises [dictTypeLaws] asks for. *)

From S2P Require Import Prelude Dict.
Import Dict.

Module DictTypes.

(** ** Binary safe keys *)

(** The contents of an [sds]; the comparison takes lengths as [int]s. *)
Record sdskey := SdsKey { kbytes : bytes; klen : is_int (Z.of_nat (length kbytes)) }.

Definition dictSdsHash (seed : Z) (key : sdskey) : Z := dictGenHashFunction seed (kbytes key).

Definition memcmp0 (a b : bytes) (n : Z) : bool :=
  bool_decide (take (Z.to_nat n) a = take (Z.to_nat n) b).

Definition dictSdsKeyCompare (key1 key2 : sdskey) : bool :=
  let l1 := s32 (Z.of_nat (length (kbytes key1))) in
  let l2 := s32 (Z.of_nat (length (kbytes key2))) in
  if negb (l1 =? l2) then false else memcmp0 (kbytes key1) (kbytes key2) l1.

Lemma dictSdsKeyCompare_eq a b : dictSdsKeyCompare a b = bool_decide (kbytes a = kbytes b).
Proof.
  unfold dictSdsKeyCompare, memcmp0. destruct a as [a Ha], b as [b Hb]. cbn [kbytes].
  rewrite !wraps_small by (done || lia). cbn zeta. rewrite Nat2Z.id.
  destruct (Z.eqb_spec (Z.of_nat (length a)) (Z.of_nat (length b))) as [E|E]; cbn [negb].
  - apply Nat2Z.inj in E. apply bool_decide_ext. by rewrite firstn_all, (take_ge b) by lia.
  - rewrite bool_decide_eq_false_2; [done|]. intros ->. done.
Qed.

(** Keys are duplicated by reference or by content, values by reference. *)
#[export] Instance dbDictType (seed : Z) (V : Type) : dictType sdskey V :=
  DictType _ _ (dictSdsHash seed) id id dictSdsKeyCompare.

#[export] Instance dbDictType_laws seed V : dictTypeLaws sdskey V (T := dbDictType seed V).
Proof.
  split; cbn; unfold id; intros *; rewrite ?dictSdsKeyCompare_eq; rewrite ?bool_decide_eq_true; try congruence.
  intros E. unfold dictSdsHash. by rewrite E.
Qed.

(** ** Names whose case does not matter *)

(** The comparison stops at a null byte and the hash does not: names have
    none. *)
Record casekey := CaseKey { cbytes : bytes; cnonul : Forall (fun c => c <> 0) cbytes }.

Definition dictSdsCaseHash (seed : Z) (key : casekey) : Z := dictGenCaseHashFunction seed (cbytes key).

(** [strcasecmp] on terminated strings. *)
Fixpoint strcasecmp (a b : bytes) : Z :=
  match a, b with
  | x :: a, y :: b =>
    if (tolower x =? tolower y) && negb (x =? 0) then strcasecmp a b else tolower x - tolower y
  | _, _ => 0
  end.

Definition dictSdsKeyCaseCompare (key1 key2 : casekey) : bool :=
  strcasecmp (cbytes key1 ++ [0]) (cbytes key2 ++ [0]) =? 0.

Lemma tolower_0 c : tolower c = 0 -> c = 0.
Proof. unfold tolower. destruct ((65 <=? c) && (c <=? 90)) eqn:E; lia. Qed.

Lemma strcasecmp_0 a b :
  Forall (fun c => c <> 0) a -> Forall (fun c => c <> 0) b ->
  strcasecmp (a ++ [0]) (b ++ [0]) = 0 <-> tolower <$> a = tolower <$> b.
Proof.
  intros Ha. revert b. induction Ha as [|x a Hx Ha IH]; intros b Hb; destruct Hb as [|y b Hy Hb]; cbn [app strcasecmp].
  - done.
  - change (tolower 0) with 0. rewrite fmap_cons. destruct (Z.eqb_spec 0 (tolower y)) as [E|E].
    + symmetry in E. by apply tolower_0 in E.
    + cbn [andb]. split; [lia|done].
  - change (tolower 0) with 0. rewrite fmap_cons. destruct (Z.eqb_spec (tolower x) 0) as [E|E].
    + by apply tolower_0 in E.
    + cbn [andb]. split; [lia|done].
  - rewrite !fmap_cons, (proj2 (Z.eqb_neq x 0)) by done.
    destruct (Z.eqb_spec (tolower x) (tolower y)) as [E|E]; cbn [andb negb].
    + rewrite IH by done. rewrite E. split; [by intros ->|by intros [= ->]].
    + split; [lia|]. intros [= ? _]. congruence.
Qed.

Lemma dictGenCaseHash_fold seed a b :
  tolower <$> a = tolower <$> b -> dictGenCaseHashFunction seed a = dictGenCaseHashFunction seed b.
Proof.
  unfold dictGenCaseHashFunction. revert seed b. induction a as [|x a IH]; intros seed [|y b] E; try done.
  rewrite !fmap_cons in E. injection E as Ex E. cbn [foldl]. rewrite Ex. by apply IH.
Qed.

#[export] Instance commandTableDictType (seed : Z) (V : Type) : dictType casekey V :=
  DictType _ _ (dictSdsCaseHash seed) id id dictSdsKeyCaseCompare.

#[export] Instance commandTableDictType_laws seed V : dictTypeLaws casekey V (T := commandTableDictType seed V).
Proof.
  assert (forall a b, dictSdsKeyCaseCompare a b = true <-> tolower <$> cbytes a = tolower <$> cbytes b) as H.
  { intros [a Ha] [b Hb]. unfold dictSdsKeyCaseCompare. rewrite Z.eqb_eq. by apply strcasecmp_0. }
  split; cbn; unfold id; intros *; rewrite ?H; try congruence.
  intros E. by apply dictGenCaseHash_fold.
Qed.

End DictTypes.
