(* ===== verification/DictSpec.v ===== *)
(** * Dictionaries refine finite maps

    Well-formed dictionaries, the list of pairs a dictionary stands for, and
    the specification of every operation of [Dict]: rehashing is invisible,
    adding, replacing, deleting and searching are those of a finite map. *)

From S2P Require Import Prelude Dict DictTypes.
Import Dict DictTypes.

Module DictSpec.

Section Spec.
Context {K V : Type} {T : dictType K V} {L : dictTypeLaws K V}.

Abbreviation entry := (dictEntry K V).
Abbreviation ht := (dictht K V).
Abbreviation dict := (dict K V).
Implicit Types (t : ht) (d : dict) (e f : entry) (es : list entry).

(** ** Well-formed dictionaries *)

(** The index of a key in a table. *)
Definition slot (t : ht) (k : K) : Z := Z.land (hashFunction k) (sizemask t).

Definition null_ht (t : ht) : Prop := t = _dictReset.

Definition ht_shape (t : ht) : Prop :=
  size t = Z.of_nat (length (table t)) /\ size t <= 2 ^ 30 /\
  (null_ht t \/ exists k, 0 <= k /\ size t = 2 ^ k /\ sizemask t = 2 ^ k - 1) /\
  forall i b e, table t !! i = Some b -> e ∈ b -> slot t (ekey e) = Z.of_nat i.

Definition ht_wf (t : ht) : Prop := ht_shape t /\ used t = Z.of_nat (length (entries t)).

Definition distinct (es : list entry) : Prop :=
  ForallOrdPairs (fun e f => keyCompare (ekey e) (ekey f) = false) es.

Definition rehash_ok (d : dict) : Prop :=
  if dictIsRehashing d
  then 0 < size (ht0 d) /\ 0 < size (ht1 d) /\ 0 <= rehashidx d <= size (ht0 d) /\
       forall i b, Z.of_nat i < rehashidx d -> table (ht0 d) !! i = Some b -> b = []
  else null_ht (ht1 d).

Record wf (d : dict) : Prop := Wf {
  wf_ht0 : ht_wf (ht0 d);
  wf_ht1 : ht_wf (ht1 d);
  wf_rehash : rehash_ok d;
  wf_keys : distinct (dict_entries d);
  wf_addrs : NoDup (eaddr <$> dict_entries d)
}.

Definition kv (e : entry) : K * V := (ekey e, evalue e).

(** The pairs a dictionary holds, in no order. *)
Definition dict_rep (d : dict) (l : list (K * V)) : Prop :=
  wf d /\ kv <$> dict_entries d ≡ₚ l.

#[export] Instance dict_rep_proper : Proper (eq ==> (≡ₚ) ==> iff) dict_rep.
Proof. intros d ? <- l l' Hl. unfold dict_rep. by rewrite Hl. Qed.

(** ** Distinct keys *)

Lemma compare_false_sym a b : keyCompare a b = false -> keyCompare b a = false.
Proof.
  intros H. destruct (keyCompare b a) eqn:E; [|done]. apply compare_sym in E. congruence.
Qed.

Lemma distinct_cons e es :
  distinct (e :: es) <-> Forall (fun f => keyCompare (ekey e) (ekey f) = false) es /\ distinct es.
Proof.
  unfold distinct. split; [intros H; inversion H; by subst|]. intros [H1 H2]. by constructor.
Qed.

#[export] Instance distinct_proper : Proper ((≡ₚ) ==> iff) distinct.
Proof.
  assert (forall a b, a ≡ₚ b -> distinct a -> distinct b) as H.
  { induction 1 as [|x a b Hab IH|x y a|a b c _ IH1 _ IH2].
    - done.
    - rewrite !distinct_cons. intros [H1 H2]. split; [by rewrite <- Hab|by apply IH].
    - rewrite !distinct_cons, !Forall_cons. intros ([H1 H2] & H3 & H4).
      split_and!; [by apply compare_false_sym|done..].
    - auto. }
  intros a b Hab. split; by apply H.
Qed.

Lemma distinct_app a b :
  distinct (a ++ b) ->
  distinct a /\ distinct b /\ forall e f, e ∈ a -> f ∈ b -> keyCompare (ekey e) (ekey f) = false.
Proof.
  induction a as [|x a IH]; cbn [app].
  - intros H. split_and!; [constructor|done|set_solver].
  - rewrite !distinct_cons, Forall_app. intros [[H1 H2] H3]. destruct (IH H3) as (H4 & H5 & H6).
    split_and!; [done..|]. intros e f [->|He]%elem_of_cons Hf; [|by apply H6].
    rewrite Forall_forall in H2. by apply H2.
Qed.

(** ** Buckets *)

Lemma bucket_Some t i b :
  bucket t i = Some b <-> 0 <= i /\ table t !! Z.to_nat i = Some b.
Proof. unfold bucket. destruct (Z.ltb_spec i 0); split; [done|lia|done|tauto]. Qed.

(** What a table holds outside of a bucket. *)
Definition others (t : ht) (i : Z) : list entry :=
  concat (take (Z.to_nat i) (table t)) ++ concat (drop (S (Z.to_nat i)) (table t)).

Lemma entries_bucket t i b : bucket t i = Some b -> entries t ≡ₚ b ++ others t i.
Proof.
  intros [_ H]%bucket_Some. unfold entries, others.
  rewrite <- (take_drop_middle _ _ _ H) at 1. rewrite concat_app. cbn [concat]. solve_Permutation.
Qed.

Lemma entries_set_bucket t i b b' :
  bucket t i = Some b -> entries (set_bucket t i b') ≡ₚ b' ++ others t i.
Proof.
  intros [_ H]%bucket_Some. unfold entries, others, set_bucket. cbn [table].
  rewrite insert_take_drop by (by eapply lookup_lt_Some).
  rewrite concat_app. cbn [concat]. solve_Permutation.
Qed.

Lemma slot_range t k :
  ht_shape t -> 0 < size t -> 0 <= slot t k < size t.
Proof.
  intros (_ & _ & [->|(n & Hn & -> & Hm)] & _) Hnn; [done|].
  unfold slot. rewrite (land_ones_mod _ n) by (rewrite ?Hm, ?Z.ones_equiv; lia).
  apply Z.mod_pos_bound. lia.
Qed.

Lemma slot_bucket t k :
  ht_shape t -> 0 < size t -> exists b, bucket t (slot t k) = Some b.
Proof.
  intros Hs Hnn. pose proof (slot_range t k Hs Hnn) as Hr. destruct Hs as (Hsz & _).
  destruct (table t !! Z.to_nat (slot t k)) as [b|] eqn:E.
  - exists b. apply bucket_Some. split; [lia|done].
  - apply lookup_ge_None in E. lia.
Qed.

(** An entry with the key is in the key's bucket. *)
Lemma slot_compare t a b : keyCompare a b = true -> slot t a = slot t b.
Proof. intros H. unfold slot. by rewrite (compare_hash _ _ H). Qed.

Lemma others_slot t i b e :
  ht_shape t -> bucket t i = Some b -> e ∈ others t i -> slot t (ekey e) <> i.
Proof.
  intros (_ & _ & _ & Hs) [Hi Hb]%bucket_Some He. unfold others in He.
  apply elem_of_app in He as [He|He]; apply list_elem_of_In, in_concat in He as (c & Hc & He);
    apply list_elem_of_In in Hc, He; apply list_elem_of_lookup in Hc as [j Hc].
  - apply lookup_take_Some in Hc as [Hc Hj]. rewrite (Hs _ _ _ Hc He). lia.
  - rewrite lookup_drop in Hc. rewrite (Hs _ _ _ Hc He). lia.
Qed.

Lemma bucket_slot t i b e : ht_shape t -> bucket t i = Some b -> e ∈ b -> slot t (ekey e) = i.
Proof.
  intros (_ & _ & _ & Hs) [Hi Hb]%bucket_Some He. rewrite (Hs _ _ _ Hb He). lia.
Qed.

Lemma shape_set_bucket t i b b' n :
  ht_shape t -> bucket t i = Some b -> (forall e, e ∈ b' -> slot t (ekey e) = i) ->
  ht_shape (add_used (set_bucket t i b') n).
Proof.
  intros (Hsz & Hlim & Hk & Hs) Hb Hb'. unfold ht_shape, add_used, set_bucket, slot.
  cbn [table size sizemask used]. rewrite length_insert. apply bucket_Some in Hb as [Hi Hb].
  split_and!; [done|done| |].
  - destruct Hk as [->|Hk]; [done|by right].
  - intros j c e Hc He. destruct (decide (j = Z.to_nat i)) as [->|Hne].
    + rewrite list_lookup_insert_eq in Hc by (by eapply lookup_lt_Some). injection Hc as <-.
      specialize (Hb' e He). unfold slot in Hb'. lia.
    + rewrite list_lookup_insert_ne in Hc by done. by apply (Hs j c e).
Qed.

(** ** Rehashing *)

(** Two states with the same entries. *)
Record same (d d' : dict) : Prop := Same {
  same_wf : wf d';
  same_entries : dict_entries d' ≡ₚ dict_entries d;
  same_iterators : iterators d' = iterators d;
  same_pos : 0 < size (ht0 d) -> 0 < size (ht0 d')
}.

Lemma same_refl d : wf d -> same d d.
Proof. by split. Qed.

Lemma same_trans d1 d2 d3 : same d1 d2 -> same d2 d3 -> same d1 d3.
Proof.
  intros [_ H1 I1 P1] [W H2 I2 P2]. split; [done|by rewrite H2|congruence|auto].
Qed.

Lemma same_rep d d' l : same d d' -> dict_rep d l -> dict_rep d' l.
Proof. intros [W H _ _] [_ Hl]. split; [done|]. by rewrite H. Qed.

(** Moving entries about keeps their keys distinct and their addresses. *)
Lemma wf_perm d t0 t1 r n :
  wf d -> ht_wf t0 -> ht_wf t1 -> rehash_ok (MkDict t0 t1 r n) ->
  entries t0 ++ entries t1 ≡ₚ dict_entries d -> n = iterators d ->
  (0 < size (ht0 d) -> 0 < size t0) -> same d (MkDict t0 t1 r n).
Proof.
  intros [_ _ _ Hd Ha] H0 H1 Hr Hp Hn Hpos. split; [|done|done|done].
  split; [done|done|done| |]; unfold dict_entries; cbn [ht0 ht1]; by rewrite Hp.
Qed.

Lemma shape_add_used t n : ht_shape t -> table t <> [] -> ht_shape (add_used t n).
Proof.
  intros (Hsz & Hlim & Hk & Hs) Hne. split_and!; [done|done| |done].
  destruct Hk as [->|Hk]; [done|by right].
Qed.

Lemma move_bucket_spec es : forall t0 t1,
  ht_shape t1 -> 0 < size t1 ->
  exists t1', move_bucket t0 t1 es = Some (add_used t0 (- Z.of_nat (length es)), t1') /\
    ht_shape t1' /\ size t1' = size t1 /\ entries t1' ≡ₚ es ++ entries t1 /\
    used t1' = used t1 + Z.of_nat (length es).
Proof.
  induction es as [|e es IH]; intros t0 t1 Hs Hsz; cbn [move_bucket].
  { exists t1. split_and!; try done; [|cbn; lia]. destruct t0. unfold add_used. cbn. by rewrite Z.add_0_r. }
  fold (slot t1 (ekey e)). destruct (slot_bucket t1 (ekey e) Hs Hsz) as (b & Hb). rewrite Hb.
  cbn [mbind option_bind].
  destruct (IH (add_used t0 (-1)) (add_used (set_bucket t1 (slot t1 (ekey e)) (e :: b)) 1))
    as (t1' & -> & Hs' & Hsz' & Hp & Hu).
  { apply (shape_set_bucket _ _ b); [done|done|]. intros f [->|Hf]%elem_of_cons; [done|].
    by apply (bucket_slot t1 _ b). }
  { done. }
  exists t1'. split_and!.
  - unfold add_used. cbn [table size sizemask used length]. do 3 f_equal. lia.
  - done.
  - done.
  - rewrite Hp. change (entries (add_used ?t 1)) with (entries t).
    rewrite (entries_set_bucket _ _ _ _ Hb), (entries_bucket _ _ _ Hb). solve_Permutation.
  - rewrite Hu. cbn [add_used set_bucket used length]. lia.
Qed.

Lemma wf_not_null d : wf d -> dictIsRehashing d = true -> 0 < size (ht0 d) /\ 0 < size (ht1 d).
Proof. intros [_ _ Hr _ _] E. unfold rehash_ok in Hr. rewrite E in Hr. tauto. Qed.

Lemma concat_nil_inv (l : list (list entry)) : concat l <> [] -> exists i b, l !! i = Some b /\ b <> [].
Proof.
  induction l as [|b l IH]; [done|]. cbn [concat]. intros H. destruct b as [|e b].
  - destruct (IH H) as (i & b & Hi & Hb). by exists (S i), b.
  - by exists 0%nat, (e :: b).
Qed.

(** The walk over empty buckets stops at a bucket that holds something, or
    has used up its visits. *)
Lemma skip_empty_spec ev : forall d,
  wf d -> dictIsRehashing d = true -> entries (ht0 d) <> [] -> (0 < ev)%nat ->
  exists r, skip_empty ev d = Some r /\
  match r with
  | inl d' => same d d' /\ dictIsRehashing d' = true /\ rehashidx d < rehashidx d' /\ ht0 d' = ht0 d /\ ht1 d' = ht1 d
  | inr (d', ev') => same d d' /\ dictIsRehashing d' = true /\ rehashidx d <= rehashidx d' /\ (0 < ev')%nat /\
      ht0 d' = ht0 d /\ ht1 d' = ht1 d /\
      exists e b, bucket (ht0 d') (rehashidx d') = Some (e :: b)
  end.
Proof.
  induction ev as [|ev IH]; intros d W Hr Hne Hev; [lia|].
  pose proof W as [Hw0 Hw1 Hok Hd Ha]. unfold rehash_ok in Hok. rewrite Hr in Hok.
  destruct Hok as (H0 & H1 & Hidx & Hempty).
  destruct (concat_nil_inv _ Hne) as (i & c & Hi & Hc).
  assert (rehashidx d <= Z.of_nat i < size (ht0 d)) as Hlt.
  { split.
    - destruct (Z.lt_ge_cases (Z.of_nat i) (rehashidx d)) as [Hlt|]; [|lia]. by specialize (Hempty i c Hlt Hi).
    - destruct Hw0 as [(Hs & _) _]. apply lookup_lt_Some in Hi. lia. }
  assert (exists b, bucket (ht0 d) (rehashidx d) = Some b) as (b & Hb).
  { destruct (table (ht0 d) !! Z.to_nat (rehashidx d)) as [b|] eqn:E.
    - exists b. apply bucket_Some. split; [lia|done].
    - apply lookup_ge_None in E. destruct Hw0 as [(Hs & _) _]. lia. }
  cbn [skip_empty]. rewrite Hb. cbn [mbind option_bind]. destruct b as [|e b].
  2: { eexists. split; [done|]. cbn. split_and!; [by apply same_refl|done|lia|lia|done|done|by exists e, b]. }
  set (d1 := MkDict (ht0 d) (ht1 d) (rehashidx d + 1) (iterators d)).
  assert (rehashidx d <> Z.of_nat i) as Hni.
  { intros E. apply bucket_Some in Hb as [_ Hb]. rewrite E, Nat2Z.id in Hb. congruence. }
  assert (dictIsRehashing d1 = true) as Hr1.
  { unfold dictIsRehashing, d1. cbn [rehashidx]. apply negb_true_iff, Z.eqb_neq. lia. }
  assert (same d d1) as Hs.
  { apply wf_perm; try done. unfold rehash_ok. fold d1. rewrite Hr1. unfold d1. cbn [ht0 ht1 rehashidx].
    split_and!; [done|done|lia|lia|]. intros j c' Hj Hc'.
    destruct (decide (Z.of_nat j = rehashidx d)) as [E|]; [|apply (Hempty j); [lia|done]].
    apply bucket_Some in Hb as [_ Hb]. rewrite <- E, Nat2Z.id in Hb. congruence. }
  destruct ev as [|ev].
  { eexists. split; [done|]. cbn. split_and!; [done|done|lia|done|done]. }
  destruct (IH d1) as (r & E & Hres); [by destruct Hs|done|done|lia|].
  exists r. split; [exact E|]. destruct r as [d'|[d' ev']].
  - destruct Hres as (Hs' & Hr' & Hlt' & E0 & E1). unfold d1 in Hlt'. cbn [rehashidx] in Hlt'.
    split_and!; [by eapply same_trans|done|lia|done|done].
  - destruct Hres as (Hs' & Hr' & Hlt' & Hev' & E0 & E1 & Hb'). unfold d1 in Hlt'. cbn [rehashidx] in Hlt'.
    split_and!; [by eapply same_trans|done|lia|lia|done|done|done].
Qed.

(** What is left of a rehashing: zero when there is none. *)
Definition to_rehash (d : dict) : Z :=
  if dictIsRehashing d then 1 + size (ht0 d) - rehashidx d else 0.

Lemma to_rehash_pos d : wf d -> dictIsRehashing d = true -> 0 < to_rehash d.
Proof.
  intros [_ _ Hr _ _] E. unfold to_rehash, rehash_ok in *. rewrite E in *. lia.
Qed.

Lemma rehash_end_spec d :
  wf d -> dictIsRehashing d = true ->
  let '(d', more) := rehash_end d in
  same d d' /\ more = dictIsRehashing d' /\ to_rehash d' <= to_rehash d.
Proof.
  intros W Hr. pose proof (to_rehash_pos d W Hr) as Hpos. unfold rehash_end.
  destruct (Z.eqb_spec (used (ht0 d)) 0) as [Hu|Hu]; [|split_and!; [by apply same_refl|done|lia]].
  split; [|split; [done|cbn; lia]].
  assert (entries (ht0 d) = []) as He.
  { destruct W as [[_ H] _ _ _ _]. rewrite Hu in H. destruct (entries (ht0 d)); [done|cbn [length] in H; lia]. }
  apply wf_perm; try done.
  - by destruct W.
  - split; [|done]. split_and!; [done|done|by left|]. intros i b e Hi. by destruct i.
  - unfold dict_entries. rewrite He, app_nil_r. done.
  - intros _. by apply wf_not_null.
Qed.

(** One bucket moved. *)
Lemma rehash_bucket d e es :
  wf d -> dictIsRehashing d = true -> bucket (ht0 d) (rehashidx d) = Some (e :: es) ->
  exists t0 t1, move_bucket (ht0 d) (ht1 d) (e :: es) = Some (t0, t1) /\
    let d' := MkDict (set_bucket t0 (rehashidx d) []) t1 (rehashidx d + 1) (iterators d) in
    same d d' /\ dictIsRehashing d' = true /\ to_rehash d' < to_rehash d.
Proof.
  intros W Hr Hb. destruct (wf_not_null d W Hr) as [Hn0 Hn1].
  pose proof W as [[Hs0 Hu0] [Hs1 Hu1] Hok _ _]. unfold rehash_ok in Hok. rewrite Hr in Hok.
  destruct Hok as (_ & _ & Hidx & Hempty).
  destruct (move_bucket_spec (e :: es) (ht0 d) (ht1 d) Hs1 Hn1) as (t1 & -> & Hs & Hsz & Hp & Hu).
  eexists _, t1. split; [done|]. cbn zeta.
  assert (rehashidx d < size (ht0 d)) as Hlt.
  { apply bucket_Some in Hb as [_ Hb]. apply lookup_lt_Some in Hb. destruct Hs0 as (Hz & _). lia. }
  set (d' := MkDict _ _ _ _). assert (dictIsRehashing d' = true) as Hr'.
  { unfold dictIsRehashing, d'. cbn [rehashidx]. apply negb_true_iff, Z.eqb_neq. lia. }
  split; [|split; [done|unfold to_rehash; rewrite Hr, Hr'; unfold d'; cbn [ht0 rehashidx set_bucket add_used size]; lia]].
  pose proof (entries_bucket _ _ _ Hb) as Ho. pose proof (entries_set_bucket _ _ _ [] Hb) as Hn.
  change (entries (set_bucket (ht0 d) (rehashidx d) []))
    with (entries (set_bucket (add_used (ht0 d) (- Z.of_nat (length (e :: es)))) (rehashidx d) [])) in Hn.
  apply wf_perm; try done.
  - split.
    { apply (shape_set_bucket (ht0 d) (rehashidx d) (e :: es) [] (- Z.of_nat (length (e :: es)))); [done|done|].
      intros f Hf. by apply elem_of_nil in Hf. }
    rewrite Hn. cbn [app add_used set_bucket used]. rewrite Hu0, Ho, length_app. lia.
  - split; [done|]. rewrite Hp, length_app, Hu, Hu1. lia.
  - unfold rehash_ok. fold d'. rewrite Hr'. unfold d'. cbn [ht0 ht1 rehashidx set_bucket add_used size table].
    split_and!; [done|lia|lia|lia|]. intros i b Hi Hlk.
    destruct (decide (i = Z.to_nat (rehashidx d))) as [->|Hne].
    + rewrite list_lookup_insert_eq in Hlk; [congruence|].
      apply bucket_Some in Hb as [_ Hb]. by eapply lookup_lt_Some.
    + rewrite list_lookup_insert_ne in Hlk by done. apply (Hempty i); [lia|done].
  - rewrite Hp, Hn. unfold dict_entries. rewrite Ho. solve_Permutation.
Qed.

Lemma rehash_loop_spec n : forall ev d,
  wf d -> dictIsRehashing d = true -> (0 < n -> 0 < ev)%nat ->
  exists d' more, rehash_loop n ev d = Some (d', more) /\
    same d d' /\ more = dictIsRehashing d' /\ to_rehash d' <= to_rehash d /\
    ((0 < n)%nat -> to_rehash d' < to_rehash d).
Proof.
  induction n as [|n IH]; intros ev d W Hr Hev; cbn [rehash_loop].
  { pose proof (rehash_end_spec d W Hr) as H. destruct (rehash_end d) as [d' more].
    destruct H as (Hs & Hm & Ht). exists d', more. split_and!; [done|done|done|done|lia]. }
  destruct (Z.eqb_spec (used (ht0 d)) 0) as [Hu|Hu].
  { pose proof (rehash_end_spec d W Hr) as H. pose proof (to_rehash_pos d W Hr) as Hpos.
    unfold rehash_end in *. rewrite Hu in *. cbn [Z.eqb] in *. destruct H as (Hs & Hm & Ht).
    eexists _, _. split_and!; [done|done|done|done|]. cbn. lia. }
  assert (entries (ht0 d) <> []) as Hne.
  { destruct W as [[_ H] _ _ _ _]. intros E. rewrite E in H. done. }
  destruct (skip_empty_spec ev d W Hr Hne) as (r & -> & Hres); [lia|]. cbn [mbind option_bind].
  destruct r as [d1|[d1 ev1]].
  - destruct Hres as (Hs & Hr1 & Hlt & E0 & _). exists d1, true.
    assert (to_rehash d1 < to_rehash d) by (unfold to_rehash; rewrite Hr, Hr1, E0; lia).
    split_and!; [done|done|done|lia|lia].
  - destruct Hres as (Hs & Hr1 & Hle & Hev1 & E0 & _ & e & b & Hb).
    assert (to_rehash d1 <= to_rehash d) as Hle1 by (unfold to_rehash; rewrite Hr, Hr1, E0; lia).
    rewrite Hb. cbn [mbind option_bind].
    destruct (rehash_bucket d1 e b) as (t0 & t1 & -> & Hs2 & Hr2 & Hlt2); [by destruct Hs|done|done|].
    cbn [mbind option_bind].
    destruct (IH ev1 _ (same_wf _ _ Hs2) Hr2) as (d' & more & -> & Hs3 & Hm & Hle3 & _); [done|].
    exists d', more. split_and!; [done|by eapply same_trans, same_trans|done|lia|lia].
Qed.

(** A call moves entries about, nothing else, and makes progress. *)
Lemma dictRehash_spec d n :
  wf d -> exists d' more, dictRehash d n = Some (d', more) /\ same d d' /\
    more = dictIsRehashing d' /\ to_rehash d' <= to_rehash d /\
    ((0 < n)%nat -> dictIsRehashing d = true -> to_rehash d' < to_rehash d).
Proof.
  intros W. unfold dictRehash. destruct (dictIsRehashing d) eqn:Hr; cbn [negb].
  - destruct (rehash_loop_spec n (n * 10) d W Hr) as (d' & more & -> & Hs & Hm & Hle & Hlt); [lia|].
    exists d', more. split_and!; auto.
  - exists d, false. split_and!; [done|by apply same_refl|done|lia|done].
Qed.

Lemma rehash_step_spec d : wf d -> exists d', rehash_step_if d = Some d' /\ same d d'.
Proof.
  intros W. unfold rehash_step_if, _dictRehashStep.
  destruct (dictIsRehashing d); [|exists d; by split; [|apply same_refl]].
  destruct (iterators d =? 0); [|exists d; by split; [|apply same_refl]].
  destruct (dictRehash_spec d 1 W) as (d' & more & -> & Hs & _). by exists d'.
Qed.

(** The rehashing ends: as many calls as there are buckets left are enough. *)
Fixpoint rehash_all (n : nat) (d : dict) : option dict :=
  match n with
  | O => Some d
  | S n => '(d, _) ← dictRehash d 1; rehash_all n d
  end.

Lemma rehash_all_spec n : forall d, wf d -> to_rehash d <= Z.of_nat n ->
  exists d', rehash_all n d = Some d' /\ same d d' /\ dictIsRehashing d' = false.
Proof.
  induction n as [|n IH]; intros d W Hn; cbn [rehash_all].
  - exists d. split_and!; [done|by apply same_refl|].
    destruct (dictIsRehashing d) eqn:E; [|done]. pose proof (to_rehash_pos d W E). lia.
  - destruct (dictRehash_spec d 1 W) as (d1 & more & -> & Hs & Hm & Hle & Hlt). cbn [mbind option_bind].
    destruct (IH d1) as (d' & -> & Hs' & Hr).
    + by destruct Hs.
    + destruct (dictIsRehashing d) eqn:E; [specialize (Hlt ltac:(lia) eq_refl); lia|].
      unfold to_rehash in Hle at 2. rewrite E in Hle. lia.
    + exists d'. split_and!; [done|by eapply same_trans|done].
Qed.

(** ** Growing *)

(** The bound on the number of entries below which every size and index is
    exact: indexes are [int]s. *)
Definition DICT_LIMIT : Z := 2 ^ 29.

Lemma next_power_loop_spec n : forall k sz,
  2 <= k -> k <= 30 -> 30 <= k + Z.of_nat n -> sz <= 2 ^ 30 ->
  exists k', k <= k' <= 30 /\ sz <= 2 ^ k' /\ next_power_loop n (2 ^ k) sz = Some (2 ^ k').
Proof.
  induction n as [|n IH]; intros k sz Hk Hk2 Hn Hsz; cbn [next_power_loop]; rewrite Z.geb_leb;
    destruct (Z.leb_spec sz (2 ^ k)) as [H|H]; try (exists k; split_and!; done || lia).
  - replace k with 30 in H by lia. lia.
  - destruct (decide (k = 30)) as [->|]; [lia|].
    assert (2 ^ (k + 1) <= 2 ^ 30) by (apply Z.pow_le_mono_r; lia).
    assert (2 ^ (k + 1) = 2 ^ k * 2) as Hp by (rewrite Z.pow_add_r by lia; done).
    pose proof (Z.pow_pos_nonneg 2 k ltac:(lia) ltac:(lia)).
    rewrite wrapu_small by ints. rewrite <- Hp.
    destruct (IH (k + 1) sz) as (k' & ? & ? & ->); [lia..|]. exists k'. split_and!; done || lia.
Qed.

Lemma dictNextPower_spec sz :
  sz <= 2 ^ 30 -> exists k, 2 <= k <= 30 /\ sz <= 2 ^ k /\ _dictNextPower sz = Some (2 ^ k).
Proof.
  intros H. unfold _dictNextPower, LONG_MAX. rewrite Z.geb_leb, (proj2 (Z.leb_gt _ _)) by lia.
  change DICT_HT_INITIAL_SIZE with (2 ^ 2). apply (next_power_loop_spec 64 2 sz); lia.
Qed.

Lemma concat_replicate_nil {A} n : concat (replicate n (@nil A)) = [].
Proof. by induction n. Qed.

Lemma new_ht_wf k :
  0 <= k <= 30 -> ht_wf (Dictht (replicate (Z.to_nat (2 ^ k)) []) (2 ^ k) (2 ^ k - 1) 0).
Proof.
  intros Hk. assert (2 ^ k <= 2 ^ 30) by (apply Z.pow_le_mono_r; lia).
  pose proof (Z.pow_pos_nonneg 2 k ltac:(lia) ltac:(lia)).
  split; [|unfold entries; cbn [table used]; by rewrite concat_replicate_nil].
  unfold ht_shape. cbn [size table sizemask]. rewrite length_replicate. split_and!; [lia|done|right; exists k; split_and!; lia|].
  intros i b e Hi He. apply lookup_replicate in Hi as [-> _]. by apply elem_of_nil in He.
Qed.

Lemma wf_null0 d : wf d -> size (ht0 d) = 0 -> null_ht (ht0 d).
Proof.
  intros [[(_ & _ & [H|(k & Hk & Hs & _)] & _) _] _ _ _ _] H0; [done|].
  pose proof (Z.pow_pos_nonneg 2 k ltac:(lia) ltac:(lia)). lia.
Qed.

Lemma dictExpand_spec d sz :
  wf d -> sz <= 2 ^ 30 ->
  exists d' ok, dictExpand d sz = Some (d', ok) /\ same d d' /\
    (dictIsRehashing d = false -> used (ht0 d) <= sz -> size (ht0 d) < sz ->
     ok = true /\ 0 < size (ht0 d')).
Proof.
  intros W Hsz. unfold dictExpand. destruct (dictNextPower_spec sz Hsz) as (k & Hk & Hszk & ->).
  cbn [mbind option_bind]. destruct (dictIsRehashing d) eqn:Hr; cbn [orb].
  { exists d, false. split_and!; [done|by apply same_refl|done]. }
  rewrite Z.gtb_ltb. destruct (Z.ltb_spec sz (used (ht0 d))) as [Hu|Hu].
  { exists d, false. split_and!; [done|by apply same_refl|lia]. }
  destruct (Z.eqb_spec (2 ^ k) (size (ht0 d))) as [E|E].
  { exists d, false. split_and!; [done|by apply same_refl|lia]. }
  pose proof (new_ht_wf k ltac:(lia)) as Hn. set (n := Dictht _ _ _ _) in *.
  pose proof W as [Hw0 Hw1 Hok _ _]. unfold rehash_ok in Hok. rewrite Hr in Hok. unfold null_ht in Hok.
  assert (entries n = []) as Hen by (unfold entries, n; cbn [table]; apply concat_replicate_nil).
  pose proof (Z.pow_pos_nonneg 2 k ltac:(lia) ltac:(lia)) as Hpk.
  apply negb_false_iff, Z.eqb_eq in Hr.
  destruct (table (ht0 d)) as [|c cs] eqn:Et.
  - assert (null_ht (ht0 d)) as H0 by (apply wf_null0; [done|]; destruct Hw0 as [(-> & _) _]; by rewrite Et).
    eexists _, true. split; [done|]. split; [|intros; by split].
    apply wf_perm; try done; [unfold rehash_ok, dictIsRehashing; cbn [rehashidx ht1]; by rewrite Hr|].
    rewrite Hen. unfold dict_entries. by rewrite H0.
  - assert (0 < size (ht0 d)) as H0 by (destruct Hw0 as [(-> & _) _]; rewrite Et; cbn [length]; lia).
    eexists _, true. split; [done|]. split; [|intros; by split].
    apply wf_perm; try done.
    + unfold rehash_ok, dictIsRehashing. cbn [rehashidx Z.eqb negb ht0 ht1]. split_and!; [done|done|lia|lia|].
      intros i b Hi. lia.
    + rewrite Hen. unfold dict_entries. by rewrite Hok.
Qed.

Definition dict_count (d : dict) : Z := Z.of_nat (length (dict_entries d)).

Lemma dict_count_used d : wf d -> dict_count d = used (ht0 d) + used (ht1 d).
Proof.
  intros [[_ H0] [_ H1] _ _ _]. unfold dict_count, dict_entries. rewrite H0, H1, length_app. lia.
Qed.

Lemma same_count d d' : same d d' -> dict_count d' = dict_count d.
Proof. intros [_ H _ _]. unfold dict_count. by rewrite H. Qed.

Lemma used_nonneg t : ht_wf t -> 0 <= used t.
Proof. intros [_ ->]. lia. Qed.

Lemma size_nonneg t : ht_wf t -> 0 <= size t.
Proof. intros [(-> & _) _]. lia. Qed.

Lemma dictExpandIfNeeded_spec can_resize d :
  wf d -> dict_count d < DICT_LIMIT ->
  exists d', _dictExpandIfNeeded can_resize d = Some (d', true) /\ same d d' /\ 0 < size (ht0 d').
Proof.
  intros W Hc. rewrite (dict_count_used d W) in Hc. unfold DICT_LIMIT in Hc. unfold _dictExpandIfNeeded.
  pose proof W as [Hw0 Hw1 _ _ _]. pose proof (used_nonneg _ Hw0). pose proof (used_nonneg _ Hw1).
  pose proof (size_nonneg _ Hw0).
  destruct (dictIsRehashing d) eqn:Hr.
  { exists d. split_and!; [done|by apply same_refl|]. by apply wf_not_null. }
  destruct (Z.eqb_spec (size (ht0 d)) 0) as [E|E].
  { destruct (dictExpand_spec d DICT_HT_INITIAL_SIZE W) as (d' & ok & -> & Hs & Hok); [done|].
    destruct (Hok Hr) as [-> ?].
    - pose proof (wf_null0 d W E) as Hn. rewrite Hn. done.
    - rewrite E. done.
    - by exists d'. }
  destruct (_ && _) eqn:Eb.
  - apply andb_true_iff in Eb as [Hge _]. rewrite Z.geb_leb in Hge. apply Z.leb_le in Hge.
    destruct (dictExpand_spec d (used (ht0 d) * 2) W) as (d' & ok & -> & Hs & Hok); [lia|].
    destruct (Hok Hr) as [-> ?]; [lia|lia|]. by exists d'.
  - exists d. split_and!; [done|by apply same_refl|lia].
Qed.

Lemma dictResize_spec can_resize d :
  wf d -> dict_count d < DICT_LIMIT ->
  exists d' ok, dictResize can_resize d = Some (d', ok) /\ same d d'.
Proof.
  intros W Hc. rewrite (dict_count_used d W) in Hc. unfold DICT_LIMIT in Hc. unfold dictResize.
  pose proof W as [Hw0 Hw1 _ _ _]. pose proof (used_nonneg _ Hw0). pose proof (used_nonneg _ Hw1).
  destruct (_ || _); [exists d, false; split; [done|by apply same_refl]|].
  rewrite wraps_small by ints. unfold DICT_HT_INITIAL_SIZE.
  set (m := if _ <? 4 then _ else _).
  assert (4 <= m < 2 ^ 29) as Hm by (unfold m; destruct (Z.ltb_spec (used (ht0 d)) 4); lia).
  rewrite wrapu_small by ints. destruct (dictExpand_spec d m W) as (d' & ok & -> & Hs & _); [lia|].
  by exists d', ok.
Qed.

(** ** Searching *)

Lemma find_in_chain_spec key es :
  match find_in_chain key es with
  | Some e => e ∈ es /\ keyCompare key (ekey e) = true
  | None => forall e, e ∈ es -> keyCompare key (ekey e) = false
  end.
Proof.
  induction es as [|e es IH]; cbn [find_in_chain]; [intros e He; by apply elem_of_nil in He|].
  destruct (keyCompare key (ekey e)) eqn:E; [split; [by left|done]|].
  destruct (find_in_chain key es) as [f|].
  - destruct IH as [Hf Hk]. split; [by right|done].
  - intros f [->|Hf]%elem_of_cons; [done|by apply IH].
Qed.

Lemma find_in_table t key :
  ht_shape t -> 0 < size t ->
  exists es, bucket t (slot t key) = Some es /\
  match find_in_chain key es with
  | Some e => e ∈ entries t /\ keyCompare key (ekey e) = true
  | None => forall e, e ∈ entries t -> keyCompare key (ekey e) = false
  end.
Proof.
  intros Hs Hn. destruct (slot_bucket t key Hs Hn) as (es & Hb). exists es. split; [done|].
  pose proof (find_in_chain_spec key es) as Hf. destruct (find_in_chain key es) as [e|].
  - destruct Hf as [He Hk]. split; [|done]. rewrite (entries_bucket _ _ _ Hb). apply elem_of_app. by left.
  - intros e He. rewrite (entries_bucket _ _ _ Hb) in He. apply elem_of_app in He as [He|He]; [by apply Hf|].
    destruct (keyCompare key (ekey e)) eqn:E; [|done].
    destruct (others_slot t _ es e Hs Hb He). symmetry. by apply slot_compare.
Qed.

(** Whether some entry has the key. *)
Definition found (d : dict) (key : K) (r : option addr) : Prop :=
  match r with
  | Some a => exists e, e ∈ dict_entries d /\ eaddr e = a /\ keyCompare key (ekey e) = true
  | None => forall e, e ∈ dict_entries d -> keyCompare key (ekey e) = false
  end.

Lemma entries_null t : null_ht t -> entries t = [].
Proof. by intros ->. Qed.

Lemma wf_ht0_pos d : wf d -> dict_entries d <> [] -> 0 < size (ht0 d).
Proof.
  intros W Hne. destruct (dictIsRehashing d) eqn:Hr; [by apply wf_not_null|].
  pose proof (size_nonneg _ (wf_ht0 _ W)). destruct (decide (size (ht0 d) = 0)) as [E|]; [|lia].
  exfalso. apply Hne. unfold dict_entries. rewrite (entries_null _ (wf_null0 d W E)).
  destruct W as [_ _ Hok _ _]. unfold rehash_ok in Hok. rewrite Hr in Hok. by rewrite (entries_null _ Hok).
Qed.

(** The search of both tables, whichever the caller is. *)
Lemma search_tables d key :
  wf d -> 0 < size (ht0 d) ->
  exists es, bucket (ht0 d) (slot (ht0 d) key) = Some es /\
  match find_in_chain key es with
  | Some e => e ∈ entries (ht0 d) /\ keyCompare key (ekey e) = true
  | None =>
    (forall e, e ∈ entries (ht0 d) -> keyCompare key (ekey e) = false) /\
    if dictIsRehashing d then
      exists es, bucket (ht1 d) (slot (ht1 d) key) = Some es /\
      match find_in_chain key es with
      | Some e => e ∈ entries (ht1 d) /\ keyCompare key (ekey e) = true
      | None => forall e, e ∈ entries (ht1 d) -> keyCompare key (ekey e) = false
      end
    else entries (ht1 d) = []
  end.
Proof.
  intros W H0. destruct (find_in_table (ht0 d) key) as (es & Hb & Hf); [by destruct (wf_ht0 _ W)|done|].
  exists es. split; [done|]. destruct (find_in_chain key es) as [e|]; [done|]. split; [done|].
  destruct (dictIsRehashing d) eqn:Hr.
  - apply find_in_table; [by destruct (wf_ht1 _ W)|by apply wf_not_null].
  - destruct W as [_ _ Hok _ _]. unfold rehash_ok in Hok. rewrite Hr in Hok. by apply entries_null.
Qed.

Lemma dictFind_spec d key :
  wf d -> exists d' r, dictFind d key = Some (d', r) /\ same d d' /\ found d' key r.
Proof.
  intros W. unfold dictFind. rewrite <- (dict_count_used d W).
  destruct (Z.eqb_spec (dict_count d) 0) as [E|E].
  { exists d, None. split_and!; [done|by apply same_refl|]. intros e He. unfold dict_count in E.
    destruct (dict_entries d); [by apply elem_of_nil in He|done]. }
  destruct (rehash_step_spec d W) as (d' & -> & Hs). cbn [mbind option_bind].
  pose proof (same_wf _ _ Hs) as W'. assert (0 < size (ht0 d')) as H0.
  { apply wf_ht0_pos; [done|]. rewrite <- (same_count _ _ Hs) in E. unfold dict_count in E. by destruct (dict_entries d'). }
  destruct (search_tables d' key W' H0) as (es & Hb & Hf). fold (slot (ht0 d') key). rewrite Hb.
  cbn [mbind option_bind]. destruct (find_in_chain key es) as [e|].
  { exists d', (Some (eaddr e)). split_and!; [done|done|]. exists e. destruct Hf. split_and!; [|done..].
    apply elem_of_app. by left. }
  destruct Hf as [Hf Hg]. destruct (dictIsRehashing d'); cbn [negb].
  - destruct Hg as (es1 & Hb1 & Hg). fold (slot (ht1 d') key). rewrite Hb1. cbn [mbind option_bind].
    destruct (find_in_chain key es1) as [e|]; (eexists _, _; split_and!; [done|done|]).
    + destruct Hg. exists e. split_and!; [|done..]. apply elem_of_app. by right.
    + intros e [He|He]%elem_of_app; auto.
  - exists d', None. split_and!; [done|done|]. intros e [He|He]%elem_of_app; [auto|].
    rewrite Hg in He. by apply elem_of_nil in He.
Qed.

(** ** Adding *)

Definition target (d : dict) : ht := if dictIsRehashing d then ht1 d else ht0 d.

Lemma dictKeyIndex_spec can_resize d key :
  wf d -> dict_count d < DICT_LIMIT ->
  exists d' idx, _dictKeyIndex can_resize d key = Some (d', idx) /\ same d d' /\
    0 < size (target d') /\
    ((idx = -1 /\ exists e, e ∈ dict_entries d' /\ keyCompare key (ekey e) = true) \/
     (idx = slot (target d') key /\ forall e, e ∈ dict_entries d' -> keyCompare key (ekey e) = false)).
Proof.
  intros W Hc. unfold _dictKeyIndex.
  destruct (dictExpandIfNeeded_spec can_resize d W Hc) as (d' & -> & Hs & H0). cbn [mbind option_bind negb].
  pose proof (same_wf _ _ Hs) as W'.
  assert (forall t, ht_wf t -> 0 < size t -> s32 (slot t key) = slot t key) as Hs32.
  { intros t [Ht _] Hp. pose proof (slot_range t key Ht Hp). destruct Ht as (_ & Hl & _).
    apply wraps_small; [lia|ints]. }
  pose proof W' as [Hw0 Hw1 _ _ _].
  destruct (search_tables d' key W' H0) as (es & Hb & Hf). fold (slot (ht0 d') key). rewrite Hb.
  cbn [mbind option_bind]. unfold target. destruct (find_in_chain key es) as [e|].
  { exists d', (-1). split_and!; [done|done| |].
    - destruct (dictIsRehashing d') eqn:Hr; [by apply wf_not_null|done].
    - left. split; [done|]. exists e. destruct Hf. split; [|done]. apply elem_of_app. by left. }
  destruct Hf as [Hf Hg]. destruct (dictIsRehashing d') eqn:Hr; cbn [negb].
  - destruct (wf_not_null d' W' Hr) as [_ H1].
    destruct Hg as (es1 & Hb1 & Hg). fold (slot (ht1 d') key). rewrite Hb1. cbn [mbind option_bind].
    destruct (find_in_chain key es1) as [e|]; (eexists _, _; rewrite Hr; split_and!; [done|done|done|]).
    + left. split; [done|]. exists e. destruct Hg. split; [|done]. apply elem_of_app. by right.
    + right. split; [by apply Hs32|]. intros e [He|He]%elem_of_app; auto.
  - eexists _, _. rewrite Hr. split_and!; [done|done|done|]. right. split; [by apply Hs32|].
    intros e [He|He]%elem_of_app; [auto|]. rewrite Hg in He. by apply elem_of_nil in He.
Qed.

Lemma push_entry_spec t e :
  ht_wf t -> 0 < size t ->
  exists t', push_entry t (slot t (ekey e)) e = Some t' /\ ht_wf t' /\ size t' = size t /\
    entries t' ≡ₚ e :: entries t /\ length (table t') = length (table t) /\
    forall i, table t' !! i = Some [] -> table t !! i = Some [].
Proof.
  intros [Hs Hu] Hp. unfold push_entry. destruct (slot_bucket t (ekey e) Hs Hp) as (b & Hb).
  rewrite Hb. cbn [mbind option_bind]. eexists. split; [done|].
  assert (entries (add_used (set_bucket t (slot t (ekey e)) (e :: b)) 1) ≡ₚ e :: entries t) as Hpe.
  { change (entries (add_used ?x 1)) with (entries x).
    rewrite (entries_set_bucket _ _ _ _ Hb), (entries_bucket _ _ _ Hb). done. }
  split_and!.
  - split.
    + apply (shape_set_bucket _ _ b); [done|done|].
      intros f [->|Hf]%elem_of_cons; [done|by apply (bucket_slot t _ b)].
    + rewrite Hpe. cbn [add_used set_bucket used length]. lia.
  - done.
  - done.
  - cbn [add_used set_bucket table]. apply length_insert.
  - intros i. cbn [add_used set_bucket table]. destruct (decide (i = Z.to_nat (slot t (ekey e)))) as [->|Hne].
    + apply bucket_Some in Hb as [_ Hb]. rewrite list_lookup_insert_eq by (by eapply lookup_lt_Some). done.
    + by rewrite list_lookup_insert_ne.
Qed.

(** A state with one more entry. *)
Lemma wf_push d t0 t1 e :
  wf d -> ht_wf t0 -> ht_wf t1 -> rehash_ok (MkDict t0 t1 (rehashidx d) (iterators d)) ->
  entries t0 ++ entries t1 ≡ₚ e :: dict_entries d ->
  (forall f, f ∈ dict_entries d -> keyCompare (ekey e) (ekey f) = false) ->
  eaddr e ∉ eaddr <$> dict_entries d ->
  wf (MkDict t0 t1 (rehashidx d) (iterators d)).
Proof.
  intros [_ _ _ Hd Ha] H0 H1 Hr Hp Hk Hf. split; [done|done|done| |]; unfold dict_entries at 1; cbn [ht0 ht1]; rewrite Hp.
  - apply distinct_cons. split; [|done]. by apply Forall_forall.
  - rewrite fmap_cons. by constructor.
Qed.

Lemma dictAddRaw_spec junk can_resize a d key :
  wf d -> dict_count d < DICT_LIMIT -> a ∉ eaddr <$> dict_entries d ->
  exists d' r, dictAddRaw junk can_resize a d key = Some (d', r) /\
  match r with
  | None => same d d' /\ exists e, e ∈ dict_entries d' /\ keyCompare key (ekey e) = true
  | Some a' => a' = a /\ wf d' /\ iterators d' = iterators d /\
      dict_entries d' ≡ₚ DictEntry a (keyDup key) junk :: dict_entries d /\
      forall e, e ∈ dict_entries d -> keyCompare key (ekey e) = false
  end.
Proof.
  intros W Hc Ha. unfold dictAddRaw. destruct (rehash_step_spec d W) as (d1 & -> & Hs1). cbn [mbind option_bind].
  destruct (dictKeyIndex_spec can_resize d1 key) as (d2 & idx & -> & Hs2 & Hp & Hi);
    [by destruct Hs1|by rewrite (same_count _ _ Hs1)|]. cbn [mbind option_bind].
  pose proof (same_trans _ _ _ Hs1 Hs2) as Hs. clear d1 Hs1 Hs2.
  pose proof Hs as [W2 He Hit _]. destruct Hi as [[-> Hfound]|[-> Hk]].
  { rewrite Z.eqb_refl. by exists d2, None. }
  pose proof W2 as [Hw0 Hw1 Hok _ _]. unfold rehash_ok in Hok. unfold target in *.
  rewrite (slot_compare _ key (keyDup key)) by apply compare_dup.
  set (e := DictEntry a (keyDup key) junk).
  assert (forall f, f ∈ dict_entries d2 -> keyCompare (ekey e) (ekey f) = false) as Hk'.
  { intros f Hf. destruct (keyCompare (ekey e) (ekey f)) eqn:E; [|done].
    rewrite <- (Hk f Hf). symmetry. by apply (compare_trans _ (keyDup key)); [apply compare_dup|]. }
  assert (eaddr e ∉ eaddr <$> dict_entries d2) as Ha' by (by rewrite He).
  assert (forall t, ht_wf t -> 0 < size t -> (slot t (keyDup key) =? -1) = false) as Hneg.
  { intros t [Ht _] Hpt. pose proof (slot_range t (keyDup key) Ht Hpt). apply Z.eqb_neq. lia. }
  change (keyDup key) with (ekey e). change (keyDup key) with (ekey e) in Hneg.
  destruct (dictIsRehashing d2) eqn:Hr.
  - destruct Hok as (H0 & H1 & Hidx & Hempty). rewrite Hneg by done.
    destruct (push_entry_spec (ht1 d2) e Hw1 H1) as (t & -> & Ht & Hsz & Hpe & _). cbn [mbind option_bind].
    eexists _, (Some a). split; [done|]. split; [done|].
    assert (dict_entries (MkDict (ht0 d2) t (rehashidx d2) (iterators d2)) ≡ₚ e :: dict_entries d2) as Hpd.
    { unfold dict_entries. cbn [ht0 ht1]. rewrite Hpe. solve_Permutation. }
    split_and!; [|done|by rewrite Hpd, He|intros f Hf; apply Hk; by rewrite He].
    apply (wf_push d2 _ _ e); try done. unfold rehash_ok, dictIsRehashing in *. cbn [rehashidx ht0 ht1] in *.
    rewrite Hr. split_and!; [done|lia|lia|lia|done].
  - rewrite Hneg by done.
    destruct (push_entry_spec (ht0 d2) e Hw0 Hp) as (t & -> & Ht & Hsz & Hpe & _). cbn [mbind option_bind].
    eexists _, (Some a). split; [done|]. split; [done|].
    assert (dict_entries (MkDict t (ht1 d2) (rehashidx d2) (iterators d2)) ≡ₚ e :: dict_entries d2) as Hpd.
    { unfold dict_entries. cbn [ht0 ht1]. by rewrite Hpe. }
    split_and!; [|done|by rewrite Hpd, He|intros f Hf; apply Hk; by rewrite He].
    apply (wf_push d2 _ _ e); try done. unfold rehash_ok, dictIsRehashing in *. cbn [rehashidx ht0 ht1] in *.
    by rewrite Hr.
Qed.

(** ** Values *)

Lemma deref_Some d e : wf d -> e ∈ dict_entries d -> deref d (eaddr e) = Some e.
Proof.
  intros [_ _ _ _ Ha] He. unfold deref. apply list_elem_of_lookup in He as [i Hi].
  assert (list_find (fun f => eaddr f = eaddr e) (dict_entries d) = Some (i, e)) as ->; [|done].
  apply list_find_Some. split_and!; [done|done|]. intros j f Hj Hlt Hf.
  assert (i = j); [|lia]. apply (NoDup_lookup (eaddr <$> dict_entries d) i j (eaddr e)); [done| |];
    rewrite list_lookup_fmap; [by rewrite Hi|by rewrite Hj, <- Hf].
Qed.

Lemma entries_map (g : entry -> entry) t : entries (map_entries g t) = g <$> entries t.
Proof. unfold entries, map_entries. cbn [table]. symmetry. apply concat_map. Qed.

Lemma update_key a (v : V) e : ekey (update_entry a v e) = ekey e /\ eaddr (update_entry a v e) = eaddr e.
Proof. unfold update_entry. by destruct (_ =? _). Qed.

Lemma lookup_map_entries (g : entry -> entry) t i c :
  table (map_entries g t) !! i = Some c -> exists b, table t !! i = Some b /\ c = g <$> b.
Proof.
  unfold map_entries. cbn [table]. change (map (map g)) with (fmap (M := list) (fmap (M := list) g)).
  rewrite list_lookup_fmap. destruct (table t !! i) as [b|]; [|done]. intros [= <-]. by exists b.
Qed.

Lemma map_entries_wf a (v : V) t : ht_wf t -> ht_wf (map_entries (update_entry a v) t).
Proof.
  intros [(Hsz & Hl & Hk & Hs) Hu]. split; [|rewrite entries_map, length_fmap; done].
  unfold ht_shape, map_entries, slot. cbn [table size sizemask]. rewrite length_map. split_and!; [done|done| |].
  - destruct Hk as [->|Hk]; [by left|by right].
  - intros i b e Hi He. apply lookup_map_entries in Hi as (c & Hc & ->).
    apply list_elem_of_fmap in He as (f & -> & Hf).
    rewrite (proj1 (update_key a v f)). apply (Hs i c f Hc Hf).
Qed.

Lemma update_other a (v : V) es : a ∉ eaddr <$> es -> update_entry a v <$> es = es.
Proof.
  induction es as [|e es IH]; [done|]. rewrite !fmap_cons. intros [Hn Hi]%not_elem_of_cons.
  rewrite IH by done. f_equal. unfold update_entry. destruct (Z.eqb_spec (eaddr e) a); [congruence|done].
Qed.

Lemma dictSetVal_spec d e es v :
  wf d -> dict_entries d ≡ₚ e :: es ->
  exists d', dictSetVal d (eaddr e) v = Some d' /\ wf d' /\ iterators d' = iterators d /\
    dict_entries d' ≡ₚ DictEntry (eaddr e) (ekey e) (valDup v) :: es.
Proof.
  intros W Hp. unfold dictSetVal. rewrite deref_Some by (done || (rewrite Hp; by left)).
  cbn [mbind option_bind]. eexists. split; [done|].
  set (f := update_entry (eaddr e) (valDup v)).
  assert (forall r n, dict_entries (MkDict (map_entries f (ht0 d)) (map_entries f (ht1 d)) r n) = f <$> dict_entries d) as Hmap.
  { intros r n. unfold dict_entries. cbn [ht0 ht1]. by rewrite !entries_map, fmap_app. }
  pose proof W as [Hw0 Hw1 Hok Hd Ha].
  assert (f <$> dict_entries d ≡ₚ DictEntry (eaddr e) (ekey e) (valDup v) :: es) as Hf.
  { rewrite Hp, fmap_cons. rewrite Hp, fmap_cons in Ha. apply NoDup_cons in Ha as [Hn _].
    unfold f. rewrite update_other by done. unfold update_entry. by rewrite Z.eqb_refl. }
  split; [|split; [done|by rewrite Hmap]]. split.
  - by apply map_entries_wf.
  - by apply map_entries_wf.
  - unfold rehash_ok, dictIsRehashing in *. cbn [rehashidx ht0 ht1] in *. destruct (negb _).
    + destruct Hok as (H0 & H1 & Hi & He). split_and!; [done|done|lia|unfold map_entries; cbn [size]; lia|].
      intros i b Hlt Hb. apply lookup_map_entries in Hb as (c & Hc & ->). by rewrite (He i c Hlt Hc).
    + by rewrite Hok.
  - rewrite Hmap, Hf. rewrite Hp, distinct_cons in Hd. by apply distinct_cons.
  - rewrite Hmap, Hf. rewrite Hp in Ha. by rewrite fmap_cons in *.
Qed.

(** ** Deleting *)

Lemma unlink_spec key es :
  match unlink key es with
  | Some es' => exists A e B, es = A ++ e :: B /\ es' = A ++ B /\ keyCompare key (ekey e) = true
  | None => forall e, e ∈ es -> keyCompare key (ekey e) = false
  end.
Proof.
  induction es as [|e es IH]; cbn [unlink]; [intros e He; by apply elem_of_nil in He|].
  destruct (keyCompare key (ekey e)) eqn:E; [by exists [], e, es|].
  destruct (unlink key es) as [es'|]; cbn [fmap option_fmap option_map].
  - destruct IH as (A & f & B & -> & -> & Hf). by exists (e :: A), f, B.
  - intros f [->|Hf]%elem_of_cons; [done|by apply IH].
Qed.

Lemma delete_in_spec t key :
  ht_wf t -> 0 < size t ->
  exists r, delete_in t key = Some r /\
  match r with
  | Some t' => ht_wf t' /\ size t' = size t /\ exists A e B,
      bucket t (slot t key) = Some (A ++ e :: B) /\
      table t' = <[Z.to_nat (slot t key) := A ++ B]> (table t) /\
      entries t ≡ₚ e :: entries t' /\ keyCompare key (ekey e) = true
  | None => forall e, e ∈ entries t -> keyCompare key (ekey e) = false
  end.
Proof.
  intros [Hs Hu] Hp. unfold delete_in. fold (slot t key).
  destruct (slot_bucket t key Hs Hp) as (es & Hb). rewrite Hb. cbn [mbind option_bind].
  pose proof (unlink_spec key es) as Hun. destruct (unlink key es) as [es'|]; (eexists; split; [done|]).
  - destruct Hun as (A & e & B & -> & -> & Hk). pose proof (entries_bucket _ _ _ Hb) as Ho.
    pose proof (entries_set_bucket _ _ _ (A ++ B) Hb) as Hn.
    assert (entries t ≡ₚ e :: entries (add_used (set_bucket t (slot t key) (A ++ B)) (-1))) as Hpe.
    { change (entries (add_used ?x (-1))) with (entries x). rewrite Hn, Ho. solve_Permutation. }
    split; [split|split; [done|by exists A, e, B]].
    + apply (shape_set_bucket _ _ (A ++ e :: B)); [done|done|]. intros f Hf.
      apply (bucket_slot t _ (A ++ e :: B)); [done|done|]. apply elem_of_app in Hf as [Hf|Hf];
        apply elem_of_app; [by left|right; by right].
    + rewrite Hpe in Hu. cbn [length] in Hu. cbn [add_used set_bucket used] in *. lia.
  - intros e He. rewrite (entries_bucket _ _ _ Hb) in He. apply elem_of_app in He as [He|He]; [by apply Hun|].
    destruct (keyCompare key (ekey e)) eqn:E; [|done].
    destruct (others_slot t _ es e Hs Hb He). symmetry. by apply slot_compare.
Qed.

(** A state with one entry less. *)
Lemma wf_drop d t0 t1 e :
  wf d -> ht_wf t0 -> ht_wf t1 -> rehash_ok (MkDict t0 t1 (rehashidx d) (iterators d)) ->
  dict_entries d ≡ₚ e :: (entries t0 ++ entries t1) ->
  wf (MkDict t0 t1 (rehashidx d) (iterators d)).
Proof.
  intros [_ _ _ Hd Ha] H0 H1 Hr Hp. rewrite Hp in Hd, Ha. split; [done|done|done| |].
  - by apply distinct_cons in Hd as [_ Hd].
  - rewrite fmap_cons in Ha. by apply NoDup_cons in Ha as [_ Ha].
Qed.

(** What is deleted from a well-formed state. *)
Definition deleted (d d' : dict) (key : K) : Prop :=
  wf d' /\ iterators d' = iterators d /\
  exists e, dict_entries d ≡ₚ e :: dict_entries d' /\ keyCompare key (ekey e) = true.

Lemma delete_tables d key :
  wf d -> 0 < size (ht0 d) ->
  exists d' (r : bool),
    (r ← delete_in (ht0 d) key;
     match r with
     | Some t => Some (MkDict t (ht1 d) (rehashidx d) (iterators d), true)
     | None =>
       if negb (dictIsRehashing d) then Some (d, false)
       else
         r ← delete_in (ht1 d) key;
         match r with
         | Some t => Some (MkDict (ht0 d) t (rehashidx d) (iterators d), true)
         | None => Some (d, false)
         end
     end) = Some (d', r) /\
    if r then deleted d d' key
    else d' = d /\ forall e, e ∈ dict_entries d -> keyCompare key (ekey e) = false.
Proof.
  intros W H0. pose proof W as [Hw0 Hw1 Hok _ _]. unfold rehash_ok in Hok.
  destruct (delete_in_spec (ht0 d) key Hw0 H0) as ([t|] & -> & Hr0); cbn [mbind option_bind].
  - destruct Hr0 as (Ht & Hsz & A & e & B & Hb & Htb & Hpe & Hk). eexists _, true. split; [done|].
    assert (dict_entries d ≡ₚ e :: (entries t ++ entries (ht1 d))) as Hp by (unfold dict_entries; by rewrite Hpe).
    split; [|split; [done|by exists e]]. apply (wf_drop d t (ht1 d) e); try done.
    unfold rehash_ok, dictIsRehashing in *. cbn [rehashidx ht0 ht1] in *. destruct (negb _); [|done].
    destruct Hok as (H1 & H2 & Hi & He). split_and!; [lia|done|lia|lia|].
    intros i b Hlt Hlk. rewrite Htb in Hlk. destruct (decide (i = Z.to_nat (slot (ht0 d) key))) as [->|Hne].
    + exfalso. apply bucket_Some in Hb as [_ Hb]. specialize (He _ _ Hlt Hb). by destruct A.
    + rewrite list_lookup_insert_ne in Hlk by done. by apply (He i).
  - destruct (dictIsRehashing d) eqn:Hr; cbn [negb].
    + destruct Hok as (H1 & H2 & Hi & He).
      destruct (delete_in_spec (ht1 d) key Hw1 H2) as ([t|] & -> & Hr1); cbn [mbind option_bind].
      * destruct Hr1 as (Ht & Hsz & A & e & B & Hb & Htb & Hpe & Hk). eexists _, true. split; [done|].
        assert (dict_entries d ≡ₚ e :: (entries (ht0 d) ++ entries t)) as Hp
          by (unfold dict_entries; rewrite Hpe; solve_Permutation).
        split; [|split; [done|by exists e]]. apply (wf_drop d (ht0 d) t e); try done.
        unfold rehash_ok, dictIsRehashing in *. cbn [rehashidx ht0 ht1] in *. rewrite Hr.
        split_and!; [done|lia|lia|lia|done].
      * exists d, false. split; [done|]. split; [done|]. intros f [Hf|Hf]%elem_of_app; auto.
    + exists d, false. split; [done|]. split; [done|]. intros f [Hf|Hf]%elem_of_app; [auto|].
      rewrite (entries_null _ Hok) in Hf. by apply elem_of_nil in Hf.
Qed.

Lemma dictGenericDelete_spec d key :
  wf d -> exists d' (r : bool), dictGenericDelete d key = Some (d', r) /\
  if r then deleted d d' key
  else same d d' /\ forall e, e ∈ dict_entries d -> keyCompare key (ekey e) = false.
Proof.
  intros W. unfold dictGenericDelete. destruct (Z.eqb_spec (size (ht0 d)) 0) as [E|E].
  { exists d, false. split_and!; [done|by apply same_refl|]. intros e He.
    destruct (dict_entries d) as [|f es] eqn:Ed; [by apply elem_of_nil in He|].
    assert (0 < size (ht0 d)) as Hp; [|lia]. apply wf_ht0_pos; [done|]. by rewrite Ed. }
  destruct (rehash_step_spec d W) as (d1 & Hd1 & Hs). rewrite Hd1. cbn [mbind option_bind].
  assert (0 < size (ht0 d1)) as H0.
  { apply (same_pos _ _ Hs). pose proof (size_nonneg _ (wf_ht0 _ W)). lia. }
  destruct (delete_tables d1 key (same_wf _ _ Hs) H0) as (d2 & r & -> & Hr). exists d2, r. split; [done|].
  destruct Hs as [W1 He Hit _]. destruct r.
  - destruct Hr as (W2 & Hit2 & e & Hpe & Hk). split; [done|]. split; [congruence|].
    exists e. split; [by rewrite <- He|done].
  - destruct Hr as [-> Hno]. split; [done|]. intros e Hin. apply Hno. by rewrite He.
Qed.

(** ** The finite map *)

(** The reference: a list of pairs with distinct keys. *)
Fixpoint assoc (key : K) (l : list (K * V)) : option V :=
  match l with
  | [] => None
  | (k, v) :: l => if keyCompare key k then Some v else assoc key l
  end.

Definition ref_add (key : K) (val : V) (l : list (K * V)) : list (K * V) * bool :=
  match assoc key l with
  | Some _ => (l, false)
  | None => ((keyDup key, valDup val) :: l, true)
  end.

Definition set_pair (key : K) (val : V) (p : K * V) : K * V :=
  if keyCompare key p.1 then (p.1, valDup val) else p.

Definition ref_replace (key : K) (val : V) (l : list (K * V)) : list (K * V) * bool :=
  match assoc key l with
  | Some _ => (set_pair key val <$> l, false)
  | None => ((keyDup key, valDup val) :: l, true)
  end.

Definition ref_delete (key : K) (l : list (K * V)) : list (K * V) * bool :=
  (filter (fun p => keyCompare key p.1 = false) l, bool_decide (is_Some (assoc key l))).

Lemma assoc_spec key l :
  match assoc key l with
  | Some v => exists k, (k, v) ∈ l /\ keyCompare key k = true
  | None => forall p, p ∈ l -> keyCompare key p.1 = false
  end.
Proof.
  induction l as [|[k v] l IH]; cbn [assoc]; [intros p Hp; by apply elem_of_nil in Hp|].
  destruct (keyCompare key k) eqn:E; [exists k; split; [by left|done]|].
  destruct (assoc key l) as [w|].
  - destruct IH as (k' & Hin & Hk). exists k'. split; [by right|done].
  - intros p [->|Hp]%elem_of_cons; [done|by apply IH].
Qed.

Lemma distinct_eq es e f :
  distinct es -> e ∈ es -> f ∈ es -> keyCompare (ekey e) (ekey f) = true -> e = f.
Proof.
  induction es as [|g es IH]; [by intros _ ?%elem_of_nil|].
  rewrite distinct_cons, Forall_forall. intros [H1 H2] [->|He]%elem_of_cons [->|Hf]%elem_of_cons Hk;
    [done| | |by apply IH].
  - rewrite (H1 _ Hf) in Hk. done.
  - apply compare_sym in Hk. rewrite (H1 _ He) in Hk. done.
Qed.

Lemma rep_found d l key a e :
  dict_rep d l -> e ∈ dict_entries d -> eaddr e = a -> keyCompare key (ekey e) = true ->
  assoc key l = Some (evalue e).
Proof.
  intros [W Hl] He _ Hk. pose proof (assoc_spec key l) as Ha.
  assert (kv e ∈ l) as Hin by (rewrite <- Hl; by apply list_elem_of_fmap_2).
  destruct (assoc key l) as [v|]; [|specialize (Ha _ Hin); cbn in Ha; congruence].
  destruct Ha as (k & Hv & Hkk). rewrite <- Hl in Hv. apply list_elem_of_fmap in Hv as (f & [= -> ->] & Hf).
  f_equal. f_equal. symmetry. apply (distinct_eq (dict_entries d)); [by destruct W|done|done|].
  by apply (compare_trans _ key); [apply compare_sym|].
Qed.

Lemma rep_missing d l key :
  dict_rep d l -> (forall e, e ∈ dict_entries d -> keyCompare key (ekey e) = false) -> assoc key l = None.
Proof.
  intros [W Hl] Hno. pose proof (assoc_spec key l) as Ha. destruct (assoc key l) as [v|]; [|done].
  destruct Ha as (k & Hv & Hk). rewrite <- Hl in Hv. apply list_elem_of_fmap in Hv as (f & [= -> ->] & Hf).
  rewrite Hno in Hk by done. done.
Qed.

Lemma rep_split d l e :
  dict_rep d l -> e ∈ dict_entries d ->
  exists es, dict_entries d ≡ₚ e :: es /\ l ≡ₚ kv e :: (kv <$> es) /\
    Forall (fun f => keyCompare (ekey e) (ekey f) = false) es.
Proof.
  intros [W Hl] He. apply elem_of_Permutation in He as (es & Hp). exists es.
  split_and!; [done|by rewrite <- Hl, Hp|]. destruct W as [_ _ _ Hd _]. rewrite Hp in Hd. by apply distinct_cons in Hd as [Hd _].
Qed.

Lemma rep_count d l : dict_rep d l -> dict_count d = Z.of_nat (length l).
Proof. intros [_ Hl]. unfold dict_count. by rewrite <- Hl, length_fmap. Qed.

Lemma compare_other key e f :
  keyCompare key (ekey e) = true -> keyCompare (ekey e) (ekey f) = false -> keyCompare key (ekey f) = false.
Proof.
  intros H1 H2. destruct (keyCompare key (ekey f)) eqn:E; [|done].
  rewrite <- H2. symmetry. by apply (compare_trans _ key); [apply compare_sym|].
Qed.

Lemma dictFind_rep d l key :
  dict_rep d l -> exists d' r, dictFind d key = Some (d', r) /\ dict_rep d' l /\ found d' key r.
Proof.
  intros Hr. destruct (dictFind_spec d key) as (d' & r & E & Hs & Hf); [by destruct Hr|].
  exists d', r. split_and!; [done|by apply (same_rep d)|done].
Qed.

Lemma dictAdd_rep junk can_resize a d l key val :
  dict_rep d l -> Z.of_nat (length l) < DICT_LIMIT -> a ∉ eaddr <$> dict_entries d ->
  exists d', dictAdd junk can_resize a d key val = Some (d', (ref_add key val l).2) /\
    dict_rep d' (ref_add key val l).1.
Proof.
  intros Hr Hc Ha. rewrite <- (rep_count _ _ Hr) in Hc. unfold dictAdd.
  destruct (dictAddRaw_spec junk can_resize a d key) as (d1 & r & -> & H1); [by destruct Hr|done|done|].
  cbn [mbind option_bind]. unfold ref_add. destruct r as [a'|].
  - destruct H1 as (-> & W1 & _ & Hp & Hno). rewrite (rep_missing d l key Hr Hno).
    destruct (dictSetVal_spec d1 (DictEntry a (keyDup key) junk) (dict_entries d) val W1 Hp)
      as (d2 & Hset & W2 & _ & Hp2). cbn [eaddr] in Hset. rewrite Hset. cbn [mbind option_bind].
    exists d2. split; [done|]. split; [done|]. rewrite Hp2, fmap_cons. destruct Hr as [_ <-]. done.
  - destruct H1 as (Hs & e & He & Hk). pose proof (same_rep _ _ _ Hs Hr) as Hr1.
    rewrite (rep_found d1 l key _ e Hr1 He eq_refl Hk). by exists d1.
Qed.

Lemma dictReplace_rep junk can_resize a d l key val :
  dict_rep d l -> Z.of_nat (length l) < DICT_LIMIT -> a ∉ eaddr <$> dict_entries d ->
  exists d', dictReplace junk can_resize a d key val = Some (d', (ref_replace key val l).2) /\
    dict_rep d' (ref_replace key val l).1.
Proof.
  intros Hr Hc Ha. unfold dictReplace.
  destruct (dictAdd_rep junk can_resize a d l key val Hr Hc Ha) as (d1 & -> & Hr1). cbn [mbind option_bind].
  unfold ref_add, ref_replace in *. destruct (assoc key l) as [v|] eqn:E; cbn [fst snd] in *; [|by exists d1].
  destruct (dictFind_rep d1 l key Hr1) as (d2 & r & -> & Hr2 & Hf). cbn [mbind option_bind].
  destruct r as [a'|]; [|by rewrite (rep_missing d2 l key Hr2 Hf) in E].
  destruct Hf as (e & He & <- & Hk). destruct (rep_split d2 l e Hr2 He) as (es & Hp & Hl & Hd).
  destruct (dictSetVal_spec d2 e es val (proj1 Hr2) Hp) as (d3 & -> & W3 & _ & Hp3). cbn [mbind option_bind].
  exists d3. split; [done|]. split; [done|]. rewrite Hp3, Hl, !fmap_cons. unfold set_pair at 1. cbn [kv fst].
  rewrite Hk. f_equiv. rewrite <- list_fmap_compose. apply Permutation_refl'. apply list_fmap_ext.
  intros i f Hf. cbn. unfold set_pair. cbn [kv fst].
  rewrite Forall_lookup in Hd. by rewrite (compare_other key e f Hk (Hd i f Hf)).
Qed.

Lemma dictFetchValue_rep d l key :
  dict_rep d l -> exists d', dictFetchValue d key = Some (d', assoc key l) /\ dict_rep d' l.
Proof.
  intros Hr. unfold dictFetchValue. destruct (dictFind_rep d l key Hr) as (d' & r & -> & Hr' & Hf).
  cbn [mbind option_bind]. exists d'. destruct r as [a|].
  - destruct Hf as (e & He & <- & Hk). unfold dictGetVal. rewrite (deref_Some d' e) by (done || by destruct Hr').
    cbn [fmap option_fmap option_map mbind option_bind]. by rewrite (rep_found d' l key _ e Hr' He eq_refl Hk).
  - by rewrite (rep_missing d' l key Hr' Hf).
Qed.

Lemma filter_others key e es :
  keyCompare key (ekey e) = true -> Forall (fun f => keyCompare (ekey e) (ekey f) = false) es ->
  filter (fun p : K * V => keyCompare key p.1 = false) (kv <$> es) = kv <$> es.
Proof.
  intros Hk. induction 1 as [|f es Hf _ IH]; [done|]. rewrite fmap_cons, filter_cons_True, IH; [done|].
  by apply (compare_other key e f).
Qed.

Lemma dictDelete_rep d l key :
  dict_rep d l -> exists d', dictDelete d key = Some (d', (ref_delete key l).2) /\
    dict_rep d' (ref_delete key l).1.
Proof.
  intros Hr. unfold dictDelete, ref_delete. cbn [fst snd].
  destruct (dictGenericDelete_spec d key (proj1 Hr)) as (d' & r & -> & Hres). exists d'. destruct r.
  - destruct Hres as (W' & _ & e & Hp & Hk).
    assert (e ∈ dict_entries d) as He by (rewrite Hp; by left).
    rewrite (rep_found d l key _ e Hr He eq_refl Hk). split; [done|]. split; [done|].
    destruct Hr as [[_ _ _ Hd _] Hl]. rewrite <- Hl, Hp, fmap_cons. rewrite Hp in Hd.
    apply distinct_cons in Hd as [Hd _]. rewrite filter_cons_False by (cbn; congruence).
    by rewrite (filter_others key e).
  - destruct Hres as [Hs Hno]. rewrite (rep_missing d l key Hr Hno). split; [done|].
    replace (filter _ l) with l; [by apply (same_rep d)|].
    destruct Hr as [_ Hl]. clear -Hl Hno. assert (forall p, p ∈ l -> keyCompare key p.1 = false) as Hall.
    { intros p Hp. rewrite <- Hl in Hp. apply list_elem_of_fmap in Hp as (e & -> & He). by apply Hno. }
    clear -Hall. induction l as [|p l IH]; [done|]. rewrite filter_cons_True by (apply Hall; by left).
    rewrite <- IH; [done|]. intros q Hq. apply Hall. by right.
Qed.

(** ** Sequences of operations *)

Inductive dict_op :=
  | OAdd (key : K) (val : V) | OReplace (key : K) (val : V) | ODelete (key : K)
  | OFetch (key : K) | ORehash (n : nat) | OResize | OExpand (sz : Z).

(** What the caller learns; how far a rehashing got is not part of it. *)
Inductive dict_res := RBool (b : bool) | RVal (v : option V) | RNone.

(** The allocator picks an address given the ones in use. *)
Definition run_op (junk : V) (alloc : list addr -> addr) (can_resize : bool) (d : dict) (o : dict_op)
  : option (dict * dict_res) :=
  let a := alloc (eaddr <$> dict_entries d) in
  match o with
  | OAdd key val => '(d, b) ← dictAdd junk can_resize a d key val; Some (d, RBool b)
  | OReplace key val => '(d, b) ← dictReplace junk can_resize a d key val; Some (d, RBool b)
  | ODelete key => '(d, b) ← dictDelete d key; Some (d, RBool b)
  | OFetch key => '(d, v) ← dictFetchValue d key; Some (d, RVal v)
  | ORehash n => '(d, _) ← dictRehash d n; Some (d, RNone)
  | OResize => '(d, _) ← dictResize can_resize d; Some (d, RNone)
  | OExpand sz => '(d, _) ← dictExpand d sz; Some (d, RNone)
  end.

Fixpoint run_ops (junk : V) (alloc : list addr -> addr) (can_resize : bool) (d : dict) (os : list dict_op)
  : option (dict * list dict_res) :=
  match os with
  | [] => Some (d, [])
  | o :: os =>
    '(d, r) ← run_op junk alloc can_resize d o;
    '(d, rs) ← run_ops junk alloc can_resize d os;
    Some (d, r :: rs)
  end.

Definition ref_op (l : list (K * V)) (o : dict_op) : list (K * V) * dict_res :=
  match o with
  | OAdd key val => let '(l, b) := ref_add key val l in (l, RBool b)
  | OReplace key val => let '(l, b) := ref_replace key val l in (l, RBool b)
  | ODelete key => let '(l, b) := ref_delete key l in (l, RBool b)
  | OFetch key => (l, RVal (assoc key l))
  | ORehash _ | OResize | OExpand _ => (l, RNone)
  end.

Fixpoint ref_ops (l : list (K * V)) (os : list dict_op) : list (K * V) * list dict_res :=
  match os with
  | [] => (l, [])
  | o :: os =>
    let '(l, r) := ref_op l o in
    let '(l, rs) := ref_ops l os in
    (l, r :: rs)
  end.

Definition op_ok (o : dict_op) : Prop := match o with OExpand sz => sz <= 2 ^ 30 | _ => True end.

Lemma ref_op_length l o : (length (ref_op l o).1 <= S (length l))%nat.
Proof.
  destruct o; cbn [ref_op]; unfold ref_add, ref_replace, ref_delete; cbn [fst]; try lia.
  - destruct (assoc key l); cbn [fst length]; lia.
  - destruct (assoc key l); cbn [fst length]; rewrite ?length_fmap; lia.
  - pose proof (length_filter (fun p : K * V => keyCompare key p.1 = false) l). lia.
Qed.

Lemma run_op_rep junk alloc can_resize d l o :
  (forall as_, alloc as_ ∉ as_) -> op_ok o -> dict_rep d l -> Z.of_nat (length l) < DICT_LIMIT ->
  exists d', run_op junk alloc can_resize d o = Some (d', (ref_op l o).2) /\ dict_rep d' (ref_op l o).1.
Proof.
  intros Ha Ho Hr Hc. destruct o; cbn [run_op ref_op].
  - destruct (dictAdd_rep junk can_resize _ d l key val Hr Hc (Ha _)) as (d' & -> & Hr').
    exists d'. by destruct (ref_add key val l).
  - destruct (dictReplace_rep junk can_resize _ d l key val Hr Hc (Ha _)) as (d' & -> & Hr').
    exists d'. by destruct (ref_replace key val l).
  - destruct (dictDelete_rep d l key Hr) as (d' & -> & Hr'). exists d'. by destruct (ref_delete key l).
  - destruct (dictFetchValue_rep d l key Hr) as (d' & -> & Hr'). by exists d'.
  - destruct (dictRehash_spec d n (proj1 Hr)) as (d' & more & -> & Hs & _).
    exists d'. split; [done|by apply (same_rep d)].
  - rewrite <- (rep_count _ _ Hr) in Hc.
    destruct (dictResize_spec can_resize d (proj1 Hr) Hc) as (d' & ok & -> & Hs).
    exists d'. split; [done|by apply (same_rep d)].
  - destruct (dictExpand_spec d sz (proj1 Hr) Ho) as (d' & ok & -> & Hs & _).
    exists d'. split; [done|by apply (same_rep d)].
Qed.

Lemma run_ops_rep junk alloc can_resize os : forall d l,
  (forall as_, alloc as_ ∉ as_) -> Forall op_ok os -> dict_rep d l ->
  Z.of_nat (length l + length os) < DICT_LIMIT ->
  exists d', run_ops junk alloc can_resize d os = Some (d', (ref_ops l os).2) /\ dict_rep d' (ref_ops l os).1.
Proof.
  induction os as [|o os IH]; intros d l Ha Ho Hr Hc; cbn [run_ops ref_ops].
  - by exists d.
  - apply Forall_cons in Ho as [Ho Hos]. cbn [length] in Hc.
    destruct (run_op_rep junk alloc can_resize d l o Ha Ho Hr) as (d1 & -> & Hr1); [lia|]. cbn [mbind option_bind].
    pose proof (ref_op_length l o). destruct (ref_op l o) as [l1 r] eqn:E. cbn [fst snd] in *.
    destruct (IH d1 l1 Ha Hos Hr1) as (d' & -> & Hr'); [lia|]. cbn [mbind option_bind].
    exists d'. by destruct (ref_ops l1 os).
Qed.

Lemma dictCreate_rep : dict_rep dictCreate [].
Proof.
  assert (ht_wf _dictReset) as Hw.
  { split; [|done]. split_and!; [done|done|by left|]. intros i b e Hi. by destruct i. }
  split; [|done]. split; [done|done|done|constructor|constructor].
Qed.

Lemma clear_loop_spec (bs : list (list entry)) : forall rest, rest = Z.of_nat (length (concat bs)) ->
  clear_loop bs rest = (map eaddr (concat bs), 0).
Proof.
  induction bs as [|b bs IH]; intros rest ->; cbn [clear_loop concat]; [done|].
  rewrite length_app. rewrite Z.gtb_ltb. destruct (Z.ltb_spec 0 (Z.of_nat (length b + length (concat bs)))) as [H|H].
  - rewrite IH by lia. by rewrite map_app.
  - destruct b as [|e b]; cbn [length Nat.add] in *; [|lia]. destruct (concat bs); [done|cbn [length] in H; lia].
Qed.

(** Clearing frees every entry and leaves an empty dictionary. *)
Lemma dictEmpty_spec d :
  wf d -> dictEmpty d = (dictCreate, map eaddr (dict_entries d)).
Proof.
  intros [Hw0 Hw1 _ _ _]. unfold dictEmpty, _dictClear.
  assert (forall t, ht_wf t -> (clear_loop (take (Z.to_nat (size t)) (table t)) (used t)).1 = map eaddr (entries t)) as H.
  { intros t [(Hsz & _) Hu]. rewrite take_ge by lia. by rewrite (clear_loop_spec _ _ Hu). }
  rewrite !H by done. unfold dict_entries. by rewrite map_app.
Qed.

End Spec.

(** ** Properties *)

(** An allocator that never returns an address in use. *)
Definition next_address (used_ : list addr) : addr := foldr Z.max 0 used_ + 1.

Lemma next_address_fresh used_ : next_address used_ ∉ used_.
Proof.
  assert (forall a, a ∈ used_ -> a <= foldr Z.max 0 used_) as H.
  { induction used_ as [|b l IH]; intros a Ha; [by apply elem_of_nil in Ha|].
    cbn [foldr]. apply elem_of_cons in Ha as [->|Ha]; [lia|]. specialize (IH a Ha). lia. }
  intros Hin. specialize (H _ Hin). unfold next_address in *. lia.
Qed.

(** Keys for the examples. *)
Program Definition key_of (s : string) (H : Z.of_nat (length (str s)) < 2 ^ 31) : sdskey := SdsKey (str s) _.
Next Obligation. intros s H. split; lia. Qed.

#[local] Instance sample_type : dictType sdskey Z := dbDictType 5381 Z.
#[local] Instance sample_laws : dictTypeLaws sdskey Z := dbDictType_laws 5381 Z.

Definition sample_ops : list (dict_op (K := sdskey) (V := Z)) :=
  [OAdd (key_of "a" eq_refl) 1; OAdd (key_of "b" eq_refl) 2; OAdd (key_of "a" eq_refl) 3;
   OAdd (key_of "c" eq_refl) 4; OAdd (key_of "d" eq_refl) 5; OAdd (key_of "e" eq_refl) 6;
   OReplace (key_of "b" eq_refl) 7; ODelete (key_of "c" eq_refl); ORehash 3;
   OFetch (key_of "b" eq_refl); OFetch (key_of "c" eq_refl)].

(** C10. A dictionary is a finite map: any sequence of additions,
    replacements, deletions, lookups, resizes, expansions and rehashing steps
    gives the caller the answers a list of pairs with distinct keys gives, and
    never touches memory it should not; how far the incremental rehashing got
    in between is invisible. *)
Theorem dict_refines_map {K V} {T : dictType K V} {L : dictTypeLaws K V} junk alloc can_resize d l os :
  (forall as_, alloc as_ ∉ as_) -> Forall op_ok os -> dict_rep d l ->
  Z.of_nat (length l + length os) < DICT_LIMIT ->
  exists d', run_ops junk alloc can_resize d os = Some (d', (ref_ops l os).2) /\ dict_rep d' (ref_ops l os).1.
Proof. apply run_ops_rep. Qed.

Lemma dict_refines_map_witness :
  exists d', run_ops 0 next_address true (dictCreate (K := sdskey) (V := Z)) sample_ops
      = Some (d', [RBool true; RBool true; RBool false; RBool true; RBool true; RBool true;
                   RBool false; RBool true; RNone; RVal (Some 7); RVal None]) /\
    dict_rep d' (ref_ops [] sample_ops).1.
Proof.
  destruct (dict_refines_map 0 next_address true (dictCreate (K := sdskey) (V := Z)) [] sample_ops)
    as (d' & E & Hr); [apply next_address_fresh|by repeat constructor|apply dictCreate_rep|by vm_compute|].
  exists d'. split; [rewrite E; by vm_compute|exact Hr].
Defined.

(** C26. Rehashing makes progress and ends: every call moves at least one
    bucket closer to the end while there is something to move, so that as many
    calls as there are buckets, plus one, finish it, with the same entries as
    before. *)
Theorem dictRehash_completes {K V} {T : dictType K V} {L : dictTypeLaws K V} d :
  wf d ->
  (forall n, exists d' more, dictRehash d n = Some (d', more) /\ same d d' /\ more = dictIsRehashing d' /\
    ((0 < n)%nat -> dictIsRehashing d = true -> to_rehash d' < to_rehash d)) /\
  exists d', rehash_all (S (length (table (ht0 d)))) d = Some d' /\ same d d' /\ dictIsRehashing d' = false.
Proof.
  intros W. split.
  - intros n. destruct (dictRehash_spec d n W) as (d' & more & H1 & H2 & H3 & _ & H4). by exists d', more.
  - apply rehash_all_spec; [done|]. destruct W as [[(Hs & _) _] _ Hr _ _]. unfold to_rehash, rehash_ok in *.
    destruct (dictIsRehashing d); lia.
Qed.

(** A dictionary in the middle of a rehashing. *)
Definition sample_dict : dict sdskey Z :=
  match run_ops 0 next_address true dictCreate (take 6 sample_ops) with
  | Some (d, _) => d
  | None => dictCreate
  end.

Lemma sample_rep : exists l, dict_rep sample_dict l /\ dictIsRehashing sample_dict = true.
Proof.
  destruct (run_ops_rep 0 next_address true (take 6 sample_ops) (dictCreate (K := sdskey) (V := Z)) [])
    as (d' & E & Hr); [apply next_address_fresh|by repeat constructor|apply dictCreate_rep|by vm_compute|].
  unfold sample_dict. rewrite E. exists (ref_ops [] (take 6 sample_ops)).1. split; [exact Hr|].
  assert (Some (dictIsRehashing d') = Some true) as [= ->]; [|done].
  change (Some (dictIsRehashing d')) with ((fun p => dictIsRehashing p.1) <$> Some (d', (ref_ops [] (take 6 sample_ops)).2)).
  rewrite <- E. by vm_compute.
Qed.

Lemma dictRehash_completes_witness :
  wf sample_dict /\ dictIsRehashing sample_dict = true /\
  exists d', rehash_all (S (length (table (ht0 sample_dict)))) sample_dict = Some d' /\
    same sample_dict d' /\ dictIsRehashing d' = false.
Proof.
  destruct sample_rep as (l & [W _] & Hr). split; [exact W|]. split; [exact Hr|].
  apply (dictRehash_completes sample_dict W).
Defined.


End DictSpec.
