(* ===== verification/DictIter.v ===== *)
(** * Iterating over a dictionary (src/dict.c)

    A safe iterator visits every entry exactly once, in the order of the
    buckets, even when the entries it returns are deleted as it goes and the
    dictionary is in the middle of a rehashing: the tables are one run of
    buckets, [buckets], and an iterator is a position in it. *)

From S2P Require Import Prelude Dict DictTypes DictSpec.
Import Dict DictTypes DictSpec.

Module DictIter.

Section Iter.
Context {K V : Type} {T : dictType K V} {L : dictTypeLaws K V}.

Abbreviation entry := (dictEntry K V).
Abbreviation ht := (dictht K V).
Abbreviation dict := (dict K V).
Implicit Types (t : ht) (d : dict) (e f : entry) (es : list entry) (it : dictIterator).

(** The usual loop: every entry the iterator returns is deleted when [pick]
    chooses it. *)
Fixpoint iterate (n : nat) (pick : entry -> bool) (d : dict) (it : dictIterator)
  : option (dict * dictIterator * list addr) :=
  match n with
  | O => None
  | S n =>
    '(d, it, r) ← dictNext d it;
    match r with
    | None => Some (d, it, [])
    | Some a =>
      e ← deref d a;
      d ← (if pick e then '(d, _) ← dictDelete d (ekey e); Some d else Some d);
      '(d, it, as_) ← iterate n pick d it;
      Some (d, it, a :: as_)
    end
  end.

(** ** Buckets of both tables *)

Definition buckets (d : dict) : list (list entry) := table (ht0 d) ++ table (ht1 d).

Lemma buckets_entries d : concat (buckets d) = dict_entries d.
Proof. apply concat_app. Qed.

(** The number of the bucket that follows the iterator's. *)
Definition position (d : dict) (it : dictIterator) : nat :=
  Z.to_nat ((if itable it then size (ht0 d) else 0) + index it + 1).

Definition it_ok (d : dict) (it : dictIterator) : Prop :=
  -1 <= index it /\ (itable it = true -> dictIsRehashing d = true /\ 0 <= index it < size (ht1 d)) /\
  (itable it = false -> index it < size (ht0 d) \/ index it = -1).

Lemma length_buckets d :
  wf d -> Z.of_nat (length (buckets d)) = size (ht0 d) + size (ht1 d).
Proof.
  intros [[(H0 & _) _] [(H1 & _) _] _ _ _]. unfold buckets. rewrite length_app. lia.
Qed.

Lemma buckets_0 d i b : wf d -> 0 <= i < size (ht0 d) ->
  buckets d !! Z.to_nat i = Some b -> bucket (ht0 d) i = Some b.
Proof.
  intros [[(H0 & _) _] _ _ _ _] Hi Hb. apply bucket_Some. split; [lia|].
  unfold buckets in Hb. by rewrite lookup_app_l in Hb by lia.
Qed.

Lemma buckets_1 d i b : wf d -> 0 <= i ->
  buckets d !! Z.to_nat (size (ht0 d) + i) = Some b -> bucket (ht1 d) i = Some b.
Proof.
  intros [[(H0 & _) _] _ _ _ _] Hi Hb. apply bucket_Some. split; [lia|].
  unfold buckets in Hb. rewrite lookup_app_r in Hb by lia.
  by replace (Z.to_nat (size (ht0 d) + i) - length (table (ht0 d)))%nat with (Z.to_nat i) in Hb by lia.
Qed.

(** The dictionary after the first step of a safe iterator. *)
Definition started (d : dict) (it : dictIterator) : dict :=
  if (index it =? -1) && negb (itable it) && safe it
  then MkDict (ht0 d) (ht1 d) (rehashidx d) (iterators d + 1) else d.

Lemma wf_iterators d n : wf d -> wf (MkDict (ht0 d) (ht1 d) (rehashidx d) n).
Proof. intros [? ? ? ? ?]. by split. Qed.

Lemma advance_none d it :
  wf d -> it_ok d it -> ientry it = None ->
  match buckets d !! position d it with
  | Some b => exists it', iter_advance d it = Some (started d it, it', true) /\
      ientry it' = eaddr <$> head b /\ it_ok d it' /\ position d it' = S (position d it) /\
      safe it' = safe it /\ 0 <= index it'
  | None => exists it', iter_advance d it = Some (started d it, it', false) /\ 0 <= index it' /\ safe it' = safe it
  end.
Proof.
  intros W (Hi & H1 & H0) He. unfold iter_advance. rewrite He. fold (started d it).
  assert (ht0 (started d it) = ht0 d /\ ht1 (started d it) = ht1 d /\ rehashidx (started d it) = rehashidx d)
    as (E0 & E1 & E2) by (unfold started; destruct (_ && _); done).
  assert (dictIsRehashing (started d it) = dictIsRehashing d) as Er by (unfold dictIsRehashing; by rewrite E2).
  unfold table_of. rewrite E0, E1, Er. clear E0 E1 E2 Er.
  pose proof (length_buckets d W) as HL. unfold position, it_ok in *. rewrite !Z.geb_leb.
  pose proof (size_nonneg _ (wf_ht0 _ W)). pose proof (size_nonneg _ (wf_ht1 _ W)).
  destruct (itable it) eqn:Et; cbn [negb andb].
  - destruct (H1 eq_refl) as [Hr Hi0]. rewrite Hr. cbn [andb].
    destruct (Z.leb_spec (size (ht1 d)) (index it + 1)) as [Hge|Hlt].
    + rewrite lookup_ge_None_2 by lia. eexists. split; [done|]. cbn [index safe]. split; [lia|done].
    + destruct (lookup_lt_is_Some_2 (buckets d) (Z.to_nat (size (ht0 d) + index it + 1))) as [b Hb]; [lia|].
      rewrite Hb. rewrite <- Z.add_assoc in Hb. apply buckets_1 in Hb; [|done|lia]. rewrite Hb. cbn [mbind option_bind].
      eexists. split; [done|]. cbn [ientry index itable safe]. split_and!; try done; lia.
  - rewrite Z.add_0_l in *. specialize (H0 eq_refl).
    destruct (Z.leb_spec (size (ht0 d)) (index it + 1)) as [Hge|Hlt].
    + destruct (dictIsRehashing d) eqn:Hr; cbn [andb].
      * destruct (wf_not_null d W Hr) as [_ Hp1].
        assert (index it + 1 = size (ht0 d)) as Hix by lia.
        destruct (lookup_lt_is_Some_2 (buckets d) (Z.to_nat (index it + 1))) as [b Hb]; [lia|].
        rewrite Hb. replace (index it + 1) with (size (ht0 d) + 0) in Hb by lia. apply buckets_1 in Hb; [|done|lia].
        rewrite Hb. cbn [mbind option_bind]. eexists. split; [done|]. cbn [ientry index itable safe].
        split_and!; try done; lia.
      * destruct W as [_ _ Hok _ _]. unfold rehash_ok in Hok. rewrite Hr in Hok. rewrite Hok in HL. cbn [size _dictReset] in HL.
        rewrite lookup_ge_None_2 by lia. eexists. split; [done|]. cbn [index safe]. split; [lia|done].
    + destruct (lookup_lt_is_Some_2 (buckets d) (Z.to_nat (index it + 1))) as [b Hb]; [lia|].
      rewrite Hb. apply buckets_0 in Hb; [|done|lia]. rewrite Hb. cbn [mbind option_bind].
      eexists. split; [done|]. cbn [ientry index itable safe]. split_and!; try done; lia.
Qed.

(** ** An entry and its place *)

Lemma concat_bucket (bs : list (list entry)) g b :
  bs !! g = Some b -> concat bs = concat (take g bs) ++ b ++ concat (drop (S g) bs).
Proof. intros H. rewrite <- (take_drop_middle _ _ _ H) at 1. by rewrite concat_app. Qed.

Lemma elem_mid (A B : list entry) e : e ∈ A ++ e :: B.
Proof. apply elem_of_app. right. by left. Qed.

Lemma elem_of_concat (bs : list (list entry)) g b e : bs !! g = Some b -> e ∈ b -> e ∈ concat bs.
Proof. intros H He. rewrite (concat_bucket _ _ _ H). apply elem_of_app. right. apply elem_of_app. by left. Qed.

Lemma unique_bucket (bs : list (list entry)) i j b c e f :
  NoDup (eaddr <$> concat bs) -> bs !! i = Some b -> bs !! j = Some c -> e ∈ b -> f ∈ c ->
  eaddr e = eaddr f -> i = j.
Proof.
  assert (forall i j b c e f, NoDup (eaddr <$> concat bs) -> bs !! i = Some b -> bs !! j = Some c ->
    e ∈ b -> f ∈ c -> eaddr e = eaddr f -> ~ (i < j)%nat) as H.
  { intros i' j' b' c' e' f' Hn Hi Hj He Hf Ha Hlt. rewrite (concat_bucket _ _ _ Hj), fmap_app in Hn.
    apply NoDup_app in Hn as (_ & Hn & _). apply (Hn (eaddr e')).
    - apply list_elem_of_fmap_2. apply (elem_of_concat _ i' b'); [|done]. by rewrite lookup_take_lt.
    - rewrite Ha, fmap_app. apply elem_of_app. left. by apply list_elem_of_fmap_2. }
  intros Hn Hi Hj He Hf Ha. destruct (lt_eq_lt_dec i j) as [[|]|]; [|done|].
  - by destruct (H i j b c e f).
  - by destruct (H j i c b f e).
Qed.

Lemma bucket_nodup (bs : list (list entry)) g b :
  NoDup (eaddr <$> concat bs) -> bs !! g = Some b -> NoDup (eaddr <$> b).
Proof.
  intros Hn Hb. rewrite (concat_bucket _ _ _ Hb), !fmap_app in Hn.
  apply NoDup_app in Hn as (_ & _ & Hn). by apply NoDup_app in Hn as (Hn & _).
Qed.

Lemma next_in_chain_spec A e B :
  NoDup (eaddr <$> (A ++ e :: B)) -> next_in_chain (eaddr e) (A ++ e :: B) = eaddr <$> head B.
Proof.
  induction A as [|f A IH]; cbn [app next_in_chain]; intros Hn.
  - by rewrite Z.eqb_refl.
  - rewrite fmap_cons in Hn. apply NoDup_cons in Hn as [Hf Hn].
    destruct (Z.eqb_spec (eaddr f) (eaddr e)) as [E|E]; [|by apply IH].
    destruct Hf. rewrite E. apply list_elem_of_fmap_2. apply elem_mid.
Qed.

Lemma wf_nodup d : wf d -> NoDup (eaddr <$> concat (buckets d)).
Proof. intros [_ _ _ _ H]. by rewrite buckets_entries. Qed.

Lemma entry_next_spec d g A e B :
  wf d -> buckets d !! g = Some (A ++ e :: B) -> entry_next d (eaddr e) = Some (eaddr <$> head B).
Proof.
  intros W Hg. unfold entry_next. assert (e ∈ A ++ e :: B) as He by (apply elem_mid).
  rewrite deref_Some by (done || (rewrite <- buckets_entries; by eapply elem_of_concat)).
  cbn [mbind option_bind]. fold (buckets d). pose proof (wf_nodup d W) as Hn.
  assert (list_find (fun b => eaddr e ∈ map eaddr b) (buckets d) = Some (g, A ++ e :: B)) as ->.
  { apply list_find_Some. split; [done|]. split; [by apply list_elem_of_fmap_2|].
    intros j c Hj Hlt Hin. change (map eaddr c) with (eaddr <$> c) in Hin.
    apply list_elem_of_fmap in Hin as (f & Ef & Hf).
    assert (g = j); [|lia]. by apply (unique_bucket (buckets d) g j (A ++ e :: B) c e f). }
  by rewrite next_in_chain_spec by (by eapply bucket_nodup).
Qed.

(** ** Deleting during a safe iteration *)

Lemma nodup_middle (A A' B B' : list entry) e :
  NoDup (eaddr <$> (A ++ e :: B)) -> A ++ e :: B = A' ++ e :: B' -> A = A' /\ B = B'.
Proof.
  revert A'. induction A as [|f A IH]; intros [|f' A'] Hn E; cbn [app] in *; try (injection E as <- E).
  - by injection E as <-.
  - exfalso. rewrite fmap_cons in Hn. apply NoDup_cons in Hn as [Hn _]. apply Hn.
    rewrite E. apply list_elem_of_fmap_2. apply elem_mid.
  - exfalso. rewrite fmap_cons in Hn. apply NoDup_cons in Hn as [Hn _]. apply Hn.
    apply list_elem_of_fmap_2. apply elem_mid.
  - rewrite fmap_cons in Hn. apply NoDup_cons in Hn as [_ Hn]. by destruct (IH A' Hn E) as [-> ->].
Qed.

(** The part of a dictionary the position of an iterator depends on. *)
Definition same_shape (d d' : dict) : Prop :=
  size (ht0 d') = size (ht0 d) /\ size (ht1 d') = size (ht1 d) /\ rehashidx d' = rehashidx d /\
  iterators d' = iterators d.

Lemma delete_at d g A e B :
  wf d -> iterators d <> 0 -> buckets d !! g = Some (A ++ e :: B) ->
  exists d', dictDelete d (ekey e) = Some (d', true) /\ wf d' /\ same_shape d d' /\
    buckets d' = <[g := A ++ B]> (buckets d).
Proof.
  intros W Hit Hg. pose proof W as [Hw0 Hw1 Hok Hd _]. pose proof (wf_nodup d W) as Hn.
  assert (e ∈ dict_entries d) as He by (rewrite <- buckets_entries; eapply elem_of_concat; [done|apply elem_mid]).
  unfold dictDelete, dictGenericDelete. assert (0 < size (ht0 d)) as H0.
  { apply wf_ht0_pos; [done|]. intros E. rewrite E in He. by apply elem_of_nil in He. }
  rewrite (proj2 (Z.eqb_neq _ _)) by lia.
  assert (rehash_step_if d = Some d) as ->.
  { unfold rehash_step_if, _dictRehashStep. rewrite (proj2 (Z.eqb_neq _ _)) by done. by destruct (dictIsRehashing d). }
  cbn [mbind option_bind].
  destruct (delete_tables d (ekey e) W H0) as (d' & r & Hdel & Hr). rewrite Hdel.
  destruct r; [|destruct Hr as [_ Hno]; pose proof (compare_refl (ekey e)) as Hc; by rewrite (Hno e He) in Hc].
  destruct Hr as (W' & _). exists d'. split; [done|]. split; [done|].
  assert (forall t j A0 e0 B0, buckets d !! j = Some (A0 ++ e0 :: B0) -> keyCompare (ekey e) (ekey e0) = true ->
    j = g /\ A0 = A /\ B0 = B) as Huniq.
  { intros t j A0 e0 B0 Hj Hk.
    assert (e0 = e) as ->.
    { symmetry. apply (distinct_eq (dict_entries d)); [done|done| |done]. rewrite <- buckets_entries.
      eapply elem_of_concat; [done|apply elem_mid]. }
    assert (j = g) as -> by (eapply (unique_bucket (buckets d) j g _ _ e e); try done; apply elem_mid).
    rewrite Hg in Hj. injection Hj as Hj. split; [done|].
    destruct (nodup_middle A A0 B B0 e) as [-> ->]; [by eapply bucket_nodup|done|done]. }
  destruct (delete_in_spec (ht0 d) (ekey e) Hw0 H0) as ([t|] & E0 & Hr0); rewrite E0 in Hdel; cbn [mbind option_bind] in Hdel.
  - injection Hdel as <-. destruct Hr0 as (_ & Hsz & A0 & e0 & B0 & Hb & Htb & _ & Hk).
    split; [by split_and!|]. apply bucket_Some in Hb as [_ Hb]. pose proof (lookup_lt_Some _ _ _ Hb) as Hlt.
    destruct (Huniq t (Z.to_nat (slot (ht0 d) (ekey e))) A0 e0 B0) as (<- & -> & ->); [|done|].
    { unfold buckets. by rewrite lookup_app_l. }
    unfold buckets. cbn [ht0 ht1]. rewrite Htb. by rewrite insert_app_l.
  - destruct (dictIsRehashing d) eqn:Hreh; cbn [negb] in Hdel; [|done].
    destruct (wf_not_null d W Hreh) as [_ H1].
    destruct (delete_in_spec (ht1 d) (ekey e) Hw1 H1) as ([t|] & E1 & Hr1); rewrite E1 in Hdel; cbn [mbind option_bind] in Hdel; [|done].
    injection Hdel as <-. destruct Hr1 as (_ & Hsz & A0 & e0 & B0 & Hb & Htb & _ & Hk).
    split; [by split_and!|]. apply bucket_Some in Hb as [_ Hb].
    destruct (Huniq t (length (table (ht0 d)) + Z.to_nat (slot (ht1 d) (ekey e)))%nat A0 e0 B0) as (<- & -> & ->); [|done|].
    { unfold buckets. rewrite lookup_app_r by lia. by rewrite Nat.add_comm, Nat.add_sub. }
    unfold buckets. cbn [ht0 ht1]. rewrite Htb. by rewrite insert_app_r.
Qed.

(** ** The iteration *)

(** The iterator stands in bucket [g]: [A] is what is behind it there, [B]
    what is ahead. *)
Record at_bucket (d : dict) (it : dictIterator) (g : nat) (A B : list entry) : Prop := AtBucket {
  at_ok : it_ok d it;
  at_pos : position d it = S g;
  at_idx : 0 <= index it;
  at_here : buckets d !! g = Some (A ++ B);
  at_entry : is_Some (ientry it);
  at_next : nextEntry it = eaddr <$> head B
}.

(** Nothing of the bucket is left. *)
Definition between (d : dict) (it : dictIterator) : Prop := it_ok d it /\ ientry it = None.

Lemma started_idx d it : 0 <= index it -> started d it = d.
Proof. intros H. unfold started. by rewrite (proj2 (Z.eqb_neq _ _)) by lia. Qed.

Lemma started_shape d it :
  buckets (started d it) = buckets d /\ size (ht0 (started d it)) = size (ht0 d) /\
  size (ht1 (started d it)) = size (ht1 d) /\ rehashidx (started d it) = rehashidx d.
Proof. unfold started. by destruct (_ && _). Qed.

Lemma started_wf d it : wf d -> wf (started d it).
Proof. intros W. unfold started. destruct (_ && _); [by apply wf_iterators|done]. Qed.

Lemma it_ok_started d it0 it : it_ok d it -> it_ok (started d it0) it.
Proof.
  destruct (started_shape d it0) as (_ & E0 & E1 & E2). unfold it_ok, dictIsRehashing. by rewrite E0, E1, E2.
Qed.

Lemma position_started d it0 it : position (started d it0) it = position d it.
Proof. unfold position. by destruct (started_shape d it0) as (_ & -> & _). Qed.

Lemma deref_elem d g b e :
  wf d -> buckets d !! g = Some b -> e ∈ b -> deref d (eaddr e) = Some e.
Proof. intros W Hg He. apply deref_Some; [done|]. rewrite <- buckets_entries. by eapply elem_of_concat. Qed.

(** The loop over empty buckets. *)
Lemma iter_loop_spec m : forall d it,
  wf d -> between d it -> (length (buckets d) - position d it < m)%nat ->
  exists it', safe it' = safe it /\ 0 <= index it' /\
  (((iter_loop m d it = Some (started d it, it', None)) /\ concat (drop (position d it) (buckets d)) = []) \/
   exists g e B, iter_loop m d it = Some (started d it, it', Some (eaddr e)) /\
     (position d it <= g)%nat /\ at_bucket (started d it) it' g [e] B /\
     concat (take g (buckets d)) = concat (take (position d it) (buckets d))).
Proof.
  induction m as [|m IH]; intros d it W [Hok He] Hm; [lia|]. cbn [iter_loop].
  pose proof (advance_none d it W Hok He) as Ha.
  destruct (buckets d !! position d it) as [b|] eqn:Eb.
  - destruct Ha as (it1 & -> & Hent & Hok1 & Hpos & Hsafe & Hidx). cbn [mbind option_bind negb].
    destruct (started_shape d it) as (Eb1 & _). pose proof (started_wf d it W) as W1.
    destruct b as [|e B]; cbn [head fmap option_fmap option_map] in Hent; rewrite Hent.
    + assert (started (started d it) it1 = started d it) as Est by (by apply started_idx).
      destruct (IH (started d it) it1 W1) as (it' & Hs' & Hi' & Hres).
      { split; [by apply it_ok_started|done]. }
      { rewrite Eb1, position_started, Hpos. apply lookup_lt_Some in Eb. lia. }
      rewrite Est, Eb1, position_started, Hpos in Hres. exists it'. split; [congruence|]. split; [done|].
      assert (concat (take (S (position d it)) (buckets d)) = concat (take (position d it) (buckets d))) as Htake.
      { rewrite (take_S_r _ _ _ Eb), concat_app. cbn. by rewrite app_nil_r. }
      destruct Hres as [[-> Hd]|(g & e & B & -> & Hg & Hat & Ht)]; [left|right].
      * split; [done|]. rewrite (drop_S _ _ _ Eb). cbn [concat]. by rewrite Hd.
      * exists g, e, B. split; [done|]. split; [lia|]. split; [done|]. by rewrite Ht.
    + rewrite (entry_next_spec (started d it) (position d it) [] e B) by (done || by rewrite Eb1).
      cbn [mbind option_bind]. eexists. split; [|split; [|right; exists (position d it), e, B; split; [done|]]];
        [done|done|]. split; [lia|]. split; [|done].
      apply (it_ok_started d it) in Hok1. split; cbn [index itable safe ientry nextEntry].
      * exact Hok1.
      * rewrite position_started. exact Hpos.
      * done.
      * by rewrite Eb1.
      * by eexists.
      * done.
  - destruct Ha as (it1 & -> & Hidx & Hsafe). cbn [mbind option_bind negb]. exists it1.
    split; [done|]. split; [done|]. left. split; [done|]. apply lookup_ge_None in Eb. by rewrite drop_ge.
Qed.

(** What is behind the iterator and what is ahead of it. *)
Definition split_at (d : dict) (it : dictIterator) (behind ahead : list entry) : Prop :=
  (between d it /\ behind = concat (take (position d it) (buckets d)) /\
   ahead = concat (drop (position d it) (buckets d))) \/
  exists g A B, at_bucket d it g A B /\ behind = concat (take g (buckets d)) ++ A /\
    ahead = B ++ concat (drop (S g) (buckets d)).

Lemma split_at_entries d it behind ahead : split_at d it behind ahead -> dict_entries d = behind ++ ahead.
Proof.
  rewrite <- buckets_entries. intros [(_ & -> & ->)|(g & A & B & [_ _ _ Hg _ _] & -> & ->)].
  - by rewrite <- concat_app, take_drop.
  - rewrite (concat_bucket _ _ _ Hg). by rewrite <- !app_assoc.
Qed.

Lemma between_fuel d it :
  wf d -> it_ok d it ->
  (length (buckets d) - position d it < length (table (ht0 d)) + length (table (ht1 d)) + 3)%nat.
Proof. intros _ _. unfold buckets. rewrite length_app. lia. Qed.

(** One call of [dictNext]. *)
Lemma dictNext_spec d it behind ahead :
  wf d -> split_at d it behind ahead ->
  exists it', safe it' = safe it /\ 0 <= index it' /\
  match ahead with
  | [] => dictNext d it = Some (started d it, it', None)
  | e :: ahead => dictNext d it = Some (started d it, it', Some (eaddr e)) /\
      exists g A B, at_bucket (started d it) it' g (A ++ [e]) B /\
        behind = concat (take g (buckets d)) ++ A /\ ahead = B ++ concat (drop (S g) (buckets d))
  end.
Proof.
  intros W Hsplit. unfold dictNext.
  assert (forall m it0, between d it0 -> safe it0 = safe it -> started d it0 = started d it ->
    (length (buckets d) - position d it0 < m)%nat ->
    behind = concat (take (position d it0) (buckets d)) -> ahead = concat (drop (position d it0) (buckets d)) ->
    exists it', safe it' = safe it /\ 0 <= index it' /\
    match ahead with
    | [] => iter_loop m d it0 = Some (started d it, it', None)
    | e :: ahead => iter_loop m d it0 = Some (started d it, it', Some (eaddr e)) /\
      exists g A B, at_bucket (started d it) it' g (A ++ [e]) B /\
        behind = concat (take g (buckets d)) ++ A /\ ahead = B ++ concat (drop (S g) (buckets d))
    end) as Hloop.
  { intros m it0 Hb Hsafe Hst Hm -> ->.
    destruct (iter_loop_spec m d it0 W Hb Hm) as (it' & Hs' & Hi' & Hres). rewrite Hst in Hres.
    exists it'. split; [congruence|]. split; [done|]. destruct Hres as [[-> ->]|(g & e & B & -> & Hg & Hat & Ht)]; [done|].
    destruct (started_shape d it) as (Eb & _). pose proof (at_here _ _ _ _ _ Hat) as Hhere. rewrite Eb in Hhere.
    assert (concat (drop (position d it0) (buckets d)) = e :: B ++ concat (drop (S g) (buckets d))) as ->.
    { pose proof (concat_bucket _ _ _ Hhere) as H1. rewrite Ht in H1.
      rewrite <- (take_drop (position d it0) (buckets d)) in H1 at 1. rewrite concat_app in H1.
      by apply app_inv_head in H1. }
    split; [done|]. exists g, [], B. rewrite app_nil_r. by split_and!. }
  destruct Hsplit as [(Hb & Hbe & Hah)|(g & A & B & Hat & Hbe & Hah)].
  - apply (Hloop _ it Hb); try done. apply between_fuel; [done|by destruct Hb].
  - destruct Hat as [Hok Hpos Hidx Hhere Hent Hnext]. rewrite (started_idx d it Hidx) in *.
    destruct Hent as [a Ha]. remember (length (table (ht0 d)) + length (table (ht1 d)) + 3)%nat as m eqn:Em.
    destruct B as [|e B]; cbn [head fmap option_fmap option_map] in Hnext.
    + set (it0 := DictIterator (index it) (itable it) (safe it) None None).
      assert (position d it0 = S g) as Hpos0 by (rewrite <- Hpos; done).
      rewrite app_nil_r in Hhere.
      destruct m as [|m]; [lia|].
      assert (iter_loop (S m) d it = iter_loop m d it0) as ->.
      { cbn [iter_loop]. unfold iter_advance. by rewrite Ha, Hnext. }
      apply (Hloop m it0); [by split|done|by rewrite started_idx| | |].
      * rewrite Hpos0. unfold buckets. rewrite length_app. lia.
      * rewrite Hpos0, (take_S_r _ _ _ Hhere), concat_app. cbn [concat]. by rewrite app_nil_r.
      * rewrite Hpos0. exact Hah.
    + subst ahead. cbn [app]. destruct m as [|m]; [lia|]. cbn [iter_loop]. unfold iter_advance. rewrite Ha.
      cbn [mbind option_bind negb ientry]. rewrite Hnext.
      rewrite (entry_next_spec d g A e B W Hhere). cbn [mbind option_bind].
      eexists. split; [|split; [|split; [done|]]]; [done|done|].
      exists g, A, B. split; [|by split]. split; cbn [index itable safe ientry nextEntry]; try done.
      by rewrite <- app_assoc.
Qed.

Lemma at_bucket_split d it g A B :
  at_bucket d it g A B ->
  split_at d it (concat (take g (buckets d)) ++ A) (B ++ concat (drop (S g) (buckets d))).
Proof. intros H. right. by exists g, A, B. Qed.

(** Deleting the entry the iterator just returned. *)
Lemma delete_current d it g A e B :
  wf d -> iterators d <> 0 -> at_bucket d it g (A ++ [e]) B ->
  exists d', dictDelete d (ekey e) = Some (d', true) /\ wf d' /\ iterators d' = iterators d /\
    at_bucket d' it g A B /\ take g (buckets d') = take g (buckets d) /\
    drop (S g) (buckets d') = drop (S g) (buckets d).
Proof.
  intros W Hit [Hok Hpos Hidx Hhere Hent Hnext]. rewrite <- app_assoc in Hhere.
  destruct (delete_at d g A e B W Hit Hhere) as (d' & Hdel & W' & (E0 & E1 & E2 & E3) & Hb).
  exists d'. split; [done|]. split; [done|]. split; [done|].
  split; [|by rewrite Hb, take_insert_ge, drop_insert_lt by lia]. split; try done.
  - unfold it_ok, dictIsRehashing in *. by rewrite E0, E1, E2.
  - unfold position in *. by rewrite E0.
  - rewrite Hb. apply list_lookup_insert_eq. by eapply lookup_lt_Some.
Qed.

Lemma iterate_spec n pick : forall d it behind ahead,
  wf d -> split_at d it behind ahead -> 0 < iterators (started d it) -> (length ahead < n)%nat ->
  exists d' it', iterate n pick d it = Some (d', it', map eaddr ahead) /\ wf d' /\
    dict_entries d' = behind ++ filter (fun e => pick e = false) ahead /\
    iterators d' = iterators (started d it) /\ safe it' = safe it /\ 0 <= index it'.
Proof.
  induction n as [|n IH]; intros d it behind ahead W Hsp Hit Hn; [lia|]. cbn [iterate].
  destruct (dictNext_spec d it behind ahead W Hsp) as (it1 & Hsafe & Hidx & Hnx).
  pose proof (started_wf d it W) as W1. destruct (started_shape d it) as (Eb & _).
  destruct ahead as [|e ahead].
  - rewrite Hnx. cbn [mbind option_bind]. exists (started d it), it1. split_and!; try done.
    apply split_at_entries in Hsp. rewrite <- buckets_entries, Eb, buckets_entries, Hsp. done.
  - destruct Hnx as (-> & g & A & B & Hat & -> & ->). cbn [mbind option_bind length] in *.
    pose proof (at_here _ _ _ _ _ Hat) as Hhere.
    rewrite (deref_elem _ g _ e W1 Hhere) by (rewrite <- app_assoc; apply elem_mid). cbn [mbind option_bind].
    destruct (pick e) eqn:Hp.
    + destruct (delete_current _ _ _ _ _ _ W1 ltac:(lia) Hat) as (d2 & -> & W2 & Hi2 & Hat2 & Ht & Hd).
      cbn [mbind option_bind]. pose proof (at_bucket_split _ _ _ _ _ Hat2) as Hs2. rewrite Ht, Hd, Eb in Hs2.
      destruct (IH _ _ _ _ W2 Hs2) as (d' & it' & -> & W' & Hes & Hi' & Hsf & Hix); [|lia|].
      { rewrite started_idx by (by destruct Hat). lia. }
      cbn [mbind option_bind]. exists d', it'. split_and!; try done; [|rewrite Hi', started_idx by (by destruct Hat); done|congruence].
      rewrite Hes, filter_cons_False by congruence. done.
    + cbn [mbind option_bind]. pose proof (at_bucket_split _ _ _ _ _ Hat) as Hs2. rewrite Eb in Hs2.
      destruct (IH _ _ _ _ W1 Hs2) as (d' & it' & -> & W' & Hes & Hi' & Hsf & Hix); [|lia|].
      { rewrite started_idx by (by destruct Hat). done. }
      cbn [mbind option_bind]. exists d', it'. split_and!; try done; [|rewrite Hi', started_idx by (by destruct Hat); done|congruence].
      rewrite Hes, filter_cons_True by done. by rewrite <- !app_assoc.
Qed.

Lemma fresh_split d : wf d -> split_at d dictGetSafeIterator [] (dict_entries d).
Proof.
  intros W. left. pose proof (size_nonneg _ (wf_ht0 _ W)).
  assert (position d dictGetSafeIterator = 0%nat) as E by done. rewrite E. split_and!; [|done|by rewrite drop_0, buckets_entries].
  split; [|done]. unfold it_ok. cbn [dictGetSafeIterator index itable]. split_and!; [lia|done|by right].
Qed.

Lemma safe_iteration d pick :
  wf d -> 0 <= iterators d ->
  exists d' it', iterate (S (length (dict_entries d))) pick d dictGetSafeIterator
      = Some (d', it', map eaddr (dict_entries d)) /\
    wf (dictReleaseIterator d' it') /\
    dict_entries (dictReleaseIterator d' it') = filter (fun e => pick e = false) (dict_entries d) /\
    iterators (dictReleaseIterator d' it') = iterators d.
Proof.
  intros W Hit.
  destruct (iterate_spec (S (length (dict_entries d))) pick d _ _ _ W (fresh_split d W))
    as (d' & it' & -> & W' & He & Hi & Hs & Hix); [cbn; lia|lia|].
  exists d', it'. split; [done|]. unfold dictReleaseIterator.
  rewrite Hs, (proj2 (Z.eqb_neq (index it') (-1))) by lia. cbn [dictGetSafeIterator safe andb negb].
  split; [by apply wf_iterators|]. split; [exact He|]. cbn [iterators]. rewrite Hi. cbn. lia.
Qed.

End Iter.

(** ** Properties *)

#[local] Existing Instance sample_type.
#[local] Existing Instance sample_laws.

(** C27. The loop the server uses to go through a dictionary while removing
    from it: a safe iterator returns every entry exactly once, in the order of
    the buckets of both tables, when the entries it returns are deleted or not
    as [pick] says; what is left is exactly what was not picked, and releasing
    the iterator lets the rehashing go on as before. *)
Theorem dictNext_safe_iteration {K V} {T : dictType K V} {L : dictTypeLaws K V} d pick :
  wf d -> 0 <= iterators d ->
  exists d' it', iterate (S (length (dict_entries d))) pick d dictGetSafeIterator
      = Some (d', it', map eaddr (dict_entries d)) /\
    wf (dictReleaseIterator d' it') /\
    dict_entries (dictReleaseIterator d' it') = filter (fun e => pick e = false) (dict_entries d) /\
    iterators (dictReleaseIterator d' it') = iterators d.
Proof. apply safe_iteration. Qed.

Lemma dictNext_safe_iteration_witness :
  wf sample_dict /\ dictIsRehashing sample_dict = true /\
  exists d' it', iterate (S (length (dict_entries sample_dict))) (fun e => evalue e =? 2) sample_dict
      dictGetSafeIterator = Some (d', it', map eaddr (dict_entries sample_dict)) /\
    dict_entries (dictReleaseIterator d' it')
      = filter (fun e => (evalue e =? 2) = false) (dict_entries sample_dict).
Proof.
  destruct sample_rep as (l & [W _] & Hr). split; [exact W|]. split; [exact Hr|].
  destruct (dictNext_safe_iteration sample_dict (fun e => evalue e =? 2) W) as (d' & it' & H1 & _ & H2 & _);
    [by vm_compute|]. exists d', it'. exact (conj H1 H2).
Defined.


End DictIter.
