(* ===== verification/DictScan.v ===== *)
(** * Scanning a dictionary with a stateless cursor (src/dict.c)

    [dictScan] increments its cursor from the high bits down.  Read backwards,
    as [rev] does, the cursors of a scan only grow: a call for a table of
    [2 ^ k] buckets covers the hashes whose reversal lies in an interval of
    length [2 ^ (64 - k)], and the next cursor is the end of the interval.
    That is why a scan during which the smaller table never shrinks misses
    nothing; the theorem about shrinking tables shows why the restriction is
    there. *)

From S2P Require Import Prelude Dict DictTypes DictSpec.
Import Dict DictTypes DictSpec.

Module DictScan.

(** ** Reversing the bits of a word *)

(** Swapping the blocks of [s] bits that the mask separates. *)
Definition swap_step (s m v : Z) : Z :=
  Z.lor (Z.land (Z.shiftr v s) m) (Z.land (u64 (Z.shiftl v s)) (u64 (Z.lnot m))).

Lemma wrapu_land w z : 0 <= w -> wrapu w z = Z.land z (Z.ones w).
Proof. intros. unfold wrapu. by rewrite Z.land_ones. Qed.

Lemma swap_step_lor s m a b : swap_step s m (Z.lor a b) = Z.lor (swap_step s m a) (swap_step s m b).
Proof.
  unfold swap_step. rewrite !(wrapu_land 64) by lia.
  rewrite Z.shiftr_lor, Z.shiftl_lor, !Z.land_lor_distr_l.
  generalize (Z.land (Z.shiftr a s) m), (Z.land (Z.shiftr b s) m).
  generalize (Z.land (Z.land (Z.shiftl a s) (Z.ones 64)) (Z.land (Z.lnot m) (Z.ones 64))).
  generalize (Z.land (Z.land (Z.shiftl b s) (Z.ones 64)) (Z.land (Z.lnot m) (Z.ones 64))).
  intros p q r t. rewrite <- !Z.lor_assoc. f_equal. rewrite !Z.lor_assoc. f_equal. apply Z.lor_comm.
Qed.

Lemma rev_loop_lor n : forall s m a b,
  rev_loop n s m (Z.lor a b) = Z.lor (rev_loop n s m a) (rev_loop n s m b).
Proof.
  induction n as [|n IH]; intros s m a b; [done|]. cbn [rev_loop].
  destruct (Z.shiftr s 1 >? 0); [|done]. rewrite <- IH. f_equal. apply swap_step_lor.
Qed.

Lemma rev_lor a b : rev (Z.lor a b) = Z.lor (rev a) (rev b).
Proof. apply rev_loop_lor. Qed.

(** A word as the union of its bits, and their reversal. *)
Fixpoint bits_or (n : nat) (v : Z) : Z :=
  match n with
  | O => 0
  | S n => Z.lor (bits_or n v) (if Z.testbit v (Z.of_nat n) then 2 ^ Z.of_nat n else 0)
  end.

Fixpoint rbits_or (n : nat) (v : Z) : Z :=
  match n with
  | O => 0
  | S n => Z.lor (rbits_or n v) (if Z.testbit v (Z.of_nat n) then 2 ^ (63 - Z.of_nat n) else 0)
  end.

Lemma testbit_bit (b : bool) n j : 0 <= n -> Z.testbit (if b then 2 ^ n else 0) j = b && (j =? n).
Proof.
  intros Hn. destruct b; cbn [andb]; [|apply Z.bits_0]. rewrite Z.pow2_bits_eqb by done. apply Z.eqb_sym.
Qed.

Lemma bits_or_spec n v j : 0 <= j -> Z.testbit (bits_or n v) j = (j <? Z.of_nat n) && Z.testbit v j.
Proof.
  intros Hj. induction n as [|n IH]; cbn [bits_or].
  - rewrite Z.bits_0. by rewrite (proj2 (Z.ltb_ge j (Z.of_nat 0))).
  - rewrite Z.lor_spec, IH, testbit_bit by lia.
    destruct (Z.eqb_spec j (Z.of_nat n)) as [->|Hne].
    + rewrite Z.ltb_irrefl, (proj2 (Z.ltb_lt _ _)) by lia. by rewrite andb_true_r.
    + rewrite andb_false_r, orb_false_r. f_equal.
      destruct (Z.ltb_spec j (Z.of_nat n)), (Z.ltb_spec j (Z.of_nat (S n))); done || lia.
Qed.

Lemma rbits_or_spec n v j :
  0 <= j -> (n <= 64)%nat ->
  Z.testbit (rbits_or n v) j = (63 - Z.of_nat n <? j) && (j <? 64) && Z.testbit v (63 - j).
Proof.
  intros Hj. induction n as [|n IH]; intros Hn; cbn [rbits_or].
  - rewrite Z.bits_0. destruct (Z.ltb_spec (63 - Z.of_nat 0) j), (Z.ltb_spec j 64); try done; lia.
  - rewrite Z.lor_spec, IH, testbit_bit by lia.
    destruct (Z.eqb_spec j (63 - Z.of_nat n)) as [->|Hne].
    + rewrite Z.ltb_irrefl. destruct (Z.ltb_spec (63 - Z.of_nat (S n)) (63 - Z.of_nat n)); [|lia].
      destruct (Z.ltb_spec (63 - Z.of_nat n) 64); [|lia].
      replace (63 - (63 - Z.of_nat n)) with (Z.of_nat n) by lia.
      by destruct (Z.testbit v (Z.of_nat n)).
    + rewrite andb_false_r, orb_false_r. f_equal. f_equal.
      destruct (Z.ltb_spec (63 - Z.of_nat n) j), (Z.ltb_spec (63 - Z.of_nat (S n)) j); done || lia.
Qed.

Lemma rev_bit_all : forallb (fun n => rev (2 ^ Z.of_nat n) =? 2 ^ (63 - Z.of_nat n)) (seq 0 64) = true.
Proof. by vm_compute. Qed.

Lemma rev_bit n : (n < 64)%nat -> rev (2 ^ Z.of_nat n) = 2 ^ (63 - Z.of_nat n).
Proof.
  intros Hn. pose proof rev_bit_all as H. rewrite forallb_forall in H.
  apply Z.eqb_eq, H, in_seq. lia.
Qed.

Lemma rev_bits_or n v : (n <= 64)%nat -> rev (bits_or n v) = rbits_or n v.
Proof.
  induction n as [|n IH]; intros Hn; [done|]. cbn [bits_or rbits_or]. rewrite rev_lor, IH by lia.
  destruct (Z.testbit v (Z.of_nat n)); [by rewrite rev_bit by lia|done].
Qed.

Lemma testbit_high v j n : 0 <= v < 2 ^ n -> n <= j -> Z.testbit v j = false.
Proof.
  intros Hv Hj. destruct (decide (v = 0)) as [->|]; [apply Z.bits_0|].
  apply Z.bits_above_log2; [lia|]. apply Z.lt_le_trans with n; [|done]. apply Z.log2_lt_pow2; lia.
Qed.

Lemma rev_spec v j : is_u64 v -> 0 <= j -> Z.testbit (rev v) j = (j <? 64) && Z.testbit v (63 - j).
Proof.
  intros Hv Hj. assert (bits_or 64 v = v) as E.
  { apply Z.bits_inj'. intros i Hi. rewrite bits_or_spec by done. change (Z.of_nat 64) with 64.
    destruct (Z.ltb_spec i 64); [done|]. by rewrite (testbit_high v i 64). }
  rewrite <- E at 1. rewrite rev_bits_or, rbits_or_spec by lia. change (63 - Z.of_nat 64) with (-1).
  by rewrite (proj2 (Z.ltb_lt (-1) j)) by lia.
Qed.

Lemma u64_bits v : 0 <= v -> (forall j, 64 <= j -> Z.testbit v j = false) -> is_u64 v.
Proof.
  intros Hv H. split; [done|]. assert (v = v mod 2 ^ 64) as ->; [|apply Z.mod_pos_bound; lia].
  apply Z.bits_inj'. intros j Hj. destruct (Z.lt_ge_cases j 64).
  - by rewrite Z.mod_pow2_bits_low.
  - rewrite Z.mod_pow2_bits_high by lia. by apply H.
Qed.

Lemma rev_range v : is_u64 v -> is_u64 (rev v).
Proof.
  intros Hv. apply u64_bits.
  - apply Z.bits_iff_nonneg_ex. exists 64. intros j Hj. rewrite rev_spec by (done || lia).
    by rewrite (proj2 (Z.ltb_ge j 64)) by lia.
  - intros j Hj. rewrite rev_spec by (done || lia). by rewrite (proj2 (Z.ltb_ge j 64)) by lia.
Qed.

Lemma rev_involutive v : is_u64 v -> rev (rev v) = v.
Proof.
  intros Hv. apply Z.bits_inj'. intros j Hj. rewrite rev_spec by (done || by apply rev_range).
  destruct (Z.ltb_spec j 64).
  - rewrite rev_spec by (done || lia). rewrite (proj2 (Z.ltb_lt _ _)) by lia. cbn [andb]. f_equal. lia.
  - by rewrite (testbit_high v j 64).
Qed.

(** ** The order of a scan *)

(** The high bits of the reversal depend on the low bits of the word. *)
Lemma rev_prefix k h :
  0 <= k <= 64 -> is_u64 h -> rev h / 2 ^ (64 - k) = rev (h mod 2 ^ k) / 2 ^ (64 - k).
Proof.
  intros Hk Hh. rewrite <- !Z.shiftr_div_pow2 by lia. apply Z.bits_inj'. intros j Hj.
  rewrite !Z.shiftr_spec by lia. pose proof (Z.mod_pos_bound h (2 ^ k) ltac:(lia)) as Hm.
  assert (is_u64 (h mod 2 ^ k)) as Hu.
  { assert (2 ^ k <= 2 ^ 64) by (apply Z.pow_le_mono_r; lia). split; lia. }
  rewrite !rev_spec by (done || lia). destruct (Z.ltb_spec (j + (64 - k)) 64); [|done]. cbn [andb].
  by rewrite Z.mod_pow2_bits_low by lia.
Qed.

Lemma pow2_u64 k v : 0 <= k <= 64 -> 0 <= v < 2 ^ k -> is_u64 v.
Proof. intros Hk Hv. assert (2 ^ k <= 2 ^ 64) by (apply Z.pow_le_mono_r; lia). split; lia. Qed.

(** The reversal of a short word is a multiple of the interval length. *)
Lemma rev_multiple k v :
  0 <= k <= 64 -> 0 <= v < 2 ^ k -> rev v = rev v / 2 ^ (64 - k) * 2 ^ (64 - k).
Proof.
  intros Hk Hv. pose proof (pow2_u64 k v Hk Hv) as Hu.
  rewrite <- Z.shiftr_div_pow2, <- Z.shiftl_mul_pow2 by lia. apply Z.bits_inj'. intros j Hj.
  rewrite Z.shiftl_spec by lia. destruct (Z.lt_ge_cases j (64 - k)).
  - rewrite (Z.testbit_neg_r _ (j - (64 - k))) by lia. rewrite rev_spec by done.
    rewrite (testbit_high v (63 - j) k) by lia. apply andb_false_r.
  - rewrite Z.shiftr_spec by lia. f_equal. lia.
Qed.

(** The hashes a cursor stands for are an interval of reversed words. *)
Lemma cursor_interval k v h :
  0 <= k <= 64 -> 0 <= v < 2 ^ k -> is_u64 h ->
  h mod 2 ^ k = v <-> rev v <= rev h < rev v + 2 ^ (64 - k).
Proof.
  intros Hk Hv Hh. pose proof (rev_multiple k v Hk Hv) as Hm. pose proof (rev_prefix k h Hk Hh) as Hp.
  assert (0 < 2 ^ (64 - k)) as Hpos by lia.
  pose proof (Z.mod_pos_bound h (2 ^ k) ltac:(lia)) as Hb.
  pose proof (rev_multiple k _ Hk Hb) as Hmh.
  pose proof (Z.div_mod (rev h) (2 ^ (64 - k)) ltac:(lia)) as Hd.
  pose proof (Z.mod_pos_bound (rev h) (2 ^ (64 - k)) Hpos) as Hr. split.
  - intros E. rewrite E in *. rewrite <- Hp in Hm. lia.
  - intros Hin. assert (rev h / 2 ^ (64 - k) = rev v / 2 ^ (64 - k)) as E by nia.
    rewrite Hp in E. rewrite <- (rev_involutive (h mod 2 ^ k)), <- (rev_involutive v) by (by eapply pow2_u64).
    f_equal. rewrite Hmh, Hm. by rewrite E.
Qed.

Lemma rev_high k : 0 <= k <= 64 -> rev (u64 (Z.lnot (2 ^ k - 1))) = 2 ^ (64 - k) - 1.
Proof.
  intros Hk. replace (2 ^ k - 1) with (Z.ones k) by (rewrite Z.ones_equiv; lia).
  replace (2 ^ (64 - k) - 1) with (Z.ones (64 - k)) by (rewrite Z.ones_equiv; lia).
  apply Z.bits_inj'. intros j Hj. rewrite rev_spec by (done || (apply wrapu_range; lia)).
  rewrite Z.testbit_ones_nonneg by lia. unfold wrapu. destruct (Z.ltb_spec j 64); cbn [andb].
  - rewrite Z.mod_pow2_bits_low, Z.lnot_spec, Z.testbit_ones_nonneg by lia.
    destruct (Z.ltb_spec (63 - j) k), (Z.ltb_spec j (64 - k)); done || lia.
  - symmetry. apply Z.ltb_ge. lia.
Qed.

(** The next cursor is the end of the interval, or zero after the last one. *)
Definition next_cursor (m0 v : Z) : Z := rev (u64 (rev (Z.lor v (u64 (Z.lnot m0))) + 1)).

Lemma next_cursor_spec k v :
  0 <= k <= 64 -> 0 <= v < 2 ^ k ->
  let v' := next_cursor (2 ^ k - 1) v in
  0 <= v' < 2 ^ k /\
  (rev v + 2 ^ (64 - k) < 2 ^ 64 /\ rev v' = rev v + 2 ^ (64 - k) /\ v' <> 0 \/
   rev v + 2 ^ (64 - k) = 2 ^ 64 /\ v' = 0).
Proof.
  intros Hk Hv. cbn zeta. unfold next_cursor. rewrite rev_lor, rev_high by done.
  pose proof (pow2_u64 k v Hk Hv) as Hu. pose proof (rev_range v Hu) as Hru.
  pose proof (rev_multiple k v Hk Hv) as Hm. set (q := rev v / 2 ^ (64 - k)) in *.
  assert (0 < 2 ^ (64 - k)) as Hpos by lia.
  assert (2 ^ 64 = 2 ^ k * 2 ^ (64 - k)) as E64 by (rewrite <- Z.pow_add_r by lia; f_equal; lia).
  assert (Z.lor (rev v) (2 ^ (64 - k) - 1) = rev v + 2 ^ (64 - k) - 1) as ->.
  { rewrite Hm at 1. rewrite <- Z.shiftl_mul_pow2 by lia. rewrite lor_shiftl_add by lia. rewrite Hm. lia. }
  replace (rev v + 2 ^ (64 - k) - 1 + 1) with (rev v + 2 ^ (64 - k)) by lia.
  assert (q + 1 <= 2 ^ k) as Hq by (destruct Hru as [_ Hru]; nia).
  destruct (Z.eq_dec (q + 1) (2 ^ k)) as [Eq|Nq].
  - assert (rev v + 2 ^ (64 - k) = 2 ^ 64) as E by nia. rewrite E. change (rev (u64 (2 ^ 64))) with 0.
    split; [lia|]. by right.
  - assert (rev v + 2 ^ (64 - k) < 2 ^ 64) as Hlt by nia.
    rewrite wrapu_small by (split; [destruct Hru; lia|done]).
    assert (is_u64 (rev v + 2 ^ (64 - k))) as Hw by (split; [destruct Hru; lia|done]).
    pose proof (rev_range _ Hw) as Hr2. rewrite rev_involutive by done.
    assert (rev (rev v + 2 ^ (64 - k)) <> 0) as Hne.
    { intros E. apply (f_equal rev) in E. rewrite rev_involutive in E by done. change (rev 0) with 0 in E.
      destruct Hru. lia. }
    split; [|by left]. split; [by destruct Hr2|].
    assert (rev (rev v + 2 ^ (64 - k)) = rev (rev v + 2 ^ (64 - k)) mod 2 ^ k) as ->;
      [|apply Z.mod_pos_bound; lia].
    apply Z.bits_inj'. intros j Hj. destruct (Z.lt_ge_cases j k); [by rewrite Z.mod_pow2_bits_low|].
    rewrite Z.mod_pow2_bits_high by lia. rewrite rev_spec by done. destruct (Z.ltb_spec j 64); [|done].
    cbn [andb]. rewrite Hm. replace (q * 2 ^ (64 - k) + 2 ^ (64 - k)) with ((q + 1) * 2 ^ (64 - k)) by lia.
    apply Z.mul_pow2_bits_low. lia.
Qed.

(** ** One call *)

(** Arithmetic of the expansions of a cursor. *)
Lemma ones_pow k : 0 <= k -> 2 ^ k - 1 = Z.ones k.
Proof. intros. rewrite Z.ones_equiv. lia. Qed.

Lemma expand_next k v j :
  0 <= k <= 30 -> 0 <= v < 2 ^ k -> 0 <= j < 2 ^ 31 ->
  Z.lor (Z.land (u64 (Z.lor (v + j * 2 ^ k) (2 ^ k - 1) + 1)) (u64 (Z.lnot (2 ^ k - 1)))) (Z.land (v + j * 2 ^ k) (2 ^ k - 1))
  = v + (j + 1) * 2 ^ k.
Proof.
  intros Hk Hv Hj. assert (2 ^ k <= 2 ^ 30) as Hk30 by (apply Z.pow_le_mono_r; lia).
  assert (Z.lor (v + j * 2 ^ k) (2 ^ k - 1) = j * 2 ^ k + (2 ^ k - 1)) as ->.
  { rewrite (Z.add_comm v), <- (lor_shiftl_add j v k), <- Z.lor_assoc by lia.
    assert (Z.lor v (2 ^ k - 1) = 2 ^ k - 1) as ->; [|by rewrite lor_shiftl_add by lia].
    rewrite ones_pow by lia. destruct (decide (v = 0)) as [->|]; [done|].
    apply Z.lor_ones_low; [lia|]. apply Z.log2_lt_pow2; lia. }
  replace (j * 2 ^ k + (2 ^ k - 1) + 1) with ((j + 1) * 2 ^ k) by lia.
  rewrite (land_ones_mod _ k (2 ^ k - 1)) by (lia || (apply ones_pow; lia)).
  rewrite Z.mod_add, (Z.mod_small v) by lia.
  assert ((j + 1) * 2 ^ k < 2 ^ 64) as Hlt.
  { apply Z.le_lt_trans with (2 ^ 31 * 2 ^ 30); [nia|done]. }
  rewrite (wrapu_small 64 ((j + 1) * 2 ^ k)) by (split; [nia|done]).
  assert (Z.land ((j + 1) * 2 ^ k) (u64 (Z.lnot (2 ^ k - 1))) = (j + 1) * 2 ^ k) as ->.
  { rewrite ones_pow by lia. apply Z.bits_inj'. intros i Hi. rewrite Z.land_spec.
    destruct (Z.lt_ge_cases i k); [by rewrite Z.mul_pow2_bits_low by lia|].
    destruct (Z.lt_ge_cases i 64).
    - unfold wrapu. rewrite Z.mod_pow2_bits_low, Z.lnot_spec, Z.testbit_ones_nonneg by lia.
      rewrite (proj2 (Z.ltb_ge i k)) by lia. apply andb_true_r.
    - by rewrite (testbit_high ((j + 1) * 2 ^ k) i 64) by (nia || lia). }
  rewrite <- Z.shiftl_mul_pow2, lor_shiftl_add by lia. rewrite Z.shiftl_mul_pow2 by lia. lia.
Qed.

Lemma expand_more k k1 v j :
  0 <= k <= k1 -> 0 <= v < 2 ^ k -> 0 <= j ->
  (Z.land (v + j * 2 ^ k) (Z.lxor (2 ^ k - 1) (2 ^ k1 - 1)) =? 0) = (j mod 2 ^ (k1 - k) =? 0).
Proof.
  intros Hk Hv Hj. assert (Z.lxor (2 ^ k - 1) (2 ^ k1 - 1) = Z.shiftl (Z.ones (k1 - k)) k) as ->.
  { rewrite !ones_pow by lia. apply Z.bits_inj'. intros i Hi.
    rewrite Z.lxor_spec, !Z.testbit_ones_nonneg, Z.shiftl_spec by lia.
    destruct (Z.ltb_spec i k), (Z.ltb_spec i k1); try lia; cbn [xorb].
    - by rewrite Z.testbit_neg_r by lia.
    - rewrite Z.testbit_ones_nonneg by lia. symmetry. apply Z.ltb_lt. lia.
    - rewrite Z.testbit_ones_nonneg by lia. symmetry. apply Z.ltb_ge. lia. }
  assert (Z.land (v + j * 2 ^ k) (Z.shiftl (Z.ones (k1 - k)) k) = (j mod 2 ^ (k1 - k)) * 2 ^ k) as ->.
  { rewrite <- (Z.land_ones j), <- (Z.shiftl_mul_pow2 (Z.land j _)), Z.shiftl_land by lia.
    rewrite (Z.add_comm v), <- lor_shiftl_add, Z.land_lor_distr_l by lia.
    assert (Z.land v (Z.shiftl (Z.ones (k1 - k)) k) = 0) as ->; [|by rewrite Z.lor_0_r].
    apply Z.bits_inj'. intros i Hi. rewrite Z.land_spec, Z.bits_0.
    destruct (Z.lt_ge_cases i k); [by rewrite Z.shiftl_spec_low by lia; rewrite andb_false_r|].
    by rewrite (testbit_high v i k). }
  assert (0 < 2 ^ k) by lia. destruct (Z.eqb_spec (j mod 2 ^ (k1 - k)) 0) as [->|Hne]; [done|].
  apply Z.eqb_neq. nia.
Qed.

(** The hash modulo two powers of two. *)
Lemma mod_mod_pow h k k1 : 0 <= k <= k1 -> (h mod 2 ^ k1) mod 2 ^ k = h mod 2 ^ k.
Proof.
  intros Hk. assert (0 < 2 ^ k) by lia.
  replace (2 ^ k1) with (2 ^ k * 2 ^ (k1 - k)) by (rewrite <- Z.pow_add_r by lia; f_equal; lia).
  rewrite Z.rem_mul_r by lia. by rewrite Z.mul_comm, Z.mod_add, Z.mod_mod by lia.
Qed.

Lemma mod_split h k k1 : 0 <= k <= k1 -> h mod 2 ^ k1 = h mod 2 ^ k + (h mod 2 ^ k1) / 2 ^ k * 2 ^ k.
Proof.
  intros Hk. assert (0 < 2 ^ k) by lia.
  rewrite (Z.div_mod (h mod 2 ^ k1) (2 ^ k)) at 1 by lia.
  rewrite (mod_mod_pow h k k1) by lia. lia.
Qed.

Lemma mod_class h k k1 v j :
  0 <= k <= k1 -> 0 <= v < 2 ^ k ->
  h mod 2 ^ k1 = v + j * 2 ^ k <-> h mod 2 ^ k = v /\ h mod 2 ^ k1 / 2 ^ k = j.
Proof.
  intros Hk Hv. pose proof (mod_split h k k1 Hk) as Hs. split.
  - intros E. assert (h mod 2 ^ k1 / 2 ^ k = j) as E2 by (rewrite E, Z.div_add, Z.div_small by lia; lia).
    rewrite E2 in Hs. lia.
  - intros [E1 E2]. by rewrite E1, E2 in Hs.
Qed.

#[local] Opaque rev.

Section Scan.
Context {K V : Type} {T : dictType K V} {L : dictTypeLaws K V}.
Abbreviation entry := (dictEntry K V).
Abbreviation ht := (dictht K V).
Abbreviation dict := (dict K V).
Implicit Types (t : ht) (d : dict) (e f : entry) (es : list entry).

Definition ht_exp t (k : Z) : Prop := 0 <= k <= 30 /\ size t = 2 ^ k /\ sizemask t = 2 ^ k - 1.

(** The exponent of the smaller table in use. *)
Definition scan_exp d (k : Z) : Prop :=
  0 <= k <= 30 /\ 2 ^ k = if dictIsRehashing d then Z.min (size (ht0 d)) (size (ht1 d)) else size (ht0 d).

Lemma shape_exp t : ht_shape t -> 0 < size t -> exists k, ht_exp t k.
Proof.
  intros (_ & Hl & [->|(k & Hk & Hs & Hm)] & _) Hp; [done|]. exists k. split_and!; try done.
  destruct (Z.le_gt_cases k 30) as [|Hgt]; [done|]. assert (2 ^ 31 <= 2 ^ k) by (apply Z.pow_le_mono_r; lia). lia.
Qed.

(** The entries whose hash ends like the cursor. *)
Abbreviation in_class k v := (fun e => hashFunction (ekey e) mod 2 ^ k = v).

Lemma slot_exp t k key : ht_exp t k -> slot t key = hashFunction key mod 2 ^ k.
Proof.
  intros (Hk & _ & Hm). unfold slot. apply land_ones_mod; [lia|]. rewrite Hm. apply ones_pow. lia.
Qed.

Lemma bucket_class t k v :
  ht_wf t -> ht_exp t k -> 0 <= v < 2 ^ k ->
  exists b, bucket t v = Some b /\ b ≡ₚ filter (in_class k v) (entries t).
Proof.
  intros [Hs _] He Hv. pose proof He as (Hk & Hsz & _). pose proof Hs as (Hl & _).
  destruct (lookup_lt_is_Some_2 (table t) (Z.to_nat v)) as [b Hb]; [lia|].
  assert (bucket t v = Some b) as Hbk by (apply bucket_Some; split; [lia|done]).
  exists b. split; [done|]. rewrite (entries_bucket _ _ _ Hbk), filter_app.
  assert (filter (in_class k v) b = b) as ->.
  { apply filter_all. apply Forall_forall. intros e Hin. rewrite <- (slot_exp t) by done. by apply (bucket_slot t _ b). }
  assert (filter (in_class k v) (others t v) = []) as ->; [|by rewrite app_nil_r].
  apply filter_none. apply Forall_forall. intros e Hin E. rewrite <- (slot_exp t) in E by done.
  by destruct (others_slot t v b e Hs Hbk Hin).
Qed.

(** The walk over the expansions of a cursor. *)
Lemma scan_larger_spec n t k k1 v : forall j,
  ht_wf t -> ht_exp t k1 -> 0 <= k <= k1 -> 0 <= v < 2 ^ k -> 0 <= j < 2 ^ (k1 - k) ->
  2 ^ (k1 - k) - j <= Z.of_nat n + 1 ->
  exists es, scan_larger n t (2 ^ k - 1) (2 ^ k1 - 1) (v + j * 2 ^ k) = Some (es, v + 2 ^ k1) /\
    es ≡ₚ filter (fun e => hashFunction (ekey e) mod 2 ^ k = v /\ j <= hashFunction (ekey e) mod 2 ^ k1 / 2 ^ k) (entries t).
Proof.
  induction n as [|n IH]; intros j Hw He Hk Hv Hj Hn; pose proof He as (Hk1 & _ & _);
    assert (2 ^ k * 2 ^ (k1 - k) = 2 ^ k1) as Epow by (rewrite <- Z.pow_add_r by lia; f_equal; lia);
    assert (2 ^ (k1 - k) <= 2 ^ 30) as Hle by (apply Z.pow_le_mono_r; lia);
    assert (0 <= v + j * 2 ^ k < 2 ^ k1) as Hw1 by nia;
    destruct (bucket_class t k1 (v + j * 2 ^ k) Hw He Hw1) as (b & Hb & Hcl); cbn [scan_larger];
    (rewrite (land_ones_mod (v + j * 2 ^ k) k1 (2 ^ k1 - 1)) by (lia || (apply ones_pow; lia)));
    rewrite Z.mod_small by done; rewrite Hb; cbn [mbind option_bind];
    rewrite expand_next, expand_more by lia.
  all: pose proof (fun h => mod_class h k k1 v j Hk Hv) as Hclass.
  all: assert (forall h, 0 <= h mod 2 ^ k1 / 2 ^ k < 2 ^ (k1 - k)) as Hq
    by (intros h; pose proof (Z.mod_pos_bound h (2 ^ k1) ltac:(lia)); split;
        [apply Z.div_pos; lia|apply Z.div_lt_upper_bound; lia]).
  - assert (j + 1 = 2 ^ (k1 - k)) as -> by lia. rewrite Z.mod_same by lia. cbn [Z.eqb].
    exists b. split; [do 2 f_equal; lia|]. rewrite Hcl. apply Permutation_refl'. apply list_filter_iff.
    intros e. rewrite Hclass. specialize (Hq (hashFunction (ekey e))). lia.
  - destruct (Z.eq_dec (j + 1) (2 ^ (k1 - k))) as [Ej|Nj].
    + rewrite Ej, Z.mod_same by lia. cbn [Z.eqb].
      exists b. split; [do 2 f_equal; lia|]. rewrite Hcl. apply Permutation_refl'. apply list_filter_iff.
      intros e. rewrite Hclass. specialize (Hq (hashFunction (ekey e))). lia.
    + rewrite (Z.mod_small (j + 1)), (proj2 (Z.eqb_neq (j + 1) 0)) by lia.
      destruct (IH (j + 1)) as (es & -> & Hes); try done; [lia|lia|]. cbn [mbind option_bind].
      exists (b ++ es). split; [done|]. rewrite Hcl, Hes. symmetry. apply filter_split.
      * intros e _. rewrite Hclass. lia.
      * intros e _. rewrite Hclass. lia.
Qed.

(** One call gives exactly the entries of the cursor's class. *)
Lemma dictScan_spec d k v :
  wf d -> scan_exp d k -> dict_entries d <> [] -> 0 <= v < 2 ^ k ->
  exists es, dictScan d v = Some (es, next_cursor (2 ^ k - 1) v) /\
    es ≡ₚ filter (in_class k v) (dict_entries d).
Proof.
  intros W (Hk & Hsz) Hne Hv. unfold dictScan, dictSize. rewrite <- (dict_count_used d W).
  rewrite (proj2 (Z.eqb_neq _ _)) by (unfold dict_count; destruct (dict_entries d); [done|cbn; lia]).
  pose proof W as [[Hs0 Hu0] [Hs1 Hu1] Hok _ _]. unfold rehash_ok in Hok.
  assert (0 < size (ht0 d)) as H0 by (by apply wf_ht0_pos).
  assert (forall t k', ht_exp t k' -> size t = 2 ^ k -> k' = k) as Hinj.
  { intros t k' (Hk' & Hsz' & _) E. rewrite Hsz' in E. apply Z.pow_inj_r in E; lia. }
  assert (forall z, Z.land z (2 ^ k - 1) = z mod 2 ^ k) as Hland
    by (intros z; apply land_ones_mod; [lia|apply ones_pow; lia]).
  destruct (shape_exp _ Hs0 H0) as (k0 & He0).
  destruct (dictIsRehashing d) eqn:Hr; cbn [negb].
  - destruct Hok as (_ & H1 & _). destruct (shape_exp _ Hs1 H1) as (k1 & He1).
    (* the smaller table [t] and the larger one [u] *)
    assert (exists t u ku, (if size (ht0 d) >? size (ht1 d) then (ht1 d, ht0 d) else (ht0 d, ht1 d)) = (t, u) /\
      ht_wf t /\ ht_wf u /\ ht_exp t k /\ ht_exp u ku /\ k <= ku /\ entries t ++ entries u ≡ₚ dict_entries d)
      as (t & u & ku & -> & Ht & Hu & Het & Heu & Hle & Hp).
    { rewrite Z.gtb_ltb. pose proof He0 as (? & E0 & _). pose proof He1 as (? & E1 & _).
      destruct (Z.ltb_spec (size (ht1 d)) (size (ht0 d))) as [Hlt|Hge].
      - assert (k1 = k) as -> by (apply (Hinj (ht1 d)); [done|lia]). exists (ht1 d), (ht0 d), k0.
        split_and!; try done; [|by rewrite Permutation_app_comm].
        rewrite E0, E1 in Hlt. apply Z.pow_lt_mono_r_iff in Hlt; lia.
      - assert (k0 = k) as -> by (apply (Hinj (ht0 d)); [done|lia]). exists (ht0 d), (ht1 d), k1.
        split_and!; try done. rewrite E0, E1 in Hge. apply Z.pow_le_mono_r_iff in Hge; lia. }
    pose proof Het as (_ & _ & ->). pose proof Heu as (Hku & Hszu & ->). rewrite Hland, (Z.mod_small v (2 ^ k)) by lia.
    destruct (bucket_class t k v Ht Het Hv) as (b & -> & Hb). cbn [mbind option_bind].
    assert (2 ^ (ku - k) <= 2 ^ ku) as Hlen by (apply Z.pow_le_mono_r; lia).
    destruct (scan_larger_spec (length (table u)) u k ku v 0) as (es & Hscan & Hes); try done; try lia.
    { destruct Hu as [(Hlu & _) _]. lia. }
    rewrite Z.mul_0_l, Z.add_0_r in Hscan. rewrite Hscan. cbn [mbind option_bind].
    exists (b ++ es). split.
    + f_equal. f_equal. unfold next_cursor. do 3 f_equal.
      assert (2 ^ ku = 2 ^ (ku - k) * 2 ^ k) as E by (rewrite <- Z.pow_add_r by lia; f_equal; lia).
      rewrite E, (Z.add_comm v), <- lor_shiftl_add by lia. rewrite (Z.lor_comm _ v), <- Z.lor_assoc. f_equal.
      rewrite Z.shiftl_mul_pow2, <- E by lia. rewrite ones_pow by lia. apply Z.bits_inj'. intros i Hi.
      rewrite !Z.lor_spec, Z.pow2_bits_eqb by lia. destruct (Z.eqb_spec ku i) as [<-|]; [|done].
      unfold wrapu. rewrite Z.mod_pow2_bits_low, Z.lnot_spec, Z.testbit_ones_nonneg by lia.
      by rewrite (proj2 (Z.ltb_ge ku k)) by lia.
    + rewrite <- Hp, filter_app, Hb, Hes. f_equiv. apply Permutation_refl'. apply list_filter_iff.
      intros e. assert (0 <= hashFunction (ekey e) mod 2 ^ ku / 2 ^ k).
      { pose proof (Z.mod_pos_bound (hashFunction (ekey e)) (2 ^ ku) ltac:(lia)). apply Z.div_pos; lia. }
      lia.
  - assert (k0 = k) as -> by (apply (Hinj (ht0 d)); [done|lia]). pose proof He0 as (_ & _ & ->).
    rewrite Hland, (Z.mod_small v (2 ^ k)) by lia.
    destruct (bucket_class (ht0 d) k v (conj Hs0 Hu0) He0 Hv) as (b & -> & Hb). cbn [mbind option_bind].
    exists b. unfold next_cursor. split; [reflexivity|]. unfold dict_entries. by rewrite (entries_null _ Hok), app_nil_r.
Qed.

(** ** Whole scans *)

(** A scan from a cursor, one state of the dictionary per call; it stops when
    the cursor comes back to zero. *)
Fixpoint scan_all (ds : list dict) (v : Z) : option (list entry * Z) :=
  match ds with
  | [] => Some ([], v)
  | d :: ds =>
    '(es, v) ← dictScan d v;
    if v =? 0 then Some (es, 0)
    else '(es', v) ← scan_all ds v; Some (es ++ es', v)
  end.

(** The number of buckets of the smaller table. *)
Definition scan_size (d : dict) : Z :=
  if dictIsRehashing d then Z.min (size (ht0 d)) (size (ht1 d)) else size (ht0 d).

Definition has_key (key : K) (es : list entry) : Prop :=
  exists e, e ∈ es /\ keyCompare key (ekey e) = true.

Lemma scan_exp_exists d : wf d -> dict_entries d <> [] -> exists k, scan_exp d k /\ scan_size d = 2 ^ k.
Proof.
  intros W Hne. pose proof W as [[Hs0 _] [Hs1 _] _ _ _]. pose proof (wf_ht0_pos d W Hne) as H0.
  destruct (shape_exp _ Hs0 H0) as (k0 & Hk0 & E0 & _). unfold scan_exp, scan_size.
  destruct (dictIsRehashing d) eqn:Hr; [|by exists k0].
  destruct (wf_not_null d W Hr) as [_ H1]. destruct (shape_exp _ Hs1 H1) as (k1 & Hk1 & E1 & _).
  destruct (Z.min_spec (size (ht0 d)) (size (ht1 d))) as [[_ E]|[_ E]]; rewrite E; [by exists k0|by exists k1].
Qed.

Definition h64 (key : K) : Z := hashFunction key mod 2 ^ 64.

Lemma h64_range key : is_u64 (h64 key).
Proof. apply wrapu_range. lia. Qed.

Lemma h64_class key k v :
  0 <= k <= 64 -> 0 <= v < 2 ^ k ->
  hashFunction key mod 2 ^ k = v <-> rev v <= rev (h64 key) < rev v + 2 ^ (64 - k).
Proof.
  intros Hk Hv. rewrite <- (cursor_interval k v (h64 key) Hk Hv (h64_range key)).
  unfold h64. by rewrite mod_mod_pow by lia.
Qed.

Lemma scan_all_covers key ds : forall v,
  Forall wf ds -> Forall (fun d => has_key key (dict_entries d)) ds ->
  Sorted (fun d d' => scan_size d <= scan_size d') ds ->
  match ds with [] => True | d :: _ => 0 <= v < scan_size d end ->
  ds <> [] -> rev v <= rev (h64 key) ->
  forall es, scan_all ds v = Some (es, 0) -> has_key key es.
Proof.
  induction ds as [|d ds IH]; intros v Hwf Hkey Hsort Hv Hne Hrev es Hscan; [done|].
  apply Forall_cons in Hwf as [W Hwf]. apply Forall_cons in Hkey as [Hd Hkey].
  apply Sorted_inv in Hsort as [Hsort Hhd]. destruct Hd as (e & He & Hcmp).
  assert (dict_entries d <> []) as Hnil by (intros E; rewrite E in He; by apply elem_of_nil in He).
  destruct (scan_exp_exists d W Hnil) as (k & Hk & Hsz). rewrite Hsz in Hv.
  destruct (dictScan_spec d k v W Hk Hnil Hv) as (es1 & Hone & Hes1). destruct Hk as [Hk _].
  cbn [scan_all] in Hscan. rewrite Hone in Hscan. cbn [mbind option_bind] in Hscan.
  pose proof (h64_class key k v ltac:(lia) Hv) as Hcl.
  pose proof (next_cursor_spec k v ltac:(lia) Hv) as Hnext. cbn zeta in Hnext.
  destruct (decide (hashFunction key mod 2 ^ k = v)) as [Hin|Hout].
  - assert (has_key key es1) as Hfound.
    { exists e. split; [|done]. rewrite Hes1. apply list_elem_of_filter. split; [|done].
      by rewrite <- (compare_hash _ _ Hcmp). }
    destruct (_ =? 0); [by injection Hscan as <-|].
    destruct (scan_all ds _) as [[es2 v2]|]; [|done]. injection Hscan as <- _.
    destruct Hfound as (f & Hf & Hcf). exists f. split; [apply elem_of_app; by left|done].
  - assert (rev v + 2 ^ (64 - k) <= rev (h64 key)) as Hge by (rewrite Hcl in Hout; lia).
    pose proof (rev_range _ (h64_range key)) as [_ Hlt].
    destruct Hnext as [Hv' [(_ & Hr & Hne0)|(E & _)]]; [|lia].
    rewrite (proj2 (Z.eqb_neq _ _)) in Hscan by done.
    destruct (scan_all ds _) as [[es2 v2]|] eqn:Hrest; [|done]. injection Hscan as <- ->.
    destruct ds as [|d2 ds]; [cbn in Hrest; congruence|].
    assert (has_key key es2) as (f & Hf & Hcf).
    { apply (IH (next_cursor (2 ^ k - 1) v)); try done; [|lia].
      apply HdRel_inv in Hhd. lia. }
    exists f. split; [apply elem_of_app; by right|done].
Qed.

Lemma scan_static_from d k n : forall v,
  wf d -> scan_exp d k -> dict_entries d <> [] -> 0 <= v < 2 ^ k ->
  rev v + Z.of_nat n * 2 ^ (64 - k) = 2 ^ 64 ->
  exists es, scan_all (replicate n d) v = Some (es, 0) /\
    es ≡ₚ filter (fun e => rev v <= rev (h64 (ekey e))) (dict_entries d).
Proof.
  induction n as [|n IH]; intros v W Hk Hne Hv Hn; pose proof Hk as [Hk30 _].
  { pose proof (rev_range v (pow2_u64 k v ltac:(lia) Hv)) as [_ ?]. lia. }
  destruct (dictScan_spec d k v W Hk Hne Hv) as (es1 & Hone & Hes1).
  cbn [replicate scan_all]. rewrite Hone. cbn [mbind option_bind].
  pose proof (next_cursor_spec k v ltac:(lia) Hv) as Hnext. cbn zeta in Hnext.
  assert (0 < 2 ^ (64 - k)) as Hpos by lia.
  destruct Hnext as [Hv' [(Hlt & Hr & Hne0)|(E & ->)]].
  - rewrite (proj2 (Z.eqb_neq _ _)) by done.
    destruct (IH (next_cursor (2 ^ k - 1) v) W Hk Hne Hv') as (es2 & -> & Hes2); [lia|]. cbn [mbind option_bind].
    exists (es1 ++ es2). split; [done|]. rewrite Hes1, Hes2. symmetry. apply filter_split.
    + intros e _. rewrite (h64_class (ekey e) k v), Hr by (done || lia). lia.
    + intros e _. rewrite (h64_class (ekey e) k v), Hr by (done || lia). lia.
  - change (0 =? 0) with true. cbn iota. exists es1. split; [done|]. rewrite Hes1. apply Permutation_refl'.
    apply list_filter_iff. intros e. rewrite (h64_class (ekey e) k v), E by (done || lia).
    pose proof (rev_range _ (h64_range (ekey e))) as [_ ?]. lia.
Qed.

Lemma scan_static d :
  wf d -> dict_entries d <> [] ->
  exists es, scan_all (replicate (Z.to_nat (scan_size d)) d) 0 = Some (es, 0) /\ es ≡ₚ dict_entries d.
Proof.
  intros W Hne. destruct (scan_exp_exists d W Hne) as (k & Hk & ->). pose proof Hk as [Hk30 _].
  assert (0 < 2 ^ k) by lia.
  destruct (scan_static_from d k (Z.to_nat (2 ^ k)) 0 W Hk Hne) as (es & Hs & Hes); [lia| |].
  { rewrite Z2Nat.id by lia. change (rev 0) with 0. rewrite Z.add_0_l, <- Z.pow_add_r by lia. f_equal. lia. }
  exists es. split; [done|]. rewrite Hes. apply Permutation_refl', filter_all. apply Forall_forall. intros e _.
  change (rev 0) with 0. by destruct (rev_range _ (h64_range (ekey e))).
Qed.

End Scan.


(** ** Properties *)

#[local] Existing Instance sample_type.
#[local] Existing Instance sample_laws.

(** C19. A scan misses nothing while the dictionary grows: whatever happens
    between the calls (additions, deletions, any amount of rehashing, tables
    replaced by larger ones), as long as the smaller of the tables in use never
    gets smaller, a key that is there during every call of a scan that ran from
    zero back to zero was returned by some call. *)
Theorem dictScan_covers {K V} {T : dictType K V} {L : dictTypeLaws K V} key ds es :
  Forall wf ds -> ds <> [] -> Sorted (fun d d' => scan_size d <= scan_size d') ds ->
  Forall (fun d => has_key key (dict_entries d)) ds ->
  scan_all ds 0 = Some (es, 0) -> has_key key es.
Proof.
  intros W Hne Hs Hk. apply (scan_all_covers key ds 0); try done.
  - destruct ds as [|d ds]; [done|]. apply Forall_cons in W as [W _]. apply Forall_cons in Hk as [(e & He & _) _].
    assert (dict_entries d <> []) as Hd by (intros E; rewrite E in He; by apply elem_of_nil in He).
    destruct (scan_exp_exists d W Hd) as (k & [Hk' _] & ->). lia.
  - change (rev 0) with 0. by destruct (rev_range _ (h64_range key)).
Qed.

(** A scan of a dictionary that does not change ends after as many calls
    as the smaller table has buckets, and returns every entry exactly once,
    whether or not a rehashing is under way. *)
Theorem dictScan_exactly_once {K V} {T : dictType K V} {L : dictTypeLaws K V} d :
  wf d -> dict_entries d <> [] ->
  exists es, scan_all (replicate (Z.to_nat (scan_size d)) d) 0 = Some (es, 0) /\ es ≡ₚ dict_entries d.
Proof. apply scan_static. Qed.

Lemma dictScan_exactly_once_witness :
  wf sample_dict /\ dictIsRehashing sample_dict = true /\
  exists es, scan_all (replicate (Z.to_nat (scan_size sample_dict)) sample_dict) 0 = Some (es, 0) /\
    es ≡ₚ dict_entries sample_dict.
Proof.
  destruct sample_rep as (l & [W _] & Hr). split; [exact W|]. split; [exact Hr|].
  apply (dictScan_exactly_once sample_dict W). intros E. apply (f_equal length) in E. vm_compute in E. discriminate E.
Defined.

(** A growing history: a call before the rehashing starts, the others in the
    middle of it. *)
Definition growing_scan : list (dict sdskey Z) :=
  match run_ops 0 next_address true dictCreate (take 5 sample_ops) with
  | Some (d, _) => d :: replicate 3 sample_dict
  | None => []
  end.

Lemma growing_scan_returns : exists es, scan_all growing_scan 0 = Some (es, 0).
Proof.
  assert (snd <$> scan_all growing_scan 0 = Some 0) as E by (vm_compute; reflexivity).
  destruct (scan_all growing_scan 0) as [[es c]|]; [|discriminate E]. injection E as ->. by exists es.
Qed.

(** Membership of a key, by the comparison the dictionary uses. *)
Lemma has_key_existsb (key : sdskey) (es : list (dictEntry sdskey Z)) :
  existsb (fun e => keyCompare key (ekey e)) es = true -> has_key key es.
Proof.
  intros H. apply existsb_exists in H as (e & He & Hc). exists e. split; [by apply list_elem_of_In|exact Hc].
Qed.

Lemma has_key_forallb (key : sdskey) (ds : list (dict sdskey Z)) :
  forallb (fun d => existsb (fun e => keyCompare key (ekey e)) (dict_entries d)) ds = true ->
  Forall (fun d => has_key key (dict_entries d)) ds.
Proof.
  induction ds as [|d ds IH]; intros H; [constructor|]. cbn [forallb] in H. apply andb_prop in H as [Hd H].
  constructor; [exact (has_key_existsb _ _ Hd)|exact (IH H)].
Qed.

Lemma same_size_sorted (n : Z) (ds : list (dict sdskey Z)) :
  forallb (fun d => scan_size d =? n) ds = true -> Sorted (fun d d' => scan_size d <= scan_size d') ds.
Proof.
  induction ds as [|d ds IH]; intros H; [constructor|]. cbn [forallb] in H. apply andb_prop in H as [Hd H].
  constructor; [by apply IH|]. destruct ds as [|d' ds]; constructor. cbn [forallb] in H.
  apply andb_prop in H as [Hd' _]. lia.
Qed.

Lemma dictScan_covers_witness :
  exists es, scan_all growing_scan 0 = Some (es, 0) /\ has_key (key_of "a" eq_refl) es.
Proof.
  destruct (run_ops_rep 0 next_address true (take 5 sample_ops) (dictCreate (K := sdskey) (V := Z)) [])
    as (d & E & [W _]); [apply next_address_fresh|by repeat constructor|apply dictCreate_rep|by vm_compute|].
  destruct sample_rep as (l & [W' _] & _). destruct growing_scan_returns as (es & Hes).
  exists es. split; [exact Hes|].
  assert (growing_scan = d :: replicate 3 sample_dict) as Eg by (unfold growing_scan; rewrite E; reflexivity).
  apply (dictScan_covers (key_of "a" eq_refl) growing_scan es).
  - rewrite Eg. apply Forall_cons. split; [exact W|]. by apply Forall_replicate.
  - rewrite Eg. discriminate.
  - apply (same_size_sorted 4). vm_compute. reflexivity.
  - apply has_key_forallb. vm_compute. reflexivity.
  - exact Hes.
Defined.

(** ** Shrinking tables *)

#[local] Instance mod_type : dictType Z unit := DictType _ _ (fun k => k) id id Z.eqb.

(** Sixteen buckets and one key, of hash four, whose table starts shrinking to
    four buckets after the first call. *)
Definition shrink_before : option (dict Z unit) :=
  '(d, _) ← dictExpand dictCreate 16; '(d, _) ← dictAdd tt true 1 d 4 tt; Some d.

Definition shrink_after : option (dict Z unit) :=
  d ← shrink_before; '(d, _) ← dictResize true d; Some d.

(** C28. The promise that every element present from the start to the end of a
    scan is returned does not hold when the table shrinks by more than half:
    the call expands its cursor in the larger table by counting up from it,
    which leaves out the buckets below.  Here the key is in the dictionary
    during all five calls, and none of them returns it. *)
Theorem dictScan_shrink_misses :
  exists d1 d2, shrink_before = Some d1 /\ shrink_after = Some d2 /\
    Forall (fun d => dict_entries d = [DictEntry 1 4 tt]) [d1; d2] /\
    scan_all [d1; d2; d2; d2; d2] 0 = Some ([], 0).
Proof.
  eexists _, _. split; [by vm_compute|]. split; [by vm_compute|].
  split; [|by vm_compute]. apply Forall_cons. split; [by vm_compute|]. apply Forall_cons. split; [by vm_compute|constructor].
Qed.


End DictScan.
