(* ===== verification/DictRandom.v ===== *)
(** * Random keys and samples (src/dict.c)

    [dictGetRandomKey] and [dictGetSomeKeys] against the numbers [random]
    returns: they never read outside of the tables, and what they return are
    entries of the dictionary. *)

From S2P Require Import Prelude Dict DictTypes DictSpec.
Import Dict DictTypes DictSpec.

Module DictRandom.

Section Random.
Context {K V : Type} {T : dictType K V} {L : dictTypeLaws K V}.

Abbreviation entry := (dictEntry K V).
Abbreviation ht := (dictht K V).
Abbreviation dict := (dict K V).
Implicit Types (t : ht) (d : dict) (e f : entry) (es he : list entry) (s : some_state (K := K) (V := V)).

Lemma bucket_in_range t i : ht_wf t -> 0 <= i < size t -> exists b, bucket t i = Some b /\ forall e, e ∈ b -> e ∈ entries t.
Proof.
  intros [(Hsz & _) _] Hi. destruct (table t !! Z.to_nat i) as [b|] eqn:E; [|apply lookup_ge_None in E; lia].
  exists b. split; [apply bucket_Some; split; [lia|done]|]. intros e He. apply list_elem_of_In, in_concat.
  exists b. split; apply list_elem_of_In; [by eapply list_elem_of_lookup_2|done].
Qed.

Lemma mask_index t r : ht_wf t -> 0 < size t -> 0 <= Z.land r (sizemask t) < size t.
Proof.
  intros [(_ & _ & [->|(n & Hn & Hsz & Hm)] & _) _] Hpos; [done|].
  rewrite (land_ones_mod r n) by (rewrite ?Hm, ?Z.ones_equiv; lia). rewrite Hsz. apply Z.mod_pos_bound. lia.
Qed.

(** ** One random key *)

Lemma random_bucket_spec d r : wf d -> dict_entries d <> [] -> 0 <= r ->
  exists b, random_bucket d r = Some b /\ forall e, e ∈ b -> e ∈ dict_entries d.
Proof.
  intros W Hne Hr. pose proof (wf_ht0_pos d W Hne) as H0. pose proof W as [W0 W1 Hok _ _].
  unfold random_bucket, rehash_ok in *. destruct (dictIsRehashing d) eqn:Hre.
  - destruct Hok as (_ & Hs1 & Hidx & _). pose proof W0 as [(_ & L0 & _) _]. pose proof W1 as [(_ & L1 & _) _].
    pose proof (Z.mod_pos_bound r (size (ht0 d) + size (ht1 d) - rehashidx d) ltac:(lia)) as Hm.
    set (h := rehashidx d + r mod _) in *. rewrite (wrapu_small 32 h) by (unfold is_unsigned; lia).
    destruct (Z.geb_spec h (size (ht0 d))).
    + destruct (bucket_in_range (ht1 d) (h - size (ht0 d))) as (b & -> & Hb); [done|lia|].
      exists b. split; [done|]. intros e He. apply elem_of_app. right. by apply Hb.
    + destruct (bucket_in_range (ht0 d) h) as (b & -> & Hb); [done|lia|].
      exists b. split; [done|]. intros e He. apply elem_of_app. left. by apply Hb.
  - destruct (bucket_in_range (ht0 d) (Z.land r (sizemask (ht0 d)))) as (b & -> & Hb); [done|by apply mask_index|].
    exists b. split; [done|]. intros e He. apply elem_of_app. left. by apply Hb.
Qed.

(** The numbers drawn that hit an empty bucket. *)
Definition misses (d : dict) (r : Z) : Prop := random_bucket d r = Some [].

Lemma random_loop_spec rs d : wf d -> dict_entries d <> [] -> Forall (fun r => 0 <= r) rs ->
  (exists rs1 r rs2 e b, rs = rs1 ++ r :: rs2 /\ Forall (misses d) rs1 /\
     random_loop rs d = Some (e :: b, rs2) /\ forall f, f ∈ e :: b -> f ∈ dict_entries d) \/
  (Forall (misses d) rs /\ random_loop rs d = None).
Proof.
  intros W Hne. induction rs as [|r rs IH]; intros Hr; [right; by split; [constructor|]|].
  apply Forall_cons in Hr as [Hr Hrs]. destruct (random_bucket_spec d r W Hne Hr) as (b & Hb & Hin).
  cbn [random_loop]. rewrite Hb. cbn [mbind option_bind]. destruct b as [|e b].
  - destruct (IH Hrs) as [(rs1 & r' & rs2 & e & b & -> & Hm & Hl & Hb')|[Hm Hl]]; [left|right].
    + exists (r :: rs1), r', rs2, e, b. split; [done|]. split; [by constructor|]. by split.
    + split; [by constructor|done].
  - left. exists [], r, rs, e, b. by split; [|split; [constructor|]].
Qed.

(** A random key is a key of the dictionary; the search goes on exactly while
    the numbers drawn hit empty buckets. *)
Lemma dictGetRandomKey_spec rs d : wf d -> Forall (fun r => 0 <= r) rs -> dict_entries d <> [] ->
  exists d', rehash_step_if d = Some d' /\ same d d' /\
    ((exists rs1 r r' rs2 e, rs = rs1 ++ r :: r' :: rs2 /\ Forall (misses d') rs1 /\ e ∈ dict_entries d' /\
        dictGetRandomKey rs d = Some (d', Some (eaddr e))) \/
     (exists rs1 rs2, rs = rs1 ++ rs2 /\ (length rs2 <= 1)%nat /\ Forall (misses d') rs1 /\
        dictGetRandomKey rs d = None)).
Proof.
  intros W Hrs Hne. destruct (rehash_step_spec d W) as (d' & Hd & Hs). exists d'. split; [done|]. split; [done|].
  unfold dictGetRandomKey.
  assert (dictSize d <> 0) as Hsz.
  { unfold dictSize. rewrite <- dict_count_used by done. unfold dict_count. destruct (dict_entries d); [done|cbn [length]; lia]. }
  rewrite (proj2 (Z.eqb_neq _ _) Hsz), Hd. cbn [mbind option_bind].
  assert (wf d' /\ dict_entries d' <> []) as [W' Hne'].
  { pose proof (same_count d d' Hs) as Hc. unfold dict_count in Hc. destruct Hs. split; [done|].
    intros E. rewrite E in Hc. destruct (dict_entries d); [done|cbn [length] in Hc; lia]. }
  destruct (random_loop_spec rs d' W' Hne' Hrs) as [(rs1 & r & rs2 & e & b & -> & Hm & -> & Hin)|[Hm ->]]; cbn [mbind option_bind].
  - destruct rs2 as [|r' rs2]; [right; by exists rs1, [r]|]. left.
    apply Forall_app in Hrs as [_ [_ [Hr' _]%Forall_cons]%Forall_cons].
    pose proof (Z.mod_pos_bound r' (Z.of_nat (length (e :: b))) ltac:(cbn [length]; lia)) as Hlt.
    destruct ((e :: b) !! Z.to_nat (r' mod Z.of_nat (length (e :: b)))) as [f|] eqn:Hf; [|apply lookup_ge_None in Hf; lia].
    cbn [mbind option_bind]. exists rs1, r, r', rs2, f. split; [done|]. split; [done|]. split; [|done].
    apply Hin. by eapply list_elem_of_lookup_2.
  - right. exists rs, []. rewrite app_nil_r. split_and!; [done|cbn [length]; lia|done|done].
Qed.

(** ** Samples *)

Lemma store_bucket_spec count he : forall stored,
  Z.of_nat (length stored) < count ->
  exists taken full, store_bucket count he stored = (stored ++ taken, full) /\ (forall e, e ∈ taken -> e ∈ he) /\
    (if full : bool then Z.of_nat (length (stored ++ taken)) = count
     else taken = he /\ Z.of_nat (length (stored ++ taken)) < count).
Proof.
  induction he as [|e he IH]; intros stored Hlt; cbn [store_bucket].
  - exists [], false. by rewrite app_nil_r.
  - destruct (Z.eqb_spec (Z.of_nat (length (stored ++ [e]))) count) as [E|Hne].
    + exists [e], true. split; [done|]. split; [|done]. intros f Hf%list_elem_of_singleton. subst. by left.
    + rewrite length_app in Hne. cbn [length] in Hne.
      destruct (IH (stored ++ [e])) as (taken & full & -> & Hin & Hfull); [rewrite length_app; cbn [length]; lia|].
      rewrite <- app_assoc in Hfull |- *. exists (e :: taken), full. split; [done|]. split.
      * intros f [->|Hf]%elem_of_cons; [by left|right; by apply Hin].
      * destruct full; [done|]. destruct Hfull as [-> Hl]. by split.
Qed.

(** What holds of the loop's variables: an index that is not negative, as many
    random numbers left as visits may need, entries of the dictionary, fewer
    than [count]. *)
Definition some_ok (d : dict) (count : Z) (left : nat) (s : some_state) : Prop :=
  0 <= si s /\ (left <= length (srandom s))%nat /\ Forall (fun r => 0 <= r) (srandom s) /\
  (forall e, e ∈ sstored s -> e ∈ dict_entries d) /\ Z.of_nat (length (sstored s)) < count.

Lemma table_wf d second : wf d -> ht_wf (table_of d second).
Proof. intros []. by destruct second. Qed.

Lemma table_entries d second e : e ∈ entries (table_of d second) -> e ∈ dict_entries d.
Proof. intros H. apply elem_of_app. destruct second; [by right|by left]. Qed.

Lemma some_visit_spec tables mask count d second left s :
  wf d -> 0 <= mask -> (tables = 2 -> dictIsRehashing d = true) -> some_ok d count (S left) s ->
  exists s' full, some_visit tables mask count d second s = Some (s', full) /\
    (if full : bool then (forall e, e ∈ sstored s' -> e ∈ dict_entries d) /\ Z.of_nat (length (sstored s')) = count
     else some_ok d count left s').
Proof.
  intros W Hm Ht (Hi & Hl & Hr & Hin & Hlt). unfold some_visit.
  destruct ((tables =? 2) && negb second && (si s <? u64 (rehashidx d))) eqn:Hskip.
  { eexists _, false. split; [done|]. unfold some_ok. cbn [si srandom sstored].
    split; [|split; [lia|by split_and!]]. destruct (_ >=? _); [|done].
    assert (dictIsRehashing d = true) as Hre by (apply Ht; lia).
    pose proof (wf_rehash _ W) as Hok. unfold rehash_ok in Hok. rewrite Hre in Hok. lia. }
  destruct (Z.geb_spec (si s) (size (table_of d second))) as [|Hrange].
  { exists s, false. split; [done|]. unfold some_ok. by split_and!; [|lia| | |]. }
  destruct (bucket_in_range _ (si s) (table_wf d second W)) as (he & -> & Hhe); [lia|].
  cbn [mbind option_bind]. destruct he as [|e he].
  - destruct ((_ >=? 5) && _).
    + destruct (srandom s) as [|r rs] eqn:Er; [cbn [length] in Hl; lia|]. apply Forall_cons in Hr as [Hr0 Hr].
      eexists _, false. split; [done|]. unfold some_ok. cbn [si srandom sstored length] in *.
      split; [by apply Z.land_nonneg; left|]. split; [lia|]. by split_and!.
    + eexists _, false. split; [done|]. unfold some_ok. cbn [si srandom sstored]. by split_and!; [|lia| | |].
  - destruct (store_bucket_spec count (e :: he) (sstored s) Hlt) as (taken & full & -> & Htk & Hfull).
    assert (forall f, f ∈ sstored s ++ taken -> f ∈ dict_entries d) as Hall.
    { intros f [Hf|Hf]%elem_of_app; [by apply Hin|]. by eapply table_entries, Hhe, Htk. }
    eexists _, full. split; [done|]. destruct full; cbn [sstored]; [by split|].
    unfold some_ok. cbn [si srandom sstored]. destruct Hfull as [_ Hfull]. by split_and!; [|lia| | |].
Qed.

Lemma some_loop_spec n tables mask count d : forall s,
  wf d -> 0 <= mask -> (tables = 2 -> dictIsRehashing d = true) -> some_ok d count (2 * n) s ->
  exists es, some_loop n tables mask count d s = Some es /\ (forall e, e ∈ es -> e ∈ dict_entries d) /\
    Z.of_nat (length es) <= count.
Proof.
  induction n as [|n IH]; intros s W Hm Ht Hok; pose proof Hok as (_ & _ & _ & Hin & Hlt); cbn [some_loop].
  { exists (sstored s). by split_and!; [| |lia]. }
  rewrite (proj2 (Z.ltb_lt _ _) Hlt).
  destruct (some_visit_spec tables mask count d false (S (2 * n)) s W Hm Ht) as (s1 & full1 & -> & H1).
  { by replace (S (S (2 * n))) with (2 * S n)%nat by lia. }
  cbn [mbind option_bind]. destruct full1; [destruct H1; by exists (sstored s1); split_and!; [| |lia]|].
  assert (exists s2 full2, (if tables =? 2 then some_visit tables mask count d true s1 else Some (s1, false)) = Some (s2, full2) /\
    (if full2 : bool then (forall e, e ∈ sstored s2 -> e ∈ dict_entries d) /\ Z.of_nat (length (sstored s2)) = count
     else some_ok d count (2 * n) s2)) as (s2 & full2 & -> & H2).
  { destruct (tables =? 2); [by apply some_visit_spec|]. exists s1, false. split; [done|].
    destruct H1 as (? & ? & ? & ? & ?). unfold some_ok. by split_and!; [|lia| | |]. }
  cbn [mbind option_bind]. destruct full2; [destruct H2; by exists (sstored s2); split_and!; [| |lia]|].
  apply IH; [done|done|done|]. destruct H2 as (? & ? & ? & ? & ?). unfold some_ok. cbn [si srandom sstored].
  split; [apply Z.land_nonneg; lia|]. by split_and!.
Qed.

Lemma some_rehash_spec n : forall d, wf d -> exists d', some_rehash n d = Some d' /\ same d d'.
Proof.
  induction n as [|n IH]; intros d W; cbn [some_rehash]; [exists d; by split; [|apply same_refl]|].
  destruct (dictIsRehashing d) eqn:Hr; [|exists d; by split; [|apply same_refl]].
  destruct (rehash_step_spec d W) as (d1 & H1 & Hs). unfold rehash_step_if in H1. rewrite Hr in H1. rewrite H1.
  cbn [mbind option_bind]. destruct (IH d1) as (d2 & -> & Hs2); [by destruct Hs|].
  exists d2. split; [done|]. by eapply same_trans.
Qed.

Lemma mask_nonneg t : ht_wf t -> 0 <= sizemask t.
Proof. intros [(_ & _ & [->|(n & Hn & _ & ->)] & _) _]; [done|]. assert (0 < 2 ^ n) by lia. lia. Qed.

(** A sample: at most [count] entries, all of the dictionary, after at most
    [10 * count] steps, whatever numbers are drawn. *)
Lemma dictGetSomeKeys_spec rs d count :
  wf d -> 0 <= count < 2 ^ 28 -> Forall (fun r => 0 <= r) rs -> 20 * count < Z.of_nat (length rs) ->
  exists d' es, dictGetSomeKeys rs d count = Some (d', es) /\ same d d' /\
    (forall e, e ∈ es -> e ∈ dict_entries d') /\ Z.of_nat (length es) <= Z.min count (dict_count d).
Proof.
  intros W Hc Hr Hl. unfold dictGetSomeKeys, dictSize. rewrite <- dict_count_used by done.
  assert (0 <= dict_count d) by (unfold dict_count; lia).
  set (n := if dict_count d <? count then dict_count d else count).
  assert (n = Z.min count (dict_count d)) as En by (unfold n; destruct (Z.ltb_spec (dict_count d) count); lia).
  destruct (some_rehash_spec (Z.to_nat n) d W) as (d' & -> & Hs). cbn [mbind option_bind].
  assert (wf d') as W' by by destruct Hs. destruct rs as [|r rs]; [cbn [length] in Hl; lia|].
  apply Forall_cons in Hr as [Hr0 Hr]. cbn [length] in Hl. set (tables := if dictIsRehashing d' then 2 else 1).
  set (mask := if (tables >? 1) && (sizemask (ht0 d') <? sizemask (ht1 d')) then sizemask (ht1 d') else sizemask (ht0 d')).
  assert (0 <= mask) as Hm by (unfold mask; destruct (_ && _); apply mask_nonneg; by destruct W').
  assert (tables = 2 -> dictIsRehashing d' = true) as Ht by (unfold tables; by destruct (dictIsRehashing d')).
  rewrite (wrapu_small 32 (n * 10)) by (unfold is_unsigned; lia).
  destruct (decide (n = 0)) as [E0|Hn0].
  { rewrite E0. cbn. exists d', []. split_and!; [done|done|by intros e ?%elem_of_nil|cbn [length]; lia]. }
  destruct (some_loop_spec (Z.to_nat (n * 10)) tables mask n d' (SomeState (Z.land r mask) 0 [] rs) W' Hm Ht)
    as (es & -> & Hin & Hlen).
  { unfold some_ok. cbn [si srandom sstored length]. split; [by apply Z.land_nonneg; left|].
    split; [lia|]. split_and!; [done|by intros e ?%elem_of_nil|lia]. }
  cbn [mbind option_bind]. exists d', es. split_and!; [done|done|done|lia].
Qed.

End Random.

End DictRandom.
