(* ===== verification/Adlist.v ===== *)
(** * Generic doubly linked lists (src/adlist.c, src/adlist.h)

    The nodes live in a heap, a finite map from addresses to nodes, and are
    linked by their addresses; every access through a pointer is checked, so
    that [None] is an access to memory that is not a node.  The structure
    [list] is a record the operations take and return.

    An allocation is the address [zmalloc] returns, or nothing when it fails;
    what a [free] method is called on is the last component of the results. *)

From S2P Require Import Prelude.

Module Adlist.

Abbreviation addr := Z (only parsing).

Record listNode (V : Type) := ListNode {
  prev : option addr; next : option addr; value : V }.
#[global] Arguments ListNode {V} _ _ _.
#[global] Arguments prev {V} _.
#[global] Arguments next {V} _.
#[global] Arguments value {V} _.

(** The methods are optional; of [free] it matters that it is called. *)
Record dlist (V : Type) := MkList {
  head : option addr;
  tail : option addr;
  dup : option (V -> option V);
  free : bool;
  match_ : option (V -> V -> bool);
  len : Z
}.
#[global] Arguments MkList {V} _ _ _ _ _ _.
#[global] Arguments head {V} _.
#[global] Arguments tail {V} _.
#[global] Arguments dup {V} _.
#[global] Arguments free {V} _.
#[global] Arguments match_ {V} _.
#[global] Arguments len {V} _.

Record listIter := ListIter { inext : option addr; direction : Z }.

Definition AL_START_HEAD : Z := 0.
Definition AL_START_TAIL : Z := 1.

Section Ops.
Context {V : Type} `{!EqDecision V}.

Abbreviation heap := (gmap addr (listNode V)).
Abbreviation dlist := (dlist V).

(** ** Fields *)

Definition set_prev (h : heap) (a : addr) (p : option addr) : option heap :=
  n ← h !! a; Some (<[a := ListNode p (next n) (value n)]> h).

Definition set_next (h : heap) (a : addr) (p : option addr) : option heap :=
  n ← h !! a; Some (<[a := ListNode (prev n) p (value n)]> h).

Definition set_head (l : dlist) (p : option addr) : dlist :=
  MkList p (tail l) (dup l) (free l) (match_ l) (len l).
Definition set_tail (l : dlist) (p : option addr) : dlist :=
  MkList (head l) p (dup l) (free l) (match_ l) (len l).
Definition set_len (l : dlist) (n : Z) : dlist :=
  MkList (head l) (tail l) (dup l) (free l) (match_ l) n.

(** ** Construction *)

Definition listCreate : dlist := MkList None None None false None 0.

(** The loop of [listRelease]: [len] nodes are freed from the head. *)
Fixpoint release_loop (n : nat) (h : heap) (free : bool) (current : option addr) : option (heap * list V) :=
  match n with
  | O => Some (h, [])
  | S n =>
    a ← current;
    c ← h !! a;
    '(h, freed) ← release_loop n (delete a h) free (next c);
    Some (h, (if free then [value c] else []) ++ freed)
  end.

Definition listRelease (h : heap) (l : dlist) : option (heap * list V) :=
  release_loop (Z.to_nat (len l)) h (free l) (head l).

(** The boolean says whether the list, and not null, is returned. *)
Definition listAddNodeHead (alloc : option addr) (h : heap) (l : dlist) (v : V) : option (heap * dlist * bool) :=
  match alloc with
  | None => Some (h, l, false)
  | Some node =>
    if len l =? 0 then
      let h := <[node := ListNode None None v]> h in
      Some (h, set_len (set_head (set_tail l (Some node)) (Some node)) (u64 (len l + 1)), true)
    else
      let h := <[node := ListNode None (head l) v]> h in
      a ← head l;
      h ← set_prev h a (Some node);
      Some (h, set_len (set_head l (Some node)) (u64 (len l + 1)), true)
  end.

Definition listAddNodeTail (alloc : option addr) (h : heap) (l : dlist) (v : V) : option (heap * dlist * bool) :=
  match alloc with
  | None => Some (h, l, false)
  | Some node =>
    if len l =? 0 then
      let h := <[node := ListNode None None v]> h in
      Some (h, set_len (set_head (set_tail l (Some node)) (Some node)) (u64 (len l + 1)), true)
    else
      let h := <[node := ListNode (tail l) None v]> h in
      a ← tail l;
      h ← set_next h a (Some node);
      Some (h, set_len (set_tail l (Some node)) (u64 (len l + 1)), true)
  end.

Definition listInsertNode (alloc : option addr) (h : heap) (l : dlist) (old_node : addr) (v : V) (after : bool)
  : option (heap * dlist * bool) :=
  match alloc with
  | None => Some (h, l, false)
  | Some node =>
    old ← h !! old_node;
    let '(n, l) :=
      if after
      then (ListNode (Some old_node) (next old) v,
            if decide (tail l = Some old_node) then set_tail l (Some node) else l)
      else (ListNode (prev old) (Some old_node) v,
            if decide (head l = Some old_node) then set_head l (Some node) else l) in
    let h := <[node := n]> h in
    h ← (match prev n with Some p => set_next h p (Some node) | None => Some h end);
    n ← h !! node;
    h ← (match next n with Some q => set_prev h q (Some node) | None => Some h end);
    Some (h, set_len l (u64 (len l + 1)), true)
  end.

Definition listDelNode (h : heap) (l : dlist) (node : addr) : option (heap * dlist * list V) :=
  n ← h !! node;
  '(h, l) ← (match prev n with
    | Some p => h ← set_next h p (next n); Some (h, l)
    | None => Some (h, set_head l (next n))
    end);
  n ← h !! node;
  '(h, l) ← (match next n with
    | Some q => h ← set_prev h q (prev n); Some (h, l)
    | None => Some (h, set_tail l (prev n))
    end);
  n ← h !! node;
  Some (delete node h, set_len l (u64 (len l - 1)), if free l then [value n] else []).

(** ** Iterators *)

Definition listGetIterator (l : dlist) (direction : Z) : listIter :=
  ListIter (if direction =? AL_START_HEAD then head l else tail l) direction.

Definition listRewind (l : dlist) : listIter := ListIter (head l) AL_START_HEAD.
Definition listRewindTail (l : dlist) : listIter := ListIter (tail l) AL_START_TAIL.

Definition listNext (h : heap) (iter : listIter) : option (option addr * listIter) :=
  let current := inext iter in
  match current with
  | None => Some (None, iter)
  | Some a =>
    n ← h !! a;
    Some (current, ListIter (if direction iter =? AL_START_HEAD then next n else prev n) (direction iter))
  end.

(** ** Whole lists *)

(** [alloc] is what [zmalloc] returns in a heap.  The boolean says whether
    the copy, and not null, is returned; a loop that goes on longer than the
    list is [None]. *)
Fixpoint dup_loop (n : nat) (alloc : heap -> option addr) (h : heap) (copy : dlist) (iter : listIter)
  : option (heap * dlist * bool * list V) :=
  match n with
  | O => None
  | S n =>
    '(node, iter) ← listNext h iter;
    match node with
    | None => Some (h, copy, true, [])
    | Some a =>
      c ← h !! a;
      match (match dup copy with Some f => f (value c) | None => Some (value c) end) with
      | None => '(h, freed) ← listRelease h copy; Some (h, copy, false, freed)
      | Some v =>
        '(h, copy, ok) ← listAddNodeTail (alloc h) h copy v;
        if (ok : bool) then dup_loop n alloc h copy iter
        else '(h, freed) ← listRelease h copy; Some (h, copy, false, freed)
      end
    end
  end.

Definition listDup (alloc : heap -> option addr) (h : heap) (orig : dlist) : option (heap * dlist * bool * list V) :=
  let copy := MkList None None (dup orig) (free orig) (match_ orig) 0 in
  dup_loop (S (Z.to_nat (len orig))) alloc h copy (listRewind orig).

Fixpoint search_key_loop (n : nat) (h : heap) (l : dlist) (key : V) (iter : listIter) : option (option addr) :=
  match n with
  | O => None
  | S n =>
    '(node, iter) ← listNext h iter;
    match node with
    | None => Some None
    | Some a =>
      c ← h !! a;
      if (match match_ l with Some f => f (value c) key | None => bool_decide (key = value c) end)
      then Some (Some a) else search_key_loop n h l key iter
    end
  end.

Definition listSearchKey (h : heap) (l : dlist) (key : V) : option (option addr) :=
  search_key_loop (S (Z.to_nat (len l))) h l key (listRewind l).

(** [while(index-- && n) n = step(n)]. *)
Fixpoint index_loop (fuel : nat) (step : listNode V -> option addr) (h : heap) (index : Z) (n : option addr)
  : option (option addr) :=
  match fuel with
  | O => None
  | S fuel =>
    if index =? 0 then Some n
    else match n with
      | None => Some None
      | Some a => c ← h !! a; index_loop fuel step h (index - 1) (step c)
      end
  end.

Definition listIndex (h : heap) (l : dlist) (index : Z) : option (option addr) :=
  if index <? 0 then index_loop (S (Z.to_nat (len l))) prev h (s64 (s64 (- index) - 1)) (tail l)
  else index_loop (S (Z.to_nat (len l))) next h index (head l).

Definition listRotate (h : heap) (l : dlist) : option (heap * dlist) :=
  let tail_ := tail l in
  if len l <=? 1 then Some (h, l)
  else
    t ← tail_;
    n ← h !! t;
    let l := set_tail l (prev n) in
    a ← tail l;
    h ← set_next h a None;
    b ← head l;
    h ← set_prev h b (Some t);
    h ← set_prev h t None;
    h ← set_next h t (head l);
    Some (h, set_head l (Some t)).

End Ops.
End Adlist.
