(* ===== verification/AdlistSpec.v ===== *)
(** * Doubly linked lists are lists (src/adlist.c)

    [dlseg] describes the nodes of a segment of a list in the heap, from the
    node before it to the node after it; [list_rep] a whole list.  Every
    operation is shown to do to the nodes what a list of values does, and to
    leave the rest of the heap alone. *)

From S2P Require Import Prelude Adlist.
Import Adlist.

Module AdlistSpec.

Section Spec.
Context {V : Type} `{!EqDecision V}.

Abbreviation heap := (gmap addr (listNode V)).
Abbreviation dlist := (dlist V).
Abbreviation nodes := (list (addr * V)).
Implicit Types (h : heap) (l : dlist) (a b : addr) (v : V) (ns xs ys : list (addr * V)) (p q n : option addr).

(** ** Segments *)

Definition first ns n : option addr := match ns with [] => n | (a, _) :: _ => Some a end.

#[local] Arguments first !ns n / : simpl nomatch.

Fixpoint last_ p ns : option addr :=
  match ns with [] => p | (a, _) :: ns => last_ (Some a) ns end.

Fixpoint dlseg h p ns n : Prop :=
  match ns with
  | [] => True
  | (a, v) :: ns => h !! a = Some (ListNode p (first ns n) v) /\ dlseg h (Some a) ns n
  end.

Definition same_outside (as_ : list addr) h h' : Prop := forall b, b ∉ as_ -> h' !! b = h !! b.

Record list_rep h l ns : Prop := ListRep {
  rep_nodup : NoDup ns.*1;
  rep_seg : dlseg h None ns None;
  rep_head : head l = first ns None;
  rep_tail : tail l = last_ None ns;
  rep_len : len l = Z.of_nat (length ns);
  rep_fits : is_u64 (len l)
}.

Lemma first_app xs ys n : first (xs ++ ys) n = first xs (first ys n).
Proof. by destruct xs as [|[a v] xs]. Qed.

Lemma last_app xs ys : forall p, last_ p (xs ++ ys) = last_ (last_ p xs) ys.
Proof. induction xs as [|[a v] xs IH]; intros p; [done|]. apply IH. Qed.

Lemma dlseg_app h xs ys n : forall p,
  dlseg h p (xs ++ ys) n <-> dlseg h p xs (first ys n) /\ dlseg h (last_ p xs) ys n.
Proof.
  induction xs as [|[a v] xs IH]; intros p; cbn [app dlseg last_]; [tauto|].
  rewrite IH, first_app. tauto.
Qed.

Lemma dlseg_frame h h' ns n : forall p,
  (forall a, a ∈ ns.*1 -> h' !! a = h !! a) -> dlseg h p ns n -> dlseg h' p ns n.
Proof.
  induction ns as [|[a v] ns IH]; intros p Hh; [done|]. cbn [dlseg]. intros [Ha Hs]. split.
  - rewrite Hh; [done|by left].
  - apply IH; [|done]. intros b Hb. apply Hh. by right.
Qed.

Lemma dlseg_insert h ns n p a c : a ∉ ns.*1 -> dlseg h p ns n -> dlseg (<[a := c]> h) p ns n.
Proof. intros Ha. apply dlseg_frame. intros b Hb. rewrite lookup_insert_ne; [done|]. by intros ->. Qed.

Lemma dlseg_node h p ns n a : dlseg h p ns n -> a ∈ ns.*1 -> exists c, h !! a = Some c.
Proof.
  revert p. induction ns as [|[b v] ns IH]; intros p Hs Ha; [by apply elem_of_nil in Ha|].
  destruct Hs as [Hb Hs]. apply elem_of_cons in Ha as [->|Ha]; [by eexists|by eapply IH].
Qed.

Lemma fresh_not_in h p ns n a : dlseg h p ns n -> h !! a = None -> a ∉ ns.*1.
Proof. intros Hs Ha Hin. destruct (dlseg_node _ _ _ _ _ Hs Hin) as [c Hc]. congruence. Qed.

Lemma seg_last_snoc p xs a v : last_ p (xs ++ [(a, v)]) = Some a.
Proof. by rewrite last_app. Qed.

Lemma last_in xs a : last_ None xs = Some a -> a ∈ xs.*1.
Proof.
  destruct xs as [|[b v] xs _] using rev_ind; [done|]. rewrite seg_last_snoc. intros [= ->].
  rewrite fmap_app. apply elem_of_app. right. by left.
Qed.

Lemma first_in xs a : first xs None = Some a -> a ∈ xs.*1.
Proof. destruct xs as [|[b v] xs]; [done|]. intros [= ->]. by left. Qed.

(** ** Changing the links at the ends of a segment *)

Definition relink_next h p n : option heap :=
  match p with Some a => set_next h a n | None => Some h end.

Definition relink_prev h n p : option heap :=
  match n with Some a => set_prev h a p | None => Some h end.

Lemma relink_next_spec h xs n m :
  NoDup xs.*1 -> dlseg h None xs n ->
  exists h', relink_next h (last_ None xs) m = Some h' /\ dlseg h' None xs m /\ same_outside xs.*1 h h'.
Proof.
  destruct xs as [|[a v] xs _] using rev_ind; intros Hnd Hs; [by exists h|].
  rewrite seg_last_snoc. cbn [relink_next]. rewrite fmap_app in Hnd |- *.
  apply NoDup_app in Hnd as (_ & Hd & _). apply dlseg_app in Hs as [Hx [Ha _]]. unfold set_next. rewrite Ha.
  cbn [mbind option_bind]. eexists. split; [done|].
  assert (a ∉ xs.*1) as Hni by (intros Hin; apply (Hd _ Hin); left). split.
  - apply dlseg_app. split; [by apply dlseg_insert|]. cbn [dlseg]. by rewrite lookup_insert_eq.
  - intros b Hb. rewrite lookup_insert_ne; [done|]. intros ->. apply Hb, elem_of_app. right. by left.
Qed.

Lemma relink_prev_spec h ys p q :
  NoDup ys.*1 -> dlseg h p ys None ->
  exists h', relink_prev h (first ys None) q = Some h' /\ dlseg h' q ys None /\ same_outside ys.*1 h h'.
Proof.
  destruct ys as [|[a v] ys]; intros Hnd Hs; [by exists h|]. destruct Hs as [Ha Hs].
  apply NoDup_cons in Hnd as [Hni Hnd]. cbn [first relink_prev]. unfold set_prev. rewrite Ha.
  cbn [mbind option_bind]. eexists. split; [done|]. split.
  - cbn [dlseg]. rewrite lookup_insert_eq. split; [done|]. by apply dlseg_insert.
  - intros b Hb. rewrite lookup_insert_ne; [done|]. intros ->. apply Hb. by left.
Qed.

Lemma same_outside_app as1 as2 h1 h2 h3 :
  same_outside as1 h1 h2 -> same_outside as2 h2 h3 -> same_outside (as1 ++ as2) h1 h3.
Proof. intros H1 H2 b Hb. rewrite H2, H1; [done| |]; intros Hin; apply Hb, elem_of_app; auto. Qed.

(** Linking a node between two segments. *)
Lemma link_spec h xs ys a v :
  NoDup (xs ++ ys).*1 -> dlseg h None (xs ++ ys) None -> h !! a = None ->
  let c := ListNode (last_ None xs) (first ys None) v in
  exists h2 h3, relink_next (<[a := c]> h) (last_ None xs) (Some a) = Some h2 /\ h2 !! a = Some c /\
    relink_prev h2 (first ys None) (Some a) = Some h3 /\
    NoDup (xs ++ (a, v) :: ys).*1 /\ dlseg h3 None (xs ++ (a, v) :: ys) None /\
    same_outside (a :: (xs ++ ys).*1) h h3.
Proof.
  intros Hnd Hs Hf c. pose proof (fresh_not_in _ _ _ _ _ Hs Hf) as Hni.
  rewrite fmap_app in Hnd, Hni. apply not_elem_of_app in Hni as [Hx Hy].
  apply dlseg_app in Hs as [Hsx Hsy]. pose proof Hnd as (Hndx & Hd & Hndy)%NoDup_app.
  destruct (relink_next_spec (<[a := c]> h) xs (first ys None) (Some a) Hndx) as (h2 & H2 & Hs2 & Ho2);
    [by apply dlseg_insert|].
  assert (h2 !! a = Some c) as Ha2 by (rewrite Ho2 by done; apply lookup_insert_eq).
  destruct (relink_prev_spec h2 ys (last_ None xs) (Some a) Hndy) as (h3 & H3 & Hs3 & Ho3).
  { apply (dlseg_frame (<[a := c]> h)); [|by apply dlseg_insert]. intros b Hb. apply Ho2. intros Hb'. by apply (Hd b). }
  exists h2, h3. split; [done|]. split; [done|]. split; [done|]. split; [|split].
  - rewrite fmap_app. cbn [fmap list_fmap fst]. apply NoDup_app. split; [done|]. split; [|by apply NoDup_cons].
    intros b Hb [->|Hb']%elem_of_cons; [done|by apply (Hd b)].
  - apply dlseg_app. cbn [first dlseg]. split; [|split; [by rewrite Ho3|done]].
    apply (dlseg_frame h2); [|done]. intros b Hb. apply Ho3. by apply Hd.
  - intros b Hb. rewrite fmap_app in Hb. apply not_elem_of_cons in Hb as [Hb [Hbx Hby]%not_elem_of_app].
    rewrite Ho3, Ho2, lookup_insert_ne by done. done.
Qed.

(** Unlinking the node between two segments. *)
Lemma unlink_node_spec h xs ys a v :
  NoDup (xs ++ (a, v) :: ys).*1 -> dlseg h None (xs ++ (a, v) :: ys) None ->
  let c := ListNode (last_ None xs) (first ys None) v in
  h !! a = Some c /\
  exists h2 h3, relink_next h (last_ None xs) (first ys None) = Some h2 /\ h2 !! a = Some c /\
    relink_prev h2 (first ys None) (last_ None xs) = Some h3 /\ h3 !! a = Some c /\
    NoDup (xs ++ ys).*1 /\ dlseg (delete a h3) None (xs ++ ys) None /\
    same_outside (xs ++ (a, v) :: ys).*1 h (delete a h3).
Proof.
  intros Hnd Hs c. rewrite fmap_app in Hnd. cbn [fmap list_fmap fst] in Hnd.
  apply NoDup_app in Hnd as (Hndx & Hd & [Hay Hndy]%NoDup_cons).
  apply dlseg_app in Hs as [Hsx [Ha Hsy]]. split; [done|].
  assert (a ∉ xs.*1) as Hax by (intros Hin; apply (Hd a Hin); left).
  destruct (relink_next_spec h xs (Some a) (first ys None) Hndx Hsx) as (h2 & H2 & Hs2 & Ho2).
  destruct (relink_prev_spec h2 ys (Some a) (last_ None xs) Hndy) as (h3 & H3 & Hs3 & Ho3).
  { apply (dlseg_frame h); [|done]. intros b Hb. apply Ho2. intros Hb'. apply (Hd b Hb'). by right. }
  exists h2, h3. split; [done|]. split; [by rewrite Ho2|]. split; [done|]. split; [by rewrite Ho3, Ho2|]. split; [|split].
  - rewrite fmap_app. apply NoDup_app. split; [done|]. split; [|done]. intros b Hb Hb'. apply (Hd b Hb). by right.
  - apply dlseg_app. split.
    + apply (dlseg_frame h2); [|done]. intros b Hb. rewrite lookup_delete_ne by congruence. apply Ho3.
      intros Hb'. apply (Hd b Hb). by right.
    + apply (dlseg_frame h3); [|done]. intros b Hb. rewrite lookup_delete_ne by congruence; done.
  - intros b Hb. rewrite fmap_app in Hb. apply not_elem_of_app in Hb as [Hbx [Hba Hby]%not_elem_of_cons].
    cbn [fst] in *. rewrite lookup_delete_ne, Ho3, Ho2 by (done || congruence). done.
Qed.

(** ** Operations on nodes *)

Record same_methods l l' : Prop := SameMethods {
  same_dup : dup l' = dup l;
  same_free : free l' = free l;
  same_match : match_ l' = match_ l
}.

Lemma rep_nil_len h l ns : list_rep h l ns -> (len l =? 0) = bool_decide (ns = []).
Proof.
  intros [_ _ _ _ Hlen _]. rewrite Hlen. destruct ns as [|c ns]; [done|]. rewrite bool_decide_false by done.
  apply Z.eqb_neq. cbn [length]. lia.
Qed.

(** What an operation that links a fresh node [a] between two segments
    promises. *)
Definition linked h l xs ys a v (r : option (heap * dlist * bool)) : Prop :=
  exists h' l', r = Some (h', l', true) /\ list_rep h' l' (xs ++ (a, v) :: ys) /\
    same_methods l l' /\ same_outside (a :: (xs ++ ys).*1) h h'.

Lemma linked_len h l xs ys a v :
  list_rep h l (xs ++ ys) -> Z.of_nat (length (xs ++ ys)) < ULLONG_MAX ->
  u64 (len l + 1) = Z.of_nat (length (xs ++ (a, v) :: ys)) /\ is_u64 (u64 (len l + 1)).
Proof.
  intros [_ _ _ _ Hlen _] Hlt. rewrite Hlen. unfold ULLONG_MAX in *.
  rewrite wrapu_small by (unfold is_unsigned; lia). rewrite !length_app in *. cbn [length]. unfold is_unsigned. lia.
Qed.

Lemma listAddNodeHead_spec h l ns a v :
  list_rep h l ns -> h !! a = None -> Z.of_nat (length ns) < ULLONG_MAX ->
  linked h l [] ns a v (listAddNodeHead (Some a) h l v).
Proof.
  intros R Hf Hlt. destruct (linked_len h l [] ns a v R Hlt) as [Hl Hu].
  pose proof (rep_nil_len _ _ _ R) as E. destruct R as [Hnd Hs Hh Ht _ _].
  destruct (link_spec h [] ns a v Hnd Hs Hf) as (h2 & h3 & H2 & _ & H3 & Hnd' & Hs' & Ho).
  cbn [last_ relink_next app] in *. injection H2 as <-.
  unfold linked, listAddNodeHead. rewrite E. destruct ns as [|[b w] ns].
  - cbn [first relink_prev] in H3. injection H3 as <-. cbn. eexists _, _. split; [done|]. by split; [split|].
  - rewrite bool_decide_false by done. rewrite Hh. cbn [first relink_prev mbind option_bind] in *. rewrite H3.
    eexists _, _. split; [done|]. split; [|by split]. split; try done.
Qed.

Lemma listAddNodeTail_spec h l ns a v :
  list_rep h l ns -> h !! a = None -> Z.of_nat (length ns) < ULLONG_MAX ->
  linked h l ns [] a v (listAddNodeTail (Some a) h l v).
Proof.
  intros R Hf Hlt. rewrite <- (app_nil_r ns) in R, Hlt. destruct (linked_len h l ns [] a v R Hlt) as [Hl Hu].
  pose proof (rep_nil_len _ _ _ R) as E. destruct R as [Hnd Hs Hh Ht _ _].
  destruct (link_spec h ns [] a v Hnd Hs Hf) as (h2 & h3 & H2 & _ & H3 & Hnd' & Hs' & Ho).
  cbn [first relink_prev] in *. injection H3 as <-. rewrite app_nil_r in *.
  unfold linked, listAddNodeTail. rewrite E, app_nil_r. destruct ns as [|c ns _] using rev_ind.
  - cbn [last_ relink_next] in H2. injection H2 as <-. cbn. eexists _, _. split; [done|]. by split; [split|].
  - rewrite bool_decide_false by (by destruct ns). destruct c as [b w]. rewrite Ht.
    rewrite seg_last_snoc in *. cbn [relink_next mbind option_bind] in *. rewrite H2.
    eexists _, _. split; [done|]. split; [|by split]. split; try done.
    + rewrite first_app. cbn [set_len set_tail head first]. rewrite Hh. by rewrite !first_app.
    + by rewrite last_app.
Qed.

Lemma nodup_last xs ys a b v :
  NoDup (xs ++ (a, v) :: ys).*1 -> last_ (Some a) ys = Some b -> (b = a <-> ys = []).
Proof.
  destruct ys as [|[c u] ys _] using rev_ind; [by intros _ [= ->]|]. rewrite seg_last_snoc. intros Hnd [= ->].
  split; [|by destruct ys]. intros ->. rewrite fmap_app in Hnd. cbn [fmap list_fmap fst] in Hnd.
  apply NoDup_app in Hnd as (_ & _ & [Hn _]%NoDup_cons). destruct Hn. rewrite fmap_app. apply elem_of_app. right. by left.
Qed.

Lemma listInsertNode_after h l xs ys o w a v :
  list_rep h l (xs ++ (o, w) :: ys) -> h !! a = None -> Z.of_nat (length (xs ++ (o, w) :: ys)) < ULLONG_MAX ->
  linked h l (xs ++ [(o, w)]) ys a v (listInsertNode (Some a) h l o v true).
Proof.
  intros R Hf Hlt. pose proof R as [Hnd Hs Hh Ht _ _]. apply dlseg_app in Hs as H0. destruct H0 as [_ [Ho _]].
  replace (xs ++ (o, w) :: ys) with ((xs ++ [(o, w)]) ++ ys) in R, Hlt, Hs by (by rewrite <- app_assoc).
  destruct (linked_len h l _ ys a v R Hlt) as [Hl Hu].
  destruct (link_spec h _ ys a v (rep_nodup _ _ _ R) Hs Hf) as (h2 & h3 & H2 & Ha & H3 & Hnd' & Hs' & Hout).
  rewrite seg_last_snoc in H2, Ha. cbn [relink_next] in H2.
  unfold linked, listInsertNode. rewrite Ho. cbn [mbind option_bind next prev]. rewrite H2. cbn [mbind option_bind].
  rewrite Ha. cbn [mbind option_bind next]. unfold relink_prev in H3. rewrite H3. cbn [mbind option_bind].
  eexists _, _. split; [done|]. rewrite last_app in Ht. cbn [last_] in Ht. split.
  - split; try done.
    + rewrite first_app. case_decide; cbn [set_len set_tail head]; rewrite Hh; by rewrite !first_app.
    + rewrite last_app. cbn [last_ set_len tail]. destruct (last_ (Some o) ys) as [b|] eqn:El.
      * pose proof (nodup_last _ _ _ _ _ Hnd El) as Hiff. case_decide as D; cbn [set_tail tail].
        -- rewrite Ht in D. injection D as ->. by rewrite (proj1 Hiff) by done.
        -- rewrite Ht. destruct ys as [|[c u] ys]; [|done]. injection El as <-. by rewrite Ht in D.
      * by destruct ys as [|[c u] ys _] using rev_ind; [|rewrite seg_last_snoc in El].
    + cbn [set_len len]. by case_decide.
    + cbn [set_len len]. by case_decide.
  - split; [|by rewrite <- app_assoc in *]. by case_decide; split.
Qed.

Lemma listInsertNode_before h l xs ys o w a v :
  list_rep h l (xs ++ (o, w) :: ys) -> h !! a = None -> Z.of_nat (length (xs ++ (o, w) :: ys)) < ULLONG_MAX ->
  linked h l xs ((o, w) :: ys) a v (listInsertNode (Some a) h l o v false).
Proof.
  intros R Hf Hlt. pose proof R as [Hnd Hs Hh Ht _ _]. apply dlseg_app in Hs as H0. destruct H0 as [_ [Ho _]].
  destruct (linked_len h l xs _ a v R Hlt) as [Hl Hu].
  destruct (link_spec h xs _ a v Hnd Hs Hf) as (h2 & h3 & H2 & Ha & H3 & Hnd' & Hs' & Hout).
  cbn [first relink_prev] in H2, Ha, H3. unfold linked, listInsertNode. rewrite Ho. cbn [mbind option_bind next prev].
  unfold relink_next in H2. rewrite H2. cbn [mbind option_bind]. rewrite Ha. cbn [mbind option_bind next]. rewrite H3.
  cbn [mbind option_bind]. eexists _, _. split; [done|]. rewrite first_app in Hh. cbn [first] in Hh. split.
  - split; try done.
    + rewrite first_app. cbn [first set_len head]. case_decide as D; cbn [set_head head].
      * destruct xs as [|[b u] xs]; [done|]. cbn [first] in *. rewrite Hh in D. injection D as ->.
        cbn in Hnd. apply NoDup_cons in Hnd as [Hn _]. destruct Hn. rewrite fmap_app. apply elem_of_app. right. by left.
      * rewrite Hh in *. by destruct xs as [|[b u] xs].
    + rewrite last_app in *. cbn [last_ set_len tail] in *. by case_decide.
    + cbn [set_len len]. by case_decide.
    + cbn [set_len len]. by case_decide.
  - split; [|done]. by case_decide; split.
Qed.

Lemma first_none ys : first ys None = None -> ys = [].
Proof. by destruct ys as [|[a v] ys]. Qed.

Lemma last_none xs : last_ None xs = None -> xs = [].
Proof. destruct xs as [|[a v] xs _] using rev_ind; [done|by rewrite seg_last_snoc]. Qed.

Lemma last_first xs b : last_ None xs = Some b -> forall n m, first xs n = first xs m.
Proof. by destruct xs as [|[a v] xs]. Qed.

Lemma first_last ys b : first ys None = Some b -> forall n m, last_ n ys = last_ m ys.
Proof. by destruct ys as [|[a v] ys]. Qed.

Lemma listDelNode_spec h l xs ys a v :
  list_rep h l (xs ++ (a, v) :: ys) ->
  exists h' l', listDelNode h l a = Some (h', l', if free l then [v] else []) /\ list_rep h' l' (xs ++ ys) /\
    same_methods l l' /\ same_outside (xs ++ (a, v) :: ys).*1 h h' /\ h' !! a = None.
Proof.
  intros R. pose proof R as [Hnd Hs Hh Ht Hlen Hfits].
  destruct (unlink_node_spec h xs ys a v Hnd Hs) as (Ha & h2 & h3 & H2 & Ha2 & H3 & Ha3 & Hnd' & Hs' & Ho).
  assert (u64 (len l - 1) = Z.of_nat (length (xs ++ ys)) /\ is_u64 (u64 (len l - 1))) as [Hl Hu].
  { rewrite Hlen in *. rewrite !length_app in *. cbn [length] in *. unfold is_unsigned in Hfits.
    rewrite wrapu_small by (unfold is_unsigned; lia). unfold is_unsigned. lia. }
  rewrite first_app in Hh. rewrite last_app in Ht. cbn [first last_] in Hh, Ht.
  unfold listDelNode. rewrite Ha. cbn [mbind option_bind prev next value].
  destruct (last_ None xs) as [p|] eqn:Ep, (first ys None) as [q|] eqn:Eq; cbn [relink_next relink_prev] in H2, H3;
    try rewrite H2; try injection H2 as <-; cbn [mbind option_bind]; rewrite Ha2; cbn [mbind option_bind prev next value];
    try rewrite H3; try injection H3 as <-; cbn [mbind option_bind]; rewrite Ha3; cbn [mbind option_bind value];
    (eexists _, _; split; [done|]); (split; [|split; [done|split; [done|apply lookup_delete_eq]]]);
    (split; try done); cbn [set_len set_head set_tail head tail];
    rewrite ?first_app, ?last_app, ?Hh, ?Ht, ?Ep, ?Eq.
  all: first [by apply (last_first xs p)|by apply (first_last ys q)|by rewrite (last_none xs Ep)|by rewrite (first_none ys Eq)].
Qed.

(** ** Walking *)

(** The usual loop over a list: the node the iterator returned is deleted when
    [pick] chooses its value. *)
Fixpoint walk (n : nat) (pick : V -> bool) h l (iter : listIter) : option (heap * dlist * list V) :=
  match n with
  | O => None
  | S n =>
    '(node, iter) ← listNext h iter;
    match node with
    | None => Some (h, l, [])
    | Some a =>
      c ← h !! a;
      '(h, l) ← (if pick (value c) then '(h, l, _) ← listDelNode h l a; Some (h, l) else Some (h, l));
      '(h, l, vs) ← walk n pick h l iter;
      Some (h, l, value c :: vs)
    end
  end.

Definition kept (pick : V -> bool) (c : addr * V) : Prop := pick c.2 = false.
#[global] Instance kept_dec pick c : Decision (kept pick c) := decide (_ = _).

Lemma rep_node h l xs ys a v : list_rep h l (xs ++ (a, v) :: ys) ->
  h !! a = Some (ListNode (last_ None xs) (first ys None) v).
Proof. intros [_ Hs _ _ _ _]. by apply dlseg_app in Hs as [_ [Ha _]]. Qed.

Lemma walk_head (pick : V -> bool) todo : forall h l seen (n : nat),
  list_rep h l (seen ++ todo) -> (length todo < n)%nat ->
  exists h' l', walk n pick h l (ListIter (first todo None) AL_START_HEAD) = Some (h', l', todo.*2) /\
    list_rep h' l' (seen ++ filter (kept pick) todo) /\ same_methods l l'.
Proof.
  induction todo as [|[a v] todo IH]; intros h l seen n R Hn; (destruct n as [|n]; [cbn [length] in Hn; lia|]).
  { cbn. exists h, l. split; [done|]. split; [exact R|done]. }
  cbn [walk first listNext inext direction]. pose proof (rep_node _ _ _ _ _ _ R) as Ha. rewrite Ha.
  cbn [mbind option_bind]. rewrite Ha. cbn [mbind option_bind value next].
  cbn [length] in Hn. change (AL_START_HEAD =? AL_START_HEAD) with true. cbn iota. rewrite filter_cons.
  destruct (pick v) eqn:Hp.
  - destruct (listDelNode_spec h l seen todo a v R) as (h1 & l1 & -> & R1 & Hm1 & _). cbn [mbind option_bind].
    destruct (IH h1 l1 seen n R1) as (h2 & l2 & -> & R2 & Hm2); [lia|]. cbn [mbind option_bind].
    rewrite decide_False by (unfold kept; cbn; congruence). exists h2, l2. split; [done|]. split; [done|].
    destruct Hm1, Hm2. split; congruence.
  - replace (seen ++ (a, v) :: todo) with ((seen ++ [(a, v)]) ++ todo) in R by (by rewrite <- app_assoc).
    cbn [mbind option_bind]. destruct (IH h l _ n R) as (h2 & l2 & -> & R2 & Hm2); [lia|]. cbn [mbind option_bind].
    rewrite decide_True by done. exists h2, l2. split; [done|]. by rewrite <- app_assoc in R2.
Qed.

Lemma walk_tail (pick : V -> bool) todo : forall h l seen (n : nat),
  list_rep h l (todo ++ seen) -> (length todo < n)%nat ->
  exists h' l', walk n pick h l (ListIter (last_ None todo) AL_START_TAIL) = Some (h', l', reverse todo.*2) /\
    list_rep h' l' (filter (kept pick) todo ++ seen) /\ same_methods l l'.
Proof.
  induction todo as [|[a v] todo IH] using rev_ind; intros h l seen n R Hn; (destruct n as [|n]; [lia|]).
  { cbn. exists h, l. split; [done|]. split; [exact R|done]. }
  rewrite seg_last_snoc, <- app_assoc in *. cbn [app walk listNext inext direction] in *.
  pose proof (rep_node _ _ _ _ _ _ R) as Ha. rewrite Ha. cbn [mbind option_bind]. rewrite Ha.
  cbn [mbind option_bind value prev]. rewrite length_app in Hn. cbn [length] in Hn.
  change (AL_START_TAIL =? AL_START_HEAD) with false. cbn iota.
  rewrite fmap_app, reverse_app, filter_app, filter_cons. cbn [fmap list_fmap snd]. rewrite reverse_singleton. cbn [app].
  destruct (pick v) eqn:Hp.
  - destruct (listDelNode_spec h l todo seen a v R) as (h1 & l1 & -> & R1 & Hm1 & _). cbn [mbind option_bind].
    destruct (IH h1 l1 seen n R1) as (h2 & l2 & -> & R2 & Hm2); [lia|]. cbn [mbind option_bind].
    rewrite decide_False by (unfold kept; cbn; congruence). exists h2, l2. split; [done|].
    split; [by rewrite app_nil_r|]. destruct Hm1, Hm2. split; congruence.
  - cbn [mbind option_bind]. destruct (IH h l _ n R) as (h2 & l2 & -> & R2 & Hm2); [lia|]. cbn [mbind option_bind].
    rewrite decide_True by done. exists h2, l2. split; [done|]. by rewrite <- app_assoc.
Qed.

(** ** Release *)

Lemma release_loop_spec (b : bool) ns : forall h p,
  NoDup ns.*1 -> dlseg h p ns None ->
  exists h', release_loop (length ns) h b (first ns None) = Some (h', if b then ns.*2 else []) /\
    forall a, h' !! a = if decide (a ∈ ns.*1) then None else h !! a.
Proof.
  induction ns as [|[a v] ns IH]; intros h p Hnd Hs.
  { exists h. split; [by destruct b|]. intros c. by rewrite decide_False by (apply not_elem_of_nil). }
  destruct Hs as [Ha Hs]. cbn [fmap list_fmap fst] in *. apply NoDup_cons in Hnd as [Hni Hnd].
  cbn [length first release_loop mbind option_bind]. rewrite Ha. cbn [mbind option_bind next value].
  destruct (IH (delete a h) (Some a) Hnd) as (h' & E & Hh').
  { apply (dlseg_frame h); [|done]. intros c Hc. rewrite lookup_delete_ne; [done|]. by intros ->. }
  rewrite E. cbn [mbind option_bind]. exists h'. split; [by destruct b|]. intros c. rewrite Hh'.
  destruct (decide (c ∈ ns.*1)) as [Hin|Hin].
  - by rewrite decide_True by (by right).
  - destruct (decide (c = a)) as [->|Hne].
    + rewrite decide_True by left. apply lookup_delete_eq.
    + rewrite decide_False by (by intros [?|?]%elem_of_cons). by apply lookup_delete_ne.
Qed.

Lemma listRelease_spec h l ns :
  list_rep h l ns ->
  exists h', listRelease h l = Some (h', if free l then ns.*2 else []) /\
    forall a, h' !! a = if decide (a ∈ ns.*1) then None else h !! a.
Proof.
  intros [Hnd Hs Hh _ Hlen _]. unfold listRelease. rewrite Hlen, Hh, Nat2Z.id. by apply (release_loop_spec _ _ _ None).
Qed.

(** ** Search *)

Definition matches l (key v : V) : bool :=
  match match_ l with Some f => f v key | None => bool_decide (key = v) end.

(** The first node whose value satisfies a test. *)
Fixpoint find_node (f : V -> bool) ns : option addr :=
  match ns with
  | [] => None
  | (a, v) :: ns => if f v then Some a else find_node f ns
  end.

Lemma search_key_loop_spec h l key todo : forall seen (n : nat),
  list_rep h l (seen ++ todo) -> (length todo < n)%nat ->
  search_key_loop n h l key (ListIter (first todo None) AL_START_HEAD) = Some (find_node (matches l key) todo).
Proof.
  induction todo as [|[a v] todo IH]; intros seen n R Hn; (destruct n as [|n]; [cbn [length] in Hn; lia|]); [done|].
  cbn [search_key_loop first listNext inext direction find_node]. pose proof (rep_node _ _ _ _ _ _ R) as Ha. rewrite Ha.
  cbn [mbind option_bind]. rewrite Ha. cbn [mbind option_bind value next]. change (AL_START_HEAD =? AL_START_HEAD) with true. cbn iota.
  change (match match_ l with Some f => f v key | None => bool_decide (key = v) end) with (matches l key v).
  destruct (matches l key v); [done|]. cbn [length] in Hn. apply (IH (seen ++ [(a, v)])); [|lia]. by rewrite <- app_assoc.
Qed.

Lemma listSearchKey_spec h l ns key :
  list_rep h l ns -> listSearchKey h l key = Some (find_node (matches l key) ns).
Proof.
  intros R. unfold listSearchKey, listRewind. pose proof (rep_len _ _ _ R) as Hl. rewrite (rep_head _ _ _ R).
  apply (search_key_loop_spec h l key ns []); [done|]. lia.
Qed.

(** ** Indices *)

Lemma index_next h l ys : forall xs (n : nat) i,
  list_rep h l (xs ++ ys) -> 0 <= i -> (length ys < n)%nat ->
  index_loop n next h i (first ys None) = Some (fst <$> ys !! Z.to_nat i).
Proof.
  induction ys as [|[a v] ys IH]; intros xs n i R Hi Hn; (destruct n as [|n]; [cbn [length] in Hn; lia|]);
    cbn [index_loop first]; destruct (Z.eqb_spec i 0) as [->|Hne]; try done.
  rewrite (rep_node _ _ _ _ _ _ R). cbn [mbind option_bind next length] in *.
  rewrite (IH (xs ++ [(a, v)])); [|by rewrite <- app_assoc|lia|lia].
  by replace (Z.to_nat i) with (S (Z.to_nat (i - 1))) by lia.
Qed.

Lemma index_prev h l xs : forall ys (n : nat) i,
  list_rep h l (xs ++ ys) -> 0 <= i -> (length xs < n)%nat ->
  index_loop n prev h i (last_ None xs) = Some (fst <$> reverse xs !! Z.to_nat i).
Proof.
  induction xs as [|[a v] xs IH] using rev_ind; intros ys n i R Hi Hn; (destruct n as [|n]; [lia|]);
    cbn [index_loop]; [by destruct (Z.eqb_spec i 0)|]. rewrite seg_last_snoc, reverse_snoc, <- app_assoc in *.
  destruct (Z.eqb_spec i 0) as [->|Hne]; [done|]. cbn [app] in R. rewrite (rep_node _ _ _ _ _ _ R).
  cbn [mbind option_bind prev]. rewrite length_app in Hn. cbn [length] in Hn. rewrite (IH _ _ _ R) by lia.
  by replace (Z.to_nat i) with (S (Z.to_nat (i - 1))) by lia.
Qed.

(** The position an index means, from the front or from the back. *)
Definition index_pos {A} (i : Z) (vs : list A) : option nat :=
  let j := if i <? 0 then Z.of_nat (length vs) + i else i in
  if (0 <=? j) && (j <? Z.of_nat (length vs)) then Some (Z.to_nat j) else None.

Lemma lookup_pos {A} (i : Z) (vs : list A) :
  (if i <? 0 then reverse vs !! Z.to_nat (- i - 1) else vs !! Z.to_nat i) = index_pos i vs ≫= (fun j => vs !! j).
Proof.
  unfold index_pos. destruct (Z.ltb_spec i 0).
  - destruct (Z.leb_spec 0 (Z.of_nat (length vs) + i)); cbn [andb].
    + rewrite (proj2 (Z.ltb_lt _ _)) by lia. cbn [mbind option_bind]. rewrite reverse_lookup by lia. f_equal. lia.
    + cbn [mbind option_bind]. apply lookup_ge_None. rewrite length_reverse. lia.
  - destruct (Z.leb_spec 0 i); [|lia]. cbn [andb]. destruct (Z.ltb_spec i (Z.of_nat (length vs))); [done|].
    cbn [mbind option_bind]. apply lookup_ge_None. lia.
Qed.

Lemma listIndex_spec h l ns i :
  list_rep h l ns -> is_llong i ->
  listIndex h l i = Some (fst <$> (index_pos i ns ≫= (fun j => ns !! j))).
Proof.
  intros R Hi. unfold is_signed in Hi. unfold listIndex. pose proof (rep_len _ _ _ R) as Hl. rewrite <- lookup_pos.
  destruct (Z.ltb_spec i 0).
  - assert (s64 (s64 (- i) - 1) = - i - 1) as ->.
    { unfold wraps. destruct (decide (i = - 2 ^ 63)) as [->|]; [done|].
      rewrite (Z.mod_small (- i + _) (2 ^ 64)) by lia. rewrite Z.mod_small by lia. lia. }
    rewrite (rep_tail _ _ _ R). apply (index_prev h l ns []); [by rewrite app_nil_r|lia|lia].
  - rewrite (rep_head _ _ _ R). apply (index_next h l ns []); [done|lia|lia].
Qed.

(** ** Rotation *)

Lemma set_prev_lookup h a p h' b :
  set_prev h a p = Some h' -> b <> a -> h' !! b = h !! b.
Proof. unfold set_prev. destruct (h !! a); [|done]. intros [= <-] Hne. by apply lookup_insert_ne. Qed.

Lemma listRotate_spec h l xs t v :
  list_rep h l (xs ++ [(t, v)]) ->
  exists h' l', listRotate h l = Some (h', l') /\ list_rep h' l' ((t, v) :: xs) /\ same_methods l l' /\
    same_outside (t :: xs.*1) h h'.
Proof.
  intros R. pose proof R as [Hnd Hs Hh Ht Hlen Hfits]. unfold listRotate.
  destruct (Z.leb_spec (len l) 1) as [H1|H1]; rewrite Hlen, length_app in H1; cbn [length] in H1.
  { destruct xs as [|c xs]; [|cbn [length] in H1; lia]. exists h, l. split; [done|]. split; [exact R|done]. }
  rewrite Ht, seg_last_snoc. cbn [mbind option_bind]. rewrite (rep_node _ _ _ _ _ _ R). cbn [mbind option_bind prev].
  rewrite fmap_app in Hnd. apply NoDup_app in Hnd as (Hndx & Hd & _). apply dlseg_app in Hs as [Hsx [Hat _]].
  assert (t ∉ xs.*1) as Htx by (intros Hin; apply (Hd t Hin); left).
  destruct (relink_next_spec h xs (Some t) None Hndx Hsx) as (h1 & H1' & Hs1 & Ho1).
  destruct (relink_prev_spec h1 xs None (Some t) Hndx Hs1) as (h2 & H2 & Hs2 & Ho2).
  destruct (last_ None xs) as [a|] eqn:Ea; [|apply last_none in Ea; subst; cbn [length] in H1; lia].
  destruct (first xs None) as [b|] eqn:Eb; [|apply first_none in Eb; subst; cbn [length] in H1; lia].
  cbn [relink_next relink_prev set_tail tail head mbind option_bind] in *. rewrite H1'. cbn [mbind option_bind].
  rewrite Hh, first_app. cbn [first]. rewrite (last_first xs a Ea _ None), Eb. cbn [mbind option_bind]. rewrite H2.
  cbn [mbind option_bind]. unfold set_prev, set_next. rewrite Ho2, Ho1, Hat by done. cbn [mbind option_bind next prev value].
  rewrite lookup_insert_eq. cbn [mbind option_bind next prev value].
  eexists _, _. split; [done|]. split; [|split; [done|]].
  - split; cbn [set_head head tail len].
    + cbn [fmap list_fmap fst]. by apply NoDup_cons.
    + cbn [dlseg]. rewrite lookup_insert_eq, Eb. split; [done|]. by apply dlseg_insert, dlseg_insert.
    + done.
    + cbn [last_]. destruct xs as [|c xs]; [done|]. destruct c. exact (eq_sym Ea).
    + change (len (set_tail l (Some a))) with (len l). rewrite Hlen, length_app. cbn [length]. lia.
    + done.
  - intros c [Hct Hcx]%not_elem_of_cons. by rewrite !lookup_insert_ne, Ho2, Ho1 by done.
Qed.

(** ** Duplication *)

Implicit Types (copy : dlist) (cs seen todo : list (addr * V)).

Definition dupf l (v : V) : option V := match dup l with Some f => f v | None => Some v end.

(** The heap [h] is [h0] with the nodes [cs] of the copy, none of which was in
    use. *)
Definition extends (h0 h : heap) cs : Prop :=
  forall a, (a ∈ cs.*1 -> h0 !! a = None) /\ (a ∉ cs.*1 -> h !! a = h0 !! a).

Lemma extends_released h0 h cs h' :
  extends h0 h cs -> (forall a, h' !! a = if decide (a ∈ cs.*1) then None else h !! a) -> h' = h0.
Proof.
  intros He Hh'. apply map_eq. intros a. rewrite Hh'. destruct (He a) as [H1 H2].
  case_decide; [by rewrite H1|by rewrite H2].
Qed.

Lemma extends_rep h0 h cs l ns : extends h0 h cs -> list_rep h0 l ns -> list_rep h l ns.
Proof.
  intros He [Hnd Hs Hh Ht Hl Hf]. split; try done. apply (dlseg_frame h0); [|done].
  intros a Ha. destruct (dlseg_node _ _ _ _ _ Hs Ha) as [c Hc]. destruct (He a) as [H1 H2]. apply H2.
  intros Hin. rewrite (H1 Hin) in Hc. done.
Qed.

(** The heap [h1] is [h0] and the nodes of a copy with the values [ws], and
    the next node cannot be had. *)
Definition out_of_nodes (alloc : heap -> option addr) (h0 : heap) (ws : list V) : Prop :=
  exists h1 cs, extends h0 h1 cs /\ cs.*2 = ws /\ alloc h1 = None.

(** What a duplication promises: a copy with the duplicated values in nodes of
    its own, or null and the heap as it was.  Then there is a first value that
    could not be added: those before it were duplicated, and all their
    duplicates are given to the [free] method, if there is one; that value was
    not duplicated, or it was and there is no node for it, and its duplicate is
    not given back. *)
Definition duplicated (alloc : heap -> option addr) (h0 : heap) l ns (r : heap * dlist * bool * list V) : Prop :=
  let '(h, copy, ok, freed) := r in
  if (ok : bool) then
    exists cs, list_rep h copy cs /\ mapM (dupf l) ns.*2 = Some cs.*2 /\ extends h0 h cs /\
      same_methods l copy /\ freed = []
  else h = h0 /\ exists before v after ws, ns.*2 = before ++ v :: after /\ mapM (dupf l) before = Some ws /\
    freed = (if free l then ws else []) /\ (dupf l v = None \/ (is_Some (dupf l v) /\ out_of_nodes alloc h0 ws)).

Lemma mapM_snoc (f : V -> option V) vs v ws w :
  mapM f vs = Some ws -> f v = Some w -> mapM f (vs ++ [v]) = Some (ws ++ [w]).
Proof.
  rewrite !mapM_Some. intros Hv Hw. apply Forall2_app; [done|]. by constructor.
Qed.

Lemma dup_failed (alloc : heap -> option addr) h0 l h copy cs seen a v todo :
  extends h0 h cs -> list_rep h copy cs -> same_methods l copy -> mapM (dupf l) seen.*2 = Some cs.*2 ->
  dupf l v = None \/ (is_Some (dupf l v) /\ alloc h = None) ->
  exists h' freed, listRelease h copy = Some (h', freed) /\ duplicated alloc h0 l (seen ++ (a, v) :: todo) (h', copy, false, freed).
Proof.
  intros He Rc Hm Hmap Hv. destruct (listRelease_spec h copy cs Rc) as (h' & -> & Hh').
  eexists _, _. split; [done|]. split; [by eapply extends_released|]. exists seen.*2, v, todo.*2, cs.*2.
  rewrite (same_free _ _ Hm), fmap_app. split; [done|]. split; [done|]. split; [done|]. destruct Hv as [Hv|[Hv Hb]]; [by left|right].
  split; [done|]. by exists h, cs.
Qed.

Lemma dup_loop_spec (alloc : heap -> option addr) h0 l todo :
  (forall h a, alloc h = Some a -> h !! a = None) ->
  forall seen h copy cs (n : nat),
  list_rep h0 l (seen ++ todo) -> extends h0 h cs -> list_rep h copy cs -> same_methods l copy ->
  mapM (dupf l) seen.*2 = Some cs.*2 -> (length todo < n)%nat ->
  exists r, dup_loop n alloc h copy (ListIter (first todo None) AL_START_HEAD) = Some r /\
    duplicated alloc h0 l (seen ++ todo) r.
Proof.
  intros Halloc. induction todo as [|[a v] todo IH]; intros seen h copy cs n R He Rc Hm Hmap Hn;
    (destruct n as [|n]; [cbn [length] in Hn; lia|]).
  { eexists. split; [done|]. exists cs. by rewrite app_nil_r. }
  cbn [dup_loop first listNext inext direction].
  pose proof (rep_node _ _ _ _ _ _ (extends_rep _ _ _ _ _ He R)) as Ha. rewrite Ha. cbn [mbind option_bind].
  rewrite Ha. cbn [mbind option_bind value next]. change (AL_START_HEAD =? AL_START_HEAD) with true. cbn iota.
  replace (match dup copy with Some f => f v | None => Some v end) with (dupf l v)
    by (unfold dupf; by rewrite (same_dup _ _ Hm)).
  destruct (dupf l v) as [w|] eqn:Hw.
  - destruct (alloc h) as [b|] eqn:Hb.
    + pose proof (Halloc _ _ Hb) as Hf.
      assert (length cs.*2 = length seen.*2) as Hlen by (symmetry; apply (Forall2_length (fun x y => dupf l x = Some y)), mapM_Some, Hmap).
      rewrite !length_fmap in Hlen.
      destruct (listAddNodeTail_spec h copy cs b w Rc Hf) as (h' & copy' & -> & Rc' & Hm' & Ho).
      { pose proof (rep_fits _ _ _ R) as Hfit. rewrite (rep_len _ _ _ R), length_app in Hfit. cbn [length] in Hfit.
        unfold is_unsigned in Hfit. unfold ULLONG_MAX. lia. }
      cbn [mbind option_bind]. cbn [length] in Hn. rewrite app_nil_r in Ho.
      replace (seen ++ (a, v) :: todo) with ((seen ++ [(a, v)]) ++ todo) in R |- * by (by rewrite <- app_assoc).
      apply (IH _ h' copy' (cs ++ [(b, w)])); try done; [| | |lia].
      * intros c. destruct (He c) as [H1 H2]. rewrite fmap_app. cbn [fmap list_fmap fst]. split.
        -- intros [Hc|Hc%list_elem_of_singleton]%elem_of_app; [by apply H1|]. subst c.
           destruct (decide (b ∈ cs.*1)) as [Hin|Hin]; [by apply H1|by rewrite <- H2].
        -- intros [Hc1 Hc2]%not_elem_of_app. rewrite Ho; [by apply H2|]. intros [->|Hc]%elem_of_cons; [|done].
           apply Hc2. left.
      * destruct Hm, Hm'. split; congruence.
      * rewrite !fmap_app. by apply mapM_snoc.
    + cbn [listAddNodeTail mbind option_bind].
      destruct (dup_failed alloc h0 l h copy cs seen a v todo He Rc Hm Hmap) as (h' & freed & -> & Hd); [right; by rewrite Hw|].
      eexists. by split.
  - destruct (dup_failed alloc h0 l h copy cs seen a v todo He Rc Hm Hmap) as (h' & freed & -> & Hd); [by left|].
    eexists. by split.
Qed.

Lemma listDup_spec (alloc : heap -> option addr) h l ns :
  (forall h a, alloc h = Some a -> h !! a = None) -> list_rep h l ns ->
  exists r, listDup alloc h l = Some r /\ duplicated alloc h l ns r.
Proof.
  intros Halloc R. unfold listDup, listRewind. rewrite (rep_head _ _ _ R).
  pose proof (rep_len _ _ _ R) as Hl.
  apply (dup_loop_spec alloc h l ns Halloc [] h _ []); try done; [|split; try done; constructor|lia].
  intros a. split; [|done]. by intros ?%elem_of_nil.
Qed.

(** ** Sequences of operations *)

Inductive list_op :=
| OAddHead (v : V) | OAddTail (v : V) | OInsert (i : Z) (v : V) (after : bool) | ODel (i : Z)
| ORotate | OIndex (i : Z) | OSearch (key : V).

(** The value of a node the caller got. *)
Definition node_value h (r : option addr) : option (option V) :=
  match r with None => Some None | Some a => c ← h !! a; Some (Some (value c)) end.

Definition run_op (alloc : heap -> addr) h l (o : list_op) : option (heap * dlist * option V) :=
  match o with
  | OAddHead v => '(h, l, _) ← listAddNodeHead (Some (alloc h)) h l v; Some (h, l, None)
  | OAddTail v => '(h, l, _) ← listAddNodeTail (Some (alloc h)) h l v; Some (h, l, None)
  | OInsert i v after =>
    r ← listIndex h l i;
    match r with
    | None => Some (h, l, None)
    | Some o => '(h, l, _) ← listInsertNode (Some (alloc h)) h l o v after; Some (h, l, None)
    end
  | ODel i =>
    r ← listIndex h l i;
    match r with
    | None => Some (h, l, None)
    | Some o => '(h, l, _) ← listDelNode h l o; Some (h, l, None)
    end
  | ORotate => '(h, l) ← listRotate h l; Some (h, l, None)
  | OIndex i => r ← listIndex h l i; v ← node_value h r; Some (h, l, v)
  | OSearch key => r ← listSearchKey h l key; v ← node_value h r; Some (h, l, v)
  end.

Fixpoint run_ops (alloc : heap -> addr) h l (os : list list_op) : option (heap * dlist * list (option V)) :=
  match os with
  | [] => Some (h, l, [])
  | o :: os =>
    '(h, l, r) ← run_op alloc h l o;
    '(h, l, rs) ← run_ops alloc h l os;
    Some (h, l, r :: rs)
  end.

(** The same on a list of values; [f] compares for the search. *)
Definition insert_pos (j : nat) (v : V) (vs : list V) : list V := take j vs ++ v :: drop j vs.

Definition rotate (vs : list V) : list V :=
  match last vs with None => [] | Some v => v :: take (pred (length vs)) vs end.

Definition ref_op (f : V -> V -> bool) (vs : list V) (o : list_op) : list V * option V :=
  match o with
  | OAddHead v => (v :: vs, None)
  | OAddTail v => (vs ++ [v], None)
  | OInsert i v after =>
    (match index_pos i vs with
     | None => vs
     | Some j => insert_pos (if after then S j else j) v vs
     end, None)
  | ODel i => (match index_pos i vs with None => vs | Some j => delete j vs end, None)
  | ORotate => (rotate vs, None)
  | OIndex i => (vs, index_pos i vs ≫= (fun j => vs !! j))
  | OSearch key => (vs, List.find (f key) vs)
  end.

Fixpoint ref_ops (f : V -> V -> bool) (vs : list V) (os : list list_op) : list V * list (option V) :=
  match os with
  | [] => (vs, [])
  | o :: os => let '(vs, r) := ref_op f vs o in let '(vs, rs) := ref_ops f vs os in (vs, r :: rs)
  end.

Definition op_ok (o : list_op) : Prop :=
  match o with OInsert i _ _ | ODel i | OIndex i => is_llong i | _ => True end.

(** The values of a list of the heap. *)
Definition holds h l (vs : list V) : Prop := exists ns, list_rep h l ns /\ ns.*2 = vs.

Lemma linked_holds h l xs ys a v r :
  linked h l xs ys a v r -> exists h' l', r = Some (h', l', true) /\ holds h' l' (xs.*2 ++ v :: ys.*2) /\ same_methods l l'.
Proof.
  intros (h' & l' & -> & R & Hm & _). exists h', l'. split; [done|]. split; [|done].
  eexists. split; [done|]. by rewrite fmap_app.
Qed.

Lemma index_split (i : Z) ns :
  match index_pos i ns with
  | None => index_pos i ns.*2 = None
  | Some j => exists a v, index_pos i ns.*2 = Some j /\ ns !! j = Some (a, v) /\ ns = take j ns ++ (a, v) :: drop (S j) ns
  end.
Proof.
  assert (index_pos i ns.*2 = index_pos i ns) as -> by (unfold index_pos; by rewrite length_fmap).
  destruct (index_pos i ns) as [j|] eqn:Hj; [|done]. unfold index_pos in Hj.
  destruct (_ && _) eqn:Hr; [|done]. injection Hj as <-.
  set (j := Z.to_nat _). destruct (ns !! j) as [[a v]|] eqn:Hn.
  - exists a, v. split; [done|]. split; [done|]. symmetry. by apply take_drop_middle.
  - apply lookup_ge_None in Hn. lia.
Qed.

Lemma find_node_spec (f : V -> bool) ns :
  match find_node f ns with
  | None => List.find f ns.*2 = None
  | Some a => exists v xs ys, ns = xs ++ (a, v) :: ys /\ List.find f ns.*2 = Some v
  end.
Proof.
  induction ns as [|[a v] ns IH]; [done|]. cbn [find_node fmap list_fmap snd List.find].
  destruct (f v); [by exists v, [], ns|]. destruct (find_node f ns) as [b|]; [|done].
  destruct IH as (w & xs & ys & -> & E). by exists w, ((a, v) :: xs), ys.
Qed.

Lemma rotate_snoc (vs : list V) v : rotate (vs ++ [v]) = v :: vs.
Proof.
  unfold rotate. rewrite last_snoc. rewrite length_app. cbn [length]. rewrite Nat.add_1_r. cbn [pred].
  by rewrite take_app_length.
Qed.

Lemma run_op_holds (alloc : heap -> addr) h l vs o :
  (forall h, h !! alloc h = None) -> holds h l vs -> op_ok o -> Z.of_nat (length vs) < ULLONG_MAX ->
  exists h' l', run_op alloc h l o = Some (h', l', (ref_op (matches l) vs o).2) /\
    holds h' l' (ref_op (matches l) vs o).1 /\ same_methods l l'.
Proof.
  intros Halloc (ns & R & <-) Hok Hlt. rewrite length_fmap in Hlt.
  destruct o as [v|v|i v after|i| |i|key]; cbn [run_op ref_op op_ok fst snd] in *.
  - destruct (linked_holds _ _ _ _ _ _ _ (listAddNodeHead_spec h l ns (alloc h) v R (Halloc h) Hlt)) as (h' & l' & -> & H & Hm).
    cbn [mbind option_bind]. by exists h', l'.
  - destruct (linked_holds _ _ _ _ _ _ _ (listAddNodeTail_spec h l ns (alloc h) v R (Halloc h) Hlt)) as (h' & l' & -> & H & Hm).
    cbn [mbind option_bind]. by exists h', l'.
  - rewrite (listIndex_spec h l ns i R Hok). pose proof (index_split i ns) as Hi. cbn [mbind option_bind].
    destruct (index_pos i ns) as [j|]; cbn [mbind option_bind fmap option_fmap option_map].
    + destruct Hi as (a & w & -> & Hj & Ens). rewrite Hj. cbn [fmap option_fmap option_map fst].
      rewrite Ens in R, Hlt. assert (j < length ns)%nat by (by eapply lookup_lt_Some).
      destruct after.
      * destruct (linked_holds _ _ _ _ _ _ _ (listInsertNode_after h l _ _ a w (alloc h) v R (Halloc h) Hlt)) as (h' & l' & -> & H' & Hm).
        cbn [mbind option_bind]. exists h', l'. split; [done|]. split; [|done]. unfold insert_pos.
        rewrite fmap_app, fmap_take, fmap_drop in H'. cbn [fmap list_fmap snd] in H'.
        by rewrite (take_S_r _ _ w) by (rewrite list_lookup_fmap, Hj; done).
      * destruct (linked_holds _ _ _ _ _ _ _ (listInsertNode_before h l _ _ a w (alloc h) v R (Halloc h) Hlt)) as (h' & l' & -> & H' & Hm).
        cbn [mbind option_bind]. exists h', l'. split; [done|]. split; [|done]. unfold insert_pos.
        rewrite fmap_take in H'. cbn [fmap list_fmap snd] in H'. rewrite fmap_drop in H'.
        by rewrite (drop_S _ w) by (rewrite list_lookup_fmap, Hj; done).
    + rewrite Hi. exists h, l. split; [done|]. split; [by exists ns|done].
  - rewrite (listIndex_spec h l ns i R Hok). pose proof (index_split i ns) as Hi. cbn [mbind option_bind].
    destruct (index_pos i ns) as [j|]; cbn [mbind option_bind fmap option_fmap option_map].
    + destruct Hi as (a & w & -> & Hj & Ens). rewrite Hj. cbn [fmap option_fmap option_map fst]. rewrite Ens in R.
      destruct (listDelNode_spec h l _ _ a w R) as (h' & l' & -> & R' & Hm & _). cbn [mbind option_bind].
      exists h', l'. split; [done|]. split; [|done]. eexists. split; [done|].
      by rewrite fmap_app, fmap_take, fmap_drop, delete_take_drop.
    + rewrite Hi. exists h, l. split; [done|]. split; [by exists ns|done].
  - destruct ns as [|[t v] ns _] using rev_ind.
    + unfold listRotate. rewrite (rep_len _ _ _ R). cbn. exists h, l. split; [done|]. split; [by exists []|done].
    + destruct (listRotate_spec h l ns t v R) as (h' & l' & -> & R' & Hm & _). cbn [mbind option_bind].
      exists h', l'. split; [done|]. split; [|done]. eexists. split; [done|].
      rewrite fmap_app. cbn [fmap list_fmap snd]. by rewrite rotate_snoc.
  - rewrite (listIndex_spec h l ns i R Hok). pose proof (index_split i ns) as Hi. cbn [mbind option_bind].
    exists h, l. split; [|split; [by exists ns|done]].
    destruct (index_pos i ns) as [j|]; cbn [mbind option_bind fmap option_fmap option_map].
    + destruct Hi as (a & w & E & Hj & Ens). rewrite E. cbn [mbind option_bind]. rewrite list_lookup_fmap, Hj. rewrite Ens in R.
      cbn [fmap option_fmap option_map fst node_value]. by rewrite (rep_node _ _ _ _ _ _ R).
    + by rewrite Hi.
  - rewrite (listSearchKey_spec h l ns key R). pose proof (find_node_spec (matches l key) ns) as Hf.
    cbn [mbind option_bind]. exists h, l. split; [|split; [by exists ns|done]].
    destruct (find_node _ ns) as [a|]; cbn [node_value]; [|by rewrite Hf].
    destruct Hf as (v & xs & ys & -> & ->). by rewrite (rep_node _ _ _ _ _ _ R).
Qed.

Lemma ref_op_grows (f : V -> V -> bool) vs o : (length (ref_op f vs o).1 <= S (length vs))%nat.
Proof.
  destruct o as [v|v|i v after|i| |i|key]; cbn [ref_op fst length]; rewrite ?length_app; cbn [length]; try lia.
  - destruct (index_pos i vs) as [j|]; [|lia]. unfold insert_pos. rewrite length_app. cbn [length].
    rewrite length_take, length_drop. lia.
  - destruct (index_pos i vs) as [j|]; [|lia]. rewrite delete_take_drop, length_app, length_take, length_drop. lia.
  - unfold rotate. destruct (last vs); cbn [length]; [rewrite length_take; lia|lia].
Qed.

Lemma run_ops_holds (alloc : heap -> addr) os : (forall h, h !! alloc h = None) -> Forall op_ok os ->
  forall h l vs, holds h l vs -> Z.of_nat (length vs + length os) < ULLONG_MAX ->
  exists h' l', run_ops alloc h l os = Some (h', l', (ref_ops (matches l) vs os).2) /\
    holds h' l' (ref_ops (matches l) vs os).1 /\ same_methods l l'.
Proof.
  intros Halloc Hok. induction Hok as [|o os Ho Hok IH]; intros h l vs H Hlt; [by exists h, l|].
  cbn [length run_ops ref_ops] in *.
  destruct (run_op_holds alloc h l vs o Halloc H Ho) as (h1 & l1 & -> & H1 & Hm1); [lia|]. cbn [mbind option_bind].
  pose proof (ref_op_grows (matches l) vs o). destruct (ref_op (matches l) vs o) as [vs1 r1]. cbn [fst snd] in *.
  destruct (IH h1 l1 vs1 H1) as (h2 & l2 & -> & H2 & Hm2); [lia|]. cbn [mbind option_bind].
  assert (matches l1 = matches l) as E by (unfold matches; by rewrite (same_match _ _ Hm1)). rewrite E in *.
  destruct (ref_ops (matches l) vs1 os) as [vs2 rs]. exists h2, l2. split; [done|]. split; [done|].
  destruct Hm1, Hm2. split; congruence.
Qed.

Lemma listCreate_holds h : holds h (listCreate (V := V)) [].
Proof. exists []. split; [|done]. split; try done. constructor. Qed.

End Spec.

(** ** Properties *)

(** An allocator that never fails. *)
Definition any_address (h : gmap addr (listNode Z)) : addr := fresh (dom h : gset Z).

Lemma any_address_fresh h : h !! any_address h = None.
Proof. apply (not_elem_of_dom (D := gset Z)). exact (is_fresh (dom h : gset Z)). Qed.

(** C14. A doubly linked list is a list: any sequence of insertions at the ends
    or at an index, deletions, rotations, lookups and searches follows no
    dangling pointer, answers as the list of the values does, and ends with
    the links of the list of values it should. *)
Theorem adlist_refines_list {V} `{!EqDecision V} (alloc : gmap addr (listNode V) -> addr) h l vs os :
  (forall h, h !! alloc h = None) -> Forall op_ok os -> holds h l vs ->
  Z.of_nat (length vs + length os) < ULLONG_MAX ->
  exists h' l', run_ops alloc h l os = Some (h', l', (ref_ops (matches l) vs os).2) /\
    holds h' l' (ref_ops (matches l) vs os).1.
Proof.
  intros Ha Hok H Hlt. destruct (run_ops_holds alloc os Ha Hok h l vs H Hlt) as (h' & l' & E & H' & _).
  by exists h', l'.
Qed.

Definition sample_ops : list (list_op (V := Z)) :=
  [OAddTail 1; OAddHead 2; OAddTail 3; OInsert (-1) 4 false; OInsert 0 5 true; ORotate; ODel (-2);
   OInsert 7 6 true; OIndex 0; OIndex (-4); OIndex 4; OSearch 2; OSearch 4].

Lemma adlist_refines_list_witness :
  exists h' l', run_ops any_address ∅ (listCreate (V := Z)) sample_ops
      = Some (h', l', [None; None; None; None; None; None; None; None; Some 3; Some 3; None; Some 2; Some 4]) /\
    holds h' l' [3; 2; 5; 4].
Proof.
  destruct (adlist_refines_list any_address ∅ (listCreate (V := Z)) [] sample_ops any_address_fresh)
    as (h' & l' & E & H); [by repeat constructor|apply listCreate_holds|by vm_compute|].
  exists h', l'. split; [exact E|exact H].
Defined.

(** C29. The loop the server uses to go through a list in either direction may
    delete the node the iterator just returned: every value is visited once, in
    order, and what is left is what was not deleted. *)
Theorem listNext_deleting {V} (pick : V -> bool) h l ns :
  list_rep h l ns ->
  (exists h' l', walk (S (length ns)) pick h l (listGetIterator l AL_START_HEAD) = Some (h', l', ns.*2) /\
     list_rep h' l' (filter (kept pick) ns)) /\
  (exists h' l', walk (S (length ns)) pick h l (listGetIterator l AL_START_TAIL) = Some (h', l', reverse ns.*2) /\
     list_rep h' l' (filter (kept pick) ns)).
Proof.
  intros R. unfold listGetIterator. change (AL_START_HEAD =? AL_START_HEAD) with true.
  change (AL_START_TAIL =? AL_START_HEAD) with false. cbn iota. rewrite (rep_head _ _ _ R), (rep_tail _ _ _ R). split.
  - destruct (walk_head pick ns h l [] (S (length ns)) R ltac:(lia)) as (h' & l' & E & R' & _). by exists h', l'.
  - rewrite <- (app_nil_r ns) in R.
    destruct (walk_tail pick ns h l [] (S (length ns)) R ltac:(lia)) as (h' & l' & E & R' & _).
    rewrite app_nil_r in R'. by exists h', l'.
Qed.

(** Three nodes, of the values 1, 2 and 3. *)
Definition sample_heap : gmap addr (listNode Z) :=
  <[10 := ListNode None (Some 30) 1]> (<[20 := ListNode (Some 30) None 3]> (<[30 := ListNode (Some 10) (Some 20) 2]> ∅)).
Definition sample_list (dup : option (Z -> option Z)) (free : bool) : dlist Z :=
  MkList (Some 10) (Some 20) dup free None 3.

Lemma sample_list_rep dup free : list_rep sample_heap (sample_list dup free) [(10, 1); (30, 2); (20, 3)].
Proof. split; try done. by apply (bool_decide_eq_true _). Qed.

Lemma listNext_deleting_witness :
  list_rep sample_heap (sample_list None false) [(10, 1); (30, 2); (20, 3)] /\
  exists h' l', walk 4 (fun v => v =? 2) sample_heap (sample_list None false)
      (listGetIterator (sample_list None false) AL_START_TAIL) = Some (h', l', [3; 2; 1]) /\
    list_rep h' l' [(10, 1); (20, 3)].
Proof.
  split; [apply sample_list_rep|].
  exact (proj2 (listNext_deleting (fun v => v =? 2) _ _ _ (sample_list_rep None false))).
Defined.

(** C30. Duplicating a list copies it, the duplicated values in order, in nodes
    of its own, or returns null at the first value that could not be added.  Then
    the heap is what it was, every node of the copy is freed, and exactly the
    duplicates of the values before that one are given to the [free] method, if
    there is one.  That value itself was not duplicated, or it was and there was
    no node for it: then its duplicate is not freed, and leaks (adlist.c:234). *)
Theorem listDup_copies_or_cleans {V} `{!EqDecision V} (alloc : gmap addr (listNode V) -> option addr) h l ns :
  (forall h a, alloc h = Some a -> h !! a = None) -> list_rep h l ns ->
  exists r, listDup alloc h l = Some r /\ duplicated alloc h l ns r.
Proof. apply listDup_spec. Qed.

(** Values whose duplication fails from 3 on. *)
Definition dup_below_3 (v : Z) : option Z := if v <? 3 then Some (v + 100) else None.

Lemma listDup_copies_or_cleans_witness :
  list_rep sample_heap (sample_list (Some dup_below_3) true) [(10, 1); (30, 2); (20, 3)] /\
  (exists copy, listDup (fun h => Some (any_address h)) sample_heap (sample_list (Some dup_below_3) true)
     = Some (sample_heap, copy, false, [101; 102])) /\
  exists h copy, listDup (fun h => Some (any_address h)) sample_heap (sample_list (Some (fun v => Some (v + 100))) true)
     = Some (h, copy, true, []) /\ holds h copy [101; 102; 103].
Proof.
  assert (forall h a, Some (any_address h) = Some a -> h !! a = None) as Ha by (intros h a [= <-]; apply any_address_fresh).
  split; [apply sample_list_rep|]. split.
  - destruct (listDup_copies_or_cleans (fun h => Some (any_address h)) _ _ _ Ha (sample_list_rep (Some dup_below_3) true))
      as ([[[h copy] [|]] freed] & E & Hd); [exfalso; clear Hd; vm_compute in E; discriminate E|].
    exists copy. destruct Hd as [-> _]. apply (f_equal (fmap snd)) in E as E'. vm_compute in E'. injection E' as <-. exact E.
  - destruct (listDup_copies_or_cleans (fun h => Some (any_address h)) _ _ _ Ha (sample_list_rep (Some (fun v => Some (v + 100))) true))
      as ([[[h copy] [|]] freed] & E & Hd); [|exfalso; clear Hd; vm_compute in E; discriminate E].
    destruct Hd as (cs & Rc & Hm & _ & _ & ->). exists h, copy. split; [exact E|]. exists cs. split; [exact Rc|].
    by injection Hm.
Defined.

(** No second node: the duplicate of 1 is freed, that of 3 is not. *)
Example listDup_leaks :
  (fun '(h, _, ok, freed) => (size h, ok, freed)) <$>
    listDup (fun h => if (size h <? 4)%nat then Some (any_address h) else None) sample_heap (sample_list (Some (fun v => Some (v + 100))) true)
  = Some (3%nat, false, [101]).
Proof. vm_compute. reflexivity. Qed.


End AdlistSpec.
