(* ===== verification/Object.v ===== *)
(** * Objects (src/object.c, src/server.h, src/server.c)

    Objects live in a heap, a finite map from addresses to records, and are
    shared by counting the references to them.  Every access through a
    pointer is checked, and a [serverAssert] that fails or a [serverPanic] is
    [None] as well.  The strings are those of [Sds]; what the containers point
    to is a type [P]. *)

From S2P Require Import Prelude Util Sds SdsText Dict DictTypes.
Import Util Sds SdsText.

Module Object.

Abbreviation addr := Z (only parsing).

Definition OBJ_STRING : Z := 0.
Definition OBJ_LIST : Z := 1.
Definition OBJ_SET : Z := 2.
Definition OBJ_ZSET : Z := 3.
Definition OBJ_HASH : Z := 4.

Definition OBJ_ENCODING_RAW : Z := 0.
Definition OBJ_ENCODING_INT : Z := 1.
Definition OBJ_ENCODING_HT : Z := 2.
Definition OBJ_ENCODING_ZIPLIST : Z := 5.
Definition OBJ_ENCODING_INTSET : Z := 6.
Definition OBJ_ENCODING_SKIPLIST : Z := 7.
Definition OBJ_ENCODING_EMBSTR : Z := 8.
Definition OBJ_ENCODING_QUICKLIST : Z := 9.

Definition OBJ_SHARED_INTEGERS : Z := 10000.
Definition OBJ_ENCODING_EMBSTR_SIZE_LIMIT : Z := 44.
Definition LRU_CLOCK_MAX : Z := 2 ^ 24 - 1.
Definition LRU_CLOCK_RESOLUTION : Z := 1000.

(** What [ptr] points to, or holds. *)
Inductive payload (P : Type) :=
| PSds (s : sds)
| PLong (v : Z)
| PData (p : P).
#[global] Arguments PSds {P} _.
#[global] Arguments PLong {P} _.
#[global] Arguments PData {P} _.

Record robj (P : Type) := RObj {
  otype : Z;
  encoding : Z;
  lru : Z;
  refcount : Z;
  ptr : payload P
}.
#[global] Arguments RObj {P} _ _ _ _ _.
#[global] Arguments otype {P} _.
#[global] Arguments encoding {P} _.
#[global] Arguments lru {P} _.
#[global] Arguments refcount {P} _.
#[global] Arguments ptr {P} _.

(** The part of the server's state the functions read: the allocator's
    leftovers, the clock, whether the memory policy lets objects be shared and
    the array of the shared integers. *)
Record env := Env {
  junk : nat -> Z;
  LRU_CLOCK : Z;
  maxmemory_shares : bool;
  integers : list addr
}.

Section Ops.
Context {P : Type} (E : env).

Abbreviation robj := (robj P).
Abbreviation heap := (gmap addr robj).

(** ** Fields *)

Definition set_encoding (o : robj) (enc : Z) : robj := RObj (otype o) enc (lru o) (refcount o) (ptr o).
Definition set_ptr (o : robj) (p : payload P) : robj := RObj (otype o) (encoding o) (lru o) (refcount o) p.
Definition set_refcount (o : robj) (n : Z) : robj := RObj (otype o) (encoding o) (lru o) n (ptr o).
Definition set_lru (o : robj) (t : Z) : robj := RObj (otype o) (encoding o) t (refcount o) (ptr o).

Definition sdsEncodedObject (o : robj) : bool :=
  (encoding o =? OBJ_ENCODING_RAW) || (encoding o =? OBJ_ENCODING_EMBSTR).

Definition as_sds (p : payload P) : option sds := match p with PSds s => Some s | _ => None end.
Definition as_long (p : payload P) : option Z := match p with PLong v => Some v | _ => None end.

(** ** Creation *)

(** [a] is the address the allocation returns. *)
Definition createObject (a : addr) (h : heap) (type : Z) (p : payload P) : heap :=
  <[a := RObj type OBJ_ENCODING_RAW (LRU_CLOCK E) 1 p]> h.

Definition createRawStringObject (a : addr) (h : heap) (ptr : option bytes) (len : Z) : option heap :=
  s ← sdsnewlen (junk E) ptr len;
  Some (createObject a h OBJ_STRING (PSds s)).

(** The string after the object, whose length must fit in a byte. *)
Definition createEmbeddedStringObject (a : addr) (h : heap) (ptr : option bytes) (len : Z) : option heap :=
  body ← (match ptr with
    | Some p => rdn p 0 (Z.to_nat len)
    | None => Some (replicate (Z.to_nat len) 0)
    end);
  let sh := Sds SDS_TYPE_8 (u8 len) (u8 len) (body ++ [0]) in
  Some (<[a := RObj OBJ_STRING OBJ_ENCODING_EMBSTR (LRU_CLOCK E) 1 (PSds sh)]> h).

Definition createStringObject (a : addr) (h : heap) (ptr : option bytes) (len : Z) : option heap :=
  if len <=? OBJ_ENCODING_EMBSTR_SIZE_LIMIT
  then createEmbeddedStringObject a h ptr len else createRawStringObject a h ptr len.

(** ** References *)

Definition incrRefCount (h : heap) (a : addr) : option heap :=
  o ← h !! a; Some (<[a := set_refcount o (s32 (refcount o + 1))]> h).

(** Whether the function that frees an object of this type knows its
    encoding. *)
Definition freeable (o : robj) : bool :=
  if otype o =? OBJ_STRING then true
  else if otype o =? OBJ_LIST then encoding o =? OBJ_ENCODING_QUICKLIST
  else if otype o =? OBJ_SET then (encoding o =? OBJ_ENCODING_HT) || (encoding o =? OBJ_ENCODING_INTSET)
  else if otype o =? OBJ_ZSET then (encoding o =? OBJ_ENCODING_SKIPLIST) || (encoding o =? OBJ_ENCODING_ZIPLIST)
  else if otype o =? OBJ_HASH then (encoding o =? OBJ_ENCODING_HT) || (encoding o =? OBJ_ENCODING_ZIPLIST)
  else false.

(** The object and what it owns go away with its cell of the heap. *)
Definition decrRefCount (h : heap) (a : addr) : option heap :=
  o ← h !! a;
  if refcount o <=? 0 then None
  else if refcount o =? 1 then if freeable o then Some (delete a h) else None
  else Some (<[a := set_refcount o (refcount o - 1)]> h).

Definition resetRefCount (h : heap) (a : addr) : option heap :=
  o ← h !! a; Some (<[a := set_refcount o 0]> h).

(** ** Strings from numbers and copies *)

Definition createStringObjectFromLongLong (a : addr) (h : heap) (value : Z) : option (heap * addr) :=
  if (value >=? 0) && (value <? OBJ_SHARED_INTEGERS) then
    i ← integers E !! Z.to_nat value;
    h ← incrRefCount h i;
    Some (h, i)
  else if (value >=? LLONG_MIN) && (value <=? LLONG_MAX) then
    Some (<[a := RObj OBJ_STRING OBJ_ENCODING_INT (LRU_CLOCK E) 1 (PLong value)]> h, a)
  else
    s ← sdsfromlonglong (junk E) value;
    Some (createObject a h OBJ_STRING (PSds s), a).

Definition dupStringObject (a : addr) (h : heap) (src : addr) : option (heap * addr) :=
  o ← h !! src;
  if negb (otype o =? OBJ_STRING) then None
  else if encoding o =? OBJ_ENCODING_RAW then
    s ← as_sds (ptr o);
    h ← createRawStringObject a h (Some (buf s)) (sdslen s);
    Some (h, a)
  else if encoding o =? OBJ_ENCODING_EMBSTR then
    s ← as_sds (ptr o);
    h ← createEmbeddedStringObject a h (Some (buf s)) (sdslen s);
    Some (h, a)
  else if encoding o =? OBJ_ENCODING_INT then
    Some (<[a := RObj OBJ_STRING OBJ_ENCODING_INT (LRU_CLOCK E) 1 (ptr o)]> h, a)
  else None.

(** The shared integers, as [createSharedObjects] makes them at addresses
    [base], [base + 1] and so on. *)
Definition create_integer (base : addr) (h : heap) (j : Z) : heap :=
  <[base + j := RObj OBJ_STRING OBJ_ENCODING_INT (LRU_CLOCK E) 1 (PLong j)]> h.

Definition createSharedIntegers (base : addr) (h : heap) : heap :=
  foldl (create_integer base) h (seqZ 0 OBJ_SHARED_INTEGERS).

(** ** Encoding *)

(** Returns the object that takes the place of the one at [a]; [fresh] is the
    address of an object it may allocate. *)
Definition tryObjectEncoding (fresh : addr) (h : heap) (a : addr) : option (heap * addr) :=
  o ← h !! a;
  if negb (otype o =? OBJ_STRING) then None
  else if negb (sdsEncodedObject o) then Some (h, a)
  else if refcount o >? 1 then Some (h, a)
  else
    s ← as_sds (ptr o);
    let len := sdslen s in
    value ← (if len <=? 20 then str ← rdn (buf s) 0 (Z.to_nat len); Some (string2l str) else Some None);
    match value with
    | Some value =>
      if maxmemory_shares E && (value >=? 0) && (value <? OBJ_SHARED_INTEGERS) then
        h ← decrRefCount h a;
        i ← integers E !! Z.to_nat value;
        h ← incrRefCount h i;
        Some (h, i)
      else Some (<[a := set_ptr (set_encoding o OBJ_ENCODING_INT) (PLong value)]> h, a)
    | None =>
      if len <=? OBJ_ENCODING_EMBSTR_SIZE_LIMIT then
        if encoding o =? OBJ_ENCODING_EMBSTR then Some (h, a)
        else
          h ← createEmbeddedStringObject fresh h (Some (buf s)) (sdslen s);
          h ← decrRefCount h a;
          Some (h, fresh)
      else if (encoding o =? OBJ_ENCODING_RAW) && (sdsavail s >? len / 10) then
        s ← sdsRemoveFreeSpace (junk E) s;
        Some (<[a := set_ptr o (PSds s)]> h, a)
      else Some (h, a)
    end.

(** A reference to an object with the same string that is not encoded. *)
Definition getDecodedObject (fresh : addr) (h : heap) (a : addr) : option (heap * addr) :=
  o ← h !! a;
  if sdsEncodedObject o then h ← incrRefCount h a; Some (h, a)
  else if (otype o =? OBJ_STRING) && (encoding o =? OBJ_ENCODING_INT) then
    v ← as_long (ptr o);
    '(_, b) ← ll2string (junk E <$> seq 0 32) 32 v;
    n ← strlen b;
    h ← createStringObject fresh h (Some b) (Z.of_nat n);
    Some (h, fresh)
  else None.

(** ** Comparison *)

(** The bytes of a string object, decoded on the stack if it is encoded. *)
Definition string_bytes (o : robj) : option (Z * bytes) :=
  if sdsEncodedObject o then s ← as_sds (ptr o); Some (sdslen s, buf s)
  else v ← as_long (ptr o); ll2string (junk E <$> seq 0 128) 128 v.

(** With REDIS_COMPARE_BINARY; the other flag is the collation of the
    locale. *)
Definition compareStringObjectsWithFlags (h : heap) (a b : addr) : option Z :=
  oa ← h !! a; ob ← h !! b;
  if negb ((otype oa =? OBJ_STRING) && (otype ob =? OBJ_STRING)) then None
  else if a =? b then Some 0
  else
    '(alen, astr) ← string_bytes oa;
    '(blen, bstr) ← string_bytes ob;
    let minlen := if alen <? blen then alen else blen in
    x ← rdn astr 0 (Z.to_nat minlen);
    y ← rdn bstr 0 (Z.to_nat minlen);
    let cmp := memcmp x y in
    Some (if cmp =? 0 then s32 (alen - blen) else cmp).

Definition compareStringObjects (h : heap) (a b : addr) : option Z := compareStringObjectsWithFlags h a b.

Definition equalStringObjects (h : heap) (a b : addr) : option bool :=
  oa ← h !! a; ob ← h !! b;
  if (encoding oa =? OBJ_ENCODING_INT) && (encoding ob =? OBJ_ENCODING_INT) then
    va ← as_long (ptr oa); vb ← as_long (ptr ob); Some (va =? vb)
  else c ← compareStringObjects h a b; Some (c =? 0).

Definition stringObjectLen (h : heap) (a : addr) : option Z :=
  o ← h !! a;
  if negb (otype o =? OBJ_STRING) then None
  else if sdsEncodedObject o then s ← as_sds (ptr o); Some (sdslen s)
  else v ← as_long (ptr o); Some (sdigits10 v).

(** ** Numbers from strings *)

(** [C_OK] with the number is [Some (Some v)], [C_ERR] is [Some None]. *)
Definition isObjectRepresentableAsLongLong (h : heap) (a : addr) : option (option Z) :=
  o ← h !! a;
  if negb (otype o =? OBJ_STRING) then None
  else if encoding o =? OBJ_ENCODING_INT then v ← as_long (ptr o); Some (Some v)
  else s ← as_sds (ptr o); str ← rdn (buf s) 0 (Z.to_nat (sdslen s)); Some (string2ll str).

Definition getLongLongFromObject (h : heap) (a : option addr) : option (option Z) :=
  match a with
  | None => Some (Some 0)
  | Some a =>
    o ← h !! a;
    if negb (otype o =? OBJ_STRING) then None
    else if sdsEncodedObject o then
      s ← as_sds (ptr o); str ← rdn (buf s) 0 (Z.to_nat (sdslen s)); Some (string2ll str)
    else if encoding o =? OBJ_ENCODING_INT then v ← as_long (ptr o); Some (Some v)
    else None
  end.

(** The error the client is sent is the left side. *)
Definition getLongLongFromObjectOrReply (h : heap) (a : option addr) (msg : option bytes)
  : option (bytes + Z) :=
  r ← getLongLongFromObject h a;
  Some (match r with
  | Some v => inr v
  | None => inl (match msg with Some m => m | None => str "value is not an integer or out of range" end)
  end).

Definition getLongFromObjectOrReply (h : heap) (a : option addr) (msg : option bytes) : option (bytes + Z) :=
  r ← getLongLongFromObjectOrReply h a msg;
  Some (match r with
  | inl m => inl m
  | inr value =>
    if (value <? LLONG_MIN) || (value >? LLONG_MAX)
    then inl (match msg with Some m => m | None => str "value is out of range" end) else inr value
  end).

(** ** Inspection *)

Definition strEncoding (enc : Z) : bytes :=
  if enc =? OBJ_ENCODING_RAW then str "raw"
  else if enc =? OBJ_ENCODING_INT then str "int"
  else if enc =? OBJ_ENCODING_HT then str "hashtable"
  else if enc =? OBJ_ENCODING_QUICKLIST then str "quicklist"
  else if enc =? OBJ_ENCODING_ZIPLIST then str "ziplist"
  else if enc =? OBJ_ENCODING_INTSET then str "intset"
  else if enc =? OBJ_ENCODING_SKIPLIST then str "skiplist"
  else if enc =? OBJ_ENCODING_EMBSTR then str "embstr"
  else str "unknown".

Definition estimateObjectIdleTime (o : robj) : Z :=
  let lruclock := LRU_CLOCK E in
  if lruclock >=? lru o then u64 ((lruclock - lru o) * LRU_CLOCK_RESOLUTION)
  else u64 ((lruclock + (LRU_CLOCK_MAX - lru o)) * LRU_CLOCK_RESOLUTION).

(** ** Objects as keys of a dictionary *)

Definition dictEncObjKeyCompare (f1 f2 : addr) (h : heap) (key1 key2 : addr) : option (heap * bool) :=
  o1 ← h !! key1; o2 ← h !! key2;
  if (encoding o1 =? OBJ_ENCODING_INT) && (encoding o2 =? OBJ_ENCODING_INT) then
    v1 ← as_long (ptr o1); v2 ← as_long (ptr o2); Some (h, v1 =? v2)
  else
    '(h, a1) ← getDecodedObject f1 h key1;
    '(h, a2) ← getDecodedObject f2 h key2;
    o1 ← h !! a1; o2 ← h !! a2;
    s1 ← as_sds (ptr o1); s2 ← as_sds (ptr o2);
    let l1 := s32 (sdslen s1) in let l2 := s32 (sdslen s2) in
    cmp ← (if negb (l1 =? l2) then Some false
           else x ← rdn (buf s1) 0 (Z.to_nat l1); y ← rdn (buf s2) 0 (Z.to_nat l1); Some (memcmp x y =? 0));
    h ← decrRefCount h a1;
    h ← decrRefCount h a2;
    Some (h, cmp).

Definition dictEncObjHash (seed : Z) (fresh : addr) (h : heap) (key : addr) : option (heap * Z) :=
  o ← h !! key;
  if sdsEncodedObject o then
    s ← as_sds (ptr o);
    x ← rdn (buf s) 0 (Z.to_nat (s32 (sdslen s)));
    Some (h, Dict.dictGenHashFunction seed x)
  else if encoding o =? OBJ_ENCODING_INT then
    v ← as_long (ptr o);
    '(len, b) ← ll2string (junk E <$> seq 0 32) 32 v;
    x ← rdn b 0 (Z.to_nat (s32 len));
    Some (h, Dict.dictGenHashFunction seed x)
  else
    '(h, a) ← getDecodedObject fresh h key;
    o ← h !! a;
    s ← as_sds (ptr o);
    x ← rdn (buf s) 0 (Z.to_nat (s32 (sdslen s)));
    h ← decrRefCount h a;
    Some (h, Dict.dictGenHashFunction seed x).

End Ops.
End Object.
