(* ===== verification/ObjectSpec.v ===== *)
(** * String objects and their references (src/object.c, src/server.c)

    A string object denotes a string however it is encoded ([holds]); the
    functions are shown to preserve, compare and hash the strings, and to
    account for every reference they take or give back ([count]). *)

From S2P Require Import Prelude Util Sds SdsText Dict DictTypes Object.
Import Util Sds SdsText Object.

Module ObjectSpec.

(** ** The order of strings *)

Lemma lex_refl x : lex x x = Eq.
Proof. induction x as [|c x IH]; [done|]. cbn [lex]. by rewrite Z.compare_refl. Qed.

Lemma lex_eq x : forall y, lex x y = Eq <-> x = y.
Proof.
  induction x as [|c x IH]; intros [|d y]; cbn [lex]; try done.
  destruct (Z.compare_spec c d) as [->|H|H].
  - rewrite IH. split; [by intros ->|by intros [= ->]].
  - split; [done|]. intros [= -> _]. lia.
  - split; [done|]. intros [= -> _]. lia.
Qed.

Lemma lex_antisym x : forall y, lex y x = CompOpp (lex x y).
Proof.
  induction x as [|c x IH]; intros [|d y]; cbn [lex]; try done.
  rewrite (Z.compare_antisym c d). destruct (c ?= d); [apply IH|done|done].
Qed.

Lemma lex_trans x : forall y z, lex x y = Lt -> lex y z = Lt -> lex x z = Lt.
Proof.
  induction x as [|c x IH]; intros [|d y] [|e z]; cbn [lex]; try done.
  destruct (Z.compare_spec c d), (Z.compare_spec d e), (Z.compare_spec c e); subst; try done; try lia. apply IH.
Qed.

Lemma decimal_inj v w : is_llong v -> is_llong w -> decimal v = decimal w -> v = w.
Proof.
  intros Hv Hw Hd. apply string2ll_decimal in Hv, Hw. rewrite Hd in Hv. congruence.
Qed.

Lemma decimal_no_nul v : is_llong v -> Forall (fun c => c <> 0) (decimal v).
Proof.
  intros Hv. unfold is_signed in Hv. unfold decimal. assert (forall z, 0 <= z < 10 ^ 64 -> Forall (fun c => c <> 0) (udecimal z)) as H.
  { intros z Hz. eapply Forall_impl; [by apply udecimal_digits|]. intros c. unfold is_digit, ch_0, ch_9. lia. }
  destruct (Z.ltb_spec v 0); [constructor; [done|]|]; apply H; lia.
Qed.

Lemma strlen_app x tl : Forall (fun c => c <> 0) x -> strlen (x ++ 0 :: tl) = Some (length x).
Proof.
  induction 1 as [|c x Hc Hx IH]; [done|]. cbn [app strlen length]. rewrite (proj2 (Z.eqb_neq c 0) Hc), IH. done.
Qed.

Section Spec.
Context {P : Type} (E : env).

Abbreviation robj := (robj P).
Abbreviation heap := (gmap addr robj).
Implicit Types (h : heap) (a b fresh : addr) (o : robj) (x y : bytes).

(** ** The string of an object *)

Definition str_obj o x : Prop :=
  otype o = OBJ_STRING /\
  ((sdsEncodedObject o = true /\ exists s, ptr o = PSds s /\ sds_rep s x) \/
   (encoding o = OBJ_ENCODING_INT /\ exists v, ptr o = PLong v /\ is_llong v /\ x = decimal v)).

Definition holds h a x : Prop := exists o, h !! a = Some o /\ str_obj o x.

(** The number of references to the object at an address. *)
Definition count h a : Z := match h !! a with Some o => refcount o | None => 0 end.

Record shared_ok h : Prop := SharedOk {
  shared_len : length (integers E) = Z.to_nat OBJ_SHARED_INTEGERS;
  shared_int : forall i a, integers E !! i = Some a ->
    exists o, h !! a = Some o /\ otype o = OBJ_STRING /\ encoding o = OBJ_ENCODING_INT /\
              ptr o = PLong (Z.of_nat i) /\ 0 < refcount o < 2 ^ 31 - 1
}.

(** One reference given back at [a] and one taken at [b]. *)
Definition moved h h' a b : Prop :=
  (forall c, count h' c = count h c + (if decide (c = b) then 1 else 0) - (if decide (c = a) then 1 else 0)) /\
  (forall c y, c <> a -> holds h c y -> holds h' c y).

Lemma str_obj_refcount o x n : str_obj o x -> str_obj (set_refcount o n) x.
Proof. done. Qed.

Lemma holds_insert h a b o y : b <> a -> holds h b y -> holds (<[a := o]> h) b y.
Proof. intros Hne (ob & Hb & Ho). exists ob. by rewrite lookup_insert_ne. Qed.

Lemma holds_new h a o x : str_obj o x -> holds (<[a := o]> h) a x.
Proof. intros Ho. exists o. by rewrite lookup_insert_eq. Qed.

Lemma count_insert h a b o : count (<[a := o]> h) b = if decide (b = a) then refcount o else count h b.
Proof. unfold count. destruct (decide (b = a)) as [->|]; [by rewrite lookup_insert_eq|by rewrite lookup_insert_ne]. Qed.

Lemma count_delete h a b : count (delete a h) b = if decide (b = a) then 0 else count h b.
Proof. unfold count. destruct (decide (b = a)) as [->|]; [by rewrite lookup_delete_eq|by rewrite lookup_delete_ne]. Qed.

Lemma count_Some h a o : h !! a = Some o -> count h a = refcount o.
Proof. unfold count. by intros ->. Qed.

Lemma count_None h a : h !! a = None -> count h a = 0.
Proof. unfold count. by intros ->. Qed.

(** A cell whose object is replaced by one of the same string and as many
    references. *)
Lemma moved_update h a o o' : h !! a = Some o -> refcount o' = refcount o -> moved h (<[a := o']> h) a a.
Proof.
  intros Ha Hr. split; [|intros c y Hne; by apply holds_insert]. intros c. rewrite count_insert.
  destruct (decide (c = a)) as [->|]; [rewrite (count_Some _ _ _ Ha), Hr; lia|lia].
Qed.

Lemma moved_refl h a : moved h h a a.
Proof. split; [|done]. intros c. destruct (decide (c = a)); lia. Qed.

Lemma incr_spec h a o :
  h !! a = Some o -> 0 <= refcount o < 2 ^ 31 - 1 ->
  incrRefCount h a = Some (<[a := set_refcount o (refcount o + 1)]> h).
Proof.
  intros Ha Hr. unfold incrRefCount. rewrite Ha. cbn [mbind option_bind].
  rewrite wraps_small by (unfold is_signed; lia). done.
Qed.

Lemma encoded_string o x : str_obj o x -> sdsEncodedObject o = true -> exists s, ptr o = PSds s /\ sds_rep s x.
Proof.
  intros (_ & [[_ H]|[He _]]) Hs; [done|]. unfold sdsEncodedObject in Hs. rewrite He in Hs. done.
Qed.

Lemma int_string o x : str_obj o x -> sdsEncodedObject o = false ->
  encoding o = OBJ_ENCODING_INT /\ exists v, ptr o = PLong v /\ is_llong v /\ x = decimal v.
Proof. intros (_ & [[Hs _]|H]) Hn; [congruence|done]. Qed.

Lemma decr_last h a o x : h !! a = Some o -> str_obj o x -> refcount o = 1 -> decrRefCount h a = Some (delete a h).
Proof.
  intros Ha (Ht & _) Hr. unfold decrRefCount. rewrite Ha. cbn [mbind option_bind]. rewrite Hr. cbn.
  unfold freeable. by rewrite Ht.
Qed.

(** ** Fresh objects *)

Lemma embedded_spec h a (p : bytes) x tl :
  p = x ++ tl -> Z.of_nat (length x) <= 255 ->
  exists o, createEmbeddedStringObject E a h (Some p) (Z.of_nat (length x)) = Some (<[a := o]> h) /\
    str_obj o x /\ refcount o = 1 /\ encoding o = OBJ_ENCODING_EMBSTR.
Proof.
  intros -> Hl. unfold createEmbeddedStringObject. rewrite Nat2Z.id, rdn_app0 by done. cbn [mbind option_bind].
  eexists. split; [done|]. split; [|done]. split; [done|]. left. split; [done|]. eexists. split; [done|].
  rewrite (wrapu_small 8) by (unfold is_unsigned; lia). split.
  - unfold sds_hdr, sds_type. cbn [flags hlen halloc].
    change (Z.land SDS_TYPE_8 SDS_TYPE_MASK) with 1. change (2 ^ sds_width 1) with 256. split; [lia|]. split; [done|lia].
  - exists []. unfold sdslen, sdsalloc, sds_type. cbn [flags hlen halloc buf length].
    change (Z.land SDS_TYPE_8 SDS_TYPE_MASK) with 1. cbn. split; [done|]. lia.
Qed.

Lemma raw_spec h a (p : bytes) x tl :
  p = x ++ tl -> Z.of_nat (length x) < SDS_LIMIT ->
  exists o, createRawStringObject E a h (Some p) (Z.of_nat (length x)) = Some (<[a := o]> h) /\
    str_obj o x /\ refcount o = 1 /\ encoding o = OBJ_ENCODING_RAW.
Proof.
  intros -> Hl. unfold createRawStringObject.
  destruct (sdsnewlen_rep (junk E) (Some (x ++ tl)) (Z.of_nat (length x))) as (s & -> & Hs); [lia| |].
  { intros i [= <-]. rewrite length_app. lia. }
  cbn [mbind option_bind init_str] in *. rewrite Nat2Z.id, take_app_length in Hs. unfold createObject.
  eexists. split; [done|]. split; [|done]. split; [done|]. left. split; [done|]. by exists s.
Qed.

Lemma create_spec h a (p : bytes) x tl :
  p = x ++ tl -> Z.of_nat (length x) < SDS_LIMIT ->
  exists o, createStringObject E a h (Some p) (Z.of_nat (length x)) = Some (<[a := o]> h) /\
    str_obj o x /\ refcount o = 1 /\ sdsEncodedObject o = true.
Proof.
  intros Hp Hl. unfold createStringObject, OBJ_ENCODING_EMBSTR_SIZE_LIMIT.
  destruct (Z.leb_spec (Z.of_nat (length x)) 44).
  - destruct (embedded_spec h a p x tl Hp) as (o & -> & Ho & Hr & He); [lia|].
    exists o. split_and!; try done. unfold sdsEncodedObject. by rewrite He.
  - destruct (raw_spec h a p x tl Hp Hl) as (o & -> & Ho & Hr & He).
    exists o. split_and!; try done. unfold sdsEncodedObject. by rewrite He.
Qed.

Lemma sds_rep_prefix s x : sds_rep s x -> exists tl, buf s = x ++ tl.
Proof. intros (_ & tl & -> & _). by eexists. Qed.

(** ** Encoding *)

Lemma string2l_spec x v : string2l x = Some v <-> is_llong v /\ x = decimal v.
Proof.
  unfold string2l. rewrite <- string2ll_spec. destruct (string2ll x) as [w|] eqn:Hw; [|done].
  apply string2ll_spec in Hw as [Hr _]. unfold is_signed in Hr. unfold LLONG_MIN, LLONG_MAX.
  rewrite (proj2 (Z.ltb_ge _ _)) by lia. rewrite Z.gtb_ltb, (proj2 (Z.ltb_ge _ _)) by lia. done.
Qed.

Lemma moved_replace h a b oa ob x :
  h !! a = Some oa -> str_obj oa x -> refcount oa = 1 -> a <> b -> refcount ob = count h b + 1 ->
  (forall y, holds h b y -> str_obj ob y) -> moved h (delete a (<[b := ob]> h)) a b.
Proof.
  intros Ha Ho Hr Hne Hrb Hb. split.
  - intros c. rewrite count_delete, count_insert. destruct (decide (c = a)) as [->|].
    + rewrite decide_False by done. rewrite (count_Some _ _ _ Ha). lia.
    + destruct (decide (c = b)) as [->|]; lia.
  - intros c y Hca Hc. destruct (decide (c = b)) as [->|].
    + exists ob. rewrite lookup_delete_ne, lookup_insert_eq by done. split; [done|by apply Hb].
    + destruct Hc as (oc & Hc & Hoc). exists oc. by rewrite lookup_delete_ne, lookup_insert_ne by done.
Qed.

Lemma tryObjectEncoding_spec fresh h a o x :
  shared_ok h -> h !! fresh = None -> h !! a = Some o -> str_obj o x -> 0 < refcount o ->
  Z.of_nat (length x) < SDS_LIMIT ->
  exists h' a', tryObjectEncoding E fresh h a = Some (h', a') /\ holds h' a' x /\ moved h h' a a'.
Proof.
  intros Hsh Hf Ha Ho Hr Hl. unfold tryObjectEncoding. rewrite Ha. cbn [mbind option_bind].
  assert (fresh <> a) as Hfa by congruence.
  assert (holds h a x) as Hold by (by exists o).
  rewrite (proj2 (Z.eqb_eq _ _) (proj1 Ho)). cbn [negb].
  destruct (sdsEncodedObject o) eqn:He; cbn [negb]; [|exists h, a; split; [done|split; [done|apply moved_refl]]].
  destruct (Z.gtb_spec (refcount o) 1) as [|Hr1]; [exists h, a; split; [done|split; [done|apply moved_refl]]|].
  assert (refcount o = 1) as Hone by lia.
  destruct (encoded_string o x Ho He) as (s & Hp & Hs). rewrite Hp. cbn [as_sds mbind option_bind].
  rewrite (sds_rep_len s x Hs).
  pose proof (sds_rep_read s x Hs) as Hread. rewrite (sds_rep_len s x Hs) in Hread. rewrite Hread. cbn [mbind option_bind].
  assert (exists value, (if Z.of_nat (length x) <=? 20 then Some (string2l x) else Some None) = Some value /\
    forall v, value = Some v -> is_llong v /\ x = decimal v) as (value & -> & Hv).
  { destruct (_ <=? 20); eexists; (split; [done|]); [|done]. intros v. apply string2l_spec. }
  cbn [mbind option_bind]. destruct value as [v|].
  - destruct (Hv v eq_refl) as [Hv1 Hv2]. destruct (maxmemory_shares E && (v >=? 0) && (v <? OBJ_SHARED_INTEGERS)) eqn:Hshare.
    + apply andb_prop in Hshare as [[_ H0]%andb_prop H1]. rewrite (decr_last h a o x) by done. cbn [mbind option_bind].
      destruct Hsh as [Hlen Hint]. destruct (integers E !! Z.to_nat v) as [i|] eqn:Hi;
        [|apply lookup_ge_None in Hi; unfold OBJ_SHARED_INTEGERS in *; lia].
      destruct (Hint _ _ Hi) as (oi & Hoi & Ht & Hei & Hpi & Hri). cbn [mbind option_bind].
      assert (a <> i) as Hai.
      { intros ->. rewrite Ha in Hoi. injection Hoi as <-. unfold sdsEncodedObject in He. by rewrite Hei in He. }
      assert (str_obj oi x) as Hoix.
      { split; [done|]. right. split; [done|]. rewrite Z2Nat.id in Hpi by lia. by exists v. }
      rewrite (incr_spec _ _ oi) by (rewrite ?lookup_delete_ne by done; done || lia). cbn [mbind option_bind].
      rewrite <- delete_insert_ne by done. eexists _, _. split; [done|]. split.
      * eexists. rewrite lookup_delete_ne, lookup_insert_eq by done. split; [done|by apply str_obj_refcount].
      * eapply moved_replace; try done; [by rewrite (count_Some _ _ _ Hoi)|].
        intros y (oi' & Hoi' & Hy). rewrite Hoi in Hoi'. injection Hoi' as <-. done.
    + eexists _, _. split; [done|]. split; [|by apply moved_update with o].
      apply holds_new. split; [by apply Ho|]. right. split; [done|]. by exists v.
  - unfold OBJ_ENCODING_EMBSTR_SIZE_LIMIT. destruct (Z.leb_spec (Z.of_nat (length x)) 44) as [H44|H44].
    + destruct (encoding o =? OBJ_ENCODING_EMBSTR); [exists h, a; split; [done|split; [done|apply moved_refl]]|].
      destruct (sds_rep_prefix s x Hs) as [tl Htl].
      destruct (embedded_spec h fresh (buf s) x tl Htl) as (oe & -> & Hoe & Hre & _); [lia|]. cbn [mbind option_bind].
      rewrite (decr_last _ _ o x) by (rewrite ?lookup_insert_ne by done; done). cbn [mbind option_bind].
      eexists _, _. split; [done|]. split.
      * exists oe. by rewrite lookup_delete_ne, lookup_insert_eq by done.
      * eapply moved_replace; try done; [by rewrite (count_None _ _ Hf)|].
        intros y (o1 & Hof & _). congruence.
    + destruct (_ && _) eqn:Hraw; [|exists h, a; split; [done|split; [done|apply moved_refl]]].
      destruct (sdsRemoveFreeSpace_rep (junk E) s x Hs Hl) as (s' & -> & Hs' & _). cbn [mbind option_bind].
      eexists _, _. split; [done|]. split; [|by apply moved_update with o].
      apply holds_new. split; [by apply Ho|]. left. split; [exact He|]. by exists s'.
Qed.

(** ** Decoding *)

Lemma length_junk n : length (junk E <$> seq 0 n) = n.
Proof. by rewrite length_fmap, length_seq. Qed.

(** The number printed in a buffer on the stack. *)
Lemma print_spec n v :
  is_llong v -> (21 < n)%nat ->
  exists tl, ll2string (junk E <$> seq 0 n) (Z.of_nat n) v
    = Some (Z.of_nat (length (decimal v)), decimal v ++ 0 :: tl).
Proof.
  intros Hv Hn. rewrite ll2string_spec by (done || rewrite length_junk; lia).
  pose proof (decimal_length_20 v Hv). rewrite decide_True by lia. by eexists.
Qed.

Lemma decode_spec fresh h a o x :
  h !! fresh = None -> h !! a = Some o -> str_obj o x -> 0 < refcount o < 2 ^ 31 - 1 ->
  Z.of_nat (length x) < SDS_LIMIT ->
  exists h' a' o', getDecodedObject E fresh h a = Some (h', a') /\ h' !! a' = Some o' /\ str_obj o' x /\
    sdsEncodedObject o' = true /\ h' = <[a' := o']> h /\ refcount o' = count h a' + 1 /\
    ((a' = a /\ o' = set_refcount o (refcount o + 1)) \/ (a' = fresh /\ encoding o = OBJ_ENCODING_INT)).
Proof.
  intros Hf Ha Ho Hr Hl. unfold getDecodedObject. rewrite Ha. cbn [mbind option_bind].
  destruct (sdsEncodedObject o) eqn:He.
  - rewrite (incr_spec h a o) by (done || lia). cbn [mbind option_bind]. eexists _, a, _. split; [done|].
    rewrite lookup_insert_eq. split; [done|]. split; [done|]. split; [done|]. split; [done|].
    rewrite (count_Some _ _ _ Ha). split; [done|]. by left.
  - destruct (int_string o x Ho He) as (Hint & v & Hp & Hv & ->). rewrite (proj1 Ho), Hint, Hp. cbn [Z.eqb Pos.eqb andb as_long mbind option_bind].
    change (OBJ_STRING =? OBJ_STRING) with true. change (OBJ_ENCODING_INT =? OBJ_ENCODING_INT) with true. cbn [andb].
    destruct (print_spec 32 v Hv ltac:(lia)) as (tl & Ep). change (Z.of_nat 32) with 32 in Ep. rewrite Ep. cbn [mbind option_bind].
    rewrite (strlen_app _ tl (decimal_no_nul v Hv)). cbn [mbind option_bind].
    destruct (create_spec h fresh (decimal v ++ 0 :: tl) (decimal v) (0 :: tl)) as (o' & -> & Ho' & Hr' & He');
      [done|done|]. cbn [mbind option_bind]. eexists _, fresh, o'. split; [done|]. rewrite lookup_insert_eq.
    split_and!; try done; [by rewrite (count_None _ _ Hf)|by right].
Qed.

(** ** Comparison *)

Definition is_str_len x : Prop := Z.of_nat (length x) < 2 ^ 31.

Lemma string_bytes_spec o x :
  str_obj o x -> exists tl, string_bytes E o = Some (Z.of_nat (length x), x ++ tl).
Proof.
  intros Ho. unfold string_bytes. destruct (sdsEncodedObject o) eqn:He.
  - destruct (encoded_string o x Ho He) as (s & -> & Hs). cbn [as_sds mbind option_bind].
    destruct (sds_rep_prefix s x Hs) as [tl ->]. exists tl. by rewrite (sds_rep_len s x Hs).
  - destruct (int_string o x Ho He) as (_ & v & -> & Hv & ->). cbn [as_long mbind option_bind].
    destruct (print_spec 128 v Hv ltac:(lia)) as (tl & Ep). change (Z.of_nat 128) with 128 in Ep. rewrite Ep. by eexists.
Qed.

Lemma rdn_take x tl n : (n <= length x)%nat -> rdn (x ++ tl) 0 n = Some (take n x).
Proof.
  intros Hn. unfold rdn. rewrite decide_True by (rewrite length_app; lia). rewrite drop_0. by rewrite take_app_le.
Qed.

Lemma compare_bytes x y :
  is_str_len x -> is_str_len y ->
  let n := (length x `min` length y)%nat in
  let c := memcmp (take n x) (take n y) in
  ((if c =? 0 then s32 (Z.of_nat (length x) - Z.of_nat (length y)) else c) ?= 0) = lex x y.
Proof.
  intros Hx Hy n c. unfold is_str_len in Hx, Hy. destruct (memcmp_lex x y) as [I1 I2]. fold n c in I1, I2.
  destruct (Z.eqb_spec c 0) as [Ec|Ec]; [|by apply I1]. rewrite wraps_small by (unfold is_signed; lia). by apply I2.
Qed.

Lemma compareStringObjects_spec h a b x y :
  holds h a x -> holds h b y -> is_str_len x -> is_str_len y ->
  exists c, compareStringObjects E h a b = Some c /\ (c ?= 0) = lex x y.
Proof.
  intros (oa & Ha & Hoa) (ob & Hb & Hob) Hx Hy. unfold compareStringObjects, compareStringObjectsWithFlags.
  rewrite Ha, Hb. cbn [mbind option_bind]. rewrite (proj1 Hoa), (proj1 Hob).
  change (OBJ_STRING =? OBJ_STRING) with true. cbn [andb negb].
  destruct (string_bytes_spec oa x Hoa) as (ta & Ea). destruct (string_bytes_spec ob y Hob) as (tb & Eb).
  destruct (Z.eqb_spec a b) as [->|Hne].
  { exists 0. split; [done|]. rewrite Ha in Hb. injection Hb as <-. rewrite Ea in Eb. injection Eb as Hlen Eb.
    assert (x = y) as -> by (apply (f_equal (take (length x))) in Eb; rewrite take_app_length in Eb;
      replace (length x) with (length y) in Eb by lia; by rewrite take_app_length in Eb).
    by rewrite lex_refl. }
  rewrite Ea, Eb. cbn [mbind option_bind].
  set (m := if _ <? _ then _ else _).
  assert (Z.to_nat m = (length x `min` length y)%nat) as ->.
  { unfold m. destruct (Z.ltb_spec (Z.of_nat (length x)) (Z.of_nat (length y))); lia. }
  rewrite !rdn_take by lia. cbn [mbind option_bind]. eexists. split; [done|]. by apply compare_bytes.
Qed.

Lemma equalStringObjects_spec h a b x y :
  holds h a x -> holds h b y -> is_str_len x -> is_str_len y ->
  equalStringObjects E h a b = Some (bool_decide (x = y)).
Proof.
  intros Hhx Hhy Hx Hy. destruct (compareStringObjects_spec h a b x y Hhx Hhy Hx Hy) as (c & Hc & Hlex).
  destruct Hhx as (oa & Ha & Hoa), Hhy as (ob & Hb & Hob). unfold equalStringObjects. rewrite Ha, Hb. cbn [mbind option_bind].
  destruct ((encoding oa =? OBJ_ENCODING_INT) && (encoding ob =? OBJ_ENCODING_INT)) eqn:Hi.
  - apply andb_prop in Hi as [Hia Hib]. apply Z.eqb_eq in Hia, Hib.
    assert (sdsEncodedObject oa = false /\ sdsEncodedObject ob = false) as [Ea Eb] by (unfold sdsEncodedObject; by rewrite Hia, Hib).
    destruct (int_string oa x Hoa Ea) as (_ & v & -> & Hv & ->), (int_string ob y Hob Eb) as (_ & w & -> & Hw & ->).
    cbn [as_long mbind option_bind]. f_equal. destruct (Z.eqb_spec v w) as [->|Hne].
    + by rewrite bool_decide_true.
    + rewrite bool_decide_false; [done|]. intros Hd. apply Hne. by apply decimal_inj.
  - rewrite Hc. cbn [mbind option_bind]. f_equal. destruct (Z.eqb_spec c 0) as [->|Hne].
    + symmetry in Hlex. change (0 ?= 0) with Eq in Hlex. apply lex_eq in Hlex. by rewrite bool_decide_true.
    + rewrite bool_decide_false; [done|]. intros ->. rewrite lex_refl in Hlex. apply Z.compare_eq in Hlex. done.
Qed.

Lemma stringObjectLen_spec h a x :
  holds h a x -> stringObjectLen h a = Some (Z.of_nat (length x)).
Proof.
  intros (o & Ha & Ho). unfold stringObjectLen. rewrite Ha. cbn [mbind option_bind].
  rewrite (proj1 Ho). change (OBJ_STRING =? OBJ_STRING) with true. cbn [negb].
  destruct (sdsEncodedObject o) eqn:He.
  - destruct (encoded_string o x Ho He) as (s & -> & Hs). cbn [as_sds mbind option_bind]. by rewrite (sds_rep_len s x Hs).
  - destruct (int_string o x Ho He) as (_ & v & -> & Hv & ->). cbn [as_long mbind option_bind]. by rewrite sdigits10_spec.
Qed.

(** ** Numbers *)

Lemma getLongLongFromObject_spec h a x :
  holds h a x -> exists r, getLongLongFromObject h (Some a) = Some r /\ forall v, r = Some v <-> is_llong v /\ x = decimal v.
Proof.
  intros (o & Ha & Ho). unfold getLongLongFromObject. rewrite Ha. cbn [mbind option_bind].
  rewrite (proj1 Ho). change (OBJ_STRING =? OBJ_STRING) with true. cbn [negb].
  destruct (sdsEncodedObject o) eqn:He.
  - destruct (encoded_string o x Ho He) as (s & -> & Hs). cbn [as_sds mbind option_bind].
    rewrite (sds_rep_read s x Hs). cbn [mbind option_bind]. eexists. split; [done|]. intros v. apply string2ll_spec.
  - destruct (int_string o x Ho He) as (-> & v & -> & Hv & ->). change (OBJ_ENCODING_INT =? OBJ_ENCODING_INT) with true.
    cbn [as_long mbind option_bind]. eexists. split; [done|]. intros w. split; [by intros [= ->]|].
    intros [Hw Hd]. apply decimal_inj in Hd; [by subst|done|done].
Qed.

Lemma getLongFromObjectOrReply_spec h a x msg :
  holds h a x -> exists r, getLongFromObjectOrReply h (Some a) msg = Some r /\
    match r with
    | inr v => is_llong v /\ x = decimal v
    | inl m => (forall v, is_llong v -> x <> decimal v) /\
        m = match msg with Some m => m | None => str "value is not an integer or out of range" end
    end.
Proof.
  intros Hh. destruct (getLongLongFromObject_spec h a x Hh) as (r & Hr & Hv).
  unfold getLongFromObjectOrReply, getLongLongFromObjectOrReply. rewrite Hr. cbn [mbind option_bind].
  eexists. split; [done|]. destruct r as [v|].
  - destruct (proj1 (Hv v) eq_refl) as [Hw Hx]. pose proof Hw as Hw'. unfold is_signed in Hw'. unfold LLONG_MIN, LLONG_MAX.
    rewrite (proj2 (Z.ltb_ge _ _)) by lia. rewrite Z.gtb_ltb, (proj2 (Z.ltb_ge _ _)) by lia. done.
  - split; [|done]. intros v Hw Hx. discriminate (proj2 (Hv v) (conj Hw Hx)).
Qed.

(** ** Keys of a dictionary *)

Lemma decr_more h a o : h !! a = Some o -> 1 < refcount o ->
  decrRefCount h a = Some (<[a := set_refcount o (refcount o - 1)]> h).
Proof.
  intros Ha Hr. unfold decrRefCount. rewrite Ha. cbn [mbind option_bind].
  rewrite (proj2 (Z.leb_gt _ _)) by lia. by rewrite (proj2 (Z.eqb_neq _ _)) by lia.
Qed.

(** One more reference to an object of the heap, or the first reference to a
    new string. *)
Definition taken h a o' : Prop :=
  (exists o, h !! a = Some o /\ o' = set_refcount o (refcount o + 1) /\ 0 < refcount o) \/
  (h !! a = None /\ refcount o' = 1 /\ exists x, str_obj o' x).

(** Giving back what was taken leaves the heap as it was. *)
Lemma taken_back h a o' : taken h a o' -> decrRefCount (<[a := o']> h) a = Some h.
Proof.
  intros [(o & Ha & -> & Hr)|(Ha & Hr & x & Hx)].
  - rewrite (decr_more _ _ (set_refcount o (refcount o + 1))); [|apply lookup_insert_eq|cbn [set_refcount refcount]; lia].
    rewrite insert_insert_eq. cbn [set_refcount refcount]. rewrite Z.add_simpl_r.
    replace (set_refcount _ _) with o by (destruct o; reflexivity). by rewrite insert_id.
  - rewrite (decr_last _ _ o' x) by (rewrite ?lookup_insert_eq; done). by rewrite delete_insert_id.
Qed.

Lemma taken_lookup h h' a o' : h' !! a = h !! a -> taken h a o' -> taken h' a o'.
Proof. unfold taken. by intros ->. Qed.

Lemma taken_back_both h a1 o1 a2 o2 :
  taken h a1 o1 -> taken (<[a1 := o1]> h) a2 o2 ->
  (h' ← decrRefCount (<[a2 := o2]> (<[a1 := o1]> h)) a1; decrRefCount h' a2) = Some h.
Proof.
  intros H1 H2. destruct (decide (a1 = a2)) as [->|Hne].
  - rewrite (taken_back _ _ _ H2). cbn [mbind option_bind]. by apply taken_back.
  - rewrite insert_insert_ne by congruence. rewrite taken_back by (apply (taken_lookup h); [by rewrite lookup_insert_ne|done]).
    cbn [mbind option_bind]. apply taken_back. apply (taken_lookup (<[a1 := o1]> h)); [by rewrite lookup_insert_ne|done].
Qed.

Lemma decode_taken fresh h a o x :
  h !! fresh = None -> h !! a = Some o -> str_obj o x -> 0 < refcount o < 2 ^ 31 - 1 ->
  Z.of_nat (length x) < SDS_LIMIT ->
  exists a' o' s, getDecodedObject E fresh h a = Some (<[a' := o']> h, a') /\ taken h a' o' /\
    ptr o' = PSds s /\ sds_rep s x /\ (a' = a \/ a' = fresh) /\ (forall y, holds h a' y -> str_obj o' y).
Proof.
  intros Hf Ha Ho Hr Hl.
  destruct (decode_spec fresh h a o x Hf Ha Ho Hr Hl) as (h' & a' & o' & -> & _ & Ho' & He & -> & Hc & Hor).
  destruct (encoded_string o' x Ho' He) as (s & Hp & Hs). exists a', o', s. split; [done|].
  destruct Hor as [[-> ->]|[-> _]].
  - split; [left; exists o; split_and!; done || lia|]. split; [done|]. split; [done|]. split; [by left|].
    intros y (o2 & H2 & Hy). rewrite Ha in H2. injection H2 as <-. exact Hy.
  - rewrite (count_None _ _ Hf) in Hc. split; [right; split_and!; [done|lia|by exists x]|]. split; [done|]. split; [done|].
    split; [by right|]. intros y (o2 & H2 & _). congruence.
Qed.

Lemma dictEncObjHash_spec seed fresh h a x :
  holds h a x -> is_str_len x ->
  dictEncObjHash E seed fresh h a = Some (h, Dict.dictGenHashFunction seed x).
Proof.
  intros (o & Ha & Ho) Hx. unfold is_str_len in Hx. unfold dictEncObjHash. rewrite Ha. cbn [mbind option_bind].
  destruct (sdsEncodedObject o) eqn:He.
  - destruct (encoded_string o x Ho He) as (s & -> & Hs). cbn [as_sds mbind option_bind].
    pose proof (sds_rep_read s x Hs) as Hread. rewrite (sds_rep_len s x Hs) in *.
    rewrite wraps_small by (unfold is_signed; lia). by rewrite Hread.
  - destruct (int_string o x Ho He) as (-> & v & -> & Hv & ->). change (OBJ_ENCODING_INT =? OBJ_ENCODING_INT) with true.
    cbn [as_long mbind option_bind]. destruct (print_spec 32 v Hv ltac:(lia)) as (tl & Ep).
    change (Z.of_nat 32) with 32 in Ep. rewrite Ep. cbn [mbind option_bind].
    rewrite wraps_small by (unfold is_signed; lia). by rewrite Nat2Z.id, rdn_app0.
Qed.

Lemma key_bytes x y sx sy tx ty :
  is_str_len x -> is_str_len y -> sdslen sx = Z.of_nat (length x) -> sdslen sy = Z.of_nat (length y) ->
  buf sx = x ++ tx -> buf sy = y ++ ty ->
  (if negb (s32 (sdslen sx) =? s32 (sdslen sy)) then Some false
   else x' ← rdn (buf sx) 0 (Z.to_nat (s32 (sdslen sx))); y' ← rdn (buf sy) 0 (Z.to_nat (s32 (sdslen sx))); Some (memcmp x' y' =? 0))
  = Some (bool_decide (x = y)).
Proof.
  unfold is_str_len. intros Hx Hy -> -> -> ->. rewrite !wraps_small by (unfold is_signed; lia).
  destruct (Z.eqb_spec (Z.of_nat (length x)) (Z.of_nat (length y))) as [El|El]; cbn [negb].
  - rewrite Nat2Z.id, rdn_app0, rdn_app0 by (done || lia). cbn [mbind option_bind]. f_equal.
    destruct (memcmp_lex x y) as [I1 I2]. replace (length x `min` length y)%nat with (length x) in I1, I2 by lia.
    rewrite (firstn_all x) in I1, I2. rewrite (take_ge y) in I1, I2 by lia.
    destruct (Z.eqb_spec (memcmp x y) 0) as [E0|E0].
    + specialize (I2 E0). replace (_ - _) with 0 in I2 by lia. symmetry in I2. apply lex_eq in I2. by rewrite bool_decide_true.
    + rewrite bool_decide_false; [done|]. intros ->. specialize (I1 E0). rewrite lex_refl in I1. by apply Z.compare_eq in I1.
  - rewrite bool_decide_false; [done|]. by intros ->.
Qed.


Lemma dictEncObjKeyCompare_spec f1 f2 h a b x y :
  holds h a x -> holds h b y -> is_str_len x -> is_str_len y ->
  0 < count h a < 2 ^ 31 - 2 -> 0 < count h b < 2 ^ 31 - 2 ->
  h !! f1 = None -> h !! f2 = None -> f1 <> f2 ->
  dictEncObjKeyCompare E f1 f2 h a b = Some (h, bool_decide (x = y)).
Proof.
  intros (oa & Ha & Hoa) (ob & Hb & Hob) Hx Hy Hra Hrb Hf1 Hf2 Hff.
  rewrite (count_Some _ _ _ Ha) in Hra. rewrite (count_Some _ _ _ Hb) in Hrb.
  unfold dictEncObjKeyCompare. rewrite Ha, Hb. cbn [mbind option_bind].
  destruct ((encoding oa =? OBJ_ENCODING_INT) && (encoding ob =? OBJ_ENCODING_INT)) eqn:Hi.
  { pose proof (equalStringObjects_spec h a b x y ltac:(by eexists) ltac:(by eexists) Hx Hy) as Heq.
    unfold equalStringObjects in Heq. rewrite Ha, Hb in Heq. cbn [mbind option_bind] in Heq. rewrite Hi in Heq.
    destruct (as_long (ptr oa)); [|done]. cbn [mbind option_bind] in *. destruct (as_long (ptr ob)); [|done].
    cbn [mbind option_bind] in *. by injection Heq as ->. }
  assert (forall z, is_str_len z -> Z.of_nat (length z) < SDS_LIMIT) as Hlim by (unfold is_str_len, SDS_LIMIT; lia).
  destruct (decode_taken f1 h a oa x Hf1 Ha Hoa ltac:(lia) (Hlim x Hx)) as (a1 & o1 & s1 & -> & T1 & Hp1 & Hs1 & Hor1 & Hk1).
  cbn [mbind option_bind]. set (h1 := <[a1 := o1]> h) in *.
  assert (exists ob1, h1 !! b = Some ob1 /\ str_obj ob1 y /\ 0 < refcount ob1 < 2 ^ 31 - 1) as (ob1 & Hb1 & Hob1 & Hrb1).
  { unfold h1. destruct (decide (b = a1)) as [->|Hne]; [|rewrite lookup_insert_ne by done; exists ob; split_and!; done || lia].
    rewrite lookup_insert_eq. exists o1. split; [done|]. split; [apply Hk1; by exists ob|].
    destruct T1 as [(o & Ho & -> & _)|(Hn & _)]; [|congruence]. rewrite Hb in Ho. injection Ho as <-. cbn [set_refcount refcount]. lia. }
  assert (h1 !! f2 = None) as Hf2'.
  { unfold h1. rewrite lookup_insert_ne; [done|]. destruct Hor1 as [->| ->]; congruence. }
  destruct (decode_taken f2 h1 b ob1 y Hf2' Hb1 Hob1 Hrb1 (Hlim y Hy)) as (a2 & o2 & s2 & -> & T2 & Hp2 & Hs2 & _ & _).
  cbn [mbind option_bind].
  assert (exists o1', <[a2 := o2]> h1 !! a1 = Some o1' /\ ptr o1' = PSds s1) as (o1' & -> & Hp1').
  { destruct (decide (a1 = a2)) as [->|Hne]; [|rewrite lookup_insert_ne by done; exists o1; unfold h1; by rewrite lookup_insert_eq].
    rewrite lookup_insert_eq. exists o2. split; [done|]. destruct T2 as [(o & Ho & -> & _)|(Hn & _)].
    - unfold h1 in Ho. rewrite lookup_insert_eq in Ho. injection Ho as <-. exact Hp1.
    - unfold h1 in Hn. by rewrite lookup_insert_eq in Hn. }
  rewrite lookup_insert_eq. cbn [mbind option_bind]. rewrite Hp1', Hp2. cbn [as_sds mbind option_bind].
  destruct (sds_rep_prefix s1 x Hs1) as [t1 Ht1], (sds_rep_prefix s2 y Hs2) as [t2 Ht2].
  rewrite (key_bytes x y s1 s2 t1 t2) by (done || by eapply sds_rep_len). cbn [mbind option_bind].
  pose proof (taken_back_both h a1 o1 a2 o2 T1 T2) as Hback. unfold h1. destruct (decrRefCount _ a1) as [h3|]; [|done].
  cbn [mbind option_bind] in *. by rewrite Hback.
Qed.

(** ** The shared integers *)

Lemma create_integers_spec base h n :
  (forall j, 0 <= j < Z.of_nat n -> foldl (create_integer E base) h (seqZ 0 (Z.of_nat n)) !! (base + j)
     = Some (RObj OBJ_STRING OBJ_ENCODING_INT (LRU_CLOCK E) 1 (PLong j))) /\
  (forall a, a < base \/ base + Z.of_nat n <= a -> foldl (create_integer E base) h (seqZ 0 (Z.of_nat n)) !! a = h !! a).
Proof.
  induction n as [|n [IH1 IH2]]; [split; [lia|done]|].
  rewrite seqZ_S, foldl_app. cbn [foldl]. unfold create_integer at 1 3. split.
  - intros j Hj. destruct (decide (j = 0 + Z.of_nat n)) as [->|Hne]; [apply lookup_insert_eq|].
    rewrite lookup_insert_ne by lia. apply IH1. lia.
  - intros a Ha. rewrite lookup_insert_ne by lia. apply IH2. lia.
Qed.

Lemma createSharedIntegers_ok base h :
  integers E = (fun j => base + j) <$> seqZ 0 OBJ_SHARED_INTEGERS -> shared_ok (createSharedIntegers E base h).
Proof.
  intros Hi. assert (0 <= OBJ_SHARED_INTEGERS) as Hpos by done. split.
  - by rewrite Hi, length_fmap, length_seqZ.
  - intros i a Ha. rewrite Hi, list_lookup_fmap in Ha. destruct (seqZ 0 OBJ_SHARED_INTEGERS !! i) as [j|] eqn:Hj; [|done].
    injection Ha as <-. apply lookup_seqZ in Hj as [-> Hlt]. unfold createSharedIntegers.
    rewrite <- (Z2Nat.id OBJ_SHARED_INTEGERS) by done. eexists.
    split; [apply create_integers_spec; lia|]. split_and!; try done.
Qed.

Lemma createSharedIntegers_other base h a :
  a < base -> createSharedIntegers E base h !! a = h !! a.
Proof.
  intros Ha. unfold createSharedIntegers. assert (0 <= OBJ_SHARED_INTEGERS) by done.
  rewrite <- (Z2Nat.id OBJ_SHARED_INTEGERS) by done. apply create_integers_spec. by left.
Qed.

End Spec.

(** ** Properties *)

(** C18. Encoding an object never changes the string it denotes, and accounts
    for the reference it is given: the reference to the object becomes one
    to the object returned, which may be the object itself, a shared integer
    or a smaller copy; an object nobody refers to any more is freed, and no
    other object changes its string or its count. *)
Theorem tryObjectEncoding_keeps_string {P} (E : env) fresh (h : gmap addr (robj P)) a x :
  shared_ok E h -> h !! fresh = None -> holds h a x -> 0 < count h a -> Z.of_nat (length x) < SDS_LIMIT ->
  exists h' a', tryObjectEncoding E fresh h a = Some (h', a') /\ holds h' a' x /\ moved h h' a a'.
Proof.
  intros Hs Hf (o & Ha & Ho) Hc Hl. rewrite (count_Some _ _ _ Ha) in Hc. by apply tryObjectEncoding_spec with o.
Qed.

(** Comparison of string objects is comparison of their strings, whatever
    their encodings: the sign of [compareStringObjects] is the lexicographic
    order of the bytes, a total order, and [equalStringObjects], which may skip
    the strings, agrees with it. *)
Theorem compareStringObjects_orders {P} (E : env) (h : gmap addr (robj P)) a b x y :
  holds h a x -> holds h b y -> is_str_len x -> is_str_len y ->
  (exists c, compareStringObjects E h a b = Some c /\ (c ?= 0) = lex x y) /\
  equalStringObjects E h a b = Some (bool_decide (x = y)) /\ (lex x y = Eq <-> x = y) /\ lex y x = CompOpp (lex x y).
Proof.
  intros Ha Hb Hx Hy. split; [by apply compareStringObjects_spec|]. split; [by apply equalStringObjects_spec|].
  split; [apply lex_eq|apply lex_antisym].
Qed.

(** C31. Objects can be keys of a dictionary: two keys compare equal exactly
    when they denote the same string, and then they hash to the same number,
    even when one is an encoded integer and the other is not; the objects
    made to decode the keys are all freed and every reference is given
    back. *)
Theorem dictEncObj_agree {P} (E : env) seed f1 f2 (h : gmap addr (robj P)) a b x y :
  holds h a x -> holds h b y -> is_str_len x -> is_str_len y ->
  0 < count h a < 2 ^ 31 - 2 -> 0 < count h b < 2 ^ 31 - 2 ->
  h !! f1 = None -> h !! f2 = None -> f1 <> f2 ->
  dictEncObjKeyCompare E f1 f2 h a b = Some (h, bool_decide (x = y)) /\
  dictEncObjHash E seed f1 h a = Some (h, Dict.dictGenHashFunction seed x) /\
  dictEncObjHash E seed f1 h b = Some (h, Dict.dictGenHashFunction seed y).
Proof.
  intros Ha Hb Hx Hy Ca Cb H1 H2 Hne. split; [by apply dictEncObjKeyCompare_spec|].
  split; by apply dictEncObjHash_spec.
Qed.

(** A heap with the shared integers, the string "12" at address 1, the integer
    12 at address 2 and the string "x" at address 3. *)
Definition sample_env : env := Env (fun _ => 0) 7 true ((fun j => 100 + j) <$> seqZ 0 OBJ_SHARED_INTEGERS).

Definition sample_sds (x : bytes) : sds := Sds SDS_TYPE_8 (Z.of_nat (length x)) (Z.of_nat (length x)) (x ++ [0]).

Definition sample_objects : gmap addr (robj unit) :=
  <[1 := RObj OBJ_STRING OBJ_ENCODING_RAW 0 1 (PSds (sample_sds (str "12")))]>
  (<[2 := RObj OBJ_STRING OBJ_ENCODING_INT 0 1 (PLong 12)]>
  (<[3 := RObj OBJ_STRING OBJ_ENCODING_EMBSTR 0 2 (PSds (sample_sds (str "x")))]> ∅)).

Definition sample_heap : gmap addr (robj unit) := createSharedIntegers sample_env 100 sample_objects.

Lemma sample_heap_ok : shared_ok sample_env sample_heap.
Proof. by apply createSharedIntegers_ok. Qed.

Lemma sample_lookup a : a < 100 -> sample_heap !! a = sample_objects !! a.
Proof. apply createSharedIntegers_other. Qed.

Lemma sample_sds_rep x : Z.of_nat (length x) < 256 -> sds_rep (sample_sds x) x.
Proof.
  intros Hx. split.
  - unfold sds_hdr, sds_type, sample_sds. cbn [flags hlen halloc].
    change (Z.land SDS_TYPE_8 SDS_TYPE_MASK) with 1. change (2 ^ sds_width 1) with 256. split; [lia|]. split; [done|lia].
  - exists []. unfold sdslen, sdsalloc, sds_type, sample_sds. cbn [flags hlen halloc buf length].
    change (Z.land SDS_TYPE_8 SDS_TYPE_MASK) with 1. cbn. split; [done|]. lia.
Qed.

Lemma sample_holds :
  holds sample_heap 1 (str "12") /\ holds sample_heap 2 (str "12") /\ holds sample_heap 3 (str "x").
Proof.
  split_and!; (eexists; split; [by rewrite sample_lookup|]); split; try done.
  - left. split; [done|]. exists (sample_sds (str "12")). split; [done|by apply sample_sds_rep].
  - right. split; [done|]. exists 12. done.
  - left. split; [done|]. exists (sample_sds (str "x")). split; [done|by apply sample_sds_rep].
Qed.

Lemma sample_count a n : a < 100 -> count sample_objects a = n -> count sample_heap a = n.
Proof. intros Ha <-. unfold count. by rewrite sample_lookup. Qed.

Lemma tryObjectEncoding_keeps_string_witness :
  exists h' a', tryObjectEncoding sample_env 4 sample_heap 1 = Some (h', a') /\ holds h' a' (str "12") /\
    moved sample_heap h' 1 a'.
Proof.
  apply tryObjectEncoding_keeps_string.
  - apply sample_heap_ok.
  - by rewrite sample_lookup.
  - exact (proj1 sample_holds).
  - by rewrite (sample_count 1 1).
  - reflexivity.
Defined.

Lemma compareStringObjects_orders_witness :
  equalStringObjects sample_env sample_heap 1 2 = Some true /\
  equalStringObjects sample_env sample_heap 2 3 = Some false /\
  exists c, compareStringObjects sample_env sample_heap 2 3 = Some c /\ (c ?= 0) = Lt.
Proof.
  destruct sample_holds as (H1 & H2 & H3).
  destruct (compareStringObjects_orders sample_env sample_heap 1 2 _ _ H1 H2 eq_refl eq_refl) as (_ & E12 & _).
  destruct (compareStringObjects_orders sample_env sample_heap 2 3 _ _ H2 H3 eq_refl eq_refl) as (C23 & E23 & _).
  split; [exact E12|]. split; [exact E23|exact C23].
Defined.

Lemma dictEncObj_agree_witness :
  dictEncObjKeyCompare sample_env 4 5 sample_heap 1 2 = Some (sample_heap, true) /\
  dictEncObjHash sample_env 5381 4 sample_heap 1 = dictEncObjHash sample_env 5381 4 sample_heap 2.
Proof.
  destruct sample_holds as (H1 & H2 & _).
  destruct (dictEncObj_agree sample_env 5381 4 5 sample_heap 1 2 _ _ H1 H2 eq_refl eq_refl) as (Hc & Ha & Hb).
  - rewrite (sample_count 1 1) by done. lia.
  - rewrite (sample_count 2 1) by done. lia.
  - by rewrite sample_lookup.
  - by rewrite sample_lookup.
  - discriminate.
  - split; [exact Hc|]. rewrite Ha, Hb. reflexivity.
Defined.


End ObjectSpec.
