(* ===== verification/Lzf.v ===== *)
(** * LZF compression (src/lzf_c.c, src/lzf_d.c, src/lzfP.h)

    The build is the one of a 64-bit machine: the hash table holds offsets
    (LZF_USE_OFFSETS), is not initialised (INIT_HTAB is 0), and the code is the
    VERY_FAST one with CHECK_INPUT.  Pointers are offsets in the input and
    output buffers, and every access is checked: [None] is an access outside
    of a buffer. *)

From S2P Require Import Prelude.

Module Lzf.

Definition HLOG : Z := 16.
Definition HSIZE : Z := Z.shiftl 1 HLOG.
Definition MAX_LIT : Z := Z.shiftl 1 5.
Definition MAX_OFF : Z := Z.shiftl 1 13.
Definition MAX_REF : Z := Z.shiftl 1 8 + Z.shiftl 1 3.

(** ** Bytes of a buffer *)

Definition byte_at (m : bytes) (p : Z) : option Z :=
  if p <? 0 then None else m !! Z.to_nat p.

Definition put (m : bytes) (p b : Z) : option bytes :=
  if (0 <=? p) && (p <? Z.of_nat (length m)) then Some (<[Z.to_nat p := u8 b]> m) else None.

(** ** Hashing *)

Definition FRST (m : bytes) (p : Z) : option Z :=
  b0 ← byte_at m p; b1 ← byte_at m (p + 1); Some (Z.lor (Z.shiftl b0 8) b1).

Definition NEXT (v : Z) (m : bytes) (p : Z) : option Z :=
  b2 ← byte_at m (p + 2); Some (Z.lor (u32 (Z.shiftl v 8)) b2).

Definition IDX (h : Z) : Z := Z.land (u32 (Z.shiftr h (3 * 8 - HLOG) - u32 (h * 5))) (HSIZE - 1).

Section Compress.

(** What the slots of the table hold before they are written. *)
Context (garbage : Z -> Z).

Abbreviation LZF_STATE := (gmap Z Z).

Definition hslot (htab : LZF_STATE) (i : Z) : Z :=
  match htab !! i with Some p => p | None => garbage i end.

(** The variables of [lzf_compress]. *)
Record cstate := CState { ip : Z; op : Z; lit : Z; hval : Z; htab : LZF_STATE; out : bytes }.

(** The first [n] comparisons of the unrolled part; [true] when one of them
    failed. *)
Fixpoint unrolled (n : nat) (m : bytes) (ref ip len : Z) : option (Z * bool) :=
  match n with
  | O => Some (len, false)
  | S n =>
    let len := len + 1 in
    a ← byte_at m (ref + len); b ← byte_at m (ip + len);
    if negb (a =? b) then Some (len, true) else unrolled n m ref ip len
  end.

(** [do len++; while (len < maxlen && ref[len] == ip[len])]. *)
Fixpoint extend (fuel : nat) (m : bytes) (ref ip len maxlen : Z) : option Z :=
  match fuel with
  | O => None
  | S fuel =>
    let len := len + 1 in
    if len <? maxlen then
      a ← byte_at m (ref + len); b ← byte_at m (ip + len);
      if a =? b then extend fuel m ref ip len maxlen else Some len
    else Some len
  end.

Definition match_length (m : bytes) (ref ip maxlen : Z) : option Z :=
  '(len, stop) ← (if maxlen >? 16 then unrolled 16 m ref ip 2 else Some (2, false));
  if (stop : bool) then Some len else extend (Z.to_nat MAX_REF) m ref ip len maxlen.

(** The test of the main loop for a match at [ref]: the offset, or nothing. *)
Definition match_at (m : bytes) (ip ref : Z) : option (option Z) :=
  let off := u64 (ip - ref - 1) in
  if (off <? MAX_OFF) && (ref >? 0) then
    r2 ← byte_at m (ref + 2); i2 ← byte_at m (ip + 2);
    if r2 =? i2 then
      r0 ← byte_at m ref; r1 ← byte_at m (ref + 1);
      i0 ← byte_at m ip; i1 ← byte_at m (ip + 1);
      Some (if (r0 =? i0) && (r1 =? i1) then Some off else None)
    else Some None
  else Some None.

(** The bytes of a back reference of [len + 2] octets. *)
Definition put_ref (m : bytes) (op off len : Z) : option (bytes * Z) :=
  '(m, op) ← (if len <? 7 then
      m ← put m op (Z.shiftr off 8 + Z.shiftl len 5);
      Some (m, op + 1)
    else
      m ← put m op (Z.shiftr off 8 + Z.shiftl 7 5);
      m ← put m (op + 1) (len - 7);
      Some (m, op + 2));
  m ← put m op off;
  Some (m, op + 1).

Definition not_ (lit : Z) : Z := if lit =? 0 then 1 else 0.

(** One turn of the main loop on a match: the output alone when it is too small
    and the function returns 0, and [true] to leave the loop. *)
Definition match_step (m : bytes) (out_end : Z) (s : cstate) (hval : Z) (htab : LZF_STATE) (ref off : Z)
  : option (cstate * bool + bytes) :=
  let in_end := Z.of_nat (length m) in
  let ip := ip s in
  let op := op s in
  let lit := lit s in
  let maxlen := in_end - ip - 2 in
  let maxlen := if maxlen >? MAX_REF then MAX_REF else maxlen in
  if (op + 3 + 1 >=? out_end) && (op - not_ lit + 3 + 1 >=? out_end) then Some (inr (out s))
  else
    out ← put (out s) (op - lit - 1) (lit - 1);
    let op := op - not_ lit in
    len ← match_length m ref ip maxlen;
    let len := len - 2 in
    let ip := ip + 1 in
    '(out, op) ← put_ref out op off len;
    let op := op + 1 in
    let ip := ip + len + 1 in
    if ip >=? in_end - 2 then Some (inl (CState ip op 0 hval htab out, true))
    else
      let ip := ip - 2 in
      hval ← FRST m ip;
      hval ← NEXT hval m ip;
      let htab := <[IDX hval := ip]> htab in
      let ip := ip + 1 in
      hval ← NEXT hval m ip;
      let htab := <[IDX hval := ip]> htab in
      let ip := ip + 1 in
      Some (inl (CState ip op 0 hval htab out, false)).

(** Ending a run of [MAX_LIT] literals. *)
Definition end_full_run (s : cstate) : option cstate :=
  if lit s =? MAX_LIT then
    out ← put (out s) (op s - lit s - 1) (lit s - 1);
    Some (CState (ip s) (op s + 1) 0 (hval s) (htab s) out)
  else Some s.

(** [lit++; *op++ = *ip++], and the end of a full run. *)
Definition put_literal (m : bytes) (s : cstate) : option cstate :=
  b ← byte_at m (ip s);
  out ← put (out s) (op s) b;
  end_full_run (CState (ip s + 1) (op s + 1) (lit s + 1) (hval s) (htab s) out).

Fixpoint compress_loop (fuel : nat) (m : bytes) (out_end : Z) (s : cstate) : option (cstate + bytes) :=
  match fuel with
  | O => None
  | S fuel =>
    if ip s <? Z.of_nat (length m) - 2 then
      hval ← NEXT (hval s) m (ip s);
      let ref := hslot (htab s) (IDX hval) in
      let htab := <[IDX hval := ip s]> (htab s) in
      r ← match_at m (ip s) ref;
      match r with
      | Some off =>
        r ← match_step m out_end s hval htab ref off;
        match r with
        | inr out => Some (inr out)
        | inl (s, true) => Some (inl s)
        | inl (s, false) => compress_loop fuel m out_end s
        end
      | None =>
        if op s >=? out_end then Some (inr (out s))
        else
          s ← put_literal m (CState (ip s) (op s) (lit s) hval htab (out s));
          compress_loop fuel m out_end s
      end
    else Some (inl s)
  end.

Fixpoint literals_loop (fuel : nat) (m : bytes) (s : cstate) : option cstate :=
  match fuel with
  | O => None
  | S fuel =>
    if ip s <? Z.of_nat (length m) then s ← put_literal m s; literals_loop fuel m s else Some s
  end.

(** The input is the buffer [m], the output a buffer of [out_len] bytes; the
    result is what the function returns and the output. *)
Definition lzf_compress (m out_data : bytes) : option (Z * bytes) :=
  let in_len := Z.of_nat (length m) in
  let out_end := Z.of_nat (length out_data) in
  if (in_len =? 0) || (out_end =? 0) then Some (0, out_data)
  else
    hval ← FRST m 0;
    r ← compress_loop (S (length m)) m out_end (CState 0 1 0 hval ∅ out_data);
    match r with
    | inr out => Some (0, out)
    | inl s =>
      if op s + 3 >? out_end then Some (0, out s)
      else
        s ← literals_loop (S (length m)) m s;
        out ← put (out s) (op s - lit s - 1) (lit s - 1);
        Some (op s - not_ (lit s), out)
    end.

End Compress.

(** ** Decompression *)

(** [*op++ = *ref++], [n] times. *)
Fixpoint copy_octets (n : nat) (m : bytes) (op ref : Z) : option bytes :=
  match n with
  | O => Some m
  | S n => b ← byte_at m ref; m ← put m op b; copy_octets n m (op + 1) (ref + 1)
  end.

(** The same from another buffer. *)
Fixpoint copy_input (n : nat) (src m : bytes) (op ip : Z) : option bytes :=
  match n with
  | O => Some m
  | S n => b ← byte_at src ip; m ← put m op b; copy_input n src m (op + 1) (ip + 1)
  end.

Definition memcpy (m : bytes) (op ref len : Z) : option bytes :=
  if (op <? 0) || (ref <? 0) then None
  else bs ← rdn m (Z.to_nat ref) (Z.to_nat len); wrn m (Z.to_nat op) bs.

Definition copy_ref (m : bytes) (op ref len : Z) : option bytes :=
  if len <=? 9 then copy_octets (Z.to_nat (len + 2)) m op ref
  else
    let len := len + 2 in
    if op >=? ref + len then memcpy m op ref len else copy_octets (Z.to_nat len) m op ref.

(** The error the function leaves in errno when it returns 0. *)
Inductive lzf_error := E2BIG | EINVAL.

(** One turn of the loop: the new [ip], [op] and output, or an error. *)
Definition decompress_step (src : bytes) (ip op : Z) (m : bytes) : option (Z * Z * bytes + lzf_error) :=
  let in_end := Z.of_nat (length src) in
  let out_end := Z.of_nat (length m) in
  ctrl ← byte_at src ip;
  let ip := ip + 1 in
  if ctrl <? Z.shiftl 1 5 then
    let ctrl := ctrl + 1 in
    if op + ctrl >? out_end then Some (inr E2BIG)
    else if ip + ctrl >? in_end then Some (inr EINVAL)
    else
      m ← copy_input (Z.to_nat ctrl) src m op ip;
      Some (inl (ip + ctrl, op + ctrl, m))
  else
    let len := Z.shiftr ctrl 5 in
    let ref := op - Z.shiftl (Z.land ctrl 31) 8 - 1 in
    if ip >=? in_end then Some (inr EINVAL)
    else
      '(len, ip) ← (if len =? 7 then b ← byte_at src ip; Some (len + b, ip + 1) else Some (len, ip));
      if (Z.shiftr ctrl 5 =? 7) && (ip >=? in_end) then Some (inr EINVAL)
      else
        b ← byte_at src ip;
        let ref := ref - b in
        let ip := ip + 1 in
        if op + len + 2 >? out_end then Some (inr E2BIG)
        else if ref <? 0 then Some (inr EINVAL)
        else
          m ← copy_ref m op ref len;
          Some (inl (ip, op + len + 2, m)).

(** [do ... while (ip < in_end)]. *)
Fixpoint decompress_loop (fuel : nat) (src : bytes) (ip op : Z) (m : bytes) : option (Z * bytes + lzf_error) :=
  match fuel with
  | O => None
  | S fuel =>
    r ← decompress_step src ip op m;
    match r with
    | inr e => Some (inr e)
    | inl (ip, op, m) =>
      if ip <? Z.of_nat (length src) then decompress_loop fuel src ip op m else Some (inl (op, m))
    end
  end.

Definition lzf_decompress (src out_data : bytes) : option (Z * bytes + lzf_error) :=
  decompress_loop (length src) src 0 0 out_data.

End Lzf.
