(* ===== verification/LzfSpec.v ===== *)
(** * LZF decompression undoes compression (src/lzf_c.c, src/lzf_d.c)

    [stream c y] says that the compressed bytes [c] are those of the bytes [y]:
    runs of literals and references to what precedes.  The compressor is shown
    to produce such a stream for its input, whatever its hash table holds, and
    the decompressor to read any such stream back; on arbitrary bytes the
    decompressor stays inside of its buffers. *)

From S2P Require Import Prelude Lzf.
Import Lzf.

Module LzfSpec.

Implicit Types (x y c l r t m src : bytes) (n off len : Z).

(** ** Accesses *)

Lemma byte_at_nat m i : byte_at m (Z.of_nat i) = m !! i.
Proof. unfold byte_at. rewrite (proj2 (Z.ltb_ge _ _)) by lia. by rewrite Nat2Z.id. Qed.

Lemma byte_at_Some m p : 0 <= p < Z.of_nat (length m) -> exists b, byte_at m p = Some b.
Proof.
  intros Hp. rewrite <- (Z2Nat.id p) by lia. rewrite byte_at_nat.
  apply lookup_lt_is_Some_2. lia.
Qed.

Lemma byte_at_app m m' p : 0 <= p < Z.of_nat (length m) -> byte_at (m ++ m') p = byte_at m p.
Proof. intros Hp. rewrite <- (Z2Nat.id p), !byte_at_nat by lia. apply lookup_app_l. lia. Qed.

Lemma byte_at_mid a b c p : p = Z.of_nat (length a) -> byte_at (a ++ b :: c) p = Some b.
Proof. intros ->. rewrite byte_at_nat. by apply list_lookup_middle. Qed.

Lemma byte_at_u8 m p b : Forall is_u8 m -> byte_at m p = Some b -> is_u8 b.
Proof.
  unfold byte_at. destruct (p <? 0); [done|]. intros Hm Hb. rewrite Forall_lookup in Hm. by eapply Hm.
Qed.

Lemma put_mid a b c p v :
  p = Z.of_nat (length a) -> put (a ++ b :: c) p v = Some (a ++ u8 v :: c).
Proof.
  intros ->. unfold put. rewrite length_app. cbn [length].
  rewrite (proj2 (Z.leb_le _ _)), (proj2 (Z.ltb_lt _ _)) by lia. cbn [andb].
  rewrite Nat2Z.id, insert_app_r_alt, Nat.sub_diag by lia. done.
Qed.

Lemma put_length m p v m' : put m p v = Some m' -> length m' = length m.
Proof. unfold put. destruct (_ && _); [|done]. intros [= <-]. apply length_insert. Qed.

Lemma put_Some m p v : 0 <= p < Z.of_nat (length m) -> exists m', put m p v = Some m'.
Proof.
  intros Hp. unfold put. rewrite (proj2 (Z.leb_le _ _)), (proj2 (Z.ltb_lt _ _)) by lia. by eexists.
Qed.

(** ** Copies *)

(** Appending the byte [off + 1] back from the end, [n] times. *)
Fixpoint expand (n : nat) (off : Z) (y : bytes) : bytes :=
  match n with
  | O => y
  | S n => expand n off (y ++ [default 0 (byte_at y (Z.of_nat (length y) - off - 1))])
  end.

Lemma length_expand k off y : length (expand k off y) = (length y + k)%nat.
Proof. revert y. induction k as [|k IH]; intros y; cbn [expand]; [lia|]. rewrite IH, length_app. cbn [length]. lia. Qed.

Lemma expand_u8 k off y : Forall is_u8 y -> 0 <= off < Z.of_nat (length y) -> Forall is_u8 (expand k off y).
Proof.
  revert y. induction k as [|k IH]; intros y Hy Hoff; [done|]. cbn [expand]. apply IH.
  - apply Forall_app. split; [done|]. constructor; [|constructor].
    destruct (byte_at_Some y (Z.of_nat (length y) - off - 1)) as [b Hb]; [lia|]. rewrite Hb. change (default 0 (Some b)) with b. by eapply byte_at_u8.
  - rewrite length_app. cbn [length]. lia.
Qed.

Lemma copy_octets_spec k off : forall y r,
  Forall is_u8 y -> 0 <= off < Z.of_nat (length y) -> (k <= length r)%nat ->
  copy_octets k (y ++ r) (Z.of_nat (length y)) (Z.of_nat (length y) - off - 1)
    = Some (expand k off y ++ drop k r).
Proof.
  induction k as [|k IH]; intros y r Hy Hoff Hr; [done|]. destruct r as [|b0 r]; [cbn [length] in Hr; lia|].
  cbn [copy_octets expand drop]. destruct (byte_at_Some y (Z.of_nat (length y) - off - 1)) as [b Hb]; [lia|].
  rewrite byte_at_app by lia. rewrite Hb. cbn [mbind option_bind]. change (default 0 (Some b)) with b.
  pose proof (byte_at_u8 _ _ _ Hy Hb) as Hb8.
  rewrite put_mid by done. cbn [mbind option_bind]. rewrite (wrapu_small 8 b) by done.
  replace (y ++ b :: r) with ((y ++ [b]) ++ r) by (by rewrite <- app_assoc).
  specialize (IH (y ++ [b]) r). rewrite length_app in IH. cbn [length] in IH, Hr.
  replace (Z.of_nat (length y + 1)) with (Z.of_nat (length y) + 1) in IH by lia.
  replace (Z.of_nat (length y) + 1 - off - 1) with (Z.of_nat (length y) - off - 1 + 1) in IH by lia.
  apply IH; [|lia|lia]. apply Forall_app. by split; [|constructor].
Qed.

(** A copy that does not overlap. *)
Lemma expand_disjoint k off : forall y,
  0 <= off < Z.of_nat (length y) -> Z.of_nat k <= off + 1 ->
  expand k off y = y ++ take k (drop (Z.to_nat (Z.of_nat (length y) - off - 1)) y).
Proof.
  induction k as [|k IH]; intros y Hoff Hk; cbn [expand]; [by rewrite take_0, app_nil_r|].
  destruct (byte_at_Some y (Z.of_nat (length y) - off - 1)) as [b Hb]; [lia|]. rewrite Hb. change (default 0 (Some b)) with b.
  rewrite <- (Z2Nat.id (Z.of_nat (length y) - off - 1)), byte_at_nat in Hb by lia.
  rewrite (drop_S _ b) by done. cbn [take]. rewrite IH by (rewrite ?length_app; cbn [length]; lia). rewrite length_app. cbn [length].
  rewrite <- app_assoc. cbn [app]. f_equal. f_equal.
  replace (Z.to_nat (Z.of_nat (length y + 1) - off - 1)) with (S (Z.to_nat (Z.of_nat (length y) - off - 1))) by lia.
  rewrite drop_app_le by lia. rewrite take_app_le by (rewrite length_drop; lia). done.
Qed.

Lemma copy_ref_spec y r off len :
  Forall is_u8 y -> 0 <= off < Z.of_nat (length y) -> 0 <= len -> len + 2 <= Z.of_nat (length r) ->
  copy_ref (y ++ r) (Z.of_nat (length y)) (Z.of_nat (length y) - off - 1) len
    = Some (expand (Z.to_nat (len + 2)) off y ++ drop (Z.to_nat (len + 2)) r).
Proof.
  intros Hy Hoff Hlen Hr. unfold copy_ref. destruct (len <=? 9); [apply copy_octets_spec; [done|done|lia]|].
  destruct (Z.geb_spec (Z.of_nat (length y)) (Z.of_nat (length y) - off - 1 + (len + 2))) as [Hd|Hd];
    [|apply copy_octets_spec; [done|done|lia]].
  unfold memcpy. rewrite (proj2 (Z.ltb_ge _ _)), (proj2 (Z.ltb_ge _ _)) by lia. cbn [orb].
  rewrite expand_disjoint by lia. set (p := Z.to_nat (Z.of_nat (length y) - off - 1)). set (k := Z.to_nat (len + 2)).
  assert (rdn (y ++ r) p k = Some (take k (drop p y))) as ->.
  { unfold rdn. rewrite decide_True by (rewrite length_app; lia). rewrite drop_app_le by lia.
    by rewrite take_app_le by (rewrite length_drop; lia). }
  cbn [mbind option_bind]. rewrite Nat2Z.id. rewrite <- (take_drop k r) at 1.
  rewrite wrn_app; [by rewrite <- app_assoc|done|]. rewrite !length_take, length_drop. lia.
Qed.

Lemma copy_input_spec l : forall a b y r,
  Forall is_u8 l -> (length l <= length r)%nat ->
  copy_input (length l) (a ++ l ++ b) (y ++ r) (Z.of_nat (length y)) (Z.of_nat (length a))
    = Some (y ++ l ++ drop (length l) r).
Proof.
  induction l as [|c l IH]; intros a b y r Hl Hr; [done|]. destruct r as [|d r]; [cbn [length] in Hr; lia|].
  apply Forall_cons in Hl as [Hc Hl]. cbn [length copy_input app drop] in *. rewrite byte_at_mid by done. cbn [mbind option_bind].
  rewrite put_mid by done. cbn [mbind option_bind]. rewrite (wrapu_small 8 c) by done.
  specialize (IH (a ++ [c]) b (y ++ [c]) r Hl). rewrite !length_app in IH. cbn [length] in IH.
  replace (Z.of_nat (length y + 1)) with (Z.of_nat (length y) + 1) in IH by lia.
  replace (Z.of_nat (length a + 1)) with (Z.of_nat (length a) + 1) in IH by lia.
  rewrite <- !app_assoc in IH. cbn [app] in IH. apply IH. lia.
Qed.

(** ** Streams *)

(** The bytes of a reference of [n + 2] octets at [off + 1] back. *)
Definition ref_bytes (off n : Z) : bytes :=
  if n <? 7 then [Z.shiftr off 8 + Z.shiftl n 5; u8 off]
  else [Z.shiftr off 8 + Z.shiftl 7 5; n - 7; u8 off].

Inductive stream : bytes -> bytes -> Prop :=
| st_nil : stream [] []
| st_lit c y l : stream c y -> (1 <= length l <= 32)%nat -> Forall is_u8 l ->
    stream (c ++ (Z.of_nat (length l) - 1) :: l) (y ++ l)
| st_ref c y off n : stream c y -> 0 <= off < 8192 -> off < Z.of_nat (length y) -> 1 <= n <= 262 ->
    stream (c ++ ref_bytes off n) (expand (Z.to_nat (n + 2)) off y).

Lemma stream_u8 c y : stream c y -> Forall is_u8 y.
Proof.
  induction 1 as [|c y l Hs IH Hl Hu|c y off n Hs IH Ho1 Ho2 Hn]; [done|by apply Forall_app|].
  apply expand_u8; [done|lia].
Qed.

Lemma stream_nonempty c y : stream c y -> y <> [] -> c <> [].
Proof.
  destruct 1 as [|c y l _ _ _|c y off n _ _ _ _]; intros Hy; [done| |].
  - by destruct c.
  - unfold ref_bytes. destruct (n <? 7); by destruct c.
Qed.

(** *** One turn of the decompressor *)

Lemma step_lit a l b y r :
  (1 <= length l <= 32)%nat -> Forall is_u8 l -> (length l <= length r)%nat ->
  decompress_step (a ++ (Z.of_nat (length l) - 1) :: l ++ b) (Z.of_nat (length a)) (Z.of_nat (length y)) (y ++ r)
    = Some (inl (Z.of_nat (length (a ++ (Z.of_nat (length l) - 1) :: l)), Z.of_nat (length (y ++ l)),
                 (y ++ l) ++ drop (length l) r)).
Proof.
  intros Hl Hu Hr. unfold decompress_step. rewrite (byte_at_mid a _ _ (Z.of_nat (length a))) by done. cbn [mbind option_bind].
  change (Z.shiftl 1 5) with 32. rewrite (proj2 (Z.ltb_lt _ _)) by lia. cbv zeta.
  rewrite !length_app. cbn [length]. rewrite length_app.
  rewrite !Z.gtb_ltb, !(proj2 (Z.ltb_ge _ _)) by lia.
  replace (Z.of_nat (length l) - 1 + 1) with (Z.of_nat (length l)) by lia. rewrite Nat2Z.id.
  pose proof (copy_input_spec l (a ++ [Z.of_nat (length l) - 1]) b y r Hu Hr) as Hc.
  rewrite <- app_assoc, length_app in Hc. cbn [app length] in Hc.
  replace (Z.of_nat (length a) + 1) with (Z.of_nat (length a + 1)) by lia. rewrite Hc. cbn [mbind option_bind].
  rewrite <- app_assoc. do 3 f_equal. f_equal; lia.
Qed.

Lemma shift_fields off n : 0 <= off < 8192 -> 1 <= n <= 7 ->
  let ctrl := Z.shiftr off 8 + Z.shiftl n 5 in
  32 <= ctrl < 256 /\ Z.shiftr ctrl 5 = n /\ Z.land ctrl 31 = Z.shiftr off 8.
Proof.
  intros Ho Hn ctrl. rewrite (shiftr_div off 8) in * by lia. unfold ctrl. rewrite !Z.shiftr_div_pow2, Z.shiftl_mul_pow2 by lia.
  change (2 ^ 8) with 256. change (2 ^ 5) with 32.
  assert (0 <= off / 256 < 32) as H by dlia. split; [lia|]. split; [dlia|].
  rewrite (land_ones_mod _ 5) by done. change (2 ^ 5) with 32. dlia.
Qed.

Lemma low_high off : 0 <= off < 8192 -> Z.shiftl (Z.shiftr off 8) 8 + u8 off = off.
Proof.
  intros Ho. rewrite Z.shiftl_mul_pow2, shiftr_div by lia. unfold wrapu. change (2 ^ 8) with 256. dlia.
Qed.

Lemma step_ref a b y r off n :
  0 <= off < 8192 -> off < Z.of_nat (length y) -> 1 <= n <= 262 -> Forall is_u8 y ->
  n + 2 <= Z.of_nat (length r) ->
  decompress_step (a ++ ref_bytes off n ++ b) (Z.of_nat (length a)) (Z.of_nat (length y)) (y ++ r)
    = Some (inl (Z.of_nat (length (a ++ ref_bytes off n)), Z.of_nat (length (expand (Z.to_nat (n + 2)) off y)),
                 expand (Z.to_nat (n + 2)) off y ++ drop (Z.to_nat (n + 2)) r)).
Proof.
  intros Ho Hy Hn Hu Hr. pose proof (low_high off Ho) as Hlow. unfold decompress_step, ref_bytes.
  rewrite length_expand, !length_app. change (Z.shiftl 1 5) with 32.
  destruct (Z.ltb_spec n 7) as [H7|H7]; cbn [app length].
  - destruct (shift_fields off n Ho ltac:(lia)) as (Hc & Hs & Hl). set (ctrl := Z.shiftr off 8 + Z.shiftl n 5) in *.
    rewrite (byte_at_mid a _ _ (Z.of_nat (length a))) by done. cbn [mbind option_bind]. rewrite (proj2 (Z.ltb_ge ctrl 32)) by lia. cbv zeta. rewrite Hs, Hl.
    rewrite Z.geb_leb, (proj2 (Z.leb_gt _ _)) by lia. rewrite (proj2 (Z.eqb_neq n 7)) by lia. cbn [mbind option_bind andb].
    replace (a ++ ctrl :: u8 off :: b) with ((a ++ [ctrl]) ++ u8 off :: b) by (by rewrite <- app_assoc).
    rewrite byte_at_mid by (rewrite length_app; cbn [length]; lia). cbn [mbind option_bind].
    rewrite Z.gtb_ltb, (proj2 (Z.ltb_ge _ _)) by lia.
    replace (Z.of_nat (length y) - Z.shiftl (Z.shiftr off 8) 8 - 1 - u8 off) with (Z.of_nat (length y) - off - 1) by lia.
    rewrite (proj2 (Z.ltb_ge _ _)) by lia. rewrite copy_ref_spec by (done || lia). cbn [mbind option_bind].
    do 3 f_equal. f_equal; lia.
  - destruct (shift_fields off 7 Ho ltac:(lia)) as (Hc & Hs & Hl). set (ctrl := Z.shiftr off 8 + Z.shiftl 7 5) in *.
    rewrite (byte_at_mid a _ _ (Z.of_nat (length a))) by done. cbn [mbind option_bind]. rewrite (proj2 (Z.ltb_ge ctrl 32)) by lia. cbv zeta. rewrite Hs, Hl.
    rewrite Z.geb_leb, (proj2 (Z.leb_gt _ _)) by lia. change (7 =? 7) with true. cbn iota.
    replace (a ++ ctrl :: n - 7 :: u8 off :: b) with ((a ++ [ctrl]) ++ n - 7 :: u8 off :: b) by (by rewrite <- app_assoc).
    rewrite byte_at_mid by (rewrite length_app; cbn [length]; lia). cbn [mbind option_bind andb].
    rewrite Z.geb_leb, (proj2 (Z.leb_gt _ _)) by lia.
    replace ((a ++ [ctrl]) ++ n - 7 :: u8 off :: b) with ((a ++ [ctrl; n - 7]) ++ u8 off :: b) by (by rewrite <- !app_assoc).
    rewrite byte_at_mid by (rewrite length_app; cbn [length]; lia). cbn [mbind option_bind].
    replace (7 + (n - 7)) with n by lia. rewrite Z.gtb_ltb, (proj2 (Z.ltb_ge _ _)) by lia.
    replace (Z.of_nat (length y) - Z.shiftl (Z.shiftr off 8) 8 - 1 - u8 off) with (Z.of_nat (length y) - off - 1) by lia.
    rewrite (proj2 (Z.ltb_ge _ _)) by lia. rewrite copy_ref_spec by (done || lia). cbn [mbind option_bind].
    do 3 f_equal. f_equal; lia.
Qed.

(** *** The whole loop *)

Definition at_stream (c y b m : bytes) (k : nat) : Prop :=
  forall fuel, decompress_loop (k + fuel) (c ++ b) 0 0 m
    = decompress_loop fuel (c ++ b) (Z.of_nat (length c)) (Z.of_nat (length y)) (y ++ drop (length y) m).

Lemma loop_step src (a y m : bytes) (ip' : Z) (y' m' : bytes) (fuel : nat) :
  decompress_step src (Z.of_nat (length a)) (Z.of_nat (length y)) (y ++ drop (length y) m) = Some (inl (ip', Z.of_nat (length y'), m')) ->
  decompress_loop (S fuel) src (Z.of_nat (length a)) (Z.of_nat (length y)) (y ++ drop (length y) m)
    = if ip' <? Z.of_nat (length src) then decompress_loop fuel src ip' (Z.of_nat (length y')) m'
      else Some (inl (Z.of_nat (length y'), m')).
Proof. intros H. cbn [decompress_loop]. by rewrite H. Qed.

(** A stream is read back: with more to come the loop goes on after it, at the
    end it returns. *)
Lemma stream_step c y b m :
  stream c y -> (length y <= length m)%nat -> c <> [] ->
  (forall c0 y0 b0, stream c0 y0 -> c = c0 ++ b0 -> (length c0 < length c)%nat -> (length y0 <= length m)%nat ->
     exists k, (k <= length c0)%nat /\ at_stream c0 y0 (b0 ++ b) m k) ->
  exists k, (k < length c)%nat /\ forall fuel,
    decompress_loop (k + S fuel) (c ++ b) 0 0 m
    = if bool_decide (b = []) then Some (inl (Z.of_nat (length y), y ++ drop (length y) m))
      else decompress_loop fuel (c ++ b) (Z.of_nat (length c)) (Z.of_nat (length y)) (y ++ drop (length y) m).
Proof.
  intros Hs Hm Hne IH.
  assert (forall a : bytes, (Z.of_nat (length a) <? Z.of_nat (length (a ++ b))) = negb (bool_decide (b = []))) as Hend.
  { intros a. rewrite length_app. destruct b as [|b0 b].
    - rewrite bool_decide_true by done. apply Z.ltb_ge. cbn [length]. lia.
    - rewrite bool_decide_false by done. apply Z.ltb_lt. cbn [length]. lia. }
  destruct Hs as [|c y l Hs Hl Hu|c y off n Hs Ho1 Ho2 Hn]; [done| |].
  - rewrite length_app in Hm. destruct (IH c y ((Z.of_nat (length l) - 1) :: l) Hs eq_refl) as (k & Hk & Hat);
      [rewrite length_app; cbn [length]; lia|lia|]. exists k. rewrite length_app. cbn [length]. split; [lia|].
    intros fuel. rewrite <- app_assoc, Hat. cbn [app]. erewrite (loop_step _ c y m); [|
      apply step_lit; [done|done|rewrite length_drop; lia]].
    replace (c ++ Z.of_nat (length l) - 1 :: l ++ b) with ((c ++ Z.of_nat (length l) - 1 :: l) ++ b) by (by rewrite <- app_assoc).
    rewrite Hend, drop_drop, (length_app y l), (length_app c). cbn [length]. by destruct (bool_decide (b = [])).
  - rewrite length_expand in Hm. destruct (IH c y (ref_bytes off n) Hs eq_refl) as (k & Hk & Hat);
      [rewrite length_app; unfold ref_bytes; destruct (n <? 7); cbn [length]; lia|lia|].
    exists k. split; [rewrite length_app; unfold ref_bytes; destruct (n <? 7); cbn [length]; lia|].
    intros fuel. rewrite <- app_assoc, Hat. erewrite (loop_step _ c y m); [|
      apply step_ref; [done|done|done|by eapply stream_u8|rewrite length_drop; lia]].
    rewrite app_assoc, Hend, drop_drop, length_expand. by destruct (bool_decide (b = [])).
Qed.

Lemma at_stream_spec (n : nat) : forall c y (b : bytes) m, (length c <= n)%nat -> stream c y -> b <> [] -> (length y <= length m)%nat ->
  exists k, (k <= length c)%nat /\ at_stream c y b m k.
Proof.
  induction n as [|n IH]; intros c y b m Hn Hs Hb Hm.
  - exists 0%nat. destruct c; [|cbn [length] in Hn; lia]. split; [lia|]. intros fuel.
    destruct y as [|y0 y]; [done|]. by destruct (stream_nonempty _ _ Hs).
  - destruct (decide (c = [])) as [->|Hc].
    + exists 0%nat. split; [lia|]. intros fuel. destruct y as [|y0 y]; [done|]. by destruct (stream_nonempty _ _ Hs).
    + destruct (stream_step c y b m Hs Hm Hc) as (k & Hk & Hloop).
      { intros c0 y0 b0 Hs0 -> Hlt Hm0. apply (IH c0 y0 (b0 ++ b) m); [lia|done|by destruct b0|done]. }
      exists (S k). split; [lia|]. intros fuel. replace (S k + fuel)%nat with (k + S fuel)%nat by lia.
      rewrite Hloop. by rewrite bool_decide_false.
Qed.

Lemma decompress_stream c y m :
  stream c y -> y <> [] -> (length y <= length m)%nat ->
  lzf_decompress c m = Some (inl (Z.of_nat (length y), y ++ drop (length y) m)).
Proof.
  intros Hs Hy Hm. pose proof (stream_nonempty c y Hs Hy) as Hc. unfold lzf_decompress.
  destruct (stream_step c y [] m Hs Hm Hc) as (k & Hk & Hloop).
  { intros c0 y0 b0 Hs0 -> Hlt Hm0. rewrite app_nil_r. apply (at_stream_spec (length c0)); [lia|done| |done].
    intros ->. rewrite app_nil_r in Hlt. lia. }
  rewrite app_nil_r in Hloop. replace (length c) with (k + S (length c - S k))%nat by lia. rewrite Hloop.
  by rewrite bool_decide_true.
Qed.

(** ** Arbitrary input *)

Lemma copy_octets_safe k : forall m op ref,
  0 <= op -> op + Z.of_nat k <= Z.of_nat (length m) -> 0 <= ref -> ref + Z.of_nat k <= Z.of_nat (length m) ->
  exists m', copy_octets k m op ref = Some m' /\ length m' = length m.
Proof.
  induction k as [|k IH]; intros m op ref H1 H2 H3 H4; [by exists m|]. cbn [copy_octets].
  destruct (byte_at_Some m ref) as [b ->]; [lia|]. destruct (put_Some m op b) as [m1 Hp]; [lia|].
  cbn [mbind option_bind]. rewrite Hp. cbn [mbind option_bind]. pose proof (put_length _ _ _ _ Hp) as Hl.
  destruct (IH m1 (op + 1) (ref + 1)) as (m' & -> & Hm'); [lia..|]. exists m'. split; [done|congruence].
Qed.

Lemma copy_input_safe k src : forall m op ip,
  0 <= op -> op + Z.of_nat k <= Z.of_nat (length m) -> 0 <= ip -> ip + Z.of_nat k <= Z.of_nat (length src) ->
  exists m', copy_input k src m op ip = Some m' /\ length m' = length m.
Proof.
  induction k as [|k IH]; intros m op ip H1 H2 H3 H4; [by exists m|]. cbn [copy_input].
  destruct (byte_at_Some src ip) as [b ->]; [lia|]. destruct (put_Some m op b) as [m1 Hp]; [lia|].
  cbn [mbind option_bind]. rewrite Hp. cbn [mbind option_bind]. pose proof (put_length _ _ _ _ Hp) as Hl.
  destruct (IH m1 (op + 1) (ip + 1)) as (m' & -> & Hm'); [lia..|]. exists m'. split; [done|congruence].
Qed.

Lemma copy_ref_safe m op ref len :
  0 <= len -> 0 <= ref < op -> op + len + 2 <= Z.of_nat (length m) ->
  exists m', copy_ref m op ref len = Some m' /\ length m' = length m.
Proof.
  intros H1 H2 H3. unfold copy_ref. destruct (len <=? 9); [apply copy_octets_safe; lia|].
  destruct (op >=? _); [|apply copy_octets_safe; lia]. unfold memcpy.
  rewrite (proj2 (Z.ltb_ge _ _)), (proj2 (Z.ltb_ge _ _)) by lia. cbn [orb]. unfold rdn, wrn.
  rewrite decide_True by lia. cbn [mbind option_bind]. rewrite decide_True by (rewrite length_take, length_drop; lia).
  eexists. split; [done|]. rewrite !length_app, !length_take, !length_drop. lia.
Qed.

Lemma decompress_step_safe src ip op m :
  Forall is_u8 src -> 0 <= ip < Z.of_nat (length src) -> 0 <= op <= Z.of_nat (length m) ->
  exists res, decompress_step src ip op m = Some res /\
    match res with
    | inl (ip', op', m') => ip < ip' <= Z.of_nat (length src) /\ op < op' <= Z.of_nat (length m) /\ length m' = length m
    | inr _ => True
    end.
Proof.
  intros Hsrc Hip Hop. unfold decompress_step. destruct (byte_at_Some src ip Hip) as [ctrl Hc]. rewrite Hc. cbn [mbind option_bind].
  pose proof (byte_at_u8 _ _ _ Hsrc Hc) as Hu. unfold is_unsigned in Hu. change (Z.shiftl 1 5) with 32. cbv zeta.
  destruct (Z.ltb_spec ctrl 32) as [Hlit|Href].
  - destruct (Z.gtb_spec (op + (ctrl + 1)) (Z.of_nat (length m))); [by eexists|].
    destruct (Z.gtb_spec (ip + 1 + (ctrl + 1)) (Z.of_nat (length src))); [by eexists|].
    destruct (copy_input_safe (Z.to_nat (ctrl + 1)) src m op (ip + 1)) as (m' & -> & Hm'); [lia..|].
    cbn [mbind option_bind]. eexists. split; [done|]. cbn beta iota. lia.
  - destruct (Z.geb_spec (ip + 1) (Z.of_nat (length src))); [by eexists|].
    assert (0 <= Z.shiftr ctrl 5) as Hs by (apply Z.shiftr_nonneg; lia).
    assert (0 <= Z.shiftl (Z.land ctrl 31) 8) as Hl by (apply Z.shiftl_nonneg, Z.land_nonneg; lia).
    assert (exists len ip', (if Z.shiftr ctrl 5 =? 7 then b ← byte_at src (ip + 1); Some (Z.shiftr ctrl 5 + b, ip + 1 + 1)
        else Some (Z.shiftr ctrl 5, ip + 1)) = Some (len, ip') /\ 0 <= len /\ ip + 1 <= ip' /\
        (ip' < Z.of_nat (length src) \/ Z.shiftr ctrl 5 = 7)) as (len & ip' & -> & Hlen & Hip' & Hor).
    { destruct (Z.eqb_spec (Z.shiftr ctrl 5) 7) as [E7|E7].
      - destruct (byte_at_Some src (ip + 1)) as [b Hb]; [lia|]. rewrite Hb. cbn [mbind option_bind].
        pose proof (byte_at_u8 _ _ _ Hsrc Hb) as Hb8. unfold is_unsigned in Hb8. eexists _, _. split; [done|]. lia.
      - eexists _, _. split; [done|]. lia. }
    cbn [mbind option_bind].
    destruct ((Z.shiftr ctrl 5 =? 7) && (ip' >=? Z.of_nat (length src))) eqn:Hend; [by eexists|].
    assert (ip' < Z.of_nat (length src)) as Hlt by (rewrite Z.geb_leb in Hend; lia).
    destruct (byte_at_Some src ip') as [b Hb]; [lia|]. rewrite Hb. cbn [mbind option_bind].
    pose proof (byte_at_u8 _ _ _ Hsrc Hb) as Hb8. unfold is_unsigned in Hb8.
    destruct (Z.gtb_spec (op + len + 2) (Z.of_nat (length m))); [by eexists|].
    destruct (Z.ltb_spec (op - Z.shiftl (Z.land ctrl 31) 8 - 1 - b) 0); [by eexists|].
    destruct (copy_ref_safe m op (op - Z.shiftl (Z.land ctrl 31) 8 - 1 - b) len) as (m' & -> & Hm'); [lia..|].
    cbn [mbind option_bind]. eexists. split; [done|]. cbn beta iota. lia.
Qed.

Lemma decompress_loop_safe src fuel : forall ip op m,
  Forall is_u8 src -> 0 <= ip < Z.of_nat (length src) -> 0 <= op <= Z.of_nat (length m) ->
  Z.of_nat (length src) - ip <= Z.of_nat fuel ->
  exists res, decompress_loop fuel src ip op m = Some res /\
    match res with
    | inl (op', m') => op < op' <= Z.of_nat (length m) /\ length m' = length m
    | inr _ => True
    end.
Proof.
  induction fuel as [|fuel IH]; intros ip op m Hsrc Hip Hop Hf; [lia|]. cbn [decompress_loop].
  destruct (decompress_step_safe src ip op m Hsrc Hip Hop) as ([[[ip1 op1] m1]|e] & -> & H1); cbn [mbind option_bind]; [|by eexists].
  destruct H1 as (Hi & Ho & Hl). destruct (Z.ltb_spec ip1 (Z.of_nat (length src))) as [Hlt|Hge].
  - destruct (IH ip1 op1 m1 Hsrc) as (r & -> & Hr); [lia..|]. exists r. split; [done|].
    destruct r as [[op2 m2]|e]; [|done]. rewrite Hl in Hr. lia.
  - eexists. split; [done|]. cbn beta iota. lia.
Qed.

(** ** The compressor *)

Section Compress.
Context (garbage : Z -> Z) (x : bytes).
Hypothesis Hgarbage : forall i, is_u32 (garbage i).
Hypothesis Hx : Forall is_u8 x.
Hypothesis Hlen : Z.of_nat (length x) < 2 ^ 32.

Abbreviation N := (Z.of_nat (length x)).
Implicit Types (s : cstate) (h : gmap Z Z) (p i : Z).

Definition htab_ok h : Prop := forall i p, h !! i = Some p -> is_u32 p.

Lemma slot_ok h i : htab_ok h -> is_u32 (hslot garbage h i).
Proof. intros Hh. unfold hslot. destruct (h !! i) eqn:E; [by eapply Hh|apply Hgarbage]. Qed.

Lemma htab_insert h i p : htab_ok h -> 0 <= p < N -> htab_ok (<[i := p]> h).
Proof.
  intros Hh Hp j q. destruct (decide (i = j)) as [->|Hne].
  - rewrite lookup_insert_eq. intros [= <-]. unfold is_unsigned. lia.
  - rewrite lookup_insert_ne by done. apply Hh.
Qed.

(** The input at two places agrees on the first [n] bytes. *)
Definition agree (p q n : Z) : Prop := forall k, 0 <= k < n -> byte_at x (p + k) = byte_at x (q + k).

Lemma agree_snoc p q n : 0 <= n -> agree p q n -> byte_at x (p + n) = byte_at x (q + n) -> agree p q (n + 1).
Proof.
  intros Hn Ha He k Hk. destruct (decide (k = n)) as [->|]; [done|]. apply Ha. lia.
Qed.

Lemma take_snoc_byte i b : 0 <= i -> byte_at x i = Some b -> take (Z.to_nat (i + 1)) x = take (Z.to_nat i) x ++ [b].
Proof.
  intros Hi Hb. rewrite <- (Z2Nat.id i), byte_at_nat in Hb by done.
  replace (Z.to_nat (i + 1)) with (S (Z.to_nat i)) by lia. by apply take_S_r.
Qed.

Lemma byte_at_take i p : p < i -> byte_at (take (Z.to_nat i) x) p = byte_at x p.
Proof. intros Hp. unfold byte_at. destruct (Z.ltb_spec p 0); [done|]. apply lookup_take_lt. lia. Qed.

(** A reference to an earlier occurrence expands to what follows. *)
Lemma expand_input (k : nat) : forall i off,
  0 <= off < i -> i + Z.of_nat k <= N -> agree (i - off - 1) i (Z.of_nat k) ->
  expand k off (take (Z.to_nat i) x) = take (Z.to_nat (i + Z.of_nat k)) x.
Proof.
  induction k as [|k IH]; intros i off Ho Hk Ha; cbn [expand]; [by rewrite Z.add_0_r|].
  destruct (byte_at_Some x i) as [b Hb]; [lia|].
  assert (default 0 (byte_at (take (Z.to_nat i) x) (Z.of_nat (length (take (Z.to_nat i) x)) - off - 1)) = b) as ->.
  { rewrite length_take. replace (Z.of_nat (Z.to_nat i `min` length x)) with i by lia.
    rewrite byte_at_take by lia. specialize (Ha 0 ltac:(lia)). rewrite !Z.add_0_r in Ha. by rewrite Ha, Hb. }
  rewrite <- take_snoc_byte by (done || lia). rewrite IH.
  - f_equal. lia.
  - lia.
  - lia.
  - intros j Hj. specialize (Ha (j + 1) ltac:(lia)).
    replace (i + 1 - off - 1 + j) with (i - off - 1 + (j + 1)) by lia.
    by replace (i + 1 + j) with (i + (j + 1)) by lia.
Qed.

(** *** Finding a match *)

Lemma match_at_spec i p :
  0 <= i -> i + 2 < N -> is_u32 p ->
  exists res, match_at x i p = Some res /\
    forall off, res = Some off -> 0 <= off < 8192 /\ p = i - off - 1 /\ 0 < p /\ agree p i 3.
Proof.
  intros Hi HN Hp. unfold is_unsigned in Hp. unfold match_at. change MAX_OFF with 8192. cbv zeta.
  destruct ((u64 (i - p - 1) <? 8192) && (p >? 0)) eqn:Hc; [|by eexists]. apply andb_prop in Hc as [H1 H2].
  assert (0 <= i - p - 1) as Hge.
  { destruct (Z.ltb_spec (i - p - 1) 0) as [Hneg|]; [|done]. exfalso. revert H1. unfold wrapu.
    rewrite <- (Z.mod_add _ 1) by done. rewrite Z.mod_small by lia. lia. }
  rewrite (wrapu_small 64) in * by (unfold is_unsigned; lia).
  destruct (byte_at_Some x (p + 2)) as [r2 E2]; [lia|]. destruct (byte_at_Some x (i + 2)) as [i2 F2]; [lia|].
  rewrite E2, F2. cbn [mbind option_bind]. destruct (Z.eqb_spec r2 i2) as [Eq2|]; [|by eexists].
  destruct (byte_at_Some x p) as [r0 E0]; [lia|]. destruct (byte_at_Some x (p + 1)) as [r1 E1]; [lia|].
  destruct (byte_at_Some x i) as [i0 F0]; [lia|]. destruct (byte_at_Some x (i + 1)) as [i1 F1]; [lia|].
  rewrite E0, E1, F0, F1. cbn [mbind option_bind]. eexists. split; [done|].
  intros off. destruct (Z.eqb_spec r0 i0) as [Eq0|]; [|done]. destruct (Z.eqb_spec r1 i1) as [Eq1|]; [|done].
  cbn [andb]. intros [= <-]. split; [lia|]. split; [lia|]. split; [lia|]. intros k Hk.
  assert (k = 0 \/ k = 1 \/ k = 2) as [->|[->| ->]] by lia; rewrite ?Z.add_0_r; congruence.
Qed.

Lemma unrolled_spec (k : nat) : forall p i n,
  0 <= p < i -> 2 <= n -> i + n + Z.of_nat k < N -> agree p i (n + 1) ->
  exists n' stop, unrolled k x p i n = Some (n', stop) /\
    if (stop : bool) then n < n' <= n + Z.of_nat k /\ agree p i n'
    else n' = n + Z.of_nat k /\ agree p i (n' + 1).
Proof.
  induction k as [|k IH]; intros p i n Hp Hn HN Ha; cbn [unrolled].
  { eexists _, false. split; [done|]. cbn. rewrite Z.add_0_r. by split. }
  destruct (byte_at_Some x (p + (n + 1))) as [a Ea]; [lia|]. destruct (byte_at_Some x (i + (n + 1))) as [b Eb]; [lia|].
  cbv zeta. rewrite Ea, Eb. cbn [mbind option_bind]. destruct (Z.eqb_spec a b) as [->|Hne]; cbn [negb].
  - destruct (IH p i (n + 1)) as (n' & stop & -> & H); [lia|lia|lia|apply agree_snoc; [lia|done|congruence]|].
    eexists _, stop. split; [done|]. destruct stop; [split; [lia|apply H]|]. destruct H as [-> H]. split; [lia|done].
  - eexists _, true. split; [done|]. split; [lia|done].
Qed.

Lemma extend_spec fuel : forall p i n maxlen,
  0 <= p < i -> 2 <= n -> i + maxlen <= N -> 0 < Z.of_nat fuel -> maxlen - n <= Z.of_nat fuel -> agree p i (n + 1) ->
  exists n', extend fuel x p i n maxlen = Some n' /\ n < n' <= Z.max maxlen (n + 1) /\ agree p i n'.
Proof.
  induction fuel as [|fuel IH]; intros p i n maxlen Hp Hn HN H0 Hf Ha; [lia|]. cbn [extend]. cbv zeta.
  destruct (Z.ltb_spec (n + 1) maxlen) as [Hlt|Hge].
  - destruct (byte_at_Some x (p + (n + 1))) as [a Ea]; [lia|]. destruct (byte_at_Some x (i + (n + 1))) as [b Eb]; [lia|].
    rewrite Ea, Eb. cbn [mbind option_bind]. destruct (Z.eqb_spec a b) as [->|Hne].
    + destruct (IH p i (n + 1) maxlen) as (n' & -> & Hn' & Ha'); [lia|lia|lia|lia|lia|apply agree_snoc; [lia|done|congruence]|].
      exists n'. split; [done|]. split; [lia|done].
    + eexists. split; [done|]. split; [lia|done].
  - eexists. split; [done|]. split; [lia|done].
Qed.

Lemma match_length_spec p i :
  0 <= p < i -> i + 2 < N -> agree p i 3 ->
  let maxlen := if N - i - 2 >? MAX_REF then MAX_REF else N - i - 2 in
  exists n, match_length x p i maxlen = Some n /\ 3 <= n <= 264 /\ i + n <= N /\ agree p i n.
Proof.
  intros Hp HN Ha maxlen. assert (maxlen = Z.min (N - i - 2) 264) as Hmax.
  { unfold maxlen. change MAX_REF with 264. destruct (Z.gtb_spec (N - i - 2) 264); lia. }
  unfold match_length. change (Z.to_nat MAX_REF) with 264%nat. destruct (Z.gtb_spec maxlen 16) as [H16|H16].
  - destruct (unrolled_spec 16 p i 2) as (n & stop & -> & Hn); [lia|lia|lia|done|]. cbn [mbind option_bind].
    destruct stop; [exists n; split; [done|]; split; [lia|]; split; [lia|apply Hn]|]. destruct Hn as [-> Hn].
    destruct (extend_spec 264 p i (2 + Z.of_nat 16) maxlen) as (n' & -> & Hn' & Ha'); [lia|lia|lia|lia|lia|done|].
    exists n'. split; [done|]. split; [lia|]. split; [lia|done].
  - cbn [mbind option_bind]. destruct (extend_spec 264 p i 2 maxlen) as (n' & -> & Hn' & Ha'); [lia|lia|lia|lia|lia|done|].
    exists n'. split; [done|]. split; [lia|]. split; [lia|done].
Qed.

(** *** The invariant *)

(** What has been written: a stream for the input up to the open run of
    literals [l], and room for the length of the run, unless the output is
    full. *)
Definition coded s : Prop :=
  exists c y l, stream c y /\ y ++ l = take (Z.to_nat (ip s)) x /\ lit s = Z.of_nat (length l) /\ (length l <= 31)%nat /\
    op s = Z.of_nat (length c) + 1 + Z.of_nat (length l) /\
    ((l = [] /\ out s = c) \/ exists b r, out s = c ++ b :: l ++ r).

Record inv (E : Z) s : Prop := Inv {
  inv_ip : 0 <= ip s <= N;
  inv_out : Z.of_nat (length (out s)) = E;
  inv_htab : htab_ok (htab s);
  inv_coded : coded s
}.

Lemma stream_take_u8 c y l (i : nat) : stream c y -> y ++ l = take i x -> Forall is_u8 l.
Proof.
  intros _ He. assert (Forall is_u8 (y ++ l)) as H by (rewrite He; by apply Forall_take). by apply Forall_app in H as [_ H].
Qed.

Lemma put_literal_spec E s :
  inv E s -> ip s < N -> op s < E ->
  exists s', put_literal x s = Some s' /\ inv E s' /\ ip s' = ip s + 1 /\ hval s' = hval s /\
    ((lit s < 31 /\ op s' = op s + 1 /\ lit s' = lit s + 1) \/ (lit s = 31 /\ op s' = op s + 2 /\ lit s' = 0)).
Proof.
  intros [Hip Hout Hh (c & y & l & Hs & Hy & Hl & Hl31 & Hop & Hor)] HN HE. unfold put_literal.
  destruct (byte_at_Some x (ip s)) as [b Hb]; [lia|]. rewrite Hb. cbn [mbind option_bind].
  pose proof (byte_at_u8 _ _ _ Hx Hb) as Hb8.
  destruct Hor as [[-> Hc]|(b0 & r & Ho)]; [rewrite Hc in Hout; cbn [length] in Hop; lia|].
  destruct r as [|d r]; [rewrite Ho, app_nil_r, length_app in Hout; cbn [length] in Hout; lia|].
  replace (out s) with ((c ++ b0 :: l) ++ d :: r) by (by rewrite Ho, <- app_assoc).
  rewrite put_mid by (rewrite length_app; cbn [length]; lia). cbn [mbind option_bind].
  rewrite (wrapu_small 8 b) by done. unfold end_full_run. cbn [lit op ip hval htab out].
  assert (y ++ (l ++ [b]) = take (Z.to_nat (ip s + 1)) x) as Hy'.
  { rewrite (take_snoc_byte _ b), app_assoc, Hy by (done || lia). done. }
  assert (Z.of_nat (length (c ++ b0 :: (l ++ [b]) ++ r)) = E) as Hout'.
  { rewrite <- Hout, Ho, !length_app. cbn [length]. rewrite !length_app. cbn [length]. lia. }
  change MAX_LIT with 32. destruct (Z.eqb_spec (lit s + 1) 32) as [H32|H32].
  - rewrite <- app_assoc. cbn [app]. rewrite put_mid by (rewrite Hop, Hl; lia). cbn [mbind option_bind].
    eexists. split; [done|]. cbn [ip op lit hval htab out]. split; [|split; [done|split; [done|right; lia]]].
    rewrite (wrapu_small 8) by (unfold is_unsigned; lia). split; cbn [ip op lit hval htab out].
    + lia.
    + rewrite <- Hout', !length_app. cbn [length]. rewrite !length_app. cbn [length]. lia.
    + done.
    + assert (length (l ++ [b]) = 32%nat) as Hl32 by (rewrite length_app; cbn [length]; lia).
      exists (c ++ (lit s + 1 - 1) :: (l ++ [b])), (y ++ (l ++ [b])), []. rewrite app_nil_r. split.
      { replace (lit s + 1 - 1) with (Z.of_nat (length (l ++ [b])) - 1) by lia.
        apply st_lit; [done|lia|]. eapply stream_take_u8; [done|exact Hy']. }
      split; [done|]. split; [done|]. split; [cbn [length]; lia|]. cbn [length ip op lit hval htab out] in *. split.
      { rewrite length_app. cbn [length]. lia. }
      destruct r as [|d' r]; [left; split; [done|]; done|].
      right. exists d', r. rewrite <- !app_assoc. cbn [app]. by rewrite <- !app_assoc.
  - eexists. split; [done|]. cbn [ip op lit hval htab out]. split; [|split; [done|split; [done|left; lia]]].
    split; cbn [ip op lit hval htab out].
    + lia.
    + rewrite <- Hout', !length_app. cbn [length]. rewrite !length_app. cbn [length]. lia.
    + done.
    + exists c, y, (l ++ [b]). split; [done|]. split; [done|]. rewrite length_app. cbn [length ip op lit hval htab out].
      split; [lia|]. split; [lia|]. split; [lia|]. right. exists b0, r. rewrite <- !app_assoc. done.
Qed.
Lemma length_ref_bytes off n : (length (ref_bytes off n) <= 3)%nat.
Proof. unfold ref_bytes. destruct (n <? 7); cbn [length]; lia. Qed.

Lemma put_ref_spec c t off n :
  0 <= off < 8192 -> 1 <= n <= 262 -> (3 < length t)%nat ->
  exists b r, put_ref (c ++ t) (Z.of_nat (length c)) off n
    = Some (c ++ ref_bytes off n ++ b :: r, Z.of_nat (length (c ++ ref_bytes off n))) /\
    length (c ++ ref_bytes off n ++ b :: r) = length (c ++ t).
Proof.
  intros Ho Hn Ht. unfold put_ref, ref_bytes.
  destruct t as [|t0 [|t1 [|t2 [|t3 t]]]]; cbn [length] in Ht; try lia.
  destruct (Z.ltb_spec n 7).
  - destruct (shift_fields off n Ho ltac:(lia)) as (Hc & _). rewrite put_mid by done. cbn [mbind option_bind].
    rewrite (wrapu_small 8 (_ + _)) by (unfold is_unsigned; lia). set (ctrl := Z.shiftr off 8 + Z.shiftl n 5) in *.
    replace (c ++ ctrl :: t1 :: t2 :: t3 :: t) with ((c ++ [ctrl]) ++ t1 :: t2 :: t3 :: t) by (by rewrite <- app_assoc).
    rewrite put_mid by (rewrite length_app; cbn [length]; lia). cbn [mbind option_bind].
    exists t2, (t3 :: t). rewrite <- !app_assoc, !length_app. cbn [app length]. split; [do 2 f_equal; lia|lia].
  - destruct (shift_fields off 7 Ho ltac:(lia)) as (Hc & _). rewrite put_mid by done. cbn [mbind option_bind].
    rewrite (wrapu_small 8 (_ + _)) by (unfold is_unsigned; lia). set (ctrl := Z.shiftr off 8 + Z.shiftl 7 5) in *.
    replace (c ++ ctrl :: t1 :: t2 :: t3 :: t) with ((c ++ [ctrl]) ++ t1 :: t2 :: t3 :: t) by (by rewrite <- app_assoc).
    rewrite put_mid by (rewrite length_app; cbn [length]; lia). cbn [mbind option_bind].
    rewrite (wrapu_small 8 (n - 7)) by (unfold is_unsigned; lia).
    replace ((c ++ [ctrl]) ++ n - 7 :: t2 :: t3 :: t) with ((c ++ [ctrl; n - 7]) ++ t2 :: t3 :: t) by (by rewrite <- !app_assoc).
    rewrite put_mid by (rewrite length_app; cbn [length]; lia). cbn [mbind option_bind].
    exists t3, t. rewrite <- !app_assoc, !length_app. cbn [app length]. split; [do 2 f_equal; lia|lia].
Qed.

(** Closing the run of literals that is open, or undoing it when it is empty. *)
Lemma close_run E s :
  inv E s -> op s - not_ (lit s) + 4 < E \/ op s <= E ->
  exists c t, put (out s) (op s - lit s - 1) (lit s - 1) = Some (c ++ t) /\ stream c (take (Z.to_nat (ip s)) x) /\
    op s - not_ (lit s) = Z.of_nat (length c) /\ Z.of_nat (length (c ++ t)) = E.
Proof.
  intros [Hip Hout Hh (c & y & l & Hs & Hy & Hl & Hl31 & Hop & Hor)] HE. rewrite <- Hy, Hl, Hop. unfold not_ in *.
  assert (exists b r, out s = c ++ b :: l ++ r) as (b & r & Ho).
  { destruct Hor as [[-> Hc]|Hor]; [|done]. rewrite Hc in Hout. cbn [length] in Hop, Hl. rewrite Hl in HE. change (Z.of_nat 0 =? 0) with true in HE. cbn iota in HE. lia. }
  rewrite Ho in *. replace (Z.of_nat (length c) + 1 + Z.of_nat (length l) - Z.of_nat (length l) - 1) with (Z.of_nat (length c)) by lia.
  rewrite put_mid by done. destruct (Z.eqb_spec (Z.of_nat (length l)) 0) as [E0|E0].
  - assert (l = []) as -> by (by destruct l). exists c, (u8 (0 - 1) :: r). rewrite app_nil_r. cbn [length app] in *.
    split_and!; try done; [lia|]. rewrite <- Hout, !length_app. done.
  - exists (c ++ (Z.of_nat (length l) - 1) :: l), r. rewrite (wrapu_small 8) by (unfold is_unsigned; lia).
    rewrite <- app_assoc. cbn [app]. split; [done|]. split.
    { apply st_lit; [done|lia|]. by eapply stream_take_u8. }
    rewrite !length_app. rewrite <- Hout, !length_app. cbn [length]. rewrite !length_app. split; lia.
Qed.

Lemma match_step_spec E s v h p off :
  inv E s -> ip s + 2 < N -> htab_ok h -> 0 <= off < 8192 -> p = ip s - off - 1 -> 0 < p -> agree p (ip s) 3 ->
  exists res, match_step x E s v h p off = Some res /\
    match res with
    | inr o => Z.of_nat (length o) = E
    | inl (s', stop) => inv E s' /\ ip s < ip s' /\ (stop = true -> N - 2 <= ip s')
    end.
Proof.
  intros Hinv HN Hh Ho Hp Hp0 Ha. pose proof (inv_ip _ _ Hinv) as Hip. unfold match_step. cbv zeta.
  destruct ((op s + 3 + 1 >=? E) && (op s - not_ (lit s) + 3 + 1 >=? E)) eqn:Hfull.
  { eexists. split; [done|]. by destruct Hinv. }
  assert (op s - not_ (lit s) + 4 < E) as Hroom by (unfold not_ in *; destruct (lit s =? 0); lia).
  destruct (close_run E s Hinv (or_introl Hroom)) as (c & t & -> & Hs & Hop & Hlt). cbn [mbind option_bind]. rewrite Hop in *.
  destruct (match_length_spec p (ip s)) as (n & Hn & Hn3 & HnN & Hag); [lia|lia|done|]. cbv zeta in Hn. rewrite Hn. cbn [mbind option_bind].
  destruct (put_ref_spec c t off (n - 2)) as (b & r & -> & Hlr); [lia|lia| |].
  { rewrite length_app in Hlt. lia. }
  cbn [mbind option_bind].
  assert (stream (c ++ ref_bytes off (n - 2)) (take (Z.to_nat (ip s + n)) x)) as Hs'.
  { replace (take (Z.to_nat (ip s + n)) x) with (expand (Z.to_nat (n - 2 + 2)) off (take (Z.to_nat (ip s)) x)).
    - apply st_ref; [done|lia| |lia]. rewrite length_take. lia.
    - replace (n - 2 + 2) with n by lia. rewrite expand_input; [by rewrite Z2Nat.id by lia|lia|lia|].
      rewrite Z2Nat.id by lia. by rewrite <- Hp. }
  assert (forall i hv h', i = ip s + n -> htab_ok h' ->
    inv E (CState i (Z.of_nat (length (c ++ ref_bytes off (n - 2))) + 1) 0 hv h' (c ++ ref_bytes off (n - 2) ++ b :: r))) as Hinv'.
  { intros i hv h' -> Hh'. split; cbn [ip op lit hval htab out]; [lia|by rewrite Hlr|done|].
    exists (c ++ ref_bytes off (n - 2)), (take (Z.to_nat (ip s + n)) x), []. rewrite app_nil_r. cbn [ip op lit hval htab out length app].
    split_and!; try done; [lia|lia|]. right. exists b, r. by rewrite <- app_assoc. }
  replace (ip s + 1 + (n - 2) + 1) with (ip s + n) by lia.
  destruct (Z.geb_spec (ip s + n) (N - 2)) as [Hend|Hmore].
  { eexists. split; [done|]. cbn beta iota. split; [by apply Hinv'|]. cbn [ip]. lia. }
  unfold FRST, NEXT. destruct (byte_at_Some x (ip s + n - 2)) as [b0 ->]; [lia|].
  destruct (byte_at_Some x (ip s + n - 2 + 1)) as [b1 ->]; [lia|].
  destruct (byte_at_Some x (ip s + n - 2 + 2)) as [b2 ->]; [lia|].
  destruct (byte_at_Some x (ip s + n - 2 + 1 + 2)) as [b3 ->]; [lia|]. cbn [mbind option_bind].
  eexists. split; [done|]. cbn beta iota. split; [|cbn [ip]; split; [lia|done]].
  apply Hinv'; [lia|]. apply htab_insert; [|lia]. apply htab_insert; [done|lia].
Qed.

(** *** The loops *)

Lemma compress_loop_spec E fuel : forall s,
  inv E s -> N - ip s < Z.of_nat fuel ->
  exists res, compress_loop garbage fuel x E s = Some res /\
    match res with
    | inr o => Z.of_nat (length o) = E
    | inl s' => inv E s' /\ N - 2 <= ip s'
    end.
Proof.
  induction fuel as [|fuel IH]; intros s Hinv Hf; pose proof Hinv as [Hip Hout Hh _]; [lia|]. cbn [compress_loop].
  destruct (Z.ltb_spec (ip s) (N - 2)) as [Hlt|Hge]; [|eexists; split; [done|]; by split].
  unfold NEXT. destruct (byte_at_Some x (ip s + 2)) as [b2 ->]; [lia|]. cbn [mbind option_bind]. cbv zeta.
  set (hv := Z.lor _ b2). destruct (match_at_spec (ip s) (hslot garbage (htab s) (IDX hv))) as (r & -> & Hr);
    [lia|lia|by apply slot_ok|]. cbn [mbind option_bind].
  assert (htab_ok (<[IDX hv := ip s]> (htab s))) as Hh' by (apply htab_insert; [done|lia]).
  destruct r as [off|].
  - destruct (Hr off eq_refl) as (Ho & Hp & Hp0 & Ha).
    destruct (match_step_spec E s hv _ _ off Hinv ltac:(lia) Hh' Ho Hp Hp0 Ha) as ([[s' stop]|o] & -> & H);
      cbn [mbind option_bind]; [|by eexists]. destruct H as (Hinv' & Hlt' & Hstop). destruct stop.
    + eexists. split; [done|]. split; [done|by apply Hstop].
    + apply IH; [done|lia].
  - destruct (Z.geb_spec (op s) E) as [Hfull|Hroom]; [eexists; split; [done|done]|].
    destruct (put_literal_spec E (CState (ip s) (op s) (lit s) hv (<[IDX hv := ip s]> (htab s)) (out s)))
      as (s' & -> & Hinv' & Hip' & _); [by destruct Hinv|cbn [ip]; lia|done|]. cbn [mbind option_bind].
    cbn [ip] in Hip'. apply IH; [done|lia].
Qed.

(** The last bytes: with at most two to go, three of room are enough. *)
Lemma literals_loop_spec E fuel : forall s,
  inv E s -> N - ip s < Z.of_nat fuel ->
  N - ip s <= 2 -> op s + (N - ip s) + (if 32 <=? lit s + (N - ip s) then 1 else 0) <= E ->
  exists s', literals_loop fuel x s = Some s' /\ inv E s' /\ ip s' = N /\ op s' <= E.
Proof.
  induction fuel as [|fuel IH]; intros s Hinv Hf H2 Hroom; pose proof (inv_ip _ _ Hinv) as Hip; [lia|]. cbn [literals_loop].
  destruct (Z.ltb_spec (ip s) N) as [Hlt|Hge].
  - destruct (put_literal_spec E s Hinv Hlt) as (s' & -> & Hinv' & Hip' & _ & Hcases).
    { destruct (_ <=? _); lia. }
    cbn [mbind option_bind]. apply IH; [done|lia|lia|].
    assert (0 <= lit s') by (destruct Hinv' as [_ _ _ (c & y & l & _ & _ & -> & _)]; lia).
    destruct (Z.leb_spec 32 (lit s + (N - ip s))), (Z.leb_spec 32 (lit s' + (N - ip s'))); lia.
  - exists s. split; [done|]. split; [done|]. split; [lia|]. destruct (_ <=? _); lia.
Qed.

Lemma lit_bound E s : inv E s -> 0 <= lit s <= 31.
Proof. intros [_ _ _ (c & y & l & _ & _ & -> & Hl & _)]. lia. Qed.

Lemma lzf_compress_spec m :
  2 <= N ->
  exists n m', lzf_compress garbage x m = Some (n, m') /\ length m' = length m /\
    (n = 0 \/ 0 < n <= Z.of_nat (length m) /\ stream (take (Z.to_nat n) m') x).
Proof.
  intros H2. unfold lzf_compress. cbv zeta. rewrite (proj2 (Z.eqb_neq N 0)) by lia. cbn [orb].
  destruct (Z.eqb_spec (Z.of_nat (length m)) 0) as [E0|E0]; [exists 0, m; split; [done|]; split; [done|by left]|].
  unfold FRST. destruct (byte_at_Some x 0) as [b0 ->]; [lia|]. destruct (byte_at_Some x (0 + 1)) as [b1 ->]; [lia|].
  cbn [mbind option_bind]. set (hv := Z.lor _ b1).
  assert (inv (Z.of_nat (length m)) (CState 0 1 0 hv ∅ m)) as Hinv.
  { split; cbn [ip op lit hval htab out]; [lia|done|by intros i p Hp; rewrite lookup_empty in Hp|].
    exists [], [], []. cbn [ip op lit hval htab out length app]. split; [constructor|]. split; [done|]. split; [done|].
    split; [lia|]. split; [done|]. destruct m as [|d m]; [cbn [length] in E0; lia|]. right. by exists d, m. }
  destruct (compress_loop_spec _ (S (length x)) _ Hinv) as ([s|o] & -> & H); [cbn [ip]; lia| |]; cbn [mbind option_bind].
  - destruct H as [Hs Hend]. pose proof (inv_ip _ _ Hs) as Hip. pose proof (lit_bound _ _ Hs) as Hl31.
    destruct (Z.gtb_spec (op s + 3) (Z.of_nat (length m))) as [Hfull|Hroom].
    { exists 0, (out s). split; [done|]. split; [destruct Hs; lia|by left]. }
    destruct (literals_loop_spec _ (S (length x)) s Hs) as (s' & -> & Hs' & Hip' & Hop'); [lia|lia|destruct (_ <=? _); lia|].
    cbn [mbind option_bind]. destruct (close_run _ _ Hs' (or_intror Hop')) as (c & t & -> & Hst & Hop & Hct). cbn [mbind option_bind].
    rewrite Hip', Nat2Z.id, firstn_all in Hst. rewrite Hop.
    exists (Z.of_nat (length c)), (c ++ t). split; [done|]. split; [lia|]. right.
    rewrite Nat2Z.id, take_app_length. split; [|done]. rewrite length_app in Hct.
    assert (c <> []) as Hc by (apply (stream_nonempty c x Hst); intros ->; cbn [length] in H2; lia).
    destruct c; [done|cbn [length] in *; lia].
  - exists 0, o. split; [done|]. split; [lia|by left].
Qed.

End Compress.

(** A one byte input makes the first hash read the byte after it. *)
Lemma lzf_compress_one_byte garbage b m : m <> [] -> lzf_compress garbage [b] m = None.
Proof.
  intros Hm. destruct m as [|d m]; [done|]. unfold lzf_compress. cbv zeta.
  rewrite (proj2 (Z.eqb_neq (Z.of_nat (length (d :: m))) 0)) by (cbn [length]; lia). done.
Qed.

(** ** Properties *)

(** C15. Compression terminates, writes inside of its output and is undone by
    decompression: for any input of at least two bytes and whatever the
    uninitialised hash table holds, either zero is returned because the
    output is too small, or the bytes written are read back as exactly the
    input. *)
Theorem lzf_roundtrip garbage x m m2 :
  (forall i, is_u32 (garbage i)) -> Forall is_u8 x -> 2 <= Z.of_nat (length x) < 2 ^ 32 ->
  (length x <= length m2)%nat ->
  exists n m', lzf_compress garbage x m = Some (n, m') /\ length m' = length m /\
    (n = 0 \/ 0 < n <= Z.of_nat (length m) /\
      lzf_decompress (take (Z.to_nat n) m') m2 = Some (inl (Z.of_nat (length x), x ++ drop (length x) m2))).
Proof.
  intros Hg Hx Hl Hm2.
  destruct (lzf_compress_spec garbage x Hg Hx ltac:(lia) m ltac:(lia)) as (n & m' & -> & Hlen & Hn).
  exists n, m'. split; [done|]. split; [done|]. destruct Hn as [->|[Hn Hs]]; [by left|right]. split; [done|].
  apply decompress_stream; [done| |done]. intros ->. cbn [length] in Hl. lia.
Qed.

Lemma lzf_roundtrip_witness :
  exists n m', lzf_compress (fun _ => 0) (str "abcabcabcabcabc") (replicate 14 0) = Some (n, m') /\ n = 11 /\
    lzf_decompress (take 11 m') (replicate 15 0) = Some (inl (15, str "abcabcabcabcabc")).
Proof.
  destruct (lzf_roundtrip (fun _ => 0) (str "abcabcabcabcabc") (replicate 14 0) (replicate 15 0)) as (n & m' & E & _ & H).
  - intros i. by split.
  - repeat constructor; discriminate.
  - by vm_compute.
  - apply Nat.le_refl.
  - exists n, m'. split; [exact E|]. vm_compute in E. injection E as <- <-. destruct H as [H|[_ H]]; [discriminate H|].
    split; [reflexivity|exact H].
Defined.

(** C32. The decompressor can be given anything: on arbitrary bytes and any
    output it terminates, never reads or writes outside of its buffers, and
    returns either the number of bytes it wrote, which fit, or one of its two
    errors. *)
Theorem lzf_decompress_safe src m :
  Forall is_u8 src -> src <> [] ->
  exists res, lzf_decompress src m = Some res /\
    match res with
    | inl (n, m') => 0 < n <= Z.of_nat (length m) /\ length m' = length m
    | inr e => e = E2BIG \/ e = EINVAL
    end.
Proof.
  intros Hs Hne. unfold lzf_decompress.
  destruct (decompress_loop_safe src (length src) 0 0 m Hs) as (res & -> & Hr); [destruct src; [done|cbn [length]; lia]|lia|lia|].
  exists res. split; [done|]. destruct res as [[n m']|[|]]; [done|by left|by right].
Qed.

(** A reference before the start of the output, and a run cut short. *)
Lemma lzf_decompress_safe_witness :
  (exists res, lzf_decompress [1; 65; 66; 32; 9] (replicate 20 0) = Some res /\ res = inr EINVAL) /\
  (exists res, lzf_decompress [5; 65; 66] (replicate 20 0) = Some res /\ res = inr EINVAL).
Proof.
  split.
  - destruct (lzf_decompress_safe [1; 65; 66; 32; 9] (replicate 20 0)) as (res & E & _);
      [repeat constructor; discriminate|discriminate|].
    exists res. split; [exact E|]. vm_compute in E. by injection E as <-.
  - destruct (lzf_decompress_safe [5; 65; 66] (replicate 20 0)) as (res & E & _);
      [repeat constructor; discriminate|discriminate|].
    exists res. split; [exact E|]. vm_compute in E. by injection E as <-.
Defined.


End LzfSpec.
