(* ===== verification/Zset.v ===== *)
(** * Skip lists of sorted sets (src/t_zset.c, src/server.h)

    The nodes live in a heap, the objects in the heap of [Object]; every access
    through a pointer is checked.  A score is a C double, the IEEE 754 value of
    the Standard Library's [spec_float], without its NaN, which the callers
    exclude. *)

From Stdlib Require Import SpecFloat.
From S2P Require Import Prelude Object.
Import Object.

Module Zset.

Abbreviation double := spec_float.

Definition ZSKIPLIST_MAXLEVEL : nat := 32.

Record zskiplistLevel := ZslLevel { forward : option addr; span : Z }.

Record zskiplistNode := ZslNode {
  obj : option addr;
  score : double;
  backward : option addr;
  level : list zskiplistLevel
}.

Record zskiplist := Zsl { header : addr; tail : option addr; length_ : Z; zlevel : nat }.

Record zrangespec := ZRange { min : double; max : double; minex : bool; maxex : bool }.

Section Ops.
Context {P : Type} (E : env).

Abbreviation nodes := (gmap addr zskiplistNode).
Abbreviation objects := (gmap addr (robj P)).

(** ** Nodes *)

(** [zmalloc] does not initialise the levels. *)
Definition zslCreateNode (junk : zskiplistLevel) (lv : nat) (score : double) (obj : option addr) : zskiplistNode :=
  ZslNode obj score None (replicate lv junk).

Definition get_level (h : nodes) (a : addr) (i : nat) : option zskiplistLevel :=
  n ← h !! a; level n !! i.

Definition set_level (h : nodes) (a : addr) (i : nat) (l : zskiplistLevel) : option nodes :=
  n ← h !! a; _ ← level n !! i;
  Some (<[a := ZslNode (obj n) (score n) (backward n) (<[i := l]> (level n))]> h).

Definition set_span (h : nodes) (a : addr) (i : nat) (s : Z) : option nodes :=
  l ← get_level h a i; set_level h a i (ZslLevel (forward l) s).

Definition set_backward (h : nodes) (a : addr) (b : option addr) : option nodes :=
  n ← h !! a; Some (<[a := ZslNode (obj n) (score n) b (level n)]> h).

(** The header's address is [hd]. *)
Definition zslCreate (junk : zskiplistLevel) (hd : addr) (h : nodes) : nodes * zskiplist :=
  (<[hd := ZslNode None (S754_zero false) None (replicate ZSKIPLIST_MAXLEVEL (ZslLevel None 0))]> h,
   Zsl hd None 0 1).

(** [zslFreeNode]: the reference to the object, then the node. *)
Definition zslFreeNode (h : nodes) (objs : objects) (a : addr) : option (nodes * objects) :=
  n ← h !! a; o ← obj n; objs ← decrRefCount objs o; Some (delete a h, objs).

Fixpoint free_loop (fuel : nat) (h : nodes) (objs : objects) (node : option addr) : option (nodes * objects) :=
  match node with
  | None => Some (h, objs)
  | Some a =>
    match fuel with
    | O => None
    | S fuel =>
      l ← get_level h a 0;
      '(h, objs) ← zslFreeNode h objs a;
      free_loop fuel h objs (forward l)
    end
  end.

Definition zslFree (h : nodes) (objs : objects) (zsl : zskiplist) : option (nodes * objects) :=
  l ← get_level h (header zsl) 0;
  let h := delete (header zsl) h in
  free_loop (Z.to_nat (length_ zsl)) h objs (forward l).

(** ** Random levels *)

(** [random() & 0xFFFF] below a quarter of 0xFFFF, which is 16383.75; the
    numbers [random] returns are the list. *)
Fixpoint level_loop (rs : list Z) (lv : nat) : option nat :=
  match rs with
  | [] => None
  | r :: rs => if Z.land r 65535 <=? 16383 then level_loop rs (S lv) else Some lv
  end.

Definition zslRandomLevel (rs : list Z) : option nat :=
  lv ← level_loop rs 1;
  Some (if (lv <? ZSKIPLIST_MAXLEVEL)%nat then lv else ZSKIPLIST_MAXLEVEL).

(** ** Search *)

(** Whether the node comes before the score and the object. *)
Definition node_before (objs : objects) (n : zskiplistNode) (sc : double) (o : addr) : option bool :=
  if SFltb (score n) sc then Some true
  else if SFeqb (score n) sc then
    no ← obj n;
    c ← compareStringObjects E objs no o;
    Some (c <? 0)
  else Some false.

(** Going forward at a level while the next node satisfies the test, adding up
    the spans. *)
Fixpoint walk (fuel : nat) (test : zskiplistNode -> option bool) (h : nodes) (i : nat) (x : addr) (rank : Z)
  : option (addr * Z) :=
  match fuel with
  | O => None
  | S fuel =>
    l ← get_level h x i;
    match forward l with
    | None => Some (x, rank)
    | Some y =>
      n ← h !! y;
      before ← test n;
      if (before : bool) then walk fuel test h i y (u32 (rank + span l)) else Some (x, rank)
    end
  end.

(** The levels from [i - 1] down; the nodes and the ranks where each level was
    left, the lowest level first. *)
Fixpoint descend (fuel : nat) (test : zskiplistNode -> option bool) (h : nodes) (i : nat) (x : addr) (rank : Z)
  (update : list (addr * Z)) : option (list (addr * Z)) :=
  match i with
  | O => Some update
  | S i =>
    '(x, rank) ← walk fuel test h i x rank;
    descend fuel test h i x rank ((x, rank) :: update)
  end.

Definition search (test : zskiplistNode -> option bool) (h : nodes) (zsl : zskiplist) : option (list (addr * Z)) :=
  descend (S (Z.to_nat (length_ zsl))) test h (zlevel zsl) (header zsl) 0 [].

(** ** Insertion *)

(** [for (i = from; i < from + n; i++) body]. *)
Fixpoint for_levels (n from : nat) (body : nodes -> nat -> option nodes) (h : nodes) : option nodes :=
  match n with
  | O => Some h
  | S n => h ← body h from; for_levels n (S from) body h
  end.

(** A level the list did not have: the header's span covers the list. *)
Definition raise_level (zsl : zskiplist) (h : nodes) (i : nat) : option nodes :=
  set_span h (header zsl) i (u32 (length_ zsl)).

(** Linking the new node at a level. *)
Definition link_level (x : addr) (rank0 : Z) (update : list (addr * Z)) (h : nodes) (i : nat) : option nodes :=
  '(a, ranki) ← update !! i;
  l ← get_level h a i;
  h ← set_level h x i (ZslLevel (forward l) (u32 (span l - u32 (rank0 - ranki))));
  set_level h a i (ZslLevel (Some x) (u32 (u32 (rank0 - ranki) + 1))).

(** A level the new node does not reach. *)
Definition cross_level (update : list (addr * Z)) (h : nodes) (i : nat) : option nodes :=
  '(a, _) ← update !! i;
  l ← get_level h a i;
  set_span h a i (u32 (span l + 1)).

(** [x] is the address of the new node, [rs] the random numbers. *)
Definition zslInsert (junk : zskiplistLevel) (rs : list Z) (x : addr) (h : nodes) (objs : objects) (zsl : zskiplist)
  (sc : double) (o : addr) : option (nodes * zskiplist) :=
  update ← search (fun n => node_before objs n sc o) h zsl;
  lv ← zslRandomLevel rs;
  h ← for_levels (lv - zlevel zsl) (zlevel zsl) (raise_level zsl) h;
  let update := update ++ replicate (lv - zlevel zsl) (header zsl, 0) in
  let zlv := if (zlevel zsl <? lv)%nat then lv else zlevel zsl in
  '(u0, rank0) ← update !! O;
  let h := <[x := zslCreateNode junk lv sc (Some o)]> h in
  h ← for_levels lv 0 (link_level x rank0 update) h;
  h ← for_levels (zlv - lv) lv (cross_level update) h;
  h ← set_backward h x (if u0 =? header zsl then None else Some u0);
  l ← get_level h x 0;
  '(h, tl) ← (match forward l with
    | Some y => h ← set_backward h y (Some x); Some (h, tail zsl)
    | None => Some (h, Some x)
    end);
  Some (h, Zsl (header zsl) tl (u64 (length_ zsl + 1)) zlv).

(** ** Deletion *)

Definition unlink_level (x : addr) (update : list (addr * Z)) (h : nodes) (i : nat) : option nodes :=
  '(a, _) ← update !! i;
  l ← get_level h a i;
  if decide (forward l = Some x) then
    lx ← get_level h x i;
    set_level h a i (ZslLevel (forward lx) (u32 (span l + u32 (span lx - 1))))
  else set_span h a i (u32 (span l - 1)).

(** Dropping the empty levels at the top. *)
Fixpoint lower_level (h : nodes) (hd : addr) (lv : nat) : option nat :=
  match lv with
  | S (S _ as lv') =>
    l ← get_level h hd lv';
    match forward l with None => lower_level h hd lv' | Some _ => Some lv end
  | _ => Some lv
  end.

Definition zslDeleteNode (h : nodes) (zsl : zskiplist) (x : addr) (update : list (addr * Z)) : option (nodes * zskiplist) :=
  h ← for_levels (zlevel zsl) 0 (unlink_level x update) h;
  l ← get_level h x 0;
  n ← h !! x;
  '(h, tl) ← (match forward l with
    | Some y => h ← set_backward h y (backward n); Some (h, tail zsl)
    | None => Some (h, backward n)
    end);
  lv ← lower_level h (header zsl) (zlevel zsl);
  Some (h, Zsl (header zsl) tl (u64 (length_ zsl - 1)) lv).

Definition zslDelete (h : nodes) (objs : objects) (zsl : zskiplist) (sc : double) (o : addr)
  : option (nodes * objects * zskiplist * bool) :=
  update ← search (fun n => node_before objs n sc o) h zsl;
  '(x, _) ← update !! O;
  l ← get_level h x 0;
  match forward l with
  | None => Some (h, objs, zsl, false)
  | Some x =>
    n ← h !! x;
    equal ← (if SFeqb sc (score n) then no ← obj n; equalStringObjects E objs no o else Some false);
    if (equal : bool) then
      '(h, zsl) ← zslDeleteNode h zsl x update;
      '(h, objs) ← zslFreeNode h objs x;
      Some (h, objs, zsl, true)
    else Some (h, objs, zsl, false)
  end.

(** ** Ranges of scores *)

Definition zslValueGteMin (value : double) (spec : zrangespec) : bool :=
  if minex spec then SFltb (min spec) value else SFleb (min spec) value.

Definition zslValueLteMax (value : double) (spec : zrangespec) : bool :=
  if maxex spec then SFltb value (max spec) else SFleb value (max spec).

Definition zslIsInRange (h : nodes) (zsl : zskiplist) (range : zrangespec) : option bool :=
  if SFltb (max range) (min range) || (SFeqb (min range) (max range) && (minex range || maxex range)) then Some false
  else
    match tail zsl with
    | None => Some false
    | Some x =>
      n ← h !! x;
      if negb (zslValueGteMin (score n) range) then Some false
      else
        l ← get_level h (header zsl) 0;
        match forward l with
        | None => Some false
        | Some x => n ← h !! x; Some (zslValueLteMax (score n) range)
        end
    end.

Definition zslFirstInRange (h : nodes) (zsl : zskiplist) (range : zrangespec) : option (option addr) :=
  inrange ← zslIsInRange h zsl range;
  if negb inrange then Some None
  else
    update ← search (fun n => Some (negb (zslValueGteMin (score n) range))) h zsl;
    '(x, _) ← update !! O;
    l ← get_level h x 0;
    x ← forward l;
    n ← h !! x;
    Some (if zslValueLteMax (score n) range then Some x else None).

Definition zslLastInRange (h : nodes) (zsl : zskiplist) (range : zrangespec) : option (option addr) :=
  inrange ← zslIsInRange h zsl range;
  if negb inrange then Some None
  else
    update ← search (fun n => Some (zslValueLteMax (score n) range)) h zsl;
    '(x, _) ← update !! O;
    n ← h !! x;
    Some (if zslValueGteMin (score n) range then Some x else None).

End Ops.
End Zset.
