(* ===== verification/ZsetSpec.v ===== *)
(** * A skip list is a sorted list (src/t_zset.c)

    [skip_rep] says how the nodes in the heap make up a list of elements: at
    every level each node points to the next one tall enough, its span is
    the distance, and the elements are in increasing order of score and
    string.  Insertion, deletion and the searches by score are shown to be
    those of the sorted list, for any random levels. *)

From Stdlib Require Import SpecFloat.
From S2P Require Import Prelude SdsText Object ObjectSpec Zset.
Import SdsText Object ObjectSpec Zset.

Module ZsetSpec.

(** ** The order of doubles *)

Definition not_nan (d : double) : Prop := d <> S754_nan.

(** The position of a double in lexicographic order. *)
Definition dkey (d : double) : Z * Z * Z :=
  match d with
  | S754_infinity true => (-2, 0, 0)
  | S754_finite true m e => (-1, - e, - Z.pos m)
  | S754_zero _ | S754_nan => (0, 0, 0)
  | S754_finite false m e => (1, e, Z.pos m)
  | S754_infinity false => (2, 0, 0)
  end.

Definition lt3 (a b : Z * Z * Z) : Prop :=
  let '(a1, a2, a3) := a in let '(b1, b2, b3) := b in
  a1 < b1 \/ (a1 = b1 /\ (a2 < b2 \/ (a2 = b2 /\ a3 < b3))).

Lemma SFcompare_key a b : not_nan a -> not_nan b ->
  match SFcompare a b with
  | Some Lt => lt3 (dkey a) (dkey b)
  | Some Eq => dkey a = dkey b
  | Some Gt => lt3 (dkey b) (dkey a)
  | None => False
  end.
Proof.
  unfold not_nan. intros Ha Hb.
  destruct a as [sa|[]| |[] ma ea], b as [sb|[]| |[] mb eb]; try done; cbn; try lia.
  - destruct (Z.compare_spec ea eb) as [->|H|H]; [|lia|lia].
    change (Pos.compare_cont Eq ma mb) with (ma ?= mb)%positive.
    destruct (Pos.compare_spec ma mb) as [->|H|H]; cbn; [done|lia|lia].
  - destruct (Z.compare_spec ea eb) as [->|H|H]; [|lia|lia].
    change (Pos.compare_cont Eq ma mb) with (ma ?= mb)%positive.
    destruct (Pos.compare_spec ma mb) as [->|H|H]; cbn; [done|lia|lia].
Qed.

Lemma SFltb_key a b : not_nan a -> not_nan b -> SFltb a b = true <-> lt3 (dkey a) (dkey b).
Proof.
  intros Ha Hb. pose proof (SFcompare_key a b Ha Hb) as H. unfold SFltb.
  destruct (SFcompare a b) as [[| |]|]; [|done| |done].
  - split; [done|]. rewrite H. destruct (dkey b) as [[? ?] ?]. cbn. lia.
  - split; [done|]. destruct (dkey a) as [[? ?] ?], (dkey b) as [[? ?] ?]. cbn in *. lia.
Qed.

Lemma SFeqb_key a b : not_nan a -> not_nan b -> SFeqb a b = true <-> dkey a = dkey b.
Proof.
  intros Ha Hb. pose proof (SFcompare_key a b Ha Hb) as H. unfold SFeqb.
  destruct (SFcompare a b) as [[| |]|]; [done| | |done].
  - split; [done|]. intros E. rewrite E in H. destruct (dkey b) as [[? ?] ?]. cbn in H. lia.
  - split; [done|]. intros E. rewrite E in H. destruct (dkey b) as [[? ?] ?]. cbn in H. lia.
Qed.

Lemma SFleb_key a b : not_nan a -> not_nan b -> SFleb a b = true <-> ~ lt3 (dkey b) (dkey a).
Proof.
  intros Ha Hb. pose proof (SFcompare_key a b Ha Hb) as H. unfold SFleb.
  destruct (SFcompare a b) as [[| |]|]; try done; destruct (dkey a) as [[? ?] ?], (dkey b) as [[? ?] ?]; cbn in *;
    (split; [intros _|done]); try (injection H as -> -> ->); lia.
Qed.

(** ** Elements *)

(** An element of the list: the node's address, the score, the object and its
    string, and the number of levels. *)
Record elem := Elem { eaddr : addr; escore : double; eobj : addr; estr : bytes; eheight : nat }.

(** The order of the list: by score, then by string. *)
Definition before (s1 : double) (x1 : bytes) (s2 : double) (x2 : bytes) : Prop :=
  lt3 (dkey s1) (dkey s2) \/ (dkey s1 = dkey s2 /\ lex x1 x2 = Lt).

Definition elt (a b : elem) : Prop := before (escore a) (estr a) (escore b) (estr b).

Lemma before_trans s1 x1 s2 x2 s3 x3 : before s1 x1 s2 x2 -> before s2 x2 s3 x3 -> before s1 x1 s3 x3.
Proof.
  unfold before. destruct (dkey s1) as [[? ?] ?], (dkey s2) as [[? ?] ?], (dkey s3) as [[? ?] ?]. cbn.
  intros [H1|[[= -> -> ->] H1]] [H2|[[= -> -> ->] H2]]; [left; lia|left; lia|left; lia|].
  right. split; [done|]. by eapply lex_trans.
Qed.

Lemma before_irrefl s x : ~ before s x s x.
Proof.
  unfold before. destruct (dkey s) as [[? ?] ?]. cbn. intros [H|[_ H]]; [lia|]. by rewrite lex_refl in H.
Qed.

Lemma before_total s1 x1 s2 x2 :
  before s1 x1 s2 x2 \/ (dkey s1 = dkey s2 /\ x1 = x2) \/ before s2 x2 s1 x1.
Proof.
  unfold before. destruct (dkey s1) as [[a1 b1] c1], (dkey s2) as [[a2 b2] c2]. cbn.
  destruct (Z.lt_trichotomy a1 a2) as [|[->|]]; [lia| |lia].
  destruct (Z.lt_trichotomy b1 b2) as [|[->|]]; [lia| |lia].
  destruct (Z.lt_trichotomy c1 c2) as [|[->|]]; [lia| |lia].
  rewrite (lex_antisym x1 x2). destruct (lex x1 x2) eqn:E; cbn; [|by left; right|by right; right; right].
  right. left. split; [done|]. by apply lex_eq.
Qed.

(** ** Towers *)

(** The distance to the next tower taller than [j], from the towers ahead. *)
Fixpoint skip (j : nat) (hs : list nat) : option nat :=
  match hs with
  | [] => None
  | h :: hs => if (j <? h)%nat then Some O else S <$> skip j hs
  end.

Lemma skip_app j a b : skip j (a ++ b) = match skip j a with Some d => Some d | None => (fun d => length a + d)%nat <$> skip j b end.
Proof.
  induction a as [|h a IH]; cbn [app skip length]; [by destruct (skip j b)|].
  destruct (j <? h)%nat; [done|]. rewrite IH. destruct (skip j a) as [d|]; [done|]. by destruct (skip j b).
Qed.

Lemma skip_Some j hs d : skip j hs = Some d ->
  exists h, hs !! d = Some h /\ (j < h)%nat /\ skip j (take d hs) = None.
Proof.
  revert d. induction hs as [|h hs IH]; intros d; cbn [skip]; [done|]. destruct (Nat.ltb_spec j h).
  - intros [= <-]. by exists h.
  - destruct (skip j hs) as [d'|]; [|done]. intros [= <-]. destruct (IH d' eq_refl) as (h' & Hh & Hj & Hs).
    exists h'. split; [done|]. split; [done|]. cbn [take skip]. rewrite (proj2 (Nat.ltb_ge j h)) by lia. by rewrite Hs.
Qed.

Lemma skip_None j hs : skip j hs = None <-> Forall (fun h => (h <= j)%nat) hs.
Proof.
  induction hs as [|h hs IH]; cbn [skip]; [done|]. rewrite Forall_cons. destruct (Nat.ltb_spec j h).
  - split; [done|]. lia.
  - destruct (skip j hs); cbn; [|tauto]. split; [done|]. intros [_ H']. by apply IH in H'.
Qed.

(** ** The links of a list *)

Section Links.
Context (hd : addr).
Implicit Types (es : list elem) (e : elem) (p r j i : nat).

Definition heights es : list nat := eheight <$> es.

(** The towers from the header on, in order. *)
Definition towers es : list (addr * nat) := (hd, ZSKIPLIST_MAXLEVEL) :: ((fun e => (eaddr e, eheight e)) <$> es).

(** The level [j] of the tower at position [p]. *)
Definition expected es j p : zskiplistLevel :=
  match skip j (drop p (heights es)) with
  | Some d => ZslLevel (eaddr <$> es !! (p + d)%nat) (Z.of_nat (S d))
  | None => ZslLevel None (Z.of_nat (length es - p))
  end.

(** No tower of the list after position [p] is taller than [j]. *)
Definition clear j (l : list elem) p : Prop := skip j (drop p (heights l)) = None.

Lemma heights_app es1 es2 : heights (es1 ++ es2) = heights es1 ++ heights es2.
Proof. apply fmap_app. Qed.

Lemma length_heights es : length (heights es) = length es.
Proof. apply length_fmap. Qed.

Lemma drop_mid {A} (l1 l2 : list A) p : (p <= length l1)%nat -> drop p (l1 ++ l2) = drop p l1 ++ l2.
Proof. intros. apply drop_app_le. lia. Qed.

Lemma expected_before l1 l2 l2' j p :
  (p <= length l1)%nat -> ~ clear j l1 p ->
  expected (l1 ++ l2) j p = expected (l1 ++ l2') j p.
Proof.
  intros Hp Hs. unfold clear in Hs. unfold expected. rewrite !heights_app, !drop_mid by (rewrite length_heights; lia). rewrite !skip_app.
  destruct (skip j (drop p (heights l1))) as [d|] eqn:Hd; [|done].
  destruct (skip_Some _ _ _ Hd) as (h & Hh & _). apply lookup_lt_Some in Hh. rewrite length_drop, length_heights in Hh.
  by rewrite !lookup_app_l by lia.
Qed.

(** From [p] to the end of [l1], when nothing stands in between. *)
Lemma expected_shift l1 l2 j p :
  (p <= length l1)%nat -> clear j l1 p ->
  expected (l1 ++ l2) j p
    = ZslLevel (forward (expected (l1 ++ l2) j (length l1))) (span (expected (l1 ++ l2) j (length l1)) + Z.of_nat (length l1 - p)).
Proof.
  intros Hp Hs. unfold clear in Hs. unfold expected. rewrite !heights_app, !drop_mid by (rewrite length_heights; lia). rewrite !skip_app, Hs.
  rewrite (drop_ge (heights l1) (length l1)) by (rewrite length_heights; lia). cbn [skip].
  rewrite length_drop, length_heights. destruct (skip j (heights l2)) as [d|]; cbn [fmap option_fmap option_map forward span length].
  - f_equal; [do 2 f_equal; lia|lia].
  - f_equal. rewrite length_app. lia.
Qed.

Lemma expected_reach l1 e l2 j p :
  (p <= length l1)%nat -> clear j l1 p -> (j < eheight e)%nat ->
  expected (l1 ++ e :: l2) j p = ZslLevel (Some (eaddr e)) (Z.of_nat (length l1 - p) + 1).
Proof.
  intros Hp Hs Hj. unfold clear in Hs. unfold expected. rewrite heights_app, drop_mid by (rewrite length_heights; lia). rewrite skip_app, Hs.
  cbn [heights fmap list_fmap skip]. rewrite (proj2 (Nat.ltb_lt _ _)) by lia. cbn [fmap option_fmap option_map].
  rewrite length_drop, length_heights. f_equal; [|lia].
  replace (p + (length l1 - p + 0))%nat with (length l1) by lia. by rewrite list_lookup_middle.
Qed.

Lemma expected_after l1 e l2 j p :
  (length l1 <= p)%nat -> expected (l1 ++ e :: l2) j (S p) = expected (l1 ++ l2) j p.
Proof.
  intros Hp. unfold expected. rewrite !heights_app. cbn [heights fmap list_fmap].
  rewrite !drop_app_ge by (rewrite length_heights; lia). rewrite !length_heights.
  replace (S p - length l1)%nat with (S (p - length l1)) by lia. cbn [drop].
  change (list_fmap elem nat eheight l2) with (heights l2). change (eheight <$> l2) with (heights l2).
  destruct (skip j (drop (p - length l1) (heights l2))) as [d|].
  - f_equal. f_equal. rewrite !lookup_app_r by lia. replace (S p + d - length l1)%nat with (S (p + d - length l1)) by lia. done.
  - f_equal. rewrite !length_app. cbn [length]. lia.
Qed.

Lemma expected_cross l1 e l2 j p :
  (p <= length l1)%nat -> clear j l1 p -> (eheight e <= j)%nat ->
  expected (l1 ++ e :: l2) j p
    = ZslLevel (forward (expected (l1 ++ l2) j p)) (span (expected (l1 ++ l2) j p) + 1).
Proof.
  intros Hp Hs Hj. rewrite (expected_shift l1 l2 j p Hp Hs). cbn [forward span].
  replace (l1 ++ e :: l2) with ((l1 ++ [e]) ++ l2) by (by rewrite <- app_assoc).
  rewrite (expected_shift (l1 ++ [e]) l2 j p).
  - rewrite length_app. cbn [length]. rewrite Nat.add_1_r. rewrite <- app_assoc. cbn [app].
    rewrite expected_after by lia. f_equal. lia.
  - rewrite length_app. cbn [length]. lia.
  - unfold clear in *. rewrite heights_app, drop_mid by (rewrite length_heights; lia). rewrite skip_app, Hs. cbn [heights fmap list_fmap skip].
    by rewrite (proj2 (Nat.ltb_ge _ _)) by lia.
Qed.

Lemma expected_forward es j p :
  forward (expected es j p) = None \/
  exists q e, (p <= q)%nat /\ es !! q = Some e /\ forward (expected es j p) = Some (eaddr e).
Proof.
  unfold expected. destruct (skip j (drop p (heights es))) as [d|] eqn:Hd; [|by left]. cbn [forward].
  destruct (es !! (p + d)%nat) as [e|] eqn:He; [|by left]. right. exists (p + d)%nat, e. split; [lia|done].
Qed.

Lemma towers_S es p : towers es !! S p = (fun e => (eaddr e, eheight e)) <$> es !! p.
Proof. unfold towers. cbn. apply list_lookup_fmap. Qed.

Lemma clear_end j l : clear j l (length l).
Proof. unfold clear. by rewrite drop_ge by (rewrite length_heights; lia). Qed.

(** The first tower after [p]. *)
Lemma not_clear j l p d : skip j (drop p (heights l)) = Some d ->
  exists e, l !! (p + d)%nat = Some e /\ (j < eheight e)%nat.
Proof.
  intros Hd. destruct (skip_Some _ _ _ Hd) as (t & Ht & Hj & _). rewrite lookup_drop in Ht.
  unfold heights in Ht. rewrite list_lookup_fmap in Ht. destruct (l !! (p + d)%nat) as [e|]; [|done].
  injection Ht as <-. by exists e.
Qed.

Lemma clear_tower j l p q e : clear j l p -> (p <= q)%nat -> l !! q = Some e -> (eheight e <= j)%nat.
Proof.
  unfold clear. rewrite skip_None, Forall_lookup. intros H Hp He. apply (H (q - p)%nat).
  rewrite lookup_drop. replace (p + (q - p))%nat with q by lia. unfold heights. by rewrite list_lookup_fmap, He.
Qed.

(** The last tower taller than [j] is unique. *)
Lemma clear_unique j l1 l2 p q a b s t :
  (p <= length l1)%nat -> (q <= length l1)%nat -> clear j l1 p -> clear j l1 q ->
  towers (l1 ++ l2) !! p = Some (a, s) -> towers (l1 ++ l2) !! q = Some (b, t) -> (j < s)%nat -> (j < t)%nat -> p = q.
Proof.
  assert (forall p q b t, (q <= length l1)%nat -> clear j l1 p -> towers (l1 ++ l2) !! q = Some (b, t) -> (j < t)%nat -> (q <= p)%nat) as H.
  { clear. intros p q b t Hq Hp Ht Hj. destruct (decide (q <= p)%nat); [done|]. destruct q as [|q]; [lia|].
    rewrite towers_S, lookup_app_l in Ht by lia. destruct (l1 !! q) as [e|] eqn:He; [|done]. injection Ht as <- <-.
    pose proof (clear_tower j l1 p q e Hp ltac:(lia) He). lia. }
  intros Hp Hq Cp Cq Ha Hb Hs Ht. pose proof (H p q b t Hq Cp Hb Ht). pose proof (H q p a s Hp Cq Ha Hs). lia.
Qed.

Lemma clear_0 l1 p : Forall (fun e => (1 <= eheight e)%nat) l1 -> (p <= length l1)%nat -> clear 0 l1 p -> p = length l1.
Proof.
  intros Hh Hp Hc. destruct (decide (p = length l1)); [done|].
  destruct (lookup_lt_is_Some_2 l1 p) as [e He]; [lia|]. pose proof (clear_tower 0 l1 p p e Hc ltac:(lia) He).
  rewrite Forall_lookup in Hh. specialize (Hh _ _ He). cbn in Hh. lia.
Qed.

Lemma tower_inj es p q a s t :
  NoDup (hd :: (eaddr <$> es)) -> towers es !! p = Some (a, s) -> towers es !! q = Some (a, t) -> p = q.
Proof.
  intros Hn Hp Hq. assert (forall p s, towers es !! p = Some (a, s) -> (hd :: (eaddr <$> es)) !! p = Some a) as H.
  { intros [|p'] s'; [by intros [= <- <-]|]. rewrite towers_S. change ((hd :: (eaddr <$> es)) !! S p') with ((eaddr <$> es) !! p'). rewrite list_lookup_fmap.
    destruct (es !! p'); [|done]. by intros [= <- <-]. }
  eapply NoDup_lookup; [exact Hn|by eapply H|by eapply H].
Qed.

End Links.

(** ** Changing levels in the heap *)

Section Heap.
Abbreviation nodes := (gmap addr zskiplistNode).
Implicit Types (h : nodes) (a b x : addr) (i m : nat) (l : zskiplistLevel).

(** What is in a node besides the contents of its levels. *)
Definition data h a : option (option addr * double * option addr * nat) :=
  (fun n => (obj n, score n, backward n, length (level n))) <$> h !! a.

Definition same_data h h' : Prop := forall a, data h' a = data h a.

Lemma get_level_tall h a i : is_Some (get_level h a i) <-> exists o s (w : option addr) t, data h a = Some (o, s, w, t) /\ (i < t)%nat.
Proof.
  unfold get_level, data. destruct (h !! a) as [n|]; cbn.
  - rewrite lookup_lt_is_Some. split; [intros H; by eexists _, _, _, _|]. intros (o & s & w & t & [= <- <- <- <-] & H). done.
  - split; [by intros [? ?]|by intros (? & ? & ? & ? & ? & _)].
Qed.

Lemma set_level_spec h a i l l0 :
  get_level h a i = Some l0 ->
  exists h', set_level h a i l = Some h' /\ same_data h h' /\
    forall b m, get_level h' b m = if decide (b = a /\ m = i) then Some l else get_level h b m.
Proof.
  unfold get_level, set_level. destruct (h !! a) as [n|] eqn:Ha; [|done]. cbn [mbind option_bind]. intros Hl. rewrite Hl.
  cbn [mbind option_bind]. eexists. split; [done|]. split.
  - intros b. unfold data. destruct (decide (b = a)) as [->|Hne]; [|by rewrite lookup_insert_ne].
    rewrite lookup_insert_eq, Ha. cbn. by rewrite length_insert.
  - intros b m. destruct (decide (b = a)) as [->|Hne].
    + rewrite lookup_insert_eq, Ha. cbn [mbind option_bind level]. destruct (decide (m = i)) as [->|Hm].
      * rewrite decide_True by done. apply list_lookup_insert_eq. by eapply lookup_lt_Some.
      * rewrite decide_False by tauto. by rewrite list_lookup_insert_ne.
    + rewrite decide_False by tauto. by rewrite lookup_insert_ne.
Qed.

Lemma set_span_spec h a i s l0 :
  get_level h a i = Some l0 ->
  exists h', set_span h a i s = Some h' /\ same_data h h' /\
    forall b m, get_level h' b m = if decide (b = a /\ m = i) then Some (ZslLevel (forward l0) s) else get_level h b m.
Proof. intros Hl. unfold set_span. rewrite Hl. cbn [mbind option_bind]. by apply set_level_spec with l0. Qed.

(** A loop whose turns each change their own level: the result at a level is
    what its turn makes of the heap at the start. *)
Lemma for_levels_spec (body : nodes -> nat -> option nodes) (new : nat -> addr -> option zskiplistLevel) (n : nat) : forall from h,
  (forall g m, (from <= m < from + n)%nat -> same_data h g -> (forall b, get_level g b m = get_level h b m) ->
     exists g', body g m = Some g' /\ same_data g g' /\
       forall b m', get_level g' b m' = if decide (m' = m) then new m b else get_level g b m') ->
  exists h', for_levels n from body h = Some h' /\ same_data h h' /\
    forall b m, get_level h' b m = if decide (from <= m < from + n)%nat then new m b else get_level h b m.
Proof.
  induction n as [|n IH]; intros from h Hbody.
  { exists h. split; [done|]. split; [done|]. intros b m. by rewrite decide_False by lia. }
  cbn [for_levels]. destruct (Hbody h from ltac:(lia)) as (g & -> & Hd & Hg); [done|done|]. cbn [mbind option_bind].
  destruct (IH (S from) g) as (h' & -> & Hd' & Hh').
  { intros g2 m Hm Hd2 Hl2. apply Hbody; [lia|intros a; by rewrite Hd2, Hd|].
    intros b. rewrite Hl2, Hg. by rewrite decide_False by lia. }
  exists h'. split; [done|]. split; [intros a; by rewrite Hd', Hd|]. intros b m. rewrite Hh'.
  destruct (decide (m = from)) as [->|Hne].
  - rewrite decide_False by lia. rewrite Hg. by rewrite !decide_True by lia.
  - destruct (decide (S from <= m < S from + n)%nat); [by rewrite decide_True by lia|].
    rewrite decide_False by lia. rewrite Hg. by rewrite decide_False.
Qed.

Lemma get_level_insert h x n b m : get_level (<[x := n]> h) b m = if decide (b = x) then level n !! m else get_level h b m.
Proof. unfold get_level. destruct (decide (b = x)) as [->|]; [by rewrite lookup_insert_eq|by rewrite lookup_insert_ne]. Qed.

Lemma data_insert h x n b : data (<[x := n]> h) b = if decide (b = x) then Some (obj n, score n, backward n, length (level n)) else data h b.
Proof. unfold data. destruct (decide (b = x)) as [->|]; [by rewrite lookup_insert_eq|by rewrite lookup_insert_ne]. Qed.

Lemma set_backward_spec h a (p : option addr) o s (w : option addr) t :
  data h a = Some (o, s, w, t) ->
  exists h', set_backward h a p = Some h' /\ (forall b m, get_level h' b m = get_level h b m) /\
    forall b, data h' b = if decide (b = a) then Some (o, s, p, t) else data h b.
Proof.
  unfold data, set_backward. destruct (h !! a) as [n|] eqn:Ha; [|done]. cbn. intros [= <- <- <- <-].
  eexists. split; [done|]. split.
  - intros b m. rewrite get_level_insert. destruct (decide (b = a)) as [->|]; [|done]. cbn. unfold get_level. by rewrite Ha.
  - intros b. destruct (decide (b = a)) as [->|]; [by rewrite lookup_insert_eq|by rewrite lookup_insert_ne].
Qed.

End Heap.


(** ** The state of a list *)

Section Rep.
Abbreviation nodes := (gmap addr zskiplistNode).
Implicit Types (h g : nodes) (zsl : zskiplist) (es l : list elem) (e : elem) (hd a b : addr) (i j p q : nat).

(** The address of the element before position [p]. *)
Definition prev es p : option addr := match p with O => None | S q => eaddr <$> es !! q end.

(** The number of levels in use. *)
Definition top es : nat := foldr Nat.max 1%nat (heights es).

Record nodes_ok hd h es : Prop := NodesOk {
  no_nodup : NoDup (hd :: (eaddr <$> es));
  no_head : exists o s w, data h hd = Some (o, s, w, ZSKIPLIST_MAXLEVEL);
  no_elem : forall p e, es !! p = Some e -> data h (eaddr e) = Some (Some (eobj e), escore e, prev es p, eheight e);
  no_height : Forall (fun e => (1 <= eheight e <= ZSKIPLIST_MAXLEVEL)%nat) es
}.

Definition levels_ok hd h (lv : nat) es : Prop := forall p a t j,
  towers hd es !! p = Some (a, t) -> (j < t)%nat -> (j < lv)%nat -> get_level h a j = Some (expected es j p).

(** The header's levels not in use. *)
Definition bare hd h (lv : nat) : Prop := forall j, (lv <= j < ZSKIPLIST_MAXLEVEL)%nat ->
  exists s, get_level h hd j = Some (ZslLevel None s).

Record linked h zsl es : Prop := Linked {
  sl_nodes : nodes_ok (header zsl) h es;
  sl_levels : levels_ok (header zsl) h (zlevel zsl) es;
  sl_bare : bare (header zsl) h (zlevel zsl);
  sl_level : zlevel zsl = top es;
  sl_tail : tail zsl = eaddr <$> last es;
  sl_length : length_ zsl = Z.of_nat (length es);
  sl_fits : Z.of_nat (length es) < 2 ^ 32 - 1
}.

Lemma top_range es : Forall (fun e => (1 <= eheight e <= ZSKIPLIST_MAXLEVEL)%nat) es -> (1 <= top es <= ZSKIPLIST_MAXLEVEL)%nat.
Proof. unfold top. induction 1 as [|e es He Hes IH]; cbn; [unfold ZSKIPLIST_MAXLEVEL; lia|]. fold (heights es). lia. Qed.

Lemma top_mid l1 e l2 : (1 <= eheight e)%nat -> top (l1 ++ e :: l2) = Nat.max (eheight e) (top (l1 ++ l2)).
Proof. intros He. unfold top. induction l1 as [|e1 l1 IH]; cbn in *; [done|]. unfold heights in *. lia. Qed.

Lemma height_top es p e : es !! p = Some e -> (eheight e <= top es)%nat.
Proof.
  unfold top. revert p. induction es as [|e' es IH]; intros [|p] He; [done|done|injection He as ->|apply IH in He]; cbn in *; unfold heights in *; lia.
Qed.

Lemma high_clear j l p : (top l <= j)%nat -> clear j l p.
Proof.
  intros Hj. unfold clear. apply skip_None. apply Forall_drop. rewrite Forall_lookup. intros q t. unfold heights.
  rewrite list_lookup_fmap. destruct (l !! q) as [e|] eqn:He; [|done]. intros [= <-]. apply height_top in He. lia.
Qed.

Lemma top_app_l l1 l2 : (top l1 <= top (l1 ++ l2))%nat.
Proof. unfold top. induction l1 as [|e l1 IH]; cbn; [|unfold heights in *; lia]. induction l2; cbn; unfold heights in *; lia. Qed.

Lemma data_node h a o s w t : data h a = Some (o, s, w, t) ->
  exists n, h !! a = Some n /\ obj n = o /\ score n = s /\ backward n = w /\ length (level n) = t.
Proof. unfold data. destruct (h !! a) as [n|]; cbn; [|done]. intros [= <- <- <- <-]. by exists n. Qed.

Lemma node_at hd h es p e : nodes_ok hd h es -> es !! p = Some e ->
  exists n, h !! eaddr e = Some n /\ obj n = Some (eobj e) /\ score n = escore e /\ backward n = prev es p.
Proof. intros Hok He. destruct (data_node _ _ _ _ _ _ (no_elem _ _ _ Hok _ _ He)) as (n & ? & ? & ? & ? & _). by exists n. Qed.

Lemma towers_app_l hd l1 l2 l2' p : (p <= length l1)%nat -> towers hd (l1 ++ l2) !! p = towers hd (l1 ++ l2') !! p.
Proof. intros Hp. destruct p as [|p]; [done|]. rewrite !towers_S. by rewrite !lookup_app_l by lia. Qed.

(** ** Searching *)

(** The test holds of the elements of [l1] and of no other. *)
Definition splits (test : zskiplistNode -> option bool) l1 l2 : Prop := forall p e n,
  (l1 ++ l2) !! p = Some e -> obj n = Some (eobj e) -> score n = escore e -> test n = Some (p <? length l1)%nat.

(** Where the search leaves level [i]: the last tower of [l1] that is taller. *)
Definition left_at hd l1 l2 i (u : addr * Z) : Prop := exists a p t,
  u = (a, Z.of_nat p) /\ towers hd (l1 ++ l2) !! p = Some (a, t) /\ (i < t)%nat /\ (p <= length l1)%nat /\ clear i l1 p.

Section Search.
Context (test : zskiplistNode -> option bool) (h : nodes) (hd : addr) (lv : nat) (l1 l2 : list elem).
Context (Htest : splits test l1 l2) (Hok : nodes_ok hd h (l1 ++ l2)) (Hlv : levels_ok hd h lv (l1 ++ l2)).
Context (Hfits : Z.of_nat (length (l1 ++ l2)) < 2 ^ 32 - 1).

Lemma walk_spec i fuel : forall p a t,
  (i < lv)%nat -> towers hd (l1 ++ l2) !! p = Some (a, t) -> (i < t)%nat -> (p <= length l1)%nat -> (length l1 - p < fuel)%nat ->
  exists u, walk fuel test h i a (Z.of_nat p) = Some u /\ left_at hd l1 l2 i u.
Proof.
  induction fuel as [|fuel IH]; intros p a t Hi Ha Ht Hp Hf; [lia|]. cbn [walk].
  rewrite (Hlv _ _ _ _ Ha Ht Hi). cbn [mbind option_bind].
  destruct (skip i (drop p (heights l1))) as [d|] eqn:Hd.
  - destruct (not_clear _ _ _ _ Hd) as (e & He & Hie). pose proof (lookup_lt_Some _ _ _ He) as Hlt.
    assert (expected (l1 ++ l2) i p = ZslLevel (Some (eaddr e)) (Z.of_nat (S d))) as ->.
    { unfold expected. rewrite heights_app, drop_mid by (rewrite length_heights; lia). rewrite skip_app, Hd.
      by rewrite lookup_app_l, He by done. }
    cbn [forward span]. assert ((l1 ++ l2) !! (p + d)%nat = Some e) as He' by by apply lookup_app_l_Some.
    destruct (node_at _ _ _ _ _ Hok He') as (n & Hn & Ho & Hs & _). rewrite Hn. cbn [mbind option_bind].
    rewrite (Htest _ _ _ He' Ho Hs). cbn [mbind option_bind]. rewrite (proj2 (Nat.ltb_lt _ _)) by lia.
    rewrite length_app in Hfits. rewrite wrapu_small by (unfold is_unsigned; lia).
    replace (Z.of_nat p + Z.of_nat (S d)) with (Z.of_nat (S (p + d))) by lia.
    apply IH with (eheight e); [done| |done|lia|lia]. by rewrite towers_S, He'.
  - exists (a, Z.of_nat p). split; [|exists a, p, t; done].
    rewrite (expected_shift l1 l2 i p Hp Hd). cbn [forward span].
    destruct (expected_forward (l1 ++ l2) i (length l1)) as [->|(q & e & Hq & He & ->)]; [done|].
    destruct (node_at _ _ _ _ _ Hok He) as (n & Hn & Ho & Hs & _). rewrite Hn. cbn [mbind option_bind].
    rewrite (Htest _ _ _ He Ho Hs). cbn [mbind option_bind]. by rewrite (proj2 (Nat.ltb_ge _ _)) by lia.
Qed.

Lemma descend_spec fuel i : forall p a t acc,
  (i <= lv)%nat -> towers hd (l1 ++ l2) !! p = Some (a, t) -> (i <= t)%nat -> (p <= length l1)%nat -> (length l1 < fuel)%nat ->
  exists us, descend fuel test h i a (Z.of_nat p) acc = Some (us ++ acc) /\ length us = i /\
    forall j u, us !! j = Some u -> left_at hd l1 l2 j u.
Proof.
  induction i as [|i IH]; intros p a t acc Hi Ha Ht Hp Hf; [by exists []|]. cbn [descend].
  destruct (walk_spec i fuel p a t ltac:(lia) Ha ltac:(lia) Hp ltac:(lia)) as (u & -> & Hu). cbn [mbind option_bind].
  destruct Hu as (a' & p' & t' & -> & Ha' & Ht' & Hp' & Hc').
  destruct (IH p' a' t' ((a', Z.of_nat p') :: acc) ltac:(lia) Ha' ltac:(lia) Hp' Hf) as (us & -> & Hlen & Hus).
  exists (us ++ [(a', Z.of_nat p')]). split; [by rewrite <- app_assoc|]. split; [rewrite length_app; cbn; lia|].
  intros j u. rewrite lookup_app. destruct (us !! j) as [u'|] eqn:Hj; [intros [= <-]; by apply Hus|].
  apply lookup_ge_None in Hj. intros Hu. assert (j = i) as ->.
  { apply lookup_lt_Some in Hu. cbn in Hu. lia. }
  rewrite Hlen, Nat.sub_diag in Hu. injection Hu as <-. by exists a', p', t'.
Qed.

End Search.

Lemma search_spec test h zsl l1 l2 :
  linked h zsl (l1 ++ l2) -> splits test l1 l2 ->
  exists us, search test h zsl = Some us /\ length us = zlevel zsl /\
    forall j u, us !! j = Some u -> left_at (header zsl) l1 l2 j u.
Proof.
  intros Hl Htest. pose proof (top_range _ (no_height _ _ _ (sl_nodes _ _ _ Hl))). pose proof (sl_level _ _ _ Hl).
  destruct (descend_spec test h (header zsl) (zlevel zsl) l1 l2 Htest (sl_nodes _ _ _ Hl) (sl_levels _ _ _ Hl) (sl_fits _ _ _ Hl)
    (S (Z.to_nat (length_ zsl))) (zlevel zsl) 0 (header zsl) ZSKIPLIST_MAXLEVEL []) as (us & Hus & H'); [done|done|lia|lia| |].
  { rewrite (sl_length _ _ _ Hl), Nat2Z.id, length_app. lia. }
  exists us. split; [|done]. unfold search. change 0 with (Z.of_nat 0). by rewrite Hus, app_nil_r.
Qed.

End Rep.

(** ** Insertion *)

Section Insert.
Abbreviation nodes := (gmap addr zskiplistNode).
Implicit Types (h g : nodes) (zsl : zskiplist) (es l : list elem) (e : elem) (hd a b x : addr) (i j m p q : nat).

Lemma nodes_same hd h g es : nodes_ok hd h es -> same_data h g -> nodes_ok hd g es.
Proof.
  intros [Hn Hh He Ht] Hd. constructor; [done| | |done]; [by rewrite Hd|]. intros p e Hp. rewrite Hd. by apply He.
Qed.

Lemma tower_addr hd es p a t : towers hd es !! p = Some (a, t) -> a = hd \/ exists e, es !! Nat.pred p = Some e /\ a = eaddr e.
Proof.
  destruct p as [|p]; [intros [= <- <-]; by left|]. rewrite towers_S. cbn [Nat.pred].
  destruct (es !! p) as [e|]; [|done]. intros [= <- <-]. right. by exists e.
Qed.

Lemma tower_data hd h es p a t : nodes_ok hd h es -> towers hd es !! p = Some (a, t) -> exists o s w, data h a = Some (o, s, w, t).
Proof.
  intros Hok. destruct p as [|p]; [intros [= <- <-]; apply Hok|]. rewrite towers_S. destruct (es !! p) as [e|] eqn:He; [|done].
  intros [= <- <-]. rewrite (no_elem _ _ _ Hok _ _ He). by eexists _, _, _.
Qed.

Lemma tower_fresh hd h es p a t x : nodes_ok hd h es -> h !! x = None -> towers hd es !! p = Some (a, t) -> a <> x.
Proof.
  intros Hok Hx Ha ->. destruct (tower_data _ _ _ _ _ _ Hok Ha) as (o & s & w & Hd). unfold data in Hd. by rewrite Hx in Hd.
Qed.

(** The levels above those in use join the list. *)
Lemma raise_spec h zsl es lv :
  linked h zsl es -> (lv <= ZSKIPLIST_MAXLEVEL)%nat ->
  exists g, for_levels (lv - zlevel zsl) (zlevel zsl) (raise_level zsl) h = Some g /\ same_data h g /\
    levels_ok (header zsl) g (Nat.max (zlevel zsl) lv) es /\ bare (header zsl) g (Nat.max (zlevel zsl) lv).
Proof.
  intros Hl Hlv. pose proof (sl_length _ _ _ Hl) as Hlen. pose proof (sl_fits _ _ _ Hl).
  destruct (for_levels_spec (raise_level zsl)
    (fun m b => if decide (b = header zsl) then Some (ZslLevel None (length_ zsl)) else get_level h b m)
    (lv - zlevel zsl) (zlevel zsl) h) as (g & -> & Hd & Hg).
  { intros g m Hm Hdg Hlg. unfold raise_level. rewrite wrapu_small by (unfold is_unsigned; lia).
    destruct (sl_bare _ _ _ Hl m) as [s Hs]; [lia|].
    destruct (set_span_spec g (header zsl) m (length_ zsl) _ (eq_trans (Hlg _) Hs)) as (g' & -> & Hd' & Hg').
    exists g'. split; [done|]. split; [done|]. intros b m'. rewrite Hg'. cbn [forward].
    destruct (decide (m' = m)) as [->|]; [|by rewrite decide_False by tauto].
    destruct (decide (b = header zsl)) as [->|]; [by rewrite decide_True|rewrite decide_False by tauto]. apply Hlg. }
  exists g. split; [done|]. split; [done|]. pose proof (sl_level _ _ _ Hl) as Htop. split.
  - intros p a t j Ha Ht Hj. rewrite Hg. destruct (decide (zlevel zsl <= j < zlevel zsl + (lv - zlevel zsl))%nat) as [Hj'|].
    + destruct p as [|p].
      * injection Ha as <- <-. rewrite decide_True by done.
        pose proof (high_clear j es 0 ltac:(lia)) as Hc. unfold clear in Hc. unfold expected. rewrite Hc, Hlen. by rewrite Nat.sub_0_r.
      * rewrite towers_S in Ha. destruct (es !! p) as [e|] eqn:He; [|done]. injection Ha as <- <-.
        apply height_top in He. lia.
    + apply (sl_levels _ _ _ Hl _ _ _ _ Ha Ht). lia.
  - intros j Hj. rewrite Hg, decide_False by lia. apply (sl_bare _ _ _ Hl). lia.
Qed.

(** Every level of the search has its place. *)
Definition places hd l1 l2 (lv : nat) (us : list (addr * Z)) : Prop := forall j, (j < lv)%nat ->
  exists a p t, us !! j = Some (a, Z.of_nat p) /\ towers hd (l1 ++ l2) !! p = Some (a, t) /\ (j < t)%nat /\
    (p <= length l1)%nat /\ clear j l1 p.

Lemma places_search hd l1 l2 lv us :
  length us = lv -> (forall j u, us !! j = Some u -> left_at hd l1 l2 j u) -> places hd l1 l2 lv us.
Proof.
  intros Hl Hus j Hj. destruct (lookup_lt_is_Some_2 us j) as [u Hu]; [lia|].
  destruct (Hus j u Hu) as (a & p & t & -> & H). by exists a, p, t.
Qed.

Lemma places_raise hd l1 l2 lv lv' us :
  length us = lv -> (top l1 <= lv)%nat -> (lv' <= ZSKIPLIST_MAXLEVEL)%nat -> places hd l1 l2 lv us ->
  places hd l1 l2 (Nat.max lv lv') (us ++ replicate (lv' - lv) (hd, 0)).
Proof.
  intros Hl Htop Hm Hus j Hj. destruct (decide (j < lv)%nat).
  - destruct (Hus j) as (a & p & t & Hu & H); [done|]. exists a, p, t. split; [by apply lookup_app_l_Some|done].
  - exists hd, 0%nat, ZSKIPLIST_MAXLEVEL. split; [|split; [done|split; [lia|split; [lia|apply high_clear; lia]]]].
    rewrite lookup_app_r by lia. apply lookup_replicate_2. lia.
Qed.

Lemma places_0 hd h l1 l2 lv us :
  nodes_ok hd h (l1 ++ l2) -> (0 < lv)%nat -> places hd l1 l2 lv us ->
  exists a t, us !! O = Some (a, Z.of_nat (length l1)) /\ towers hd (l1 ++ l2) !! length l1 = Some (a, t).
Proof.
  intros Hok Hlv Hus. destruct (Hus 0%nat Hlv) as (a & p & t & Hu & Ha & _ & Hp & Hc).
  pose proof (no_height _ _ _ Hok) as Hh. apply Forall_app in Hh as [Hh _].
  assert (p = length l1) as ->; [|by exists a, t]. apply clear_0; [|done|done].
  eapply Forall_impl; [exact Hh|]. cbn. lia.
Qed.

(** The contents of the levels after the new tower is linked. *)
Definition relinked h l1 l2 e (us : list (addr * Z)) m b : option zskiplistLevel :=
  match us !! m with
  | Some (a, k) =>
    if decide (b = a) then Some (expected (l1 ++ e :: l2) m (Z.to_nat k))
    else if decide (b = eaddr e) then (if decide (m < eheight e)%nat then Some (expected (l1 ++ l2) m (length l1)) else None)
    else get_level h b m
  | None => None
  end.

Lemma levels_insert hd h g l1 l2 e lv us :
  nodes_ok hd h (l1 ++ l2) -> levels_ok hd h lv (l1 ++ l2) -> h !! eaddr e = None -> places hd l1 l2 lv us ->
  (forall b m, (m < lv)%nat -> get_level g b m = relinked h l1 l2 e us m b) ->
  levels_ok hd g lv (l1 ++ e :: l2).
Proof.
  intros Hok Hlv Hx Hus Hg q b t j Hb Ht Hj. rewrite Hg by done. unfold relinked.
  destruct (Hus j Hj) as (a & p & s & -> & Ha & Hs & Hp & Hc). rewrite Nat2Z.id.
  pose proof (tower_fresh _ _ _ _ _ _ _ Hok Hx Ha) as Hax.
  destruct (decide (q <= length l1)%nat) as [Hq|Hq].
  - rewrite (towers_app_l hd l1 (e :: l2) l2) in Hb by done. destruct (decide (b = a)) as [->|Hne].
    + rewrite (tower_inj hd _ _ _ _ _ _ (no_nodup _ _ _ Hok) Hb Ha). done.
    + rewrite decide_False by (eapply tower_fresh; done). rewrite (Hlv _ _ _ _ Hb Ht Hj). f_equal. apply expected_before; [done|].
      intros Hcq. apply Hne. rewrite (clear_unique hd j l1 l2 _ _ _ _ _ _ Hp Hq Hc Hcq Ha Hb Hs Ht), Hb in Ha. by injection Ha.
  - destruct q as [|q]; [lia|]. rewrite towers_S, lookup_app_r in Hb by lia. destruct (decide (q = length l1)) as [->|Hne].
    + rewrite Nat.sub_diag in Hb. injection Hb as <- <-. rewrite decide_False by congruence. rewrite !decide_True by done.
      by rewrite expected_after by done.
    + assert (towers hd (l1 ++ l2) !! q = Some (b, t)) as Hb'.
      { destruct q as [|q]; [lia|]. rewrite towers_S, lookup_app_r by lia.
        replace (S q - length l1)%nat with (S (q - length l1)) in Hb by lia. done. }
      rewrite decide_False, decide_False; [|by eapply tower_fresh|].
      * rewrite (Hlv _ _ _ _ Hb' Ht Hj). by rewrite expected_after by lia.
      * intros ->. pose proof (tower_inj hd _ _ _ _ _ _ (no_nodup _ _ _ Hok) Hb' Ha). lia.
Qed.

Lemma span_range hd es j p : 0 <= span (expected es j p) <= Z.of_nat (length es).
Proof.
  unfold expected. destruct (skip j (drop p (heights es))) as [d|] eqn:Hd; cbn [span]; [|lia].
  destruct (not_clear _ _ _ _ Hd) as (e & He & _). apply lookup_lt_Some in He. lia.
Qed.

Lemma link_levels_spec hd h l1 l2 e lv us junk :
  nodes_ok hd h (l1 ++ l2) -> levels_ok hd h lv (l1 ++ l2) -> h !! eaddr e = None -> places hd l1 l2 lv us ->
  (eheight e <= lv)%nat -> Z.of_nat (length (l1 ++ l2)) < 2 ^ 32 - 1 ->
  let h2 := <[eaddr e := zslCreateNode junk (eheight e) (escore e) (Some (eobj e))]> h in
  exists g, for_levels (eheight e) 0 (link_level (eaddr e) (Z.of_nat (length l1)) us) h2 = Some g /\ same_data h2 g /\
    forall b m, get_level g b m = if decide (m < eheight e)%nat then relinked h l1 l2 e us m b else get_level h2 b m.
Proof.
  intros Hok Hlv Hx Hus Hh Hfits h2.
  destruct (for_levels_spec (link_level (eaddr e) (Z.of_nat (length l1)) us) (relinked h l1 l2 e us) (eheight e) 0 h2) as (g & -> & Hd & Hg).
  { intros g m Hm Hdg Hlg. destruct (Hus m ltac:(lia)) as (a & p & t & Hu & Ha & Ht & Hp & Hc).
    unfold link_level. rewrite Hu. cbn [mbind option_bind]. pose proof (tower_fresh _ _ _ _ _ _ _ Hok Hx Ha) as Hax.
    assert (get_level g a m = Some (expected (l1 ++ l2) m p)) as Hla.
    { rewrite Hlg. subst h2. rewrite get_level_insert, decide_False by done. apply (Hlv _ _ _ _ Ha Ht). lia. }
    assert (get_level g (eaddr e) m = Some junk) as Hlx.
    { rewrite Hlg. subst h2. rewrite get_level_insert, decide_True by done. apply lookup_replicate_2. lia. }
    rewrite Hla. cbn [mbind option_bind].
    pose proof (span_range hd (l1 ++ l2) m (length l1)) as Hs. rewrite length_app in Hfits, Hs.
    rewrite (wrapu_small 32 (Z.of_nat (length l1) - Z.of_nat p)) by (unfold is_unsigned; lia).
    rewrite (expected_shift l1 l2 m p Hp Hc). cbn [forward span].
    rewrite !wrapu_small by (unfold is_unsigned; lia).
    destruct (set_level_spec g (eaddr e) m (expected (l1 ++ l2) m (length l1)) _ Hlx) as (g1 & Hg1 & Hd1 & Hl1).
    replace (ZslLevel (forward _) _) with (expected (l1 ++ l2) m (length l1)) by
      (destruct (expected (l1 ++ l2) m (length l1)) as [f s]; cbn; f_equal; lia).
    rewrite Hg1. cbn [mbind option_bind].
    edestruct (set_level_spec g1 a m) as (g2 & -> & Hd2 & Hl2).
    { rewrite Hl1, decide_False by (intros [? ?]; done). exact Hla. }
    exists g2. split; [done|]. split; [intros b; by rewrite Hd2, Hd1|]. intros b m'. rewrite Hl2, Hl1.
    unfold relinked. destruct (decide (m' = m)) as [->|]; [|by rewrite !decide_False by tauto].
    rewrite Hu, Nat2Z.id. destruct (decide (b = a)) as [->|Hba].
    - rewrite decide_True by done. rewrite expected_reach by (done || lia). do 2 f_equal. lia.
    - rewrite decide_False by tauto. destruct (decide (b = eaddr e)) as [->|].
      + by rewrite !decide_True by (done || lia).
      + rewrite decide_False by tauto. rewrite Hlg. subst h2. by rewrite get_level_insert, decide_False. }
  exists g. split; [done|]. split; [done|]. intros b m. rewrite Hg.
  destruct (decide (m < eheight e)%nat); [by rewrite decide_True by lia|by rewrite decide_False by lia].
Qed.

Lemma cross_spec hd h h2 l1 l2 e lv us :
  nodes_ok hd h (l1 ++ l2) -> levels_ok hd h lv (l1 ++ l2) -> h !! eaddr e = None -> places hd l1 l2 lv us ->
  (eheight e <= lv)%nat -> Z.of_nat (length (l1 ++ l2)) < 2 ^ 32 - 1 ->
  (forall b m, (eheight e <= m)%nat -> get_level h2 b m = if decide (b = eaddr e) then None else get_level h b m) ->
  exists g, for_levels (lv - eheight e) (eheight e) (cross_level us) h2 = Some g /\ same_data h2 g /\
    forall b m, get_level g b m = if decide (eheight e <= m < lv)%nat then relinked h l1 l2 e us m b else get_level h2 b m.
Proof.
  intros Hok Hlv Hx Hus Hh Hfits Hh2.
  destruct (for_levels_spec (cross_level us) (relinked h l1 l2 e us) (lv - eheight e) (eheight e) h2) as (g & -> & Hd & Hg).
  { intros g m Hm Hdg Hlg. destruct (Hus m ltac:(lia)) as (a & p & t & Hu & Ha & Ht & Hp & Hc).
    unfold cross_level. rewrite Hu. cbn [mbind option_bind]. pose proof (tower_fresh _ _ _ _ _ _ _ Hok Hx Ha) as Hax.
    assert (get_level g a m = Some (expected (l1 ++ l2) m p)) as Hla.
    { rewrite Hlg, Hh2, decide_False by (done || lia). apply (Hlv _ _ _ _ Ha Ht). lia. }
    rewrite Hla. cbn [mbind option_bind]. pose proof (span_range hd (l1 ++ l2) m p) as Hs.
    rewrite wrapu_small by (unfold is_unsigned; lia).
    destruct (set_span_spec g a m (span (expected (l1 ++ l2) m p) + 1) _ Hla) as (g' & -> & Hd' & Hl').
    exists g'. split; [done|]. split; [done|]. intros b m'. rewrite Hl'. unfold relinked.
    destruct (decide (m' = m)) as [->|]; [|by rewrite decide_False by tauto].
    rewrite Hu, Nat2Z.id. destruct (decide (b = a)) as [->|Hba].
    - rewrite decide_True by done. by rewrite expected_cross by (done || lia).
    - rewrite decide_False by tauto. rewrite Hlg, Hh2 by lia.
      destruct (decide (b = eaddr e)) as [->|]; [by rewrite decide_False by lia|done]. }
  exists g. split; [done|]. split; [done|]. intros b m. rewrite Hg.
  destruct (decide (eheight e <= m < lv)%nat); [by rewrite decide_True by lia|by rewrite decide_False by lia].
Qed.

Lemma prev_app_l l1 l2 l2' p : (p <= length l1)%nat -> prev (l1 ++ l2) p = prev (l1 ++ l2') p.
Proof. intros Hp. destruct p as [|p]; [done|]. cbn [prev]. by rewrite !lookup_app_l by lia. Qed.

Lemma prev_mid l1 l2 : prev (l1 ++ l2) (length l1) = eaddr <$> last l1.
Proof.
  rewrite last_lookup. destruct (length l1) as [|n] eqn:Hn; [by destruct l1|]. cbn [prev Nat.pred].
  by rewrite lookup_app_l by lia.
Qed.

Lemma prev_after l1 e l2 p : (length l1 < p)%nat -> prev (l1 ++ e :: l2) (S p) = prev (l1 ++ l2) p.
Proof.
  intros Hp. destruct p as [|p]; [lia|]. cbn [prev]. rewrite !lookup_app_r by lia.
  by replace (S p - length l1)%nat with (S (p - length l1)) by lia.
Qed.

Lemma prev_tower hd es p a t : NoDup (hd :: (eaddr <$> es)) -> towers hd es !! p = Some (a, t) ->
  (if a =? hd then None else Some a) = prev es p.
Proof.
  intros Hn. destruct p as [|p]; [intros [= <- <-]; by rewrite Z.eqb_refl|]. rewrite towers_S. cbn [prev].
  destruct (es !! p) as [e|] eqn:He; [|done]. intros [= <- <-]. apply NoDup_cons in Hn as [Hn _].
  rewrite (proj2 (Z.eqb_neq _ _)); [done|]. intros <-. apply Hn. apply list_elem_of_fmap. exists e. split; [done|].
  by eapply list_elem_of_lookup_2.
Qed.

(** The bottom level links every element. *)
Lemma expected_0 es p : Forall (fun e => (1 <= eheight e)%nat) es -> forward (expected es 0 p) = eaddr <$> es !! p.
Proof.
  intros Hh. unfold expected. destruct (drop p (heights es)) as [|t ts] eqn:Hd.
  - cbn [skip forward]. rewrite lookup_ge_None_2; [done|]. apply (f_equal length) in Hd.
    rewrite length_drop, length_heights in Hd. cbn in Hd. lia.
  - assert (heights es !! p = Some t) as Ht.
    { pose proof (lookup_drop (heights es) p 0) as Hl. rewrite Hd, Nat.add_0_r in Hl. by rewrite <- Hl. }
    unfold heights in Ht. rewrite list_lookup_fmap in Ht. destruct (es !! p) as [e|] eqn:He; [|done]. injection Ht as <-.
    rewrite Forall_lookup in Hh. specialize (Hh _ _ He). cbn in Hh.
    cbn [skip]. rewrite (proj2 (Nat.ltb_lt _ _)) by lia. cbn [forward]. by rewrite Nat.add_0_r, He.
Qed.

Lemma heights_pos hd h es : nodes_ok hd h es -> Forall (fun e => (1 <= eheight e)%nat) es.
Proof. intros Hok. eapply Forall_impl; [exact (no_height _ _ _ Hok)|]. cbn. lia. Qed.

(** What the nodes hold once the element has its place. *)
Definition data_mid h l1 e l2 b : option (option addr * double * option addr * nat) :=
  if decide (b = eaddr e) then Some (Some (eobj e), escore e, eaddr <$> last l1, eheight e)
  else match l2 with
    | y :: _ => if decide (b = eaddr y) then Some (Some (eobj y), escore y, Some (eaddr e), eheight y) else data h b
    | [] => data h b
    end.

Lemma nodup_elem hd es p q e e' :
  NoDup (hd :: (eaddr <$> es)) -> es !! p = Some e -> es !! q = Some e' -> eaddr e = eaddr e' -> p = q.
Proof.
  intros Hn Hp Hq He. apply (NoDup_lookup (eaddr <$> es) p q (eaddr e)); [by apply NoDup_cons in Hn as [_ ?]| |];
    rewrite list_lookup_fmap; [by rewrite Hp|by rewrite Hq, He].
Qed.

Lemma elem_not_head hd es p e : NoDup (hd :: (eaddr <$> es)) -> es !! p = Some e -> eaddr e <> hd.
Proof.
  intros Hn He E. apply NoDup_cons in Hn as [Hn _]. apply Hn. rewrite <- E. apply list_elem_of_fmap. exists e.
  split; [done|]. by eapply list_elem_of_lookup_2.
Qed.

Lemma fresh_nodup hd h l1 e l2 : nodes_ok hd h (l1 ++ l2) -> h !! eaddr e = None -> NoDup (hd :: (eaddr <$> l1 ++ e :: l2)).
Proof.
  intros Hok Hx. assert (forall p t a, towers hd (l1 ++ l2) !! p = Some (a, t) -> a <> eaddr e) as Hf
    by (intros; by eapply tower_fresh).
  pose proof (no_nodup _ _ _ Hok) as Hn. rewrite fmap_app in Hn |- *. rewrite fmap_cons.
  change (hd :: ((eaddr <$> l1) ++ eaddr e :: (eaddr <$> l2))) with ((hd :: (eaddr <$> l1)) ++ eaddr e :: (eaddr <$> l2)).
  rewrite <- Permutation_middle. apply NoDup_cons. split; [|done].
  intros Hin. change (eaddr e ∈ hd :: ((eaddr <$> l1) ++ (eaddr <$> l2))) in Hin. rewrite <- fmap_app in Hin.
  apply elem_of_cons in Hin as [Hin|Hin]; [by apply (Hf 0%nat ZSKIPLIST_MAXLEVEL hd)|].
  apply list_elem_of_fmap in Hin as (e' & E & Hin). apply list_elem_of_lookup in Hin as [p Hp].
  apply (Hf (S p) (eheight e') (eaddr e')); [by rewrite towers_S, Hp|done].
Qed.

Lemma nodes_insert hd h g l1 e l2 :
  nodes_ok hd h (l1 ++ l2) -> h !! eaddr e = None -> (1 <= eheight e <= ZSKIPLIST_MAXLEVEL)%nat ->
  (forall b, data g b = data_mid h l1 e l2 b) -> nodes_ok hd g (l1 ++ e :: l2).
Proof.
  intros Hok Hx Hh Hg. pose proof (fresh_nodup _ _ _ _ _ Hok Hx) as Hn. constructor; [done| | |].
  - destruct (no_head _ _ _ Hok) as (o & s & w & Hd). exists o, s, w. rewrite Hg. unfold data_mid.
    assert (hd <> eaddr e) as Hne by (by eapply tower_fresh with (p := 0%nat)).
    rewrite decide_False by done. destruct l2 as [|y l2]; [done|]. rewrite decide_False; [done|].
    intros ->. apply (elem_not_head (eaddr y) (l1 ++ y :: l2) (length l1) y); [apply Hok|by apply list_lookup_middle|done].
  - intros p e' He'. rewrite Hg. unfold data_mid. destruct (decide (eaddr e' = eaddr e)) as [E|Hne].
    { pose proof (nodup_elem _ _ _ (length l1) _ e Hn He' ltac:(by apply list_lookup_middle) E) as ->.
      rewrite list_lookup_middle in He' by done. injection He' as <-. by rewrite prev_mid. }
    destruct (Nat.lt_trichotomy p (length l1)) as [Hp|[->|Hp]].
    + rewrite lookup_app_l in He' by lia. pose proof (lookup_app_l_Some l1 l2 _ _ He') as He2.
      pose proof (no_elem _ _ _ Hok _ _ He2) as Hd. rewrite (prev_app_l l1 (e :: l2) l2) by lia.
      destruct l2 as [|y l2]; [done|]. rewrite decide_False; [done|]. intros E.
      pose proof (nodup_elem _ _ _ (length l1) _ y (no_nodup _ _ _ Hok) He2 ltac:(by apply list_lookup_middle) E). lia.
    + rewrite list_lookup_middle in He' by done. by injection He' as ->.
    + destruct p as [|p]; [lia|]. rewrite lookup_app_r in He' by lia.
      replace (S p - length l1)%nat with (S (p - length l1)) in He' by lia. cbn [lookup list_lookup] in He'.
      assert ((l1 ++ l2) !! p = Some e') as He2 by (rewrite lookup_app_r by lia; done).
      pose proof (no_elem _ _ _ Hok _ _ He2) as Hd. destruct l2 as [|y l2]; [done|].
      destruct (decide (p = length l1)) as [->|].
      * rewrite list_lookup_middle in He2 by done. injection He2 as ->. rewrite decide_True by done.
        cbn [prev]. by rewrite list_lookup_middle.
      * rewrite decide_False; [by rewrite prev_after by lia|]. intros E.
        pose proof (nodup_elem _ _ _ (length l1) _ y (no_nodup _ _ _ Hok) He2 ltac:(by apply list_lookup_middle) E). lia.
  - pose proof (no_height _ _ _ Hok) as Hf. apply Forall_app in Hf as [H1 H2]. apply Forall_app. split; [done|]. by constructor.
Qed.

(** The two writes of backward pointers. *)
Lemma backward_spec hd h g l1 e l2 :
  nodes_ok hd h (l1 ++ l2) -> h !! eaddr e = None ->
  (forall b, data g b = if decide (b = eaddr e) then Some (Some (eobj e), escore e, None, eheight e) else data h b) ->
  exists g1, set_backward g (eaddr e) (eaddr <$> last l1) = Some g1 /\
    (forall b m, get_level g1 b m = get_level g b m) /\
    match l2 with
    | y :: _ => exists g2, set_backward g1 (eaddr y) (Some (eaddr e)) = Some g2 /\
        (forall b m, get_level g2 b m = get_level g b m) /\ forall b, data g2 b = data_mid h l1 e l2 b
    | [] => forall b, data g1 b = data_mid h l1 e l2 b
    end.
Proof.
  intros Hok Hx Hg. edestruct (set_backward_spec g (eaddr e) (eaddr <$> last l1)) as (g1 & -> & Hl1 & Hd1).
  { rewrite Hg. by rewrite decide_True. }
  exists g1. split; [done|]. split; [done|]. destruct l2 as [|y l2].
  - intros b. rewrite Hd1, Hg. unfold data_mid. by destruct (decide (b = eaddr e)).
  - assert (eaddr y <> eaddr e) as Hne.
    { eapply (tower_fresh hd h (l1 ++ y :: l2) (S (length l1))); [done|done|]. rewrite towers_S, list_lookup_middle by done. done. }
    edestruct (set_backward_spec g1 (eaddr y) (Some (eaddr e))) as (g2 & -> & Hl2 & Hd2).
    { rewrite Hd1, decide_False by done. rewrite Hg, decide_False by done. by apply (no_elem _ _ _ Hok (length l1)), list_lookup_middle. }
    exists g2. split; [done|]. split; [intros b m; by rewrite Hl2|]. intros b. rewrite Hd2, Hd1, Hg. unfold data_mid.
    destruct (decide (b = eaddr y)) as [->|]; [by rewrite decide_False|]. by destruct (decide (b = eaddr e)).
Qed.

Lemma level_loop_pos rs : forall lv r, level_loop rs lv = Some r -> (lv <= r)%nat.
Proof.
  induction rs as [|r rs IH]; intros lv v; cbn; [done|]. destruct (Z.land r 65535 <=? 16383).
  - intros H%IH. lia.
  - intros [= ->]. lia.
Qed.

Lemma random_range rs lv : zslRandomLevel rs = Some lv -> (1 <= lv <= ZSKIPLIST_MAXLEVEL)%nat.
Proof.
  unfold zslRandomLevel, ZSKIPLIST_MAXLEVEL. destruct (level_loop rs 1) as [v|] eqn:Hv; [|done]. apply level_loop_pos in Hv.
  cbn [mbind option_bind]. intros [= <-]. destruct (Nat.ltb_spec v 32); lia.
Qed.

Lemma last_mid l1 e l2 : last (l1 ++ e :: l2) = match l2 with [] => Some e | _ => last (l1 ++ l2) end.
Proof. destruct l2 as [|y l2]; [apply last_snoc|]. rewrite !last_app_cons. done. Qed.

Lemma insert_linked {P} (E : env) junk rs x h (objs : gmap Object.addr (robj P)) zsl sc o s lv l1 l2 :
  linked h zsl (l1 ++ l2) -> h !! x = None -> zslRandomLevel rs = Some lv ->
  splits (fun n => node_before E objs n sc o) l1 l2 -> Z.of_nat (length (l1 ++ l2)) + 1 < 2 ^ 32 - 1 ->
  exists h' zsl', zslInsert E junk rs x h objs zsl sc o = Some (h', zsl') /\ linked h' zsl' (l1 ++ Elem x sc o s lv :: l2).
Proof.
  intros Hl Hx Hr Htest Hfits. pose proof (random_range _ _ Hr) as Hlv. set (e := Elem x sc o s lv).
  destruct (search_spec _ _ _ _ _ Hl Htest) as (us & Hus & Hlen & Hleft).
  pose proof (top_range _ (no_height _ _ _ (sl_nodes _ _ _ Hl))) as Htop. rewrite <- (sl_level _ _ _ Hl) in Htop.
  destruct (raise_spec h zsl _ lv Hl ltac:(lia)) as (h1 & Hraise & Hd1 & Hlv1 & Hbare).
  pose proof (nodes_same _ _ _ _ (sl_nodes _ _ _ Hl) Hd1) as Hok.
  assert (h1 !! x = None) as Hx1.
  { specialize (Hd1 x). unfold data in Hd1. rewrite Hx in Hd1. by destruct (h1 !! x). }
  pose proof (places_raise _ _ _ _ lv _ Hlen ltac:(rewrite (sl_level _ _ _ Hl); apply top_app_l) ltac:(lia)
    (places_search _ _ _ _ _ Hlen Hleft)) as Hpl.
  set (zlv := Nat.max (zlevel zsl) lv) in *. set (us' := us ++ replicate (lv - zlevel zsl) (header zsl, 0)) in *.
  unfold zslInsert. rewrite Hus, Hr. cbn [mbind option_bind]. rewrite Hraise. cbn [mbind option_bind]. fold us'.
  replace (if (zlevel zsl <? lv)%nat then lv else zlevel zsl) with zlv by
    (subst zlv; destruct (Nat.ltb_spec (zlevel zsl) lv); lia).
  destruct (places_0 _ _ _ _ zlv us' Hok ltac:(lia) Hpl) as (a & t & Hu0 & Ha). rewrite Hu0. cbn [mbind option_bind].
  destruct (link_levels_spec _ _ _ _ e zlv us' junk Hok Hlv1 Hx1 Hpl ltac:(cbn; lia) ltac:(lia)) as (h2 & Hlink & Hd2 & Hl2).
  cbn [eaddr eheight escore eobj e] in Hlink. rewrite Hlink. cbn [mbind option_bind].
  edestruct (cross_spec _ h1 h2 _ _ e zlv us' Hok Hlv1 Hx1 Hpl) as (h3 & Hcross & Hd3 & Hl3); [cbn; lia|lia| |].
  { intros b m Hm. rewrite Hl2, decide_False by lia. rewrite get_level_insert. destruct (decide (b = eaddr e)); [|done].
    cbn. apply lookup_ge_None_2. by rewrite length_replicate. }
  cbn [eheight e] in Hcross. rewrite Hcross. cbn [mbind option_bind].
  rewrite (prev_tower _ _ _ _ _ (no_nodup _ _ _ Hok) Ha), prev_mid.
  destruct (backward_spec _ _ h3 l1 e l2 Hok Hx1) as (g1 & Hg1 & Hlg1 & Hnext).
  { intros b. rewrite Hd3, Hd2, data_insert. destruct (decide (b = eaddr e)); [|done]. cbn. by rewrite length_replicate. }
  cbn [eaddr e] in Hg1. rewrite Hg1. cbn [mbind option_bind].
  assert (forall b m, (m < zlv)%nat -> get_level h3 b m = relinked h1 l1 l2 e us' m b) as Hrel.
  { intros b m Hm. rewrite Hl3, Hl2. destruct (decide (eheight e <= m < zlv)%nat); [done|]. by rewrite decide_True by lia. }
  pose proof (levels_insert _ h1 h3 l1 l2 e zlv us' Hok Hlv1 Hx1 Hpl Hrel) as Hlv3.
  assert (get_level g1 x 0 = Some (expected (l1 ++ e :: l2) 0 (S (length l1)))) as ->.
  { rewrite Hlg1. apply (Hlv3 _ _ lv); [by rewrite towers_S, list_lookup_middle|lia|lia]. }
  cbn [mbind option_bind]. rewrite expected_after by done. rewrite (expected_0 _ _ (heights_pos _ _ _ Hok)).
  rewrite lookup_app_r, Nat.sub_diag by done.
  assert (zlv = top (l1 ++ e :: l2)) as Hzlv by (rewrite top_mid by (cbn; lia); rewrite <- (sl_level _ _ _ Hl); subst zlv; cbn; lia).
  assert (length_ zsl + 1 = Z.of_nat (length (l1 ++ e :: l2))) as Hlen'.
  { rewrite (sl_length _ _ _ Hl), !length_app. cbn [length]. lia. }
  assert (forall g tl, (forall b m, get_level g b m = get_level h3 b m) -> (forall b, data g b = data_mid h1 l1 e l2 b) ->
    tl = eaddr <$> last (l1 ++ e :: l2) ->
    linked g (Zsl (header zsl) tl (u64 (length_ zsl + 1)) zlv) (l1 ++ e :: l2)) as Hdone.
  { intros g tl Hgl Hgd ->. constructor; cbn [header zlevel tail length_]; [..|done|done| |].
    - eapply nodes_insert; [exact Hok|done|cbn; lia|done].
    - intros p b t' j Hb Ht' Hj. rewrite Hgl. by apply (Hlv3 _ _ t').
    - intros j Hj. destruct (Hbare j Hj) as [sp Hsp]. exists sp. rewrite Hgl, Hl3, decide_False by lia.
      rewrite Hl2, decide_False by (cbn; lia). rewrite get_level_insert, decide_False; [done|].
      by eapply (tower_fresh _ h1 _ 0).
    - rewrite wrapu_small; [done|]. unfold is_unsigned. rewrite length_app in *. cbn [length] in *. lia.
    - rewrite length_app in *. cbn [length]. lia. }
  rewrite last_mid in Hdone. destruct l2 as [|y l2]; cbn [lookup list_lookup fmap option_fmap option_map].
  - eexists _, _. split; [done|]. by apply Hdone.
  - destruct Hnext as (g2 & Hg2 & Hlg2 & Hdg2). cbn [eaddr e] in Hg2. rewrite Hg2. cbn [mbind option_bind].
    eexists _, _. split; [done|]. apply Hdone; [done|done|]. apply (sl_tail _ _ _ Hl).
Qed.

End Insert.

(** ** Deletion *)

Section Delete.
Abbreviation nodes := (gmap addr zskiplistNode).
Implicit Types (h g : nodes) (zsl : zskiplist) (es l : list elem) (e : elem) (hd a b x : addr) (i j m p q : nat).

(** The contents of the levels after the tower is unlinked. *)
Definition unlinked h l1 l2 (us : list (addr * Z)) m b : option zskiplistLevel :=
  match us !! m with
  | Some (a, k) => if decide (b = a) then Some (expected (l1 ++ l2) m (Z.to_nat k)) else get_level h b m
  | None => None
  end.

(** Past the element, no level leads back to it. *)
Lemma expected_beyond hd l1 e l2 m p :
  NoDup (hd :: (eaddr <$> l1 ++ e :: l2)) -> (length l1 <= p)%nat -> forward (expected (l1 ++ l2) m p) <> Some (eaddr e).
Proof.
  intros Hn Hp E. destruct (expected_forward (l1 ++ l2) m p) as [H|(q & e' & Hq & He & H)]; rewrite H in E; [done|].
  injection E as E. rewrite lookup_app_r in He by lia.
  assert ((l1 ++ e :: l2) !! S q = Some e') as He'.
  { rewrite lookup_app_r by lia. by replace (S q - length l1)%nat with (S (q - length l1)) by lia. }
  pose proof (nodup_elem _ _ _ _ _ _ Hn He' (list_lookup_middle l1 l2 e _ eq_refl) E). lia.
Qed.

Lemma unlink_levels_spec hd h l1 e l2 lv us :
  nodes_ok hd h (l1 ++ e :: l2) -> levels_ok hd h lv (l1 ++ e :: l2) -> places hd l1 (e :: l2) lv us ->
  Z.of_nat (length (l1 ++ e :: l2)) < 2 ^ 32 - 1 ->
  exists g, for_levels lv 0 (unlink_level (eaddr e) us) h = Some g /\ same_data h g /\
    forall b m, get_level g b m = if decide (m < lv)%nat then unlinked h l1 l2 us m b else get_level h b m.
Proof.
  intros Hok Hlv Hus Hfits.
  destruct (for_levels_spec (unlink_level (eaddr e) us) (unlinked h l1 l2 us) lv 0 h) as (g & -> & Hd & Hg).
  { intros g m Hm Hdg Hlg. destruct (Hus m ltac:(lia)) as (a & p & t & Hu & Ha & Ht & Hp & Hc).
    unfold unlink_level. rewrite Hu. cbn [mbind option_bind].
    assert (get_level g a m = Some (expected (l1 ++ e :: l2) m p)) as Hla
      by (rewrite Hlg; apply (Hlv _ _ _ _ Ha Ht); lia).
    rewrite Hla. cbn [mbind option_bind].
    pose proof (span_range hd (l1 ++ l2) m p) as Hsp. pose proof (span_range hd (l1 ++ l2) m (length l1)) as Hsr.
    assert (Z.of_nat (length (l1 ++ l2)) < 2 ^ 32 - 2) as Hfits' by (rewrite !length_app in *; cbn [length] in *; lia).
    assert (length l1 <= length (l1 ++ l2))%nat as Hl12 by (rewrite length_app; lia).
    assert (exists g', (if decide (forward (expected (l1 ++ e :: l2) m p) = Some (eaddr e)) then
        lx ← get_level g (eaddr e) m;
        set_level g a m (ZslLevel (forward lx) (u32 (span (expected (l1 ++ e :: l2) m p) + u32 (span lx - 1))))
      else set_span g a m (u32 (span (expected (l1 ++ e :: l2) m p) - 1))) = Some g' /\ same_data g g' /\
      forall b m', get_level g' b m' = if decide (b = a /\ m' = m) then Some (expected (l1 ++ l2) m p) else get_level g b m')
      as (g' & -> & Hd' & Hl').
    { destruct (decide (m < eheight e)%nat) as [Hh|Hh].
      - rewrite expected_reach by done. cbn [forward span]. rewrite decide_True by done.
        rewrite Hlg, (Hlv (S (length l1)) _ (eheight e)); [|by rewrite towers_S, list_lookup_middle|done|lia].
        cbn [mbind option_bind]. rewrite expected_after by done.
        destruct (set_level_spec g a m (expected (l1 ++ l2) m p) _ Hla) as (g' & Hg' & H'). exists g'. split; [|done].
        rewrite <- Hg'. f_equal. rewrite (expected_shift l1 l2 m p Hp Hc). f_equal.
        rewrite (expected_shift l1 l2 m p Hp Hc) in Hsp. cbn [span] in Hsp.
        unfold wrapu. rewrite Zplus_mod_idemp_r. rewrite Z.mod_small by lia. lia.
      - rewrite (expected_cross l1 e l2 m p Hp Hc) by lia. cbn [forward span]. rewrite decide_False.
        + rewrite Z.add_simpl_r, wrapu_small by (unfold is_unsigned; lia).
          destruct (set_span_spec g a m (span (expected (l1 ++ l2) m p)) _ Hla) as (g' & Hg' & Hd' & Hl').
          exists g'. split; [done|]. split; [done|]. intros b m'. rewrite Hl', (expected_cross l1 e l2 m p Hp Hc) by lia.
          cbn [forward]. by destruct (expected (l1 ++ l2) m p).
        + rewrite (expected_shift l1 l2 m p Hp Hc). cbn [forward]. apply (expected_beyond hd); [apply Hok|done]. }
    exists g'. split; [done|]. split; [done|]. intros b m'. rewrite Hl'. unfold unlinked.
    destruct (decide (m' = m)) as [->|]; [|by rewrite decide_False by tauto].
    rewrite Hu, Nat2Z.id. destruct (decide (b = a)) as [->|]; [by rewrite decide_True|rewrite decide_False by tauto]. apply Hlg. }
  exists g. split; [done|]. split; [done|]. intros b m. rewrite Hg. cbn [Nat.add].
  destruct (decide (m < lv)%nat); [by rewrite decide_True by lia|by rewrite decide_False by lia].
Qed.

(** The towers of the shorter list, in the longer one. *)
Lemma towers_longer hd l1 e l2 p : towers hd (l1 ++ l2) !! p = towers hd (l1 ++ e :: l2) !! (if (p <=? length l1)%nat then p else S p).
Proof.
  destruct (Nat.leb_spec p (length l1)); [by apply towers_app_l|]. destruct p as [|p]; [lia|]. rewrite !towers_S.
  rewrite !lookup_app_r by lia. by replace (S p - length l1)%nat with (S (p - length l1)) by lia.
Qed.

Lemma levels_delete hd h g l1 e l2 lv us :
  nodes_ok hd h (l1 ++ e :: l2) -> levels_ok hd h lv (l1 ++ e :: l2) -> places hd l1 (e :: l2) lv us ->
  (forall b m, (m < lv)%nat -> get_level g b m = unlinked h l1 l2 us m b) ->
  levels_ok hd g lv (l1 ++ l2).
Proof.
  intros Hok Hlv Hus Hg q b t j Hb Ht Hj. rewrite Hg by done. unfold unlinked.
  destruct (Hus j Hj) as (a & p & s & -> & Ha & Hs & Hp & Hc). rewrite Nat2Z.id.
  rewrite (towers_longer _ _ e) in Hb. destruct (Nat.leb_spec q (length l1)) as [Hq|Hq].
  - destruct (decide (b = a)) as [->|Hne].
    + by rewrite (tower_inj hd _ _ _ _ _ _ (no_nodup _ _ _ Hok) Hb Ha).
    + rewrite (Hlv _ _ _ _ Hb Ht Hj). f_equal. apply expected_before; [done|]. intros Hcq. apply Hne.
      rewrite (clear_unique hd j l1 (e :: l2) _ _ _ _ _ _ Hp Hq Hc Hcq Ha Hb Hs Ht), Hb in Ha. by injection Ha.
  - rewrite decide_False; [rewrite (Hlv _ _ _ _ Hb Ht Hj); by rewrite expected_after by lia|].
    intros ->. pose proof (tower_inj hd _ _ _ _ _ _ (no_nodup _ _ _ Hok) Hb Ha). lia.
Qed.

Lemma lower_spec hd h es lv :
  levels_ok hd h lv es -> (top es <= lv <= ZSKIPLIST_MAXLEVEL)%nat -> lower_level h hd lv = Some (top es).
Proof.
  assert (1 <= top es)%nat as H1 by (unfold top; clear; induction es; cbn; unfold heights in *; lia).
  induction lv as [|lv IH]; intros Hlv Htop; [lia|].
  destruct lv as [|lv]; [cbn; f_equal; lia|]. cbn [lower_level].
  rewrite (Hlv 0%nat hd ZSKIPLIST_MAXLEVEL (S lv)); [|done|lia|lia]. cbn [mbind option_bind].
  destruct (decide (top es = S (S lv))) as [Ht|].
  - unfold expected. destruct (skip (S lv) (drop 0 (heights es))) as [d|] eqn:Hd.
    + destruct (not_clear (S lv) es 0 d Hd) as (e & -> & _). by rewrite Ht.
    + exfalso. apply skip_None in Hd. change (drop 0 (heights es)) with (heights es) in Hd.
      assert (forall hs, Forall (fun t => (t <= S lv)%nat) hs -> (foldr Nat.max 1%nat hs <= S lv)%nat) as H
        by (induction 1; cbn; lia).
      apply H in Hd. unfold top in Ht. lia.
  - pose proof (high_clear (S lv) es 0 ltac:(lia)) as Hc. unfold clear in Hc. unfold expected. rewrite Hc. cbn [forward].
    apply IH; [|lia]. intros p a t j Ha Ht Hj. apply (Hlv _ _ _ _ Ha Ht). lia.
Qed.

Lemma top_less l1 e l2 : (top (l1 ++ l2) <= top (l1 ++ e :: l2))%nat.
Proof. unfold top. induction l1 as [|e1 l1 IH]; cbn; unfold heights in *; lia. Qed.

(** What the nodes hold once the element is unlinked. *)
Definition data_without h l1 l2 b : option (option addr * double * option addr * nat) :=
  match l2 with
  | y :: _ => if decide (b = eaddr y) then Some (Some (eobj y), escore y, eaddr <$> last l1, eheight y) else data h b
  | [] => data h b
  end.

Lemma nodup_without hd l1 e l2 : NoDup (hd :: (eaddr <$> l1 ++ e :: l2)) -> NoDup (hd :: (eaddr <$> l1 ++ l2)).
Proof.
  rewrite !fmap_app, fmap_cons. intros Hn. rewrite app_comm_cons, <- Permutation_middle in Hn. by apply NoDup_cons in Hn as [_ ?].
Qed.

Lemma nodes_delete hd h g l1 e l2 :
  nodes_ok hd h (l1 ++ e :: l2) -> (forall b, b <> eaddr e -> data g b = data_without h l1 l2 b) -> nodes_ok hd g (l1 ++ l2).
Proof.
  intros Hok Hg. pose proof (no_nodup _ _ _ Hok) as Hn. constructor.
  - by eapply nodup_without.
  - destruct (no_head _ _ _ Hok) as (o & s & w & Hd). exists o, s, w. rewrite Hg.
    + unfold data_without. destruct l2 as [|y l2]; [done|]. rewrite decide_False; [done|]. intros ->.
      apply (elem_not_head (eaddr y) (l1 ++ e :: y :: l2) (S (length l1)) y); [done| |done].
      rewrite lookup_app_r by lia. by replace (S (length l1) - length l1)%nat with 1%nat by lia.
    + intros ->. by apply (elem_not_head (eaddr e) (l1 ++ e :: l2) (length l1) e); [|apply list_lookup_middle|].
  - intros p e' He'. pose (q := if (p <? length l1)%nat then p else S p).
    assert ((l1 ++ e :: l2) !! q = Some e') as He.
    { subst q. destruct (Nat.ltb_spec p (length l1)); [by rewrite lookup_app_l in He' |- * by lia|].
      rewrite lookup_app_r in He' |- * by lia. by replace (S p - length l1)%nat with (S (p - length l1)) by lia. }
    rewrite Hg.
    + unfold data_without. pose proof (no_elem _ _ _ Hok _ _ He) as Hd. destruct l2 as [|y l2].
      * rewrite Hd. rewrite app_nil_r in He'. pose proof (lookup_lt_Some _ _ _ He').
        subst q. rewrite (proj2 (Nat.ltb_lt _ _)) by done. by rewrite (prev_app_l l1 [e] []) by lia.
      * assert ((l1 ++ e :: y :: l2) !! S (length l1) = Some y) as Hy.
        { rewrite lookup_app_r by lia. by replace (S (length l1) - length l1)%nat with 1%nat by lia. }
        destruct (decide (eaddr e' = eaddr y)) as [E|Hne].
        { pose proof (nodup_elem _ _ _ _ _ _ Hn He Hy E) as Hq. rewrite Hq, Hy in He. injection He as <-.
          assert (p = length l1) as -> by (subst q; destruct (Nat.ltb_spec p (length l1)); lia). by rewrite prev_mid. }
        rewrite Hd. do 3 f_equal. subst q. destruct (Nat.ltb_spec p (length l1)); [by apply prev_app_l; lia|].
        destruct (decide (p = length l1)) as [->|]; [|apply prev_after; lia].
        rewrite Hy in He. injection He as <-. done.
    + intros E. pose proof (nodup_elem _ _ _ _ _ _ Hn He (list_lookup_middle l1 l2 e _ eq_refl) E) as Hq.
      subst q. destruct (Nat.ltb_spec p (length l1)); lia.
  - pose proof (no_height _ _ _ Hok) as Hf. apply Forall_app in Hf as [H1 H2]. apply Forall_cons in H2 as [_ H2]. by apply Forall_app.
Qed.

Lemma data_delete h x b : data (delete x h) b = if decide (b = x) then None else data h b.
Proof. unfold data. destruct (decide (b = x)) as [->|]; [by rewrite lookup_delete_eq|by rewrite lookup_delete_ne]. Qed.

Lemma get_level_delete h x b m : b <> x -> get_level (delete x h) b m = get_level h b m.
Proof. intros. unfold get_level. by rewrite lookup_delete_ne. Qed.

Lemma last_without l1 e l2 : (match l2 with [] => eaddr <$> last l1 | _ => eaddr <$> last (l1 ++ e :: l2) end) = eaddr <$> last (l1 ++ l2).
Proof. destruct l2 as [|y l2]; [by rewrite app_nil_r|]. by rewrite !last_app_cons. Qed.

Lemma delete_linked h zsl l1 e l2 us :
  linked h zsl (l1 ++ e :: l2) -> length us = zlevel zsl ->
  (forall j u, us !! j = Some u -> left_at (header zsl) l1 (e :: l2) j u) ->
  exists h' zsl', zslDeleteNode h zsl (eaddr e) us = Some (h', zsl') /\ data h' (eaddr e) = data h (eaddr e) /\
    linked (delete (eaddr e) h') zsl' (l1 ++ l2).
Proof.
  intros Hl Hlen Hleft. pose proof (sl_nodes _ _ _ Hl) as Hok. pose proof (sl_levels _ _ _ Hl) as Hlv.
  pose proof (top_range _ (no_height _ _ _ Hok)) as Htop. rewrite <- (sl_level _ _ _ Hl) in Htop.
  pose proof (places_search _ _ _ _ _ Hlen Hleft) as Hpl.
  destruct (unlink_levels_spec _ _ _ _ _ _ _ Hok Hlv Hpl (sl_fits _ _ _ Hl)) as (h1 & Hunlink & Hd1 & Hl1).
  unfold zslDeleteNode. rewrite Hunlink. cbn [mbind option_bind].
  assert (towers (header zsl) (l1 ++ e :: l2) !! S (length l1) = Some (eaddr e, eheight e)) as Htow
    by (by rewrite towers_S, list_lookup_middle).
  pose proof (no_height _ _ _ Hok) as Hf. rewrite Forall_lookup in Hf.
  pose proof (Hf _ _ (list_lookup_middle l1 l2 e _ eq_refl)) as Hhe. cbn in Hhe.
  assert (get_level h1 (eaddr e) 0 = Some (expected (l1 ++ e :: l2) 0 (S (length l1)))) as ->.
  { rewrite Hl1, decide_True by lia. unfold unlinked. destruct (Hpl 0%nat ltac:(lia)) as (a & p & t & -> & Ha & _ & Hp & _).
    rewrite decide_False; [apply (Hlv _ _ _ _ Htow); lia|]. intros <-.
    pose proof (tower_inj _ _ _ _ _ _ _ (no_nodup _ _ _ Hok) Ha Htow). lia. }
  cbn [mbind option_bind]. rewrite (expected_0 _ _ (heights_pos _ _ _ Hok)), lookup_app_r by lia.
  replace (S (length l1) - length l1)%nat with 1%nat by lia. change ((e :: l2) !! 1%nat) with (l2 !! 0%nat).
  destruct (data_node h1 (eaddr e) (Some (eobj e)) (escore e) (prev (l1 ++ e :: l2) (length l1)) (eheight e)) as (n & Hn & _ & _ & Hw & _).
  { rewrite Hd1. by apply (no_elem _ _ _ Hok), list_lookup_middle. }
  rewrite Hn. cbn [mbind option_bind]. rewrite Hw, prev_mid.
  assert (levels_ok (header zsl) h1 (zlevel zsl) (l1 ++ l2)) as Hlv1.
  { apply (levels_delete _ h h1 l1 e l2 _ us); [done|done|done|]. intros b m Hm. by rewrite Hl1, decide_True. }
  pose proof (top_less l1 e l2) as Hless. rewrite <- (sl_level _ _ _ Hl) in Hless.
  assert (forall g tl, (forall b m, get_level g b m = get_level h1 b m) ->
    (forall b, data g b = data_without h l1 l2 b) -> tl = eaddr <$> last (l1 ++ l2) ->
    exists lv, lower_level g (header zsl) (zlevel zsl) = Some lv /\ data g (eaddr e) = data h (eaddr e) /\
      linked (delete (eaddr e) g) (Zsl (header zsl) tl (u64 (length_ zsl - 1)) lv) (l1 ++ l2)) as Hdone.
  { intros g tl Hgl Hgd ->. exists (top (l1 ++ l2)).
    assert (levels_ok (header zsl) g (zlevel zsl) (l1 ++ l2)) as Hlvg by (intros p b t j ? ? ?; rewrite Hgl; by eapply Hlv1).
    pose proof (no_nodup _ _ _ Hok) as Hnd.
    assert (forall b, b <> eaddr e -> data (delete (eaddr e) g) b = data_without h l1 l2 b) as Hdd
      by (intros b Hb; by rewrite data_delete, decide_False, Hgd by done).
    pose proof (nodes_delete _ _ _ _ _ _ Hok Hdd) as Hokd.
    assert (forall p b t, towers (header zsl) (l1 ++ l2) !! p = Some (b, t) -> b <> eaddr e) as Hfresh
      by (intros; eapply tower_fresh; [exact Hokd|apply lookup_delete_eq|done]).
    assert (length_ zsl - 1 = Z.of_nat (length (l1 ++ l2))) as Hlen'
      by (rewrite (sl_length _ _ _ Hl), !length_app; cbn [length]; lia).
    assert (Z.of_nat (length (l1 ++ l2)) < 2 ^ 32 - 1) as Hfits
      by (pose proof (sl_fits _ _ _ Hl) as Hfit; rewrite !length_app in *; cbn [length] in *; lia).
    split; [by apply lower_spec; [|lia]|]. split.
    - rewrite Hgd. unfold data_without. destruct l2 as [|y l2]; [done|]. rewrite decide_False; [done|]. intros E.
      apply (Hfresh (S (length l1)) (eaddr y) (eheight y)); [by rewrite towers_S, list_lookup_middle|done].
    - constructor; cbn [header zlevel tail length_]; [done| | |done|done| |done].
      + intros p b t j Hb Ht Hj. rewrite get_level_delete by (by eapply Hfresh). apply (Hlvg _ _ _ _ Hb Ht). lia.
      + intros j Hj. rewrite get_level_delete by (by apply (Hfresh 0%nat _ ZSKIPLIST_MAXLEVEL)).
        destruct (decide (j < zlevel zsl)%nat).
        * exists (span (expected (l1 ++ l2) j 0)). rewrite (Hlvg 0%nat (header zsl) ZSKIPLIST_MAXLEVEL j) by (done || lia).
          pose proof (high_clear j (l1 ++ l2) 0 ltac:(lia)) as Hc. unfold clear in Hc. unfold expected. by rewrite Hc.
        * destruct (sl_bare _ _ _ Hl j ltac:(lia)) as [s Hs]. exists s. by rewrite Hgl, Hl1, decide_False.
      + rewrite wrapu_small; [done|]. unfold is_unsigned. lia. }
  rewrite <- (last_without l1 e l2) in Hdone. destruct l2 as [|y l2]; cbn [lookup list_lookup fmap option_fmap option_map].
  - destruct (Hdone h1 (eaddr <$> last l1)) as (lv & Hlow & H'); [done|done|done|]. cbn [mbind option_bind].
    rewrite Hlow. cbn [mbind option_bind]. by eexists _, _.
  - edestruct (set_backward_spec h1 (eaddr y) (eaddr <$> last l1)) as (g & Hg & Hlg & Hdg).
    { rewrite Hd1. apply (no_elem _ _ _ Hok (S (length l1))). rewrite lookup_app_r by lia.
      by replace (S (length l1) - length l1)%nat with 1%nat by lia. }
    rewrite Hg. cbn [mbind option_bind].
    destruct (Hdone g (tail zsl)) as (lv & Hlow & H'); [done| |apply (sl_tail _ _ _ Hl)|].
    { intros b. rewrite Hdg, Hd1. done. }
    rewrite Hlow. cbn [mbind option_bind]. by eexists _, _.
Qed.

(** What the search finds at the bottom level: the last element before the
    place, and the first one after it. *)
Lemma search_bottom test h zsl l1 l2 :
  linked h zsl (l1 ++ l2) -> splits test l1 l2 ->
  exists us a t lv, search test h zsl = Some us /\ length us = zlevel zsl /\
    (forall j u, us !! j = Some u -> left_at (header zsl) l1 l2 j u) /\
    us !! O = Some (a, Z.of_nat (length l1)) /\ towers (header zsl) (l1 ++ l2) !! length l1 = Some (a, t) /\
    get_level h a 0 = Some lv /\ forward lv = eaddr <$> head l2.
Proof.
  intros Hl Hsplit. pose proof (sl_nodes _ _ _ Hl) as Hok.
  destruct (search_spec _ _ _ _ _ Hl Hsplit) as (us & Hus & Hlen & Hleft).
  pose proof (top_range _ (no_height _ _ _ Hok)) as Htop. rewrite <- (sl_level _ _ _ Hl) in Htop.
  pose proof (places_search _ _ _ _ _ Hlen Hleft) as Hpl.
  destruct (places_0 _ _ _ _ (zlevel zsl) us Hok ltac:(lia) Hpl) as (a & t & Hu0 & Ha).
  assert (0 < t)%nat as Ht0.
  { destruct (Hleft 0%nat _ Hu0) as (a' & p & t' & [= <- Hp] & Ha' & Ht' & _). assert (p = length l1) as -> by lia. congruence. }
  exists us, a, t, (expected (l1 ++ l2) 0 (length l1)). do 5 (split; [done|]). split.
  - apply (sl_levels _ _ _ Hl _ _ _ _ Ha Ht0). lia.
  - rewrite (expected_0 _ _ (heights_pos _ _ _ Hok)), lookup_app_r, Nat.sub_diag by lia. by destruct l2.
Qed.

End Delete.

(** ** The list as a sorted list *)

Section Sorted.
Context {P : Type} (E : env).
Abbreviation nodes := (gmap addr zskiplistNode).
Abbreviation objects := (gmap addr (robj P)).
Implicit Types (h : nodes) (objs : objects) (zsl : zskiplist) (es l : list elem) (e : elem) (c x o : addr).

(** The number of elements with an object. *)
Definition occ o es : nat := length (filter (fun e => eobj e = o) es).

Record skip_rep h objs zsl es : Prop := SkipRep {
  sr_linked : linked h zsl es;
  sr_sorted : StronglySorted elt es;
  sr_elem : Forall (fun e => not_nan (escore e) /\ holds objs (eobj e) (estr e) /\ is_str_len (estr e)) es;
  sr_refs : forall o, Z.of_nat (occ o es) <= count objs o
}.

(** The order of scores and strings, decided. *)
Definition beforeb (s1 : double) (x1 : bytes) (s2 : double) (x2 : bytes) : bool :=
  SFltb s1 s2 || (SFeqb s1 s2 && match lex x1 x2 with Lt => true | _ => false end).

Lemma beforeb_spec s1 (x1 : bytes) s2 (x2 : bytes) : not_nan s1 -> not_nan s2 -> beforeb s1 x1 s2 x2 = true <-> before s1 x1 s2 x2.
Proof.
  intros H1 H2. unfold beforeb, before. rewrite orb_true_iff, andb_true_iff, SFltb_key, SFeqb_key by done.
  destruct (lex x1 x2); intuition congruence.
Qed.

(** Insertion and removal in a sorted list. *)
Fixpoint sorted_insert e es : list elem :=
  match es with
  | [] => [e]
  | e' :: es' => if beforeb (escore e') (estr e') (escore e) (estr e) then e' :: sorted_insert e es' else e :: es
  end.

Definition same_elem (sc : double) (s : bytes) e : bool := SFeqb sc (escore e) && bool_decide (estr e = s).

Fixpoint sorted_remove (sc : double) (s : bytes) es : list elem :=
  match es with
  | [] => []
  | e :: es => if same_elem sc s e then es else e :: sorted_remove sc s es
  end.

Lemma sorted_insert_split e l1 l2 :
  Forall (fun e' => beforeb (escore e') (estr e') (escore e) (estr e) = true) l1 ->
  Forall (fun e' => beforeb (escore e') (estr e') (escore e) (estr e) = false) l2 ->
  sorted_insert e (l1 ++ l2) = l1 ++ e :: l2.
Proof.
  intros H1 H2. induction H1 as [|e1 l1 H1 _ IH]; cbn [app sorted_insert].
  - destruct H2 as [|e2 l2 H2 _]; [done|]. cbn [sorted_insert]. by rewrite H2.
  - by rewrite H1, IH.
Qed.

Lemma split_sorted (f : elem -> bool) es :
  StronglySorted elt es -> (forall a b, a ∈ es -> b ∈ es -> elt a b -> f b = true -> f a = true) ->
  exists l1 l2, es = l1 ++ l2 /\ Forall (fun e => f e = true) l1 /\ Forall (fun e => f e = false) l2.
Proof.
  induction 1 as [|e es Hs IH He]; intros Hf; [by exists [], []|]. destruct (f e) eqn:Hfe.
  - destruct IH as (l1 & l2 & -> & H1 & H2); [|exists (e :: l1), l2; by repeat constructor].
    intros a b Ha Hb. apply Hf; by right.
  - exists [], (e :: es). split; [done|]. split; [done|]. constructor; [done|]. apply Forall_forall. intros b Hb.
    destruct (f b) eqn:Hfb; [|done]. rewrite (Hf e b) in Hfe; [done|by left|by right| |done].
    rewrite Forall_forall in He. by apply He.
Qed.

Lemma splits_of (test : zskiplistNode -> option bool) (f : elem -> bool) l1 l2 :
  (forall e n, e ∈ l1 ++ l2 -> obj n = Some (eobj e) -> score n = escore e -> test n = Some (f e)) ->
  Forall (fun e => f e = true) l1 -> Forall (fun e => f e = false) l2 -> splits test l1 l2.
Proof.
  intros Ht H1 H2 p e n He Ho Hs. rewrite (Ht e n) by (done || by eapply list_elem_of_lookup_2). f_equal.
  rewrite Forall_lookup in H1, H2. destruct (Nat.ltb_spec p (length l1)).
  - rewrite lookup_app_l in He by done. by apply (H1 p).
  - rewrite lookup_app_r in He by done. by apply (H2 (p - length l1)%nat).
Qed.

Lemma node_before_spec objs n e sc o s :
  not_nan (escore e) -> holds objs (eobj e) (estr e) -> is_str_len (estr e) -> holds objs o s -> is_str_len s ->
  obj n = Some (eobj e) -> score n = escore e ->
  node_before E objs n sc o = Some (beforeb (escore e) (estr e) sc s).
Proof.
  intros Hn He Hle Ho Hlo Hobj Hsc. unfold node_before, beforeb. rewrite Hsc, Hobj.
  destruct (SFltb (escore e) sc); [done|]. cbn [orb]. destruct (SFeqb (escore e) sc); [|done]. cbn [mbind option_bind andb].
  destruct (compareStringObjects_spec E objs _ _ _ _ He Ho Hle Hlo) as (c & -> & Hc). cbn [mbind option_bind]. f_equal.
  rewrite <- Hc. unfold Z.ltb. by destruct (c ?= 0).
Qed.

(** The elements before a score and a string come first. *)
Lemma zrep_split h objs zsl es sc o s :
  skip_rep h objs zsl es -> not_nan sc -> holds objs o s -> is_str_len s ->
  exists l1 l2, es = l1 ++ l2 /\ splits (fun n => node_before E objs n sc o) l1 l2 /\
    Forall (fun e => beforeb (escore e) (estr e) sc s = true) l1 /\
    Forall (fun e => beforeb (escore e) (estr e) sc s = false) l2.
Proof.
  intros [Hl Hs He _] Hsc Ho Hlo. rewrite Forall_forall in He.
  destruct (split_sorted (fun e => beforeb (escore e) (estr e) sc s) es Hs) as (l1 & l2 & -> & H1 & H2).
  { intros a b Ha Hb Hab Hb'. apply beforeb_spec in Hb'; [|by apply He|done].
    apply beforeb_spec; [by apply He|done|]. by eapply before_trans. }
  exists l1, l2. split; [done|]. split; [|done]. apply splits_of with (fun e => beforeb (escore e) (estr e) sc s); [|done|done].
  intros e n Hin Hobj Hscore. destruct (He e Hin) as (Hn & Hh & Hlen).
  by apply node_before_spec.
Qed.

Lemma occ_mid o l1 e l2 : occ o (l1 ++ e :: l2) = (occ o (l1 ++ l2) + if decide (eobj e = o) then 1 else 0)%nat.
Proof.
  unfold occ. rewrite !filter_app, filter_cons, !length_app. destruct (decide (eobj e = o)); cbn [length]; lia.
Qed.

Lemma sorted_mid l1 e l2 :
  StronglySorted elt (l1 ++ l2) -> Forall (fun e' => elt e' e) l1 -> Forall (fun e' => elt e e') l2 ->
  StronglySorted elt (l1 ++ e :: l2).
Proof.
  intros Hs H1 H2. induction l1 as [|e1 l1 IH]; cbn in *.
  - by constructor.
  - inversion Hs as [|? ? Hs' He1]; subst. apply Forall_cons in H1 as [H1e H1]. constructor; [by apply IH|].
    apply Forall_app in He1 as [Ha Hb]. apply Forall_app. split; [done|]. by constructor.
Qed.

Lemma sorted_without l1 e l2 : StronglySorted elt (l1 ++ e :: l2) -> StronglySorted elt (l1 ++ l2).
Proof.
  induction l1 as [|e1 l1 IH]; cbn; intros Hs; inversion Hs as [|? ? Hs' He1]; subst; [done|]. constructor; [by apply IH|].
  apply Forall_app in He1 as [Ha Hb]. apply Forall_cons in Hb as [_ Hb]. by apply Forall_app.
Qed.

(** ** Insertion and deletion *)

Lemma same_spec sc (s : bytes) e : not_nan sc -> not_nan (escore e) ->
  same_elem sc s e = true <-> dkey sc = dkey (escore e) /\ s = estr e.
Proof.
  intros H1 H2. unfold same_elem. rewrite andb_true_iff, SFeqb_key, bool_decide_eq_true by done.
  split; intros [? E']; by rewrite E'.
Qed.

(** The new element takes its place between those before and those after. *)
Lemma insert_rep junk rs x h objs zsl sc o (s : bytes) lv l1 l2 :
  skip_rep h objs zsl (l1 ++ l2) -> h !! x = None -> zslRandomLevel rs = Some lv ->
  not_nan sc -> holds objs o s -> is_str_len s -> Z.of_nat (occ o (l1 ++ l2)) < count objs o ->
  Forall (fun e => before (escore e) (estr e) sc s) l1 -> Forall (fun e => before sc s (escore e) (estr e)) l2 ->
  Z.of_nat (length (l1 ++ l2)) + 1 < 2 ^ 32 - 1 ->
  exists h' zsl', zslInsert E junk rs x h objs zsl sc o = Some (h', zsl') /\
    skip_rep h' objs zsl' (l1 ++ Elem x sc o s lv :: l2).
Proof.
  intros [Hl Hs He Hrefs] Hx Hr Hsc Ho Hlo Hc H1 H2 Hfits.
  destruct (insert_linked E junk rs x h objs zsl sc o s lv l1 l2 Hl Hx Hr) as (h' & zsl' & -> & Hl'); [|done|].
  { rewrite Forall_forall in He, H1, H2. apply splits_of with (fun e => beforeb (escore e) (estr e) sc s).
    - intros e n Hin Hobj Hscore. destruct (He e Hin) as (? & ? & ?). by apply node_before_spec.
    - apply Forall_forall. intros e Hin. apply beforeb_spec; [apply He, elem_of_app; by left|done|by apply H1].
    - apply Forall_forall. intros e Hin. destruct (beforeb _ _ _ _) eqn:Hb; [|done]. exfalso.
      apply beforeb_spec in Hb; [|apply He, elem_of_app; by right|done]. specialize (H2 e Hin).
      eapply before_irrefl. by eapply before_trans. }
  exists h', zsl'. split; [done|]. pose proof He as Hall. rewrite Forall_app in Hall. destruct Hall as [He1 He2].
  constructor; [done|by apply sorted_mid| |].
  - apply Forall_app. split; [done|]. by constructor.
  - intros c. rewrite occ_mid. cbn [eobj]. specialize (Hrefs c). destruct (decide (o = c)) as [<-|]; lia.
Qed.

(** C12. [zslInsert] is insertion in the sorted list, for any random level:
    whenever the element is not there, every level's links and spans, the
    backward pointers, the tail and the length are those of the list with the
    element at its place, and the order is kept. *)
Theorem zslInsert_inserts junk rs x h objs zsl es sc o (s : bytes) lv :
  skip_rep h objs zsl es -> h !! x = None -> zslRandomLevel rs = Some lv ->
  not_nan sc -> holds objs o s -> is_str_len s -> Z.of_nat (occ o es) < count objs o ->
  Forall (fun e => same_elem sc s e = false) es -> Z.of_nat (length es) + 1 < 2 ^ 32 - 1 ->
  exists h' zsl', zslInsert E junk rs x h objs zsl sc o = Some (h', zsl') /\
    skip_rep h' objs zsl' (sorted_insert (Elem x sc o s lv) es).
Proof.
  intros Hrep Hx Hr Hsc Ho Hlo Hc Hnew Hfits. pose proof (sr_elem _ _ _ _ Hrep) as He.
  destruct (zrep_split _ _ _ _ _ _ _ Hrep Hsc Ho Hlo) as (l1 & l2 & -> & _ & H1 & H2).
  rewrite sorted_insert_split by done. rewrite Forall_forall in He. apply insert_rep; try done.
  - rewrite Forall_forall in H1 |- *. intros e Hin. apply beforeb_spec; [apply He, elem_of_app; by left|done|by apply H1].
  - rewrite Forall_forall in H2, Hnew |- *. intros e Hin. assert (e ∈ l1 ++ l2) as Hin' by (apply elem_of_app; by right).
    specialize (H2 e Hin). specialize (Hnew e Hin'). destruct (He e Hin') as (Hn & _).
    destruct (before_total sc s (escore e) (estr e)) as [Hb|[Hb|Hb]]; [done| |].
    + destruct Hb as [Hk Hx']. assert (same_elem sc s e = true) by (by apply same_spec). congruence.
    + apply beforeb_spec in Hb; [congruence|done|done].
Qed.

Lemma decr_holds objs o s :
  holds objs o s -> 0 < count objs o ->
  exists objs', decrRefCount objs o = Some objs' /\
    (forall c, count objs' c = count objs c - (if decide (c = o) then 1 else 0)) /\
    (forall c y, holds objs c y -> (c = o -> 1 < count objs o) -> holds objs' c y).
Proof.
  intros (ob & Ho & Hs) Hc. rewrite (count_Some _ _ _ Ho) in Hc. destruct (decide (refcount ob = 1)) as [Hr|].
  - exists (delete o objs). split; [by eapply decr_last|]. split.
    + intros c. rewrite count_delete. destruct (decide (c = o)) as [->|]; [rewrite (count_Some _ _ _ Ho); lia|lia].
    + intros c y (oc & Hoc & Hy) Hne. destruct (decide (c = o)) as [->|].
      * specialize (Hne eq_refl). rewrite (count_Some _ _ _ Ho) in Hne. lia.
      * exists oc. by rewrite lookup_delete_ne.
  - exists (<[o := set_refcount ob (refcount ob - 1)]> objs). split; [apply decr_more; [done|lia]|]. split.
    + intros c. rewrite count_insert. destruct (decide (c = o)) as [->|]; [rewrite (count_Some _ _ _ Ho); cbn; lia|lia].
    + intros c y (oc & Hoc & Hy) _. destruct (decide (c = o)) as [->|].
      * rewrite Ho in Hoc. injection Hoc as <-. apply holds_new. by apply str_obj_refcount.
      * apply holds_insert; [done|]. by exists oc.
Qed.

Lemma same_not_before sc (s : bytes) e :
  not_nan sc -> not_nan (escore e) -> beforeb (escore e) (estr e) sc s = true -> same_elem sc s e = false.
Proof.
  intros Hs He Hb%beforeb_spec; [|done|done]. destruct (same_elem sc s e) eqn:Hsame; [|done]. exfalso.
  unfold same_elem in Hsame. apply andb_true_iff in Hsame as [H1 H2%bool_decide_eq_true]. apply SFeqb_key in H1; [|done|done].
  unfold before in Hb. rewrite <- H1, H2 in Hb. by apply before_irrefl in Hb.
Qed.

Lemma sorted_remove_app sc (s : bytes) l1 l2 :
  Forall (fun e => same_elem sc s e = false) l1 -> sorted_remove sc s (l1 ++ l2) = l1 ++ sorted_remove sc s l2.
Proof. induction 1 as [|e l1 He _ IH]; cbn; [done|]. by rewrite He, IH. Qed.

Lemma sorted_remove_none sc (s : bytes) l : Forall (fun e => same_elem sc s e = false) l -> sorted_remove sc s l = l.
Proof. intros H. rewrite <- (app_nil_r l) at 1. rewrite sorted_remove_app by done. apply app_nil_r. Qed.

Lemma existsb_none (f : elem -> bool) l : Forall (fun e => f e = false) l -> existsb f l = false.
Proof. induction 1 as [|e l He _ IH]; cbn; [done|]. by rewrite He, IH. Qed.

(** Past the place of a score and a string only the first element can match. *)
Lemma after_differ sc (s : bytes) e l2 :
  not_nan sc -> Forall (fun e => not_nan (escore e)) (e :: l2) -> StronglySorted elt (e :: l2) ->
  beforeb (escore e) (estr e) sc s = false -> Forall (fun e => same_elem sc s e = false) l2.
Proof.
  intros Hsc Hn Hs Hb. apply Forall_cons in Hn as [He Hn]. inversion Hs as [|? ? _ Hlt]; subst.
  rewrite Forall_forall in Hn, Hlt |- *. intros e' Hin. destruct (same_elem sc s e') eqn:Hsame; [|done].
  apply same_spec in Hsame as [H1 H2]; [|done|by apply Hn]. specialize (Hlt e' Hin). unfold elt in Hlt.
  assert (beforeb (escore e) (estr e) sc s = true) as Ht; [|congruence].
  apply beforeb_spec; [done|done|]. unfold before in *. by rewrite H1, H2.
Qed.

Lemma free_node_spec h objs e l1 l2 :
  Forall (fun e => not_nan (escore e) /\ holds objs (eobj e) (estr e) /\ is_str_len (estr e)) (l1 ++ e :: l2) ->
  (forall o, Z.of_nat (occ o (l1 ++ e :: l2)) <= count objs o) ->
  (exists s w t, data h (eaddr e) = Some (Some (eobj e), s, w, t)) ->
  exists objs', zslFreeNode h objs (eaddr e) = Some (delete (eaddr e) h, objs') /\
    Forall (fun e => not_nan (escore e) /\ holds objs' (eobj e) (estr e) /\ is_str_len (estr e)) (l1 ++ l2) /\
    (forall c, count objs' c = count objs c - (if decide (c = eobj e) then 1 else 0)) /\
    (forall c, Z.of_nat (occ c (l1 ++ l2)) <= count objs' c).
Proof.
  intros Hall Hrefs (sc & w & t & Hd). pose proof (Hrefs (eobj e)) as Hc. rewrite occ_mid, decide_True in Hc by done.
  pose proof Hall as Hall'. apply Forall_app in Hall' as [H1 H2]. apply Forall_cons in H2 as [(_ & Ho & _) H2].
  destruct (decr_holds objs (eobj e) (estr e) Ho ltac:(lia)) as (objs' & Hdecr & Hcount & Hkeep).
  exists objs'. destruct (data_node _ _ _ _ _ _ Hd) as (n & Hn & Hobj & _). split.
  { unfold zslFreeNode. rewrite Hn. cbn [mbind option_bind]. rewrite Hobj. cbn [mbind option_bind]. by rewrite Hdecr. }
  split; [|split; [done|]].
  - assert (Forall (fun e => not_nan (escore e) /\ holds objs (eobj e) (estr e) /\ is_str_len (estr e)) (l1 ++ l2)) as H12
      by by apply Forall_app.
    rewrite Forall_forall in H12 |- *. intros e' Hin. destruct (H12 e' Hin) as (Hn' & Hh & Hlen).
    split; [done|]. split; [|done]. apply Hkeep; [done|]. intros Eo.
    assert (1 <= occ (eobj e) (l1 ++ l2))%nat; [|lia]. unfold occ.
    destruct (filter (fun e0 => eobj e0 = eobj e) (l1 ++ l2)) as [|f fs] eqn:Hf; [|cbn; lia].
    assert (e' ∈ filter (fun e0 => eobj e0 = eobj e) (l1 ++ l2)) as Hin' by by apply list_elem_of_filter.
    rewrite Hf in Hin'. by apply not_elem_of_nil in Hin'.
  - intros c. specialize (Hrefs c). rewrite occ_mid in Hrefs. rewrite Hcount.
    destruct (decide (eobj e = c)), (decide (c = eobj e)); try congruence; lia.
Qed.

(** C20. [zslDelete] is removal from the sorted list: it reports whether the
    element was there, and when it was, the node is unlinked from every level
    and freed, its reference to the object given back, the empty levels at
    the top dropped, and nothing else changes. *)
Theorem zslDelete_deletes h objs zsl es sc o (s : bytes) :
  skip_rep h objs zsl es -> not_nan sc -> holds objs o s -> is_str_len s ->
  exists h' objs' zsl', zslDelete E h objs zsl sc o = Some (h', objs', zsl', existsb (same_elem sc s) es) /\
    skip_rep h' objs' zsl' (sorted_remove sc s es) /\
    forall c, count objs c - count objs' c = Z.of_nat (occ c es) - Z.of_nat (occ c (sorted_remove sc s es)).
Proof.
  intros Hrep Hsc Ho Hlo.
  destruct (zrep_split _ _ _ _ _ _ _ Hrep Hsc Ho Hlo) as (l1 & l2 & -> & Hsplit & H1 & H2).
  pose proof Hrep as [Hl Hs He Hrefs]. pose proof (sl_nodes _ _ _ Hl) as Hok.
  assert (Forall (fun e => not_nan (escore e)) (l1 ++ l2)) as Hn by (eapply Forall_impl; [exact He|]; by intros e (? & _)).
  assert (Forall (fun e => same_elem sc s e = false) l1) as Hsame1.
  { apply Forall_app in Hn as [Hn _]. rewrite Forall_forall in H1, Hn |- *. intros e Hin. by apply same_not_before; auto. }
  destruct (search_bottom _ _ _ _ _ Hl Hsplit) as (us & a & t & l & Hus & Hlen & Hleft & Hu0 & _ & Hbot & Hfwd).
  unfold zslDelete. rewrite Hus. cbn [mbind option_bind]. rewrite Hu0. cbn [mbind option_bind].
  rewrite Hbot. cbn [mbind option_bind]. rewrite Hfwd.
  rewrite existsb_app, (existsb_none _ _ Hsame1), sorted_remove_app by done. cbn [orb].
  destruct l2 as [|e l2]; cbn [head fmap option_fmap option_map existsb sorted_remove].
  { exists h, objs, zsl. split; [done|]. split; [done|]. intros c. lia. }
  destruct (node_at _ _ _ _ _ Hok (list_lookup_middle l1 l2 e _ eq_refl)) as (n & Hnode & Hobj & Hscore & _).
  rewrite Hnode. cbn [mbind option_bind]. rewrite Hscore, Hobj. cbn [mbind option_bind].
  pose proof He as He'. apply Forall_app in He' as [_ Hee]. apply Forall_cons in Hee as [(Hne & Hhe & Hle) _].
  assert ((if SFeqb sc (escore e) then equalStringObjects E objs (eobj e) o else Some false) = Some (same_elem sc s e)) as ->.
  { unfold same_elem. destruct (SFeqb sc (escore e)); [|done]. cbn [andb]. by apply equalStringObjects_spec. }
  cbn [mbind option_bind]. apply Forall_cons in H2 as [Hbe H2].
  assert (Forall (fun e => same_elem sc s e = false) l2) as Hsame2.
  { apply (after_differ sc s e l2 Hsc); [by apply Forall_app in Hn as [_ ?]| |done].
    clear - Hs. induction l1; [done|]. inversion Hs; auto. }
  destruct (same_elem sc s e); cbn [orb].
  - destruct (delete_linked h zsl l1 e l2 us Hl Hlen Hleft) as (h' & zsl' & -> & Hd & Hl'). cbn [mbind option_bind].
    destruct (free_node_spec h' objs e l1 l2 He Hrefs) as (objs' & -> & He2 & Hcount & Hrefs2).
    { rewrite Hd, (no_elem _ _ _ Hok _ _ (list_lookup_middle l1 l2 e _ eq_refl)). by eexists _, _, _. }
    cbn [mbind option_bind]. exists (delete (eaddr e) h'), objs', zsl'. split; [done|]. split.
    + constructor; [done| |done|done]. by eapply sorted_without.
    + intros c. rewrite Hcount, occ_mid. destruct (decide (eobj e = c)), (decide (c = eobj e)); try congruence; lia.
  - rewrite (existsb_none _ _ Hsame2), (sorted_remove_none _ _ _ Hsame2).
    exists h, objs, zsl. split; [done|]. split; [done|]. intros c. lia.
Qed.

(** ** Ranges of scores *)

Section Range.
Context (range : zrangespec) (Hmin : not_nan (min range)) (Hmax : not_nan (max range)).

Definition in_range (v : double) : bool := zslValueGteMin v range && zslValueLteMax v range.

Lemma gte_mono a b : not_nan a -> not_nan b -> ~ lt3 (dkey b) (dkey a) ->
  zslValueGteMin a range = true -> zslValueGteMin b range = true.
Proof.
  intros Ha Hb. unfold zslValueGteMin. destruct (minex range); [rewrite !SFltb_key by done|rewrite !SFleb_key by done];
    destruct (dkey a) as [[? ?] ?], (dkey b) as [[? ?] ?], (dkey (min range)) as [[? ?] ?]; cbn; lia.
Qed.

Lemma lte_mono a b : not_nan a -> not_nan b -> ~ lt3 (dkey b) (dkey a) ->
  zslValueLteMax b range = true -> zslValueLteMax a range = true.
Proof.
  intros Ha Hb. unfold zslValueLteMax. destruct (maxex range); [rewrite !SFltb_key by done|rewrite !SFleb_key by done];
    destruct (dkey a) as [[? ?] ?], (dkey b) as [[? ?] ?], (dkey (max range)) as [[? ?] ?]; cbn; lia.
Qed.

Lemma empty_range v : not_nan v ->
  SFltb (max range) (min range) || (SFeqb (min range) (max range) && (minex range || maxex range)) = true -> in_range v = false.
Proof.
  intros Hv He. destruct (in_range v) eqn:Hr; [exfalso|done]. unfold in_range, zslValueGteMin, zslValueLteMax in Hr.
  rewrite orb_true_iff, !andb_true_iff, orb_true_iff, SFltb_key, SFeqb_key in He by done. apply andb_true_iff in Hr as [H1 H2].
  destruct (minex range), (maxex range); rewrite ?SFltb_key, ?SFleb_key in H1 by done; rewrite ?SFltb_key, ?SFleb_key in H2 by done;
    destruct (dkey v) as [[? ?] ?], (dkey (max range)) as [[? ?] ?], (dkey (min range)) as [[? ?] ?]; cbn in *;
    (destruct He as [He|[He Hx]]; [lia|injection He as -> -> ->; destruct Hx; try done; lia]).
Qed.

Lemma elt_le a b : elt a b -> ~ lt3 (dkey (escore b)) (dkey (escore a)).
Proof.
  unfold elt, before. intros [H|[-> _]]; destruct (dkey (escore a)) as [[? ?] ?], (dkey (escore b)) as [[? ?] ?]; cbn in *; lia.
Qed.

Lemma sorted_head e es a : StronglySorted elt (e :: es) -> a ∈ e :: es -> ~ lt3 (dkey (escore a)) (dkey (escore e)).
Proof.
  intros Hs Ha. inversion Hs as [|? ? _ He]; subst. rewrite Forall_forall in He.
  apply elem_of_cons in Ha as [->|Ha]; [|by apply elt_le, He]. destruct (dkey (escore e)) as [[? ?] ?]. cbn. lia.
Qed.

Lemma sorted_last es e a : StronglySorted elt es -> last es = Some e -> a ∈ es -> ~ lt3 (dkey (escore e)) (dkey (escore a)).
Proof.
  induction 1 as [|e1 es Hs IH He]; [done|]. destruct es as [|e2 es].
  - intros [= ->] ->%list_elem_of_singleton. destruct (dkey (escore e)) as [[? ?] ?]. cbn. lia.
  - intros Hl Ha. change (last (e2 :: es) = Some e) in Hl. apply elem_of_cons in Ha as [->|Ha]; [|by apply IH].
    rewrite Forall_forall in He. apply elt_le, He. rewrite last_lookup in Hl. by eapply list_elem_of_lookup_2.
Qed.

Lemma find_none (f : elem -> bool) es : (forall e, e ∈ es -> f e = false) -> List.find f es = None.
Proof.
  induction es as [|e es IH]; [done|]. intros H. cbn. rewrite (H e) by (by left || apply list_elem_of_here).
  apply IH. intros e' He'. apply H. by apply list_elem_of_further.
Qed.

Lemma find_skip (f : elem -> bool) l1 l2 : (forall e, e ∈ l1 -> f e = false) -> List.find f (l1 ++ l2) = List.find f l2.
Proof.
  induction l1 as [|e l1 IH]; [done|]. intros H. cbn. rewrite (H e) by apply list_elem_of_here.
  apply IH. intros e' He'. apply H. by apply list_elem_of_further.
Qed.

(** The quick test: false only when nothing is in range; true when the range
    is not empty, the last score is above the minimum and the first below the
    maximum. *)
Lemma zslIsInRange_spec h objs zsl es :
  skip_rep h objs zsl es ->
  (zslIsInRange h zsl range = Some false /\ forall e, e ∈ es -> in_range (escore e) = false) \/
  (zslIsInRange h zsl range = Some true /\ exists e1 e2, head es = Some e1 /\ last es = Some e2 /\
     zslValueLteMax (escore e1) range = true /\ zslValueGteMin (escore e2) range = true).
Proof.
  intros [Hl Hs He _]. pose proof (sl_nodes _ _ _ Hl) as Hok.
  assert (forall e, e ∈ es -> not_nan (escore e)) as Hn by (intros e Hin; rewrite Forall_forall in He; by apply He).
  unfold zslIsInRange. destruct (SFltb _ _ || _) eqn:Hempty.
  { left. split; [done|]. intros e Hin. apply empty_range; auto. }
  rewrite (sl_tail _ _ _ Hl). destruct (last es) as [e2|] eqn:Hlast; cbn [fmap option_fmap option_map].
  2:{ left. split; [done|]. apply last_None in Hlast as ->. intros e []%not_elem_of_nil. }
  assert (exists q, es !! q = Some e2) as [q Hq] by (rewrite last_lookup in Hlast; by eexists).
  destruct (node_at _ _ _ _ _ Hok Hq) as (n & Hnode & _ & Hsc & _). rewrite Hnode. cbn [mbind option_bind]. rewrite Hsc.
  pose proof (list_elem_of_lookup_2 _ _ _ Hq) as Hin2.
  destruct (zslValueGteMin (escore e2) range) eqn:Hg; cbn [negb].
  2:{ left. split; [done|]. intros e Hin. destruct (in_range (escore e)) eqn:Hr; [|done]. unfold in_range in Hr.
      apply andb_true_iff in Hr as [Hr _]. rewrite (gte_mono (escore e) (escore e2)) in Hg; auto. by eapply sorted_last. }
  rewrite (sl_levels _ _ _ Hl 0%nat (header zsl) ZSKIPLIST_MAXLEVEL 0%nat); [|done|unfold ZSKIPLIST_MAXLEVEL; lia|].
  2:{ pose proof (top_range _ (no_height _ _ _ Hok)). rewrite (sl_level _ _ _ Hl). lia. }
  cbn [mbind option_bind]. rewrite (expected_0 _ _ (heights_pos _ _ _ Hok)).
  destruct es as [|e1 es]; [done|]. cbn [lookup list_lookup fmap option_fmap option_map].
  destruct (node_at _ _ _ 0%nat e1 Hok eq_refl) as (n1 & -> & _ & Hsc1 & _). cbn [mbind option_bind]. rewrite Hsc1.
  destruct (zslValueLteMax (escore e1) range) eqn:Hm; [right; split; [done|]; by exists e1, e2|].
  left. split; [done|]. intros e Hin. destruct (in_range (escore e)) eqn:Hr; [|done]. unfold in_range in Hr.
  apply andb_true_iff in Hr as [_ Hr]. rewrite (lte_mono (escore e1) (escore e)) in Hm; auto.
  - apply Hn, list_elem_of_here.
  - by eapply sorted_head.
Qed.

Lemma first_in_range h objs zsl es :
  skip_rep h objs zsl es ->
  (exists e1 e2, head es = Some e1 /\ last es = Some e2 /\
     zslValueLteMax (escore e1) range = true /\ zslValueGteMin (escore e2) range = true) ->
  zslIsInRange h zsl range = Some true ->
  zslFirstInRange h zsl range = Some (eaddr <$> List.find (fun e => in_range (escore e)) es).
Proof.
  intros [Hl Hs He _] (e1 & e2 & Hhd & Hlast & Hm & Hg) Hir. pose proof (sl_nodes _ _ _ Hl) as Hok.
  assert (forall e, e ∈ es -> not_nan (escore e)) as Hn by (intros e ?; rewrite Forall_forall in He; by apply He).
  unfold zslFirstInRange. rewrite Hir. cbn [mbind option_bind negb].
  destruct (split_sorted (fun e => negb (zslValueGteMin (escore e) range)) es Hs) as (l1 & l2 & -> & H1 & H2).
  { intros a b Ha Hb Hab. rewrite !negb_true_iff. intros Hb'. destruct (zslValueGteMin (escore a) range) eqn:Hga; [|done].
    rewrite (gte_mono (escore a) (escore b)) in Hb'; auto. by apply elt_le. }
  assert (splits (fun n => Some (negb (zslValueGteMin (score n) range))) l1 l2) as Hsp.
  { apply splits_of with (fun e => negb (zslValueGteMin (escore e) range)); [|done|done]. intros e n _ _ Hsc. by rewrite Hsc. }
  destruct (search_bottom _ _ _ _ _ Hl Hsp) as (us & a & t & lv & -> & _ & _ & Hu0 & _ & Hbot & Hfwd).
  cbn [mbind option_bind]. rewrite Hu0. cbn [mbind option_bind]. rewrite Hbot. cbn [mbind option_bind]. rewrite Hfwd.
  rewrite Forall_forall in H1, H2. rewrite find_skip.
  2:{ intros e Hin. unfold in_range. apply H1, negb_true_iff in Hin. by rewrite Hin. }
  destruct l2 as [|e l2].
  { exfalso. rewrite app_nil_r in *. assert (e2 ∈ l1) as Hin by (rewrite last_lookup in Hlast; by eapply list_elem_of_lookup_2).
    specialize (H1 _ Hin). cbn in H1. by rewrite Hg in H1. }
  cbn [head fmap option_fmap option_map mbind option_bind List.find].
  destruct (node_at _ _ _ _ _ Hok (list_lookup_middle l1 l2 e _ eq_refl)) as (n & -> & _ & Hsc & _).
  cbn [mbind option_bind]. rewrite Hsc. unfold in_range at 1.
  pose proof (H2 e ltac:(apply list_elem_of_here)) as Hge. cbn in Hge. apply negb_false_iff in Hge. rewrite Hge. cbn [andb].
  destruct (zslValueLteMax (escore e) range) eqn:Hle; [done|]. rewrite find_none; [done|]. intros e' Hin.
  unfold in_range. rewrite andb_false_iff. right. destruct (zslValueLteMax (escore e') range) eqn:Hle'; [|done].
  assert (StronglySorted elt (e :: l2)) as Hs2 by (clear - Hs; induction l1; [done|]; inversion Hs; auto).
  assert (e' ∈ e :: l2) as Hin' by by apply list_elem_of_further.
  rewrite (lte_mono (escore e) (escore e')) in Hle; [done| | |by apply (sorted_head e l2)|done].
  + apply Hn, elem_of_app. right. apply list_elem_of_here.
  + apply Hn, elem_of_app. by right.
Qed.

Lemma last_in_range h objs zsl es :
  skip_rep h objs zsl es ->
  (exists e1 e2, head es = Some e1 /\ last es = Some e2 /\
     zslValueLteMax (escore e1) range = true /\ zslValueGteMin (escore e2) range = true) ->
  zslIsInRange h zsl range = Some true ->
  zslLastInRange h zsl range = Some (eaddr <$> List.find (fun e => in_range (escore e)) (reverse es)).
Proof.
  intros [Hl Hs He _] (e1 & e2 & Hhd & Hlast & Hm & Hg) Hir. pose proof (sl_nodes _ _ _ Hl) as Hok.
  assert (forall e, e ∈ es -> not_nan (escore e)) as Hn by (intros e ?; rewrite Forall_forall in He; by apply He).
  unfold zslLastInRange. rewrite Hir. cbn [mbind option_bind negb].
  destruct (split_sorted (fun e => zslValueLteMax (escore e) range) es Hs) as (l1 & l2 & -> & H1 & H2).
  { intros a b Ha Hb Hab Hb'. eapply lte_mono; [by apply Hn|by apply Hn|by apply elt_le|done]. }
  assert (splits (fun n => Some (zslValueLteMax (score n) range)) l1 l2) as Hsp.
  { apply splits_of with (fun e => zslValueLteMax (escore e) range); [|done|done]. intros e n _ _ Hsc. by rewrite Hsc. }
  destruct (search_bottom _ _ _ _ _ Hl Hsp) as (us & a & t & lv & -> & _ & _ & Hu0 & Ha & _).
  cbn [mbind option_bind]. rewrite Hu0. cbn [mbind option_bind]. rewrite Forall_forall in H1, H2.
  rewrite reverse_app, find_skip.
  2:{ intros e Hin. rewrite elem_of_reverse in Hin. apply H2 in Hin. cbn in Hin. unfold in_range. rewrite Hin. apply andb_false_r. }
  destruct (last l1) as [e|] eqn:Hl1.
  2:{ exfalso. apply last_None in Hl1 as ->. destruct l2 as [|? ?]; [done|]. injection Hhd as ->.
      specialize (H2 e1 ltac:(apply list_elem_of_here)). cbn in H2. congruence. }
  apply last_Some in Hl1 as [l ->]. rewrite length_app in Ha. cbn [length] in Ha. rewrite Nat.add_1_r, towers_S in Ha.
  assert (((l ++ [e]) ++ l2) !! length l = Some e) as Hle by (rewrite <- app_assoc; by apply list_lookup_middle).
  rewrite Hle in Ha. injection Ha as <- _. rewrite reverse_snoc. cbn [List.find].
  destruct (node_at _ _ _ _ _ Hok Hle) as (n & -> & _ & Hsc & _). cbn [mbind option_bind]. rewrite Hsc. unfold in_range at 1.
  assert (e ∈ l ++ [e]) as Hine by (apply elem_of_app; right; apply list_elem_of_here).
  pose proof (H1 e Hine) as Hme. cbn in Hme. rewrite Hme, andb_true_r.
  destruct (zslValueGteMin (escore e) range) eqn:Hge; [done|]. rewrite find_none; [done|]. intros e' Hin. rewrite elem_of_reverse in Hin.
  unfold in_range. rewrite andb_false_iff. left. destruct (zslValueGteMin (escore e') range) eqn:Hge'; [|done].
  assert (StronglySorted elt (l ++ [e])) as Hs2.
  { clear - Hs. induction (l ++ [e]) as [|? ? IH]; [constructor|]. cbn in Hs. inversion Hs as [|? ? ? Hf]; subst.
    constructor; [auto|]. by apply Forall_app in Hf as [? _]. }
  rewrite (gte_mono (escore e') (escore e)) in Hge; [done| | | |done].
  + apply Hn, elem_of_app. left. apply elem_of_app. by left.
  + apply Hn, elem_of_app. by left.
  + eapply sorted_last; [exact Hs2|apply last_snoc|]. apply elem_of_app. by left.
Qed.

(** The searches by score find the first and the last element of the
    sorted list whose score is in the range, and nothing when there is none,
    with either end of the range included or not. *)
Theorem zslInRange_finds h objs zsl es :
  skip_rep h objs zsl es ->
  zslFirstInRange h zsl range = Some (eaddr <$> List.find (fun e => in_range (escore e)) es) /\
  zslLastInRange h zsl range = Some (eaddr <$> List.find (fun e => in_range (escore e)) (reverse es)).
Proof.
  intros Hrep. destruct (zslIsInRange_spec _ _ _ _ Hrep) as [[Hin Hnone]|[Hin Hends]].
  - unfold zslFirstInRange, zslLastInRange. rewrite Hin. cbn [mbind option_bind negb].
    rewrite (find_none _ es), (find_none _ (reverse es)); [done| |done].
    intros e He. apply Hnone. by rewrite elem_of_reverse in He.
  - split; [by eapply first_in_range|by eapply last_in_range].
Qed.

End Range.

(** ** Creation and release *)

Lemma zslCreate_rep junk hd h objs :
  (forall o, 0 <= count objs o) ->
  skip_rep (zslCreate junk hd h).1 objs (zslCreate junk hd h).2 [].
Proof.
  intros Hc. cbn [zslCreate fst snd]. constructor; [|constructor|done|intros o; apply Hc].
  constructor; cbn [header zlevel tail length_]; [| | |done|done|done|done].
  - constructor; [by apply NoDup_singleton| |done|done]. eexists _, _, _. rewrite data_insert, decide_True by done. done.
  - intros [|p] a t j; [|by rewrite towers_S]. intros [= <- <-] Ht Hj. rewrite get_level_insert, decide_True by done.
    apply lookup_replicate_2. exact Ht.
  - intros j Hj. exists 0. rewrite get_level_insert, decide_True by done. apply lookup_replicate_2. lia.
Qed.

(** What freeing needs of the rest of the list. *)
Record chain h l : Prop := Chain {
  ch_next : forall p e, l !! p = Some e -> exists lv, get_level h (eaddr e) 0 = Some lv /\ forward lv = eaddr <$> l !! S p;
  ch_data : forall p e, l !! p = Some e -> exists s w t, data h (eaddr e) = Some (Some (eobj e), s, w, t);
  ch_nodup : NoDup (eaddr <$> l)
}.

Lemma chain_tail h e l : chain h (e :: l) -> chain (delete (eaddr e) h) l.
Proof.
  intros [Hn Hd Hnd]. rewrite fmap_cons in Hnd. apply NoDup_cons in Hnd as [Hne Hnd].
  assert (forall p e', l !! p = Some e' -> eaddr e' <> eaddr e) as Hdiff.
  { intros p e' He' E'. apply Hne. rewrite <- E'. apply list_elem_of_fmap. exists e'. split; [done|]. by eapply list_elem_of_lookup_2. }
  constructor; [| |done]; intros p e' He'.
  - destruct (Hn (S p) e' He') as (lv & Hlv & Hf). exists lv. rewrite get_level_delete by (by eapply Hdiff). done.
  - destruct (Hd (S p) e' He') as (s & w & t & Hdat). exists s, w, t. rewrite data_delete, decide_False by (by eapply Hdiff). done.
Qed.

Lemma free_loop_spec l : forall fuel h objs,
  chain h l -> Forall (fun e => not_nan (escore e) /\ holds objs (eobj e) (estr e) /\ is_str_len (estr e)) l ->
  (forall o, Z.of_nat (occ o l) <= count objs o) -> (length l <= fuel)%nat ->
  exists h' objs', free_loop fuel h objs (eaddr <$> head l) = Some (h', objs') /\
    (forall a, h' !! a = if decide (a ∈ eaddr <$> l) then None else h !! a) /\
    (forall c, count objs' c = count objs c - Z.of_nat (occ c l)).
Proof.
  induction l as [|e l IH]; intros fuel h objs Hch Hall Hrefs Hf.
  { exists h, objs. split; [by destruct fuel|]. split; [done|]. intros c. cbn. lia. }
  destruct fuel as [|fuel]; [cbn in Hf; lia|]. cbn [head fmap option_fmap option_map free_loop].
  destruct (ch_next _ _ Hch 0%nat e eq_refl) as (lv & -> & Hfwd). cbn [mbind option_bind].
  destruct (free_node_spec h objs e [] l Hall Hrefs (ch_data _ _ Hch 0%nat e eq_refl)) as (objs1 & -> & Hall1 & Hc1 & Hrefs1).
  cbn [mbind option_bind app] in *. rewrite Hfwd. replace (eaddr <$> (e :: l) !! 1%nat) with (eaddr <$> head l) by (by destruct l).
  destruct (IH fuel _ objs1 (chain_tail _ _ _ Hch) Hall1 Hrefs1) as (h' & objs' & -> & Hh & Hc'); [cbn in Hf; lia|].
  exists h', objs'. split; [done|]. split.
  - intros a. rewrite Hh, fmap_cons. destruct (decide (a ∈ eaddr <$> l)) as [Hin|Hin].
    + by rewrite decide_True by by apply list_elem_of_further.
    + destruct (decide (a = eaddr e)) as [->|Hne].
      * rewrite lookup_delete_eq. rewrite decide_True; [done|apply list_elem_of_here].
      * rewrite lookup_delete_ne by done. rewrite decide_False; [done|]. by intros [?|?]%elem_of_cons.
  - intros c. rewrite Hc', Hc1. pose proof (occ_mid c [] e l) as Ho. cbn [app] in Ho. rewrite Ho.
    destruct (decide (eobj e = c)), (decide (c = eobj e)); try congruence; lia.
Qed.

(** [zslFree] frees the header and every node, each once, follows no
    pointer into a freed node, gives back one reference per element and
    leaves the rest of the heap alone. *)
Theorem zslFree_frees h objs zsl es :
  skip_rep h objs zsl es ->
  exists h' objs', zslFree h objs zsl = Some (h', objs') /\
    (forall a, h' !! a = if decide (a ∈ header zsl :: (eaddr <$> es)) then None else h !! a) /\
    (forall c, count objs' c = count objs c - Z.of_nat (occ c es)).
Proof.
  intros [Hl _ He Hrefs]. pose proof (sl_nodes _ _ _ Hl) as Hok. pose proof (no_nodup _ _ _ Hok) as Hnd.
  pose proof (top_range _ (no_height _ _ _ Hok)) as Htop. rewrite <- (sl_level _ _ _ Hl) in Htop.
  unfold zslFree. rewrite (sl_levels _ _ _ Hl 0%nat (header zsl) ZSKIPLIST_MAXLEVEL 0%nat); [|done|unfold ZSKIPLIST_MAXLEVEL; lia|lia].
  cbn [mbind option_bind]. rewrite (expected_0 _ _ (heights_pos _ _ _ Hok)).
  rewrite (sl_length _ _ _ Hl), Nat2Z.id. replace (es !! 0%nat) with (head es) by (by destruct es).
  destruct (free_loop_spec es (length es) (delete (header zsl) h) objs) as (h' & objs' & -> & Hh & Hc); [|done|done|done|].
  - constructor; [| |by apply NoDup_cons in Hnd as [_ ?]]; intros p e Hp; pose proof (elem_not_head _ _ _ _ Hnd Hp) as Hne.
    + exists (expected es 0 (S p)). rewrite get_level_delete by done. rewrite (expected_0 _ _ (heights_pos _ _ _ Hok)).
      split; [|done]. apply (sl_levels _ _ _ Hl _ _ (eheight e)); [by rewrite towers_S, Hp| |lia].
      pose proof (heights_pos _ _ _ Hok) as Hpos. rewrite Forall_lookup in Hpos. specialize (Hpos _ _ Hp). cbn in Hpos. lia.
    + rewrite data_delete, decide_False, (no_elem _ _ _ Hok _ _ Hp) by done. by eexists _, _, _.
  - exists h', objs'. split; [done|]. split; [|done]. intros a. rewrite Hh. destruct (decide (a = header zsl)) as [->|Hne].
    + rewrite (decide_True _ _ (list_elem_of_here _ _)). destruct (decide _); [done|]. apply lookup_delete_eq.
    + rewrite lookup_delete_ne by done. apply decide_ext. rewrite elem_of_cons. intuition congruence.
Qed.

End Sorted.

(** ** A concrete list *)

Definition one : double := S754_finite false 1 0.
Definition two : double := S754_finite false 1 1.
Definition nolevel : zskiplistLevel := ZslLevel None 77.

(** The string "x" of the object 3, with score 1 and two levels. *)
Definition sample_elem : elem := Elem 101 one 3 (str "x") 2.

Definition empty_list : gmap addr zskiplistNode * zskiplist := zslCreate nolevel 100 ∅.

Definition sample_list : gmap addr zskiplistNode * zskiplist :=
  default empty_list (zslInsert sample_env nolevel [16383; 65535] 101 empty_list.1 sample_objects empty_list.2 one 3).

Lemma sample_strings : holds sample_objects 1 (str "12") /\ holds sample_objects 3 (str "x").
Proof.
  split; (eexists; split; [reflexivity|]); (split; [done|]); left; (split; [done|]); eexists; (split; [done|]); by apply sample_sds_rep.
Qed.

Lemma sample_counts o : 0 <= count sample_objects o.
Proof.
  unfold sample_objects. rewrite !count_insert. repeat case_decide; try done.
Qed.

Lemma sample_zsl_rep : skip_rep sample_list.1 sample_objects sample_list.2 [sample_elem].
Proof.
  destruct (insert_rep sample_env nolevel [16383; 65535] 101 empty_list.1 sample_objects empty_list.2 one 3 (str "x") 2 [] [])
    as (h' & zsl' & E' & Hrep); try done.
  - apply zslCreate_rep, sample_counts.
  - exact (proj2 sample_strings).
  - unfold sample_list. rewrite E'. exact Hrep.
Qed.

Lemma zslInsert_inserts_witness :
  exists h' zsl', zslInsert sample_env nolevel [65535] 102 sample_list.1 sample_objects sample_list.2 two 1 = Some (h', zsl') /\
    skip_rep h' sample_objects zsl' [sample_elem; Elem 102 two 1 (str "12") 1].
Proof.
  apply (zslInsert_inserts sample_env nolevel [65535] 102 sample_list.1 sample_objects sample_list.2 [sample_elem] two 1 (str "12") 1).
  - exact sample_zsl_rep.
  - vm_compute. reflexivity.
  - reflexivity.
  - discriminate.
  - exact (proj1 sample_strings).
  - reflexivity.
  - reflexivity.
  - constructor; [reflexivity|constructor].
  - reflexivity.
Defined.

Lemma zslDelete_deletes_witness :
  exists h' objs' zsl', zslDelete sample_env sample_list.1 sample_objects sample_list.2 one 3 = Some (h', objs', zsl', true) /\
    skip_rep h' objs' zsl' [] /\ count objs' 3 = 1.
Proof.
  destruct (zslDelete_deletes sample_env sample_list.1 sample_objects sample_list.2 [sample_elem] one 3 (str "x")) as (h' & objs' & zsl' & E1 & Hrep & Hc).
  - exact sample_zsl_rep.
  - discriminate.
  - exact (proj2 sample_strings).
  - reflexivity.
  - exists h', objs', zsl'. split; [exact E1|]. split; [exact Hrep|]. specialize (Hc 3).
    assert (count sample_objects 3 = 2) as H2 by reflexivity.
    assert (Z.of_nat (occ 3 [sample_elem]) - Z.of_nat (occ 3 (sorted_remove one (str "x") [sample_elem])) = 1) as H1 by reflexivity. lia.
Defined.

Lemma zslInRange_finds_witness :
  zslFirstInRange sample_list.1 sample_list.2 (ZRange (S754_zero false) two false true) = Some (Some 101) /\
  zslLastInRange sample_list.1 sample_list.2 (ZRange (S754_zero false) two false true) = Some (Some 101).
Proof.
  apply (zslInRange_finds (ZRange (S754_zero false) two false true) ltac:(discriminate) ltac:(discriminate)
    sample_list.1 sample_objects sample_list.2 [sample_elem]).
  exact sample_zsl_rep.
Defined.

Lemma zslFree_frees_witness :
  exists h' objs', zslFree sample_list.1 sample_objects sample_list.2 = Some (h', objs') /\ h' !! 100 = None /\ h' !! 101 = None.
Proof.
  destruct (zslFree_frees sample_list.1 sample_objects sample_list.2 [sample_elem] sample_zsl_rep) as (h' & objs' & E1 & Hh & _).
  exists h', objs'. split; [exact E1|]. split; [exact (Hh 100)|exact (Hh 101)].
Defined.

End ZsetSpec.
