(* ===== verification/Monad.v ===== *)
(** * Programs over a state

    A program takes a state and returns a new one with a result, or [None]
    when the code would abort or read through a bad pointer.  [wp] says that
    it does return and what holds then; the rules below take a program apart
    along its binds. *)

From S2P Require Import Prelude.

Module Monad.

Section Monad.
Context {S : Type}.

Definition M (A : Type) : Type := S -> option (S * A).

#[global] Instance M_ret : MRet M := fun A a s => Some (s, a).
#[global] Instance M_bind : MBind M := fun A B f m s => match m s with Some (s, a) => f a s | None => None end.

Definition get : M S := fun s => Some (s, s).
Definition gets {A} (f : S -> A) : M A := fun s => Some (s, f s).
Definition modify (f : S -> S) : M unit := fun s => Some (f s, tt).
Definition lift {A} (o : option A) : M A := fun s => a ← o; Some (s, a).
Definition fail {A} : M A := fun _ => None.

(** [serverAssert]. *)
Definition check (b : bool) : M unit := if b then mret tt else fail.

Definition skip : M unit := mret tt.

Fixpoint for_each {A} (l : list A) (body : A -> M unit) : M unit :=
  match l with
  | [] => skip
  | x :: l => _ ← body x; for_each l body
  end.

(** ** Weakest preconditions *)

Definition wp {A} (m : M A) (Q : A -> S -> Prop) (s : S) : Prop :=
  exists s' a, m s = Some (s', a) /\ Q a s'.

Lemma wp_mono {A} (m : M A) (Q R : A -> S -> Prop) s :
  wp m Q s -> (forall a s', Q a s' -> R a s') -> wp m R s.
Proof. intros (s' & a & Hm & HQ) H. exists s', a. split; [done|by apply H]. Qed.

Lemma wp_bind {A B} (m : M A) (f : A -> M B) Q s :
  wp m (fun a s' => wp (f a) Q s') s -> wp (m ≫= f) Q s.
Proof.
  intros (s' & a & Hm & s2 & b & Hf & HQ). exists s2, b. split; [|done].
  unfold mbind, M_bind. by rewrite Hm.
Qed.

Lemma wp_ret {A} (a : A) (Q : A -> S -> Prop) s : Q a s -> wp (mret a) Q s.
Proof. intros H. by exists s, a. Qed.

Lemma wp_get (Q : S -> S -> Prop) s : Q s s -> wp get Q s.
Proof. intros H. by exists s, s. Qed.

Lemma wp_gets {A} (f : S -> A) (Q : A -> S -> Prop) s : Q (f s) s -> wp (gets f) Q s.
Proof. intros H. by exists s, (f s). Qed.

Lemma wp_modify f (Q : unit -> S -> Prop) s : Q tt (f s) -> wp (modify f) Q s.
Proof. intros H. by exists (f s), tt. Qed.

Lemma wp_lift {A} (o : option A) a (Q : A -> S -> Prop) s : o = Some a -> Q a s -> wp (lift o) Q s.
Proof. intros -> H. by exists s, a. Qed.

Lemma wp_check b (Q : unit -> S -> Prop) s : b = true -> Q tt s -> wp (check b) Q s.
Proof. intros -> H. by exists s, tt. Qed.

Lemma wp_skip (Q : unit -> S -> Prop) s : Q tt s -> wp skip Q s.
Proof. intros H. by exists s, tt. Qed.

(** A program that returns, as an equation. *)
Lemma wp_eq {A} (m : M A) s s' a (Q : A -> S -> Prop) : m s = Some (s', a) -> Q a s' -> wp m Q s.
Proof. intros H HQ. by exists s', a. Qed.

(** A loop keeps an invariant on the elements that are left. *)
Lemma wp_for_each {A} (body : A -> M unit) (I : list A -> S -> Prop) (l : list A) : forall s,
  I l s -> (forall x l' s, I (x :: l') s -> wp (body x) (fun _ => I l') s) -> wp (for_each l body) (fun _ => I []) s.
Proof.
  induction l as [|x l IH]; intros s Hi Hb; cbn [for_each]; [by apply wp_skip|].
  apply wp_bind. eapply wp_mono; [by apply Hb|]. intros [] s' Hi'. by apply IH.
Qed.

End Monad.

#[global] Arguments M S A : clear implicits.

End Monad.

(** One step along a bind whose first part is a primitive. *)
Ltac wp_prim :=
  first
    [ apply Monad.wp_ret | apply Monad.wp_get | apply Monad.wp_gets | apply Monad.wp_modify
    | apply Monad.wp_skip ].

Ltac wp_step := first [ apply Monad.wp_bind; wp_prim | wp_prim ]; cbn beta.

(** The next part is covered by a lemma. *)
Tactic Notation "wp_use" uconstr(H) := apply Monad.wp_bind; eapply Monad.wp_mono; [eapply H|].
Tactic Notation "wp_last" uconstr(H) := eapply Monad.wp_mono; [eapply H|].
