(* ===== verification/State.v ===== *)
(** * The state of the server (src/server.h)

    The part of [struct redisServer] and of a [client] that the modelled code
    reads and writes: the heap of objects, the databases with the counters
    and queues next to them, and one client, the one being served.  What a
    command only reads is the configuration. *)

From S2P Require Import Prelude Monad Sds Dict DictTypes Object.
Import Monad Sds Dict DictTypes Object.

Module State.

(** ** Databases *)

(** [blocking_keys] and [ready_keys] are the contents of the keys those
    dictionaries have. *)
Record redisDb := RedisDb {
  ddict : dict sdskey addr;
  dexpires : dict sdskey Z;
  blocking_keys : list bytes;
  ready_keys : list bytes
}.

(** [ticks] counts the readings of the clock, [rl] is [server.ready_keys] and
    [published] is a trace, which the program does not keep, of
    the messages handed to the publish/subscribe layer. *)
Record keyspace := Keyspace {
  dbs : list redisDb;
  ticks : nat;
  dirty : Z;
  stat_keyspace_hits : Z;
  stat_keyspace_misses : Z;
  stat_expiredkeys : Z;
  rl : list (nat * addr);
  published : list (bytes * bytes)
}.

(** ** The client *)

Record cinput := CInput {
  querybuf : sds;
  reqtype : Z;
  multibulklen : Z;
  bulklen : Z;
  argv : list addr
}.

(** The static buffer is the part of it in use, whose length is [bufpos]. *)
Record coutput := COutput {
  cbuf : bytes;
  reply : list addr;
  reply_bytes : Z;
  sentlen : Z;
  obuf_soft_limit_reached_time : Z
}.

(** What is known of the socket: whether the event loop watches for it to be
    writable, and the bookkeeping of what was sent. *)
Record csocket := CSocket {
  writable_handler : bool;
  lastinteraction : Z;
  stat_net_output_bytes : Z
}.

(** The functions commands point to: those of the table and those the code
    compares with. *)
Inductive redisCommandProc :=
| PGet | PSet | PDel | PMulti | PExec | PDiscard | PWatch | PAuth | PPing | PAsking.

#[export] Instance redisCommandProc_eq : EqDecision redisCommandProc.
Proof. solve_decision. Defined.

(** A command of the table: its name, function, arity, flags and the positions
    of its keys. *)
Record redisCommand := RedisCommand {
  name : bytes;
  proc : redisCommandProc;
  arity : Z;
  sflags : bytes;
  cflags : Z;
  firstkey : Z;
  lastkey : Z;
  keystep : Z
}.

(** A command queued by a transaction, and what else a client has: the
    transaction, the offsets of the replication link. *)
Record multiCmd := MultiCmd { mc_argv : list addr; mc_cmd : option redisCommand }.

Record cextra := CExtra {
  authenticated : bool;
  lastcmd : option redisCommand;
  mstate : list multiCmd;
  woff : Z;
  reploff : Z;
  querybuf_peak : Z
}.

Record client := Client {
  cid : Z;
  fd : Z;
  flags : Z;
  cdb : nat;
  replstate : Z;
  repl_put_online_on_ack : bool;
  repl_ack_time : Z;
  cmd : option redisCommand;
  cin : cinput;
  cout : coutput;
  csock : csocket;
  cext : cextra
}.

(** ** The whole state *)

(** What the server keeps besides: the table of the commands, counters,
    whether the clients are paused, the readings of the clock in microseconds
    and the time and calls of each command. *)
Record servervars := ServerVars {
  commands : dict casekey redisCommand;
  orig_commands : dict casekey redisCommand;
  stat_numcommands : Z;
  stat_net_input_bytes : Z;
  clients_paused : bool;
  unblocked_clients : list Z;
  uticks : nat;
  cmdstats : gmap bytes (Z * Z)
}.

Record state (P : Type) := State {
  objects : gmap addr (robj P);
  ks : keyspace;
  cl : client;
  clients_pending_write : list Z;
  clients_to_close : list Z;
  srv : servervars
}.
#[global] Arguments State {P} _ _ _ _ _ _.
#[global] Arguments objects {P} _.
#[global] Arguments ks {P} _.
#[global] Arguments cl {P} _.
#[global] Arguments clients_pending_write {P} _.
#[global] Arguments clients_to_close {P} _.
#[global] Arguments srv {P} _.

(** Limits on the replies a class of clients may leave unread. *)
Record clientBufferLimitsConfig := Limits {
  hard_limit_bytes : Z;
  soft_limit_bytes : Z;
  soft_limit_seconds : Z
}.

(** The replies shared by all clients. *)
Record sharedObjects := SharedObjects {
  crlf : addr; ok : addr; czero : addr; cone : addr; nullbulk : addr; del : addr;
  wrongtypeerr : addr; syntaxerr : addr;
  mbulkhdr : list addr; bulkhdr : list addr;
  noautherr : addr; bgsaveerr : addr; loadingerr : addr; queued : addr
}.

Record config := Config {
  senv : env;
  shared : sharedObjects;
  seed : Z;
  clock : nat -> Z;
  uclock : nat -> Z;
  dict_can_resize : bool;
  alloc_entry : list addr -> addr;
  alloc_object : gset addr -> addr;
  zmalloc_size : Z -> Z;
  unixtime : Z;
  loading : bool;
  masterhost : bool;
  lua_caller : bool;
  lua_time_start : Z;
  rdb_child_pid : Z;
  aof_child_pid : Z;
  notify_keyspace_events : Z;
  client_obuf_limits : list clientBufferLimitsConfig;
  requirepass : bool;
  stop_writes_on_bgsave_err : bool;
  saveparamslen : Z;
  lastbgsave_ok : bool;
  aof_last_write_ok : bool;
  aof_last_write_error : bytes;
  master_repl_offset : Z;
  client_max_querybuf_len : Z;
  clients_pause_end_time : Z;
  server_mstime : Z
}.

(** What the code relies on of the allocators and of its configuration: an
    address in use is not given again, the size of a block is that of its
    header at least, and each class of clients has its limits. *)
Class sound_config (C : config) : Prop := SoundConfig {
  alloc_entry_fresh : forall l, alloc_entry C l ∉ l;
  alloc_object_fresh : forall X, alloc_object C X ∉ X;
  zmalloc_range : forall n, 16 <= zmalloc_size C n < 2 ^ 40;
  limits_length : length (client_obuf_limits C) = 3%nat
}.

(** ** Access *)

Section Access.
Context {P : Type}.

Abbreviation M := (M (state P)).

Definition set_objects (f : gmap addr (robj P) -> gmap addr (robj P)) (s : state P) : state P :=
  State (f (objects s)) (ks s) (cl s) (clients_pending_write s) (clients_to_close s) (srv s).

Definition set_ks (f : keyspace -> keyspace) (s : state P) : state P :=
  State (objects s) (f (ks s)) (cl s) (clients_pending_write s) (clients_to_close s) (srv s).

Definition set_cl (f : client -> client) (s : state P) : state P :=
  State (objects s) (ks s) (f (cl s)) (clients_pending_write s) (clients_to_close s) (srv s).

Definition set_pending (f : list Z -> list Z) (s : state P) : state P :=
  State (objects s) (ks s) (cl s) (f (clients_pending_write s)) (clients_to_close s) (srv s).

Definition set_to_close (f : list Z -> list Z) (s : state P) : state P :=
  State (objects s) (ks s) (cl s) (clients_pending_write s) (f (clients_to_close s)) (srv s).

Definition set_flags (f : Z -> Z) (c : client) : client :=
  Client (cid c) (fd c) (f (flags c)) (cdb c) (replstate c) (repl_put_online_on_ack c) (repl_ack_time c) (cmd c) (cin c) (cout c) (csock c) (cext c).

Definition set_cin (f : cinput -> cinput) (c : client) : client :=
  Client (cid c) (fd c) (flags c) (cdb c) (replstate c) (repl_put_online_on_ack c) (repl_ack_time c) (cmd c) (f (cin c)) (cout c) (csock c) (cext c).

Definition set_cout (f : coutput -> coutput) (c : client) : client :=
  Client (cid c) (fd c) (flags c) (cdb c) (replstate c) (repl_put_online_on_ack c) (repl_ack_time c) (cmd c) (cin c) (f (cout c)) (csock c) (cext c).

Definition set_csock (f : csocket -> csocket) (c : client) : client :=
  Client (cid c) (fd c) (flags c) (cdb c) (replstate c) (repl_put_online_on_ack c) (repl_ack_time c) (cmd c) (cin c) (cout c) (f (csock c)) (cext c).

Definition set_fd (n : Z) (c : client) : client :=
  Client (cid c) n (flags c) (cdb c) (replstate c) (repl_put_online_on_ack c) (repl_ack_time c) (cmd c) (cin c) (cout c) (csock c) (cext c).

Definition set_cdb (d : nat) (c : client) : client :=
  Client (cid c) (fd c) (flags c) d (replstate c) (repl_put_online_on_ack c) (repl_ack_time c) (cmd c) (cin c) (cout c) (csock c) (cext c).

Definition set_cmd (o : option redisCommand) (c : client) : client :=
  Client (cid c) (fd c) (flags c) (cdb c) (replstate c) (repl_put_online_on_ack c) (repl_ack_time c) o (cin c) (cout c) (csock c) (cext c).

Definition set_repl_ack_time (t : Z) (c : client) : client :=
  Client (cid c) (fd c) (flags c) (cdb c) (replstate c) (repl_put_online_on_ack c) t (cmd c) (cin c) (cout c) (csock c) (cext c).

Definition set_cext (f : cextra -> cextra) (c : client) : client :=
  Client (cid c) (fd c) (flags c) (cdb c) (replstate c) (repl_put_online_on_ack c) (repl_ack_time c) (cmd c) (cin c) (cout c) (csock c) (f (cext c)).

Definition set_srv (f : servervars -> servervars) (s : state P) : state P :=
  State (objects s) (ks s) (cl s) (clients_pending_write s) (clients_to_close s) (f (srv s)).

(** An object, through a pointer. *)
Definition get_object (a : addr) : M (robj P) :=
  h ← gets objects; lift (h !! a).

(** An operation of [Object] on the heap. *)
Definition on_heap (f : gmap addr (robj P) -> option (gmap addr (robj P))) : M unit :=
  h ← gets objects; h ← lift (f h); modify (set_objects (fun _ => h)).

(** An allocation of an object: the operation gets the address. *)
Definition new_object (C : config) (f : addr -> gmap addr (robj P) -> option (gmap addr (robj P))) : M addr :=
  h ← gets objects;
  let a := alloc_object C (dom h) in
  h ← lift (f a h);
  _ ← modify (set_objects (fun _ => h));
  mret a.

Definition has (flags bit : Z) : bool := negb (Z.land flags bit =? 0).

End Access.
End State.
