(* ===== verification/Db.v ===== *)
(** * The key space (src/db.c, src/notify.c, src/t_list.c)

    A database is a dictionary from keys to objects and one from keys to
    times in milliseconds.  The functions are programs over the server's
    state; a [serverAssert] that fails, a dead pointer or a key that is not a
    string of bytes stop them. *)

From S2P Require Import Prelude Monad Util Sds SdsText Dict DictTypes Object State.
Import Monad Util Sds SdsText Dict DictTypes Object State.

Module Db.

Definition NOTIFY_KEYSPACE : Z := 1.
Definition NOTIFY_KEYEVENT : Z := 2.
Definition NOTIFY_GENERIC : Z := 4.
Definition NOTIFY_STRING : Z := 8.
Definition NOTIFY_EXPIRED : Z := 256.
Definition LOOKUP_NONE : Z := 0.
Definition LOOKUP_NOTOUCH : Z := 1.
Definition CMD_READONLY : Z := 2.
Definition CLIENT_MASTER : Z := 2.

Section Ops.
Context {P : Type} (C : config).

Abbreviation state := (state P).
Abbreviation M := (M state).

#[local] Instance keys_type V : dictType sdskey V := dbDictType (seed C) V.

(** ** Access to the databases *)

Definition with_dbs (l : list redisDb) (k : keyspace) : keyspace :=
  Keyspace l (ticks k) (dirty k) (stat_keyspace_hits k) (stat_keyspace_misses k) (stat_expiredkeys k) (rl k) (published k).
Definition tick (k : keyspace) : keyspace :=
  Keyspace (dbs k) (S (ticks k)) (dirty k) (stat_keyspace_hits k) (stat_keyspace_misses k) (stat_expiredkeys k) (rl k) (published k).
Definition add_dirty (k : keyspace) : keyspace :=
  Keyspace (dbs k) (ticks k) (s64 (dirty k + 1)) (stat_keyspace_hits k) (stat_keyspace_misses k) (stat_expiredkeys k) (rl k) (published k).
Definition add_hit (k : keyspace) : keyspace :=
  Keyspace (dbs k) (ticks k) (dirty k) (s64 (stat_keyspace_hits k + 1)) (stat_keyspace_misses k) (stat_expiredkeys k) (rl k) (published k).
Definition add_miss (k : keyspace) : keyspace :=
  Keyspace (dbs k) (ticks k) (dirty k) (stat_keyspace_hits k) (s64 (stat_keyspace_misses k + 1)) (stat_expiredkeys k) (rl k) (published k).
Definition add_expired (k : keyspace) : keyspace :=
  Keyspace (dbs k) (ticks k) (dirty k) (stat_keyspace_hits k) (stat_keyspace_misses k) (s64 (stat_expiredkeys k + 1)) (rl k) (published k).
Definition add_ready (r : nat * addr) (k : keyspace) : keyspace :=
  Keyspace (dbs k) (ticks k) (dirty k) (stat_keyspace_hits k) (stat_keyspace_misses k) (stat_expiredkeys k) (rl k ++ [r]) (published k).
Definition add_published (l : list (bytes * bytes)) (k : keyspace) : keyspace :=
  Keyspace (dbs k) (ticks k) (dirty k) (stat_keyspace_hits k) (stat_keyspace_misses k) (stat_expiredkeys k) (rl k) (published k ++ l).

Definition get_db (id : nat) : M redisDb := k ← gets ks; lift (dbs k !! id).

Definition set_db (id : nat) (db : redisDb) : M unit :=
  modify (set_ks (fun k => with_dbs (<[id := db]> (dbs k)) k)).

Definition set_ddict (db : redisDb) (d : dict sdskey addr) : redisDb :=
  RedisDb d (dexpires db) (blocking_keys db) (ready_keys db).
Definition set_dexpires (db : redisDb) (d : dict sdskey Z) : redisDb :=
  RedisDb (ddict db) d (blocking_keys db) (ready_keys db).

(** An operation of [Dict] on one of the two dictionaries. *)
Definition on_dict {A} (id : nat) (f : dict sdskey addr -> option (dict sdskey addr * A)) : M A :=
  db ← get_db id;
  '(d, a) ← lift (f (ddict db));
  _ ← set_db id (set_ddict db d);
  mret a.

Definition on_expires {A} (id : nat) (f : dict sdskey Z -> option (dict sdskey Z * A)) : M A :=
  db ← get_db id;
  '(d, a) ← lift (f (dexpires db));
  _ ← set_db id (set_dexpires db d);
  mret a.

(** The next reading of the clock. *)
Definition mstime : M Z :=
  k ← gets ks; _ ← modify (set_ks tick); mret (clock C (ticks k)).

(** [key->ptr]: the bytes of a key, as a key of the dictionaries, which take
    their length as an [int]. *)
Definition object_bytes (o : robj P) : option bytes :=
  s ← as_sds (ptr o); rdn (Sds.buf s) 0 (Z.to_nat (sdslen s)).

Definition mk_key (x : bytes) : option sdskey :=
  match decide (is_int (Z.of_nat (length x))) with left H => Some (SdsKey x H) | right _ => None end.

Definition key_ptr (key : addr) : M sdskey :=
  o ← get_object key; x ← lift (object_bytes o); lift (mk_key x).

Definition selectDb (id : Z) : M bool :=
  k ← gets ks;
  if (id <? 0) || (id >=? Z.of_nat (length (dbs k))) then mret false
  else _ ← modify (set_cl (set_cdb (Z.to_nat id))); mret true.

(** ** Notifications *)

(** The body of [pubsubPublishMessage] is commented out in the source, where
    it returns that nobody received the message; the call is recorded in
    [published], a trace the program does not keep. *)
Definition pubsubPublishMessage (channel message : addr) : M unit :=
  oc ← get_object channel; om ← get_object message;
  c ← lift (object_bytes oc); m ← lift (object_bytes om);
  modify (set_ks (add_published [(c, m)])).

(** The name of a channel: a prefix, the database and what follows. *)
Definition channel_name (prefix : bytes) (dbid : nat) (tail : bytes) : option sds :=
  '(len, buf) ← ll2string (junk (senv C) <$> seq 0 24) 24 (Z.of_nat dbid);
  chan ← sdsnewlen (junk (senv C)) (Some prefix) (Z.of_nat (length prefix));
  chan ← sdscatlen (junk (senv C)) chan buf len;
  chan ← sdscatlen (junk (senv C)) chan (str "__:") 3;
  sdscatlen (junk (senv C)) chan tail (Z.of_nat (length tail)).

Definition notifyKeyspaceEvent (type : Z) (event : bytes) (key : addr) (dbid : nat) : M unit :=
  let flags := notify_keyspace_events C in
  if negb (has flags type) then skip
  else
    eventobj ← new_object C (fun a h => createStringObject (senv C) a h (Some event) (Z.of_nat (length event)));
    _ ← (if has flags NOTIFY_KEYSPACE then
      ok ← get_object key; k ← lift (object_bytes ok);
      chan ← lift (channel_name (str "__keyspace@") dbid k);
      chanobj ← new_object C (fun a h => Some (createObject (senv C) a h OBJ_STRING (PSds chan)));
      _ ← pubsubPublishMessage chanobj eventobj;
      on_heap (fun h => decrRefCount h chanobj)
     else skip);
    _ ← (if has flags NOTIFY_KEYEVENT then
      eo ← get_object eventobj; e ← lift (object_bytes eo);
      chan ← lift (channel_name (str "__keyevent@") dbid e);
      chanobj ← new_object C (fun a h => Some (createObject (senv C) a h OBJ_STRING (PSds chan)));
      _ ← pubsubPublishMessage chanobj key;
      on_heap (fun h => decrRefCount h chanobj)
     else skip);
    on_heap (fun h => decrRefCount h eventobj).

(** [signalListAsReady]: clients may be waiting for a list. *)
Definition signalListAsReady (id : nat) (key : addr) : M unit :=
  o ← get_object key; k ← lift (object_bytes o);
  db ← get_db id;
  if negb (bool_decide (k ∈ blocking_keys db)) then skip
  else if bool_decide (k ∈ ready_keys db) then skip
  else
    _ ← on_heap (fun h => incrRefCount h key);
    _ ← modify (set_ks (add_ready (id, key)));
    _ ← on_heap (fun h => incrRefCount h key);
    set_db id (RedisDb (ddict db) (dexpires db) (blocking_keys db) (k :: ready_keys db)).

(** ** Low level access *)

(** The value the destructor of [dbDictType] is called on: that of the entry
    that is deleted or overwritten. *)
Definition entry_value (d : dict sdskey addr) (k : sdskey) : option addr :=
  evalue <$> List.find (fun e => keyCompare (V := addr) k (ekey e)) (dict_entries d).

Definition free_value (v : option addr) : M unit :=
  match v with Some v => on_heap (fun h => decrRefCount h v) | None => skip end.

Definition dbDelete (id : nat) (key : addr) : M bool :=
  k ← key_ptr key;
  db ← get_db id;
  _ ← (if dictSize (dexpires db) >? 0 then _ ← on_expires id (fun d => dictDelete d k); skip else skip);
  let old := entry_value (ddict db) k in
  deleted ← on_dict id (fun d => dictDelete d k);
  if (deleted : bool) then _ ← free_value old; mret true else mret false.

Definition lookupKey (id : nat) (key : addr) (flags : Z) : M (option addr) :=
  k ← key_ptr key;
  de ← on_dict id (fun d => dictFind d k);
  match de with
  | None => mret None
  | Some de =>
    db ← get_db id;
    val ← lift (dictGetVal (ddict db) de);
    _ ← (if (rdb_child_pid C =? -1) && (aof_child_pid C =? -1) && negb (has flags LOOKUP_NOTOUCH) then
      on_heap (fun h => o ← h !! val; Some (<[val := set_lru o (LRU_CLOCK (senv C))]> h))
     else skip);
    mret (Some val)
  end.

Definition getExpire (id : nat) (key : addr) : M Z :=
  k ← key_ptr key;
  db ← get_db id;
  if dictSize (dexpires db) =? 0 then mret (-1)
  else
    de ← on_expires id (fun d => dictFind d k);
    match de with
    | None => mret (-1)
    | Some de =>
      here ← on_dict id (fun d => dictFind d k);
      _ ← check (bool_decide (is_Some here));
      db ← get_db id;
      lift (dictGetVal (dexpires db) de)
    end.

(** ** Expiry *)

(** What the AOF and the slaves would get is commented out in the source. *)
Definition propagateExpire (key : addr) : M unit :=
  _ ← on_heap (fun h => incrRefCount h (del (shared C)));
  _ ← on_heap (fun h => incrRefCount h key);
  _ ← on_heap (fun h => decrRefCount h (del (shared C)));
  on_heap (fun h => decrRefCount h key).

Definition expireIfNeeded (id : nat) (key : addr) : M bool :=
  when ← getExpire id key;
  if when <? 0 then mret false
  else if loading C then mret false
  else
    now ← (if lua_caller C then mret (lua_time_start C) else mstime);
    if masterhost C then mret (now >? when)
    else if now <=? when then mret false
    else
      _ ← modify (set_ks add_expired);
      _ ← propagateExpire key;
      _ ← notifyKeyspaceEvent NOTIFY_EXPIRED (str "expired") key id;
      dbDelete id key.

(** ** Lookups *)

(** Whether the current client, not being the master, runs a command that
    only reads. *)
Definition reading_command (c : client) : bool :=
  negb (has (flags c) CLIENT_MASTER) && match cmd c with Some cm => has (cflags cm) CMD_READONLY | None => false end.

Definition lookupKeyReadWithFlags (id : nat) (key : addr) (flags : Z) : M (option addr) :=
  expired ← expireIfNeeded id key;
  c ← gets cl;
  if (expired : bool) && (negb (masterhost C) || reading_command c) then mret None
  else
    val ← lookupKey id key flags;
    _ ← (match val with None => modify (set_ks add_miss) | Some _ => modify (set_ks add_hit) end);
    mret val.

Definition lookupKeyRead (id : nat) (key : addr) : M (option addr) := lookupKeyReadWithFlags id key LOOKUP_NONE.

Definition lookupKeyWrite (id : nat) (key : addr) : M (option addr) :=
  _ ← expireIfNeeded id key;
  lookupKey id key LOOKUP_NONE.

(** ** Writing *)

Definition removeExpire (id : nat) (key : addr) : M bool :=
  k ← key_ptr key;
  here ← on_dict id (fun d => dictFind d k);
  _ ← check (bool_decide (is_Some here));
  on_expires id (fun d => dictDelete d k).

Definition setExpire (id : nat) (key : addr) (when : Z) : M unit :=
  k ← key_ptr key;
  kde ← on_dict id (fun d => dictFind d k);
  kde ← lift kde;
  db ← get_db id;
  kk ← lift (dictGetKey (ddict db) kde);
  let a := alloc_entry C (eaddr <$> dict_entries (dexpires db)) in
  de ← on_expires id (fun d => dictReplaceRaw 0 (dict_can_resize C) a d kk);
  de ← lift de;
  on_expires id (fun d => d ← dictSetVal d de when; Some (d, tt)).

Definition dbAdd (id : nat) (key val : addr) : M unit :=
  k ← key_ptr key;
  db ← get_db id;
  let a := alloc_entry C (eaddr <$> dict_entries (ddict db)) in
  added ← on_dict id (fun d => dictAdd 0 (dict_can_resize C) a d k val);
  _ ← check added;
  o ← get_object val;
  if otype o =? OBJ_LIST then signalListAsReady id key else skip.

Definition dbOverwrite (id : nat) (key val : addr) : M unit :=
  k ← key_ptr key;
  de ← on_dict id (fun d => dictFind d k);
  _ ← check (bool_decide (is_Some de));
  db ← get_db id;
  let a := alloc_entry C (eaddr <$> dict_entries (ddict db)) in
  let old := entry_value (ddict db) k in
  added ← on_dict id (fun d => dictReplace 0 (dict_can_resize C) a d k val);
  if (added : bool) then skip else free_value old.

Definition setKey (id : nat) (key val : addr) : M unit :=
  here ← lookupKeyWrite id key;
  _ ← (match here with None => dbAdd id key val | Some _ => dbOverwrite id key val end);
  _ ← on_heap (fun h => incrRefCount h val);
  _ ← removeExpire id key;
  skip.

End Ops.
End Db.
