(* ===== verification/DictMap.v ===== *)
(** * Dictionaries of strings as finite maps

    With the key types of the server a dictionary is a [gmap] from bytes: each
    operation is the one of the map, whatever the state of the tables. *)

From S2P Require Import Prelude Dict DictTypes DictSpec.
Import Dict DictTypes DictSpec.

Module DictMap.

Section Map.
Context (seed : Z) {V : Type}.

#[local] Instance string_keys : dictType sdskey V := dbDictType seed V.

Abbreviation dict := (dict sdskey V).
Implicit Types (d : dict) (m : gmap bytes V) (k : sdskey) (l : list (sdskey * V)).

Lemma keyCompare_eq k k' : keyCompare (V := V) k k' = bool_decide (kbytes k = kbytes k').
Proof. apply dictSdsKeyCompare_eq. Qed.

Definition as_map l : gmap bytes V := list_to_map ((fun p => (kbytes p.1, p.2)) <$> l).

Lemma as_map_lookup l k : as_map l !! kbytes k = assoc k l.
Proof.
  unfold as_map. induction l as [|[k' v] l IH]; [done|]. cbn [assoc]. rewrite keyCompare_eq.
  cbn. case_bool_decide as E; [rewrite E; by apply lookup_insert_eq|]. by rewrite lookup_insert_ne.
Qed.

Lemma as_map_set k v l :
  as_map (set_pair k v <$> l) = match assoc k l with Some _ => <[kbytes k := v]> (as_map l) | None => as_map l end.
Proof.
  unfold as_map. induction l as [|[k' w] l IH]; [done|]. rewrite fmap_cons. cbn [assoc]. unfold set_pair at 1.
  cbn [fst]. rewrite keyCompare_eq. cbn in *. case_bool_decide as E.
  - cbn. rewrite E, insert_insert_eq. rewrite IH, E. destruct (assoc k l); [by rewrite insert_insert_eq|done].
  - cbn. rewrite IH. destruct (assoc k l); [|done]. by rewrite insert_insert_ne.
Qed.

Lemma as_map_filter k l :
  as_map (filter (fun p => keyCompare (V := V) k p.1 = false) l) = delete (kbytes k) (as_map l).
Proof.
  unfold as_map. induction l as [|[k' w] l IH]; [symmetry; apply delete_empty|].
  rewrite filter_cons. cbn [fst]. rewrite keyCompare_eq, fmap_cons, list_to_map_cons. cbn [fst snd].
  case_bool_decide as E; (destruct (decide _) as [Hd|Hd]; try done).
  - rewrite E, delete_insert_eq, <- E. exact IH.
  - rewrite fmap_cons, list_to_map_cons. cbn [fst snd]. rewrite delete_insert_ne by congruence. f_equal. exact IH.
Qed.

(** The dictionary holds the map. *)
Definition map_rep d m : Prop := exists l, dict_rep d l /\ m = as_map l.

Lemma rep_nodup d l : dict_rep d l -> NoDup ((fun p => (kbytes p.1, p.2)) <$> l).*1.
Proof.
  intros [[_ _ _ Hd _] Hl]. rewrite <- Hl. clear Hl. rewrite <- !list_fmap_compose.
  induction (dict_entries d) as [|e es IH]; [constructor|]. apply distinct_cons in Hd as [He Hd]. rewrite fmap_cons. constructor; [|by apply IH].
  intros Hin. apply list_elem_of_fmap in Hin as (f & E & Hf). rewrite Forall_forall in He. specialize (He f Hf).
  rewrite keyCompare_eq in He. cbn in E. rewrite E in He. by rewrite bool_decide_true in He.
Qed.

Lemma map_rep_size d m : map_rep d m -> dictSize d = Z.of_nat (base.size m).
Proof.
  intros (l & Hr & ->). unfold as_map. rewrite map_size_list_to_map by (by eapply rep_nodup). rewrite length_fmap.
  rewrite <- (rep_count d l Hr). unfold dictSize. symmetry. apply dict_count_used. apply Hr.
Qed.

Lemma map_rep_create : map_rep dictCreate ∅.
Proof. exists []. split; [apply dictCreate_rep|done]. Qed.

(** What a pointer to an entry gives. *)
Definition points d (a : addr) k (v : V) : Prop :=
  dictGetVal d a = Some v /\ exists k', dictGetKey d a = Some k' /\ kbytes k' = kbytes k.

Lemma dictFind_map d m k :
  map_rep d m ->
  exists d' r, dictFind d k = Some (d', r) /\ map_rep d' m /\
    match r with Some a => exists v, m !! kbytes k = Some v /\ points d' a k v | None => m !! kbytes k = None end.
Proof.
  intros (l & Hr & ->). destruct (dictFind_rep d l k Hr) as (d' & r & -> & Hr' & Hf).
  exists d', r. split; [done|]. split; [by exists l|]. rewrite as_map_lookup. destruct r as [a|].
  - destruct Hf as (e & He & <- & Hk). exists (evalue e). split; [by eapply rep_found|].
    unfold points, dictGetVal, dictGetKey. rewrite (deref_Some d' e) by (done || apply Hr').
    split; [done|]. exists (ekey e). split; [done|]. rewrite keyCompare_eq in Hk. apply bool_decide_eq_true in Hk. done.
  - by apply (rep_missing d').
Qed.

Lemma dictAdd_map junk can_resize a d m k v :
  map_rep d m -> Z.of_nat (base.size m) < DICT_LIMIT -> a ∉ eaddr <$> dict_entries d -> m !! kbytes k = None ->
  exists d', dictAdd junk can_resize a d k v = Some (d', true) /\ map_rep d' (<[kbytes k := v]> m).
Proof.
  intros Hm Hs Ha Hn. rewrite <- (map_rep_size d m Hm) in Hs. destruct Hm as (l & Hr & ->).
  assert (Z.of_nat (length l) < DICT_LIMIT) as Hl.
  { rewrite <- (rep_count d l Hr), (dict_count_used d) by apply Hr. exact Hs. }
  destruct (dictAdd_rep junk can_resize a d l k v Hr Hl Ha) as (d' & -> & Hr').
  unfold ref_add in *. rewrite <- as_map_lookup, Hn in *. cbn [fst snd] in *. exists d'. split; [done|].
  by exists ((k, v) :: l).
Qed.

Lemma dictReplace_map junk can_resize a d m k v w :
  map_rep d m -> Z.of_nat (base.size m) < DICT_LIMIT -> a ∉ eaddr <$> dict_entries d -> m !! kbytes k = Some w ->
  exists d', dictReplace junk can_resize a d k v = Some (d', false) /\ map_rep d' (<[kbytes k := v]> m).
Proof.
  intros Hm Hs Ha Hn. rewrite <- (map_rep_size d m Hm) in Hs. destruct Hm as (l & Hr & ->).
  assert (Z.of_nat (length l) < DICT_LIMIT) as Hl.
  { rewrite <- (rep_count d l Hr), (dict_count_used d) by apply Hr. exact Hs. }
  destruct (dictReplace_rep junk can_resize a d l k v Hr Hl Ha) as (d' & -> & Hr').
  unfold ref_replace in *. rewrite as_map_lookup in Hn. rewrite Hn in *. cbn [fst snd] in *. exists d'. split; [done|].
  exists (set_pair k v <$> l). split; [done|]. by rewrite as_map_set, Hn.
Qed.

Lemma dictDelete_map d m k :
  map_rep d m ->
  exists d', dictDelete d k = Some (d', bool_decide (is_Some (m !! kbytes k))) /\ map_rep d' (delete (kbytes k) m).
Proof.
  intros (l & Hr & ->). destruct (dictDelete_rep d l k Hr) as (d' & -> & Hr').
  exists d'. rewrite as_map_lookup. split; [done|]. eexists. split; [exact Hr'|]. symmetry. apply as_map_filter.
Qed.

(** Finding or adding the entry, then setting its value. *)
Lemma dictReplaceRaw_map junk can_resize a d m k v :
  map_rep d m -> Z.of_nat (base.size m) < DICT_LIMIT -> a ∉ eaddr <$> dict_entries d ->
  exists d' a' d'', dictReplaceRaw junk can_resize a d k = Some (d', Some a') /\ dictSetVal d' a' v = Some d'' /\
    map_rep d'' (<[kbytes k := v]> m).
Proof.
  intros Hm Hs Ha. rewrite <- (map_rep_size d m Hm) in Hs. destruct Hm as (l & Hr & ->).
  assert (Z.of_nat (length l) < DICT_LIMIT) as Hl.
  { rewrite <- (rep_count d l Hr), (dict_count_used d) by apply Hr. exact Hs. }
  unfold dictReplaceRaw. destruct (dictFind_spec d k (proj1 Hr)) as (d1 & r & -> & Hsame & Hf). cbn [mbind option_bind].
  pose proof (same_rep _ _ _ Hsame Hr) as Hr1.
  destruct r as [a'|].
  - destruct Hf as (e & He & <- & Hk). destruct (rep_split d1 l e Hr1 He) as (es & Hp & Hle & Hd).
    destruct (dictSetVal_spec d1 e es v (proj1 Hr1) Hp) as (d2 & Hset & W2 & _ & Hp2).
    exists d1, (eaddr e), d2. split; [done|]. split; [exact Hset|]. exists (set_pair k v <$> l).
    assert (assoc k l = Some (evalue e)) as Hassoc by (by eapply rep_found).
    split; [|by rewrite as_map_set, Hassoc]. split; [done|]. rewrite Hp2, Hle, !fmap_cons. unfold set_pair at 1.
    cbn [kv fst]. rewrite Hk. f_equiv. rewrite <- list_fmap_compose. apply Permutation_refl'. apply list_fmap_ext.
    intros i f Hfi. cbn. unfold set_pair. cbn [kv fst]. rewrite Forall_lookup in Hd. by rewrite (compare_other k e f Hk (Hd i f Hfi)).
  - pose proof (rep_missing d1 l k Hr1 Hf) as Hnone.
    destruct (dictAddRaw_spec junk can_resize a d1 k) as (d2 & r2 & -> & H2); [apply Hr1|by rewrite (rep_count d1 l Hr1)|by rewrite (same_entries _ _ Hsame)|].
    destruct r2 as [a'|].
    + destruct H2 as (-> & W2 & _ & Hp2 & _).
      destruct (dictSetVal_spec d2 (DictEntry a (keyDup (V := V) k) junk) (dict_entries d1) v W2 Hp2) as (d3 & Hset & W3 & _ & Hp3).
      exists d2, a, d3. split; [done|]. split; [exact Hset|]. exists ((k, v) :: l). split; [|done]. split; [done|].
      rewrite Hp3, fmap_cons. cbn [kv ekey evalue]. f_equiv. apply Hr1.
    + destruct H2 as (Hs2 & e & He & Hk). exfalso. rewrite (rep_found d2 l k _ e (same_rep _ _ _ Hs2 Hr1) He eq_refl Hk) in Hnone. done.
Qed.

End Map.
End DictMap.
