(* ===== verification/HeapSpec.v ===== *)
(** * Sharing objects

    What the users of the heap of objects rely on: taking and giving back
    references leaves the values alone, an object goes away exactly with its
    last reference, and what is allocated and freed again leaves no trace. *)

From S2P Require Import Prelude Monad Sds SdsText Dict Object ObjectSpec State.
Import Monad Sds SdsText Object ObjectSpec State.

Module HeapSpec.

Section Heap.
Context {P : Type}.
Abbreviation heap := (gmap addr (robj P)).
Implicit Types (h : heap) (o : robj P) (a c : addr).

(** Equal but for the time of the last access and the number of references. *)
Definition same_value o o' : Prop := otype o' = otype o /\ encoding o' = encoding o /\ ptr o' = ptr o.

(** Every object of the new heap was there before, with the same value. *)
Definition heap_sub h h' : Prop := forall a o', h' !! a = Some o' -> exists o, h !! a = Some o /\ same_value o o'.

Lemma same_value_refl o : same_value o o.
Proof. done. Qed.

Lemma heap_sub_refl h : heap_sub h h.
Proof. intros a o Ho. by exists o. Qed.

Lemma heap_sub_trans h1 h2 h3 : heap_sub h1 h2 -> heap_sub h2 h3 -> heap_sub h1 h3.
Proof.
  intros H12 H23 a o3 H3. destruct (H23 _ _ H3) as (o2 & H2 & E1 & E2 & E3). destruct (H12 _ _ H2) as (o1 & H1 & F1 & F2 & F3).
  exists o1. split; [done|]. split; [congruence|]. split; congruence.
Qed.

Lemma str_obj_same o o' x : same_value o o' -> str_obj o x -> str_obj o' x.
Proof.
  intros (Ht & He & Hp) (Ho & Hv). split; [congruence|]. unfold sdsEncodedObject in *. rewrite He, Hp. exact Hv.
Qed.

Lemma freeable_same o o' : same_value o o' -> freeable o' = freeable o.
Proof. intros (Ht & He & _). unfold freeable. by rewrite Ht, He. Qed.

Lemma sub_holds h h' a x : heap_sub h h' -> holds h a x -> is_Some (h' !! a) -> holds h' a x.
Proof.
  intros Hs (o & Ho & Hx) [o' Ho']. destruct (Hs _ _ Ho') as (o1 & H1 & Hv). rewrite Ho in H1. injection H1 as <-.
  exists o'. split; [done|]. by eapply str_obj_same.
Qed.

Lemma count_live h a : 0 < count h a -> is_Some (h !! a).
Proof. unfold count. destruct (h !! a); [done|lia]. Qed.

Lemma sub_insert h a o o' : h !! a = Some o -> same_value o o' -> heap_sub h (<[a := o']> h).
Proof.
  intros Ho Hv c oc. destruct (decide (c = a)) as [->|Hne].
  - rewrite lookup_insert_eq. intros [= <-]. by exists o.
  - rewrite lookup_insert_ne by done. intros Hc. by exists oc.
Qed.

Lemma sub_delete h a : heap_sub h (delete a h).
Proof.
  intros c oc. destruct (decide (c = a)) as [->|Hne]; [by rewrite lookup_delete_eq|].
  rewrite lookup_delete_ne by done. intros Hc. by exists oc.
Qed.

Lemma incr_ok h a o : h !! a = Some o -> 0 < refcount o < 2 ^ 31 - 1 ->
  exists h', incrRefCount h a = Some h' /\ heap_sub h h' /\
    forall c, count h' c = count h c + (if decide (c = a) then 1 else 0).
Proof.
  intros Ha Hr. rewrite (incr_spec h a o) by (done || lia). eexists. split; [done|]. split; [by eapply sub_insert|].
  intros c. rewrite count_insert. cbn [refcount set_refcount]. destruct (decide (c = a)) as [->|]; [|lia].
  by rewrite (count_Some _ _ _ Ha).
Qed.

Lemma decr_ok h a o : h !! a = Some o -> 0 < refcount o -> freeable o = true ->
  exists h', decrRefCount h a = Some h' /\ heap_sub h h' /\
    forall c, count h' c = count h c - (if decide (c = a) then 1 else 0).
Proof.
  intros Ha Hr Hf. destruct (decide (refcount o = 1)) as [H1|H1].
  - exists (delete a h). split.
    { unfold decrRefCount. rewrite Ha. cbn [mbind option_bind]. rewrite H1. cbn. by rewrite Hf. }
    split; [apply sub_delete|]. intros c. rewrite count_delete.
    destruct (decide (c = a)) as [->|]; [rewrite (count_Some _ _ _ Ha); lia|lia].
  - exists (<[a := set_refcount o (refcount o - 1)]> h). split; [apply decr_more; [done|lia]|].
    split; [by eapply sub_insert|]. intros c. rewrite count_insert. cbn [refcount set_refcount].
    destruct (decide (c = a)) as [->|]; [rewrite (count_Some _ _ _ Ha); lia|lia].
Qed.

(** A reference taken and given back. *)
Lemma incr_decr h a o : h !! a = Some o -> 0 < refcount o < 2 ^ 31 - 1 ->
  incrRefCount h a = Some (<[a := set_refcount o (refcount o + 1)]> h) /\
  decrRefCount (<[a := set_refcount o (refcount o + 1)]> h) a = Some h.
Proof.
  intros Ha Hr. split; [by apply incr_spec; [|lia]|]. apply taken_back. left. exists o. split; [done|]. split; [done|lia].
Qed.

Lemma holds_freeable h a x o : holds h a x -> h !! a = Some o -> freeable o = true.
Proof. intros (o' & Ho & Ht & _) H. rewrite Ho in H. injection H as <-. unfold freeable. by rewrite Ht. Qed.

(** A string object just allocated, freed again. *)
Lemma new_free h a o x : h !! a = None -> str_obj o x -> refcount o = 1 -> decrRefCount (<[a := o]> h) a = Some h.
Proof. intros Ha Ho Hr. apply taken_back. right. split; [done|]. split; [done|]. by exists x. Qed.

(** ** What happens to other objects *)

Lemma incr_others h i h' c o : incrRefCount h i = Some h' -> h !! c = Some o -> exists o', h' !! c = Some o' /\ same_value o o'.
Proof.
  unfold incrRefCount. destruct (h !! i) as [oi|] eqn:Hi; [|done]. cbn. intros [= <-] Hc.
  destruct (decide (c = i)) as [->|Hne]; [rewrite lookup_insert_eq|rewrite lookup_insert_ne by done].
  - rewrite Hi in Hc. injection Hc as <-. by eexists.
  - exists o. split; [done|apply same_value_refl].
Qed.

Lemma decr_others h a h' c : decrRefCount h a = Some h' -> c <> a -> h' !! c = h !! c.
Proof.
  unfold decrRefCount. destruct (h !! a) as [oa|]; [|done]. cbn. intros E Hne. repeat case_match; simplify_eq; by rewrite ?lookup_delete_ne, ?lookup_insert_ne by done.
Qed.

(** Encoding an object leaves the others their values, and itself when it is
    shared. *)
Lemma encoding_others E fresh h a h' a' c o :
  tryObjectEncoding E fresh h a = Some (h', a') -> h !! fresh = None -> h !! c = Some o -> c <> a \/ 1 < count h a ->
  exists o', h' !! c = Some o' /\ same_value o o'.
Proof.
  intros Ht Hf Hc Hor. unfold tryObjectEncoding in Ht. destruct (h !! a) as [oa|] eqn:Ha; [|done]. cbn [mbind option_bind] in Ht.
  rewrite (count_Some _ _ _ Ha) in Hor.
  assert (exists o', h !! c = Some o' /\ same_value o o') as Hsame by (exists o; split; [done|apply same_value_refl]).
  destruct (negb _); [done|]. destruct (negb _); [simplify_eq; exact Hsame|]. destruct (Z.gtb_spec (refcount oa) 1); [by simplify_eq|].
  assert (c <> a) as Hne by (destruct Hor; [done|lia]).
  assert (forall oa', exists o', <[a := oa']> h !! c = Some o' /\ same_value o o') as Hins by (intros oa'; by rewrite lookup_insert_ne).
  destruct (as_sds (ptr oa)) as [s|]; [|done]. cbn [mbind option_bind] in Ht.
  destruct (if sdslen s <=? 20 then _ else _) as [value|]; [|done]. cbn [mbind option_bind] in Ht.
  destruct value as [v|].
  - destruct (_ && _).
    + destruct (decrRefCount h a) as [h1|] eqn:H1; [|done]. cbn [mbind option_bind] in Ht.
      destruct (integers E !! _) as [i|]; [|done]. cbn [mbind option_bind] in Ht.
      destruct (incrRefCount h1 i) as [h2|] eqn:H2; [|done]. simplify_eq/=. eapply incr_others; [exact H2|]. by rewrite (decr_others _ _ _ _ H1).
    + simplify_eq. apply Hins.
  - destruct (_ <=? _).
    + destruct (_ =? _); [simplify_eq; exact Hsame|]. unfold createEmbeddedStringObject in Ht. destruct (rdn _ _ _) as [body|]; [|done]. cbn [mbind option_bind] in Ht.
      destruct (decrRefCount _ a) as [h1|] eqn:H1; [|done]. simplify_eq/=. rewrite (decr_others _ _ _ _ H1) by done.
      rewrite lookup_insert_ne by congruence. exact Hsame.
    + destruct (_ && _); [|simplify_eq; exact Hsame]. destruct (sdsRemoveFreeSpace _ _) as [s'|]; [|done]. simplify_eq/=. apply Hins.
Qed.

End Heap.
End HeapSpec.
