(* ===== verification/DbSpec.v ===== *)
(** * The key space is a map with expiry times (src/db.c)

    [adb] is the specification: the map from keys to objects, the map from
    keys to times, and the counters.  Each function of [Db] is shown to take
    a database that represents one [adb] to one that represents the next,
    leaving the other databases and the client alone and every reference
    count exact: an object's count changes by what enters and leaves the
    map, so that no value is lost or kept too long. *)

From S2P Require Import Prelude Monad Util Sds SdsText Dict DictTypes DictSpec DictMap Object ObjectSpec State Db HeapSpec.
Import Monad Util Sds SdsText Dict DictTypes DictSpec DictMap Object ObjectSpec State Db HeapSpec.

Module DbSpec.

(** ** Occurrences in a map *)

Definition vocc (a : addr) (m : gmap bytes addr) : Z := Z.of_nat (base.size (filter (fun p => p.2 = a) m)).

Lemma vocc_empty a : vocc a ∅ = 0.
Proof. unfold vocc. by rewrite map_filter_empty, map_size_empty. Qed.

Lemma vocc_insert a k v m : m !! k = None -> vocc a (<[k := v]> m) = vocc a m + (if decide (a = v) then 1 else 0).
Proof.
  intros Hk. unfold vocc. rewrite map_filter_insert. cbn [snd]. destruct (decide (v = a)) as [->|Hne].
  - rewrite decide_True by done. rewrite map_size_insert_None; [lia|]. by apply map_lookup_filter_None; left.
  - rewrite decide_False by congruence. rewrite delete_id by done. lia.
Qed.

Lemma vocc_delete a k v m : m !! k = Some v -> vocc a (delete k m) = vocc a m - (if decide (a = v) then 1 else 0).
Proof.
  intros Hk. rewrite <- (insert_delete_id m k v Hk) at 2. rewrite vocc_insert by apply lookup_delete_eq. lia.
Qed.

Lemma vocc_replace a k v w m : m !! k = Some w ->
  vocc a (<[k := v]> m) = vocc a m + (if decide (a = v) then 1 else 0) - (if decide (a = w) then 1 else 0).
Proof.
  intros Hk. rewrite <- insert_delete_eq, vocc_insert, (vocc_delete a k w) by (done || apply lookup_delete_eq). lia.
Qed.

Lemma vocc_nonneg a m : 0 <= vocc a m.
Proof. unfold vocc. lia. Qed.

Lemma vocc_pos a k m : m !! k = Some a -> 0 < vocc a m.
Proof. intros Hk. pose proof (vocc_delete a k a m Hk) as H. rewrite decide_True in H by done. pose proof (vocc_nonneg a (delete k m)). lia. Qed.

(** ** The specification *)

(** The values are of any type: addresses when the database is related to the
    heap, strings when it is described on its own. *)
Record adb_of (V : Type) := ADb { amap : gmap bytes V; aexp : gmap bytes Z; actr : keyspace }.
#[global] Arguments ADb {V} _ _ _.
#[global] Arguments amap {V} _.
#[global] Arguments aexp {V} _.
#[global] Arguments actr {V} _.

Abbreviation adb := (adb_of addr).

Definition ctr (k : keyspace) : keyspace := with_dbs [] k.

Section Spec.
Context {P : Type} (C : config).
Context {HC : sound_config C}.

#[local] Instance spec_keys V : dictType sdskey V := dbDictType (seed C) V.

Abbreviation state := (state P).
Implicit Types (s : state) (A : adb) (a key : addr) (b : bytes) (id : nat).

(** The references to an object other than those of the map. *)
Definition spare s A a : Z := count (objects s) a - vocc a (amap A).

Record db_rep s id A : Prop := DbRep {
  dr_db : exists db, dbs (ks s) !! id = Some db /\
    map_rep (seed C) (ddict db) (amap A) /\ map_rep (seed C) (dexpires db) (aexp A);
  dr_ctr : ctr (ks s) = actr A;
  dr_sub : forall b w, aexp A !! b = Some w -> is_Some (amap A !! b);
  dr_val : forall b a, amap A !! b = Some a -> exists o, objects s !! a = Some o /\ freeable o = true;
  dr_refs : forall a, 0 <= spare s A a
}.

(** What no function of the key space touches. *)
Record frame s s' id : Prop := Frame {
  fr_cl : cl s' = cl s;
  fr_pending : clients_pending_write s' = clients_pending_write s;
  fr_to_close : clients_to_close s' = clients_to_close s;
  fr_dbs : forall j, j <> id -> dbs (ks s') !! j = dbs (ks s) !! j;
  fr_heap : heap_sub (objects s) (objects s');
  fr_count : forall a, count (objects s') a <= count (objects s) a;
  fr_srv : srv s' = srv s
}.

Lemma frame_refl s id : frame s s id.
Proof. constructor; try done; apply heap_sub_refl. Qed.

Lemma frame_trans s1 s2 s3 id : frame s1 s2 id -> frame s2 s3 id -> frame s1 s3 id.
Proof.
  intros [A1 A2 A3 A4 A5 A6 A7] [B1 B2 B3 B4 B5 B6 B7]. constructor; try congruence.
  - intros j Hj. by rewrite B4, A4.
  - by eapply heap_sub_trans.
  - intros a. specialize (A6 a). specialize (B6 a). lia.
Qed.

(** From one database to the next, with the same references to spare. *)
Definition step s s' id A A' : Prop :=
  db_rep s' id A' /\ frame s s' id /\ forall a, spare s' A' a = spare s A a.

Lemma step_refl s id A : db_rep s id A -> step s s id A A.
Proof. intros H. split; [done|]. split; [apply frame_refl|done]. Qed.

Lemma step_trans s1 s2 s3 id A1 A2 A3 : step s1 s2 id A1 A2 -> step s2 s3 id A2 A3 -> step s1 s3 id A1 A3.
Proof.
  intros (_ & F1 & S1) (R2 & F2 & S2). split; [done|]. split; [by eapply frame_trans|]. intros a. by rewrite S2, S1.
Qed.

(** ** Keys *)

(** A key is a string of bytes the caller holds. *)
Definition key_obj (o : robj P) b : Prop := str_obj o b /\ sdsEncodedObject o = true /\ is_int (Z.of_nat (length b)).

Definition key_is s key b : Prop := exists o, objects s !! key = Some o /\ key_obj o b.

(** What the functions ask for: the caller holds the key and the server its
    shared objects, and no count is near its limit. *)
Record ready s A id key b : Prop := Ready {
  rd_key : key_is s key b;
  rd_spare : 0 < spare s A key;
  rd_len : Z.of_nat (length b) < 2 ^ 31 - 200;
  rd_id : is_llong (Z.of_nat id);
  rd_del : 0 < spare s A (del (shared C));
  rd_room : forall a, count (objects s) a < 2 ^ 31 - 8
}.

Lemma key_sub s s' key b : heap_sub (objects s) (objects s') -> key_is s key b -> is_Some (objects s' !! key) -> key_is s' key b.
Proof.
  intros Hs (o & Ho & Hk & He & Hl) [o' Ho']. destruct (Hs _ _ Ho') as (o1 & H1 & Hv). rewrite Ho in H1. injection H1 as <-.
  exists o'. split; [done|]. split; [by eapply str_obj_same|]. split; [|done].
  unfold sdsEncodedObject in *. destruct Hv as (_ & E & _). by rewrite E.
Qed.

Lemma spare_live s A a : 0 < spare s A a -> is_Some (objects s !! a).
Proof. unfold spare. intros H. apply count_live. pose proof (vocc_nonneg a (amap A)). lia. Qed.

Lemma step_ready s s' id A A' id' key b : step s s' id A A' -> ready s A id' key b -> ready s' A' id' key b.
Proof.
  intros (R & F & S) [Hk Hs Hl Hid Hd Hroom]. constructor; [|by rewrite S|done|done|by rewrite S|].
  - apply (key_sub s); [apply F|done|]. apply (spare_live s' A'). by rewrite S.
  - intros a. pose proof (fr_count _ _ _ F a). specialize (Hroom a). lia.
Qed.

Lemma object_bytes_spec (o : robj P) b : key_obj o b -> object_bytes o = Some b.
Proof.
  intros (Ho & He & _). destruct (encoded_string o b Ho He) as (sd & Hp & Hs). unfold object_bytes. rewrite Hp.
  cbn [as_sds mbind option_bind]. by eapply sds_rep_read.
Qed.

Lemma key_ptr_wp s key b (Q : sdskey -> state -> Prop) :
  key_is s key b -> (forall k, kbytes k = b -> Q k s) -> wp (key_ptr key) Q s.
Proof.
  intros (o & Ho & Hk) HQ. unfold key_ptr. apply wp_bind. unfold get_object. wp_step. apply (wp_lift _ o); [done|].
  apply wp_bind. apply (wp_lift _ b); [by apply object_bytes_spec|]. unfold mk_key.
  destruct Hk as (_ & _ & Hl). destruct (decide _) as [Hd|]; [|done]. eapply wp_lift; [done|]. by apply HQ.
Qed.

(** ** Dictionaries of a database *)

Lemma get_db_wp s id db (Q : redisDb -> state -> Prop) : dbs (ks s) !! id = Some db -> Q db s -> wp (get_db id) Q s.
Proof. intros Hdb HQ. unfold get_db. wp_step. by eapply wp_lift. Qed.

(** The state with a database replaced. *)
Definition put_db s id db : state := set_ks (fun k => with_dbs (<[id := db]> (dbs k)) k) s.

Lemma put_db_lookup s id db0 db : dbs (ks s) !! id = Some db0 -> dbs (ks (put_db s id db)) !! id = Some db.
Proof. intros H. cbn. apply list_lookup_insert_eq. by eapply lookup_lt_Some. Qed.

Lemma put_db_frame s id db : frame s (put_db s id db) id.
Proof. constructor; try done; [|apply heap_sub_refl]. intros j Hj. cbn. by rewrite list_lookup_insert_ne. Qed.

Lemma on_dict_wp {R} s id db (f : dict sdskey addr -> option (dict sdskey addr * R)) d r (Q : R -> state -> Prop) :
  dbs (ks s) !! id = Some db -> f (ddict db) = Some (d, r) -> Q r (put_db s id (set_ddict db d)) -> wp (on_dict id f) Q s.
Proof.
  intros Hdb Hf HQ. unfold on_dict. apply wp_bind. eapply get_db_wp; [done|]. apply wp_bind.
  eapply wp_lift; [done|]. cbn beta iota. unfold set_db. wp_step. wp_step. done.
Qed.

Lemma on_expires_wp {R} s id db (f : dict sdskey Z -> option (dict sdskey Z * R)) d r (Q : R -> state -> Prop) :
  dbs (ks s) !! id = Some db -> f (dexpires db) = Some (d, r) -> Q r (put_db s id (set_dexpires db d)) -> wp (on_expires id f) Q s.
Proof.
  intros Hdb Hf HQ. unfold on_expires. apply wp_bind. eapply get_db_wp; [done|]. apply wp_bind.
  eapply wp_lift; [done|]. cbn beta iota. unfold set_db. wp_step. wp_step. done.
Qed.

(** A database replaced by one of the same maps. *)
Lemma put_db_step s id A db0 db :
  db_rep s id A -> dbs (ks s) !! id = Some db0 ->
  map_rep (seed C) (ddict db) (amap A) -> map_rep (seed C) (dexpires db) (aexp A) ->
  step s (put_db s id db) id A A.
Proof.
  intros [_ Hc Hsub Hval Href] Hdb Hm Hx. split; [|split; [apply put_db_frame|done]].
  constructor; [|done|done|done|done]. exists db. split; [by eapply put_db_lookup|done].
Qed.

(** Looking a key up. *)
Lemma find_wp s id A k (Q : option addr -> state -> Prop) :
  db_rep s id A ->
  (forall r s' db, step s s' id A A -> objects s' = objects s -> dbs (ks s') !! id = Some db ->
     (forall db0, dbs (ks s) !! id = Some db0 -> dexpires db = dexpires db0) ->
     match r with Some a => exists v, amap A !! kbytes k = Some v /\ points (ddict db) a k v | None => amap A !! kbytes k = None end ->
     Q r s') ->
  wp (on_dict id (fun d => dictFind d k)) Q s.
Proof.
  intros Hr HQ. pose proof Hr as [(db & Hdb & Hm & Hx) _ _ _ _].
  destruct (dictFind_map (seed C) (ddict db) (amap A) k Hm) as (d' & r & Hf & Hm' & Hres).
  eapply on_dict_wp; [done|exact Hf|]. eapply (HQ r _ (set_ddict db d')); [by eapply put_db_step|done|by eapply put_db_lookup| |done].
  intros db0 Hdb0. rewrite Hdb in Hdb0. by injection Hdb0 as <-.
Qed.

Lemma find_expires_wp s id A k (Q : option addr -> state -> Prop) :
  db_rep s id A ->
  (forall r s' db, step s s' id A A -> objects s' = objects s -> dbs (ks s') !! id = Some db ->
     match r with Some a => exists v, aexp A !! kbytes k = Some v /\ points (dexpires db) a k v | None => aexp A !! kbytes k = None end ->
     Q r s') ->
  wp (on_expires id (fun d => dictFind d k)) Q s.
Proof.
  intros Hr HQ. pose proof Hr as [(db & Hdb & Hm & Hx) _ _ _ _].
  destruct (dictFind_map (seed C) (dexpires db) (aexp A) k Hx) as (d' & r & Hf & Hx' & Hres).
  eapply on_expires_wp; [done|exact Hf|]. eapply (HQ r _ (set_dexpires db d')); [by eapply put_db_step|done|by eapply put_db_lookup|done].
Qed.

Lemma dr_lookup s id A : db_rep s id A -> exists db, dbs (ks s) !! id = Some db /\
  map_rep (seed C) (ddict db) (amap A) /\ map_rep (seed C) (dexpires db) (aexp A).
Proof. by intros [H _ _ _ _]. Qed.

Lemma getExpire_wp s id A key b (Q : Z -> state -> Prop) :
  db_rep s id A -> key_is s key b ->
  (forall s', step s s' id A A -> objects s' = objects s -> Q (default (-1) (aexp A !! b)) s') ->
  wp (getExpire C id key) Q s.
Proof.
  intros Hr Hk HQ. unfold getExpire. apply wp_bind. eapply key_ptr_wp; [done|]. intros k <-.
  destruct (dr_lookup _ _ _ Hr) as (db & Hdb & Hm & Hx). apply wp_bind. eapply get_db_wp; [done|].
  rewrite (map_rep_size _ _ _ Hx). destruct (Z.eqb_spec (Z.of_nat (base.size (aexp A))) 0) as [E|E].
  { wp_step. assert (aexp A !! kbytes k = None) as Hnone.
    { assert (base.size (aexp A) = 0%nat) as E' by lia. apply map_size_empty_inv in E'. rewrite E'. apply lookup_empty. }
    specialize (HQ s (step_refl _ _ _ Hr) eq_refl). by rewrite Hnone in HQ. }
  apply wp_bind. eapply (find_expires_wp s id A k); [done|]. intros [de|] s1 db1 Hs1 Ho1 Hdb1 Hres.
  - destruct Hres as (w & Hw & Hp). apply wp_bind. eapply (find_wp s1 id A k); [apply Hs1|].
    intros r s2 db2 Hs2 Ho2 Hdb2 Hsame Hres2. destruct r as [a|].
    + apply wp_bind. apply wp_check; [done|]. apply wp_bind. eapply get_db_wp; [done|].
      rewrite (Hsame db1 Hdb1). eapply wp_lift; [apply Hp|]. rewrite Hw in HQ.
      apply HQ; [by eapply step_trans|congruence].
    + exfalso. destruct (dr_sub _ _ _ Hr _ _ Hw) as [v Hv]. congruence.
  - wp_step. rewrite Hres in HQ. by apply HQ.
Qed.

(** ** Changing counters and objects only *)

(** A counter changes. *)
Lemma ctr_step s id A (f : keyspace -> keyspace) :
  (forall k, dbs (f k) = dbs k) -> (forall k, ctr (f k) = f (ctr k)) -> db_rep s id A ->
  step s (set_ks f s) id A (ADb (amap A) (aexp A) (f (actr A))).
Proof.
  intros Hd Hc [Hdb Hctr Hsub Hval Href]. split; [|split; [|done]].
  - constructor; cbn [amap aexp actr]; [|by rewrite <- Hctr, <- Hc|done|done|done]. cbn. by rewrite Hd.
  - constructor; try done; [|apply heap_sub_refl]. intros j Hj. cbn. by rewrite Hd.
Qed.

(** ** Notifications *)

(** The messages of an event. *)
Definition notes (type : Z) (event b : bytes) (id : nat) : list (bytes * bytes) :=
  let flags := notify_keyspace_events C in
  if negb (has flags type) then []
  else
    (if has flags NOTIFY_KEYSPACE then [(str "__keyspace@" ++ decimal (Z.of_nat id) ++ str "__:" ++ b, event)] else []) ++
    (if has flags NOTIFY_KEYEVENT then [(str "__keyevent@" ++ decimal (Z.of_nat id) ++ str "__:" ++ event, b)] else []).

Lemma channel_name_spec prefix id tail :
  (length prefix <= 100)%nat -> is_llong (Z.of_nat id) -> Z.of_nat (length tail) < 2 ^ 32 ->
  exists sd, channel_name C prefix id tail = Some sd /\ sds_rep sd (prefix ++ decimal (Z.of_nat id) ++ str "__:" ++ tail).
Proof.
  intros Hp Hid Ht. unfold channel_name.
  destruct (print_spec (senv C) 24 _ Hid) as (tl & Hprint); [lia|]. change (Z.of_nat 24) with 24 in Hprint. rewrite Hprint. cbn [mbind option_bind].
  destruct (sdsnewlen_rep (junk (senv C)) (Some prefix) (Z.of_nat (length prefix))) as (c1 & -> & H1).
  { unfold SDS_LIMIT. lia. }
  { by intros i [= ->]. }
  cbn [mbind option_bind init_str] in *. rewrite Nat2Z.id, take_ge in H1 by lia.
  pose proof (decimal_length_20 _ Hid) as Hdl.
  destruct (sdscatlen_rep (junk (senv C)) c1 prefix (decimal (Z.of_nat id) ++ 0 :: tl) (Z.of_nat (length (decimal (Z.of_nat id))))) as (c2 & -> & H2).
  { done. }
  { rewrite length_app. cbn. lia. }
  { unfold SDS_LIMIT. lia. }
  rewrite Nat2Z.id, take_app_length in H2. cbn [mbind option_bind].
  destruct (sdscatlen_rep (junk (senv C)) c2 _ (str "__:") 3 H2) as (c3 & -> & H3); [cbn; lia|unfold SDS_LIMIT; rewrite length_app; lia|].
  cbn [mbind option_bind]. change (take (Z.to_nat 3) (str "__:")) with (str "__:") in H3.
  assert (length (str "__:") = 3%nat) as Hl3 by reflexivity.
  destruct (sdscatlen_rep (junk (senv C)) c3 _ tail (Z.of_nat (length tail)) H3) as (c4 & -> & H4); [lia| |].
  { unfold SDS_LIMIT. rewrite !length_app, Hl3. lia. }
  exists c4. split; [done|]. rewrite Nat2Z.id, (take_ge tail) in H4 by lia. rewrite <- !app_assoc in H4. exact H4.
Qed.

(** An allocation, and the release of what was just allocated. *)
Lemma new_wp s (f : addr -> gmap addr (robj P) -> option (gmap addr (robj P))) (x : bytes) (Q : addr -> state -> Prop) :
  (forall a, exists o, f a (objects s) = Some (<[a := o]> (objects s)) /\ str_obj o x /\ refcount o = 1 /\ sdsEncodedObject o = true) ->
  (forall a o, objects s !! a = None -> str_obj o x -> refcount o = 1 -> sdsEncodedObject o = true ->
     Q a (set_objects (fun _ => <[a := o]> (objects s)) s)) ->
  wp (new_object C f) Q s.
Proof.
  intros Hf HQ. unfold new_object. wp_step.
  destruct (Hf (alloc_object C (dom (objects s)))) as (o & Hnew & Ho & Hr & He). apply wp_bind.
  eapply wp_lift; [exact Hnew|]. wp_step. wp_step. apply HQ; [apply not_elem_of_dom, alloc_object_fresh|done..].
Qed.

Lemma release_wp s h a o (x : bytes) (Q : unit -> state -> Prop) :
  objects s = <[a := o]> h -> h !! a = None -> str_obj o x -> refcount o = 1 ->
  Q tt (set_objects (fun _ => h) s) -> wp (on_heap (fun h => decrRefCount h a)) Q s.
Proof.
  intros Hs Ha Ho Hr HQ. unfold on_heap. wp_step. apply wp_bind. eapply wp_lift; [rewrite Hs; by eapply new_free|].
  by apply wp_modify.
Qed.

Lemma publish_wp s channel message oc om bc bm (Q : unit -> state -> Prop) :
  objects s !! channel = Some oc -> objects s !! message = Some om -> key_obj oc bc -> key_obj om bm ->
  Q tt (set_ks (add_published [(bc, bm)]) s) -> wp (pubsubPublishMessage channel message) Q s.
Proof.
  intros Hoc Hom Hbc Hbm HQ. unfold pubsubPublishMessage, get_object.
  apply wp_bind. wp_step. eapply wp_lift; [done|]. apply wp_bind. wp_step. eapply wp_lift; [done|].
  apply wp_bind. eapply wp_lift; [by apply object_bytes_spec|]. apply wp_bind. eapply wp_lift; [by apply object_bytes_spec|].
  by apply wp_modify.
Qed.

Lemma published_nil s : set_ks (add_published []) s = s.
Proof. destruct s as [? [] ? ? ?]. unfold set_ks, add_published. cbn. by rewrite app_nil_r. Qed.

Lemma published_app s l1 l2 : set_ks (add_published l2) (set_ks (add_published l1) s) = set_ks (add_published (l1 ++ l2)) s.
Proof. unfold set_ks, add_published. cbn. by rewrite app_assoc. Qed.

(** One channel: the name is built, the message published and the name
    freed. *)
Lemma channel_wp s prefix id (tail : bytes) message om bm (Q : unit -> state -> Prop) :
  (length prefix <= 100)%nat -> is_llong (Z.of_nat id) -> Z.of_nat (length tail) < 2 ^ 31 - 200 ->
  objects s !! message = Some om -> key_obj om bm ->
  Q tt (set_ks (add_published [(prefix ++ decimal (Z.of_nat id) ++ str "__:" ++ tail, bm)]) s) ->
  wp (chan ← lift (channel_name C prefix id tail);
      chanobj ← new_object C (fun a h => Some (createObject (senv C) a h OBJ_STRING (PSds chan)));
      _ ← pubsubPublishMessage chanobj message;
      on_heap (fun h => decrRefCount h chanobj)) Q s.
Proof.
  intros Hp Hid Ht Hm Hbm HQ. destruct (channel_name_spec prefix id tail Hp Hid) as (sd & -> & Hsd); [lia|].
  set (x := prefix ++ decimal (Z.of_nat id) ++ str "__:" ++ tail) in *.
  apply wp_bind. eapply wp_lift; [done|]. apply wp_bind. apply (new_wp _ _ x).
  { intros a. eexists. split; [done|]. split; [|done]. split; [done|]. left. split; [done|]. by exists sd. }
  intros a o Hfresh Ho Hr He. apply wp_bind. apply (publish_wp _ _ _ o om x bm); cbn [objects set_objects].
  - apply lookup_insert_eq.
  - rewrite lookup_insert_ne; [done|congruence].
  - split; [done|]. split; [done|]. unfold is_signed. pose proof (decimal_length_20 _ Hid) as Hdl.
    assert (length (str "__:") = 3%nat) as Hl3 by reflexivity. subst x. rewrite !length_app, Hl3. lia.
  - done.
  - by eapply release_wp.
Qed.

Lemma notify_wp s id type (event : bytes) key b (Q : unit -> state -> Prop) :
  key_is s key b -> is_llong (Z.of_nat id) -> (length event <= 100)%nat -> Z.of_nat (length b) < 2 ^ 31 - 200 ->
  Q tt (set_ks (add_published (notes type event b id)) s) -> wp (notifyKeyspaceEvent C type event key id) Q s.
Proof.
  intros (ok & Hok & Hkey) Hid Hev Hb HQ. unfold notifyKeyspaceEvent, notes in *.
  destruct (has (notify_keyspace_events C) type); cbn [negb] in *.
  2:{ apply wp_skip. by rewrite published_nil in HQ. }
  apply wp_bind. apply (new_wp _ _ event).
  { intros a. apply (create_spec (senv C) _ a event event []); [by rewrite app_nil_r|]. unfold SDS_LIMIT. lia. }
  intros a o Hfresh Ho Hr He. assert (key_obj o event) as Hevent by (split; [done|]; split; [done|]; unfold is_signed; lia).
  set (h1 := <[a := o]> (objects s)). rewrite <- published_app in HQ.
  set (m1 := if has (notify_keyspace_events C) NOTIFY_KEYSPACE then _ else _) in HQ.
  set (m2 := if has (notify_keyspace_events C) NOTIFY_KEYEVENT then _ else _) in HQ.
  apply wp_bind. eapply (wp_mono _ (fun _ s' => s' = set_objects (fun _ => h1) (set_ks (add_published m1) s))).
  { subst m1. destruct (has (notify_keyspace_events C) NOTIFY_KEYSPACE); [|apply wp_skip; by rewrite published_nil].
    apply wp_bind. unfold get_object. wp_step. eapply wp_lift; [cbn; unfold h1; rewrite lookup_insert_ne by congruence; exact Hok|].
    apply wp_bind. eapply wp_lift; [by apply object_bytes_spec|].
    eapply (channel_wp _ _ _ _ _ o event); [cbn; lia|done|lia|cbn; unfold h1; apply lookup_insert_eq|done|done]. }
  intros _ s1 ->. apply wp_bind. eapply (wp_mono _ (fun _ s' => s' = set_objects (fun _ => h1) (set_ks (add_published m2) (set_ks (add_published m1) s)))).
  { subst m2. destruct (has (notify_keyspace_events C) NOTIFY_KEYEVENT); [|apply wp_skip; by rewrite published_nil].
    apply wp_bind. unfold get_object. wp_step. eapply wp_lift; [cbn; unfold h1; apply lookup_insert_eq|].
    apply wp_bind. eapply wp_lift; [by apply object_bytes_spec|].
    eapply (channel_wp _ _ _ _ _ ok b); [cbn; lia|done|lia|cbn; unfold h1; rewrite lookup_insert_ne by congruence; exact Hok|done|done]. }
  intros _ s2 ->. eapply release_wp; [done|done|done|done|]. exact HQ.
Qed.

(** ** Deleting *)

Lemma entry_value_spec d m k : map_rep (V := addr) (seed C) d m -> entry_value C d k = m !! kbytes k.
Proof.
  intros (l & Hr & ->). rewrite (as_map_lookup (seed C)). unfold entry_value. destruct (List.find _ _) as [e|] eqn:Hf.
  - apply find_some in Hf as [Hin Hk]. apply list_elem_of_In in Hin. symmetry. by eapply rep_found.
  - symmetry. apply (rep_missing d); [done|]. intros e He. apply (List.find_none _ _ Hf). by apply list_elem_of_In.
Qed.

Lemma put_db_rep s id A A' db0 db :
  db_rep s id A -> dbs (ks s) !! id = Some db0 ->
  map_rep (seed C) (ddict db) (amap A') -> map_rep (seed C) (dexpires db) (aexp A') -> actr A' = actr A ->
  (forall b w, aexp A' !! b = Some w -> is_Some (amap A' !! b)) ->
  (forall b a, amap A' !! b = Some a -> exists o, objects s !! a = Some o /\ freeable o = true) ->
  (forall a, 0 <= spare s A' a) -> db_rep (put_db s id db) id A'.
Proof.
  intros [_ Hc _ _ _] Hdb Hm Hx HcA Hsub Hval Href.
  constructor; [|by rewrite HcA, <- Hc|done|done|done]. exists db. split; [by eapply put_db_lookup|done].
Qed.

Lemma heap_rep s id A (h : gmap addr (robj P)) :
  db_rep s id A -> heap_sub (objects s) h -> (forall a, vocc a (amap A) <= count h a) ->
  db_rep (set_objects (fun _ => h) s) id A.
Proof.
  intros [Hdb Hctr Hsub Hval Href] Hh Hc. constructor; [done|done|done| |intros a; unfold spare; cbn; specialize (Hc a); lia].
  intros b a Ha. destruct (Hval b a Ha) as (o & Ho & Hf). cbn.
  assert (is_Some (h !! a)) as [o' Ho'] by (apply count_live; pose proof (vocc_pos a b _ Ha); specialize (Hc a); lia).
  exists o'. split; [done|]. destruct (Hh _ _ Ho') as (o1 & H1 & Hv). rewrite Ho in H1. injection H1 as <-.
  by rewrite (freeable_same _ _ Hv).
Qed.

Lemma on_heap_wp s f h (Q : unit -> state -> Prop) :
  f (objects s) = Some h -> Q tt (set_objects (fun _ => h) s) -> wp (on_heap f) Q s.
Proof. intros Hf HQ. unfold on_heap. wp_step. apply wp_bind. eapply wp_lift; [done|]. by apply wp_modify. Qed.

(** Dropping the reference a map no longer has. *)
Lemma free_value_wp s id A v (Q : unit -> state -> Prop) :
  db_rep s id A -> 0 < spare s A v -> (exists o, objects s !! v = Some o /\ freeable o = true) ->
  (forall s', db_rep s' id A -> frame s s' id -> (forall a, spare s' A a = spare s A a - (if decide (a = v) then 1 else 0)) -> Q tt s') ->
  wp (free_value (Some v)) Q s.
Proof.
  intros Hr Hsp (o & Ho & Hf) HQ. unfold free_value.
  assert (0 < refcount o) as Hrc.
  { unfold spare in Hsp. rewrite (count_Some _ _ _ Ho) in Hsp. pose proof (vocc_nonneg v (amap A)). lia. }
  destruct (decr_ok (objects s) v o Ho Hrc Hf) as (h & Hd & Hh & Hc). eapply on_heap_wp; [exact Hd|]. apply HQ.
  - apply heap_rep; [done|done|]. intros a. rewrite Hc. pose proof (dr_refs _ _ _ Hr a) as Ha. unfold spare in *.
    destruct (decide (a = v)) as [->|]; lia.
  - constructor; try done. intros a. cbn. rewrite Hc. destruct (decide _); lia.
  - intros a. unfold spare. cbn. rewrite Hc. lia.
Qed.

Definition adb_delete {V} b (A : adb_of V) : adb_of V := ADb (delete b (amap A)) (delete b (aexp A)) (actr A).

Lemma dbDelete_wp s id A key b (Q : bool -> state -> Prop) :
  db_rep s id A -> key_is s key b ->
  (forall s', step s s' id A (adb_delete b A) -> Q (bool_decide (is_Some (amap A !! b))) s') ->
  wp (dbDelete C id key) Q s.
Proof.
  intros Hr Hk HQ. unfold dbDelete. apply wp_bind. eapply key_ptr_wp; [done|]. intros k <-.
  destruct (dr_lookup _ _ _ Hr) as (db & Hdb & Hm & Hx). apply wp_bind. eapply get_db_wp; [done|]. apply wp_bind.
  set (A1 := ADb (amap A) (delete (kbytes k) (aexp A)) (actr A)).
  apply (wp_mono _ (fun _ s1 => db_rep s1 id A1 /\ frame s s1 id /\ objects s1 = objects s /\
    exists db1, dbs (ks s1) !! id = Some db1 /\ ddict db1 = ddict db)).
  { assert (forall db1, ddict db1 = ddict db -> map_rep (seed C) (dexpires db1) (delete (kbytes k) (aexp A)) ->
      db_rep (put_db s id db1) id A1) as Hput.
    { intros db1 Hd1 Hx1. eapply (put_db_rep s id A); [done|done|by rewrite Hd1|done|done| |apply Hr|apply Hr].
      intros b w Hw. cbn in Hw. apply lookup_delete_Some in Hw as [_ Hw]. by apply (dr_sub _ _ _ Hr _ w). }
    rewrite (map_rep_size _ _ _ Hx). rewrite Z.gtb_ltb. destruct (Z.ltb_spec 0 (Z.of_nat (base.size (aexp A)))).
    - destruct (dictDelete_map (seed C) (dexpires db) (aexp A) k Hx) as (d' & Hd & Hx').
      apply wp_bind. eapply on_expires_wp; [done|exact Hd|]. apply wp_skip. split; [by apply Hput|].
      split; [apply put_db_frame|]. split; [done|]. eexists. split; [by eapply put_db_lookup|done].
    - apply wp_skip. assert (aexp A = ∅) as He by (apply map_size_empty_inv; lia).
      assert (A1 = A) as -> by (unfold A1; rewrite He, delete_empty, <- He; by destruct A).
      split; [done|]. split; [apply frame_refl|]. split; [done|]. by exists db. }
  intros _ s1 (Hr1 & F1 & Ho1 & db1 & Hdb1 & Hd1). rewrite (entry_value_spec _ _ _ Hm).
  destruct (dr_lookup _ _ _ Hr1) as (db1' & Hdb1' & Hm1 & Hx1). rewrite Hdb1 in Hdb1'. injection Hdb1' as <-.
  destruct (dictDelete_map (seed C) (ddict db1) (amap A) k Hm1) as (d2 & Hd2 & Hm2).
  apply wp_bind. eapply on_dict_wp; [exact Hdb1|exact Hd2|]. set (s2 := put_db s1 id (set_ddict db1 d2)).
  assert (forall a, spare s2 (adb_delete (kbytes k) A) a = spare s A a + (if decide (amap A !! kbytes k = Some a) then 1 else 0)) as Hsp2.
  { intros a. unfold spare. cbn. rewrite Ho1. destruct (amap A !! kbytes k) as [v|] eqn:Hv.
    - rewrite (vocc_delete a _ v) by done. destruct (decide (a = v)) as [->|]; [rewrite decide_True by done; lia|].
      rewrite decide_False by congruence. lia.
    - rewrite delete_id by done. rewrite decide_False by done. lia. }
  assert (db_rep s2 id (adb_delete (kbytes k) A)) as Hr2.
  { eapply (put_db_rep s1 id A1); [done|done|done|done|done| | |].
    - cbn [adb_delete aexp amap]. intros b w Hw. apply lookup_delete_Some in Hw as [Hne Hw]. rewrite lookup_delete_ne by done.
      by apply (dr_sub _ _ _ Hr _ w).
    - cbn [adb_delete amap]. intros b a Ha. apply lookup_delete_Some in Ha as [_ Ha]. rewrite Ho1. by apply (dr_val _ _ _ Hr b).
    - intros a. change (0 <= spare s2 (adb_delete (kbytes k) A) a). rewrite Hsp2. pose proof (dr_refs _ _ _ Hr a). destruct (decide _); lia. }
  assert (frame s s2 id) as F2 by (eapply frame_trans; [exact F1|apply put_db_frame]).
  destruct (amap A !! kbytes k) as [v|] eqn:Hv.
  - rewrite bool_decide_true by done. apply wp_bind. eapply (free_value_wp s2 id (adb_delete (kbytes k) A) v); [done| | |].
    + rewrite Hsp2, decide_True by done. pose proof (dr_refs _ _ _ Hr v). lia.
    + unfold s2. cbn. rewrite Ho1. by apply (dr_val _ _ _ Hr (kbytes k)).
    + intros s3 Hr3 F3 Hsp3. wp_step. rewrite bool_decide_true in HQ by done. apply HQ. split; [done|].
      split; [by eapply frame_trans|]. intros a. rewrite Hsp3, Hsp2.
      destruct (decide (a = v)) as [->|]; [rewrite decide_True by done; lia|rewrite decide_False by congruence; lia].
  - rewrite bool_decide_false by (intros [? ?]; done). wp_step.
    rewrite bool_decide_false in HQ by (intros [? ?]; done). apply HQ. split; [done|]. split; [done|].
    intros a. rewrite Hsp2, decide_False by done. lia.
Qed.

(** ** Expiry *)

Lemma objects_id s : set_objects (fun _ => objects s) s = s.
Proof. by destruct s. Qed.

(** References taken by [propagateExpire] and given back. *)
Lemma propagateExpire_wp s A id key b (Q : unit -> state -> Prop) :
  ready s A id key b -> Q tt s -> wp (propagateExpire C key) Q s.
Proof.
  intros [(ok & Hok & _) Hs _ _ Hd Hroom] HQ. unfold propagateExpire.
  destruct (spare_live _ _ _ Hd) as [od Hod]. pose proof (Hroom key) as Rk. pose proof (Hroom (del (shared C))) as Rd.
  unfold spare in Hs, Hd. pose proof (vocc_nonneg key (amap A)). pose proof (vocc_nonneg (del (shared C)) (amap A)).
  rewrite (count_Some _ _ _ Hok) in Hs, Rk. rewrite (count_Some _ _ _ Hod) in Hd, Rd.
  destruct (incr_decr (objects s) (del (shared C)) od Hod ltac:(lia)) as [I1 D1]. set (h1 := <[_ := _]> (objects s)) in *.
  assert (exists ok1, h1 !! key = Some ok1 /\ 0 < refcount ok1 < 2 ^ 31 - 1) as (ok1 & Hk1 & Rk1).
  { unfold h1. destruct (decide (key = del (shared C))) as [->|Hne].
    - eexists. split; [apply lookup_insert_eq|]. cbn. lia.
    - exists ok. split; [by rewrite lookup_insert_ne|lia]. }
  destruct (incr_decr h1 key ok1 Hk1 Rk1) as [I2 D2]. set (h2 := <[_ := _]> h1) in *.
  apply wp_bind. eapply on_heap_wp; [exact I1|]. apply wp_bind. eapply on_heap_wp; [exact I2|].
  destruct (decide (key = del (shared C))) as [E|Hne].
  - rewrite E in *. apply wp_bind. eapply on_heap_wp; [exact D2|]. eapply on_heap_wp; [exact D1|]. by rewrite <- (objects_id s) in HQ.
  - assert (decrRefCount h2 (del (shared C)) = Some (<[key := set_refcount ok1 (refcount ok1 + 1)]> (objects s))) as D3.
    { unfold h2, h1. rewrite insert_insert_ne by congruence. apply taken_back. left. exists od.
      rewrite lookup_insert_ne by congruence. split; [done|]. split; [done|lia]. }
    assert (ok1 = ok) as -> by (unfold h1 in Hk1; rewrite lookup_insert_ne in Hk1 by congruence; congruence).
    apply wp_bind. eapply on_heap_wp; [exact D3|]. eapply on_heap_wp.
    { cbn. apply taken_back. left. exists ok. split; [done|]. split; [done|lia]. }
    by rewrite <- (objects_id s) in HQ.
Qed.

(** The time of expiry, minus one when there is none. *)
Definition when_of {V} (A : adb_of V) b : Z := default (-1) (aexp A !! b).

Definition adb_ctr {V} (f : keyspace -> keyspace) (A : adb_of V) : adb_of V := ADb (amap A) (aexp A) (f (actr A)).

(** The specification of [expireIfNeeded]. *)
Definition ref_expire {V} id b (A : adb_of V) : adb_of V * bool :=
  if (when_of A b <? 0) || loading C then (A, false)
  else
    let now := if lua_caller C then lua_time_start C else clock C (ticks (actr A)) in
    let A := if lua_caller C then A else adb_ctr tick A in
    if masterhost C then (A, now >? when_of A b)
    else if now <=? when_of A b then (A, false)
    else (adb_delete b (adb_ctr (fun k => add_published (notes NOTIFY_EXPIRED (str "expired") b id) (add_expired k)) A), true).

Lemma set_ks_comp s f g : set_ks g (set_ks f s) = set_ks (fun k => g (f k)) s.
Proof. done. Qed.

Lemma ref_expire_map id b A :
  forall c w, amap (ref_expire id b A).1 !! c = Some w -> amap A !! c = Some w.
Proof.
  intros c w. unfold ref_expire, adb_ctr. destruct (_ || _); [done|]. destruct (masterhost C); [by destruct (lua_caller C)|].
  destruct (_ <=? _); [by destruct (lua_caller C)|]. cbn. intros [_ H]%lookup_delete_Some. by destruct (lua_caller C).
Qed.

Lemma expireIfNeeded_wp s id A key b (Q : bool -> state -> Prop) :
  db_rep s id A -> ready s A id key b ->
  (forall s', step s s' id A (ref_expire id b A).1 -> Q (ref_expire id b A).2 s') ->
  wp (expireIfNeeded C id key) Q s.
Proof.
  intros Hr Hk HQ. unfold expireIfNeeded, ref_expire in *. apply wp_bind. eapply getExpire_wp; [done|apply Hk|].
  fold (when_of A b). intros s1 Hs1 _. destruct (Z.ltb_spec (when_of A b) 0) as [Hw|Hw]; cbn [orb] in HQ; [wp_step; by apply HQ|].
  destruct (loading C); [wp_step; by apply HQ|]. apply wp_bind.
  set (A2 := if lua_caller C then A else adb_ctr tick A) in *.
  set (now := if lua_caller C then lua_time_start C else clock C (ticks (actr A))) in *.
  eapply (wp_mono _ (fun r s2 => r = now /\ step s s2 id A A2)).
  { subst now A2. destruct (lua_caller C); [wp_step; done|]. unfold mstime. wp_step. wp_step. wp_step. split.
    - by rewrite <- (dr_ctr _ _ _ (proj1 Hs1)).
    - eapply step_trans; [exact Hs1|]. by apply ctr_step; [| |apply Hs1]. }
  intros r s2 [-> Hs2]. assert (when_of A2 b = when_of A b) as Ewhen by (subst A2; by destruct (lua_caller C)).
  rewrite Ewhen in HQ. destruct (masterhost C); [wp_step; by apply HQ|].
  destruct (now <=? when_of A b); [wp_step; by apply HQ|]. wp_step.
  pose proof (ctr_step s2 id A2 add_expired (fun _ => eq_refl) (fun _ => eq_refl) (proj1 Hs2)) as Hs3.
  set (s3 := set_ks add_expired s2) in *. pose proof (step_ready _ _ _ _ _ _ _ _ (step_trans _ _ _ _ _ _ _ Hs2 Hs3) Hk) as Hk3.
  apply wp_bind. eapply propagateExpire_wp; [exact Hk3|]. apply wp_bind.
  apply (notify_wp s3 id NOTIFY_EXPIRED (str "expired") key b); [apply Hk3|apply Hk3|by cbn; lia|apply Hk3|].
  set (l := notes NOTIFY_EXPIRED (str "expired") b id) in *.
  pose proof (ctr_step s3 id _ (add_published l) (fun _ => eq_refl) (fun _ => eq_refl) (proj1 Hs3)) as Hs4.
  eapply dbDelete_wp; [apply Hs4|apply (step_ready _ _ _ _ _ id key b Hs4 Hk3)|]. intros s5 Hs5.
  cbn [amap adb_ctr]. assert (is_Some (amap A2 !! b)) as Hin.
  { unfold when_of in Hw. destruct (aexp A !! b) as [w|] eqn:Hx; [|cbn in Hw; lia].
    subst A2. destruct (lua_caller C); cbn; by apply (dr_sub _ _ _ Hr _ w). }
  rewrite bool_decide_true by done. apply HQ.
  eapply step_trans; [exact Hs2|]. eapply step_trans; [exact Hs3|]. eapply step_trans; [exact Hs4|]. exact Hs5.
Qed.

(** ** Lookups *)

Lemma touch_wp s id A val (Q : unit -> state -> Prop) t :
  db_rep s id A -> (exists b, amap A !! b = Some val) ->
  (forall s', step s s' id A A -> Q tt s') ->
  wp (on_heap (fun h => o ← h !! val; Some (<[val := set_lru o t]> h))) Q s.
Proof.
  intros Hr [b Hb] HQ. destruct (dr_val _ _ _ Hr b val Hb) as (o & Ho & _).
  assert (forall a, count (<[val := set_lru o t]> (objects s)) a = count (objects s) a) as Hc.
  { intros a. rewrite count_insert. destruct (decide (a = val)) as [->|]; [by rewrite (count_Some _ _ _ Ho)|done]. }
  assert (heap_sub (objects s) (<[val := set_lru o t]> (objects s))) as Hh by (by eapply sub_insert).
  eapply on_heap_wp; [rewrite Ho; cbn [mbind option_bind]; done|]. apply HQ. split; [|split].
  - apply heap_rep; [done|done|]. intros a. rewrite Hc. pose proof (dr_refs _ _ _ Hr a) as Ha. unfold spare in Ha. lia.
  - constructor; try done. intros a. cbn. rewrite Hc. lia.
  - intros a. unfold spare. cbn. by rewrite Hc.
Qed.

Lemma lookupKey_wp s id A key b fl (Q : option addr -> state -> Prop) :
  db_rep s id A -> key_is s key b -> (forall s', step s s' id A A -> Q (amap A !! b) s') -> wp (lookupKey C id key fl) Q s.
Proof.
  intros Hr Hk HQ. unfold lookupKey. apply wp_bind. eapply key_ptr_wp; [done|]. intros k <-. apply wp_bind.
  eapply (find_wp s id A k); [done|]. intros r s1 db1 Hs1 _ Hdb1 _ Hres. destruct r as [a|].
  - destruct Hres as (v & Hv & Hp & _). rewrite Hv in HQ. apply wp_bind. eapply get_db_wp; [done|].
    apply wp_bind. eapply wp_lift; [exact Hp|]. apply wp_bind.
    apply (wp_mono _ (fun _ s2 => step s1 s2 id A A)).
    + destruct (_ && _); [|apply wp_skip, step_refl, Hs1]. eapply touch_wp; [apply Hs1|by exists (kbytes k)|done].
    + intros _ s2 Hs2. wp_step. apply HQ. by eapply step_trans.
  - rewrite Hres in HQ. wp_step. by apply HQ.
Qed.

Lemma reading_frame s s' id : frame s s' id -> reading_command (cl s') = reading_command (cl s).
Proof. intros [-> _ _ _ _ _]. done. Qed.

(** The specification of the lookups. *)
Definition ref_lookup_read {V} (reading : bool) id b (A : adb_of V) : adb_of V * option V :=
  let '(A, expired) := ref_expire id b A in
  if expired && (negb (masterhost C) || reading) then (A, None)
  else (adb_ctr (match amap A !! b with None => add_miss | Some _ => add_hit end) A, amap A !! b).

Definition ref_lookup_write {V} id b (A : adb_of V) : adb_of V * option V :=
  let '(A, _) := ref_expire id b A in (A, amap A !! b).

Lemma lookupKeyReadWithFlags_wp s id A key b fl (Q : option addr -> state -> Prop) :
  db_rep s id A -> ready s A id key b ->
  (forall s', step s s' id A (ref_lookup_read (reading_command (cl s)) id b A).1 ->
     Q (ref_lookup_read (reading_command (cl s)) id b A).2 s') ->
  wp (lookupKeyReadWithFlags C id key fl) Q s.
Proof.
  intros Hr Hk HQ. unfold lookupKeyReadWithFlags, ref_lookup_read in *. apply wp_bind.
  eapply expireIfNeeded_wp; [done|done|]. intros s1 Hs1. destruct (ref_expire id b A) as [A1 e] eqn:Hre. cbn [fst snd] in Hs1 |- *.
  wp_step. rewrite (reading_frame _ _ _ (proj1 (proj2 Hs1))). destruct (e && _); [wp_step; by apply HQ|].
  apply wp_bind. eapply lookupKey_wp; [apply Hs1|apply (step_ready _ _ _ _ _ id key b Hs1 Hk)|]. intros s2 Hs2.
  cbn [fst snd] in HQ. destruct (amap A1 !! b) as [v|]; wp_step; wp_step; apply HQ;
    (eapply step_trans; [exact Hs1|]; eapply step_trans; [exact Hs2|]; by apply ctr_step; [| |apply Hs2]).
Qed.

Lemma lookupKeyWrite_wp s id A key b (Q : option addr -> state -> Prop) :
  db_rep s id A -> ready s A id key b ->
  (forall s', step s s' id A (ref_lookup_write id b A).1 -> Q (ref_lookup_write id b A).2 s') ->
  wp (lookupKeyWrite C id key) Q s.
Proof.
  intros Hr Hk HQ. unfold lookupKeyWrite, ref_lookup_write in *. apply wp_bind.
  eapply expireIfNeeded_wp; [done|done|]. intros s1 Hs1. destruct (ref_expire id b A) as [A1 e] eqn:Hre. cbn [fst snd] in *.
  eapply lookupKey_wp; [apply Hs1|apply (step_ready _ _ _ _ _ id key b Hs1 Hk)|]. intros s2 Hs2. apply HQ. by eapply step_trans.
Qed.

(** ** Writing *)

Lemma removeExpire_wp s id A key b (Q : bool -> state -> Prop) :
  db_rep s id A -> key_is s key b -> is_Some (amap A !! b) ->
  (forall s', step s s' id A (ADb (amap A) (delete b (aexp A)) (actr A)) -> Q (bool_decide (is_Some (aexp A !! b))) s') ->
  wp (removeExpire C id key) Q s.
Proof.
  intros Hr Hk [v Hv] HQ. unfold removeExpire. apply wp_bind. eapply key_ptr_wp; [done|]. intros k <-. apply wp_bind.
  eapply (find_wp s id A k); [done|]. intros r s1 db1 Hs1 Ho1 Hdb1 _ Hres. destruct r as [a|]; [|congruence].
  apply wp_bind. apply wp_check; [done|].
  destruct (dr_lookup _ _ _ (proj1 Hs1)) as (db & Hdb & Hm & Hx). rewrite Hdb1 in Hdb. injection Hdb as <-.
  destruct (dictDelete_map (seed C) (dexpires db1) (aexp A) k Hx) as (d' & Hd & Hx').
  eapply on_expires_wp; [exact Hdb1|exact Hd|]. apply HQ. eapply step_trans; [exact Hs1|].
  split; [|split; [apply put_db_frame|done]].
  eapply (put_db_rep s1 id A); [apply Hs1|done|done|done|done| |apply Hs1|apply Hs1].
  cbn. intros b' w Hw. apply lookup_delete_Some in Hw as [_ Hw]. by apply (dr_sub _ _ _ Hr _ w).
Qed.

Lemma setExpire_wp s id A key b when (Q : unit -> state -> Prop) :
  db_rep s id A -> key_is s key b -> is_Some (amap A !! b) -> Z.of_nat (base.size (aexp A)) < DICT_LIMIT ->
  (forall s', step s s' id A (ADb (amap A) (<[b := when]> (aexp A)) (actr A)) -> Q tt s') ->
  wp (setExpire C id key when) Q s.
Proof.
  intros Hr Hk [v Hv] Hlim HQ. unfold setExpire. apply wp_bind. eapply key_ptr_wp; [done|]. intros k <-. apply wp_bind.
  eapply (find_wp s id A k); [done|]. intros r s1 db1 Hs1 Ho1 Hdb1 _ Hres. destruct r as [a|]; [|congruence].
  destruct Hres as (v' & _ & _ & k' & Hk' & Ek). apply wp_bind. eapply wp_lift; [done|].
  apply wp_bind. eapply get_db_wp; [done|]. apply wp_bind. eapply wp_lift; [exact Hk'|].
  destruct (dr_lookup _ _ _ (proj1 Hs1)) as (db & Hdb & Hm & Hx). rewrite Hdb1 in Hdb. injection Hdb as <-.
  destruct (dictReplaceRaw_map (seed C) 0 (dict_can_resize C) (alloc_entry C (eaddr <$> dict_entries (dexpires db1)))
    (dexpires db1) (aexp A) k' when Hx Hlim (alloc_entry_fresh _)) as (d1 & a' & d2 & Hraw & Hset & Hx2).
  apply wp_bind. eapply on_expires_wp; [exact Hdb1|exact Hraw|]. apply wp_bind. eapply wp_lift; [done|].
  eapply on_expires_wp; [by eapply put_db_lookup|exact (f_equal (fun o => d ← o; Some (d, tt)) Hset)|]. apply HQ. eapply step_trans; [exact Hs1|].
  rewrite Ek in Hx2. set (db2 := set_dexpires (set_dexpires db1 d1) d2).
  assert (put_db (put_db s1 id (set_dexpires db1 d1)) id db2 = put_db s1 id db2) as ->.
  { unfold put_db, set_ks. cbn. f_equal. unfold with_dbs. cbn. f_equal. by rewrite list_insert_insert_eq. }
  split; [|split; [apply put_db_frame|done]].
  eapply (put_db_rep s1 id A); [apply Hs1|done|done|done|done| |apply Hs1|apply Hs1].
  cbn. intros b' w Hw. apply lookup_insert_Some in Hw as [[<- _]|[_ Hw]]; [by exists v|by apply (dr_sub _ _ _ Hr _ w)].
Qed.

(** A value that can be stored: held by the caller, and not a list. *)
Record storable s A val : Prop := Storable {
  sv_obj : exists o, objects s !! val = Some o /\ freeable o = true /\ otype o <> OBJ_LIST;
  sv_spare : 0 < spare s A val
}.

Lemma step_storable s s' id A A' val : step s s' id A A' -> storable s A val -> storable s' A' val.
Proof.
  intros (R & F & S) [(o & Ho & Hf & Ht) Hs]. constructor; [|by rewrite S].
  destruct (spare_live s' A' val) as [o' Ho']; [by rewrite S|]. destruct (fr_heap _ _ _ F _ _ Ho') as (o1 & H1 & Hv).
  rewrite Ho in H1. injection H1 as <-. exists o'. split; [done|]. rewrite (freeable_same _ _ Hv).
  destruct Hv as (E & _). by rewrite E.
Qed.

(** The map has the value, whose reference is still to be taken. *)
Definition lent s s' id A A' val : Prop :=
  db_rep s' id A' /\ frame s s' id /\ forall a, spare s' A' a = spare s A a - (if decide (a = val) then 1 else 0).

Definition adb_put {V} b (val : V) (A : adb_of V) : adb_of V := ADb (<[b := val]> (amap A)) (aexp A) (actr A).

Lemma dbAdd_wp s id A key b val (Q : unit -> state -> Prop) :
  db_rep s id A -> key_is s key b -> amap A !! b = None -> storable s A val -> Z.of_nat (base.size (amap A)) < DICT_LIMIT ->
  (forall s', lent s s' id A (adb_put b val A) val -> Q tt s') ->
  wp (dbAdd C id key val) Q s.
Proof.
  intros Hr Hk Hb [(o & Ho & Hf & Hl) Hs] Hlim HQ. unfold dbAdd. apply wp_bind. eapply key_ptr_wp; [done|]. intros k <-.
  destruct (dr_lookup _ _ _ Hr) as (db & Hdb & Hm & Hx). apply wp_bind. eapply get_db_wp; [done|].
  destruct (dictAdd_map (seed C) 0 (dict_can_resize C) (alloc_entry C (eaddr <$> dict_entries (ddict db)))
    (ddict db) (amap A) k val Hm Hlim (alloc_entry_fresh _) Hb) as (d1 & Hadd & Hm1).
  apply wp_bind. eapply on_dict_wp; [exact Hdb|exact Hadd|]. apply wp_bind. apply wp_check; [done|].
  unfold get_object. apply wp_bind. wp_step. eapply wp_lift; [exact Ho|].
  rewrite (proj2 (Z.eqb_neq _ _) Hl). apply wp_skip. set (s1 := put_db s id (set_ddict db d1)).
  assert (forall a, spare s1 (adb_put (kbytes k) val A) a = spare s A a - (if decide (a = val) then 1 else 0)) as Hsp.
  { intros a. unfold spare. cbn. rewrite vocc_insert by done. lia. }
  apply HQ. split; [|split; [apply put_db_frame|done]].
  eapply (put_db_rep s id A); [done|done|done|done|done| | |].
  - cbn. intros b w Hw. destruct (dr_sub _ _ _ Hr _ _ Hw) as [v Hv]. rewrite lookup_insert_ne by congruence. by exists v.
  - cbn. intros b a Ha. apply lookup_insert_Some in Ha as [[_ <-]|[_ Ha]]; [by exists o|by apply (dr_val _ _ _ Hr b)].
  - intros a. change (0 <= spare s1 (adb_put (kbytes k) val A) a). rewrite Hsp. pose proof (dr_refs _ _ _ Hr a).
    destruct (decide (a = val)) as [->|]; lia.
Qed.

Lemma dbOverwrite_wp s id A key b old val (Q : unit -> state -> Prop) :
  db_rep s id A -> key_is s key b -> amap A !! b = Some old -> storable s A val -> Z.of_nat (base.size (amap A)) < DICT_LIMIT ->
  (forall s', lent s s' id A (adb_put b val A) val -> Q tt s') ->
  wp (dbOverwrite C id key val) Q s.
Proof.
  intros Hr Hk Hb Hsv Hlim HQ. unfold dbOverwrite. apply wp_bind. eapply key_ptr_wp; [done|]. intros k <-. apply wp_bind.
  eapply (find_wp s id A k); [done|]. intros r s1 db1 Hs1 Ho1 Hdb1 _ Hres. destruct r as [a|]; [|congruence].
  apply wp_bind. apply wp_check; [done|]. apply wp_bind. eapply get_db_wp; [done|].
  destruct (dr_lookup _ _ _ (proj1 Hs1)) as (db & Hdb & Hm & Hx). rewrite Hdb1 in Hdb. injection Hdb as <-.
  rewrite (entry_value_spec _ _ _ Hm), Hb.
  destruct (dictReplace_map (seed C) 0 (dict_can_resize C) (alloc_entry C (eaddr <$> dict_entries (ddict db1)))
    (ddict db1) (amap A) k val old Hm Hlim (alloc_entry_fresh _) Hb) as (d2 & Hrep & Hm2).
  apply wp_bind. eapply on_dict_wp; [exact Hdb1|exact Hrep|]. set (s2 := put_db s1 id (set_ddict db1 d2)).
  pose proof (step_storable _ _ _ _ _ _ Hs1 Hsv) as [(o & Ho & Hf & _) Hs].
  set (A2 := adb_put (kbytes k) val A).
  assert (forall a, spare s2 A2 a = spare s A a - (if decide (a = val) then 1 else 0) + (if decide (a = old) then 1 else 0)) as Hsp.
  { intros c. rewrite <- (proj2 (proj2 Hs1) c). unfold spare. cbn. rewrite (vocc_replace c _ _ old) by done. lia. }
  assert (db_rep s2 id A2) as Hr2.
  { eapply (put_db_rep s1 id A); [apply Hs1|done|done|done|done| | |].
    - cbn. intros b w Hw. destruct (dr_sub _ _ _ Hr _ _ Hw) as [v Hv]. destruct (decide (b = kbytes k)) as [->|].
      + rewrite lookup_insert_eq. by exists val.
      + rewrite lookup_insert_ne by done. by exists v.
    - cbn. intros b a' Ha. apply lookup_insert_Some in Ha as [[_ <-]|[_ Ha]]; [by exists o|].
      by apply (dr_val _ _ _ (proj1 Hs1) b).
    - intros a'. change (0 <= spare s2 A2 a'). rewrite Hsp. pose proof (dr_refs _ _ _ Hr a').
      pose proof (sv_spare _ _ _ Hsv). destruct (decide (a' = val)) as [->|], (decide _); lia. }
  assert (frame s s2 id) as F2 by (eapply frame_trans; [apply Hs1|apply put_db_frame]).
  eapply (free_value_wp s2 id A2 old); [done| | |].
  - rewrite Hsp, (decide_True (P := old = old)) by done. pose proof (dr_refs _ _ _ Hr old). pose proof (sv_spare _ _ _ Hsv).
    destruct (decide (old = val)) as [->|]; lia.
  - by apply (dr_val _ _ _ (proj1 Hs1) (kbytes k)).
  - intros s3 Hr3 F3 Hsp3. apply HQ. split; [done|]. split; [by eapply frame_trans|].
    intros a'. rewrite Hsp3, Hsp. destruct (decide (a' = old)); lia.
Qed.

(** What storing a value does: the map and the references. *)
Record stored s s' id A A' val : Prop := Stored {
  st_rep : db_rep s' id A';
  st_cl : cl s' = cl s;
  st_pending : clients_pending_write s' = clients_pending_write s;
  st_to_close : clients_to_close s' = clients_to_close s;
  st_dbs : forall j, j <> id -> dbs (ks s') !! j = dbs (ks s) !! j;
  st_heap : heap_sub (objects s) (objects s');
  st_spare : forall a, spare s' A' a = spare s A a;
  st_count : forall a, count (objects s') a <= count (objects s) a + (if decide (a = val) then 1 else 0);
  st_srv : srv s' = srv s
}.

Lemma stored_step s1 s2 s3 id A1 A2 A3 val : stored s1 s2 id A1 A2 val -> step s2 s3 id A2 A3 -> stored s1 s3 id A1 A3 val.
Proof.
  intros [B1 B2 B3 B4 B5 B6 B7 B8 B9] (R & [F1 F2 F3 F4 F5 F6 F7] & S). constructor; try congruence.
  - intros j Hj. by rewrite F4, B5.
  - by eapply heap_sub_trans.
  - intros a. specialize (F6 a). specialize (B8 a). lia.
Qed.

Definition ref_set_key {V} id b (val : V) (A : adb_of V) : adb_of V :=
  let A := (ref_expire id b A).1 in ADb (<[b := val]> (amap A)) (delete b (aexp A)) (actr A).

Lemma map_size_sub {V} (m1 m2 : gmap bytes V) : (forall c w, m1 !! c = Some w -> m2 !! c = Some w) -> (base.size m1 <= base.size m2)%nat.
Proof. intros H. apply map_subseteq_size. apply map_subseteq_spec. exact H. Qed.

Lemma setKey_wp s id A key b val (Q : unit -> state -> Prop) :
  db_rep s id A -> ready s A id key b -> storable s A val -> Z.of_nat (base.size (amap A)) < DICT_LIMIT ->
  (forall s', stored s s' id A (ref_set_key id b val A) val -> Q tt s') ->
  wp (setKey C id key val) Q s.
Proof.
  intros Hr Hk Hsv Hlim HQ. unfold setKey, ref_set_key in *. apply wp_bind. eapply lookupKeyWrite_wp; [done|done|].
  intros s1 Hs1. unfold ref_lookup_write in *. pose proof (ref_expire_map id b A) as Hsub.
  destruct (ref_expire id b A) as [A1 e]. cbn [fst snd] in *.
  pose proof (step_ready _ _ _ _ _ id key b Hs1 Hk) as Hk1. pose proof (step_storable _ _ _ _ _ _ Hs1 Hsv) as Hsv1.
  assert (Z.of_nat (base.size (amap A1)) < DICT_LIMIT) as Hlim1 by (pose proof (map_size_sub _ _ Hsub); lia).
  apply wp_bind. apply (wp_mono _ (fun _ s2 => lent s1 s2 id A1 (adb_put b val A1) val)).
  { destruct (amap A1 !! b) as [old|] eqn:Hb.
    - eapply dbOverwrite_wp; [apply Hs1|apply Hk1|exact Hb|done|done|done].
    - eapply dbAdd_wp; [apply Hs1|apply Hk1|exact Hb|done|done|done]. }
  intros _ s2 (Hr2 & F2 & Hsp2). pose proof Hsv1 as [_ Hs].
  assert (0 < count (objects s2) val) as Hcv.
  { pose proof (dr_refs _ _ _ Hr2 val) as Hd. unfold spare in Hd. cbn in Hd.
    pose proof (vocc_pos val b (<[b := val]> (amap A1)) (lookup_insert_eq _ _ _)). lia. }
  destruct (count_live _ _ Hcv) as [ov Hov]. rewrite (count_Some _ _ _ Hov) in Hcv.
  assert (refcount ov < 2 ^ 31 - 8) as Hrv.
  { pose proof (fr_count _ _ _ F2 val) as Hc. pose proof (rd_room _ _ _ _ _ Hk1 val). rewrite (count_Some _ _ _ Hov) in Hc. lia. }
  destruct (incr_ok (objects s2) val ov Hov) as (h & Hincr & Hh & Hch); [lia|].
  apply wp_bind. eapply on_heap_wp; [exact Hincr|]. set (s3 := set_objects (fun _ => h) s2).
  assert (db_rep s3 id (adb_put b val A1)) as Hr3.
  { apply heap_rep; [done|done|]. intros a. rewrite Hch. pose proof (dr_refs _ _ _ Hr2 a) as Hd. unfold spare in Hd.
    destruct (decide (a = val)); lia. }
  assert (stored s s3 id A (adb_put b val A1) val) as Hst.
  { destruct Hs1 as (_ & F1 & Sp1). pose proof (frame_trans _ _ _ _ F1 F2) as [B1 B2 B3 B4 B5 B6 B7].
    constructor; [done|done|done|done|done| | | |done].
    - by eapply heap_sub_trans.
    - intros a. rewrite <- Sp1. specialize (Hsp2 a). unfold spare in *. cbn in *. rewrite Hch. lia.
    - intros a. cbn. rewrite Hch. specialize (B6 a). lia. }
  apply wp_bind. eapply (removeExpire_wp s3 id (adb_put b val A1) key b); [done| |cbn; rewrite lookup_insert_eq; by exists val|].
  - eapply (key_sub s); [apply Hst|apply Hk|]. apply (spare_live s3 (adb_put b val A1)). rewrite (st_spare _ _ _ _ _ _ Hst). apply Hk.
  - intros s4 Hs4. apply wp_skip. apply HQ. by eapply stored_step.
Qed.

End Spec.
End DbSpec.
