(* ===== verification/DbRun.v ===== *)
(** * Runs of the key space

    The functions of [Db] composed the way the commands compose them, any
    number of them one after the other: the results and the database are
    those of the reference map, the other databases and the client are left
    alone, and no reference is lost. *)

From S2P Require Import Prelude Monad Util Sds SdsText Dict DictTypes DictSpec DictMap Object ObjectSpec State Db HeapSpec DbSpec.
Import Monad Util Sds SdsText Dict DictTypes DictSpec DictMap Object ObjectSpec State Db HeapSpec DbSpec.

Module DbRun.

(** What commands do with a key: [SET] with or without a time, [DEL], [GET],
    and the lookup of a command that is about to write. *)
Inductive key_op :=
| KSet (key val : addr) (when : option Z)
| KDel (key : addr)
| KGet (key : addr)
| KLookup (key : addr).

Inductive key_res := KUnit | KBool (b : bool) | KVal (v : option addr).

Definition op_key (o : key_op) : addr :=
  match o with KSet key _ _ => key | KDel key => key | KGet key => key | KLookup key => key end.

Definition op_val (o : key_op) : option addr := match o with KSet _ val _ => Some val | _ => None end.

Section Run.
Context {P : Type} (C : config).

Abbreviation state := (state P).
Abbreviation M := (M state).

Definition run_key_op (id : nat) (o : key_op) : M key_res :=
  match o with
  | KSet key val when =>
    _ ← setKey C id key val;
    _ ← (match when with Some w => setExpire C id key w | None => skip end);
    mret KUnit
  | KDel key =>
    _ ← expireIfNeeded C id key;
    d ← dbDelete C id key;
    mret (KBool d)
  | KGet key => v ← lookupKeyRead C id key; mret (KVal v)
  | KLookup key => v ← lookupKeyWrite C id key; mret (KVal v)
  end.

Fixpoint run_key_ops (id : nat) (ops : list key_op) : M (list key_res) :=
  match ops with
  | [] => mret []
  | o :: ops => r ← run_key_op id o; rs ← run_key_ops id ops; mret (r :: rs)
  end.

(** The reference: a map from names to objects, and one to times. *)
Context (name_of : addr -> bytes) (reading : bool).

Definition ref_key_op (id : nat) (o : key_op) (A : adb) : adb * key_res :=
  let b := name_of (op_key o) in
  match o with
  | KSet _ val when =>
    let A := ref_set_key C id b val A in
    (match when with Some w => ADb (amap A) (<[b := w]> (aexp A)) (actr A) | None => A end, KUnit)
  | KDel _ =>
    let A := (ref_expire C id b A).1 in (adb_delete b A, KBool (bool_decide (is_Some (amap A !! b))))
  | KGet _ => let '(A, v) := ref_lookup_read C reading id b A in (A, KVal v)
  | KLookup _ => let '(A, v) := ref_lookup_write C id b A in (A, KVal v)
  end.

Fixpoint ref_key_ops (id : nat) (ops : list key_op) (A : adb) : adb * list key_res :=
  match ops with
  | [] => (A, [])
  | o :: ops =>
    let '(A, r) := ref_key_op id o A in
    let '(A, rs) := ref_key_ops id ops A in (A, r :: rs)
  end.

End Run.

Section Spec.
Context {P : Type} (C : config).
Context {HC : sound_config C}.
Context (name_of : addr -> bytes).

Abbreviation state := (state P).
Implicit Types (s : state) (A : adb) (id : nat) (key val a : addr) (n : nat).

(** What a run of [n] operations asks for: the caller holds the keys and the
    values, and there is room for what they add. *)
Record held s A id (keys vals : list addr) n : Prop := Held {
  hd_keys : forall key, key ∈ keys ->
    key_is s key (name_of key) /\ 0 < spare s A key /\ Z.of_nat (length (name_of key)) < 2 ^ 31 - 200;
  hd_vals : forall val, val ∈ vals -> storable s A val;
  hd_id : is_llong (Z.of_nat id);
  hd_del : 0 < spare s A (del (shared C));
  hd_room : forall a, count (objects s) a + Z.of_nat n < 2 ^ 31 - 8;
  hd_size : Z.of_nat (base.size (amap A)) + Z.of_nat n < DICT_LIMIT
}.

Lemma held_ready s A id keys vals n key : held s A id keys vals n -> key ∈ keys -> ready C s A id key (name_of key).
Proof.
  intros [Hk Hv Hid Hd Hroom Hsz] Hin. destruct (Hk key Hin) as (H1 & H2 & H3). constructor; try done.
  intros a. specialize (Hroom a). lia.
Qed.

(** From one state to the next: nothing is lost and at most one reference
    and one key are added. *)
Record moved s s' id A A' : Prop := Moved {
  mv_rep : db_rep C s' id A';
  mv_cl : cl s' = cl s;
  mv_pending : clients_pending_write s' = clients_pending_write s;
  mv_to_close : clients_to_close s' = clients_to_close s;
  mv_dbs : forall j, j <> id -> dbs (ks s') !! j = dbs (ks s) !! j;
  mv_heap : heap_sub (objects s) (objects s');
  mv_spare : forall a, spare s' A' a = spare s A a;
  mv_srv : srv s' = srv s
}.

Lemma moved_same s id A : db_rep C s id A -> moved s s id A A.
Proof. intros H. constructor; try done. apply heap_sub_refl. Qed.

Lemma moved_trans s1 s2 s3 id A1 A2 A3 : moved s1 s2 id A1 A2 -> moved s2 s3 id A2 A3 -> moved s1 s3 id A1 A3.
Proof.
  intros [R1 A4 A5 A6 A7 A8 A9 A10] [R2 B4 B5 B6 B7 B8 B9 B10]. constructor; try congruence.
  - intros j Hj. by rewrite B7, A7.
  - by eapply heap_sub_trans.
Qed.

Lemma step_moved s s' id A A' : step C s s' id A A' -> moved s s' id A A'.
Proof. intros (R & [F1 F2 F3 F4 F5 F6 F7] & Sp). by constructor. Qed.

Lemma stored_moved s s' id A A' val : stored C s s' id A A' val -> moved s s' id A A'.
Proof. intros [B1 B2 B3 B4 B5 B6 B7 B8 B9]. by constructor. Qed.

Lemma moved_held s s' id A A' keys vals n :
  moved s s' id A A' -> held s A id keys vals (S n) ->
  (forall a, count (objects s') a <= count (objects s) a + 1) ->
  (base.size (amap A') <= S (base.size (amap A)))%nat -> held s' A' id keys vals n.
Proof.
  intros Hm [Hk Hv Hid Hd Hroom Hsz] Hc Hs. constructor; [| |done|by rewrite (mv_spare _ _ _ _ _ Hm)| |lia].
  - intros key Hin. destruct (Hk key Hin) as (H1 & H2 & H3). rewrite (mv_spare _ _ _ _ _ Hm). split; [|done].
    eapply key_sub; [apply Hm|done|]. apply (spare_live s' A'). by rewrite (mv_spare _ _ _ _ _ Hm).
  - intros val Hin. destruct (Hv val Hin) as [(o & Ho & Hf & Ht) Hs']. constructor; [|by rewrite (mv_spare _ _ _ _ _ Hm)].
    destruct (spare_live s' A' val) as [o' Ho']; [by rewrite (mv_spare _ _ _ _ _ Hm)|].
    destruct (mv_heap _ _ _ _ _ Hm _ _ Ho') as (o1 & H1 & Hsame). rewrite Ho in H1. injection H1 as <-.
    exists o'. split; [done|]. rewrite (freeable_same _ _ Hsame). destruct Hsame as (E & _). by rewrite E.
  - intros a. specialize (Hroom a). specialize (Hc a). lia.
Qed.

Lemma step_held s s' id A A' keys vals n :
  step C s s' id A A' -> (forall c w, amap A' !! c = Some w -> amap A !! c = Some w) ->
  held s A id keys vals (S n) -> held s' A' id keys vals n.
Proof.
  intros Hs Hsub Hh. eapply moved_held; [by eapply step_moved|exact Hh| |].
  - intros a. destruct Hs as (_ & F & _). pose proof (fr_count _ _ _ F a). lia.
  - pose proof (map_size_sub _ _ Hsub). lia.
Qed.

(** No key has a time without having a value. *)
Lemma expires_le s id A : db_rep C s id A -> (base.size (aexp A) <= base.size (amap A))%nat.
Proof.
  intros Hr. rewrite <- !size_dom. apply subseteq_size. intros b Hb. apply elem_of_dom in Hb as [w Hw].
  apply elem_of_dom. by apply (dr_sub _ _ _ _ Hr b w).
Qed.

Lemma map_size_insert_le {V} (m : gmap bytes V) b v : (base.size (<[b := v]> m) <= S (base.size m))%nat.
Proof.
  destruct (m !! b) as [w|] eqn:Hb; [rewrite (map_size_insert_Some (K := bytes) (M := gmap bytes)) by (by exists w); lia|rewrite map_size_insert_None by done; lia].
Qed.

Lemma ref_set_key_size id b val A : (base.size (amap (ref_set_key C id b val A)) <= S (base.size (amap A)))%nat.
Proof.
  unfold ref_set_key. cbn [amap]. pose proof (map_size_sub _ _ (ref_expire_map C id b A)).
  pose proof (map_size_insert_le (amap (ref_expire C id b A).1) b val). lia.
Qed.

Lemma ref_read_map reading id b A :
  forall c w, amap (ref_lookup_read C reading id b A).1 !! c = Some w -> amap A !! c = Some w.
Proof.
  intros c w H. apply (ref_expire_map C id b A). unfold ref_lookup_read in H.
  destruct (ref_expire C id b A) as [A1 e]. cbn [fst]. by destruct (e && _).
Qed.

Lemma ref_write_map id b A :
  forall c w, amap (ref_lookup_write C id b A).1 !! c = Some w -> amap A !! c = Some w.
Proof.
  intros c w H. apply (ref_expire_map C id b A). unfold ref_lookup_write in H. by destruct (ref_expire C id b A).
Qed.

(** One operation. *)
Lemma run_key_op_wp s id A keys vals n o (Q : key_res -> state -> Prop) :
  db_rep C s id A -> held s A id keys vals (S n) -> op_key o ∈ keys -> (forall val, op_val o = Some val -> val ∈ vals) ->
  (forall s', moved s s' id A (ref_key_op C name_of (reading_command (cl s)) id o A).1 ->
     held s' (ref_key_op C name_of (reading_command (cl s)) id o A).1 id keys vals n ->
     Q (ref_key_op C name_of (reading_command (cl s)) id o A).2 s') ->
  wp (run_key_op C id o) Q s.
Proof.
  intros Hr Hh Hk Hv HQ. pose proof (held_ready _ _ _ _ _ _ _ Hh Hk) as Hready.
  destruct o as [key val when|key|key|key]; cbn [run_key_op ref_key_op op_key op_val] in *.
  - pose proof (hd_size _ _ _ _ _ _ Hh) as Hsz. apply wp_bind.
    eapply (setKey_wp C s id A key _ val); [done|done|by apply (hd_vals _ _ _ _ _ _ Hh), Hv|lia|].
    intros s1 Hs1. pose proof (ref_set_key_size id (name_of key) val A) as Hsz1.
    assert (forall a, count (objects s1) a <= count (objects s) a + 1) as Hc1.
    { intros a. pose proof (st_count _ _ _ _ _ _ _ Hs1 a). destruct (decide _); lia. }
    destruct when as [w|]; apply wp_bind.
    + eapply (setExpire_wp C s1 id (ref_set_key C id (name_of key) val A)); [apply Hs1| | | |].
      * eapply key_sub; [apply Hs1|apply Hready|]. apply (spare_live s1 (ref_set_key C id (name_of key) val A)).
        rewrite (st_spare _ _ _ _ _ _ _ Hs1). apply Hready.
      * exists val. apply lookup_insert_eq.
      * pose proof (expires_le _ _ _ (st_rep _ _ _ _ _ _ _ Hs1)). lia.
      * intros s2 Hs2. wp_step. pose proof (moved_trans _ _ _ _ _ _ _ (stored_moved _ _ _ _ _ _ Hs1) (step_moved _ _ _ _ _ Hs2)) as Hm.
        apply HQ; [exact Hm|]. eapply moved_held; [exact Hm|exact Hh| |exact Hsz1].
        intros a. pose proof (fr_count _ _ _ (proj1 (proj2 Hs2)) a). specialize (Hc1 a). lia.
    + apply wp_skip. wp_step. pose proof (stored_moved _ _ _ _ _ _ Hs1) as Hm.
      apply HQ; [exact Hm|]. by eapply moved_held.
  - apply wp_bind. eapply (expireIfNeeded_wp C s id A); [done|done|]. intros s1 Hs1. apply wp_bind.
    eapply (dbDelete_wp C s1 id (ref_expire C id (name_of key) A).1); [apply Hs1|by eapply step_ready|]. intros s2 Hs2. wp_step.
    pose proof (step_trans _ _ _ _ _ _ _ _ Hs1 Hs2) as Hs. apply HQ; [by apply step_moved|].
    eapply step_held; [exact Hs| |exact Hh]. intros c w Hw. cbn [fst adb_delete amap] in Hw. apply lookup_delete_Some in Hw as [_ Hw]. by apply (ref_expire_map C id (name_of key) A).
  - apply wp_bind. eapply (lookupKeyReadWithFlags_wp C s id A); [done|done|]. intros s1 Hs1. wp_step.
    pose proof (ref_read_map (reading_command (cl s)) id (name_of key) A) as Hsub.
    destruct (ref_lookup_read _ _ _ _ _) as [A1 v]. apply HQ; [by apply step_moved|]. by eapply step_held.
  - apply wp_bind. eapply (lookupKeyWrite_wp C s id A); [done|done|]. intros s1 Hs1. wp_step.
    pose proof (ref_write_map id (name_of key) A) as Hsub.
    destruct (ref_lookup_write _ _ _ _) as [A1 v]. apply HQ; [by apply step_moved|]. by eapply step_held.
Qed.

Lemma run_key_ops_wp keys vals id ops : forall s A (Q : list key_res -> state -> Prop),
  db_rep C s id A -> held s A id keys vals (length ops) ->
  Forall (fun o => op_key o ∈ keys /\ forall val, op_val o = Some val -> val ∈ vals) ops ->
  (forall s', moved s s' id A (ref_key_ops C name_of (reading_command (cl s)) id ops A).1 ->
     Q (ref_key_ops C name_of (reading_command (cl s)) id ops A).2 s') ->
  wp (run_key_ops C id ops) Q s.
Proof.
  induction ops as [|o ops IH]; intros s A Q Hr Hh Hall HQ; cbn [run_key_ops ref_key_ops] in *.
  { wp_step. apply HQ. by apply moved_same. }
  apply Forall_cons in Hall as [[Hk Hv] Hall]. apply wp_bind. eapply (run_key_op_wp s id A); [done|exact Hh|done|done|].
  intros s1 Hm1 Hh1. destruct (ref_key_op _ _ _ _ _ _) as [A1 r]. cbn [fst snd] in *. apply wp_bind.
  apply (IH s1 A1); [apply Hm1|done|done|]. rewrite (mv_cl _ _ _ _ _ Hm1).
  intros s2 Hm2. destruct (ref_key_ops _ _ _ _ _ _) as [A2 rs]. wp_step. apply HQ. by eapply moved_trans.
Qed.

(** C3. The key space is a map with expiry times: any run of sets, deletions
    and lookups returns what the reference map returns and leaves the database
    representing the resulting map, keys whose time is past gone when they are
    looked at; the client and the other databases are untouched, no object
    changes its value, and the references that do not belong to the map are
    exactly those there were. *)
Theorem keyspace_refines_map s id A keys vals ops :
  db_rep C s id A -> held s A id keys vals (length ops) ->
  Forall (fun o => op_key o ∈ keys /\ forall val, op_val o = Some val -> val ∈ vals) ops ->
  exists s' A' rs, run_key_ops C id ops s = Some (s', rs) /\
    ref_key_ops C name_of (reading_command (cl s)) id ops A = (A', rs) /\ moved s s' id A A'.
Proof.
  intros Hr Hh Hall. destruct (run_key_ops_wp keys vals id ops s A
    (fun rs s' => rs = (ref_key_ops C name_of (reading_command (cl s)) id ops A).2 /\
      moved s s' id A (ref_key_ops C name_of (reading_command (cl s)) id ops A).1) Hr Hh Hall) as (s' & rs & E & -> & Hm); [done|].
  set (r := ref_key_ops C name_of (reading_command (cl s)) id ops A) in *.
  exists s', r.1, r.2. split; [exact E|]. split; [apply surjective_pairing|exact Hm].
Qed.

(** C17. Expiry: [expireIfNeeded] answers whether the key has a time that is
    past, the clock standing still while a script runs, and never while
    loading.  On a master the key is then gone from both dictionaries, its
    value released, and the event published; a slave leaves the key to its
    master; in every other case nothing changes. *)
Theorem expireIfNeeded_expires s id A key b :
  db_rep C s id A -> ready C s A id key b ->
  let now := if lua_caller C then lua_time_start C else clock C (ticks (actr A)) in
  exists s' A' r, expireIfNeeded C id key s = Some (s', r) /\ step C s s' id A A' /\
    (r = true <-> loading C = false /\ exists w, aexp A !! b = Some w /\ 0 <= w < now) /\
    (let gone := r && negb (masterhost C) in
     amap A' = (if gone then delete b (amap A) else amap A) /\
     aexp A' = (if gone then delete b (aexp A) else aexp A) /\
     published (actr A') = published (actr A) ++ (if gone then notes C NOTIFY_EXPIRED (str "expired") b id else [])).
Proof.
  intros Hr Hk now. destruct (expireIfNeeded_wp C s id A key b
    (fun r s' => r = (ref_expire C id b A).2 /\ step C s s' id A (ref_expire C id b A).1) Hr Hk) as (s' & r & E & -> & Hs); [done|].
  exists s', (ref_expire C id b A).1, (ref_expire C id b A).2. split; [exact E|]. split; [exact Hs|]. clear E Hs.
  unfold ref_expire, when_of. fold now. set (A2 := if lua_caller C then A else _).
  assert (amap A2 = amap A /\ aexp A2 = aexp A /\ published (actr A2) = published (actr A)) as (Em & Ex & Ep)
    by (subst A2; by destruct (lua_caller C)).
  cbn zeta. rewrite Ex. destruct (loading C).
  { rewrite orb_true_r. cbn. rewrite app_nil_r. split; [|done]. split; [done|intros [? _]; done]. }
  destruct (aexp A !! b) as [w|] eqn:Hw; cbv [default Datatypes.id].
  2:{ cbn. rewrite app_nil_r. split; [|done]. split; [done|intros (_ & w & ? & _); done]. }
  rewrite orb_false_r. destruct (Z.ltb_spec w 0).
  { cbn. rewrite app_nil_r. split; [|done]. split; [done|intros (_ & w' & [= <-] & ?); lia]. }
  destruct (masterhost C).
  { cbn [fst snd negb]. rewrite andb_false_r, app_nil_r, Z.gtb_ltb, Z.ltb_lt. split; [|done].
    split; [intros ?; split; [done|]; exists w; split; [done|lia]|intros (_ & w' & [= <-] & ?); lia]. }
  destruct (Z.leb_spec now w); cbn [fst snd andb negb].
  { rewrite app_nil_r. split; [|done]. split; [done|intros (_ & w' & [= <-] & ?); lia]. }
  cbn. rewrite Em, Ex, Ep. split; [|done]. split; [|done]. intros _. split; [done|]. exists w. split; [done|lia].
Qed.

(** C33. Notifications: for a key the caller holds, the event is published on
    the channels the configuration asks for, under exactly their names, and
    everything allocated on the way is freed again: the rest of the state is
    the same. *)
Theorem notifyKeyspaceEvent_publishes s id type (event : bytes) key b :
  key_is s key b -> is_llong (Z.of_nat id) -> (length event <= 100)%nat -> Z.of_nat (length b) < 2 ^ 31 - 200 ->
  notifyKeyspaceEvent C type event key id s = Some (set_ks (add_published (notes C type event b id)) s, tt).
Proof.
  intros Hk Hid He Hb. destruct (notify_wp C s id type event key b
    (fun _ s' => s' = set_ks (add_published (notes C type event b id)) s) Hk Hid He Hb eq_refl) as (s' & [] & E & ->). exact E.
Qed.

End Spec.

(** ** An example: one database, the name "k" at address 1, the value "v" at
    2 and the shared object of deletions at 3. *)

Definition sample_config : config :=
  Config sample_env (SharedObjects 3 3 3 3 3 3 3 3 [] [] 3 3 3 3) 5381 (fun n => 1000 + Z.of_nat n) (fun n => Z.of_nat n) true
    next_address (fun X => next_address (elements X)) (fun n => Z.max 16 (Z.min n 65536)) 0 false false false 0 (-1) (-1)
    (Z.lor NOTIFY_EXPIRED (Z.lor NOTIFY_KEYSPACE NOTIFY_KEYEVENT)) (replicate 3 (Limits 0 0 0)) false false 0 true true [] 0 (2 ^ 30) 0 0.

Definition sample_string (x : bytes) : robj unit := RObj OBJ_STRING OBJ_ENCODING_RAW 0 1 (PSds (sample_sds x)).

Definition sample_state : state unit :=
  State (<[1 := sample_string (str "k")]> (<[2 := sample_string (str "v")]> (<[3 := sample_string (str "DEL")]> ∅)))
    (Keyspace [RedisDb dictCreate dictCreate [] []] 0 0 0 0 0 [] [])
    (Client 1 5 0 0 0 false 0 None (CInput (sample_sds []) 0 0 (-1) []) (COutput [] [] 0 0 0) (CSocket false 0 0) (CExtra true None [] 0 0 0)) [] [] (ServerVars dictCreate dictCreate 0 0 false [] 0 ∅).

Definition sample_name (a : addr) : bytes := str "k".

Lemma sample_string_obj x : Z.of_nat (length x) < 256 -> str_obj (sample_string x) x.
Proof. intros Hx. split; [done|]. left. split; [done|]. exists (sample_sds x). split; [done|by apply sample_sds_rep]. Qed.

#[local] Instance sample_sound : sound_config sample_config.
Proof.
  constructor; [apply next_address_fresh| |intros n; cbn; lia|done].
  intros X. rewrite <- elem_of_elements. apply next_address_fresh.
Qed.

Lemma sample_state_count a : count (objects sample_state) a = if bool_decide (a ∈ [1; 2; 3]) then 1 else 0.
Proof.
  unfold count, sample_state. cbn [objects]. destruct (decide (a ∈ [1; 2; 3])) as [Hin|Hout].
  - rewrite bool_decide_true by done. repeat (apply elem_of_cons in Hin as [->|Hin]; [by vm_compute|]). by apply elem_of_nil in Hin.
  - rewrite bool_decide_false by done. rewrite !lookup_insert_ne, lookup_empty; [done|intros <-; apply Hout; set_solver..].
Qed.

Lemma sample_key : key_is sample_state 1 (str "k").
Proof. eexists. split; [done|]. split; [by apply sample_string_obj|done]. Qed.

Lemma sample_db A : amap A = ∅ -> aexp A = ∅ -> actr A = ctr (ks sample_state) -> db_rep sample_config sample_state 0 A.
Proof.
  intros Hm Hx Hc. constructor.
  - eexists. split; [done|]. rewrite Hm, Hx. split; apply map_rep_create.
  - by rewrite Hc.
  - intros b w. by rewrite Hx, lookup_empty.
  - intros b a. by rewrite Hm, lookup_empty.
  - intros a. unfold spare. rewrite Hm, vocc_empty, sample_state_count. destruct (bool_decide _); lia.
Qed.

Definition sample_adb : adb := ADb ∅ ∅ (ctr (ks sample_state)).

Lemma sample_spare a : spare sample_state sample_adb a = if bool_decide (a ∈ [1; 2; 3]) then 1 else 0.
Proof. unfold spare. cbn [amap sample_adb]. by rewrite vocc_empty, sample_state_count, Z.sub_0_r. Qed.

Lemma sample_held : held sample_config sample_name sample_state sample_adb 0 [1] [2] 6.
Proof.
  constructor.
  - intros key ->%list_elem_of_singleton. split; [apply sample_key|]. rewrite sample_spare. by vm_compute.
  - intros val ->%list_elem_of_singleton. constructor; [by eexists|]. rewrite sample_spare. by vm_compute.
  - by vm_compute.
  - rewrite sample_spare. by vm_compute.
  - intros a. rewrite sample_state_count. destruct (bool_decide _); lia.
  - by vm_compute.
Qed.

Definition sample_run : list key_op := [KGet 1; KSet 1 2 (Some 1001); KGet 1; KLookup 1; KDel 1; KGet 1].

(** The clock reads 1000, 1001, 1002: the key is there when it is first looked
    at and gone, having expired, when it is next. *)
Lemma keyspace_refines_map_witness :
  held sample_config sample_name sample_state sample_adb 0 [1] [2] (length sample_run) /\
  (exists s' A' rs, run_key_ops sample_config 0 sample_run sample_state = Some (s', rs) /\
    ref_key_ops sample_config sample_name false 0 sample_run sample_adb = (A', rs) /\
    moved sample_config sample_state s' 0 sample_adb A') /\
  (ref_key_ops sample_config sample_name false 0 sample_run sample_adb).2
    = [KVal None; KUnit; KVal (Some 2); KVal (Some 2); KBool false; KVal None].
Proof.
  split; [exact sample_held|]. split; [|vm_compute; reflexivity].
  apply (keyspace_refines_map sample_config sample_name sample_state 0 sample_adb [1] [2]).
  - by apply sample_db.
  - exact sample_held.
  - unfold sample_run. repeat (apply Forall_cons; split; [split; [by apply list_elem_of_singleton|]; intros v [=]; subst; by apply list_elem_of_singleton|]).
    by apply Forall_nil.
Defined.

Lemma expireIfNeeded_expires_witness :
  ready sample_config sample_state sample_adb 0 1 (str "k") /\
  exists s' A' r, expireIfNeeded sample_config 0 1 sample_state = Some (s', r) /\
    step sample_config sample_state s' 0 sample_adb A' /\ r = false.
Proof.
  assert (ready sample_config sample_state sample_adb 0 1 (str "k")) as H by exact (held_ready _ _ _ _ _ _ _ _ 1 sample_held ltac:(by apply list_elem_of_singleton)).
  split; [exact H|].
  destruct (expireIfNeeded_expires sample_config sample_state 0 sample_adb 1 (str "k") ltac:(by apply sample_db) H) as (s' & A' & r & E & Hs & Hr & _).
  exists s', A', r. split; [exact E|]. split; [exact Hs|]. destruct r; [|reflexivity].
  destruct (proj1 Hr eq_refl) as (_ & w & Hw & _). cbn in Hw. by rewrite lookup_empty in Hw.
Defined.

Lemma notifyKeyspaceEvent_publishes_witness :
  key_is sample_state 1 (str "k") /\
  notifyKeyspaceEvent sample_config NOTIFY_EXPIRED (str "expired") 1 0 sample_state
    = Some (set_ks (add_published [(str "__keyspace@0__:k", str "expired"); (str "__keyevent@0__:expired", str "k")]) sample_state, tt).
Proof.
  split; [exact sample_key|].
  rewrite (notifyKeyspaceEvent_publishes sample_config sample_state 0 NOTIFY_EXPIRED (str "expired") 1 (str "k") sample_key);
    [reflexivity|by vm_compute|by cbn; lia|by vm_compute].
Defined.

End DbRun.
