(* ===== verification/Reply.v ===== *)
(** * Reply buffers (src/networking.c)

    A reply is queued in the static buffer of the client, or, once that is
    full, in a list of objects that may be shared with the rest of the
    server; it is written to the socket from there.  The memory of an object
    is measured by the allocator, a parameter of the configuration. *)

From S2P Require Import Prelude Monad Util Sds SdsText Object State.
Import Monad Util Sds SdsText Object State.

Module Reply.

Definition CLIENT_SLAVE : Z := 1.
Definition CLIENT_MASTER : Z := 2.
Definition CLIENT_MONITOR : Z := 4.
Definition CLIENT_CLOSE_AFTER_REPLY : Z := 64.
Definition CLIENT_LUA : Z := 256.
Definition CLIENT_CLOSE_ASAP : Z := 1024.
Definition CLIENT_MASTER_FORCE_REPLY : Z := 8192.
Definition CLIENT_PUBSUB : Z := 262144.
Definition CLIENT_PENDING_WRITE : Z := 2097152.
Definition CLIENT_REPLY_OFF : Z := 4194304.
Definition CLIENT_REPLY_SKIP : Z := 16777216.
Definition REPL_STATE_NONE : Z := 0.
Definition SLAVE_STATE_ONLINE : Z := 9.
Definition CLIENT_TYPE_NORMAL : Z := 0.
Definition CLIENT_TYPE_SLAVE : Z := 1.
Definition CLIENT_TYPE_PUBSUB : Z := 2.
Definition CLIENT_TYPE_MASTER : Z := 3.
Definition PROTO_REPLY_CHUNK_BYTES : Z := 16 * 1024.
Definition OBJ_SHARED_BULKHDR_LEN : Z := 32.
Definition NET_MAX_WRITES_PER_EVENT : Z := 1024 * 64.

Definition CRLF : bytes := [13; 10].

Section Ops.
Context {P : Type} (C : config).

Abbreviation state := (state P).
Abbreviation M := (M state).

(** ** Memory *)

Definition sdsZmallocSize (s : sds) : Z :=
  zmalloc_size C (sdsHdrSize (Sds.flags s) + sdsalloc s + 1).

(** A [robj] has 16 bytes, the header of the string that follows it 3. *)
Definition getStringObjectSdsUsedMemory (o : robj P) : option Z :=
  if negb (otype o =? OBJ_STRING) then None
  else if encoding o =? OBJ_ENCODING_RAW then s ← as_sds (ptr o); Some (sdsZmallocSize s)
  else if encoding o =? OBJ_ENCODING_EMBSTR then
    s ← as_sds (ptr o); Some (u64 (zmalloc_size C (16 + 3 + sdslen s + 1) - 16))
  else Some 0.

(** ** Access to the client *)

Definition set_out (f : coutput -> coutput) : M unit := modify (set_cl (set_cout f)).

Definition add_reply_bytes (n : Z) : M unit :=
  set_out (fun o => COutput (cbuf o) (reply o) (u64 (reply_bytes o + n)) (sentlen o) (obuf_soft_limit_reached_time o)).

Definition set_reply (f : list addr -> list addr) : M unit :=
  set_out (fun o => COutput (cbuf o) (f (reply o)) (reply_bytes o) (sentlen o) (obuf_soft_limit_reached_time o)).

Definition set_soft_time (t : Z) : M unit :=
  set_out (fun o => COutput (cbuf o) (reply o) (reply_bytes o) (sentlen o) t).

Definition set_cbuf (x : bytes) : M unit :=
  set_out (fun o => COutput x (reply o) (reply_bytes o) (sentlen o) (obuf_soft_limit_reached_time o)).

Definition set_sentlen (n : Z) : M unit :=
  set_out (fun o => COutput (cbuf o) (reply o) (reply_bytes o) n (obuf_soft_limit_reached_time o)).

Definition add_flag (b : Z) : M unit := modify (set_cl (set_flags (fun f => Z.lor f b))).
Definition clear_flag (b : Z) : M unit := modify (set_cl (set_flags (fun f => Z.land f (Z.lnot b)))).

Definition clientHasPendingReplies (c : client) : bool :=
  negb (Z.of_nat (length (cbuf (cout c))) =? 0) || negb (Z.of_nat (length (reply (cout c))) =? 0).

(** ** Limits *)

(** A list node has 24 bytes. *)
Definition getClientOutputBufferMemoryUsage (c : client) : Z :=
  u64 (reply_bytes (cout c) + (24 + 16) * Z.of_nat (length (reply (cout c)))).

Definition getClientType (c : client) : Z :=
  if has (flags c) CLIENT_MASTER then CLIENT_TYPE_MASTER
  else if has (flags c) CLIENT_SLAVE && negb (has (flags c) CLIENT_MONITOR) then CLIENT_TYPE_SLAVE
  else if has (flags c) CLIENT_PUBSUB then CLIENT_TYPE_PUBSUB
  else CLIENT_TYPE_NORMAL.

Definition checkClientOutputBufferLimits : M bool :=
  c ← gets cl;
  let used_mem := getClientOutputBufferMemoryUsage c in
  let class := getClientType c in
  let class := if class =? CLIENT_TYPE_MASTER then CLIENT_TYPE_NORMAL else class in
  lim ← lift (client_obuf_limits C !! Z.to_nat class);
  let hard := negb (hard_limit_bytes lim =? 0) && (used_mem >=? hard_limit_bytes lim) in
  let soft := negb (soft_limit_bytes lim =? 0) && (used_mem >=? soft_limit_bytes lim) in
  soft ← (if soft then
    let since := obuf_soft_limit_reached_time (cout c) in
    if since =? 0 then _ ← set_soft_time (unixtime C); mret false
    else mret (negb (unixtime C - since <=? soft_limit_seconds lim))
   else _ ← set_soft_time 0; mret false);
  mret ((soft : bool) || hard).

Definition freeClientAsync : M unit :=
  c ← gets cl;
  if has (flags c) CLIENT_CLOSE_ASAP || has (flags c) CLIENT_LUA then skip
  else
    _ ← add_flag CLIENT_CLOSE_ASAP;
    modify (set_to_close (fun l => l ++ [cid c])).

Definition asyncCloseClientOnOutputBufferLimitReached : M unit :=
  c ← gets cl;
  _ ← check (reply_bytes (cout c) <? 2 ^ 64 - 1 - 1024 * 64);
  if (reply_bytes (cout c) =? 0) || has (flags c) CLIENT_CLOSE_ASAP then skip
  else
    over ← checkClientOutputBufferLimits;
    if (over : bool) then freeClientAsync else skip.

(** ** Queueing *)

(** [C_OK] is [true]. *)
Definition prepareClientToWrite : M bool :=
  c ← gets cl;
  if has (flags c) CLIENT_LUA then mret true
  else if has (flags c) (Z.lor CLIENT_REPLY_OFF CLIENT_REPLY_SKIP) then mret false
  else if has (flags c) CLIENT_MASTER && negb (has (flags c) CLIENT_MASTER_FORCE_REPLY) then mret false
  else if fd c <=? 0 then mret false
  else
    _ ← (if negb (clientHasPendingReplies c) && negb (has (flags c) CLIENT_PENDING_WRITE) &&
            ((replstate c =? REPL_STATE_NONE) ||
             ((replstate c =? SLAVE_STATE_ONLINE) && negb (repl_put_online_on_ack c)))
         then _ ← add_flag CLIENT_PENDING_WRITE; modify (set_pending (fun l => cid c :: l))
         else skip);
    mret true.

Definition _addReplyToBuffer (s : bytes) : M bool :=
  c ← gets cl;
  let available := PROTO_REPLY_CHUNK_BYTES - Z.of_nat (length (cbuf (cout c))) in
  if has (flags c) CLIENT_CLOSE_AFTER_REPLY then mret true
  else if negb (Z.of_nat (length (reply (cout c))) =? 0) then mret false
  else if Z.of_nat (length s) >? available then mret false
  else _ ← set_cbuf (cbuf (cout c) ++ s); mret true.

(** The last object of the list, or a copy that takes its place when it is
    shared. *)
Definition dupLastObjectIfNeeded : M addr :=
  c ← gets cl;
  cur ← lift (last (reply (cout c)));
  o ← get_object cur;
  if refcount o >? 1 then
    new ← new_object C (fun a h => '(h, _) ← dupStringObject (senv C) a h cur; Some h);
    _ ← on_heap (fun h => decrRefCount h cur);
    _ ← set_reply (fun l => take (length l - 1) l ++ [new]);
    mret new
  else mret cur.

(** Whether a string can be appended to the last object. *)
Definition can_append (tail : robj P) (len : Z) : bool :=
  (encoding tail =? OBJ_ENCODING_RAW) &&
  match ptr tail with PSds s => sdslen s + len <=? PROTO_REPLY_CHUNK_BYTES | _ => false end.

(** Appending to the last object, or to its copy. *)
Definition append_to_last (tail : robj P) (x : bytes) : M unit :=
  s ← lift (as_sds (ptr tail));
  _ ← add_reply_bytes (- sdsZmallocSize s);
  a ← dupLastObjectIfNeeded;
  o ← get_object a;
  s ← lift (as_sds (ptr o));
  s ← lift (sdscatlen (junk (senv C)) s x (Z.of_nat (length x)));
  _ ← modify (set_objects (fun h => <[a := set_ptr o (PSds s)]> h));
  add_reply_bytes (sdsZmallocSize s).

(** A new object at the end of the list. *)
Definition push_reply (a : addr) : M unit :=
  _ ← set_reply (fun l => l ++ [a]);
  o ← get_object a;
  m ← lift (getStringObjectSdsUsedMemory o);
  add_reply_bytes m.

Definition object_str (o : robj P) : option bytes :=
  s ← as_sds (ptr o); rdn (Sds.buf s) 0 (Z.to_nat (sdslen s)).

(** The three functions that add to the list differ in what they do when they
    cannot append. *)
Definition add_to_list (x : bytes) (new : M addr) : M unit :=
  c ← gets cl;
  if has (flags c) CLIENT_CLOSE_AFTER_REPLY then skip
  else
    _ ← (match last (reply (cout c)) with
      | None => a ← new; push_reply a
      | Some t =>
        tail ← get_object t;
        if can_append tail (Z.of_nat (length x)) then append_to_last tail x
        else a ← new; push_reply a
      end);
    asyncCloseClientOnOutputBufferLimitReached.

Definition _addReplyObjectToList (a : addr) : M unit :=
  o ← get_object a; x ← lift (object_str o);
  add_to_list x (_ ← on_heap (fun h => incrRefCount h a); mret a).

Definition _addReplySdsToList (s : sds) : M unit :=
  x ← lift (rdn (Sds.buf s) 0 (Z.to_nat (sdslen s)));
  add_to_list x (new_object C (fun a h => Some (createObject (senv C) a h OBJ_STRING (PSds s)))).

Definition _addReplyStringToList (x : bytes) : M unit :=
  add_to_list x (new_object C (fun a h => createStringObject (senv C) a h (Some x) (Z.of_nat (length x)))).

(** ** Replies *)

Definition add_encoded (a : addr) : M unit :=
  o ← get_object a; x ← lift (object_str o);
  done ← _addReplyToBuffer x;
  if (done : bool) then skip else _addReplyObjectToList a.

Definition addReply (a : addr) : M unit :=
  ok ← prepareClientToWrite;
  if negb ok then skip
  else
    o ← get_object a;
    if sdsEncodedObject o then add_encoded a
    else if encoding o =? OBJ_ENCODING_INT then
      c ← gets cl;
      fast ← (if (Z.of_nat (length (reply (cout c))) =? 0) &&
                 (PROTO_REPLY_CHUNK_BYTES - Z.of_nat (length (cbuf (cout c))) >=? 32) then
        v ← lift (as_long (ptr o));
        '(len, b) ← lift (ll2string (junk (senv C) <$> seq 0 32) 32 v);
        x ← lift (rdn b 0 (Z.to_nat len));
        _addReplyToBuffer x
       else mret false);
      if (fast : bool) then skip
      else
        h ← gets objects;
        '(h, d) ← lift (getDecodedObject (senv C) (alloc_object C (dom h)) h a);
        _ ← modify (set_objects (fun _ => h));
        _ ← add_encoded d;
        on_heap (fun h => decrRefCount h d)
    else fail.

Definition addReplySds (s : sds) : M unit :=
  ok ← prepareClientToWrite;
  if negb ok then skip
  else
    x ← lift (rdn (Sds.buf s) 0 (Z.to_nat (sdslen s)));
    done ← _addReplyToBuffer x;
    if (done : bool) then skip else _addReplySdsToList s.

Definition addReplyString (x : bytes) : M unit :=
  ok ← prepareClientToWrite;
  if negb ok then skip
  else
    done ← _addReplyToBuffer x;
    if (done : bool) then skip else _addReplyStringToList x.

Definition addReplyErrorLength (x : bytes) : M unit :=
  _ ← addReplyString (str "-ERR ");
  _ ← addReplyString x;
  addReplyString CRLF.

Definition addReplyError (x : bytes) : M unit := addReplyErrorLength x.

(** The text is the formatted one; line breaks become spaces. *)
Definition addReplyErrorFormat (x : bytes) : M unit :=
  addReplyErrorLength ((fun c => if (c =? 13) || (c =? 10) then 32 else c) <$> x).

Definition addReplyStatusLength (x : bytes) : M unit :=
  _ ← addReplyString (str "+");
  _ ← addReplyString x;
  addReplyString CRLF.

Definition addReplyStatus (x : bytes) : M unit := addReplyStatusLength x.

Definition addReplyLongLongWithPrefix (ll : Z) (prefix : Z) : M unit :=
  if (prefix =? 42) && (ll <? OBJ_SHARED_BULKHDR_LEN) && (ll >=? 0) then
    a ← lift (mbulkhdr (shared C) !! Z.to_nat ll); addReply a
  else if (prefix =? 36) && (ll <? OBJ_SHARED_BULKHDR_LEN) && (ll >=? 0) then
    a ← lift (bulkhdr (shared C) !! Z.to_nat ll); addReply a
  else
    '(len, b) ← lift (ll2string (junk (senv C) <$> seq 0 127) 127 ll);
    x ← lift (rdn b 0 (Z.to_nat len));
    addReplyString (prefix :: x ++ CRLF).

Definition addReplyLongLong (ll : Z) : M unit :=
  if ll =? 0 then addReply (czero (shared C))
  else if ll =? 1 then addReply (cone (shared C))
  else addReplyLongLongWithPrefix ll 58.

Definition addReplyMultiBulkLen (length : Z) : M unit :=
  if length <? OBJ_SHARED_BULKHDR_LEN then
    _ ← check (length >=? 0);
    a ← lift (mbulkhdr (shared C) !! Z.to_nat length); addReply a
  else addReplyLongLongWithPrefix length 42.

(** [while((n = n/10) != 0) len++]. *)
Fixpoint digits_loop (fuel : nat) (n len : Z) : option Z :=
  let n := Z.quot n 10 in
  if n =? 0 then Some len
  else match fuel with O => None | S fuel => digits_loop fuel n (len + 1) end.

Definition bulk_len (o : robj P) : option Z :=
  if sdsEncodedObject o then s ← as_sds (ptr o); Some (sdslen s)
  else
    n ← as_long (ptr o);
    if n <? 0 then digits_loop 20 (s64 (- n)) 2 else digits_loop 20 n 1.

Definition addReplyBulkLen (a : addr) : M unit :=
  o ← get_object a;
  len ← lift (bulk_len o);
  if len <? OBJ_SHARED_BULKHDR_LEN then
    a ← lift (bulkhdr (shared C) !! Z.to_nat len); addReply a
  else addReplyLongLongWithPrefix len 36.

Definition addReplyBulk (a : addr) : M unit :=
  _ ← addReplyBulkLen a;
  _ ← addReply a;
  addReply (crlf (shared C)).

Definition addReplyBulkCBuffer (x : bytes) : M unit :=
  _ ← addReplyLongLongWithPrefix (Z.of_nat (length x)) 36;
  _ ← addReplyString x;
  addReply (crlf (shared C)).

Definition addReplyBulkLongLong (ll : Z) : M unit :=
  '(len, b) ← lift (ll2string (junk (senv C) <$> seq 0 64) 64 ll);
  x ← lift (rdn b 0 (Z.to_nat len));
  addReplyBulkCBuffer x.

(** ** Sending *)

(** What [write] returns: bytes taken, [EAGAIN], or another error. *)
Inductive wres := WBytes (n : Z) | WAgain | WError.

(** [listDelNode] of the first reply, whose reference is given back. *)
Definition pop_reply (a : addr) (objmem : Z) : M unit :=
  _ ← set_reply (fun l => tail l);
  _ ← on_heap (fun h => decrRefCount h a);
  add_reply_bytes (- objmem).

(** Sending from the static buffer: [w] is the answer of [write].  The result
    is the bytes that went out, [None] to leave the loop. *)
Definition send_buffer (o : coutput) (w : wres) : M (option bytes) :=
  match w with
  | WBytes n =>
    if n <=? 0 then mret None
    else
      x ← lift (rdn (cbuf o) (Z.to_nat (sentlen o)) (Z.to_nat n));
      _ ← set_sentlen (sentlen o + n);
      _ ← (if sentlen o + n =? Z.of_nat (length (cbuf o)) then _ ← set_cbuf []; set_sentlen 0 else skip);
      mret (Some x)
  | _ => mret None
  end.

(** Sending from the first object of the list, whose string is [y]. *)
Definition send_object (o : coutput) (a : addr) (y : bytes) (objmem : Z) (w : wres) : M (option bytes) :=
  match w with
  | WBytes n =>
    if n <=? 0 then mret None
    else
      x ← lift (rdn y (Z.to_nat (sentlen o)) (Z.to_nat n));
      _ ← set_sentlen (sentlen o + n);
      _ ← (if sentlen o + n =? Z.of_nat (length y) then
        _ ← pop_reply a objmem; set_sentlen 0 else skip);
      mret (Some x)
  | _ => mret None
  end.

(** The loop: [write i n] is the answer of the call number [i], offered [n]
    bytes, and [over_memory i] says whether memory is short after it; [tot] is
    [totwritten] and [sent] what went into the socket.  It stops when the kernel
    takes no more or, unless memory is short, after enough bytes. *)
Fixpoint write_loop (fuel : nat) (over_memory : nat -> bool) (write : nat -> Z -> wres) (i : nat)
    (nwritten : wres) (tot : Z) (sent : bytes) : M (wres * Z * bytes) :=
  match fuel with
  | O => fail
  | S fuel =>
    c ← gets cl;
    let o := cout c in
    let go (w : wres) (r : option bytes) : M (wres * Z * bytes) :=
      match r with
      | None => mret (w, tot, sent)
      | Some x =>
        let tot := tot + Z.of_nat (length x) in
        if (tot >? NET_MAX_WRITES_PER_EVENT) && negb (over_memory i) then mret (w, tot, sent ++ x)
        else write_loop fuel over_memory write (S i) w tot (sent ++ x)
      end in
    if negb (clientHasPendingReplies c) then mret (nwritten, tot, sent)
    else if Z.of_nat (length (cbuf o)) >? 0 then
      let w := write i (Z.of_nat (length (cbuf o)) - sentlen o) in
      r ← send_buffer o w; go w r
    else
      a ← lift (head (reply o));
      ob ← get_object a;
      y ← lift (object_str ob);
      objmem ← lift (getStringObjectSdsUsedMemory ob);
      if Z.of_nat (length y) =? 0 then
        _ ← pop_reply a objmem;
        write_loop fuel over_memory write i nwritten tot sent
      else
        let w := write i (Z.of_nat (length y) - sentlen o) in
        r ← send_object o a y objmem w; go w r
  end.

Definition freeClientArgv : M unit :=
  c ← gets cl;
  _ ← for_each (argv (cin c)) (fun a => on_heap (fun h => decrRefCount h a));
  _ ← modify (set_cl (set_cin (fun i => CInput (querybuf i) (reqtype i) (multibulklen i) (bulklen i) [])));
  modify (set_cl (set_cmd None)).

(** Closing the connection: what the client holds is given back and it is
    taken off the queues. *)
Definition unlinkClient : M unit :=
  c ← gets cl;
  _ ← (if fd c =? -1 then skip else
    _ ← modify (set_cl (set_csock (fun k => CSocket false (lastinteraction k) (stat_net_output_bytes k))));
    modify (set_cl (set_fd (-1))));
  if has (flags c) CLIENT_PENDING_WRITE then
    _ ← modify (set_pending (filter (fun i => i <> cid c)));
    clear_flag CLIENT_PENDING_WRITE
  else skip.

(** The model of a client has no query buffer and no name on the heap, no list
    of clients to be taken off, and neither blocked nor watched keys: giving
    these back is left. *)
Definition freeClient : M unit :=
  c ← gets cl;
  _ ← for_each (reply (cout c)) (fun a => on_heap (fun h => decrRefCount h a));
  _ ← set_reply (fun _ => []);
  _ ← freeClientArgv;
  _ ← unlinkClient;
  if has (flags c) CLIENT_CLOSE_ASAP then modify (set_to_close (filter (fun i => i <> cid c))) else skip.

(** The result is whether the client is still there, and what was sent. *)
Definition writeToClient (fuel : nat) (over_memory : nat -> bool) (write : nat -> Z -> wres) (handler_installed : bool) : M (bool * bytes) :=
  '(nwritten, tot, sent) ← write_loop fuel over_memory write 0 (WBytes 0) 0 [];
  _ ← modify (set_cl (set_csock (fun k => CSocket (writable_handler k) (lastinteraction k) (s64 (stat_net_output_bytes k + tot)))));
  match nwritten with
  | WError => _ ← freeClient; mret (false, sent)
  | _ =>
    c ← gets cl;
    _ ← (if (tot >? 0) && negb (has (flags c) CLIENT_MASTER) then
      modify (set_cl (set_csock (fun k => CSocket (writable_handler k) (unixtime C) (stat_net_output_bytes k))))
     else skip);
    if negb (clientHasPendingReplies c) then
      _ ← set_sentlen 0;
      _ ← (if handler_installed then
        modify (set_cl (set_csock (fun k => CSocket false (lastinteraction k) (stat_net_output_bytes k))))
       else skip);
      if has (flags c) CLIENT_CLOSE_AFTER_REPLY then _ ← freeClient; mret (false, sent) else mret (true, sent)
    else mret (true, sent)
  end.

Definition sendReplyToClient (fuel : nat) (over_memory : nat -> bool) (write : nat -> Z -> wres) : M (bool * bytes) :=
  writeToClient fuel over_memory write true.

End Ops.
End Reply.
