(* ===== verification/ReplySpec.v ===== *)
(** * Replies are a stream of bytes (src/networking.c)

    What a client has still to receive is the static buffer followed by the
    strings of the list.  Every function that adds a reply appends exactly
    its bytes to that stream, whichever of the two it goes to and whether
    objects are shared or copied, and never changes an object somebody else
    holds; what is written to the socket is taken from the front. *)

From S2P Require Import Prelude Monad Util Sds SdsText Object ObjectSpec State HeapSpec Reply.
Import Monad Util Sds SdsText Object ObjectSpec State HeapSpec Reply.

Module ReplySpec.

(** ** Occurrences in a list *)

Definition rocc (a : addr) (l : list addr) : Z := Z.of_nat (length (filter (fun x => x = a) l)).

Lemma rocc_app a l1 l2 : rocc a (l1 ++ l2) = rocc a l1 + rocc a l2.
Proof. unfold rocc. rewrite filter_app, length_app. lia. Qed.

Lemma rocc_cons a x l : rocc a (x :: l) = (if decide (a = x) then 1 else 0) + rocc a l.
Proof.
  unfold rocc. rewrite filter_cons. destruct (decide (x = a)) as [->|]; [rewrite decide_True by done|rewrite decide_False by congruence];
    cbn [length]; lia.
Qed.

Lemma rocc_single a x : rocc a [x] = if decide (a = x) then 1 else 0.
Proof. rewrite rocc_cons. unfold rocc. cbn. lia. Qed.

Lemma rocc_nonneg a l : 0 <= rocc a l.
Proof. unfold rocc. lia. Qed.

Lemma rocc_pos a l : a ∈ l -> 0 < rocc a l.
Proof.
  intros Hin. apply list_elem_of_split in Hin as (l1 & l2 & ->). rewrite rocc_app, rocc_cons, decide_True by done.
  pose proof (rocc_nonneg a l1). pose proof (rocc_nonneg a l2). lia.
Qed.

Lemma rocc_le a l : rocc a l <= Z.of_nat (length l).
Proof. unfold rocc. pose proof (length_filter (fun x => x = a) l). lia. Qed.

(** ** Flags *)

Lemma has_bit f k : 0 <= k -> has f (2 ^ k) = Z.testbit f k.
Proof.
  intros Hk. unfold has. destruct (Z.testbit f k) eqn:Hb.
  - apply negb_true_iff, Z.eqb_neq. intros E. apply (f_equal (fun z => Z.testbit z k)) in E.
    rewrite Z.land_spec, Hb, Z.pow2_bits_true, Z.bits_0 in E by done. done.
  - apply negb_false_iff, Z.eqb_eq. apply Z.bits_inj_0. intros n. rewrite Z.land_spec.
    destruct (Z.eq_dec n k) as [->|Hne]; [by rewrite Hb|]. rewrite Z.pow2_bits_false by done. apply andb_false_r.
Qed.

(** Setting bits changes no test of other bits. *)
Lemma has_lor f b m : Z.land b m = 0 -> has (Z.lor f b) m = has f m.
Proof. intros H. unfold has. by rewrite Z.land_lor_distr_l, H, Z.lor_0_r. Qed.

Definition OUT_FLAGS : Z := Z.lor CLIENT_PENDING_WRITE CLIENT_CLOSE_ASAP.

Definition more_flags (f f' : Z) : Prop := exists e, f' = Z.lor f e /\ Z.land e (Z.lnot OUT_FLAGS) = 0.

Lemma more_refl f : more_flags f f.
Proof. exists 0. by rewrite Z.lor_0_r. Qed.

Lemma more_trans f1 f2 f3 : more_flags f1 f2 -> more_flags f2 f3 -> more_flags f1 f3.
Proof.
  intros (e1 & -> & H1) (e2 & -> & H2). exists (Z.lor e1 e2). split; [symmetry; apply Z.lor_assoc|].
  by rewrite Z.land_lor_distr_l, H1, H2.
Qed.

Lemma more_has f f' m : more_flags f f' -> Z.land m OUT_FLAGS = 0 -> has f' m = has f m.
Proof.
  intros (e & -> & He) Hm. apply has_lor. apply Z.bits_inj_0. intros n.
  apply (f_equal (fun z => Z.testbit z n)) in He, Hm. rewrite Z.land_spec, Z.bits_0 in *.
  destruct (Z.testbit e n) eqn:E1; [|done]. destruct (Z.testbit m n) eqn:E2; [|done]. exfalso.
  destruct (Z_lt_le_dec n 0) as [Hn|Hn]; [by rewrite Z.testbit_neg_r in E1|].
  rewrite Z.lnot_spec in He by done. cbn [andb] in *. by rewrite Hm in He.
Qed.

Section Spec.
Context {P : Type} (C : config).
Context {HC : sound_config C}.

Abbreviation state := (state P).
Abbreviation heap := (gmap addr (robj P)).
Implicit Types (s : state) (h : heap) (a : addr) (x y : bytes) (ys : list bytes) (l : list addr).

(** ** Memory *)

Definition mem h a : Z :=
  match h !! a with Some o => default 0 (getStringObjectSdsUsedMemory C o) | None => 0 end.

Fixpoint mems h l : Z := match l with [] => 0 | a :: l => mem h a + mems h l end.

Lemma mems_app h l1 l2 : mems h (l1 ++ l2) = mems h l1 + mems h l2.
Proof. induction l1 as [|a l1 IH]; cbn; lia. Qed.

Lemma used_range (o : robj P) m : getStringObjectSdsUsedMemory C o = Some m -> 0 <= m < 2 ^ 40.
Proof.
  unfold getStringObjectSdsUsedMemory. destruct (negb _); [done|]. destruct (_ =? _).
  - destruct (as_sds (ptr o)) as [sd|]; [|done]. cbn. intros [= <-]. unfold sdsZmallocSize. pose proof (zmalloc_range (C := C) (sdsHdrSize (Sds.flags sd) + sdsalloc sd + 1)). lia.
  - destruct (_ =? _); [|intros [= <-]; lia]. destruct (as_sds (ptr o)) as [sd|]; [|done]. cbn. intros [= <-].
    pose proof (zmalloc_range (C := C) (16 + 3 + sdslen sd + 1)). rewrite wrapu_small by (unfold is_unsigned; lia). lia.
Qed.

Lemma mem_range h a : 0 <= mem h a < 2 ^ 40.
Proof.
  unfold mem. destruct (h !! a) as [o|]; [|lia]. destruct (getStringObjectSdsUsedMemory C o) eqn:E; cbn; [by eapply used_range|lia].
Qed.

Lemma mems_range h l : 0 <= mems h l <= Z.of_nat (length l) * 2 ^ 40.
Proof. induction l as [|a l IH]; cbn [mems length]; [lia|]. pose proof (mem_range h a). lia. Qed.

Lemma used_same (o o' : robj P) : same_value o o' -> getStringObjectSdsUsedMemory C o' = getStringObjectSdsUsedMemory C o.
Proof. intros (E1 & E2 & E3). unfold getStringObjectSdsUsedMemory. by rewrite E1, E2, E3. Qed.

Lemma used_some (o : robj P) y : str_obj o y -> exists m, getStringObjectSdsUsedMemory C o = Some m.
Proof.
  intros (Ht & Hv). unfold getStringObjectSdsUsedMemory. rewrite Ht. cbn [negb Z.eqb OBJ_STRING].
  change (negb (OBJ_STRING =? OBJ_STRING)) with false. cbn iota.
  destruct Hv as [[He (sd & -> & _)]|[He (v & -> & _)]].
  - cbn [as_sds mbind option_bind]. destruct (_ =? _); [by eexists|]. destruct (_ =? _); by eexists.
  - rewrite He. by eexists.
Qed.

(** ** The stream *)

(** A string object that is not an encoded number. *)
Definition item h a y : Prop := exists o, h !! a = Some o /\ str_obj o y /\ sdsEncodedObject o = true.

Definition replies s : list addr := reply (cout (cl s)).

(** The references to an object other than those of the list. *)
Definition rspare s a : Z := count (objects s) a - rocc a (replies s).

Record out_rep s ys : Prop := OutRep {
  or_items : Forall2 (item (objects s)) (replies s) ys;
  or_refs : forall a, 0 <= rspare s a;
  or_bytes : reply_bytes (cout (cl s)) = mems (objects s) (replies s)
}.

Definition stream s ys : bytes := cbuf (cout (cl s)) ++ concat ys.

(** What adding replies leaves alone. *)
Record out_frame s s' : Prop := OutFrame {
  of_ks : ks s' = ks s;
  of_flags : more_flags (flags (cl s)) (flags (cl s'));
  of_cid : cid (cl s') = cid (cl s);
  of_fd : fd (cl s') = fd (cl s);
  of_cdb : cdb (cl s') = cdb (cl s);
  of_cmd : cmd (cl s') = cmd (cl s);
  of_cin : cin (cl s') = cin (cl s);
  of_sent : sentlen (cout (cl s')) = sentlen (cout (cl s));
  of_spare : forall a, rspare s' a = rspare s a;
  of_kept : forall a o, 0 < rspare s a -> objects s !! a = Some o -> exists o', objects s' !! a = Some o' /\ same_value o o';
  of_srv : srv s' = srv s;
  of_ext : cext (cl s') = cext (cl s);
  of_replstate : replstate (cl s') = replstate (cl s)
}.

Lemma out_frame_refl s : out_frame s s.
Proof. constructor; try done; [apply more_refl|]. intros a o _ Ho. by exists o. Qed.

Lemma same_value_trans (o1 o2 o3 : robj P) : same_value o1 o2 -> same_value o2 o3 -> same_value o1 o3.
Proof. intros (A1 & A2 & A3) (B1 & B2 & B3). split; [congruence|]. split; congruence. Qed.

Lemma out_frame_trans s1 s2 s3 : out_frame s1 s2 -> out_frame s2 s3 -> out_frame s1 s3.
Proof.
  intros [A1 A2 A3 A4 A5 A6 A7 A8 A9 A10 A11 A12 A13] [B1 B2 B3 B4 B5 B6 B7 B8 B9 B10 B11 B12 B13].
  constructor; try congruence; [by eapply more_trans|].
  intros a o Ha Ho. destruct (A10 a o Ha Ho) as (o2 & Ho2 & Hv). destruct (B10 a o2) as (o3 & Ho3 & Hv3); [by rewrite A9|done|].
  exists o3. split; [done|]. by eapply same_value_trans.
Qed.

(** The bytes the client has still to be sent. *)
Definition pending s (z : bytes) : Prop := exists ys, out_rep s ys /\ stream s ys = z.

(** The bytes are added to those; the list grows by at most [k]. *)
Record emitted (k : nat) s s' (z x : bytes) : Prop := Emitted {
  em_pending : pending s' (z ++ x);
  em_frame : out_frame s s';
  em_length : (length (replies s') <= length (replies s) + k)%nat
}.

Lemma emitted_refl s z : pending s z -> emitted 0 s s z [].
Proof. intros Hp. constructor; [by rewrite app_nil_r|apply out_frame_refl|lia]. Qed.

Lemma emitted_trans k1 k2 s1 s2 s3 z x1 x2 :
  emitted k1 s1 s2 z x1 -> emitted k2 s2 s3 (z ++ x1) x2 -> emitted (k1 + k2) s1 s3 z (x1 ++ x2).
Proof.
  intros [P1 F1 L1] [P2 F2 L2]. constructor; [by rewrite app_assoc|by eapply out_frame_trans|lia].
Qed.

Lemma emitted_mono k k' s s' z x : emitted k s s' z x -> (k <= k')%nat -> emitted k' s s' z x.
Proof. intros [P1 F1 L1] Hk. constructor; [done..|lia]. Qed.

(** Whether the client takes replies at all. *)
Definition prepares (c : client) : bool :=
  has (flags c) CLIENT_LUA ||
  (negb (has (flags c) (Z.lor CLIENT_REPLY_OFF CLIENT_REPLY_SKIP)) &&
   negb (has (flags c) CLIENT_MASTER && negb (has (flags c) CLIENT_MASTER_FORCE_REPLY)) && negb (fd c <=? 0)).

Definition talks (c : client) : bool := prepares c && negb (has (flags c) CLIENT_CLOSE_AFTER_REPLY).

Lemma talks_frame s s' : out_frame s s' -> talks (cl s') = talks (cl s).
Proof.
  intros [_ Hf _ Hfd _ _ _ _ _ _ _ _]. unfold talks, prepares. rewrite Hfd. by rewrite !(more_has _ _ _ Hf) by reflexivity.
Qed.

(** A change of the client that is not of its output. *)
Lemma out_rep_client s s' ys :
  out_rep s ys -> objects s' = objects s -> cout (cl s') = cout (cl s) -> out_rep s' ys.
Proof.
  intros [H1 H2 H3] Ho Hc. unfold rspare, replies in *. constructor; unfold rspare, replies; rewrite ?Ho, ?Hc; done.
Qed.

(** ** The static buffer *)

Definition closing (c : client) : bool := has (flags c) CLIENT_CLOSE_AFTER_REPLY.

Lemma closing_frame s s' : out_frame s s' -> closing (cl s') = closing (cl s).
Proof. intros [_ Hf _ _ _ _ _ _ _ _ _ _]. unfold closing. by apply (more_has _ _ _ Hf). Qed.

(** What goes to the client that gets [x]. *)
Definition unless_closing s x : bytes := if closing (cl s) then [] else x.

Lemma set_cbuf_emitted s z x :
  pending s z -> replies s = [] -> emitted 0 s (set_cl (set_cout (fun o => COutput (cbuf (cout (cl s)) ++ x) (reply o) (reply_bytes o) (sentlen o) (obuf_soft_limit_reached_time o))) s) z x.
Proof.
  intros (ys & [H1 H2 H3] & Hst) Hr. constructor; [|constructor; try done; [apply more_refl|intros a o _ Ho; by exists o]|unfold replies; cbn; lia].
  exists ys. split; [by constructor|]. rewrite Hr in H1. apply Forall2_nil_inv_l in H1 as ->. subst z. unfold stream. cbn. by rewrite !app_nil_r.
Qed.

Lemma buffer_wp s z x (Q : bool -> state -> Prop) :
  pending s z ->
  (forall s', emitted 0 s s' z (unless_closing s x) -> Q true s') -> (closing (cl s) = false -> Q false s) ->
  wp (_addReplyToBuffer x) Q s.
Proof.
  intros Hp HT HF. unfold _addReplyToBuffer, unless_closing, closing in *. wp_step.
  destruct (has (flags (cl s)) CLIENT_CLOSE_AFTER_REPLY); [wp_step; by apply HT, emitted_refl|].
  destruct (Z.eqb_spec (Z.of_nat (length (reply (cout (cl s))))) 0) as [E|]; cbn [negb]; [|wp_step; by apply HF].
  destruct (_ >? _); [wp_step; by apply HF|]. unfold set_cbuf, set_out. wp_step. wp_step.
  apply HT, set_cbuf_emitted; [done|]. apply nil_length_inv. unfold replies. lia.
Qed.

(** ** The list *)

(** The state with another heap, list and count of bytes. *)
Definition with_list s h l n : state :=
  set_cl (set_cout (fun o => COutput (cbuf o) l n (sentlen o) (obuf_soft_limit_reached_time o))) (set_objects (fun _ => h) s).

(** Objects that stay as they are. *)
Definition kept h h' (Pa : addr -> Prop) : Prop :=
  forall a o, Pa a -> h !! a = Some o -> exists o', h' !! a = Some o' /\ same_value o o'.

Lemma kept_all_trans h1 h2 h3 (Pa : addr -> Prop) : kept h1 h2 Pa -> kept h2 h3 Pa -> kept h1 h3 Pa.
Proof.
  intros H1 H2 a o Ha Ho. destruct (H1 a o Ha Ho) as (o2 & Ho2 & Hv). destruct (H2 a o2 Ha Ho2) as (o3 & Ho3 & Hv3).
  exists o3. split; [done|]. by eapply same_value_trans.
Qed.

Lemma item_same h h' a y : item h a y -> (forall o, h !! a = Some o -> exists o', h' !! a = Some o' /\ same_value o o') -> item h' a y.
Proof.
  intros (o & Ho & Hs & He) Hk. destruct (Hk o Ho) as (o1 & Ho1 & Hv). exists o1. split; [done|].
  split; [by eapply str_obj_same|]. destruct Hv as (_ & E & _). unfold sdsEncodedObject in *. by rewrite E.
Qed.

Lemma items_kept h h' l ys : kept h h' (fun a => a ∈ l) -> Forall2 (item h) l ys -> Forall2 (item h') l ys.
Proof.
  intros Hk Hi. induction Hi as [|a y l ys Ha _ IH]; constructor.
  - eapply item_same; [exact Ha|]. intros o Ho. apply Hk; [by left|done].
  - apply IH. intros b o Hb. apply Hk. by right.
Qed.

Lemma mem_kept h h' a o : h !! a = Some o -> (exists o', h' !! a = Some o' /\ same_value o o') -> mem h' a = mem h a.
Proof. intros Ho (o' & Ho' & Hv). unfold mem. rewrite Ho, Ho'. by rewrite (used_same _ _ Hv). Qed.

Lemma mems_kept h h' l ys : kept h h' (fun a => a ∈ l) -> Forall2 (item h) l ys -> mems h' l = mems h l.
Proof.
  intros Hk Hi. induction Hi as [|a y l ys (o & Ho & _) _ IH]; cbn [mems]; [done|].
  rewrite (mem_kept h h' a o Ho) by (apply Hk; [by left|done]). rewrite IH; [done|]. intros b ob Hb. apply Hk. by right.
Qed.

(** The list changes and its strings grow by [x]. *)
Lemma list_emitted s ys h l ys' x :
  out_rep s ys -> Forall2 (item h) l ys' -> concat ys' = concat ys ++ x ->
  (forall a, count h a - rocc a l = rspare s a) -> kept (objects s) h (fun a => 0 < rspare s a) ->
  (length l <= length (replies s) + 1)%nat ->
  emitted 1 s (with_list s h l (mems h l)) (stream s ys) x.
Proof.
  intros [H1 H2 H3] Hi Hx Hr Hk Hl. constructor; [| |done].
  - exists ys'. split; [|unfold stream; cbn; by rewrite Hx, app_assoc]. constructor; [done| |done].
    intros a. change (0 <= count h a - rocc a l). by rewrite Hr.
  - constructor; first [done|apply more_refl|exact Hr|exact Hk].
Qed.

(** The last object of a list is made the list's own. *)
Record own s h l a y (o : robj P) : Prop := Own {
  ow_object : h !! a = Some o;
  ow_string : str_obj o y;
  ow_raw : encoding o = OBJ_ENCODING_RAW;
  ow_count : forall b, count h b - rocc b (l ++ [a]) = rspare s b;
  ow_free : rspare s a <= 0;
  ow_apart : a ∉ l;
  ow_kept : kept (objects s) h (fun b => (b ∈ l \/ 0 < rspare s b) /\ b <> a)
}.

Lemma raw_encoded (o : robj P) : encoding o = OBJ_ENCODING_RAW -> sdsEncodedObject o = true.
Proof. intros E. unfold sdsEncodedObject. by rewrite E. Qed.

Lemma get_object_wp s a (o : robj P) (Q : robj P -> state -> Prop) : objects s !! a = Some o -> Q o s -> wp (get_object a) Q s.
Proof. intros Ho HQ. unfold get_object. wp_step. by eapply wp_lift. Qed.

Lemma set_reply_wp s f (Q : unit -> state -> Prop) :
  Q tt (with_list s (objects s) (f (replies s)) (reply_bytes (cout (cl s)))) -> wp (set_reply f) Q s.
Proof. intros HQ. unfold set_reply, set_out. apply wp_modify. destruct s. exact HQ. Qed.

Lemma dup_wp s l t y (o : robj P) n (Q : addr -> state -> Prop) :
  replies s = l ++ [t] -> (forall b, 0 <= rspare s b) -> (forall b, b ∈ l -> is_Some (objects s !! b)) ->
  objects s !! t = Some o -> str_obj o y -> encoding o = OBJ_ENCODING_RAW -> Z.of_nat (length y) < SDS_LIMIT ->
  (forall h a o', own s h l a y o' -> Q a (with_list s h (l ++ [a]) n)) ->
  wp (dupLastObjectIfNeeded C) Q (with_list s (objects s) (replies s) n).
Proof.
  intros Hl Href Hlive Ho Hs He Hlen HQ. unfold dupLastObjectIfNeeded. wp_step. apply wp_bind.
  assert (last (reply (cout (cl (with_list s (objects s) (replies s) n)))) = Some t) as Hlast by (cbn; by rewrite Hl, last_snoc).
  eapply wp_lift; [exact Hlast|]. apply wp_bind. eapply get_object_wp; [exact Ho|].
  pose proof (Href t) as Ht. unfold rspare in Ht. rewrite Hl, rocc_app, rocc_single, decide_True, (count_Some _ _ _ Ho) in Ht by done.
  pose proof (rocc_nonneg t l) as Htl. rewrite Z.gtb_ltb. destruct (Z.ltb_spec 1 (refcount o)) as [Hr|Hr].
  - apply wp_bind. unfold new_object. wp_step. cbn [objects with_list set_cl set_objects]. set (a := alloc_object C (dom (objects s))).
    assert (objects s !! a = None) as Ha by (apply not_elem_of_dom, alloc_object_fresh).
    destruct (encoded_string o y Hs (raw_encoded _ He)) as (sd & Hp & Hsd).
    pose proof Hs as (Hot & _). pose proof Hsd as (_ & tl & Hbuf & _).
    destruct (raw_spec (senv C) (objects s) a (Sds.buf sd) y (0 :: tl) Hbuf Hlen) as (o' & Hraw & Hs' & Hr' & He').
    rewrite <- (sds_rep_len _ _ Hsd) in Hraw.
    apply wp_bind. eapply wp_lift.
    { unfold dupStringObject. rewrite Ho. cbn [mbind option_bind]. rewrite Hot, He, Hp.
      rewrite !Z.eqb_refl. cbn [negb mbind option_bind as_sds]. rewrite Hraw. done. }
    wp_step. wp_step. assert (a <> t) as Hat by congruence.
    assert (<[a := o']> (objects s) !! t = Some o) as Ho2 by (by rewrite lookup_insert_ne).
    apply wp_bind. unfold on_heap. wp_step. apply wp_bind. eapply wp_lift; [apply (decr_more _ _ _ Ho2 Hr)|]. wp_step.
    apply wp_bind. apply set_reply_wp. wp_step. cbn [objects set_objects].
    set (h2 := <[t := set_refcount o (refcount o - 1)]> (<[a := o']> (objects s))).
    assert (take (length (replies s) - 1) (replies s) ++ [a] = l ++ [a]) as El.
    { rewrite Hl, length_app. cbn [length]. replace (length l + 1 - 1)%nat with (length l) by lia. by rewrite take_app_length. }
    assert (a ∉ l) as Hal by (intros Hin; destruct (Hlive a Hin); congruence).
    assert (rocc a l = 0) as Hra.
    { pose proof (Href a) as Hn. unfold rspare in Hn. rewrite (count_None _ _ Ha), Hl, rocc_app in Hn.
      pose proof (rocc_nonneg a l). pose proof (rocc_nonneg a [t]). lia. }
    assert (own s h2 l a y o') as Hown.
    { constructor; [unfold h2; by rewrite lookup_insert_ne, lookup_insert_eq by done|done..| | |done|].
      - intros b. unfold rspare. rewrite Hl, !rocc_app, !rocc_single. unfold h2. rewrite !count_insert. cbn [refcount set_refcount].
        destruct (decide (b = t)) as [->|]; [rewrite (decide_False (P := t = a)) by congruence; rewrite (count_Some _ _ _ Ho); lia|].
        destruct (decide (b = a)) as [->|]; [rewrite (count_None _ _ Ha); lia|lia].
      - unfold rspare. rewrite (count_None _ _ Ha). pose proof (rocc_nonneg a (replies s)). lia.
      - intros b ob [_ Hba] Hob. unfold h2. destruct (decide (b = t)) as [->|].
        + rewrite lookup_insert_eq. eexists. split; [done|]. rewrite Ho in Hob. by injection Hob as <-.
        + rewrite !lookup_insert_ne by done. by exists ob. }
    specialize (HQ h2 a o' Hown). rewrite <- El in HQ. exact HQ.
  - wp_step. rewrite Hl. assert (own s (objects s) l t y o) as Hown; [|by apply (HQ _ t o)].
    constructor; [done..| | | |].
    + intros b. unfold rspare. by rewrite Hl.
    + unfold rspare. rewrite Hl, rocc_app, rocc_single, decide_True, (count_Some _ _ _ Ho) by done. lia.
    + intros Hin. pose proof (rocc_pos t l Hin). lia.
    + intros b ob _ Hob. by exists ob.
Qed.

Lemma add_reply_bytes_wp s h l n d (Q : unit -> state -> Prop) :
  Q tt (with_list s h l (u64 (n + d))) -> wp (add_reply_bytes d) Q (with_list s h l n).
Proof. intros HQ. unfold add_reply_bytes, set_out. by apply wp_modify. Qed.

Lemma with_list_id s : with_list s (objects s) (replies s) (reply_bytes (cout (cl s))) = s.
Proof. destruct s as [? ? [? ? ? ? ? ? ? ? ? [] ?] ? ?]. reflexivity. Qed.

Definition LIST_LIMIT : Z := 2 ^ 20.

Lemma mems_u64 h l : Z.of_nat (length l) <= LIST_LIMIT -> u64 (mems h l) = mems h l.
Proof.
  intros Hl. pose proof (mems_range h l). unfold LIST_LIMIT in Hl.
  apply wrapu_small. unfold is_unsigned. split; [lia|].
  assert (Z.of_nat (length l) * 2 ^ 40 <= 2 ^ 20 * 2 ^ 40) by (apply Z.mul_le_mono_nonneg_r; lia). lia.
Qed.

Lemma mem_raw h a (o : robj P) sd : h !! a = Some o -> otype o = OBJ_STRING -> encoding o = OBJ_ENCODING_RAW -> ptr o = PSds sd ->
  mem h a = sdsZmallocSize C sd.
Proof. intros Ho Ht He Hp. unfold mem, getStringObjectSdsUsedMemory. by rewrite Ho, Ht, He, Hp. Qed.

Lemma append_wp s l t ys0 y (o : robj P) x (Q : unit -> state -> Prop) :
  out_rep s (ys0 ++ [y]) -> replies s = l ++ [t] -> Forall2 (item (objects s)) l ys0 ->
  objects s !! t = Some o -> str_obj o y -> encoding o = OBJ_ENCODING_RAW ->
  Z.of_nat (length y) + Z.of_nat (length x) < SDS_LIMIT -> Z.of_nat (length (replies s)) <= LIST_LIMIT ->
  (forall s', emitted 1 s s' (stream s (ys0 ++ [y])) x -> Q tt s') ->
  wp (append_to_last C o x) Q s.
Proof.
  intros Hrep Hl Hi Ho Hs He Hlen Hlim HQ. unfold append_to_last.
  destruct (encoded_string o y Hs (raw_encoded _ He)) as (sd & Hp & Hsd). pose proof Hs as (Hot & _).
  apply wp_bind. eapply wp_lift; [by rewrite Hp|]. apply wp_bind.
  rewrite <- (with_list_id s) at 1. apply add_reply_bytes_wp.
  assert (u64 (reply_bytes (cout (cl s)) + - sdsZmallocSize C sd) = mems (objects s) l) as ->.
  { rewrite (or_bytes _ _ Hrep), Hl, mems_app. cbn [mems]. rewrite (mem_raw _ _ _ sd Ho Hot He Hp).
    replace (_ + _) with (mems (objects s) l) by lia. apply mems_u64. rewrite Hl, length_app in Hlim. unfold LIST_LIMIT in *. lia. }
  apply wp_bind. eapply (dup_wp s l t y o); [done|apply Hrep| |done..|lia|].
  { intros b Hb. apply (Forall2_flip _) in Hi. destruct (list_elem_of_lookup_1 _ _ Hb) as [i Hb'].
    destruct (Forall2_lookup_r _ _ _ _ _ Hi Hb') as (yb & _ & ob & Hob & _). by exists ob. }
  intros h a o' [Wo Ws Wr Wc Wf Wa Wk]. destruct (encoded_string o' y Ws (raw_encoded _ Wr)) as (sd' & Hp' & Hsd').
  apply wp_bind. eapply get_object_wp; [exact Wo|]. apply wp_bind. eapply wp_lift; [by rewrite Hp'|].
  destruct (sdscatlen_rep (junk (senv C)) sd' y x (Z.of_nat (length x)) Hsd') as (sd2 & Hcat & Hsd2); [lia..|].
  rewrite Nat2Z.id, take_ge in Hsd2 by done. apply wp_bind. eapply wp_lift; [exact Hcat|]. wp_step.
  set (h2 := <[a := set_ptr o' (PSds sd2)]> h).
  change (set_objects _ _) with (with_list s h2 (l ++ [a]) (mems (objects s) l)). apply add_reply_bytes_wp.
  pose proof Ws as (Wt & _).
  assert (kept (objects s) h2 (fun b => b ∈ l)) as Hkl.
  { intros b ob Hb Hob. assert (b <> a) as Hba by congruence. destruct (Wk b ob) as (ob' & Hob' & Hv); [by split; [left|]|done|].
    exists ob'. split; [|done]. unfold h2. by rewrite lookup_insert_ne. }
  assert (h2 !! a = Some (set_ptr o' (PSds sd2))) as Ha2 by apply lookup_insert_eq.
  assert (str_obj (set_ptr o' (PSds sd2)) (y ++ x)) as Hs2.
  { split; [done|]. left. split; [exact (raw_encoded _ Wr)|]. by exists sd2. }
  assert (u64 (mems (objects s) l + sdsZmallocSize C sd2) = mems h2 (l ++ [a])) as ->.
  { rewrite mems_app. cbn [mems]. rewrite (mem_raw _ _ _ sd2 Ha2 Wt Wr eq_refl), Z.add_0_r, <- (mems_kept _ h2 l ys0 Hkl Hi).
    rewrite <- (mem_raw _ _ _ sd2 Ha2 Wt Wr eq_refl). change (mem h2 a) with (0 + mem h2 a). rewrite <- (Z.add_0_r (mem h2 a)).
    change (mem h2 a + 0) with (mems h2 [a]). rewrite Z.add_0_l, <- mems_app. apply mems_u64. rewrite length_app. rewrite Hl, length_app in Hlim. exact Hlim. }
  apply HQ, (list_emitted s (ys0 ++ [y]) h2 (l ++ [a]) (ys0 ++ [y ++ x])); [done| | | | |].
  - apply Forall2_app; [by eapply items_kept|]. constructor; [|constructor].
    exists (set_ptr o' (PSds sd2)). split; [done|]. split; [done|]. exact (raw_encoded _ Wr).
  - rewrite !concat_app. cbn. by rewrite !app_nil_r, app_assoc.
  - intros b. rewrite <- Wc. unfold h2. rewrite count_insert. cbn [refcount set_ptr]. destruct (decide (b = a)) as [->|]; [|done].
    by rewrite (count_Some _ _ _ Wo).
  - intros b ob Hb Hob. assert (b <> a) as Hba by (intros ->; lia). destruct (Wk b ob) as (ob' & Hob' & Hv); [by split; [right|]|done|].
    exists ob'. split; [|done]. unfold h2. by rewrite lookup_insert_ne.
  - rewrite Hl, !length_app. cbn. lia.
Qed.

(** ** Limits *)

(** A change of the client and the queues that is not of the replies. *)
Lemma quiet_emitted s s' z :
  pending s z -> objects s' = objects s -> ks s' = ks s -> more_flags (flags (cl s)) (flags (cl s')) ->
  cid (cl s') = cid (cl s) -> fd (cl s') = fd (cl s) -> cdb (cl s') = cdb (cl s) -> cmd (cl s') = cmd (cl s) -> cin (cl s') = cin (cl s) ->
  cbuf (cout (cl s')) = cbuf (cout (cl s)) -> replies s' = replies s -> reply_bytes (cout (cl s')) = reply_bytes (cout (cl s)) ->
  sentlen (cout (cl s')) = sentlen (cout (cl s)) -> srv s' = srv s -> cext (cl s') = cext (cl s) ->
  replstate (cl s') = replstate (cl s) -> emitted 0 s s' z [].
Proof.
  intros (ys & [H1 H2 H3] & Hst) Eo Ek Ef E1 E2 E3 E4 E5 E6 E7 E8 E9 E10 E11 E12.
  assert (forall a, rspare s' a = rspare s a) as Hsp by (intros a; unfold rspare; by rewrite Eo, E7).
  constructor; [|constructor; try done|rewrite E7; lia].
  - exists ys. rewrite app_nil_r. split; [|by unfold stream; rewrite E6]. constructor; [by rewrite Eo, E7|by intros a; rewrite Hsp|by rewrite Eo, E7, E8].
  - intros a o _ Ho. exists o. by rewrite Eo.
Qed.

Lemma client_class (c : client) :
  exists lim, client_obuf_limits C !! Z.to_nat (if getClientType c =? CLIENT_TYPE_MASTER then CLIENT_TYPE_NORMAL else getClientType c) = Some lim.
Proof.
  apply lookup_lt_is_Some. rewrite limits_length. unfold getClientType.
  destruct (has _ _); [by apply Nat.ltb_lt|]. destruct (_ && _); [by apply Nat.ltb_lt|]. destruct (has _ _); by apply Nat.ltb_lt.
Qed.

Lemma limits_wp s z (Q : bool -> state -> Prop) :
  pending s z -> (forall b s', emitted 0 s s' z [] -> Q b s') -> wp (checkClientOutputBufferLimits C) Q s.
Proof.
  intros Hp HQ. unfold checkClientOutputBufferLimits. wp_step. destruct (client_class (cl s)) as [lim Hlim].
  apply wp_bind. eapply wp_lift; [exact Hlim|]. apply wp_bind.
  assert (forall t, emitted 0 s (set_cl (set_cout (fun o => COutput (cbuf o) (reply o) (reply_bytes o) (sentlen o) t)) s) z []) as Hsoft.
  { intros t. apply quiet_emitted; done || apply more_refl. }
  destruct (_ && _).
  - destruct (_ =? 0); [unfold set_soft_time, set_out; wp_step; wp_step; wp_step; apply HQ, Hsoft|].
    wp_step. wp_step. apply HQ. by apply emitted_refl.
  - unfold set_soft_time, set_out. wp_step. wp_step. wp_step. apply HQ, Hsoft.
Qed.

Lemma async_wp s z (Q : unit -> state -> Prop) :
  pending s z -> Z.of_nat (length (replies s)) <= LIST_LIMIT -> (forall s', emitted 0 s s' z [] -> Q tt s') ->
  wp (asyncCloseClientOnOutputBufferLimitReached C) Q s.
Proof.
  intros Hp Hlim HQ. unfold asyncCloseClientOnOutputBufferLimitReached. wp_step. pose proof Hp as (ys & Hrep & Hst).
  apply wp_bind. apply wp_check.
  { apply Z.ltb_lt. rewrite (or_bytes _ _ Hrep). pose proof (mems_range (objects s) (replies s)). unfold LIST_LIMIT in Hlim.
    assert (Z.of_nat (length (replies s)) * 2 ^ 40 <= 2 ^ 20 * 2 ^ 40) by (apply Z.mul_le_mono_nonneg_r; lia). lia. }
  destruct (_ || _); [apply wp_skip, HQ; by apply emitted_refl|]. apply wp_bind. eapply limits_wp; [done|].
  intros over s1 He1. destruct over; [|by apply wp_skip, HQ]. unfold freeClientAsync. wp_step.
  destruct (_ || _); [by apply wp_skip, HQ|]. unfold add_flag. wp_step. apply wp_modify. apply HQ.
  apply (emitted_trans 0 0 s s1 _ z [] [] He1). apply quiet_emitted; try done; [apply He1|].
  exists CLIENT_CLOSE_ASAP. split; [done|reflexivity].
Qed.

(** ** Adding to the list *)

(** A reference to a string, its object new or shared, is got for the list. *)
Record got h h' a x : Prop := Got {
  gt_item : item h' a x;
  gt_count : forall b, count h' b = count h b + (if decide (b = a) then 1 else 0);
  gt_kept : kept h h' (fun _ => True)
}.

Definition gets_ref s (new : M state addr) x : Prop :=
  wp new (fun a s' => exists h, s' = set_objects (fun _ => h) s /\ got (objects s) h a x) s.

Lemma item_mem h a y : item h a y -> exists o, h !! a = Some o /\ getStringObjectSdsUsedMemory C o = Some (mem h a).
Proof.
  intros (o & Ho & Hs & _). exists o. split; [done|]. unfold mem. rewrite Ho. by destruct (used_some o y Hs) as [m ->].
Qed.

Lemma push_wp s ys new x (Q : unit -> state -> Prop) :
  out_rep s ys -> gets_ref s new x -> Z.of_nat (length (replies s)) < LIST_LIMIT ->
  (forall s', emitted 1 s s' (stream s ys) x -> Q tt s') -> wp (a ← new; push_reply C a) Q s.
Proof.
  intros Hrep Hnew Hlim HQ. apply wp_bind. eapply wp_mono; [exact Hnew|]. intros a s1 (h & -> & [Hi Hc Hk]).
  unfold push_reply. apply wp_bind, set_reply_wp. cbn [objects set_objects]. destruct (item_mem h a x Hi) as (o & Ho & Hm).
  apply wp_bind. eapply get_object_wp; [exact Ho|]. apply wp_bind. eapply wp_lift; [exact Hm|].
  change (with_list (set_objects _ s) h _ _) with (with_list s h (replies s ++ [a]) (reply_bytes (cout (cl s)))).
  assert (kept (objects s) h (fun b => b ∈ replies s)) as Hkl by (intros b ob _; by apply Hk).
  apply add_reply_bytes_wp. assert (u64 (reply_bytes (cout (cl s)) + mem h a) = mems h (replies s ++ [a])) as ->.
  { rewrite (or_bytes _ _ Hrep), <- (mems_kept _ h _ ys Hkl) by apply Hrep. rewrite <- (Z.add_0_r (mem h a)).
    change (mem h a + 0) with (mems h [a]). rewrite <- mems_app. apply mems_u64. rewrite length_app. cbn. lia. }
  apply HQ, (list_emitted s ys h (replies s ++ [a]) (ys ++ [x])); [done| | | | |].
  - apply Forall2_app; [eapply items_kept; [exact Hkl|apply Hrep]|by constructor].
  - rewrite concat_app. cbn. by rewrite app_nil_r.
  - intros b. rewrite Hc, rocc_app, rocc_single. unfold rspare. lia.
  - intros b ob _. by apply Hk.
  - rewrite length_app. cbn. lia.
Qed.

Lemma can_append_spec (o : robj P) y n : str_obj o y -> can_append o n = true ->
  encoding o = OBJ_ENCODING_RAW /\ Z.of_nat (length y) + n <= PROTO_REPLY_CHUNK_BYTES.
Proof.
  intros Hs Hc. unfold can_append in Hc. apply andb_true_iff in Hc as [He%Z.eqb_eq Hc]. split; [done|].
  destruct (encoded_string o y Hs (raw_encoded _ He)) as (sd & Hp & Hsd). rewrite Hp, (sds_rep_len _ _ Hsd) in Hc. lia.
Qed.

Lemma add_to_list_wp s z new x (Q : unit -> state -> Prop) :
  pending s z -> gets_ref s new x -> Z.of_nat (length (replies s)) < LIST_LIMIT ->
  (forall s', emitted 1 s s' z (unless_closing s x) -> Q tt s') -> wp (add_to_list C x new) Q s.
Proof.
  intros Hp Hnew Hlim HQ. unfold add_to_list, unless_closing, closing in *. wp_step.
  destruct (has _ _); [apply wp_skip, HQ; by eapply emitted_mono; [apply emitted_refl|lia]|].
  pose proof Hp as (ys & Hrep & <-). apply wp_bind.
  apply (wp_mono _ (fun _ s1 => emitted 1 s s1 (stream s ys) x)).
  - destruct (last (reply (cout (cl s)))) as [t|] eqn:Hlast; [|by eapply push_wp].
    apply last_Some in Hlast as [l Hl]. pose proof (or_items _ _ Hrep) as Hi. unfold replies in Hi. rewrite Hl in Hi.
    apply Forall2_app_inv_l in Hi as (ys0 & yl & Hi & Ht & ->). apply Forall2_cons_inv_l in Ht as (y & yl' & (o & Ho & Hs & He) & Hn & ->).
    apply Forall2_nil_inv_l in Hn as ->. apply wp_bind. eapply get_object_wp; [exact Ho|].
    destruct (can_append o _) eqn:Hc; [|by eapply push_wp]. destruct (can_append_spec _ _ _ Hs Hc) as [Hr Hlen].
    eapply append_wp; [exact Hrep|exact Hl|done..| |lia|done]. unfold PROTO_REPLY_CHUNK_BYTES, SDS_LIMIT in *. lia.
  - intros _ s1 He. eapply async_wp; [apply He| |].
    + pose proof (em_length _ _ _ _ _ He). lia.
    + intros s2 He2. apply HQ. pose proof (emitted_trans _ _ _ _ _ _ _ _ He He2) as H. by rewrite app_nil_r in H.
Qed.

(** ** Replies *)

(** Room for [k] more replies in the list, and in the counts. *)
Record roomy s (k : nat) : Prop := Roomy {
  rm_list : Z.of_nat (length (replies s)) + Z.of_nat k <= LIST_LIMIT;
  rm_count : forall a, rspare s a < 2 ^ 30
}.

Lemma roomy_emitted k1 k2 s s' z x : roomy s (k1 + k2) -> emitted k1 s s' z x -> roomy s' k2.
Proof. intros [H1 H2] [_ F L]. constructor; [lia|]. intros a. by rewrite (of_spare _ _ F). Qed.

Lemma roomy_mono k k' s : roomy s k' -> (k <= k')%nat -> roomy s k.
Proof. intros [H1 H2] Hk. constructor; [lia|done]. Qed.

Lemma roomy_count s k a : roomy s k -> count (objects s) a < 2 ^ 31 - 8.
Proof.
  intros [H1 H2]. specialize (H2 a). unfold rspare in H2. pose proof (rocc_le a (replies s)). unfold LIST_LIMIT in *. lia.
Qed.

Definition said s x : bytes := if talks (cl s) then x else [].

(** A program that sends [x], in at most [k] new nodes. *)
Definition says k s (m : M state unit) x : Prop :=
  forall z, pending s z -> roomy s k -> wp m (fun _ s' => emitted k s s' z (said s x)) s.

Lemma said_frame s s' x : out_frame s s' -> said s' x = said s x.
Proof. intros F. unfold said. by rewrite (talks_frame _ _ F). Qed.

Lemma said_app s x y : said s (x ++ y) = said s x ++ said s y.
Proof. unfold said. by destruct (talks _). Qed.

Lemma says_mono k k' s m x : says k s m x -> (k <= k')%nat -> says k' s m x.
Proof.
  intros H Hk z Hp Hr. eapply wp_mono; [by apply H; [|eapply roomy_mono]|]. intros [] s' He. by eapply emitted_mono.
Qed.

Lemma says_bind k1 k2 s (m1 m2 : M state unit) x1 x2 :
  says k1 s m1 x1 -> (forall s1, out_frame s s1 -> says k2 s1 m2 x2) -> says (k1 + k2) s (m1 ≫= fun _ => m2) (x1 ++ x2).
Proof.
  intros H1 H2 z Hp Hr. apply wp_bind. eapply wp_mono; [by apply H1; [|eapply roomy_mono; [done|lia]]|].
  intros [] s1 He1. eapply wp_mono; [apply (H2 s1 (em_frame _ _ _ _ _ He1)); [apply He1|by eapply roomy_emitted]|].
  intros [] s2 He2. rewrite (said_frame s s1 x2 (em_frame _ _ _ _ _ He1)) in He2. rewrite said_app. by eapply emitted_trans.
Qed.

(** The client is made ready first, or takes nothing. *)
Lemma prepare_wp s z (Q : bool -> state -> Prop) :
  pending s z ->
  (forall s', emitted 0 s s' z [] -> objects s' = objects s -> replies s' = replies s -> Q (prepares (cl s)) s') ->
  wp prepareClientToWrite Q s.
Proof.
  intros Hp HQ. pose proof (fun H => HQ s H eq_refl eq_refl) as Hs. specialize (Hs (emitted_refl _ _ Hp)).
  unfold prepareClientToWrite, prepares in *. wp_step.
  destruct (has (flags (cl s)) CLIENT_LUA); cbn [orb] in *; [by wp_step|].
  destruct (has (flags (cl s)) (Z.lor _ _)); cbn [andb negb] in *; [by wp_step|].
  destruct (has (flags (cl s)) CLIENT_MASTER && _); cbn [andb negb] in *; [by wp_step|].
  destruct (fd (cl s) <=? 0); cbn [negb] in *; [by wp_step|]. apply wp_bind. destruct (_ && _).
  - unfold add_flag. wp_step. wp_step. wp_step. apply HQ; [|done..]. apply quiet_emitted; try done.
    exists CLIENT_PENDING_WRITE. split; [done|reflexivity].
  - apply wp_skip. by wp_step.
Qed.

Lemma prepared_says k s (body : M state unit) x :
  (forall s1 z, objects s1 = objects s -> replies s1 = replies s -> out_frame s s1 -> pending s1 z -> roomy s1 k ->
     wp body (fun _ s' => emitted k s1 s' z (unless_closing s1 x)) s1) ->
  says k s (ok ← prepareClientToWrite; if negb ok then skip else body) x.
Proof.
  intros Hb z Hp Hr. apply wp_bind. eapply prepare_wp; [done|]. intros s1 He1 Ho Hl.
  unfold said, talks, closing in *. destruct (prepares (cl s)) eqn:Hpr; cbn [negb andb].
  - eapply wp_mono; [apply (Hb s1 z Ho Hl)|].
    + apply He1.
    + pose proof (em_pending _ _ _ _ _ He1) as H. by rewrite app_nil_r in H.
    + by eapply (roomy_emitted 0).
    + intros [] s2 He2. pose proof (emitted_trans 0 k s s1 s2 z [] (unless_closing s1 x) He1) as H. rewrite app_nil_r in H. specialize (H He2).
      unfold unless_closing in H. rewrite (closing_frame s s1) in H by apply He1. unfold closing in H. by destruct (has _ _).
  - apply wp_skip. eapply emitted_mono; [exact He1|lia].
Qed.

(** A string goes to the buffer or, when it does not fit, to the list. *)
Lemma buffered_wp s z x (rest : M state unit) k :
  pending s z -> (closing (cl s) = false -> wp rest (fun _ s' => emitted k s s' z (unless_closing s x)) s) ->
  wp (done ← _addReplyToBuffer x; if (done : bool) then skip else rest) (fun _ s' => emitted k s s' z (unless_closing s x)) s.
Proof.
  intros Hp Hrest. apply wp_bind. eapply buffer_wp; [done| |done]. intros s' He. apply wp_skip. eapply emitted_mono; [exact He|lia].
Qed.

Lemma new_string_gets s x : Z.of_nat (length x) < SDS_LIMIT ->
  gets_ref s (new_object C (fun a h => createStringObject (senv C) a h (Some x) (Z.of_nat (length x)))) x.
Proof.
  intros Hx. unfold gets_ref, new_object. wp_step. set (a := alloc_object C (dom (objects s))).
  assert (objects s !! a = None) as Ha by (apply not_elem_of_dom, alloc_object_fresh).
  destruct (create_spec (senv C) (objects s) a x x []) as (o & Hc & Ho & Hr & He); [by rewrite app_nil_r|done|].
  apply wp_bind. eapply wp_lift; [exact Hc|]. wp_step. wp_step. eexists. split; [done|]. constructor.
  - exists o. split; [apply lookup_insert_eq|done].
  - intros b. rewrite count_insert. destruct (decide (b = a)) as [->|]; [rewrite (count_None _ _ Ha); lia|lia].
  - intros b ob _ Hob. exists ob. split; [|done]. rewrite lookup_insert_ne by congruence. exact Hob.
Qed.

Lemma shared_gets s a y : item (objects s) a y -> 0 < count (objects s) a < 2 ^ 31 - 1 ->
  gets_ref s (_ ← on_heap (fun h => incrRefCount h a); mret a) y.
Proof.
  intros (o & Ho & Hs & He) Hc. rewrite (count_Some _ _ _ Ho) in Hc. unfold gets_ref.
  apply wp_bind. unfold on_heap. wp_step. apply wp_bind. eapply wp_lift; [by apply (incr_spec _ _ _ Ho); lia|].
  wp_step. wp_step. eexists. split; [done|]. constructor.
  - eexists. split; [apply lookup_insert_eq|]. split; [exact Hs|exact He].
  - intros b. rewrite count_insert. cbn [refcount set_refcount]. destruct (decide (b = a)) as [->|]; [rewrite (count_Some _ _ _ Ho); lia|lia].
  - intros b ob _ Hob. destruct (decide (b = a)) as [->|].
    + rewrite lookup_insert_eq. eexists. split; [done|]. rewrite Ho in Hob. by injection Hob as <-.
    + exists ob. by rewrite lookup_insert_ne.
Qed.

Lemma addReplyString_says s x : Z.of_nat (length x) < SDS_LIMIT -> says 1 s (addReplyString C x) x.
Proof.
  intros Hx. apply prepared_says. intros s1 z _ _ _ Hp Hr. apply buffered_wp; [done|]. intros _.
  eapply add_to_list_wp; [done|by apply new_string_gets| |done]. pose proof (rm_list _ _ Hr). lia.
Qed.

Lemma object_str_spec (o : robj P) y : str_obj o y -> sdsEncodedObject o = true -> object_str o = Some y.
Proof.
  intros Ho He. destruct (encoded_string o y Ho He) as (sd & Hp & Hs). unfold object_str. rewrite Hp.
  cbn [as_sds mbind option_bind]. by eapply sds_rep_read.
Qed.

Lemma add_encoded_wp s z a y :
  pending s z -> roomy s 1 -> item (objects s) a y -> 0 < count (objects s) a ->
  wp (add_encoded C a) (fun _ s' => emitted 1 s s' z (unless_closing s y)) s.
Proof.
  intros Hp Hr Hi Hc. pose proof (roomy_count _ _ a Hr). pose proof Hi as (o & Ho & Hs & He). unfold add_encoded.
  apply wp_bind. eapply get_object_wp; [exact Ho|]. apply wp_bind. eapply wp_lift; [by eapply object_str_spec|].
  apply buffered_wp; [done|]. intros _. unfold _addReplyObjectToList.
  apply wp_bind. eapply get_object_wp; [exact Ho|]. apply wp_bind. eapply wp_lift; [by eapply object_str_spec|].
  eapply add_to_list_wp; [done|apply shared_gets; [done|lia]| |done]. pose proof (rm_list _ _ Hr). lia.
Qed.

(** An object the caller holds, encoded or not. *)
Definition avail s a y : Prop := (exists o, objects s !! a = Some o /\ str_obj o y) /\ 0 < rspare s a.

Lemma avail_frame s s' a y : out_frame s s' -> avail s a y -> avail s' a y.
Proof.
  intros F [(o & Ho & Hs) Hp]. destruct (of_kept _ _ F a o Hp Ho) as (o' & Ho' & Hv).
  split; [|by rewrite (of_spare _ _ F)]. exists o'. split; [done|]. by eapply str_obj_same.
Qed.

Lemma spare_count s ys a : out_rep s ys -> 0 < rspare s a -> 0 < count (objects s) a.
Proof. intros _. unfold rspare. pose proof (rocc_nonneg a (replies s)). lia. Qed.

Lemma sub_kept h h' (Pa : addr -> Prop) : heap_sub h h' -> (forall a, Pa a -> is_Some (h' !! a)) -> kept h h' Pa.
Proof.
  intros Hs Hl a o Ha Ho. destruct (Hl a Ha) as [o' Ho']. exists o'. split; [done|].
  destruct (Hs a o' Ho') as (o1 & H1 & Hv). rewrite Ho in H1. by injection H1 as <-.
Qed.

(** The heap changes around what the list holds. *)
Lemma pending_heap s z h :
  pending s z -> kept (objects s) h (fun a => a ∈ replies s) -> (forall a, rocc a (replies s) <= count h a) ->
  pending (set_objects (fun _ => h) s) z.
Proof.
  intros (ys & [H1 H2 H3] & Hst) Hk Hc. exists ys. split; [|exact Hst]. constructor.
  - eapply items_kept; [exact Hk|exact H1].
  - intros a. unfold rspare, replies in *. cbn in *. specialize (Hc a). lia.
  - change (reply_bytes (cout (cl s)) = mems h (replies s)). rewrite H3. symmetry. by eapply mems_kept.
Qed.

(** A reference taken for the time of the reply: the object is decoded, sent
    and given back. *)
Lemma decoded_wp s z a y (o : robj P) :
  pending s z -> roomy s 1 -> objects s !! a = Some o -> str_obj o y -> 0 < rspare s a -> Z.of_nat (length y) < SDS_LIMIT ->
  sdsEncodedObject o = false ->
  wp (h ← gets objects;
      '(h, d) ← lift (getDecodedObject (senv C) (alloc_object C (dom h)) h a);
      _ ← modify (set_objects (fun _ => h));
      _ ← add_encoded C d;
      on_heap (fun h => decrRefCount h d)) (fun _ s' => emitted 1 s s' z (unless_closing s y)) s.
Proof.
  intros Hp Hr Ho Hs Hsp Hlen He. wp_step. set (f := alloc_object C (dom (objects s))).
  assert (objects s !! f = None) as Hf by (apply not_elem_of_dom, alloc_object_fresh).
  pose proof (roomy_count _ _ a Hr) as Hroom. pose proof Hp as (ys & Hrep & _). pose proof (spare_count _ _ _ Hrep Hsp) as Hpos.
  rewrite (count_Some _ _ _ Ho) in Hroom, Hpos.
  destruct (decode_spec (senv C) f (objects s) a o y Hf Ho Hs) as (h & d & od & Hd & Hod & Hsd & Hed & -> & Hrd & Hcase); [lia|done|].
  destruct Hcase as [[-> ->]|[-> _]]; [cbn in Hed; unfold sdsEncodedObject in *; cbn in Hed; congruence|].
  rewrite (count_None _ _ Hf) in Hrd. apply wp_bind. eapply wp_lift; [exact Hd|]. wp_step.
  set (h := <[f := od]> (objects s)). set (s2 := set_objects (fun _ => h) s).
  assert (kept (objects s) h (fun _ => True)) as Hk.
  { intros b ob _ Hob. exists ob. split; [|done]. unfold h. rewrite lookup_insert_ne by congruence. exact Hob. }
  assert (forall b, count h b = count (objects s) b + (if decide (b = f) then 1 else 0)) as Hch.
  { intros b. unfold h. rewrite count_insert. destruct (decide (b = f)) as [->|]; [rewrite (count_None _ _ Hf); lia|lia]. }
  assert (forall b, rspare s2 b = rspare s b + (if decide (b = f) then 1 else 0)) as Hsp2.
  { intros b. unfold rspare, s2, replies. cbn. rewrite Hch. lia. }
  assert (rspare s f = 0) as Hsf.
  { pose proof (or_refs _ _ Hrep f) as H. unfold rspare in *. rewrite (count_None _ _ Hf) in *. pose proof (rocc_nonneg f (replies s)). lia. }
  assert (pending s2 z) as Hp2.
  { apply pending_heap; [done|intros b ob _; by apply Hk|]. intros b. rewrite Hch. pose proof (or_refs _ _ Hrep b) as H. unfold rspare in H.
    destruct (decide _); lia. }
  assert (roomy s2 1) as Hr2.
  { constructor; [apply Hr|]. intros b. rewrite Hsp2. pose proof (rm_count _ _ Hr b). destruct (decide (b = f)) as [->|]; lia. }
  apply wp_bind. eapply wp_mono; [eapply add_encoded_wp; [exact Hp2|exact Hr2| |]|].
  { exists od. split; [apply lookup_insert_eq|done]. }
  { change (0 < count h f). rewrite Hch, decide_True by done. rewrite (count_None _ _ Hf). lia. }
  intros [] s3 [Hp3 F3 L3]. change (unless_closing s2 y) with (unless_closing s y) in *.
  assert (0 < rspare s2 f) as Hf2 by (rewrite Hsp2, decide_True by done; lia).
  destruct (of_kept _ _ F3 f od Hf2 Hod) as (o3 & Ho3 & Hv3). pose proof Hp3 as (ys3 & Hrep3 & _).
  assert (0 < rspare s3 f) as Hf3 by (by rewrite (of_spare _ _ F3)).
  pose proof (spare_count _ _ _ Hrep3 Hf3) as Hc3. rewrite (count_Some _ _ _ Ho3) in Hc3.
  destruct (decr_ok (objects s3) f o3 Ho3 Hc3) as (h4 & Hd4 & Hsub4 & Hc4).
  { rewrite (freeable_same _ _ Hv3). unfold freeable. by rewrite (proj1 Hsd). }
  unfold on_heap. wp_step. apply wp_bind. eapply wp_lift; [exact Hd4|]. apply wp_modify. set (s4 := set_objects (fun _ => h4) s3).
  assert (forall b, rspare s4 b = rspare s b) as Hsp4.
  { intros b. unfold rspare at 1. unfold s4, replies. cbn. rewrite Hc4. fold (replies s3). pose proof (of_spare _ _ F3 b) as H.
    unfold rspare at 1 in H. rewrite Hsp2 in H. lia. }
  assert (forall b, 0 <= rspare s b) as Hnn by apply Hrep.
  constructor; [| |exact L3].
  - apply pending_heap; [done| |].
    + apply sub_kept; [done|]. intros b Hb. apply count_live. pose proof (rocc_pos b _ Hb). specialize (Hsp4 b). specialize (Hnn b).
      unfold rspare at 1 in Hsp4. unfold s4, replies in Hsp4. cbn in Hsp4. fold (replies s3) in Hsp4. lia.
    + intros b. specialize (Hsp4 b). specialize (Hnn b). unfold rspare at 1 in Hsp4. unfold s4, replies in Hsp4. cbn in Hsp4. fold (replies s3) in Hsp4. lia.
  - destruct F3 as [B1 B2 B3 B4 B5 B6 B7 B8 B9 B10 B11 B12]. constructor; try done.
    intros b ob Hb Hob. destruct (Hk b ob I Hob) as (o1 & Ho1 & Hv1). assert (b <> f) as Hbf by (intros ->; lia).
    destruct (B10 b o1) as (o2 & Ho2 & Hv2); [rewrite Hsp2; destruct (decide _); lia|done|].
    assert (is_Some (h4 !! b)) as [o5 Ho5].
    { apply count_live. specialize (Hsp4 b). unfold rspare at 1 in Hsp4. unfold s4, replies in Hsp4. cbn in Hsp4. pose proof (rocc_nonneg b (reply (cout (cl s3)))). lia. }
    exists o5. split; [done|]. destruct (Hsub4 b o5 Ho5) as (o6 & H6 & Hv6). rewrite Ho2 in H6. injection H6 as <-.
    eapply same_value_trans; [|exact Hv6]. by eapply same_value_trans.
Qed.

Lemma digits_loop_spec fuel : forall n len,
  0 <= n < 10 ^ Z.of_nat (S fuel) -> (fuel <= 62)%nat ->
  digits_loop fuel n len = Some (len + Z.of_nat (length (udecimal n)) - 1).
Proof.
  induction fuel as [|fuel IH]; intros n len Hn Hf; cbn [digits_loop]; rewrite Z.quot_div_nonneg by lia.
  - change (10 ^ Z.of_nat 1) with 10 in Hn. rewrite Z.div_small by lia. rewrite udecimal_digit by lia. cbn. f_equal. lia.
  - destruct (Z.eqb_spec (n / 10) 0) as [E|E].
    + assert (n < 10) by dlia. rewrite udecimal_digit by lia. cbn. f_equal. lia.
    + assert (10 ^ Z.of_nat (S (S fuel)) <= 10 ^ 64) by (apply Z.pow_le_mono_r; lia).
      assert (10 ^ Z.of_nat (S (S fuel)) = 10 * 10 ^ Z.of_nat (S fuel)) as Epow.
      { rewrite <- Z.pow_succ_r by lia. f_equal. lia. }
      rewrite IH; [|dlia|lia]. rewrite (udecimal_step n) by dlia. rewrite length_app. cbn [length]. f_equal. lia.
Qed.

Lemma bulk_len_spec (o : robj P) y : str_obj o y -> bulk_len o = Some (Z.of_nat (length y)).
Proof.
  intros Hs. unfold bulk_len. destruct (sdsEncodedObject o) eqn:He.
  - destruct (encoded_string o y Hs He) as (sd & Hp & Hsd). rewrite Hp. cbn. by rewrite (sds_rep_len _ _ Hsd).
  - destruct (int_string o y Hs He) as (_ & v & Hp & Hv & ->). rewrite Hp. cbn [as_long mbind option_bind].
    assert (10 ^ Z.of_nat 21 = 1000000000000000000000) as Epow by reflexivity. pose proof Hv as Hv'. unfold is_signed in Hv'.
    unfold decimal. destruct (Z.ltb_spec v 0).
    + destruct (Z.eq_dec v LLONG_MIN) as [->|Hne]; [by vm_compute|].
      rewrite wraps_small by (unfold is_signed, LLONG_MIN in *; lia). rewrite digits_loop_spec by lia. cbn [length]. f_equal. lia.
    + rewrite digits_loop_spec by lia. f_equal. lia.
Qed.

Lemma addReply_says s a y : avail s a y -> Z.of_nat (length y) < SDS_LIMIT -> says 1 s (addReply C a) y.
Proof.
  intros [(o & Ho & Hs) Hsp] Hlen. apply prepared_says. intros s1 z Eo El _ Hp Hr. rewrite <- Eo in Ho.
  assert (0 < rspare s1 a) as Hsp1 by (unfold rspare in *; by rewrite Eo, El).
  pose proof Hp as (ys & Hrep & _). pose proof (spare_count _ _ _ Hrep Hsp1) as Hpos.
  apply wp_bind. eapply get_object_wp; [exact Ho|]. destruct (sdsEncodedObject o) eqn:He.
  { eapply add_encoded_wp; [done|done|by exists o|done]. }
  destruct (int_string o y Hs He) as (Hint & v & Hv & Hll & Ey). rewrite Hint. change (OBJ_ENCODING_INT =? OBJ_ENCODING_INT) with true. cbn iota.
  wp_step. apply wp_bind.
  apply (wp_mono _ (fun (fast : bool) s2 => if fast then emitted 1 s1 s2 z (unless_closing s1 y) else s2 = s1)).
  { destruct (_ && _); [|by apply wp_ret]. apply wp_bind. eapply wp_lift; [by rewrite Hv|].
    destruct (print_spec (senv C) 32 v Hll) as (tl & Hprint); [lia|]. change (Z.of_nat 32) with 32 in Hprint.
    apply wp_bind. eapply wp_lift; [exact Hprint|]. cbn beta iota. apply wp_bind. eapply wp_lift; [rewrite Nat2Z.id; by apply rdn_app0|].
    rewrite <- Ey. eapply buffer_wp; [done| |done]. intros s2 He2. eapply emitted_mono; [exact He2|lia]. }
  intros [] s2 H2; [by apply wp_skip|]. subst s2. by eapply decoded_wp.
Qed.

Lemma addReplySds_says s (sd : sds) x : sds_rep sd x -> says 1 s (addReplySds C sd) x.
Proof.
  intros Hsd. assert (rdn (Sds.buf sd) 0 (Z.to_nat (sdslen sd)) = Some x) as Hrd by (by eapply sds_rep_read).
  apply prepared_says. intros s1 z _ _ _ Hp Hr. apply wp_bind. eapply wp_lift; [exact Hrd|].
  apply buffered_wp; [done|]. intros _. unfold _addReplySdsToList. apply wp_bind. eapply wp_lift; [exact Hrd|].
  eapply add_to_list_wp; [done| | |done]; [|pose proof (rm_list _ _ Hr); lia].
  unfold gets_ref, new_object. wp_step. set (a := alloc_object C (dom (objects s1))).
  assert (objects s1 !! a = None) as Ha by (apply not_elem_of_dom, alloc_object_fresh). unfold createObject.
  apply wp_bind. eapply wp_lift; [done|]. wp_step. wp_step. eexists. split; [done|]. constructor.
  - eexists. split; [apply lookup_insert_eq|]. split; [|done]. split; [done|]. left. split; [done|]. by exists sd.
  - intros b. rewrite count_insert. destruct (decide (b = a)) as [->|]; [rewrite (count_None _ _ Ha); cbn; lia|lia].
  - intros b ob _ Hob. exists ob. split; [|done]. rewrite lookup_insert_ne by congruence. exact Hob.
Qed.

(** ** The protocol *)

Definition header (p n : Z) : bytes := p :: decimal n ++ CRLF.
Definition bulk (x : bytes) : bytes := header 36 (Z.of_nat (length x)) ++ x ++ CRLF.
Definition error_line (x : bytes) : bytes := str "-ERR " ++ x ++ CRLF.

Definition bgsave_text : bytes :=
  str "-MISCONF Redis is configured to save RDB snapshots, but is currently not able to persist on disk. Commands that may modify the data set are disabled. Please check Redis logs for details about the error." ++ CRLF.

(** The replies the server shares have the bytes they stand for; [av] is how
    they are available. *)
Record shared_by (av : addr -> bytes -> Prop) : Prop := SharedBy {
  sr_crlf : av (crlf (shared C)) CRLF;
  sr_ok : av (ok (shared C)) (str "+OK" ++ CRLF);
  sr_czero : av (czero (shared C)) (header 58 0);
  sr_cone : av (cone (shared C)) (header 58 1);
  sr_null : av (nullbulk (shared C)) (str "$-1" ++ CRLF);
  sr_wrongtype : av (wrongtypeerr (shared C))
    (str "-WRONGTYPE Operation against a key holding the wrong kind of value" ++ CRLF);
  sr_syntax : av (syntaxerr (shared C)) (error_line (str "syntax error"));
  sr_mbulk : forall n, 0 <= n < OBJ_SHARED_BULKHDR_LEN -> exists a, mbulkhdr (shared C) !! Z.to_nat n = Some a /\ av a (header 42 n);
  sr_bulk : forall n, 0 <= n < OBJ_SHARED_BULKHDR_LEN -> exists a, bulkhdr (shared C) !! Z.to_nat n = Some a /\ av a (header 36 n);
  sr_noauth : av (noautherr (shared C)) (str "-NOAUTH Authentication required." ++ CRLF);
  sr_bgsave : av (bgsaveerr (shared C)) bgsave_text;
  sr_loading : av (loadingerr (shared C)) (str "-LOADING Redis is loading the dataset in memory" ++ CRLF);
  sr_queued : av (queued (shared C)) (str "+QUEUED" ++ CRLF)
}.

Lemma shared_by_mono (av av' : addr -> bytes -> Prop) : (forall a y, av a y -> av' a y) -> shared_by av -> shared_by av'.
Proof.
  intros H []. constructor; try by apply H.
  - intros n Hn. edestruct sr_mbulk0 as (a & Ha & Hv); [done|]. exists a. split; [done|]. by apply H.
  - intros n Hn. edestruct sr_bulk0 as (a & Ha & Hv); [done|]. exists a. split; [done|]. by apply H.
Qed.

Definition shared_replies s : Prop := shared_by (avail s).

Lemma shared_frame s s' : out_frame s s' -> shared_replies s -> shared_replies s'.
Proof. intros F. apply shared_by_mono. intros a y. by apply avail_frame. Qed.

Lemma says_lift (k : nat) s {A} (o : option A) (v : A) (m : A -> M state unit) x :
  o = Some v -> says k s (m v) x -> says k s (lift o ≫= m) x.
Proof. intros Ho Hm z Hp Hr. apply wp_bind. eapply wp_lift; [exact Ho|]. by apply Hm. Qed.

Lemma header_small n p : is_llong n -> Z.of_nat (length (header p n)) < SDS_LIMIT.
Proof.
  intros Hn. unfold header. cbn [length]. rewrite length_app. pose proof (decimal_length_20 n Hn). unfold SDS_LIMIT.
  change (length CRLF) with 2%nat. lia.
Qed.

Lemma addReplyLongLongWithPrefix_says s ll p :
  shared_replies s -> is_llong ll -> says 1 s (addReplyLongLongWithPrefix C ll p) (header p ll).
Proof.
  intros Hsr Hll. unfold addReplyLongLongWithPrefix. pose proof (header_small ll p Hll) as Hlen.
  destruct ((p =? 42) && (ll <? OBJ_SHARED_BULKHDR_LEN) && (ll >=? 0)) eqn:E1.
  { apply andb_true_iff in E1 as [[->%Z.eqb_eq E2]%andb_true_iff E3].
    destruct (sr_mbulk _ Hsr ll) as (a & Ha & Hv); [lia|]. eapply says_lift; [exact Ha|]. by apply addReply_says. }
  destruct ((p =? 36) && (ll <? OBJ_SHARED_BULKHDR_LEN) && (ll >=? 0)) eqn:E4.
  { apply andb_true_iff in E4 as [[->%Z.eqb_eq E2]%andb_true_iff E3].
    destruct (sr_bulk _ Hsr ll) as (a & Ha & Hv); [lia|]. eapply says_lift; [exact Ha|]. by apply addReply_says. }
  destruct (print_spec (senv C) 127 ll Hll) as (tl & Hprint); [lia|]. change (Z.of_nat 127) with 127 in Hprint.
  eapply says_lift; [exact Hprint|]. cbn beta iota. eapply says_lift; [rewrite Nat2Z.id; by apply rdn_app0|].
  by apply addReplyString_says.
Qed.

Lemma addReplyLongLong_says s ll : shared_replies s -> is_llong ll -> says 1 s (addReplyLongLong C ll) (header 58 ll).
Proof.
  intros Hsr Hll. unfold addReplyLongLong. destruct (Z.eqb_spec ll 0) as [->|]; [by apply addReply_says; [apply Hsr|]|].
  destruct (Z.eqb_spec ll 1) as [->|]; [by apply addReply_says; [apply Hsr|]|]. by apply addReplyLongLongWithPrefix_says.
Qed.

Lemma addReplyMultiBulkLen_says s n : shared_replies s -> is_llong n -> 0 <= n -> says 1 s (addReplyMultiBulkLen C n) (header 42 n).
Proof.
  intros Hsr Hll Hn. unfold addReplyMultiBulkLen. destruct (Z.ltb_spec n OBJ_SHARED_BULKHDR_LEN) as [Hlt|Hge].
  - intros z Hp Hr. apply wp_bind. apply wp_check; [by apply Z.geb_le|]. destruct (sr_mbulk _ Hsr n) as (a & Ha & Hv); [lia|].
    apply wp_bind. eapply wp_lift; [exact Ha|]. by apply addReply_says; [|apply header_small| |].
  - by apply addReplyLongLongWithPrefix_says.
Qed.

Lemma addReplyBulkLen_says s a y : shared_replies s -> avail s a y -> Z.of_nat (length y) < SDS_LIMIT ->
  says 1 s (addReplyBulkLen C a) (header 36 (Z.of_nat (length y))).
Proof.
  intros Hsr [(o & Ho & Hs) Hsp] Hlen. assert (is_llong (Z.of_nat (length y))) as Hll by (unfold is_signed, SDS_LIMIT in *; lia).
  assert (says 1 s (len ← lift (bulk_len o);
    if len <? OBJ_SHARED_BULKHDR_LEN then a ← lift (bulkhdr (shared C) !! Z.to_nat len); addReply C a
    else addReplyLongLongWithPrefix C len 36) (header 36 (Z.of_nat (length y)))) as H.
  { eapply says_lift; [by apply bulk_len_spec|]. destruct (Z.ltb_spec (Z.of_nat (length y)) OBJ_SHARED_BULKHDR_LEN) as [Hlt|Hge].
    - destruct (sr_bulk _ Hsr (Z.of_nat (length y))) as (b & Hb & Hv); [lia|]. eapply says_lift; [exact Hb|].
      by apply addReply_says; [|apply header_small].
    - by apply addReplyLongLongWithPrefix_says. }
  intros z Hp Hr. unfold addReplyBulkLen. apply wp_bind. eapply get_object_wp; [exact Ho|]. by apply H.
Qed.

Lemma addReplyBulk_says s a y : shared_replies s -> avail s a y -> Z.of_nat (length y) < SDS_LIMIT ->
  says 3 s (addReplyBulk C a) (bulk y).
Proof.
  intros Hsr Ha Hlen. unfold addReplyBulk, bulk. apply (says_bind 1 2); [by apply addReplyBulkLen_says|]. intros s1 F1.
  apply (says_bind 1 1); [apply addReply_says; [by eapply avail_frame|done]|]. intros s2 F2.
  apply addReply_says; [|done]. apply (avail_frame s1 s2 _ _ F2), (avail_frame s s1 _ _ F1), Hsr.
Qed.

Lemma addReplyBulkCBuffer_says s x : shared_replies s -> Z.of_nat (length x) < SDS_LIMIT -> says 3 s (addReplyBulkCBuffer C x) (bulk x).
Proof.
  intros Hsr Hlen. unfold addReplyBulkCBuffer, bulk.
  apply (says_bind 1 2); [apply addReplyLongLongWithPrefix_says; [done|unfold is_signed, SDS_LIMIT in *; lia]|]. intros s1 F1.
  apply (says_bind 1 1); [by apply addReplyString_says|]. intros s2 F2.
  apply addReply_says; [|done]. apply (avail_frame s1 s2 _ _ F2), (avail_frame s s1 _ _ F1), Hsr.
Qed.

Lemma addReplyError_says s x : Z.of_nat (length x) < SDS_LIMIT -> says 3 s (addReplyError C x) (error_line x).
Proof.
  intros Hlen. unfold addReplyError, addReplyErrorLength, error_line.
  apply (says_bind 1 2); [by apply addReplyString_says|]. intros s1 F1.
  apply (says_bind 1 1); [by apply addReplyString_says|]. intros s2 F2. by apply addReplyString_says.
Qed.

Lemma addReplyBulkLongLong_says s v : shared_replies s -> is_llong v -> says 3 s (addReplyBulkLongLong C v) (bulk (decimal v)).
Proof.
  intros Hsr Hv. unfold addReplyBulkLongLong. destruct (print_spec (senv C) 64 v Hv) as (tl & Hprint); [lia|]. change (Z.of_nat 64) with 64 in Hprint.
  eapply says_lift; [exact Hprint|]. cbn beta iota. eapply says_lift; [rewrite Nat2Z.id; by apply rdn_app0|].
  apply addReplyBulkCBuffer_says; [done|]. pose proof (decimal_length_20 v Hv). unfold SDS_LIMIT. lia.
Qed.

(** ** Sending *)

(** What sending changes: the output of the client and the references the
    list had. *)
Record sent_frame s s' : Prop := SentFrame {
  sf_ks : ks s' = ks s;
  sf_client : set_cout (fun _ => cout (cl s)) (cl s') = cl s;
  sf_pending : clients_pending_write s' = clients_pending_write s;
  sf_to_close : clients_to_close s' = clients_to_close s;
  sf_spare : forall a, rspare s' a = rspare s a;
  sf_kept : kept (objects s) (objects s') (fun a => 0 < rspare s a)
}.

Lemma sent_frame_refl s : sent_frame s s.
Proof. constructor; try done; [by destruct s as [? ? [] ? ?]|]. intros a o _ Ho. by exists o. Qed.

Lemma sent_frame_trans s1 s2 s3 : sent_frame s1 s2 -> sent_frame s2 s3 -> sent_frame s1 s3.
Proof.
  intros [A1 A2 A3 A4 A5 A6] [B1 B2 B3 B4 B5 B6]. constructor; try congruence.
  - rewrite <- A2, <- B2. reflexivity.
  - intros a o Ha Ho. destruct (A6 a o Ha Ho) as (o2 & Ho2 & Hv). destruct (B6 a o2) as (o3 & Ho3 & Hv3); [by rewrite A5|done|].
    exists o3. split; [done|]. by eapply same_value_trans.
Qed.

(** The chunk that is being sent. *)
Definition first_chunk s ys : bytes := match cbuf (cout (cl s)) with [] => default [] (head ys) | b => b end.

(** The bytes not sent yet. *)
Definition unsent s (z : bytes) : Prop :=
  exists ys, out_rep s ys /\ drop (Z.to_nat (sentlen (cout (cl s)))) (stream s ys) = z /\
    0 <= sentlen (cout (cl s)) /\
    (sentlen (cout (cl s)) = 0 \/ sentlen (cout (cl s)) < Z.of_nat (length (first_chunk s ys))).

Lemma set_output_frame s (o : coutput) : reply o = replies s -> sent_frame s (set_cl (set_cout (fun _ => o)) s).
Proof.
  intros Hr. constructor; try done; [by destruct s as [? ? [] ? ?]| |intros a oa _ Ho; by exists oa].
  intros a. unfold rspare, replies in *. cbn. by rewrite Hr.
Qed.

Lemma set_output_rep s ys (o : coutput) : reply o = replies s -> reply_bytes o = reply_bytes (cout (cl s)) ->
  out_rep s ys -> out_rep (set_cl (set_cout (fun _ => o)) s) ys.
Proof.
  intros Hr Hb [H1 H2 H3]. unfold rspare, replies in *. constructor; unfold rspare, replies; cbn; rewrite ?Hr, ?Hb; done.
Qed.

(** The first reply is dropped. *)
Lemma pop_wp s a l y ys (Q : unit -> state -> Prop) :
  out_rep s (y :: ys) -> replies s = a :: l -> Z.of_nat (length l) <= LIST_LIMIT ->
  (forall s', out_rep s' ys -> sent_frame s s' -> replies s' = l -> cbuf (cout (cl s')) = cbuf (cout (cl s)) ->
     sentlen (cout (cl s')) = sentlen (cout (cl s)) -> Q tt s') ->
  wp (pop_reply a (mem (objects s) a)) Q s.
Proof.
  intros [H1 H2 H3] Hl Hlim HQ. rewrite Hl in H1. inversion H1 as [|? ? ? ? (o & Ho & Hs & He) Hi]; subst.
  assert (forall b, 0 <= rspare s b) as Hnn by done.
  assert (forall b, rspare s b = count (objects s) b - (if decide (b = a) then 1 else 0) - rocc b l) as Hsp.
  { intros b. unfold rspare. rewrite Hl, rocc_cons. lia. }
  assert (0 < refcount o) as Hrc.
  { pose proof (Hnn a) as H. rewrite Hsp, decide_True, (count_Some _ _ _ Ho) in H by done. pose proof (rocc_nonneg a l). lia. }
  destruct (decr_ok (objects s) a o Ho Hrc) as (h & Hd & Hsub & Hc); [unfold freeable; by rewrite (proj1 Hs)|].
  unfold pop_reply. apply wp_bind, set_reply_wp. rewrite Hl. cbn [tail]. apply wp_bind.
  unfold on_heap. wp_step. apply wp_bind. eapply wp_lift; [exact Hd|]. wp_step.
  change (set_objects _ _) with (with_list s h l (reply_bytes (cout (cl s)))). apply add_reply_bytes_wp.
  assert (kept (objects s) h (fun b => b ∈ l \/ 0 < rspare s b)) as Hk.
  { apply sub_kept; [done|]. intros b Hb. apply count_live. rewrite Hc. specialize (Hsp b). specialize (Hnn b). pose proof (rocc_nonneg b l).
    destruct Hb as [Hb|Hb]; [pose proof (rocc_pos b l Hb)|]; lia. }
  assert (u64 (reply_bytes (cout (cl s)) + - mem (objects s) a) = mems h l) as ->.
  { rewrite H3, Hl. cbn [mems]. rewrite (mems_kept (objects s) h l ys) by (done || intros b ob Hb; apply Hk; by left).
    replace (_ + _) with (mems (objects s) l) by lia. by apply mems_u64. }
  apply HQ; [| |done..].
  - constructor; [|intros b; change (0 <= count h b - rocc b l); rewrite Hc; specialize (Hsp b); specialize (Hnn b); lia|done].
    eapply items_kept; [|exact Hi]. intros b ob Hb. apply Hk. by left.
  - constructor; try done; [by destruct s as [? ? [] ? ?]| |].
    + intros b. change (count h b - rocc b l = rspare s b). rewrite Hc, Hsp. lia.
    + intros b ob Hb. apply Hk. by right.
Qed.

Lemma read_ok (m : bytes) (p n : nat) : (p + n <= length m)%nat -> rdn m p n = Some (take n (drop p m)).
Proof. intros H. unfold rdn. by rewrite decide_True. Qed.

Lemma send_buffer_wp s z n (Q : option bytes -> state -> Prop) :
  unsent s z -> cbuf (cout (cl s)) <> [] -> 0 < n <= Z.of_nat (length (cbuf (cout (cl s)))) - sentlen (cout (cl s)) ->
  (forall s' x z', z = x ++ z' -> Z.of_nat (length x) = n -> unsent s' z' -> sent_frame s s' -> replies s' = replies s -> Q (Some x) s') ->
  wp (send_buffer (cout (cl s)) (WBytes n)) Q s.
Proof.
  intros (ys & Hrep & Hz' & Hs0 & _) Hne Hn HQ. unfold send_buffer. rewrite (proj2 (Z.leb_gt _ _)) by lia.
  set (o := cout (cl s)) in *. unfold stream in Hz'. fold o in Hz'. set (k := Z.to_nat (sentlen o)) in *. set (m := Z.to_nat n).
  assert (k + m <= length (cbuf o))%nat as Hkm by lia.
  apply wp_bind. eapply wp_lift; [by apply (read_ok (cbuf o) k m)|].
  set (x := take m (drop k (cbuf o))). assert (length x = m) as Hx by (unfold x; rewrite length_take, length_drop; lia).
  assert (drop (k + m) (cbuf o ++ concat ys) = drop m z) as Hdrop by (rewrite <- Hz', drop_drop; done).
  assert (z = x ++ drop m z) as Esplit.
  { rewrite <- (take_drop m z) at 1. f_equal. rewrite <- Hz', drop_app_le by lia. rewrite take_app_le by (rewrite length_drop; lia). done. }
  unfold set_sentlen, set_out. wp_step. apply wp_bind. destruct (Z.eqb_spec (sentlen o + n) (Z.of_nat (length (cbuf o)))) as [E|E].
  - unfold set_cbuf, set_out. wp_step. wp_step. wp_step.
    set (o' := COutput [] (reply o) (reply_bytes o) 0 (obuf_soft_limit_reached_time o)).
    change (set_cl _ _) with (set_cl (set_cout (fun _ => o')) s). apply (HQ _ x (drop m z)); [done|lia| |by apply set_output_frame|done].
    exists ys. split; [by apply set_output_rep|]. split; [|by split; [|left]]. unfold stream. cbn.
    rewrite <- Hdrop, drop_app_ge by lia. replace (k + m - length (cbuf o))%nat with 0%nat by lia. done.
  - wp_step. wp_step. set (o' := COutput (cbuf o) (reply o) (reply_bytes o) (sentlen o + n) (obuf_soft_limit_reached_time o)).
    change (set_cl _ _) with (set_cl (set_cout (fun _ => o')) s). apply (HQ _ x (drop m z)); [done|lia| |by apply set_output_frame|done].
    exists ys. split; [by apply set_output_rep|]. unfold stream, first_chunk. cbn. rewrite <- Hdrop. split; [f_equal; lia|]. split; [lia|].
    right. destruct (cbuf o); [done|]. lia.
Qed.

Lemma send_object_wp s z a l n (Q : option bytes -> state -> Prop) :
  unsent s z -> cbuf (cout (cl s)) = [] -> replies s = a :: l -> Z.of_nat (length l) <= LIST_LIMIT ->
  exists y o, objects s !! a = Some o /\ object_str o = Some y /\ getStringObjectSdsUsedMemory C o = Some (mem (objects s) a) /\
    (y = [] -> sentlen (cout (cl s)) = 0) /\ sentlen (cout (cl s)) <= Z.of_nat (length y) /\
    (0 < n <= Z.of_nat (length y) - sentlen (cout (cl s)) ->
     (forall s' x z', z = x ++ z' -> Z.of_nat (length x) = n -> unsent s' z' -> sent_frame s s' ->
        (length (replies s') <= length (replies s))%nat -> Q (Some x) s') ->
     wp (send_object (cout (cl s)) a y (mem (objects s) a) (WBytes n)) Q s).
Proof.
  intros (ys & Hrep & Hz' & Hs0 & Hs1) Hc Hl Hlim. pose proof (or_items _ _ Hrep) as Hi. rewrite Hl in Hi.
  inversion Hi as [|? y ? ys1 (o & Ho & Hs & He) Hi1]; subst. destruct (item_mem (objects s) a y) as (o' & Ho' & Hm); [by exists o|].
  rewrite Ho in Ho'. injection Ho' as <-. exists y, o. unfold first_chunk in Hs1. rewrite Hc in Hs1. cbn [head default] in Hs1.
  split; [done|]. split; [by apply object_str_spec|]. split; [done|].
  split; [intros ->; destruct Hs1 as [|H]; [done|cbn in H; lia]|]. split; [destruct Hs1 as [|H]; cbn in *; lia|]. intros Hn HQ.
  set (out := cout (cl s)) in *. unfold stream in *. fold out in HQ, Hrep |- *. rewrite Hc in HQ. cbn [concat app] in HQ.
  set (k := Z.to_nat (sentlen out)) in *. set (m := Z.to_nat n). assert (k + m <= length y)%nat as Hkm by lia.
  unfold send_object. rewrite (proj2 (Z.leb_gt _ _)) by lia. apply wp_bind. eapply wp_lift; [by apply (read_ok y k m)|].
  set (x := take m (drop k y)). assert (length x = m) as Hx by (unfold x; rewrite length_take, length_drop; lia).
  set (z := drop k (y ++ concat ys1)) in *.
  assert (z = x ++ drop m z) as Esplit.
  { rewrite <- (take_drop m z) at 1. f_equal. unfold z. rewrite drop_app_le by lia. rewrite take_app_le by (rewrite length_drop; lia). done. }
  unfold set_sentlen at 1, set_out at 1. wp_step.
  set (o1 := COutput (cbuf out) (reply out) (reply_bytes out) (sentlen out + n) (obuf_soft_limit_reached_time out)).
  change (set_cl _ s) with (set_cl (set_cout (fun _ => o1)) s). set (s1 := set_cl (set_cout (fun _ => o1)) s).
  assert (out_rep s1 (y :: ys1)) as Hrep1 by (by apply set_output_rep). assert (sent_frame s s1) as F1 by (by apply set_output_frame).
  apply wp_bind. destruct (Z.eqb_spec (sentlen out + n) (Z.of_nat (length y))) as [E|E].
  - apply wp_bind. change (mem (objects s) a) with (mem (objects s1) a). eapply (pop_wp s1 a l y ys1); [done|done|done|].
    intros s2 Hrep2 F2 Hl2 Hc2 _. unfold set_sentlen, set_out. wp_step. wp_step.
    set (o3 := COutput (cbuf (cout (cl s2))) (reply (cout (cl s2))) (reply_bytes (cout (cl s2))) 0 (obuf_soft_limit_reached_time (cout (cl s2)))).
    change (set_cl _ s2) with (set_cl (set_cout (fun _ => o3)) s2). apply (HQ _ x (drop m z)); [done|lia| | |].
    + exists ys1. split; [by apply set_output_rep|]. split; [|by split; [|left]]. unfold stream. cbn. rewrite Hc2. cbn.
      rewrite Hc. cbn. unfold z. rewrite drop_drop, drop_app_ge by lia. replace (k + m - length y)%nat with 0%nat by lia. done.
    + eapply sent_frame_trans; [exact F1|]. eapply sent_frame_trans; [exact F2|]. by apply set_output_frame.
    + unfold replies at 1. cbn. fold (replies s2). rewrite Hl2, Hl. cbn. lia.
  - wp_step. wp_step. apply (HQ _ x (drop m z)); [done|lia| |done|done].
    exists (y :: ys1). split; [done|]. unfold stream, first_chunk. cbn. rewrite Hc. cbn. unfold z. rewrite drop_drop.
    split; [f_equal; lia|]. split; [lia|]. right. lia.
Qed.

(** The answers of the system call are at most what it was offered. *)
Definition writes (write : nat -> Z -> wres) : Prop :=
  forall i n, match write i n with WBytes k => k <= n | _ => True end.

(** Why the loop stops: everything is sent, the kernel takes no more, or it
    is enough for this turn. *)
Definition stops s' (over_memory : nat -> bool) (write : nat -> Z -> wres) (w : wres) (tot : Z) : Prop :=
  (w <> WError /\ clientHasPendingReplies (cl s') = false) \/
  (exists i n, 0 < n /\ w = write i n /\ match w with WBytes k => k <= 0 | _ => True end) \/
  (w <> WError /\ NET_MAX_WRITES_PER_EVENT < tot /\ exists i, over_memory i = false).

Lemma has_pending s : clientHasPendingReplies (cl s) = negb (bool_decide (cbuf (cout (cl s)) = [] /\ replies s = [])).
Proof.
  unfold clientHasPendingReplies, replies. destruct (cbuf (cout (cl s))), (reply (cout (cl s)));
    rewrite ?bool_decide_true, ?bool_decide_false by (done || intros [? ?]; done); done.
Qed.

(** The bytes [x] are out, the others [z'] are not. *)
Definition wrote s over write (z : bytes) (tot : Z) (sent : bytes) (r : wres * Z * bytes) s' : Prop :=
  exists x z', r.2 = sent ++ x /\ r.1.2 = tot + Z.of_nat (length x) /\ z = x ++ z' /\ unsent s' z' /\ sent_frame s s' /\
    stops s' over write r.1.1 r.1.2 /\ (length (replies s') <= length (replies s))%nat.

Lemma wrote_more s s1 over write x z1 tot sent r s' :
  sent_frame s s1 -> (length (replies s1) <= length (replies s))%nat -> wrote s1 over write z1 (tot + Z.of_nat (length x)) (sent ++ x) r s' -> wrote s over write (x ++ z1) tot sent r s'.
Proof.
  intros F Hle (x1 & z' & E1 & E2 & -> & Hu & F' & Hst & Hle'). exists (x ++ x1), z'.
  rewrite E1, E2, <- !app_assoc, length_app. split; [done|]. split; [lia|]. split; [done|]. split; [done|].
  split; [by eapply sent_frame_trans|]. split; [by rewrite E2 in Hst|lia].
Qed.

Lemma wrote_none s over write z tot sent w : unsent s z -> stops s over write w tot -> wrote s over write z tot sent (w, tot, sent) s.
Proof.
  intros Hu Hs. exists [], z. cbn [fst snd length]. rewrite app_nil_r. split; [done|]. split; [lia|]. split; [done|].
  split; [done|]. split; [apply sent_frame_refl|]. by split.
Qed.

(** An empty reply at the front is dropped without a call. *)
Lemma pop_empty_wp s z a l (o : robj P) (Q : unit -> state -> Prop) :
  unsent s z -> cbuf (cout (cl s)) = [] -> replies s = a :: l -> Z.of_nat (length l) <= LIST_LIMIT ->
  objects s !! a = Some o -> (object_str o = Some [] -> sentlen (cout (cl s)) = 0) -> object_str o = Some [] ->
  (forall s', unsent s' z -> sent_frame s s' -> replies s' = l -> Q tt s') -> wp (pop_reply a (mem (objects s) a)) Q s.
Proof.
  intros (ys & Hrep & Hz' & Hs0 & Hs1) Hc Hl Hlim Ho Hsl Hy HQ. pose proof (or_items _ _ Hrep) as Hi. rewrite Hl in Hi.
  inversion Hi as [|? y ? ys1 (o' & Ho' & Hs & He) Hi1]; subst. rewrite Ho in Ho'. injection Ho' as <-.
  rewrite (object_str_spec o y Hs He) in Hy. injection Hy as ->. specialize (Hsl (object_str_spec o [] Hs He)).
  eapply pop_wp; [exact Hrep|exact Hl|done|]. intros s1 Hrep1 F1 Hl1 Hc1 Hs1'. apply HQ; [|done|done].
  exists ys1. split; [done|]. rewrite Hs1', Hsl. unfold stream. rewrite Hc1, Hc. split; [done|]. split; [lia|by left].
Qed.

Lemma unsent_object s z a l (o : robj P) y :
  unsent s z -> cbuf (cout (cl s)) = [] -> replies s = a :: l -> objects s !! a = Some o -> object_str o = Some y ->
  sentlen (cout (cl s)) = 0 \/ sentlen (cout (cl s)) < Z.of_nat (length y).
Proof.
  intros (ys & Hrep & _ & _ & Hs1) Hc Hl Ho Hy. pose proof (or_items _ _ Hrep) as Hi. rewrite Hl in Hi.
  inversion Hi as [|? y' ? ys1 (o' & Ho' & Hs & He) Hi1]; subst. rewrite Ho in Ho'. injection Ho' as <-.
  rewrite (object_str_spec o y' Hs He) in Hy. injection Hy as ->. unfold first_chunk in Hs1. by rewrite Hc in Hs1.
Qed.

Lemma write_loop_wp over write fuel : forall s z i w0 tot sent,
  writes write -> unsent s z -> (length z + length (replies s) < fuel)%nat -> Z.of_nat (length (replies s)) <= LIST_LIMIT -> w0 <> WError ->
  wp (write_loop C fuel over write i w0 tot sent) (wrote s over write z tot sent) s.
Proof.
  induction fuel as [|fuel IH]; intros s z i w0 tot sent Hw Hu Hf Hlim Hw0; [lia|]. cbn [write_loop]. wp_step.
  destruct (clientHasPendingReplies (cl s)) eqn:Hpend; cbn [negb]; [|wp_step; apply wrote_none; [done|by left]].
  (* what follows a call of [write] *)
  assert (forall n0 x z1 s1, z = x ++ z1 -> 0 < Z.of_nat (length x) -> unsent s1 z1 -> sent_frame s s1 ->
    (length (replies s1) <= length (replies s))%nat ->
    wp (let tot := tot + Z.of_nat (length x) in
        if (tot >? NET_MAX_WRITES_PER_EVENT) && negb (over i) then mret (WBytes n0, tot, sent ++ x)
        else write_loop C fuel over write (S i) (WBytes n0) tot (sent ++ x)) (wrote s over write z tot sent) s1) as Hgo.
  { intros n0 x z1 s1 -> Hx Hu1 F1 Hl1. cbn zeta. destruct (_ && _) eqn:Hstop.
    - apply wp_ret. eapply wrote_more; [exact F1|done|]. apply wrote_none; [done|]. right. right.
      apply andb_true_iff in Hstop as [H1 H2]. rewrite Z.gtb_ltb, Z.ltb_lt in H1. apply negb_true_iff in H2. split; [done|]. split; [done|]. by exists i.
    - eapply wp_mono; [apply IH; [done|exact Hu1| |lia|done]|].
      + rewrite length_app in Hf. lia.
      + intros r s2 H2. by eapply wrote_more. }
  assert (forall n w, 0 < n -> write i n = w -> (match w with WBytes n => n <= 0 | _ => True end) ->
    wp (mret (w, tot, sent)) (wrote s over write z tot sent) s) as Hnone.
  { intros n w Hn <- Hw'. apply wp_ret, wrote_none; [done|]. right. left. by exists i, n. }
  destruct (cbuf (cout (cl s))) as [|b0 b] eqn:Hb; cbn [length]; rewrite Z.gtb_ltb.
  - rewrite (proj2 (Z.ltb_ge _ _)) by lia.
    destruct (replies s) as [|a l] eqn:Hl.
    { rewrite has_pending, Hb, Hl, bool_decide_true in Hpend by done. done. }
    pose proof (send_object_wp s z a l) as Hsend. cbn [length] in Hlim.
    pose proof (fun n Q => Hsend n Q Hu Hb Hl ltac:(lia)) as Hobj'. clear Hsend.
    destruct (Hobj' 0 (fun _ _ => True)) as (y & o & Ho & Hy & Hm & Hs0 & Hsl & _).
    apply wp_bind. eapply wp_lift; [unfold replies in Hl; rewrite Hl; done|]. apply wp_bind. eapply get_object_wp; [exact Ho|].
    apply wp_bind. eapply wp_lift; [exact Hy|]. apply wp_bind. eapply wp_lift; [exact Hm|].
    destruct (Z.eqb_spec (Z.of_nat (length y)) 0) as [Ey|Ey].
    + assert (y = []) as -> by (by destruct y). apply wp_bind. eapply (pop_empty_wp s z a l o); [done|done|done|lia|done|intros _; exact (Hs0 eq_refl)|done|].
      intros s1 Hu1 F1 Hl1. eapply wp_mono; [apply IH; [done|exact Hu1|rewrite Hl1; cbn in Hf; lia|rewrite Hl1; lia|done]|].
      intros r s2 H2. apply (wrote_more s s1 over write [] z tot sent); [done|rewrite Hl1, Hl; cbn; lia|]. cbn [length]. by rewrite Z.add_0_r, app_nil_r.
    + assert (0 < Z.of_nat (length y) - sentlen (cout (cl s))) as Hoff.
      { pose proof (unsent_object _ _ _ _ _ _ Hu Hb Hl Ho Hy). lia. }
      apply wp_bind. destruct (write i (Z.of_nat (length y) - sentlen (cout (cl s)))) as [n| |] eqn:Hwr; try (wp_step; by eapply Hnone).
      destruct (Z.leb_spec n 0) as [Hn|Hn]; [unfold send_object; rewrite (proj2 (Z.leb_le _ _)) by done; wp_step; by eapply Hnone|].
      pose proof (Hw i (Z.of_nat (length y) - sentlen (cout (cl s)))) as Hle. rewrite Hwr in Hle.
      match goal with |- wp _ ?Q _ => destruct (Hobj' n Q) as (y' & o' & Ho' & Hy' & _ & _ & _ & Hgo') end.
      rewrite Ho in Ho'. injection Ho' as <-. rewrite Hy in Hy'. injection Hy' as <-.
      apply Hgo'; [lia|]. intros s1 x z1 Ez Hx Hu1 F1 Hl1. apply (Hgo _ x z1); [done|lia|done|done|]. by rewrite <- Hl.
  - rewrite (proj2 (Z.ltb_lt _ _)) by lia. apply wp_bind.
    assert (0 < Z.of_nat (S (length b)) - sentlen (cout (cl s))) as Hoff.
    { destruct Hu as (ys & _ & _ & _ & Hs1). unfold first_chunk in Hs1. rewrite Hb in Hs1. cbn [length] in Hs1. lia. }
    destruct (write i _) as [n| |] eqn:Hwr; try (wp_step; by eapply Hnone).
    destruct (Z.leb_spec n 0) as [Hn|Hn]; [unfold send_buffer; rewrite (proj2 (Z.leb_le _ _)) by done; wp_step; by eapply Hnone|].
    match type of Hwr with write i ?m = _ => pose proof (Hw i m) as Hle end. rewrite Hwr in Hle.
    eapply send_buffer_wp; [done|by rewrite Hb|rewrite Hb; cbn [length]; lia|].
    intros s1 x z1 Ez Hx Hu1 F1 Hl1. apply (Hgo _ x z1); [done|lia|done|done|by rewrite Hl1].
Qed.

End Spec.
End ReplySpec.
