(* ===== verification/Sample.v ===== *)
(** * A small server, for the examples

    One database, one client, the replies the server shares and the shared
    integers: a state in which the hypotheses of the theorems on commands
    and replies hold.  The strings a command is called on are added to it. *)

From S2P Require Import Prelude Monad Util Sds SdsText Dict DictTypes DictSpec DictMap Object ObjectSpec State Db HeapSpec DbSpec Reply ReplySpec.
Import Monad Util Sds SdsText Dict DictTypes DictSpec DictMap Object ObjectSpec State Db HeapSpec DbSpec Reply ReplySpec.

Module Sample.

Definition shared_texts : list (addr * bytes) :=
  [(1, CRLF); (2, str "+OK" ++ CRLF); (3, header 58 0); (4, header 58 1); (5, str "$-1" ++ CRLF);
   (6, str "-WRONGTYPE Operation against a key holding the wrong kind of value" ++ CRLF);
   (7, error_line (str "syntax error")); (8, str "DEL"); (16, str "-NOAUTH Authentication required." ++ CRLF); (17, bgsave_text); (18, str "-LOADING Redis is loading the dataset in memory" ++ CRLF);
   (19, str "+QUEUED" ++ CRLF)] ++
  ((fun n => (20 + n, header 42 n)) <$> seqZ 0 32) ++ ((fun n => (52 + n, header 36 n)) <$> seqZ 0 32).

Definition demo_string (x : bytes) : robj unit := RObj OBJ_STRING OBJ_ENCODING_RAW 0 1 (PSds (sample_sds x)).

Definition demo_texts (args : list (addr * bytes)) : list (addr * bytes) := args ++ shared_texts.

Definition demo_heap (args : list (addr * bytes)) : gmap addr (robj unit) :=
  createSharedIntegers sample_env 100 (list_to_map (prod_map (fun a => a) demo_string <$> demo_texts args)).

Definition demo_config : config :=
  Config sample_env (SharedObjects 1 2 3 4 5 8 6 7 ((fun n => 20 + n) <$> seqZ 0 32) ((fun n => 52 + n) <$> seqZ 0 32) 16 17 18 19) 5381
    (fun n => 1000 + Z.of_nat n) (fun n => Z.of_nat n) true next_address (fun X => next_address (elements X)) (fun n => Z.max 16 (Z.min n 65536)) 0
    false false false 0 (-1) (-1) (Z.lor NOTIFY_EXPIRED (Z.lor NOTIFY_KEYSPACE NOTIFY_KEYEVENT)) (replicate 3 (Limits 0 0 0)) false false 0 true true [] 0 (2 ^ 30) 0 0.

Definition demo_client (argv : list addr) : client :=
  Client 1 5 0 0 0 false 0 None (CInput (sample_sds []) 0 0 (-1) argv) (COutput [] [] 0 0 0) (CSocket false 0 0) (CExtra true None [] 0 0 0).

Definition demo (args : list (addr * bytes)) (argv : list addr) : state unit :=
  State (demo_heap args) (Keyspace [RedisDb dictCreate dictCreate [] []] 0 0 0 0 0 [] []) (demo_client argv) [] [] (ServerVars dictCreate dictCreate 0 0 false [] 0 ∅).

#[export] Instance demo_sound : sound_config demo_config.
Proof.
  constructor; [apply next_address_fresh| |intros n; cbn; lia|done].
  intros X. rewrite <- elem_of_elements. apply next_address_fresh.
Qed.

(** Addresses below 100, all different, and short strings. *)
Definition demo_args (args : list (addr * bytes)) : Prop :=
  NoDup (demo_texts args).*1 /\ Forall (fun p => p.1 < 100 /\ Z.of_nat (length p.2) < 256) (demo_texts args).

#[export] Instance demo_args_dec args : Decision (demo_args args).
Proof. unfold demo_args. apply _. Defined.

Section Demo.
Context (args : list (addr * bytes)) (Hargs : demo_args args) (argv : list addr).

Lemma demo_lookup a x : (a, x) ∈ demo_texts args -> demo_heap args !! a = Some (demo_string x).
Proof.
  destruct Hargs as [Hn Hs]. intros Hin. rewrite Forall_forall in Hs. destruct (Hs _ Hin) as [Ha _]. unfold demo_heap.
  rewrite (createSharedIntegers_other sample_env 100) by exact Ha. apply elem_of_list_to_map.
  - rewrite <- list_fmap_compose. erewrite list_fmap_ext; [exact Hn|]. intros i p _. by destruct p.
  - apply list_elem_of_fmap. by exists (a, x).
Qed.

Lemma demo_string_obj a x : (a, x) ∈ demo_texts args -> str_obj (demo_string x) x.
Proof.
  destruct Hargs as [_ Hs]. intros Hin. rewrite Forall_forall in Hs. destruct (Hs _ Hin) as [_ Hx]. cbn in Hx.
  split; [done|]. left. split; [done|]. exists (sample_sds x). split; [done|by apply sample_sds_rep].
Qed.

Lemma demo_count a : 0 <= count (demo_heap args) a <= 1.
Proof.
  assert (forall (l : list Z) (h : gmap addr (robj unit)), (forall b, 0 <= count h b <= 1) ->
    forall b, 0 <= count (foldl (create_integer sample_env 100) h l) b <= 1) as Hints.
  { induction l as [|j l IH]; intros h Hh b; [apply Hh|]. cbn [foldl]. apply IH. intros c. unfold create_integer.
    rewrite count_insert. destruct (decide _); [cbn; lia|apply Hh]. }
  unfold demo_heap, createSharedIntegers. generalize (seqZ 0 OBJ_SHARED_INTEGERS). intros l. apply Hints. clear l. intros b. unfold count. destruct (_ !! b) as [o|] eqn:Ho; [|lia].
  apply elem_of_list_to_map_2 in Ho. apply list_elem_of_fmap in Ho as ([c x] & [= -> ->] & _). cbn. lia.
Qed.

Lemma demo_has a x : (a, x) ∈ demo_texts args -> count (demo_heap args) a = 1.
Proof. intros Hin. by rewrite (count_Some _ _ _ (demo_lookup a x Hin)). Qed.

Lemma demo_rspare a : rspare (demo args argv) a = count (demo_heap args) a.
Proof. unfold rspare, replies. cbn. unfold rocc. cbn. lia. Qed.

Lemma demo_avail a x : (a, x) ∈ demo_texts args -> avail (demo args argv) a x.
Proof.
  intros Hin. split; [|rewrite demo_rspare, (demo_has _ _ Hin); lia].
  exists (demo_string x). split; [by apply demo_lookup|by eapply demo_string_obj].
Qed.

Lemma demo_shared_in a x : (a, x) ∈ shared_texts -> (a, x) ∈ demo_texts args.
Proof. intros Hin. apply elem_of_app. by right. Qed.

Lemma demo_headers base p n : 0 <= n < 32 ->
  ((fun n => base + n) <$> seqZ 0 32) !! Z.to_nat n = Some (base + n) /\ (base + n, header p n) ∈ (fun n => (base + n, header p n)) <$> seqZ 0 32.
Proof.
  intros Hn. split.
  - rewrite list_lookup_fmap, lookup_seqZ_lt by lia. cbn. f_equal. lia.
  - apply list_elem_of_fmap. exists n. split; [done|]. apply elem_of_seqZ. lia.
Qed.

Lemma demo_shared_by : shared_by demo_config (fun a x => (a, x) ∈ demo_texts args).
Proof.
  constructor; try (apply demo_shared_in, elem_of_app; left; set_solver).
  - intros n Hn. destruct (demo_headers 20 42 n Hn) as [H1 H2]. exists (20 + n). split; [exact H1|].
    apply demo_shared_in, elem_of_app. right. apply elem_of_app. by left.
  - intros n Hn. destruct (demo_headers 52 36 n Hn) as [H1 H2]. exists (52 + n). split; [exact H1|].
    apply demo_shared_in, elem_of_app. right. apply elem_of_app. by right.
Qed.

Lemma demo_shared : shared_replies demo_config (demo args argv).
Proof. eapply shared_by_mono; [exact demo_avail|exact demo_shared_by]. Qed.

Lemma demo_pending : pending demo_config (demo args argv) [].
Proof.
  exists []. split; [|done]. constructor; [constructor| |done]. intros a. rewrite demo_rspare. apply demo_count.
Qed.

Lemma demo_roomy k : Z.of_nat k < 1000 -> roomy (demo args argv) k.
Proof.
  intros Hk. constructor; [unfold LIST_LIMIT; cbn; lia|]. intros a. rewrite demo_rspare. pose proof (demo_count a). lia.
Qed.

End Demo.
End Sample.
