(* ===== verification/ReplyRun.v ===== *)
(** * Replies queued and sent (src/networking.c)

    Any sequence of replies adds the bytes of the protocol, one after the
    other, to what the client has still to be sent, and sending takes those
    bytes from the front, whatever the socket accepts at a time.  When a
    client goes away, what it held is given back. *)

From S2P Require Import Prelude Monad Util Sds SdsText Object ObjectSpec State HeapSpec Reply ReplySpec Sample.
Import Monad Util Sds SdsText Object ObjectSpec State HeapSpec Reply ReplySpec Sample.

Module ReplyRun.

(** What commands say to a client. *)
Inductive reply_op :=
| SayString (x : bytes)
| SayObject (a : addr)
| SaySds (s : sds)
| SayBulk (a : addr)
| SayBulkBuffer (x : bytes)
| SayBulkNumber (n : Z)
| SayNumber (n : Z)
| SayArray (n : Z)
| SayError (x : bytes).

Section Run.
Context {P : Type} (C : config).

Abbreviation state := (state P).
Abbreviation M := (M state).

Definition run_reply (o : reply_op) : M unit :=
  match o with
  | SayString x => addReplyString C x
  | SayObject a => addReply C a
  | SaySds s => addReplySds C s
  | SayBulk a => addReplyBulk C a
  | SayBulkBuffer x => addReplyBulkCBuffer C x
  | SayBulkNumber n => addReplyBulkLongLong C n
  | SayNumber n => addReplyLongLong C n
  | SayArray n => addReplyMultiBulkLen C n
  | SayError x => addReplyError C x
  end.

Definition run_replies (l : list reply_op) : M unit := for_each l run_reply.

(** The strings of the objects and of the dynamic strings, and the bytes of
    the protocol. *)
Context (text : addr -> bytes).

Definition reply_bytes_of (o : reply_op) : bytes :=
  match o with
  | SayString x => x
  | SayObject a => text a
  | SaySds s => sds_str s
  | SayBulk a => bulk (text a)
  | SayBulkBuffer x => bulk x
  | SayBulkNumber n => bulk (decimal n)
  | SayNumber n => header 58 n
  | SayArray n => header 42 n
  | SayError x => error_line x
  end.

(** What a call asks for: objects that are held, and numbers of the range of
    the code. *)
Definition reply_ok (s : state) (o : reply_op) : Prop :=
  match o with
  | SayString x => Z.of_nat (length x) < SDS_LIMIT
  | SayObject a => avail s a (text a) /\ Z.of_nat (length (text a)) < SDS_LIMIT
  | SaySds sd => sds_rep sd (sds_str sd)
  | SayBulk a => avail s a (text a) /\ Z.of_nat (length (text a)) < SDS_LIMIT
  | SayBulkBuffer x => Z.of_nat (length x) < SDS_LIMIT
  | SayBulkNumber n => is_llong n
  | SayNumber n => is_llong n
  | SayArray n => is_llong n /\ 0 <= n
  | SayError x => Z.of_nat (length x) < SDS_LIMIT
  end.

Context {HC : sound_config C}.

Implicit Types (s : state) (a : addr) (x z : bytes).

Lemma reply_ok_frame s s' o : out_frame s s' -> reply_ok s o -> reply_ok s' o.
Proof. intros F. destruct o; cbn; try done; intros [Ha Hl]; (split; [by eapply avail_frame|done]). Qed.

Lemma run_reply_says s o : shared_replies C s -> reply_ok s o -> says C 3 s (run_reply o) (reply_bytes_of o).
Proof.
  intros Hsr Ho. destruct o; cbn [run_reply reply_bytes_of reply_ok] in *.
  - by eapply says_mono; [apply addReplyString_says|lia].
  - destruct Ho. by eapply says_mono; [apply addReply_says|lia].
  - by eapply says_mono; [apply addReplySds_says|lia].
  - destruct Ho. by apply addReplyBulk_says.
  - by apply addReplyBulkCBuffer_says.
  - by apply addReplyBulkLongLong_says.
  - by eapply says_mono; [apply addReplyLongLong_says|lia].
  - destruct Ho. by eapply says_mono; [apply addReplyMultiBulkLen_says|lia].
  - by apply addReplyError_says.
Qed.

Lemma run_replies_says l : forall s, shared_replies C s -> Forall (reply_ok s) l ->
  says C (3 * length l) s (run_replies l) (concat (reply_bytes_of <$> l)).
Proof.
  induction l as [|o l IH]; intros s Hsr Hl; cbn [run_replies for_each fmap list_fmap concat length].
  - intros z Hp Hr. apply wp_skip. unfold said. destruct (talks _); by apply emitted_refl.
  - apply Forall_cons in Hl as [Ho Hl]. replace (3 * S (length l))%nat with (3 + 3 * length l)%nat by lia.
    apply says_bind; [by apply run_reply_says|]. intros s1 F. apply IH; [by eapply shared_frame|].
    eapply Forall_impl; [exact Hl|]. intros o'. by apply reply_ok_frame.
Qed.

(** C9. Replies are a stream: any sequence of replies, strings, objects encoded
    or not, numbers, lengths of arrays, bulk strings and errors, adds exactly
    the bytes of the protocol for them, in order, to what the client has still
    to be sent, wherever they are kept; a client that takes no replies gets
    none.  The key space is not touched, no object anybody holds changes, and
    every reference the list takes is accounted for. *)
Theorem replies_append s z l :
  pending C s z -> roomy s (3 * length l) -> shared_replies C s -> Forall (reply_ok s) l ->
  exists s', run_replies l s = Some (s', tt) /\
    pending C s' (z ++ (if talks (cl s) then concat (reply_bytes_of <$> l) else [])) /\ out_frame s s'.
Proof.
  intros Hp Hr Hsr Hl. destruct (run_replies_says l s Hsr Hl z Hp Hr) as (s' & [] & E & He).
  exists s'. split; [exact E|]. split; apply He.
Qed.

End Run.

Section Send.
Context {P : Type} (C : config).
Context {HC : sound_config C}.
Abbreviation state := (state P).
Implicit Types (s : state) (a : addr) (x z : bytes).

(** ** Freeing *)

Definition releasable s (l : list addr) : Prop :=
  forall a, a ∈ l -> exists o, objects s !! a = Some o /\ freeable o = true.

Lemma release_all_wp l : forall s (Q : unit -> state -> Prop),
  releasable s l -> (forall a, rocc a l <= count (objects s) a) ->
  (forall h, heap_sub (objects s) h -> (forall a, count h a = count (objects s) a - rocc a l) -> Q tt (set_objects (fun _ => h) s)) ->
  wp (for_each l (fun a => on_heap (fun h => decrRefCount h a))) Q s.
Proof.
  induction l as [|a l IH]; intros s Q Hl Hc HQ; cbn [for_each].
  { apply wp_skip. specialize (HQ (objects s) (heap_sub_refl _)). destruct s. apply HQ. intros a. unfold rocc. cbn. lia. }
  destruct (Hl a) as (o & Ho & Hf); [by left|].
  assert (0 < refcount o) as Hr.
  { pose proof (Hc a) as H. rewrite rocc_cons, decide_True, (count_Some _ _ _ Ho) in H by done. pose proof (rocc_nonneg a l). lia. }
  destruct (decr_ok (objects s) a o Ho Hr Hf) as (h & Hd & Hsub & Hch).
  apply wp_bind. unfold on_heap at 1. wp_step. apply wp_bind. eapply wp_lift; [exact Hd|]. wp_step.
  apply IH; cbn [objects set_objects].
  - intros b Hb. destruct (Hl b) as (ob & Hob & Hfb); [by right|].
    assert (is_Some (h !! b)) as [o' Ho'].
    { apply count_live. rewrite Hch. specialize (Hc b). rewrite rocc_cons in Hc. pose proof (rocc_pos b l Hb). lia. }
    exists o'. split; [done|]. destruct (Hsub b o' Ho') as (o1 & H1 & Hv). rewrite Hob in H1. injection H1 as <-.
    by rewrite (freeable_same _ _ Hv).
  - intros b. rewrite Hch. specialize (Hc b). rewrite rocc_cons in Hc. destruct (decide _); lia.
  - intros h2 Hsub2 Hc2. apply (HQ h2); [by eapply heap_sub_trans|]. intros b. rewrite Hc2, Hch, rocc_cons. lia.
Qed.

(** The arguments of the command are held by the client. *)
Definition holds_argv s : Prop := releasable s (argv (cin (cl s))) /\ forall a, rocc a (argv (cin (cl s))) <= rspare s a.

(** A client that is gone: it holds nothing and is on no queue. *)
Record freed s s' : Prop := Freed {
  fd_replies : replies s' = [];
  fd_argv : argv (cin (cl s')) = [];
  fd_fd : fd (cl s') = -1;
  fd_refs : forall a, count (objects s') a = count (objects s) a - rocc a (replies s) - rocc a (argv (cin (cl s)));
  fd_sub : heap_sub (objects s) (objects s');
  fd_ks : ks s' = ks s;
  fd_pending : has (flags (cl s)) CLIENT_PENDING_WRITE = true -> cid (cl s) ∉ clients_pending_write s';
  fd_to_close : has (flags (cl s)) CLIENT_CLOSE_ASAP = true -> cid (cl s) ∉ clients_to_close s'
}.

Lemma freeClient_wp s ys (Q : unit -> state -> Prop) :
  out_rep C s ys -> holds_argv s -> (forall s', freed s s' -> Q tt s') -> wp freeClient Q s.
Proof.
  intros Hrep [Hal Hac] HQ. unfold freeClient. wp_step. apply wp_bind. apply release_all_wp.
  { intros a Ha. pose proof (or_items _ _ _ Hrep) as Hi. destruct (list_elem_of_lookup_1 _ _ Ha) as [i Hai].
    destruct (Forall2_lookup_l _ _ _ _ _ Hi Hai) as (y & _ & o & Ho & Hs & _). exists o. split; [done|]. unfold freeable. by rewrite (proj1 Hs). }
  { intros a. pose proof (or_refs _ _ _ Hrep a) as H. unfold rspare, replies in H. lia. }
  intros h Hsub Hch. unfold set_reply, set_out. wp_step. unfold freeClientArgv. apply wp_bind. wp_step. cbn [cl set_cl set_cout cin set_objects].
  apply wp_bind. apply release_all_wp.
  { intros a Ha. cbn [objects set_cl set_objects]. destruct (Hal a Ha) as (o & Ho & Hf).
    assert (is_Some (h !! a)) as [o' Ho'].
    { apply count_live. rewrite Hch. pose proof (Hac a) as H. unfold rspare, replies in H. pose proof (rocc_pos a _ Ha). lia. }
    exists o'. split; [done|]. destruct (Hsub a o' Ho') as (o1 & H1 & Hv). rewrite Ho in H1. injection H1 as <-. by rewrite (freeable_same _ _ Hv). }
  { intros a. cbn [objects set_cl set_objects]. rewrite Hch. pose proof (Hac a) as H. unfold rspare, replies in H. lia. }
  intros h2 Hsub2 Hch2. cbn [objects set_cl set_objects] in Hsub2, Hch2. wp_step. wp_step.
  unfold unlinkClient. apply wp_bind. wp_step. cbn [fd cl set_cl set_objects set_cout set_cin set_cmd flags].
  match goal with |- wp _ _ ?s3 => set (s1 := s3) end.
  assert (forall f sock pend, (has (flags (cl s)) CLIENT_PENDING_WRITE = true -> cid (cl s) ∉ pend) ->
    wp (if has (flags (cl s)) CLIENT_CLOSE_ASAP then modify (set_to_close (filter (fun i => i <> cid (cl s)))) else skip) Q
      (set_pending (fun _ => pend) (set_cl (fun c => set_flags f (set_fd (-1) (set_csock sock c))) s1))) as Hlast.
  { intros f sock pend Hpend. destruct (has (flags (cl s)) CLIENT_CLOSE_ASAP) eqn:Hasap.
    - wp_step. apply HQ. constructor; try done; [intros a; cbn; rewrite Hch2, Hch; unfold replies; lia|cbn; by eapply heap_sub_trans|].
      intros _. cbn. rewrite list_elem_of_filter. by intros [[] _].
    - apply wp_skip, HQ. constructor; try done; [intros a; cbn; rewrite Hch2, Hch; unfold replies; lia|cbn; by eapply heap_sub_trans|].
      by rewrite Hasap. }
  apply wp_bind. apply (wp_mono _ (fun _ s2 => exists sock, s2 = set_cl (fun c => set_fd (-1) (set_csock sock c)) s1)).
  { destruct (Z.eqb_spec (fd (cl s)) (-1)) as [Efd|Efd].
    - apply wp_skip. exists (fun k => k). unfold s1. destruct s as [? ? [] ? ?]. cbn in *. by rewrite Efd.
    - wp_step. wp_step. by eexists. }
  intros _ s2 (sock & ->). destruct (has (flags (cl s)) CLIENT_PENDING_WRITE) eqn:Hpw.
  - wp_step. unfold clear_flag. wp_step.
    apply (Hlast (fun f => Z.land f (Z.lnot CLIENT_PENDING_WRITE)) sock (filter (fun i => i <> cid (cl s)) (clients_pending_write s))).
    intros _. rewrite list_elem_of_filter. by intros [[] _].
  - apply wp_skip. specialize (Hlast (fun f => f) sock (clients_pending_write s) ltac:(by intros [=])).
    exact Hlast.
Qed.

(** ** Sending *)

(** A client that is still there, with [z'] left to send. *)
Record served s s' (handler : bool) z' : Prop := Served {
  sv_unsent : unsent C s' z';
  sv_ks : ks s' = ks s;
  sv_client : set_csock (fun _ => csock (cl s)) (set_cout (fun _ => cout (cl s)) (cl s')) = cl s;
  sv_spare : forall a, rspare s' a = rspare s a;
  sv_kept : kept (objects s) (objects s') (fun a => 0 < rspare s a);
  sv_list : (length (replies s') <= length (replies s))%nat;
  sv_handler : clientHasPendingReplies (cl s') = true -> writable_handler (csock (cl s')) = writable_handler (csock (cl s));
  sv_done : z' = [] /\ replies s' = [] -> sentlen (cout (cl s')) = 0 /\ (handler = true -> writable_handler (csock (cl s')) = false)
}.

(** A client that is gone: what it held is given back. *)
Record dropped s s' : Prop := Dropped {
  dp_replies : replies s' = [];
  dp_argv : argv (cin (cl s')) = [];
  dp_fd : fd (cl s') = -1;
  dp_ks : ks s' = ks s;
  dp_refs : forall a, count (objects s') a = rspare s a - rocc a (argv (cin (cl s)))
}.

Lemma unsent_csock s z f : unsent C s z -> unsent C (set_cl (set_csock f) s) z.
Proof. intros (ys & [H1 H2 H3] & H). exists ys. split; [by constructor|exact H]. Qed.

Lemma holds_csock s f : holds_argv s -> holds_argv (set_cl (set_csock f) s).
Proof. intros [H1 H2]. by split. Qed.

Lemma unsent_nothing s z : unsent C s z -> clientHasPendingReplies (cl s) = false ->
  z = [] /\ replies s = [] /\ cbuf (cout (cl s)) = [].
Proof.
  intros (ys & [H1 H2 H3] & Hst & _) Hp. rewrite has_pending in Hp. apply negb_false_iff, bool_decide_eq_true in Hp as [Hb Hl].
  rewrite Hl in H1. apply Forall2_nil_inv_l in H1 as ->. unfold stream in Hst. rewrite Hb in Hst. cbn [app concat] in Hst. by rewrite drop_nil in Hst.
Qed.

Lemma unsent_done s z : unsent C s z -> z = [] /\ replies s = [] -> clientHasPendingReplies (cl s) = false.
Proof.
  intros (ys & [H1 H2 H3] & Hst & H0 & Hs) [-> Hl]. rewrite has_pending. apply negb_false_iff, bool_decide_eq_true. split; [|done].
  rewrite Hl in H1. apply Forall2_nil_inv_l in H1 as ->. unfold stream, first_chunk in *. cbn in Hst. rewrite app_nil_r in Hst.
  destruct (cbuf (cout (cl s))) as [|b l] eqn:E; [done|]. exfalso. apply (f_equal length) in Hst. rewrite length_drop in Hst. cbn [length] in *. lia.
Qed.

(** The client is freed in a state whose references are those of [s]. *)
Lemma drop_wp s s1 z' (Q : unit -> state -> Prop) :
  unsent C s1 z' -> holds_argv s -> ks s1 = ks s -> cin (cl s1) = cin (cl s) -> (forall a, rspare s1 a = rspare s a) ->
  kept (objects s) (objects s1) (fun a => 0 < rspare s a) -> (forall s', dropped s s' -> Q tt s') -> wp freeClient Q s1.
Proof.
  intros (ys & Hrep & _) [Hal Hac] Hks Hcin Hsp Hk HQ. eapply freeClient_wp; [exact Hrep| |].
  - split; rewrite Hcin; [|intros a; by rewrite Hsp]. intros a Ha. destruct (Hal a Ha) as (o & Ho & Hf).
    pose proof (rocc_pos a _ Ha). specialize (Hac a). destruct (Hk a o) as (o' & Ho' & Hv); [lia|done|].
    exists o'. split; [done|]. by rewrite (freeable_same _ _ Hv).
  - intros s' [F1 F2 F3 F4 F5 F6 F7 F8]. apply HQ. constructor; try done; [by rewrite F6|].
    intros a. rewrite F4, Hcin, <- Hsp. unfold rspare. lia.
Qed.

Lemma writeToClient_wp s z fuel over write handler (Q : bool * bytes -> state -> Prop) :
  writes write -> unsent C s z -> holds_argv s -> (length z + length (replies s) < fuel)%nat ->
  Z.of_nat (length (replies s)) <= LIST_LIMIT ->
  (forall s' z' sent, z = sent ++ z' -> served s s' handler z' ->
     ((z' = [] /\ clientHasPendingReplies (cl s') = false /\ closing (cl s) = false) \/
      (clientHasPendingReplies (cl s') = true /\
       ((exists i n, 0 < n /\ match write i n with WBytes k => k <= 0 | WAgain => True | WError => False end) \/
        (NET_MAX_WRITES_PER_EVENT < Z.of_nat (length sent) /\ exists i, over i = false)))) -> Q (true, sent) s') ->
  (forall s' z' sent, z = sent ++ z' -> dropped s s' ->
     ((exists i n, write i n = WError) \/ (z' = [] /\ closing (cl s) = true)) -> Q (false, sent) s') ->
  wp (writeToClient C fuel over write handler) Q s.
Proof.
  intros Hw Hu Hav Hf Hlim HQ HD. unfold writeToClient. apply wp_bind. eapply wp_mono; [apply write_loop_wp; try done; exact Hw|].
  intros [[w tot] sent] s1 (x & z' & Ex & Et & -> & Hu1 & [F1 F2 F3 F4 F5 F6] & Hst & Hlen). cbn [fst snd] in *. subst sent tot.
  cbn [app] in *. rewrite Z.add_0_l in *. wp_step.
  set (f1 := fun k => CSocket (writable_handler k) (lastinteraction k) (s64 (stat_net_output_bytes k + Z.of_nat (length x)))).
  assert (cin (cl s1) = cin (cl s)) as Hcin by (rewrite <- F2; reflexivity).
  assert (flags (cl s1) = flags (cl s)) as Hfl by (rewrite <- F2; reflexivity).
  assert (csock (cl s1) = csock (cl s)) as Hcs by (rewrite <- F2; reflexivity).
  assert (forall f, set_csock (fun _ => csock (cl s)) (set_cout (fun _ => cout (cl s)) (set_csock f (cl s1))) = cl s) as Hcl.
  { intros f. transitivity (set_csock (fun _ => csock (cl s)) (set_cout (fun _ => cout (cl s)) (cl s1))); [done|]. rewrite F2. by destruct (cl s). }
  assert (forall f, wp freeClient (fun _ => dropped s) (set_cl (set_csock f) s1)) as Hfree.
  { intros f. eapply (drop_wp s _ z'); [by apply unsent_csock|done..|]. done. }
  assert ((match w with WError => False | _ => True end) -> wp (
    c ← gets cl;
    _ ← (if (Z.of_nat (length x) >? 0) && negb (has (flags c) CLIENT_MASTER) then
      modify (set_cl (set_csock (fun k => CSocket (writable_handler k) (unixtime C) (stat_net_output_bytes k)))) else skip);
    if negb (clientHasPendingReplies c) then
      _ ← set_sentlen 0;
      _ ← (if (handler : bool) then
        modify (set_cl (set_csock (fun k => CSocket false (lastinteraction k) (stat_net_output_bytes k)))) else skip);
      if has (flags c) CLIENT_CLOSE_AFTER_REPLY then _ ← freeClient; mret (false, x) else mret (true, x)
    else mret (true, x)) Q (set_cl (set_csock f1) s1)) as Hrest.
  { intros Hnoerr. wp_step. apply wp_bind.
    apply (wp_mono _ (fun _ s3 => exists g, s3 = set_cl (set_csock g) s1 /\ writable_handler (g (csock (cl s1))) = writable_handler (csock (cl s1)))).
    { destruct (_ && _); [wp_step; by exists (fun k => CSocket (writable_handler (f1 k)) (unixtime C) (stat_net_output_bytes (f1 k)))|apply wp_skip; by exists f1]. }
    intros _ s3 (g & -> & Hg). change (clientHasPendingReplies (cl (set_cl (set_csock f1) s1))) with (clientHasPendingReplies (cl s1)).
    destruct (clientHasPendingReplies (cl s1)) eqn:Hp; cbn [negb].
    { apply wp_ret. apply (HQ _ z'); [done| |].
      - constructor; [by apply unsent_csock|done|apply Hcl|done|done|done|intros _; cbn; by rewrite Hg, Hcs|]. intros Hn. by rewrite (unsent_done s1 z' Hu1 Hn) in Hp.
      - right. split; [exact Hp|]. destruct Hst as [[_ Hst]|[(i & n & Hn & -> & Hk)|[_ Hst]]]; [congruence| |by right].
        left. exists i, n. split; [done|]. by destruct (write i n). }
    destruct (unsent_nothing s1 z' Hu1 Hp) as (-> & Hl & Hb). unfold set_sentlen, set_out. wp_step. apply wp_bind.
    set (o0 := fun o => COutput _ _ _ 0 _).
    apply (wp_mono _ (fun _ s4 => exists g, s4 = set_cl (set_csock g) (set_cl (set_cout o0) s1) /\ (handler = true -> writable_handler (g (csock (cl s1))) = false))).
    { destruct handler; [wp_step; by exists (fun k => CSocket false (lastinteraction (g k)) (stat_net_output_bytes (g k)))|apply wp_skip; by exists g]. }
    intros _ s4 (g2 & -> & Hh). cbn [flags set_csock cl set_cl set_objects]. rewrite Hfl.
    assert (unsent C (set_cl (set_cout o0) s1) []) as Hu0.
    { destruct Hu1 as (ys & [H1 H2 H3] & _). rewrite Hl in H1. apply Forall2_nil_inv_l in H1 as ->.
      exists []. split; [constructor; [by unfold replies in *; cbn; rewrite Hl|done|done]|]. unfold stream. cbn. rewrite Hb. split; [done|]. split; [lia|by left]. }
    assert (clientHasPendingReplies (cl (set_cl (set_csock g2) (set_cl (set_cout o0) s1))) = false) as Hnp by exact Hp.
    destruct (has (flags (cl s)) CLIENT_CLOSE_AFTER_REPLY) eqn:Hcl2.
    - apply wp_bind. apply (wp_mono _ (fun _ => dropped s)); [by eapply (drop_wp s _ []); [apply unsent_csock|..]|].
      intros [] s5 Hd. apply wp_ret. apply (HD _ [] _ eq_refl Hd). right. by split.
    - apply wp_ret. apply (HQ _ [] _ eq_refl); [|left; by split_and!].
      constructor; [by apply unsent_csock|done|exact (Hcl _)|done|done|exact Hlen|intros Hp4; by rewrite Hnp in Hp4|].
      intros _. split; [done|exact Hh]. }
  destruct w as [n| |]; [exact (Hrest I)|exact (Hrest I)|].
  apply wp_bind. eapply wp_mono; [apply Hfree|]. intros [] s3 Hd. apply wp_ret. apply (HD _ z' _ eq_refl Hd). left.
  destruct Hst as [[[] _]|[(i & n & _ & Hw' & _)|[[] _]]]; [done|by exists i, n|done].
Qed.

(** C13. Sending takes from the front: for any socket that accepts at most what
    it is offered, the bytes written and those left are, in order, the bytes
    that were to be sent.  The loop ends.  The client stays until an error of
    the socket or, when it is to be closed after its replies, until nothing is
    left; otherwise the loop stops because nothing is left, the socket takes
    no more, or it is enough for one turn.  A client that goes has given back
    every reference it had. *)
Theorem writeToClient_sends s z fuel over write handler :
  writes write -> unsent C s z -> holds_argv s -> (length z + length (replies s) < fuel)%nat ->
  Z.of_nat (length (replies s)) <= LIST_LIMIT ->
  exists s' alive sent z', writeToClient C fuel over write handler s = Some (s', (alive, sent)) /\ z = sent ++ z' /\
    (if (alive : bool) then
       served s s' handler z' /\
       (z' = [] \/ (exists i n, 0 < n /\ match write i n with WBytes k => k <= 0 | WAgain => True | WError => False end) \/
        (NET_MAX_WRITES_PER_EVENT < Z.of_nat (length sent) /\ exists i, over i = false))
     else
       dropped s s' /\ ((exists i n, write i n = WError) \/ (z' = [] /\ closing (cl s) = true))).
Proof.
  intros Hw Hu Hav Hf Hlim. destruct (writeToClient_wp s z fuel over write handler
    (fun r s' => exists z', z = r.2 ++ z' /\ if (r.1 : bool) then
       served s s' handler z' /\
       (z' = [] \/ (exists i n, 0 < n /\ match write i n with WBytes k => k <= 0 | WAgain => True | WError => False end) \/
        (NET_MAX_WRITES_PER_EVENT < Z.of_nat (length r.2) /\ exists i, over i = false))
     else dropped s s' /\ ((exists i n, write i n = WError) \/ (z' = [] /\ closing (cl s) = true)))
    Hw Hu Hav Hf Hlim) as (s' & [alive sent] & E & z' & Hz & H).
  - intros s' z' sent Hz Hs Hr. exists z'. split; [done|]. split; [done|]. destruct Hr as [[? _]|[_ Hr]]; auto.
  - intros s' z' sent Hz Hs Hr. by exists z'.
  - by exists s', alive, sent, z'.
Qed.

(** *** Until nothing is left

    What [aeMain] does for a socket that can be written: the handler is called
    as long as it is installed and the client is there.  Each turn has its own
    answers of the socket and of the memory. *)
Fixpoint write_turns (fuel : nat) (turns : list ((nat -> bool) * (nat -> Z -> wres))) : M state (bool * bytes) :=
  match turns with
  | [] => mret (true, [])
  | (over, write) :: turns =>
    c ← gets cl;
    if writable_handler (csock c) then
      '(alive, x) ← sendReplyToClient C fuel over write;
      if (alive : bool) then '(alive, y) ← write_turns fuel turns; mret (alive, x ++ y) else mret (false, x)
    else mret (true, [])
  end.

(** A socket that always takes something. *)
Definition willing (turn : (nat -> bool) * (nat -> Z -> wres)) : Prop :=
  forall i n, if 0 <? n then exists k, turn.2 i n = WBytes k /\ 0 < k <= n else turn.2 i n = WBytes n.

Lemma willing_writes turn : willing turn -> writes turn.2.
Proof. intros H i n. specialize (H i n). destruct (Z.ltb_spec 0 n); [destruct H as (k & -> & Hk); lia|rewrite H; lia]. Qed.

Lemma willing_no_error turn i n : willing turn -> turn.2 i n <> WError.
Proof. intros H. specialize (H i n). destruct (0 <? n); [by destruct H as (k & -> & _)|by rewrite H]. Qed.

Lemma served_argv s s' handler z' : served s s' handler z' -> cin (cl s') = cin (cl s).
Proof. intros [_ _ H _ _ _ _ _]. apply (f_equal cin) in H. exact H. Qed.

Lemma served_flags s s' handler z' : served s s' handler z' -> flags (cl s') = flags (cl s).
Proof. intros [_ _ H _ _ _ _ _]. apply (f_equal flags) in H. exact H. Qed.

Lemma served_holds s s' handler z' : holds_argv s -> served s s' handler z' -> holds_argv s'.
Proof.
  intros [Hal Hac] H. pose proof (served_argv _ _ _ _ H) as E. destruct H as [_ _ _ Hsp Hk _ _ _]. split; rewrite E; [|intros a; by rewrite Hsp].
  intros a Ha. destruct (Hal a Ha) as (o & Ho & Hf). pose proof (rocc_pos a _ Ha). specialize (Hac a). destruct (Hk a o) as (o' & Ho' & Hv); [lia|done|].
  exists o'. split; [done|]. by rewrite (freeable_same _ _ Hv).
Qed.

Lemma dropped_after s s1 s2 z1 : served s s1 true z1 -> dropped s1 s2 -> dropped s s2.
Proof.
  intros H [D1 D2 D3 D4 D5]. pose proof (served_argv _ _ _ _ H) as E. destruct H as [_ Hks _ Hsp _ _ _ _]. constructor; try done; [congruence|].
  intros a. by rewrite D5, E, Hsp.
Qed.

(** Nothing is left and the handler is gone, or the client was to be closed. *)
Definition drained s s' (alive : bool) : Prop :=
  alive = negb (closing (cl s)) /\
  (if alive then clientHasPendingReplies (cl s') = false /\ writable_handler (csock (cl s')) = false /\ ks s' = ks s /\
     (forall a, rspare s' a = rspare s a) else dropped s s').

Lemma drained_after s s1 s2 z1 alive : served s s1 true z1 -> drained s1 s2 alive -> drained s s2 alive.
Proof.
  intros H [Ha Hd]. split; [by rewrite Ha; unfold closing; rewrite (served_flags _ _ _ _ H)|]. destruct alive; [|by eapply dropped_after].
  destruct H as [_ Hks _ Hsp _ _ _ _], Hd as (H1 & H2 & H3 & H4). split; [done|]. split; [done|]. split; [congruence|]. intros a. by rewrite H4, Hsp.
Qed.

Lemma write_turn_wp s z fuel turn : willing turn -> unsent C s z -> holds_argv s -> (length z + length (replies s) < fuel)%nat ->
  Z.of_nat (length (replies s)) <= LIST_LIMIT ->
  wp (sendReplyToClient C fuel turn.1 turn.2) (fun r s' => exists z', z = r.2 ++ z' /\
    if (r.1 : bool) then served s s' true z' /\ (clientHasPendingReplies (cl s') = false -> z' = [] /\ drained s s' true) /\
      (clientHasPendingReplies (cl s') = true -> NET_MAX_WRITES_PER_EVENT < Z.of_nat (length r.2))
    else z' = [] /\ drained s s' false) s.
Proof.
  intros Hw Hu Hav Hf Hlim. unfold sendReplyToClient. apply (writeToClient_wp s z); [by apply willing_writes|done..| |].
  - intros s' z' sent Hz Hs Hr. exists z'. split; [done|]. cbn [fst snd]. split; [done|]. split.
    + intros Hp. destruct (unsent_nothing _ _ (sv_unsent _ _ _ _ Hs) Hp) as (-> & Hl & _). split; [done|]. split.
      * destruct Hr as [(_ & _ & ->)|[Hr _]]; [done|congruence].
      * split; [done|]. split; [by apply (sv_done _ _ _ _ Hs)|]. split; [apply Hs|apply Hs].
    + intros Hp. destruct Hr as [(_ & E & _)|[_ [(i & n & Hn & Hk)|[Hn _]]]]; [congruence| |done].
      specialize (Hw i n). rewrite (proj2 (Z.ltb_lt _ _) Hn) in Hw. destruct Hw as (k & E & Hk'). rewrite E in Hk. lia.
  - intros s' z' sent Hz Hd [(i & n & He)|[-> Hc]]; [by destruct (willing_no_error turn i n Hw)|]. exists []. split; [done|]. split; [done|].
    split; [by rewrite Hc|done].
Qed.

Lemma write_turns_wp fuel turns : forall s z, Forall willing turns -> unsent C s z -> holds_argv s -> writable_handler (csock (cl s)) = true ->
  (length z + length (replies s) < fuel)%nat -> Z.of_nat (length (replies s)) <= LIST_LIMIT ->
  Z.of_nat (length z) < (NET_MAX_WRITES_PER_EVENT + 1) * Z.of_nat (length turns) ->
  wp (write_turns fuel turns) (fun r s' => r.2 = z /\ drained s s' r.1) s.
Proof.
  induction turns as [|turn turns IH]; intros s z Hw Hu Hav Hh Hf Hlim Hn; [cbn in Hn; lia|]. apply Forall_cons in Hw as [Hw Hws].
  destruct turn as [over write] eqn:Et. cbn [write_turns]. wp_step. rewrite Hh. apply wp_bind.
  eapply wp_mono; [apply (write_turn_wp s z fuel (over, write)); done|]. cbn beta. intros [alive x] s1 (z1 & -> & H). cbn [fst snd] in H.
  destruct alive; [|destruct H as [-> Hd]; apply wp_ret; cbn [fst snd]; by rewrite app_nil_r].
  destruct H as (Hs & Hdone & Hmore). apply wp_bind. destruct (clientHasPendingReplies (cl s1)) eqn:Hp.
  - specialize (Hmore eq_refl). pose proof (sv_list _ _ _ _ Hs). cbn [snd] in *. rewrite length_app in Hf, Hn. cbn [length] in Hn. eapply wp_mono.
    + apply IH; [done|apply Hs|by eapply served_holds|rewrite (sv_handler _ _ _ _ Hs Hp); exact Hh|lia|lia|unfold NET_MAX_WRITES_PER_EVENT in *; lia].
    + intros [alive y] s2 [Hy Hd]. cbn [fst snd] in *. subst y. apply wp_ret. split; [done|]. by eapply drained_after.
  - destruct (Hdone eq_refl) as [-> Hd]. pose proof Hd as (_ & _ & Hoff & _). apply (wp_mono _ (fun r s2 => r = (true, []) /\ s2 = s1)).
    + destruct turns as [|[over2 write2] turns']; cbn [write_turns]; [by apply wp_ret|]. wp_step. rewrite Hoff. by apply wp_ret.
    + intros r s2 [-> ->]. apply wp_ret. cbn [fst snd]. by rewrite app_nil_r.
Qed.

(** C34. Replies get through: the write handler of a client whose socket always
    takes something is called until it is gone.  One turn sends more than
    [NET_MAX_WRITES_PER_EVENT] bytes, unless that is all, so the number of turns
    that are needed is at most the number of bytes divided by this limit and
    one more.  After these exactly the bytes that were to be sent went out, in
    order, nothing is pending and the handler is removed; a client that was to
    be closed after its replies is closed and has given back what it held. *)
Theorem writeToClient_drains s z fuel turns :
  Forall willing turns -> unsent C s z -> holds_argv s -> writable_handler (csock (cl s)) = true ->
  (length z + length (replies s) < fuel)%nat -> Z.of_nat (length (replies s)) <= LIST_LIMIT ->
  Z.of_nat (length z) < (NET_MAX_WRITES_PER_EVENT + 1) * Z.of_nat (length turns) ->
  exists s' alive, write_turns fuel turns s = Some (s', (alive, z)) /\ drained s s' alive.
Proof.
  intros Hw Hu Hav Hh Hf Hlim Hn. destruct (write_turns_wp fuel turns s z) as (s' & [alive sent] & E & Hz & Hd); try done.
  cbn [fst snd] in *. subst sent. by exists s', alive.
Qed.

End Send.

(** ** Examples *)

Definition sample_args : list (addr * bytes) := [(9, str "hello"); (10, str "GET")].

Definition sample_text (a : addr) : bytes := if a =? 9 then str "hello" else [].

Definition sample_replies : list reply_op :=
  [SayArray 2; SayBulk 9; SayNumber 1; SayNumber (-5); SayError (str "no"); SayBulkBuffer []].

Lemma sample_args_ok : demo_args sample_args.
Proof. apply (bool_decide_unpack _). vm_compute. exact I. Qed.

Lemma sample_hello : (9, str "hello") ∈ demo_texts sample_args.
Proof. by left. Qed.

Lemma replies_append_witness :
  pending demo_config (demo sample_args []) [] /\ Forall (reply_ok sample_text (demo sample_args [])) sample_replies /\
  exists s', run_replies demo_config sample_replies (demo sample_args []) = Some (s', tt) /\
    pending demo_config s' (concat [header 42 2; bulk (str "hello"); header 58 1; header 58 (-5); error_line (str "no"); bulk []]).
Proof.
  assert (Forall (reply_ok sample_text (demo sample_args [])) sample_replies) as Hok.
  { unfold sample_replies. repeat (apply Forall_cons; split; [cbn [reply_ok]|]); try apply Forall_nil; [by vm_compute| |by vm_compute..].
    split; [exact (demo_avail sample_args sample_args_ok [] 9 _ sample_hello)|by vm_compute]. }
  split; [exact (demo_pending sample_args [])|]. split; [exact Hok|].
  destruct (replies_append demo_config sample_text (demo sample_args []) [] sample_replies
    (demo_pending sample_args []) (demo_roomy sample_args [] 18 eq_refl) (demo_shared sample_args sample_args_ok []) Hok) as (s' & E & Hp & _).
  exists s'. split; [exact E|exact Hp].
Defined.

(** Three bytes of the buffer are sent already, and one reply of the list is
    left; the socket takes four bytes at a time and then no more. *)
Definition sending : state unit :=
  set_cl (set_cout (fun _ => COutput (str "+OK" ++ CRLF) [9] 16 3 0)) (demo sample_args [10]).

Definition sample_write (i : nat) (n : Z) : wres := if (i <? 2)%nat then WBytes (Z.min n 4) else WAgain.

Lemma sending_mem : mem demo_config (demo_heap sample_args) 9 = 16.
Proof. unfold mem. by rewrite (demo_lookup sample_args sample_args_ok 9 _ sample_hello). Qed.

Lemma sending_unsent : unsent demo_config sending (CRLF ++ str "hello").
Proof.
  exists [str "hello"]. split; [|split; [reflexivity|split; [by cbn|by right]]]. constructor.
  - constructor; [|constructor]. exists (demo_string (str "hello")).
    split; [exact (demo_lookup sample_args sample_args_ok 9 _ sample_hello)|]. split; [by eapply demo_string_obj, sample_hello; apply sample_args_ok|done].
  - intros a. unfold rspare, replies. cbn [sending set_cl set_cout cl cout reply objects demo]. rewrite rocc_single.
    destruct (decide (a = 9)) as [->|]; [|pose proof (demo_count sample_args a); lia].
    by rewrite (demo_has sample_args sample_args_ok 9 _ sample_hello).
  - change (16 = mem demo_config (demo_heap sample_args) 9 + 0). by rewrite sending_mem.
Qed.

Lemma sending_argv : holds_argv sending.
Proof.
  assert ((10, str "GET") ∈ demo_texts sample_args) as Hin by (by right; left). split.
  - intros a ->%list_elem_of_singleton. eexists. split; [exact (demo_lookup sample_args sample_args_ok 10 _ Hin)|done].
  - intros a. unfold rspare, replies. cbn [sending set_cl set_cout cl cout reply objects demo cin demo_client argv]. rewrite !rocc_single.
    destruct (decide (a = 10)) as [->|]; [rewrite (demo_has sample_args sample_args_ok 10 _ Hin); by vm_compute|].
    destruct (decide (a = 9)) as [->|]; [rewrite (demo_has sample_args sample_args_ok 9 _ sample_hello); lia|].
    pose proof (demo_count sample_args a). lia.
Qed.

Lemma writeToClient_sends_witness :
  unsent demo_config sending (CRLF ++ str "hello") /\
  exists s' alive sent z', writeToClient demo_config 20 (fun _ => false) sample_write true sending = Some (s', (alive, sent)) /\
    CRLF ++ str "hello" = sent ++ z' /\ alive = true.
Proof.
  split; [exact sending_unsent|].
  destruct (writeToClient_sends demo_config sending (CRLF ++ str "hello") 20 (fun _ => false) sample_write true) as (s' & alive & sent & z' & E & Ez & H).
  - intros i n. unfold sample_write. destruct (i <? 2)%nat; lia.
  - exact sending_unsent.
  - exact sending_argv.
  - cbn. lia.
  - by vm_compute.
  - exists s', alive, sent, z'. split; [exact E|]. split; [exact Ez|]. destruct alive; [reflexivity|].
    destruct H as [_ [(i & n & He)|[_ Hc]]]; [|by vm_compute in Hc]. unfold sample_write in He. by destruct (i <? 2)%nat.
Defined.

(** The socket takes two bytes, then five at a time. *)
Definition sample_turns : list ((nat -> bool) * (nat -> Z -> wres)) := [(fun _ => false, fun _ n => WBytes (Z.min n 2)); (fun _ => true, fun _ n => WBytes (Z.min n 5))].

Definition writing : state unit := set_cl (set_csock (fun k => CSocket true (lastinteraction k) (stat_net_output_bytes k))) sending.

Lemma sample_willing : Forall willing sample_turns.
Proof.
  assert (forall over k, 0 < k -> willing (over, fun _ n => WBytes (Z.min n k))) as H.
  { intros over k Hk i n. cbn [snd]. destruct (Z.ltb_spec 0 n); [exists (Z.min n k); split; [done|lia]|f_equal; lia]. }
  constructor; [by apply H|]. constructor; [by apply H|]. constructor.
Qed.

Lemma writeToClient_drains_witness :
  exists s', write_turns demo_config 20 sample_turns writing = Some (s', (true, CRLF ++ str "hello")) /\ writable_handler (csock (cl s')) = false.
Proof.
  destruct (writeToClient_drains demo_config writing (CRLF ++ str "hello") 20 sample_turns) as (s' & alive & E & Ha & Hd).
  - exact sample_willing.
  - unfold writing. apply unsent_csock, sending_unsent.
  - unfold writing. apply holds_csock, sending_argv.
  - reflexivity.
  - cbn. lia.
  - by vm_compute.
  - by vm_compute.
  - exists s'. change (alive = true) in Ha. subst alive. split; [exact E|apply Hd].
Defined.

End ReplyRun.
