(* ===== verification/Commands.v ===== *)
(** * Commands on keys (src/t_string.c, src/db.c, src/object.c)

    The bodies of SET, GET and DEL: arguments are read from the client, the
    key space is read and written through [Db] and the answer is queued
    through [Reply]. *)

From S2P Require Import Prelude Monad Util Sds SdsText Object State Db Reply.
Import Monad Util Sds SdsText Object State Db Reply.

Module Commands.

Definition OBJ_SET_NO_FLAGS : Z := 0.
Definition OBJ_SET_NX : Z := 1.
Definition OBJ_SET_XX : Z := 2.
Definition OBJ_SET_EX : Z := 4.
Definition OBJ_SET_PX : Z := 8.

Definition UNIT_SECONDS : Z := 0.
Definition UNIT_MILLISECONDS : Z := 1.

(** Whether the string of C at [a] is the word of two letters, each given in
    lower and upper case; no byte is read after one that is different. *)
Definition is_word (a : bytes) (c0 C0 c1 C1 : Z) : option bool :=
  a0 ← a !! 0%nat;
  if negb ((a0 =? c0) || (a0 =? C0)) then Some false
  else
    a1 ← a !! 1%nat;
    if negb ((a1 =? c1) || (a1 =? C1)) then Some false
    else a2 ← a !! 2%nat; Some (a2 =? 0).

Definition is_nx (a : bytes) : option bool := is_word a 110 78 120 88.
Definition is_xx (a : bytes) : option bool := is_word a 120 88 120 88.
Definition is_ex (a : bytes) : option bool := is_word a 101 69 120 88.
Definition is_px (a : bytes) : option bool := is_word a 112 80 120 88.

Section Ops.
Context {P : Type} (C : config).

Abbreviation state := (state P).
Abbreviation M := (M state).

(** ** Access to the arguments *)

(** [c->argv[j]]. *)
Definition get_arg (j : nat) : M addr := c ← gets cl; lift (argv (cin c) !! j).

(** The string of C an argument points to. *)
Definition arg_chars (a : addr) : M bytes := o ← get_object a; s ← lift (as_sds (ptr o)); mret (Sds.buf s).

Definition with_argv (l : list addr) (i : cinput) : cinput :=
  CInput (querybuf i) (reqtype i) (multibulklen i) (bulklen i) l.

(** ** Replies about what was found *)

(** The number of an object, or an error to the client. *)
Definition longLongOrReply (o : addr) (msg : option bytes) : M (option Z) :=
  h ← gets objects;
  r ← lift (getLongLongFromObjectOrReply h (Some o) msg);
  match r with
  | inl m => _ ← addReplyError C m; mret None
  | inr v => mret (Some v)
  end.

Definition lookupKeyReadOrReply (id : nat) (key reply : addr) : M (option addr) :=
  o ← lookupKeyRead C id key;
  _ ← (match o with None => addReply C reply | Some _ => skip end);
  mret o.

(** ** SET *)

(** The time the user gave, in milliseconds: [None] when an error was sent. *)
Definition set_expire_time (expire : option addr) (u : Z) : M (option Z) :=
  match expire with
  | None => mret (Some 0)
  | Some e =>
    milliseconds ← longLongOrReply e None;
    match milliseconds with
    | None => mret None
    | Some ms =>
      if ms <=? 0 then
        c ← gets cl; cm ← lift (cmd c);
        _ ← addReplyErrorFormat C (str "invalid expire time in " ++ name cm);
        mret None
      else mret (Some (if u =? UNIT_SECONDS then s64 (ms * 1000) else ms))
    end
  end.

(** Whether NX or XX forbids the write. *)
Definition set_forbidden (id : nat) (flags : Z) (key : addr) : M bool :=
  nx ← (if has flags OBJ_SET_NX then v ← lookupKeyWrite C id key; mret (bool_decide (is_Some v)) else mret false);
  if (nx : bool) then mret true
  else if has flags OBJ_SET_XX then v ← lookupKeyWrite C id key; mret (bool_decide (v = None))
  else mret false.

Definition setGenericCommand (flags : Z) (key val : addr) (expire : option addr) (u : Z) (ok_reply abort_reply : option addr) : M unit :=
  c ← gets cl;
  let id := cdb c in
  ms ← set_expire_time expire u;
  match ms with
  | None => skip
  | Some milliseconds =>
    no ← set_forbidden id flags key;
    if (no : bool) then addReply C (default (nullbulk (shared C)) abort_reply)
    else
      _ ← setKey C id key val;
      _ ← modify (set_ks add_dirty);
      _ ← (match expire with
        | Some _ => now ← mstime C; setExpire C id key (s64 (now + milliseconds))
        | None => skip
        end);
      _ ← notifyKeyspaceEvent C NOTIFY_STRING (str "set") key id;
      _ ← (match expire with
        | Some _ => notifyKeyspaceEvent C NOTIFY_GENERIC (str "expire") key id
        | None => skip
        end);
      addReply C (default (ok (shared C)) ok_reply)
  end.

(** What the loop over the options has found. *)
Record set_options := SetOptions {
  oflags : Z;
  sunit : Z;
  sexpire : option addr
}.

(** The options from the argument on, with the one after it; [None] is the
    syntax error. *)
Fixpoint set_loop (args : list addr) (o : set_options) : M (option set_options) :=
  match args with
  | [] => mret (Some o)
  | arg :: rest =>
    a ← arg_chars arg;
    nx ← lift (is_nx a);
    if nx && negb (has (oflags o) OBJ_SET_XX) then
      set_loop rest (SetOptions (Z.lor (oflags o) OBJ_SET_NX) (sunit o) (sexpire o))
    else
      xx ← lift (is_xx a);
      if xx && negb (has (oflags o) OBJ_SET_NX) then
        set_loop rest (SetOptions (Z.lor (oflags o) OBJ_SET_XX) (sunit o) (sexpire o))
      else
        ex ← lift (is_ex a);
        px ← lift (is_px a);
        match rest with
        | [] => mret None
        | next :: rest =>
          if ex && negb (has (oflags o) OBJ_SET_PX) then
            set_loop rest (SetOptions (Z.lor (oflags o) OBJ_SET_EX) UNIT_SECONDS (Some next))
          else if px && negb (has (oflags o) OBJ_SET_EX) then
            set_loop rest (SetOptions (Z.lor (oflags o) OBJ_SET_PX) UNIT_MILLISECONDS (Some next))
          else mret None
        end
  end.

(** [c->argv[2] = tryObjectEncoding(c->argv[2])]. *)
Definition encode_arg (j : nat) : M unit :=
  a ← get_arg j;
  h ← gets objects;
  '(h, v) ← lift (tryObjectEncoding (senv C) (alloc_object C (dom h)) h a);
  _ ← modify (set_objects (fun _ => h));
  modify (set_cl (set_cin (fun i => with_argv (<[j := v]> (argv i)) i))).

Definition setCommand : M unit :=
  c ← gets cl;
  o ← set_loop (drop 3 (argv (cin c))) (SetOptions OBJ_SET_NO_FLAGS UNIT_SECONDS None);
  match o with
  | None => addReply C (syntaxerr (shared C))
  | Some o =>
    _ ← encode_arg 2;
    key ← get_arg 1; val ← get_arg 2;
    setGenericCommand (oflags o) key val (sexpire o) (sunit o) None None
  end.

(** ** GET *)

(** [C_OK] is [true]. *)
Definition getGenericCommand : M bool :=
  c ← gets cl;
  key ← get_arg 1;
  v ← lookupKeyReadOrReply (cdb c) key (nullbulk (shared C));
  match v with
  | None => mret true
  | Some a =>
    o ← get_object a;
    if negb (otype o =? OBJ_STRING) then _ ← addReply C (wrongtypeerr (shared C)); mret false
    else _ ← addReplyBulk C a; mret true
  end.

Definition getCommand : M unit := _ ← getGenericCommand; skip.

(** ** DEL *)

Fixpoint del_loop (id : nat) (keys : list addr) (deleted : Z) : M Z :=
  match keys with
  | [] => mret deleted
  | key :: keys =>
    _ ← expireIfNeeded C id key;
    d ← dbDelete C id key;
    if (d : bool) then
      _ ← notifyKeyspaceEvent C NOTIFY_GENERIC (str "del") key id;
      _ ← modify (set_ks add_dirty);
      del_loop id keys (s32 (deleted + 1))
    else del_loop id keys deleted
  end.

Definition delCommand : M unit :=
  c ← gets cl;
  deleted ← del_loop (cdb c) (drop 1 (argv (cin c))) 0;
  addReplyLongLong C deleted.

End Ops.
End Commands.
