(* ===== verification/Serving.v ===== *)
(** * Serving a client from a store of strings

    The specification of the commands is a store from names to values, the
    values being strings or something else, with the times at which names
    expire.  [serving] relates the state of the server to a store and to the
    bytes its client has still to receive; the rules take one such pair to
    the next along the operations of the key space and of the replies,
    accounting for every reference. *)

From S2P Require Import Prelude Monad Util Sds SdsText Dict DictTypes DictSpec DictMap Object ObjectSpec State Db HeapSpec DbSpec DbRun Reply ReplySpec Commands.
Import Monad Util Sds SdsText Dict DictTypes DictSpec DictMap Object ObjectSpec State Db HeapSpec DbSpec DbRun Reply ReplySpec Commands.

Module Serving.

(** ** Stores *)

Inductive value := VStr (x : bytes) | VOther.

Abbreviation kv := (adb_of value).

Section View.
Context {P : Type} (C : config).
Abbreviation heap := (gmap addr (robj P)).
Implicit Types (h : heap) (a : addr) (A : adb) (K : kv) (b x : bytes) (id : nat).

(** The value of an object. *)
Definition view h a (v : value) : Prop :=
  match v with
  | VStr x => holds h a x /\ Z.of_nat (length x) < SDS_LIMIT
  | VOther => exists o, h !! a = Some o /\ otype o <> OBJ_STRING
  end.

(** The store is what the database holds. *)
Record sim h A K : Prop := Sim {
  sim_map : forall b, option_Forall2 (view h) (amap A !! b) (amap K !! b);
  sim_exp : aexp K = aexp A;
  sim_ctr : actr K = actr A
}.

Lemma view_sub h h' a v : heap_sub h h' -> is_Some (h' !! a) -> view h a v -> view h' a v.
Proof.
  intros Hsub Hl. destruct v as [x|]; cbn.
  - intros [Hh Hx]. split; [by eapply sub_holds|done].
  - intros (o & Ho & Ht). destruct Hl as [o' Ho']. destruct (Hsub _ _ Ho') as (o1 & Ho1 & (E & _ & _)).
    exists o'. split; [done|]. rewrite E. congruence.
Qed.

Lemma sim_sub h h' A K : heap_sub h h' -> (forall b a, amap A !! b = Some a -> is_Some (h' !! a)) -> sim h A K -> sim h' A K.
Proof.
  intros Hsub Hl [Hm He Hc]. constructor; [|done|done]. intros b. specialize (Hm b). specialize (Hl b).
  destruct Hm as [a v Hv|]; constructor. eapply view_sub; [done|by apply Hl|done].
Qed.

(** Only the values of the store matter. *)
Lemma sim_kept h h' A K : (forall b a o, amap A !! b = Some a -> h !! a = Some o -> exists o', h' !! a = Some o' /\ same_value o o') ->
  sim h A K -> sim h' A K.
Proof.
  intros Hk [M1 M2 M3]. constructor; [|done|done]. intros b. pose proof (M1 b) as M1b. destruct (amap A !! b) as [a|] eqn:Ha.
  2:{ inversion M1b; subst. constructor. }
  inversion M1b as [a' v Hv E1 E2|]; subst. constructor. destruct v as [x'|]; cbn in Hv |- *.
  - destruct Hv as [(o & Ho & Hx) Hl]. split; [|done]. destruct (Hk b a o Ha Ho) as (o' & Ho' & Hsv). exists o'. split; [done|]. by eapply str_obj_same.
  - destruct Hv as (o & Ho & Ht). destruct (Hk b a o Ha Ho) as (o' & Ho' & (E & _ & _)). exists o'. split; [done|]. by rewrite E.
Qed.

Lemma sim_none h A K b : sim h A K -> amap A !! b = None <-> amap K !! b = None.
Proof. intros [Hm _ _]. specialize (Hm b). by destruct Hm. Qed.

Lemma sim_some h A K b a : sim h A K -> amap A !! b = Some a -> exists v, amap K !! b = Some v /\ view h a v.
Proof. intros [Hm _ _] Ha. specialize (Hm b). rewrite Ha in Hm. inversion Hm; subst. eauto. Qed.

Lemma sim_insert h A K b a v : sim h A K -> view h a v -> sim h (adb_put b a A) (adb_put b v K).
Proof.
  intros [Hm He Hc] Hv. constructor; [|done|done]. intros c. cbn. destruct (decide (c = b)) as [->|Hne].
  - rewrite !lookup_insert_eq. by constructor.
  - by rewrite !lookup_insert_ne by done.
Qed.

Lemma sim_delete h A K b : sim h A K -> sim h (adb_delete b A) (adb_delete b K).
Proof.
  intros [Hm He Hc]. constructor; [|by cbn; rewrite He|done]. intros c. cbn. destruct (decide (c = b)) as [->|Hne].
  - rewrite !lookup_delete_eq. constructor.
  - by rewrite !lookup_delete_ne by done.
Qed.

Lemma sim_ctrs h A K f : sim h A K -> sim h (adb_ctr f A) (adb_ctr f K).
Proof. intros [Hm He Hc]. constructor; cbn; by rewrite ?Hc. Qed.

Lemma sim_expire h A K id b : sim h A K ->
  sim h (ref_expire C id b A).1 (ref_expire C id b K).1 /\ (ref_expire C id b A).2 = (ref_expire C id b K).2.
Proof.
  intros Hs. assert (when_of K b = when_of A b) as Hw by (unfold when_of; by rewrite (sim_exp _ _ _ Hs)).
  unfold ref_expire. rewrite Hw, (sim_ctr _ _ _ Hs). destruct (_ || _); [done|].
  set (A1 := if lua_caller C then A else adb_ctr tick A). set (K1 := if lua_caller C then K else adb_ctr tick K).
  assert (sim h A1 K1 /\ when_of A1 b = when_of A b /\ when_of K1 b = when_of A b) as (H1 & -> & ->).
  { subst A1 K1. destruct (lua_caller C); [by rewrite Hw|]. split; [by apply sim_ctrs|]. split; [done|exact Hw]. }
  destruct (masterhost C); [done|]. destruct (_ <=? _); [done|]. split; [|done]. cbn [fst]. by apply sim_delete, sim_ctrs.
Qed.

Lemma sim_lookup_write h A K id b : sim h A K ->
  sim h (ref_lookup_write C id b A).1 (ref_lookup_write C id b K).1 /\
  option_Forall2 (view h) (ref_lookup_write C id b A).2 (ref_lookup_write C id b K).2.
Proof.
  intros Hs. destruct (sim_expire h A K id b Hs) as [H1 _]. unfold ref_lookup_write.
  destruct (ref_expire C id b A) as [A1 e1], (ref_expire C id b K) as [K1 e2]. split; [done|]. apply (sim_map _ _ _ H1).
Qed.

Lemma sim_lookup_read h A K reading id b : sim h A K ->
  sim h (ref_lookup_read C reading id b A).1 (ref_lookup_read C reading id b K).1 /\
  option_Forall2 (view h) (ref_lookup_read C reading id b A).2 (ref_lookup_read C reading id b K).2.
Proof.
  intros Hs. destruct (sim_expire h A K id b Hs) as [H1 He]. unfold ref_lookup_read.
  destruct (ref_expire C id b A) as [A1 e1], (ref_expire C id b K) as [K1 e2]. cbn [fst snd] in H1, He. subst e2.
  destruct (e1 && _); [split; [done|constructor]|]. cbn [fst snd]. split; [|apply (sim_map _ _ _ H1)].
  pose proof (sim_map _ _ _ H1 b) as Hm. destruct Hm; by apply sim_ctrs.
Qed.

Lemma sim_set_key h A K id b a v : sim h A K -> view h a v -> sim h (ref_set_key C id b a A) (ref_set_key C id b v K).
Proof.
  intros Hs Hv. destruct (sim_expire h A K id b Hs) as [H1 _]. unfold ref_set_key.
  destruct (sim_insert _ _ _ b a v H1 Hv) as [Hm He Hc]. cbn in *. constructor; [done|cbn; by rewrite He|done].
Qed.

Lemma sim_set_expire h A K b w : sim h A K ->
  sim h (ADb (amap A) (<[b := w]> (aexp A)) (actr A)) (ADb (amap K) (<[b := w]> (aexp K)) (actr K)).
Proof. intros [Hm He Hc]. constructor; cbn; by rewrite ?He. Qed.

End View.
(** ** The server and its client *)

(** The configuration is found in the context. *)
Existing Class config.

Section Serving.
Context {P : Type} {C : config}.
Context {HC : sound_config C}.
Abbreviation state := (state P).
Abbreviation heap := (gmap addr (robj P)).
Implicit Types (s : state) (a key : addr) (A : adb) (K : kv) (b x y z : bytes) (id k : nat).

Definition args_of s : list addr := argv (cin (cl s)).

(** The references to an object that belong neither to the map, nor to the
    replies, nor to the arguments of the client. *)
Definition slack s A a : Z := count (objects s) a - vocc a (amap A) - rocc a (replies s) - rocc a (args_of s).

(** Who else refers to an object does so few times. *)
Definition SLACK_LIMIT : Z := 2 ^ 28.
Definition ARGS_LIMIT : Z := 2 ^ 21.

Record serving s id A K z : Prop := Serving {
  sv_db : db_rep C s id A;
  sv_sim : sim (objects s) A K;
  sv_out : pending C s z;
  sv_slack : forall a, 0 <= slack s A a < SLACK_LIMIT;
  sv_args : Z.of_nat (length (args_of s)) <= ARGS_LIMIT
}.

(** Room for [k] more names and [k] more replies. *)
Record room s A k : Prop := Room {
  ro_map : Z.of_nat (base.size (amap A)) + Z.of_nat k <= DICT_LIMIT;
  ro_list : Z.of_nat (length (replies s)) + Z.of_nat k <= LIST_LIMIT
}.

Lemma room_mono s A k k' : room s A k' -> (k <= k')%nat -> room s A k.
Proof. intros [H1 H2] Hle. constructor; lia. Qed.

(** An object somebody other than the map and the replies refers to. *)
Definition kept_ref s A a : Prop := 0 < slack s A a + rocc a (args_of s).

(** What a step of a command leaves alone: the references and the objects of
    everybody else, the other databases, and the client but for its output. *)
Record trans s s' id A A' : Prop := Trans {
  tr_slack : forall a, slack s' A' a = slack s A a;
  tr_kept : kept (objects s) (objects s') (kept_ref s A);
  tr_dbs : forall j, j <> id -> dbs (ks s') !! j = dbs (ks s) !! j;
  tr_flags : more_flags (flags (cl s)) (flags (cl s'));
  tr_cid : cid (cl s') = cid (cl s);
  tr_fd : fd (cl s') = fd (cl s);
  tr_cdb : cdb (cl s') = cdb (cl s);
  tr_cmd : cmd (cl s') = cmd (cl s);
  tr_cin : cin (cl s') = cin (cl s);
  tr_sent : sentlen (cout (cl s')) = sentlen (cout (cl s));
  tr_srv : srv s' = srv s;
  tr_ext : cext (cl s') = cext (cl s)
}.

Lemma trans_refl s id A : trans s s id A A.
Proof. constructor; try done; [|apply more_refl]. intros a o _ Ho. exists o. split; [done|apply same_value_refl]. Qed.

Lemma kept_ref_trans s s' id A A' a : trans s s' id A A' -> kept_ref s' A' a <-> kept_ref s A a.
Proof. intros T. unfold kept_ref, args_of. by rewrite (tr_slack _ _ _ _ _ T), (tr_cin _ _ _ _ _ T). Qed.

Lemma trans_trans s1 s2 s3 id A1 A2 A3 : trans s1 s2 id A1 A2 -> trans s2 s3 id A2 A3 -> trans s1 s3 id A1 A3.
Proof.
  intros T1 T2. pose proof (fun a => kept_ref_trans _ _ _ _ _ a T1) as Hk. destruct T1, T2. constructor; try congruence.
  - intros a o Ha Ho. destruct (tr_kept0 a o Ha Ho) as (o1 & Ho1 & S1).
    destruct (tr_kept1 a o1 (proj2 (Hk a) Ha) Ho1) as (o2 & Ho2 & S2). exists o2. split; [done|]. by eapply same_value_trans.
  - intros j Hj. by rewrite tr_dbs1, tr_dbs0.
  - by eapply more_trans.
Qed.

(** One more step has been served: the store and the stream are the new
    ones, and the list of replies has at most [k] more. *)
Record ran k s s' id A A' K' z' : Prop := Ran {
  rn_serving : serving s' id A' K' z';
  rn_trans : trans s s' id A A';
  rn_length : (length (replies s') <= length (replies s) + k)%nat
}.

Lemma ran_refl s id A K z : serving s id A K z -> ran 0 s s id A A K z.
Proof. intros H. constructor; [done|apply trans_refl|lia]. Qed.

Lemma ran_trans k1 k2 s1 s2 s3 id A1 A2 A3 K2 z2 K3 z3 :
  ran k1 s1 s2 id A1 A2 K2 z2 -> ran k2 s2 s3 id A2 A3 K3 z3 -> ran (k1 + k2) s1 s3 id A1 A3 K3 z3.
Proof. intros [H1 T1 L1] [H2 T2 L2]. constructor; [done|by eapply trans_trans|lia]. Qed.

Lemma ran_mono k k' s s' id A A' K z : ran k s s' id A A' K z -> (k <= k')%nat -> ran k' s s' id A A' K z.
Proof. intros [H T L] Hle. constructor; [done..|lia]. Qed.

(** *** The two kinds of steps *)

Lemma pending_same s s' z : pending C s z -> objects s' = objects s -> cout (cl s') = cout (cl s) -> pending C s' z.
Proof.
  intros (ys & Hr & Hst) Ho Hc. exists ys. split; [by eapply out_rep_client|]. unfold stream in *. by rewrite Hc.
Qed.

Lemma vocc_le a (m : gmap bytes addr) : vocc a m <= Z.of_nat (base.size m).
Proof. unfold vocc. apply inj_le, map_size_filter. Qed.

(** A step of the key space. *)
Lemma moved_ran s s' id A A' K K' z :
  serving s id A K z -> moved C s s' id A A' -> sim (objects s) A' K' -> ran 0 s s' id A A' K' z.
Proof.
  intros [Hdb Hsim Hout Hsl Har] [Rep Cl Pe Tc Dbs Heap Sp Sr] Hsim'.
  assert (replies s' = replies s) as Er by (unfold replies; by rewrite Cl).
  assert (args_of s' = args_of s) as Ea by (unfold args_of; by rewrite Cl).
  assert (forall a, slack s' A' a = slack s A a) as Hslack.
  { intros a. unfold slack. rewrite Er, Ea. specialize (Sp a). unfold spare in Sp. lia. }
  assert (forall a, spare s A a = slack s A a + rocc a (replies s) + rocc a (args_of s)) as Hspare by (intros a; unfold spare, slack; lia).
  assert (forall a, 0 < spare s A a -> is_Some (objects s' !! a)) as Hlive.
  { intros a Ha. apply (spare_live s' A'). by rewrite Sp. }
  constructor; [| |rewrite Er; lia].
  - constructor; [done| | |by intros a; rewrite Hslack|by rewrite Ea].
    + eapply sim_sub; [exact Heap| |exact Hsim']. intros b a Ha.
      destruct (dr_val _ _ _ _ Rep b a Ha) as (o & Ho & _). by exists o.
    + eapply pending_same; [apply (pending_heap C s z (objects s') Hout)|done|by cbn; rewrite Cl].
      * intros a o Ha Ho. destruct (Hlive a) as [o' Ho']; [rewrite Hspare; pose proof (rocc_pos a _ Ha); pose proof (rocc_nonneg a (args_of s)); specialize (Hsl a); lia|].
        destruct (Heap _ _ Ho') as (o1 & Ho1 & Hv). exists o'. split; [done|]. congruence.
      * intros a. pose proof (vocc_nonneg a (amap A')). specialize (Hslack a). specialize (Hsl a).
        pose proof (rocc_nonneg a (args_of s)). unfold slack in Hslack at 1. rewrite Er, Ea in Hslack. lia.
  - constructor; try by rewrite Cl.
    + done.
    + intros a o Ha Ho. unfold kept_ref in Ha.
      destruct (Hlive a) as [o' Ho']; [rewrite Hspare; pose proof (rocc_nonneg a (replies s)); lia|].
      destruct (Heap _ _ Ho') as (o1 & Ho1 & Hv). exists o'. split; [done|]. congruence.
    + done.
    + rewrite Cl. apply more_refl.
    + done.
Qed.

(** A step of the replies. *)
Lemma emitted_ran k s s' id A K z x : serving s id A K z -> emitted C k s s' z x -> ran k s s' id A A K (z ++ x).
Proof.
  intros [Hdb Hsim Hout Hsl Har] [Pend Fr Len]. destruct Fr as [F1 F2 F3 F4 F5 F6 F7 F8 F9 F10 F11 F12].
  assert (args_of s' = args_of s) as Ea by (unfold args_of; by rewrite F7).
  assert (forall a, slack s' A a = slack s A a) as Hslack.
  { intros a. specialize (F9 a). unfold rspare, slack in *. rewrite Ea. lia. }
  assert (forall a, rspare s a = slack s A a + vocc a (amap A) + rocc a (args_of s)) as Hrs by (intros a; unfold rspare, slack; lia).
  assert (forall b a, amap A !! b = Some a -> 0 < rspare s a) as Hmap.
  { intros b a Ha. rewrite Hrs. pose proof (vocc_pos a b _ Ha). specialize (Hsl a). pose proof (rocc_nonneg a (args_of s)). lia. }
  constructor; [| |done].
  - constructor; [| |done|by intros a; rewrite Hslack|by rewrite Ea].
    + destruct Hdb as [D1 D2 D3 D4 D5]. constructor.
      * by rewrite F1.
      * by rewrite F1.
      * done.
      * intros b a Ha. destruct (D4 b a Ha) as (o & Ho & Hf). destruct (F10 a o (Hmap b a Ha) Ho) as (o' & Ho' & Hv).
        exists o'. split; [done|]. by rewrite (freeable_same _ _ Hv).
      * intros a. specialize (Hslack a). specialize (Hsl a). unfold spare. unfold slack in Hslack at 1. rewrite Ea in Hslack.
        pose proof (rocc_nonneg a (replies s')). pose proof (rocc_nonneg a (args_of s)). lia.
    + eapply sim_kept; [|exact Hsim]. intros b a o Ha. by apply F10, (Hmap b).
  - constructor; try done.
    + intros a o Ha Ho. apply F10; [|done]. rewrite Hrs. unfold kept_ref in Ha. pose proof (vocc_nonneg a (amap A)). lia.
    + intros j _. by rewrite F1.
Qed.

(** *** What every command finds *)

(** A string somebody other than this client's request holds. *)
Definition keeps s A a y : Prop := (exists o, objects s !! a = Some o /\ str_obj o y) /\ 0 < slack s A a.

Record std s A : Prop := Std {
  sd_shared : shared_by C (keeps s A);
  sd_del : exists y, keeps s A (del (shared C)) y;
  sd_ints_length : length (integers (senv C)) = Z.to_nat OBJ_SHARED_INTEGERS;
  sd_ints : forall i a, integers (senv C) !! i = Some a ->
    exists o, objects s !! a = Some o /\ otype o = OBJ_STRING /\ encoding o = OBJ_ENCODING_INT /\
              ptr o = PLong (Z.of_nat i) /\ 0 < slack s A a
}.

(** The server between two steps of a command, with room for [k] more. *)
Record up s id A K z k : Prop := Up {
  up_serving : serving s id A K z;
  up_std : std s A;
  up_room : room s A k;
  up_id : is_llong (Z.of_nat id)
}.

(** A name: a string of bytes the client or somebody else holds. *)
Record named s A a b : Prop := Named {
  nm_key : key_is s a b;
  nm_ref : kept_ref s A a;
  nm_len : Z.of_nat (length b) < 2 ^ 31 - 200
}.

Lemma slack_kept s id A K z a : serving s id A K z -> 0 < slack s A a -> kept_ref s A a.
Proof. intros _ H. unfold kept_ref. pose proof (rocc_nonneg a (args_of s)). lia. Qed.

Section Unchanged.
Context s s' A A' (Hslack : forall a, slack s' A' a = slack s A a)
  (Hkept : kept (objects s) (objects s') (fun a => 0 < slack s A a)).

Lemma keeps_unchanged a y : keeps s A a y -> keeps s' A' a y.
Proof.
  intros [(o & Ho & Hy) Hp]. split; [|by rewrite Hslack]. destruct (Hkept a o Hp Ho) as (o' & Ho' & Hv).
  exists o'. split; [done|]. by eapply str_obj_same.
Qed.

Lemma std_unchanged : std s A -> std s' A'.
Proof.
  intros [H1 [y H2] H3 H4]. constructor; [| |done|].
  - eapply shared_by_mono; [|exact H1]. apply keeps_unchanged.
  - exists y. by apply keeps_unchanged.
  - intros i a Hi. destruct (H4 i a Hi) as (o & Ho & E1 & E2 & E3 & Hp).
    destruct (Hkept a o Hp Ho) as (o' & Ho' & (V1 & V2 & V3)). exists o'. rewrite Hslack. split; [done|]. by rewrite V1, V2, V3.
Qed.

End Unchanged.

Lemma trans_kept s s' id A A' : trans s s' id A A' -> kept (objects s) (objects s') (fun a => 0 < slack s A a).
Proof. intros T a o Ha. apply T. unfold kept_ref. pose proof (rocc_nonneg a (args_of s)). lia. Qed.

Lemma keeps_trans s s' id A A' a y : trans s s' id A A' -> keeps s A a y -> keeps s' A' a y.
Proof. intros T. by apply keeps_unchanged, (trans_kept _ _ _ _ _ T); apply T. Qed.

Lemma std_trans s s' id A A' : trans s s' id A A' -> std s A -> std s' A'.
Proof. intros T. by apply std_unchanged, (trans_kept _ _ _ _ _ T); apply T. Qed.

Lemma key_obj_same (o o' : robj P) b : same_value o o' -> key_obj o b -> key_obj o' b.
Proof.
  intros S (H1 & H2 & H3). split; [by eapply str_obj_same|]. split; [|done]. destruct S as (_ & E & _).
  unfold sdsEncodedObject in *. by rewrite E.
Qed.

Lemma named_trans s s' id A A' a b : trans s s' id A A' -> named s A a b -> named s' A' a b.
Proof.
  intros T [(o & Ho & Hk) Hr Hl]. constructor; [|by apply (kept_ref_trans _ _ _ _ _ _ T)|done].
  destruct (tr_kept _ _ _ _ _ T a o Hr Ho) as (o' & Ho' & Hv). exists o'. split; [done|]. by eapply key_obj_same.
Qed.

Lemma talks_more (c c' : client) : more_flags (flags c) (flags c') -> fd c' = fd c -> talks c' = talks c.
Proof. intros Hf Hfd. unfold talks, prepares. rewrite Hfd. by rewrite !(more_has _ _ _ Hf) by done. Qed.

Lemma talks_trans s s' id A A' : trans s s' id A A' -> talks (cl s') = talks (cl s).
Proof. intros T. apply talks_more; apply T. Qed.

Lemma said_trans s s' id A A' x : trans s s' id A A' -> said s' x = said s x.
Proof. intros T. unfold said. by rewrite (talks_trans _ _ _ _ _ T). Qed.

(** *** The rules *)

Lemma up_mono s id A K z k k' : up s id A K z k' -> (k <= k')%nat -> up s id A K z k.
Proof. intros [H1 H2 H3 H4] Hle. constructor; [done..| |done]. by eapply room_mono. Qed.

Lemma up_count s id A K z k a : up s id A K z k -> count (objects s) a < 2 ^ 31 - 8.
Proof.
  intros [[_ _ _ Hsl Har] _ [Hm Hl] _]. specialize (Hsl a). unfold slack, SLACK_LIMIT, DICT_LIMIT, LIST_LIMIT, ARGS_LIMIT in *.
  pose proof (vocc_le a (amap A)). pose proof (rocc_le a (replies s)). pose proof (rocc_le a (args_of s)). lia.
Qed.

Lemma up_ready s id A K z k key b : up s id A K z k -> named s A key b -> ready C s A id key b.
Proof.
  intros U [Hk Hr Hl]. pose proof U as [[_ _ _ Hsl _] [_ (y & _ & Hd) _ _] _ Hid].
  assert (forall a, kept_ref s A a -> 0 < spare s A a) as Hsp.
  { intros a Ha. unfold kept_ref, slack in Ha. unfold spare. pose proof (rocc_nonneg a (replies s)). lia. }
  constructor; [done|by apply Hsp|done|done| |intros a; by eapply up_count].
  apply Hsp. by eapply slack_kept; [apply U|].
Qed.

Lemma up_shared s id A K z k : up s id A K z k -> shared_replies C s.
Proof.
  intros [[_ _ _ Hsl _] Hstd _ _]. eapply shared_by_mono; [|apply Hstd]. intros a y [H1 H2]. split; [done|].
  unfold slack in H2. unfold rspare. pose proof (vocc_nonneg a (amap A)). pose proof (rocc_nonneg a (args_of s)). lia.
Qed.

Lemma up_roomy s id A K z k : up s id A K z k -> roomy s k.
Proof.
  intros [[_ _ _ Hsl Har] _ [Hm Hl] _]. constructor; [done|]. intros a. specialize (Hsl a).
  unfold slack, rspare, SLACK_LIMIT, DICT_LIMIT, LIST_LIMIT, ARGS_LIMIT in *.
  pose proof (vocc_le a (amap A)). pose proof (rocc_le a (args_of s)). lia.
Qed.

Lemma moved_up s s' id A A' K K' z k k' :
  up s id A K z k -> moved C s s' id A A' -> sim (objects s) A' K' ->
  (base.size (amap A') + k' <= base.size (amap A) + k)%nat -> (k' <= k)%nat ->
  up s' id A' K' z k' /\ trans s s' id A A'.
Proof.
  intros [Hs Hd [Rm Rl] Hid] Hm Hk Hsz Hle. destruct (moved_ran _ _ _ _ _ _ _ _ Hs Hm Hk) as [S T L].
  split; [|done]. constructor; [done|by eapply std_trans| |done]. constructor; lia.
Qed.

(** A reply is sent. *)
Lemma says_up k1 k s id A K z x (m : M state unit) (Q : unit -> state -> Prop) :
  up s id A K z (k1 + k) -> says C k1 s m x ->
  (forall s', up s' id A K (z ++ said s x) k -> trans s s' id A A -> Q tt s') -> wp m Q s.
Proof.
  intros U Hm HQ. pose proof U as [Hs Hd [Rm Rl] Hid].
  eapply wp_mono; [apply (Hm z (sv_out _ _ _ _ _ Hs)), (up_roomy _ _ _ _ _ _ (up_mono _ _ _ _ _ k1 _ U ltac:(lia)))|].
  intros [] s' He. destruct (emitted_ran _ _ _ _ _ _ _ _ Hs He) as [S T L].
  apply HQ; [|done]. constructor; [done|by eapply std_trans| |done]. constructor; lia.
Qed.

(** A step of the key space that adds no name. *)
Lemma step_up s s' id A A' K K' z k :
  up s id A K z k -> step C s s' id A A' -> sim (objects s) A' K' ->
  (forall c w, amap A' !! c = Some w -> amap A !! c = Some w) ->
  up s' id A' K' z k /\ trans s s' id A A'.
Proof.
  intros U Hst Hk Hsub. eapply moved_up; [exact U|by apply step_moved|done| |done].
  pose proof (map_size_sub _ _ Hsub). lia.
Qed.

Lemma view_up s id A K z k b a : up s id A K z k -> amap A !! b = Some a ->
  exists v, amap K !! b = Some v /\ view (objects s) a v.
Proof. intros U. apply sim_some, U. Qed.

Lemma expireIfNeeded_up s id A K z k key b (Q : bool -> state -> Prop) :
  up s id A K z k -> named s A key b ->
  (forall s' A', up s' id A' (ref_expire C id b K).1 z k -> trans s s' id A A' -> Q (ref_expire C id b K).2 s') ->
  wp (expireIfNeeded C id key) Q s.
Proof.
  intros U N HQ. pose proof (up_serving _ _ _ _ _ _ U) as Hs. eapply (expireIfNeeded_wp C s id A); [apply Hs|by eapply up_ready|].
  intros s' Hst. destruct (sim_expire C _ _ _ id b (sv_sim _ _ _ _ _ Hs)) as [Hk ->].
  destruct (step_up _ _ _ _ _ _ _ _ _ U Hst Hk (ref_expire_map C id b A)) as [U' T]. by eapply HQ.
Qed.

Lemma lookupKeyWrite_up s id A K z k key b (Q : option addr -> state -> Prop) :
  up s id A K z k -> named s A key b ->
  (forall s' A', up s' id A' (ref_lookup_write C id b K).1 z k -> trans s s' id A A' ->
     forall r, option_Forall2 (view (objects s')) r (ref_lookup_write C id b K).2 ->
       (forall a, r = Some a -> kept_ref s A a \/ amap A' !! b = Some a) -> Q r s') ->
  wp (lookupKeyWrite C id key) Q s.
Proof.
  intros U N HQ. pose proof (up_serving _ _ _ _ _ _ U) as Hs. eapply (lookupKeyWrite_wp C s id A); [apply Hs|by eapply up_ready|].
  intros s' Hst. destruct (sim_lookup_write C _ _ _ id b (sv_sim _ _ _ _ _ Hs)) as [Hk Hv].
  destruct (step_up _ _ _ _ _ _ _ _ _ U Hst Hk (ref_write_map C id b A)) as [U' T]. eapply HQ; [exact U'|exact T| |].
  - pose proof (sim_map _ _ _ (sv_sim _ _ _ _ _ (up_serving _ _ _ _ _ _ U')) b) as Hm.
    clear - Hm. unfold ref_lookup_write in *. by destruct (ref_expire C id b A), (ref_expire C id b K).
  - intros a Ha. right. unfold ref_lookup_write in *. by destruct (ref_expire C id b A).
Qed.

Lemma lookupKeyRead_up s id A K z k key b (Q : option addr -> state -> Prop) :
  up s id A K z k -> named s A key b ->
  (forall s' A', up s' id A' (ref_lookup_read C (reading_command (cl s)) id b K).1 z k -> trans s s' id A A' ->
     forall r, option_Forall2 (view (objects s')) r (ref_lookup_read C (reading_command (cl s)) id b K).2 ->
       (forall a, r = Some a -> amap A' !! b = Some a) -> Q r s') ->
  wp (lookupKeyRead C id key) Q s.
Proof.
  intros U N HQ. pose proof (up_serving _ _ _ _ _ _ U) as Hs. eapply (lookupKeyReadWithFlags_wp C s id A); [apply Hs|by eapply up_ready|].
  intros s' Hst. destruct (sim_lookup_read C _ _ _ (reading_command (cl s)) id b (sv_sim _ _ _ _ _ Hs)) as [Hk Hv].
  destruct (step_up _ _ _ _ _ _ _ _ _ U Hst Hk (ref_read_map C _ id b A)) as [U' T]. eapply HQ; [exact U'|exact T| |].
  - pose proof (sim_map _ _ _ (sv_sim _ _ _ _ _ (up_serving _ _ _ _ _ _ U')) b) as Hm.
    destruct (sim_expire C _ _ _ id b (sv_sim _ _ _ _ _ Hs)) as [_ He]. revert Hm. unfold ref_lookup_read in *.
    destruct (ref_expire C id b A) as [A1 e1], (ref_expire C id b K) as [K1 e2]. cbn [snd] in He. subst e2.
    destruct (e1 && _); [intros _; constructor|done].
  - intros a. unfold ref_lookup_read. destruct (ref_expire C id b A) as [A1 e]. by destruct (e && _).
Qed.

Lemma dbDelete_up s id A K z k key b (Q : bool -> state -> Prop) :
  up s id A K z k -> named s A key b ->
  (forall s' A', up s' id A' (adb_delete b K) z k -> trans s s' id A A' -> Q (bool_decide (is_Some (amap K !! b))) s') ->
  wp (dbDelete C id key) Q s.
Proof.
  intros U N HQ. pose proof (up_serving _ _ _ _ _ _ U) as Hs. eapply (dbDelete_wp C s id A); [apply Hs|apply N|].
  intros s' Hst. destruct (step_up _ _ _ _ _ _ _ _ _ U Hst (sim_delete _ _ _ b (sv_sim _ _ _ _ _ Hs))) as [U' T].
  { intros c w Hc. cbn in Hc. by apply lookup_delete_Some in Hc as [_ Hc]. }
  erewrite bool_decide_ext; [by eapply HQ|]. rewrite <- !not_eq_None_Some. by rewrite (sim_none _ _ _ b (sv_sim _ _ _ _ _ Hs)).
Qed.

Lemma setKey_up s id A K z k key b val v (Q : unit -> state -> Prop) :
  up s id A K z (S k) -> named s A key b -> view (objects s) val v ->
  (exists o, objects s !! val = Some o /\ freeable o = true /\ otype o <> OBJ_LIST) -> kept_ref s A val ->
  (forall s' A', up s' id A' (ref_set_key C id b v K) z k -> trans s s' id A A' -> Q tt s') ->
  wp (setKey C id key val) Q s.
Proof.
  intros U N Hv Ho Hr HQ. pose proof (up_serving _ _ _ _ _ _ U) as Hs. pose proof (up_room _ _ _ _ _ _ U) as [Rm Rl].
  assert (storable s A val) as Hst.
  { constructor; [done|]. unfold kept_ref, slack in Hr. unfold spare. pose proof (rocc_nonneg val (replies s)). lia. }
  eapply (setKey_wp C s id A); [apply Hs|by eapply up_ready|done|lia|]. intros s' Hs'.
  pose proof (ref_set_key_size C id b val A) as Hsz.
  destruct (moved_up _ _ _ _ _ _ _ _ _ k U (stored_moved _ _ _ _ _ _ _ Hs') (sim_set_key C _ _ _ id b val v (sv_sim _ _ _ _ _ Hs) Hv)) as [U' T]; [lia..|].
  by eapply HQ.
Qed.

Lemma setExpire_up s id A K z k key b w (Q : unit -> state -> Prop) :
  up s id A K z (S k) -> named s A key b -> is_Some (amap K !! b) ->
  (forall s' A', up s' id A' (ADb (amap K) (<[b := w]> (aexp K)) (actr K)) z (S k) -> trans s s' id A A' -> Q tt s') ->
  wp (setExpire C id key w) Q s.
Proof.
  intros U N Hin HQ. pose proof (up_serving _ _ _ _ _ _ U) as Hs. pose proof (up_room _ _ _ _ _ _ U) as [Rm Rl].
  eapply (setExpire_wp C s id A); [apply Hs|apply N| | |].
  - apply not_eq_None_Some. rewrite (sim_none _ _ _ b (sv_sim _ _ _ _ _ Hs)). by apply not_eq_None_Some.
  - pose proof (expires_le C _ _ _ (sv_db _ _ _ _ _ Hs)). lia.
  - intros s' Hst. destruct (step_up _ _ _ _ _ _ _ _ _ U Hst (sim_set_expire _ _ _ b w (sv_sim _ _ _ _ _ Hs))) as [U' T]; [done|]. by eapply HQ.
Qed.

(** Counters. *)
Lemma ctr_up s id A K z k f :
  (forall c, dbs (f c) = dbs c) -> (forall c, ctr (f c) = f (ctr c)) -> up s id A K z k ->
  up (set_ks f s) id (adb_ctr f A) (adb_ctr f K) z k /\ trans s (set_ks f s) id A (adb_ctr f A).
Proof.
  intros Hf1 Hf2 U. pose proof (up_serving _ _ _ _ _ _ U) as Hs.
  eapply step_up; [exact U|apply (ctr_step C s id A f Hf1 Hf2), Hs|by apply sim_ctrs, Hs|done].
Qed.

Lemma notify_up s id A K z k type (event : bytes) key b (Q : unit -> state -> Prop) :
  up s id A K z k -> named s A key b -> (length event <= 100)%nat ->
  (forall s' A', up s' id A' (adb_ctr (add_published (notes C type event b id)) K) z k -> trans s s' id A A' -> Q tt s') ->
  wp (notifyKeyspaceEvent C type event key id) Q s.
Proof.
  intros U [Hk Hr Hl] He HQ. eapply (notify_wp C s id type event key b); [done|apply U|done|done|].
  destruct (ctr_up s id A K z k (add_published (notes C type event b id))) as [U' T]; [done..|]. by eapply HQ.
Qed.

Lemma mstime_up s id A K z k (Q : Z -> state -> Prop) :
  up s id A K z k ->
  (forall s' A', up s' id A' (adb_ctr tick K) z k -> trans s s' id A A' -> Q (clock C (ticks (actr K))) s') -> wp (mstime C) Q s.
Proof.
  intros U HQ. unfold mstime. wp_step. wp_step. wp_step.
  destruct (ctr_up s id A K z k tick) as [U' T]; [done..|].
  assert (ticks (ks s) = ticks (actr K)) as ->.
  { rewrite (sim_ctr _ _ _ (sv_sim _ _ _ _ _ (up_serving _ _ _ _ _ _ U))), <- (dr_ctr _ _ _ _ (sv_db _ _ _ _ _ (up_serving _ _ _ _ _ _ U))). done. }
  by eapply HQ.
Qed.

(** *** Arguments *)

(** An object the store has can be sent. *)
Lemma up_avail s id A K z k b a x : up s id A K z k -> amap A !! b = Some a -> view (objects s) a (VStr x) -> avail s a x.
Proof.
  intros [[_ _ _ Hsl _] _ _ _] Ha [(o & Ho & Hx) _]. split; [by exists o|]. specialize (Hsl a). unfold slack in Hsl. unfold rspare.
  pose proof (vocc_pos a b _ Ha). pose proof (rocc_nonneg a (args_of s)). lia.
Qed.

Lemma keeps_avail s id A K z k a x : up s id A K z k -> keeps s A a x -> avail s a x.
Proof.
  intros [[_ _ _ Hsl _] _ _ _] [Ho Hp]. split; [done|]. unfold slack in Hp. unfold rspare.
  pose proof (vocc_nonneg a (amap A)). pose proof (rocc_nonneg a (args_of s)). lia.
Qed.

(** The arguments are strings. *)
Definition arguments s A (xs : list bytes) : Prop := Forall2 (named s A) (args_of s) xs.

Lemma arguments_trans s s' id A A' xs : trans s s' id A A' -> arguments s A xs -> arguments s' A' xs.
Proof.
  intros T H. unfold arguments, args_of. rewrite (tr_cin _ _ _ _ _ T). eapply Forall2_impl; [exact H|]. intros a x. by eapply named_trans.
Qed.

Lemma get_arg_wp s j a (Q : addr -> state -> Prop) : args_of s !! j = Some a -> Q a s -> wp (get_arg j) Q s.
Proof. intros Ha HQ. unfold get_arg. wp_step. by eapply wp_lift. Qed.

Lemma named_sds s A a b : named s A a b -> exists o sd, objects s !! a = Some o /\ ptr o = PSds sd /\ sds_rep sd b.
Proof. intros [(o & Ho & Hk & He & _) _ _]. destruct (encoded_string o b Hk He) as (sd & Hp & Hs). by exists o, sd. Qed.

(** A word of the options. *)
Definition word (x : bytes) (c0 C0 c1 C1 : Z) : bool :=
  match x with
  | a0 :: a1 :: l => ((a0 =? c0) || (a0 =? C0)) && ((a1 =? c1) || (a1 =? C1)) && match l with [] => true | a2 :: _ => a2 =? 0 end
  | _ => false
  end.

Lemma is_word_spec sd x c0 C0 c1 C1 : sds_rep sd x -> c0 <> 0 -> C0 <> 0 -> c1 <> 0 -> C1 <> 0 ->
  is_word (Sds.buf sd) c0 C0 c1 C1 = Some (word x c0 C0 c1 C1).
Proof.
  intros (_ & tl & -> & _) H1 H2 H3 H4.
  assert (forall p q, p <> 0 -> q <> 0 -> (0 =? p) || (0 =? q) = false) as Hz by lia.
  unfold is_word, word. destruct x as [|a0 [|a1 l]]; cbn [app lookup list_lookup mbind option_bind].
  - by rewrite Hz.
  - destruct (_ || _); cbn [negb]; [|done]. by rewrite Hz.
  - destruct ((a0 =? c0) || (a0 =? C0)); cbn [negb andb]; [|done].
    destruct ((a1 =? c1) || (a1 =? C1)); cbn [negb andb]; [|done]. by destruct l as [|a2 l].
Qed.

Lemma arg_chars_wp s A a b (Q : bytes -> state -> Prop) :
  named s A a b -> (forall sd, sds_rep sd b -> Q (Sds.buf sd) s) -> wp (arg_chars a) Q s.
Proof.
  intros N HQ. destruct (named_sds _ _ _ _ N) as (o & sd & Ho & Hp & Hs). unfold arg_chars.
  apply wp_bind. eapply get_object_wp; [done|]. apply wp_bind. eapply wp_lift; [by rewrite Hp|]. wp_step. by apply HQ.
Qed.

End Serving.
End Serving.
