(* ===== verification/CommandSpec.v ===== *)
(** * Commands act on a store of strings (src/t_string.c, src/db.c)

    SET with its options, GET and DEL as functions on a store of strings, the
    reply being the bytes they return, and the proof that the commands do
    this whatever the encodings of their arguments. *)

From S2P Require Import Prelude Monad Util Sds SdsText Dict DictTypes DictSpec DictMap Object ObjectSpec State Db HeapSpec DbSpec DbRun Reply ReplySpec Commands Serving.
Import Monad Util Sds SdsText Dict DictTypes DictSpec DictMap Object ObjectSpec State Db HeapSpec DbSpec DbRun Reply ReplySpec Commands Serving.

Module CommandSpec.

Section Serving.
Context {P : Type} {C : config}.
Context {HC : sound_config C}.
Abbreviation state := (state P).
Abbreviation heap := (gmap addr (robj P)).
Implicit Types (s : state) (a key : addr) (A : adb) (K : kv) (b x y z : bytes) (id k : nat).

(** ** The options of SET *)

(** The same options with the strings they give. *)
Record ref_options := RefOptions { oo_flags : Z; oo_unit : Z; oo_expire : option bytes }.

Fixpoint ref_set_loop (xs : list bytes) (o : ref_options) : option ref_options :=
  match xs with
  | [] => Some o
  | x :: rest =>
    if word x 110 78 120 88 && negb (has (oo_flags o) OBJ_SET_XX) then
      ref_set_loop rest (RefOptions (Z.lor (oo_flags o) OBJ_SET_NX) (oo_unit o) (oo_expire o))
    else if word x 120 88 120 88 && negb (has (oo_flags o) OBJ_SET_NX) then
      ref_set_loop rest (RefOptions (Z.lor (oo_flags o) OBJ_SET_XX) (oo_unit o) (oo_expire o))
    else
      match rest with
      | [] => None
      | next :: rest =>
        if word x 101 69 120 88 && negb (has (oo_flags o) OBJ_SET_PX) then
          ref_set_loop rest (RefOptions (Z.lor (oo_flags o) OBJ_SET_EX) UNIT_SECONDS (Some next))
        else if word x 112 80 120 88 && negb (has (oo_flags o) OBJ_SET_EX) then
          ref_set_loop rest (RefOptions (Z.lor (oo_flags o) OBJ_SET_PX) UNIT_MILLISECONDS (Some next))
        else None
      end
  end.

(** The time given is that of an argument of the list. *)
Definition same_options (l : list addr) (named_by : addr -> bytes -> Prop) (o : set_options) (r : ref_options) : Prop :=
  oflags o = oo_flags r /\ sunit o = oo_unit r /\
  option_Forall2 (fun a x => a ∈ l /\ named_by a x) (sexpire o) (oo_expire r).

Lemma set_loop_wp s A l (Q : option set_options -> state -> Prop) : forall n args xs o r,
  (length args <= n)%nat -> Forall2 (named s A) args xs -> args ⊆ l -> same_options l (named s A) o r ->
  (forall q, option_Forall2 (same_options l (named s A)) q (ref_set_loop xs r) -> Q q s) -> wp (set_loop args o) Q s.
Proof.
  induction n as [|n IH]; intros args xs o r Hn Ha Hl Ho HQ;
    (destruct Ha as [|a x args xs Hax Hargs]; cbn [set_loop ref_set_loop] in *; [wp_step; apply HQ; by constructor|]); cbn [length] in Hn; [lia|].
  pose proof Ho as (Ef & Eu & Ee). assert (args ⊆ l) as Hl' by set_solver.
  apply wp_bind. eapply arg_chars_wp; [exact Hax|]. intros sd Hsd.
  apply wp_bind. eapply wp_lift; [by eapply is_word_spec|]. cbn beta. rewrite Ef.
  destruct (word x 110 78 120 88 && _).
  { eapply (IH _ xs); [lia|done|done| |exact HQ]. split; [done|by split]. }
  apply wp_bind. eapply wp_lift; [by eapply is_word_spec|]. cbn beta.
  destruct (word x 120 88 120 88 && _).
  { eapply (IH _ xs); [lia|done|done| |exact HQ]. split; [done|by split]. }
  apply wp_bind. eapply wp_lift; [by eapply is_word_spec|]. cbn beta.
  apply wp_bind. eapply wp_lift; [by eapply is_word_spec|]. cbn beta.
  destruct Hargs as [|next y args ys Hny Hargs]; cbn [ref_set_loop] in *; [wp_step; apply HQ; constructor|].
  assert (next ∈ l) as Hin by set_solver. assert (args ⊆ l) as Hl'' by set_solver. cbn [length] in Hn.
  destruct (word x 101 69 120 88 && _).
  { eapply (IH _ ys); [lia|done|done| |exact HQ]. split; [done|]. split; [done|by constructor]. }
  destruct (word x 112 80 120 88 && _).
  { eapply (IH _ ys); [lia|done|done| |exact HQ]. split; [done|]. split; [done|by constructor]. }
  wp_step. apply HQ. constructor.
Qed.

(** ** SET *)

Definition one_line (x : bytes) : bytes := (fun c => if (c =? 13) || (c =? 10) then 32 else c) <$> x.

(** The time in milliseconds, or the error. *)
Definition ref_set_time (expire : option bytes) (u : Z) (cname : bytes) : bytes + Z :=
  match expire with
  | None => inr 0
  | Some x =>
    match string2ll x with
    | None => inl (error_line (str "value is not an integer or out of range"))
    | Some ms =>
      if ms <=? 0 then inl (error_line (one_line (str "invalid expire time in " ++ cname)))
      else inr (if u =? UNIT_SECONDS then s64 (ms * 1000) else ms)
    end
  end.

Definition ref_set_forbidden id flags b K : kv * bool :=
  let '(K, nx) := if has flags OBJ_SET_NX then let '(K, v) := ref_lookup_write C id b K in (K, bool_decide (is_Some v)) else (K, false) in
  if nx : bool then (K, true)
  else if has flags OBJ_SET_XX then let '(K, v) := ref_lookup_write C id b K in (K, bool_decide (v = None))
  else (K, false).

Definition kv_expire b w K : kv := ADb (amap K) (<[b := w]> (aexp K)) (actr K).
Definition kv_notify id type (event b : bytes) K : kv := adb_ctr (add_published (notes C type event b id)) K.

Definition ref_set id flags b x (expire : option bytes) (u : Z) (cname okx abx : bytes) K : kv * bytes :=
  match ref_set_time expire u cname with
  | inl e => (K, e)
  | inr ms =>
    let '(K, no) := ref_set_forbidden id flags b K in
    if no : bool then (K, abx)
    else
      let K := adb_ctr add_dirty (ref_set_key C id b (VStr x) K) in
      let K := match expire with
        | Some _ => let now := clock C (ticks (actr K)) in kv_expire b (s64 (now + ms)) (adb_ctr tick K)
        | None => K
        end in
      let K := kv_notify id NOTIFY_STRING (str "set") b K in
      let K := match expire with Some _ => kv_notify id NOTIFY_GENERIC (str "expire") b K | None => K end in
      (K, okx)
  end.

Lemma addReplyErrorFormat_says s x : Z.of_nat (length x) < SDS_LIMIT -> says C 3 s (addReplyErrorFormat C x) (error_line (one_line x)).
Proof. intros Hx. apply (addReplyError_says C). unfold one_line. by rewrite length_fmap. Qed.

Lemma longLongOrReply_up s id A K z k a x (Q : option Z -> state -> Prop) :
  up s id A K z (3 + k) -> named s A a x ->
  (forall v, string2ll x = Some v -> Q (Some v) s) ->
  (string2ll x = None -> forall s', up s' id A K (z ++ said s (error_line (str "value is not an integer or out of range"))) k ->
     trans s s' id A A -> Q None s') ->
  wp (longLongOrReply C a None) Q s.
Proof.
  intros U N H1 H2. destruct N as [(o & Ho & (Hx & He & _)) _ _]. destruct (encoded_string o x Hx He) as (sd & Hp & Hs).
  unfold longLongOrReply. wp_step. apply wp_bind. eapply wp_lift.
  { unfold getLongLongFromObjectOrReply, getLongLongFromObject. rewrite Ho. cbn [mbind option_bind].
    rewrite (proj2 (Z.eqb_eq _ _) (proj1 Hx)), He, Hp. cbn [negb as_sds mbind option_bind]. rewrite (sds_rep_read sd x Hs). cbn [mbind option_bind]. reflexivity. }
  destruct (string2ll x) as [v|] eqn:Hv.
  - wp_step. by apply H1.
  - apply wp_bind. eapply (says_up 3 k); [exact U|by apply (addReplyError_says C); vm_compute|]. intros s' U' T. wp_step. by apply H2.
Qed.

Lemma set_expire_time_up s id A K z k expire xe u cm (Q : option Z -> state -> Prop) :
  up s id A K z (3 + k) -> option_Forall2 (named s A) expire xe -> cmd (cl s) = Some cm -> Z.of_nat (length (name cm)) < 2 ^ 31 ->
  match ref_set_time xe u (name cm) with
  | inr ms => Q (Some ms) s
  | inl e => forall s', up s' id A K (z ++ said s e) k -> trans s s' id A A -> Q None s'
  end -> wp (set_expire_time C expire u) Q s.
Proof.
  intros U Hn Hc Hlen HQ. unfold set_expire_time, ref_set_time in *. destruct Hn as [a x N|]; [|by wp_step].
  apply wp_bind. eapply (longLongOrReply_up s id A K z k); [done|exact N| |].
  - intros v Hv. rewrite Hv in HQ. destruct (v <=? 0).
    + wp_step. apply wp_bind. eapply wp_lift; [exact Hc|]. apply wp_bind. eapply (says_up 3 k); [exact U| |].
      { apply addReplyErrorFormat_says. rewrite length_app. unfold SDS_LIMIT. cbn [str String.list_ascii_of_string fmap list_fmap length]. lia. }
      intros s' U' T. wp_step. by apply HQ.
    + by wp_step.
  - intros Hv s' U' T. rewrite Hv in HQ. wp_step. by apply HQ.
Qed.

Lemma set_forbidden_up s id A K z k flags key b (Q : bool -> state -> Prop) :
  up s id A K z k -> named s A key b ->
  (forall s' A', up s' id A' (ref_set_forbidden id flags b K).1 z k -> trans s s' id A A' -> Q (ref_set_forbidden id flags b K).2 s') ->
  wp (set_forbidden C id flags key) Q s.
Proof.
  intros U N HQ. unfold set_forbidden, ref_set_forbidden in *.
  assert (forall s1 A1 K1, up s1 id A1 K1 z k -> trans s s1 id A A1 ->
    (forall s' A', up s' id A' (if has flags OBJ_SET_XX then let '(K, v) := ref_lookup_write C id b K1 in (K, bool_decide (v = None)) else (K1, false)).1 z k ->
       trans s s' id A A' -> Q (if has flags OBJ_SET_XX then let '(K, v) := ref_lookup_write C id b K1 in (K, bool_decide (v = None)) else (K1, false)).2 s') ->
    wp (if has flags OBJ_SET_XX then v ← lookupKeyWrite C id key; mret (bool_decide (v = None)) else mret false) Q s1) as Hxx.
  { intros s1 A1 K1 U1 T1 HQ1. destruct (has flags OBJ_SET_XX).
    - apply wp_bind. eapply lookupKeyWrite_up; [exact U1|by eapply named_trans|]. intros s2 A2 U2 T2 r Hr _. wp_step.
      destruct (ref_lookup_write C id b K1) as [K2 v]. cbn [fst snd] in *. erewrite bool_decide_ext; [eapply HQ1; [exact U2|by eapply trans_trans]|].
      by destruct Hr.
    - wp_step. by eapply HQ1. }
  destruct (has flags OBJ_SET_NX).
  - apply wp_bind. apply wp_bind. eapply lookupKeyWrite_up; [exact U|done|]. intros s1 A1 U1 T1 r Hr _. wp_step.
    destruct (ref_lookup_write C id b K) as [K1 v]. cbn [fst snd] in *.
    assert (bool_decide (is_Some r) = bool_decide (is_Some v)) as -> by (apply bool_decide_ext; destruct Hr; split; (intros [? ?]; by eauto) || by intros []).
    destruct (bool_decide _); [wp_step; by eapply HQ|]. by eapply Hxx.
  - wp_step. eapply Hxx; [exact U|apply trans_refl|exact HQ].
Qed.

(** What follows the write: the counter, the time, the events and the reply. *)
Lemma set_rest_up s id A K z k key b expire ms okr okx (Q : unit -> state -> Prop) :
  up s id A K z (S k) -> named s A key b -> is_Some (amap K !! b) -> keeps s A okr okx -> Z.of_nat (length okx) < SDS_LIMIT ->
  (forall s' A',
     let K := adb_ctr add_dirty K in
     let K := match expire with
       | Some _ => let now := clock C (ticks (actr K)) in kv_expire b (s64 (now + ms)) (adb_ctr tick K)
       | None => K
       end in
     let K := kv_notify id NOTIFY_STRING (str "set") b K in
     let K := match expire with Some _ => kv_notify id NOTIFY_GENERIC (str "expire") b K | None => K end in
     up s' id A' K (z ++ said s okx) k -> trans s s' id A A' -> Q tt s') ->
  wp (_ ← modify (set_ks add_dirty);
      _ ← (match expire : option addr with
        | Some _ => now ← mstime C; setExpire C id key (s64 (now + ms))
        | None => skip
        end);
      _ ← notifyKeyspaceEvent C NOTIFY_STRING (str "set") key id;
      _ ← (match expire with
        | Some _ => notifyKeyspaceEvent C NOTIFY_GENERIC (str "expire") key id
        | None => skip
        end);
      addReply C okr) Q s.
Proof.
  intros U N Hin Hok Hokl HQ. cbv zeta in HQ.
  destruct (ctr_up s id A K z (S k) add_dirty) as [U1 T1]; [done..|]. wp_step. revert U1 T1.
  set (s1 := set_ks add_dirty s). set (A1 := adb_ctr add_dirty A). set (K1 := adb_ctr add_dirty K) in *. intros U1 T1.
  assert (is_Some (amap K1 !! b)) as Hin1 by done. clearbody s1 A1 K1.
  apply wp_bind. apply (wp_mono _ (fun _ s2 => exists A2,
    up s2 id A2 (match expire with Some _ => kv_expire b (s64 (clock C (ticks (actr K1)) + ms)) (adb_ctr tick K1) | None => K1 end) z (S k) /\
    trans s s2 id A A2)).
  { destruct expire as [e|]; [|apply wp_skip; by exists A1]. apply wp_bind. eapply mstime_up; [exact U1|]. intros s2 A2 U2 T2.
    eapply setExpire_up; [exact U2|by do 2 (eapply named_trans; [eassumption|])|done|]. intros s3 A3 U3 T3. exists A3.
    split; [exact U3|]. eapply trans_trans; [exact T1|]. by eapply trans_trans. }
  intros [] s2 (A2 & U2 & T2). set (K2 := match expire with Some _ => kv_expire _ _ _ | None => K1 end) in *. clearbody K2.
  apply wp_bind. eapply notify_up; [exact U2|by eapply named_trans|cbn; lia|]. intros s3 A3 U3 T3.
  pose proof (trans_trans _ _ _ _ _ _ _ T2 T3) as T03.
  apply wp_bind. apply (wp_mono _ (fun _ s4 => exists A4,
    up s4 id A4 (match expire with Some _ => kv_notify id NOTIFY_GENERIC (str "expire") b (kv_notify id NOTIFY_STRING (str "set") b K2)
      | None => kv_notify id NOTIFY_STRING (str "set") b K2 end) z (S k) /\ trans s s4 id A A4)).
  { destruct expire as [e|]; [|apply wp_skip; by exists A3]. eapply notify_up; [exact U3|by eapply named_trans|cbn; lia|].
    intros s4 A4 U4 T4. exists A4. split; [exact U4|]. by eapply trans_trans. }
  intros [] s4 (A4 & U4 & T4). eapply (says_up 1 k); [exact U4| |].
  - apply (addReply_says C); [|exact Hokl]. eapply keeps_avail; [exact U4|]. by eapply keeps_trans.
  - intros s5 U5 T5. eapply HQ; [|by eapply trans_trans]. by rewrite (said_trans _ _ _ _ _ _ T4) in U5.
Qed.

Lemma setGenericCommand_up s id A K z k flags key b val x expire xe u cm okr okx abr abx (Q : unit -> state -> Prop) :
  up s id A K z (3 + k) -> cdb (cl s) = id -> named s A key b -> view (objects s) val (VStr x) -> kept_ref s A val ->
  option_Forall2 (named s A) expire xe -> cmd (cl s) = Some cm -> Z.of_nat (length (name cm)) < 2 ^ 31 ->
  keeps s A (default (ok (shared C)) okr) okx -> Z.of_nat (length okx) < SDS_LIMIT ->
  keeps s A (default (nullbulk (shared C)) abr) abx -> Z.of_nat (length abx) < SDS_LIMIT ->
  (forall s' A', up s' id A' (ref_set id flags b x xe u (name cm) okx abx K).1
       (z ++ said s (ref_set id flags b x xe u (name cm) okx abx K).2) k -> trans s s' id A A' -> Q tt s') ->
  wp (setGenericCommand C flags key val expire u okr abr) Q s.
Proof.
  intros U Hid N Hv Hr Hex Hcm Hlen Hok Hokl Hab Habl HQ. unfold setGenericCommand, ref_set in *. wp_step. rewrite Hid.
  apply wp_bind. eapply set_expire_time_up; [exact U|exact Hex|exact Hcm|exact Hlen|].
  destruct (ref_set_time xe u (name cm)) as [e|ms].
  { intros s1 U1 T1. wp_step. by eapply HQ. }
  apply wp_bind. eapply set_forbidden_up; [exact U|exact N|]. intros s1 A1 U1 T1.
  destruct (ref_set_forbidden id flags b K) as [K1 no]. cbn [fst snd] in *. destruct no.
  { eapply (says_up 1 (2 + k)); [exact U1| |].
    - apply (addReply_says C); [|exact Habl]. eapply keeps_avail; [exact U1|by eapply keeps_trans].
    - intros s2 U2 T2. rewrite (said_trans _ _ _ _ _ _ T1) in U2. eapply HQ; [eapply up_mono; [exact U2|lia]|by eapply trans_trans]. }
  destruct Hv as [(o & Ho & Hx) Hxl]. destruct (tr_kept _ _ _ _ _ T1 val o Hr Ho) as (o1 & Ho1 & Hsv).
  pose proof (str_obj_same _ _ _ Hsv Hx) as Hx1.
  apply wp_bind. eapply (setKey_up s1 id A1 K1 z (2 + k) key b val (VStr x)); [exact U1|by eapply named_trans| | | |].
  - split; [by exists o1|done].
  - exists o1. split; [done|]. unfold freeable. rewrite (proj1 Hx1). done.
  - by apply (kept_ref_trans _ _ _ _ _ _ T1).
  - intros s2 A2 U2 T2. pose proof (trans_trans _ _ _ _ _ _ _ T1 T2) as T02.
    eapply (set_rest_up s2 id A2 (ref_set_key C id b (VStr x) K1) z k key b expire ms); [eapply up_mono; [exact U2|lia]|by eapply named_trans| |by eapply keeps_trans|exact Hokl|].
    + unfold ref_set_key. cbn. rewrite lookup_insert_eq. by eexists.
    + cbv zeta. intros s3 A3 U3 T3. rewrite (said_trans _ _ _ _ _ _ T02) in U3. eapply HQ; [|by eapply trans_trans].
      destruct Hex; exact U3.
Qed.

(** ** Encoding an argument *)

Lemma rocc_insert a (l : list addr) j c v : l !! j = Some c ->
  rocc a (<[j := v]> l) = rocc a l + (if decide (a = v) then 1 else 0) - (if decide (a = c) then 1 else 0).
Proof.
  revert j. induction l as [|y l IH]; intros [|j] Hj; try done; cbn in Hj.
  - injection Hj as ->. change (<[0%nat := v]> (c :: l)) with (v :: l). rewrite !rocc_cons. lia.
  - change (<[S j := v]> (y :: l)) with (y :: <[j := v]> l). rewrite !rocc_cons, (IH _ Hj). lia.
Qed.

(** What a whole command leaves alone: it may have changed its arguments. *)
Record served s s' id A A' : Prop := Served {
  se_slack : forall a, slack s' A' a = slack s A a;
  se_kept : kept (objects s) (objects s') (fun a => 0 < slack s A a);
  se_dbs : forall j, j <> id -> dbs (ks s') !! j = dbs (ks s) !! j;
  se_flags : more_flags (flags (cl s)) (flags (cl s'));
  se_cid : cid (cl s') = cid (cl s);
  se_fd : fd (cl s') = fd (cl s);
  se_cdb : cdb (cl s') = cdb (cl s);
  se_cmd : cmd (cl s') = cmd (cl s);
  se_cin : with_argv [] (cin (cl s')) = with_argv [] (cin (cl s));
  se_args : length (args_of s') = length (args_of s);
  se_sent : sentlen (cout (cl s')) = sentlen (cout (cl s));
  se_srv : srv s' = srv s;
  se_ext : cext (cl s') = cext (cl s)
}.

Lemma trans_served s s' id A A' : trans s s' id A A' -> served s s' id A A'.
Proof.
  intros T. pose proof T as [T1 T2 T3 T4 T5 T6 T7 T8 T9 T10 T11 T12]. constructor; try done.
  - by eapply trans_kept.
  - by rewrite T9.
  - unfold args_of. by rewrite T9.
Qed.

Lemma served_trans s1 s2 s3 id A1 A2 A3 : served s1 s2 id A1 A2 -> served s2 s3 id A2 A3 -> served s1 s3 id A1 A3.
Proof.
  intros [T1 T2 T3 T4 T5 T6 T7 T8 T9 T10 T11 T12 T13] [R1 R2 R3 R4 R5 R6 R7 R8 R9 R10 R11 R12 R13]. constructor; try congruence.
  - eapply kept_all_trans; [exact T2|]. intros a o Ha. apply R2. by rewrite T1.
  - intros j Hj. by rewrite R3, T3.
  - by eapply more_trans.
Qed.

Lemma said_served s s' id A A' x : served s s' id A A' -> said s' x = said s x.
Proof. intros T. unfold said. by rewrite (talks_more (cl s) (cl s')) by apply T. Qed.

Lemma std_served s s' id A A' : served s s' id A A' -> std s A -> std s' A'.
Proof. intros T. by apply std_unchanged; apply T. Qed.

Lemma rocc_two a (l : list addr) i j : i <> j -> l !! i = Some a -> l !! j = Some a -> 1 < rocc a l.
Proof.
  revert i j. induction l as [|y l IH]; intros [|i] [|j] Hij Hi Hj; try done; cbn in Hi, Hj; rewrite rocc_cons.
  - injection Hi as ->. rewrite decide_True by done. pose proof (rocc_pos a l (list_elem_of_lookup_2 _ _ _ Hj)). lia.
  - injection Hj as ->. rewrite decide_True by done. pose proof (rocc_pos a l (list_elem_of_lookup_2 _ _ _ Hi)). lia.
  - assert (1 < rocc a l) by (apply (IH i j); [intros ->; done|done|done]). destruct (decide _); lia.
Qed.

(** The argument may become another object with the same string. *)
Lemma encode_arg_up s id A K z k j a x xs (Q : unit -> state -> Prop) :
  up s id A K z k -> arguments s A xs -> args_of s !! j = Some a -> xs !! j = Some x ->
  (forall s' v, up s' id A K z k -> served s s' id A A -> args_of s' = <[j := v]> (args_of s) -> view (objects s') v (VStr x) ->
     (forall i c y, i <> j -> args_of s !! i = Some c -> xs !! i = Some y -> named s' A c y) -> Q tt s') ->
  wp (encode_arg C j) Q s.
Proof.
  intros U Har Ha Hx HQ. pose proof U as [[Hdb Hsim Hout Hsl Hargs] Hstd Hroom Hid].
  pose proof (Forall2_lookup_lr _ _ _ _ _ _ Har Ha Hx) as [(o & Ho & (Hxo & He & _)) Hr Hxl].
  assert (0 < rocc a (args_of s)) as Hra by (apply rocc_pos, list_elem_of_lookup; eauto).
  assert (forall c, 0 <= vocc c (amap A) /\ 0 <= rocc c (replies s) /\ 0 <= rocc c (args_of s) /\
    count (objects s) c = slack s A c + vocc c (amap A) + rocc c (replies s) + rocc c (args_of s)) as Hcount.
  { intros c. pose proof (vocc_nonneg c (amap A)). pose proof (rocc_nonneg c (replies s)). pose proof (rocc_nonneg c (args_of s)). unfold slack. lia. }
  assert (shared_ok (senv C) (objects s)) as Hshared.
  { destruct Hstd as [_ _ I1 I2]. constructor; [done|]. intros i c Hi. destruct (I2 i c Hi) as (oi & Hoi & E1 & E2 & E3 & Hp).
    exists oi. repeat (split; [done|]). rewrite <- (count_Some _ _ _ Hoi). pose proof (up_count _ _ _ _ _ _ c U). specialize (Hcount c). lia. }
  assert (objects s !! alloc_object C (dom (objects s)) = None) as Hfresh by (apply not_elem_of_dom, alloc_object_fresh).
  destruct (tryObjectEncoding_spec (senv C) _ _ a o x Hshared Hfresh Ho Hxo) as (h' & v & Htry & Hv & Hm1 & _).
  { rewrite <- (count_Some _ _ _ Ho). specialize (Hcount a). specialize (Hsl a). lia. }
  { unfold SDS_LIMIT. lia. }
  pose proof (fun c oc => encoding_others (senv C) _ _ a h' v c oc Htry Hfresh) as Hoth.
  unfold encode_arg. apply wp_bind. eapply get_arg_wp; [exact Ha|]. wp_step. apply wp_bind. eapply wp_lift; [exact Htry|]. cbn beta iota.
  wp_step. wp_step. set (s' := set_cl _ _).
  assert (args_of s' = <[j := v]> (args_of s)) as Ea by done.
  assert (forall c, slack s' A c = slack s A c) as Hslack.
  { intros c. unfold slack. rewrite Ea, (rocc_insert c _ j a v Ha). change (replies s') with (replies s). change (objects s') with h'. rewrite Hm1. lia. }
  assert (forall c oc, objects s !! c = Some oc -> 0 < slack s A c + vocc c (amap A) + rocc c (replies s) \/ 1 < rocc c (args_of s) \/ c <> a ->
    exists o', h' !! c = Some o' /\ same_value oc o') as Hkeep.
  { intros c oc Hoc Hpos. apply (Hoth c oc Hoc). destruct (decide (c = a)) as [->|]; [right|by left]. specialize (Hcount a). specialize (Hsl a). destruct Hpos as [?|[?|?]]; [lia..|done]. }
  assert (forall b c oc, amap A !! b = Some c -> objects s !! c = Some oc -> exists o', h' !! c = Some o' /\ same_value oc o') as Hmap.
  { intros b c oc Hc Hoc. apply Hkeep; [done|]. left. pose proof (vocc_pos c b _ Hc). specialize (Hcount c). specialize (Hsl c). lia. }
  assert (served s s' id A A) as Hserved.
  { constructor; try done; [|apply more_refl|by rewrite Ea, length_insert]. intros c oc Hc Hoc. apply Hkeep; [done|]. left. specialize (Hcount c). lia. }
  apply (HQ s' v); [|done|done| |].
  - constructor; [|by eapply std_served|by destruct Hroom|done]. constructor; [| | |by intros c; rewrite Hslack|by rewrite Ea, length_insert].
    + destruct Hdb as [D1 D2 D3 D4 D5]. constructor; [done|done|done| |].
      * intros b c Hc. destruct (D4 b c Hc) as (oc & Hoc & Hf). destruct (Hmap b c oc Hc Hoc) as (o' & Ho' & Hs').
        exists o'. split; [done|]. by rewrite (freeable_same _ _ Hs').
      * intros c. specialize (Hslack c). specialize (Hsl c). unfold slack in Hslack at 1. unfold spare.
        pose proof (rocc_nonneg c (args_of s')). specialize (Hcount c). change (replies s') with (replies s) in *. lia.
    + by eapply sim_kept.
    + eapply pending_same; [apply (pending_heap C s z h' Hout)|done|done].
      * intros c oc Hc Hoc. apply Hkeep; [done|]. left. pose proof (rocc_pos c _ Hc). specialize (Hcount c). specialize (Hsl c). lia.
      * intros c. specialize (Hslack c). specialize (Hsl c). unfold slack in Hslack at 1. pose proof (rocc_nonneg c (args_of s')).
        specialize (Hcount c). change (replies s') with (replies s) in *. change (objects s') with h' in *. lia.
  - split; [exact Hv|unfold SDS_LIMIT; lia].
  - intros i c y Hij Hc Hy. pose proof (Forall2_lookup_lr _ _ _ _ _ _ Har Hc Hy) as [(oc & Hoc & Hk) Hrc Hl].
    assert (rocc c (args_of s') = rocc c (args_of s) + (if decide (c = v) then 1 else 0) - (if decide (c = a) then 1 else 0)) as Hrs by (rewrite Ea; by apply rocc_insert).
    assert (0 < rocc c (args_of s')) as Hpos by (apply rocc_pos, list_elem_of_lookup; exists i; by rewrite Ea, list_lookup_insert_ne).
    constructor; [|unfold kept_ref; rewrite Hslack; specialize (Hsl c); lia|done].
    destruct (Hkeep c oc Hoc) as (o' & Ho' & Hs').
    { destruct (decide (c = a)) as [->|]; [|by right; right]. right; left. by apply (rocc_two a _ i j). }
    exists o'. split; [done|]. by eapply key_obj_same.
Qed.

(** ** The commands *)

Definition strings s : Prop := Forall (fun a => exists x, holds (objects s) a x) (args_of s).

(** The command is done: the server is as the reference says. *)
Record answered s s' id A A' K' z' k : Prop := Answered {
  an_up : up s' id A' K' z' k;
  an_served : served s s' id A A';
  an_strings : strings s'
}.

Lemma arguments_strings s A xs : arguments s A xs -> strings s.
Proof.
  intros H. unfold strings, arguments in *. induction H as [|a x l xs [(o & Ho & Hk & _) _ _] _ IH]; constructor; [|done].
  exists x, o. by split.
Qed.

Lemma strings_trans s s' id A A' K z : serving s id A K z -> trans s s' id A A' -> strings s -> strings s'.
Proof.
  intros Hs T H. unfold strings in *. unfold args_of. rewrite (tr_cin _ _ _ _ _ T). apply Forall_forall. intros a Ha.
  rewrite Forall_forall in H. destruct (H a Ha) as (x & o & Ho & Hx). destruct (tr_kept _ _ _ _ _ T a o) as (o' & Ho' & Hv); [|done|].
  - unfold kept_ref. pose proof (rocc_pos a (args_of s) Ha). pose proof (sv_slack _ _ _ _ _ Hs a). lia.
  - exists x, o'. split; [done|]. by eapply str_obj_same.
Qed.

Definition ok_text : bytes := str "+OK" ++ CRLF.
Definition null_text : bytes := str "$-1" ++ CRLF.
Definition wrongtype_text : bytes := str "-WRONGTYPE Operation against a key holding the wrong kind of value" ++ CRLF.

Definition ref_set_command id (xs : list bytes) (cname : bytes) K : kv * bytes :=
  match ref_set_loop (drop 3 xs) (RefOptions OBJ_SET_NO_FLAGS UNIT_SECONDS None) with
  | None => (K, error_line (str "syntax error"))
  | Some o =>
    ref_set id (oo_flags o) (nth 1 xs []) (nth 2 xs []) (oo_expire o) (oo_unit o) cname ok_text null_text K
  end.

Lemma setCommand_up s id A K z k xs cm (Q : unit -> state -> Prop) :
  up s id A K z (3 + k) -> cdb (cl s) = id -> arguments s A xs -> (3 <= length xs)%nat ->
  cmd (cl s) = Some cm -> Z.of_nat (length (name cm)) < 2 ^ 31 ->
  (forall s' A', answered s s' id A A' (ref_set_command id xs (name cm) K).1
      (z ++ said s (ref_set_command id xs (name cm) K).2) k -> Q tt s') ->
  wp (setCommand C) Q s.
Proof.
  intros U Hid Har Hlen Hcm Hcl HQ. unfold setCommand, ref_set_command in *. wp_step.
  pose proof (Forall2_length _ _ _ Har) as Hl. change (args_of s) with (argv (cin (cl s))) in Hl.
  apply wp_bind. apply (set_loop_wp s A (drop 3 (args_of s)) _ (length (drop 3 (args_of s))) _ (drop 3 xs) _
    (RefOptions OBJ_SET_NO_FLAGS UNIT_SECONDS None)); [done|by apply Forall2_drop|done|by repeat split; constructor|].
  intros q Hq. destruct Hq as [o r (Ef & Eu & Ee)|].
  2:{ eapply (says_up 1 (2 + k)); [exact U|apply (addReply_says C)|].
      - eapply keeps_avail; [exact U|]. apply (sr_syntax C _ (sd_shared _ _ (up_std _ _ _ _ _ _ U))).
      - by vm_compute.
      - intros s' U' T. apply (HQ s' A). constructor; [eapply up_mono; [exact U'|lia]|by apply trans_served|].
        eapply strings_trans; [apply U|exact T|by eapply arguments_strings]. }
  destruct (args_of s) as [|a0 [|key [|val0 opts]]] eqn:Ea; [unfold args_of in Ea; rewrite Ea in Hl; cbn in Hl; lia..|].
  destruct xs as [|x0 [|b [|x xopts]]]; [cbn in Hlen; lia..|]. cbn [drop nth] in *.
  apply wp_bind. eapply (encode_arg_up s id A K z (3 + k) 2 val0 x); [exact U|exact Har|by rewrite Ea|done|].
  intros s1 v U1 Sv1 Ea1 Hv Hothers.
  assert (args_of s1 = a0 :: key :: v :: opts) as Ea1' by (by rewrite Ea1, Ea).
  apply wp_bind. eapply get_arg_wp; [by rewrite Ea1'|]. apply wp_bind. eapply get_arg_wp; [by rewrite Ea1'|]. cbn beta.
  assert (named s1 A key b) as N1 by (apply (Hothers 1%nat); [done|by rewrite Ea|done]).
  assert (kept_ref s1 A v) as Kv.
  { unfold kept_ref. rewrite Ea1'. pose proof (sv_slack _ _ _ _ _ (up_serving _ _ _ _ _ _ U1) v).
    assert (0 < rocc v (a0 :: key :: v :: opts)) by (apply rocc_pos; by right; right; left). lia. }
  eapply (setGenericCommand_up s1 id A K z k (oflags o) key b v x (sexpire o) (oo_expire r) (sunit o) cm None ok_text None null_text).
  - exact U1.
  - by rewrite (se_cdb _ _ _ _ _ Sv1).
  - exact N1.
  - exact Hv.
  - exact Kv.
  - destruct Ee as [e y [Hin N]|]; constructor. apply list_elem_of_lookup in Hin as [i Hi].
    assert (args_of s !! (3 + i)%nat = Some e) as Hi' by (by rewrite Ea).
    destruct (Forall2_lookup_l _ _ _ _ _ Har Hi') as (y' & Hy' & N').
    pose proof (Hothers (3 + i)%nat e y' ltac:(lia) Hi' Hy') as N1'.
    assert (y = y') as ->; [|exact N1']. destruct (named_sds _ _ _ _ N) as (o1 & sd1 & Ho1 & Hp1 & Hs1).
    destruct (named_sds _ _ _ _ N') as (o2 & sd2 & Ho2 & Hp2 & Hs2). pose proof (sds_rep_str _ _ Hs1). pose proof (sds_rep_str _ _ Hs2). congruence.
  - by rewrite (se_cmd _ _ _ _ _ Sv1).
  - exact Hcl.
  - apply (sr_ok C _ (sd_shared _ _ (up_std _ _ _ _ _ _ U1))).
  - by vm_compute.
  - apply (sr_null C _ (sd_shared _ _ (up_std _ _ _ _ _ _ U1))).
  - by vm_compute.
  - intros s2 A2 U2 T2. rewrite Ef, Eu in U2. apply (HQ s2 A2). constructor.
    + rewrite (said_served _ _ _ _ _ _ Sv1) in U2. exact U2.
    + eapply served_trans; [exact Sv1|by apply trans_served].
    + eapply strings_trans; [apply U1|exact T2|]. unfold strings. rewrite Ea1'. apply Forall_forall. intros c Hc.
      apply list_elem_of_lookup in Hc as [i Hi]. destruct (decide (i = 2%nat)) as [->|Hne].
      { cbn in Hi. injection Hi as <-. exists x. apply Hv. }
      assert (args_of s !! i = Some c) as Hi' by (rewrite Ea; by destruct i as [|[|[|i]]]).
      destruct (Forall2_lookup_l _ _ _ _ _ Har Hi') as (y & Hy & _). destruct (Hothers i c y Hne Hi' Hy) as [(oc & Hoc & Hk & _) _ _].
      exists y, oc. by split.
Qed.

Definition ref_get (reading : bool) id b K : kv * bytes :=
  let '(K, v) := ref_lookup_read C reading id b K in
  (K, match v with None => null_text | Some VOther => wrongtype_text | Some (VStr x) => bulk x end).

Lemma getGenericCommand_up s id A K z k xs b (Q : bool -> state -> Prop) :
  up s id A K z (3 + k) -> cdb (cl s) = id -> arguments s A xs -> xs !! 1%nat = Some b ->
  (forall r s' A', up s' id A' (ref_get (reading_command (cl s)) id b K).1
       (z ++ said s (ref_get (reading_command (cl s)) id b K).2) k -> trans s s' id A A' -> Q r s') ->
  wp (getGenericCommand C) Q s.
Proof.
  intros U Hid Har Hb HQ. unfold getGenericCommand, lookupKeyReadOrReply, ref_get in *. wp_step. rewrite Hid.
  destruct (Forall2_lookup_r _ _ _ _ _ Har Hb) as (key & Hkey & N). apply wp_bind. eapply get_arg_wp; [exact Hkey|].
  apply wp_bind. apply wp_bind. eapply lookupKeyRead_up; [exact U|exact N|]. intros s1 A1 U1 T1 r Hr Hin.
  destruct (ref_lookup_read C (reading_command (cl s)) id b K) as [K1 v]. cbn [fst snd] in *.
  pose proof (sd_shared _ _ (up_std _ _ _ _ _ _ U1)) as Hsh.
  destruct Hr as [a v Hv|]; apply wp_bind.
  - apply wp_skip. wp_step. specialize (Hin a eq_refl). pose proof Hv as Hview.
    assert (exists o, objects s1 !! a = Some o /\ (otype o =? OBJ_STRING) = match v with VStr _ => true | VOther => false end) as (o & Ho & Ht).
    { destruct v as [x|]; [destruct Hv as [(o & Ho & (Ht & _)) _]|destruct Hv as (o & Ho & Ht)]; exists o; (split; [done|]).
      - by rewrite Ht.
      - by apply Z.eqb_neq. }
    apply wp_bind. eapply get_object_wp; [exact Ho|]. rewrite Ht. destruct v as [x|]; cbn [negb]; apply wp_bind.
    + eapply (says_up 3 k); [exact U1| |].
      { apply (addReplyBulk_says C); [by eapply up_shared|by eapply up_avail|apply Hview]. }
      intros s2 U2 T2. wp_step. rewrite (said_trans _ _ _ _ _ _ T1) in U2. eapply HQ; [exact U2|by eapply trans_trans].
    + eapply (says_up 1 (2 + k)); [exact U1| |].
      { apply (addReply_says C); [eapply keeps_avail; [exact U1|apply (sr_wrongtype C _ Hsh)]|by vm_compute]. }
      intros s2 U2 T2. wp_step. rewrite (said_trans _ _ _ _ _ _ T1) in U2. eapply HQ; [eapply up_mono; [exact U2|lia]|by eapply trans_trans].
  - eapply (says_up 1 (2 + k)); [exact U1| |].
    { apply (addReply_says C); [eapply keeps_avail; [exact U1|apply (sr_null C _ Hsh)]|by vm_compute]. }
    intros s2 U2 T2. wp_step. wp_step. rewrite (said_trans _ _ _ _ _ _ T1) in U2. eapply HQ; [eapply up_mono; [exact U2|lia]|by eapply trans_trans].
Qed.

(** Deleting: the store and how many of the names were there. *)
Fixpoint ref_del_loop id (bs : list bytes) (K : kv) (deleted : Z) : kv * Z :=
  match bs with
  | [] => (K, deleted)
  | b :: bs =>
    let K := (ref_expire C id b K).1 in
    if bool_decide (is_Some (amap K !! b)) then
      ref_del_loop id bs (adb_ctr add_dirty (kv_notify id NOTIFY_GENERIC (str "del") b (adb_delete b K))) (s32 (deleted + 1))
    else ref_del_loop id bs K deleted
  end.

Definition ref_del id (bs : list bytes) K : kv * bytes :=
  let '(K, n) := ref_del_loop id bs K 0 in (K, header 58 n).

(** A name that is not there has no time either. *)
Lemma delete_missing s id A K z k b : up s id A K z k -> amap K !! b = None -> adb_delete b K = K.
Proof.
  intros U Hb. unfold adb_delete. pose proof (up_serving _ _ _ _ _ _ U) as [Hdb Hsim _ _ _].
  rewrite delete_id by done. rewrite delete_id; [by destruct K|]. rewrite (sim_exp _ _ _ Hsim).
  destruct (aexp A !! b) as [w|] eqn:Hw; [|done]. apply (dr_sub _ _ _ _ Hdb) in Hw. apply (sim_none _ _ _ b Hsim) in Hb. by rewrite Hb in Hw; destruct Hw.
Qed.

Lemma del_loop_up z k id keys : forall bs s A K d (Q : Z -> state -> Prop),
  up s id A K z k -> Forall2 (named s A) keys bs ->
  (forall s' A', up s' id A' (ref_del_loop id bs K d).1 z k -> trans s s' id A A' -> Q (ref_del_loop id bs K d).2 s') ->
  wp (del_loop C id keys d) Q s.
Proof.
  induction keys as [|key keys IH]; intros bs s A K d Q U Hn HQ; inversion Hn as [|? b ? bs' N Hn' E1 E2]; subst; cbn [del_loop ref_del_loop] in *.
  { wp_step. by eapply HQ; [|apply trans_refl]. }
  apply wp_bind. eapply expireIfNeeded_up; [exact U|exact N|]. intros s1 A1 U1 T1. set (K1 := (ref_expire C id b K).1) in *. clearbody K1.
  apply wp_bind. eapply dbDelete_up; [exact U1|by eapply named_trans|]. intros s2 A2 U2 T2. pose proof (trans_trans _ _ _ _ _ _ _ T1 T2) as T02.
  assert (Forall2 (named s2 A2) keys bs') as Hn2 by (eapply Forall2_impl; [exact Hn'|]; intros a x; by eapply named_trans).
  destruct (bool_decide (is_Some (amap K1 !! b))) eqn:Hb.
  - apply wp_bind. eapply notify_up; [exact U2|by eapply named_trans|cbn; lia|]. intros s3 A3 U3 T3. wp_step.
    destruct (ctr_up s3 id A3 _ z k add_dirty ltac:(done) ltac:(done) U3) as [U4 T4].
    pose proof (trans_trans _ _ _ _ _ _ _ T3 T4) as T24. eapply IH; [exact U4| |].
    + eapply Forall2_impl; [exact Hn2|]. intros a x. by eapply named_trans.
    + intros s5 A5 U5 T5. eapply HQ; [exact U5|]. eapply trans_trans; [exact T02|]. by eapply trans_trans.
  - apply bool_decide_eq_false in Hb. rewrite <- eq_None_not_Some in Hb. rewrite (delete_missing s1 id A1 K1 z k b U1 Hb) in U2.
    eapply IH; [exact U2|exact Hn2|]. intros s5 A5 U5 T5. eapply HQ; [exact U5|]. by eapply trans_trans.
Qed.

Lemma ref_del_range id bs : forall K d, 0 <= d -> d + Z.of_nat (length bs) < 2 ^ 31 -> 0 <= (ref_del_loop id bs K d).2 < 2 ^ 31.
Proof.
  induction bs as [|b bs IH]; intros K d Hd Hl; cbn [ref_del_loop length snd] in *; [lia|].
  destruct (bool_decide _); apply IH; rewrite ?wraps_small by (done || unfold is_int; lia); lia.
Qed.

Lemma delCommand_up s id A K z k xs (Q : unit -> state -> Prop) :
  up s id A K z (3 + k) -> cdb (cl s) = id -> arguments s A xs ->
  (forall s' A', up s' id A' (ref_del id (drop 1 xs) K).1 (z ++ said s (ref_del id (drop 1 xs) K).2) k -> trans s s' id A A' -> Q tt s') ->
  wp (delCommand C) Q s.
Proof.
  intros U Hid Har HQ. unfold delCommand, ref_del in *. wp_step. rewrite Hid.
  apply wp_bind. eapply (del_loop_up z (3 + k) id _ (drop 1 xs)); [exact U|by apply Forall2_drop|]. intros s1 A1 U1 T1.
  pose proof (Forall2_length _ _ _ Har) as Hlen. pose proof (sv_args _ _ _ _ _ (up_serving _ _ _ _ _ _ U)) as Hargs.
  assert (0 <= (ref_del_loop id (drop 1 xs) K 0).2 < 2 ^ 31) as Hr.
  { apply ref_del_range; [done|]. rewrite length_drop. unfold ARGS_LIMIT in Hargs. lia. }
  destruct (ref_del_loop id (drop 1 xs) K 0) as [K1 n]. cbn [fst snd] in *.
  eapply (says_up 1 (2 + k)); [exact U1|apply (addReplyLongLong_says C); [by eapply up_shared|ints]|].
  intros s2 U2 T2. rewrite (said_trans _ _ _ _ _ _ T1) in U2. eapply HQ; [eapply up_mono; [exact U2|lia]|by eapply trans_trans].
Qed.

End Serving.
End CommandSpec.
