(* ===== verification/Multi.v ===== *)
(** * Transactions (src/multi.c)

    Commands queued by a client that is inside MULTI: each keeps a reference
    to its arguments.  The body of EXEC is commented out in the source. *)

From S2P Require Import Prelude Monad Object State Reply.
Import Monad Object State Reply.

Module Multi.

Definition CLIENT_MULTI : Z := 8.
Definition CLIENT_DIRTY_EXEC : Z := 4096.

Section Ops.
Context {P : Type} (C : config).

Abbreviation M := (M (state P)).

Definition set_mstate (f : list multiCmd -> list multiCmd) : M unit :=
  modify (set_cl (set_cext (fun x => CExtra (authenticated x) (lastcmd x) (f (mstate x)) (woff x) (reploff x) (querybuf_peak x)))).

Definition initClientMultiState : M unit := set_mstate (fun _ => []).

(** The array of commands is freed, and dangles until it is initialised. *)
Definition freeClientMultiState : M unit :=
  c ← gets cl;
  for_each (mstate (cext c)) (fun mc => for_each (mc_argv mc) (fun a => on_heap (fun h => decrRefCount h a))).

Definition queueMultiCommand : M unit :=
  c ← gets cl;
  _ ← for_each (argv (cin c)) (fun a => on_heap (fun h => incrRefCount h a));
  set_mstate (fun l => l ++ [MultiCmd (argv (cin c)) (cmd c)]).

(** EXEC will fail. *)
Definition flagTransaction : M unit :=
  c ← gets cl;
  if has (flags c) CLIENT_MULTI then add_flag CLIENT_DIRTY_EXEC else skip.

Definition multiCommand : M unit :=
  c ← gets cl;
  if has (flags c) CLIENT_MULTI then addReplyError C (str "MULTI calls can not be nested")
  else _ ← add_flag CLIENT_MULTI; addReply C (ok (shared C)).

(** Everything it would do is commented out. *)
Definition execCommand : M unit := skip.

End Ops.
End Multi.
