(* ===== verification/Server.v ===== *)
(** * Finding and running a command (src/server.c)

    The table of the commands, filled at the start, and what is done with a
    request whose arguments have been read: the command is looked up and, if
    nothing forbids it, called. *)

From S2P Require Import Prelude Monad Util Sds SdsText Dict DictTypes Object State Db Reply Commands Multi.
Import Monad Util Sds SdsText Dict DictTypes Object State Db Reply Commands Multi.

Module Server.

Definition CMD_WRITE : Z := 1.
Definition CMD_DENYOOM : Z := 4.
Definition CMD_ADMIN : Z := 16.
Definition CMD_PUBSUB : Z := 32.
Definition CMD_NOSCRIPT : Z := 64.
Definition CMD_RANDOM : Z := 128.
Definition CMD_SORT_FOR_SCRIPT : Z := 256.
Definition CMD_LOADING : Z := 512.
Definition CMD_STALE : Z := 1024.
Definition CMD_SKIP_MONITOR : Z := 2048.
Definition CMD_ASKING : Z := 4096.
Definition CMD_FAST : Z := 8192.

Definition CLIENT_FORCE_AOF : Z := 2 ^ 14.
Definition CLIENT_FORCE_REPL : Z := 2 ^ 15.
Definition CLIENT_PREVENT_AOF_PROP : Z := 2 ^ 19.
Definition CLIENT_PREVENT_REPL_PROP : Z := 2 ^ 20.
Definition CLIENT_PREVENT_PROP : Z := Z.lor CLIENT_PREVENT_AOF_PROP CLIENT_PREVENT_REPL_PROP.

Definition CMD_CALL_SLOWLOG : Z := 1.
Definition CMD_CALL_STATS : Z := 2.
Definition CMD_CALL_PROPAGATE_AOF : Z := 4.
Definition CMD_CALL_PROPAGATE_REPL : Z := 8.
Definition CMD_CALL_PROPAGATE : Z := Z.lor CMD_CALL_PROPAGATE_AOF CMD_CALL_PROPAGATE_REPL.
Definition CMD_CALL_FULL : Z := Z.lor (Z.lor CMD_CALL_SLOWLOG CMD_CALL_STATS) CMD_CALL_PROPAGATE.

Definition PROPAGATE_NONE : Z := 0.
Definition PROPAGATE_AOF : Z := 1.
Definition PROPAGATE_REPL : Z := 2.

(** ** The table *)

Definition redisCommandTable : list redisCommand :=
  [RedisCommand (str "get") PGet 2 (str "rF") 0 1 1 1;
   RedisCommand (str "set") PSet (-3) (str "wm") 0 1 1 1;
   RedisCommand (str "del") PDel (-2) (str "w") 0 1 (-1) 1].

(** The flag of a letter; [None] is the panic. *)
Definition command_flag (f : Z) : option Z :=
  if f =? 119 then Some CMD_WRITE
  else if f =? 114 then Some CMD_READONLY
  else if f =? 109 then Some CMD_DENYOOM
  else if f =? 97 then Some CMD_ADMIN
  else if f =? 112 then Some CMD_PUBSUB
  else if f =? 115 then Some CMD_NOSCRIPT
  else if f =? 82 then Some CMD_RANDOM
  else if f =? 83 then Some CMD_SORT_FOR_SCRIPT
  else if f =? 108 then Some CMD_LOADING
  else if f =? 116 then Some CMD_STALE
  else if f =? 77 then Some CMD_SKIP_MONITOR
  else if f =? 107 then Some CMD_ASKING
  else if f =? 70 then Some CMD_FAST
  else None.

Fixpoint command_flags (letters : bytes) (flags : Z) : option Z :=
  match letters with
  | [] => Some flags
  | f :: letters => b ← command_flag f; command_flags letters (Z.lor flags b)
  end.

Definition with_flags (cm : redisCommand) (f : Z) : redisCommand :=
  RedisCommand (name cm) (proc cm) (arity cm) (sflags cm) f (firstkey cm) (lastkey cm) (keystep cm).

(** A name, as a key of the table: a string without a null byte.  With one, the
    code hashes all of the name and compares only what is before the null byte,
    so that it may or may not find a command whose name that is, by the bucket
    it falls in; this is not a key of a map, and [lookupCommand] is not
    modelled for such names: it fails, and the theorems ask for [plain] names. *)
Definition mk_casekey (x : bytes) : option casekey :=
  match decide (Forall (fun c => c <> 0) x) with left H => Some (CaseKey x H) | right _ => None end.

Section Ops.
Context {P : Type} (C : config).

Abbreviation state := (state P).
Abbreviation M := (M state).

#[local] Instance names_type : dictType casekey redisCommand := commandTableDictType (seed C) redisCommand.

Definition set_commands (d o : dict casekey redisCommand) (v : servervars) : servervars :=
  ServerVars d o (stat_numcommands v) (stat_net_input_bytes v) (clients_paused v) (unblocked_clients v) (uticks v) (cmdstats v).

(** One entry of the table, in both dictionaries. *)
Definition populate_one (cm : redisCommand) : M unit :=
  f ← lift (command_flags (sflags cm) (cflags cm));
  let cm := with_flags cm f in
  key ← lift (mk_casekey (name cm));
  v ← gets srv;
  '(d, r1) ← lift (dictAdd cm (dict_can_resize C) (alloc_entry C (eaddr <$> dict_entries (commands v))) (commands v) key cm);
  '(o, r2) ← lift (dictAdd cm (dict_can_resize C) (alloc_entry C (eaddr <$> dict_entries (orig_commands v))) (orig_commands v) key cm);
  _ ← modify (set_srv (set_commands d o));
  check (r1 && r2).

Definition populateCommandTable : M unit := for_each redisCommandTable populate_one.

Definition lookupCommand (x : bytes) : M (option redisCommand) :=
  key ← lift (mk_casekey x);
  v ← gets srv;
  '(d, r) ← lift (dictFetchValue (commands v) key);
  _ ← modify (set_srv (set_commands d (orig_commands v)));
  mret r.

(** ** Calling *)

Definition run_proc (p : redisCommandProc) : M unit :=
  match p with
  | PGet => getCommand C
  | PSet => setCommand C
  | PDel => delCommand C
  | PMulti => multiCommand C
  | PExec => execCommand
  | _ => fail
  end.

(** The next reading of the clock in microseconds. *)
Definition ustime : M Z :=
  v ← gets srv;
  _ ← modify (set_srv (fun v => ServerVars (commands v) (orig_commands v) (stat_numcommands v) (stat_net_input_bytes v)
    (clients_paused v) (unblocked_clients v) (S (uticks v)) (cmdstats v)));
  mret (uclock C (uticks v)).

(** [c->lastcmd]'s time and calls. *)
Definition add_stats (cname : bytes) (duration : Z) (v : servervars) : servervars :=
  let '(us, calls) := default (0, 0) (cmdstats v !! cname) in
  ServerVars (commands v) (orig_commands v) (stat_numcommands v) (stat_net_input_bytes v)
    (clients_paused v) (unblocked_clients v) (uticks v) (<[cname := (s64 (us + duration), s64 (calls + 1))]> (cmdstats v)).

Definition add_numcommands (v : servervars) : servervars :=
  ServerVars (commands v) (orig_commands v) (s64 (stat_numcommands v + 1)) (stat_net_input_bytes v)
    (clients_paused v) (unblocked_clients v) (uticks v) (cmdstats v).

(** Everything it would do is commented out, as in [slowlogPushEntryIfNeeded]. *)
Definition propagate (flags : Z) : M unit := skip.
Definition slowlogPushEntryIfNeeded (duration : Z) : M unit := skip.

(** Where the command goes, from what it changed, the client's flags and what
    the caller asks for. *)
Definition propagate_flags (dirty cf flags : Z) : Z :=
  let p := if negb (dirty =? 0) then Z.lor PROPAGATE_NONE (Z.lor PROPAGATE_AOF PROPAGATE_REPL) else PROPAGATE_NONE in
  let p := if has cf CLIENT_FORCE_REPL then Z.lor p PROPAGATE_REPL else p in
  let p := if has cf CLIENT_FORCE_AOF then Z.lor p PROPAGATE_AOF else p in
  let p := if has cf CLIENT_PREVENT_REPL_PROP || negb (has flags CMD_CALL_PROPAGATE_REPL) then Z.land p (Z.lnot PROPAGATE_REPL) else p in
  if has cf CLIENT_PREVENT_AOF_PROP || negb (has flags CMD_CALL_PROPAGATE_AOF) then Z.land p (Z.lnot PROPAGATE_AOF) else p.

Definition REPLICATION_FLAGS : Z := Z.lor (Z.lor CLIENT_FORCE_AOF CLIENT_FORCE_REPL) CLIENT_PREVENT_PROP.

(** What is done for a caller that is a script ([server.lua_caller]) and the
    propagation of what the command queued ([server.also_propagate]) are left:
    nothing in the repository sets the one or adds to the other. *)
Definition call (flags0 : Z) : M unit :=
  c ← gets cl;
  let client_old_flags := flags c in
  _ ← clear_flag REPLICATION_FLAGS;
  k ← gets ks;
  let dirty0 := dirty k in
  start ← ustime;
  cm ← lift (cmd c);
  _ ← run_proc (proc cm);
  stop ← ustime;
  let duration := s64 (stop - start) in
  k ← gets ks;
  let dirty := s64 (dirty k - dirty0) in
  let dirty := if dirty <? 0 then 0 else dirty in
  c ← gets cl;
  let fl := if loading C && has (flags c) CLIENT_LUA then Z.land flags0 (Z.lnot (Z.lor CMD_CALL_SLOWLOG CMD_CALL_STATS)) else flags0 in
  cm ← lift (cmd c);
  _ ← (if has fl CMD_CALL_SLOWLOG && negb (bool_decide (proc cm = PExec)) then slowlogPushEntryIfNeeded duration else skip);
  _ ← (if has fl CMD_CALL_STATS then
    last ← lift (lastcmd (cext c)); modify (set_srv (add_stats (name last) duration))
   else skip);
  _ ← (if has fl CMD_CALL_PROPAGATE && negb (Z.land (flags c) CLIENT_PREVENT_PROP =? CLIENT_PREVENT_PROP) then
    let p := propagate_flags dirty (flags c) fl in
    if negb (p =? PROPAGATE_NONE) then propagate p else skip
   else skip);
  _ ← clear_flag REPLICATION_FLAGS;
  _ ← add_flag (Z.land client_old_flags REPLICATION_FLAGS);
  modify (set_srv add_numcommands).

(** ** Processing a request *)

Definition set_command (o : option redisCommand) : M unit :=
  _ ← modify (set_cl (set_cmd o));
  modify (set_cl (set_cext (fun x => CExtra (authenticated x) o (mstate x) (woff x) (reploff x) (querybuf_peak x)))).

Definition set_woff (n : Z) : M unit :=
  modify (set_cl (set_cext (fun x => CExtra (authenticated x) (lastcmd x) (mstate x) n (reploff x) (querybuf_peak x)))).

(** The number of arguments is not the one of the command. *)
Definition wrong_arity (cm : redisCommand) (argc : Z) : bool :=
  ((arity cm >? 0) && negb (arity cm =? argc)) || (argc <? - arity cm).

(** The disk does not take what is to be saved. *)
Definition disk_error (cm : redisCommand) : bool :=
  ((stop_writes_on_bgsave_err C && (saveparamslen C >? 0) && negb (lastbgsave_ok C)) || negb (aof_last_write_ok C)) &&
  negb (masterhost C) && (has (cflags cm) CMD_WRITE || bool_decide (proc cm = PPing)).

Definition queues (cm : redisCommand) : bool :=
  negb (bool_decide (proc cm = PExec)) && negb (bool_decide (proc cm = PDiscard)) &&
  negb (bool_decide (proc cm = PMulti)) && negb (bool_decide (proc cm = PWatch)).

(** [C_OK] is [true]. *)
Definition processCommand : M bool :=
  a ← get_arg 0;
  buf ← arg_chars a;
  if strcasecmp buf (str "quit" ++ [0]) =? 0 then
    _ ← addReply C (ok (shared C));
    _ ← add_flag CLIENT_CLOSE_AFTER_REPLY;
    mret false
  else
    o ← get_object a;
    x ← lift (object_bytes o);
    found ← lookupCommand x;
    _ ← set_command found;
    c ← gets cl;
    match found with
    | None =>
      _ ← flagTransaction;
      n ← lift (strlen buf);
      _ ← addReplyErrorFormat C (str "unknown command '" ++ take n buf ++ str "'");
      mret true
    | Some cm =>
      if wrong_arity cm (Z.of_nat (length (argv (cin c)))) then
        _ ← flagTransaction;
        _ ← addReplyErrorFormat C (str "wrong number of arguments for '" ++ name cm ++ str "' command");
        mret true
      else if requirepass C && negb (authenticated (cext c)) && negb (bool_decide (proc cm = PAuth)) then
        _ ← flagTransaction; _ ← addReply C (noautherr (shared C)); mret true
      else if disk_error cm then
        _ ← flagTransaction;
        _ ← (if aof_last_write_ok C then addReply C (bgsaveerr (shared C))
          else
            e ← lift (sdsempty (junk (senv C)));
            s ← lift (sdscat (junk (senv C)) e (str "-MISCONF Errors writing to the AOF file: " ++ aof_last_write_error C ++ CRLF));
            addReplySds C s);
        mret true
      else if loading C && negb (has (cflags cm) CMD_LOADING) then
        _ ← addReply C (loadingerr (shared C)); mret true
      else if has (flags c) CLIENT_MULTI && queues cm then
        _ ← queueMultiCommand; _ ← addReply C (queued (shared C)); mret true
      else
        _ ← call CMD_CALL_FULL;
        _ ← set_woff (master_repl_offset C);
        mret true
    end.

End Ops.
End Server.
