(* ===== verification/Proto.v ===== *)
(** * Reading requests (src/networking.c)

    What a client sends is gathered in its query buffer, from where requests
    are taken, inline or in the multi bulk format, and executed one after the
    other; a request that is not complete stays until more is read. *)

From S2P Require Import Prelude Monad Util Sds SdsText Dict DictTypes Object State Db Reply Commands Multi Server.
Import Monad Util Sds SdsText Dict DictTypes Object State Db Reply Commands Multi Server.

Module Proto.

Definition PROTO_IOBUF_LEN : Z := 1024 * 16.
Definition PROTO_INLINE_MAX_SIZE : Z := 1024 * 64.
Definition PROTO_MBULK_BIG_ARG : Z := 1024 * 32.
Definition PROTO_REQ_INLINE : Z := 1.
Definition PROTO_REQ_MULTIBULK : Z := 2.

Definition CLIENT_BLOCKED : Z := 16.
Definition CLIENT_UNBLOCKED : Z := 128.
Definition CLIENT_ASKING : Z := 512.
Definition CLIENT_REPLY_SKIP_NEXT : Z := 2 ^ 23.

(** [strchr]: the position of a byte in the string of C; the outer [None] is
    a string that does not end. *)
Fixpoint strchr (m : bytes) (c : Z) : option (option nat) :=
  match m with
  | [] => None
  | x :: m => if x =? c then Some (Some O) else if x =? 0 then Some None else match strchr m c with Some (Some n) => Some (Some (S n)) | r => r end
  end.

Section Ops.
Context {P : Type} (C : config).

Abbreviation state := (state P).
Abbreviation M := (M state).

(** ** Access to the client *)

Definition set_in (f : cinput -> cinput) : M unit := modify (set_cl (set_cin f)).

Definition set_querybuf (q : sds) : M unit :=
  set_in (fun i => CInput q (reqtype i) (multibulklen i) (bulklen i) (argv i)).
Definition set_reqtype (t : Z) : M unit :=
  set_in (fun i => CInput (querybuf i) t (multibulklen i) (bulklen i) (argv i)).
Definition set_multibulklen (n : Z) : M unit :=
  set_in (fun i => CInput (querybuf i) (reqtype i) n (bulklen i) (argv i)).
Definition set_bulklen (n : Z) : M unit :=
  set_in (fun i => CInput (querybuf i) (reqtype i) (multibulklen i) n (argv i)).
Definition set_args (f : list addr -> list addr) : M unit :=
  set_in (fun i => CInput (querybuf i) (reqtype i) (multibulklen i) (bulklen i) (f (argv i))).

Definition get_querybuf : M sds := c ← gets cl; mret (querybuf (cin c)).

(** [sdsrange(c->querybuf,pos,-1)]. *)
Definition trim_querybuf (pos : Z) : M unit :=
  q ← get_querybuf; q ← lift (sdsrange q (s32 pos) (-1)); set_querybuf q.

(** ** Between requests *)

Definition resetClient : M unit :=
  c ← gets cl;
  let prevcmd := proc <$> cmd c in
  _ ← freeClientArgv;
  _ ← set_reqtype 0;
  _ ← set_multibulklen 0;
  _ ← set_bulklen (-1);
  _ ← (if negb (has (flags c) CLIENT_MULTI) && negb (bool_decide (prevcmd = Some PAsking)) then clear_flag CLIENT_ASKING else skip);
  _ ← clear_flag CLIENT_REPLY_SKIP;
  c ← gets cl;
  if has (flags c) CLIENT_REPLY_SKIP_NEXT then
    _ ← add_flag CLIENT_REPLY_SKIP; clear_flag CLIENT_REPLY_SKIP_NEXT
  else skip.

(** The client is closed once it has got the error. *)
Definition setProtocolError (pos : Z) : M unit :=
  _ ← add_flag CLIENT_CLOSE_AFTER_REPLY; trim_querybuf pos.

(** An error of the protocol: [C_ERR]. *)
Definition protocol_error (msg : bytes) (pos : Z) : M unit :=
  _ ← addReplyError C msg; setProtocolError pos.

(** ** Inline requests *)

(** The objects of the arguments that are not empty. *)
Fixpoint inline_args (l : list sds) : M unit :=
  match l with
  | [] => skip
  | s :: l =>
    _ ← (if negb (sdslen s =? 0) then
      a ← new_object C (fun a h => Some (createObject (senv C) a h OBJ_STRING (PSds s))); set_args (fun v => v ++ [a])
     else skip);
    inline_args l
  end.

(** The end of the line: before a carriage return, if there is one. *)
Definition line_end (buf : bytes) (newline : nat) : nat :=
  match newline with
  | O => O
  | S n => if default 0 (buf !! n) =? 13 then n else newline
  end.

Definition processInlineBuffer : M bool :=
  q ← get_querybuf;
  newline ← lift (strchr (Sds.buf q) 10);
  match newline with
  | None =>
    if sdslen q >? PROTO_INLINE_MAX_SIZE then
      _ ← protocol_error (str "Protocol error: too big inline request") 0; mret false
    else mret false
  | Some newline =>
    let querylen := Z.of_nat (line_end (Sds.buf q) newline) in
    aux ← lift (sdsnewlen (junk (senv C)) (Some (Sds.buf q)) querylen);
    n ← lift (strlen (Sds.buf aux));
    args ← lift (sdssplitargs (junk (senv C)) (take n (Sds.buf aux)));
    match args with
    | None => _ ← protocol_error (str "Protocol error: unbalanced quotes in request") 0; mret false
    | Some args =>
      c ← gets cl;
      _ ← (if (querylen =? 0) && has (flags c) CLIENT_SLAVE then modify (set_cl (set_repl_ack_time (unixtime C))) else skip);
      _ ← trim_querybuf (querylen + 2);
      _ ← set_args (fun _ => []);
      _ ← inline_args args;
      mret true
    end
  end.

(** ** Multi bulk requests *)

(** Where a part of the reading leaves: at a position of the buffer with more
    to read, at one where it has to wait for more, or at an error. *)
Inductive progress := Go (pos : Z) | Wait (pos : Z) | Err.

(** The number between the byte at [pos] and the end of the line. *)
Definition line_number (buf : bytes) (pos newline : Z) : option (option Z) :=
  s ← rdn buf (Z.to_nat (pos + 1)) (Z.to_nat (newline - (pos + 1)));
  Some (string2ll s).

(** The number of arguments: [Go 0] means that there is none. *)
Definition read_count : M progress :=
  c ← gets cl;
  _ ← check (bool_decide (argv (cin c) = []));
  q ← get_querybuf;
  newline ← lift (strchr (Sds.buf q) 13);
  match newline with
  | None =>
    if sdslen q >? PROTO_INLINE_MAX_SIZE then
      _ ← protocol_error (str "Protocol error: too big mbulk count string") 0; mret Err
    else mret Err
  | Some newline =>
    let newline := Z.of_nat newline in
    if newline >? s32 (sdslen q) - 2 then mret Err
    else
      c0 ← lift (Sds.buf q !! 0%nat);
      _ ← check (c0 =? 42);
      ll ← lift (line_number (Sds.buf q) 0 newline);
      match ll with
      | None => _ ← protocol_error (str "Protocol error: invalid multibulk length") 0; mret Err
      | Some ll =>
        if ll >? 1024 * 1024 then
          _ ← protocol_error (str "Protocol error: invalid multibulk length") 0; mret Err
        else
          let pos := newline + 2 in
          if ll <=? 0 then _ ← trim_querybuf pos; mret (Go 0)
          else _ ← set_multibulklen ll; mret (Go pos)
      end
  end.

(** The length of the next argument. *)
Definition read_bulklen (pos : Z) : M progress :=
  q ← get_querybuf;
  newline ← lift (strchr (drop (Z.to_nat pos) (Sds.buf q)) 13);
  match newline with
  | None =>
    if sdslen q >? PROTO_INLINE_MAX_SIZE then
      _ ← protocol_error (str "Protocol error: too big bulk count string") 0; mret Err
    else mret (Wait pos)
  | Some newline =>
    let newline := pos + Z.of_nat newline in
    if newline >? s32 (sdslen q) - 2 then mret (Wait pos)
    else
      c0 ← lift (Sds.buf q !! Z.to_nat pos);
      if negb (c0 =? 36) then
        _ ← addReplyErrorFormat C (str "Protocol error: expected '$', got '" ++ [c0] ++ str "'");
        _ ← setProtocolError pos; mret Err
      else
        ll ← lift (line_number (Sds.buf q) pos newline);
        match ll with
        | None => _ ← protocol_error (str "Protocol error: invalid bulk length") pos; mret Err
        | Some ll =>
          if (ll <? 0) || (ll >? 512 * 1024 * 1024) then
            _ ← protocol_error (str "Protocol error: invalid bulk length") pos; mret Err
          else
            let pos := newline + 2 in
            pos ← (if ll >=? PROTO_MBULK_BIG_ARG then
              _ ← trim_querybuf pos;
              q ← get_querybuf;
              let qblen := sdslen q in
              _ ← (if qblen <? u64 ll + 2 then q ← lift (sdsMakeRoomFor (junk (senv C)) q (ll + 2 - qblen)); set_querybuf q else skip);
              mret 0
             else mret pos);
            _ ← set_bulklen ll;
            mret (Go pos)
        end
  end.

(** The next argument, whose length is known: a copy, or the buffer itself
    when it is large and all there is. *)
Definition read_argument (pos : Z) : M progress :=
  c ← gets cl;
  q ← get_querybuf;
  let bulklen := bulklen (cin c) in
  if u64 (sdslen q - pos) <? u32 (bulklen + 2) then mret (Wait pos)
  else
    pos ← (if (pos =? 0) && (bulklen >=? PROTO_MBULK_BIG_ARG) && (s32 (sdslen q) =? bulklen + 2) then
      a ← new_object C (fun a h => Some (createObject (senv C) a h OBJ_STRING (PSds q)));
      _ ← set_args (fun v => v ++ [a]);
      o ← get_object a;
      q ← lift (sdsIncrLen q (-2));
      _ ← modify (set_objects (fun h => <[a := set_ptr o (PSds q)]> h));
      q ← lift (sdsnewlen (junk (senv C)) None (bulklen + 2));
      q ← lift (sdsclear q);
      _ ← set_querybuf q;
      mret 0
     else
      a ← new_object C (fun a h => createStringObject (senv C) a h (Some (drop (Z.to_nat pos) (Sds.buf q))) bulklen);
      _ ← set_args (fun v => v ++ [a]);
      mret (pos + bulklen + 2));
    _ ← set_bulklen (-1);
    c ← gets cl;
    _ ← set_multibulklen (multibulklen (cin c) - 1);
    mret (Go pos).

(** The loop over the arguments: [None] for [C_ERR] at once, or where it
    stopped. *)
Fixpoint arguments_loop (fuel : nat) (pos : Z) : M (option Z) :=
  c ← gets cl;
  if multibulklen (cin c) =? 0 then mret (Some pos)
  else
    match fuel with
    | O => fail
    | S fuel =>
      p ← (if bulklen (cin c) =? -1 then read_bulklen pos else mret (Go pos));
      match p with
      | Err => mret None
      | Wait pos => mret (Some pos)
      | Go pos =>
        p ← read_argument pos;
        match p with
        | Go pos => arguments_loop fuel pos
        | Wait pos => mret (Some pos)
        | Err => mret None
        end
      end
    end.

Definition processMultibulkBuffer : M bool :=
  c ← gets cl;
  p ← (if multibulklen (cin c) =? 0 then read_count else mret (Go 0));
  c ← gets cl;
  match p with
  | Go pos =>
    if multibulklen (cin c) =? 0 then mret true
    else
      _ ← check (multibulklen (cin c) >? 0);
      r ← arguments_loop (Z.to_nat (multibulklen (cin c))) pos;
      match r with
      | None => mret false
      | Some pos =>
        _ ← (if negb (pos =? 0) then trim_querybuf pos else skip);
        c ← gets cl;
        mret (multibulklen (cin c) =? 0)
      end
  | _ => mret false
  end.

(** ** The loop over the requests *)

(** Of the clients that are put in the queue when the pause is over, the one
    that is served. *)
Definition clientsArePaused : M bool :=
  v ← gets srv;
  if clients_paused v && (clients_pause_end_time C <? server_mstime C) then
    c ← gets cl;
    let skipped := has (flags c) (Z.lor CLIENT_SLAVE CLIENT_BLOCKED) in
    _ ← (if skipped then skip else add_flag CLIENT_UNBLOCKED);
    _ ← modify (set_srv (fun v => ServerVars (commands v) (orig_commands v) (stat_numcommands v) (stat_net_input_bytes v)
      false (unblocked_clients v ++ (if skipped then [] else [cid c])) (uticks v) (cmdstats v)));
    mret false
  else mret (clients_paused v).

(** One request, when its type is known. *)
Definition processBuffer : M bool :=
  c ← gets cl;
  if reqtype (cin c) =? PROTO_REQ_INLINE then processInlineBuffer
  else if reqtype (cin c) =? PROTO_REQ_MULTIBULK then processMultibulkBuffer
  else fail.

(** Whether no more requests are taken. *)
Definition input_stops : M bool :=
  c ← gets cl;
  paused ← (if negb (has (flags c) CLIENT_SLAVE) then clientsArePaused else mret false);
  if (paused : bool) then mret true
  else
    c ← gets cl;
    mret (has (flags c) CLIENT_BLOCKED || has (flags c) (Z.lor CLIENT_CLOSE_AFTER_REPLY CLIENT_CLOSE_ASAP)).

Fixpoint processInputBuffer (fuel : nat) : M unit :=
  q ← get_querybuf;
  if sdslen q =? 0 then skip
  else
    match fuel with
    | O => fail
    | S fuel =>
      stop ← input_stops;
      if (stop : bool) then skip
      else
        c ← gets cl;
        _ ← (if reqtype (cin c) =? 0 then
          q0 ← lift (Sds.buf q !! 0%nat);
          set_reqtype (if q0 =? 42 then PROTO_REQ_MULTIBULK else PROTO_REQ_INLINE)
         else skip);
        done ← processBuffer;
        if negb done then skip
        else
          c ← gets cl;
          _ ← (if bool_decide (argv (cin c) = []) then resetClient
            else
              alive ← processCommand C;
              if (alive : bool) then resetClient else skip);
          processInputBuffer fuel
    end.

(** ** Reading from the socket *)

(** What [read] returns. *)
Inductive rres := RBytes (x : bytes) | RAgain | RError.

Definition add_input (n : Z) : M unit :=
  c ← gets cl;
  _ ← modify (set_cl (set_csock (fun k => CSocket (writable_handler k) (unixtime C) (stat_net_output_bytes k))));
  _ ← (if has (flags c) CLIENT_MASTER then
    modify (set_cl (set_cext (fun x => CExtra (authenticated x) (lastcmd x) (mstate x) (woff x) (s64 (reploff x + n)) (querybuf_peak x))))
   else skip);
  modify (set_srv (fun v => ServerVars (commands v) (orig_commands v) (stat_numcommands v) (s64 (stat_net_input_bytes v + n))
    (clients_paused v) (unblocked_clients v) (uticks v) (cmdstats v))).

(** How much is read at once: of a large argument, no more than the rest. *)
Definition read_length (i : cinput) : Z :=
  if (reqtype i =? PROTO_REQ_MULTIBULK) && negb (multibulklen i =? 0) && negb (bulklen i =? -1) && (bulklen i >=? PROTO_MBULK_BIG_ARG) then
    let remaining := s32 (u32 (bulklen i + 2) - sdslen (querybuf i)) in
    if remaining <? PROTO_IOBUF_LEN then remaining else PROTO_IOBUF_LEN
  else PROTO_IOBUF_LEN.

(** [read n] is the answer of the system call for [n] bytes.  The result is
    whether the client is still there. *)
Definition readQueryFromClient (fuel : nat) (read : Z -> rres) : M bool :=
  c ← gets cl;
  q ← get_querybuf;
  let readlen := read_length (cin c) in
  let qblen := sdslen q in
  _ ← (if querybuf_peak (cext c) <? qblen then
    modify (set_cl (set_cext (fun x => CExtra (authenticated x) (lastcmd x) (mstate x) (woff x) (reploff x) qblen)))
   else skip);
  q ← lift (sdsMakeRoomFor (junk (senv C)) q readlen);
  _ ← set_querybuf q;
  match read readlen with
  | RAgain => mret true
  | RError => _ ← freeClient; mret false
  | RBytes x =>
    if Z.of_nat (length x) =? 0 then _ ← freeClient; mret false
    else
      q ← lift (sds_write q qblen x);
      q ← lift (sdsIncrLen q (Z.of_nat (length x)));
      _ ← set_querybuf q;
      _ ← add_input (Z.of_nat (length x));
      if sdslen q >? client_max_querybuf_len C then _ ← freeClient; mret false
      else _ ← processInputBuffer fuel; mret true
  end.

End Ops.
End Proto.
