(* ===== verification/ServerSpec.v ===== *)
(** * Requests are commands on a store (src/server.c)

    The table of the commands finds a name whatever its case; a request is
    answered with an error that changes nothing or by the command it names,
    as on the store of strings. *)

From S2P Require Import Prelude Monad Util Sds SdsText Dict DictTypes DictSpec DictMap Object ObjectSpec State Db HeapSpec DbSpec DbRun Reply ReplySpec Commands Serving CommandSpec Multi Server.
Import Monad Util Sds SdsText Dict DictTypes DictSpec DictMap Object ObjectSpec State Db HeapSpec DbSpec DbRun Reply ReplySpec Commands Serving CommandSpec Multi Server.

Module ServerSpec.

(** ** The table *)

(** The table with the flags of the letters. *)
Definition command_table : list redisCommand :=
  (fun cm => with_flags cm (default 0 (command_flags (sflags cm) 0))) <$> redisCommandTable.

Definition cmd_get : redisCommand := RedisCommand (str "get") PGet 2 (str "rF") (Z.lor CMD_READONLY CMD_FAST) 1 1 1.
Definition cmd_set : redisCommand := RedisCommand (str "set") PSet (-3) (str "wm") (Z.lor CMD_WRITE CMD_DENYOOM) 1 1 1.
Definition cmd_del : redisCommand := RedisCommand (str "del") PDel (-2) (str "w") CMD_WRITE 1 (-1) 1.

Lemma command_table_eq : command_table = [cmd_get; cmd_set; cmd_del].
Proof. reflexivity. Qed.

Definition same_name (x y : bytes) : bool := bool_decide (tolower <$> x = tolower <$> y).

Definition find_command (x : bytes) : option redisCommand := find (fun cm => same_name x (name cm)) command_table.

Definition plain (x : bytes) : Prop := Forall (fun c => c <> 0) x.

#[export] Instance plain_dec x : Decision (plain x).
Proof. unfold plain. apply _. Defined.

Section Table.
Context (sd : Z).
#[local] Instance table_type : dictType casekey redisCommand := commandTableDictType sd redisCommand.
#[local] Instance table_laws : dictTypeLaws casekey redisCommand := commandTableDictType_laws sd redisCommand.

(** A dictionary that holds commands by their names. *)
Definition holds_commands (d : dict casekey redisCommand) (l : list redisCommand) : Prop :=
  exists ps, dict_rep d ps /\ (fun p => (cbytes p.1, p.2)) <$> ps = (fun cm => (name cm, cm)) <$> l.

Lemma keyCompare_name (a b : casekey) : keyCompare (V := redisCommand) a b = same_name (cbytes a) (cbytes b).
Proof.
  unfold same_name. apply Bool.eq_iff_eq_true. rewrite bool_decide_eq_true. destruct a as [a Ha], b as [b Hb].
  cbn. unfold dictSdsKeyCaseCompare. cbn [cbytes]. rewrite Z.eqb_eq. by apply strcasecmp_0.
Qed.

Lemma assoc_names (key : casekey) : forall ps l,
  (fun p : casekey * redisCommand => (cbytes p.1, p.2)) <$> ps = (fun cm => (name cm, cm)) <$> l ->
  assoc key ps = find (fun cm => same_name (cbytes key) (name cm)) l.
Proof.
  induction ps as [|[k v] ps IH]; intros [|cm l] E; try done. rewrite !fmap_cons in E. injection E as Ek Ev E. cbn [fst snd] in Ek, Ev. subst v.
  specialize (IH l E). unfold assoc in *. cbn [find fst snd]. rewrite keyCompare_name, Ek. by destruct (same_name _ _).
Qed.

Lemma fetch_command d l key : holds_commands d l ->
  exists d', dictFetchValue d key = Some (d', find (fun cm => same_name (cbytes key) (name cm)) l) /\ holds_commands d' l.
Proof.
  intros (ps & Hr & E). destruct (dictFetchValue_rep d ps key Hr) as (d' & -> & Hr'). exists d'.
  rewrite (assoc_names _ _ _ E). split; [done|]. by exists ps.
Qed.

Lemma add_command junk can_resize a d l (key : casekey) cm :
  holds_commands d l -> Z.of_nat (length l) < DICT_LIMIT -> a ∉ eaddr <$> dict_entries d ->
  cbytes key = name cm -> find (fun c => same_name (name cm) (name c)) l = None ->
  exists d', dictAdd junk can_resize a d key cm = Some (d', true) /\ holds_commands d' (cm :: l).
Proof.
  intros (ps & Hr & E) Hl Ha Hk Hn. assert (length ps = length l) as Hlen by (apply (f_equal length) in E; by rewrite !length_fmap in E).
  destruct (dictAdd_rep junk can_resize a d ps key cm Hr ltac:(lia) Ha) as (d' & Hadd & Hr').
  unfold ref_add in Hadd, Hr'. rewrite (assoc_names _ _ _ E), Hk, Hn in Hadd, Hr'. cbn [fst snd] in *.
  exists d'. split; [done|]. exists ((key, cm) :: ps). split; [done|]. rewrite !fmap_cons. cbn. unfold id. by rewrite E, Hk.
Qed.

Lemma holds_commands_perm d l l' : l ≡ₚ l' -> holds_commands d l -> holds_commands d l'.
Proof.
  intros Hp (ps & Hr & E). assert (exists ps', ps ≡ₚ ps' /\ (fun p => (cbytes p.1, p.2)) <$> ps' = (fun cm => (name cm, cm)) <$> l') as (ps' & Hps & E').
  { clear Hr. revert ps E. induction Hp as [|cm l l' Hp IH|c1 c2 l|l1 l2 l3 H1 IH1 H2 IH2]; intros ps E.
    - exists ps. done.
    - destruct ps as [|p ps]; [done|]. rewrite !fmap_cons in E. injection E as E1 E2 E. destruct (IH ps E) as (ps' & Hps & E').
      exists (p :: ps'). split; [by constructor|]. rewrite !fmap_cons, E'. cbn. by rewrite E1, E2.
    - destruct ps as [|p1 [|p2 ps]]; [done..|]. rewrite !fmap_cons in E. injection E as E1 E2 E3 E4 E.
      exists (p2 :: p1 :: ps). split; [by constructor|]. rewrite !fmap_cons, E. cbn. by rewrite E1, E2, E3, E4.
    - destruct (IH1 ps E) as (ps1 & Hps1 & E1). destruct (IH2 ps1 E1) as (ps2 & Hps2 & E2). exists ps2. split; [by etrans|done]. }
  exists ps'. split; [by rewrite <- Hps|done].
Qed.

Lemma no_commands : holds_commands dictCreate [].
Proof. exists []. split; [apply dictCreate_rep|done]. Qed.

End Table.
(** ** States that differ in what commands do not look at *)

Section Spec.
Context {P : Type} {C : config}.
Context {HC : sound_config C}.
Abbreviation state := (state P).
Implicit Types (s : state) (a key : addr) (A : adb) (K : kv) (b x y z : bytes) (id k : nat) (cm : redisCommand).

Record alike s s' : Prop := Alike {
  al_objects : objects s' = objects s;
  al_ks : ks s' = ks s;
  al_cout : cout (cl s') = cout (cl s);
  al_args : args_of s' = args_of s
}.

Lemma alike_replies s s' : alike s s' -> replies s' = replies s.
Proof. intros [_ _ H _]. unfold replies. by rewrite H. Qed.

Lemma alike_slack s s' A a : alike s s' -> slack s' A a = slack s A a.
Proof. intros H. unfold slack. rewrite (alike_replies _ _ H). destruct H as [-> _ _ ->]. done. Qed.

Lemma alike_up s s' id A K z k : alike s s' -> up s id A K z k -> up s' id A K z k.
Proof.
  intros H [[Hdb Hsim Hout Hsl Har] Hstd [R1 R2] Hid]. pose proof (fun a => alike_slack s s' A a H) as Hs. pose proof (alike_replies _ _ H) as Hr.
  destruct H as [Ho Hk Hc Ha]. constructor; [|apply (std_unchanged s s' A A); [exact Hs| |exact Hstd]|constructor; by rewrite ?Hr|done].
  2:{ intros a o _ Hoo. exists o. rewrite Ho. split; [done|apply same_value_refl]. }
  constructor; [|by rewrite Ho|by eapply pending_same|by intros a; rewrite Hs|by rewrite Ha].
  destruct Hdb as [D1 D2 D3 D4 D5]. constructor; rewrite ?Hk, ?Ho; try done. intros a. unfold spare. rewrite Ho. apply D5.
Qed.

Lemma alike_named s s' A a b : alike s s' -> named s A a b -> named s' A a b.
Proof.
  intros H [Hk Hr Hl]. constructor; [unfold key_is; by rewrite (al_objects _ _ H)| |done].
  unfold kept_ref in *. by rewrite (alike_slack _ _ _ _ H), (al_args _ _ H).
Qed.

Lemma alike_arguments s s' A xs : alike s s' -> arguments s A xs -> arguments s' A xs.
Proof. intros H Ha. unfold arguments. rewrite (al_args _ _ H). eapply Forall2_impl; [exact Ha|]. intros a x. by apply alike_named. Qed.

(** ** What a request leaves alone *)

(** Everything but the database and the client's output: its command, its
    flags and the bookkeeping may change. *)
Record handled s s' id A A' : Prop := Handled {
  ha_slack : forall a, slack s' A' a = slack s A a;
  ha_kept : kept (objects s) (objects s') (fun a => 0 < slack s A a);
  ha_dbs : forall j, j <> id -> dbs (ks s') !! j = dbs (ks s) !! j;
  ha_cid : cid (cl s') = cid (cl s);
  ha_fd : fd (cl s') = fd (cl s);
  ha_cdb : cdb (cl s') = cdb (cl s);
  ha_cin : with_argv [] (cin (cl s')) = with_argv [] (cin (cl s));
  ha_args : length (args_of s') = length (args_of s);
  ha_sent : sentlen (cout (cl s')) = sentlen (cout (cl s));
  ha_auth : authenticated (cext (cl s')) = authenticated (cext (cl s));
  ha_mstate : mstate (cext (cl s')) = mstate (cext (cl s));
  ha_paused : clients_paused (srv s') = clients_paused (srv s)
}.

Lemma served_handled s s' id A A' : served s s' id A A' -> handled s s' id A A'.
Proof. intros [T1 T2 T3 T4 T5 T6 T7 T8 T9 T10 T11 T12 T13]. constructor; try done; by rewrite ?T12, ?T13. Qed.

Lemma handled_trans s1 s2 s3 id A1 A2 A3 : handled s1 s2 id A1 A2 -> handled s2 s3 id A2 A3 -> handled s1 s3 id A1 A3.
Proof.
  intros [T1 T2 T3 T4 T5 T6 T7 T8 T9 T10 T11 T12] [R1 R2 R3 R4 R5 R6 R7 R8 R9 R10 R11 R12]. constructor; try congruence.
  - eapply kept_all_trans; [exact T2|]. intros a o Ha. apply R2. by rewrite T1.
  - intros j Hj. by rewrite R3, T3.
Qed.

(** The state changes in what [alike] and [handled] do not mention. *)
Lemma alike_handled s s' id A : alike s s' -> cid (cl s') = cid (cl s) -> fd (cl s') = fd (cl s) -> cdb (cl s') = cdb (cl s) ->
  cin (cl s') = cin (cl s) -> authenticated (cext (cl s')) = authenticated (cext (cl s)) ->
  mstate (cext (cl s')) = mstate (cext (cl s)) -> clients_paused (srv s') = clients_paused (srv s) -> handled s s' id A A.
Proof.
  intros H E1 E2 E3 E4 E5 E6 E7. pose proof (fun a => alike_slack s s' A a H) as Hs. destruct H as [Ho Hk Hc Ha].
  constructor; try done; try by rewrite ?Hk, ?Hc, ?E4, ?Ha. rewrite Ho. intros a o _ Hoo. exists o. split; [done|apply same_value_refl].
Qed.

(** ** Flags *)

(** The flags a call sets aside are back after it. *)
Lemma restored_flags f g : more_flags (Z.land f (Z.lnot REPLICATION_FLAGS)) g ->
  more_flags f (Z.lor (Z.land g (Z.lnot REPLICATION_FLAGS)) (Z.land f REPLICATION_FLAGS)).
Proof.
  intros (e & -> & He). exists e. split; [|done].
  assert (Z.land e REPLICATION_FLAGS = 0) as Hr.
  { assert (Z.land OUT_FLAGS REPLICATION_FLAGS = 0) as Hor by done.
    apply Z.bits_inj'. intros n Hn. apply (f_equal (fun v => Z.testbit v n)) in He, Hor. rewrite !Z.land_spec, Z.bits_0 in *.
    rewrite Z.lnot_spec in He by done. by destruct (Z.testbit e n), (Z.testbit OUT_FLAGS n), (Z.testbit REPLICATION_FLAGS n). }
  apply Z.bits_inj'. intros n Hn. apply (f_equal (fun v => Z.testbit v n)) in Hr. rewrite !Z.land_spec, Z.bits_0 in Hr.
  rewrite !Z.lor_spec, !Z.land_spec, Z.lor_spec, Z.land_spec, !Z.lnot_spec by done.
  destruct (Z.testbit f n), (Z.testbit e n), (Z.testbit REPLICATION_FLAGS n); done.
Qed.

Lemma land_has f m n : Z.land m n = 0 -> has (Z.land f (Z.lnot m)) n = has f n.
Proof.
  intros Hmn. unfold has. do 2 f_equal. rewrite <- Z.land_assoc. f_equal. apply Z.bits_inj'. intros i Hi.
  apply (f_equal (fun v => Z.testbit v i)) in Hmn. rewrite Z.land_spec, Z.bits_0 in Hmn.
  rewrite Z.land_spec, Z.lnot_spec by done. by destruct (Z.testbit m i), (Z.testbit n i).
Qed.

(** ** Calling a command *)

Definition ref_dispatch (master : bool) id cm (xs : list bytes) K : kv * bytes :=
  match proc cm with
  | PGet => ref_get (negb master && has (cflags cm) CMD_READONLY) id (nth 1 xs []) K
  | PSet => ref_set_command id xs (name cm) K
  | PDel => ref_del id (drop 1 xs) K
  | _ => (K, [])
  end.

Definition is_master s : bool := has (flags (cl s)) Db.CLIENT_MASTER.

Lemma run_proc_up s id A K z k xs cm (Q : unit -> state -> Prop) :
  up s id A K z (3 + k) -> cdb (cl s) = id -> arguments s A xs -> cmd (cl s) = Some cm -> cm ∈ command_table ->
  wrong_arity cm (Z.of_nat (length xs)) = false ->
  (forall s' A', answered s s' id A A' (ref_dispatch (is_master s) id cm xs K).1
      (z ++ said s (ref_dispatch (is_master s) id cm xs K).2) k -> Q tt s') ->
  wp (run_proc C (proc cm)) Q s.
Proof.
  intros U Hid Har Hcm Hin Hw HQ.
  assert (forall s' A' K' z', up s' id A' K' z' k -> trans s s' id A A' -> answered s s' id A A' K' z' k) as Hans.
  { intros s' A' K' z' U' T. constructor; [done|by apply trans_served|]. eapply strings_trans; [apply U|exact T|by eapply arguments_strings]. }
  rewrite command_table_eq in Hin.
  repeat (apply elem_of_cons in Hin as [->|Hin]); [| | |by apply elem_of_nil in Hin]; unfold wrong_arity in Hw; cbn [run_proc proc arity cmd_get cmd_set cmd_del] in *.
  - assert (Z.of_nat (length xs) = 2) as Hl by lia. destruct xs as [|x0 [|b [|]]]; cbn [length] in Hl; [lia..| |lia].
    unfold getCommand. apply wp_bind. eapply (getGenericCommand_up s id A K z k _ b); [exact U|exact Hid|exact Har|done|].
    intros r s' A' U' T. apply wp_skip. eapply HQ, Hans; [|exact T].
    unfold ref_dispatch. cbn [proc cflags nth cmd_get]. unfold reading_command in U'. rewrite Hcm in U'. exact U'.
  - assert (3 <= length xs)%nat as Hl by lia.
    eapply (setCommand_up s id A K z k xs); [exact U|exact Hid|exact Har|exact Hl|exact Hcm|by vm_compute|]. exact HQ.
  - eapply (delCommand_up s id A K z k xs); [exact U|exact Hid|exact Har|]. intros s' A' U' T. by eapply HQ, Hans.
Qed.

Definition table_ok s : Prop := holds_commands (seed C) (commands (srv s)) command_table.

(** A request is done; the client may have asked for the connection to be
    closed. *)
Record finished (quit : bool) s s' id A A' K' z' k : Prop := Finished {
  fi_up : up s' id A' K' z' k;
  fi_handled : handled s s' id A A';
  fi_strings : strings s';
  fi_flags : more_flags (if quit then Z.lor (flags (cl s)) CLIENT_CLOSE_AFTER_REPLY else flags (cl s)) (flags (cl s'));
  fi_table : table_ok s'
}.

Lemma alike_strings s s' : alike s s' -> strings s -> strings s'.
Proof. intros [Ho _ _ Ha]. unfold strings. by rewrite Ho, Ha. Qed.

Lemma alike_trans s1 s2 s3 : alike s1 s2 -> alike s2 s3 -> alike s1 s3.
Proof. intros [] []. constructor; congruence. Qed.

Lemma talks_unset (c c' : client) : fd c' = fd c -> flags c' = Z.land (flags c) (Z.lnot REPLICATION_FLAGS) -> talks c' = talks c.
Proof. intros Hf He. unfold talks, prepares. rewrite Hf, He. by rewrite !land_has by done. Qed.

(** Reading the clock. *)
Definition ticked s : state :=
  set_srv (fun v => ServerVars (commands v) (orig_commands v) (stat_numcommands v) (stat_net_input_bytes v)
    (clients_paused v) (unblocked_clients v) (S (uticks v)) (cmdstats v)) s.

Lemma ustime_wp s (Q : Z -> state -> Prop) : (forall t, Q t (ticked s)) -> wp (ustime C) Q s.
Proof. intros HQ. unfold ustime. wp_step. wp_step. wp_step. apply HQ. Qed.

(** What a call does to a state before the command, the flags of the
    replication being set aside, and after it. *)
Definition calling s : state := ticked (set_cl (set_flags (fun f => Z.land f (Z.lnot REPLICATION_FLAGS))) s).

Lemma skip_wp (b : bool) s (Q : unit -> state -> Prop) : Q tt s -> wp (if b then skip else skip) Q s.
Proof. intros HQ. destruct b; by apply wp_skip. Qed.

Definition restore f s : state :=
  set_srv add_numcommands (set_cl (set_flags (fun g => Z.lor (Z.land g (Z.lnot REPLICATION_FLAGS)) (Z.land f REPLICATION_FLAGS))) s).

Lemma alike_finished s s2 s' id A A' K' z' k :
  up s2 id A' K' z' k -> handled s s2 id A A' -> strings s2 -> alike s2 s' -> set_flags (fun _ => flags (cl s2)) (cl s') = cl s2 ->
  clients_paused (srv s') = clients_paused (srv s2) -> more_flags (flags (cl s)) (flags (cl s')) -> table_ok s' ->
  finished false s s' id A A' K' z' k.
Proof.
  intros U2 Sv2 St2 Hal Hcl Hp Hf Ht. constructor; [by eapply alike_up| |by eapply alike_strings|exact Hf|exact Ht].
  eapply handled_trans; [exact Sv2|].
  apply alike_handled; [exact Hal| | | | | | |exact Hp]; by rewrite <- Hcl.
Qed.

Lemma call_up s id A K z k xs cm (Q : unit -> state -> Prop) :
  up s id A K z (3 + k) -> cdb (cl s) = id -> arguments s A xs -> cmd (cl s) = Some cm -> lastcmd (cext (cl s)) = Some cm ->
  cm ∈ command_table -> wrong_arity cm (Z.of_nat (length xs)) = false -> table_ok s ->
  (forall s' A', finished false s s' id A A' (ref_dispatch (is_master s) id cm xs K).1
      (z ++ said s (ref_dispatch (is_master s) id cm xs K).2) k -> Q tt s') ->
  wp (call C CMD_CALL_FULL) Q s.
Proof.
  intros U Hid Har Hcm Hlast Hin Hw Htab HQ. unfold call. wp_step. apply wp_bind. unfold clear_flag. wp_step. wp_step.
  apply wp_bind, ustime_wp. intros t0. change (ticked _) with (calling s). set (s1 := calling s).
  apply wp_bind. eapply wp_lift; [exact Hcm|]. cbn beta.
  assert (alike s s1) as Hal by done.
  assert (forall x, said s1 x = said s x) as Hsaid by (intros x; unfold said; by rewrite (talks_unset (cl s) (cl s1))).
  assert (is_master s1 = is_master s) as Hm by (unfold is_master; by apply land_has).
  apply wp_bind. eapply (run_proc_up s1 id A K z k xs cm); [by eapply alike_up|done|by eapply alike_arguments|done|done|done|].
  rewrite Hm, Hsaid. set (r := ref_dispatch (is_master s) id cm xs K) in *. clearbody r. intros s2 A2 [U2 Sv2 St2].
  apply wp_bind, ustime_wp. intros t1. wp_step. wp_step.
  assert (forall s4, alike s2 s4 -> cl s4 = cl s2 -> clients_paused (srv s4) = clients_paused (srv s2) -> commands (srv s4) = commands (srv s2) ->
    Q tt (restore (flags (cl s)) s4)) as Hend.
  { intros s4 Hal4 Hcl4 Hp4 Hc4. eapply HQ, (alike_finished s s2).
    - exact U2.
    - eapply handled_trans; [|by apply served_handled]. by apply alike_handled.
    - exact St2.
    - by destruct Hal4.
    - rewrite <- Hcl4. by destruct s4 as [? ? [] ? ? ?].
    - exact Hp4.
    - change (flags (cl (restore _ s4))) with (Z.lor (Z.land (flags (cl s4)) (Z.lnot REPLICATION_FLAGS)) (Z.land (flags (cl s)) REPLICATION_FLAGS)).
      apply restored_flags. rewrite Hcl4. apply (se_flags _ _ _ _ _ Sv2).
    - unfold table_ok. change (commands (srv (restore (flags (cl s)) s4))) with (commands (srv s4)). rewrite Hc4, (se_srv _ _ _ _ _ Sv2). exact Htab. }
  apply wp_bind. eapply wp_lift; [cbn; by rewrite (se_cmd _ _ _ _ _ Sv2)|]. cbn beta.
  apply wp_bind, skip_wp.
  set (fl := if loading C && _ then _ else _). clearbody fl.
  apply wp_bind. apply (wp_mono _ (fun _ s4 => alike s2 s4 /\ cl s4 = cl s2 /\ clients_paused (srv s4) = clients_paused (srv s2) /\
    commands (srv s4) = commands (srv s2))).
  { destruct (has fl CMD_CALL_STATS).
    - apply wp_bind. eapply wp_lift; [cbn; rewrite (se_ext _ _ _ _ _ Sv2); exact Hlast|]. wp_step. unfold add_stats, ticked. cbn.
      destruct (default _ _) as [us n]. done.
    - by apply wp_skip. }
  intros [] s4 (Hal4 & Hcl4 & Hp4 & Hc4).
  apply wp_bind. unfold propagate. apply (wp_mono _ (fun _ s5 => s5 = s4)).
  { destruct (_ && _); [by apply skip_wp|by apply wp_skip]. }
  intros [] s5 ->. wp_step. unfold add_flag. wp_step. wp_step. by apply (Hend s4).
Qed.

(** ** Processing a request *)

Definition is_quit (x : bytes) : bool := same_name x (str "quit").

Definition noauth_text : bytes := str "-NOAUTH Authentication required." ++ CRLF.
Definition loading_text : bytes := str "-LOADING Redis is loading the dataset in memory" ++ CRLF.
Definition aof_text : bytes := str "-MISCONF Errors writing to the AOF file: " ++ aof_last_write_error C ++ CRLF.
Definition unknown_text (x : bytes) : bytes := str "unknown command '" ++ x ++ str "'".
Definition arity_text cm : bytes := str "wrong number of arguments for '" ++ name cm ++ str "' command".

(** What a request does and what it is answered: [auth] is whether the client
    is authenticated and [master] whether it is the master of this server. *)
Definition ref_process (auth master : bool) id (xs : list bytes) K : kv * bytes :=
  let x := nth 0 xs [] in
  if is_quit x then (K, ok_text)
  else
    match find_command x with
    | None => (K, error_line (one_line (unknown_text x)))
    | Some cm =>
      if wrong_arity cm (Z.of_nat (length xs)) then (K, error_line (one_line (arity_text cm)))
      else if requirepass C && negb auth then (K, noauth_text)
      else if disk_error C cm then (K, if aof_last_write_ok C then bgsave_text else aof_text)
      else if loading C && negb (has (cflags cm) CMD_LOADING) then (K, loading_text)
      else ref_dispatch master id cm xs K
    end.

Lemma strcasecmp_cut x tl b : strcasecmp (x ++ 0 :: tl) b = strcasecmp (x ++ [0]) b.
Proof.
  revert b. induction x as [|c x IH]; intros [|d b]; cbn [app strcasecmp]; try done.
  - by rewrite andb_false_r.
  - by rewrite IH.
Qed.

Lemma quit_spec sdx x : sds_rep sdx x -> plain x -> (strcasecmp (Sds.buf sdx) (str "quit" ++ [0]) =? 0) = is_quit x.
Proof.
  intros (_ & tl & -> & _) Hx. rewrite strcasecmp_cut. unfold is_quit, same_name. apply Bool.eq_iff_eq_true.
  rewrite Z.eqb_eq, bool_decide_eq_true. apply strcasecmp_0; [done|]. repeat constructor; done.
Qed.

Lemma lookupCommand_wp s x (Q : option redisCommand -> state -> Prop) : table_ok s -> plain x ->
  (forall s', alike s s' -> cl s' = cl s -> clients_paused (srv s') = clients_paused (srv s) -> table_ok s' -> Q (find_command x) s') ->
  wp (lookupCommand C x) Q s.
Proof.
  intros Ht Hx HQ. unfold lookupCommand. apply wp_bind. unfold mk_casekey. destruct (decide _) as [Hp|]; [|done].
  eapply wp_lift; [done|]. wp_step. destruct (fetch_command (seed C) _ _ (CaseKey x Hp) Ht) as (d' & Hf & Hd').
  apply wp_bind. eapply wp_lift; [exact Hf|]. wp_step. wp_step. by apply HQ.
Qed.

Lemma find_command_in x cm : find_command x = Some cm -> cm ∈ command_table.
Proof. intros H. apply find_some in H as [H _]. by apply list_elem_of_In. Qed.

Lemma flagTransaction_wp s (Q : unit -> state -> Prop) : has (flags (cl s)) CLIENT_MULTI = false -> Q tt s -> wp flagTransaction Q s.
Proof. intros Hm HQ. unfold flagTransaction. wp_step. rewrite Hm. by apply wp_skip. Qed.

(** A reply finishes the request. *)
Lemma reply_finished k1 k s s1 id A K z x (m : M state unit) (Q : unit -> state -> Prop) :
  up s1 id A K z (k1 + k) -> handled s s1 id A A -> strings s1 -> flags (cl s1) = flags (cl s) -> table_ok s1 -> says C k1 s1 m x ->
  (forall s', finished false s s' id A A K (z ++ said s x) k -> Q tt s') -> wp m Q s1.
Proof.
  intros U Hh Hst Hf Ht Hm HQ. eapply (says_up k1 k); [exact U|exact Hm|]. intros s' U' T. apply HQ.
  assert (said s1 x = said s x) as Hs.
  { unfold said. rewrite (talks_more (cl s) (cl s1)); [done|rewrite Hf; apply more_refl|apply Hh]. }
  rewrite Hs in U'. constructor; [exact U'| | | |].
  - eapply handled_trans; [exact Hh|]. by apply served_handled, trans_served.
  - eapply strings_trans; [apply U|exact T|exact Hst].
  - rewrite <- Hf. apply T.
  - unfold table_ok. by rewrite (tr_srv _ _ _ _ _ T).
Qed.

(** The command is known: what the checks let through. *)
Lemma known_up s s1 id A K z k xs cm (Q : bool -> state -> Prop) :
  up s1 id A K z (3 + k) -> handled s s1 id A A -> flags (cl s1) = flags (cl s) -> arguments s1 A xs ->
  cdb (cl s1) = id -> cmd (cl s1) = Some cm -> lastcmd (cext (cl s1)) = Some cm -> cm ∈ command_table -> table_ok s1 ->
  has (flags (cl s1)) CLIENT_MULTI = false -> Z.of_nat (length aof_text) < SDS_LIMIT ->
  let r := if wrong_arity cm (Z.of_nat (length xs)) then (K, error_line (one_line (arity_text cm)))
      else if requirepass C && negb (authenticated (cext (cl s1))) then (K, noauth_text)
      else if disk_error C cm then (K, if aof_last_write_ok C then bgsave_text else aof_text)
      else if loading C && negb (has (cflags cm) CMD_LOADING) then (K, loading_text)
      else ref_dispatch (is_master s1) id cm xs K in
  (forall s' A', finished false s s' id A A' r.1 (z ++ said s r.2) k -> Q true s') ->
  wp (if wrong_arity cm (Z.of_nat (length xs)) then
        _ ← flagTransaction;
        _ ← addReplyErrorFormat C (arity_text cm);
        mret true
      else if requirepass C && negb (authenticated (cext (cl s1))) && negb (bool_decide (proc cm = PAuth)) then
        _ ← flagTransaction; _ ← addReply C (noautherr (shared C)); mret true
      else if disk_error C cm then
        _ ← flagTransaction;
        _ ← (if aof_last_write_ok C then addReply C (bgsaveerr (shared C))
          else
            e ← lift (sdsempty (junk (senv C)));
            s ← lift (sdscat (junk (senv C)) e aof_text);
            addReplySds C s);
        mret true
      else if loading C && negb (has (cflags cm) CMD_LOADING) then
        _ ← addReply C (loadingerr (shared C)); mret true
      else if has (flags (cl s1)) CLIENT_MULTI && queues cm then
        _ ← queueMultiCommand; _ ← addReply C (queued (shared C)); mret true
      else
        _ ← call C CMD_CALL_FULL;
        _ ← set_woff (master_repl_offset C);
        mret true) Q s1.
Proof.
  intros U Hh Hf Har Hid Hcm Hlast Hin Ht Hmulti Haof r HQ. subst r.
  pose proof (arguments_strings _ _ _ Har) as Hst. pose proof (sd_shared _ _ (up_std _ _ _ _ _ _ U)) as Hsh.
  assert (Z.of_nat (length (name cm)) < 2 ^ 31 /\ bool_decide (proc cm = PAuth) = false) as [Hname Hauth].
  { rewrite command_table_eq in Hin. repeat (apply elem_of_cons in Hin as [->|Hin]); [by vm_compute..|by apply elem_of_nil in Hin]. }
  rewrite Hauth, Hmulti, andb_true_r. cbn [andb].
  destruct (wrong_arity cm _) eqn:Hw.
  { apply wp_bind, flagTransaction_wp; [done|]. apply wp_bind. eapply (reply_finished 3 k s); [exact U|exact Hh|exact Hst|exact Hf|exact Ht| |].
    - apply addReplyErrorFormat_says. unfold arity_text, SDS_LIMIT. rewrite !length_app. cbn [str String.list_ascii_of_string fmap list_fmap length]. lia.
    - intros s' F. wp_step. by eapply HQ. }
  assert (up s1 id A K z (1 + (2 + k)) /\ forall s' y, finished false s s' id A A K (z ++ said s y) (2 + k) -> finished false s s' id A A K (z ++ said s y) k) as [U1 Hless].
  { split; [exact U|]. intros s' y [F1 F2 F3 F4 F5]. constructor; try done. eapply up_mono; [exact F1|lia]. }
  destruct (requirepass C && _).
  { apply wp_bind, flagTransaction_wp; [done|]. apply wp_bind. eapply (reply_finished 1 (2 + k) s); [exact U1|exact Hh|exact Hst|exact Hf|exact Ht| |].
    - apply (addReply_says C); [eapply keeps_avail; [exact U|apply (sr_noauth C _ Hsh)]|by vm_compute].
    - intros s' F. wp_step. by eapply HQ, Hless. }
  destruct (disk_error C cm).
  { apply wp_bind, flagTransaction_wp; [done|]. apply wp_bind. destruct (aof_last_write_ok C).
    - eapply (reply_finished 1 (2 + k) s); [exact U1|exact Hh|exact Hst|exact Hf|exact Ht| |].
      + apply (addReply_says C); [eapply keeps_avail; [exact U|apply (sr_bgsave C _ Hsh)]|by vm_compute].
      + intros s' F. wp_step. by eapply HQ, Hless.
    - destruct (sdsempty_rep (junk (senv C))) as (e & He & Hre). apply wp_bind. eapply wp_lift; [exact He|].
      destruct (sdscat_rep (junk (senv C)) e [] aof_text Hre Haof) as (sd & Hsd & Hrsd). apply wp_bind. eapply wp_lift; [exact Hsd|].
      eapply (reply_finished 1 (2 + k) s); [exact U1|exact Hh|exact Hst|exact Hf|exact Ht|by apply (addReplySds_says C)|].
      intros s' F. wp_step. by eapply HQ, Hless. }
  destruct (loading C && _).
  { apply wp_bind. eapply (reply_finished 1 (2 + k) s); [exact U1|exact Hh|exact Hst|exact Hf|exact Ht| |].
    - apply (addReply_says C); [eapply keeps_avail; [exact U|apply (sr_loading C _ Hsh)]|by vm_compute].
    - intros s' F. wp_step. by eapply HQ, Hless. }
  apply wp_bind. eapply (call_up s1 id A K z k xs cm); [exact U|exact Hid|exact Har|exact Hcm|exact Hlast|exact Hin|exact Hw|exact Ht|].
  intros s2 A2 [F1 F2 F3 F4 F5]. unfold set_woff. wp_step. wp_step. eapply HQ.
  assert (said s1 (ref_dispatch (is_master s1) id cm xs K).2 = said s (ref_dispatch (is_master s1) id cm xs K).2) as Hs.
  { unfold said. rewrite (talks_more (cl s) (cl s1)); [done|rewrite Hf; apply more_refl|apply Hh]. }
  rewrite Hs in F1. constructor; [by apply (alike_up s2)| |exact F3|rewrite <- Hf; exact F4|exact F5].
  eapply handled_trans; [exact Hh|]. eapply handled_trans; [exact F2|]. by apply alike_handled.
Qed.

Lemma processCommand_up s id A K z k xs x (Q : bool -> state -> Prop) :
  up s id A K z (3 + k) -> cdb (cl s) = id -> arguments s A xs -> xs !! 0%nat = Some x -> plain x ->
  has (flags (cl s)) CLIENT_MULTI = false -> table_ok s -> Z.of_nat (length aof_text) < SDS_LIMIT ->
  let r := ref_process (authenticated (cext (cl s))) (is_master s) id xs K in
  (forall s' A', finished (is_quit x) s s' id A A' r.1 (z ++ said s r.2) k -> Q (negb (is_quit x)) s') ->
  wp (processCommand C) Q s.
Proof.
  intros U Hid Har Hx Hp Hmulti Ht Haof r HQ. subst r. unfold ref_process in HQ. rewrite (nth_lookup_Some _ _ _ _ Hx) in HQ.
  pose proof (arguments_strings _ _ _ Har) as Hst.
  destruct (Forall2_lookup_r _ _ _ _ _ Har Hx) as (a & Ha & N). pose proof N as [(o & Ho & Hko) _ Hxl].
  unfold processCommand. apply wp_bind. eapply get_arg_wp; [exact Ha|]. apply wp_bind. eapply arg_chars_wp; [exact N|]. intros sdx Hsd.
  rewrite (quit_spec sdx x Hsd Hp). destruct (is_quit x) eqn:Hq.
  { apply wp_bind. eapply (says_up 1 (2 + k)); [exact U| |].
    - apply (addReply_says C); [eapply keeps_avail; [exact U|apply (sr_ok C _ (sd_shared _ _ (up_std _ _ _ _ _ _ U)))]|by vm_compute].
    - intros s1 U1 T1. unfold add_flag. wp_step. wp_step. apply (HQ _ A).
      assert (strings s1) as Hst1 by (eapply strings_trans; [apply U|exact T1|exact Hst]).
      constructor; [|eapply handled_trans; [by apply served_handled, trans_served|by apply alike_handled]|by apply (alike_strings s1)| |].
      + apply (alike_up s1); [done|]. eapply up_mono; [exact U1|lia].
      + destruct (tr_flags _ _ _ _ _ T1) as (e & Hfe & He). exists e. cbn. rewrite Hfe. split; [|done].
        rewrite <- !Z.lor_assoc. f_equal. apply Z.lor_comm.
      + unfold table_ok. cbn. by rewrite (tr_srv _ _ _ _ _ T1). }
  apply wp_bind. eapply get_object_wp; [exact Ho|]. apply wp_bind. eapply wp_lift; [by apply object_bytes_spec|].
  apply wp_bind. eapply lookupCommand_wp; [exact Ht|exact Hp|]. intros s1 Hal1 Hcl1 Hp1 Ht1.
  unfold set_command. apply wp_bind. wp_step. wp_step. wp_step. set (s2 := set_cl (set_cext _) _).
  assert (alike s s2) as Hal2 by (destruct Hal1; constructor; cbn; rewrite ?Hcl1; done).
  assert (handled s s2 id A A) as Hh2 by (apply alike_handled; try done; cbn; by rewrite ?Hcl1).
  pose proof (alike_up _ _ _ _ _ _ _ Hal2 U) as U2. pose proof (alike_arguments _ _ _ _ Hal2 Har) as Har2.
  assert (flags (cl s2) = flags (cl s)) as Hf2 by (cbn; by rewrite Hcl1).
  assert (table_ok s2) as Ht2 by exact Ht1.
  destruct (find_command x) as [cm|] eqn:Hfind.
  - assert (length (argv (cin (cl s2))) = length xs) as Hlen by (by rewrite <- (Forall2_length _ _ _ Har2)). rewrite Hlen.
    assert (authenticated (cext (cl s2)) = authenticated (cext (cl s))) as Hau by (cbn; by rewrite Hcl1).
    assert (is_master s2 = is_master s) as Hms by (unfold is_master; by rewrite Hf2).
    eapply (known_up s s2 id A K z k xs cm); [exact U2|exact Hh2|exact Hf2|exact Har2|cbn; by rewrite Hcl1|done|done| |exact Ht2|by rewrite Hf2|exact Haof|].
    + by eapply find_command_in.
    + rewrite Hau, Hms. exact HQ.
  - apply wp_bind, flagTransaction_wp; [by rewrite Hf2|].
    assert (strlen (Sds.buf sdx) = Some (length x) /\ take (length x) (Sds.buf sdx) = x) as [Hsl Htk].
    { destruct Hsd as (_ & tl & -> & _). split; [by apply strlen_app|by rewrite take_app_length]. }
    apply wp_bind. eapply wp_lift; [exact Hsl|]. cbn beta. rewrite Htk.
    apply wp_bind. eapply (reply_finished 3 k s s2); [exact U2|exact Hh2|by eapply alike_strings|exact Hf2|exact Ht2| |].
    + apply addReplyErrorFormat_says. rewrite !length_app. unfold SDS_LIMIT. cbn [str String.list_ascii_of_string fmap list_fmap length]. lia.
    + intros s' F. wp_step. by eapply HQ.
Qed.

(** ** Filling the table *)

Lemma populate_one_wp s cm f l (Q : unit -> state -> Prop) :
  command_flags (sflags cm) (cflags cm) = Some f -> plain (name cm) -> Z.of_nat (length l) < DICT_LIMIT ->
  find (fun c => same_name (name cm) (name c)) l = None ->
  holds_commands (seed C) (commands (srv s)) l -> holds_commands (seed C) (orig_commands (srv s)) l ->
  (forall d o, holds_commands (seed C) d (with_flags cm f :: l) -> holds_commands (seed C) o (with_flags cm f :: l) ->
     Q tt (set_srv (set_commands d o) s)) ->
  wp (populate_one C cm) Q s.
Proof.
  intros Hf Hp Hl Hn Hd Ho HQ. unfold populate_one. apply wp_bind. eapply wp_lift; [exact Hf|]. cbn beta zeta.
  apply wp_bind. unfold mk_casekey. destruct (decide _) as [Hpl|]; [|done]. eapply wp_lift; [done|]. wp_step.
  destruct (add_command (seed C) (with_flags cm f) (dict_can_resize C) _ _ l (CaseKey (name cm) Hpl) (with_flags cm f) Hd Hl
    (alloc_entry_fresh _) eq_refl Hn) as (d & Ed & Hd').
  destruct (add_command (seed C) (with_flags cm f) (dict_can_resize C) _ _ l (CaseKey (name cm) Hpl) (with_flags cm f) Ho Hl
    (alloc_entry_fresh _) eq_refl Hn) as (o & Eo & Ho').
  apply wp_bind. eapply wp_lift; [exact Ed|]. cbn beta iota. apply wp_bind. eapply wp_lift; [exact Eo|]. cbn beta iota.
  wp_step. apply wp_check; [done|]. by apply HQ.
Qed.

Lemma populate_wp s (Q : unit -> state -> Prop) :
  holds_commands (seed C) (commands (srv s)) [] -> holds_commands (seed C) (orig_commands (srv s)) [] ->
  (forall d o, holds_commands (seed C) d command_table -> holds_commands (seed C) o command_table -> Q tt (set_srv (set_commands d o) s)) ->
  wp (populateCommandTable C) Q s.
Proof.
  intros Hd Ho HQ. unfold populateCommandTable, redisCommandTable. cbn [for_each].
  apply wp_bind. eapply (populate_one_wp _ _ _ []); [reflexivity|by apply (bool_decide_unpack _); vm_compute|by vm_compute|done|exact Hd|exact Ho|]. intros d1 o1 Hd1 Ho1.
  apply wp_bind. eapply (populate_one_wp _ _ _ [cmd_get]); [reflexivity|by apply (bool_decide_unpack _); vm_compute|by vm_compute|done|exact Hd1|exact Ho1|]. intros d2 o2 Hd2 Ho2.
  apply wp_bind. eapply (populate_one_wp _ _ _ [cmd_set; cmd_get]); [reflexivity|by apply (bool_decide_unpack _); vm_compute|by vm_compute|done|exact Hd2|exact Ho2|]. intros d3 o3 Hd3 Ho3.
  apply wp_skip. assert ([cmd_del; cmd_set; cmd_get] ≡ₚ command_table) as Hperm.
  { rewrite command_table_eq. apply (Permutation_rev [cmd_del; cmd_set; cmd_get]). }
  apply (HQ d3 o3); by eapply holds_commands_perm; [exact Hperm|].
Qed.

End Spec.
End ServerSpec.
