(* ===== verification/ServerRun.v ===== *)
(** * Requests, from the table to the reply

    The table of the commands is filled and a request whose arguments have
    been read is answered: what [ServerSpec] proves, and an example of it. *)

From S2P Require Import Prelude Monad Util Sds SdsText Dict DictTypes DictSpec DictMap Object ObjectSpec State Db HeapSpec DbSpec DbRun Reply ReplySpec Commands Serving CommandSpec Multi Server ServerSpec Sample.
Import Monad Util Sds SdsText Dict DictTypes DictSpec DictMap Object ObjectSpec State Db HeapSpec DbSpec DbRun Reply ReplySpec Commands Serving CommandSpec Multi Server ServerSpec Sample.

Module ServerRun.

Section Run.
Context {P : Type} {C : config}.
Context {HC : sound_config C}.
Abbreviation state := (state P).
Implicit Types (s : state) (A : adb) (K : kv) (x z : bytes) (id k : nat).

(** The table: filled once at the start, it finds a command by its name
    whatever the case of the letters, with the flags its letters stand for,
    and nothing else. *)
Theorem populateCommandTable_fills s x :
  commands (srv s) = dictCreate -> orig_commands (srv s) = dictCreate -> plain x ->
  exists s1 s2, populateCommandTable C s = Some (s1, tt) /\ lookupCommand C x s1 = Some (s2, find_command x) /\
    find_command x = (if same_name x (str "get") then Some cmd_get
      else if same_name x (str "set") then Some cmd_set
      else if same_name x (str "del") then Some cmd_del else None) /\
    objects s2 = objects s /\ ks s2 = ks s /\ cl s2 = cl s.
Proof.
  intros Hc Ho Hx.
  destruct (populate_wp s (fun _ s1 => exists s2, lookupCommand C x s1 = Some (s2, find_command x) /\
    objects s2 = objects s /\ ks s2 = ks s /\ cl s2 = cl s)) as (s1 & [] & E1 & s2 & E2 & H).
  - rewrite Hc. apply no_commands.
  - rewrite Ho. apply no_commands.
  - intros d o Hd _. destruct (lookupCommand_wp (set_srv (set_commands d o) s) x
      (fun r s2 => r = find_command x /\ objects s2 = objects s /\ ks s2 = ks s /\ cl s2 = cl s)) as (s2 & r & E2 & -> & H); [exact Hd|exact Hx| |by exists s2].
    intros s' [H1 H2 _ _] H3 _ _. done.
  - exists s1, s2. split; [exact E1|]. split; [exact E2|]. split; [|exact H].
    unfold find_command. rewrite command_table_eq. reflexivity.
Qed.

(** C2. A request of a client that is not in a transaction, whose first word has
    no null byte, is answered as on a store of strings: QUIT closes the
    connection; a name that is not in the table, a wrong number of arguments, a
    client that has not given the password, a disk that does not take the data
    and a server that is loading are errors that change nothing; otherwise SET,
    GET or DEL acts on the database exactly as on the store, expired names
    being gone, and the bytes of its reply are added to those the client is to
    receive.  The arguments may be replaced by objects of the same strings; no
    reference is lost and nobody else's objects change. *)
Theorem processCommand_refines_store s id A K z k xs x :
  up s id A K z (3 + k) -> cdb (cl s) = id -> arguments s A xs -> xs !! 0%nat = Some x -> plain x ->
  has (flags (cl s)) CLIENT_MULTI = false -> table_ok s -> Z.of_nat (length aof_text) < SDS_LIMIT ->
  exists s' A', processCommand C s = Some (s', negb (is_quit x)) /\
    let '(K', reply) := ref_process (authenticated (cext (cl s))) (is_master s) id xs K in
    finished (is_quit x) s s' id A A' K' (z ++ said s reply) k.
Proof.
  intros U Hid Har Hx Hp Hm Ht Hl. set (r := ref_process _ _ _ _ _).
  destruct (processCommand_up s id A K z k xs x (fun b s' => b = negb (is_quit x) /\
    exists A', finished (is_quit x) s s' id A A' r.1 (z ++ said s r.2) k) U Hid Har Hx Hp Hm Ht Hl) as (s' & b & E & -> & A' & F).
  { intros s' A' F. split; [done|]. by exists A'. }
  exists s', A'. split; [exact E|]. by destruct r.
Qed.

End Run.

(** ** The small server *)

#[local] Existing Instance demo_config.

Section Demo.
Context (args : list (addr * bytes)) (Hargs : demo_args args) (argv : list addr) (Hfew : Z.of_nat (length argv) <= 1000) (Hnodup : NoDup argv) (Hin : argv ⊆ args.*1).

Abbreviation start := (demo args argv).

Definition demo_adb : adb := ADb ∅ ∅ (ctr (ks (demo [] []))).
Definition demo_kv : kv := ADb ∅ ∅ (ctr (ks (demo [] []))).

Lemma rocc_nodup a (l : list addr) : NoDup l -> rocc a l = if decide (a ∈ l) then 1 else 0.
Proof.
  induction 1 as [|b l Hb Hl IH]; [done|]. rewrite rocc_cons, IH.
  destruct (decide (a = b)) as [->|Hab]; destruct (decide (_ ∈ l)); destruct (decide (_ ∈ b :: l)) as [H|H];
    rewrite ?elem_of_cons in H; try done; tauto.
Qed.

Lemma demo_arg a : a ∈ argv -> exists x, (a, x) ∈ args.
Proof. intros Ha. apply Hin in Ha. apply list_elem_of_fmap in Ha as ([b x] & -> & H). by exists x. Qed.

Lemma demo_slack a : slack start demo_adb a = count (demo_heap args) a - (if decide (a ∈ argv) then 1 else 0).
Proof.
  unfold slack, replies, args_of. cbn [amap demo_adb cl demo demo_client cout reply cin State.argv objects]. rewrite vocc_empty, (rocc_nodup a argv Hnodup). unfold rocc. cbn. lia.
Qed.

Lemma demo_slack_range a : 0 <= slack start demo_adb a <= 1.
Proof.
  rewrite demo_slack. pose proof (demo_count args a). destruct (decide (a ∈ argv)) as [Ha|]; [|lia].
  destruct (demo_arg a Ha) as [x Hx]. rewrite (demo_has args Hargs a x); [lia|]. apply elem_of_app. by left.
Qed.

(** The shared objects are not among the arguments. *)
Lemma demo_keeps a x : (a, x) ∈ shared_texts -> keeps start demo_adb a x.
Proof.
  intros Hs. pose proof (demo_shared_in args a x Hs) as Ht. split; [exists (demo_string x); split; [by apply demo_lookup|by eapply demo_string_obj]|].
  rewrite demo_slack, (demo_has args Hargs a x Ht). rewrite decide_False; [done|]. intros Ha. apply Hin in Ha.
  destruct Hargs as [Hn _]. unfold demo_texts in Hn. rewrite fmap_app in Hn. apply NoDup_app in Hn as (_ & Hd & _).
  apply (Hd a Ha). apply list_elem_of_fmap. by exists (a, x).
Qed.

Lemma demo_integers : shared_ok sample_env (demo_heap args).
Proof. unfold demo_heap. apply (createSharedIntegers_ok sample_env 100). unfold sample_env. cbn [integers]. exact eq_refl. Qed.

Lemma demo_integer_far i a : integers sample_env !! i = Some a -> 100 <= a.
Proof.
  cbn [integers sample_env]. rewrite list_lookup_fmap. destruct (seqZ 0 OBJ_SHARED_INTEGERS !! i) as [j|] eqn:Hj; [|done].
  apply lookup_seqZ in Hj. cbn. intros [= <-]. lia.
Qed.

Lemma demo_std : std start demo_adb.
Proof.
  constructor.
  - constructor; try (apply demo_keeps, elem_of_app; left; by repeat (first [left; reflexivity|right])).
    + intros n Hn. destruct (demo_headers 20 42 n Hn) as [H1 H2]. exists (20 + n). split; [exact H1|]. apply demo_keeps, elem_of_app. right. apply elem_of_app. by left.
    + intros n Hn. destruct (demo_headers 52 36 n Hn) as [H1 H2]. exists (52 + n). split; [exact H1|]. apply demo_keeps, elem_of_app. right. apply elem_of_app. by right.
  - exists (str "DEL"). apply demo_keeps, elem_of_app. left. by repeat (first [left; reflexivity|right]).
  - apply demo_integers.
  - intros i a Ha. destruct demo_integers as [_ Hi]. destruct (Hi i a Ha) as (o & Ho & H1 & H2 & H3 & H4). exists o.
    split; [exact Ho|]. split; [exact H1|]. split; [exact H2|]. split; [exact H3|].
    rewrite demo_slack, (count_Some _ _ _ Ho), decide_False; [lia|]. intros Hc. destruct (demo_arg a Hc) as [x Hx].
    pose proof (demo_integer_far i a Ha). destruct Hargs as [_ Hs]. rewrite Forall_forall in Hs.
    destruct (Hs (a, x)) as [H100 _]; [apply elem_of_app; by left|]. cbn in H100. lia.
Qed.

Lemma demo_up k : Z.of_nat k <= 1000 -> up start 0 demo_adb demo_kv [] k.
Proof.
  intros Hk. constructor; [|exact demo_std| |by vm_compute].
  - constructor.
    + constructor.
      * eexists. split; [exact eq_refl|]. split; apply map_rep_create.
      * exact eq_refl.
      * intros b w Hb. exact (False_ind _ (lookup_empty_Some _ _ Hb)).
      * intros b w Hb. exact (False_ind _ (lookup_empty_Some _ _ Hb)).
      * intros a. pose proof (demo_count args a). unfold spare. cbn [amap demo_adb objects demo]. rewrite vocc_empty. lia.
    + constructor; [intros b; constructor|exact eq_refl|exact eq_refl].
    + exact (demo_pending args argv).
    + intros a. pose proof (demo_slack_range a). unfold SLACK_LIMIT. lia.
    + change (args_of start) with argv. unfold ARGS_LIMIT. lia.
  - constructor; [change (base.size (amap demo_adb)) with 0%nat; unfold DICT_LIMIT; lia|change (replies start) with (@nil Z); unfold LIST_LIMIT; cbn [length]; lia].
Qed.

(** The arguments, by their strings. *)
Lemma demo_arguments xs : Forall2 (fun a x => (a, x) ∈ args) argv xs -> arguments start demo_adb xs.
Proof.
  intros H. unfold arguments. change (args_of start) with argv. apply Forall2_same_length_lookup_2; [by eapply Forall2_length|].
  intros i a x Ha Hx. pose proof (Forall2_lookup_lr _ _ _ _ _ _ H Ha Hx) as Hin'.
  assert ((a, x) ∈ demo_texts args) as Ht by (apply elem_of_app; by left). destruct Hargs as [_ Hs]. rewrite Forall_forall in Hs.
  destruct (Hs _ Ht) as [_ Hlen]. cbn in Hlen. constructor; [|unfold kept_ref|lia].
  - exists (demo_string x). split; [by apply demo_lookup|]. split; [by eapply demo_string_obj|]. split; [done|unfold is_int; lia].
  - pose proof (demo_slack_range a). pose proof (rocc_pos a argv (list_elem_of_lookup_2 _ _ _ Ha)). change (args_of start) with argv. lia.
Qed.

End Demo.

Lemma populateCommandTable_fills_witness :
  plain (str "Get") /\
  exists s1 s2, populateCommandTable demo_config (demo [] []) = Some (s1, tt) /\ lookupCommand demo_config (str "Get") s1 = Some (s2, Some cmd_get).
Proof.
  assert (plain (str "Get")) as Hp by (by apply (bool_decide_unpack _); vm_compute). split; [exact Hp|].
  destruct (populateCommandTable_fills (demo [] []) (str "Get") eq_refl eq_refl Hp) as (s1 & s2 & E1 & E2 & _).
  exists s1, s2. split; [exact E1|]. rewrite E2. by vm_compute.
Defined.

(** A request that stores a string for five seconds. *)
Definition request_args : list (addr * bytes) := [(9, str "SeT"); (10, str "k"); (11, str "v"); (12, str "ex"); (13, str "5")].

Definition request (d o : dict casekey redisCommand) : state unit :=
  set_srv (set_commands d o) (demo request_args [9; 10; 11; 12; 13]).

Definition request_words : list bytes := [str "SeT"; str "k"; str "v"; str "ex"; str "5"].

Lemma request_result : let r := ref_process true false 0 request_words demo_kv in
  r.2 = str "+OK" ++ CRLF /\ amap r.1 !! str "k" = Some (VStr (str "v")) /\ aexp r.1 !! str "k" = Some 6000.
Proof. by vm_compute. Qed.

Lemma processCommand_refines_store_witness :
  exists d o, holds_commands (seed demo_config) d command_table /\
  exists s' A' K', processCommand demo_config (request d o) = Some (s', true) /\
    up s' 0 A' K' (str "+OK" ++ CRLF) 100 /\ amap K' !! str "k" = Some (VStr (str "v")) /\ aexp K' !! str "k" = Some 6000.
Proof.
  destruct (populate_wp (demo [] []) (fun _ s1 => exists d o, holds_commands (seed demo_config) d command_table /\ s1 = set_srv (set_commands d o) (demo [] [])))
    as (_ & _ & _ & d & o & Hd & _); [apply no_commands..|by eauto|].
  exists d, o. split; [exact Hd|].
  assert (demo_args request_args) as Ha by (apply (bool_decide_unpack _); vm_compute; exact I).
  assert (up (request d o) 0 demo_adb demo_kv [] (3 + 100)) as U.
  { apply (alike_up (demo request_args [9; 10; 11; 12; 13])); [done|]. apply demo_up; [exact Ha|by vm_compute|by apply (bool_decide_unpack _); vm_compute|by apply (bool_decide_unpack _); vm_compute|lia]. }
  assert (arguments (request d o) demo_adb request_words) as Har.
  { apply (alike_arguments (demo request_args [9; 10; 11; 12; 13])); [done|]. apply demo_arguments; [exact Ha|by apply (bool_decide_unpack _); vm_compute|by apply (bool_decide_unpack _); vm_compute|].
    by apply (bool_decide_unpack _); vm_compute. }
  destruct (processCommand_refines_store (request d o) 0 demo_adb demo_kv [] 100 _ (str "SeT") U eq_refl Har eq_refl) as (s' & A' & E & F);
    [by apply (bool_decide_unpack _); vm_compute|reflexivity|exact Hd|by vm_compute|].
  destruct (ref_process _ _ _ _ _) as [K' reply] eqn:Er. exists s', A', K'. split; [exact E|].
  pose proof request_result as H. change (ref_process _ _ _ _ _) with (ref_process true false 0 request_words demo_kv) in Er.
  rewrite Er in H. cbn [fst snd] in H. destruct H as (-> & H). split; [|exact H]. exact (fi_up _ _ _ _ _ _ _ _ _ F).
Defined.

End ServerRun.
