(* ===== verification/ProtoSpec.v ===== *)
(** * Requests are read whatever the pieces they come in (src/networking.c)

    A request in the format with counts is a header with the number of its
    arguments and then every argument with its length.  What the client has
    sent is a list of such requests, the first of them partly read; the
    functions that read take it forward, and wait when it stops short. *)

From S2P Require Import Prelude Monad Util Sds SdsText Dict DictTypes DictSpec DictMap Object ObjectSpec State Db HeapSpec DbSpec DbRun Reply ReplySpec ReplyRun Commands Serving CommandSpec Multi Server ServerSpec Proto.
Import Monad Util Sds SdsText Dict DictTypes DictSpec DictMap Object ObjectSpec State Db HeapSpec DbSpec DbRun Reply ReplySpec ReplyRun Commands Serving CommandSpec Multi Server ServerSpec Proto.

Module ProtoSpec.

(** ** The bytes of a request *)

Definition encode_args (xs : list bytes) : bytes := concat (bulk <$> xs).

Definition encode_request (xs : list bytes) : bytes := header 42 (Z.of_nat (length xs)) ++ encode_args xs.

Definition encode_requests (rs : list (list bytes)) : bytes := concat (encode_request <$> rs).

(** ** Strings *)

Lemma byte_range_from x n : 0 <= n <= Z.of_nat (length x) -> byte_range x n (-1) = drop (Z.to_nat n) x.
Proof.
  intros Hn. unfold byte_range, range_index. set (L := Z.of_nat (length x)) in *.
  rewrite take_ge; [|rewrite length_drop].
  - f_equal. repeat case_match; lia.
  - repeat case_match; lia.
Qed.

(** Cutting the end off. *)
Lemma sdsIncrLen_cut s x n : sds_rep s x -> (0 < n <= length x)%nat -> Z.of_nat (length x) < 2 ^ 31 ->
  exists s', sdsIncrLen s (- Z.of_nat n) = Some s' /\ sds_rep s' (take (length x - n) x).
Proof.
  intros Hs Hn Hlim. destruct (sds_truncate s x (length x - n) Hs) as (s' & Hw & Hr & _); [lia|]. exists s'. split; [|done].
  pose proof (sds_rep_hdr s x Hs) as Hh. pose proof (sds_rep_len s x Hs) as Hl. pose proof (sds_len_alloc s Hh) as Hla.
  replace (Z.of_nat (length x - n)) with (sdslen s + - Z.of_nat n) in Hw by lia. rewrite <- Hw. clear Hw Hr.
  set (k := Z.of_nat n) in *. assert (0 < k <= sdslen s /\ sdslen s < 2 ^ 31) as Hk by lia. clearbody k. clear Hl Hn Hlim Hs.
  unfold sdsIncrLen. destruct (sdssetlen_spec s (sdslen s + - k)) as (_ & Ht2 & Hl2 & _); [done|unfold sds_cap in *; case_match; lia|].
  destruct (Z.eqb_spec (sds_type s) 0) as [E|Hne].
  - rewrite E. rewrite wrapu_small by ints. replace (0 <? - k) with false by lia. replace (- k <? 0) with true by lia. cbn [andb orb].
    rewrite Z.geb_leb. replace (- - k <=? sdslen s) with true by lia. unfold sdssetlen in *. rewrite E in *. by rewrite Ht2.
  - rewrite (sdsinclen_setlen s (- k) Hh Hne). set (s3 := sdssetlen s (sdslen s + - k)) in *. clearbody s3.
    unfold sdsalloc, sdslen in *. rewrite Ht2 in *.
    destruct (sds_hdr_cases s Hh) as [E|[E|[E|[E|E]]]]; rewrite E in *; [done|..]; cbn iota in *;
      rewrite ?(wrapu_small _ (- - k)) by ints; replace (- k <? 0) with true by lia; rewrite !Z.geb_leb;
      replace (- - k <=? hlen s) with true by lia; replace (0 <=? - k) with false by lia; cbn [andb orb]; by rewrite Ht2, Hl2.
Qed.

Lemma decimal_line v : is_llong v -> Forall (fun c => c <> 13 /\ c <> 0) (decimal v).
Proof.
  intros Hv. unfold is_signed in Hv. unfold decimal. assert (forall z, 0 <= z < 10 ^ 64 -> Forall (fun c => c <> 13 /\ c <> 0) (udecimal z)) as H.
  { intros z Hz. eapply Forall_impl; [by apply udecimal_digits|]. intros c. unfold is_digit. lia. }
  destruct (Z.ltb_spec v 0); [constructor; [done|]|]; apply H; lia.
Qed.

(** The end of a line is found when it has come. *)
Lemma strchr_line l tl : Forall (fun c => c <> 13 /\ c <> 0) l -> strchr (l ++ 13 :: tl) 13 = Some (Some (length l)).
Proof.
  induction 1 as [|c l [H1 H2] Hl IH]; [done|]. cbn [app strchr length]. rewrite IH.
  by rewrite !(proj2 (Z.eqb_neq _ _)).
Qed.

Lemma strchr_none l tl : Forall (fun c => c <> 13 /\ c <> 0) l -> strchr (l ++ 0 :: tl) 13 = Some None.
Proof.
  induction 1 as [|c l [H1 H2] Hl IH]; [done|]. cbn [app strchr]. rewrite IH.
  by rewrite !(proj2 (Z.eqb_neq _ _)).
Qed.

(** A line [l ++ CRLF] of which [y] has come. *)
Inductive line_state (l y : bytes) : Prop :=
| LineWhole y' : y = l ++ CRLF ++ y' -> line_state l y
| LineShort : (length y < length l + 2)%nat ->
    (forall tl, exists r, strchr (y ++ 0 :: tl) 13 = Some r /\ forall n, r = Some n -> (length y < n + 2)%nat) -> line_state l y.

Lemma line_cases l y u t : Forall (fun c => c <> 13 /\ c <> 0) l -> y ++ u = (l ++ CRLF) ++ t -> line_state l y.
Proof.
  intros Hl E. destruct (decide (length l + 2 <= length y)%nat) as [Hy|Hy].
  { destruct (app_eq_app _ _ _ _ E) as (v & [[E1 E2]|[E1 E2]]).
    - apply (LineWhole l y v). by rewrite E1, <- app_assoc.
    - assert (v = []) as ->. { apply (f_equal length) in E1. rewrite !length_app in E1. cbn in E1. destruct v; [done|cbn in *; lia]. }
      rewrite app_nil_r in E1. apply (LineWhole l y []). by rewrite app_nil_r. }
  apply LineShort; [lia|]. intros tl.
  destruct (decide (length y <= length l)%nat) as [Hle|Hgt].
  - exists None. split; [|done]. apply strchr_none. assert (y = take (length y) l) as ->.
    { apply (f_equal (take (length y))) in E. by rewrite take_app_length, <- app_assoc, take_app_le in E. }
    by apply Forall_take.
  - exists (Some (length l)). split; [|intros n [= <-]; lia]. assert (y = l ++ [13]) as ->.
    { apply (f_equal (take (length y))) in E. rewrite take_app_length in E. rewrite E, <- app_assoc.
      rewrite take_app_ge by lia. f_equal. replace (length y - length l)%nat with 1%nat by lia. done. }
    rewrite <- app_assoc. cbn [app]. by apply strchr_line.
Qed.

Lemma line_number_spec pre p n rest pos newline : is_llong n -> pos = Z.of_nat (length pre) ->
  newline = pos + Z.of_nat (length (p :: decimal n)) -> line_number (pre ++ (p :: decimal n) ++ rest) pos newline = Some (Some n).
Proof.
  intros Hn -> ->. unfold line_number.
  replace (pre ++ (p :: decimal n) ++ rest) with ((pre ++ [p]) ++ decimal n ++ rest) by (by rewrite <- app_assoc).
  rewrite rdn_app by (rewrite ?length_app; cbn [length]; lia). cbn [mbind option_bind]. by rewrite string2ll_decimal.
Qed.

Section Spec.
Context {P : Type} {C : config}.
Context {HC : sound_config C}.
Abbreviation state := (state P).
Implicit Types (s : state) (a : addr) (A : adb) (K : kv) (x y z u t : bytes) (id k : nat) (i : cinput).

(** ** What reading leaves alone *)

(** The input of the client changes and its arguments come and go; nobody
    else loses a reference or an object. *)
Record fed s s' A : Prop := Fed {
  fe_slack : forall a, slack s' A a = slack s A a;
  fe_kept : kept (objects s) (objects s') (fun a => 0 < count (objects s) a - rocc a (args_of s));
  fe_ks : ks s' = ks s;
  fe_srv : srv s' = srv s;
  fe_client : set_cin (fun _ => cin (cl s)) (cl s') = cl s
}.

Lemma fed_client s s' A : fed s s' A -> cl s' = set_cin (fun _ => cin (cl s')) (cl s).
Proof. intros [_ _ _ _ H]. rewrite <- H. by destruct (cl s'). Qed.

Lemma fed_replies s s' A : fed s s' A -> replies s' = replies s.
Proof. intros F. unfold replies. by rewrite (fed_client _ _ _ F). Qed.

Lemma fed_rest s s' A a : fed s s' A -> count (objects s') a - rocc a (args_of s') = count (objects s) a - rocc a (args_of s).
Proof. intros F. pose proof (fe_slack _ _ _ F a) as H. unfold slack in H. rewrite (fed_replies _ _ _ F) in H. lia. Qed.

Lemma fed_refl s A : fed s s A.
Proof. constructor; try done; [|by destruct (cl s)]. intros a o _ Ho. exists o. split; [done|apply same_value_refl]. Qed.

Lemma fed_trans s1 s2 s3 A : fed s1 s2 A -> fed s2 s3 A -> fed s1 s3 A.
Proof.
  intros F G. pose proof (fun a => fed_rest _ _ _ a F) as Hr. pose proof (fed_client _ _ _ F) as Hc.
  destruct F as [F1 F2 F3 F4 F5], G as [G1 G2 G3 G4 G5]. constructor; try congruence.
  - eapply kept_all_trans; [exact F2|]. intros a o Ha. apply G2. by rewrite Hr.
  - rewrite Hc in G5. apply (f_equal (set_cin (fun _ => cin (cl s1)))) in G5.
    destruct (cl s3), (cl s1). exact G5.
Qed.

Lemma fed_up s s' id A K z k : fed s s' A -> Z.of_nat (length (args_of s')) <= ARGS_LIMIT -> up s id A K z k -> up s' id A K z k.
Proof.
  intros F Hl [[Hdb Hsim Hout Hsl Har] Hstd [R1 R2] Hid]. pose proof (fed_replies _ _ _ F) as Hr. pose proof (fun a => fed_rest _ _ _ a F) as Hrest.
  pose proof (fed_client _ _ _ F) as Hc. destruct F as [F1 F2 F3 F4 F5].
  assert (forall a, 0 <= vocc a (amap A) /\ 0 <= rocc a (replies s) /\ 0 <= rocc a (args_of s) /\ 0 <= rocc a (args_of s') /\ 0 <= slack s A a) as Hpos.
  { intros a. split_and!; [apply vocc_nonneg|apply rocc_nonneg..|apply Hsl]. }
  assert (forall b a, amap A !! b = Some a -> 0 < count (objects s) a - rocc a (args_of s)) as Hmap.
  { intros b a Ha. pose proof (vocc_pos a b _ Ha). specialize (Hpos a). unfold slack in Hpos. lia. }
  constructor; [|apply (std_unchanged s s' A A); [exact F1| |exact Hstd]|constructor; by rewrite ?Hr|done].
  2:{ intros a o Ha. apply F2. specialize (Hpos a). unfold slack in *. lia. }
  constructor; [| | |by intros a; rewrite F1|done].
  - destruct Hdb as [D1 D2 D3 D4 D5]. constructor; rewrite ?F3; try done.
    + intros b a Ha. destruct (D4 b a Ha) as (o & Ho & Hf). destruct (F2 a o (Hmap b a Ha) Ho) as (o' & Ho' & Hv). exists o'. split; [done|]. by rewrite (freeable_same _ _ Hv).
    + intros a. specialize (Hpos a). specialize (Hrest a). unfold spare, slack in *. lia.
  - eapply sim_kept; [|exact Hsim]. intros b a o Ha Ho. by apply (F2 a o (Hmap b a Ha)).
  - eapply pending_same; [apply (pending_heap C s z (objects s') Hout)|done|by cbn; rewrite Hc].
    + intros a o Ha Ho. apply F2; [|done]. pose proof (rocc_pos a _ Ha). specialize (Hpos a). unfold slack in Hpos. lia.
    + intros a. specialize (Hpos a). specialize (Hrest a). unfold slack in Hpos. lia.
Qed.

(** The input alone changes. *)
Definition with_cin i s : state := set_cl (set_cin (fun _ => i)) s.

Lemma with_cin_fed i s A : argv i = argv (cin (cl s)) -> fed s (with_cin i s) A.
Proof.
  intros Hi. constructor; try done; [|intros a o _ Ho; exists o; split; [done|apply same_value_refl]|by cbn; destruct (cl s)].
  intros a. unfold slack, args_of, replies. cbn. by rewrite Hi.
Qed.

Lemma with_cin_arguments i s A xs : argv i = argv (cin (cl s)) -> arguments s A xs -> arguments (with_cin i s) A xs.
Proof. intros Hi. by apply alike_arguments. Qed.

Lemma set_in_wp f s (Q : unit -> state -> Prop) : Q tt (with_cin (f (cin (cl s))) s) -> wp (set_in f) Q s.
Proof. intros HQ. unfold set_in. wp_step. exact HQ. Qed.

Lemma get_querybuf_wp s (Q : sds -> state -> Prop) : Q (querybuf (cin (cl s))) s -> wp get_querybuf Q s.
Proof. intros HQ. unfold get_querybuf. wp_step. by wp_step. Qed.

Definition with_querybuf q i : cinput := CInput q (reqtype i) (multibulklen i) (bulklen i) (argv i).

Lemma trim_querybuf_wp s y pos (Q : unit -> state -> Prop) :
  sds_rep (querybuf (cin (cl s))) y -> 0 <= pos <= Z.of_nat (length y) -> Z.of_nat (length y) < 2 ^ 31 ->
  (forall q, sds_rep q (drop (Z.to_nat pos) y) -> Q tt (with_cin (with_querybuf q (cin (cl s))) s)) -> wp (trim_querybuf pos) Q s.
Proof.
  intros Hq Hpos Hl HQ. unfold trim_querybuf. apply wp_bind, get_querybuf_wp.
  destruct (sdsrange_rep _ y pos (-1) Hq Hl) as (q & Hr & Hrep); [ints; lia..|]. rewrite byte_range_from in Hrep by done.
  apply wp_bind. eapply wp_lift; [rewrite wraps_small by ints; exact Hr|]. unfold set_querybuf. apply set_in_wp. by apply HQ.
Qed.

Lemma trim_if_wp s y pos (Q : unit -> state -> Prop) :
  sds_rep (querybuf (cin (cl s))) y -> 0 <= pos <= Z.of_nat (length y) -> Z.of_nat (length y) < 2 ^ 31 ->
  (forall q, sds_rep q (drop (Z.to_nat pos) y) -> Q tt (with_cin (with_querybuf q (cin (cl s))) s)) ->
  wp (if negb (pos =? 0) then trim_querybuf pos else skip) Q s.
Proof.
  intros Hq Hpos Hl HQ. destruct (Z.eqb_spec pos 0) as [->|Hn]; cbn [negb]; [|by eapply trim_querybuf_wp].
  apply wp_skip. specialize (HQ (querybuf (cin (cl s))) Hq).
  destruct s as [? ? c ? ? ?]; destruct c as [? ? ? ? ? ? ? ? i ? ? ?]; destruct i. exact HQ.
Qed.

(** ** The length of an argument *)

Definition SMALL_BUFFER : Z := PROTO_INLINE_MAX_SIZE.
Definition ARG_LIMIT : Z := 512 * 1024 * 1024.

Lemma header_line p n : header p n = (p :: decimal n) ++ CRLF.
Proof. done. Qed.

Lemma read_bulklen_wp s pos x y u t z (Q : progress -> state -> Prop) : let i := cin (cl s) in
  sds_rep (querybuf i) z -> drop (Z.to_nat pos) z = y -> 0 <= pos <= Z.of_nat (length z) -> Z.of_nat (length z) <= SMALL_BUFFER ->
  Z.of_nat (length x) <= ARG_LIMIT -> y ++ u = bulk x ++ t ->
  ((length y < length (header 36 (Z.of_nat (length x))))%nat -> Q (Wait pos) s) ->
  (forall q' z' pos' y', y = header 36 (Z.of_nat (length x)) ++ y' -> sds_rep q' z' -> drop (Z.to_nat pos') z' = y' ->
     0 <= pos' <= Z.of_nat (length z') -> (length z' <= length z)%nat ->
     Q (Go pos') (with_cin (CInput q' (reqtype i) (multibulklen i) (Z.of_nat (length x)) (argv i)) s)) ->
  wp (read_bulklen C pos) Q s.
Proof.
  intros i Hq Hy Hpos Hz Hx E HW HG. unfold SMALL_BUFFER, PROTO_INLINE_MAX_SIZE, ARG_LIMIT in *.
  set (n := Z.of_nat (length x)) in *. assert (is_llong n) as Hn by ints.
  assert (line_state (36 :: decimal n) y) as Hls.
  { apply (line_cases _ y u (x ++ CRLF ++ t)); [constructor; [done|by apply decimal_line]|]. rewrite E. unfold bulk. by rewrite header_line, <- !app_assoc. }
  pose proof Hq as (_ & tl & Hb & Hl & _). unfold read_bulklen. apply wp_bind, get_querybuf_wp. fold i.
  assert (drop (Z.to_nat pos) (Sds.buf (querybuf i)) = y ++ 0 :: tl) as Hd by (rewrite Hb, drop_app_le by lia; by rewrite Hy).
  assert (Z.of_nat (length y) = Z.of_nat (length z) - pos) as Hly by (rewrite <- Hy, length_drop; lia).
  rewrite Hd, Hl. rewrite wraps_small by ints. destruct Hls as [y' Ey|Hsh Hstr].
  - rewrite Ey. assert (strchr (((36 :: decimal n) ++ CRLF ++ y') ++ 0 :: tl) 13 = Some (Some (length (36 :: decimal n)))) as Hs.
    { rewrite <- !app_assoc. cbn [app CRLF]. apply (strchr_line (36 :: decimal n)). constructor; [done|by apply decimal_line]. }
    apply wp_bind. eapply wp_lift; [exact Hs|]. cbn beta iota zeta.
    set (nl := pos + Z.of_nat (length (36 :: decimal n))).
    assert (Z.of_nat (length z) = nl + 2 + Z.of_nat (length y')) as Hlz.
    { subst nl. rewrite Ey, !length_app in Hly. change (length CRLF) with 2%nat in Hly. lia. }
    rewrite Z.gtb_ltb. replace (Z.of_nat (length z) - 2 <? nl) with false by lia.
    assert (Sds.buf (querybuf i) = take (Z.to_nat pos) z ++ (36 :: decimal n) ++ CRLF ++ y' ++ 0 :: tl) as Hbuf.
    { rewrite Hb, <- (take_drop (Z.to_nat pos) z) at 1. rewrite Hy, Ey. by rewrite <- !app_assoc. }
    assert (Z.of_nat (length (take (Z.to_nat pos) z)) = pos) as Htk by (rewrite length_take; lia).
    assert (Sds.buf (querybuf i) !! Z.to_nat pos = Some 36) as H0.
    { rewrite Hbuf. apply list_lookup_middle. lia. }
    apply wp_bind. eapply wp_lift; [exact H0|]. cbn [Z.eqb Pos.eqb negb]. apply wp_bind. eapply wp_lift.
    { rewrite Hbuf. apply line_number_spec; [exact Hn|by rewrite Htk|done]. }
    cbn beta iota. rewrite Z.gtb_ltb. replace (n <? 0) with false by lia. replace (512 * 1024 * 1024 <? n) with false by lia. cbn [orb].
    assert (drop (Z.to_nat (nl + 2)) z = y') as Hdrop.
    { rewrite <- (take_drop (Z.to_nat pos) z), Hy, Ey, (app_assoc (36 :: decimal n)), app_assoc.
      rewrite drop_app_ge; rewrite !length_app; change (length CRLF) with 2%nat; [|lia].
      replace (_ - _)%nat with 0%nat by lia. by rewrite drop_0. }
    apply wp_bind. destruct (n >=? PROTO_MBULK_BIG_ARG).
    + apply wp_bind. eapply (trim_querybuf_wp s z); [exact Hq|lia|ints; lia|]. intros q1 Hq1. rewrite Hdrop in Hq1.
      apply wp_bind, get_querybuf_wp. cbn [cin cl with_cin set_cl set_cin with_querybuf querybuf].
      assert (forall q, sds_rep q y' -> wp (mret 0) (fun a s' => wp (_ ← set_bulklen n; mret (Go a)) Q s') (with_cin (with_querybuf q i) s)) as Hfin.
      { intros q Hqr. wp_step. apply wp_bind. unfold set_bulklen. apply set_in_wp. wp_step.
        apply (HG q y' 0 y'); [by rewrite Ey, header_line, <- app_assoc|done|done|lia|lia]. }
      rewrite (sds_rep_len q1 y' Hq1). destruct (_ <? _) eqn:Hlt.
      * rewrite (wrapu_small 64) in Hlt by ints.
        destruct (sdsMakeRoomFor_room (z := 0) (junk (senv C)) q1 y' (n + 2 - Z.of_nat (length y')) Hq1) as (q2 & E2 & Hq2 & _); [lia|unfold SDS_LIMIT; lia|].
        apply wp_bind. apply wp_bind. eapply wp_lift; [exact E2|]. unfold set_querybuf. apply set_in_wp. by apply (Hfin q2).
      * apply wp_bind, wp_skip. by apply (Hfin q1).
    + wp_step. apply wp_bind. unfold set_bulklen. apply set_in_wp. wp_step.
      apply (HG (querybuf i) z (nl + 2) y'); [by rewrite Ey, header_line, <- app_assoc|done|done|lia|lia].
  - destruct (Hstr tl) as (r & Hr & Hn'). apply wp_bind. eapply wp_lift; [exact Hr|].
    assert (wp (mret (Wait pos)) Q s) as Hw by (wp_step; apply HW; rewrite header_line, length_app; exact Hsh).
    destruct r as [nl|]; rewrite Z.gtb_ltb.
    + specialize (Hn' nl eq_refl). replace (Z.of_nat (length z) - 2 <? pos + Z.of_nat nl) with true by lia. exact Hw.
    + unfold PROTO_INLINE_MAX_SIZE. replace (1024 * 64 <? Z.of_nat (length z)) with false by lia. exact Hw.
Qed.

(** ** The next argument *)

(** The server with a new object as the last argument. *)
Definition pushed s a (o : robj P) i : state := with_cin (CInput (querybuf i) (reqtype i) (multibulklen i) (bulklen i) (argv (cin (cl s)) ++ [a]))
  (set_objects (fun _ => <[a := o]> (objects s)) s).

Lemma pushed_slack s a o i A b : objects s !! a = None -> refcount o = 1 -> slack (pushed s a o i) A b = slack s A b.
Proof.
  intros Ha Hr. unfold slack, args_of, replies. cbn. rewrite rocc_app, count_insert, rocc_single.
  destruct (decide (b = a)) as [->|Hne]; [rewrite (count_None _ _ Ha), Hr|]; lia.
Qed.

Lemma pushed_fed s a o i A : objects s !! a = None -> refcount o = 1 -> fed s (pushed s a o i) A.
Proof.
  intros Ha Hr. constructor; try done; [intros b; by apply pushed_slack| |cbn; by destruct (cl s)].
  intros b ob _ Hob. cbn. exists ob. split; [|apply same_value_refl]. rewrite lookup_insert_ne; [done|]. intros ->. congruence.
Qed.

Lemma pushed_arguments s a o i A ds x : objects s !! a = None -> refcount o = 1 -> str_obj o x -> sdsEncodedObject o = true ->
  Z.of_nat (length x) < 2 ^ 31 - 200 -> 0 <= slack s A a -> arguments s A ds -> arguments (pushed s a o i) A (ds ++ [x]).
Proof.
  intros Ha Hr Ho He Hx Hs H. unfold arguments. apply Forall2_app.
  - change (args_of (pushed s a o i)) with (args_of s ++ [a]).
    eapply Forall2_impl; [exact H|]. intros b y [(ob & Hob & Hk) Hkr Hl]. constructor; [|unfold kept_ref in *|done].
    + exists ob. split; [|done]. cbn. rewrite lookup_insert_ne; [done|]. intros ->. congruence.
    + rewrite pushed_slack by done. unfold args_of in *. cbn. rewrite rocc_app. pose proof (rocc_nonneg b [a]). lia.
  - constructor; [|constructor]. constructor; [|unfold kept_ref|done].
    + exists o. split; [cbn; by rewrite lookup_insert_eq|]. split; [done|]. split; [done|]. ints.
    + rewrite pushed_slack by done. unfold args_of. cbn. rewrite rocc_app, (rocc_single a), decide_True by done.
      pose proof (rocc_nonneg a (argv (cin (cl s)))). lia.
Qed.

(** The argument is read: the buffer goes on behind it. *)
Record read_one s s' A i ds x (z z' : bytes) (big : Prop) pos' y' : Prop := ReadOne {
  ro_fed : fed s s' A;
  ro_args : arguments s' A (ds ++ [x]);
  ro_in : exists l q', cin (cl s') = CInput q' (reqtype i) (multibulklen i - 1) (-1) l /\ sds_rep q' z';
  ro_rest : drop (Z.to_nat pos') z' = y';
  ro_pos : 0 <= pos' <= Z.of_nat (length z');
  ro_len : (length z' <= length z)%nat;
  ro_big : big -> z' = []
}.

(** The object is new, and the length is forgotten. *)
Lemma read_end_wp s1 s a o q' z' pos' A ds x z y' (big : Prop) (Q : progress -> state -> Prop) : let i := cin (cl s) in
  objects s !! a = None -> refcount o = 1 -> str_obj o x -> sdsEncodedObject o = true -> Z.of_nat (length x) <= ARG_LIMIT ->
  (forall b, 0 <= slack s A b) -> arguments s A ds -> s1 = pushed s a o (with_querybuf q' i) ->
  sds_rep q' z' -> drop (Z.to_nat pos') z' = y' -> 0 <= pos' <= Z.of_nat (length z') -> (length z' <= length z)%nat -> (big -> z' = []) ->
  (forall s', read_one s s' A i ds x z z' big pos' y' -> Q (Go pos') s') ->
  wp (_ ← set_bulklen (-1); c ← gets cl; _ ← set_multibulklen (multibulklen (cin c) - 1); mret (Go pos')) Q s1.
Proof.
  intros i Ha Hr Ho He Hx Hs Har -> Hq Hd Hp Hl Hbg HQ. unfold ARG_LIMIT in *. apply wp_bind. unfold set_bulklen. apply set_in_wp. wp_step. apply wp_bind. unfold set_multibulklen. apply set_in_wp. wp_step.
  apply HQ. constructor; try done.
  - eapply fed_trans; [|by apply with_cin_fed]. eapply fed_trans; [|by apply with_cin_fed]. by apply pushed_fed.
  - apply (pushed_arguments s a o (CInput q' (reqtype i) (multibulklen i - 1) (-1) []) A ds x); try done. lia.
  - eexists _, _. split; [reflexivity|done].
Qed.

Lemma read_argument_wp s pos x y u t z A ds (Q : progress -> state -> Prop) : let i := cin (cl s) in
  sds_rep (querybuf i) z -> drop (Z.to_nat pos) z = y -> 0 <= pos <= Z.of_nat (length z) -> Z.of_nat (length z) < 2 ^ 31 ->
  bulklen i = Z.of_nat (length x) -> Z.of_nat (length x) <= ARG_LIMIT -> y ++ u = x ++ CRLF ++ t ->
  (forall b, 0 <= slack s A b) -> arguments s A ds ->
  ((length y < length x + 2)%nat -> Q (Wait pos) s) ->
  (forall s' z' pos' y', y = x ++ CRLF ++ y' ->
     read_one s s' A i ds x z z' (pos = 0 /\ PROTO_MBULK_BIG_ARG <= Z.of_nat (length x) /\ length z = (length x + 2)%nat) pos' y' -> Q (Go pos') s') ->
  wp (read_argument C pos) Q s.
Proof.
  intros i Hq Hy Hpos Hz Hb Hx E Hs Har HW HG. pose proof Hq as (_ & tl & Hbuf & Hl & _).
  assert (Z.of_nat (length y) = Z.of_nat (length z) - pos) as Hly by (rewrite <- Hy, length_drop; lia).
  unfold ARG_LIMIT in Hx. unfold read_argument. wp_step. apply wp_bind, get_querybuf_wp. fold i. rewrite Hb, Hl.
  rewrite (wrapu_small 64), (wrapu_small 32) by ints.
  destruct (Z.ltb_spec (Z.of_nat (length z) - pos) (Z.of_nat (length x) + 2)) as [Hlt|Hge]; [wp_step; apply HW; lia|].
  assert (exists y', y = x ++ CRLF ++ y') as [y' Ey].
  { exists (drop (length x + 2) y). apply (f_equal (take (length y))) in E. rewrite take_app_length in E.
    rewrite app_assoc, take_app_ge in E by (rewrite length_app; cbn [length CRLF]; lia).
    rewrite E at 1 2. rewrite app_assoc, (drop_app_length' (x ++ CRLF)) by (rewrite length_app; done). by rewrite <- app_assoc. }
  specialize (fun s' z' pos' => HG s' z' pos' y' Ey). apply wp_bind. destruct (_ && _) eqn:Hbig.
  - apply andb_true_iff in Hbig as [Hbig H3]. apply andb_true_iff in Hbig as [H1 H2]. rewrite wraps_small in H3 by ints.
    assert (pos = 0) as -> by lia. change (Z.to_nat 0) with 0%nat in Hy. rewrite drop_0 in Hy. subst z.
    assert (y' = []) as ->. { apply nil_length_inv. apply (f_equal length) in Ey. rewrite !length_app in Ey. cbn [length CRLF] in Ey. lia. }
    rewrite app_nil_r in Ey. apply wp_bind. eapply (new_wp C s _ y).
    { intros a. eexists. split; [reflexivity|]. split; [|done]. split; [done|]. left. split; [done|]. by exists (querybuf i). }
    intros a o Ha Ho Hr He. unfold set_args. apply wp_bind, set_in_wp. apply wp_bind. eapply get_object_wp; [cbn; by rewrite lookup_insert_eq|].
    destruct (sdsIncrLen_cut (querybuf i) y 2 Hq) as (q2 & E2 & Hq2); [rewrite Ey, length_app; cbn [length CRLF]; lia|done|].
    rewrite Ey, length_app, Nat.add_sub, take_app_length in Hq2. apply wp_bind. eapply wp_lift; [exact E2|]. wp_step.
    destruct (sdsnewlen_rep (junk (senv C)) None (Z.of_nat (length x) + 2)) as (q3 & E3 & Hq3); [unfold SDS_LIMIT; lia|done|].
    apply wp_bind. eapply wp_lift; [exact E3|]. destruct (sdsclear_rep _ _ Hq3) as (q4 & E4 & Hq4). apply wp_bind. eapply wp_lift; [exact E4|].
    unfold set_querybuf. apply wp_bind, set_in_wp. wp_step.
    eapply (read_end_wp _ s a (set_ptr o (PSds q2)) q4 [] 0 A ds x y [] (0 = 0 /\ PROTO_MBULK_BIG_ARG <= Z.of_nat (length x) /\ length y = (length x + 2)%nat)); try done.
    + split; [apply Ho|]. left. split; [exact He|]. by exists q2.
    + unfold pushed, with_cin, set_objects, set_cl. cbn. by rewrite insert_insert_eq.
    + cbn. lia.
    + intros s'. apply HG.
  - apply wp_bind. eapply (new_wp C s _ x).
    { intros a. eapply (create_spec (senv C)); [|unfold SDS_LIMIT; lia]. rewrite Hbuf, drop_app_le, Hy, Ey by lia. by rewrite <- app_assoc. }
    intros a o Ha Ho Hr He. unfold set_args. apply wp_bind, set_in_wp. wp_step.
    eapply (read_end_wp _ s a o (querybuf i) z (pos + Z.of_nat (length x) + 2) A ds x z y' (pos = 0 /\ PROTO_MBULK_BIG_ARG <= Z.of_nat (length x) /\ length z = (length x + 2)%nat)); try done.
    + rewrite <- (take_drop (Z.to_nat pos) z), Hy, Ey, (app_assoc x), app_assoc.
      rewrite drop_app_ge; rewrite !length_app, length_take; cbn [length CRLF]; [|lia].
      replace (_ - _)%nat with 0%nat by lia. by rewrite drop_0.
    + rewrite Ey, !length_app in Hly. cbn [length CRLF] in Hly. lia.
    + intros (-> & Hb2 & Hb3). exfalso. rewrite Z.geb_leb, wraps_small in Hbig by ints.
      cbn [Z.eqb andb] in Hbig. apply andb_false_iff in Hbig as [Hbig|Hbig]; lia.
    + intros s'. apply HG.
Qed.

(** ** The arguments *)

(** What is expected of a client that still has to send the arguments [xs]. *)
Inductive wants i : list bytes -> bytes -> Prop :=
| WantsLength xs : multibulklen i = Z.of_nat (length xs) -> bulklen i = -1 -> wants i xs (encode_args xs)
| WantsBody x xs : multibulklen i = Z.of_nat (S (length xs)) -> bulklen i = Z.of_nat (length x) ->
    wants i (x :: xs) (x ++ CRLF ++ encode_args xs).

(** The next part is not there. *)
Definition short i y : Prop := if bulklen i =? -1 then Z.of_nat (length y) <= 32 else Z.of_nat (length y) < bulklen i + 2.

Record parsing s A ds xs pos w y z : Prop := Parsing {
  pa_args : arguments s A ds;
  pa_wants : wants (cin (cl s)) xs w;
  pa_buf : sds_rep (querybuf (cin (cl s))) z;
  pa_rest : drop (Z.to_nat pos) z = y;
  pa_pos : 0 <= pos <= Z.of_nat (length z)
}.

(** What the buffer holds is small, or is part of one large argument. *)
Definition fits i pos z : Prop :=
  Z.of_nat (length z) <= SMALL_BUFFER \/ (pos = 0 /\ PROTO_MBULK_BIG_ARG <= bulklen i <= ARG_LIMIT /\ Z.of_nat (length z) <= bulklen i + 2).

Lemma arguments_loop_wp xs : forall fuel s A ds pos w y z t u (Q : option Z -> state -> Prop),
  (length xs <= fuel)%nat -> parsing s A ds xs pos w y z -> fits (cin (cl s)) pos z -> (forall b, 0 <= slack s A b) ->
  Forall (fun x => Z.of_nat (length x) <= ARG_LIMIT) xs -> y ++ u = w ++ t ->
  (forall s' ds' xs' pos' w' y' z', fed s s' A -> parsing s' A ds' xs' pos' w' y' z' -> reqtype (cin (cl s')) = reqtype (cin (cl s)) ->
     ds ++ xs = ds' ++ xs' -> y' ++ u = w' ++ t -> (length z' <= length z)%nat ->
     xs' = [] \/ (short (cin (cl s')) y' /\ (length y' < length w')%nat) -> Q (Some pos') s') ->
  wp (arguments_loop C fuel pos) Q s.
Proof.
  induction xs as [|x xs IH]; intros fuel s A ds pos w y z t u Q Hfuel Hp Hfits Hs Hxs E HQ.
  { assert (multibulklen (cin (cl s)) = 0) as Hm by (pose proof (pa_wants _ _ _ _ _ _ _ _ Hp) as Hw; by inversion Hw).
    destruct fuel; cbn [arguments_loop]; wp_step; rewrite Hm; wp_step; (eapply HQ; [apply fed_refl|exact Hp|done..|by left]). }
  destruct fuel as [|fuel]; [cbn in Hfuel; lia|]. apply Forall_cons in Hxs as [Hx Hxs]. cbn [arguments_loop].
  assert (Z.of_nat (length z) < 2 ^ 31) as Hz31 by (destruct Hfits as [H|(_ & [_ H1] & H2)]; unfold SMALL_BUFFER, PROTO_INLINE_MAX_SIZE, ARG_LIMIT in *; lia).
  assert (forall s1 pos y z1, fed s s1 A -> parsing s1 A ds (x :: xs) pos (x ++ CRLF ++ encode_args xs) y z1 -> fits (cin (cl s1)) pos z1 ->
    reqtype (cin (cl s1)) = reqtype (cin (cl s)) -> multibulklen (cin (cl s1)) = Z.of_nat (S (length xs)) -> bulklen (cin (cl s1)) = Z.of_nat (length x) ->
    y ++ u = x ++ CRLF ++ encode_args xs ++ t -> (length z1 <= length z)%nat ->
    wp (read_argument C pos ≫= fun p => match p with Go pos => arguments_loop C fuel pos | Wait pos => mret (Some pos) | Err => mret None end) Q s1) as Hbody.
  { intros s1 pos1 y1 z1 F1 P1 Fit1 Hrt Hm Hb E1 Hz1. pose proof P1 as [Pa Pw Pb Pr Pp].
    apply wp_bind. eapply (read_argument_wp s1 pos1 x y1 u (encode_args xs ++ t) z1 A ds); [exact Pb|exact Pr|exact Pp|lia|exact Hb|exact Hx|exact E1| |exact Pa| |].
    - intros b. by rewrite (fe_slack _ _ _ F1).
    - intros Hsh. wp_step. eapply HQ; [exact F1|exact P1|exact Hrt|done|rewrite E1; by rewrite <- !app_assoc|exact Hz1|].
      right. split; [|rewrite !length_app; cbn [length CRLF]; lia]. unfold short. rewrite Hb. replace (_ =? -1) with false by lia. lia.
    - intros s2 z2 pos2 y2 Ey [R1 R2 (l & q2 & Hc & Rq) R4 R5 R6 R7].
      eapply (IH fuel s2 A (ds ++ [x]) pos2 (encode_args xs) y2 z2 t u); [cbn in Hfuel; lia| | | |exact Hxs| |].
      + constructor; [exact R2| |by rewrite Hc|exact R4|exact R5]. rewrite Hc. constructor; cbn [multibulklen bulklen]; [lia|done].
      + left. destruct Fit1 as [Fit1|(-> & Fb & Fz)]; [lia|]. rewrite R7; [done|]. split; [done|]. rewrite Hb in *. split; [lia|].
        apply (f_equal length) in Ey. rewrite <- Pr, length_drop, !length_app in Ey. cbn [length CRLF] in Ey. lia.
      + intros b. by rewrite (fe_slack _ _ _ R1), (fe_slack _ _ _ F1).
      + rewrite Ey, <- !app_assoc in E1. by do 2 apply app_inv_head in E1.
      + intros s3 ds3 xs3 pos3 w3 y3 z3 F3 P3 Hr3 Hd3 E3 Hl3 H3. eapply HQ; [|exact P3| | |exact E3|lia|exact H3].
        * eapply fed_trans; [exact F1|]. by eapply fed_trans.
        * by rewrite Hr3, Hc, <- Hrt.
        * by rewrite <- Hd3, <- app_assoc. }
  pose proof Hp as [Pa Pw Pb Pr Pp]. wp_step.
  inversion Pw as [xs0 Hm Hb E1 E2|x0 xs0 Hm Hb E1 E2]; subst; rewrite Hm, Hb; cbn [length].
  - rewrite (proj2 (Z.eqb_neq (Z.of_nat (S (length xs))) 0)) by lia. cbn [Z.eqb Pos.eqb]. apply wp_bind.
    assert (Z.of_nat (length z) <= SMALL_BUFFER) as Hsm by (destruct Hfits as [H|(_ & H & _)]; [done|rewrite Hb in H; unfold PROTO_MBULK_BIG_ARG in H; lia]).
    eapply (read_bulklen_wp s pos x _ u (encode_args xs ++ t)); [exact Pb|reflexivity|exact Pp|exact Hsm|exact Hx| | |].
    + rewrite E. unfold encode_args. rewrite fmap_cons. cbn [concat]. by rewrite <- app_assoc.
    + intros Hsh. wp_step. eapply HQ; [apply fed_refl|exact Hp|done|done|exact E|lia|]. right. split.
      * unfold short. rewrite Hb. cbn [Z.eqb Pos.eqb]. unfold header in Hsh. cbn [length] in Hsh. rewrite length_app in Hsh.
        pose proof (decimal_length_20 (Z.of_nat (length x)) ltac:(unfold ARG_LIMIT in Hx; ints)). change (length CRLF) with 2%nat in Hsh. lia.
      * unfold encode_args. rewrite fmap_cons. cbn [concat]. unfold bulk. rewrite !length_app. lia.
    + intros q' z' pos' y' Ey Hq' Hd' Hp' Hl'. apply (Hbody _ pos' y' z'); [by apply with_cin_fed| | |done|done|done| |done].
      * constructor; [by apply with_cin_arguments| |exact Hq'|exact Hd'|exact Hp']. by apply WantsBody.
      * left. lia.
      * unfold encode_args in E at 1. rewrite Ey, fmap_cons in E. cbn [concat] in E. unfold bulk in E. rewrite <- !app_assoc in E. by apply app_inv_head in E.
  - rewrite (proj2 (Z.eqb_neq (Z.of_nat (S (length xs))) 0)), (proj2 (Z.eqb_neq (Z.of_nat (length x)) (-1))) by lia. apply wp_bind, wp_ret.
    apply (Hbody s pos (drop (Z.to_nat pos) z) z); [apply fed_refl|exact Hp|exact Hfits|done|done|done| |lia]. by rewrite E, <- !app_assoc.
Qed.

(** ** A request *)

Lemma read_count_wp s y u t n (Q : progress -> state -> Prop) : let i := cin (cl s) in
  argv i = [] -> sds_rep (querybuf i) y -> Z.of_nat (length y) <= SMALL_BUFFER -> 1 <= n <= 1024 * 1024 -> y ++ u = header 42 n ++ t ->
  ((length y < length (header 42 n))%nat -> Q Err s) ->
  (forall y', y = header 42 n ++ y' ->
     Q (Go (Z.of_nat (length (header 42 n)))) (with_cin (CInput (querybuf i) (reqtype i) n (bulklen i) (argv i)) s)) ->
  wp (read_count C) Q s.
Proof.
  intros i Hargv Hq Hy Hn E HE HG. unfold SMALL_BUFFER, PROTO_INLINE_MAX_SIZE in *. assert (is_llong n) as Hll by ints.
  assert (line_state (42 :: decimal n) y) as Hls.
  { apply (line_cases _ y u t); [constructor; [done|by apply decimal_line]|]. by rewrite E, header_line. }
  pose proof Hq as (_ & tl & Hb & Hl & _). unfold read_count. wp_step. fold i. apply wp_bind, wp_check; [by rewrite Hargv|].
  apply wp_bind, get_querybuf_wp. fold i. rewrite Hb, Hl. rewrite wraps_small by ints. destruct Hls as [y' Ey|Hsh Hstr].
  - assert (strchr (y ++ 0 :: tl) 13 = Some (Some (length (42 :: decimal n)))) as Hs.
    { rewrite Ey, <- !app_assoc. cbn [app CRLF]. apply (strchr_line (42 :: decimal n)). constructor; [done|by apply decimal_line]. }
    apply wp_bind. eapply wp_lift; [exact Hs|]. cbn beta iota zeta. rewrite Z.gtb_ltb.
    assert (Z.of_nat (length y) = Z.of_nat (length (42 :: decimal n)) + 2 + Z.of_nat (length y')) as Hly.
    { rewrite Ey, !length_app. cbn [length CRLF]. lia. }
    replace (Z.of_nat (length y) - 2 <? Z.of_nat (length (42 :: decimal n))) with false by lia.
    assert ((y ++ 0 :: tl) !! 0%nat = Some 42) as H0 by (by rewrite Ey). apply wp_bind. eapply wp_lift; [exact H0|].
    apply wp_bind, wp_check; [done|]. apply wp_bind. eapply wp_lift.
    { rewrite Ey, <- !app_assoc. apply (line_number_spec []); [exact Hll|done|done]. }
    cbn beta iota. rewrite Z.gtb_ltb. replace (1024 * 1024 <? n) with false by lia. replace (n <=? 0) with false by lia.
    unfold set_multibulklen. apply wp_bind, set_in_wp. wp_step.
    replace (Z.of_nat (length (42 :: decimal n)) + 2) with (Z.of_nat (length (header 42 n))) by (rewrite header_line, length_app; cbn [length CRLF]; lia).
    apply (HG y'). by rewrite Ey, header_line, <- app_assoc.
  - destruct (Hstr tl) as (r & Hr & Hn'). apply wp_bind. eapply wp_lift; [exact Hr|].
    assert (wp (mret Err) Q s) as Hw by (wp_step; apply HE; rewrite header_line, length_app; exact Hsh).
    destruct r as [nl|]; rewrite Z.gtb_ltb.
    + specialize (Hn' nl eq_refl). replace (Z.of_nat (length y) - 2 <? Z.of_nat nl) with true by lia. exact Hw.
    + unfold PROTO_INLINE_MAX_SIZE. replace (1024 * 64 <? Z.of_nat (length y)) with false by lia. exact Hw.
Qed.

(** A request of which the arguments [ds] have been read. *)
Inductive awaits i (ds : list bytes) : list bytes -> bytes -> Prop :=
| AwaitsCount xs : multibulklen i = 0 -> bulklen i = -1 -> argv i = [] -> ds = [] -> awaits i ds xs (encode_request xs)
| AwaitsArgs xs w : wants i xs w -> xs <> [] -> awaits i ds xs w.

Definition REQUEST_LIMIT : Z := 1024 * 1024.

Definition sized (xs : list bytes) : Prop :=
  xs <> [] /\ Z.of_nat (length xs) <= REQUEST_LIMIT /\ Forall (fun x => Z.of_nat (length x) <= ARG_LIMIT) xs.

(** A request has been read, or not yet. *)
Record got_request s s' A xs y' : Prop := GotRequest {
  gr_fed : fed s s' A;
  gr_args : arguments s' A xs;
  gr_in : exists q l, cin (cl s') = CInput q (reqtype (cin (cl s))) 0 (-1) l /\ sds_rep q y'
}.

Record still_reading s s' A ds xs w y' : Prop := StillReading {
  sr_fed : fed s s' A;
  sr_args : arguments s' A ds;
  sr_awaits : awaits (cin (cl s')) ds xs w;
  sr_type : reqtype (cin (cl s')) = reqtype (cin (cl s));
  sr_buf : sds_rep (querybuf (cin (cl s'))) y';
  sr_short : short (cin (cl s')) y' /\ (length y' < length w)%nat
}.

Lemma processMultibulkBuffer_wp s A ds xs w y t u (Q : bool -> state -> Prop) :
  arguments s A ds -> awaits (cin (cl s)) ds xs w -> sds_rep (querybuf (cin (cl s))) y -> fits (cin (cl s)) 0 y ->
  (forall b, 0 <= slack s A b) -> sized (ds ++ xs) -> y ++ u = w ++ t ->
  (forall s' y', got_request s s' A (ds ++ xs) y' -> y = w ++ y' -> Q true s') ->
  (forall s' ds' xs' w' y', still_reading s s' A ds' xs' w' y' -> ds ++ xs = ds' ++ xs' -> y' ++ u = w' ++ t -> Q false s') ->
  wp (processMultibulkBuffer C) Q s.
Proof.
  intros Har Haw Hq Hfits Hs (Hne & Hlim & Hsz) E HT HF. unfold REQUEST_LIMIT in Hlim.
  assert (Z.of_nat (length y) < 2 ^ 31) as Hy31 by (destruct Hfits as [H|(_ & [_ H1] & H2)]; unfold SMALL_BUFFER, PROTO_INLINE_MAX_SIZE, ARG_LIMIT in *; lia).
  assert (forall s1 pos w1 y1, fed s s1 A -> parsing s1 A ds xs pos w1 y1 y -> fits (cin (cl s1)) pos y -> xs <> [] -> reqtype (cin (cl s1)) = reqtype (cin (cl s)) ->
    y1 ++ u = w1 ++ t -> (forall v, y1 = w1 ++ v -> y = w ++ v) ->
    wp (_ ← check (multibulklen (cin (cl s1)) >? 0);
        r ← arguments_loop C (Z.to_nat (multibulklen (cin (cl s1)))) pos;
        match r with
        | None => mret false
        | Some pos => _ ← (if negb (pos =? 0) then trim_querybuf pos else skip); c ← gets cl; mret (multibulklen (cin c) =? 0)
        end) Q s1) as Hloop.
  { intros s1 pos w1 y1 F1 P1 Fit1 Hxs Hrt E1 Hv. assert (Z.of_nat (length xs) = multibulklen (cin (cl s1)) /\ (0 < length xs)%nat) as [Hm Hpos].
    { split; [|by destruct xs; [|cbn; lia]]. pose proof (pa_wants _ _ _ _ _ _ _ _ P1) as Hw. inversion Hw; subst; cbn [length] in *; lia. }
    apply wp_bind, wp_check; [lia|]. apply wp_bind.
    eapply (arguments_loop_wp xs _ s1 A ds pos w1 y1 y t u); [lia|exact P1|exact Fit1| |by apply Forall_app in Hsz as [_ Hsz]|exact E1|].
    { intros b. by rewrite (fe_slack _ _ _ F1). }
    intros s2 ds2 xs2 pos2 w2 y2 z2 F2 [Pa Pw Pb Pr Pp] Hrt2 Hd2 E2 Hl2 H2.
    apply wp_bind. eapply (trim_if_wp s2 z2 pos2); [exact Pb|exact Pp|lia|]. rewrite Pr. intros q Hq2. wp_step. wp_step. cbn [cin cl with_cin set_cl set_cin with_querybuf multibulklen].
    pose proof (fed_trans _ _ _ _ F1 F2) as F12. pose proof (fed_trans _ _ _ _ F12 (with_cin_fed (with_querybuf q (cin (cl s2))) s2 A eq_refl)) as F.
    destruct H2 as [->|[Hsh Hlt]].
    - rewrite app_nil_r in Hd2. subst ds2. inversion Pw as [? Hm2 Hb2 Ex Ew|]; subst. cbn [length] in Hm2. rewrite Hm2. cbn [Z.eqb].
      unfold encode_args in E2. cbn in E2. apply (HT _ (drop (Z.to_nat pos2) z2)).
      + constructor; [exact F|by apply with_cin_arguments|]. exists q, (argv (cin (cl s2))). split; [|done]. cbn. unfold with_querybuf. by rewrite Hm2, Hb2, Hrt2, Hrt.
      + apply Hv. rewrite <- E2 in E1. rewrite app_assoc in E1. by apply app_inv_tail in E1.
    - assert (xs2 <> []) as Hne2 by (intros ->; inversion Pw; subst; cbn in Hlt; lia).
      assert ((multibulklen (cin (cl s2)) =? 0) = false) as -> by (apply Z.eqb_neq; inversion Pw; subst; [destruct xs2; [done|cbn [length] in *; lia]|lia]).
      apply (HF _ ds2 xs2 w2 y2); [|done|done]. constructor; [exact F|by apply with_cin_arguments| |by cbn; rewrite Hrt2, Hrt|done|].
      + cbn. apply AwaitsArgs; [|done]. inversion Pw; subst; by constructor.
      + split; [|done]. unfold short in *. cbn. exact Hsh. }
  unfold processMultibulkBuffer. wp_step.
  inversion Haw as [xs0 Hm Hb Hav Hds Ex Ew|xs0 w0 Hw Hxs Ex Ew]; subst.
  - rewrite Hm. cbn [Z.eqb app] in *. apply wp_bind.
    assert (Z.of_nat (length y) <= SMALL_BUFFER) as Hsm by (destruct Hfits as [H|(_ & H & _)]; [done|rewrite Hb in H; unfold PROTO_MBULK_BIG_ARG in H; lia]).
    assert (0 < length xs)%nat as Hl1 by (destruct xs; [done|cbn; lia]).
    eapply (read_count_wp s y u (encode_args xs ++ t) (Z.of_nat (length xs))); [exact Hav|exact Hq|exact Hsm|lia| | |].
    + rewrite E. unfold encode_request. by rewrite <- app_assoc.
    + intros Hsh. wp_step. wp_step. apply (HF s [] xs (encode_request xs) y); [|done|done].
      constructor; [apply fed_refl|exact Har|done|done|done|]. split.
      * unfold short. rewrite Hb. cbn [Z.eqb Pos.eqb]. unfold header in Hsh. cbn [length] in Hsh. rewrite length_app in Hsh.
        pose proof (decimal_length_20 (Z.of_nat (length xs)) ltac:(ints)). change (length CRLF) with 2%nat in Hsh. lia.
      * unfold encode_request. rewrite length_app. lia.
    + intros y' Ey. wp_step. cbn [cin cl with_cin set_cl set_cin multibulklen]. rewrite (proj2 (Z.eqb_neq (Z.of_nat (length xs)) 0)) by lia.
      set (s1 := with_cin _ s). change (multibulklen (cin (cl s1))) with (Z.of_nat (length xs)) in *.
      apply (Hloop s1 (Z.of_nat (length (header 42 (Z.of_nat (length xs))))) (encode_args xs) y').
      * by apply with_cin_fed.
      * constructor; [by apply with_cin_arguments|by constructor|exact Hq|by rewrite Nat2Z.id, Ey, drop_app_length|]. rewrite Ey, length_app. lia.
      * by left.
      * by destruct xs.
      * done.
      * unfold encode_request in E. rewrite Ey, <- !app_assoc in E. by apply app_inv_head in E.
      * intros v ->. rewrite Ey. unfold encode_request. by rewrite <- app_assoc.
  - assert (multibulklen (cin (cl s)) <> 0) as Hm by (inversion Hw; subst; [destruct xs; [done|cbn [length] in *; lia]|lia]).
    rewrite (proj2 (Z.eqb_neq _ _) Hm). wp_step. wp_step. rewrite (proj2 (Z.eqb_neq _ _) Hm).
    apply (Hloop s 0 w y); [apply fed_refl| |exact Hfits|done|done|exact E|done].
    constructor; [exact Har|exact Hw|exact Hq|done|lia].
Qed.

(** ** Between requests *)

(** Everything of the server but the database, the output of the client and
    its requests. *)
Record carried s s' id A A' : Prop := Carried {
  ca_slack : forall a, slack s' A' a = slack s A a;
  ca_kept : kept (objects s) (objects s') (fun a => 0 < slack s A a);
  ca_dbs : forall j, j <> id -> dbs (ks s') !! j = dbs (ks s) !! j;
  ca_cid : cid (cl s') = cid (cl s);
  ca_fd : fd (cl s') = fd (cl s);
  ca_cdb : cdb (cl s') = cdb (cl s);
  ca_flags : more_flags (flags (cl s)) (flags (cl s'));
  ca_sent : sentlen (cout (cl s')) = sentlen (cout (cl s));
  ca_auth : authenticated (cext (cl s')) = authenticated (cext (cl s));
  ca_paused : clients_paused (srv s') = clients_paused (srv s)
}.

Lemma carried_trans s1 s2 s3 id A1 A2 A3 : carried s1 s2 id A1 A2 -> carried s2 s3 id A2 A3 -> carried s1 s3 id A1 A3.
Proof.
  intros [T1 T2 T3 T4 T5 T6 T7 T8 T9 T10] [R1 R2 R3 R4 R5 R6 R7 R8 R9 R10]. constructor; try congruence.
  - eapply kept_all_trans; [exact T2|]. intros a o Ha. apply R2. by rewrite T1.
  - intros j Hj. by rewrite R3, T3.
  - by eapply more_trans.
Qed.

Lemma fed_carried s s' id A : (forall a, 0 <= slack s A a) -> fed s s' A -> carried s s' id A A.
Proof.
  intros Hs F. pose proof (fed_client _ _ _ F) as Hc. destruct F as [F1 F2 F3 F4 F5]. constructor; try (rewrite Hc; reflexivity); [exact F1| |by rewrite F3|rewrite Hc; apply more_refl|by rewrite F4].
  intros a o Ha. apply F2. pose proof (vocc_nonneg a (amap A)). pose proof (rocc_nonneg a (replies s)). unfold slack in Ha. lia.
Qed.

Lemma finished_carried s s' id A A' K z k : finished false s s' id A A' K z k -> carried s s' id A A'.
Proof. intros [_ [H1 H2 H3 H4 H5 H6 H7 H8 H9 H10 H11 H12] _ Hf _]. by constructor. Qed.

Lemma alike_carried s s' id A : alike s s' -> cid (cl s') = cid (cl s) -> fd (cl s') = fd (cl s) -> cdb (cl s') = cdb (cl s) ->
  flags (cl s') = flags (cl s) -> authenticated (cext (cl s')) = authenticated (cext (cl s)) ->
  clients_paused (srv s') = clients_paused (srv s) -> carried s s' id A A.
Proof.
  intros H E1 E2 E3 E4 E5 E6. pose proof (fun a => alike_slack s s' A a H) as Hs. destruct H as [Ho Hk Hc Ha].
  constructor; try done; rewrite ?Hk, ?Hc, ?E4, ?Ho; try done; [|apply more_refl]. intros a o _ Hoo. exists o. split; [done|apply same_value_refl].
Qed.

Lemma carried_said s s' id A A' x : carried s s' id A A' -> said s' x = said s x.
Proof. intros H. unfold said. by rewrite (talks_more (cl s) (cl s') (ca_flags _ _ _ _ _ H) (ca_fd _ _ _ _ _ H)). Qed.

Lemma carried_master s s' id A A' : carried s s' id A A' -> is_master s' = is_master s.
Proof. intros H. unfold is_master. by apply (more_has _ _ _ (ca_flags _ _ _ _ _ H)). Qed.

(** The states of a client whose requests are not served one by one. *)
Definition BUSY_FLAGS : Z := foldr Z.lor 0 [CLIENT_MULTI; CLIENT_BLOCKED; CLIENT_CLOSE_AFTER_REPLY; CLIENT_ASKING; CLIENT_REPLY_SKIP; CLIENT_REPLY_SKIP_NEXT].

Lemma has_part f m n : has f m = false -> Z.land m n = n -> has f n = false.
Proof.
  unfold has. rewrite !negb_false_iff, !Z.eqb_eq. intros Hm <-. by rewrite Z.land_assoc, Hm, Z.land_0_l.
Qed.

Lemma clear_noop f m : has f m = false -> Z.land f (Z.lnot m) = f.
Proof.
  unfold has. rewrite negb_false_iff, Z.eqb_eq. intros Hm. apply Z.bits_inj'. intros n Hn. apply (f_equal (fun v => Z.testbit v n)) in Hm.
  rewrite Z.land_spec, Z.bits_0 in Hm. rewrite Z.land_spec, Z.lnot_spec by done. by destruct (Z.testbit f n), (Z.testbit m n).
Qed.

Definition fresh i : Prop := argv i = [] /\ reqtype i = 0 /\ multibulklen i = 0 /\ bulklen i = -1.

Lemma set_flags_same f s : flags (cl s) = f -> set_cl (set_flags (fun _ => f)) s = s.
Proof. intros <-. destruct s as [? ? c ? ? ?]; by destruct c. Qed.

Lemma clear_flag_wp m s (Q : unit -> state -> Prop) : has (flags (cl s)) m = false -> Q tt s -> wp (clear_flag m) Q s.
Proof.
  intros Hm HQ. unfold clear_flag. wp_step. replace (set_cl _ s) with s; [done|]. destruct s as [? ? c ? ? ?]; destruct c. cbn in Hm.
  unfold set_cl, set_flags. cbn. by rewrite clear_noop.
Qed.

Lemma resetClient_wp s id A K z k (Q : unit -> state -> Prop) :
  up s id A K z k -> strings s -> has (flags (cl s)) BUSY_FLAGS = false ->
  (forall s', up s' id A K z k -> carried s s' id A A -> fresh (cin (cl s')) -> querybuf (cin (cl s')) = querybuf (cin (cl s)) -> srv s' = srv s ->
     Q tt s') -> wp resetClient Q s.
Proof.
  intros U Hst Hb HQ. pose proof (sv_slack _ _ _ _ _ (up_serving _ _ _ _ _ _ U)) as Hsl. unfold resetClient. wp_step. apply wp_bind. unfold freeClientArgv. wp_step.
  assert (forall a, 0 <= vocc a (amap A) /\ 0 <= rocc a (replies s) /\ 0 <= rocc a (args_of s)) as Hpos.
  { intros a. split_and!; [apply vocc_nonneg|apply rocc_nonneg..]. }
  apply wp_bind. apply release_all_wp.
  { intros a Ha. unfold strings in Hst. rewrite Forall_forall in Hst. destruct (Hst a Ha) as (x & o & Ho & Hx). exists o. split; [done|].
    unfold freeable. by rewrite (proj1 Hx). }
  { intros a. specialize (Hsl a). specialize (Hpos a). unfold slack, args_of in *. lia. }
  intros h Hsub Hch. wp_step. wp_step. unfold set_reqtype, set_multibulklen, set_bulklen. do 3 (apply wp_bind, set_in_wp).
  match goal with |- wp _ _ ?s0 => set (s1 := s0) end.
  assert (fed s (with_cin (CInput (querybuf (cin (cl s))) 0 0 (-1) []) (set_objects (fun _ => h) s)) A) as F.
  { constructor; [| |reflexivity|reflexivity|cbn; by destruct (cl s)].
    - intros a. unfold slack, args_of, replies. cbn. rewrite Hch. change (rocc a []) with 0. lia.
    - intros a o Ha Ho. cbn. assert (is_Some (h !! a)) as [o' Ho'] by (apply count_live; by rewrite Hch). exists o'. split; [done|].
      destruct (Hsub a o' Ho') as (o1 & H1 & Hv). congruence. }
  assert (alike (with_cin (CInput (querybuf (cin (cl s))) 0 0 (-1) []) (set_objects (fun _ => h) s)) s1) as Hal by (constructor; reflexivity).
  assert (forall f, has (flags (cl s1)) f = has (flags (cl s)) f) as Hf by done.
  assert (Q tt s1) as HQ1.
  { apply HQ; [| |done|done|done].
    - eapply alike_up; [exact Hal|]. eapply fed_up; [exact F|cbn; unfold ARGS_LIMIT; lia|exact U].
    - eapply carried_trans; [apply (fed_carried _ _ _ _ (fun a => proj1 (Hsl a)) F)|]. by apply alike_carried. }
  apply wp_bind, (wp_mono _ (fun _ s2 => s2 = s1)).
  { destruct (_ && _); [|by apply wp_skip]. apply clear_flag_wp; [|done]. rewrite Hf. by eapply has_part. }
  intros _ s2 ->. apply wp_bind, clear_flag_wp; [rewrite Hf; by eapply has_part|]. wp_step.
  rewrite Hf, (has_part _ _ CLIENT_REPLY_SKIP_NEXT Hb) by done. by apply wp_skip.
Qed.

End Spec.
End ProtoSpec.
