(* ===== verification/ProtoRun.v ===== *)
(** * A client is served (src/networking.c)

    Whatever pieces the requests of a client arrive in, the commands are
    executed one after the other as on a store of strings, and the replies
    are what the store answers. *)

From S2P Require Import Prelude Monad Util Sds SdsText Dict DictTypes DictSpec DictMap Object ObjectSpec State Db HeapSpec DbSpec DbRun Reply ReplySpec ReplyRun Commands Serving CommandSpec Multi Server ServerSpec ServerRun Proto ProtoSpec Sample.
Import Monad Util Sds SdsText Dict DictTypes DictSpec DictMap Object ObjectSpec State Db HeapSpec DbSpec DbRun Reply ReplySpec ReplyRun Commands Serving CommandSpec Multi Server ServerSpec ServerRun Proto ProtoSpec Sample.

Module ProtoRun.

Section Spec.
Context {P : Type} {C : config}.
Context {HC : sound_config C}.
Abbreviation state := (state P).
Implicit Types (s : state) (a : addr) (A : adb) (K : kv) (x y z u t : bytes) (id k : nat) (i : cinput).

(** ** Several requests *)

(** What a list of requests does to a store, and all of the replies. *)
Fixpoint ref_requests (auth master : bool) id (rs : list (list bytes)) K : kv * bytes :=
  match rs with
  | [] => (K, [])
  | r :: rs =>
    let q := ref_process auth master id r K in
    let q' := ref_requests auth master id rs q.1 in
    (q'.1, q.2 ++ q'.2)
  end.

Definition answers s id rs K : kv * bytes := ref_requests (authenticated (cext (cl s))) (is_master s) id rs K.

(** A request whose first word is the name of a command, not QUIT. *)
Definition valid_request (xs : list bytes) : Prop :=
  sized xs /\ plain (nth 0 xs []) /\ is_quit (nth 0 xs []) = false.

(** A client whose requests are served one by one. *)
Record listening s id A K z k : Prop := Listening {
  li_up : up s id A K z k;
  li_cdb : cdb (cl s) = id;
  li_flags : has (flags (cl s)) BUSY_FLAGS = false;
  li_paused : clients_paused (srv s) = false;
  li_table : table_ok s
}.

(** The requests [qs] are still to be executed; the first may be partly
    read.  The bytes of them that are not yet consumed are [e]. *)
Inductive outstanding s A : list (list bytes) -> bytes -> Prop :=
| OutNone : fresh (cin (cl s)) -> outstanding s A [] []
| OutSome ds xs w rs : arguments s A ds -> awaits (cin (cl s)) ds xs w ->
    (reqtype (cin (cl s)) = 0 /\ multibulklen (cin (cl s)) = 0) \/ reqtype (cin (cl s)) = PROTO_REQ_MULTIBULK ->
    outstanding s A ((ds ++ xs) :: rs) (w ++ encode_requests rs).

Definition closed s : Prop := has (flags (cl s)) CLIENT_CLOSE_ASAP = true.

Lemma fresh_outstanding s A rs : fresh (cin (cl s)) -> outstanding s A rs (encode_requests rs).
Proof.
  intros F. pose proof F as (Ha & Ht & Hm & Hb). destruct rs as [|r rs]; [by constructor|].
  unfold encode_requests. rewrite fmap_cons. cbn [concat]. apply (OutSome s A [] r); [|by constructor|by left].
  unfold arguments, args_of. rewrite Ha. constructor.
Qed.

Lemma awaits_nonempty i ds xs w : awaits i ds xs w -> w <> [].
Proof.
  intros H. inversion H as [? Hm Hb|xs0 w0 Hw Hne]; subst; [done|]. inversion Hw; subst; [by destruct xs|]. by destruct x.
Qed.

Lemma outstanding_nil s A qs : outstanding s A qs [] -> qs = [].
Proof.
  intros H. inversion H as [|ds xs w rs Har Haw Ht Eq E]; [done|]. exfalso. apply app_eq_nil in E as [-> E']. by eapply awaits_nonempty.
Qed.

Lemma awaits_short_nil i ds xs w : awaits i ds xs w -> short i [].
Proof.
  intros H. unfold short. cbn. inversion H as [? Hm Hb|xs0 w0 Hw Hne]; subst; [by rewrite Hb|].
  inversion Hw as [? Hm Hb|x ? Hm Hb]; subst; rewrite Hb; [done|]. rewrite (proj2 (Z.eqb_neq (Z.of_nat (length x)) (-1))) by lia. lia.
Qed.

Lemma outstanding_short_nil s A qs e : outstanding s A qs e -> short (cin (cl s)) [].
Proof.
  intros H. inversion H as [Hf|ds xs w rs Har Haw Ht]; subst; [|by eapply awaits_short_nil]. destruct Hf as (_ & _ & _ & Hb). unfold short. by rewrite Hb.
Qed.

Lemma outstanding_cons s A r qs e : outstanding s A (r :: qs) e ->
  exists ds xs w, r = ds ++ xs /\ e = w ++ encode_requests qs /\ arguments s A ds /\ awaits (cin (cl s)) ds xs w /\
    ((reqtype (cin (cl s)) = 0 /\ multibulklen (cin (cl s)) = 0) \/ reqtype (cin (cl s)) = PROTO_REQ_MULTIBULK).
Proof. intros H. inversion H; subst. by eexists _, _, _. Qed.

(** The first byte of a request that has not been begun. *)
Lemma awaits_star i ds xs w : awaits i ds xs w -> multibulklen i = 0 -> exists w', w = 42 :: w'.
Proof.
  intros H H0. inversion H as [? Hm Hb|xs0 w0 Hw Hne]; subst; [by eexists|]. exfalso.
  inversion Hw; subst; [destruct xs; [done|cbn [length] in *; lia]|lia].
Qed.

Lemma input_stops_wp s id A K z k (Q : bool -> state -> Prop) : listening s id A K z k ->
  Q (has (flags (cl s)) CLIENT_CLOSE_ASAP) s -> wp (input_stops C) Q s.
Proof.
  intros L HQ. unfold input_stops. wp_step. apply wp_bind, (wp_mono _ (fun b s' => b = false /\ s' = s)).
  { destruct (negb _); [|by wp_step]. unfold clientsArePaused. wp_step. rewrite (li_paused _ _ _ _ _ _ L). cbn [andb]. by wp_step. }
  intros b s' [-> ->]. wp_step. wp_step.
  rewrite (has_part _ _ CLIENT_BLOCKED (li_flags _ _ _ _ _ _ L)) by done. cbn [orb].
  assert (forall f, has f CLIENT_CLOSE_AFTER_REPLY = false -> has f (Z.lor CLIENT_CLOSE_AFTER_REPLY CLIENT_CLOSE_ASAP) = has f CLIENT_CLOSE_ASAP) as ->; [|exact HQ|].
  - intros f. unfold has. rewrite negb_false_iff, Z.eqb_eq. intros H. by rewrite Z.land_lor_distr_r, H, Z.lor_0_l.
  - by eapply has_part; [apply L|].
Qed.

Lemma fed_listening s s' id A K z k : fed s s' A -> Z.of_nat (length (args_of s')) <= ARGS_LIMIT ->
  listening s id A K z k -> listening s' id A K z k.
Proof.
  intros F Hl [U H1 H2 H3 H4]. pose proof (fed_client _ _ _ F) as Hc. pose proof (fe_srv _ _ _ F) as Hsrv.
  constructor; [by eapply fed_up|by rewrite Hc|by rewrite Hc|by rewrite Hsrv|unfold table_ok; by rewrite Hsrv].
Qed.

Lemma listening_mono s id A K z k k' : listening s id A K z k' -> (k <= k')%nat -> listening s id A K z k.
Proof. intros [U H1 H2 H3 H4] Hk. constructor; try done. by eapply up_mono. Qed.

Lemma listening_slack s id A K z k : listening s id A K z k -> forall a, 0 <= slack s A a.
Proof. intros [U _ _ _ _] a. apply (sv_slack _ _ _ _ _ (up_serving _ _ _ _ _ _ U)). Qed.

(** A request that has been read is executed, and the client is ready for
    the next. *)
Lemma execute_wp s id A K z k xs (Q : unit -> state -> Prop) :
  listening s id A K z (3 + k) -> arguments s A xs -> valid_request xs -> Z.of_nat (length (aof_text (C := C))) < SDS_LIMIT ->
  (forall s' A', listening s' id A' (answers s id [xs] K).1 (z ++ said s (answers s id [xs] K).2) k -> carried s s' id A A' ->
     fresh (cin (cl s')) -> querybuf (cin (cl s')) = querybuf (cin (cl s)) -> Q tt s') ->
  wp (if bool_decide (argv (cin (cl s)) = []) then resetClient
      else alive ← processCommand C; if (alive : bool) then resetClient else skip) Q s.
Proof.
  intros [U Hid Hb Hp Ht] Har ((Hne & Hlen & Hsz) & Hplain & Hq) Haof HQ.
  rewrite bool_decide_eq_false_2; [|intros Hnil; apply Forall2_length in Har; unfold args_of in Har; rewrite Hnil in Har; by destruct xs].
  destruct xs as [|x xs]; [done|]. cbn [nth] in *. apply wp_bind.
  eapply (processCommand_up s id A K z k (x :: xs) x); [exact U|exact Hid|exact Har|done|exact Hplain|by eapply has_part|exact Ht|exact Haof|].
  intros s1 A1 F. rewrite Hq in *. cbn [negb]. pose proof (finished_carried _ _ _ _ _ _ _ _ F) as Hc1. destruct F as [U1 Hh1 St1 Hf1 Ht1].
  eapply resetClient_wp; [exact U1|exact St1|by rewrite (more_has _ _ _ Hf1)|]. intros s2 U2 Hc2 Hfr Hqb Hsrv.
  pose proof (carried_trans _ _ _ _ _ _ _ Hc1 Hc2) as Hc. apply (HQ s2 A1); [|exact Hc|exact Hfr|].
  - cbn [answers ref_requests fst snd]. rewrite app_nil_r. constructor; [exact U2|by rewrite (ca_cdb _ _ _ _ _ Hc)| | |].
    + by rewrite (more_has _ _ _ (ca_flags _ _ _ _ _ Hc)).
    + by rewrite (ca_paused _ _ _ _ _ Hc).
    + unfold table_ok. by rewrite Hsrv.
  - rewrite Hqb. pose proof (ha_cin _ _ _ _ _ Hh1) as H. by injection H.
Qed.

Lemma answers_cons s id r rs K :
  answers s id (r :: rs) K = ((answers s id rs (answers s id [r] K).1).1, (answers s id [r] K).2 ++ (answers s id rs (answers s id [r] K).1).2).
Proof. unfold answers. cbn [ref_requests fst snd]. by rewrite app_nil_r. Qed.

Lemma answers_app s id rs rs' K :
  answers s id (rs ++ rs') K = ((answers s id rs' (answers s id rs K).1).1, (answers s id rs K).2 ++ (answers s id rs' (answers s id rs K).1).2).
Proof.
  revert K. induction rs as [|r rs IH]; intros K.
  - change (answers s id [] K) with (K, @nil Z). cbn [app fst snd]. apply surjective_pairing.
  - cbn [app]. rewrite (answers_cons s id r (rs ++ rs')), (answers_cons s id r rs), IH. cbn [fst snd]. by rewrite <- app_assoc.
Qed.

Lemma answers_carried s s' id A A' rs K : carried s s' id A A' -> answers s' id rs K = answers s id rs K.
Proof. intros H. unfold answers. by rewrite (ca_auth _ _ _ _ _ H), (carried_master _ _ _ _ _ H). Qed.

Lemma processInputBuffer_wp qs : forall fuel s id A K z k e y u (Q : unit -> state -> Prop),
  (length qs < fuel)%nat -> listening s id A K z (3 * length qs + k) -> outstanding s A qs e ->
  sds_rep (querybuf (cin (cl s))) y -> fits (cin (cl s)) 0 y -> Forall valid_request qs -> Z.of_nat (length (aof_text (C := C))) < SDS_LIMIT ->
  y ++ u = e ->
  (forall s' A' dn qs' e' y', qs = dn ++ qs' -> listening s' id A' (answers s id dn K).1 (z ++ said s (answers s id dn K).2) (3 * length qs' + k) ->
     carried s s' id A A' -> outstanding s' A' qs' e' -> sds_rep (querybuf (cin (cl s'))) y' -> y' ++ u = e' ->
     closed s' \/ (short (cin (cl s')) y' /\ (u = [] -> qs' = [])) -> Q tt s') ->
  wp (processInputBuffer C fuel) Q s.
Proof.
  induction qs as [|r qs IH]; intros fuel s id A K z k e y u Q Hfuel L O Hq Hfits Hv Haof E HQ.
  all: destruct fuel as [|fuel]; [cbn in Hfuel; lia|].
  all: assert (Hcar : carried s s id A A) by (apply fed_carried; [by eapply listening_slack|apply fed_refl]).
  all: cbn [processInputBuffer]; apply wp_bind, get_querybuf_wp; rewrite (sds_rep_len _ _ Hq).
  - assert (e = []) as Ee by (by inversion O). assert (y = []) as -> by (rewrite Ee in E; by apply app_eq_nil in E as [-> _]). cbn [length Z.of_nat Z.eqb]. apply wp_skip.
    eapply (HQ s A [] [] e []); [done| |exact Hcar|exact O|exact Hq|exact E|right; split; [by eapply outstanding_short_nil|done]].
    cbn [answers ref_requests fst snd]. unfold said. destruct (talks _); by rewrite app_nil_r.
  - assert (Hstop : closed s \/ (short (cin (cl s)) y /\ (u = [] -> r :: qs = [])) -> Q tt s).
    { intros Hw. eapply (HQ s A [] (r :: qs) e y); [done| |exact Hcar|exact O|exact Hq|exact E|exact Hw].
      cbn [answers ref_requests fst snd]. unfold said. destruct (talks _); by rewrite app_nil_r. }
    destruct (Z.eqb_spec (Z.of_nat (length y)) 0) as [Hy0|Hy0].
    { assert (y = []) as -> by (destruct y; [done|cbn in Hy0; lia]). apply wp_skip, Hstop. right. split; [by eapply outstanding_short_nil|].
      intros ->. cbn in E. rewrite <- E in O. by eapply outstanding_nil. }
    apply wp_bind. eapply input_stops_wp; [exact L|]. destruct (has (flags (cl s)) CLIENT_CLOSE_ASAP) eqn:Hcl.
    { apply wp_skip, Hstop. by left. }
    wp_step. destruct (outstanding_cons _ _ _ _ _ O) as (ds & xs & w & -> & -> & Har & Haw & Ht).
    apply Forall_cons in Hv as [Hr Hv]. set (s1 := with_cin (CInput (querybuf (cin (cl s))) PROTO_REQ_MULTIBULK (multibulklen (cin (cl s))) (bulklen (cin (cl s))) (argv (cin (cl s)))) s).
    apply wp_bind, (wp_mono _ (fun _ s' => s' = s1)).
    { destruct Ht as [[Ht Hm]|Ht]; rewrite Ht; cbn [Z.eqb Pos.eqb PROTO_REQ_MULTIBULK].
      - destruct (awaits_star _ _ _ _ Haw Hm) as [w' ->]. destruct y as [|c y]; [done|]. injection E as -> E.
        destruct Hq as (Hh & tl & Hbuf & Hl & Hal). apply wp_bind. eapply wp_lift; [by rewrite Hbuf|]. unfold set_reqtype. by apply set_in_wp.
      - apply wp_skip. subst s1. unfold with_cin, set_cl, set_cin. destruct s as [? ? c ? ? ?]; destruct c as [? ? ? ? ? ? ? ? i ? ? ?]; destruct i. cbn in Ht |- *. by rewrite Ht. }
    intros _ s' ->. assert (F1 : fed s s1 A) by (by apply with_cin_fed).
    apply wp_bind. unfold processBuffer. wp_step. cbn [reqtype cin cl s1 with_cin set_cl set_cin Z.eqb Pos.eqb PROTO_REQ_INLINE PROTO_REQ_MULTIBULK].
    assert (Hw1 : awaits (cin (cl s1)) ds xs w).
    { inversion Haw as [xs0 Hm Hb Hav Hds|xs0 w0 Hw Hne]; subst; [by constructor|]. apply AwaitsArgs; [|done]. by inversion Hw; subst; constructor. }
    pose proof (proj1 Hr) as Hsized. pose proof (listening_slack _ _ _ _ _ _ L) as Hsl.
    eapply (processMultibulkBuffer_wp s1 A ds xs w y (encode_requests qs) u); [by apply with_cin_arguments|exact Hw1|exact Hq| | |exact Hsized|exact E| |].
    + destruct Hfits as [H|H]; [by left|by right].
    + intros a. by rewrite (fe_slack _ _ _ F1).
    + intros s2 y2 [G1 G2 (q2 & l2 & Hc2 & Hq2)] Ey. cbn [negb].
      pose proof (fed_trans _ _ _ _ F1 G1) as F2. pose proof (Forall2_length _ _ _ G2) as Hlen.
      destruct Hsized as (Hne & Hlim & _). unfold REQUEST_LIMIT in Hlim.
      assert (L2 : listening s2 id A K z (3 + (3 * length qs + k))).
      { eapply fed_listening; [exact F2|rewrite Hlen; unfold ARGS_LIMIT; lia|]. eapply listening_mono; [exact L|cbn [length]; lia]. }
      pose proof (fed_carried _ _ id _ Hsl F2) as Hc.
      wp_step. apply wp_bind. eapply (execute_wp s2 id A K z (3 * length qs + k) (ds ++ xs)); [exact L2|exact G2|exact Hr|exact Haof|].
      intros s3 A3 L3 Hc3 Hfr Hqb. rewrite Hc2 in Hqb. cbn [querybuf] in Hqb. pose proof (carried_trans _ _ _ _ _ _ _ Hc Hc3) as Hc13.
      assert (Es : y2 ++ u = encode_requests qs) by (rewrite Ey, <- app_assoc in E; by apply app_inv_head in E).
      rewrite (answers_carried _ _ _ _ _ _ _ Hc), (carried_said _ _ _ _ _ _ Hc) in L3.
      eapply (IH fuel s3 id A3 _ _ k (encode_requests qs) y2 u); [cbn in Hfuel; lia|exact L3|by apply fresh_outstanding|by rewrite Hqb| |exact Hv|exact Haof|exact Es|].
      * left. destruct Hfits as [H|(_ & Hb & Hl)]; [rewrite Ey, length_app in H; unfold SMALL_BUFFER in *; lia|].
        inversion Haw as [xs0 Hm Hbb Hav Hds|xs0 w0 Hw Hn]; subst; [rewrite Hbb in Hb; unfold PROTO_MBULK_BIG_ARG in Hb; lia|].
        inversion Hw as [xs1 Hm Hbb|x xs1 Hm Hbb]; subst; rewrite Hbb in *; [unfold PROTO_MBULK_BIG_ARG in Hb; lia|].
        rewrite !length_app in Hl. cbn [length CRLF] in Hl. unfold SMALL_BUFFER, PROTO_INLINE_MAX_SIZE. lia.
      * intros s4 A4 dn qs' e4 y4 -> L4 Hc4 O4 Hq4 E4 H4. pose proof (carried_trans _ _ _ _ _ _ _ Hc13 Hc4) as Hc14.
        eapply (HQ s4 A4 ((ds ++ xs) :: dn) qs' e4 y4); [done| |exact Hc14|exact O4|exact Hq4|exact E4|exact H4].
        rewrite answers_cons. cbn [fst snd]. rewrite said_app, app_assoc.
        by rewrite (answers_carried _ _ _ _ _ _ _ Hc13), (carried_said _ _ _ _ _ _ Hc13) in L4.
    + intros s2 ds2 xs2 w2 y2 [G1 G2 G3 G4 G5 G6] Hds E2. cbn [negb]. apply wp_skip. pose proof (fed_trans _ _ _ _ F1 G1) as F2.
      destruct Hsized as (Hne & Hlim & _). unfold REQUEST_LIMIT in Hlim. pose proof (Forall2_length _ _ _ G2) as Hlen.
      rewrite Hds in *. assert (length ds2 <= length (ds2 ++ xs2))%nat as Hle by (rewrite length_app; lia).
      eapply (HQ s2 A [] ((ds2 ++ xs2) :: qs) (w2 ++ encode_requests qs) y2); [done| |by apply fed_carried| |exact G5|exact E2|].
      * cbn [answers ref_requests fst snd]. unfold said. replace (z ++ (if talks (cl s) then [] else [])) with z by (destruct (talks _); by rewrite app_nil_r).
        eapply fed_listening; [exact F2|rewrite Hlen; unfold ARGS_LIMIT; lia|exact L].
      * apply (OutSome s2 A ds2 xs2 w2 qs); [exact G2|exact G3|by right].
      * right. split; [apply G6|]. intros ->. exfalso. rewrite app_nil_r in E2. destruct G6 as [_ G6]. rewrite E2, length_app in G6. lia.
Qed.

(** ** Reading from the socket *)

Definition QUERYBUF_LIMIT : Z := 2 ^ 30.

Lemma alike_listening s s' id A K z k : alike s s' -> cdb (cl s') = cdb (cl s) -> flags (cl s') = flags (cl s) ->
  clients_paused (srv s') = clients_paused (srv s) -> commands (srv s') = commands (srv s) -> listening s id A K z k -> listening s' id A K z k.
Proof.
  intros H E1 E2 E3 E4 [U H1 H2 H3 H4]. constructor; [by eapply alike_up|by rewrite E1|by rewrite E2|by rewrite E3|unfold table_ok; by rewrite E4].
Qed.

Lemma short_length i ds xs w y : awaits i ds xs w -> Forall (fun x => Z.of_nat (length x) <= ARG_LIMIT) xs -> short i y ->
  (bulklen i = -1 /\ Z.of_nat (length y) <= 32) \/ (0 <= bulklen i <= ARG_LIMIT /\ multibulklen i <> 0 /\ Z.of_nat (length y) < bulklen i + 2).
Proof.
  unfold short. intros Haw Hsz Hsh. inversion Haw as [xs0 Hm Hb|xs0 w0 Hw Hne]; subst; [rewrite Hb in Hsh; by left|].
  inversion Hw as [xs1 Hm Hb|x xs1 Hm Hb]; subst; [rewrite Hb in Hsh; by left|]. right. apply Forall_cons in Hsz as [Hx _].
  rewrite (proj2 (Z.eqb_neq (bulklen i) (-1))) in Hsh by lia. lia.
Qed.

(** What is read fits. *)
Lemma read_fits i ds xs w y x : awaits i ds xs w -> Forall (fun x => Z.of_nat (length x) <= ARG_LIMIT) xs ->
  (reqtype i = 0 /\ multibulklen i = 0) \/ reqtype i = PROTO_REQ_MULTIBULK ->
  sds_rep (querybuf i) y -> short i y ->
  0 < read_length i <= PROTO_IOBUF_LEN /\ Z.of_nat (length y) < 2 ^ 30 /\ (Z.of_nat (length x) <= read_length i -> fits i 0 (y ++ x)).
Proof.
  intros Haw Hsz Ht Hq Hsh. unfold read_length, fits, PROTO_MBULK_BIG_ARG, PROTO_IOBUF_LEN, SMALL_BUFFER, PROTO_INLINE_MAX_SIZE.
  rewrite (sds_rep_len _ _ Hq), length_app. destruct (short_length _ _ _ _ _ Haw Hsz Hsh) as [[Hb Hl]|(Hb & Hm & Hl)].
  - rewrite Hb. cbn [Z.eqb Pos.eqb negb]. rewrite andb_false_r. cbn [andb]. split; [lia|]. split; [lia|]. intros Hx. left. lia.
  - unfold ARG_LIMIT in *. destruct Ht as [[_ Ht]|Ht]; [by rewrite Ht in Hm|]. rewrite Ht. cbn [Z.eqb Pos.eqb PROTO_REQ_MULTIBULK].
    rewrite (proj2 (Z.eqb_neq _ _) Hm), (proj2 (Z.eqb_neq (bulklen i) (-1))) by lia. cbn [negb andb].
    rewrite (wrapu_small 32), wraps_small by ints. rewrite Z.geb_leb.
    destruct (Z.leb_spec (1024 * 32) (bulklen i)) as [Hbig|Hsmall].
    + destruct (Z.ltb_spec (bulklen i + 2 - Z.of_nat (length y)) (1024 * 16)); (split; [lia|]; split; [lia|]); intros Hx; right; (split; [done|]; lia).
    + split; [lia|]. split; [lia|]. intros Hx. left. lia.
Qed.

Lemma readQueryFromClient_wp s fuel read id A K z k qs e y x u (Q : bool -> state -> Prop) :
  (length qs < fuel)%nat -> listening s id A K z (3 * length qs + k) -> outstanding s A qs e -> sds_rep (querybuf (cin (cl s))) y ->
  short (cin (cl s)) y -> Forall valid_request qs -> Z.of_nat (length (aof_text (C := C))) < SDS_LIMIT ->
  QUERYBUF_LIMIT <= client_max_querybuf_len C -> read (read_length (cin (cl s))) = RBytes x -> x <> [] ->
  Z.of_nat (length x) <= read_length (cin (cl s)) -> y ++ x ++ u = e ->
  (forall s' A' dn qs' e' y', qs = dn ++ qs' -> listening s' id A' (answers s id dn K).1 (z ++ said s (answers s id dn K).2) (3 * length qs' + k) ->
     carried s s' id A A' -> outstanding s' A' qs' e' -> sds_rep (querybuf (cin (cl s'))) y' -> y' ++ u = e' ->
     closed s' \/ (short (cin (cl s')) y' /\ (u = [] -> qs' = [])) -> Q true s') ->
  wp (readQueryFromClient C fuel read) Q s.
Proof.
  intros Hfuel L O Hq Hsh Hv Haof Hmax Hread Hx Hlx E HQ.
  destruct qs as [|r qs].
  { assert (e = []) as Ee by (by inversion O). rewrite Ee in E. apply app_eq_nil in E as [_ E]. by apply app_eq_nil in E as [-> _]. }
  destruct (outstanding_cons _ _ _ _ _ O) as (ds & xs & w & -> & Ee & Har & Haw & Ht).
  assert (Forall (fun x => Z.of_nat (length x) <= ARG_LIMIT) xs) as Hsz.
  { apply Forall_cons in Hv as [((_ & _ & H) & _) _]. by apply Forall_app in H as [_ H]. }
  destruct (read_fits _ _ _ _ _ x Haw Hsz Ht Hq Hsh) as (Hrl & Hly & Hfits). specialize (Hfits Hlx). unfold PROTO_IOBUF_LEN in Hrl.
  unfold readQueryFromClient. wp_step. apply wp_bind, get_querybuf_wp. set (i := cin (cl s)) in *. set (n := read_length i) in *.
  apply wp_bind, (wp_mono _ (fun _ s1 => exists f, s1 = set_cl (set_cext f) s /\ authenticated (f (cext (cl s))) = authenticated (cext (cl s)))).
  { destruct (_ <? _); [wp_step; by eexists|]. apply wp_skip. exists (fun e => e). split; [|done]. destruct s as [? ? c ? ? ?]; by destruct c. }
  intros _ s1 (f & -> & Hf). set (s1 := set_cl (set_cext f) s).
  destruct (sdsMakeRoomFor_room (z := 0) (junk (senv C)) (querybuf i) y n Hq) as (q1 & E1 & Hq1 & Hav & _); [lia|unfold SDS_LIMIT; lia|].
  apply wp_bind. eapply wp_lift; [exact E1|]. unfold set_querybuf at 1. apply wp_bind, set_in_wp. rewrite Hread.
  assert (0 < Z.of_nat (length x)) as Hx0 by (destruct x; [done|cbn; lia]). rewrite (proj2 (Z.eqb_neq (Z.of_nat (length x)) 0)) by lia.
  destruct (sdsIncrLen_rep q1 y x Hq1) as (q2 & E2 & q3 & E3 & Hq3); [lia|lia|].
  rewrite (sds_rep_len _ _ Hq). rewrite (sds_rep_len _ _ Hq1) in E2. apply wp_bind. eapply wp_lift; [exact E2|]. apply wp_bind. eapply wp_lift; [exact E3|].
  unfold set_querybuf. apply wp_bind, set_in_wp.
  match goal with |- wp _ _ ?s0 => set (s2 := s0) end.
  apply wp_bind, (wp_mono _ (fun _ s3 => alike s s3 /\ cl s3 = set_cext (fun _ => cext (cl s3)) (set_csock (fun _ => csock (cl s3)) (cl s2)) /\
    authenticated (cext (cl s3)) = authenticated (cext (cl s)) /\ clients_paused (srv s3) = clients_paused (srv s) /\ commands (srv s3) = commands (srv s))).
  { unfold add_input. wp_step. wp_step. apply wp_bind. destruct (has _ _); [wp_step|apply wp_skip]; wp_step; (split; [constructor; reflexivity|]; split; [reflexivity|]; split; [exact Hf|]; split; reflexivity). }
  intros _ s3 (Hal & Hcl & Hau & Hpa & Hcm). rewrite (sds_rep_len _ _ Hq3), Z.gtb_ltb. unfold QUERYBUF_LIMIT in Hmax.
  assert (Hcin : cin (cl s3) = CInput q3 (reqtype i) (multibulklen i) (bulklen i) (argv i)) by (rewrite Hcl; reflexivity).
  rewrite (proj2 (Z.ltb_ge _ _)).
  2:{ destruct Hfits as [Hfits|(_ & Hb & Hfits)]; unfold SMALL_BUFFER, PROTO_INLINE_MAX_SIZE, ARG_LIMIT in *; lia. }
  assert (Hcar : carried s s3 id A A) by (apply alike_carried; [exact Hal|rewrite Hcl; reflexivity..|exact Hau|exact Hpa]).
  apply wp_bind. eapply (processInputBuffer_wp ((ds ++ xs) :: qs) fuel s3 id A K z k e (y ++ x) u); [exact Hfuel| | | | |exact Hv|exact Haof|by rewrite <- app_assoc|].
  - eapply alike_listening; [exact Hal|rewrite Hcl; reflexivity..|exact Hpa|exact Hcm|exact L].
  - rewrite Ee. apply OutSome; rewrite ?Hcin; [by eapply alike_arguments| |exact Ht].
    inversion Haw as [xs0 Hm Hb Hv0 Hds|xs0 w0 Hw Hne]; subst; [by constructor|]. apply AwaitsArgs; [|done]. by inversion Hw; subst; constructor.
  - by rewrite Hcin.
  - rewrite Hcin. destruct Hfits as [H|H]; [by left|by right].
  - intros s4 A4 dn qs' e4 y4 Hdn L4 C4 O4 Hq4 E4 H4. wp_step.
    rewrite (answers_carried _ _ _ _ _ _ _ Hcar), (carried_said _ _ _ _ _ _ Hcar) in L4.
    eapply HQ; [exact Hdn|exact L4|by eapply carried_trans|exact O4|exact Hq4|exact E4|exact H4].
Qed.

(** ** Errors of the protocol *)

Definition line (l : bytes) : Prop := Forall (fun c => c <> 13 /\ c <> 0) l.

Definition no_number (l : bytes) lo hi : Prop := forall n, string2ll l = Some n -> n < lo \/ hi < n.

Definition expects_length i : Prop := reqtype i = PROTO_REQ_MULTIBULK /\ 0 < multibulklen i /\ bulklen i = -1.

(** The requests that are refused, with the error. *)
Inductive malformed i : bytes -> bytes -> Prop :=
| BadCount l rest : argv i = [] -> multibulklen i = 0 -> reqtype i = 0 \/ reqtype i = PROTO_REQ_MULTIBULK ->
    line l -> no_number l (- 2 ^ 63) (1024 * 1024) ->
    malformed i (42 :: l ++ CRLF ++ rest) (error_line (str "Protocol error: invalid multibulk length"))
| BadByte c l rest : expects_length i -> c <> 36 -> line (c :: l) ->
    malformed i (c :: l ++ CRLF ++ rest) (error_line (one_line (str "Protocol error: expected '$', got '" ++ [c] ++ str "'")))
| BadLength l rest : expects_length i -> line l -> no_number l 0 (512 * 1024 * 1024) ->
    malformed i (36 :: l ++ CRLF ++ rest) (error_line (str "Protocol error: invalid bulk length")).

(** The client has been told, and will be closed. *)
Record refused s s' id A K z y msg k : Prop := Refused {
  re_up : up s' id A K (z ++ said s msg) k;
  re_carried : forall a, slack s' A a = slack s A a;
  re_closing : has (flags (cl s')) CLIENT_CLOSE_AFTER_REPLY = true;
  re_args : args_of s' = args_of s;
  re_buf : sds_rep (querybuf (cin (cl s'))) y
}.

Lemma set_protocol_error_wp s s1 id A K z y msg k (Q : unit -> state -> Prop) :
  up s1 id A K (z ++ said s msg) k -> (forall a, slack s1 A a = slack s A a) -> cin (cl s1) = cin (cl s) ->
  sds_rep (querybuf (cin (cl s))) y -> Z.of_nat (length y) < 2 ^ 31 -> (forall s', refused s s' id A K z y msg k -> Q tt s') ->
  wp (setProtocolError 0) Q s1.
Proof.
  intros U Hs Hc Hq Hy HQ. unfold setProtocolError, add_flag. wp_step.
  eapply (trim_querybuf_wp _ y); [cbn; by rewrite Hc|lia|done|]. intros q Hq'. change (Z.to_nat 0) with 0%nat in Hq'. rewrite drop_0 in Hq'.
  apply HQ. constructor; [by eapply alike_up; [|exact U]| | |unfold args_of; cbn; by rewrite Hc|exact Hq'].
  - intros a. rewrite <- Hs. apply alike_slack. done.
  - cbn. unfold has. rewrite Z.land_lor_distr_l. rewrite negb_true_iff, Z.eqb_neq. intros H. apply Z.lor_eq_0_iff in H as [_ H]. discriminate H.
Qed.

Lemma refuse_wp s id A K z y msg k (m : M state unit) (Q : unit -> state -> Prop) :
  up s id A K z (3 + k) -> says C 3 s m msg -> sds_rep (querybuf (cin (cl s))) y -> Z.of_nat (length y) < 2 ^ 31 ->
  (forall s', refused s s' id A K z y msg k -> Q tt s') -> wp (_ ← m; setProtocolError 0) Q s.
Proof.
  intros U Hm Hq Hy HQ. apply wp_bind. eapply (says_up 3 k); [exact U|exact Hm|]. intros s1 U1 T1.
  eapply set_protocol_error_wp; [exact U1|apply T1|apply T1|exact Hq|exact Hy|exact HQ].
Qed.

(** The number of a line that is whole. *)
Lemma bad_line_number p l rest : line l -> line_number ((p :: l) ++ rest) 0 (Z.of_nat (length (p :: l))) = Some (string2ll l).
Proof.
  intros _. unfold line_number. change ((p :: l) ++ rest) with ([p] ++ l ++ rest). rewrite rdn_app; [done|done|cbn [length]; lia].
Qed.

Lemma string2ll_range l n : string2ll l = Some n -> - 2 ^ 63 <= n.
Proof. intros H. apply string2ll_spec in H as [[H _] _]. ints. Qed.

Lemma malformed_wp s id A K z k y msg (Q : bool -> state -> Prop) :
  up s id A K z (3 + k) -> malformed (cin (cl s)) y msg -> reqtype (cin (cl s)) = PROTO_REQ_MULTIBULK -> sds_rep (querybuf (cin (cl s))) y ->
  Z.of_nat (length y) < 2 ^ 31 -> (forall s', refused s s' id A K z y msg k -> Q false s') -> wp (processMultibulkBuffer C) Q s.
Proof.
  intros U Hbad Ht Hq Hy HQ. pose proof Hq as (_ & tl & Hb & Hl & _).
  assert (forall c l rest, y = c :: l ++ CRLF ++ rest -> line (c :: l) ->
    Sds.buf (querybuf (cin (cl s))) = (c :: l) ++ CRLF ++ rest ++ 0 :: tl /\
    strchr (Sds.buf (querybuf (cin (cl s)))) 13 = Some (Some (length (c :: l))) /\
    (Z.of_nat (length (c :: l)) >? s32 (sdslen (querybuf (cin (cl s)))) - 2) = false) as Hline.
  { intros c l rest -> Hcl. rewrite Hl, wraps_small by ints. rewrite Hb. split; [cbn [app]; by rewrite <- !app_assoc|]. split.
    - change (c :: l ++ CRLF ++ rest) with ((c :: l) ++ CRLF ++ rest). rewrite <- !app_assoc. cbn [CRLF app]. by apply (strchr_line (c :: l)).
    - rewrite Z.gtb_ltb, Z.ltb_ge. cbn [length]. rewrite !length_app. cbn [length CRLF]. lia. }
  assert (forall c l rest m, y = c :: l ++ CRLF ++ rest -> line (c :: l) -> expects_length (cin (cl s)) ->
    wp (read_bulklen C 0) (fun p s' => p = Err /\ m s') s -> (forall s', m s' -> refused s s' id A K z y msg k) -> wp (processMultibulkBuffer C) Q s) as Hloop.
  { intros c l rest m Ey Hcl (_ & Hm & Hbl) Hr Hmr. unfold processMultibulkBuffer. wp_step. rewrite (proj2 (Z.eqb_neq (multibulklen (cin (cl s))) 0)) by lia.
    wp_step. wp_step. rewrite (proj2 (Z.eqb_neq (multibulklen (cin (cl s))) 0)) by lia. apply wp_bind, wp_check; [lia|].
    destruct (Z.to_nat (multibulklen (cin (cl s)))) as [|fuel] eqn:Ef; [lia|]. apply wp_bind. cbn [arguments_loop]. wp_step.
    rewrite (proj2 (Z.eqb_neq (multibulklen (cin (cl s))) 0)), Hbl by lia. cbn [Z.eqb Pos.eqb]. apply wp_bind.
    eapply wp_mono; [exact Hr|]. intros p s' [-> Hm']. wp_step. wp_step. by apply HQ, Hmr. }
  inversion Hbad as [l rest Hav Hm Ht' Hln Hno E1 E2|c l rest He Hc Hln E1 E2|l rest He Hln Hno E1 E2].
  - symmetry in E1, E2. assert (line (42 :: l)) as Hcl by (by constructor). destruct (Hline 42 l rest E1 Hcl) as (Hbuf & Hstr & Hnl).
    unfold processMultibulkBuffer. wp_step. rewrite Hm. cbn [Z.eqb]. apply wp_bind. unfold read_count. wp_step.
    apply wp_bind, wp_check; [by rewrite Hav|]. apply wp_bind, get_querybuf_wp. apply wp_bind. eapply wp_lift; [exact Hstr|]. cbn beta iota zeta. rewrite Hnl.
    apply wp_bind. eapply wp_lift; [by rewrite Hbuf|]. apply wp_bind, wp_check; [done|]. apply wp_bind. eapply wp_lift; [rewrite Hbuf; by apply bad_line_number|].
    assert (wp (_ ← protocol_error C (str "Protocol error: invalid multibulk length") 0; mret Err)
      (fun p s' => wp (c ← gets cl; match p with Go pos => if multibulklen (cin c) =? 0 then mret true else _ ← check (multibulklen (cin c) >? 0);
        r ← arguments_loop C (Z.to_nat (multibulklen (cin c))) pos;
        match r with None => mret false | Some pos => _ ← (if negb (pos =? 0) then trim_querybuf pos else skip); c ← gets cl; mret (multibulklen (cin c) =? 0) end
        | _ => mret false end) Q s') s) as Hend.
    { apply wp_bind. unfold protocol_error. eapply (refuse_wp s id A K z y msg k); [exact U| |exact Hq|exact Hy|].
      - rewrite E2. apply (addReplyError_says C). by vm_compute.
      - intros s' R. wp_step. wp_step. wp_step. by apply HQ. }
    destruct (string2ll l) as [n|] eqn:En; [|exact Hend]. destruct (Hno n En) as [H|H]; [pose proof (string2ll_range l n En); lia|].
    rewrite Z.gtb_ltb, (proj2 (Z.ltb_lt (1024 * 1024) n)) by lia. exact Hend.
  - symmetry in E1, E2. destruct (Hline c l rest E1 Hln) as (Hbuf & Hstr & Hnl).
    eapply (Hloop c l rest (fun s' => refused s s' id A K z y msg k)); [exact E1|exact Hln|exact He| |done].
    unfold read_bulklen. apply wp_bind, get_querybuf_wp. change (Z.to_nat 0) with 0%nat. rewrite drop_0. apply wp_bind. eapply wp_lift; [exact Hstr|]. cbn beta iota zeta. rewrite Z.add_0_l, Hnl.
    apply wp_bind. eapply wp_lift; [by rewrite Hbuf|]. rewrite (proj2 (Z.eqb_neq c 36)) by done. cbn [negb].
    apply wp_bind. eapply (says_up 3 k); [exact U| |].
    + apply (addReplyErrorFormat_says (C := C)). rewrite !length_app. by vm_compute.
    + intros s1 U1 T1. rewrite <- E2 in U1. apply wp_bind. eapply set_protocol_error_wp; [exact U1|apply T1|apply T1|exact Hq|exact Hy|]. intros s' R. by wp_step.
  - symmetry in E1, E2. assert (line (36 :: l)) as Hcl by (by constructor). destruct (Hline 36 l rest E1 Hcl) as (Hbuf & Hstr & Hnl).
    eapply (Hloop 36 l rest (fun s' => refused s s' id A K z y msg k)); [exact E1|exact Hcl|exact He| |done].
    unfold read_bulklen. apply wp_bind, get_querybuf_wp. change (Z.to_nat 0) with 0%nat. rewrite drop_0. apply wp_bind. eapply wp_lift; [exact Hstr|]. cbn beta iota zeta. rewrite Z.add_0_l, Hnl.
    apply wp_bind. eapply wp_lift; [by rewrite Hbuf|]. cbn [Z.eqb Pos.eqb negb]. apply wp_bind. eapply wp_lift; [rewrite Hbuf; by apply bad_line_number|].
    assert (wp (_ ← protocol_error C (str "Protocol error: invalid bulk length") 0; mret Err) (fun p s' => p = Err /\ refused s s' id A K z y msg k) s) as Hend.
    { apply wp_bind. unfold protocol_error. eapply (refuse_wp s id A K z y msg k); [exact U| |exact Hq|exact Hy|].
      - rewrite E2. apply (addReplyError_says C). by vm_compute.
      - intros s' R. by wp_step. }
    destruct (string2ll l) as [n|] eqn:En; [|exact Hend]. assert ((n <? 0) || (n >? 512 * 1024 * 1024) = true) as ->; [|exact Hend].
    rewrite Z.gtb_ltb. destruct (Hno n En); lia.
Qed.

Lemma malformed_type i i' y msg : malformed i y msg -> argv i' = argv i -> multibulklen i' = multibulklen i -> bulklen i' = bulklen i ->
  reqtype i' = PROTO_REQ_MULTIBULK -> malformed i' y msg.
Proof.
  intros H E1 E2 E3 E4. inversion H as [l rest Hav Hm Ht' Hln Hno|c l rest (? & ? & ?) Hc Hln|l rest (? & ? & ?) Hln Hno]; subst.
  - constructor; [by rewrite E1|by rewrite E2|by right|done|done].
  - constructor; [split; [done|by rewrite E2, E3]|done|done].
  - constructor; [split; [done|by rewrite E2, E3]|done|done].
Qed.

(** C35. Errors of the protocol: a header that is not the number of arguments,
    or is more than the limit, an argument that does not begin with a dollar
    sign, and a length that is not a number, is negative or is too large are
    answered with the error that says so; nothing is executed, the client is
    closed once it has the answer, and what it has sent stays unread. *)
Theorem malformed_refused s id A K z k y msg fuel :
  listening s id A K z (3 + k) -> ~ closed s -> malformed (cin (cl s)) y msg -> sds_rep (querybuf (cin (cl s))) y ->
  Z.of_nat (length y) < 2 ^ 31 ->
  exists s', processInputBuffer C (S fuel) s = Some (s', tt) /\ refused s s' id A K z y msg k.
Proof.
  intros L Hcl Hbad Hq Hy. assert (wp (processInputBuffer C (S fuel)) (fun _ s' => refused s s' id A K z y msg k) s) as (s' & [] & H); [|by exists s'].
  cbn [processInputBuffer]. apply wp_bind, get_querybuf_wp. rewrite (sds_rep_len _ _ Hq).
  assert (exists c y', y = c :: y' /\ (reqtype (cin (cl s)) = 0 /\ c = 42 \/ reqtype (cin (cl s)) = PROTO_REQ_MULTIBULK)) as (c & y' & Ey & Ht).
  { inversion Hbad as [l rest Hav Hm [Ht|Ht]|? ? ? (Ht & _)|? ? (Ht & _)]; subst; eexists _, _; (split; [reflexivity|]); tauto. }
  rewrite (proj2 (Z.eqb_neq _ _)) by (rewrite Ey; cbn [length]; lia). apply wp_bind. eapply input_stops_wp; [exact L|].
  destruct (has (flags (cl s)) CLIENT_CLOSE_ASAP) eqn:Hf; [by destruct Hcl|]. wp_step.
  set (s1 := with_cin (CInput (querybuf (cin (cl s))) PROTO_REQ_MULTIBULK (multibulklen (cin (cl s))) (bulklen (cin (cl s))) (argv (cin (cl s)))) s).
  apply wp_bind, (wp_mono _ (fun _ s' => s' = s1)).
  { destruct Ht as [[Ht ->]|Ht]; rewrite Ht; cbn [Z.eqb Pos.eqb PROTO_REQ_MULTIBULK].
    - destruct Hq as (Hh & tl & Hbuf & Hl & Hal). apply wp_bind. eapply wp_lift; [by rewrite Hbuf, Ey|]. unfold set_reqtype. by apply set_in_wp.
    - apply wp_skip. subst s1. unfold with_cin, set_cl, set_cin. destruct s as [? ? cc ? ? ?]; destruct cc as [? ? ? ? ? ? ? ? i ? ? ?]; destruct i. cbn in Ht |- *. by rewrite Ht. }
  intros _ s' ->. apply wp_bind. unfold processBuffer. wp_step. cbn [reqtype cin cl s1 with_cin set_cl set_cin Z.eqb Pos.eqb PROTO_REQ_INLINE PROTO_REQ_MULTIBULK].
  assert (alike s s1) as Hal by (constructor; reflexivity).
  eapply (malformed_wp s1 id A K z k y msg); [eapply alike_up; [exact Hal|apply L]|by eapply malformed_type|done|exact Hq|exact Hy|].
  intros s2 [R1 R2 R3 R4 R5]. cbn [negb]. apply wp_skip. constructor; [exact R1| |exact R3|exact R4|exact R5].
  intros a. rewrite R2. by apply alike_slack.
Qed.

(** ** A whole connection *)

(** What the socket has ready of the bytes [v] that are on their way: at
    least one, and no more than is asked for. *)
Definition deliver (n : Z) (ready : nat) (v : bytes) : bytes := take (Nat.min (Z.to_nat n) (S ready)) v.

(** The event loop calls [readQueryFromClient] each time something is ready,
    until everything has come or the client is to be closed. *)
Fixpoint receive (fuel calls : nat) (ready : nat -> nat) (v : bytes) : M state unit :=
  match v, calls with
  | [], _ => skip
  | _, O => fail
  | _, S calls =>
    c ← gets cl;
    alive ← readQueryFromClient C fuel (fun n => RBytes (deliver n (ready calls) v));
    c' ← gets cl;
    if (alive : bool) && negb (has (flags c') CLIENT_CLOSE_ASAP)
    then receive fuel calls ready (drop (length (deliver (read_length (cin c)) (ready calls) v)) v) else skip
  end.

Lemma receive_wp calls : forall s fuel ready id A K z k qs y v (Q : unit -> state -> Prop),
  (length v <= calls)%nat -> (length qs < fuel)%nat -> listening s id A K z (3 * length qs + k) -> outstanding s A qs (y ++ v) ->
  sds_rep (querybuf (cin (cl s))) y -> short (cin (cl s)) y -> Forall valid_request qs -> (v = [] -> qs = []) ->
  Z.of_nat (length (aof_text (C := C))) < SDS_LIMIT -> QUERYBUF_LIMIT <= client_max_querybuf_len C ->
  (forall s' A' dn qs', qs = dn ++ qs' -> listening s' id A' (answers s id dn K).1 (z ++ said s (answers s id dn K).2) (3 * length qs' + k) ->
     carried s s' id A A' -> (qs' = [] /\ fresh (cin (cl s')) /\ sds_rep (querybuf (cin (cl s'))) []) \/ closed s' -> Q tt s') ->
  wp (receive fuel calls ready v) Q s.
Proof.
  induction calls as [|calls IH]; intros s fuel ready id A K z k qs y v Q Hcalls Hfuel L O Hq Hsh Hv Hv0 Haof Hmax HQ.
  all: assert (v = [] -> wp skip Q s) as Hdone.
  1, 3: intros ->; rewrite (Hv0 eq_refl) in *; apply wp_skip; inversion O as [Hf Hq0 He|]; symmetry in He; apply app_eq_nil in He as [-> _];
    apply (HQ s A [] []); [done| |apply fed_carried; [by eapply listening_slack|apply fed_refl]|by left];
    cbn [answers ref_requests fst snd]; unfold said; destruct (talks _); by rewrite app_nil_r.
  { destruct v; [by apply Hdone|cbn in Hcalls; lia]. }
  destruct v as [|b v]; [by apply Hdone|]. clear Hdone. set (V := b :: v) in *. cbn [receive]. fold V. wp_step.
  assert (qs <> []) as Hqs. { intros ->. inversion O as [Hf Hq0 He|]. symmetry in He. apply app_eq_nil in He as [_ He]. discriminate He. }
  assert (0 < read_length (cin (cl s))) as Hrl.
  { destruct qs as [|r qs]; [done|]. destruct (outstanding_cons _ _ _ _ _ O) as (ds & xs & w & -> & Ee & Har & Haw & Ht).
    apply Forall_cons in Hv as [((_ & _ & Hs) & _) _]. apply Forall_app in Hs as [_ Hs]. by apply (read_fits _ _ _ _ _ [] Haw Hs Ht Hq Hsh). }
  set (n := read_length (cin (cl s))) in *. set (x := deliver n (ready calls) V).
  assert (x <> [] /\ Z.of_nat (length x) <= n /\ x ++ drop (length x) V = V) as (Hx & Hlx & Hxd).
  { subst x. unfold deliver. split; [|split].
    - destruct (Nat.min (Z.to_nat n) (S (ready calls))) eqn:Em; [lia|done].
    - rewrite length_take. lia.
    - rewrite length_take. destruct (decide (Nat.min (Z.to_nat n) (S (ready calls)) <= length V)%nat) as [Hle|Hgt].
      + rewrite (Nat.min_l (Nat.min _ _) (length V)) by exact Hle. apply take_drop.
      + rewrite (Nat.min_r (Nat.min _ _) (length V)), drop_all, take_ge, app_nil_r by lia. reflexivity. }
  apply wp_bind. eapply (readQueryFromClient_wp s fuel _ id A K z k qs (y ++ V) y x (drop (length x) V)); [exact Hfuel|exact L|exact O|exact Hq|exact Hsh|exact Hv|exact Haof|exact Hmax|reflexivity|exact Hx|exact Hlx|by rewrite Hxd|].
  intros s1 A1 dn qs1 e1 y1 Hdn L1 C1 O1 Hq1 E1 H1. wp_step. cbn [andb].
  destruct (has (flags (cl s1)) CLIENT_CLOSE_ASAP) eqn:Hcl; cbn [negb].
  { apply wp_skip. eapply (HQ s1 A1 dn qs1); [exact Hdn|exact L1|exact C1|by right]. }
  destruct H1 as [H1|[Hsh1 Hu1]]; [unfold closed in H1; congruence|]. rewrite <- E1 in O1.
  assert (0 < length x)%nat as Hx0 by (destruct x; [done|cbn; lia]).
  eapply (IH s1 fuel ready id A1 _ _ k qs1 y1); [rewrite length_drop; lia|subst qs; rewrite length_app in Hfuel; lia|exact L1|exact O1|exact Hq1|exact Hsh1| |exact Hu1|exact Haof|exact Hmax|].
  { subst qs. by apply Forall_app in Hv as [_ Hv]. }
  intros s2 A2 dn2 qs2 -> L2 C2 H2. eapply (HQ s2 A2 (dn ++ dn2) qs2); [by rewrite <- app_assoc| |by eapply carried_trans|exact H2].
  rewrite (answers_carried _ _ _ _ _ _ _ C1), (carried_said _ _ _ _ _ _ C1) in L2.
  rewrite answers_app. cbn [fst snd]. by rewrite said_app, app_assoc.
Qed.

(** C1. Requests are served: a client sends any list of requests in the format
    with counts, whose first words have no null byte and are not QUIT
    ([valid_request]), and the bytes arrive in pieces of any size, cut anywhere; the requests are executed
    one by one, in order, as on a store of strings, and the replies are those
    of the store, unless the client is to be closed because its replies
    exceed its limits; when all is done the buffer is empty.  No reference is
    lost, and the rest of the server is as before. *)
Theorem requests_served s id A K z k rs fuel calls ready :
  listening s id A K z (3 * length rs + k) -> fresh (cin (cl s)) -> sds_rep (querybuf (cin (cl s))) [] -> Forall valid_request rs ->
  (length rs < fuel)%nat -> (length (encode_requests rs) <= calls)%nat ->
  Z.of_nat (length (aof_text (C := C))) < SDS_LIMIT -> QUERYBUF_LIMIT <= client_max_querybuf_len C ->
  exists s' A' dn rest, receive fuel calls ready (encode_requests rs) s = Some (s', tt) /\ rs = dn ++ rest /\
    listening s' id A' (answers s id dn K).1 (z ++ said s (answers s id dn K).2) (3 * length rest + k) /\ carried s s' id A A' /\
    ((rest = [] /\ fresh (cin (cl s')) /\ sds_rep (querybuf (cin (cl s'))) []) \/ closed s').
Proof.
  intros L F Hq Hv Hfuel Hcalls Haof Hmax.
  destruct (receive_wp calls s fuel ready id A K z k rs [] (encode_requests rs) (fun _ s' => exists A' dn rest, rs = dn ++ rest /\
    listening s' id A' (answers s id dn K).1 (z ++ said s (answers s id dn K).2) (3 * length rest + k) /\ carried s s' id A A' /\
    ((rest = [] /\ fresh (cin (cl s')) /\ sds_rep (querybuf (cin (cl s'))) []) \/ closed s'))) as (s' & [] & E & A' & dn & rest & H).
  - exact Hcalls.
  - exact Hfuel.
  - exact L.
  - by apply fresh_outstanding.
  - exact Hq.
  - destruct F as (_ & _ & _ & Hb). unfold short. by rewrite Hb.
  - exact Hv.
  - intros E. assert (outstanding s A rs []) as O by (rewrite <- E; by apply fresh_outstanding). by eapply outstanding_nil.
  - exact Haof.
  - exact Hmax.
  - intros s' A' dn rest -> L' C' H'. by exists A', dn, rest.
  - by exists s', A', dn, rest.
Qed.

End Spec.

(** ** Examples *)

#[local] Existing Instance demo_config.

(** The small server with its table, and its client at rest. *)
Definition connected (d o : dict casekey redisCommand) : state unit := set_srv (set_commands d o) (demo [] []).

Lemma connected_listening d o k : holds_commands (seed demo_config) d command_table -> Z.of_nat k <= 1000 ->
  listening (connected d o) 0 demo_adb demo_kv [] k.
Proof.
  intros Hd Hk. constructor; [|reflexivity|reflexivity|reflexivity|exact Hd].
  apply (alike_up (demo [] [])); [constructor; reflexivity|]. apply demo_up; [apply (bool_decide_unpack _); vm_compute; exact I|by vm_compute|constructor|by intros a H%elem_of_nil|exact Hk].
Qed.

Lemma connected_table : exists d o, holds_commands (seed demo_config) d command_table /\ holds_commands (seed demo_config) o command_table.
Proof.
  destruct (populate_wp (demo [] []) (fun _ _ => exists d o, holds_commands (seed demo_config) d command_table /\ holds_commands (seed demo_config) o command_table))
    as (_ & _ & _ & H); [apply no_commands..|by eauto|exact H].
Qed.

Definition session : list (list bytes) := [[str "SET"; str "k"; str "v"]; [str "GET"; str "k"]; [str "GET"; str "none"]].

Lemma session_valid : Forall valid_request session.
Proof.
  repeat constructor; try done; try (unfold ARG_LIMIT, REQUEST_LIMIT; cbn; lia); by (apply (bool_decide_unpack _); vm_compute).
Qed.

Lemma session_answers d o : (answers (connected d o) 0 session demo_kv).2 = str "+OK" ++ CRLF ++ bulk (str "v") ++ str "$-1" ++ CRLF.
Proof. change (answers (connected d o) 0 session demo_kv) with (ref_requests true false 0 session demo_kv). by vm_compute. Qed.

Lemma requests_served_witness :
  Forall valid_request session /\
  exists d o s' A' K' dn rest, receive 4 200 (fun j => j mod 3)%nat (encode_requests session) (connected d o) = Some (s', tt) /\
    session = dn ++ rest /\ (rest = [] -> up s' 0 A' K' (str "+OK" ++ CRLF ++ bulk (str "v") ++ str "$-1" ++ CRLF) 0) /\ (rest = [] \/ closed s').
Proof.
  split; [exact session_valid|]. destruct connected_table as (d & o & Hd & _).
  destruct (requests_served (connected d o) 0 demo_adb demo_kv [] 0 session 4 200 (fun j => j mod 3)%nat (connected_listening d o (3 * length session + 0) Hd ltac:(cbn; lia))
    ltac:(by repeat split) ltac:(by apply sample_sds_rep) session_valid) as (s' & A' & dn & rest & E & Er & L & _ & H); [cbn; lia|by apply Nat.leb_le; vm_compute|by vm_compute|by vm_compute|].
  exists d, o, s', A', (answers (connected d o) 0 dn demo_kv).1, dn, rest. split; [exact E|]. split; [exact Er|]. split; [|tauto].
  intros ->. rewrite app_nil_r in Er. subst dn. pose proof (li_up _ _ _ _ _ _ L) as U. rewrite session_answers in U. exact U.
Defined.

Definition refused_bytes : bytes := str "*x" ++ CRLF ++ str "GET k".

Definition refusing (d o : dict casekey redisCommand) : state unit :=
  with_cin (CInput (sample_sds refused_bytes) 0 0 (-1) []) (connected d o).

Lemma refusing_malformed d o : malformed (cin (cl (refusing d o))) refused_bytes (error_line (str "Protocol error: invalid multibulk length")).
Proof.
  apply (BadCount _ (str "x") (str "GET k")); [reflexivity|reflexivity|by left|by apply (bool_decide_unpack _); vm_compute|].
  intros n Hn. by vm_compute in Hn.
Qed.

Lemma malformed_refused_witness :
  exists d o s', malformed (cin (cl (refusing d o))) refused_bytes (error_line (str "Protocol error: invalid multibulk length")) /\
    processInputBuffer demo_config 1 (refusing d o) = Some (s', tt) /\
    refused (refusing d o) s' 0 demo_adb demo_kv [] refused_bytes (error_line (str "Protocol error: invalid multibulk length")) 0.
Proof.
  destruct connected_table as (d & o & Hd & _). exists d, o.
  destruct (malformed_refused (refusing d o) 0 demo_adb demo_kv [] 0 refused_bytes (error_line (str "Protocol error: invalid multibulk length")) 0) as (s' & E & R).
  - apply (fed_listening (connected d o)); [exact (with_cin_fed (CInput (sample_sds refused_bytes) 0 0 (-1) []) (connected d o) demo_adb eq_refl)|discriminate|by apply connected_listening].
  - intros H. discriminate H.
  - apply refusing_malformed.
  - by apply sample_sds_rep.
  - by vm_compute.
  - exists s'. split; [apply refusing_malformed|]. split; [exact E|exact R].
Defined.

End ProtoRun.
