(* ===== verification/Quicklist.v ===== *)
(** * Lists of compact lists (src/quicklist.c, src/quicklist.h)

    A quicklist is a doubly linked list of nodes, each of which holds a
    compact list, possibly compressed.  The nodes are in a heap; the memory of
    a node is the bytes of its compact list or, when it is compressed, four
    bytes of length and the compressed bytes.  What [malloc] leaves in new
    memory, the addresses it returns and what the compressor finds in its
    table are arguments. *)

From S2P Require Import Prelude Util Ziplist Lzf Monad.
Import Util Ziplist Lzf Monad.

Module Quicklist.

Abbreviation addr := Z (only parsing).

Definition QUICKLIST_HEAD : Z := 0.
Definition QUICKLIST_TAIL : Z := -1.
Definition QUICKLIST_NODE_ENCODING_RAW : Z := 1.
Definition QUICKLIST_NODE_ENCODING_LZF : Z := 2.
Definition QUICKLIST_NODE_CONTAINER_ZIPLIST : Z := 2.
Definition AL_START_HEAD : Z := 0.
Definition AL_START_TAIL : Z := 1.

Definition SIZE_SAFETY_LIMIT : Z := 8192.
Definition MIN_COMPRESS_BYTES : Z := 48.
Definition MIN_COMPRESS_IMPROVE : Z := 8.
Definition COMPRESS_MAX : Z := Z.shiftl 1 16.
Definition FILL_MAX : Z := Z.shiftl 1 15.
Definition optimization_level : list Z := [4096; 8192; 16384; 32768; 65536].

(** The number of entries has 16 bits, the size 32. *)
Record quicklistNode := QuicklistNode {
  nprev : option addr;
  nnext : option addr;
  zl : option bytes;
  sz : Z;
  ncount : Z;
  nenc : Z;
  container : Z;
  recompress : bool
}.

(** [fill] is a signed and [compress] an unsigned field of 16 bits. *)
Record quicklist := MkQuicklist {
  head : option addr;
  tail : option addr;
  count : Z;
  qlen : Z;
  fill : Z;
  compress : Z
}.

(** A pointer into a node's memory is the offset in it. *)
Record quicklistIter := QuicklistIter {
  current : option addr;
  izi : option nat;
  ioffset : Z;
  direction : Z
}.

Record quicklistEntry := QuicklistEntry {
  enode : option addr;
  zi : option nat;
  evalue : option zl_value;
  offset : Z
}.

Definition initEntry : quicklistEntry := QuicklistEntry None None None 123456789.

(** ** Fields *)

Definition set_nprev (p : option addr) (n : quicklistNode) : quicklistNode :=
  QuicklistNode p (nnext n) (zl n) (sz n) (ncount n) (nenc n) (container n) (recompress n).
Definition set_nnext (p : option addr) (n : quicklistNode) : quicklistNode :=
  QuicklistNode (nprev n) p (zl n) (sz n) (ncount n) (nenc n) (container n) (recompress n).
Definition set_zl (z : option bytes) (n : quicklistNode) : quicklistNode :=
  QuicklistNode (nprev n) (nnext n) z (sz n) (ncount n) (nenc n) (container n) (recompress n).
Definition set_sz (v : Z) (n : quicklistNode) : quicklistNode :=
  QuicklistNode (nprev n) (nnext n) (zl n) v (ncount n) (nenc n) (container n) (recompress n).
Definition set_ncount (v : Z) (n : quicklistNode) : quicklistNode :=
  QuicklistNode (nprev n) (nnext n) (zl n) (sz n) v (nenc n) (container n) (recompress n).
Definition set_nenc (v : Z) (n : quicklistNode) : quicklistNode :=
  QuicklistNode (nprev n) (nnext n) (zl n) (sz n) (ncount n) v (container n) (recompress n).
Definition set_recompress (b : bool) (n : quicklistNode) : quicklistNode :=
  QuicklistNode (nprev n) (nnext n) (zl n) (sz n) (ncount n) (nenc n) (container n) b.

Definition set_head (p : option addr) (q : quicklist) : quicklist :=
  MkQuicklist p (tail q) (count q) (qlen q) (fill q) (compress q).
Definition set_tail (p : option addr) (q : quicklist) : quicklist :=
  MkQuicklist (head q) p (count q) (qlen q) (fill q) (compress q).
Definition set_count (v : Z) (q : quicklist) : quicklist :=
  MkQuicklist (head q) (tail q) v (qlen q) (fill q) (compress q).
Definition set_qlen (v : Z) (q : quicklist) : quicklist :=
  MkQuicklist (head q) (tail q) (count q) v (fill q) (compress q).
Definition set_fill (v : Z) (q : quicklist) : quicklist :=
  MkQuicklist (head q) (tail q) (count q) (qlen q) v (compress q).
Definition set_compress (v : Z) (q : quicklist) : quicklist :=
  MkQuicklist (head q) (tail q) (count q) (qlen q) (fill q) v.

(** ** Creation *)

Definition quicklistCreate : quicklist := MkQuicklist None None 0 0 (-2) 0.

Definition quicklistSetCompressDepth (q : quicklist) (depth : Z) : quicklist :=
  set_compress (wrapu 16 (if depth >? COMPRESS_MAX then COMPRESS_MAX else if depth <? 0 then 0 else depth)) q.

Definition quicklistSetFill (q : quicklist) (f : Z) : quicklist :=
  set_fill (wraps 16 (if f >? FILL_MAX then FILL_MAX else if f <? -5 then -5 else f)) q.

Definition quicklistSetOptions (q : quicklist) (f depth : Z) : quicklist :=
  quicklistSetCompressDepth (quicklistSetFill q f) depth.

Definition quicklistNew (f depth : Z) : quicklist := quicklistSetOptions quicklistCreate f depth.

Definition quicklistCount (q : quicklist) : Z := u32 (count q).

Definition fresh_node : quicklistNode :=
  QuicklistNode None None None 0 0 QUICKLIST_NODE_ENCODING_RAW QUICKLIST_NODE_CONTAINER_ZIPLIST false.

(** ** What a node may take *)

Definition _quicklistNodeSizeMeetsOptimizationRequirement (sz fill : Z) : bool :=
  if fill >=? 0 then false
  else
    match optimization_level !! Z.to_nat (- fill - 1) with
    | Some limit => sz <=? limit
    | None => false
    end.

Definition sizeMeetsSafetyLimit (sz : Z) : bool := sz <=? SIZE_SAFETY_LIMIT.

Definition ziplist_overhead (sz : Z) : Z :=
  (if sz <? 254 then 1 else 5) + (if sz <? 64 then 1 else if sz <? 16384 then 2 else 5).

Definition _quicklistNodeAllowInsert (node : option quicklistNode) (fill sz' : Z) : bool :=
  match node with
  | None => false
  | Some n =>
    let new_sz := u32 (sz n + sz' + ziplist_overhead sz') in
    if _quicklistNodeSizeMeetsOptimizationRequirement new_sz fill then true
    else if negb (sizeMeetsSafetyLimit new_sz) then false
    else ncount n <? fill
  end.

Definition _quicklistNodeAllowMerge (a b : option quicklistNode) (fill : Z) : bool :=
  match a, b with
  | Some a, Some b =>
    let merge_sz := u32 (sz a + sz b - 11) in
    if _quicklistNodeSizeMeetsOptimizationRequirement merge_sz fill then true
    else if negb (sizeMeetsSafetyLimit merge_sz) then false
    else ncount a + ncount b <=? fill
  | _, _ => false
  end.

(** ** The state *)

Record qstate := QState { nodes : gmap addr quicklistNode; ql : quicklist }.

Definition set_nodes (f : gmap addr quicklistNode -> gmap addr quicklistNode) (s : qstate) : qstate := QState (f (nodes s)) (ql s).
Definition set_ql (f : quicklist -> quicklist) (s : qstate) : qstate := QState (nodes s) (f (ql s)).

Section Ops.
Context (junk : nat -> Z) (garbage : Z -> Z) (alloc : gset addr -> addr).

Abbreviation M := (M qstate).

Definition get_node (a : addr) : M quicklistNode := s ← get; lift (nodes s !! a).

(** The node of a pointer that may be null. *)
Definition get_opt (p : option addr) : M (option quicklistNode) :=
  match p with Some a => n ← get_node a; mret (Some n) | None => mret None end.

Definition upd (a : addr) (f : quicklistNode -> quicklistNode) : M unit :=
  n ← get_node a; modify (set_nodes (fun h => <[a := f n]> h)).

Definition upd_opt (p : option addr) (f : quicklistNode -> quicklistNode) : M unit :=
  match p with Some a => upd a f | None => skip end.

Definition upd_ql (f : quicklist -> quicklist) : M unit := modify (set_ql f).

Definition free_node (a : addr) : M unit := _ ← get_node a; modify (set_nodes (fun h => delete a h)).

Definition quicklistCreateNode : M addr :=
  s ← get;
  let a := alloc (dom (nodes s)) in
  _ ← modify (set_nodes (fun h => <[a := fresh_node]> h));
  mret a.

Definition node_zl (a : addr) : M bytes := n ← get_node a; lift (zl n).

(** [node->zl = f(node->zl)]. *)
Definition on_zl (a : addr) (f : bytes -> option bytes) : M unit :=
  z ← node_zl a; z ← lift (f z); upd a (set_zl (Some z)).

Definition quicklistNodeUpdateSz (a : addr) : M unit :=
  z ← node_zl a; n ← lift (ziplistBlobLen z); upd a (set_sz (u32 n)).

Definition add_count (a : addr) (k : Z) : M unit := upd a (fun n => set_ncount (wrapu 16 (ncount n + k)) n).
Definition add_total (k : Z) : M unit := upd_ql (fun q => set_count (u64 (count q + k)) q).
Definition add_len (k : Z) : M unit := upd_ql (fun q => set_qlen (u32 (qlen q + k)) q).

Definition new_blob (n : Z) : bytes := junk <$> seq 0 (Z.to_nat n).

(** ** Compression *)

Definition __quicklistCompressNode (a : addr) : M bool :=
  n ← get_node a;
  if sz n <? MIN_COMPRESS_BYTES then mret false
  else
    z ← node_zl a;
    input ← lift (rdn z 0 (Z.to_nat (sz n)));
    '(csz, out) ← lift (lzf_compress garbage input (new_blob (sz n)));
    if (csz =? 0) || (u32 (csz + MIN_COMPRESS_IMPROVE) >=? sz n) then mret false
    else
      _ ← upd a (fun n => set_recompress false (set_nenc QUICKLIST_NODE_ENCODING_LZF
             (set_zl (Some (le_enc 4 csz ++ take (Z.to_nat csz) out)) n)));
      mret true.

Definition quicklistCompressNode (p : option addr) : M unit :=
  match p with
  | Some a =>
    n ← get_node a;
    if nenc n =? QUICKLIST_NODE_ENCODING_RAW then _ ← __quicklistCompressNode a; skip else skip
  | None => skip
  end.

(** The length and the bytes of [quicklistLZF]. *)
Definition quicklistGetLzf (z : bytes) : option (Z * bytes) :=
  n ← rd32 z 0; c ← rdn z 4 (Z.to_nat n); Some (n, c).

Definition __quicklistDecompressNode (a : addr) : M bool :=
  n ← get_node a;
  z ← node_zl a;
  '(_, c) ← lift (quicklistGetLzf z);
  r ← lift (lzf_decompress c (new_blob (sz n)));
  match r with
  | inl (k, out) =>
    if k =? 0 then mret false
    else _ ← upd a (fun n => set_nenc QUICKLIST_NODE_ENCODING_RAW (set_zl (Some out) n)); mret true
  | inr _ => mret false
  end.

Definition quicklistDecompressNode (p : option addr) : M unit :=
  match p with
  | Some a =>
    n ← get_node a;
    if nenc n =? QUICKLIST_NODE_ENCODING_LZF then _ ← __quicklistDecompressNode a; skip else skip
  | None => skip
  end.

Definition quicklistDecompressNodeForUse (p : option addr) : M unit :=
  match p with
  | Some a =>
    n ← get_node a;
    if nenc n =? QUICKLIST_NODE_ENCODING_LZF then _ ← __quicklistDecompressNode a; upd a (set_recompress true) else skip
  | None => skip
  end.

Definition quicklistAllowsCompression (q : quicklist) : bool := negb (compress q =? 0).

(** The loop of [__quicklistCompress]: [None] when the two ends have met,
    otherwise whether the node was passed and where the ends stand. *)
Fixpoint depth_loop (n : nat) (node forward reverse : option addr) (in_depth : bool) :
    M (option (bool * option addr * option addr)) :=
  match n with
  | O => mret (Some (in_depth, forward, reverse))
  | S n =>
    _ ← quicklistDecompressNode forward;
    _ ← quicklistDecompressNode reverse;
    let in_depth := if bool_decide (forward = node) || bool_decide (reverse = node) then true else in_depth in
    if bool_decide (forward = reverse) then mret None
    else
      f ← lift forward; f ← get_node f;
      r ← lift reverse; r ← get_node r;
      depth_loop n node (nnext f) (nprev r) in_depth
  end.

Definition __quicklistCompress (node : option addr) : M unit :=
  s ← get;
  let q := ql s in
  if negb (quicklistAllowsCompression q) || (qlen q <? u32 (compress q * 2)) then skip
  else
    r ← depth_loop (Z.to_nat (compress q)) node (head q) (tail q) false;
    match r with
    | None => skip
    | Some (in_depth, forward, reverse) =>
      _ ← (if (in_depth : bool) then skip else quicklistCompressNode node);
      if compress q + 1 >? 2 then
        _ ← quicklistCompressNode forward; quicklistCompressNode reverse
      else skip
    end.

Definition quicklistCompress (a : addr) : M unit :=
  n ← get_node a;
  if recompress n then quicklistCompressNode (Some a) else __quicklistCompress (Some a).

Definition quicklistRecompressOnly (a : addr) : M unit :=
  n ← get_node a;
  if recompress n then quicklistCompressNode (Some a) else skip.

(** ** Nodes *)

Definition __quicklistInsertNode (old_node : option addr) (new_node : addr) (after : bool) : M unit :=
  old ← get_opt old_node;
  s ← get;
  _ ← (if after then
    _ ← upd new_node (set_nprev old_node);
    _ ← (match old, old_node with
      | Some o, Some oa =>
        _ ← upd new_node (set_nnext (nnext o));
        _ ← upd_opt (nnext o) (set_nprev (Some new_node));
        upd oa (set_nnext (Some new_node))
      | _, _ => skip
      end);
    if bool_decide (tail (ql s) = old_node) then upd_ql (set_tail (Some new_node)) else skip
   else
    _ ← upd new_node (set_nnext old_node);
    _ ← (match old, old_node with
      | Some o, Some oa =>
        _ ← upd new_node (set_nprev (nprev o));
        _ ← upd_opt (nprev o) (set_nnext (Some new_node));
        upd oa (set_nprev (Some new_node))
      | _, _ => skip
      end);
    if bool_decide (head (ql s) = old_node) then upd_ql (set_head (Some new_node)) else skip);
  _ ← (if qlen (ql s) =? 0 then upd_ql (fun q => set_head (Some new_node) (set_tail (Some new_node) q)) else skip);
  _ ← (match old_node with Some oa => quicklistCompress oa | None => skip end);
  add_len 1.

Definition _quicklistInsertNodeBefore (old_node : option addr) (new_node : addr) : M unit :=
  __quicklistInsertNode old_node new_node false.

Definition _quicklistInsertNodeAfter (old_node : option addr) (new_node : addr) : M unit :=
  __quicklistInsertNode old_node new_node true.

Definition __quicklistDelNode (a : addr) : M unit :=
  n ← get_node a;
  _ ← upd_opt (nnext n) (set_nprev (nprev n));
  _ ← upd_opt (nprev n) (set_nnext (nnext n));
  s ← get;
  _ ← (if bool_decide (Some a = tail (ql s)) then upd_ql (set_tail (nprev n)) else skip);
  _ ← (if bool_decide (Some a = head (ql s)) then upd_ql (set_head (nnext n)) else skip);
  _ ← __quicklistCompress None;
  n ← get_node a;
  _ ← add_total (- ncount n);
  _ ← free_node a;
  add_len (-1).

(** The node is deleted when it has no entries; whether it was. *)
Definition quicklistDeleteIfEmpty (a : addr) : M bool :=
  n ← get_node a;
  if ncount n =? 0 then _ ← __quicklistDelNode a; mret true else mret false.

(** ** Adding at the ends *)

(** A node that holds one string. *)
Definition new_node_with (value : bytes) : M addr :=
  a ← quicklistCreateNode;
  z ← lift (ziplistNew junk);
  z ← lift (ziplistPush junk z value ZIPLIST_HEAD);
  _ ← upd a (set_zl (Some z));
  mret a.

Definition quicklistPushHead (value : bytes) : M bool :=
  s ← get;
  let orig_head := head (ql s) in
  n ← get_opt orig_head;
  _ ← (if _quicklistNodeAllowInsert n (fill (ql s)) (Z.of_nat (length value)) then
    h ← lift orig_head;
    _ ← on_zl h (fun z => ziplistPush junk z value ZIPLIST_HEAD);
    quicklistNodeUpdateSz h
   else
    a ← new_node_with value;
    _ ← quicklistNodeUpdateSz a;
    _quicklistInsertNodeBefore orig_head a);
  _ ← add_total 1;
  s ← get;
  h ← lift (head (ql s));
  _ ← add_count h 1;
  mret (negb (bool_decide (orig_head = Some h))).

Definition quicklistPushTail (value : bytes) : M bool :=
  s ← get;
  let orig_tail := tail (ql s) in
  n ← get_opt orig_tail;
  _ ← (if _quicklistNodeAllowInsert n (fill (ql s)) (Z.of_nat (length value)) then
    t ← lift orig_tail;
    _ ← on_zl t (fun z => ziplistPush junk z value ZIPLIST_TAIL);
    quicklistNodeUpdateSz t
   else
    a ← new_node_with value;
    _ ← quicklistNodeUpdateSz a;
    _quicklistInsertNodeAfter orig_tail a);
  _ ← add_total 1;
  s ← get;
  t ← lift (tail (ql s));
  _ ← add_count t 1;
  mret (negb (bool_decide (orig_tail = Some t))).

Definition quicklistPush (value : bytes) (where_ : Z) : M unit :=
  if where_ =? QUICKLIST_HEAD then _ ← quicklistPushHead value; skip
  else if where_ =? QUICKLIST_TAIL then _ ← quicklistPushTail value; skip
  else skip.

(** [ziplistLen] may store the length again. *)
Definition node_length (a : addr) : M Z :=
  z ← node_zl a; '(n, z) ← lift (ziplistLen z); _ ← upd a (set_zl (Some z)); mret n.

Definition quicklistAppendZiplist (z : bytes) : M unit :=
  a ← quicklistCreateNode;
  _ ← upd a (set_zl (Some z));
  n ← node_length a;
  _ ← upd a (set_ncount (wrapu 16 (u32 n)));
  _ ← quicklistNodeUpdateSz a;
  s ← get;
  _ ← _quicklistInsertNodeAfter (tail (ql s)) a;
  n ← get_node a;
  add_total (ncount n).

(** What an entry holds, written as a string. *)
Definition value_string (v : zl_value) : option bytes :=
  match v with
  | VStr s => Some s
  | VInt n => '(k, dst) ← ll2string (replicate 32 0) 32 n; Some (take (Z.to_nat k) dst)
  end.

(** The loop over the entries of a list: at most one for every byte. *)
Fixpoint append_loop (n : nat) (z : bytes) (p : option nat) : M unit :=
  match p with
  | None => skip
  | Some p =>
    v ← lift (ziplistGet z p);
    match v with
    | None => skip
    | Some v =>
      match n with
      | O => fail
      | S n =>
        value ← lift (value_string v);
        _ ← quicklistPushTail value;
        p ← lift (ziplistNext z p);
        append_loop n z p
      end
    end
  end.

Definition quicklistAppendValuesFromZiplist (z : bytes) : M unit :=
  p ← lift (ziplistIndex z 0); append_loop (length z) z p.

(** ** Deleting *)

(** Whether the node is gone, and the place of the next entry. *)
Definition quicklistDelIndex (a : addr) (p : nat) : M (bool * nat) :=
  z ← node_zl a;
  '(z, p) ← lift (ziplistDelete junk z p);
  _ ← upd a (set_zl (Some z));
  _ ← add_count a (-1);
  n ← get_node a;
  gone ← (if ncount n =? 0 then _ ← __quicklistDelNode a; mret true else _ ← quicklistNodeUpdateSz a; mret false);
  _ ← add_total (-1);
  mret (gone, p).

Definition quicklistDelEntry (iter : quicklistIter) (entry : quicklistEntry) : M quicklistIter :=
  a ← lift (enode entry);
  n ← get_node a;
  p ← lift (zi entry);
  '(deleted_node, _) ← quicklistDelIndex a p;
  mret (if (deleted_node : bool) then
     if direction iter =? AL_START_HEAD then QuicklistIter (nnext n) None 0 (direction iter)
     else if direction iter =? AL_START_TAIL then QuicklistIter (nprev n) None (-1) (direction iter)
     else QuicklistIter (current iter) None (ioffset iter) (direction iter)
   else QuicklistIter (current iter) None (ioffset iter) (direction iter)).

(** ** Finding *)

Fixpoint index_loop (n : nat) (forward : bool) (p : option addr) (accum index : Z) : M (option addr * Z) :=
  match p with
  | None => mret (None, accum)
  | Some a =>
    nd ← get_node a;
    if u64 (accum + ncount nd) >? index then mret (Some a, accum)
    else
      match n with
      | O => fail
      | S n => index_loop n forward (if forward then nnext nd else nprev nd) (u64 (accum + ncount nd)) index
      end
  end.

(** The entry at an index, or [None]. *)
Definition quicklistIndex (idx : Z) : M (option quicklistEntry) :=
  s ← get;
  let q := ql s in
  let forward := negb (idx <? 0) in
  let index := if forward then u64 idx else u64 (s64 (- idx) - 1) in
  if index >=? count q then mret None
  else
    '(n, accum) ← index_loop (S (Z.to_nat (qlen q))) forward (if forward then head q else tail q) 0 index;
    match n with
    | None => mret None
    | Some a =>
      let off := if forward then s32 (index - accum) else s32 (u64 (- index) - 1 + accum) in
      _ ← quicklistDecompressNodeForUse (Some a);
      z ← node_zl a;
      p ← lift (ziplistIndex z off);
      v ← lift (match p with Some p => ziplistGet z p | None => Some None end);
      mret (Some (QuicklistEntry (Some a) p v off))
    end.

(** The outcome of [ziplistDelete] and [ziplistInsert] at the entry. *)
Definition quicklistReplaceAtIndex (index : Z) (data : bytes) : M bool :=
  e ← quicklistIndex index;
  match e with
  | Some entry =>
    a ← lift (enode entry);
    p ← lift (zi entry);
    z ← node_zl a;
    '(z, p) ← lift (ziplistDelete junk z p);
    z ← lift (ziplistInsert junk z p data);
    _ ← upd a (set_zl (Some z));
    _ ← quicklistNodeUpdateSz a;
    _ ← quicklistCompress a;
    mret true
  | None => mret false
  end.

(** ** Merging and splitting *)

(** [ziplistMerge(&a->zl, &b->zl)]: the list with more entries takes the
    other in, whose pointer becomes null; [None] when nothing is merged. *)
Definition merge_zls (za zb : option bytes) : M (option (option bytes * option bytes)) :=
  match za, zb with
  | Some first, Some second =>
    first_len ← lift (ZIPLIST_LENGTH first);
    second_len ← lift (ZIPLIST_LENGTH second);
    z ← lift (ziplistMerge junk first second);
    mret (Some (if first_len >=? second_len then (Some z, None) else (None, Some z)))
  | _, _ => mret None
  end.

Definition _quicklistZiplistMerge (a b : addr) : M (option addr) :=
  _ ← quicklistDecompressNode (Some a);
  _ ← quicklistDecompressNode (Some b);
  na ← get_node a;
  nb ← get_node b;
  r ← merge_zls (zl na) (zl nb);
  match r with
  | Some (za, zb) =>
    _ ← upd a (set_zl za);
    _ ← upd b (set_zl zb);
    let '(nokeep, keep) := match za with None => (a, b) | Some _ => (b, a) end in
    n ← node_length keep;
    _ ← upd keep (set_ncount (wrapu 16 (u32 n)));
    _ ← quicklistNodeUpdateSz keep;
    _ ← upd nokeep (set_ncount 0);
    _ ← __quicklistDelNode nokeep;
    _ ← quicklistCompress keep;
    mret (Some keep)
  | None => mret None
  end.

(** Merging where two neighbours allow it. *)
Definition try_merge (a b : option addr) : M bool :=
  s ← get;
  na ← get_opt a;
  nb ← get_opt b;
  match a, b with
  | Some a, Some b =>
    if _quicklistNodeAllowMerge na nb (fill (ql s)) then _ ← _quicklistZiplistMerge a b; mret true else mret false
  | _, _ => mret false
  end.

Definition _quicklistMergeNodes (center : addr) : M unit :=
  s ← get;
  c ← get_node center;
  let prev := nprev c in
  let next := nnext c in
  p ← get_opt prev;
  n ← get_opt next;
  _ ← try_merge (p ≫= nprev) prev;
  _ ← try_merge next (n ≫= nnext);
  c ← get_node center;
  pn ← get_opt (nprev c);
  target ← (match nprev c with
    | Some p =>
      if _quicklistNodeAllowMerge (Some c) pn (fill (ql s)) then _quicklistZiplistMerge p center else mret (Some center)
    | None => mret (Some center)
    end);
  match target with
  | None => fail
  | Some t => tn ← get_node t; _ ← try_merge (Some t) (nnext tn); skip
  end.

(** [ziplistDeleteRange] with the [int]s of the caller: the number of entries
    is unsigned, and there are fewer entries than bytes. *)
Definition delete_range (z : bytes) (index num : Z) : option bytes :=
  ziplistDeleteRange junk z (s32 index) (Z.to_nat (Z.min (u32 num) (Z.of_nat (length z)))).

Definition _quicklistSplitNode (a : addr) (offset : Z) (after : bool) : M addr :=
  n ← get_node a;
  b ← quicklistCreateNode;
  z ← node_zl a;
  copy ← lift (rdn z 0 (Z.to_nat (sz n)));
  _ ← upd b (set_zl (Some copy));
  let orig_start := if after then s32 (offset + 1) else 0 in
  let orig_extent := if after then -1 else offset in
  let new_start := if after then 0 else offset in
  let new_extent := if after then s32 (offset + 1) else -1 in
  _ ← on_zl a (fun z => delete_range z orig_start orig_extent);
  k ← node_length a;
  _ ← upd a (set_ncount (wrapu 16 (u32 k)));
  _ ← quicklistNodeUpdateSz a;
  _ ← on_zl b (fun z => delete_range z new_start new_extent);
  k ← node_length b;
  _ ← upd b (set_ncount (wrapu 16 (u32 k)));
  _ ← quicklistNodeUpdateSz b;
  mret b.

(** ** Inserting *)

(** A node is taken for use, one entry is added and it is compressed again if
    it was. *)
Definition insert_in_node (a : addr) (f : bytes -> option bytes) : M unit :=
  _ ← quicklistDecompressNodeForUse (Some a);
  _ ← on_zl a f;
  _ ← add_count a 1;
  _ ← quicklistNodeUpdateSz a;
  quicklistRecompressOnly a.

Definition insert_after (value : bytes) (p : nat) (z : bytes) : option bytes :=
  next ← ziplistNext z p;
  match next with
  | None => ziplistPush junk z value ZIPLIST_TAIL
  | Some q => ziplistInsert junk z q value
  end.

Definition _quicklistInsert (entry : quicklistEntry) (value : bytes) (after : bool) : M unit :=
  s ← get;
  let f := fill (ql s) in
  let vsz := Z.of_nat (length value) in
  match enode entry with
  | None =>
    a ← new_node_with value;
    _ ← __quicklistInsertNode None a after;
    _ ← add_count a 1;
    add_total 1
  | Some node =>
    n ← get_node node;
    let full := negb (_quicklistNodeAllowInsert (Some n) f vsz) in
    let at_tail := after && (offset entry =? ncount n) in
    nn ← (if at_tail then get_opt (nnext n) else mret None);
    let full_next := at_tail && negb (_quicklistNodeAllowInsert nn f vsz) in
    let at_head := negb after && (offset entry =? 0) in
    pn ← (if at_head then get_opt (nprev n) else mret None);
    let full_prev := at_head && negb (_quicklistNodeAllowInsert pn f vsz) in
    let has_next := bool_decide (is_Some (nnext n)) in
    let has_prev := bool_decide (is_Some (nprev n)) in
    _ ← (if negb full && after then
        p ← lift (zi entry); insert_in_node node (insert_after value p)
      else if negb full && negb after then
        p ← lift (zi entry); insert_in_node node (fun z => ziplistInsert junk z p value)
      else if full && at_tail && has_next && negb full_next && after then
        b ← lift (nnext n); insert_in_node b (fun z => ziplistPush junk z value ZIPLIST_HEAD)
      else if full && at_head && has_prev && negb full_prev && negb after then
        b ← lift (nprev n); insert_in_node b (fun z => ziplistPush junk z value ZIPLIST_TAIL)
      else if full && ((at_tail && has_next && full_next && after) || (at_head && has_prev && full_prev && negb after)) then
        a ← new_node_with value;
        _ ← add_count a 1;
        _ ← quicklistNodeUpdateSz a;
        __quicklistInsertNode (Some node) a after
      else if full then
        _ ← quicklistDecompressNodeForUse (Some node);
        b ← _quicklistSplitNode node (offset entry) after;
        _ ← on_zl b (fun z => ziplistPush junk z value (if after then ZIPLIST_HEAD else ZIPLIST_TAIL));
        _ ← add_count b 1;
        _ ← quicklistNodeUpdateSz b;
        _ ← __quicklistInsertNode (Some node) b after;
        _quicklistMergeNodes node
      else skip);
    add_total 1
  end.

Definition quicklistInsertBefore (entry : quicklistEntry) (value : bytes) : M unit := _quicklistInsert entry value false.
Definition quicklistInsertAfter (entry : quicklistEntry) (value : bytes) : M unit := _quicklistInsert entry value true.

(** ** Deleting a range *)

(** How many entries of a node go, and whether all of it. *)
Definition range_part (n : quicklistNode) (off extent : Z) : bool * Z :=
  if (off =? 0) && (extent >=? ncount n) then (true, ncount n)
  else if (off >=? 0) && (extent >=? ncount n) then (false, u64 (ncount n - off))
  else if off <? 0 then (false, if u64 (- off) >? extent then extent else u64 (- off))
  else (false, extent).

Fixpoint range_loop (fuel : nat) (node : option addr) (off extent : Z) : M unit :=
  if extent =? 0 then skip
  else
    match fuel with
    | O => fail
    | S fuel =>
      a ← lift node;
      n ← get_node a;
      let next := nnext n in
      let '(entire, del) := range_part n off extent in
      _ ← (if entire then __quicklistDelNode a
        else
          _ ← quicklistDecompressNodeForUse (Some a);
          _ ← on_zl a (fun z => delete_range z off del);
          _ ← quicklistNodeUpdateSz a;
          _ ← add_count a (- del);
          _ ← add_total (- del);
          gone ← quicklistDeleteIfEmpty a;
          if (gone : bool) then skip else quicklistRecompressOnly a);
      range_loop fuel next 0 (u64 (extent - del))
    end.

Definition quicklistDelRange (start cnt : Z) : M bool :=
  if cnt <=? 0 then mret false
  else
    s ← get;
    let total := count (ql s) in
    let extent := if (start >=? 0) && (cnt >? u64 (total - start)) then u64 (total - start)
                  else if (start <? 0) && (cnt >? u64 (- start)) then u64 (- start) else cnt in
    e ← quicklistIndex start;
    match e with
    | None => mret false
    | Some entry => _ ← range_loop (Z.to_nat (qlen (ql s))) (enode entry) (offset entry) extent; mret true
    end.

Definition quicklistCompare (z : bytes) (p : nat) (s : bytes) : option bool := ziplistCompare z p s.

(** ** Iterators

    A direction is one of the two, [AL_START_HEAD] and [AL_START_TAIL]. *)

Definition quicklistGetIterator (q : quicklist) (dir : Z) : quicklistIter :=
  if dir =? AL_START_HEAD then QuicklistIter (head q) None 0 dir
  else QuicklistIter (tail q) None (-1) dir.

Definition quicklistGetIteratorAtIdx (dir idx : Z) : M (option quicklistIter) :=
  e ← quicklistIndex idx;
  mret (match e with Some entry => Some (QuicklistIter (enode entry) None (offset entry) dir) | None => None end).

Definition quicklistReleaseIterator (iter : quicklistIter) : M unit :=
  match current iter with Some a => quicklistCompress a | None => skip end.

(** The recursion goes from node to node. *)
Fixpoint quicklistNext (fuel : nat) (iter : quicklistIter) : M (quicklistIter * option quicklistEntry) :=
  match current iter with
  | None => mret (iter, None)
  | Some a =>
    '(p, off) ← (match izi iter with
      | None =>
        _ ← quicklistDecompressNodeForUse (Some a);
        z ← node_zl a;
        p ← lift (ziplistIndex z (ioffset iter));
        mret (p, ioffset iter)
      | Some p =>
        z ← node_zl a;
        if direction iter =? AL_START_HEAD then q ← lift (ziplistNext z p); mret (q, s64 (ioffset iter + 1))
        else q ← lift (ziplistPrev z p); mret (q, s64 (ioffset iter - 1))
      end);
    match p with
    | Some q =>
      z ← node_zl a;
      v ← lift (ziplistGet z q);
      mret (QuicklistIter (Some a) (Some q) off (direction iter), Some (QuicklistEntry (Some a) (Some q) v (s32 off)))
    | None =>
      _ ← quicklistCompress a;
      n ← get_node a;
      match fuel with
      | O => fail
      | S fuel =>
        quicklistNext fuel (if direction iter =? AL_START_HEAD then QuicklistIter (nnext n) None 0 (direction iter)
          else QuicklistIter (nprev n) None (-1) (direction iter))
      end
    end
  end.

(** ** Rotating and popping *)

(** In a list of one node the value that was read is in the memory that the
    insertion gives back and reads from: only a value of no bytes survives. *)
Definition quicklistRotate : M unit :=
  s ← get;
  if count (ql s) <=? 1 then skip
  else
    t ← lift (tail (ql s));
    z ← node_zl t;
    p ← lift (ziplistIndex z (-1));
    p ← lift p;
    v ← lift (ziplistGet z p);
    v ← lift v;
    value ← lift (value_string v);
    n ← get_node t;
    _ ← check (match v with
      | VInt _ => true
      | VStr x => bool_decide (x = []) || negb (bool_decide (head (ql s) = Some t)) ||
                  negb (_quicklistNodeAllowInsert (Some n) (fill (ql s)) (Z.of_nat (length value)))
      end);
    _ ← quicklistPushHead value;
    s ← get;
    t ← lift (tail (ql s));
    p ← (if qlen (ql s) =? 1 then z ← node_zl t; p ← lift (ziplistIndex z (-1)); lift p else mret p);
    _ ← quicklistDelIndex t p;
    skip.

(** What was there, if anything. *)
Definition quicklistPopCustom (where_ : Z) : M (option zl_value) :=
  s ← get;
  let pos := if where_ =? QUICKLIST_HEAD then 0 else -1 in
  if count (ql s) =? 0 then mret None
  else
    match (if where_ =? QUICKLIST_HEAD then head (ql s) else if where_ =? QUICKLIST_TAIL then tail (ql s) else None) with
    | None => mret None
    | Some a =>
      z ← node_zl a;
      p ← lift (ziplistIndex z pos);
      match p with
      | None => mret None
      | Some p =>
        v ← lift (ziplistGet z p);
        match v with
        | None => mret None
        | Some v => _ ← quicklistDelIndex a p; mret (Some v)
        end
      end
    end.

Definition quicklistPop (where_ : Z) : M (option zl_value) :=
  s ← get;
  if count (ql s) =? 0 then mret None else quicklistPopCustom where_.

(** ** The whole list *)

Fixpoint release_loop (n : nat) (p : option addr) : M unit :=
  match n with
  | O => skip
  | S n =>
    a ← lift p;
    nd ← get_node a;
    _ ← add_total (- ncount nd);
    _ ← free_node a;
    _ ← add_len (-1);
    release_loop n (nnext nd)
  end.

Definition quicklistRelease : M unit := s ← get; release_loop (Z.to_nat (qlen (ql s))) (head (ql s)).

(** The copy of a node: its encoding is looked at in the new node, which is
    raw. *)
Definition dup_node (n : quicklistNode) : M addr :=
  a ← quicklistCreateNode;
  c ← get_node a;
  z ← lift (zl n);
  _ ← (if nenc c =? QUICKLIST_NODE_ENCODING_LZF then
      own ← lift (zl c);
      '(k, _) ← lift (quicklistGetLzf own);
      copy ← lift (rdn z 0 (Z.to_nat (4 + k)));
      upd a (set_zl (Some copy))
    else if nenc c =? QUICKLIST_NODE_ENCODING_RAW then
      copy ← lift (rdn z 0 (Z.to_nat (sz n)));
      upd a (set_zl (Some copy))
    else skip);
  _ ← upd a (fun c => set_nenc (nenc n) (set_sz (sz n) (set_ncount (ncount n) c)));
  mret a.

(** The state is the copy's; the nodes of the original are in its heap. *)
Fixpoint dup_loop (fuel : nat) (p : option addr) : M unit :=
  match p with
  | None => skip
  | Some a =>
    match fuel with
    | O => fail
    | S fuel =>
      n ← get_node a;
      b ← dup_node n;
      _ ← add_total (ncount n);
      s ← get;
      _ ← _quicklistInsertNodeAfter (tail (ql s)) b;
      n ← get_node a;
      dup_loop fuel (nnext n)
    end
  end.

Definition quicklistDup (orig : quicklist) : M unit :=
  _ ← modify (set_ql (fun _ => quicklistNew (fill orig) (compress orig)));
  dup_loop (Z.to_nat (qlen orig)) (head orig).

End Ops.

(** [quicklistCreateFromZiplist]: the state begins with the new list. *)
Definition quicklistCreateFromZiplist (junk : nat -> Z) (garbage : Z -> Z) (alloc : gset addr -> addr)
    (h : gmap addr quicklistNode) (f depth : Z) (z : bytes) : option (qstate * unit) :=
  quicklistAppendValuesFromZiplist junk garbage alloc z (QState h (quicklistNew f depth)).

End Quicklist.
