(* ===== verification/QuicklistSpec.v ===== *)
(** * Lists of compact lists are lists (src/quicklist.c)

    [chain] describes the nodes of a list in the heap, with the theory of
    linked lists of [AdlistSpec] on the links; [holds] what the memory of a
    node stands for, compressed or not; [settled] which nodes may be
    compressed. *)

From S2P Require Import Prelude Util Ziplist ZiplistSpec Lzf LzfSpec Adlist AdlistSpec Monad Quicklist.
Import Util Ziplist ZiplistSpec Lzf LzfSpec Monad Quicklist.

Module QuicklistSpec.

(** ** Nodes and their links *)

(** What a node has apart from its links. *)
Record ndata := NData {
  d_zl : option bytes;
  d_sz : Z;
  d_count : Z;
  d_enc : Z;
  d_container : Z;
  d_recompress : bool
}.

Definition link (p n : option addr) (d : ndata) : quicklistNode :=
  QuicklistNode p n (d_zl d) (d_sz d) (d_count d) (d_enc d) (d_container d) (d_recompress d).

Definition data_of (n : quicklistNode) : ndata :=
  NData (zl n) (sz n) (ncount n) (nenc n) (container n) (recompress n).

Definition as_node (n : quicklistNode) : Adlist.listNode ndata := Adlist.ListNode (nprev n) (nnext n) (data_of n).

Definition links (h : gmap addr quicklistNode) : gmap addr (Adlist.listNode ndata) := as_node <$> h.

Lemma as_node_inj n m : as_node n = as_node m -> n = m.
Proof. destruct n, m. unfold as_node, data_of. cbn. intros E. by simplify_eq. Qed.

Lemma links_Some h a p n d : links h !! a = Some (Adlist.ListNode p n d) <-> h !! a = Some (link p n d).
Proof.
  unfold links. rewrite lookup_fmap. split.
  - destruct (h !! a) as [[]|]; [|done]. by intros [= <- <- <-].
  - intros ->. by destruct d.
Qed.

Lemma links_eq h h' a : links h !! a = links h' !! a <-> h !! a = h' !! a.
Proof.
  unfold links. rewrite !lookup_fmap. split; [|by intros ->].
  destruct (h !! a) as [n|], (h' !! a) as [m|]; try done.
  intros E%(inj Some). by apply as_node_inj in E as ->.
Qed.

Lemma links_insert h a n : links (<[a := n]> h) = <[a := as_node n]> (links h).
Proof. apply fmap_insert. Qed.

Lemma links_delete h a : links (delete a h) = delete a (links h).
Proof. apply fmap_delete. Qed.

Abbreviation seg := (AdlistSpec.dlseg (V := ndata)).
Abbreviation first := (AdlistSpec.first (V := ndata)).
Abbreviation last_ := (AdlistSpec.last_ (V := ndata)).

Implicit Types (ns : list (addr * ndata)) (a b : addr) (d : ndata) (p q : option addr) (s : qstate)
  (h F : gmap addr quicklistNode).

(** ** The list in the heap

    [ns] are the nodes in order; [F] is the rest of the heap. *)

Record linked h F ns : Prop := Linked {
  ln_nodup : NoDup ns.*1;
  ln_seg : seg (links h) None ns None;
  ln_frame : forall b, b ∉ ns.*1 -> h !! b = F !! b;
  ln_apart : forall b, b ∈ ns.*1 -> F !! b = None
}.

Record chain s F ns : Prop := Chain {
  ch_linked : linked (nodes s) F ns;
  ch_head : head (ql s) = first ns None;
  ch_tail : tail (ql s) = last_ None ns
}.

Definition prev_at ns (i : nat) : option addr := last_ None (take i ns).
Definition next_at ns (i : nat) : option addr := first (drop (S i) ns) None.

Lemma linked_node h F ns i a d :
  linked h F ns -> ns !! i = Some (a, d) -> h !! a = Some (link (prev_at ns i) (next_at ns i) d).
Proof.
  intros C Hi. pose proof (ln_seg _ _ _ C) as H. rewrite <- (take_drop_middle ns i (a, d) Hi) in H.
  apply AdlistSpec.dlseg_app in H as [_ [Ha _]]. by apply links_Some in Ha.
Qed.

Lemma linked_middle h F xs a d ys :
  linked h F (xs ++ (a, d) :: ys) -> h !! a = Some (link (last_ None xs) (first ys None) d).
Proof.
  intros C. rewrite (linked_node h F _ (length xs) a d C) by by apply list_lookup_middle.
  unfold prev_at, next_at. rewrite take_app_length. f_equal. f_equal.
  by rewrite (cons_middle _ xs ys), app_assoc, drop_app_len by (rewrite length_app; cbn [length]; lia).
Qed.

Lemma linked_loose h F ns a n : linked h F ns -> F !! a = Some n -> h !! a = Some n.
Proof.
  intros C Ha. rewrite (ln_frame _ _ _ C); [done|]. intros Hin. by rewrite (ln_apart _ _ _ C) in Ha.
Qed.

Lemma linked_apart h F ns a n : linked h F ns -> F !! a = Some n -> a ∉ ns.*1.
Proof. intros C Ha Hin. by rewrite (ln_apart _ _ _ C) in Ha. Qed.

Lemma linked_in h F ns a : linked h F ns -> a ∈ ns.*1 -> is_Some (h !! a).
Proof.
  intros C (i & Hi)%list_elem_of_lookup. rewrite list_lookup_fmap in Hi.
  destruct (ns !! i) as [[a' d]|] eqn:E; [|done]. injection Hi as ->. by rewrite (linked_node _ _ _ _ _ _ C E).
Qed.

(** The counters do not matter. *)
Lemma chain_ql s F ns f :
  chain s F ns -> head (f (ql s)) = head (ql s) -> tail (f (ql s)) = tail (ql s) -> chain (set_ql f s) F ns.
Proof. intros [] Eh Et. split; cbn [set_ql nodes ql]; congruence || done. Qed.

Lemma linked_update h F xs a d d' ys :
  linked h F (xs ++ (a, d) :: ys) ->
  linked (<[a := link (last_ None xs) (first ys None) d']> h) F (xs ++ (a, d') :: ys).
Proof.
  intros [Hnd Hs Hf Ha].
  assert ((xs ++ (a, d') :: ys).*1 = (xs ++ (a, d) :: ys).*1) as E by by rewrite !fmap_app.
  rewrite fmap_app in Hnd, Hf, Ha. cbn [fmap list_fmap fst] in *.
  pose proof Hnd as (_ & Hd & [Hay _]%NoDup_cons)%NoDup_app.
  assert (a ∉ xs.*1) as Hax by (intros Hin; apply (Hd a Hin); left).
  split; rewrite ?E, ?fmap_app; cbn [fmap list_fmap fst]; try done.
  - apply AdlistSpec.dlseg_app in Hs as [Hx [Hn Hy]]. rewrite links_insert.
    apply AdlistSpec.dlseg_app. split; [|split].
    + by apply AdlistSpec.dlseg_insert.
    + rewrite lookup_insert_eq. by destruct d'.
    + by apply AdlistSpec.dlseg_insert.
  - intros b Hb. rewrite lookup_insert_ne; [by apply Hf|]. intros <-. apply Hb, elem_of_app. right. left.
Qed.

(** A node that is not in the list. *)
Lemma linked_other h F ns a n : linked h F ns -> a ∉ ns.*1 -> linked (<[a := n]> h) (<[a := n]> F) ns.
Proof.
  intros [Hnd Hs Hf Hap] Ha. split; try done.
  - rewrite links_insert. by apply AdlistSpec.dlseg_insert.
  - intros b Hb. destruct (decide (b = a)) as [->|Hne]; [by rewrite !lookup_insert_eq|].
    rewrite !lookup_insert_ne by done. by apply Hf.
  - intros b Hb. rewrite lookup_insert_ne; [by apply Hap|]. by intros <-.
Qed.

Lemma linked_create h F ns a n : linked h F ns -> h !! a = None -> linked (<[a := n]> h) (<[a := n]> F) ns.
Proof.
  intros C Hn. apply linked_other; [done|]. intros Ha. destruct (linked_in _ _ _ _ C Ha) as [m Hm]. by rewrite Hm in Hn.
Qed.

Lemma linked_free h F ns a : linked h F ns -> a ∉ ns.*1 -> linked (delete a h) (delete a F) ns.
Proof.
  intros [Hnd Hs Hf Hap] Ha. split; try done.
  - rewrite links_delete. apply (AdlistSpec.dlseg_frame (links h)); [|done].
    intros b Hb. rewrite lookup_delete_ne; [done|]. by intros ->.
  - intros b Hb. destruct (decide (b = a)) as [->|Hne]; [by rewrite !lookup_delete_eq|].
    rewrite !lookup_delete_ne by done. by apply Hf.
  - intros b Hb. apply lookup_delete_None. right. by apply Hap.
Qed.

(** *** Linking and unlinking *)

Lemma relink_comm (g : gmap addr (Adlist.listNode ndata)) p q x y :
  p = None \/ p <> q ->
  (g' ← AdlistSpec.relink_prev g q y; AdlistSpec.relink_next g' p x) =
  (g' ← AdlistSpec.relink_next g p x; AdlistSpec.relink_prev g' q y).
Proof.
  intros Hne. destruct p as [a|], q as [b|]; cbn [AdlistSpec.relink_prev AdlistSpec.relink_next mbind option_bind]; try done.
  - destruct Hne as [|Hne]; [done|]. unfold Adlist.set_prev, Adlist.set_next.
    assert (a <> b) by congruence.
    destruct (g !! b) as [nb|] eqn:Eb, (g !! a) as [na|] eqn:Ea; cbn [mbind option_bind];
      rewrite ?lookup_insert_ne, ?Ea, ?Eb by done; cbn [mbind option_bind]; try done.
    by rewrite insert_insert_ne.
  - by destruct (Adlist.set_next g a x).
  - by destruct (Adlist.set_prev g b y).
Qed.

Lemma linked_link h F xs ys a d :
  linked h (<[a := link (last_ None xs) (first ys None) d]> F) (xs ++ ys) -> F !! a = None ->
  exists g g', AdlistSpec.relink_next (links h) (last_ None xs) (Some a) = Some g /\
    AdlistSpec.relink_prev g (first ys None) (Some a) = Some g' /\
    forall h', links h' = g' -> linked h' F (xs ++ (a, d) :: ys).
Proof.
  intros C Hn. pose proof (linked_loose _ _ _ _ _ C (lookup_insert_eq _ _ _)) as Ha.
  pose proof (linked_apart _ _ _ _ _ C (lookup_insert_eq _ _ _)) as Hni.
  destruct C as [Hnd Hs Hf Hap].
  destruct (AdlistSpec.link_spec (delete a (links h)) xs ys a d Hnd) as (g & g' & Hg & _ & Hg' & Hnd' & Hs' & Ho).
  { apply (AdlistSpec.dlseg_frame (links h)); [|done]. intros b Hb. rewrite lookup_delete_ne; [done|]. by intros ->. }
  { apply lookup_delete_eq. }
  assert (<[a := Adlist.ListNode (last_ None xs) (first ys None) d]> (delete a (links h)) = links h) as E.
  { rewrite insert_delete_eq. apply insert_id. by apply links_Some. }
  rewrite E in Hg. exists g, g'. split; [done|]. split; [done|]. intros h' <-. split; [done|done| |].
  - intros b Hb. rewrite fmap_app in *. cbn [fmap list_fmap fst] in Hb.
    rewrite not_elem_of_app, not_elem_of_cons in Hb. destruct Hb as (Hbx & Hba & Hby).
    assert (h' !! b = h !! b) as ->.
    { apply links_eq. rewrite Ho, lookup_delete_ne; [done|done|]. rewrite not_elem_of_cons, not_elem_of_app. done. }
    rewrite Hf; [by rewrite lookup_insert_ne|]. by apply not_elem_of_app.
  - intros b. rewrite fmap_app. cbn [fmap list_fmap fst]. rewrite elem_of_app, elem_of_cons.
    destruct (decide (b = a)) as [->|Hne]; [done|]. intros Hb. rewrite <- (lookup_insert_ne F a b (link (last_ None xs) (first ys None) d) (not_eq_sym Hne)).
    apply Hap. rewrite fmap_app, elem_of_app. tauto.
Qed.

Lemma linked_unlink h F xs ys a d :
  linked h F (xs ++ (a, d) :: ys) ->
  exists g g', AdlistSpec.relink_next (links h) (last_ None xs) (first ys None) = Some g /\
    AdlistSpec.relink_prev g (first ys None) (last_ None xs) = Some g' /\
    forall h', links h' = g' ->
      linked h' (<[a := link (last_ None xs) (first ys None) d]> F) (xs ++ ys).
Proof.
  intros [Hnd Hs Hf Hap].
  destruct (AdlistSpec.unlink_node_spec (links h) xs ys a d Hnd Hs) as (_ & g & g' & Hg & _ & Hg' & Ha & Hnd' & Hs' & Ho).
  exists g, g'. split; [done|]. split; [done|]. intros h' <-. apply links_Some in Ha.
  rewrite fmap_app in Hnd, Hf, Hap, Ho. cbn [fmap list_fmap fst] in *.
  apply NoDup_app in Hnd as (_ & Hd & [Hay _]%NoDup_cons).
  assert (a ∉ xs.*1) as Hax by (intros Hin; apply (Hd a Hin); left).
  split; [done| | |].
  - apply (AdlistSpec.dlseg_frame (delete a (links h'))); [|done].
    intros b. rewrite fmap_app, elem_of_app. intros Hb. rewrite lookup_delete_ne; [done|]. intros ->. tauto.
  - intros b. rewrite fmap_app, not_elem_of_app. intros Hb.
    destruct (decide (b = a)) as [->|Hne]; [by rewrite lookup_insert_eq|]. rewrite lookup_insert_ne by done.
    rewrite <- Hf by (rewrite not_elem_of_app, not_elem_of_cons; tauto).
    apply links_eq. rewrite <- Ho by (rewrite not_elem_of_app, not_elem_of_cons; tauto).
    by rewrite lookup_delete_ne.
  - intros b. rewrite fmap_app, elem_of_app. intros Hb. rewrite lookup_insert_ne by (intros <-; tauto).
    apply Hap. rewrite elem_of_app, elem_of_cons. tauto.
Qed.

(** ** The memory of a node *)

Lemma bytes_app (l k : bytes) : Forall is_u8 l -> Forall is_u8 k -> Forall is_u8 (l ++ k).
Proof. intros. by apply Forall_app. Qed.

Lemma le_enc_u8 n v : Forall is_u8 (le_enc n v).
Proof. apply le_enc_bytes. Qed.

Lemma encode_length_u8 e n : is_u8 e -> Forall is_u8 (zipEncodeLength e n).
Proof.
  intros He. unfold zipEncodeLength, ZIP_STR_32B.
  repeat case_match; repeat (constructor; [by apply wrapu_range || done|]); by repeat constructor.
Qed.

Lemma save_integer_u8 v e : Forall is_u8 (zipSaveInteger v e).
Proof.
  unfold zipSaveInteger. repeat case_match; try apply le_enc_u8; [|by constructor].
  apply Forall_drop, le_enc_u8.
Qed.

Lemma body_u8 x : Forall is_u8 x -> Forall is_u8 (body x).
Proof.
  intros Hx. unfold body. destruct (zipTryEncoding x) as [[v e]|] eqn:E; apply bytes_app; try done.
  - apply encode_length_u8. apply zipTryEncoding_Some in E as (Hv & _ & ->).
    destruct (integer_encoding v Hv) as ([He _] & _). ints.
  - apply save_integer_u8.
  - by apply encode_length_u8.
Qed.

Lemma ents_u8 es : forall prev, wf_ents prev es -> Forall (Forall is_u8) (strs es) -> Forall is_u8 (ents prev es).
Proof.
  induction es as [|[lg x] es IH]; intros prev; [by constructor|]. intros [(Hp & Hlg & _) Hw] Hx.
  unfold strs in Hx. rewrite fmap_cons in Hx. apply Forall_cons in Hx as [Hx Hes].
  cbn [ents]. unfold ent. cbn [fst snd] in *. apply bytes_app; [apply bytes_app|by apply IH].
  - unfold prev_bytes. destruct lg; [constructor; [done|apply le_enc_u8]|].
    constructor; [|by constructor]. specialize (Hlg eq_refl). unfold ZIP_BIGLEN in Hlg. ints.
  - by apply body_u8.
Qed.

Lemma zl_rep_u8 z xs : zl_rep z xs -> Forall (Forall is_u8) xs -> Forall is_u8 z.
Proof.
  intros (es & (lf & -> & Hw & _) & <-) Hx. unfold hdr.
  repeat apply bytes_app; try apply le_enc_u8; [by apply ents_u8|by repeat constructor].
Qed.

(** The blob that the memory of a node stands for. *)
Definition blob_of d (z : bytes) : Prop :=
  d_enc d = QUICKLIST_NODE_ENCODING_RAW /\ d_zl d = Some z \/
  d_enc d = QUICKLIST_NODE_ENCODING_LZF /\
    exists c, d_zl d = Some (le_enc 4 (Z.of_nat (length c)) ++ c) /\ Z.of_nat (length c) < 2 ^ 32 /\
      stream c z /\ z <> [].

Definition raw d : Prop := d_enc d = QUICKLIST_NODE_ENCODING_RAW.

#[export] Instance raw_dec d : Decision (raw d).
Proof. unfold raw. apply _. Defined.

(** The strings of one node: there are at most [2 ^ 15] of them. *)
Definition node_fits (xs : list bytes) : Prop :=
  zl_fits xs /\ Z.of_nat (length xs) <= 2 ^ 15 /\ Forall (Forall is_u8) xs.

Definition holds d (xs : list bytes) : Prop :=
  exists z, blob_of d z /\ zl_rep z xs /\ node_fits xs /\ d_sz d = Z.of_nat (length z).

Lemma blob_raw d z : raw d -> blob_of d z -> d_zl d = Some z.
Proof. intros Hr [[_ H]|[H _]]; [done|]. by rewrite Hr in H. Qed.

Lemma blob_enc d z : blob_of d z -> (d_enc d =? QUICKLIST_NODE_ENCODING_RAW) = bool_decide (raw d) /\
  (d_enc d =? QUICKLIST_NODE_ENCODING_LZF) = negb (bool_decide (raw d)).
Proof.
  intros H. case_bool_decide as Hr; [by rewrite Hr|]. by destruct H as [[? _]|[-> _]].
Qed.

(** What the compressor may do to a node. *)
Record recoded d d' : Prop := Recoded {
  rc_holds : forall xs, holds d xs -> holds d' xs;
  rc_count : d_count d' = d_count d;
  rc_recompress : d_recompress d = false -> d_recompress d' = false
}.

Lemma recoded_refl d : recoded d d.
Proof. by split. Qed.

Lemma recoded_trans d1 d2 d3 : recoded d1 d2 -> recoded d2 d3 -> recoded d1 d3.
Proof. intros [] []. split; [by eauto|congruence|by eauto]. Qed.

(** ** The steps on one node *)

Definition put a p n d s : qstate := set_nodes (fun h => <[a := link p n d]> h) s.

Lemma put_node a p n d s : nodes (put a p n d s) !! a = Some (link p n d).
Proof. apply lookup_insert_eq. Qed.

Lemma put_put a p n p' n' d d' s : put a p' n' d' (put a p n d s) = put a p' n' d' s.
Proof. unfold put, set_nodes. cbn. by rewrite insert_insert_eq. Qed.

Lemma put_self a p n d s : nodes s !! a = Some (link p n d) -> s = put a p n d s.
Proof. intros H. unfold put, set_nodes. rewrite insert_id by done. by destruct s. Qed.

Lemma chain_put s F xs a d d' ys :
  chain s F (xs ++ (a, d) :: ys) -> chain (put a (last_ None xs) (first ys None) d' s) F (xs ++ (a, d') :: ys).
Proof.
  intros [C Hh Ht]. split; cbn [put set_nodes nodes ql].
  - by apply linked_update with (d := d).
  - rewrite Hh, !AdlistSpec.first_app. done.
  - rewrite Ht, !AdlistSpec.last_app. done.
Qed.

Lemma chain_self s F xs a d ys :
  chain s F (xs ++ (a, d) :: ys) -> s = put a (last_ None xs) (first ys None) d s.
Proof. intros [C _ _]. apply put_self. by eapply linked_middle. Qed.

Definition with_zl (z : bytes) d : ndata := NData (Some z) (d_sz d) (d_count d) (d_enc d) (d_container d) (d_recompress d).
Definition with_sz (v : Z) d : ndata := NData (d_zl d) v (d_count d) (d_enc d) (d_container d) (d_recompress d).
Definition with_count (v : Z) d : ndata := NData (d_zl d) (d_sz d) v (d_enc d) (d_container d) (d_recompress d).
Definition packed (z : bytes) d : ndata :=
  NData (Some z) (d_sz d) (d_count d) QUICKLIST_NODE_ENCODING_LZF (d_container d) false.
Definition unpacked (z : bytes) d : ndata :=
  NData (Some z) (d_sz d) (d_count d) QUICKLIST_NODE_ENCODING_RAW (d_container d) (d_recompress d).

Section Steps.
Context (junk : nat -> Z) (garbage : Z -> Z) (alloc : gset addr -> addr).
Context (Hgarbage : forall i, is_u32 (garbage i)).

Lemma get_node_wp s a n (Q : quicklistNode -> qstate -> Prop) :
  nodes s !! a = Some n -> Q n s -> wp (get_node a) Q s.
Proof. intros Ha HQ. unfold get_node. wp_step. by eapply wp_lift. Qed.

Lemma upd_wp s a n f (Q : unit -> qstate -> Prop) :
  nodes s !! a = Some n -> Q tt (set_nodes (fun h => <[a := f n]> h) s) -> wp (upd a f) Q s.
Proof. intros Ha HQ. unfold upd. apply wp_bind. eapply get_node_wp; [done|]. by wp_step. Qed.

Lemma upd_put a p n d p' n' d' s f (Q : unit -> qstate -> Prop) :
  f (link p n d) = link p' n' d' -> Q tt (put a p' n' d' s) -> wp (upd a f) Q (put a p n d s).
Proof. intros Hf HQ. eapply upd_wp; [apply put_node|]. rewrite Hf. change (Q tt (put a p' n' d' (put a p n d s))). by rewrite put_put. Qed.

Lemma node_zl_put a p n d s z (Q : bytes -> qstate -> Prop) :
  d_zl d = Some z -> Q z (put a p n d s) -> wp (node_zl a) Q (put a p n d s).
Proof. intros Hz HQ. unfold node_zl. apply wp_bind. eapply get_node_wp; [apply put_node|]. by eapply wp_lift. Qed.

Lemma on_zl_put a p n d s f z z' (Q : unit -> qstate -> Prop) :
  d_zl d = Some z -> f z = Some z' -> Q tt (put a p n (with_zl z' d) s) -> wp (on_zl a f) Q (put a p n d s).
Proof.
  intros Hz Hf HQ. unfold on_zl. apply wp_bind. eapply node_zl_put; [done|]. apply wp_bind. eapply wp_lift; [done|].
  by eapply (upd_put _ _ _ _ p n); [|exact HQ].
Qed.

Lemma zl_rep_len z xs : zl_rep z xs -> ziplistBlobLen z = Some (Z.of_nat (length z)) /\ Z.of_nat (length z) < 2 ^ 32.
Proof. intros (es & H & _). split; [by apply zl_bytes with es|]. by destruct H as (lf & _ & _ & _ & H). Qed.

Lemma update_sz_put a p n d s z xs (Q : unit -> qstate -> Prop) :
  d_zl d = Some z -> zl_rep z xs -> Q tt (put a p n (with_sz (Z.of_nat (length z)) d) s) ->
  wp (quicklistNodeUpdateSz a) Q (put a p n d s).
Proof.
  intros Hz Hr HQ. destruct (zl_rep_len _ _ Hr) as [Hb Hl]. unfold quicklistNodeUpdateSz.
  apply wp_bind. eapply node_zl_put; [done|]. apply wp_bind. eapply wp_lift; [done|].
  eapply (upd_put _ _ _ _ p n (with_sz _ d)); [|done]. rewrite wrapu_small by ints. done.
Qed.

Lemma add_count_put a p n d s k (Q : unit -> qstate -> Prop) :
  Q tt (put a p n (with_count (wrapu 16 (d_count d + k)) d) s) -> wp (add_count a k) Q (put a p n d s).
Proof. intros HQ. by eapply (upd_put _ _ _ _ p n); [|exact HQ]. Qed.

Lemma length_new_blob v : length (new_blob junk v) = Z.to_nat v.
Proof. unfold new_blob. by rewrite length_fmap, length_seq. Qed.

(** *** Compression *)

Lemma compress_put a p n d s xs (Q : bool -> qstate -> Prop) :
  holds d xs -> raw d -> (forall r d', recoded d d' -> Q r (put a p n d' s)) ->
  wp (__quicklistCompressNode junk garbage a) Q (put a p n d s).
Proof.
  intros (z & Hz & Hrep & Hfit & Hsz) Hr HQ. pose proof (blob_raw _ _ Hr Hz) as Hzl.
  unfold __quicklistCompressNode. apply wp_bind. eapply get_node_wp; [apply put_node|]. cbn [link sz].
  destruct (Z.ltb_spec (d_sz d) MIN_COMPRESS_BYTES) as [|Hbig]; [apply wp_ret, HQ, recoded_refl|].
  unfold MIN_COMPRESS_BYTES in Hbig. apply wp_bind. eapply node_zl_put; [done|].
  apply wp_bind. eapply wp_lift.
  { rewrite Hsz, Nat2Z.id. rewrite <- (app_nil_r z) at 1. by apply rdn_app0. }
  pose proof (zl_rep_len _ _ Hrep) as [_ Hlen].
  destruct (lzf_compress_spec garbage z Hgarbage) with (m := new_blob junk (d_sz d)) as (k & out & Hk & Hout & Hs);
    [apply (zl_rep_u8 z xs Hrep), Hfit|lia|lia|].
  apply wp_bind. eapply wp_lift; [exact Hk|]. cbn beta iota.
  destruct (Z.eqb_spec k 0) as [|Hk0]; cbn [orb]; [apply wp_ret, HQ, recoded_refl|].
  case_match; [apply wp_ret, HQ, recoded_refl|].
  destruct Hs as [?|[Hkr Hs]]; [done|]. rewrite length_new_blob in Hkr, Hout. apply wp_bind.
  set (c := take (Z.to_nat k) out) in *.
  assert (Z.of_nat (length c) = k) as Hlc by (unfold c; rewrite length_take; lia).
  eapply (upd_put a p n d p n (packed (le_enc 4 k ++ c) d)); [done|]. apply wp_ret, HQ.
  split; [|done|done]. intros ys (z' & Hz' & Hrep' & Hfit' & Hsz').
  pose proof (blob_raw _ _ Hr Hz') as Hzl'. assert (z' = z) as -> by congruence.
  exists z. split; [|done]. right. split; [done|]. exists c. rewrite Hlc. split; [done|]. split; [lia|]. split; [done|].
  intros ->. cbn [length] in Hsz. lia.
Qed.

Lemma decompress_put a p n d s xs (Q : bool -> qstate -> Prop) :
  holds d xs -> ~ raw d -> (forall d', recoded d d' -> raw d' -> Q true (put a p n d' s)) ->
  wp (__quicklistDecompressNode junk a) Q (put a p n d s).
Proof.
  intros (z & [[? _]|(He & c & Hzl & Hc & Hs & Hne)] & Hrep & Hfit & Hsz) Hr HQ; [done|].
  unfold __quicklistDecompressNode. apply wp_bind. eapply get_node_wp; [apply put_node|]. cbn [link sz].
  apply wp_bind. eapply node_zl_put; [done|]. apply wp_bind.
  assert (le_dec (le_enc 4 (Z.of_nat (length c))) = Z.of_nat (length c)) as Hle
    by (apply le_dec_enc_small; change (256 ^ Z.of_nat 4) with (2 ^ 32); lia).
  eapply wp_lift.
  { unfold quicklistGetLzf, rd32. rewrite rdn_app0 by by rewrite length_le_enc. cbn [mbind option_bind].
    rewrite Hle, Nat2Z.id, rdn_app_nil by (by rewrite ?length_le_enc). done. }
  cbn beta iota. apply wp_bind. eapply wp_lift.
  { apply (decompress_stream c z); [done|done|]. rewrite length_new_blob. lia. }
  rewrite drop_ge by (rewrite length_new_blob; lia). rewrite app_nil_r. cbn beta iota.
  rewrite (proj2 (Z.eqb_neq _ _)) by (destruct z; [done|cbn [length]; lia]).
  apply wp_bind. eapply (upd_put a p n d p n (unpacked z d)); [done|]. apply wp_ret, HQ; [|done].
  split; [|done|done]. intros ys (z' & Hz' & Hrep' & Hrest).
  assert (z' = z) as ->; [|exists z; split; [by left|done]].
  destruct Hz' as [[? _]|(_ & c' & Hzl' & Hc' & Hs' & Hne')]; [done|].
  rewrite Hzl in Hzl'. apply (inj Some), app_inj_1 in Hzl' as [_ <-]; [|by rewrite !length_le_enc].
  pose proof (decompress_stream c z (z ++ z') Hs Hne ltac:(rewrite length_app; lia)) as E1.
  pose proof (decompress_stream c z' (z ++ z') Hs' Hne' ltac:(rewrite length_app; lia)) as E2.
  rewrite E1 in E2. injection E2 as El Eb. apply Nat2Z.inj in El. by apply app_inj_1 in Eb as [<- _].
Qed.

End Steps.

(** ** Nodes that are recoded *)

Definition same_nodes ns ns' : Prop := Forall2 (fun x y => x.1 = y.1 /\ recoded x.2 y.2) ns ns'.

#[export] Instance same_nodes_preorder : PreOrder same_nodes.
Proof.
  split.
  - intros ns. unfold same_nodes. apply Forall_Forall2_diag, Forall_true. intros [a d]. split; [done|apply recoded_refl].
  - intros n1 n2 n3 H1. revert n3. induction H1 as [|x y n1 n2 [E R] _ IH]; intros n3 H2; [done|].
    inversion H2 as [|? z ? n3' [E' R'] H2']. constructor; [|by apply IH].
    split; [congruence|]. by eapply recoded_trans.
Qed.

Lemma same_addrs ns ns' : same_nodes ns ns' -> ns'.*1 = ns.*1.
Proof. induction 1 as [|x y ns ns' [E _] _ IH]; [done|]. by rewrite !fmap_cons, IH, E. Qed.

Lemma same_length ns ns' : same_nodes ns ns' -> length ns' = length ns.
Proof. intros H. symmetry. by apply Forall2_length in H. Qed.

Definition held ns (xss : list (list bytes)) : Prop := Forall2 (fun x xs => holds x.2 xs) ns xss.

(** The numbers of entries are right. *)
Definition counted ns (xss : list (list bytes)) : Prop :=
  Forall2 (fun x xs => d_count x.2 = Z.of_nat (length xs)) ns xss.

Definition calm ns : Prop := Forall (fun x => d_recompress x.2 = false) ns.

Lemma same_held ns ns' xss : same_nodes ns ns' -> held ns xss -> held ns' xss.
Proof.
  intros H. revert xss. induction H as [|x y ns ns' [_ R] _ IH]; intros xss Hh; [done|].
  inversion Hh as [|? xs ? xss' Hx Hxs]. constructor; [by apply R|by apply IH].
Qed.

Lemma same_counted ns ns' xss : same_nodes ns ns' -> counted ns xss -> counted ns' xss.
Proof.
  intros H. revert xss. induction H as [|x y ns ns' [_ R] _ IH]; intros xss Hh; [done|].
  inversion Hh as [|? xs ? xss' Hx Hxs]. constructor; [by rewrite (rc_count _ _ R)|by apply IH].
Qed.

Lemma same_calm ns ns' : same_nodes ns ns' -> calm ns -> calm ns'.
Proof.
  induction 1 as [|x y ns ns' [_ R] _ IH]; intros Hc; [done|]. apply Forall_cons in Hc as [Hx Hc].
  apply Forall_cons. split; [by apply R|by apply IH].
Qed.

Lemma same_insert ns i a d d' : ns !! i = Some (a, d) -> recoded d d' -> same_nodes ns (<[i := (a, d')]> ns).
Proof.
  intros Hi R. apply Forall2_same_length_lookup_2; [by rewrite length_insert|].
  intros j x y Hx Hy. destruct (decide (i = j)) as [<-|Hne].
  - rewrite list_lookup_insert_eq in Hy by by eapply lookup_lt_Some. by simplify_eq.
  - rewrite list_lookup_insert_ne in Hy by done. simplify_eq. split; [done|apply recoded_refl].
Qed.

Lemma held_lookup ns xss i a d : held ns xss -> ns !! i = Some (a, d) -> exists xs, xss !! i = Some xs /\ holds d xs.
Proof. intros H Hi. by destruct (Forall2_lookup_l _ _ _ _ _ H Hi) as (xs & Hx & Hh); exists xs. Qed.

Lemma lookup_middle_insert {A} (l : list A) i x y :
  l !! i = Some x -> <[i := y]> l = take i l ++ y :: drop (S i) l.
Proof. intros Hi. apply insert_take_drop. by eapply lookup_lt_Some. Qed.

Lemma next_at_addr ns i : next_at ns i = ns.*1 !! S i.
Proof.
  unfold next_at. rewrite list_lookup_fmap, <- (Nat.add_0_r (S i)), <- lookup_drop, Nat.add_0_r.
  by destruct (drop (S i) ns) as [|[a d]].
Qed.

Lemma prev_at_S ns i : (S i < length ns)%nat -> prev_at ns (S i) = ns.*1 !! i.
Proof.
  intros Hi. rewrite list_lookup_fmap. destruct (lookup_lt_is_Some_2 ns i) as [[a d] E]; [lia|]. rewrite E.
  unfold prev_at. by rewrite (take_S_r _ _ _ E), AdlistSpec.last_app.
Qed.

Lemma addr_node ns i a : ns.*1 !! i = Some a -> exists d, ns !! i = Some (a, d).
Proof. rewrite list_lookup_fmap. destruct (ns !! i) as [[b d]|]; [|done]. intros [= ->]. by exists d. Qed.

(** ** Which nodes are raw

    How many nodes at each end are raw when the depth is [c] and there are
    [n] nodes.  When there are exactly [2 * c] the two ends are compressed
    past each other. *)
Definition guard (c n : nat) : nat :=
  if decide (c = 0 \/ n < 2 * c)%nat then n else if decide (n = 2 * c)%nat then Nat.max 1 (c - 1) else c.

Definition raw_ends (g : nat) ns : Prop :=
  forall i a d, ns !! i = Some (a, d) -> (i < g \/ length ns <= i + g)%nat -> raw d.

Definition settled (c : nat) ns : Prop := raw_ends (guard c (length ns)) ns.

Definition all_raw ns : Prop := forall i a d, ns !! i = Some (a, d) -> raw d.

Lemma all_raw_settled c ns : all_raw ns -> settled c ns.
Proof. intros H i a d Hi _. by eapply H. Qed.

Lemma settled_all_raw c ns : (c = 0 \/ length ns < 2 * c)%nat -> settled c ns -> all_raw ns.
Proof.
  intros Hc H i a d Hi. apply (H i a d Hi). left. unfold guard. rewrite decide_True by done. by eapply lookup_lt_Some.
Qed.

Lemma raw_ends_insert g ns i a d d' :
  raw_ends g ns -> ns !! i = Some (a, d) -> (raw d' \/ g <= i /\ i + g < length ns)%nat -> raw_ends g (<[i := (a, d')]> ns).
Proof.
  intros H Hi Hd j b e Hj Hg. rewrite length_insert in Hg. destruct (decide (i = j)) as [<-|Hne].
  - rewrite list_lookup_insert_eq in Hj by by eapply lookup_lt_Some. simplify_eq. destruct Hd; [done|lia].
  - rewrite list_lookup_insert_ne in Hj by done. by eapply H.
Qed.

(** ** Compressing a list *)

Section Compress.
Context (junk : nat -> Z) (garbage : Z -> Z) (alloc : gset addr -> addr).
Context (Hgarbage : forall i, is_u32 (garbage i)).

(** What is known after a node was recoded. *)
Definition recoded_at s F ns i d' s' : Prop :=
  exists a d, ns !! i = Some (a, d) /\ recoded d d' /\ chain s' F (<[i := (a, d')]> ns) /\ ql s' = ql s.

Lemma chain_at s F ns i a d :
  chain s F ns -> ns !! i = Some (a, d) ->
  s = put a (prev_at ns i) (next_at ns i) d s /\
  forall d', chain (put a (prev_at ns i) (next_at ns i) d' s) F (<[i := (a, d')]> ns).
Proof.
  intros C Hi. rewrite <- (take_drop_middle ns i _ Hi) in C. split; [by eapply chain_self|].
  intros d'. rewrite (lookup_middle_insert _ _ _ _ Hi). by eapply chain_put.
Qed.

Lemma decompress_at s F ns xss i a (Q : unit -> qstate -> Prop) :
  chain s F ns -> held ns xss -> ns.*1 !! i = Some a ->
  (forall s' d', recoded_at s F ns i d' s' -> raw d' -> Q tt s') ->
  wp (quicklistDecompressNode junk (Some a)) Q s.
Proof.
  intros C Hh (d & Hi)%addr_node HQ. destruct (held_lookup _ _ _ _ _ Hh Hi) as (xs & _ & Hd).
  destruct (chain_at _ _ _ _ _ _ C Hi) as [Es Hput]. cbn [quicklistDecompressNode]. rewrite Es.
  pose proof Hd as (z & Hz & _). destruct (blob_enc _ _ Hz) as [_ Ee].
  apply wp_bind. eapply get_node_wp; [apply put_node|]. cbn [link nenc]. rewrite Ee.
  case_bool_decide as Hr; cbn [negb].
  - apply wp_skip, (HQ _ d); [|done]. exists a, d. by split_and!; [|apply recoded_refl| |].
  - apply wp_bind. eapply decompress_put; [done|done|]. intros d' R Hd'. apply wp_skip, (HQ _ d'); [|done].
    by exists a, d.
Qed.

Lemma compress_at s F ns xss i a (Q : unit -> qstate -> Prop) :
  chain s F ns -> held ns xss -> ns.*1 !! i = Some a ->
  (forall s' d', recoded_at s F ns i d' s' -> Q tt s') ->
  wp (quicklistCompressNode junk garbage (Some a)) Q s.
Proof.
  intros C Hh (d & Hi)%addr_node HQ. destruct (held_lookup _ _ _ _ _ Hh Hi) as (xs & _ & Hd).
  destruct (chain_at _ _ _ _ _ _ C Hi) as [Es Hput]. cbn [quicklistCompressNode]. rewrite Es.
  pose proof Hd as (z & Hz & _). destruct (blob_enc _ _ Hz) as [Ee _].
  apply wp_bind. eapply get_node_wp; [apply put_node|]. cbn [link nenc]. rewrite Ee.
  case_bool_decide as Hr.
  - apply wp_bind. eapply compress_put; [done|done|done|]. intros r d' R. apply wp_skip, (HQ _ d'). by exists a, d.
  - apply wp_skip, (HQ _ d). exists a, d. by split_and!; [|apply recoded_refl| |].
Qed.

(** The nodes of a list are recoded so that [g] at each end are raw. *)
Definition packed_to s F ns xss (g : nat) s' ns' : Prop :=
  chain s' F ns' /\ same_nodes ns ns' /\ held ns' xss /\ raw_ends g ns' /\ ql s' = ql s.

Lemma recoded_packed s F ns xss g i d' s' :
  recoded_at s F ns i d' s' -> held ns xss -> raw_ends g ns -> (raw d' \/ g <= i /\ i + g < length ns)%nat ->
  exists ns', packed_to s F ns xss g s' ns'.
Proof.
  intros (a & d & Hi & R & C & E) Hh Hg Hd. pose proof (same_insert _ _ _ _ _ Hi R) as Hsame.
  exists (<[i := (a, d')]> ns). split_and!; [done|done| | |done].
  - by eapply same_held.
  - by eapply raw_ends_insert.
Qed.

Lemma packed_trans s1 s2 s3 F n1 n2 n3 xss g g' :
  packed_to s1 F n1 xss g s2 n2 -> packed_to s2 F n2 xss g' s3 n3 -> packed_to s1 F n1 xss g' s3 n3.
Proof.
  intros (_ & S1 & _ & _ & E1) (C & S2 & H & G & E2). split_and!; [done|by etrans|done|done|congruence].
Qed.

(** Both pointers of the loop are decompressed. *)
Lemma both_ends {B} s F ns xss i f r (k : M qstate B) (Q : B -> qstate -> Prop) :
  chain s F ns -> held ns xss -> raw_ends i ns -> ns.*1 !! i = Some f -> ns.*1 !! (length ns - S i)%nat = Some r ->
  (forall s' ns', packed_to s F ns xss (S i) s' ns' -> wp k Q s') ->
  wp (_ ← quicklistDecompressNode junk (Some f); _ ← quicklistDecompressNode junk (Some r); k) Q s.
Proof.
  intros C Hh Hr Hf Hb HQ. apply wp_bind. eapply decompress_at; [done|done|done|]. intros s1 d1 H1 Hd1.
  destruct H1 as (a & d & Hi & R & C1 & E1). pose proof (same_insert _ _ _ _ _ Hi R) as S1.
  apply wp_bind. eapply decompress_at; [exact C1|by eapply same_held|by rewrite (same_addrs _ _ S1)|]. intros s2 d2 (b & e & Hj & R2 & C2 & E2) Hd2.
  pose proof (same_insert _ _ _ _ _ Hj R2) as S2.
  eapply (HQ s2 _). split_and!; [exact C2|by etrans| | |congruence].
  - eapply same_held; [done|]. by eapply same_held.
  - intros j a' d' Hj' Hg. rewrite !length_insert in Hg. apply lookup_lt_Some in Hi as Hil. apply lookup_lt_Some in Hj as Hjl.
    rewrite length_insert in Hjl.
    destruct (decide (j = length ns - S i)%nat) as [->|Hne].
    { rewrite list_lookup_insert_eq in Hj' by by rewrite length_insert. by simplify_eq. }
    rewrite list_lookup_insert_ne in Hj' by done. destruct (decide (j = i)) as [->|Hne'].
    { rewrite list_lookup_insert_eq in Hj' by done. by simplify_eq. }
    rewrite list_lookup_insert_ne in Hj' by done. eapply Hr; [done|]. lia.
Qed.

(** The node lies between the places where the two ends stand. *)
Definition inside (node : option addr) ns (i : nat) : Prop :=
  forall j a, node = Some a -> ns.*1 !! j = Some a -> (i <= j /\ j + i < length ns)%nat.

Definition depth_result s F ns xss (c : nat) node (r : option (bool * option addr * option addr)) s' : Prop :=
  match r with
  | None => exists ns', packed_to s F ns xss (length ns) s' ns'
  | Some (d, f, b) => (2 * c <= length ns)%nat /\
      f = ns.*1 !! c /\ b = ns.*1 !! (length ns - S c)%nat /\ (d = false -> inside node ns c) /\
      exists ns', packed_to s F ns xss c s' ns'
  end.

Lemma inside_same node ns ns' i : same_nodes ns ns' -> inside node ns i -> inside node ns' i.
Proof. intros S H j a Ha Hj. rewrite (same_addrs _ _ S) in Hj. rewrite (same_length _ _ S). by eapply H. Qed.

Lemma addr_inj s F ns i j a : chain s F ns -> ns.*1 !! i = Some a -> ns.*1 !! j = Some a -> i = j.
Proof. intros [[Hnd _ _ _] _ _]. by apply NoDup_lookup. Qed.

Lemma addr_at ns i : (i < length ns)%nat -> exists a, ns.*1 !! i = Some a.
Proof. intros Hi. apply lookup_lt_is_Some_2. by rewrite length_fmap. Qed.

Lemma depth_loop_wp F xss c (node : option addr) n : forall i s ns (seen : bool),
  chain s F ns -> held ns xss -> raw_ends i ns -> (i + n = c)%nat -> (1 <= c)%nat -> (2 * c <= length ns + 1)%nat ->
  (n = 0 -> 2 * c <= length ns)%nat -> (seen = false -> inside node ns i) ->
  wp (depth_loop junk n node (ns.*1 !! i) (ns.*1 !! (length ns - S i)%nat) seen) (depth_result s F ns xss c node) s.
Proof.
  induction n as [|n IH]; intros i s ns seen C Hh Hg Hi Hc HL Hend Hin; cbn [depth_loop].
  - apply wp_ret. replace c with i in * by lia. split_and!; try done; [lia|]. exists ns. by split_and!.
  - destruct (addr_at ns i) as [f Hf]; [lia|]. destruct (addr_at ns (length ns - S i)) as [b Hb]; [lia|].
    rewrite Hf, Hb. eapply both_ends; [done|done|done|done|done|]. intros s' ns' P.
    pose proof P as (C' & S' & H' & G' & E'). pose proof (same_addrs _ _ S') as Ea. pose proof (same_length _ _ S') as El.
    cbn zeta. case_bool_decide as Heq.
    + injection Heq as <-. pose proof (addr_inj _ _ _ _ _ _ C Hf Hb) as Hij. apply wp_ret. exists ns'.
      split_and!; try done. intros j a e Hj _. apply (G' j a e Hj). lia.
    + rewrite <- Ea in Hf, Hb. apply addr_node in Hf as (df & Hf). apply addr_node in Hb as (db & Hb).
      apply wp_bind. eapply wp_lift; [done|]. apply wp_bind. eapply get_node_wp; [apply (linked_node _ _ _ _ _ _ (ch_linked _ _ _ C') Hf)|].
      apply wp_bind. eapply wp_lift; [done|]. apply wp_bind. eapply get_node_wp; [apply (linked_node _ _ _ _ _ _ (ch_linked _ _ _ C') Hb)|].
      cbn [link nnext nprev].
      assert (i <> (length ns - S i)%nat) as Hij.
      { intros Hij. rewrite <- Hij in Hb. apply Heq. congruence. }
      rewrite next_at_addr. replace (length ns - S i)%nat with (S (length ns' - S (S i))) by lia.
      rewrite prev_at_S by lia. eapply wp_mono; [apply (IH (S i) s' ns'); try done; try lia|].
      * intros Hd. destruct (bool_decide (Some f = node)) eqn:E1; [done|]. destruct (bool_decide (Some b = node)) eqn:E2; [done|].
        cbn [orb] in Hd. apply bool_decide_eq_false in E1, E2. intros j a -> Hj.
        destruct (inside_same _ _ _ _ S' (Hin Hd) j a eq_refl Hj) as [Hj1 Hj2].
        apply addr_node in Hj as (dj & Hj). split.
        -- destruct (decide (i = j)) as [<-|]; [congruence|lia].
        -- destruct (decide (j = length ns - S i)%nat) as [->|]; [congruence|lia].
      * intros r s2 Hr. destruct r as [[[d' f'] b']|]; cbn [depth_result] in *.
        -- destruct Hr as (HL' & -> & -> & Hin' & ns2 & P2). rewrite Ea, El in *. split_and!; try done.
           ++ intros Hd j a Ha Hj. rewrite <- El. eapply Hin'; [done|done|by rewrite Ea].
           ++ exists ns2. by eapply packed_trans.
        -- destruct Hr as (ns2 & P2). rewrite El in P2. exists ns2. by eapply packed_trans.
Qed.

Lemma raw_ends_le g g' ns : (g' <= g)%nat -> raw_ends g ns -> raw_ends g' ns.
Proof. intros Hg H i a d Hi Hd. apply (H i a d Hi). lia. Qed.

Lemma raw_ends_all g ns : (length ns <= g)%nat -> raw_ends g ns -> all_raw ns.
Proof. intros Hg H i a d Hi. apply (H i a d Hi). lia. Qed.

Lemma packed_le s F ns xss g g' s' ns' :
  (g' <= g)%nat -> packed_to s F ns xss g s' ns' -> packed_to s F ns xss g' s' ns'.
Proof. intros Hg (C & S & H & G & E). split_and!; try done. by eapply raw_ends_le. Qed.

(** Compressing a node in the middle of what was packed. *)
Lemma packed_compress s F ns xss g s' ns' i a (Q : unit -> qstate -> Prop) :
  packed_to s F ns xss g s' ns' -> ns.*1 !! i = Some a -> (g <= i /\ i + g < length ns)%nat ->
  (forall s2 ns2, packed_to s F ns xss g s2 ns2 -> Q tt s2) ->
  wp (quicklistCompressNode junk garbage (Some a)) Q s'.
Proof.
  intros P Hi Hg HQ. pose proof P as (C & S & H & G & E).
  eapply compress_at; [done|done|by rewrite (same_addrs _ _ S)|]. intros s2 d2 R.
  destruct (recoded_packed _ _ _ _ g _ _ _ R H G) as (ns2 & P2); [right; by rewrite (same_length _ _ S)|].
  apply (HQ s2 ns2). by eapply packed_trans.
Qed.

(** The node may be in the list or none at all. *)
Definition of_list ns (node : option addr) : Prop := forall a, node = Some a -> exists j, ns.*1 !! j = Some a.

Lemma compress_list_wp s F ns xss c node (Q : unit -> qstate -> Prop) :
  chain s F ns -> held ns xss -> of_list ns node ->
  compress (ql s) = Z.of_nat c -> Z.of_nat c < 2 ^ 16 ->
  (c = 0%nat \/ qlen (ql s) < 2 * Z.of_nat c -> all_raw ns) ->
  (2 * Z.of_nat c <= qlen (ql s) -> (2 * c <= length ns + 1)%nat) ->
  (forall s' ns', packed_to s F ns xss (guard c (length ns)) s' ns' -> (c = 0%nat -> ns' = ns) -> Q tt s') ->
  wp (__quicklistCompress junk garbage node) Q s.
Proof.
  intros C Hh Hnode Ec Hc Hraw HL HQ. unfold __quicklistCompress. wp_step. cbn zeta.
  unfold quicklistAllowsCompression. rewrite negb_involutive, Ec, wrapu_small by (ints || done).
  destruct ((Z.of_nat c =? 0) || (qlen (ql s) <? Z.of_nat c * 2)) eqn:Eg.
  { apply wp_skip, (HQ s ns); [|done]. split_and!; try done. apply all_raw_settled, Hraw.
    apply orb_true_iff in Eg as [E%Z.eqb_eq|E%Z.ltb_lt]; [left|right]; lia. }
  apply orb_false_iff in Eg as [Hc0%Z.eqb_neq HLc%Z.ltb_ge]. specialize (HL ltac:(lia)).
  rewrite Nat2Z.id. apply wp_bind.
  assert (length ns <> 0)%nat as Hne by lia.
  assert (head (ql s) = ns.*1 !! 0%nat) as ->.
  { rewrite (ch_head _ _ _ C). destruct ns as [|[]]; done. }
  assert (tail (ql s) = ns.*1 !! (length ns - 1)%nat) as ->.
  { rewrite (ch_tail _ _ _ C). destruct ns as [|[a d] ns' _] using rev_ind; [done|].
    rewrite AdlistSpec.seg_last_snoc, length_app, fmap_app. cbn [length]. rewrite Nat.add_sub.
    symmetry. apply lookup_app_len. by rewrite length_fmap. }
  eapply wp_mono.
  { apply (depth_loop_wp F xss c node c 0 s ns false); try done; try lia.
    - intros j a d Hj [?|?]; [lia|]. apply lookup_lt_Some in Hj. lia.
    - intros _ j a _ Hj. apply lookup_lt_Some in Hj. rewrite length_fmap in Hj. lia. }
  intros r s1 Hr. destruct r as [[[seen f] b]|]; cbn [depth_result] in Hr; cbn beta iota.
  2: { destruct Hr as (ns1 & P). apply wp_skip, (HQ s1 ns1); [|by intros ->]. eapply packed_le; [|done].
       unfold guard. repeat case_decide; lia. }
  destruct Hr as (HL2 & -> & -> & Hin & ns1 & P).
  assert (guard c (length ns) <= c /\ (c = 1%nat \/ guard c (length ns) + c < length ns))%nat as [Hgc Hgl].
  { unfold guard. repeat case_decide; lia. }
  assert (forall s2 ns2, packed_to s F ns xss c s2 ns2 ->
    wp (if Z.of_nat c + 1 >? 2 then
        _ ← quicklistCompressNode junk garbage (ns.*1 !! c); quicklistCompressNode junk garbage (ns.*1 !! (length ns - S c)%nat)
      else skip) Q s2) as Hrest.
  { intros s2 ns2 P2%(packed_le _ _ _ _ _ (guard c (length ns))); [|done].
    destruct (Z.gtb_spec (Z.of_nat c + 1) 2); [|by apply wp_skip, (HQ s2 ns2); [|intros ->]].
    destruct (addr_at ns c) as [f Hf]; [lia|]. destruct (addr_at ns (length ns - S c)) as [b Hb]; [lia|]. rewrite Hf, Hb.
    apply wp_bind. eapply packed_compress; [done|done|lia|]. intros s3 ns3 P3.
    eapply packed_compress; [done|done|lia|]. intros s4 ns4 P4. apply (HQ s4 ns4 P4). by intros ->. }
  apply wp_bind. destruct seen; [apply wp_skip; by eapply Hrest|].
  destruct node as [a|]; [|apply wp_skip; by eapply Hrest].
  destruct (Hnode a eq_refl) as (j & Hj). eapply packed_compress; [done|done|by eapply Hin|]. apply Hrest.
Qed.

End Compress.

(** ** Linking and unlinking nodes *)

Lemma seg_ends h F xs ys a : linked h F (xs ++ ys) -> last_ None xs = Some a -> first ys None <> Some a.
Proof.
  intros [Hnd _ _ _] Hx%AdlistSpec.last_in Hy%AdlistSpec.first_in. rewrite fmap_app in Hnd.
  apply NoDup_app in Hnd as (_ & Hd & _). by apply (Hd a).
Qed.

Lemma ends_differ h F xs ys : linked h F (xs ++ ys) -> last_ None xs = None \/ last_ None xs <> first ys None.
Proof.
  intros C. destruct (last_ None xs) as [a|] eqn:E; [right|by left]. intros E'. by eapply seg_ends.
Qed.

Section Nodes.
Context (junk : nat -> Z) (garbage : Z -> Z) (alloc : gset addr -> addr).
Context (Hgarbage : forall i, is_u32 (garbage i)).

Lemma upd_opt_next s p n g (Q : unit -> qstate -> Prop) :
  AdlistSpec.relink_next (links (nodes s)) p n = Some g ->
  (forall s', links (nodes s') = g -> ql s' = ql s -> Q tt s') -> wp (upd_opt p (set_nnext n)) Q s.
Proof.
  destruct p as [a|]; cbn [AdlistSpec.relink_next upd_opt].
  - unfold Adlist.set_next. destruct (links (nodes s) !! a) as [[q m d]|] eqn:Ha; [|done]. cbn [mbind option_bind].
    intros [= <-] HQ. apply links_Some in Ha. eapply upd_wp; [done|]. apply HQ; [|done].
    cbn [set_nodes nodes]. rewrite links_insert. by destruct d.
  - intros [= <-] HQ. by apply wp_skip, HQ.
Qed.

Lemma upd_opt_prev s p n g (Q : unit -> qstate -> Prop) :
  AdlistSpec.relink_prev (links (nodes s)) p n = Some g ->
  (forall s', links (nodes s') = g -> ql s' = ql s -> Q tt s') -> wp (upd_opt p (set_nprev n)) Q s.
Proof.
  destruct p as [a|]; cbn [AdlistSpec.relink_prev upd_opt].
  - unfold Adlist.set_prev. destruct (links (nodes s) !! a) as [[q m d]|] eqn:Ha; [|done]. cbn [mbind option_bind].
    intros [= <-] HQ. apply links_Some in Ha. eapply upd_wp; [done|]. apply HQ; [|done].
    cbn [set_nodes nodes]. rewrite links_insert. by destruct d.
  - intros [= <-] HQ. by apply wp_skip, HQ.
Qed.

(** A node that has its own links is linked in from its neighbours. *)
Lemma link_next_prev s F xs ys a d (Q : unit -> qstate -> Prop) :
  linked (nodes s) (<[a := link (last_ None xs) (first ys None) d]> F) (xs ++ ys) -> F !! a = None ->
  (forall s', linked (nodes s') F (xs ++ (a, d) :: ys) -> ql s' = ql s -> Q tt s') ->
  wp (_ ← upd_opt (last_ None xs) (set_nnext (Some a)); upd_opt (first ys None) (set_nprev (Some a))) Q s.
Proof.
  intros C Hn HQ. destruct (linked_link _ _ _ _ _ _ C Hn) as (g & g' & Hg & Hg' & H).
  apply wp_bind. eapply upd_opt_next; [done|]. intros s1 <- E1. eapply upd_opt_prev; [done|]. intros s2 E2 E3.
  apply HQ; [by apply H|congruence].
Qed.

Lemma link_prev_next s F xs ys a d (Q : unit -> qstate -> Prop) :
  linked (nodes s) (<[a := link (last_ None xs) (first ys None) d]> F) (xs ++ ys) -> F !! a = None ->
  (forall s', linked (nodes s') F (xs ++ (a, d) :: ys) -> ql s' = ql s -> Q tt s') ->
  wp (_ ← upd_opt (first ys None) (set_nprev (Some a)); upd_opt (last_ None xs) (set_nnext (Some a))) Q s.
Proof.
  intros C Hn HQ. destruct (linked_link _ _ _ _ _ _ C Hn) as (g & g' & Hg & Hg' & H).
  pose proof (relink_comm (links (nodes s)) (last_ None xs) (first ys None) (Some a) (Some a) (ends_differ _ _ _ _ C)) as Hc.
  rewrite Hg in Hc. cbn [mbind option_bind] in Hc. rewrite Hg' in Hc.
  destruct (AdlistSpec.relink_prev (links (nodes s)) (first ys None) (Some a)) as [g1|] eqn:E; [|done]. cbn [mbind option_bind] in Hc.
  apply wp_bind. eapply upd_opt_prev; [done|]. intros s1 <- E1. eapply upd_opt_next; [done|]. intros s2 E2 E3.
  apply HQ; [by apply H|congruence].
Qed.

Lemma unlink_wp {B} s F xs ys a d (k : M qstate B) (Q : B -> qstate -> Prop) :
  linked (nodes s) F (xs ++ (a, d) :: ys) ->
  (forall s', linked (nodes s') (<[a := link (last_ None xs) (first ys None) d]> F) (xs ++ ys) -> ql s' = ql s -> wp k Q s') ->
  wp (_ ← upd_opt (first ys None) (set_nprev (last_ None xs)); _ ← upd_opt (last_ None xs) (set_nnext (first ys None)); k) Q s.
Proof.
  intros C HQ. destruct (linked_unlink _ _ _ _ _ _ C) as (g & g' & Hg & Hg' & H).
  assert (last_ None xs = None \/ last_ None xs <> first ys None) as Hd.
  { destruct C as [Hnd _ _ _]. destruct (last_ None xs) as [b|] eqn:E; [right|by left]. intros E'. symmetry in E'.
    apply AdlistSpec.last_in in E. apply AdlistSpec.first_in in E'. rewrite fmap_app in Hnd. cbn [fmap list_fmap fst] in Hnd.
    apply NoDup_app in Hnd as (_ & Hd & _). apply (Hd b E). by right. }
  pose proof (relink_comm (links (nodes s)) (last_ None xs) (first ys None) (first ys None) (last_ None xs) Hd) as Hc.
  rewrite Hg in Hc. cbn [mbind option_bind] in Hc. rewrite Hg' in Hc.
  destruct (AdlistSpec.relink_prev (links (nodes s)) (first ys None) (last_ None xs)) as [g1|] eqn:E; [|done]. cbn [mbind option_bind] in Hc.
  apply wp_bind. eapply upd_opt_prev; [done|]. intros s1 <- E1. apply wp_bind. eapply upd_opt_next; [done|]. intros s2 E2 E3.
  apply HQ; [by apply H|congruence].
Qed.

(** The counters and options of the list. *)
Definition same_meta (q q' : quicklist) : Prop :=
  count q' = count q /\ qlen q' = qlen q /\ fill q' = fill q /\ compress q' = compress q.

Lemma last_snoc_inv xs a : last_ None xs = Some a -> exists xs' d, xs = xs' ++ [(a, d)].
Proof.
  destruct xs as [|[b d] xs _] using rev_ind; [done|]. rewrite AdlistSpec.seg_last_snoc. intros [= ->]. by exists xs, d.
Qed.

Lemma first_cons_inv ys a : first ys None = Some a -> exists ys' d, ys = (a, d) :: ys'.
Proof. destruct ys as [|[b d] ys]; [done|]. intros [= ->]. by exists ys, d. Qed.

(** The node that the new one goes next to. *)
Definition neighbour (xs ys : list (addr * ndata)) (after : bool) (old : option addr) : Prop :=
  if after then old = last_ None xs /\ (old = None -> ys = []) else old = first ys None /\ (old = None -> xs = []).

Lemma get_opt_wp s a n (Q : option quicklistNode -> qstate -> Prop) :
  nodes s !! a = Some n -> Q (Some n) s -> wp (get_opt (Some a)) Q s.
Proof. intros Ha HQ. cbn [get_opt]. apply wp_bind. eapply get_node_wp; [done|]. by apply wp_ret. Qed.

(** The links of a node that is outside the list may be anything. *)
Lemma put_linked s F ns a p n p' n' d :
  linked (nodes s) (<[a := link p n d]> F) ns ->
  s = put a p n d s /\ linked (nodes (put a p' n' d s)) (<[a := link p' n' d]> F) ns.
Proof.
  intros C. pose proof (linked_apart _ _ _ _ _ C (lookup_insert_eq _ _ _)) as Ha. split.
  - apply put_self. eapply linked_loose; [done|apply lookup_insert_eq].
  - cbn [put set_nodes nodes]. rewrite <- (insert_insert_eq F a (link p' n' d) (link p n d)). by apply linked_other.
Qed.

Lemma first_nodes_none ns : first ns None = None -> ns = [].
Proof. by destruct ns as [|[]]. Qed.

Lemma last_nodes_none ns : last_ None ns = None -> ns = [].
Proof. destruct ns as [|[]  ? _] using rev_ind; [done|]. by rewrite AdlistSpec.seg_last_snoc. Qed.

Lemma tail_moves h F xs ys a d :
  linked h F (xs ++ (a, d) :: ys) -> xs <> [] ->
  last_ None (xs ++ (a, d) :: ys) =
    if bool_decide (last_ None (xs ++ ys) = last_ None xs) then Some a else last_ None (xs ++ ys).
Proof.
  intros [Hnd _ _ _] Hx. rewrite !AdlistSpec.last_app. cbn [AdlistSpec.last_].
  destruct ys as [|[b e] ys _] using rev_ind; cbn [AdlistSpec.last_]; [by rewrite bool_decide_true|].
  rewrite !AdlistSpec.seg_last_snoc. rewrite bool_decide_false; [done|]. intros E. symmetry in E.
  apply AdlistSpec.last_in in E. rewrite fmap_app in Hnd. apply NoDup_app in Hnd as (_ & Hd & _).
  apply (Hd b E). cbn [fmap list_fmap fst]. right. rewrite fmap_app, elem_of_app. right. left.
Qed.

Lemma head_moves h F xs ys a d :
  linked h F (xs ++ (a, d) :: ys) -> ys <> [] ->
  first (xs ++ (a, d) :: ys) None =
    if bool_decide (first (xs ++ ys) None = first ys None) then Some a else first (xs ++ ys) None.
Proof.
  intros [Hnd _ _ _] Hy. rewrite !AdlistSpec.first_app. cbn [AdlistSpec.first].
  destruct xs as [|[b e] xs]; cbn [AdlistSpec.first]; [by rewrite bool_decide_true|].
  rewrite bool_decide_false; [done|]. intros E. symmetry in E.
  apply AdlistSpec.first_in in E. cbn [app fmap list_fmap fst] in Hnd. apply NoDup_cons in Hnd as [Hb _].
  apply Hb. rewrite fmap_app. cbn [fmap list_fmap fst]. rewrite elem_of_app, elem_of_cons. tauto.
Qed.

(** A node that is raw is put next to another one. *)
Definition inserted s F xs ys a d xss c s' : Prop :=
  exists ns', chain s' F ns' /\ same_nodes (xs ++ (a, d) :: ys) ns' /\ held ns' xss /\ settled c ns' /\
    count (ql s') = count (ql s) /\ qlen (ql s') = Z.of_nat (length ns') /\
    fill (ql s') = fill (ql s) /\ compress (ql s') = compress (ql s) /\ (c = 0%nat -> ns' = xs ++ (a, d) :: ys).

Record insertable s F xs ys a d xss c : Prop := Insertable {
  ia_fresh : F !! a = None;
  ia_chain : chain s (<[a := link None None d]> F) (xs ++ ys);
  ia_held : held (xs ++ (a, d) :: ys) xss;
  ia_raw : raw d;
  ia_calm : calm (xs ++ ys);
  ia_settled : settled c (xs ++ ys);
  ia_qlen : qlen (ql s) = Z.of_nat (length (xs ++ ys));
  ia_room : Z.of_nat (length (xs ++ ys)) + 1 < 2 ^ 32;
  ia_compress : compress (ql s) = Z.of_nat c;
  ia_depth : Z.of_nat c < 2 ^ 16
}.

Lemma insert_middle_raw xs ys a d : all_raw (xs ++ ys) -> raw d -> all_raw (xs ++ (a, d) :: ys).
Proof.
  intros H Hd i b e Hi. apply lookup_app_Some in Hi as [Hi|[Hl Hi]].
  - apply (H i b e). by apply lookup_app_l_Some.
  - destruct (i - length xs)%nat as [|j] eqn:E; cbn in Hi; [by simplify_eq|].
    apply (H (length xs + j)%nat b e). rewrite lookup_app_r by lia. by replace (length xs + j - length xs)%nat with j by lia.
Qed.

(** The end of the function, once the links are set. *)
Lemma insert_finish s s1 F xs ys a d old xss c :
  insertable s F xs ys a d xss c -> chain s1 F (xs ++ (a, d) :: ys) -> same_meta (ql s) (ql s1) ->
  of_list (xs ++ ys) old -> (old = None -> xs ++ ys = []) ->
  wp (_ ← (match old with Some oa => quicklistCompress junk garbage oa | None => skip end); add_len 1)
    (fun _ => inserted s F xs ys a d xss c) s1.
Proof.
  intros I C (Ec & El & Ef & Ep) Hold Hnil. destruct I as [_ _ Hh Hr Hcalm Hset Hlen Hroom Hcomp Hdep].
  assert (length (xs ++ (a, d) :: ys) = S (length (xs ++ ys))) as HL by (rewrite !length_app; cbn [length]; lia).
  assert (forall s2 ns2, packed_to s1 F (xs ++ (a, d) :: ys) xss (guard c (length (xs ++ (a, d) :: ys))) s2 ns2 ->
    (c = 0%nat -> ns2 = xs ++ (a, d) :: ys) -> wp (add_len 1) (fun _ => inserted s F xs ys a d xss c) s2) as Hend.
  { intros s2 ns2 (C2 & S2 & H2 & G2 & E2) H0. wp_step. exists ns2. pose proof (same_length _ _ S2) as Hl2.
    cbn [set_ql ql set_qlen count qlen fill compress]. rewrite E2. split_and!; try congruence.
    - by apply chain_ql.
    - unfold settled. by rewrite Hl2.
    - rewrite El, Hlen, Hl2, HL, wrapu_small; ints.
    - done. }
  apply wp_bind. destruct old as [oa|].
  - destruct (Hold oa eq_refl) as (j & Hj). apply addr_node in Hj as (od & Hj).
    assert (exists i, (xs ++ (a, d) :: ys) !! i = Some (oa, od)) as (i & Hi).
    { apply list_elem_of_lookup. apply list_elem_of_lookup_2 in Hj as Hin.
      rewrite elem_of_app in Hin |- *. rewrite elem_of_cons. tauto. }
    unfold quicklistCompress. apply wp_bind. eapply get_node_wp; [eapply linked_node; [apply C|done]|]. cbn [link recompress].
    assert (d_recompress od = false) as ->.
    { apply list_elem_of_lookup_2 in Hj. by apply (proj1 (Forall_forall _ _) Hcalm _ Hj). }
    eapply compress_list_wp; [done|exact C|done| |by rewrite Ep|done| | |].
    + intros a' [= <-]. exists i. rewrite list_lookup_fmap. by rewrite Hi.
    + rewrite El, Hlen. intros Hc. apply insert_middle_raw; [|done]. apply (settled_all_raw c); [lia|done].
    + rewrite El, Hlen, HL. lia.
    + apply Hend.
  - apply wp_skip, (Hend s1 (xs ++ (a, d) :: ys)); [|done]. split_and!; try done.
    apply all_raw_settled, insert_middle_raw; [|done]. by rewrite (Hnil eq_refl).
Qed.

Lemma set_tail_wp s s1 F xs ys a d :
  xs <> [] -> linked (nodes s1) F (xs ++ (a, d) :: ys) -> ql s1 = ql s ->
  head (ql s) = first (xs ++ ys) None -> tail (ql s) = last_ None (xs ++ ys) ->
  wp (if bool_decide (tail (ql s) = last_ None xs) then upd_ql (set_tail (Some a)) else skip)
    (fun _ s2 => chain s2 F (xs ++ (a, d) :: ys) /\ same_meta (ql s) (ql s2)) s1.
Proof.
  intros Hx C E Hh Ht. rewrite Ht.
  assert (first (xs ++ (a, d) :: ys) None = first (xs ++ ys) None) as Ef by (by destruct xs as [|[]]).
  pose proof (tail_moves _ _ _ _ _ _ C Hx) as El. case_bool_decide.
  - apply wp_modify. cbn [set_ql ql set_tail nodes]. rewrite E. split; [|done].
    split; cbn [head tail nodes ql set_tail set_ql]; congruence || done.
  - apply wp_skip. split; [|by rewrite E]. split; rewrite ?E; congruence || done.
Qed.

Lemma set_head_wp s s1 F xs ys a d :
  ys <> [] -> linked (nodes s1) F (xs ++ (a, d) :: ys) -> ql s1 = ql s ->
  head (ql s) = first (xs ++ ys) None -> tail (ql s) = last_ None (xs ++ ys) ->
  wp (if bool_decide (head (ql s) = first ys None) then upd_ql (set_head (Some a)) else skip)
    (fun _ s2 => chain s2 F (xs ++ (a, d) :: ys) /\ same_meta (ql s) (ql s2)) s1.
Proof.
  intros Hy C E Hh Ht. rewrite Hh.
  assert (last_ None (xs ++ (a, d) :: ys) = last_ None (xs ++ ys)) as Ef
    by (rewrite !AdlistSpec.last_app; by destruct ys as [|[]]).
  pose proof (head_moves _ _ _ _ _ _ C Hy) as El. case_bool_decide.
  - apply wp_modify. cbn [set_ql ql set_head nodes]. rewrite E. split; [|done].
    split; cbn [head tail nodes ql set_head set_ql]; congruence || done.
  - apply wp_skip. split; [|by rewrite E]. split; rewrite ?E; congruence || done.
Qed.

(** The neighbour that is there. *)
Lemma neighbour_node s F xs ys a d oa (after : bool) xss c :
  insertable s F xs ys a d xss c -> neighbour xs ys after (Some oa) ->
  exists xs0 od ys0, xs ++ ys = xs0 ++ (oa, od) :: ys0 /\ nodes s !! oa = Some (link (last_ None xs0) (first ys0 None) od) /\
    oa <> a /\ qlen (ql s) <> 0 /\
    if after then xs = xs0 ++ [(oa, od)] /\ ys = ys0 else xs = xs0 /\ ys = (oa, od) :: ys0.
Proof.
  intros [Hn [C _ _] _ _ _ _ Hlen _ _ _] Hnb. pose proof (linked_apart _ _ _ _ _ C (lookup_insert_eq _ _ _)) as Ha.
  assert (exists xs0 od ys0, xs ++ ys = xs0 ++ (oa, od) :: ys0 /\
    if after then xs = xs0 ++ [(oa, od)] /\ ys = ys0 else xs = xs0 /\ ys = (oa, od) :: ys0) as (xs0 & od & ys0 & E & Hs).
  { destruct after, Hnb as [Hnb _]; symmetry in Hnb.
    - apply last_snoc_inv in Hnb as (xs0 & od & ->). exists xs0, od, ys. by rewrite <- app_assoc.
    - apply first_cons_inv in Hnb as (ys0 & od & ->). by exists xs, od, ys0. }
  exists xs0, od, ys0. rewrite E in C, Ha, Hlen. split_and!; try done.
  - by eapply linked_middle.
  - intros ->. apply Ha. rewrite fmap_app. apply elem_of_app. right. left.
  - rewrite Hlen, length_app. cbn [length]. lia.
Qed.

Lemma wp_at {B} s s' (m : M qstate B) Q : s = s' -> wp m Q s' -> wp m Q s.
Proof. by intros ->. Qed.

(** The links of the two nodes around a new one, in either order. *)
Lemma insert_node_wp s F xs ys a d old (after : bool) xss c :
  insertable s F xs ys a d xss c -> neighbour xs ys after old ->
  wp (__quicklistInsertNode junk garbage old a after) (fun _ => inserted s F xs ys a d xss c) s.
Proof.
  intros I Hnb. pose proof I as [Hn [C Hh Ht] _ _ _ _ Hlen _ _ _]. unfold __quicklistInsertNode.
  destruct (put_linked _ _ _ _ _ _ (last_ None xs) (first ys None) _ C) as [Es C'].
  destruct old as [oa|].
  - destruct (neighbour_node _ _ _ _ _ _ _ _ _ _ I Hnb) as (xs0 & od & ys0 & E & Hoa & Hne & Hq0 & Hs).
    apply wp_bind. eapply get_opt_wp; [done|]. wp_step. apply wp_bind. cbn [link nnext nprev].
    eapply wp_mono with (Q := fun _ s2 => chain s2 F (xs ++ (a, d) :: ys) /\ same_meta (ql s) (ql s2)).
    + destruct after, Hs as [-> ->], Hnb as [Hnb _]; rewrite Hnb.
      * apply wp_bind. eapply wp_at; [exact Es|]. eapply upd_put; [done|]. apply wp_bind.
        apply wp_bind. eapply upd_put; [done|].
        change (upd oa (set_nnext (Some a))) with (upd_opt (Some oa) (set_nnext (Some a))). rewrite Hnb.
        eapply link_prev_next; [exact C'|done|]. intros s1 C1 E1. eapply (set_tail_wp s); try done. by destruct xs0.
      * apply wp_bind. eapply wp_at; [exact Es|]. eapply upd_put; [done|]. apply wp_bind.
        apply wp_bind. eapply upd_put; [done|].
        change (upd oa (set_nprev (Some a))) with (upd_opt (Some oa) (set_nprev (Some a))). rewrite Hnb.
        eapply link_next_prev; [exact C'|done|]. intros s1 C1 E1. by eapply (set_head_wp s).
    + intros [] s2 [C2 M2]. rewrite (proj2 (Z.eqb_neq _ _)) by done. wp_step. apply (insert_finish s s2 F xs ys a d (Some oa)); try done.
      intros a' [= <-]. exists (length xs0). rewrite E, fmap_app. apply lookup_app_len. by rewrite length_fmap.
  - assert (xs = [] /\ ys = []) as [-> ->].
    { destruct after, Hnb as [Hnb Hn2]; symmetry in Hnb; [apply last_nodes_none in Hnb|apply first_nodes_none in Hnb]; auto. }
    cbn [app length AdlistSpec.first AdlistSpec.last_] in *. apply wp_bind. apply wp_ret. wp_step. rewrite Hlen, Hh, Ht.
    apply wp_bind. eapply wp_mono with (Q := fun _ s2 => linked (nodes s2) (<[a := link None None d]> F) [] /\ same_meta (ql s) (ql s2)).
    + eapply wp_at; [exact Es|]. destruct after; (apply wp_bind; eapply upd_put; [done|]; apply wp_bind, wp_skip, wp_modify; by split).
    + intros [] s2 [C2 M2]. apply wp_bind. wp_step. apply (insert_finish s _ F [] [] a d None); try done.
      destruct (linked_link _ _ [] [] a d C2 Hn) as (g & g' & [= <-] & [= <-] & Hl). split; [by apply Hl|done|done].
Qed.

(** *** Deleting a node *)

Definition deleted s F xs ys d xss c s' : Prop :=
  exists ns', chain s' F ns' /\ same_nodes (xs ++ ys) ns' /\ held ns' xss /\ settled c ns' /\
    count (ql s') = u64 (count (ql s) - d_count d) /\ qlen (ql s') = Z.of_nat (length ns') /\
    fill (ql s') = fill (ql s) /\ compress (ql s') = compress (ql s) /\ (c = 0%nat -> ns' = xs ++ ys).

Lemma tail_after_delete h F xs ys a d :
  linked h F (xs ++ (a, d) :: ys) ->
  last_ None (xs ++ ys) = if bool_decide (Some a = last_ None (xs ++ (a, d) :: ys)) then last_ None xs else last_ None (xs ++ (a, d) :: ys).
Proof.
  intros [Hnd _ _ _]. rewrite !AdlistSpec.last_app. cbn [AdlistSpec.last_].
  destruct ys as [|[b e] ys]; cbn [AdlistSpec.last_]; [by rewrite bool_decide_true|].
  rewrite bool_decide_false; [done|]. intros E. symmetry in E.
  assert (last_ None ((b, e) :: ys) = Some a) as Hin%AdlistSpec.last_in by done. rewrite fmap_app in Hnd.
  cbn [fmap list_fmap fst] in Hnd, Hin. by apply NoDup_app in Hnd as (_ & _ & [Hn _]%NoDup_cons).
Qed.

Lemma head_after_delete h F xs ys a d :
  linked h F (xs ++ (a, d) :: ys) ->
  first (xs ++ ys) None = if bool_decide (Some a = first (xs ++ (a, d) :: ys) None) then first ys None else first (xs ++ (a, d) :: ys) None.
Proof.
  intros [Hnd _ _ _]. rewrite !AdlistSpec.first_app. cbn [AdlistSpec.first].
  destruct xs as [|[b e] xs]; cbn [AdlistSpec.first]; [by rewrite bool_decide_true|].
  rewrite bool_decide_false; [done|]. intros [= ->].
  cbn [app fmap list_fmap fst] in Hnd. apply NoDup_cons in Hnd as [Hn _]. apply Hn. rewrite fmap_app.
  apply elem_of_app. right. left.
Qed.

Lemma delete_middle_raw xs ys a d : all_raw (xs ++ (a, d) :: ys) -> all_raw (xs ++ ys).
Proof.
  intros H i b e Hi. apply lookup_app_Some in Hi as [Hi|[Hl Hi]].
  - apply (H i b e). by apply lookup_app_l_Some.
  - apply (H (S i) b e). rewrite lookup_app_r by lia. by replace (S i - length xs)%nat with (S (i - length xs)) by lia.
Qed.

(** The ends of the list without a node that is no longer linked. *)
Lemma close_ends_wp {B} s s1 F F1 xs ys a d (k : M qstate B) (Q : B -> qstate -> Prop) :
  chain s F (xs ++ (a, d) :: ys) -> linked (nodes s1) F1 (xs ++ ys) -> ql s1 = ql s ->
  (forall s2, chain s2 F1 (xs ++ ys) -> same_meta (ql s) (ql s2) -> wp k Q s2) ->
  wp (_ ← (if bool_decide (Some a = tail (ql s1)) then upd_ql (set_tail (last_ None xs)) else skip);
      _ ← (if bool_decide (Some a = head (ql s1)) then upd_ql (set_head (first ys None)) else skip); k) Q s1.
Proof.
  intros [C Hh Ht] C1 E1 Hk. rewrite E1, Hh, Ht.
  pose proof (tail_after_delete _ _ _ _ _ _ C) as Et. pose proof (head_after_delete _ _ _ _ _ _ C) as Ef.
  do 2 case_bool_decide; apply wp_bind; (apply wp_modify || apply wp_skip); apply wp_bind; (apply wp_modify || apply wp_skip);
    (apply Hk; [split; cbn [set_ql ql set_tail set_head head tail nodes]; congruence || done
               |cbn [set_ql ql set_tail set_head]; by rewrite E1]).
Qed.

Lemma delete_node_wp s F xs ys a d xss c :
  chain s F (xs ++ (a, d) :: ys) -> held (xs ++ ys) xss -> settled c (xs ++ (a, d) :: ys) ->
  qlen (ql s) = Z.of_nat (length (xs ++ (a, d) :: ys)) -> Z.of_nat (length (xs ++ (a, d) :: ys)) < 2 ^ 32 ->
  compress (ql s) = Z.of_nat c -> Z.of_nat c < 2 ^ 16 ->
  wp (__quicklistDelNode junk garbage a) (fun _ => deleted s F xs ys d xss c) s.
Proof.
  intros C Hheld Hset Hlen Hroom Hcomp Hdep. unfold __quicklistDelNode.
  pose proof (ln_apart _ _ _ (ch_linked _ _ _ C) a ltac:(rewrite fmap_app; apply elem_of_app; right; left)) as Hfa.
  assert (length (xs ++ (a, d) :: ys) = S (length (xs ++ ys))) as HL by (rewrite !length_app; cbn [length]; lia).
  apply wp_bind. eapply get_node_wp; [eapply linked_middle, C|]. cbn [link nnext nprev].
  eapply unlink_wp; [apply C|]. intros s1 C1 E1. wp_step. eapply close_ends_wp; [done|done|done|].
  intros s2 C2 (Ec & El & Ef & Ep). apply wp_bind.
  eapply compress_list_wp; [done|exact C2|done|done|by rewrite Ep|done| | |].
  - rewrite El, Hlen. intros Hc. eapply delete_middle_raw, settled_all_raw; [|done]. lia.
  - rewrite El, Hlen, HL. lia.
  - intros s3 ns3 (C3 & S3 & H3 & G3 & E3) H0. pose proof (same_length _ _ S3) as Hl3.
    pose proof (linked_loose _ _ _ _ _ (ch_linked _ _ _ C3) (lookup_insert_eq _ _ _)) as Ha.
    pose proof (linked_apart _ _ _ _ _ (ch_linked _ _ _ C3) (lookup_insert_eq _ _ _)) as Hni.
    apply wp_bind. eapply get_node_wp; [done|]. cbn [link ncount]. wp_step. unfold free_node. apply wp_bind.
    apply wp_bind. eapply get_node_wp; [done|]. wp_step. wp_step. exists ns3.
    cbn [set_ql set_nodes ql set_qlen set_count count qlen fill compress]. rewrite E3. split_and!; try congruence.
    + destruct C3 as [C3 Hh3 Ht3]. split; cbn [set_ql set_nodes nodes ql set_qlen set_count head tail]; [|congruence..].
      rewrite <- (delete_id F a Hfa). rewrite <- (delete_insert_eq F a (link (last_ None xs) (first ys None) d)).
      by apply linked_free.
    + unfold settled. by rewrite Hl3.
    + by rewrite Ec.
    + rewrite El, Hlen, Hl3, HL, wrapu_small; ints.
    + done.
Qed.

End Nodes.

End QuicklistSpec.
