(* ===== verification/QuicklistOps.v ===== *)
(** * The operations of a list of compact lists (src/quicklist.c)

    [repr] is the invariant of a list: its nodes, the strings of each, which
    nodes may be compressed and the counters.  Pushing, popping and deleting
    are shown to keep it, for any depth of compression. *)

From S2P Require Import Prelude Util Ziplist ZiplistSpec Lzf LzfSpec Adlist AdlistSpec Monad Quicklist QuicklistSpec.
Import Util Ziplist ZiplistSpec Monad Quicklist QuicklistSpec.

Module QuicklistOps.

Implicit Types (a b : addr) (d : ndata) (p q : option addr) (s : qstate) (h F : gmap addr quicklistNode)
  (z : bytes) (xss : list (list bytes)).

(** ** Sizes *)

Lemma entry_size e : Z.of_nat (length e.2) + 13 <= 17 * Z.of_nat (elen e).
Proof.
  unfold elen. pose proof (psz_range e.1). unfold body. destruct (zipTryEncoding e.2) as [[v enc]|] eqn:E; rewrite length_app.
  - apply zipTryEncoding_Some in E as (Hv & -> & _). pose proof (decimal_length_20 v Hv).
    pose proof (zipEncodeLength_length enc (Z.of_nat (length (decimal v)))). lia.
  - pose proof (zipEncodeLength_length 0 (Z.of_nat (length e.2))). lia.
Qed.

Lemma ents_bound_size prev es : zl_bound (strs es) <= 11 + 17 * Z.of_nat (length (ents prev es)).
Proof.
  revert prev. induction es as [|e es IH]; intros prev; [done|].
  unfold strs in *. rewrite fmap_cons, zl_bound_cons. cbn [ents]. rewrite length_app, length_ent.
  specialize (IH (Z.of_nat (elen e))). pose proof (entry_size e). lia.
Qed.

Lemma rep_sizes z xs :
  zl_rep z xs ->
  zl_bound xs <= 11 + 17 * (Z.of_nat (length z) - 11) /\ 11 + 2 * Z.of_nat (length xs) <= Z.of_nat (length z) <= zl_bound xs.
Proof.
  intros (es & (lf & Hz & _) & <-). apply (f_equal length) in Hz. rewrite !length_app, length_hdr in Hz. cbn [length] in Hz.
  pose proof (ents_bound_size 0 es). pose proof (ents_bound 0 es). pose proof (ents_size 0 es). rewrite length_strs. lia.
Qed.

(** The lengths of the values that are stored. *)
Definition value_ok (v : bytes) : Prop := Z.of_nat (length v) + 24 < 2 ^ 31 /\ Forall is_u8 v.

#[export] Instance value_ok_dec v : Decision (value_ok v).
Proof. unfold value_ok. apply _. Defined.

Definition fill_ok (f : Z) : Prop := f < 2 ^ 15.

Lemma single_fits v : value_ok v -> node_fits [v].
Proof.
  intros [Hl Hv]. split; [|split]; [|done|by constructor]. unfold zl_fits. cbn [zl_bound]. lia.
Qed.

Lemma level_bound f n : (if optimization_level !! n is Some limit then f <=? limit else false) = true -> f <= 65536.
Proof.
  unfold optimization_level. do 5 (destruct n as [|n]; [cbn; intros ?%Z.leb_le; lia|]). by cbn.
Qed.

(** What a node takes in still fits. *)
Lemma allow_fits p n d f v xs pre post :
  _quicklistNodeAllowInsert (Some (link p n d)) f (Z.of_nat (length v)) = true -> fill_ok f ->
  holds d xs -> d_count d = Z.of_nat (length xs) -> value_ok v -> xs = pre ++ post -> node_fits (pre ++ v :: post).
Proof.
  intros Hallow Hf (z & _ & Hrep & (Hfits & Hlen & Hu8) & Hsz) Hc [Hvl Hv] ->.
  pose proof (rep_sizes _ _ Hrep) as [Hb Hs].
  unfold _quicklistNodeAllowInsert in Hallow. cbn [link sz ncount] in Hallow. rewrite Hsz, Hc in Hallow.
  assert (0 <= ziplist_overhead (Z.of_nat (length v)) <= 10) as Ho by (unfold ziplist_overhead; repeat case_match; lia).
  unfold zl_fits in Hfits. rewrite wrapu_small in Hallow by ints.
  assert (Z.of_nat (length z) + Z.of_nat (length v) <= 65536 /\
    (Z.of_nat (length (pre ++ post)) < 2 ^ 15 - 1)) as [Hsum Hcnt].
  { unfold _quicklistNodeSizeMeetsOptimizationRequirement, sizeMeetsSafetyLimit, SIZE_SAFETY_LIMIT, fill_ok in *.
    case_match eqn:E1.
    - case_match; [done|]. apply level_bound in E1. lia.
    - case_match eqn:E2; [done|]. apply negb_false_iff in E2. lia. }
  split; [|split].
  - unfold zl_fits. rewrite zl_bound_app, zl_bound_cons. rewrite zl_bound_app in Hb. lia.
  - rewrite length_app in *. cbn [length]. lia.
  - apply Forall_app in Hu8 as [? ?]. apply Forall_app. split; [done|by constructor].
Qed.

(** ** The invariant *)

Definition good d (xs : list bytes) : Prop :=
  holds d xs /\ d_count d = Z.of_nat (length xs) /\ d_recompress d = false.

Abbreviation nodes_good := (Forall2 (fun (x : addr * ndata) xs => good x.2 xs)).

Lemma good_held ns xss : nodes_good ns xss -> held ns xss.
Proof. intros H. eapply Forall2_impl; [exact H|]. by intros x xs []. Qed.

Lemma good_calm ns xss : nodes_good ns xss -> calm ns.
Proof. induction 1 as [|x xs ns xss (_ & _ & H) _ IH]; [constructor|]. by constructor. Qed.

Lemma recoded_good d d' xs : recoded d d' -> good d xs -> good d' xs.
Proof. intros R (Hh & Hc & Hr). split; [by apply R|]. split; [by rewrite (rc_count _ _ R)|by apply R]. Qed.

Lemma same_good ns ns' xss : same_nodes ns ns' -> nodes_good ns xss -> nodes_good ns' xss.
Proof.
  intros H. revert xss. induction H as [|x y ns ns' [_ R] _ IH]; intros xss Hh; [done|].
  inversion Hh as [|? xs ? xss' Hx Hxs]. constructor; [by eapply recoded_good|by apply IH].
Qed.

Record repr s F (c : nat) (ns : list (addr * ndata)) xss : Prop := Repr {
  rp_chain : chain s F ns;
  rp_good : nodes_good ns xss;
  rp_settled : settled c ns;
  rp_nonempty : Forall (fun xs => xs <> []) xss;
  rp_qlen : qlen (ql s) = Z.of_nat (length ns);
  rp_count : count (ql s) = Z.of_nat (length (concat xss));
  rp_small : Z.of_nat (length (concat xss)) < 2 ^ 31;
  rp_compress : compress (ql s) = Z.of_nat c;
  rp_depth : Z.of_nat c < 2 ^ 16;
  rp_fill : fill_ok (fill (ql s))
}.

Lemma concat_length_ge xss : Forall (fun xs => xs <> []) xss -> (length xss <= length (concat xss))%nat.
Proof.
  induction 1 as [|xs xss Hx _ IH]; [done|]. cbn [concat length]. rewrite length_app. destruct xs; [done|]. cbn [length]. lia.
Qed.

Lemma list_repr_length s F c ns xss : repr s F c ns xss -> length xss = length ns /\ Z.of_nat (length ns) < 2 ^ 31.
Proof.
  intros R. pose proof (Forall2_length _ _ _ (rp_good _ _ _ _ _ R)) as E. pose proof (concat_length_ge _ (rp_nonempty _ _ _ _ _ R)).
  pose proof (rp_small _ _ _ _ _ R). lia.
Qed.

Lemma same_middle xs a d ys ns' :
  same_nodes (xs ++ (a, d) :: ys) ns' ->
  exists xs' d' ys', ns' = xs' ++ (a, d') :: ys' /\ same_nodes xs xs' /\ recoded d d' /\ same_nodes ys ys'.
Proof.
  intros H. apply Forall2_app_inv_l in H as (xs' & r & Hx & Hr & ->).
  apply Forall2_cons_inv_l in Hr as ([b d'] & ys' & [Eb R] & Hy & ->). cbn [fst snd] in *. subst b. by exists xs', d', ys'.
Qed.

Lemma good_middle xs a d ys xss :
  nodes_good (xs ++ (a, d) :: ys) xss ->
  exists xsa vs xsb, xss = xsa ++ vs :: xsb /\ nodes_good xs xsa /\ good d vs /\ nodes_good ys xsb.
Proof.
  intros H. apply Forall2_app_inv_l in H as (xsa & r & Hx & Hr & ->).
  apply Forall2_cons_inv_l in Hr as (vs & xsb & Hd & Hy & ->). by exists xsa, vs, xsb.
Qed.

Lemma settled_update c xs a d d' ys : settled c (xs ++ (a, d) :: ys) -> (raw d -> raw d') -> settled c (xs ++ (a, d') :: ys).
Proof.
  unfold settled. rewrite !length_app. cbn [length]. intros H Hd i b e Hi Hg. rewrite length_app in *. cbn [length] in *.
  destruct (decide (i = length xs)) as [->|Hne].
  - rewrite list_lookup_middle in Hi by done. simplify_eq. apply Hd. eapply (H (length xs)); [by apply list_lookup_middle|].
    rewrite length_app. cbn [length]. lia.
  - eapply (H i b e); [|rewrite length_app; cbn [length]; lia]. rewrite <- Hi.
    destruct (decide (i < length xs)%nat); [by rewrite !lookup_app_l|]. rewrite !lookup_app_r by lia.
    destruct (i - length xs)%nat eqn:E; [lia|done].
Qed.

(** The ends of a list are raw. *)
Lemma settled_ends c ns i a d : settled c ns -> ns !! i = Some (a, d) -> i = 0%nat \/ S i = length ns -> raw d.
Proof.
  intros H Hi Hend. apply (H i a d Hi). apply lookup_lt_Some in Hi. unfold guard. repeat case_decide; lia.
Qed.

(** ** Adding an entry *)

Section Ops.
Context (junk : nat -> Z) (garbage : Z -> Z) (alloc : gset addr -> addr).
Context (Hgarbage : forall i, is_u32 (garbage i)) (Halloc : forall X, alloc X ∉ X).

Lemma good_fits d xs : good d xs -> zl_fits xs.
Proof. by intros [(z & _ & _ & [H _] & _) _]. Qed.

Lemma raw_blob d xs : raw d -> holds d xs -> exists z, d_zl d = Some z /\ zl_rep z xs /\ node_fits xs /\ d_sz d = Z.of_nat (length z).
Proof. intros Hr (z & Hz & H). exists z. split; [by apply blob_raw|done]. Qed.

Lemma holds_raw d z xs : raw d -> d_zl d = Some z -> zl_rep z xs -> node_fits xs -> d_sz d = Z.of_nat (length z) -> holds d xs.
Proof. intros Hr Hz. exists z. split_and!; try done. by left. Qed.

(** The compact list of a node is changed and its size stored again. *)
Lemma change_node_wp s F xs a d ys f z z' vs (Q : unit -> qstate -> Prop) :
  chain s F (xs ++ (a, d) :: ys) -> raw d -> d_zl d = Some z -> f z = Some z' -> zl_rep z' vs -> node_fits vs ->
  (forall s' d', chain s' F (xs ++ (a, d') :: ys) -> ql s' = ql s -> raw d' -> d_zl d' = Some z' -> holds d' vs ->
    d_count d' = d_count d -> d_recompress d' = d_recompress d -> Q tt s') ->
  wp (_ ← on_zl a f; quicklistNodeUpdateSz a) Q s.
Proof.
  intros C Hr Hz Hf Hrep Hfit HQ. eapply wp_at; [by eapply chain_self|]. apply wp_bind. eapply on_zl_put; [done|done|].
  eapply update_sz_put; [done|done|]. eapply (HQ _ (with_sz (Z.of_nat (length z')) (with_zl z' d))); try done.
  - by eapply chain_put.
  - by eapply holds_raw.
Qed.

(** [count] of a node goes up. *)
Lemma bump_wp s F xs a d ys vs k (Q : unit -> qstate -> Prop) :
  chain s F (xs ++ (a, d) :: ys) -> holds d vs -> d_count d + k = Z.of_nat (length vs) ->
  (forall s' d', chain s' F (xs ++ (a, d') :: ys) -> ql s' = ql s -> (raw d -> raw d') -> d_zl d' = d_zl d ->
    holds d' vs -> d_count d' = Z.of_nat (length vs) -> d_recompress d' = d_recompress d -> Q tt s') ->
  wp (add_count a k) Q s.
Proof.
  intros C Hh Hk HQ. eapply wp_at; [by eapply chain_self|]. eapply add_count_put.
  eapply (HQ _ (with_count (wrapu 16 (d_count d + k)) d)); try done; [by eapply chain_put|].
  cbn [with_count d_count]. destruct Hh as (_ & _ & _ & (_ & Hl & _) & _). rewrite Hk, wrapu_small; ints.
Qed.

(** A node outside the list is changed. *)
Lemma chain_outside s F ns b d d' :
  chain s (<[b := link None None d]> F) ns ->
  s = put b None None d s /\ chain (put b None None d' s) (<[b := link None None d']> F) ns.
Proof.
  intros [C Hh Ht]. split.
  - apply put_self. eapply linked_loose; [done|apply lookup_insert_eq].
  - pose proof (linked_apart _ _ _ _ _ C (lookup_insert_eq _ _ _)) as Hb. split; [|done|done].
    rewrite <- (insert_insert_eq F b (link None None d') (link None None d)). by apply linked_other.
Qed.

(** A node of one string, outside the list. *)
Lemma new_node_with_wp s F ns v (Q : addr -> qstate -> Prop) :
  chain s F ns -> value_ok v ->
  (forall a d z, F !! a = None -> chain (put a None None d s) (<[a := link None None d]> F) ns -> raw d -> d_zl d = Some z ->
    zl_rep z [v] -> d_count d = 0 -> d_recompress d = false -> Q a (put a None None d s)) ->
  wp (new_node_with junk alloc v) Q s.
Proof.
  intros C Hv HQ. set (a := alloc (dom (nodes s))).
  assert (nodes s !! a = None) as Ha by (apply not_elem_of_dom; apply Halloc).
  destruct (ziplistNew_rep junk) as (z0 & Hz0 & Hr0).
  destruct (ziplistPush_rep junk z0 [] v ZIPLIST_HEAD Hr0) as (z & Hz & Hr).
  { destruct Hv. unfold str_ok. lia. } { apply (single_fits v Hv). }
  unfold new_node_with, quicklistCreateNode. apply wp_bind. wp_step. cbn zeta. wp_step. apply wp_ret. fold a.
  apply wp_bind. eapply wp_lift; [done|]. apply wp_bind. eapply wp_lift; [done|].
  set (d0 := data_of fresh_node). change (set_nodes _ s) with (put a None None d0 s).
  apply wp_bind. eapply (upd_put _ _ _ _ None None (with_zl z d0)); [done|]. apply wp_ret.
  eapply (HQ a (with_zl z d0) z); try done.
  - destruct (decide (a ∈ ns.*1)) as [Hin|Hni]; [by apply (ln_apart _ _ _ (ch_linked _ _ _ C))|].
    by rewrite <- (ln_frame _ _ _ (ch_linked _ _ _ C)).
  - split; [|apply C|apply C]. by apply linked_create; [apply C|].
Qed.

Lemma new_node_wp {B} s F ns v (k : addr -> M qstate B) (Q : B -> qstate -> Prop) :
  chain s F ns -> value_ok v ->
  (forall a s' d, F !! a = None -> chain s' (<[a := link None None d]> F) ns -> ql s' = ql s -> raw d -> holds d [v] ->
    d_count d = 0 -> d_recompress d = false -> wp (k a) Q s') ->
  wp (a ← new_node_with junk alloc v; _ ← quicklistNodeUpdateSz a; k a) Q s.
Proof.
  intros C Hv HQ. apply wp_bind. eapply new_node_with_wp; [done|done|]. intros a d z Ha C1 Hr Hz Hrep Hc Hrc.
  apply wp_bind. eapply update_sz_put; [done|done|]. eapply (HQ a _ (with_sz (Z.of_nat (length z)) d)); try done.
  - destruct (chain_outside _ _ _ _ _ (with_sz (Z.of_nat (length z)) d) C1) as [_ C2]. by rewrite put_put in C2.
  - by eapply holds_raw; [| |exact Hrep|apply single_fits|].
Qed.

(** A list whose node [a] still has to count one entry, and the list itself. *)
Record pending s F c (xs : list (addr * ndata)) a d ys (xsa : list (list bytes)) vs xsb : Prop := Pending {
  pd_chain : chain s F (xs ++ (a, d) :: ys);
  pd_before : nodes_good xs xsa;
  pd_after : nodes_good ys xsb;
  pd_holds : holds d vs;
  pd_count : d_count d + 1 = Z.of_nat (length vs);
  pd_calm : d_recompress d = false;
  pd_settled : settled c (xs ++ (a, d) :: ys);
  pd_nonempty : Forall (fun xs => xs <> []) (xsa ++ vs :: xsb);
  pd_qlen : qlen (ql s) = Z.of_nat (length (xs ++ (a, d) :: ys));
  pd_total : count (ql s) + 1 = Z.of_nat (length (concat (xsa ++ vs :: xsb)));
  pd_small : Z.of_nat (length (concat (xsa ++ vs :: xsb))) < 2 ^ 31;
  pd_compress : compress (ql s) = Z.of_nat c;
  pd_depth : Z.of_nat c < 2 ^ 16;
  pd_fill : fill_ok (fill (ql s))
}.

Lemma finish_push {A} s F c xs a d ys xsa vs xsb (sel : quicklist -> option addr) (r : addr -> A) :
  pending s F c xs a d ys xsa vs xsb -> (forall v, sel (set_count v (ql s)) = Some a) ->
  wp (_ ← add_total 1; s ← get; h ← lift (sel (ql s)); _ ← add_count h 1; mret (r h))
    (fun _ s' => exists d', repr s' F c (xs ++ (a, d') :: ys) (xsa ++ vs :: xsb)) s.
Proof.
  intros [] Hsel. wp_step. wp_step. cbn [set_ql ql]. apply wp_bind. eapply wp_lift; [apply Hsel|].
  apply wp_bind. eapply (bump_wp _ F); [by apply chain_ql|done|done|]. intros s' d' C' E' Hr' _ Hh' Hc' Hrc'.
  apply wp_ret. exists d'.
  split; rewrite ?E'; cbn [set_ql ql set_count qlen count compress fill]; try done.
  - apply Forall2_app; [done|]. constructor; [|done]. split; [done|]. split; [done|cbn [snd]; congruence].
  - by eapply settled_update.
  - rewrite !length_app in *. done.
  - rewrite pd_total0, wrapu_small; ints.
Qed.

(** A new node that was linked in is pending. *)
Lemma inserted_pending s s' F c xs a d ys xsa v xsb :
  inserted s F xs ys a d (xsa ++ [v] :: xsb) c s' -> length xsa = length xs ->
  nodes_good xs xsa -> nodes_good ys xsb -> holds d [v] -> d_count d = 0 -> d_recompress d = false ->
  Forall (fun xs => xs <> []) (xsa ++ xsb) -> count (ql s) = Z.of_nat (length (concat (xsa ++ xsb))) ->
  count (ql s) + 1 < 2 ^ 31 -> compress (ql s) = Z.of_nat c -> Z.of_nat c < 2 ^ 16 -> fill_ok (fill (ql s)) ->
  exists xs' d' ys', pending s' F c xs' a d' ys' xsa [v] xsb /\ same_nodes xs xs' /\ same_nodes ys ys'.
Proof.
  intros (ns' & C & S & Hh & Hset & Ec & El & Ef & Ep & _) Hl Hx Hy Hd Hc Hr Hne Hcount Hsmall Hcomp Hdep Hfill.
  apply same_middle in S as (xs' & d' & ys' & -> & Sx & Rd & Sy). exists xs', d', ys'. split; [|done].
  assert (length (concat (xsa ++ [v] :: xsb)) = S (length (concat (xsa ++ xsb)))) as Elen.
  { rewrite !concat_app. cbn [concat app]. rewrite !length_app. cbn [length]. lia. }
  split; rewrite ?Ec, ?Ef, ?Ep, ?Elen; try done; try lia.
  - by eapply same_good.
  - by eapply same_good.
  - by apply Rd.
  - rewrite (rc_count _ _ Rd), Hc. done.
  - by apply Rd.
  - apply Forall_app in Hne as [? ?]. apply Forall_app. split; [done|]. by constructor.
Qed.

Lemma repr_insertable s s1 F c xs ys xsa v xsb a d :
  repr s F c (xs ++ ys) (xsa ++ xsb) -> length xsa = length xs -> ql s1 = ql s -> F !! a = None ->
  chain s1 (<[a := link None None d]> F) (xs ++ ys) -> raw d -> holds d [v] ->
  insertable s1 F xs ys a d (xsa ++ [v] :: xsb) c.
Proof.
  intros R Hl E Hn C Hr Hd. pose proof (list_repr_length _ _ _ _ _ R) as [_ Hlen]. destruct R.
  apply Forall2_app_inv in rp_good0 as [Hx Hy]; [|done].
  split; rewrite ?E; try done; try ints.
  - apply Forall2_app; [by apply good_held|]. constructor; [done|by apply good_held].
  - apply Forall_app. split; by eapply good_calm.
Qed.

(** The whole way of a value into a new node. *)
Lemma new_node_pending s F c xs ys xsa xsb v old (after : bool) (Q : unit -> qstate -> Prop) :
  repr s F c (xs ++ ys) (xsa ++ xsb) -> length xsa = length xs -> value_ok v -> neighbour xs ys after old ->
  count (ql s) + 1 < 2 ^ 31 ->
  (forall a s' xs' d' ys', pending s' F c xs' a d' ys' xsa [v] xsb -> same_nodes xs xs' -> same_nodes ys ys' -> Q tt s') ->
  wp (a ← new_node_with junk alloc v; _ ← quicklistNodeUpdateSz a; __quicklistInsertNode junk garbage old a after) Q s.
Proof.
  intros R Hl Hv Hnb Hsmall Hk. eapply new_node_wp; [apply R|done|]. intros a s1 d Hn C E Hr Hd Hc Hrc.
  eapply wp_mono; [eapply insert_node_wp; [done|by eapply repr_insertable|done]|].
  intros [] s2 I. pose proof R as [_ Hg _ Hne _ Hcount _ Hcomp Hdep Hfill].
  apply Forall2_app_inv in Hg as [Hx Hy]; [|done]. rewrite <- E in *.
  destruct (inserted_pending _ _ _ _ _ _ _ _ _ _ _ I Hl Hx Hy Hd Hc Hrc Hne Hcount) as (xs' & d' & ys' & P & Sx & Sy); try done.
  by eapply Hk.
Qed.

(** A value that goes into a node that is there. *)
Lemma grow_pending s F c xs a d ys xsa vs xsb vs' f z z' (Q : unit -> qstate -> Prop) :
  repr s F c (xs ++ (a, d) :: ys) (xsa ++ vs :: xsb) -> length xsa = length xs -> raw d ->
  d_zl d = Some z -> f z = Some z' -> zl_rep z' vs' -> node_fits vs' -> length vs' = S (length vs) ->
  count (ql s) + 1 < 2 ^ 31 ->
  (forall s' d', pending s' F c xs a d' ys xsa vs' xsb -> ql s' = ql s -> raw d' -> d_zl d' = Some z' -> Q tt s') ->
  wp (_ ← on_zl a f; quicklistNodeUpdateSz a) Q s.
Proof.
  intros R Hl Hr Hz Hf Hrep Hfit Hlen Hsmall HQ. destruct R as [C Hg Hset Hne Hq Hcount Hsm Hcomp Hdep Hfill].
  apply Forall2_app_inv in Hg as [Hx Hg]; [|done]. apply Forall2_cons in Hg as [(Hh & Hc & Hrc) Hy].
  eapply change_node_wp; try done. intros s' d' C' E' Hr' Hz' Hh' Hc' Hrc'. apply (HQ s' d'); try done.
  cbn [snd] in *.
  assert (length (concat (xsa ++ vs' :: xsb)) = S (length (concat (xsa ++ vs :: xsb)))) as Elen.
  { rewrite !concat_app. cbn [concat]. rewrite !length_app, Hlen. lia. }
  split; rewrite ?E', ?Elen; try done; try lia; try congruence.
  - by eapply settled_update.
  - apply Forall_app in Hne as [? Hne%Forall_cons]. apply Forall_app. split; [done|]. apply Forall_cons.
    split; [by intros ->|by apply Hne].
  - rewrite Hq, !length_app. done.
Qed.

(** *** Pushing *)

Definition repr_ex s F c xs : Prop := exists ns xss, repr s F c ns xss /\ concat xss = xs.

Lemma head_end s F c ns xss : repr s F c ns xss -> head (ql s) = first ns None /\ tail (ql s) = last_ None ns.
Proof. intros [[_ Hh Ht] _ _ _ _ _ _ _ _ _]. done. Qed.

Lemma quicklistPushHead_wp s F c ns xss v :
  repr s F c ns xss -> value_ok v -> Z.of_nat (length (concat xss)) + 1 < 2 ^ 31 ->
  wp (quicklistPushHead junk garbage alloc v) (fun _ s' => repr_ex s' F c (v :: concat xss)) s.
Proof.
  intros R Hv Hsmall. pose proof (head_end _ _ _ _ _ R) as [Hh _]. unfold quicklistPushHead. wp_step. rewrite Hh.
  pose proof (rp_count _ _ _ _ _ R) as Hcount.
  apply wp_bind. eapply wp_mono with (Q := fun n s' => s' = s /\ n = first ns None ≫= (nodes s !!.)).
  { destruct ns as [|[a d] ns0]; cbn [AdlistSpec.first get_opt].
    - by apply wp_ret.
    - apply wp_bind. assert (nodes s !! a = Some (link None (first ns0 None) d)) as Ha
        by (eapply (linked_middle _ _ []), R). eapply get_node_wp; [done|]. apply wp_ret. cbn. by rewrite Ha. }
  intros n ? [-> ->]. apply wp_bind.
  eapply wp_mono with (Q := fun _ s' => exists a d ys vs xsb, pending s' F c [] a d ys [] vs xsb /\ concat (vs :: xsb) = v :: concat xss).
  { case_match eqn:Hallow.
    - destruct ns as [|[a d] ns0]; [done|]. cbn [AdlistSpec.first mbind option_bind] in Hallow |- *.
      rewrite (linked_middle _ _ [] _ _ _ (ch_linked _ _ _ (rp_chain _ _ _ _ _ R))) in Hallow.
      pose proof (rp_good _ _ _ _ _ R) as Hg. apply Forall2_cons_inv_l in Hg as (vs & xsb & (Hd & Hc & _) & _ & ->).
      cbn [snd] in *.
      assert (raw d) as Hr by (eapply (settled_ends c _ 0); [apply R|done|by left]).
      destruct (raw_blob _ _ Hr Hd) as (z & Hz & Hrep & _ & _).
      pose proof (allow_fits _ _ _ _ _ _ [] vs Hallow (rp_fill _ _ _ _ _ R) Hd Hc Hv eq_refl) as Hfit.
      destruct (ziplistPush_rep junk z vs v ZIPLIST_HEAD Hrep) as (z' & Hz' & Hrep'); [destruct Hv; unfold str_ok; lia|apply Hfit|].
      apply wp_bind. eapply wp_lift; [done|].
      eapply (grow_pending s F c [] a d ns0 [] vs xsb (v :: vs)); try done; [by rewrite Hcount|].
      intros s' d' P _ _ _. by exists a, d', ns0, (v :: vs), xsb.
    - eapply (new_node_pending s F c [] ns [] xss v _ false); try done; [by rewrite Hcount|].
      intros a s' xs' d' ys' P Sx _. apply Forall2_nil_inv_l in Sx as ->. by exists a, d', ys', [v], xss. }
  intros [] s' (a & d & ys & vs & xsb & P & E). eapply wp_mono.
  { eapply finish_push; [done|]. intros k. cbn [set_count head]. by rewrite (ch_head _ _ _ (pd_chain _ _ _ _ _ _ _ _ _ _ P)). }
  intros _ s2 (d' & R'). by exists ([] ++ (a, d') :: ys), ([] ++ vs :: xsb).
Qed.

Lemma quicklistPushTail_wp s F c ns xss v :
  repr s F c ns xss -> value_ok v -> Z.of_nat (length (concat xss)) + 1 < 2 ^ 31 ->
  wp (quicklistPushTail junk garbage alloc v) (fun _ s' => repr_ex s' F c (concat xss ++ [v])) s.
Proof.
  intros R Hv Hsmall. pose proof (head_end _ _ _ _ _ R) as [_ Ht]. unfold quicklistPushTail. wp_step. rewrite Ht.
  pose proof (rp_count _ _ _ _ _ R) as Hcount.
  apply wp_bind. eapply wp_mono with (Q := fun n s' => s' = s /\ n = last_ None ns ≫= (nodes s !!.)).
  { destruct ns as [|[a d] ns0 _] using rev_ind; [by apply wp_ret|]. rewrite AdlistSpec.seg_last_snoc. cbn [get_opt].
    apply wp_bind. pose proof (linked_middle _ _ _ _ _ _ (ch_linked _ _ _ (rp_chain _ _ _ _ _ R))) as Ha.
    eapply get_node_wp; [done|]. apply wp_ret. cbn. by rewrite Ha. }
  intros n ? [-> ->]. apply wp_bind.
  eapply wp_mono with (Q := fun _ s' => exists xs a d xsa vs, pending s' F c xs a d [] xsa vs [] /\ concat (xsa ++ [vs]) = concat xss ++ [v]).
  { case_match eqn:Hallow.
    - destruct ns as [|[a d] ns0 _] using rev_ind; [done|]. rewrite AdlistSpec.seg_last_snoc in *. cbn [mbind option_bind] in Hallow |- *.
      rewrite (linked_middle _ _ _ _ _ _ (ch_linked _ _ _ (rp_chain _ _ _ _ _ R))) in Hallow.
      pose proof (rp_good _ _ _ _ _ R) as Hg. apply good_middle in Hg as (xsa & vs & xsb & -> & Hx & (Hd & Hc & _) & Hy).
      apply Forall2_nil_inv_l in Hy as ->.
      assert (raw d) as Hr.
      { eapply (settled_ends c _ (length ns0)); [apply R|by apply list_lookup_middle|right]. rewrite length_app. cbn [length]. lia. }
      destruct (raw_blob _ _ Hr Hd) as (z & Hz & Hrep & _ & _).
      pose proof (allow_fits _ _ _ _ _ _ vs [] Hallow (rp_fill _ _ _ _ _ R) Hd Hc Hv (eq_sym (app_nil_r _))) as Hfit.
      destruct (ziplistPush_rep junk z vs v ZIPLIST_TAIL Hrep) as (z' & Hz' & Hrep'); [destruct Hv; unfold str_ok; lia| |].
      { destruct Hfit as [Hfit _]. unfold zl_fits in *. rewrite zl_bound_app in Hfit. rewrite zl_bound_cons in *. cbn [zl_bound] in Hfit. lia. }
      apply wp_bind. eapply wp_lift; [done|].
      eapply (grow_pending s F c ns0 a d [] xsa vs [] (vs ++ [v])); try done.
      + symmetry. by eapply Forall2_length.
      + rewrite length_app. cbn [length]. lia.
      + by rewrite Hcount.
      + intros s' d' P _ _ _. exists ns0, a, d', xsa, (vs ++ [v]). split; [done|].
        rewrite !concat_app. cbn [concat]. by rewrite !app_nil_r, app_assoc.
    - pose proof (list_repr_length _ _ _ _ _ R) as [Hl _].
      rewrite <- (app_nil_r ns) in R. rewrite <- (app_nil_r xss) in R.
      eapply (new_node_pending s F c ns [] xss [] v _ true); try done.
      + by rewrite Hcount.
      + intros a s' xs' d' ys' P Sx Sy. apply Forall2_nil_inv_l in Sy as ->. exists xs', a, d', xss, [v]. split; [done|].
        by rewrite concat_app. }
  intros [] s' (xs & a & d & xsa & vs & P & E). eapply wp_mono.
  { eapply finish_push; [done|]. intros k. cbn [set_count tail]. rewrite (ch_tail _ _ _ (pd_chain _ _ _ _ _ _ _ _ _ _ P)).
    apply AdlistSpec.seg_last_snoc. }
  intros _ s2 (d' & R'). by exists (xs ++ [(a, d')]), (xsa ++ [vs]).
Qed.

(** ** Deleting an entry *)

Definition entry_gone F c (xs : list (addr * ndata)) a ys (xsa xsb : list (list bytes)) (pre post : list bytes) (p : nat)
    (r : bool * nat) s' : Prop :=
  r = (bool_decide (pre ++ post = []), p) /\
  if decide (pre ++ post = []) then exists ns', repr s' F c ns' (xsa ++ xsb) /\ same_nodes (xs ++ ys) ns'
  else exists d' z', repr s' F c (xs ++ (a, d') :: ys) (xsa ++ (pre ++ post) :: xsb) /\ raw d' /\ d_zl d' = Some z' /\
    zl_cursor z' pre post p.

Lemma node_fits_delete pre x post : node_fits (pre ++ x :: post) -> node_fits (pre ++ post).
Proof.
  intros (Hf & Hl & Hu). split; [|split].
  - unfold zl_fits in *. rewrite zl_bound_app, zl_bound_cons in Hf. rewrite zl_bound_app. lia.
  - rewrite length_app in *. cbn [length] in Hl. lia.
  - apply Forall_app in Hu as [? [_ ?]%Forall_cons]. by apply Forall_app.
Qed.

Lemma quicklistDelIndex_wp s F c xs a d ys xsa xsb pre x post z (p : nat) :
  repr s F c (xs ++ (a, d) :: ys) (xsa ++ (pre ++ x :: post) :: xsb) -> length xsa = length xs -> raw d ->
  d_zl d = Some z -> zl_cursor z pre (x :: post) p ->
  wp (quicklistDelIndex junk garbage a p) (entry_gone F c xs a ys xsa xsb pre post p) s.
Proof.
  intros R Hl Hr Hz Hcur. pose proof (list_repr_length _ _ _ _ _ R) as [_ Hroom].
  destruct R as [C Hg Hset Hne Hq Hcount Hsm Hcomp Hdep Hfill].
  apply Forall2_app_inv in Hg as [Hx Hg]; [|done]. apply Forall2_cons in Hg as [(Hh & Hc & Hrc) Hy]. cbn [snd] in *.
  pose proof Hh as (_ & _ & _ & Hfit & _). pose proof (node_fits_delete _ _ _ Hfit) as Hfit'.
  destruct (ziplistDelete_cursor junk z pre x post p Hcur (proj1 Hfit)) as (z' & Hdel & Hcur').
  assert (Z.of_nat (length (concat (xsa ++ (pre ++ x :: post) :: xsb))) = Z.of_nat (length (concat (xsa ++ (pre ++ post) :: xsb))) + 1) as Elen.
  { rewrite !concat_app. cbn [concat]. rewrite !length_app. cbn [length]. lia. }
  assert (d_count d + -1 = Z.of_nat (length (pre ++ post))) as Hc'.
  { rewrite Hc, !length_app. cbn [length]. lia. }
  unfold quicklistDelIndex. eapply wp_at; [by eapply chain_self|]. apply wp_bind. eapply node_zl_put; [done|].
  apply wp_bind. eapply wp_lift; [done|]. cbn beta iota. apply wp_bind. eapply (upd_put _ _ _ _ (last_ None xs) (first ys None) (with_zl z' d)); [done|].
  apply wp_bind. eapply add_count_put. cbn [with_zl d_count]. rewrite Hc', wrapu_small by (destruct Hfit' as (_ & ? & _); ints).
  set (d1 := with_count (Z.of_nat (length (pre ++ post))) (with_zl z' d)).
  set (s1 := put a (last_ None xs) (first ys None) d1 s).
  assert (chain s1 F (xs ++ (a, d1) :: ys)) as C1 by by eapply chain_put.
  apply wp_bind. eapply get_node_wp; [apply put_node|]. cbn [link ncount]. apply wp_bind.
  change (d_count d1) with (Z.of_nat (length (pre ++ post))). unfold entry_gone.
  destruct (decide (pre ++ post = [])) as [Hnil|Hnil].
  - rewrite Hnil in *. cbn [length]. change (Z.of_nat 0 =? 0) with true. cbn iota. apply wp_bind.
    eapply wp_mono; [eapply (delete_node_wp junk garbage Hgarbage s1 F xs ys a d1 (xsa ++ xsb) c); try done|].
    + apply Forall2_app; by apply good_held.
    + by eapply settled_update.
    + change (ql s1) with (ql s). rewrite Hq, !length_app. done.
    + rewrite !length_app in *. cbn [length] in *. lia.
    + intros [] s2 (ns' & C2 & S2 & H2 & Hs2 & Ec2 & El2 & Ef2 & Ep2 & _). apply wp_ret. wp_step. apply wp_ret.
      rewrite bool_decide_true by done. split; [done|]. exists ns'. split; [|done].
      assert (length (concat (xsa ++ [] :: xsb)) = length (concat (xsa ++ xsb))) as E0 by (by rewrite !concat_app).
      change (d_count d1) with (Z.of_nat (length (pre ++ post))) in Ec2. rewrite Hnil in Ec2. cbn [length] in Ec2.
      change (ql s1) with (ql s) in *.
      split; cbn [set_ql ql set_count qlen count compress fill]; try congruence; try done.
      * by apply chain_ql.
      * eapply same_good; [done|]. by apply Forall2_app.
      * apply Forall_app in Hne as [? [_ ?]%Forall_cons]. by apply Forall_app.
      * rewrite Ec2, Z.sub_0_r, Hcount, (wrapu_small 64 (Z.of_nat _)) by ints. rewrite wrapu_small; ints.
      * lia.
  - rewrite (proj2 (Z.eqb_neq _ _)) by (destruct (pre ++ post); [done|cbn [length]; lia]). apply wp_bind.
    eapply update_sz_put; [done|by eapply cursor_rep|]. apply wp_ret. wp_step. apply wp_ret.
    rewrite bool_decide_false by done. split; [done|].
    set (d2 := with_sz (Z.of_nat (length z')) d1). exists d2, z'. split; [|done].
    split; cbn [set_ql put set_nodes ql set_count qlen count compress fill]; try done.
    + apply (chain_ql (put a (last_ None xs) (first ys None) d2 s)); [by eapply chain_put|done|done].
    + apply Forall2_app; [done|]. constructor; [|done]. split; [|done].
      by eapply holds_raw; [| |eapply cursor_rep| |].
    + by eapply settled_update.
    + apply Forall_app in Hne as [? [_ ?]%Forall_cons]. apply Forall_app. split; [done|by apply Forall_cons].
    + rewrite Hq, !length_app. done.
    + rewrite Hcount, Elen, wrapu_small; ints.
    + lia.
Qed.

(** *** Popping *)

(** What popping does to a list of strings. *)
Definition pop_list (where_ : Z) (l : list bytes) : option bytes * list bytes :=
  if where_ =? QUICKLIST_HEAD then match l with [] => (None, []) | x :: l => (Some x, l) end
  else if where_ =? QUICKLIST_TAIL then (last l, take (length l - 1) l)
  else (None, l).

(** The list without the entry, whatever happened to the node. *)
Lemma entry_gone_repr F c xs a ys xsa xsb pre post (p : nat) r s' :
  entry_gone F c xs a ys xsa xsb pre post p r s' -> repr_ex s' F c (concat xsa ++ (pre ++ post) ++ concat xsb).
Proof.
  intros [_ H]. case_decide as Hnil.
  - destruct H as (ns' & R & _). exists ns', (xsa ++ xsb). split; [done|]. by rewrite Hnil, concat_app.
  - destruct H as (d' & z' & R & _). eexists _, _. split; [done|]. by rewrite concat_app.
Qed.

(** An entry is read and deleted. *)
Lemma take_entry_wp s F c xs a d ys xsa vs xsb i k x :
  repr s F c (xs ++ (a, d) :: ys) (xsa ++ vs :: xsb) -> length xsa = length xs -> raw d ->
  resolve_index (length vs) i = Some k -> vs !! k = Some x ->
  wp (z ← node_zl a; p ← lift (ziplistIndex z i);
      match p with
      | None => mret None
      | Some p =>
        v ← lift (ziplistGet z p);
        match v with None => mret None | Some v => _ ← quicklistDelIndex junk garbage a p; mret (Some v) end
      end)
    (fun r s' => value_bytes <$> r = Some x /\ repr_ex s' F c (concat xsa ++ (take k vs ++ drop (S k) vs) ++ concat xsb)) s.
Proof.
  intros R Hl Hr Hi Hx. pose proof (rp_good _ _ _ _ _ R) as Hg. apply Forall2_app_inv in Hg as [_ Hg]; [|done].
  apply Forall2_cons in Hg as [(Hd & _) _]. cbn [snd] in Hd. destruct (raw_blob _ _ Hr Hd) as (z & Hz & Hrep & _ & _).
  pose proof (ziplistIndex_spec z vs i Hrep) as Hix. rewrite Hi in Hix. destruct Hix as (q & Hq & Hcur).
  rewrite (drop_S vs x k Hx) in Hcur. destruct (ziplistGet_spec _ _ _ _ _ Hcur) as (v & Hv & Ev).
  eapply wp_at; [eapply chain_self, R|]. apply wp_bind. eapply node_zl_put; [done|].
  apply wp_bind. eapply wp_lift; [done|]. cbn beta iota. apply wp_bind. eapply wp_lift; [done|]. cbn beta iota.
  apply wp_bind. eapply wp_at; [symmetry; eapply chain_self, R|]. eapply wp_mono.
  - eapply (quicklistDelIndex_wp s F c xs a d ys xsa xsb (take k vs) x (drop (S k) vs)); try done.
    by rewrite take_drop_middle.
  - intros r s' G. apply wp_ret. split; [by cbn; rewrite Ev|]. by eapply entry_gone_repr.
Qed.

Lemma repr_cons_inv s F c ns xss : repr s F c ns xss -> xss <> [] -> exists a d ns', ns = (a, d) :: ns'.
Proof.
  intros R Hne. destruct ns as [|[a d] ns']; [|by exists a, d, ns']. by destruct Hne, (nil_length_inv xss); [apply (list_repr_length _ _ _ _ _ R)|].
Qed.

Lemma count_zero s F c ns xss : repr s F c ns xss -> (count (ql s) =? 0) = bool_decide (xss = []).
Proof.
  intros R. rewrite (rp_count _ _ _ _ _ R). case_bool_decide as E; [by rewrite E|].
  apply Z.eqb_neq. pose proof (concat_length_ge _ (rp_nonempty _ _ _ _ _ R)). destruct xss; [done|cbn [length] in *; lia].
Qed.

Lemma quicklistPop_wp s F c ns xss w :
  repr s F c ns xss ->
  wp (quicklistPop junk garbage w)
    (fun r s' => value_bytes <$> r = (pop_list w (concat xss)).1 /\ repr_ex s' F c (pop_list w (concat xss)).2) s.
Proof.
  intros R. unfold quicklistPop, quicklistPopCustom. wp_step. rewrite (count_zero _ _ _ _ _ R). case_bool_decide as Hnil.
  { apply wp_ret. subst xss. assert (pop_list w (concat []) = (None, [])) as ->
      by (unfold pop_list; repeat case_match; done). split; [done|]. by exists ns, []. }
  wp_step. rewrite (count_zero _ _ _ _ _ R), bool_decide_false by done.
  destruct (head_end _ _ _ _ _ R) as [Hh Ht]. unfold pop_list.
  pose proof (list_repr_length _ _ _ _ _ R) as [Hl _].
  destruct (w =? QUICKLIST_HEAD).
  - destruct (repr_cons_inv _ _ _ _ _ R Hnil) as (a & d & ns' & ->). destruct xss as [|vs xsb]; [done|].
    rewrite Hh. cbn [AdlistSpec.first]. pose proof (rp_nonempty _ _ _ _ _ R) as Hne. apply Forall_cons in Hne as [Hvs _].
    destruct vs as [|x vs]; [done|]. eapply wp_mono.
    { eapply (take_entry_wp s F c [] a d ns' [] (x :: vs) xsb 0 0 x); try done.
      - eapply (settled_ends c _ 0); [apply R|done|by left]. }
    intros r s' [Er Hrep]. by split.
  - destruct (w =? QUICKLIST_TAIL).
    + destruct ns as [|[a d] ns' _] using rev_ind; [by destruct xss|]. destruct xss as [|vs xsa _] using rev_ind; [done|].
      rewrite Ht, AdlistSpec.seg_last_snoc. pose proof (rp_nonempty _ _ _ _ _ R) as Hne. apply Forall_app in Hne as [_ Hvs].
      apply Forall_cons in Hvs as [Hvs _]. rewrite !length_app in Hl. cbn [length] in Hl.
      destruct vs as [|x vs _] using rev_ind; [done|]. eapply wp_mono.
      { eapply (take_entry_wp s F c ns' a d [] xsa (vs ++ [x]) [] (-1) (length vs) x); try done; try lia.
        - eapply (settled_ends c _ (length ns')); [apply R|by apply list_lookup_middle|right]. rewrite length_app. cbn [length]. lia.
        - unfold resolve_index. rewrite length_app. cbn [length]. rewrite (proj2 (Z.leb_le _ _)) by lia.
          change (-1 <? 0) with true. cbn iota. f_equal. lia.
        - by apply list_lookup_middle. }
      intros r s' [Er Hrep]. rewrite concat_app. cbn [concat]. rewrite app_nil_r, app_assoc, last_snoc. split; [done|].
      rewrite length_app. cbn [length]. rewrite Nat.add_sub, take_app_length. cbn [concat] in Hrep.
      rewrite (take_app_length vs), drop_ge in Hrep by (rewrite length_app; cbn [length]; lia). by rewrite !app_nil_r in Hrep.
    + apply wp_ret. split; [done|]. by exists ns, xss.
Qed.

End Ops.

End QuicklistOps.
