(* ===== verification/QuicklistEdit.v ===== *)
(** * Lists of compact lists in the middle (src/quicklist.c)

    Finding an entry by its index, replacing it, inserting next to it and
    deleting a range, in a list that compresses nothing: entries that were
    looked up leave their node marked for compression, and what is then
    compressed is not what the other operations expect. *)

From S2P Require Import Prelude Util Ziplist ZiplistSpec Lzf LzfSpec Adlist AdlistSpec Monad Quicklist QuicklistSpec QuicklistOps.
Import Util Ziplist ZiplistSpec Monad Quicklist QuicklistSpec QuicklistOps.

Module QuicklistEdit.

Implicit Types (a b : addr) (d : ndata) (q : option addr) (s : qstate) (h F : gmap addr quicklistNode)
  (z : bytes) (xss : list (list bytes)).

Section Edit.
Context (junk : nat -> Z) (garbage : Z -> Z) (alloc : gset addr -> addr).
Context (Hgarbage : forall i, is_u32 (garbage i)) (Halloc : forall X, alloc X ∉ X).

(** ** Nothing is compressed *)

Lemma repr_raw s F ns xss : repr s F 0 ns xss -> all_raw ns.
Proof. intros R. eapply (settled_all_raw 0); [by left|apply R]. Qed.

Lemma all_raw_middle xs a d ys : all_raw (xs ++ (a, d) :: ys) -> raw d.
Proof. intros H. apply (H (length xs) a). by apply list_lookup_middle. Qed.

Lemma for_use_skip {B} s a p n d (k : M qstate B) (Q : B -> qstate -> Prop) :
  nodes s !! a = Some (link p n d) -> raw d -> wp k Q s -> wp (_ ← quicklistDecompressNodeForUse junk (Some a); k) Q s.
Proof.
  intros Ha Hr HQ. apply wp_bind. cbn [quicklistDecompressNodeForUse]. apply wp_bind. eapply get_node_wp; [done|].
  cbn [link nenc]. rewrite Hr. by apply wp_skip.
Qed.

Lemma decompress_skip {B} s a p n d (k : M qstate B) (Q : B -> qstate -> Prop) :
  nodes s !! a = Some (link p n d) -> raw d -> wp k Q s -> wp (_ ← quicklistDecompressNode junk (Some a); k) Q s.
Proof.
  intros Ha Hr HQ. apply wp_bind. cbn [quicklistDecompressNode]. apply wp_bind. eapply get_node_wp; [done|].
  cbn [link nenc]. rewrite Hr. by apply wp_skip.
Qed.

Lemma recompress_skip s a p n d (Q : unit -> qstate -> Prop) :
  nodes s !! a = Some (link p n d) -> d_recompress d = false -> Q tt s -> wp (quicklistRecompressOnly junk garbage a) Q s.
Proof.
  intros Ha Hr HQ. unfold quicklistRecompressOnly. apply wp_bind. eapply get_node_wp; [done|].
  cbn [link recompress]. rewrite Hr. by apply wp_skip.
Qed.

Lemma compress_skip s a p n d (Q : unit -> qstate -> Prop) :
  nodes s !! a = Some (link p n d) -> d_recompress d = false -> compress (ql s) = 0 -> Q tt s -> wp (quicklistCompress junk garbage a) Q s.
Proof.
  intros Ha Hr Hc HQ. unfold quicklistCompress. apply wp_bind. eapply get_node_wp; [done|].
  cbn [link recompress]. rewrite Hr. unfold __quicklistCompress. wp_step. cbn zeta.
  unfold quicklistAllowsCompression. rewrite Hc. by apply wp_skip.
Qed.

(** ** Entries *)

(** The entry [e] stands for the string number [j] of the node [a], which
    comes after the nodes [xs]. *)
Record entry_in (xs : list (addr * ndata)) a d (xsa : list (list bytes)) vs (j : nat) (e : quicklistEntry) : Prop := EntryIn {
  en_length : length xsa = length xs;
  en_node : enode e = Some a;
  en_offset : resolve_index (length vs) (offset e) = Some j;
  en_zi : exists z p, d_zl d = Some z /\ zi e = Some p /\ zl_cursor z (take j vs) (drop j vs) p;
  en_value : value_bytes <$> evalue e = vs !! j
}.

(** Where an index falls. *)
Lemma repr_split s F c ns xss (i : nat) :
  repr s F c ns xss -> (i < length (concat xss))%nat ->
  exists xs a d ys xsa vs xsb j, ns = xs ++ (a, d) :: ys /\ xss = xsa ++ vs :: xsb /\ length xsa = length xs /\
    (j < length vs)%nat /\ i = (length (concat xsa) + j)%nat.
Proof.
  intros R Hi. pose proof (list_repr_length _ _ _ _ _ R) as [Hl _]. clear R. revert xss i Hi Hl.
  induction ns as [|[a d] ns IH]; intros [|vs xss] i Hi Hl; cbn [concat length] in *; try lia.
  rewrite length_app in Hi. destruct (decide (i < length vs)%nat) as [Hlt|Hge].
  - by exists [], a, d, ns, [], vs, xss, i.
  - destruct (IH xss (i - length vs)%nat) as (xs & b & e & ys & xsa & ws & xsb & j & -> & -> & Hx & Hj & E); [lia|lia|].
    exists ((a, d) :: xs), b, e, ys, (vs :: xsa), ws, xsb, j. split_and!; try done; [cbn; lia|].
    cbn [concat]. rewrite length_app. lia.
Qed.

Lemma index_loop_forward s F ns : linked (nodes s) F ns -> forall n xs ys xsa xsb (i : nat),
  ns = xs ++ ys -> nodes_good ys xsb -> length xsa = length xs ->
  (length (concat xsa) <= i < length (concat (xsa ++ xsb)))%nat -> Z.of_nat (length (concat (xsa ++ xsb))) < 2 ^ 31 ->
  (length ys <= S n)%nat ->
  wp (index_loop n true (first ys None) (Z.of_nat (length (concat xsa))) (Z.of_nat i))
    (fun r s' => s' = s /\ exists xs' a d ys' xsa' vs xsb', ns = xs' ++ (a, d) :: ys' /\ xsa ++ xsb = xsa' ++ vs :: xsb' /\
      length xsa' = length xs' /\ r = (Some a, Z.of_nat (length (concat xsa'))) /\
      (length (concat xsa') <= i < length (concat xsa') + length vs)%nat) s.
Proof.
  intros C n. induction n as [|n IH]; intros xs ys xsa xsb i -> Hg Hl Hi Hsm Hn.
  all: destruct ys as [|[a d] ys]; [apply Forall2_nil_inv_l in Hg as ->; rewrite app_nil_r in Hi; lia|].
  all: apply Forall2_cons_inv_l in Hg as (vs & xsb' & (_ & Hc & _) & Hg & ->); cbn [snd] in Hc.
  all: cbn [AdlistSpec.first index_loop]; apply wp_bind; (eapply get_node_wp; [by eapply linked_middle|]); cbn [link ncount].
  all: rewrite concat_app in Hi, Hsm; cbn [concat] in Hi, Hsm; rewrite !length_app in Hi, Hsm.
  all: rewrite Hc, wrapu_small by ints.
  all: destruct (Z.gtb_spec (Z.of_nat (length (concat xsa)) + Z.of_nat (length vs)) (Z.of_nat i)) as [Hgt|Hle].
  1,3: apply wp_ret; split; [done|]; exists xs, a, d, ys, xsa, vs, xsb'; split_and!; try done; lia.
  - cbn [length] in Hn. destruct ys; [|cbn [length] in Hn; lia]. apply Forall2_nil_inv_l in Hg as ->. cbn [concat length] in Hi. lia.
  - cbn [link nnext]. replace (Z.of_nat (length (concat xsa)) + Z.of_nat (length vs)) with (Z.of_nat (length (concat (xsa ++ [vs]))))
      by (rewrite concat_app, length_app; cbn [concat]; rewrite app_nil_r; lia).
    eapply wp_mono; [apply (IH (xs ++ [(a, d)]) ys (xsa ++ [vs]) xsb')|].
    + by rewrite <- app_assoc.
    + done.
    + rewrite !length_app. cbn [length]. lia.
    + rewrite !concat_app, !length_app. cbn [concat]. rewrite app_nil_r. lia.
    + rewrite !concat_app, !length_app. cbn [concat]. rewrite app_nil_r. lia.
    + cbn [length] in Hn. lia.
    + intros r s' [-> H]. split; [done|]. by rewrite <- app_assoc in H.
Qed.

Lemma index_loop_backward s F ns : linked (nodes s) F ns -> forall n xs ys xsa xsb (i : nat),
  ns = xs ++ ys -> nodes_good xs xsa -> length xsa = length xs ->
  (length (concat xsb) <= i < length (concat (xsa ++ xsb)))%nat -> Z.of_nat (length (concat (xsa ++ xsb))) < 2 ^ 31 ->
  (length xs <= S n)%nat ->
  wp (index_loop n false (last_ None xs) (Z.of_nat (length (concat xsb))) (Z.of_nat i))
    (fun r s' => s' = s /\ exists xs' a d ys' xsa' vs xsb', ns = xs' ++ (a, d) :: ys' /\ xsa ++ xsb = xsa' ++ vs :: xsb' /\
      length xsa' = length xs' /\ r = (Some a, Z.of_nat (length (concat xsb'))) /\
      (length (concat xsb') <= i < length (concat xsb') + length vs)%nat) s.
Proof.
  intros C n. induction n as [|n IH]; intros xs ys xsa xsb i -> Hg Hl Hi Hsm Hn.
  all: destruct xs as [|[a d] xs _] using rev_ind; [apply Forall2_nil_inv_l in Hg as ->; cbn [app] in Hi; lia|].
  all: apply Forall2_app_inv_l in Hg as (xsa' & r & Hx & Hr & ->).
  all: apply Forall2_cons_inv_l in Hr as (vs & r' & (_ & Hc & _) & Hr & ->); apply Forall2_nil_inv_l in Hr as ->; cbn [snd] in Hc.
  all: rewrite AdlistSpec.seg_last_snoc; cbn [index_loop]; apply wp_bind.
  all: rewrite <- (app_assoc xs) in *; cbn [app] in *.
  all: (eapply get_node_wp; [by eapply linked_middle|]); cbn [link ncount].
  all: rewrite <- app_assoc in Hi, Hsm; cbn [app] in Hi, Hsm.
  all: rewrite concat_app in Hi, Hsm; cbn [concat] in Hi, Hsm; rewrite !length_app in Hi, Hsm.
  all: rewrite Hc, wrapu_small by ints.
  all: rewrite !length_app in Hl; cbn [length] in Hl.
  all: destruct (Z.gtb_spec (Z.of_nat (length (concat xsb)) + Z.of_nat (length vs)) (Z.of_nat i)) as [Hgt|Hle].
  1,3: apply wp_ret; split; [done|]; exists xs, a, d, ys, xsa', vs, xsb; rewrite <- app_assoc; split_and!; try done; lia.
  - rewrite length_app in Hn. cbn [length] in Hn. destruct xs; [|cbn [length] in Hn; lia]. apply Forall2_nil_inv_l in Hx as ->.
    cbn [concat length] in Hi. lia.
  - cbn [link nprev]. replace (Z.of_nat (length (concat xsb)) + Z.of_nat (length vs)) with (Z.of_nat (length (concat (vs :: xsb))))
      by (cbn [concat]; rewrite length_app; lia).
    eapply wp_mono; [apply (IH xs ((a, d) :: ys) xsa' (vs :: xsb))|].
    + done.
    + done.
    + lia.
    + rewrite !concat_app, !length_app. cbn [concat]. rewrite length_app. lia.
    + rewrite !concat_app, !length_app. cbn [concat]. rewrite length_app. lia.
    + rewrite length_app in Hn. cbn [length] in Hn. lia.
    + intros r s' [-> H]. split; [done|]. by rewrite <- app_assoc.
Qed.

Lemma s32_u64 x k : s32 (u64 x + k) = s32 (x + k).
Proof.
  unfold wraps, wrapu.
  replace (x `mod` 2 ^ 64 + k + 2 ^ (32 - 1)) with (x + k + 2 ^ (32 - 1) + (- 2 ^ 32 * (x / 2 ^ 64)) * 2 ^ 32)
    by (rewrite (Z.mod_eq x) by lia; lia).
  by rewrite Z_mod_plus_full.
Qed.

(** The end of [quicklistIndex]: the entry at an offset in a node. *)
Lemma read_entry_wp s F ns xs a d ys xsa vs xsb off j :
  repr s F 0 ns (xsa ++ vs :: xsb) -> ns = xs ++ (a, d) :: ys -> length xsa = length xs ->
  resolve_index (length vs) off = Some j ->
  wp (_ ← quicklistDecompressNodeForUse junk (Some a);
      z ← node_zl a;
      p ← lift (ziplistIndex z off);
      v ← lift (match p with Some p => ziplistGet z p | None => Some None end);
      mret (Some (QuicklistEntry (Some a) p v off)))
    (fun r s' => s' = s /\ exists e, r = Some e /\ entry_in xs a d xsa vs j e /\ offset e = off) s.
Proof.
  intros R -> Hl Hj. pose proof (all_raw_middle _ _ _ _ (repr_raw _ _ _ _ R)) as Hr.
  pose proof (rp_good _ _ _ _ _ R) as Hg. apply Forall2_app_inv in Hg as [_ Hg]; [|done].
  apply Forall2_cons in Hg as [(Hd & _) _]. cbn [snd] in Hd. destruct (raw_blob _ _ Hr Hd) as (z & Hz & Hrep & _ & _).
  pose proof (ziplistIndex_spec z vs off Hrep) as Hix. rewrite Hj in Hix. destruct Hix as (p & Hp & Hcur).
  pose proof (resolve_index_lt _ _ _ Hj) as Hlt. destruct (lookup_lt_is_Some_2 vs j Hlt) as [x Hx].
  pose proof Hcur as Hcur'. rewrite (drop_S vs x j Hx) in Hcur'. destruct (ziplistGet_spec _ _ _ _ _ Hcur') as (v & Hv & Ev).
  pose proof (rp_chain _ _ _ _ _ R) as C. eapply for_use_skip; [eapply linked_middle, C|done|].
  apply wp_bind. eapply wp_at; [by eapply chain_self|]. eapply node_zl_put; [done|]. rewrite <- (chain_self _ _ _ _ _ _ C).
  apply wp_bind. eapply wp_lift; [done|]. apply wp_bind. eapply wp_lift; [exact Hv|]. apply wp_ret. split; [done|].
  eexists. split; [done|]. split; [|done]. split; cbn [enode offset zi evalue]; try done; [by exists z, p|].
  rewrite Hx. cbn. by rewrite Ev.
Qed.

(** The place in a list that an index of either sign stands for. *)
Lemma quicklistIndex_wp s F ns xss idx :
  repr s F 0 ns xss -> is_llong idx ->
  wp (quicklistIndex junk idx) (fun r s' => s' = s /\
    match resolve_index (length (concat xss)) idx with
    | None => r = None
    | Some i => exists xs a d ys xsa vs xsb j e, ns = xs ++ (a, d) :: ys /\ xss = xsa ++ vs :: xsb /\ r = Some e /\
        entry_in xs a d xsa vs j e /\ i = (length (concat xsa) + j)%nat /\ (0 <= idx <-> 0 <= offset e)
    end) s.
Proof.
  intros R Hidx. unfold quicklistIndex. wp_step. cbn zeta.
  pose proof (rp_count _ _ _ _ _ R) as Hcount. pose proof (rp_small _ _ _ _ _ R) as Hsm.
  pose proof (list_repr_length _ _ _ _ _ R) as [Hl Hroom]. destruct (head_end _ _ _ _ _ R) as [Hh Ht].
  rewrite Hcount, (rp_qlen _ _ _ _ _ R), Nat2Z.id, Hh, Ht.
  unfold resolve_index. destruct (Z.ltb_spec idx 0) as [Hneg|Hpos]; cbn [negb].
  - assert (u64 (s64 (- idx) - 1) = - idx - 1) as ->.
    { destruct (decide (idx = -2 ^ 63)) as [->|]; [done|]. rewrite wraps_small by ints. rewrite wrapu_small; ints. }
    rewrite Z.geb_leb. destruct (Z.leb_spec (Z.of_nat (length (concat xss))) (- idx - 1)) as [Hge|Hlt].
    { apply wp_ret. by rewrite (proj2 (Z.leb_gt _ _)) by lia. }
    rewrite (proj2 (Z.leb_le _ _)) by lia. apply wp_bind. eapply wp_mono.
    { replace (- idx - 1) with (Z.of_nat (Z.to_nat (- idx - 1))) by lia.
      eapply (index_loop_backward s F ns (ch_linked _ _ _ (rp_chain _ _ _ _ _ R)) _ ns [] xss []); try done;
        rewrite ?app_nil_r; try done; [apply R|cbn [concat length]; lia|lia]. }
    intros r s' [-> (xs & a & d & ys & xsa & vs & xsb & -> & E & Hx & -> & Hi)]. cbn beta iota. rewrite app_nil_r in E. subst xss.
    rewrite concat_app in *. cbn [concat] in *. rewrite !length_app in *.
    assert (s32 (u64 (- (- idx - 1)) - 1 + Z.of_nat (length (concat xsb))) = idx + Z.of_nat (length (concat xsb))) as ->.
    { replace (u64 (- (- idx - 1)) - 1 + Z.of_nat (length (concat xsb)))
        with (u64 (idx + 1) + (Z.of_nat (length (concat xsb)) - 1)) by (replace (- (- idx - 1)) with (idx + 1) by lia; lia).
      rewrite s32_u64, wraps_small; [lia|lia|ints]. }
    eapply wp_mono; [eapply (read_entry_wp s F _ xs a d ys xsa vs xsb _ (length vs - Z.to_nat (- (idx + Z.of_nat (length (concat xsb)))))); try done|].
    { unfold resolve_index. rewrite (proj2 (Z.ltb_lt _ _)) by lia. by rewrite (proj2 (Z.leb_le _ _)) by lia. }
    intros r s' (-> & e & -> & He & Eo). split; [done|].
    exists xs, a, d, ys, xsa, vs, xsb, (length vs - Z.to_nat (- (idx + Z.of_nat (length (concat xsb)))))%nat, e. split_and!; try done; lia.
  - rewrite wrapu_small by ints. rewrite Z.geb_leb. destruct (Z.leb_spec (Z.of_nat (length (concat xss))) idx) as [Hge|Hlt].
    { apply wp_ret. by rewrite (proj2 (Z.ltb_ge _ _)) by lia. }
    rewrite (proj2 (Z.ltb_lt _ _)) by lia. apply wp_bind. eapply wp_mono.
    { replace idx with (Z.of_nat (Z.to_nat idx)) at 1 by lia.
      eapply (index_loop_forward s F ns (ch_linked _ _ _ (rp_chain _ _ _ _ _ R)) _ [] ns [] xss); try done; [apply R|cbn [concat app length]; lia|lia]. }
    intros r s' [-> (xs & a & d & ys & xsa & vs & xsb & -> & E & Hx & -> & Hi)]. cbn beta iota. cbn [app] in E. subst xss.
    rewrite concat_app in *. cbn [concat] in *. rewrite !length_app in *.
    rewrite wraps_small by ints.
    eapply wp_mono; [eapply (read_entry_wp s F _ xs a d ys xsa vs xsb _ (Z.to_nat idx - length (concat xsa))); try done|].
    { unfold resolve_index. rewrite (proj2 (Z.ltb_ge _ _)) by lia. rewrite (proj2 (Z.ltb_lt _ _)) by lia. f_equal. lia. }
    intros r s' (-> & e & -> & He & Eo). split; [done|].
    exists xs, a, d, ys, xsa, vs, xsb, (Z.to_nat idx - length (concat xsa))%nat, e. split_and!; try done; lia.
Qed.

(** ** Changing an entry *)

Lemma repr_node s F c xs a d ys xsa vs xsb :
  repr s F c (xs ++ (a, d) :: ys) (xsa ++ vs :: xsb) -> length xsa = length xs ->
  nodes_good xs xsa /\ good d vs /\ nodes_good ys xsb.
Proof.
  intros R Hl. pose proof (rp_good _ _ _ _ _ R) as Hg. apply Forall2_app_inv in Hg as [Hx Hg]; [|done].
  by apply Forall2_cons in Hg as [Hd Hy].
Qed.

(** One node is changed and the list is counted again. *)
Lemma repr_change s s' F c xs a d d' ys xsa vs vs' xsb :
  repr s F c (xs ++ (a, d) :: ys) (xsa ++ vs :: xsb) -> length xsa = length xs ->
  chain s' F (xs ++ (a, d') :: ys) -> good d' vs' -> (raw d -> raw d') -> vs' <> [] ->
  qlen (ql s') = qlen (ql s) -> fill (ql s') = fill (ql s) -> compress (ql s') = compress (ql s) ->
  count (ql s') = Z.of_nat (length (concat (xsa ++ vs' :: xsb))) ->
  Z.of_nat (length (concat (xsa ++ vs' :: xsb))) < 2 ^ 31 ->
  repr s' F c (xs ++ (a, d') :: ys) (xsa ++ vs' :: xsb).
Proof.
  intros R Hl C Hd Hr Hne' El Ef Ep Ec Hsm. destruct (repr_node _ _ _ _ _ _ _ _ _ _ R Hl) as (Hx & _ & Hy).
  destruct R as [_ _ Hset Hne Hq _ _ Hcomp Hdep Hfill]. split; rewrite ?El, ?Ef, ?Ep; try done.
  - apply Forall2_app; [done|]. by constructor.
  - by eapply settled_update.
  - apply Forall_app in Hne as [? [_ ?]%Forall_cons]. apply Forall_app. split; [done|by apply Forall_cons].
  - rewrite Hq, !length_app. done.
Qed.

Lemma node_bound xsa (vs : list bytes) xsb : zl_bound vs <= zl_bound (concat (xsa ++ vs :: xsb)).
Proof.
  rewrite concat_app, zl_bound_app. cbn [concat]. rewrite zl_bound_app.
  pose proof (zl_bound_count (concat xsa)). pose proof (zl_bound_count (concat xsb)). lia.
Qed.

(** The strings of the list next to one of them. *)
Lemma node_fits_replace xsa (pre : list bytes) x post xsb v :
  node_fits (pre ++ x :: post) -> value_ok v -> zl_fits (v :: concat (xsa ++ (pre ++ x :: post) :: xsb)) ->
  node_fits (pre ++ v :: post).
Proof.
  intros (_ & Hl & Hu) [Hv Hvu] Hf. unfold zl_fits in Hf. rewrite zl_bound_cons in Hf.
  pose proof (node_bound xsa (pre ++ x :: post) xsb) as Hb. split; [|split].
  - unfold zl_fits. rewrite zl_bound_app, zl_bound_cons in *. lia.
  - rewrite length_app in *. done.
  - apply Forall_app in Hu as [? [_ ?]%Forall_cons]. apply Forall_app. split; [done|by apply Forall_cons].
Qed.

Lemma insert_node_middle (xsa : list (list bytes)) vs xsb (j : nat) v :
  (j < length vs)%nat ->
  <[(length (concat xsa) + j)%nat := v]> (concat (xsa ++ vs :: xsb)) = concat (xsa ++ (take j vs ++ v :: drop (S j) vs) :: xsb).
Proof.
  intros Hj. rewrite !concat_app. cbn [concat]. rewrite insert_app_r, insert_app_l by done.
  by rewrite insert_take_drop by done.
Qed.

Lemma quicklistReplaceAtIndex_wp s F ns xss idx v :
  repr s F 0 ns xss -> is_llong idx -> value_ok v -> zl_fits (v :: concat xss) ->
  wp (quicklistReplaceAtIndex junk garbage idx v)
    (fun r s' => match resolve_index (length (concat xss)) idx with
                 | None => r = false /\ s' = s
                 | Some i => r = true /\ repr_ex s' F 0 (<[i := v]> (concat xss))
                 end) s.
Proof.
  intros R Hidx Hv Hf. unfold quicklistReplaceAtIndex. apply wp_bind.
  eapply wp_mono; [by eapply quicklistIndex_wp|]. intros r s' [-> H].
  destruct (resolve_index (length (concat xss)) idx) as [i|]; [|subst r; by apply wp_ret].
  destruct H as (xs & a & d & ys & xsa & vs & xsb & j & e & -> & -> & -> & He & -> & _).
  destruct He as [Hl Ea Eo (z & p & Hz & Ezi & Hcur) _]. pose proof (resolve_index_lt _ _ _ Eo) as Hj.
  destruct (lookup_lt_is_Some_2 vs j Hj) as [x Hx]. rewrite (drop_S vs x j Hx) in Hcur.
  destruct (repr_node _ _ _ _ _ _ _ _ _ _ R Hl) as (_ & (Hd & Hc & Hrc) & _). pose proof Hd as (_ & _ & _ & Hfit & _).
  assert (vs = take j vs ++ x :: drop (S j) vs) as Evs by by rewrite take_drop_middle.
  rewrite Evs in Hfit. rewrite Evs in Hf. pose proof (node_fits_replace _ _ _ _ _ _ Hfit Hv Hf) as Hfit'.
  destruct (ziplistDelete_cursor junk z _ x _ p Hcur (proj1 Hfit)) as (z1 & Hz1 & Hcur1).
  destruct (ziplistInsert_cursor junk z1 _ _ p v Hcur1) as (z2 & Hz2 & Hcur2); [destruct Hv; unfold str_ok; lia|apply Hfit'|].
  pose proof (all_raw_middle _ _ _ _ (repr_raw _ _ _ _ R)) as Hr. pose proof (rp_chain _ _ _ _ _ R) as C.
  rewrite Ea, Ezi. apply wp_bind. eapply wp_lift; [done|]. apply wp_bind. eapply wp_lift; [done|].
  eapply wp_at; [by eapply chain_self|]. apply wp_bind. eapply node_zl_put; [done|].
  apply wp_bind. eapply wp_lift; [done|]. cbn beta iota. apply wp_bind. eapply wp_lift; [done|].
  apply wp_bind. eapply (upd_put _ _ _ _ (last_ None xs) (first ys None) (with_zl z2 d)); [done|].
  apply wp_bind. eapply update_sz_put; [done|by eapply cursor_rep|].
  set (d2 := with_sz (Z.of_nat (length z2)) (with_zl z2 d)).
  apply wp_bind. eapply compress_skip; [apply put_node|done|apply R|]. apply wp_ret. split; [done|].
  eexists (xs ++ (a, d2) :: ys), _. split; [|symmetry; by apply insert_node_middle].
  assert (length (concat (xsa ++ (take j vs ++ v :: drop (S j) vs) :: xsb)) = length (concat (xsa ++ vs :: xsb))) as Elen.
  { rewrite <- insert_node_middle by done. apply length_insert. }
  eapply (repr_change s); try done; rewrite ?Elen; [by eapply chain_put| | |apply R|apply R].
  - split; [|split; [|done]].
    + by eapply holds_raw; [| |eapply cursor_rep| |].
    + cbn [d2 with_sz with_zl d_count]. rewrite Hc. rewrite Evs at 1. rewrite !length_app. done.
  - by destruct (take j vs).
Qed.

(** ** Merging two neighbours *)

(** The invariant without the number of entries of the list. *)
Record shape s F (ns : list (addr * ndata)) xss : Prop := Shape {
  sh_chain : chain s F ns;
  sh_good : nodes_good ns xss;
  sh_raw : all_raw ns;
  sh_nonempty : Forall (fun xs => xs <> []) xss;
  sh_qlen : qlen (ql s) = Z.of_nat (length ns);
  sh_room : Z.of_nat (length ns) < 2 ^ 31 + 1;
  sh_compress : compress (ql s) = 0;
  sh_fill : fill_ok (fill (ql s))
}.

Lemma repr_shape s F ns xss : repr s F 0 ns xss -> shape s F ns xss.
Proof.
  intros R. pose proof (repr_raw _ _ _ _ R). pose proof (list_repr_length _ _ _ _ _ R) as [_ ?]. destruct R. by split; try lia.
Qed.

Lemma shape_repr s F ns xss :
  shape s F ns xss -> count (ql s) = Z.of_nat (length (concat xss)) -> Z.of_nat (length (concat xss)) < 2 ^ 31 -> repr s F 0 ns xss.
Proof. intros [] Hc Hs. split; try done. by apply all_raw_settled. Qed.

(** A change of one node that leaves the links alone. *)
Lemma upd_mid s F xs a d d' ys f (Q : unit -> qstate -> Prop) :
  chain s F (xs ++ (a, d) :: ys) -> (forall p n, f (link p n d) = link p n d') ->
  (forall s', chain s' F (xs ++ (a, d') :: ys) -> ql s' = ql s -> Q tt s') -> wp (upd a f) Q s.
Proof.
  intros C Hf HQ. eapply wp_at; [by eapply chain_self|]. eapply upd_put; [apply Hf|]. apply HQ; [by eapply chain_put|done].
Qed.

(** The number and the size of what a node has become are stored. *)
Lemma recount_put {B} s a p n d vs z (k : M qstate B) (Q : B -> qstate -> Prop) :
  raw d -> d_recompress d = false -> d_zl d = Some z -> zl_rep z vs -> node_fits vs ->
  (forall d' z', raw d' -> good d' vs -> d_zl d' = Some z' -> zl_rep z' vs -> wp k Q (put a p n d' s)) ->
  wp (m ← node_length a; _ ← upd a (set_ncount (wrapu 16 (u32 m))); _ ← quicklistNodeUpdateSz a; k) Q (put a p n d s).
Proof.
  intros Hr Hrc Hz Hrep Hfit HQ. destruct (ziplistLen_spec z vs Hrep) as (z' & Hlen & Hrep').
  assert (wrapu 16 (u32 (Z.of_nat (length vs))) = Z.of_nat (length vs)) as Ew.
  { destruct Hfit as (_ & ? & _). rewrite (wrapu_small 32), wrapu_small; ints. }
  apply wp_bind. unfold node_length. apply wp_bind. eapply node_zl_put; [done|].
  apply wp_bind. eapply wp_lift; [done|]. cbn beta iota.
  apply wp_bind. eapply (upd_put _ _ _ _ p n (with_zl z' d)); [done|]. apply wp_ret.
  apply wp_bind. eapply (upd_put _ _ _ _ p n (with_count (Z.of_nat (length vs)) (with_zl z' d))); [by rewrite Ew|].
  apply wp_bind. eapply update_sz_put; [done|done|].
  eapply (HQ (with_sz (Z.of_nat (length z')) (with_count (Z.of_nat (length vs)) (with_zl z' d)))); try done.
  split; [|done]. by eapply holds_raw; [| |exact Hrep'| |].
Qed.

Lemma recount_wp {B} s F xs a d ys vs z (k : M qstate B) (Q : B -> qstate -> Prop) :
  chain s F (xs ++ (a, d) :: ys) -> raw d -> d_recompress d = false -> d_zl d = Some z -> zl_rep z vs -> node_fits vs ->
  (forall s' d' z', chain s' F (xs ++ (a, d') :: ys) -> ql s' = ql s -> raw d' -> good d' vs -> d_zl d' = Some z' -> zl_rep z' vs ->
    wp k Q s') ->
  wp (n ← node_length a; _ ← upd a (set_ncount (wrapu 16 (u32 n))); _ ← quicklistNodeUpdateSz a; k) Q s.
Proof.
  intros C Hr Hrc Hz Hrep Hfit HQ. eapply wp_at; [by eapply chain_self|]. eapply recount_put; try done.
  intros d' z' Hr' Hg Hz' Hrep'. eapply HQ; try done. by eapply chain_put.
Qed.

(** What is left when two nodes were merged: the node [e] is one of them. *)
Definition merged s F xs a b ys xsa (vs : list bytes) xsb (e : addr) s' : Prop :=
  (e = a \/ e = b) /\ count (ql s') = count (ql s) /\ fill (ql s') = fill (ql s) /\
  exists d', shape s' F (xs ++ (e, d') :: ys) (xsa ++ vs :: xsb).

Lemma allow_merge_fits p1 n1 da p2 n2 db f va vb :
  _quicklistNodeAllowMerge (Some (link p1 n1 da)) (Some (link p2 n2 db)) f = true -> fill_ok f ->
  good da va -> good db vb -> node_fits (va ++ vb).
Proof.
  intros Hallow Hf ((za & _ & Ha & (Hfa & Hla & Hua) & Hsa) & Hca & _) ((zb & _ & Hb & (Hfb & Hlb & Hub) & Hsb) & Hcb & _).
  pose proof (rep_sizes _ _ Ha) as [Hba Hza]. pose proof (rep_sizes _ _ Hb) as [Hbb Hzb]. unfold zl_fits in *.
  unfold _quicklistNodeAllowMerge in Hallow. cbn [link sz ncount] in Hallow. rewrite Hsa, Hsb, Hca, Hcb in Hallow.
  rewrite wrapu_small in Hallow by ints.
  assert (Z.of_nat (length za) + Z.of_nat (length zb) - 11 <= 65536 /\ (Z.of_nat (length (va ++ vb)) <= 2 ^ 15)) as [Hsum Hcnt].
  { rewrite length_app. unfold _quicklistNodeSizeMeetsOptimizationRequirement, sizeMeetsSafetyLimit, SIZE_SAFETY_LIMIT, fill_ok in *.
    case_match eqn:E1.
    - case_match; [done|]. apply level_bound in E1. lia.
    - case_match eqn:E2; [done|]. apply negb_false_iff in E2. lia. }
  split; [|split; [done|by apply Forall_app]]. unfold zl_fits. rewrite zl_bound_app. lia.
Qed.

(** A node that has gone leaves the others as they are. *)
Lemma drop_node_wp s F xs a d ys xss (Q : unit -> qstate -> Prop) :
  chain s F (xs ++ (a, d) :: ys) -> nodes_good (xs ++ ys) xss -> all_raw (xs ++ (a, d) :: ys) ->
  Forall (fun xs => xs <> []) xss -> qlen (ql s) = Z.of_nat (length (xs ++ (a, d) :: ys)) ->
  Z.of_nat (length (xs ++ (a, d) :: ys)) < 2 ^ 31 + 1 -> compress (ql s) = 0 -> fill_ok (fill (ql s)) ->
  (forall s', shape s' F (xs ++ ys) xss -> count (ql s') = u64 (count (ql s) - d_count d) -> fill (ql s') = fill (ql s) -> Q tt s') ->
  wp (__quicklistDelNode junk garbage a) Q s.
Proof.
  intros C Hg Hr Hne Hq Hroom Hc Hf HQ. eapply wp_mono.
  { eapply (delete_node_wp junk garbage Hgarbage s F xs ys a d xss 0); try done; [by apply good_held|by apply all_raw_settled|lia]. }
  intros [] s' (ns' & C' & S' & H' & Hs' & Ec & El & Ef & Ep & H0). rewrite (H0 eq_refl) in *.
  apply HQ; [|done|done]. split; rewrite ?Ep, ?Ef; try done; [by eapply delete_middle_raw|].
  rewrite !length_app in *. cbn [length] in Hroom. lia.
Qed.

Definition emptied d : ndata := NData None (d_sz d) (d_count d) (d_enc d) (d_container d) (d_recompress d).

Lemma header_length z xs : zl_rep z xs -> exists n, ZIPLIST_LENGTH z = Some n.
Proof.
  intros (es & (lf & -> & _ & (Hl & _) & _) & _). exists lf. apply hdr_length. unfold UINT16_MAX in Hl. lia.
Qed.

(** The node that was taken in goes. *)
Lemma merge_finish s F xs1 n dn ys1 xs k dk ys xsa vs xsb a b :
  chain s F (xs1 ++ (n, dn) :: ys1) -> xs1 ++ ys1 = xs ++ (k, dk) :: ys -> raw dn -> raw dk -> good dk vs -> vs <> [] ->
  nodes_good xs xsa -> nodes_good ys xsb -> all_raw (xs ++ ys) -> Forall (fun xs => xs <> []) (xsa ++ xsb) ->
  qlen (ql s) = Z.of_nat (length (xs1 ++ (n, dn) :: ys1)) -> Z.of_nat (length (xs1 ++ (n, dn) :: ys1)) < 2 ^ 31 + 1 ->
  compress (ql s) = 0 -> fill_ok (fill (ql s)) -> is_u64 (count (ql s)) -> k = a \/ k = b ->
  wp (_ ← upd n (set_ncount 0); _ ← __quicklistDelNode junk garbage n; _ ← quicklistCompress junk garbage k; mret (Some k))
    (fun r s' => exists e, r = Some e /\ merged s F xs a b ys xsa vs xsb e s') s.
Proof.
  intros C E Hrn Hrk Hgk Hvs Hx Hy Hraw Hne Hq Hroom Hc Hf Hu Hab. apply wp_bind.
  eapply (upd_mid s F xs1 n dn (with_count 0 dn)); [done|done|]. intros s1 C1 E1.
  apply wp_bind. eapply (drop_node_wp s1 F xs1 n (with_count 0 dn) ys1 (xsa ++ vs :: xsb)); rewrite ?E1; try done.
  - rewrite E. apply Forall2_app; [done|]. by constructor.
  - apply insert_middle_raw; [|done]. rewrite E. by apply insert_middle_raw.
  - apply Forall_app in Hne as [? ?]. apply Forall_app. split; [done|by apply Forall_cons].
  - rewrite Hq, !length_app. done.
  - rewrite !length_app in *. done.
  - intros s2 Sh Ec Ef. rewrite E in Sh. apply wp_bind.
    eapply compress_skip; [eapply linked_middle, Sh|apply Hgk|apply Sh|]. apply wp_ret. exists k. split; [done|].
    split; [done|]. split; [|split; [congruence|by exists dk]].
    cbn [with_count d_count] in Ec. rewrite Ec, Z.sub_0_r. by apply wrapu_small.
Qed.

Lemma merge_wp s F xs a da b db ys xsa va vb xsb :
  shape s F (xs ++ (a, da) :: (b, db) :: ys) (xsa ++ va :: vb :: xsb) -> length xsa = length xs ->
  node_fits (va ++ vb) -> is_u64 (count (ql s)) ->
  wp (_quicklistZiplistMerge junk garbage a b) (fun r s' => exists e, r = Some e /\ merged s F xs a b ys xsa (va ++ vb) xsb e s') s.
Proof.
  intros Sh Hl Hfit Hcount. destruct Sh as [C Hg Hraw Hne Hq Hroom Hc Hf].
  apply Forall2_app_inv in Hg as [Hx Hg]; [|done]. apply Forall2_cons in Hg as [(Hda & Hca & Hra) Hg].
  apply Forall2_cons in Hg as [(Hdb & Hcb & Hrb) Hy]. cbn [snd] in *.
  pose proof (all_raw_middle _ _ _ _ Hraw) as Ha.
  assert (raw db) as Hb.
  { apply (all_raw_middle (xs ++ [(a, da)]) b db ys). by rewrite <- app_assoc. }
  destruct (raw_blob _ _ Ha Hda) as (za & Hza & Hrepa & _). destruct (raw_blob _ _ Hb Hdb) as (zb & Hzb & Hrepb & _).
  apply Forall_app in Hne as [Hnx Hne]. apply Forall_cons in Hne as [Hva Hne]. apply Forall_cons in Hne as [Hvb Hny].
  destruct (ziplistMerge_rep junk za zb va vb Hrepa Hrepb Hvb) as (z & Hz & Hrep); [apply Hfit|].
  destruct (header_length _ _ Hrepa) as (la & Hla). destruct (header_length _ _ Hrepb) as (lb & Hlb).
  assert (nodes s !! b = Some (link (Some a) (first ys None) db)) as Hnb.
  { pose proof (ch_linked _ _ _ C) as L. rewrite (cons_middle _ xs), app_assoc in L. rewrite (linked_middle _ _ _ _ _ _ L).
    by rewrite AdlistSpec.seg_last_snoc. }
  pose proof (linked_middle _ _ _ _ _ _ (ch_linked _ _ _ C)) as Hna.
  unfold _quicklistZiplistMerge. eapply decompress_skip; [done|done|]. eapply decompress_skip; [done|done|].
  apply wp_bind. eapply get_node_wp; [done|]. apply wp_bind. eapply get_node_wp; [done|]. cbn [link zl].
  rewrite Hza, Hzb. cbn [merge_zls]. apply wp_bind. apply wp_bind. eapply wp_lift; [done|]. apply wp_bind. eapply wp_lift; [done|].
  apply wp_bind. eapply wp_lift; [done|]. apply wp_ret.
  destruct (la >=? lb).
  - apply wp_bind. eapply (upd_mid s F xs a da (with_zl z da)); [done|done|]. intros s1 C1 E1.
    rewrite (cons_middle _ xs), app_assoc in C1.
    apply wp_bind. eapply (upd_mid s1 F _ b db (emptied db)); [done|done|]. intros s2 C2 E2. cbn beta iota.
    rewrite <- app_assoc in C2. eapply recount_wp; [exact C2|done|done|done|done|done|]. intros s3 d3 z3 C3 E3 Hr3 Hg3 _ _.
    assert (ql s3 = ql s) as Es3 by congruence.
    eapply wp_mono; [eapply (merge_finish s3 F (xs ++ [(a, d3)]) b (emptied db) ys xs a d3 ys xsa (va ++ vb) xsb a b); rewrite ?Es3; try done|].
    + by rewrite <- app_assoc.
    + by rewrite <- app_assoc.
    + by destruct va.
    + by eapply delete_middle_raw, delete_middle_raw.
    + by apply Forall_app.
    + rewrite Hq, !length_app. cbn [length]. lia.
    + rewrite !length_app in *. cbn [length] in *. lia.
    + by left.
    + unfold merged. rewrite Es3. done.
  - apply wp_bind. eapply (upd_mid s F xs a da (emptied da)); [done|done|]. intros s1 C1 E1.
    rewrite (cons_middle _ xs), app_assoc in C1.
    apply wp_bind. eapply (upd_mid s1 F _ b db (with_zl z db)); [done|done|]. intros s2 C2 E2. cbn beta iota.
    eapply recount_wp; [exact C2|done|done|done|done|done|]. intros s3 d3 z3 C3 E3 Hr3 Hg3 _ _.
    rewrite <- app_assoc in C3. assert (ql s3 = ql s) as Es3 by congruence.
    eapply wp_mono; [eapply (merge_finish s3 F xs a (emptied da) ((b, d3) :: ys) xs b d3 ys xsa (va ++ vb) xsb a b); rewrite ?Es3; try done|].
    + by destruct va.
    + by eapply delete_middle_raw, delete_middle_raw.
    + by apply Forall_app.
    + rewrite Hq, !length_app. cbn [length]. lia.
    + rewrite !length_app in *. cbn [length] in *. lia.
    + by right.
    + unfold merged. rewrite Es3. done.
Qed.

Lemma shape_length s F ns xss : shape s F ns xss -> length xss = length ns.
Proof. intros Sh. symmetry. apply (Forall2_length _ _ _ (sh_good _ _ _ _ Sh)). Qed.

Lemma get_opt_first s F ns xs ys (Q : option quicklistNode -> qstate -> Prop) :
  chain s F ns -> ns = xs ++ ys -> Q (first ys None ≫= (nodes s !!.)) s -> wp (get_opt (first ys None)) Q s.
Proof.
  intros C -> HQ. destruct ys as [|[a d] ys]; [by apply wp_ret|]. cbn [AdlistSpec.first mbind option_bind] in *.
  pose proof (linked_middle _ _ _ _ _ _ (ch_linked _ _ _ C)) as Ha. rewrite Ha in HQ. by eapply get_opt_wp.
Qed.

Lemma get_opt_last s F ns xs ys (Q : option quicklistNode -> qstate -> Prop) :
  chain s F ns -> ns = xs ++ ys -> Q (last_ None xs ≫= (nodes s !!.)) s -> wp (get_opt (last_ None xs)) Q s.
Proof.
  intros C -> HQ. destruct xs as [|[a d] xs _] using rev_ind; [by apply wp_ret|].
  rewrite AdlistSpec.seg_last_snoc in *. cbn [mbind option_bind] in *. rewrite <- app_assoc in C.
  pose proof (linked_middle _ _ _ _ _ _ (ch_linked _ _ _ C)) as Ha. cbn [app] in *. rewrite Ha in HQ. by eapply get_opt_wp.
Qed.

(** The state and the strings stay, up to merging. *)
Definition still s s' : Prop := count (ql s') = count (ql s) /\ fill (ql s') = fill (ql s).

Lemma still_trans s1 s2 s3 : still s1 s2 -> still s2 s3 -> still s1 s3.
Proof. intros [] []. split; congruence. Qed.

(** Two neighbours are joined or left alone. *)
Lemma try_merge_wp s F xs a da b db ys xsa va vb xsb :
  shape s F (xs ++ (a, da) :: (b, db) :: ys) (xsa ++ va :: vb :: xsb) -> length xsa = length xs -> is_u64 (count (ql s)) ->
  wp (try_merge junk garbage (Some a) (Some b)) (fun r s' => still s s' /\
    if (r : bool) then exists e d', shape s' F (xs ++ (e, d') :: ys) (xsa ++ (va ++ vb) :: xsb) else s' = s) s.
Proof.
  intros Sh Hl Hu. pose proof (sh_good _ _ _ _ Sh) as Hg. apply Forall2_app_inv in Hg as [_ Hg]; [|done].
  apply Forall2_cons in Hg as [Hda Hg]. apply Forall2_cons in Hg as [Hdb _]. cbn [snd] in *.
  pose proof (linked_middle _ _ _ _ _ _ (ch_linked _ _ _ (sh_chain _ _ _ _ Sh))) as Hna.
  pose proof (ch_linked _ _ _ (sh_chain _ _ _ _ Sh)) as L. rewrite (cons_middle _ xs), app_assoc in L.
  pose proof (linked_middle _ _ _ _ _ _ L) as Hnb.
  unfold try_merge. wp_step. apply wp_bind. eapply get_opt_wp; [done|]. apply wp_bind. eapply get_opt_wp; [done|].
  case_match eqn:Hallow; [|by apply wp_ret]. apply wp_bind. eapply wp_mono.
  { eapply merge_wp; [done|done| |done]. by eapply allow_merge_fits; [exact Hallow|apply Sh| |]. }
  intros r s' (e & -> & _ & Ec & Ef & d' & Sh'). apply wp_ret. split; [done|]. by exists e, d'.
Qed.

(** The two nodes before a place. *)
Lemma merge_before s F xs r xsa rs :
  shape s F (xs ++ r) (xsa ++ rs) -> length xsa = length xs -> is_u64 (count (ql s)) ->
  wp (try_merge junk garbage ((last_ None xs ≫= (nodes s !!.)) ≫= nprev) (last_ None xs))
    (fun _ s' => still s s' /\ exists xs' xsa', shape s' F (xs' ++ r) (xsa' ++ rs) /\ length xsa' = length xs' /\ concat xsa' = concat xsa) s.
Proof.
  intros Sh Hl Hu. destruct xs as [|[b db] xs _] using rev_ind.
  { cbn. unfold try_merge. wp_step. apply wp_bind, wp_ret. apply wp_bind, wp_ret. apply wp_ret. split; [done|]. by exists [], xsa. }
  rewrite AdlistSpec.seg_last_snoc. cbn [mbind option_bind]. rewrite <- app_assoc in Sh. cbn [app] in Sh.
  rewrite (linked_middle _ _ _ _ _ _ (ch_linked _ _ _ (sh_chain _ _ _ _ Sh))). cbn [mbind option_bind link nprev].
  destruct xs as [|[a da] xs _] using rev_ind.
  { cbn. unfold try_merge. wp_step. apply wp_bind, wp_ret. apply wp_bind.
    eapply get_opt_wp; [eapply (linked_middle _ _ []), Sh|]. apply wp_ret. split; [done|]. by exists [(b, db)], xsa. }
  rewrite AdlistSpec.seg_last_snoc. rewrite <- app_assoc in Sh. cbn [app] in Sh.
  rewrite !length_app in Hl. cbn [length] in Hl.
  destruct xsa as [|vb xsa _] using rev_ind; [cbn [length] in Hl; lia|]. destruct xsa as [|va xsa _] using rev_ind; [cbn [length app] in Hl; lia|].
  rewrite <- !app_assoc in Sh. cbn [app] in Sh. rewrite !length_app in Hl. cbn [length] in Hl.
  eapply wp_mono; [eapply try_merge_wp; [exact Sh|lia|done]|]. intros m s' [Hst H]. split; [done|]. destruct m.
  - destruct H as (e & d' & Sh'). exists (xs ++ [(e, d')]), (xsa ++ [va ++ vb]). rewrite <- !app_assoc. split; [done|]. split.
    + rewrite !length_app. cbn [length]. lia.
    + rewrite !concat_app. cbn [concat]. by rewrite !app_nil_r, app_assoc.
  - subst s'. exists ((xs ++ [(a, da)]) ++ [(b, db)]), ((xsa ++ [va]) ++ [vb]). rewrite <- !app_assoc. split; [done|]. split; [|done].
    rewrite !length_app. cbn [length]. lia.
Qed.

(** The two nodes after a place. *)
Lemma merge_after s F l ys ls xsb :
  shape s F (l ++ ys) (ls ++ xsb) -> length ls = length l -> is_u64 (count (ql s)) -> length xsb = length ys ->
  wp (try_merge junk garbage (first ys None) (first (drop 1 ys) None))
    (fun _ s' => still s s' /\ exists ys' xsb', shape s' F (l ++ ys') (ls ++ xsb') /\ concat xsb' = concat xsb) s.
Proof.
  intros Sh Hl Hu Hly. destruct ys as [|[a da] ys].
  { cbn. unfold try_merge. wp_step. apply wp_bind, wp_ret. apply wp_bind, wp_ret. apply wp_ret. split; [done|]. by exists [], xsb. }
  destruct ys as [|[b db] ys].
  { cbn [AdlistSpec.first drop]. unfold try_merge. wp_step. apply wp_bind.
    eapply get_opt_wp; [eapply linked_middle, Sh|]. apply wp_bind, wp_ret. apply wp_ret. split; [done|]. by exists [(a, da)], xsb. }
  cbn [AdlistSpec.first drop]. destruct xsb as [|va [|vb xsb]]; [done|done|].
  eapply wp_mono; [eapply try_merge_wp; [exact Sh|lia|done]|]. intros m s' [Hst H]. split; [done|]. destruct m.
  - destruct H as (e & d' & Sh'). exists ((e, d') :: ys), ((va ++ vb) :: xsb). split; [done|]. cbn [concat]. by rewrite app_assoc.
  - subst s'. by exists ((a, da) :: (b, db) :: ys), (va :: vb :: xsb).
Qed.

Lemma node_fits_comm u v : node_fits (u ++ v) -> node_fits (v ++ u).
Proof.
  intros (Hf & Hl & Hu). split; [|split].
  - unfold zl_fits in *. rewrite zl_bound_app in *. lia.
  - rewrite length_app in *. lia.
  - apply Forall_app in Hu as [? ?]. by apply Forall_app.
Qed.

(** What a node is merged with on its left. *)
Lemma merge_left_wp {B} s F xs k dk ys xsa vk xsb (rest : option addr -> M qstate B) (Q : B -> qstate -> Prop) :
  shape s F (xs ++ (k, dk) :: ys) (xsa ++ vk :: xsb) -> length xsa = length xs -> is_u64 (count (ql s)) ->
  (forall s' xs' e d' xsa' v, still s s' -> shape s' F (xs' ++ (e, d') :: ys) (xsa' ++ v :: xsb) -> length xsa' = length xs' ->
    concat xsa' ++ v = concat xsa ++ vk -> wp (rest (Some e)) Q s') ->
  wp (pn ← get_opt (last_ None xs);
      t ← (match last_ None xs with
      | Some p =>
        if _quicklistNodeAllowMerge (Some (link (last_ None xs) (first ys None) dk)) pn (fill (ql s))
        then _quicklistZiplistMerge junk garbage p k else mret (Some k)
      | None => mret (Some k)
      end);
      rest t) Q s.
Proof.
  intros Sh Hl Hu HQ. apply wp_bind. eapply get_opt_last; [apply Sh|done|]. apply wp_bind.
  destruct xs as [|[b db] xs _] using rev_ind; [by apply wp_ret, (HQ s [] k dk xsa vk)|].
  rewrite AdlistSpec.seg_last_snoc. cbn [mbind option_bind]. rewrite !length_app in Hl. cbn [length] in Hl.
  destruct xsa as [|vb xsa _] using rev_ind; [cbn [length] in Hl; lia|]. rewrite !length_app in Hl. cbn [length] in Hl.
  pose proof Sh as Sh'. rewrite <- !app_assoc in Sh'. cbn [app] in Sh'.
  rewrite (linked_middle _ _ _ _ _ _ (ch_linked _ _ _ (sh_chain _ _ _ _ Sh'))).
  case_match eqn:Hallow.
  - pose proof (sh_good _ _ _ _ Sh') as Hg. apply Forall2_app_inv in Hg as [_ Hg]; [|lia].
    apply Forall2_cons in Hg as [Hdb Hg]. apply Forall2_cons in Hg as [Hdk _]. cbn [snd] in *.
    eapply wp_mono; [eapply merge_wp; [exact Sh'|lia| |done]|].
    + apply node_fits_comm. by eapply allow_merge_fits; [exact Hallow|apply Sh| |].
    + intros r s' (e & -> & _ & Ec & Ef & d' & Sh2). apply (HQ s' xs e d' xsa (vb ++ vk)); try done; [lia|].
      rewrite concat_app. cbn [concat]. by rewrite app_nil_r, app_assoc.
  - apply wp_ret, (HQ s (xs ++ [(b, db)]) k dk (xsa ++ [vb]) vk); try done. rewrite !length_app. cbn [length]. lia.
Qed.

Lemma after_next s F xs ys : chain s F (xs ++ ys) -> (first ys None ≫= (nodes s !!.)) ≫= nnext = first (drop 1 ys) None.
Proof.
  intros C. destruct ys as [|[a d] ys]; [done|]. cbn [AdlistSpec.first mbind option_bind].
  by rewrite (linked_middle _ _ _ _ _ _ (ch_linked _ _ _ C)).
Qed.

Lemma merge_nodes_wp s F xs k dk ys xsa vk xsb :
  shape s F (xs ++ (k, dk) :: ys) (xsa ++ vk :: xsb) -> length xsa = length xs -> is_u64 (count (ql s)) ->
  wp (_quicklistMergeNodes junk garbage k)
    (fun _ s' => still s s' /\ exists ns' xss', shape s' F ns' xss' /\ concat xss' = concat (xsa ++ vk :: xsb)) s.
Proof.
  intros Sh Hl Hu. unfold _quicklistMergeNodes. wp_step. cbn zeta.
  apply wp_bind. eapply get_node_wp; [eapply linked_middle, Sh|]. cbn [link nprev nnext].
  apply wp_bind. eapply get_opt_last; [apply Sh|done|]. apply wp_bind.
  assert (xs ++ (k, dk) :: ys = (xs ++ [(k, dk)]) ++ ys) as Er by by rewrite <- app_assoc.
  eapply get_opt_first; [apply Sh|exact Er|]. rewrite (after_next s F (xs ++ [(k, dk)])) by (rewrite <- Er; apply Sh).
  apply wp_bind. eapply wp_mono; [by eapply merge_before|]. intros _ s1 [St1 (xs1 & xsa1 & Sh1 & Hl1 & E1)].
  apply wp_bind.
  pose proof (shape_length _ _ _ _ Sh1) as Hly. rewrite !length_app in Hly. cbn [length] in Hly.
  eapply wp_mono; [eapply (merge_after s1 F (xs1 ++ [(k, dk)]) ys (xsa1 ++ [vk]) xsb)|].
  { by rewrite <- !app_assoc. } { rewrite !length_app. cbn [length]. lia. } { by rewrite (proj1 St1). } { lia. }
  intros _ s2 [St2 (ys2 & xsb2 & Sh2 & E2)]. rewrite <- !app_assoc in Sh2. cbn [app] in Sh2.
  assert (fill (ql s) = fill (ql s2)) as -> by (destruct St1, St2; congruence).
  apply wp_bind. eapply get_node_wp; [eapply linked_middle, Sh2|]. cbn [link nprev].
  eapply merge_left_wp; [exact Sh2|lia|by rewrite (proj1 St2), (proj1 St1)|].
  intros s3 xs3 e d3 xsa3 v3 St3 Sh3 Hl3 E3. apply wp_bind. eapply get_node_wp; [eapply linked_middle, Sh3|]. cbn [link nnext].
  assert (concat (xsa3 ++ v3 :: xsb2) = concat (xsa ++ vk :: xsb)) as E.
  { rewrite !concat_app. cbn [concat]. rewrite app_assoc, E3, E1, E2, <- app_assoc. done. }
  assert (still s s3) as St by (eapply still_trans; [done|by eapply still_trans]).
  apply wp_bind. destruct ys2 as [|[b db] ys2].
  - cbn [AdlistSpec.first]. unfold try_merge. wp_step. apply wp_bind. eapply get_opt_wp; [eapply linked_middle, Sh3|].
    apply wp_bind, wp_ret. apply wp_ret. wp_step. split; [done|]. by eexists _, _.
  - cbn [AdlistSpec.first]. pose proof (shape_length _ _ _ _ Sh3) as Hl4. rewrite !length_app in Hl4. cbn [length] in Hl4.
    destruct xsb2 as [|vb xsb2]; [cbn [length] in Hl4; lia|].
    eapply wp_mono; [eapply try_merge_wp; [exact Sh3|done|by rewrite (proj1 St)]|]. intros m s4 [St4 H]. wp_step.
    split; [by eapply still_trans|]. destruct m; [|subst s4; by eexists _, _].
    destruct H as (e' & d' & Sh4). eexists _, _. split; [exact Sh4|]. rewrite <- E, !concat_app. cbn [concat]. by rewrite !app_assoc.
Qed.

(** ** Splitting a node *)

Lemma delete_range_spec z xs i n :
  zl_rep z xs -> zl_fits xs -> is_int i ->
  exists z', delete_range junk z i n = Some z' /\ zl_rep z'
    (match resolve_index (length xs) i with
     | Some k => take k xs ++ drop (k + Z.to_nat (Z.min (u32 n) (Z.of_nat (length z)))) xs
     | None => xs
     end).
Proof.
  intros Hrep Hf Hi. unfold delete_range. rewrite wraps_small by (done || lia). by apply ziplistDeleteRange_spec.
Qed.

Lemma node_fits_parts u v : node_fits (u ++ v) -> node_fits u /\ node_fits v.
Proof.
  intros (Hf & Hl & Hu). unfold zl_fits in Hf. rewrite zl_bound_app in Hf. rewrite length_app in Hl.
  apply Forall_app in Hu as [Hu Hv]. pose proof (zl_bound_count u). pose proof (zl_bound_count v).
  split; (split; [unfold zl_fits; lia|split; [lia|done]]).
Qed.

Lemma node_fits_cut vs k : node_fits vs -> node_fits (take k vs) /\ node_fits (drop k vs).
Proof. intros H. apply node_fits_parts. by rewrite take_drop. Qed.

(** What goes into each half: the node keeps [keep], the new one takes
    [move]. *)
Definition halves (after : bool) (j : nat) (vs keep move : list bytes) : Prop :=
  if after then keep = take (S j) vs /\ move = drop (S j) vs else keep = drop j vs /\ move = take j vs.

Lemma halves_fit after j vs keep move : halves after j vs keep move -> node_fits vs -> node_fits keep /\ node_fits move.
Proof. intros H Hf. destruct after, H as [-> ->]; [|apply and_comm]; by apply node_fits_cut. Qed.

(** The ranges that [_quicklistSplitNode] deletes. *)
Lemma split_ranges z vs j (after : bool) keep move :
  zl_rep z vs -> node_fits vs -> (j < length vs)%nat -> halves after j vs keep move ->
  let start := if after then s32 (Z.of_nat j + 1) else 0 in
  let extent := if after then -1 else Z.of_nat j in
  let new_start := if after then 0 else Z.of_nat j in
  let new_extent := if after then s32 (Z.of_nat j + 1) else -1 in
  (exists z1, delete_range junk z start extent = Some z1 /\ zl_rep z1 keep) /\
  (exists z2, delete_range junk z new_start new_extent = Some z2 /\ zl_rep z2 move).
Proof.
  intros Hrep (Hf & Hl & _) Hj Hh. cbn zeta. pose proof (rep_size _ _ Hrep) as Hsz. pose proof (zl_rep_len _ _ Hrep) as [_ Hz].
  assert (s32 (Z.of_nat j + 1) = Z.of_nat (S j)) as -> by (rewrite wraps_small; [lia|lia|ints]).
  assert (forall i, (i <= length vs)%nat -> is_int (Z.of_nat i)) as Hint by (intros i Hi; ints).
  assert (forall i n, (i <= length vs)%nat -> exists z', delete_range junk z (Z.of_nat i) n = Some z' /\
    zl_rep z' (take i vs ++ drop (i + Z.to_nat (Z.min (u32 n) (Z.of_nat (length z)))) vs)) as Hdel.
  { intros i n Hi. destruct (delete_range_spec z vs (Z.of_nat i) n Hrep Hf (Hint i Hi)) as (z' & Hz' & Hr). exists z'. split; [done|].
    unfold resolve_index in Hr. rewrite (proj2 (Z.ltb_ge _ _)) in Hr by lia. destruct (Z.ltb_spec (Z.of_nat i) (Z.of_nat (length vs))).
    - by rewrite Nat2Z.id in Hr.
    - assert (i = length vs) as -> by lia. by rewrite take_ge, drop_ge, app_nil_r by lia. }
  assert (Z.to_nat (Z.min (u32 (-1)) (Z.of_nat (length z))) = length z) as Hall by (change (u32 (-1)) with (2 ^ 32 - 1); lia).
  assert (forall i, (i <= length vs)%nat -> Z.to_nat (Z.min (u32 (Z.of_nat i)) (Z.of_nat (length z))) = i) as Hsome.
  { intros i Hi. rewrite wrapu_small by ints. lia. }
  destruct after, Hh as [-> ->].
  - split.
    + destruct (Hdel (S j) (-1)) as (z' & Hz' & Hr); [lia|]. exists z'. split; [done|]. rewrite Hall, drop_ge, app_nil_r in Hr by lia. done.
    + destruct (Hdel 0%nat (Z.of_nat (S j))) as (z' & Hz' & Hr); [lia|]. exists z'. split; [done|]. by rewrite Hsome in Hr by lia.
  - split.
    + destruct (Hdel 0%nat (Z.of_nat j)) as (z' & Hz' & Hr); [lia|]. exists z'. split; [done|]. by rewrite Hsome in Hr by lia.
    + destruct (Hdel j (-1)) as (z' & Hz' & Hr); [lia|]. exists z'. split; [done|]. rewrite Hall, drop_ge, app_nil_r in Hr by lia. done.
Qed.

Lemma create_node_wp s F ns (Q : addr -> qstate -> Prop) :
  chain s F ns ->
  (forall b, F !! b = None -> b ∉ ns.*1 -> chain (put b None None (data_of fresh_node) s) (<[b := link None None (data_of fresh_node)]> F) ns ->
    Q b (put b None None (data_of fresh_node) s)) ->
  wp (quicklistCreateNode alloc) Q s.
Proof.
  intros C HQ. unfold quicklistCreateNode. set (b := alloc (dom (nodes s))).
  assert (nodes s !! b = None) as Hb by (apply not_elem_of_dom; apply Halloc).
  assert (b ∉ ns.*1) as Hni.
  { intros Hin. destruct (linked_in _ _ _ _ (ch_linked _ _ _ C) Hin) as [m Hm]. by rewrite Hm in Hb. }
  wp_step. cbn zeta. wp_step. apply wp_ret. apply (HQ b); [|done|].
  - by rewrite <- (ln_frame _ _ _ (ch_linked _ _ _ C)).
  - split; [|apply C|apply C]. by apply linked_create; [apply C|].
Qed.

Lemma put_comm a b p n p' n' d d' s : a <> b -> put a p n d (put b p' n' d' s) = put b p' n' d' (put a p n d s).
Proof. intros Hne. unfold put, set_nodes. cbn. by rewrite insert_insert_ne. Qed.

Lemma split_node_wp s F xs a d ys vs (after : bool) j keep move (Q : addr -> qstate -> Prop) :
  chain s F (xs ++ (a, d) :: ys) -> raw d -> good d vs -> (j < length vs)%nat -> halves after j vs keep move ->
  (forall b s' da db z, F !! b = None -> chain s' (<[b := link None None db]> F) (xs ++ (a, da) :: ys) -> ql s' = ql s ->
    raw da -> good da keep -> raw db -> good db move -> d_zl db = Some z -> zl_rep z move -> Q b s') ->
  wp (_quicklistSplitNode junk alloc a (Z.of_nat j) after) Q s.
Proof.
  intros C Hr (Hd & Hc & Hrc) Hj Hh HQ. destruct (raw_blob _ _ Hr Hd) as (z & Hz & Hrep & Hfit & Hsz).
  destruct (halves_fit _ _ _ _ _ Hh Hfit) as [Hfk Hfm].
  destruct (split_ranges z vs j after keep move Hrep Hfit Hj Hh) as [(z1 & Hz1 & Hr1) (z2 & Hz2 & Hr2)].
  unfold _quicklistSplitNode. apply wp_bind. eapply get_node_wp; [eapply linked_middle, C|]. cbn [link sz].
  apply wp_bind. eapply create_node_wp; [done|]. intros b Hb Hni C1.
  assert (a <> b) as Hab by (intros ->; apply Hni; rewrite fmap_app; apply elem_of_app; right; left).
  set (s1 := put b None None (data_of fresh_node) s) in *. set (p := last_ None xs) in *. set (n := first ys None) in *.
  assert (s1 = put a p n d s1) as E1 by by eapply chain_self.
  apply wp_bind. eapply wp_at; [exact E1|]. eapply node_zl_put; [done|]. rewrite <- E1.
  apply wp_bind. eapply wp_lift. { rewrite Hsz, Nat2Z.id. rewrite <- (app_nil_r z) at 1. by apply rdn_app0. }
  set (d0 := with_zl z (data_of fresh_node)).
  apply wp_bind. eapply (upd_put _ _ _ _ None None d0); [done|]. cbn zeta.
  assert (chain (put b None None d0 s) (<[b := link None None d0]> F) (xs ++ (a, d) :: ys)) as C2.
  { destruct (chain_outside _ _ _ _ _ d0 C1) as [_ C2]. unfold s1 in C2. by rewrite put_put in C2. }
  eapply wp_at; [by eapply chain_self|]. apply wp_bind. eapply on_zl_put; [done|exact Hz1|]. fold p n.
  eapply recount_put; [done|done|done|exact Hr1|done|]. intros da z1' Hra Hga Hza Hra'.
  rewrite put_comm by done. apply wp_bind. eapply on_zl_put; [done|exact Hz2|].
  eapply recount_put; [done|done|done|exact Hr2|done|]. intros db z2' Hrb Hgb Hzb Hrb'. apply wp_ret.
  eapply (HQ b _ da db z2'); try done. rewrite put_comm by done.
  destruct (chain_outside _ _ _ _ _ db C2) as [_ C3]. rewrite put_put in C3. by eapply chain_put.
Qed.

(** ** Inserting *)

Lemma shape_change s s' F xs a d d' ys xsa vs vs' xsb :
  shape s F (xs ++ (a, d) :: ys) (xsa ++ vs :: xsb) -> length xsa = length xs ->
  chain s' F (xs ++ (a, d') :: ys) -> ql s' = ql s -> raw d' -> good d' vs' -> vs' <> [] ->
  shape s' F (xs ++ (a, d') :: ys) (xsa ++ vs' :: xsb).
Proof.
  intros [C Hg Hr Hne Hq Hroom Hc Hf] Hl C' E Hr' Hg' Hne'. apply Forall2_app_inv in Hg as [Hx Hg]; [|done].
  apply Forall2_cons in Hg as [_ Hy]. split; rewrite ?E; try done.
  - apply Forall2_app; [done|]. by constructor.
  - apply insert_middle_raw; [|done]. by eapply delete_middle_raw.
  - apply Forall_app in Hne as [? [_ ?]%Forall_cons]. apply Forall_app. split; [done|by apply Forall_cons].
  - rewrite Hq, !length_app. done.
  - rewrite !length_app in *. done.
Qed.

Lemma insert_shape_wp s F xs ys b db xsa vb xsb old (after : bool) :
  shape s (<[b := link None None db]> F) (xs ++ ys) (xsa ++ xsb) -> length xsa = length xs -> F !! b = None ->
  raw db -> good db vb -> vb <> [] -> neighbour xs ys after old -> Z.of_nat (length (xs ++ ys)) + 1 < 2 ^ 31 + 1 ->
  wp (__quicklistInsertNode junk garbage old b after)
    (fun _ s' => still s s' /\ shape s' F (xs ++ (b, db) :: ys) (xsa ++ vb :: xsb)) s.
Proof.
  intros [C Hg Hr Hne Hq Hroom Hc Hf] Hl Hb Hrb Hgb Hvb Hnb Hlen.
  pose proof (good_calm _ _ Hg) as Hcalm. apply Forall2_app_inv in Hg as [Hx Hy]; [|done].
  assert (nodes_good (xs ++ (b, db) :: ys) (xsa ++ vb :: xsb)) as Hg' by (apply Forall2_app; [done|by constructor]).
  eapply wp_mono; [eapply (insert_node_wp junk garbage Hgarbage s F xs ys b db old after (xsa ++ vb :: xsb) 0); [|done]|].
  { split; try done; [by apply good_held|by apply all_raw_settled|lia]. }
  intros [] s' (ns' & C' & _ & _ & _ & Ec & El & Ef & Ep & H0). rewrite (H0 eq_refl) in *. split; [done|].
  split; rewrite ?Ef, ?Ep; try done.
  - by apply insert_middle_raw.
  - apply Forall_app in Hne as [? ?]. apply Forall_app. split; [done|by apply Forall_cons].
  - rewrite !length_app in *. cbn [length]. lia.
Qed.

Lemma insert_in_node_wp s F xs a d ys vs vs' f z z' (Q : unit -> qstate -> Prop) :
  chain s F (xs ++ (a, d) :: ys) -> raw d -> good d vs -> d_zl d = Some z -> f z = Some z' -> zl_rep z' vs' -> node_fits vs' ->
  length vs' = S (length vs) ->
  (forall s' d', chain s' F (xs ++ (a, d') :: ys) -> ql s' = ql s -> raw d' -> good d' vs' -> Q tt s') ->
  wp (insert_in_node junk garbage a f) Q s.
Proof.
  intros C Hr (Hd & Hc & Hrc) Hz Hf Hrep Hfit Hlen HQ. unfold insert_in_node.
  eapply for_use_skip; [eapply linked_middle, C|done|]. eapply wp_at; [by eapply chain_self|].
  apply wp_bind. eapply on_zl_put; [done|done|]. apply wp_bind. eapply add_count_put. apply wp_bind.
  eapply update_sz_put; [done|done|]. eapply recompress_skip; [apply put_node|done|].
  eapply HQ; [by eapply chain_put|done|done|]. split; [by eapply holds_raw; [| |exact Hrep| |]|]. split; [|done].
  cbn [with_sz with_count with_zl d_count]. rewrite Hc, Hlen, wrapu_small; [lia|]. destruct Hfit as (_ & ? & _). ints.
Qed.

(** The value is counted. *)
Lemma count_one s s0 F ns xss l :
  shape s F ns xss -> still s0 s -> concat xss = l -> count (ql s0) + 1 = Z.of_nat (length l) -> Z.of_nat (length l) < 2 ^ 31 ->
  wp (add_total 1) (fun _ s' => repr_ex s' F 0 l) s.
Proof.
  intros Sh [Ec Ef] <- Hl Hs. wp_step. exists ns, xss. split; [|done]. destruct Sh.
  split; cbn [set_ql ql set_count qlen count compress fill]; try done.
  - by apply chain_ql.
  - by apply all_raw_settled.
  - rewrite Ec, Hl, wrapu_small; ints.
Qed.

(** Where the value goes in the strings of its node. *)
Definition put_in (after : bool) (j : nat) (v : bytes) (vs : list bytes) : list bytes :=
  let i := if after then S j else j in take i vs ++ v :: drop i vs.

Lemma length_put_in after j v vs : length (put_in after j v vs) = S (length vs).
Proof. unfold put_in. cbn zeta. rewrite length_app. cbn [length]. rewrite length_take, length_drop. lia. Qed.

Lemma put_in_not_nil after j v vs : put_in after j v vs <> [].
Proof. intros E. apply (f_equal length) in E. by rewrite length_put_in in E. Qed.

Lemma allow_put_in p n d f v vs after j :
  _quicklistNodeAllowInsert (Some (link p n d)) f (Z.of_nat (length v)) = true -> fill_ok f -> good d vs -> value_ok v ->
  node_fits (put_in after j v vs).
Proof. intros H Hf (Hd & Hc & _) Hv. eapply allow_fits; try done. by rewrite take_drop. Qed.

(** Inserting in the compact list itself. *)
Lemma insert_at z vs j p (after : bool) v :
  zl_cursor z (take j vs) (drop j vs) p -> (j < length vs)%nat -> value_ok v -> node_fits (put_in after j v vs) ->
  exists z', (if after then insert_after junk v p else fun z => ziplistInsert junk z p v) z = Some z' /\ zl_rep z' (put_in after j v vs).
Proof.
  intros Hcur Hj [Hv _] [Hf _]. assert (str_ok v) as Hs by (unfold str_ok; lia).
  destruct after; unfold put_in in *; cbn zeta iota in *.
  - destruct (lookup_lt_is_Some_2 vs j Hj) as [x Hx]. rewrite (drop_S vs x j Hx) in Hcur.
    pose proof (ziplistNext_spec z _ x _ p Hcur) as Hn. unfold insert_after. rewrite <- (take_S_r _ _ _ Hx) in Hn.
    destruct (drop (S j) vs) as [|y ys] eqn:E.
    + rewrite Hn. cbn [mbind option_bind]. pose proof (cursor_rep _ _ _ _ Hcur) as Hrep.
      rewrite (cons_middle x), app_nil_r, <- (take_S_r _ _ _ Hx) in Hrep.
      destruct (ziplistPush_rep junk z (take (S j) vs) v ZIPLIST_TAIL Hrep Hs) as (z' & Hz' & Hr'); [|by exists z'].
      unfold zl_fits in *. rewrite zl_bound_app in Hf. rewrite zl_bound_cons in *. cbn [zl_bound] in Hf. lia.
    + destruct Hn as (q & -> & Hq). cbn [mbind option_bind].
      destruct (ziplistInsert_cursor junk z _ _ q v Hq Hs Hf) as (z' & Hz' & Hc'). exists z'. split; [done|]. by apply cursor_rep in Hc'.
  - destruct (ziplistInsert_cursor junk z _ _ p v Hcur Hs Hf) as (z' & Hz' & Hc'). exists z'. split; [done|]. by apply cursor_rep in Hc'.
Qed.

Definition put_at (i : nat) (v : bytes) (l : list bytes) : list bytes := take i l ++ v :: drop i l.

Lemma put_at_in after j v xsa vs xsb :
  (j < length vs)%nat ->
  concat (xsa ++ put_in after j v vs :: xsb) =
    put_at (length (concat xsa) + (if after then S j else j)) v (concat (xsa ++ vs :: xsb)).
Proof.
  intros Hj. unfold put_at, put_in. rewrite !concat_app. cbn [concat].
  rewrite take_app_add, drop_app_add, take_app_le, drop_app_le by (destruct after; lia). rewrite <- !app_assoc. done.
Qed.

(** The halves and the value, in order. *)
Lemma halves_concat after j vs keep move v xsa xsb :
  halves after j vs keep move ->
  concat (xsa ++ (if after then [keep; v :: move] else [move ++ [v]; keep]) ++ xsb) = concat (xsa ++ put_in after j v vs :: xsb).
Proof.
  intros H. rewrite !concat_app. f_equal. unfold put_in. destruct after, H as [-> ->]; cbn [concat app]; by rewrite <- ?app_assoc, ?app_nil_r.
Qed.

Lemma halves_not_nil after j vs keep move : halves after j vs keep move -> (j < length vs)%nat -> keep <> [].
Proof.
  intros H Hj E. destruct after, H as [-> _]; apply (f_equal length) in E; rewrite ?length_take, ?length_drop in E; cbn [length] in E; lia.
Qed.

(** The value fits next to a half, when it fits in the list. *)
Lemma half_takes after j vs keep move v xsa xsb :
  halves after j vs keep move -> (j < length vs)%nat -> node_fits vs -> value_ok v -> zl_fits (v :: concat (xsa ++ vs :: xsb)) ->
  node_fits (if after then v :: move else move ++ [v]).
Proof.
  intros H Hj Hfit [Hv Hvu] Hall. pose proof (halves_fit _ _ _ _ _ H Hfit) as [_ (Hfm & Hlm & Hum)].
  assert (length move < length vs)%nat as Hlt.
  { destruct after, H as [_ ->]; rewrite ?length_take, ?length_drop; lia. }
  assert (zl_bound move <= zl_bound vs) as Hb.
  { rewrite <- (take_drop (if after then S j else j) vs), zl_bound_app.
    pose proof (zl_bound_count (take (if after then S j else j) vs)). pose proof (zl_bound_count (drop (if after then S j else j) vs)).
    destruct after, H as [_ ->]; lia. }
  pose proof (node_bound xsa vs xsb) as Hn. unfold zl_fits in *. rewrite zl_bound_cons in Hall.
  destruct Hfit as (_ & Hl & _). assert (node_fits (v :: move)) as Hvm.
  { split; [unfold zl_fits; rewrite zl_bound_cons; lia|]. split; [cbn [length]; lia|by constructor]. }
  destruct after; [done|]. by apply (node_fits_comm [v] move).
Qed.

Lemma shape_outside s F F' ns xss s' :
  shape s F ns xss -> chain s' F' ns -> ql s' = ql s -> shape s' F' ns xss.
Proof. intros [] C E. by split; rewrite ?E. Qed.

(** The value is pushed into the new half. *)
Lemma push_outside_wp {B} s F ns b d vs z v (after : bool) (k : M qstate B) (Q : B -> qstate -> Prop) :
  chain s (<[b := link None None d]> F) ns -> raw d -> good d vs -> d_zl d = Some z -> zl_rep z vs -> value_ok v ->
  node_fits (if after then v :: vs else vs ++ [v]) ->
  (forall s' d', chain s' (<[b := link None None d']> F) ns -> ql s' = ql s -> raw d' ->
    good d' (if after then v :: vs else vs ++ [v]) -> wp k Q s') ->
  wp (_ ← on_zl b (fun z => ziplistPush junk z v (if after then ZIPLIST_HEAD else ZIPLIST_TAIL));
      _ ← add_count b 1; _ ← quicklistNodeUpdateSz b; k) Q s.
Proof.
  intros C Hr (Hd & Hc & Hrc) Hz Hrep [Hv Hvu] Hfit HQ.
  destruct (ziplistPush_rep junk z vs v (if after then ZIPLIST_HEAD else ZIPLIST_TAIL) Hrep) as (z' & Hz' & Hrep'); [unfold str_ok; lia| |].
  { destruct after; [apply Hfit|]. by apply node_fits_comm in Hfit as [Hf _]. }
  set (vs' := if after then v :: vs else vs ++ [v]) in *. assert (zl_rep z' vs') as Hr' by (by destruct after).
  assert (length vs' = S (length vs)) as Hl by (unfold vs'; destruct after; [done|rewrite length_app; cbn [length]; lia]).
  destruct (chain_outside _ _ _ _ _ d C) as [E _]. eapply wp_at; [exact E|]. apply wp_bind. eapply on_zl_put; [done|exact Hz'|].
  apply wp_bind. eapply add_count_put. apply wp_bind. eapply update_sz_put; [done|exact Hr'|].
  set (d2 := with_sz _ _). destruct (chain_outside _ _ _ _ _ d2 C) as [_ C']. eapply (HQ _ d2); try done.
  split; [by eapply holds_raw; [| |exact Hr'| |]|]. split; [|done].
  cbn [d2 with_sz with_count with_zl d_count]. rewrite Hc, Hl, wrapu_small; [lia|]. destruct Hfit as (_ & ? & _). ints.
Qed.

Section Insert.
Context (s : qstate) (F : gmap addr quicklistNode) (xs : list (addr * ndata)) (a : addr) (d : ndata) (ys : list (addr * ndata)).
Context (xsa : list (list bytes)) (vs : list bytes) (xsb : list (list bytes)) (j : nat) (v : bytes) (after : bool).
Context (Hshape : shape s F (xs ++ (a, d) :: ys) (xsa ++ vs :: xsb)) (Hl : length xsa = length xs) (Hj : (j < length vs)%nat).
Context (Hv : value_ok v) (Hroom : Z.of_nat (length (xs ++ (a, d) :: ys)) < 2 ^ 31).

Let inserted_in (s' : qstate) : Prop :=
  still s s' /\ exists ns' xss', shape s' F ns' xss' /\ concat xss' = concat (xsa ++ put_in after j v vs :: xsb).

Lemma node_here : raw d /\ good d vs /\ exists z, d_zl d = Some z /\ zl_rep z vs /\ node_fits vs.
Proof.
  pose proof (all_raw_middle _ _ _ _ (sh_raw _ _ _ _ Hshape)) as Hr. pose proof (sh_good _ _ _ _ Hshape) as Hg.
  apply Forall2_app_inv in Hg as [_ Hg]; [|done]. apply Forall2_cons in Hg as [Hd _]. split; [done|]. split; [done|].
  destruct (raw_blob _ _ Hr (proj1 Hd)) as (z & Hz & Hrep & Hfit & _). by exists z.
Qed.

(** A node that takes the value in. *)
Lemma insert_here_wp z p :
  d_zl d = Some z -> zl_cursor z (take j vs) (drop j vs) p -> node_fits (put_in after j v vs) ->
  wp (insert_in_node junk garbage a (if after then insert_after junk v p else fun z => ziplistInsert junk z p v))
    (fun _ => inserted_in) s.
Proof.
  intros Hz Hcur Hfit. destruct node_here as (Hr & Hg & _).
  destruct (insert_at z vs j p after v Hcur Hj Hv Hfit) as (z' & Hz' & Hrep').
  eapply insert_in_node_wp; [apply Hshape|done|done|done|exact Hz'|done|done|apply length_put_in|].
  intros s' d' C E Hr' Hg'. split; [unfold still; by rewrite E|]. eexists _, _. split; [|done].
  eapply shape_change; try done. apply put_in_not_nil.
Qed.

(** A node that is full is split. *)
Lemma insert_split_wp :
  is_u64 (count (ql s)) -> zl_fits (v :: concat (xsa ++ vs :: xsb)) ->
  wp (_ ← quicklistDecompressNodeForUse junk (Some a);
      b ← _quicklistSplitNode junk alloc a (Z.of_nat j) after;
      _ ← on_zl b (fun z => ziplistPush junk z v (if after then ZIPLIST_HEAD else ZIPLIST_TAIL));
      _ ← add_count b 1;
      _ ← quicklistNodeUpdateSz b;
      _ ← __quicklistInsertNode junk garbage (Some a) b after;
      _quicklistMergeNodes junk garbage a) (fun _ => inserted_in) s.
Proof.
  intros Hu Hall. destruct node_here as (Hr & Hg & z & Hz & Hrep & Hfit).
  eapply for_use_skip; [eapply linked_middle, Hshape|done|]. apply wp_bind.
  set (keep := if after then take (S j) vs else drop j vs). set (move := if after then drop (S j) vs else take j vs).
  assert (halves after j vs keep move) as Hh by (by destruct after).
  pose proof (halves_not_nil _ _ _ _ _ Hh Hj) as Hk. pose proof (half_takes _ _ _ _ _ v _ _ Hh Hj Hfit Hv Hall) as Hfit'.
  eapply split_node_wp; [apply Hshape|done|done|done|exact Hh|]. intros b s1 da db zb Hb C1 E1 Hra Hga Hrb Hgb Hzb Hrepb.
  eapply push_outside_wp; try done. intros s2 db' C2 E2 Hrb' Hgb'.
  assert (ql s2 = ql s) as Eq by congruence.
  assert (shape s2 (<[b := link None None db']> F) (xs ++ (a, da) :: ys) (xsa ++ keep :: xsb)) as Sh2.
  { destruct Hshape as [_ Hg0 Hr0 Hne Hq _ Hc Hf]. apply Forall2_app_inv in Hg0 as [Hx Hg0]; [|done].
    apply Forall2_cons in Hg0 as [_ Hy]. split; rewrite ?Eq; try done.
    - apply Forall2_app; [done|]. by constructor.
    - apply insert_middle_raw; [|done]. by eapply delete_middle_raw.
    - apply Forall_app in Hne as [? [_ ?]%Forall_cons]. apply Forall_app. split; [done|by apply Forall_cons].
    - rewrite Hq, !length_app. done.
    - rewrite !length_app in *. cbn [length] in *. lia. }
  apply wp_bind. set (vb := if after then v :: move else move ++ [v]) in *.
  assert (vb <> []) as Hvb by (unfold vb; destruct after; [done|by destruct move]).
  assert (still s s2) as St2 by (unfold still; by rewrite Eq).
  assert (Z.of_nat (length (xs ++ (a, da) :: ys)) + 1 < 2 ^ 31 + 1) as Hroom2 by (rewrite !length_app in *; cbn [length] in *; lia).
  pose proof (halves_concat after j vs keep move v xsa xsb Hh) as Econ.
  destruct after; cbn [app] in Econ.
  - eapply wp_mono; [eapply (insert_shape_wp s2 F (xs ++ [(a, da)]) ys b db' (xsa ++ [keep]) vb xsb (Some a) true); try done|].
    + by rewrite <- !app_assoc.
    + rewrite !length_app. cbn [length]. lia.
    + split; [by rewrite AdlistSpec.seg_last_snoc|done].
    + by rewrite <- app_assoc.
    + intros [] s3 [St3 Sh3]. rewrite <- !app_assoc in Sh3. cbn [app] in Sh3.
      eapply wp_mono; [eapply merge_nodes_wp; [exact Sh3|done|by rewrite (proj1 St3), (proj1 St2)]|].
      intros _ s4 [St4 (ns' & xss' & Sh4 & E4)]. split; [eapply still_trans; [done|by eapply still_trans]|].
      eexists _, _. split; [done|]. by rewrite E4, <- Econ.
  - eapply wp_mono; [eapply (insert_shape_wp s2 F xs ((a, da) :: ys) b db' xsa vb (keep :: xsb) (Some a) false); try done|].
    intros [] s3 [St3 Sh3]. rewrite (cons_middle _ xs), app_assoc, (cons_middle _ xsa), app_assoc in Sh3.
    eapply wp_mono; [eapply merge_nodes_wp; [exact Sh3|rewrite !length_app; cbn [length]; lia|by rewrite (proj1 St3), (proj1 St2)]|].
    intros _ s4 [St4 (ns' & xss' & Sh4 & E4)]. split; [eapply still_trans; [done|by eapply still_trans]|].
    eexists _, _. split; [done|]. by rewrite E4, <- app_assoc, <- Econ.
Qed.

(** The node before takes the value. *)
Lemma insert_prev_wp xs0 b db :
  after = false -> j = 0%nat -> xs = xs0 ++ [(b, db)] ->
  _quicklistNodeAllowInsert (nodes s !! b) (fill (ql s)) (Z.of_nat (length v)) = true ->
  wp (insert_in_node junk garbage b (fun z => ziplistPush junk z v ZIPLIST_TAIL)) (fun _ => inserted_in) s.
Proof.
  intros Ha Hj0 Hxs Hallow. destruct xsa as [|vb xsa0 _] eqn:Exsa using rev_ind; [by subst xs; rewrite length_app in Hl; cbn [length] in Hl; lia|].
  pose proof Hshape as Sh. rewrite Hxs, <- !app_assoc in Sh. cbn [app] in Sh.
  rewrite Hxs, !length_app in Hl. cbn [length] in Hl. assert (length xsa0 = length xs0) as Hl0 by lia.
  pose proof (sh_good _ _ _ _ Sh) as Hg. apply Forall2_app_inv in Hg as [_ Hg]; [|done].
  apply Forall2_cons in Hg as [Hgb _]. cbn [snd] in Hgb.
  pose proof (all_raw_middle _ _ _ _ (sh_raw _ _ _ _ Sh)) as Hrb.
  rewrite (linked_middle _ _ _ _ _ _ (ch_linked _ _ _ (sh_chain _ _ _ _ Sh))) in Hallow.
  destruct (raw_blob _ _ Hrb (proj1 Hgb)) as (z & Hz & Hrep & _ & _).
  pose proof (allow_fits _ _ _ _ _ _ vb [] Hallow (sh_fill _ _ _ _ Sh) (proj1 Hgb) (proj1 (proj2 Hgb)) Hv (eq_sym (app_nil_r _))) as Hfit.
  destruct (ziplistPush_rep junk z vb v ZIPLIST_TAIL Hrep) as (z' & Hz' & Hrep'); [destruct Hv; unfold str_ok; lia| |].
  { apply (node_fits_comm vb [v]) in Hfit as [Hf _]. done. }
  eapply insert_in_node_wp; [apply Sh|done|done|done|exact Hz'|done|done|rewrite length_app; cbn [length]; lia|].
  intros s' d' C E Hr' Hg'. split; [unfold still; by rewrite E|]. eexists _, _. split.
  - eapply shape_change; try done. by destruct vb.
  - subst after j. unfold put_in. rewrite !concat_app. cbn [concat take drop app]. by rewrite app_nil_r, <- !app_assoc.
Qed.

(** A node of its own for the value, before the others. *)
Lemma insert_own_wp :
  after = false -> j = 0%nat ->
  wp (b ← new_node_with junk alloc v; _ ← add_count b 1; _ ← quicklistNodeUpdateSz b;
      __quicklistInsertNode junk garbage (Some a) b false) (fun _ => inserted_in) s.
Proof.
  intros Ha Hj0. apply wp_bind. eapply new_node_with_wp; [done|apply Hshape|done|]. intros b db z Hb C Hr Hz Hrep Hc Hrc.
  apply wp_bind. eapply add_count_put. apply wp_bind. eapply update_sz_put; [done|done|].
  set (d2 := with_sz _ _). destruct (chain_outside _ _ _ _ _ d2 C) as [_ C2]. rewrite put_put in C2.
  assert (good d2 [v]) as Hg2.
  { split; [by eapply holds_raw; [| |exact Hrep|apply single_fits|]|]. split; [|done].
    cbn [d2 with_sz with_count d_count]. by rewrite Hc. }
  eapply wp_mono.
  { eapply (insert_shape_wp _ F xs ((a, d) :: ys) b d2 xsa [v] (vs :: xsb) (Some a) false); try done.
    - by eapply shape_outside.
    - lia. }
  intros [] s' [St Sh]. split; [done|]. eexists _, _. split; [done|].
  subst after j. unfold put_in. rewrite !concat_app. done.
Qed.

End Insert.

Definition insert_place (after : bool) (e : quicklistEntry) (xsa : list (list bytes)) (j : nat) : nat :=
  length (concat xsa) + (if after then S j else j).

Lemma quicklistInsert_wp s F xs a d ys xsa vs xsb j e v (after : bool) :
  repr s F 0 (xs ++ (a, d) :: ys) (xsa ++ vs :: xsb) -> entry_in xs a d xsa vs j e -> 0 <= offset e -> value_ok v ->
  Z.of_nat (length (concat (xsa ++ vs :: xsb))) + 1 < 2 ^ 31 -> zl_fits (v :: concat (xsa ++ vs :: xsb)) ->
  wp (_quicklistInsert junk garbage alloc e v after)
    (fun _ s' => repr_ex s' F 0 (put_at (insert_place after e xsa j) v (concat (xsa ++ vs :: xsb)))) s.
Proof.
  intros R [Hl Ea Eo (z & p & Hz & Ezi & Hcur) _] Hoff Hv Hsm Hall. pose proof (resolve_index_lt _ _ _ Eo) as Hj.
  pose proof (repr_shape _ _ _ _ R) as Sh. pose proof (list_repr_length _ _ _ _ _ R) as [_ Hroom].
  assert (offset e = Z.of_nat j) as Ej.
  { unfold resolve_index in Eo. repeat case_match; try done; simplify_eq; lia. }
  destruct (node_here s F xs a d ys xsa vs xsb Sh Hl) as (Hr & Hg & _).
  assert (is_u64 (count (ql s))) as Hu by (rewrite (rp_count _ _ _ _ _ R); ints).
  unfold _quicklistInsert. wp_step. cbn zeta. rewrite Ea. apply wp_bind.
  pose proof (linked_middle _ _ _ _ _ _ (ch_linked _ _ _ (rp_chain _ _ _ _ _ R))) as Hna.
  eapply get_node_wp; [done|]. cbn [link ncount nnext nprev]. rewrite (proj1 (proj2 Hg)), Ej.
  rewrite (proj2 (Z.eqb_neq (Z.of_nat j) _)) by lia. rewrite andb_false_r. cbn [andb].
  wp_step. apply wp_bind.
  eapply wp_mono with (Q := fun pn s' => s' = s /\ (negb after && (Z.of_nat j =? 0) = true -> pn = last_ None xs ≫= (nodes s !!.))).
  { destruct (negb after && (Z.of_nat j =? 0)); [|by apply wp_ret]. eapply get_opt_last; [apply R|done|done]. }
  intros pn ? [-> Hpn]. apply wp_bind. eapply wp_mono with (Q := fun _ s' => still s s' /\ exists ns' xss',
    shape s' F ns' xss' /\ concat xss' = concat (xsa ++ put_in after j v vs :: xsb)).
  - destruct (_quicklistNodeAllowInsert (Some _) (fill (ql s)) _) eqn:Hallow; cbn [negb andb orb].
    + assert (node_fits (put_in after j v vs)) as Hfit by (eapply allow_put_in; [exact Hallow|apply R|done|done]).
      pose proof (insert_here_wp s F xs a d ys xsa vs xsb j v after Sh Hl Hj Hv z p Hz Hcur Hfit) as W.
      destruct after; cbn [negb]; (apply wp_bind; eapply wp_lift; [done|]; exact W).
    + pose proof (insert_split_wp s F xs a d ys xsa vs xsb j v after Sh Hl Hj Hv Hroom Hu Hall) as W.
      destruct after; cbn [negb andb orb] in *; [exact W|]. rewrite !andb_true_r.
      destruct (Z.eqb_spec (Z.of_nat j) 0) as [Hj0|Hj0]; cbn [andb orb]; [|exact W].
      assert (j = 0%nat) as Hj0' by lia. rewrite (Hpn eq_refl).
      destruct xs as [|[b db] xs0 _] eqn:Exs using rev_ind; [exact W|]. rewrite AdlistSpec.seg_last_snoc.
      rewrite bool_decide_true by done. cbn [andb mbind option_bind]. rewrite <- Exs in *.
      destruct (_quicklistNodeAllowInsert (nodes s !! b) _ _) eqn:Hprev; cbn [negb andb].
      * apply wp_bind. eapply wp_lift; [done|]. by eapply (insert_prev_wp s F xs a d ys xsa vs xsb j v false Sh Hl Hj Hv Hroom xs0 b db).
      * by eapply (insert_own_wp s F xs a d ys xsa vs xsb j v false Sh Hl Hj Hv Hroom).
  - intros [] s' [St (ns' & xss' & Sh' & E')]. pose proof (put_at_in after j v xsa vs xsb Hj) as Ep.
    pose proof (rp_count _ _ _ _ _ R) as Hcount.
    assert (length (concat (xsa ++ put_in after j v vs :: xsb)) = S (length (concat (xsa ++ vs :: xsb)))) as Elen.
    { rewrite !concat_app. cbn [concat]. rewrite !length_app, length_put_in. lia. }
    unfold insert_place. rewrite <- Ep. eapply count_one; [done|done|done| |]; rewrite Elen; [rewrite Hcount|]; lia.
Qed.

End Edit.

End QuicklistEdit.
