(* ===== verification/QuicklistRange.v ===== *)
(** * Ranges, iteration and rotation of lists of compact lists (src/quicklist.c)

    Deleting a range that starts at the head or is counted from the tail,
    walking over a list in both directions, rotating, and giving a list
    back. *)

From S2P Require Import Prelude Util Ziplist ZiplistSpec Lzf LzfSpec Adlist AdlistSpec Monad Quicklist QuicklistSpec QuicklistOps QuicklistEdit.
Import Util Ziplist ZiplistSpec Monad Quicklist QuicklistSpec QuicklistOps QuicklistEdit.

Module QuicklistRange.

Implicit Types (a b : addr) (d : ndata) (s : qstate) (h F : gmap addr quicklistNode)
  (z : bytes) (xss : list (list bytes)).

Section Range.
Context (junk : nat -> Z) (garbage : Z -> Z) (alloc : gset addr -> addr).
Context (Hgarbage : forall i, is_u32 (garbage i)) (Halloc : forall X, alloc X ∉ X).

(** ** Deleting a range *)

Lemma repr_drop_node s F xs a d ys xsa vs xsb (Q : unit -> qstate -> Prop) :
  repr s F 0 (xs ++ (a, d) :: ys) (xsa ++ vs :: xsb) -> length xsa = length xs ->
  (forall s', repr s' F 0 (xs ++ ys) (xsa ++ xsb) -> Q tt s') ->
  wp (__quicklistDelNode junk garbage a) Q s.
Proof.
  intros R Hl HQ. destruct (repr_node _ _ _ _ _ _ _ _ _ _ R Hl) as (Hx & (_ & Hc & _) & Hy).
  pose proof (repr_shape _ _ _ _ R) as Sh. destruct Sh as [C _ Hr Hne Hq Hroom Hcomp Hf].
  assert (Forall (fun xs => xs <> []) (xsa ++ xsb)) as Hne'.
  { apply Forall_app in Hne as [? [_ ?]%Forall_cons]. by apply Forall_app. }
  assert (Z.of_nat (length (concat (xsa ++ vs :: xsb))) = Z.of_nat (length (concat (xsa ++ xsb))) + Z.of_nat (length vs)) as El.
  { rewrite !concat_app. cbn [concat]. rewrite !length_app. lia. }
  pose proof (rp_small _ _ _ _ _ R) as Hsm. pose proof (rp_count _ _ _ _ _ R) as Hcount.
  eapply (drop_node_wp junk garbage Hgarbage s F xs a d ys (xsa ++ xsb)); try done; [by apply Forall2_app|].
  intros s' Sh' Ec _. apply HQ. apply shape_repr; [done| |lia].
  rewrite Ec, Hc, Hcount, El, wrapu_small; ints.
Qed.

(** Some of the strings of a node are deleted; the node goes with the last
    one. *)
Definition cut_node (s' : qstate) F (xs ys : list (addr * ndata)) (xsa : list (list bytes)) (vs' : list bytes) xsb : Prop :=
  exists mid mids, repr s' F 0 (xs ++ mid ++ ys) (xsa ++ mids ++ xsb) /\ concat mids = vs' /\ length mids = length mid.

Lemma cut_node_wp s F xs a d ys xsa vs xsb vs' f z z' n :
  repr s F 0 (xs ++ (a, d) :: ys) (xsa ++ vs :: xsb) -> length xsa = length xs -> d_zl d = Some z ->
  f z = Some z' -> zl_rep z' vs' -> node_fits vs' -> Z.of_nat (length vs) = Z.of_nat (length vs') + n -> 0 <= n ->
  wp (_ ← quicklistDecompressNodeForUse junk (Some a);
      _ ← on_zl a f;
      _ ← quicklistNodeUpdateSz a;
      _ ← add_count a (- n);
      _ ← add_total (- n);
      gone ← quicklistDeleteIfEmpty junk garbage a;
      if (gone : bool) then skip else quicklistRecompressOnly junk garbage a)
    (fun _ s' => cut_node s' F xs ys xsa vs' xsb) s.
Proof.
  intros R Hl Hz Hf Hrep Hfit Hn Hn0. pose proof (all_raw_middle _ _ _ _ (repr_raw _ _ _ _ R)) as Hr.
  destruct (repr_node _ _ _ _ _ _ _ _ _ _ R Hl) as (Hx & (Hd & Hc & Hrc) & Hy). pose proof (rp_chain _ _ _ _ _ R) as C.
  pose proof (rp_small _ _ _ _ _ R) as Hsm. pose proof (rp_count _ _ _ _ _ R) as Hcount.
  assert (Z.of_nat (length (concat (xsa ++ vs :: xsb))) = Z.of_nat (length (concat (xsa ++ vs' :: xsb))) + n) as El.
  { rewrite !concat_app. cbn [concat]. rewrite !length_app. lia. }
  eapply for_use_skip; [eapply linked_middle, C|done|]. eapply wp_at; [by eapply chain_self|].
  apply wp_bind. eapply on_zl_put; [done|done|]. apply wp_bind. eapply update_sz_put; [done|done|].
  apply wp_bind. eapply add_count_put. set (d2 := with_count _ _).
  assert (d_count d2 = Z.of_nat (length vs')) as Hc2.
  { cbn [d2 with_count d_count with_sz with_zl]. rewrite Hc, Hn, wrapu_small; [lia|]. destruct Hfit as (_ & ? & _). ints. }
  assert (good d2 vs') as Hg2 by (split; [by eapply holds_raw; [| |exact Hrep| |]|done]).
  pose proof (chain_put s F xs a d d2 ys C) as C2. wp_step. set (s2 := set_ql _ _).
  assert (chain s2 F (xs ++ (a, d2) :: ys)) as C2' by by apply chain_ql.
  apply wp_bind. unfold quicklistDeleteIfEmpty. apply wp_bind. eapply get_node_wp; [apply put_node|]. cbn [link ncount].
  rewrite Hc2. destruct vs' as [|v vs'].
  - cbn [length]. change (Z.of_nat 0 =? 0) with true. cbn iota. apply wp_bind.
    destruct (repr_shape _ _ _ _ R) as [_ _ Hraw Hne Hq Hroom Hcomp Hfl].
    assert (Forall (fun xs => xs <> []) (xsa ++ xsb)) as Hne' by (apply Forall_app in Hne as [? [_ ?]%Forall_cons]; by apply Forall_app).
    assert (length (concat (xsa ++ [] :: xsb)) = length (concat (xsa ++ xsb))) as E0 by by rewrite !concat_app.
    eapply (drop_node_wp junk garbage Hgarbage s2 F xs a d2 ys (xsa ++ xsb)); try done.
    + by apply Forall2_app.
    + apply insert_middle_raw; [|done]. by eapply delete_middle_raw.
    + rewrite length_app in *. done.
    + rewrite length_app in *. done.
    + intros s' Sh' Ec _. apply wp_ret, wp_skip. exists [], []. split; [|done]. apply shape_repr; [done| |cbn [app]; lia].
      rewrite Ec, Hc2. cbn [s2 set_ql ql set_count count put set_nodes length app]. rewrite Hcount, El, Z.sub_0_r, E0.
      rewrite (wrapu_small 64 (_ + _)) by ints. rewrite wrapu_small; ints.
  - rewrite (proj2 (Z.eqb_neq _ _)) by (cbn [length]; lia). apply wp_ret.
    eapply recompress_skip; [apply put_node|done|]. exists [(a, d2)], [v :: vs']. split; [|split; [cbn [concat]; by rewrite app_nil_r|done]].
    eapply (repr_change s); try done; [|lia]. cbn [s2 set_ql ql set_count count put set_nodes]. rewrite Hcount, El, wrapu_small; ints.
Qed.

Lemma node_fits_cut_range vs j n : node_fits vs -> node_fits (take j vs ++ drop (j + n) vs).
Proof.
  intros Hfit. pose proof (node_fits_cut vs j Hfit) as [(Hf1 & _ & Hu1) _]. pose proof (node_fits_cut vs (j + n) Hfit) as [_ (Hf2 & _ & Hu2)].
  destruct Hfit as (Hf & Hl & Hu). unfold zl_fits in *.
  rewrite <- (take_drop j vs), zl_bound_app in Hf. rewrite <- (take_drop n (drop j vs)), drop_drop, zl_bound_app in Hf.
  pose proof (zl_bound_count (take n (drop j vs))).
  split; [unfold zl_fits; rewrite zl_bound_app; lia|]. split; [|by apply Forall_app].
  rewrite length_app, length_take, length_drop. lia.
Qed.

(** A part of a node, in the words of [quicklistDelRange]. *)
Lemma cut_range_wp s F xs a d ys xsa vs xsb off j n :
  repr s F 0 (xs ++ (a, d) :: ys) (xsa ++ vs :: xsb) -> length xsa = length xs -> is_int off ->
  resolve_index (length vs) off = Some j -> (j + n <= length vs)%nat ->
  wp (_ ← quicklistDecompressNodeForUse junk (Some a);
      _ ← on_zl a (fun z => delete_range junk z off (Z.of_nat n));
      _ ← quicklistNodeUpdateSz a;
      _ ← add_count a (- Z.of_nat n);
      _ ← add_total (- Z.of_nat n);
      gone ← quicklistDeleteIfEmpty junk garbage a;
      if (gone : bool) then skip else quicklistRecompressOnly junk garbage a)
    (fun _ s' => cut_node s' F xs ys xsa (take j vs ++ drop (j + n) vs) xsb) s.
Proof.
  intros R Hl Hoff Hj Hn. destruct (repr_node _ _ _ _ _ _ _ _ _ _ R Hl) as (_ & (Hd & _) & _).
  destruct (raw_blob _ _ (all_raw_middle _ _ _ _ (repr_raw _ _ _ _ R)) Hd) as (z & Hz & Hrep & Hfit & _).
  destruct (delete_range_spec junk z vs off (Z.of_nat n) Hrep (proj1 Hfit) Hoff) as (z' & Hz' & Hrep').
  rewrite Hj in Hrep'. pose proof (rep_size _ _ Hrep) as Hsz.
  assert (Z.to_nat (Z.min (u32 (Z.of_nat n)) (Z.of_nat (length z))) = n) as En.
  { destruct Hfit as (_ & ? & _). rewrite wrapu_small by ints. lia. }
  rewrite En in Hrep'. eapply cut_node_wp; [done|done|done|exact Hz'|done|by apply node_fits_cut_range| |lia].
  rewrite length_app, length_take, length_drop. lia.
Qed.

(** From the head of a node on. *)
Lemma range_loop_wp F : forall fuel s xs ys xsa xsb n,
  repr s F 0 (xs ++ ys) (xsa ++ xsb) -> length xsa = length xs -> (n <= length (concat xsb))%nat -> (length ys <= fuel)%nat ->
  wp (range_loop junk garbage fuel (first ys None) 0 (Z.of_nat n))
    (fun _ s' => repr_ex s' F 0 (concat xsa ++ drop n (concat xsb))) s.
Proof.
  induction fuel as [|fuel IH]; intros s xs ys xsa xsb n R Hl Hn Hfuel.
  all: pose proof (proj1 (list_repr_length _ _ _ _ _ R)) as Hlen; rewrite !length_app in Hlen.
  all: cbn [range_loop]; destruct (Z.eqb_spec (Z.of_nat n) 0) as [Hn0|Hn0];
    [apply wp_skip; exists (xs ++ ys), (xsa ++ xsb); split; [done|]; rewrite concat_app; replace n with 0%nat by lia; done|].
  { destruct ys; [|cbn [length] in Hfuel; lia]. destruct xsb; [|cbn [length] in Hlen; lia]. cbn [concat length] in Hn. lia. }
  destruct ys as [|[a d] ys]; [destruct xsb; [|cbn [length] in Hlen; lia]; cbn [concat length] in Hn; lia|].
  destruct xsb as [|vs xsb]; [cbn [length] in Hlen; lia|]. cbn [concat length] in *. rewrite length_app in Hn.
  destruct (repr_node _ _ _ _ _ _ _ _ _ _ R Hl) as (_ & (Hd & Hc & _) & _).
  pose proof Hd as (_ & _ & _ & (_ & Hfitl & _) & _).
  pose proof (rp_small _ _ _ _ _ R) as Hsm. rewrite concat_app in Hsm. cbn [concat] in Hsm. rewrite !length_app in Hsm.
  apply wp_bind. eapply wp_lift; [done|]. apply wp_bind. eapply get_node_wp; [eapply linked_middle, R|]. cbn [link nnext ncount].
  unfold range_part. cbn [link ncount]. rewrite Hc. change (0 =? 0) with true. cbn [andb]. rewrite Z.geb_leb.
  destruct (Z.leb_spec (Z.of_nat (length vs)) (Z.of_nat n)) as [Hall|Hpart]; cbn beta iota zeta.
  - apply wp_bind. eapply repr_drop_node; [done|done|]. intros s' R'.
    replace (u64 (Z.of_nat n - Z.of_nat (length vs))) with (Z.of_nat (n - length vs)) by (rewrite wrapu_small; ints).
    rewrite drop_app_ge by lia. eapply IH; [done|done|lia|lia].
  - change (0 >=? 0) with true. change (0 <? 0) with false. cbn [andb].
    apply wp_bind. eapply wp_mono; [eapply (cut_range_wp s F xs a d ys xsa vs xsb 0 0 n); try done|].
    + unfold resolve_index. change (0 <? 0) with false. cbn iota. by rewrite (proj2 (Z.ltb_lt _ _)) by lia.
    + lia.
    + intros [] s' (mid & mids & R' & Em & Elm). rewrite Z.sub_diag. change (u64 0) with 0.
      destruct fuel; cbn [range_loop]; change (0 =? 0) with true; cbn iota; apply wp_skip;
        (eexists _, _; split; [exact R'|]; rewrite !concat_app, Em; cbn [take app]; rewrite Nat.add_0_l, drop_app_le by lia; done).
Qed.

(** Deleting [cnt] strings from an index on. *)
Definition del_range (start cnt : Z) (l : list bytes) : bool * list bytes :=
  if cnt <=? 0 then (false, l)
  else match resolve_index (length l) start with
       | Some i => (true, take i l ++ drop (i + Z.to_nat cnt) l)
       | None => (false, l)
       end.

(** From the end of the list: the first node loses its tail. *)
Lemma range_tail_wp F fuel s xs a d ys xsa vs xsb off j n :
  repr s F 0 (xs ++ (a, d) :: ys) (xsa ++ vs :: xsb) -> length xsa = length xs -> off < 0 ->
  resolve_index (length vs) off = Some j -> (0 < n <= length vs - j + length (concat xsb))%nat -> (length ys <= fuel)%nat ->
  wp (range_loop junk garbage (S fuel) (Some a) off (Z.of_nat n))
    (fun _ s' => repr_ex s' F 0 (concat xsa ++ take j vs ++ drop (j + n) (vs ++ concat xsb))) s.
Proof.
  intros R Hl Hoff Hj Hn Hfuel. pose proof (resolve_index_lt _ _ _ Hj) as Hjl.
  destruct (repr_node _ _ _ _ _ _ _ _ _ _ R Hl) as (_ & (Hd & Hc & _) & _). pose proof Hd as (_ & _ & _ & (_ & Hfitl & _) & _).
  pose proof (rp_small _ _ _ _ _ R) as Hsm. rewrite concat_app in Hsm. cbn [concat] in Hsm. rewrite !length_app in Hsm.
  assert (off = Z.of_nat j - Z.of_nat (length vs)) as Eoff.
  { unfold resolve_index in Hj. repeat case_match; try done; simplify_eq; lia. }
  cbn [range_loop]. rewrite (proj2 (Z.eqb_neq (Z.of_nat n) 0)) by lia.
  apply wp_bind. eapply wp_lift; [done|]. apply wp_bind. eapply get_node_wp; [eapply linked_middle, R|]. cbn [link nnext ncount].
  unfold range_part. assert ((off =? 0) = false /\ (off >=? 0) = false /\ (off <? 0) = true) as (-> & -> & ->) by lia. cbn [andb].
  assert (exists k, (if u64 (- off) >? Z.of_nat n then Z.of_nat n else u64 (- off)) = Z.of_nat k /\ k = Nat.min n (length vs - j)) as (k & -> & Ek).
  { exists (Nat.min n (length vs - j)). split; [|done]. rewrite wrapu_small by ints. destruct (Z.gtb_spec (- off) (Z.of_nat n)); lia. }
  cbn beta iota zeta. apply wp_bind. eapply wp_mono; [eapply (cut_range_wp s F xs a d ys xsa vs xsb off j k); try done; [ints|lia]|].
  intros [] s' (mid & mids & R' & Em & Elm). rewrite wrapu_small by ints.
  replace (Z.of_nat n - Z.of_nat k) with (Z.of_nat (n - k)) by lia. rewrite !app_assoc in R'.
  eapply wp_mono; [eapply (range_loop_wp F fuel s' (xs ++ mid) ys (xsa ++ mids) xsb (n - k) R')|].
  - rewrite !length_app. lia.
  - lia.
  - done.
  - intros [] s2 R2. rewrite concat_app, Em, <- !app_assoc in R2.
    destruct (decide (n <= length vs - j)%nat) as [Hle|Hgt].
    + replace k with n in R2 by lia. rewrite Nat.sub_diag in R2. by rewrite (drop_app_le vs) by lia.
    + replace k with (length vs - j)%nat in R2 by lia. rewrite (drop_ge vs) in R2 by lia.
      rewrite drop_app_ge by lia. cbn [app] in R2. by replace (j + n - length vs)%nat with (n - (length vs - j))%nat by lia.
Qed.

Lemma quicklistDelRange_wp s F ns xss start cnt :
  repr s F 0 ns xss -> is_llong start -> is_llong cnt -> start <= 0 ->
  wp (quicklistDelRange junk garbage start cnt)
    (fun r s' => r = (del_range start cnt (concat xss)).1 /\ repr_ex s' F 0 (del_range start cnt (concat xss)).2) s.
Proof.
  intros R Hs Hc Hle. unfold quicklistDelRange, del_range.
  destruct (Z.leb_spec cnt 0) as [|Hpos]; [apply wp_ret; split; [done|]; by exists ns, xss|].
  wp_step. cbn zeta. pose proof (rp_count _ _ _ _ _ R) as Hcount. pose proof (rp_small _ _ _ _ _ R) as Hsm.
  apply wp_bind. eapply wp_mono; [by eapply quicklistIndex_wp|]. intros r s' [-> H].
  destruct (resolve_index (length (concat xss)) start) as [i|] eqn:Ei; [|subst r; apply wp_ret; split; [done|]; by exists ns, xss].
  destruct H as (xs & a & d & ys & xsa & vs & xsb & j & e & -> & -> & -> & He & Eij & Hsign).
  pose proof He as [Hl Ea Eo _ _]. pose proof (resolve_index_lt _ _ _ Eo) as Hj. pose proof (resolve_index_lt _ _ _ Ei) as Hi.
  rewrite (rp_qlen _ _ _ _ _ R), Nat2Z.id, Ea, Hcount. cbn [fst snd].
  assert (length (concat (xsa ++ vs :: xsb)) = length (concat xsa) + (length vs + length (concat xsb)))%nat as El
    by (rewrite concat_app; cbn [concat]; by rewrite !length_app).
  apply wp_bind. eapply wp_mono with (Q := fun _ s' => repr_ex s' F 0 (take i (concat (xsa ++ vs :: xsb)) ++ drop (i + Z.to_nat cnt) (concat (xsa ++ vs :: xsb))));
    [|intros [] s' HR; by apply wp_ret].
  set (l := concat (xsa ++ vs :: xsb)) in *.
  assert (exists n, (if (start >=? 0) && (cnt >? u64 (Z.of_nat (length l) - start)) then u64 (Z.of_nat (length l) - start)
      else if (start <? 0) && (cnt >? u64 (- start)) then u64 (- start) else cnt) = Z.of_nat n /\
      n = Nat.min (Z.to_nat cnt) (length l - i)) as (n & -> & En).
  { exists (Nat.min (Z.to_nat cnt) (length l - i)). split; [|done]. unfold resolve_index in Ei.
    destruct (Z.ltb_spec start 0) as [Hneg|Hz];
      [assert ((start >=? 0) = false) as -> by lia|assert ((start >=? 0) = true) as -> by lia];
      cbn [andb]; case_match; try done; simplify_eq; rewrite wrapu_small by ints.
    - destruct (Z.gtb_spec cnt (- start)); lia.
    - destruct (Z.gtb_spec cnt (Z.of_nat (length l) - start)); lia. }
  assert (take i l ++ drop (i + Z.to_nat cnt) l = take i l ++ drop (i + n) l) as ->.
  { f_equal. rewrite En. destruct (decide (Z.to_nat cnt <= length l - i)%nat); [do 2 f_equal; lia|]. by rewrite !drop_ge by lia. }
  assert (length (xs ++ (a, d) :: ys) = S (length (xs ++ ys))) as -> by (rewrite !length_app; cbn [length]; lia).
  destruct (decide (start = 0)) as [->|Hneg].
  - assert (i = 0%nat) as -> by (unfold resolve_index in Ei; repeat case_match; simplify_eq; lia).
    assert (j = 0%nat) as -> by lia. pose proof (rp_nonempty _ _ _ _ _ R) as Hne. apply Forall_app in Hne as [Hne _].
    pose proof (concat_length_ge _ Hne) as Hge. destruct xsa; [|cbn [length] in *; lia]. destruct xs; [|done].
    assert (offset e = 0) as -> by (unfold resolve_index in Eo; repeat case_match; simplify_eq; lia).
    eapply wp_mono; [eapply (range_loop_wp F _ s [] ((a, d) :: ys) [] (vs :: xsb) n); try done|].
    { change (concat (vs :: xsb)) with l. lia. }
    by intros [] s'.
  - assert (offset e < 0) as Hoff by (destruct Hsign as [_ Hsign]; lia).
    eapply wp_mono; [eapply (range_tail_wp F _ s xs a d ys xsa vs xsb (offset e) j n); try done; [lia|rewrite length_app; lia]|].
    intros [] s' R'. unfold l. rewrite concat_app. cbn [concat]. rewrite Eij, <- Nat.add_assoc, take_app_add, drop_app_add, take_app_le by lia.
    by rewrite <- app_assoc.
Qed.

(** ** Walking over a list *)

(** The iterator gives the string number [i] of the list next: it stands
    before a node, or on an entry. *)
Definition before_node (ns : list (addr * ndata)) xss (it : quicklistIter) (i : nat) : Prop :=
  exists xs ys xsa xsb, ns = xs ++ ys /\ xss = xsa ++ xsb /\ length xsa = length xs /\
    it = QuicklistIter (first ys None) None 0 AL_START_HEAD /\ i = length (concat xsa).

Definition on_entry (ns : list (addr * ndata)) xss (dir : Z) (it : quicklistIter) (i : nat) : Prop :=
  exists xs a d ys xsa vs xsb j z p o, ns = xs ++ (a, d) :: ys /\ xss = xsa ++ vs :: xsb /\ length xsa = length xs /\
    (j < length vs)%nat /\ d_zl d = Some z /\ zl_cursor z (take j vs) (drop j vs) p /\
    it = QuicklistIter (Some a) (Some p) o dir /\ i = (length (concat xsa) + j)%nat.

(** The entry that is given. *)
Definition gives (l : list bytes) (i : nat) (e : option quicklistEntry) : Prop :=
  match e with Some e => value_bytes <$> evalue e = l !! i /\ (i < length l)%nat | None => (length l <= i)%nat end.

Lemma entry_value z (vs : list bytes) j p :
  zl_cursor z (take j vs) (drop j vs) p -> (j < length vs)%nat ->
  exists v x, ziplistGet z p = Some (Some v) /\ value_bytes v = x /\ vs !! j = Some x.
Proof.
  intros Hcur Hj. destruct (lookup_lt_is_Some_2 vs j Hj) as [x Hx]. rewrite (drop_S vs x j Hx) in Hcur.
  destruct (ziplistGet_spec _ _ _ _ _ Hcur) as (v & Hv & Ev). by exists v, x.
Qed.

Lemma concat_lookup xsa (vs : list bytes) xsb j :
  (j < length vs)%nat -> concat (xsa ++ vs :: xsb) !! (length (concat xsa) + j)%nat = vs !! j.
Proof.
  intros Hj. rewrite concat_app, lookup_app_r by lia. cbn [concat].
  replace (length (concat xsa) + j - length (concat xsa))%nat with j by lia. by rewrite lookup_app_l.
Qed.

Lemma node_blob s F xs a d ys xsa vs xsb :
  repr s F 0 (xs ++ (a, d) :: ys) (xsa ++ vs :: xsb) -> length xsa = length xs ->
  raw d /\ d_recompress d = false /\ vs <> [] /\ exists z, d_zl d = Some z /\ zl_rep z vs.
Proof.
  intros R Hl. pose proof (all_raw_middle _ _ _ _ (repr_raw _ _ _ _ R)) as Hr.
  destruct (repr_node _ _ _ _ _ _ _ _ _ _ R Hl) as (_ & (Hd & _ & Hrc) & _).
  pose proof (rp_nonempty _ _ _ _ _ R) as Hne. apply Forall_app in Hne as [_ [Hne _]%Forall_cons].
  destruct (raw_blob _ _ Hr Hd) as (z & Hz & Hrep & _). split_and!; try done. by exists z.
Qed.

(** The entry that is reached in a node. *)
Lemma reach_wp {B} s F xs a d ys xsa vs xsb j z p o (dir : Z) (k : quicklistIter * option quicklistEntry -> M qstate B) (Q : B -> qstate -> Prop) :
  repr s F 0 (xs ++ (a, d) :: ys) (xsa ++ vs :: xsb) -> length xsa = length xs -> (j < length vs)%nat -> d_zl d = Some z ->
  zl_cursor z (take j vs) (drop j vs) p ->
  (forall it e, on_entry (xs ++ (a, d) :: ys) (xsa ++ vs :: xsb) dir it (length (concat xsa) + j) ->
    gives (concat (xsa ++ vs :: xsb)) (length (concat xsa) + j) (Some e) -> wp (k (it, Some e)) Q s) ->
  wp (z ← node_zl a; v ← lift (ziplistGet z p);
      k (QuicklistIter (Some a) (Some p) o dir, Some (QuicklistEntry (Some a) (Some p) v (s32 o)))) Q s.
Proof.
  intros R Hl Hj Hz Hcur HQ. destruct (entry_value _ _ _ _ Hcur Hj) as (v & x & Hv & Ev & Hx).
  apply wp_bind. eapply wp_at; [eapply chain_self, R|]. eapply node_zl_put; [done|].
  rewrite <- (chain_self _ _ _ _ _ _ (rp_chain _ _ _ _ _ R)). apply wp_bind. eapply wp_lift; [done|]. apply HQ.
  - by exists xs, a, d, ys, xsa, vs, xsb, j, z, p, o.
  - split; [cbn [evalue]; rewrite concat_lookup, Hx by done; cbn; by rewrite Ev|].
    rewrite concat_app. cbn [concat]. rewrite !length_app. lia.
Qed.

(** What a step of the iterator does when the string number [i] is next. *)
Definition stepped (ns : list (addr * ndata)) xss (s : qstate) (i : nat) (r : quicklistIter * option quicklistEntry) s' : Prop :=
  s' = s /\ gives (concat xss) i r.2 /\ (r.2 <> None -> on_entry ns xss AL_START_HEAD r.1 i).

Lemma next_fresh_wp s F ns xss it i fuel :
  repr s F 0 ns xss -> before_node ns xss it i ->
  wp (quicklistNext junk garbage fuel it)
    (stepped ns xss s i) s.
Proof.
  intros R (xs & ys & xsa & xsb & -> & -> & Hl & -> & ->). unfold stepped. pose proof (proj1 (list_repr_length _ _ _ _ _ R)) as Hlen.
  rewrite !length_app in Hlen. destruct ys as [|[a d] ys].
  { destruct fuel; cbn [quicklistNext AdlistSpec.first current]; apply wp_ret; (split; [done|]; split; [|done]);
      (destruct xsb; [|cbn [length] in *; lia]); cbn [gives snd]; rewrite app_nil_r; done. }
  destruct xsb as [|vs xsb]; [cbn [length] in *; lia|].
  destruct (node_blob _ _ _ _ _ _ _ _ _ R Hl) as (Hr & _ & Hne & z & Hz & Hrep).
  assert (0 < length vs)%nat as Hvs by (destruct vs; [done|cbn [length]; lia]).
  assert (exists p, ziplistIndex z 0 = Some (Some p) /\ zl_cursor z (take 0 vs) (drop 0 vs) p) as (p & Hp & Hcur).
  { pose proof (ziplistIndex_spec z vs 0 Hrep) as Hi. unfold resolve_index in Hi. change (0 <? 0) with false in Hi. cbn iota in Hi.
    by rewrite (proj2 (Z.ltb_lt _ _)) in Hi by lia. }
  pose proof (rp_chain _ _ _ _ _ R) as C.
  assert (forall fuel, wp (quicklistNext junk garbage fuel (QuicklistIter (Some a) None 0 AL_START_HEAD))
    (fun r s' => s' = s /\ gives (concat (xsa ++ vs :: xsb)) (length (concat xsa)) r.2 /\
      (r.2 <> None -> on_entry (xs ++ (a, d) :: ys) (xsa ++ vs :: xsb) AL_START_HEAD r.1 (length (concat xsa)))) s) as H; [|apply H].
  intros f. destruct f; cbn [quicklistNext current izi ioffset direction]; apply wp_bind.
  all: eapply for_use_skip; [eapply linked_middle, C|done|].
  all: apply wp_bind; (eapply wp_at; [eapply chain_self, C|]); (eapply node_zl_put; [done|]); rewrite <- (chain_self _ _ _ _ _ _ C).
  all: apply wp_bind; (eapply wp_lift; [done|]); apply wp_ret; cbn beta iota.
  all: eapply (reach_wp s F xs a d ys xsa vs xsb 0 z p 0 _ mret); try done.
  all: intros it e Hon Hg; rewrite Nat.add_0_r in *; apply wp_ret; split; [done|]; split; [done|]; intros _; done.
Qed.

Lemma next_on_wp s F ns xss it i fuel :
  repr s F 0 ns xss -> on_entry ns xss AL_START_HEAD it i ->
  wp (quicklistNext junk garbage (S fuel) it) (stepped ns xss s (S i)) s.
Proof.
  intros R (xs & a & d & ys & xsa & vs & xsb & j & z & p & o & -> & -> & Hl & Hj & Hz & Hcur & -> & ->).
  destruct (lookup_lt_is_Some_2 vs j Hj) as [x Hx]. rewrite (drop_S vs x j Hx) in Hcur.
  pose proof (ziplistNext_spec z _ x _ p Hcur) as Hn. rewrite <- (take_S_r _ _ _ Hx) in Hn.
  pose proof (rp_chain _ _ _ _ _ R) as C. destruct (node_blob _ _ _ _ _ _ _ _ _ R Hl) as (Hr & Hrc & _).
  cbn [quicklistNext current izi ioffset direction]. apply wp_bind.
  apply wp_bind. (eapply wp_at; [eapply chain_self, C|]). (eapply node_zl_put; [done|]). rewrite <- (chain_self _ _ _ _ _ _ C).
  change (AL_START_HEAD =? AL_START_HEAD) with true. cbn iota.
  destruct (decide (S j < length vs)%nat) as [Hlt|Hge].
  - destruct (cursor_drop_cons vs (S j) Hlt) as (y & r & E). rewrite E in Hn. rewrite <- E in Hn. destruct Hn as (q & Hq & Hcur').
    apply wp_bind. eapply wp_lift; [done|]. apply wp_ret. cbn beta iota.
    eapply (reach_wp s F xs a d ys xsa vs xsb (S j) z q _ _ mret); try done.
    rewrite <- Nat.add_succ_r. intros it e Hon Hg. apply wp_ret. by split.
  - rewrite drop_ge in Hn by lia. apply wp_bind. eapply wp_lift; [done|]. apply wp_ret. cbn beta iota.
    apply wp_bind. eapply compress_skip; [eapply linked_middle, C|done|apply R|].
    apply wp_bind. eapply get_node_wp; [eapply linked_middle, C|]. cbn [link nnext].
    eapply next_fresh_wp; [done|]. exists (xs ++ [(a, d)]), ys, (xsa ++ [vs]), xsb. rewrite <- !app_assoc. split_and!; try done.
    + rewrite !length_app. cbn [length]. lia.
    + rewrite concat_app, length_app. cbn [concat]. rewrite app_nil_r. lia.
Qed.

(** *** From the tail *)

Definition after_node (ns : list (addr * ndata)) xss (it : quicklistIter) (i : nat) : Prop :=
  exists xs ys xsa xsb, ns = xs ++ ys /\ xss = xsa ++ xsb /\ length xsa = length xs /\
    it = QuicklistIter (last_ None xs) None (-1) AL_START_TAIL /\ i = length (concat xsa).

(** [i] strings are left. *)
Definition gives_back (l : list bytes) (i : nat) (e : option quicklistEntry) : Prop :=
  match i with O => e = None | S k => exists e', e = Some e' /\ value_bytes <$> evalue e' = l !! k end.

Definition stepped_back (ns : list (addr * ndata)) xss (s : qstate) (i : nat) (r : quicklistIter * option quicklistEntry) s' : Prop :=
  s' = s /\ gives_back (concat xss) i r.2 /\ (i <> 0%nat -> on_entry ns xss AL_START_TAIL r.1 (pred i)).

Lemma prev_fresh_wp s F ns xss it i fuel :
  repr s F 0 ns xss -> after_node ns xss it i ->
  wp (quicklistNext junk garbage fuel it) (stepped_back ns xss s i) s.
Proof.
  intros R (xs & ys & xsa & xsb & -> & -> & Hl & -> & ->).
  destruct xs as [|[a d] xs _] using rev_ind.
  { destruct xsa; [|done]. destruct fuel; cbn [quicklistNext AdlistSpec.last_ current]; apply wp_ret; by split. }
  rewrite length_app in Hl. cbn [length] in Hl. destruct xsa as [|vs xsa _] using rev_ind; [cbn [length] in Hl; lia|].
  rewrite length_app in Hl. cbn [length] in Hl. rewrite AdlistSpec.seg_last_snoc. rewrite <- !app_assoc in *. cbn [app] in *.
  assert (length xsa = length xs) as Hl' by lia.
  destruct (node_blob _ _ _ _ _ _ _ _ _ R Hl') as (Hr & _ & Hne & z & Hz & Hrep).
  destruct vs as [|x vs _] using rev_ind; [done|]. clear Hne.
  assert (resolve_index (length (vs ++ [x])) (-1) = Some (length vs)) as Hres.
  { unfold resolve_index. rewrite length_app. cbn [length]. change (-1 <? 0) with true. cbn iota.
    rewrite (proj2 (Z.leb_le _ _)) by lia. f_equal. lia. }
  pose proof (ziplistIndex_spec z (vs ++ [x]) (-1) Hrep) as Hi. rewrite Hres in Hi. destruct Hi as (p & Hp & Hcur).
  assert (length (concat (xsa ++ [vs ++ [x]])) = S (length (concat xsa) + length vs)) as ->.
  { rewrite concat_app, length_app. cbn [concat]. rewrite app_nil_r, length_app. cbn [length]. lia. }
  pose proof (rp_chain _ _ _ _ _ R) as C.
  destruct fuel; cbn [quicklistNext current izi ioffset direction]; apply wp_bind.
  all: eapply for_use_skip; [eapply linked_middle, C|done|].
  all: apply wp_bind; (eapply wp_at; [eapply chain_self, C|]); (eapply node_zl_put; [done|]); rewrite <- (chain_self _ _ _ _ _ _ C).
  all: apply wp_bind; (eapply wp_lift; [done|]); apply wp_ret; cbn beta iota.
  all: eapply (reach_wp s F xs a d ys xsa (vs ++ [x]) xsb (length vs) z p (-1) _ mret); try done; [rewrite length_app; cbn [length]; lia|].
  all: intros it e Hon [Hg _]; apply wp_ret; split; [done|]; split; [by exists e|done].
Qed.

Lemma prev_on_wp s F ns xss it i fuel :
  repr s F 0 ns xss -> on_entry ns xss AL_START_TAIL it i ->
  wp (quicklistNext junk garbage (S fuel) it) (stepped_back ns xss s i) s.
Proof.
  intros R (xs & a & d & ys & xsa & vs & xsb & j & z & p & o & -> & -> & Hl & Hj & Hz & Hcur & -> & ->).
  pose proof (ziplistPrev_spec z _ _ p Hcur) as Hn.
  pose proof (rp_chain _ _ _ _ _ R) as C. destruct (node_blob _ _ _ _ _ _ _ _ _ R Hl) as (Hr & Hrc & _).
  cbn [quicklistNext current izi ioffset direction]. apply wp_bind.
  apply wp_bind. (eapply wp_at; [eapply chain_self, C|]). (eapply node_zl_put; [done|]). rewrite <- (chain_self _ _ _ _ _ _ C).
  change (AL_START_TAIL =? AL_START_HEAD) with false. cbn iota.
  destruct j as [|j].
  - assert (ziplistPrev z p = Some None) as Hp by exact Hn. apply wp_bind. eapply wp_lift; [done|]. apply wp_ret. cbn beta iota.
    apply wp_bind. eapply compress_skip; [eapply linked_middle, C|done|apply R|].
    apply wp_bind. eapply get_node_wp; [eapply linked_middle, C|]. cbn [link nprev].
    eapply prev_fresh_wp; [done|]. exists xs, ((a, d) :: ys), xsa, (vs :: xsb). split_and!; try done.
  - destruct (lookup_lt_is_Some_2 vs j) as [x Hx]; [lia|]. rewrite (take_S_r _ _ _ Hx), reverse_snoc, reverse_involutive in Hn.
    destruct Hn as (q & Hq & Hcur'). rewrite <- (drop_S vs x j Hx) in Hcur'.
    apply wp_bind. eapply wp_lift; [done|]. apply wp_ret. cbn beta iota.
    eapply (reach_wp s F xs a d ys xsa vs xsb j z q _ _ mret); try done; [lia|].
    intros it e Hon [Hg _]. apply wp_ret. rewrite Nat.add_succ_r. split; [done|]. split; [by exists e|done].
Qed.

(** ** From a compact list *)

Lemma value_string_spec v : match v with VInt n => is_llong n | VStr _ => True end -> value_string v = Some (value_bytes v).
Proof.
  destruct v as [x|n]; [done|]. intros Hn. cbn [value_string value_bytes]. pose proof (decimal_length_20 n Hn).
  rewrite (ll2string_spec _ 32 n Hn) by (rewrite length_replicate; lia). rewrite decide_True by lia.
  cbn [mbind option_bind]. by rewrite Nat2Z.id, take_app_length.
Qed.

Lemma values_ok vs x : node_fits vs -> x ∈ vs -> value_ok x.
Proof.
  intros (Hf & _ & Hu) Hx. split; [|by apply (proj1 (Forall_forall _ _) Hu)].
  apply list_elem_of_split in Hx as (l1 & l2 & ->). unfold zl_fits in Hf. rewrite zl_bound_app, zl_bound_cons in Hf.
  pose proof (zl_bound_count l1). pose proof (zl_bound_count l2). lia.
Qed.

Lemma append_loop_wp F c z n : forall s l pre post p,
  repr_ex s F c l -> Forall value_ok post -> Z.of_nat (length l + length post) < 2 ^ 31 ->
  match post with [] => p = None | _ => exists q, p = Some q /\ zl_cursor z pre post q end -> (length post <= n)%nat ->
  wp (append_loop junk garbage alloc n z p) (fun _ s' => repr_ex s' F c (l ++ post)) s.
Proof.
  induction n as [|n IH]; intros s l pre post p Hrep Hok Hsm Hp Hn.
  all: destruct post as [|x post]; [subst p; cbn [append_loop]; apply wp_skip; by rewrite app_nil_r|].
  { cbn [length] in Hn. lia. }
  destruct Hp as (q & -> & Hcur). apply Forall_cons in Hok as [Hx Hok]. cbn [length] in *.
  destruct (ziplistGet_value _ _ _ _ _ Hcur) as (v & Hv & Ev & Hrange). cbn [append_loop].
  apply wp_bind. eapply wp_lift; [done|]. cbn beta iota. apply wp_bind. eapply wp_lift; [by apply value_string_spec|]. rewrite Ev.
  destruct Hrep as (ns & xss & R & E). apply wp_bind. eapply wp_mono.
  { eapply (quicklistPushTail_wp junk garbage alloc Hgarbage Halloc s F c ns xss x); [done|done|rewrite E; lia]. }
  intros ? s' Hrep. cbn beta in Hrep. rewrite E in Hrep. pose proof (ziplistNext_spec z _ x _ q Hcur) as Hnext.
  assert (exists p', ziplistNext z q = Some p' /\ match post with [] => p' = None | _ => exists r, p' = Some r /\ zl_cursor z (pre ++ [x]) post r end)
    as (p' & Hp' & Hpost).
  { destruct post; [by exists None|]. destruct Hnext as (r & Hr & Hc). exists (Some r). split; [done|]. by exists r. }
  apply wp_bind. eapply wp_lift; [done|]. eapply wp_mono.
  { eapply (IH s' (l ++ [x]) (pre ++ [x]) post p'); [done|done|rewrite length_app; cbn [length]; lia|done|lia]. }
  intros ? s2 H2. cbn beta in H2. by rewrite <- app_assoc in H2.
Qed.

Lemma append_values_wp F c s l z post :
  repr_ex s F c l -> zl_rep z post -> Forall value_ok post -> Z.of_nat (length l + length post) < 2 ^ 31 ->
  wp (quicklistAppendValuesFromZiplist junk garbage alloc z) (fun _ s' => repr_ex s' F c (l ++ post)) s.
Proof.
  intros Hrep Hz Hok Hsm. unfold quicklistAppendValuesFromZiplist. pose proof (ziplistIndex_spec z post 0 Hz) as Hi.
  pose proof (rep_size _ _ Hz). unfold resolve_index in Hi. change (0 <? 0) with false in Hi. cbn iota in Hi.
  destruct post as [|x post].
  - apply wp_bind. eapply wp_lift; [exact Hi|]. by eapply (append_loop_wp F c z _ s l [] [] None).
  - rewrite (proj2 (Z.ltb_lt _ _)) in Hi by (cbn [length]; lia). destruct Hi as (p & Hp & Hcur).
    apply wp_bind. eapply wp_lift; [exact Hp|]. eapply (append_loop_wp F c z _ s l [] (x :: post)); try done. by exists p.
Qed.

(** ** Giving a list back *)

Lemma release_loop_wp F : forall ns s p,
  seg (links (nodes s)) p ns None -> NoDup ns.*1 -> (forall b, b ∉ ns.*1 -> nodes s !! b = F !! b) ->
  (forall b, b ∈ ns.*1 -> F !! b = None) ->
  wp (release_loop (length ns) (first ns None)) (fun _ s' => nodes s' = F) s.
Proof.
  induction ns as [|[a d] ns IH]; intros s p Hs Hnd Hf Hap.
  { apply wp_skip. apply map_eq. intros b. apply Hf. by apply not_elem_of_nil. }
  cbn [length AdlistSpec.first release_loop fmap list_fmap fst] in *. destruct Hs as [Ha Hs]. apply links_Some in Ha.
  apply NoDup_cons in Hnd as [Hn Hnd]. apply wp_bind. eapply wp_lift; [done|]. apply wp_bind. eapply get_node_wp; [done|].
  cbn [link ncount nnext]. wp_step. unfold free_node. apply wp_bind. apply wp_bind. eapply get_node_wp; [done|]. wp_step. wp_step.
  eapply (IH _ (Some a)); cbn [set_ql set_nodes nodes].
  - rewrite links_delete. eapply AdlistSpec.dlseg_frame; [|done]. intros b Hb. rewrite lookup_delete_ne; [done|]. by intros ->.
  - done.
  - intros b Hb. destruct (decide (b = a)) as [->|Hne].
    + rewrite lookup_delete_eq. symmetry. apply Hap. left.
    + rewrite lookup_delete_ne by done. apply Hf. by apply not_elem_of_cons.
  - intros b Hb. apply Hap. by right.
Qed.

Lemma quicklistRelease_wp s F c ns xss :
  repr s F c ns xss -> wp quicklistRelease (fun _ s' => nodes s' = F) s.
Proof.
  intros R. unfold quicklistRelease. wp_step. rewrite (rp_qlen _ _ _ _ _ R), Nat2Z.id, (proj1 (head_end _ _ _ _ _ R)).
  destruct (rp_chain _ _ _ _ _ R) as [[Hnd Hs Hf Ha] _ _]. by eapply release_loop_wp.
Qed.

End Range.

End QuicklistRange.
