(* ===== verification/QuicklistRun.v ===== *)
(** * Lists of compact lists: the specification (src/quicklist.c)

    A list of compact lists is a list of strings: any sequence of operations
    from a new list, whatever its options, gives the results and the list
    that the same operations give on a list of strings.  When the list
    compresses its nodes the operations are those of a queue with two ends;
    insertions are counted from the head and ranges start there or are counted
    from the tail.  At the end, runs of the other insertions and ranges, on
    which the code does something else. *)

From S2P Require Import Prelude Util Ziplist ZiplistSpec Lzf LzfSpec Adlist AdlistSpec Monad Quicklist QuicklistSpec QuicklistOps QuicklistEdit QuicklistRange.
Import Util Ziplist ZiplistSpec Monad Quicklist QuicklistSpec QuicklistOps QuicklistEdit QuicklistRange.

Module QuicklistRun.

Implicit Types (s : qstate) (F : gmap addr quicklistNode) (l : list bytes).

(** ** Operations *)

Inductive list_call :=
| LPush (v : bytes) (where_ : Z)
| LPop (where_ : Z)
| LIndex (i : Z)
| LReplace (i : Z) (v : bytes)
| LInsert (i : Z) (v : bytes) (after : bool)
| LDelRange (start cnt : Z).

Inductive list_answer :=
| AUnit
| AValue (v : option bytes)
| ABool (b : bool).

Section Run.
Context (junk : nat -> Z) (garbage : Z -> Z) (alloc : gset addr -> addr).

Definition entry_string (e : quicklistEntry) : option bytes := value_bytes <$> evalue e.

Definition run_call (c : list_call) : M qstate list_answer :=
  match c with
  | LPush v w => _ ← quicklistPush junk garbage alloc v w; mret AUnit
  | LPop w => r ← quicklistPop junk garbage w; mret (AValue (value_bytes <$> r))
  | LIndex i => e ← quicklistIndex junk i; mret (AValue (e ≫= entry_string))
  | LReplace i v => b ← quicklistReplaceAtIndex junk garbage i v; mret (ABool b)
  | LInsert i v after =>
    e ← quicklistIndex junk i;
    match e with
    | None => mret (ABool false)
    | Some e =>
      _ ← (if (after : bool) then quicklistInsertAfter junk garbage alloc e v else quicklistInsertBefore junk garbage alloc e v);
      mret (ABool true)
    end
  | LDelRange start cnt => b ← quicklistDelRange junk garbage start cnt; mret (ABool b)
  end.

Fixpoint run_calls (cs : list list_call) : M qstate (list list_answer) :=
  match cs with
  | [] => mret []
  | c :: cs => r ← run_call c; rs ← run_calls cs; mret (r :: rs)
  end.

(** Every string that an iterator meets. *)
Fixpoint walk (n : nat) (it : quicklistIter) : M qstate (list bytes) :=
  match n with
  | O => fail
  | S n =>
    '(it, e) ← quicklistNext junk garbage 1 it;
    match e with
    | None => mret []
    | Some e => v ← lift (entry_string e); vs ← walk n it; mret (v :: vs)
    end
  end.

End Run.

(** ** The same on a list of strings *)

Definition push_list (v : bytes) (w : Z) l : list bytes :=
  if w =? QUICKLIST_HEAD then v :: l else if w =? QUICKLIST_TAIL then l ++ [v] else l.

Definition ref_call (c : list_call) l : list_answer * list bytes :=
  match c with
  | LPush v w => (AUnit, push_list v w l)
  | LPop w => (AValue (pop_list w l).1, (pop_list w l).2)
  | LIndex i => (AValue (resolve_index (length l) i ≫= (l !!.)), l)
  | LReplace i v =>
    match resolve_index (length l) i with
    | Some k => (ABool true, <[k := v]> l)
    | None => (ABool false, l)
    end
  | LInsert i v after =>
    match resolve_index (length l) i with
    | Some k => (ABool true, put_at (if after then S k else k) v l)
    | None => (ABool false, l)
    end
  | LDelRange start cnt => (ABool (del_range start cnt l).1, (del_range start cnt l).2)
  end.

Fixpoint ref_calls (cs : list list_call) l : list list_answer * list bytes :=
  match cs with
  | [] => ([], l)
  | c :: cs => let '(r, l) := ref_call c l in let '(rs, l) := ref_calls cs l in (r :: rs, l)
  end.

(** What is asked of the arguments.  The strings fit in a compact list and
    there are fewer than [2 ^ 31] of them; entries are only looked for in a
    list that compresses nothing, an insertion names its place from the head
    and a range starts at the head or is counted from the tail: elsewhere the
    code does something else, see the runs at the end. *)
Definition call_ok (depth : nat) (c : list_call) l : Prop :=
  match c with
  | LPush v _ => value_ok v /\ Z.of_nat (length l) + 1 < 2 ^ 31
  | LPop _ => True
  | LIndex i => depth = 0%nat /\ is_llong i
  | LReplace i v => depth = 0%nat /\ is_llong i /\ value_ok v /\ zl_fits (v :: l)
  | LInsert i v _ => depth = 0%nat /\ 0 <= i /\ is_llong i /\ value_ok v /\ zl_fits (v :: l) /\ Z.of_nat (length l) + 1 < 2 ^ 31
  | LDelRange start cnt => depth = 0%nat /\ start <= 0 /\ is_llong start /\ is_llong cnt
  end.

Fixpoint calls_ok (depth : nat) (cs : list list_call) l : Prop :=
  match cs with
  | [] => True
  | c :: cs => call_ok depth c l /\ calls_ok depth cs (ref_call c l).2
  end.

#[export] Instance call_ok_dec depth c l : Decision (call_ok depth c l).
Proof. destruct c; cbn [call_ok]; unfold zl_fits, is_llong, is_signed; apply _. Defined.

#[export] Instance calls_ok_dec depth cs : forall l, Decision (calls_ok depth cs l).
Proof. induction cs as [|c cs IH]; intros l; cbn [calls_ok]; apply _. Defined.

(** ** Refinement *)

Section Refine.
Context (junk : nat -> Z) (garbage : Z -> Z) (alloc : gset addr -> addr).
Context (Hgarbage : forall i, is_u32 (garbage i)) (Halloc : forall X, alloc X ∉ X).

Lemma new_repr F f depth :
  is_int f -> is_int depth ->
  repr_ex (QState F (quicklistNew f depth)) F (Z.to_nat (compress (quicklistNew f depth))) [].
Proof.
  intros Hf Hd. exists [], []. split; [|done].
  assert (is_unsigned 16 (compress (quicklistNew f depth))) as Hc by by apply wrapu_range.
  split; try done.
  - split; [|done|done]. split; [constructor|done|done|by intros b Hb%elem_of_nil].
  - cbn [ql]. unfold is_unsigned in Hc. lia.
  - unfold is_unsigned in Hc. lia.
  - unfold fill_ok. pose proof (wraps_range 16 (if f >? FILL_MAX then FILL_MAX else if f <? -5 then -5 else f) ltac:(lia)) as Hr.
    unfold is_signed in Hr. change (fill (ql (QState F (quicklistNew f depth)))) with (wraps 16 (if f >? FILL_MAX then FILL_MAX else if f <? -5 then -5 else f)). lia.
Qed.

Definition served s F depth l (c : list_call) (r : list_answer) s' : Prop :=
  r = (ref_call c l).1 /\ repr_ex s' F depth (ref_call c l).2.

Lemma run_index s F l i :
  repr_ex s F 0 l -> is_llong i -> wp (run_call junk garbage alloc (LIndex i)) (served s F 0 l (LIndex i)) s.
Proof.
  intros (ns & xss & R & <-) Hi. apply wp_bind. eapply wp_mono; [by eapply quicklistIndex_wp|]. intros r s' [-> H].
  apply wp_ret. unfold served. cbn [ref_call fst snd]. destruct (resolve_index (length (concat xss)) i) as [k|].
  - destruct H as (xs & a & d & ys & xsa & vs & xsb & j & e & -> & -> & -> & He & -> & _). split.
    + cbn [mbind option_bind]. unfold entry_string. rewrite (en_value _ _ _ _ _ _ _ He).
      rewrite concat_lookup; [done|]. apply (resolve_index_lt _ _ _ (en_offset _ _ _ _ _ _ _ He)).
    + by exists (xs ++ (a, d) :: ys), (xsa ++ vs :: xsb).
  - subst r. split; [done|]. by exists ns, xss.
Qed.

Lemma run_insert s F l i v after :
  repr_ex s F 0 l -> call_ok 0 (LInsert i v after) l ->
  wp (run_call junk garbage alloc (LInsert i v after)) (served s F 0 l (LInsert i v after)) s.
Proof.
  intros (ns & xss & R & <-) (_ & Hi0 & Hi & Hv & Hf & Hsm). apply wp_bind. eapply wp_mono; [by eapply quicklistIndex_wp|].
  intros r s' [-> H]. unfold served. cbn [ref_call]. destruct (resolve_index (length (concat xss)) i) as [k|].
  - destruct H as (xs & a & d & ys & xsa & vs & xsb & j & e & -> & -> & -> & He & -> & [Hoff _]).
    apply wp_bind. eapply wp_mono with (Q := fun _ s' => repr_ex s' F 0 (put_at (insert_place after e xsa j) v (concat (xsa ++ vs :: xsb)))).
    + specialize (Hoff Hi0). destruct after; by eapply quicklistInsert_wp.
    + intros [] s' R'. apply wp_ret. split; [done|]. unfold insert_place in R'. cbn [snd].
      destruct after; [by rewrite Nat.add_succ_r in R'|done].
  - subst r. apply wp_ret. split; [done|]. by exists ns, xss.
Qed.

Lemma run_call_wp s F depth l c :
  repr_ex s F depth l -> call_ok depth c l -> wp (run_call junk garbage alloc c) (served s F depth l c) s.
Proof.
  intros Hrep Hok. pose proof Hrep as (ns & xss & R & E). destruct c as [v w|w|i|i v|i v after|start cnt].
  - destruct Hok as [Hv Hsm]. apply wp_bind. unfold quicklistPush, served. cbn [ref_call fst snd]. unfold push_list. subst l.
    destruct (w =? QUICKLIST_HEAD); [|destruct (w =? QUICKLIST_TAIL); [|by apply wp_skip, wp_ret]].
    + apply wp_bind. eapply wp_mono; [by eapply quicklistPushHead_wp|]. intros ? s' H. by apply wp_skip, wp_ret.
    + apply wp_bind. eapply wp_mono; [by eapply quicklistPushTail_wp|]. intros ? s' H. by apply wp_skip, wp_ret.
  - subst l. apply wp_bind. eapply wp_mono; [by eapply quicklistPop_wp|]. intros r s' [Er H]. apply wp_ret. split; [by rewrite Er|done].
  - destruct Hok as [-> Hi]. by apply run_index.
  - destruct Hok as (-> & Hi & Hv & Hf). subst l. apply wp_bind. eapply wp_mono; [by eapply quicklistReplaceAtIndex_wp|].
    intros r s' H. apply wp_ret. unfold served. cbn [ref_call]. case_match; [by destruct H as [-> H]|]. by destruct H as [-> ->].
  - pose proof Hok as [-> _]. by apply run_insert.
  - destruct Hok as (-> & Hs & Hi & Hc). subst l. apply wp_bind. eapply wp_mono; [by eapply quicklistDelRange_wp|].
    intros r s' [-> H]. by apply wp_ret.
Qed.

Lemma run_calls_wp F depth cs : forall s l,
  repr_ex s F depth l -> calls_ok depth cs l ->
  wp (run_calls junk garbage alloc cs) (fun rs s' => rs = (ref_calls cs l).1 /\ repr_ex s' F depth (ref_calls cs l).2) s.
Proof.
  induction cs as [|c cs IH]; intros s l Hrep Hok; [by apply wp_ret|]. destruct Hok as [Hc Hok]. cbn [run_calls ref_calls].
  apply wp_bind. eapply wp_mono; [by eapply run_call_wp|]. intros r s1 [-> H1]. destruct (ref_call c l) as [r l1]. cbn [fst snd] in *.
  apply wp_bind. eapply wp_mono; [by eapply IH|]. intros rs s2 [-> H2]. apply wp_ret. by destruct (ref_calls cs l1).
Qed.

Lemma walk_on_wp s F ns xss n : forall it i,
  repr s F 0 ns xss -> on_entry ns xss AL_START_HEAD it i -> (length (concat xss) <= i + n)%nat ->
  wp (walk junk garbage n it) (fun r s' => s' = s /\ r = drop (S i) (concat xss)) s.
Proof.
  induction n as [|n IH]; intros it i R Hon Hn.
  { destruct Hon as (xs & a & d & ys & xsa & vs & xsb & j & _ & _ & _ & _ & -> & _ & Hj & _ & _ & _ & ->).
    rewrite concat_app in Hn. cbn [concat] in Hn. rewrite !length_app in Hn. lia. }
  cbn [walk]. apply wp_bind. eapply wp_mono; [by eapply (next_on_wp junk garbage)|]. intros [it' e] s' (-> & Hg & Hnext). cbn [fst snd] in *.
  destruct e as [e|]; cbn [gives] in Hg.
  - destruct Hg as [Hv Hlt]. destruct (lookup_lt_is_Some_2 _ _ Hlt) as [x Hx]. rewrite Hx in Hv.
    apply wp_bind. eapply wp_lift; [exact Hv|]. apply wp_bind. eapply wp_mono; [eapply IH; [done|by apply Hnext|lia]|].
    intros r s' [-> ->]. apply wp_ret. split; [done|]. by rewrite <- (drop_S _ _ _ Hx).
  - apply wp_ret. split; [done|]. by rewrite drop_ge.
Qed.

Lemma walk_back_wp s F ns xss n : forall it i,
  repr s F 0 ns xss -> on_entry ns xss AL_START_TAIL it i -> (i < n)%nat ->
  wp (walk junk garbage n it) (fun r s' => s' = s /\ r = reverse (take i (concat xss))) s.
Proof.
  induction n as [|n IH]; intros it i R Hon Hn; [lia|].
  cbn [walk]. apply wp_bind. eapply wp_mono; [by eapply (prev_on_wp junk garbage)|]. intros [it' e] s' (-> & Hg & Hnext). cbn [fst snd] in *.
  destruct i as [|i]; cbn [gives_back] in Hg.
  - subst e. by apply wp_ret.
  - destruct Hg as (e' & -> & Hv).
    assert (i < length (concat xss))%nat as Hlt.
    { destruct Hon as (xs & a & d & ys & xsa & vs & xsb & j & _ & _ & _ & _ & -> & _ & Hj & _ & _ & _ & Ei).
      rewrite concat_app. cbn [concat]. rewrite !length_app. lia. }
    destruct (lookup_lt_is_Some_2 _ _ Hlt) as [x Hx]. rewrite Hx in Hv.
    apply wp_bind. eapply wp_lift; [exact Hv|]. apply wp_bind. eapply wp_mono; [eapply IH; [done|by apply Hnext|lia]|].
    intros r s' [-> ->]. apply wp_ret. split; [done|]. by rewrite (take_S_r _ _ _ Hx), reverse_snoc.
Qed.

Lemma from_head s F l n :
  repr_ex s F 0 l -> (length l < n)%nat ->
  wp (walk junk garbage n (quicklistGetIterator (ql s) AL_START_HEAD)) (fun r s' => s' = s /\ r = l) s.
Proof.
  intros (ns & xss & R & <-) Hn. destruct n as [|n]; [lia|]. cbn [walk].
  assert (before_node ns xss (quicklistGetIterator (ql s) AL_START_HEAD) 0) as Hb.
  { exists [], ns, [], xss. split_and!; try done. unfold quicklistGetIterator. cbn. by rewrite (proj1 (head_end _ _ _ _ _ R)). }
  apply wp_bind. eapply wp_mono; [by eapply (next_fresh_wp junk garbage)|]. intros [it e] s' (-> & Hg & Hnext). cbn [fst snd] in *.
  destruct e as [e|]; cbn [gives] in Hg.
  - destruct Hg as [Hv Hlt]. destruct (lookup_lt_is_Some_2 _ _ Hlt) as [x Hx]. rewrite Hx in Hv.
    apply wp_bind. eapply wp_lift; [exact Hv|]. apply wp_bind. eapply wp_mono; [eapply walk_on_wp; [done|by apply Hnext|lia]|].
    intros r s' [-> ->]. apply wp_ret. split; [done|]. by rewrite <- (drop_S _ _ _ Hx).
  - apply wp_ret. split; [done|]. symmetry. apply nil_length_inv. lia.
Qed.

Lemma from_tail s F l n :
  repr_ex s F 0 l -> (length l < n)%nat ->
  wp (walk junk garbage n (quicklistGetIterator (ql s) AL_START_TAIL)) (fun r s' => s' = s /\ r = reverse l) s.
Proof.
  intros (ns & xss & R & <-) Hn. destruct n as [|n]; [lia|]. cbn [walk].
  assert (after_node ns xss (quicklistGetIterator (ql s) AL_START_TAIL) (length (concat xss))) as Hb.
  { exists ns, [], xss, []. rewrite !app_nil_r. split_and!; try done; [|].
    - apply (list_repr_length _ _ _ _ _ R).
    - unfold quicklistGetIterator. cbn. by rewrite (proj2 (head_end _ _ _ _ _ R)). }
  apply wp_bind. eapply wp_mono; [by eapply (prev_fresh_wp junk garbage)|]. intros [it e] s' (-> & Hg & Hnext). cbn [fst snd] in *.
  destruct (length (concat xss)) as [|i] eqn:El; cbn [gives_back] in Hg.
  - subst e. apply wp_ret. split; [done|]. by rewrite (nil_length_inv _ El).
  - destruct Hg as (e' & -> & Hv).
    destruct (lookup_lt_is_Some_2 (concat xss) i ltac:(lia)) as [x Hx]. rewrite Hx in Hv.
    apply wp_bind. eapply wp_lift; [exact Hv|]. apply wp_bind. eapply wp_mono; [eapply walk_back_wp; [done|by apply Hnext|lia]|].
    intros r s' [-> ->]. apply wp_ret. split; [done|].
    rewrite <- (take_ge (concat xss) (S i)) at 2 by lia. by rewrite (take_S_r _ _ _ Hx), reverse_snoc.
Qed.

End Refine.

(** ** What the lists do *)

Section Properties.
Context (junk : nat -> Z) (garbage : Z -> Z) (alloc : gset addr -> addr).
Context (Hgarbage : forall i, is_u32 (garbage i)) (Halloc : forall X, alloc X ∉ X).

(** C8. A list of compact lists is a list of strings, for the calls on which
    the code is right ([call_ok]): pushes and pops at both ends, whatever the
    fill and the compression depth; and, in a list that compresses nothing,
    looking up and replacing at any index, inserting next to an index that is
    counted from the head (0 or more), and deleting a range that starts at the
    head or is counted from the tail (a start of 0 or less).  Any sequence of
    such calls from a new list runs without reading outside a block, gives the
    results that the same calls give on a list of strings, and leaves the memory
    that holds that list and the other nodes of the heap; releasing the list
    frees every node of it.  Each string fits in a compact list, at an insertion
    or a replacement all strings of the list together do, and there are fewer
    than 2^31 of them.  The calls that are left out are those where the code
    loses entries (insertion next to an index counted from the tail,
    quicklist.c:900, [insert_from_the_tail_loses]) or keeps a wrong count (a
    range that starts after the head, quicklist.c:982, [range_in_the_middle]). *)
Theorem quicklist_refines_list F f depth cs :
  is_int f -> is_int depth ->
  calls_ok (Z.to_nat (compress (quicklistNew f depth))) cs [] ->
  exists s rs s',
    run_calls junk garbage alloc cs (QState F (quicklistNew f depth)) = Some (s, rs) /\
    rs = (ref_calls cs []).1 /\
    repr_ex s F (Z.to_nat (compress (quicklistNew f depth))) (ref_calls cs []).2 /\
    quicklistRelease s = Some (s', tt) /\ nodes s' = F.
Proof.
  intros Hf Hd Hok.
  destruct (run_calls_wp junk garbage alloc Hgarbage Halloc F _ cs _ _ (new_repr F f depth Hf Hd) Hok) as (s & rs & E & -> & H).
  pose proof H as (ns & xss & R & _).
  destruct (quicklistRelease_wp _ _ _ _ _ R) as (s' & [] & Er & Hn). by exists s, (ref_calls cs []).1, s'.
Qed.

(** C36. An iterator over a list that compresses nothing meets every string
    of the list once, in order from the head and in the opposite order from
    the tail, in as many steps as there are strings, and leaves the list as it was. *)
Theorem quicklist_iterates s F l :
  repr_ex s F 0 l ->
  walk junk garbage (S (length l)) (quicklistGetIterator (ql s) AL_START_HEAD) s = Some (s, l) /\
  walk junk garbage (S (length l)) (quicklistGetIterator (ql s) AL_START_TAIL) s = Some (s, reverse l).
Proof.
  intros R. split.
  - destruct (from_head junk garbage s F l (S (length l)) R) as (s' & r & E & -> & ->); [lia|done].
  - destruct (from_tail junk garbage s F l (S (length l)) R) as (s' & r & E & -> & ->); [lia|done].
Qed.

(** A list made from a compact list holds the strings of the compact list,
    in order. *)
Theorem quicklist_from_ziplist F f depth z l :
  is_int f -> is_int depth -> zl_rep z l -> Forall value_ok l -> Z.of_nat (length l) < 2 ^ 31 ->
  exists s, quicklistCreateFromZiplist junk garbage alloc F f depth z = Some (s, tt) /\
    repr_ex s F (Z.to_nat (compress (quicklistNew f depth))) l.
Proof.
  intros Hf Hd Hz Hl Hs.
  destruct (append_values_wp junk garbage alloc Hgarbage Halloc F _ _ [] z l (new_repr F f depth Hf Hd) Hz Hl Hs) as (s & [] & E & H).
  by exists s.
Qed.

End Properties.

(** ** Runs *)

Definition no_junk (_ : nat) : Z := 0.
Definition zeros (_ : Z) : Z := 0.
Definition next_free (X : gset addr) : addr := foldr Z.max 0 (elements X) + 1.

Lemma next_free_fresh X : next_free X ∉ X.
Proof.
  rewrite <- elem_of_elements. unfold next_free. intros Hin.
  assert (forall (l : list Z) x, x ∈ l -> x <= foldr Z.max 0 l) as Hmax.
  { induction l as [|y l IH]; intros x Hx; [by apply elem_of_nil in Hx|]. cbn [foldr].
    apply elem_of_cons in Hx as [->|Hx]; [lia|]. specialize (IH _ Hx). lia. }
  specialize (Hmax _ _ Hin). lia.
Qed.

Definition sample_calls : list list_call :=
  [LPush (str "b") QUICKLIST_TAIL; LPush (str "a") QUICKLIST_HEAD; LPush (str "12") QUICKLIST_TAIL; LPush (str "d") QUICKLIST_TAIL;
   LInsert 1 (str "x") true; LIndex (-2); LReplace (-1) (str "e"); LDelRange (-3) 1; LPop QUICKLIST_HEAD; LPop QUICKLIST_TAIL].

Lemma quicklist_refines_list_witness :
  is_int 2 /\ is_int 0 /\ calls_ok 0 sample_calls [] /\
  exists s rs s',
    run_calls no_junk zeros next_free sample_calls (QState ∅ (quicklistNew 2 0)) = Some (s, rs) /\
    rs = (ref_calls sample_calls []).1 /\
    repr_ex s ∅ 0 (ref_calls sample_calls []).2 /\
    quicklistRelease s = Some (s', tt) /\ nodes s' = ∅.
Proof.
  assert (calls_ok 0 sample_calls []) as Hok.
  { apply (bool_decide_unpack _). by vm_compute. }
  split; [done|]. split; [done|]. split; [done|].
  apply (quicklist_refines_list no_junk zeros next_free); [done|apply next_free_fresh|done..].
Defined.

Example sample_answers :
  (ref_calls sample_calls []) =
  ([AUnit; AUnit; AUnit; AUnit; ABool true; AValue (Some (str "12")); ABool true; ABool true;
    AValue (Some (str "a")); AValue (Some (str "e"))], [str "b"; str "12"]).
Proof. reflexivity. Qed.

Lemma quicklist_iterates_witness :
  exists s, repr_ex s ∅ 0 [str "a"; str "b"; str "c"] /\
    walk no_junk zeros 4 (quicklistGetIterator (ql s) AL_START_HEAD) s = Some (s, [str "a"; str "b"; str "c"]) /\
    walk no_junk zeros 4 (quicklistGetIterator (ql s) AL_START_TAIL) s = Some (s, [str "c"; str "b"; str "a"]).
Proof.
  set (cs := [LPush (str "b") QUICKLIST_TAIL; LPush (str "a") QUICKLIST_HEAD; LPush (str "c") QUICKLIST_TAIL]).
  assert (calls_ok 0 cs []) as Hok by (apply (bool_decide_unpack _); by vm_compute).
  destruct (run_calls_wp no_junk zeros next_free ltac:(done) next_free_fresh ∅ 0 cs _ []
    (new_repr ∅ 2 0 ltac:(done) ltac:(done)) Hok) as (s & rs & _ & _ & R).
  exists s. split; [exact R|]. exact (quicklist_iterates no_junk zeros s ∅ _ R).
Defined.

(** ** Runs that do something else

    Each is the code's own doing: the strings of a list that compresses
    nothing, with the counts the list keeps. *)
Definition push_all (l : list bytes) : M qstate (list list_answer) :=
  run_calls no_junk zeros next_free ((fun v => LPush v QUICKLIST_TAIL) <$> l).

(** The strings met from the head and the number of entries kept. *)
Definition outcome (f : Z) (l : list bytes) (m : M qstate unit) : option (list bytes * Z) :=
  match (_ ← push_all l; _ ← m; s ← get; vs ← walk no_junk zeros 100 (quicklistGetIterator (ql s) AL_START_HEAD); mret (vs, count (ql s)))
    (QState ∅ (quicklistNew f 0)) with
  | Some (_, r) => Some r
  | None => None
  end.

Definition letters (s : string) : list bytes := (fun c => [c]) <$> str s.

(** Inserting after an entry of a full node that was found from the tail
    loses the entries that follow it. *)
Example insert_from_the_tail_loses :
  outcome 4 (letters "abcd") (e ← quicklistIndex no_junk (-3); e ← lift e; quicklistInsertAfter no_junk zeros next_free e (str "x"))
  = Some (letters "abx", 5).
Proof. vm_compute. reflexivity. Qed.

(** Deleting a range that begins inside a node and goes past its end counts
    more entries as deleted than there were in the node: fewer are deleted
    than were asked for, and the count is wrong. *)
Example range_in_the_middle :
  outcome 3 (letters "abcde") (_ ← quicklistDelRange no_junk zeros 2 2; skip) = Some (letters "abde", 3).
Proof. vm_compute. reflexivity. Qed.

(** Rotating a list of one node reads the string to push from a block that
    the push has freed. *)
Example rotate_one_node : outcome 3 (letters "ab") (quicklistRotate no_junk zeros next_free) = None.
Proof. vm_compute. reflexivity. Qed.

Example rotate_two_nodes : outcome 1 (letters "abc") (quicklistRotate no_junk zeros next_free) = Some (letters "cab", 3).
Proof. vm_compute. reflexivity. Qed.

End QuicklistRun.
