(* ===== verification/Backlog.v ===== *)
(** * The replication backlog (src/replication.c)

    A circular buffer of the last bytes of the stream of commands that is sent
    to the replicas.  [master_repl_offset] is the number of bytes of the
    stream so far, [repl_backlog_off] the offset of the first byte that is
    still in the buffer. *)

From S2P Require Import Prelude Monad.
Import Monad.

Module Backlog.

Definition CONFIG_REPL_BACKLOG_MIN_SIZE : Z := 1024 * 16.

(** The fields of [struct redisServer] about the backlog. *)
Record backlog := MkBacklog {
  repl_backlog : option bytes;
  repl_backlog_size : Z;
  repl_backlog_histlen : Z;
  repl_backlog_idx : Z;
  repl_backlog_off : Z;
  master_repl_offset : Z
}.

Section Ops.
Context (junk : nat -> Z).

Abbreviation M := (M backlog).

Definition new_buffer (n : Z) : bytes := junk <$> seq 0 (Z.to_nat n).

Definition createReplicationBacklog : M unit :=
  b ← get;
  _ ← check (bool_decide (repl_backlog b = None));
  let offset := s64 (master_repl_offset b + 1) in
  modify (fun b => MkBacklog (Some (new_buffer (repl_backlog_size b))) (repl_backlog_size b) 0 0 (s64 (offset + 1)) offset).

Definition resizeReplicationBacklog (newsize : Z) : M unit :=
  let newsize := if newsize <? CONFIG_REPL_BACKLOG_MIN_SIZE then CONFIG_REPL_BACKLOG_MIN_SIZE else newsize in
  b ← get;
  if repl_backlog_size b =? newsize then skip
  else
    match repl_backlog b with
    | None => modify (fun b => MkBacklog None newsize (repl_backlog_histlen b) (repl_backlog_idx b) (repl_backlog_off b) (master_repl_offset b))
    | Some _ => modify (fun b => MkBacklog (Some (new_buffer newsize)) newsize 0 0 (s64 (master_repl_offset b + 1)) (master_repl_offset b))
    end.

(** [nslaves] is the number of replicas. *)
Definition freeReplicationBacklog (nslaves : nat) : M unit :=
  _ ← check (nslaves =? 0)%nat;
  modify (fun b => MkBacklog None (repl_backlog_size b) (repl_backlog_histlen b) (repl_backlog_idx b) (repl_backlog_off b) (master_repl_offset b)).

Fixpoint feed_loop (fuel : nat) (p : bytes) : M unit :=
  match p with
  | [] => skip
  | _ =>
    match fuel with
    | O => fail
    | S fuel =>
      b ← get;
      let len := Z.of_nat (length p) in
      let thislen := u64 (repl_backlog_size b - repl_backlog_idx b) in
      let thislen := if thislen >? len then len else thislen in
      buf ← lift (repl_backlog b);
      buf ← lift (wrn buf (Z.to_nat (repl_backlog_idx b)) (take (Z.to_nat thislen) p));
      let idx := s64 (repl_backlog_idx b + thislen) in
      let idx := if idx =? repl_backlog_size b then 0 else idx in
      _ ← modify (fun b => MkBacklog (Some buf) (repl_backlog_size b) (s64 (repl_backlog_histlen b + thislen)) idx
            (repl_backlog_off b) (master_repl_offset b));
      feed_loop fuel (drop (Z.to_nat thislen) p)
    end
  end.

Definition feedReplicationBacklog (p : bytes) : M unit :=
  _ ← modify (fun b => MkBacklog (repl_backlog b) (repl_backlog_size b) (repl_backlog_histlen b) (repl_backlog_idx b)
        (repl_backlog_off b) (s64 (master_repl_offset b + Z.of_nat (length p))));
  _ ← feed_loop (length p) p;
  modify (fun b =>
    let hist := if repl_backlog_histlen b >? repl_backlog_size b then repl_backlog_size b else repl_backlog_histlen b in
    MkBacklog (repl_backlog b) (repl_backlog_size b) hist (repl_backlog_idx b)
      (s64 (master_repl_offset b - hist + 1)) (master_repl_offset b)).

(** The offset given to a replica for which a full copy is made. *)
Definition getPsyncInitialOffset (b : backlog) : Z :=
  match repl_backlog b with
  | None => s64 (master_repl_offset b + 1)
  | Some _ => master_repl_offset b
  end.

(** The pieces of the buffer from an offset on, as they are queued. *)
Fixpoint read_loop (fuel : nat) (b : backlog) (j len : Z) : option (list bytes) :=
  if len =? 0 then Some []
  else
    match fuel with
    | O => None
    | S fuel =>
      let thislen := if repl_backlog_size b - j <? len then repl_backlog_size b - j else len in
      if thislen <? 0 then None
      else
        buf ← repl_backlog b;
        x ← rdn buf (Z.to_nat j) (Z.to_nat thislen);
        rest ← read_loop fuel b 0 (len - thislen);
        Some (x :: rest)
    end.

(** The pieces from an offset on, and how many bytes they are. *)
Definition backlog_from (b : backlog) (offset : Z) : option (list bytes * Z) :=
  let skip := s64 (offset - repl_backlog_off b) in
  let j := Z.rem (s64 (repl_backlog_idx b + (repl_backlog_size b - repl_backlog_histlen b))) (repl_backlog_size b) in
  let j := Z.rem (s64 (j + skip)) (repl_backlog_size b) in
  let len := s64 (repl_backlog_histlen b - skip) in
  xs ← read_loop 2 b j len;
  Some (xs, len).

End Ops.

(** ** The last bytes of the stream *)

(** A buffer with the byte at [idx] first. *)
Definition ring (buf : bytes) (idx : nat) : bytes := drop idx buf ++ take idx buf.

Definition lastn {A} (n : nat) (l : list A) : list A := drop (length l - n) l.

Lemma lastn_all {A} n (l : list A) : (length l <= n)%nat -> lastn n l = l.
Proof. intros H. unfold lastn. by replace (length l - n)%nat with 0%nat by lia. Qed.

Lemma lastn_app {A} n (l1 l2 : list A) : lastn n (l1 ++ l2) = lastn (n - length l2) l1 ++ lastn n l2.
Proof.
  unfold lastn. rewrite length_app, drop_app. f_equal; [|f_equal; lia].
  destruct (decide (length l2 <= n)%nat); [f_equal; lia|]. rewrite !drop_ge by lia. done.
Qed.

Lemma lastn_lastn {A} n m (l : list A) : (n <= m)%nat -> lastn n (lastn m l) = lastn n l.
Proof. intros H. unfold lastn. rewrite drop_drop, length_drop. f_equal. lia. Qed.

(** The stream [x] was fed since the backlog was made or emptied, when the
    offset was [o]; no more than [2 ^ 62] bytes. *)
Record feeding (b : backlog) (o : Z) (x : bytes) : Prop := Feeding {
  fd_size : 0 < repl_backlog_size b < 2 ^ 60;
  fd_offset : master_repl_offset b = o + Z.of_nat (length x);
  fd_small : 0 <= o /\ o + Z.of_nat (length x) < 2 ^ 61;
  fd_hist : repl_backlog_histlen b = Z.min (repl_backlog_size b) (Z.of_nat (length x));
  fd_off : repl_backlog_off b = master_repl_offset b - repl_backlog_histlen b + 1;
  fd_idx : 0 <= repl_backlog_idx b < repl_backlog_size b;
  fd_buf : exists buf, repl_backlog b = Some buf /\ Z.of_nat (length buf) = repl_backlog_size b /\
    lastn (Z.to_nat (repl_backlog_histlen b)) (ring buf (Z.to_nat (repl_backlog_idx b))) =
    lastn (Z.to_nat (repl_backlog_histlen b)) x
}.

Lemma ring_length buf idx : length (ring buf idx) = length buf.
Proof. unfold ring. rewrite length_app, length_drop, length_take. lia. Qed.

(** Writing at the index and moving it is adding at the end. *)
Lemma ring_write buf i p buf' :
  wrn buf i p = Some buf' -> (i < length buf)%nat ->
  ring buf' (if (i + length p =? length buf)%nat then 0 else i + length p)%nat = drop (length p) (ring buf i) ++ p.
Proof.
  intros Hw Hi. unfold wrn in Hw. case_decide as Hl; [|done]. injection Hw as <-. unfold ring.
  assert (length (take i buf) = i) as Ht by (rewrite length_take; lia).
  rewrite (drop_app_le (drop i buf)), drop_drop by (rewrite length_drop; lia).
  destruct (Nat.eqb_spec (i + length p) (length buf)) as [E|E].
  - rewrite drop_0, app_nil_r. rewrite (drop_ge buf (i + length p)), app_nil_r, app_nil_l by lia. done.
  - rewrite drop_app_ge by lia. rewrite Ht. rewrite drop_app_ge by lia.
    rewrite take_app_ge by lia. rewrite Ht. rewrite take_app_le by lia. rewrite (take_ge p) by lia.
    replace (i + length p - i - length p)%nat with 0%nat by lia. rewrite drop_0. by rewrite <- app_assoc.
Qed.


Implicit Types (b : backlog) (x p : bytes).

Lemma new_buffer_length junk n : 0 <= n -> Z.of_nat (length (new_buffer junk n)) = n.
Proof. intros H. unfold new_buffer. rewrite length_fmap, length_seq. lia. Qed.

(** What the loop does to the buffer. *)
Record looped b buf p b' : Prop := Looped {
  lp_size : repl_backlog_size b' = repl_backlog_size b;
  lp_off : master_repl_offset b' = master_repl_offset b;
  lp_hist : repl_backlog_histlen b' = repl_backlog_histlen b + Z.of_nat (length p);
  lp_idx : 0 <= repl_backlog_idx b' < repl_backlog_size b;
  lp_buf : exists buf', repl_backlog b' = Some buf' /\ length buf' = length buf /\
    ring buf' (Z.to_nat (repl_backlog_idx b')) = lastn (length buf) (ring buf (Z.to_nat (repl_backlog_idx b)) ++ p)
}.

Lemma feed_loop_wp fuel : forall p b buf,
  (length p <= fuel)%nat -> repl_backlog b = Some buf -> Z.of_nat (length buf) = repl_backlog_size b ->
  0 <= repl_backlog_idx b < repl_backlog_size b -> repl_backlog_size b < 2 ^ 60 ->
  0 <= repl_backlog_histlen b -> repl_backlog_histlen b + Z.of_nat (length p) < 2 ^ 62 ->
  wp (feed_loop fuel p) (fun _ b' => looped b buf p b') b.
Proof.
  induction fuel as [|fuel IH]; intros p b buf Hp Hb Hn Hi Hs Hh0 Hh; (destruct p as [|c p];
    [apply wp_skip; split; try done; [cbn; lia|]; exists buf; split_and!; try done; rewrite app_nil_r, lastn_all; [done|rewrite ring_length; lia]|]);
    [cbn in Hp; lia|]. remember (c :: p) as q eqn:Eq. unfold feed_loop; fold feed_loop.
  assert (0 < length q)%nat as Hq by (subst q; cbn; lia). rewrite Eq, <- Eq. clear c p Eq.
  wp_step. cbn zeta. rewrite wrapu_small by (unfold is_unsigned; lia).
  set (t := if repl_backlog_size b - repl_backlog_idx b >? Z.of_nat (length q) then Z.of_nat (length q) else repl_backlog_size b - repl_backlog_idx b).
  assert (0 < t <= Z.of_nat (length q) /\ repl_backlog_idx b + t <= repl_backlog_size b) as [Ht Hit] by (subst t; destruct (_ >? _) eqn:E; lia).
  assert (length (take (Z.to_nat t) q) = Z.to_nat t) as Hlt by (rewrite length_take; lia).
  apply wp_bind. eapply wp_lift; [exact Hb|]. apply wp_bind.
  destruct (wrn buf (Z.to_nat (repl_backlog_idx b)) (take (Z.to_nat t) q)) as [buf1|] eqn:Ew;
    [|unfold wrn in Ew; case_decide; [done|lia]].
  pose proof (wrn_length _ _ _ _ Ew) as Hl1. eapply wp_lift; [done|]. apply ring_write in Ew; [|lia]. rewrite Hlt in Ew.
  wp_step. rewrite !wraps_small by (unfold is_signed; lia).
  set (idx := if repl_backlog_idx b + t =? repl_backlog_size b then 0 else repl_backlog_idx b + t).
  assert (0 <= idx < repl_backlog_size b) as Hidx by (subst idx; destruct (Z.eqb_spec (repl_backlog_idx b + t) (repl_backlog_size b)); lia).
  assert (Z.to_nat idx = if (Z.to_nat (repl_backlog_idx b) + Z.to_nat t =? length buf)%nat then 0%nat else (Z.to_nat (repl_backlog_idx b) + Z.to_nat t)%nat) as Eidx.
  { subst idx. destruct (Z.eqb_spec (repl_backlog_idx b + t) (repl_backlog_size b)), (Nat.eqb_spec (Z.to_nat (repl_backlog_idx b) + Z.to_nat t) (length buf)); lia. }
  eapply wp_mono; [eapply IH; cbn; [rewrite length_drop; lia|done|lia|lia|lia|lia|rewrite length_drop; lia]|].
  cbn beta. intros [] b' [A1 A2 A3 A4 (buf' & A5 & A6 & A7)]. cbn in *. rewrite length_drop in A3. split; try done; [lia|].
  exists buf'. split_and!; [done|lia|]. rewrite A7, Eidx, Ew, Hl1, <- app_assoc, take_drop.
  unfold lastn. rewrite <- drop_app_le by (rewrite ring_length; lia). rewrite drop_drop. f_equal.
  rewrite length_drop, length_app, ring_length. lia.
Qed.

Lemma feedReplicationBacklog_wp b o x p :
  feeding b o x -> o + Z.of_nat (length x + length p) < 2 ^ 61 ->
  wp (feedReplicationBacklog p) (fun _ b' => feeding b' o (x ++ p) /\ repl_backlog_size b' = repl_backlog_size b) b.
Proof.
  intros [Hs Ho [Ho0 Hsm] Hh Hoff Hi (buf & Hb & Hl & Hx)] Hp. unfold feedReplicationBacklog. wp_step.
  rewrite wraps_small by (unfold is_signed; lia). apply wp_bind.
  eapply wp_mono; [eapply (feed_loop_wp (length p) p _ buf); cbn; try done; lia|].
  cbn beta. intros [] b' [A1 A2 A3 A4 (buf' & A5 & A6 & A7)]. cbn in *. apply wp_modify. split; [|done].
  set (h := if repl_backlog_histlen b' >? repl_backlog_size b' then repl_backlog_size b' else repl_backlog_histlen b').
  assert (h = Z.min (repl_backlog_size b) (Z.of_nat (length x + length p))) as Eh by (subst h; destruct (_ >? _) eqn:E; lia).
  assert (Z.of_nat (length buf) = repl_backlog_size b) as Hl' by done.
  split; cbn; rewrite ?length_app; try (rewrite ?wraps_small by (unfold is_signed; lia)); rewrite ?A1, ?A2, ?Ho; try done; try lia.
  exists buf'. split_and!; [done|lia|]. rewrite A7, lastn_lastn by lia. rewrite !lastn_app. f_equal.
  rewrite <- (lastn_lastn _ (Z.to_nat (repl_backlog_histlen b)) (ring _ _)) by lia.
  rewrite <- (lastn_lastn _ (Z.to_nat (repl_backlog_histlen b)) x) by lia. by rewrite Hx.
Qed.

(** ** Reading *)

Lemma read_ring b buf k fuel :
  repl_backlog b = Some buf -> Z.of_nat (length buf) = repl_backlog_size b -> 0 <= repl_backlog_idx b < repl_backlog_size b ->
  (k <= length buf)%nat -> (2 <= fuel)%nat ->
  exists xs, read_loop fuel b (Z.rem (repl_backlog_idx b + Z.of_nat k) (repl_backlog_size b)) (repl_backlog_size b - Z.of_nat k) = Some xs /\
    concat xs = drop k (ring buf (Z.to_nat (repl_backlog_idx b))).
Proof.
  intros Hb Hl Hi Hk Hf. destruct fuel as [|[|fuel]]; [lia|lia|]. set (n := repl_backlog_size b) in *. set (i := repl_backlog_idx b) in *.
  assert (exists I, i = Z.of_nat I) as [I EI] by (exists (Z.to_nat i); lia). rewrite EI, Nat2Z.id. cbn [read_loop]. fold n.
  destruct (Z.eqb_spec (n - Z.of_nat k) 0) as [E|E].
  { exists []. split; [done|]. rewrite drop_ge by (rewrite ring_length; lia). done. }
  rewrite Hb. unfold ring. destruct (decide (I + k < length buf)%nat) as [Hlt|Hge].
  - rewrite Z.rem_small by lia. set (t := if n - (Z.of_nat I + Z.of_nat k) <? n - Z.of_nat k then n - (Z.of_nat I + Z.of_nat k) else n - Z.of_nat k).
    assert (t = n - (Z.of_nat I + Z.of_nat k)) as -> by (subst t; destruct (Z.ltb_spec (n - (Z.of_nat I + Z.of_nat k)) (n - Z.of_nat k)); lia).
    rewrite (proj2 (Z.ltb_ge _ _)) by lia. cbn [mbind option_bind].
    assert (rdn buf (Z.to_nat (Z.of_nat I + Z.of_nat k)) (Z.to_nat (n - (Z.of_nat I + Z.of_nat k))) = Some (drop (I + k) buf)) as ->.
    { unfold rdn. rewrite decide_True by lia. f_equal. rewrite take_ge by (rewrite length_drop; lia). f_equal. lia. }
    cbn [mbind option_bind]. rewrite drop_app_le by (rewrite length_drop; lia). rewrite drop_drop.
    destruct (Z.eqb_spec (n - Z.of_nat k - (n - (Z.of_nat I + Z.of_nat k))) 0) as [E0|E0].
    + eexists. split; [done|]. cbn [concat]. assert (I = 0%nat) as -> by lia. by rewrite take_0.
    + rewrite Z.sub_0_r. replace (n - Z.of_nat k - (n - (Z.of_nat I + Z.of_nat k))) with (Z.of_nat I) by lia.
      rewrite (proj2 (Z.ltb_ge n (Z.of_nat I))) by lia. rewrite (proj2 (Z.ltb_ge (Z.of_nat I) 0)) by lia.
      assert (rdn buf (Z.to_nat 0) (Z.to_nat (Z.of_nat I)) = Some (take I buf)) as ->.
      { unfold rdn. rewrite decide_True by lia. rewrite drop_0. do 2 f_equal. lia. }
      cbn [mbind option_bind]. rewrite Z.sub_diag. destruct fuel; (eexists; split; [done|]; cbn [concat]; by rewrite app_nil_r).
  - assert (Z.rem (Z.of_nat I + Z.of_nat k) n = Z.of_nat I + Z.of_nat k - n) as ->.
    { symmetry. apply (Z.rem_unique _ _ 1); lia. }
    assert ((if n - (Z.of_nat I + Z.of_nat k - n) <? n - Z.of_nat k then n - (Z.of_nat I + Z.of_nat k - n) else n - Z.of_nat k) = n - Z.of_nat k) as ->
      by (destruct (Z.ltb_spec (n - (Z.of_nat I + Z.of_nat k - n)) (n - Z.of_nat k)); lia).
    rewrite (proj2 (Z.ltb_ge _ _)) by lia. cbn [mbind option_bind]. rewrite drop_app_ge by (rewrite length_drop; lia). rewrite length_drop.
    rewrite Z.sub_diag, Z.eqb_refl. unfold rdn. rewrite decide_True by lia. cbn [mbind option_bind]. eexists. split; [done|].
    cbn [concat]. rewrite app_nil_r, take_drop_commute. f_equal; [lia|f_equal; lia].
Qed.

Lemma read_pieces b (xs : list bytes) fuel : forall j len, read_loop fuel b j len = Some xs -> (length xs <= fuel)%nat.
Proof.
  induction fuel as [|fuel IH] in xs |- *; intros j len H; cbn [read_loop] in H; destruct (len =? 0); simplify_eq; cbn; try lia.
  destruct (_ <? 0); [done|]. destruct (repl_backlog b) as [buf|]; [|done]. cbn [mbind option_bind] in H.
  destruct (rdn buf _ _) as [y|]; [|done]. cbn [mbind option_bind] in H.
  destruct (read_loop fuel b 0 _) as [ys|] eqn:E; [|done]. cbn [mbind option_bind] in H. injection H as <-. cbn. apply IH in E. lia.
Qed.

(** What is queued for a replica that asks for the stream from an offset that
    is still there: the pieces, and how many bytes. *)
Lemma read_from b o x offset :
  feeding b o x -> repl_backlog_off b <= offset <= master_repl_offset b + 1 ->
  exists xs, concat xs = drop (Z.to_nat (offset - o - 1)) x /\
    backlog_from b offset = Some (xs, master_repl_offset b + 1 - offset).
Proof.
  intros [Hs Ho [Ho0 Hsm] Hh Hoff Hi (buf & Hb & Hl & Hx)] Hr. unfold backlog_from.
  set (n := repl_backlog_size b) in *. set (h := repl_backlog_histlen b) in *.
  rewrite (wraps_small 64 (offset - _)), (wraps_small 64 (repl_backlog_idx _ + _)), (wraps_small 64 (h - _)) by (unfold is_signed; lia).
  pose proof (Z.rem_bound_pos (repl_backlog_idx b + (n - h)) n ltac:(lia) ltac:(lia)) as Hrem.
  rewrite (wraps_small 64 (Z.rem _ _ + _)) by (unfold is_signed; lia). set (skip := offset - repl_backlog_off b).
  destruct (read_ring b buf (Z.to_nat (n - h + skip)) 2 Hb Hl Hi) as (xs & Hread & Hc); [lia|lia|].
  exists xs. split.
  - rewrite Hc. unfold lastn in Hx. rewrite ring_length in Hx.
    apply (f_equal (drop (Z.to_nat skip))) in Hx. rewrite !drop_drop in Hx.
    replace (Z.to_nat (n - h + skip)) with (length buf - Z.to_nat h + Z.to_nat skip)%nat by lia. rewrite Hx. f_equal. lia.
  - fold n in Hread. rewrite Z2Nat.id in Hread by lia.
    assert (read_loop 2 b (Z.rem (Z.rem (repl_backlog_idx b + (n - h)) n + skip) n) (h - skip) = Some xs) as ->.
    { rewrite <- Hread. f_equal; [|lia]. rewrite (Z.rem_mod_nonneg (repl_backlog_idx b + (n - h))) by lia.
      pose proof (Z.mod_pos_bound (repl_backlog_idx b + (n - h)) n ltac:(lia)) as Hm. rewrite !Z.rem_mod_nonneg by lia.
      rewrite Zplus_mod_idemp_l. f_equal. lia. }
    cbn [mbind option_bind]. do 2 f_equal. unfold skip. lia.
Qed.

Lemma from_pieces b offset xs len : backlog_from b offset = Some (xs, len) -> (length xs <= 2)%nat.
Proof.
  unfold backlog_from. destruct (read_loop 2 b _ _) as [ys|] eqn:E; [|done]. cbn. intros [= <- _]. by eapply read_pieces.
Qed.

Lemma create_feeding junk b :
  repl_backlog b = None -> 0 < repl_backlog_size b < 2 ^ 60 -> 0 <= master_repl_offset b < 2 ^ 60 ->
  wp (createReplicationBacklog junk) (fun _ b' => feeding b' (master_repl_offset b + 1) [] /\ repl_backlog_size b' = repl_backlog_size b) b.
Proof.
  intros Hb Hs Hm. unfold createReplicationBacklog. wp_step. apply wp_bind, wp_check; [by apply bool_decide_eq_true|].
  apply wp_modify. split; [|done]. rewrite (wraps_small _ (master_repl_offset b + 1)), wraps_small by (unfold is_signed; lia). split; cbn; try lia.
  exists (new_buffer junk (repl_backlog_size b)). split_and!; [done|apply new_buffer_length; lia|]. unfold lastn. by rewrite !drop_ge by lia.
Qed.

Lemma resize_feeding junk b o x n :
  feeding b o x -> n < 2 ^ 60 ->
  wp (resizeReplicationBacklog junk n) (fun _ b' => repl_backlog_size b' = Z.max n CONFIG_REPL_BACKLOG_MIN_SIZE /\
    if decide (repl_backlog_size b' = repl_backlog_size b) then b' = b else feeding b' (o + Z.of_nat (length x)) []) b.
Proof.
  intros [Hs Ho [Ho0 Hsm] Hh Hoff Hi (buf & Hb & Hl & Hx)] Hn. unfold resizeReplicationBacklog. wp_step.
  assert ((if n <? CONFIG_REPL_BACKLOG_MIN_SIZE then CONFIG_REPL_BACKLOG_MIN_SIZE else n) = Z.max n CONFIG_REPL_BACKLOG_MIN_SIZE) as ->
    by (destruct (Z.ltb_spec n CONFIG_REPL_BACKLOG_MIN_SIZE); lia).
  set (m := Z.max n CONFIG_REPL_BACKLOG_MIN_SIZE). assert (0 < m < 2 ^ 60) as Hm by (unfold m, CONFIG_REPL_BACKLOG_MIN_SIZE; lia).
  destruct (Z.eqb_spec (repl_backlog_size b) m) as [E|E]; [apply wp_skip; split; [done|by rewrite decide_True]|].
  rewrite Hb. apply wp_modify. cbn. split; [done|]. rewrite decide_False by congruence.
  rewrite wraps_small by (unfold is_signed; lia). split; cbn; try lia.
  exists (new_buffer junk m). split_and!; [done|apply new_buffer_length; lia|]. unfold lastn. by rewrite !drop_ge by lia.
Qed.

(** Feeding several texts. *)
Lemma feeds_wp ps : forall b o x, feeding b o x -> o + Z.of_nat (length x + length (concat ps)) < 2 ^ 61 ->
  wp (for_each ps feedReplicationBacklog) (fun _ b' => feeding b' o (x ++ concat ps) /\ repl_backlog_size b' = repl_backlog_size b) b.
Proof.
  induction ps as [|p ps IH]; intros b o x F Hs; cbn [for_each concat] in *; [apply wp_skip; by rewrite app_nil_r|].
  rewrite length_app in Hs. wp_use (feedReplicationBacklog_wp b o x p F); [lia|]. intros [] b1 [F1 S1]. cbn beta.
  eapply wp_mono; [apply (IH b1 o (x ++ p) F1); rewrite length_app; lia|]. intros [] b2 [F2 S2]. rewrite app_assoc, <- S1. done.
Qed.

(** C38. A backlog that is made and fed any texts has the last of their bytes,
    as many as its size: from every offset that is still there the bytes that
    are read are those of the stream from that offset to its end, in at most
    two pieces. *)
Theorem backlog_reads_back junk b ps :
  repl_backlog b = None -> 0 < repl_backlog_size b < 2 ^ 60 -> 0 <= master_repl_offset b < 2 ^ 60 -> Z.of_nat (length (concat ps)) < 2 ^ 59 ->
  wp (_ ← createReplicationBacklog junk; for_each ps feedReplicationBacklog) (fun _ b' =>
    let total := Z.of_nat (length (concat ps)) in
    let start := master_repl_offset b + 2 in
    repl_backlog_off b' = start + total - Z.min (repl_backlog_size b) total /\
    forall offset, repl_backlog_off b' <= offset <= start + total ->
      exists xs, backlog_from b' offset = Some (xs, start + total - offset) /\ (length xs <= 2)%nat /\
        concat xs = drop (Z.to_nat (offset - start)) (concat ps)) b.
Proof.
  intros Hb Hs Hm Hp. wp_use (create_feeding junk b Hb Hs Hm). intros [] b1 [F1 S1]. cbn beta.
  eapply wp_mono; [apply (feeds_wp ps b1 _ [] F1); cbn; lia|]. cbn [app]. intros [] b2 [F2 S2]. cbn zeta.
  pose proof F2 as [_ Ho _ Hh Hf _ _]. split; [lia|]. intros offset Hoff.
  destruct (read_from b2 _ _ offset F2) as (xs & Hc & Hr); [lia|]. exists xs. split_and!.
  - rewrite Hr. do 2 f_equal. lia.
  - by eapply from_pieces.
  - rewrite Hc. f_equal. lia.
Qed.

Example backlog_reads_back_witness :
  let b := MkBacklog None 5 0 0 0 0 in let ps := [[1; 2; 3]; [4; 5; 6; 7]] in
  match (_ ← createReplicationBacklog (fun _ => 0); for_each ps feedReplicationBacklog) b with
  | Some (b', _) => backlog_from b' 4 = Some ([[3; 4; 5]; [6; 7]], 5)
  | None => False
  end /\
  wp (_ ← createReplicationBacklog (fun _ => 0); for_each ps feedReplicationBacklog) (fun _ b' =>
    let total := Z.of_nat (length (concat ps)) in
    let start := master_repl_offset b + 2 in
    repl_backlog_off b' = start + total - Z.min (repl_backlog_size b) total /\
    forall offset, repl_backlog_off b' <= offset <= start + total ->
      exists xs, backlog_from b' offset = Some (xs, start + total - offset) /\ (length xs <= 2)%nat /\
        concat xs = drop (Z.to_nat (offset - start)) (concat ps)) b.
Proof. cbn zeta. split; [vm_compute; reflexivity|]. apply backlog_reads_back; cbn; lia || done. Defined.

End Backlog.
