(* ===== verification/ScriptCache.v ===== *)
(** * The cache of the scripts that every replica knows (src/replication.c)

    The digests of the scripts, in a dictionary and in the order in which they
    were added, the newest first; the oldest one leaves when the cache is
    full.  The type of the keys, [replScriptCacheDictType], is declared in
    src/server.h and not defined in the repository: it is an argument. *)

From S2P Require Import Prelude Monad Dict DictTypes DictSpec.
Import Monad Dict DictTypes DictSpec.

Module ScriptCache.

(** The fields of [struct redisServer] about the cache. *)
Record script_cache := MkScripts {
  repl_scriptcache_dict : dict bytes unit;
  repl_scriptcache_fifo : list bytes;
  repl_scriptcache_size : Z
}.

Section Ops.
Context (replScriptCacheDictType : dictType bytes unit) (can_resize : bool) (alloc : list addr -> addr).

#[local] Existing Instance replScriptCacheDictType.

Abbreviation M := (M script_cache).

Definition replicationScriptCacheInit : M unit := modify (fun _ => MkScripts dictCreate [] 10000).

Definition replicationScriptCacheFlush : M unit :=
  modify (fun s => MkScripts (dictEmpty (repl_scriptcache_dict s)).1 [] (repl_scriptcache_size s)).

(** [list] without its last element, and that one. *)
Definition evict_oldest : M unit :=
  s ← get;
  if Z.of_nat (length (repl_scriptcache_fifo s)) =? repl_scriptcache_size s then
    oldest ← lift (last (repl_scriptcache_fifo s));
    '(d, retval) ← lift (dictDelete (repl_scriptcache_dict s) oldest);
    _ ← check retval;
    modify (fun s => MkScripts d (removelast (repl_scriptcache_fifo s)) (repl_scriptcache_size s))
  else skip.

Definition replicationScriptCacheAdd (sha1 : bytes) : M unit :=
  _ ← evict_oldest;
  s ← get;
  '(d, retval) ← lift (dictAdd tt can_resize (alloc (eaddr <$> dict_entries (repl_scriptcache_dict s))) (repl_scriptcache_dict s) sha1 tt);
  _ ← modify (fun s => MkScripts d (sha1 :: repl_scriptcache_fifo s) (repl_scriptcache_size s));
  check retval.

Definition replicationScriptCacheExists (sha1 : bytes) : M bool :=
  s ← get;
  '(d, he) ← lift (dictFind (repl_scriptcache_dict s) sha1);
  _ ← modify (fun s => MkScripts d (repl_scriptcache_fifo s) (repl_scriptcache_size s));
  mret (match he with Some _ => true | None => false end).

End Ops.

(** ** The newest digests *)

Section Spec.
Context (T : dictType bytes unit) {L : dictTypeLaws bytes unit (T := T)}.
(** The caller copies the key itself. *)
Context (Hdup : forall k : bytes, keyDup (dictType := T) k = k).
Context (can_resize : bool) (alloc : list addr -> addr) (Halloc : forall l, alloc l ∉ l).

Implicit Types (s : script_cache) (k : bytes) (ks : list bytes).

Definition pairs ks : list (bytes * unit) := (fun k => (k, tt)) <$> ks.

(** The cache has the digests [ks], the newest first. *)
Record cache_rep s ks : Prop := CacheRep {
  cr_dict : dict_rep (repl_scriptcache_dict s) (pairs ks);
  cr_fifo : repl_scriptcache_fifo s = ks;
  cr_size : 0 < repl_scriptcache_size s < DICT_LIMIT;
  cr_bound : Z.of_nat (length ks) <= repl_scriptcache_size s
}.

Definition in_cache sha1 ks : bool := existsb (fun k => keyCompare (V := unit) sha1 k) ks.

Lemma assoc_pairs sha1 ks : assoc sha1 (pairs ks) = if in_cache sha1 ks then Some tt else None.
Proof. induction ks as [|k ks IH]; [done|]. cbn. unfold in_cache in *. cbn. destruct (keyCompare sha1 k); [done|exact IH]. Qed.

Lemma pairs_last d ks k : dict_rep d (pairs (ks ++ [k])) -> filter (fun p : bytes * unit => keyCompare (V := unit) k p.1 = false) (pairs (ks ++ [k])) = pairs ks.
Proof.
  intros Hr. assert (forall j, j ∈ ks -> keyCompare (V := unit) k j = false) as Hd.
  { pose proof Hr as [_ Hp]. assert ((k, tt) ∈ kv <$> dict_entries d) as Hin.
    { rewrite Hp. apply list_elem_of_fmap. exists k. split; [done|]. apply elem_of_app. right. by left. }
    apply list_elem_of_fmap in Hin as (e & Ee & He). destruct (rep_split d _ e Hr He) as (es & _ & Hl & Hf). rewrite <- Ee in Hl.
    unfold pairs in Hl. rewrite fmap_app in Hl. cbn in Hl. rewrite (Permutation_app_comm _ [_]) in Hl. cbn in Hl. apply (Permutation_cons_inv (a := (k, tt))) in Hl.
    intros j Hj. assert ((j, tt) ∈ kv <$> es) as Hje by (rewrite <- Hl; apply list_elem_of_fmap; by exists j).
    apply list_elem_of_fmap in Hje as (f & Ef & Hfin). rewrite Forall_forall in Hf. specialize (Hf f Hfin).
    injection Ee as Ek _. injection Ef as Ej _. by rewrite Ek, Ej. }
  unfold pairs. rewrite fmap_app, filter_app. cbn [fmap list_fmap]. rewrite (filter_cons_False _ _ []), filter_nil, app_nil_r.
  - rewrite filter_all; [done|]. apply Forall_forall. intros p Hp. apply list_elem_of_fmap in Hp as (j & -> & Hj). by apply Hd.
  - cbn [fst]. by rewrite compare_refl.
Qed.

Lemma pairs_length ks : length (pairs ks) = length ks.
Proof. apply length_fmap. Qed.

(** What adding does: the digests that are left, or that the program stops. *)
Definition ref_evict (size : Z) ks : list bytes := if Z.of_nat (length ks) =? size then removelast ks else ks.

Definition ref_add (size : Z) ks (sha1 : bytes) : option (list bytes) :=
  let ks := ref_evict size ks in if in_cache sha1 ks then None else Some (sha1 :: ks).

Lemma evict_wp s ks : cache_rep s ks ->
  wp (evict_oldest T) (fun _ s' => cache_rep s' (ref_evict (repl_scriptcache_size s) ks) /\ repl_scriptcache_size s' = repl_scriptcache_size s /\
    Z.of_nat (length (repl_scriptcache_fifo s')) < repl_scriptcache_size s) s.
Proof.
  intros [Hd Hf Hs Hb]. unfold evict_oldest, ref_evict. wp_step. rewrite Hf.
  destruct (Z.eqb_spec (Z.of_nat (length ks)) (repl_scriptcache_size s)) as [E|E]; [|apply wp_skip; split_and!; [done|done|rewrite Hf; lia]].
  destruct ks as [|oldest ks _] using rev_ind; [cbn in E; lia|]. rewrite last_snoc, removelast_last. rewrite length_app in E, Hb. cbn in E, Hb.
  apply wp_bind. eapply wp_lift; [done|]. destruct (dictDelete_rep _ _ oldest Hd) as (d' & Ed & Hd'). apply wp_bind. eapply wp_lift; [exact Ed|].
  unfold ref_delete in Hd' |- *. cbn [fst snd] in *. rewrite (pairs_last (repl_scriptcache_dict s)) in Hd' by exact Hd. cbn beta iota.
  apply wp_bind, wp_check.
  - apply bool_decide_eq_true. rewrite assoc_pairs. unfold in_cache. rewrite existsb_app. cbn.
    assert (keyCompare oldest oldest = true) as -> by exact (compare_refl oldest). rewrite orb_true_r. by eexists.
  - apply wp_modify. rewrite Hf, removelast_last. split_and!; [constructor; cbn; try done; lia|done|cbn; lia].
Qed.

Lemma add_wp s ks (sha1 : bytes) ks' : cache_rep s ks -> ref_add (repl_scriptcache_size s) ks sha1 = Some ks' ->
  wp (replicationScriptCacheAdd T can_resize alloc sha1) (fun _ s' => cache_rep s' ks' /\ repl_scriptcache_size s' = repl_scriptcache_size s) s.
Proof.
  intros H Hr. unfold replicationScriptCacheAdd. wp_use (evict_wp s ks H). intros [] s1 (H1 & E1 & L1). cbn beta. unfold ref_add in Hr.
  destruct (in_cache sha1 _) eqn:Hin; [done|]. injection Hr as <-. destruct H1 as [Hd Hf Hs Hb]. wp_step.
  destruct (dictAdd_rep tt can_resize (alloc (eaddr <$> dict_entries (repl_scriptcache_dict s1))) _ _ sha1 tt Hd) as (d' & Ed & Hd'); [rewrite pairs_length, <- Hf; lia|apply Halloc|].
  unfold DictSpec.ref_add in Ed, Hd'. rewrite assoc_pairs, Hin in Ed, Hd'. apply wp_bind. eapply wp_lift; [exact Ed|]. cbn beta iota.
  wp_step. apply wp_check; [done|]. cbn. split; [|done]. rewrite Hf. rewrite Hdup in Hd'. destruct (valDup ()). constructor; cbn; [exact Hd'|done|done|]. rewrite Hf in L1. lia.
Qed.

Lemma exists_wp s ks (sha1 : bytes) : cache_rep s ks ->
  wp (replicationScriptCacheExists T sha1) (fun b s' => b = in_cache sha1 ks /\ cache_rep s' ks /\ repl_scriptcache_size s' = repl_scriptcache_size s) s.
Proof.
  intros [Hd Hf Hs Hb]. unfold replicationScriptCacheExists. wp_step. destruct (dictFind_rep _ _ sha1 Hd) as (d' & r & Ed & Hd' & Hr).
  apply wp_bind. eapply wp_lift; [exact Ed|]. cbn beta iota. wp_step. apply wp_ret. split_and!; [|by constructor|done].
  pose proof (assoc_pairs sha1 ks) as Ha. destruct r as [a|].
  - destruct Hr as (e & He & Ea & Hk). rewrite (rep_found _ _ _ _ e Hd' He Ea Hk) in Ha. by destruct (in_cache sha1 ks).
  - rewrite (rep_missing _ _ _ Hd' Hr) in Ha. by destruct (in_cache sha1 ks).
Qed.

Lemma flush_wp s ks : cache_rep s ks ->
  wp (replicationScriptCacheFlush) (fun _ s' => cache_rep s' [] /\ repl_scriptcache_size s' = repl_scriptcache_size s) s.
Proof.
  intros [Hd Hf Hs Hb]. unfold replicationScriptCacheFlush. apply wp_modify. split; [|done].
  constructor; [|done|done|cbn; lia]. cbn [repl_scriptcache_dict]. rewrite dictEmpty_spec by apply Hd. apply dictCreate_rep.
Qed.

(** ** Sequences of calls *)

Inductive cache_call :=
| CAdd (sha1 : bytes)
| CExists (sha1 : bytes)
| CFlush.

Definition run_call (c : cache_call) : M script_cache bool :=
  match c with
  | CAdd sha1 => _ ← replicationScriptCacheAdd T can_resize alloc sha1; mret true
  | CExists sha1 => replicationScriptCacheExists T sha1
  | CFlush => _ ← replicationScriptCacheFlush; mret true
  end.

Definition ref_call (size : Z) (c : cache_call) ks : option (list bytes * bool) :=
  match c with
  | CAdd sha1 => ks ← ref_add size ks sha1; Some (ks, true)
  | CExists sha1 => Some (ks, in_cache sha1 ks)
  | CFlush => Some ([], true)
  end.

Fixpoint run_calls (cs : list cache_call) : M script_cache (list bool) :=
  match cs with
  | [] => mret []
  | c :: cs => b ← run_call c; bs ← run_calls cs; mret (b :: bs)
  end.

Fixpoint ref_calls (size : Z) (cs : list cache_call) ks : option (list bytes * list bool) :=
  match cs with
  | [] => Some (ks, [])
  | c :: cs => '(ks, b) ← ref_call size c ks; '(ks, bs) ← ref_calls size cs ks; Some (ks, b :: bs)
  end.

Lemma call_wp c s ks ks' b : cache_rep s ks -> ref_call (repl_scriptcache_size s) c ks = Some (ks', b) ->
  wp (run_call c) (fun b' s' => b' = b /\ cache_rep s' ks' /\ repl_scriptcache_size s' = repl_scriptcache_size s) s.
Proof.
  intros H Hr. destruct c as [sha1|sha1|]; cbn [run_call ref_call] in *.
  - destruct (ref_add _ ks sha1) as [ks1|] eqn:E; [|done]. cbn in Hr. injection Hr as <- <-. wp_use (add_wp s ks sha1 ks1 H E). intros [] s1 H1. by apply wp_ret.
  - injection Hr as <- <-. by apply exists_wp.
  - injection Hr as <- <-. wp_use (flush_wp s ks H). intros [] s1 H1. by apply wp_ret.
Qed.

Lemma calls_wp cs : forall s ks ks' bs, cache_rep s ks -> ref_calls (repl_scriptcache_size s) cs ks = Some (ks', bs) ->
  wp (run_calls cs) (fun bs' s' => bs' = bs /\ cache_rep s' ks' /\ repl_scriptcache_size s' = repl_scriptcache_size s) s.
Proof.
  induction cs as [|c cs IH]; intros s ks ks' bs H Hr; cbn [run_calls ref_calls] in *; [injection Hr as <- <-; by apply wp_ret|].
  destruct (ref_call _ c ks) as [[ks1 b]|] eqn:E; [|done]. cbn in Hr. destruct (ref_calls _ cs ks1) as [[ks2 bs2]|] eqn:E2; [|done]. cbn in Hr.
  injection Hr as <- <-. wp_use (call_wp c s ks ks1 b H E). intros b' s1 (-> & H1 & S1). cbn beta. rewrite <- S1 in E2.
  wp_use (IH s1 ks1 ks2 bs2 H1 E2). intros bs' s2 (-> & H2 & S2). apply wp_ret. split_and!; [done|done|congruence].
Qed.

Lemma init_rep s : wp replicationScriptCacheInit (fun _ s' => cache_rep s' [] /\ repl_scriptcache_size s' = 10000) s.
Proof. apply wp_modify. split; [|done]. constructor; cbn; [apply dictCreate_rep|done|unfold DICT_LIMIT; lia|lia]. Qed.

End Spec.

(** C39. After any calls the cache of the scripts has the digests that were
    added last and not flushed since, at most ten thousand of them, and tells
    of each digest whether it is one of them; a digest that is there is not to
    be added again. *)
Theorem script_cache_newest (T : dictType bytes unit) (can_resize : bool) (alloc : list addr -> addr) s cs ks bs :
  dictTypeLaws bytes unit (T := T) -> (forall k : bytes, keyDup k = k) -> (forall l, alloc l ∉ l) -> ref_calls T 10000 cs [] = Some (ks, bs) ->
  wp (_ ← replicationScriptCacheInit; run_calls T can_resize alloc cs) (fun bs' s' =>
    bs' = bs /\ repl_scriptcache_fifo s' = ks /\ Z.of_nat (length ks) <= 10000 /\
    dict_rep (T := T) (repl_scriptcache_dict s') (pairs ks)) s.
Proof.
  intros L Hdup Ha Hr. wp_use (init_rep T s). intros [] s1 [H1 S1]. cbn beta. rewrite <- S1 in Hr.
  eapply wp_mono; [by eapply calls_wp|]. cbn beta. intros bs' s2 (-> & [Hd Hf Hs Hb] & S2). split_and!; try done. lia.
Qed.

(** Digests that are compared as bytes. *)
Definition sample_digests : dictType bytes unit := DictType _ _ (dictGenHashFunction 5381) id id (fun a b => bool_decide (a = b)).

Lemma sample_digests_laws : dictTypeLaws bytes unit (T := sample_digests).
Proof. split; cbn; unfold id; intros *; rewrite ?bool_decide_eq_true; congruence. Qed.

Example script_cache_newest_witness :
  let cs := [CAdd (str "a1"); CAdd (str "b2"); CExists (str "a1"); CFlush; CExists (str "a1"); CAdd (str "a1")] in
  ref_calls sample_digests 10000 cs [] = Some ([str "a1"], [true; true; true; true; false; true]) /\
  wp (_ ← replicationScriptCacheInit; run_calls sample_digests true next_address cs) (fun bs' s' =>
    bs' = [true; true; true; true; false; true] /\ repl_scriptcache_fifo s' = [str "a1"] /\ Z.of_nat (length [str "a1"]) <= 10000 /\
    dict_rep (T := sample_digests) (repl_scriptcache_dict s') (pairs [str "a1"])) (MkScripts dictCreate [] 0).
Proof. cbn zeta. split; [by vm_compute|]. apply script_cache_newest; [apply sample_digests_laws|done|apply next_address_fresh|by vm_compute]. Defined.

End ScriptCache.
