(* ===== verification/Repl.v ===== *)
(** * Replication, the side of the master (src/replication.c, src/networking.c)

    The stream of commands is written to the backlog and queued for every
    replica.  A client that issues SYNC or PSYNC becomes a replica: it goes on
    from an offset that is still in the backlog, or waits for a full copy
    and is told the offset from which its stream begins. *)

From S2P Require Import Prelude Monad Util Sds DictTypes Object State Reply Backlog ScriptCache.
Import Monad Util Sds DictTypes Object State Reply Backlog ScriptCache.

Module Repl.

Definition CLIENT_PRE_PSYNC : Z := Z.shiftl 1 16.
Definition SLAVE_STATE_WAIT_BGSAVE_START : Z := 6.
Definition SLAVE_STATE_WAIT_BGSAVE_END : Z := 7.
Definition SLAVE_CAPA_EOF : Z := 1.
Definition RDB_CHILD_TYPE_DISK : Z := 1.
Definition RDB_CHILD_TYPE_SOCKET : Z := 2.
Definition PROTO_SHARED_SELECT_CMDS : Z := 10.
Definition LONG_STR_SIZE : Z := 21.

(** What a client has as a replica. *)
Record slave_info := SlaveInfo { psync_initial_offset : Z; repl_ack_off : Z; slave_capa : Z }.

(** [sv] is the rest of the server; the client that an operation of [Reply]
    works on is put in place for it, the others are in [clients] under their
    numbers.  [rdb_child] is the type of the running save, and [written] is a
    trace, which the program does not keep, of what was written to sockets
    directly. *)
Record repl (P : Type) := MkRepl {
  bl : backlog;
  sv : state P;
  clients : gmap Z client;
  slaves : list Z;
  infos : gmap Z slave_info;
  slaveseldb : Z;
  repl_good_slaves_count : Z;
  stat_sync : Z * Z * Z;
  rdb_child : option Z;
  written : list (Z * bytes);
  scripts : script_cache
}.
#[global] Arguments MkRepl {P} _ _ _ _ _ _ _ _ _ _ _.
#[global] Arguments bl {P} _.
#[global] Arguments sv {P} _.
#[global] Arguments clients {P} _.
#[global] Arguments slaves {P} _.
#[global] Arguments infos {P} _.
#[global] Arguments slaveseldb {P} _.
#[global] Arguments repl_good_slaves_count {P} _.
#[global] Arguments stat_sync {P} _.
#[global] Arguments rdb_child {P} _.
#[global] Arguments written {P} _.
#[global] Arguments scripts {P} _.

(** The configuration, and the answers of what is outside: the writes to a
    socket, by their number, and the saves to a file and to the sockets of the
    replicas. *)
Record repl_config := ReplConfig {
  select : list addr;
  runid : bytes;
  sock_write : nat -> Z -> bytes -> Z;
  rdbSaveBackground : nat -> bool;
  repl_diskless_sync : bool;
  repl_min_slaves_to_write : Z;
  repl_min_slaves_max_lag : Z;
  repl_state_connected : bool
}.

Section Ops.
Context {P : Type} (C : config) (R : repl_config).

Abbreviation repl := (repl P).
Abbreviation M := (M repl).

(** The save to the sockets of the replicas: the repository has no rdb.c. *)
Context (rdbSaveToSlavesSockets : M bool).

(** ** Access *)

Definition set_bl (b : backlog) (r : repl) : repl :=
  MkRepl b (sv r) (clients r) (slaves r) (infos r) (slaveseldb r) (repl_good_slaves_count r) (stat_sync r) (rdb_child r) (written r) (scripts r).
Definition set_sv (s : state P) (r : repl) : repl :=
  MkRepl (bl r) s (clients r) (slaves r) (infos r) (slaveseldb r) (repl_good_slaves_count r) (stat_sync r) (rdb_child r) (written r) (scripts r).
Definition set_clients (f : gmap Z client -> gmap Z client) (r : repl) : repl :=
  MkRepl (bl r) (sv r) (f (clients r)) (slaves r) (infos r) (slaveseldb r) (repl_good_slaves_count r) (stat_sync r) (rdb_child r) (written r) (scripts r).
Definition set_slaves (f : list Z -> list Z) (r : repl) : repl :=
  MkRepl (bl r) (sv r) (clients r) (f (slaves r)) (infos r) (slaveseldb r) (repl_good_slaves_count r) (stat_sync r) (rdb_child r) (written r) (scripts r).
Definition set_infos (f : gmap Z slave_info -> gmap Z slave_info) (r : repl) : repl :=
  MkRepl (bl r) (sv r) (clients r) (slaves r) (f (infos r)) (slaveseldb r) (repl_good_slaves_count r) (stat_sync r) (rdb_child r) (written r) (scripts r).
Definition set_slaveseldb (d : Z) (r : repl) : repl :=
  MkRepl (bl r) (sv r) (clients r) (slaves r) (infos r) d (repl_good_slaves_count r) (stat_sync r) (rdb_child r) (written r) (scripts r).
Definition set_good (n : Z) (r : repl) : repl :=
  MkRepl (bl r) (sv r) (clients r) (slaves r) (infos r) (slaveseldb r) n (stat_sync r) (rdb_child r) (written r) (scripts r).
Definition set_stat (f : Z * Z * Z -> Z * Z * Z) (r : repl) : repl :=
  MkRepl (bl r) (sv r) (clients r) (slaves r) (infos r) (slaveseldb r) (repl_good_slaves_count r) (f (stat_sync r)) (rdb_child r) (written r) (scripts r).
Definition set_child (o : option Z) (r : repl) : repl :=
  MkRepl (bl r) (sv r) (clients r) (slaves r) (infos r) (slaveseldb r) (repl_good_slaves_count r) (stat_sync r) o (written r) (scripts r).
Definition add_written (fd : Z) (x : bytes) (r : repl) : repl :=
  MkRepl (bl r) (sv r) (clients r) (slaves r) (infos r) (slaveseldb r) (repl_good_slaves_count r) (stat_sync r) (rdb_child r) (written r ++ [(fd, x)]) (scripts r).

Definition set_scripts (c : script_cache) (r : repl) : repl :=
  MkRepl (bl r) (sv r) (clients r) (slaves r) (infos r) (slaveseldb r) (repl_good_slaves_count r) (stat_sync r) (rdb_child r) (written r) c.

Definition get_client (id : Z) : M client := r ← get; lift (clients r !! id).
Definition get_info (id : Z) : M slave_info := r ← get; lift (infos r !! id).

Definition upd_client (id : Z) (f : client -> client) : M unit :=
  c ← get_client id; modify (set_clients (fun m => <[id := f c]> m)).

Definition upd_info (id : Z) (f : slave_info -> slave_info) : M unit :=
  i ← get_info id; modify (set_infos (fun m => <[id := f i]> m)).

(** The server with a client in place. *)
Definition focus (c : client) (s : state P) : state P := State.set_cl (fun _ => c) s.

Definition with_client {A} (id : Z) (m : Monad.M (state P) A) : M A := fun r =>
  match clients r !! id with
  | None => None
  | Some c =>
    match m (focus c (sv r)) with
    | Some (s, a) => Some (set_clients (fun m => <[id := cl s]> m) (set_sv s r), a)
    | None => None
    end
  end.

Definition on_backlog {A} (m : Monad.M backlog A) : M A := fun r =>
  match m (bl r) with Some (b, a) => Some (set_bl b r, a) | None => None end.

Definition on_scripts {A} (m : Monad.M script_cache A) : M A := fun r =>
  match m (scripts r) with Some (c, a) => Some (set_scripts c r, a) | None => None end.

(** The heap of objects. *)
Definition on_objects {A} (f : gmap addr (robj P) -> option (gmap addr (robj P) * A)) : M A :=
  r ← get; '(h, a) ← lift (f (objects (sv r))); _ ← modify (set_sv (State.set_objects (fun _ => h) (sv r))); mret a.

Definition object (a : addr) : M (robj P) := r ← get; lift (objects (sv r) !! a).

(** [replstate], [repl_ack_time] and [repl_put_online_on_ack] of a client. *)
Definition set_replstate (n : Z) (c : client) : client :=
  Client (cid c) (fd c) (flags c) (cdb c) n (repl_put_online_on_ack c) (repl_ack_time c) (cmd c) (cin c) (cout c) (csock c) (cext c).
Definition set_put_online (b : bool) (c : client) : client :=
  Client (cid c) (fd c) (flags c) (cdb c) (replstate c) b (repl_ack_time c) (cmd c) (cin c) (cout c) (csock c) (cext c).

(** ** The backlog *)

(** The digits of a number in a buffer of [n] bytes. *)
Definition print (n v : Z) : option bytes :=
  '(len, b) ← ll2string (junk (senv C) <$> seq 0 (Z.to_nat n)) n v; rdn b 0 (Z.to_nat len).

Definition object_text (o : robj P) : option bytes :=
  if encoding o =? OBJ_ENCODING_INT then v ← as_long (ptr o); print LONG_STR_SIZE v
  else s ← as_sds (ptr o); rdn (Sds.buf s) 0 (Z.to_nat (sdslen s)).

Definition feedReplicationBacklogWithObject (a : addr) : M unit :=
  o ← object a; x ← lift (object_text o); on_backlog (feedReplicationBacklog x).

(** ** The stream *)

(** The text of a SELECT command. *)
Definition select_text (dictid : Z) : option bytes :=
  s ← print LONG_STR_SIZE dictid;
  Some (str "*2" ++ CRLF ++ str "$6" ++ CRLF ++ str "SELECT" ++ CRLF ++ str "$" ++ decimal (Z.of_nat (length s)) ++ CRLF ++ s ++ CRLF).

Definition shared_select (dictid : Z) : bool := (dictid >=? 0) && (dictid <? PROTO_SHARED_SELECT_CMDS).

Definition select_object (dictid : Z) : M addr :=
  if shared_select dictid then lift (select R !! Z.to_nat dictid)
  else
    x ← lift (select_text dictid);
    s ← lift (sdsnewlen (junk (senv C)) (Some x) (Z.of_nat (length x)));
    on_objects (fun h => let a := alloc_object C (dom h) in Some (createObject (senv C) a h OBJ_STRING (PSds s), a)).

(** What every replica is given that is not waiting for a save to start. *)
Definition for_slaves (ids : list Z) (m : Monad.M (state P) unit) : M unit :=
  for_each ids (fun id =>
    c ← get_client id;
    if replstate c =? SLAVE_STATE_WAIT_BGSAVE_START then skip else with_client id m).

Definition feed_select (ids : list Z) (dictid : Z) : M unit :=
  selectcmd ← select_object dictid;
  r ← get;
  _ ← (match repl_backlog (bl r) with Some _ => feedReplicationBacklogWithObject selectcmd | None => skip end);
  _ ← for_slaves ids (addReply C selectcmd);
  if shared_select dictid then skip else on_objects (fun h => h ← decrRefCount h selectcmd; Some (h, tt)).

(** The line of a count, in a buffer of 24 bytes. *)
Definition aux_line (prefix n : Z) : option bytes :=
  x ← print (LONG_STR_SIZE + 3 - 1) n;
  if Z.of_nat (length x) + 3 <=? LONG_STR_SIZE + 3 then Some (prefix :: x ++ CRLF) else None.

Definition feed_argument (a : addr) : M unit :=
  r ← get;
  objlen ← lift (stringObjectLen (objects (sv r)) a);
  line ← lift (aux_line 36 objlen);
  _ ← on_backlog (feedReplicationBacklog line);
  _ ← feedReplicationBacklogWithObject a;
  on_backlog (feedReplicationBacklog CRLF).

Definition feed_backlog (argv : list addr) : M unit :=
  line ← lift (aux_line 42 (Z.of_nat (length argv)));
  _ ← on_backlog (feedReplicationBacklog line);
  for_each argv feed_argument.

Definition reply_command (argv : list addr) : Monad.M (state P) unit :=
  _ ← addReplyMultiBulkLen C (Z.of_nat (length argv));
  for_each argv (addReplyBulk C).

(** [ids] is the list of replicas of the caller, which is [server.slaves]
    everywhere in the program. *)
Definition replicationFeedSlaves (ids : list Z) (dictid : Z) (argv : list addr) : M unit :=
  r ← get;
  let has_backlog := bool_decide (is_Some (repl_backlog (bl r))) in
  if negb has_backlog && (length ids =? 0)%nat then skip
  else
    _ ← check (negb (negb (length ids =? 0)%nat && negb has_backlog));
    _ ← (if slaveseldb r =? dictid then skip else feed_select ids dictid);
    _ ← modify (set_slaveseldb dictid);
    r ← get;
    _ ← (match repl_backlog (bl r) with Some _ => feed_backlog argv | None => skip end);
    for_slaves (slaves r) (reply_command argv).

(** The pieces of the backlog from an offset on, each queued as a string. *)
Definition addReplyReplicationBacklog (id offset : Z) : M Z :=
  r ← get;
  let b := bl r in
  if repl_backlog_histlen b =? 0 then mret 0
  else
    '(xs, len) ← lift (backlog_from b offset);
    _ ← for_each xs (fun x =>
      s ← lift (sdsnewlen (junk (senv C)) (Some x) (Z.of_nat (length x)));
      with_client id (addReplySds C s));
    mret len.

(** ** Counting replicas *)

Definition count_slaves (ids : list Z) (p : client -> slave_info -> bool) : M Z :=
  r ← get;
  lift (foldr (fun id acc => n ← acc; c ← clients r !! id; i ← infos r !! id; Some (if (p c i : bool) then n + 1 else n)) (Some 0) ids).

Definition refreshGoodSlavesCount : M unit :=
  if (repl_min_slaves_to_write R =? 0) || (repl_min_slaves_max_lag R =? 0) then skip
  else
    r ← get;
    good ← count_slaves (slaves r) (fun c _ =>
      (replstate c =? SLAVE_STATE_ONLINE) && (unixtime C - repl_ack_time c <=? repl_min_slaves_max_lag R));
    modify (set_good good).

Definition replicationCountAcksByOffset (offset : Z) : M Z :=
  r ← get;
  count_slaves (slaves r) (fun c i => (replstate c =? SLAVE_STATE_ONLINE) && (repl_ack_off i >=? offset)).

(** ** Becoming a replica *)

(** [write(fd, x)]: what the call returns. *)
Definition write_to (fd : Z) (x : bytes) : M Z :=
  r ← get; _ ← modify (add_written fd x); mret (sock_write R (length (written r)) fd x).

(** [C_OK] is [true]. *)
Definition replicationSetupSlaveForFullResync (id offset : Z) : M bool :=
  _ ← upd_info id (fun i => SlaveInfo offset (repl_ack_off i) (slave_capa i));
  _ ← upd_client id (set_replstate SLAVE_STATE_WAIT_BGSAVE_END);
  _ ← modify (set_slaveseldb (-1));
  c ← get_client id;
  if has (flags c) CLIENT_PRE_PSYNC then mret true
  else
    let buf := str "+FULLRESYNC " ++ runid R ++ str " " ++ decimal offset ++ CRLF in
    n ← write_to (fd c) buf;
    if n =? Z.of_nat (length buf) then mret true
    else _ ← with_client id (freeClientAsync (P := P)); mret false.

(** The characters of C an argument points to, and the argument. *)
Definition arg (id : Z) (j : nat) : M addr := c ← get_client id; lift (argv (cin c) !! j).
Definition argv_chars (id : Z) (j : nat) : M bytes := a ← arg id j; o ← object a; s ← lift (as_sds (ptr o)); mret (Sds.buf s).

(** [getLongLongFromObjectOrReply]. *)
Definition offset_or_reply (id : Z) (a : addr) : M (option Z) :=
  r ← get;
  v ← lift (getLongLongFromObjectOrReply (objects (sv r)) (Some a) None);
  match v with
  | inl m => _ ← with_client id (addReplyError C m); mret None
  | inr v => mret (Some v)
  end.

Definition masterTryPartialResynchronization (id : Z) : M bool :=
  master_runid ← argv_chars id 1;
  if negb (strcasecmp master_runid (runid R ++ [0]) =? 0) then mret false
  else
    a ← arg id 2;
    psync_offset ← offset_or_reply id a;
    match psync_offset with
    | None => mret false
    | Some psync_offset =>
      r ← get;
      let b := bl r in
      if bool_decide (repl_backlog b = None) || (psync_offset <? repl_backlog_off b) ||
         (psync_offset >? s64 (repl_backlog_off b + repl_backlog_histlen b)) then mret false
      else
        _ ← upd_client id (set_flags (fun f => Z.lor f CLIENT_SLAVE));
        _ ← upd_client id (set_replstate SLAVE_STATE_ONLINE);
        _ ← upd_client id (set_repl_ack_time (unixtime C));
        _ ← upd_client id (set_put_online false);
        _ ← modify (set_slaves (fun l => l ++ [id]));
        c ← get_client id;
        let buf := str "+CONTINUE" ++ CRLF in
        n ← write_to (fd c) buf;
        if negb (n =? Z.of_nat (length buf)) then _ ← with_client id (freeClientAsync (P := P)); mret true
        else
          _ ← addReplyReplicationBacklog id psync_offset;
          _ ← refreshGoodSlavesCount;
          mret true
    end.

(** ** SYNC and PSYNC *)

Definition decr_all (l : list addr) (h : gmap addr (robj P)) : option (gmap addr (robj P)) :=
  foldl (fun o a => h ← o; decrRefCount h a) (Some h) l.
Definition incr_all (l : list addr) (h : gmap addr (robj P)) : option (gmap addr (robj P)) :=
  foldl (fun o a => h ← o; incrRefCount h a) (Some h) l.

(** The replies of the list are shared, the static buffer is copied. *)
Definition copyClientOutputBuffer (dst src : Z) : M unit :=
  d ← get_client dst;
  _ ← on_objects (fun h => h ← decr_all (reply (cout d)) h; Some (h, tt));
  s ← get_client src;
  _ ← on_objects (fun h => h ← incr_all (reply (cout s)) h; Some (h, tt));
  upd_client dst (set_cout (fun o =>
    COutput (cbuf (cout s)) (reply (cout s)) (reply_bytes (cout s)) (sentlen o) (obuf_soft_limit_reached_time o))).

(** A save to disk or to the sockets; the replicas that wait for it are told
    the offset, or dropped when it does not start. *)
Definition startBgsaveForReplication (mincapa : Z) : M bool :=
  let socket_target := repl_diskless_sync R && has mincapa SLAVE_CAPA_EOF in
  r ← get;
  retval ← (if socket_target then rdbSaveToSlavesSockets
    else if rdbSaveBackground R (length (written r)) then _ ← modify (set_child (Some RDB_CHILD_TYPE_DISK)); mret true
    else mret false);
  r ← get;
  if negb retval then
    _ ← for_each (slaves r) (fun id =>
      c ← get_client id;
      if replstate c =? SLAVE_STATE_WAIT_BGSAVE_START then
        _ ← upd_client id (set_flags (fun f => Z.land f (Z.lnot CLIENT_SLAVE)));
        _ ← modify (set_slaves (filter (fun x => x <> id)));
        _ ← with_client id (addReplyError C (str "BGSAVE failed, replication can't continue"));
        upd_client id (set_flags (fun f => Z.lor f CLIENT_CLOSE_AFTER_REPLY))
      else skip);
    mret false
  else
    _ ← (if socket_target then skip
      else for_each (slaves r) (fun id =>
        c ← get_client id;
        if replstate c =? SLAVE_STATE_WAIT_BGSAVE_START
        then r ← get; _ ← replicationSetupSlaveForFullResync id (getPsyncInitialOffset (bl r)); skip
        else skip));
    _ ← on_scripts replicationScriptCacheFlush;
    mret true.

(** The first replica that waits for the end of the save. *)
Fixpoint find_waiting (ids : list Z) : M (option Z) :=
  match ids with
  | [] => mret None
  | id :: ids => c ← get_client id; if replstate c =? SLAVE_STATE_WAIT_BGSAVE_END then mret (Some id) else find_waiting ids
  end.

(** The part of [syncCommand] after a partial resynchronization was refused
    or not asked for. *)
Definition full_resync (id : Z) : M unit :=
  _ ← modify (set_stat (fun '(full, pok, perr) => (full + 1, pok, perr)));
  _ ← upd_client id (set_replstate SLAVE_STATE_WAIT_BGSAVE_START);
  _ ← upd_client id (set_flags (fun f => Z.lor f CLIENT_SLAVE));
  _ ← modify (set_slaves (fun l => l ++ [id]));
  r ← get;
  let no_save :=
    ci ← get_info id;
    if repl_diskless_sync R && has (slave_capa ci) SLAVE_CAPA_EOF then skip
    else if aof_child_pid C =? -1 then _ ← startBgsaveForReplication (slave_capa ci); skip
    else skip in
  _ ← (match rdb_child r with
    | Some t =>
      if t =? RDB_CHILD_TYPE_DISK then
        w ← find_waiting (slaves r);
        match w with
        | Some slave =>
          ci ← get_info id;
          si ← get_info slave;
          if Z.land (slave_capa ci) (slave_capa si) =? slave_capa si then
            _ ← copyClientOutputBuffer id slave;
            _ ← replicationSetupSlaveForFullResync id (psync_initial_offset si);
            skip
          else skip
        | None => skip
        end
      else if t =? RDB_CHILD_TYPE_SOCKET then skip
      else no_save
    | None => no_save
    end);
  r ← get;
  if (length (slaves r) =? 1)%nat && bool_decide (repl_backlog (bl r) = None)
  then on_backlog (createReplicationBacklog (junk (senv C))) else skip.

Definition syncCommand (id : Z) : M unit :=
  c ← get_client id;
  if has (flags c) CLIENT_SLAVE then skip
  else if masterhost C && negb (repl_state_connected R) then
    with_client id (addReplyError C (str "Can't SYNC while not connected with my master"))
  else if clientHasPendingReplies c then
    with_client id (addReplyError C (str "SYNC and PSYNC are invalid with pending output"))
  else
    name ← argv_chars id 0;
    if strcasecmp name (str "psync" ++ [0]) =? 0 then
      ok ← masterTryPartialResynchronization id;
      if (ok : bool) then modify (set_stat (fun '(full, pok, perr) => (full, pok + 1, perr)))
      else
        master_runid ← argv_chars id 1;
        c0 ← lift (master_runid !! 0%nat);
        _ ← (if c0 =? 63 then skip else modify (set_stat (fun '(full, pok, perr) => (full, pok, perr + 1))));
        full_resync id
    else
      _ ← upd_client id (set_flags (fun f => Z.lor f CLIENT_PRE_PSYNC));
      full_resync id.

End Ops.
End Repl.
