(* ===== verification/ReplSpec.v ===== *)
(** * The stream of commands: the specification (src/replication.c)

    [outstanding r id z] says that [z] is what client [id] has still to be
    sent.  [told] is what queueing replies for several clients does: each gets
    its bytes and nothing else changes, in particular no count of
    references but those of the lists of replies. *)

From S2P Require Import Prelude Monad Util Sds DictTypes Object ObjectSpec State HeapSpec Reply ReplySpec Backlog ScriptCache Repl.
Import Monad Util Sds DictTypes Object ObjectSpec State HeapSpec Reply ReplySpec Backlog ScriptCache Repl.

Module ReplSpec.

(** ** Sums over the clients *)

Definition zsum (f : client -> Z) (m : gmap Z client) : Z := map_fold (fun _ c acc => f c + acc) 0 m.

Lemma zsum_insert_new f m i c : m !! i = None -> zsum f (<[i := c]> m) = f c + zsum f m.
Proof. intros H. unfold zsum. rewrite (map_fold_insert_L (fun _ c acc => f c + acc)); [done|intros; lia|done]. Qed.

Lemma zsum_delete f m i c : m !! i = Some c -> zsum f m = f c + zsum f (delete i m).
Proof. intros H. unfold zsum. rewrite (map_fold_delete_L (fun _ c acc => f c + acc) 0 i c); [done|intros; lia|done]. Qed.

Lemma zsum_update f m i c c' : m !! i = Some c -> zsum f (<[i := c']> m) = zsum f m - f c + f c'.
Proof.
  intros H. rewrite (zsum_delete f m i c H), <- insert_delete_eq, zsum_insert_new by apply lookup_delete_eq. lia.
Qed.

Lemma zsum_bound f m k : (forall i c, m !! i = Some c -> 0 <= f c <= k) -> 0 <= zsum f m <= Z.of_nat (size m) * k.
Proof.
  induction m as [|i c m Hi IH] using map_ind; intros H; [done|]. rewrite zsum_insert_new, map_size_insert_None by done.
  pose proof (H i c (lookup_insert_eq _ _ _)). destruct IH as [IH1 IH2]; [|lia].
  intros j d Hj. apply (H j). rewrite lookup_insert_ne; [done|]. intros ->. congruence.
Qed.

Lemma zsum_ge f m i c : (forall i c, m !! i = Some c -> 0 <= f c) -> m !! i = Some c -> f c <= zsum f m.
Proof.
  intros H Hi. rewrite (zsum_delete f m i c Hi).
  assert (0 <= zsum f (delete i m)); [|lia]. clear Hi.
  assert (forall j d, delete i m !! j = Some d -> 0 <= f d) as H' by (intros j d [_ Hj]%lookup_delete_Some; eauto).
  revert H'. generalize (delete i m). intros m'. induction m' as [|j d m' Hj IH] using map_ind; intros H'; [done|].
  rewrite zsum_insert_new by done. pose proof (H' j d (lookup_insert_eq _ _ _)).
  assert (0 <= zsum f m'); [|lia]. apply IH. intros k e Hk. apply (H' k). rewrite lookup_insert_ne; [done|]. intros ->. congruence.
Qed.

Lemma zsum_ge2 f m i j c d : (forall i c, m !! i = Some c -> 0 <= f c) -> i <> j -> m !! i = Some c -> m !! j = Some d -> f c + f d <= zsum f m.
Proof.
  intros H Hne Hi Hj. rewrite (zsum_delete f m i c Hi).
  assert (f d <= zsum f (delete i m)); [|lia]. apply (zsum_ge f _ j); [|by rewrite lookup_delete_ne].
  intros k e [_ Hk]%lookup_delete_Some. eauto.
Qed.

Section Spec.
Context {P : Type} (C : config) (R : repl_config).
Context {HC : sound_config C}.

Abbreviation repl := (repl P).
Implicit Types (r : repl) (a : addr) (c : client) (id : Z) (z x y : bytes).

(** ** What the clients hold *)

Definition cre (c : client) : list addr := reply (cout c).

Definition held r a : Z := zsum (fun c => rocc a (cre c)) (clients r).

(** The references to an object other than those of the replies. *)
Definition base r a : Z := count (objects (sv r)) a - held r a.

Definition outstanding r id z : Prop := exists c, clients r !! id = Some c /\ pending C (focus c (sv r)) z.

(** No list of replies is longer than its bound. *)
Record linked (u : Z -> nat) r : Prop := Linked {
  lk_pending : forall id c, clients r !! id = Some c -> exists z, pending C (focus c (sv r)) z;
  lk_base : forall a, 0 <= base r a < 2 ^ 29;
  lk_len : forall id c, clients r !! id = Some c -> (length (cre c) <= u id)%nat;
  lk_limit : forall id, Z.of_nat (u id) <= LIST_LIMIT;
  lk_size : Z.of_nat (size (clients r)) < 512
}.

(** An object that somebody else holds, with its string. *)
Definition has_string r a y : Prop := (exists o, objects (sv r) !! a = Some o /\ str_obj o y) /\ 0 < base r a.

Lemma focus_spare r c a : rspare (focus c (sv r)) a = count (objects (sv r)) a - rocc a (cre c).
Proof. done. Qed.

(** Seen from one client, the other references are those of the others. *)
Lemma spare_base r id c a : clients r !! id = Some c -> base r a <= rspare (focus c (sv r)) a.
Proof.
  intros Hc. rewrite focus_spare. unfold base, held.
  pose proof (zsum_ge (fun c => rocc a (cre c)) (clients r) id c (fun i d _ => rocc_nonneg a (cre d)) Hc). cbn beta in *. lia.
Qed.

Lemma spare_other r id c j d a u : linked u r -> clients r !! id = Some c -> clients r !! j = Some d -> id <> j ->
  rocc a (cre d) <= rspare (focus c (sv r)) a.
Proof.
  intros L Hc Hd Hne. rewrite focus_spare. pose proof (lk_base _ _ L a) as Hb. unfold base, held in Hb.
  pose proof (zsum_ge2 (fun c => rocc a (cre c)) (clients r) id j c d (fun i d _ => rocc_nonneg a (cre d)) Hne Hc Hd). cbn beta in *. lia.
Qed.

Lemma focus_roomy u k r id c : linked u r -> clients r !! id = Some c -> Z.of_nat (u id + k) <= LIST_LIMIT -> roomy (focus c (sv r)) k.
Proof.
  intros L Hc Hu. constructor.
  - change (Z.of_nat (length (cre c)) + Z.of_nat k <= LIST_LIMIT). pose proof (lk_len _ _ L id c Hc). lia.
  - intros a. rewrite focus_spare. pose proof (lk_base _ _ L a) as Hb. pose proof (rocc_nonneg a (cre c)).
    unfold base, held in Hb. destruct (zsum_bound (fun c => rocc a (cre c)) (clients r) LIST_LIMIT) as [_ Hs].
    { intros j d Hd. pose proof (rocc_nonneg a (cre d)). pose proof (rocc_le a (cre d)). pose proof (lk_len _ _ L j d Hd). pose proof (lk_limit _ _ L j). lia. }
    pose proof (lk_size _ _ L). assert (Z.of_nat (size (clients r)) * LIST_LIMIT <= 511 * LIST_LIMIT) by (apply Z.mul_le_mono_nonneg_r; unfold LIST_LIMIT; lia).
    unfold LIST_LIMIT in *. lia.
Qed.

Lemma has_avail r id c a y : clients r !! id = Some c -> has_string r a y -> avail (focus c (sv r)) a y.
Proof. intros Hc [Ho Hb]. split; [exact Ho|]. pose proof (spare_base r id c a Hc). lia. Qed.

Lemma shared_focus r id c : clients r !! id = Some c -> shared_by C (has_string r) -> shared_replies C (focus c (sv r)).
Proof. intros Hc. apply shared_by_mono. intros a y. by eapply has_avail. Qed.

(** What a client has to be sent depends on its output and the objects. *)
Lemma pending_focus (s s' : state P) c c' z : pending C (focus c s) z -> objects s' = objects s -> cout c' = cout c -> pending C (focus c' s') z.
Proof.
  intros (ys & Hr & Hs) Ho Hc. exists ys. split; [eapply out_rep_client; [exact Hr|done|done]|]. unfold stream in *. cbn in *. by rewrite Hc.
Qed.

(** ** Queueing for several clients *)

(** What replies do not change of a client. *)
Record same_client c c' : Prop := SameClient {
  sc_flags : more_flags (flags c) (flags c');
  sc_cid : cid c' = cid c;
  sc_fd : fd c' = fd c;
  sc_cin : cin c' = cin c;
  sc_replstate : replstate c' = replstate c
}.

Lemma same_client_refl c : same_client c c.
Proof. constructor; try done. apply more_refl. Qed.

Lemma same_client_trans c1 c2 c3 : same_client c1 c2 -> same_client c2 c3 -> same_client c1 c3.
Proof. intros [A1 A2 A3 A4 A5] [B1 B2 B3 B4 B5]. constructor; try congruence. by eapply more_trans. Qed.

Lemma same_talks c c' : same_client c c' -> talks c' = talks c.
Proof.
  intros [F _ Hfd _ _]. unfold talks, prepares. rewrite Hfd, !(more_has (flags c) (flags c')) by (done || reflexivity). done.
Qed.

Record told (u u' : Z -> nat) r r' (w : Z -> bytes) : Prop := Told {
  td_linked : linked u' r';
  td_clients : forall id, match clients r !! id, clients r' !! id with Some c, Some c' => same_client c c' | None, None => True | _, _ => False end;
  td_out : forall id z, outstanding r id z -> outstanding r' id (z ++ w id);
  td_base : forall a, base r' a = base r a;
  td_kept : forall a o, 0 < base r a -> objects (sv r) !! a = Some o -> exists o', objects (sv r') !! a = Some o' /\ same_value o o'
}.

Lemma told_refl u r : linked u r -> told u u r r (fun _ => []).
Proof.
  intros L. constructor; try done.
  - intros id. destruct (clients r !! id); [apply same_client_refl|done].
  - intros id z H. by rewrite app_nil_r.
  - intros a o _ Ho. by exists o.
Qed.

Lemma told_trans u1 u2 u3 r1 r2 r3 w1 w2 : told u1 u2 r1 r2 w1 -> told u2 u3 r2 r3 w2 -> told u1 u3 r1 r3 (fun id => w1 id ++ w2 id).
Proof.
  intros [L1 S1 O1 B1 K1] [L2 S2 O2 B2 K2]. constructor; [done| | |congruence|].
  - intros id. specialize (S1 id). specialize (S2 id). destruct (clients r1 !! id), (clients r2 !! id), (clients r3 !! id); try done. by eapply same_client_trans.
  - intros id z Hz. rewrite app_assoc. by apply O2, O1.
  - intros a o Ha Ho. destruct (K1 a o Ha Ho) as (o2 & Ho2 & Hv). destruct (K2 a o2) as (o3 & Ho3 & Hv3); [by rewrite B1|done|].
    exists o3. split; [done|]. by eapply same_value_trans.
Qed.

Lemma told_ext u u' r r' w w' : told u u' r r' w -> (forall id, w id = w' id) -> told u u' r r' w'.
Proof. intros [L1 S1 O1 B1 K1] E. constructor; try done. intros id z Hz. rewrite <- E. by apply O1. Qed.

Lemma linked_mono u u' r : linked u r -> (forall id, u id <= u' id)%nat -> (forall id, Z.of_nat (u' id) <= LIST_LIMIT) -> linked u' r.
Proof. intros [L1 L2 L3 L4 L5] Hu Hl. constructor; try done. intros id c Hc. specialize (L3 id c Hc). specialize (Hu id). lia. Qed.

Lemma told_mono u u1 u2 r r' w : told u u1 r r' w -> (forall id, u1 id <= u2 id)%nat -> (forall id, Z.of_nat (u2 id) <= LIST_LIMIT) -> told u u2 r r' w.
Proof. intros [L1 S1 O1 B1 K1] Hu Hl. constructor; try done. by eapply linked_mono. Qed.

Lemma told_has u u' r r' w a y : told u u' r r' w -> has_string r a y -> has_string r' a y.
Proof.
  intros T [(o & Ho & Hs) Hb]. destruct (td_kept _ _ _ _ _ T a o Hb Ho) as (o' & Ho' & Hv).
  split; [exists o'; split; [done|by eapply str_obj_same]|by rewrite (td_base _ _ _ _ _ T)].
Qed.

(** Parts of the state that do not matter. *)
Lemma linked_same u r r' : linked u r -> clients r' = clients r -> objects (sv r') = objects (sv r) -> linked u r'.
Proof.
  intros [L1 L2 L3 L4 L5] Ec Eo. constructor; unfold base, held; rewrite ?Ec, ?Eo; try done.
  intros id c Hc. destruct (L1 id c Hc) as [z Hz]. exists z. by eapply pending_focus.
Qed.

Lemma told_same u u' r r' r1 r1' w : told u u' r r' w -> clients r1 = clients r -> objects (sv r1) = objects (sv r) ->
  clients r1' = clients r' -> objects (sv r1') = objects (sv r') -> told u u' r1 r1' w.
Proof.
  intros [L1 S1 O1 B1 K1] Ec Eo Ec' Eo'.
  assert (forall id z, outstanding r1 id z -> outstanding r id z) as H1 by (intros id z (c & Hc & Hz); exists c; split; [by rewrite <- Ec|by eapply pending_focus]).
  assert (forall id z, outstanding r' id z -> outstanding r1' id z) as H2 by (intros id z (c & Hc & Hz); exists c; split; [by rewrite Ec'|by eapply pending_focus]).
  constructor; [by eapply linked_same|..].
  - by rewrite Ec, Ec'.
  - intros id z Hz. by apply H2, O1, H1.
  - intros a. specialize (B1 a). unfold base, held in *. by rewrite Ec, Ec', Eo, Eo'.
  - intros a o Ha Ho. rewrite Eo' . apply K1; [|by rewrite <- Eo]. unfold base, held in *. by rewrite <- Ec, <- Eo.
Qed.


(** Only the clients and the objects are not as before. *)
Definition only_clients r r' : Prop := r' = set_clients (fun _ => clients r') (set_sv (sv r') r).

Lemma only_clients_refl r : only_clients r r.
Proof. by destruct r. Qed.

Lemma only_clients_trans r1 r2 r3 : only_clients r1 r2 -> only_clients r2 r3 -> only_clients r1 r3.
Proof. unfold only_clients. intros E1 E2. rewrite E2. by rewrite E1. Qed.

Lemma only_clients_parts r r' : only_clients r r' ->
  bl r' = bl r /\ slaves r' = slaves r /\ infos r' = infos r /\ slaveseldb r' = slaveseldb r /\ rdb_child r' = rdb_child r /\ written r' = written r.
Proof. intros ->. done. Qed.

(** The bounds when the clients of a list get [k] more replies. *)
Definition more_for (ids : list Z) (k : nat) (u : Z -> nat) (j : Z) : nat := if decide (j ∈ ids) then (u j + k)%nat else u j.

Lemma more_in ids k u j : j ∈ ids -> more_for ids k u j = (u j + k)%nat.
Proof. intros H. unfold more_for. by rewrite decide_True. Qed.

Lemma more_out ids k u j : j ∉ ids -> more_for ids k u j = u j.
Proof. intros H. unfold more_for. by rewrite decide_False. Qed.

Lemma more_cons_ne id ids k u j : j <> id -> more_for ids k u j = more_for (id :: ids) k u j.
Proof.
  intros Hne. unfold more_for. destruct (decide (j ∈ ids)) as [Hin|Hout]; [by rewrite decide_True by (by right)|].
  rewrite decide_False; [done|]. by intros [->|?]%elem_of_cons.
Qed.

Lemma more_le ids k u j : (u j <= more_for ids k u j)%nat.
Proof. unfold more_for. case_decide; lia. Qed.

(** One client is given something. *)
Section One.
Context (u : Z -> nat) (k : nat) (r : repl) (id : Z) (c : client) (s : state P) (z x : bytes).
Context (L : linked u r) (Hc : clients r !! id = Some c) (He : emitted C k (focus c (sv r)) s z x).

Let r' : repl := set_clients (fun m => <[id := cl s]> m) (set_sv s r).

Lemma one_kept a o : 0 < rspare (focus c (sv r)) a -> objects (sv r) !! a = Some o -> exists o', objects s !! a = Some o' /\ same_value o o'.
Proof. apply (of_kept _ _ (em_frame _ _ _ _ _ _ He)). Qed.

Lemma one_spare a : count (objects s) a - rocc a (cre (cl s)) = count (objects (sv r)) a - rocc a (cre c).
Proof. apply (of_spare _ _ (em_frame _ _ _ _ _ _ He)). Qed.

Lemma one_base a : base r' a = base r a.
Proof.
  unfold base, held. cbn [clients r' set_clients set_sv sv]. rewrite (zsum_update _ _ id c) by done. pose proof (one_spare a). lia.
Qed.

Lemma one_other j d y : j <> id -> clients r !! j = Some d -> pending C (focus d (sv r)) y -> pending C (focus d s) y.
Proof.
  intros Hne Hd Hy.
  assert (forall a, a ∈ cre d -> 0 < rspare (focus c (sv r)) a) as Hpos.
  { intros a Ha. pose proof (spare_other r id c j d a u L Hc Hd (fun e => Hne (eq_sym e))). pose proof (rocc_pos a (cre d) Ha). lia. }
  apply (pending_focus (State.set_objects (fun _ => objects s) (focus d (sv r))) s d d); [|done|done].
  apply (pending_heap C (focus d (sv r)) y (objects s) Hy).
  - intros a o Ha Ho. apply one_kept; [by apply Hpos|exact Ho].
  - intros a. change (rocc a (cre d) <= count (objects s) a). pose proof (one_spare a). pose proof (rocc_nonneg a (cre (cl s))).
    pose proof (spare_other r id c j d a u L Hc Hd (fun e => Hne (eq_sym e))) as Ho. rewrite focus_spare in Ho. lia.
Qed.

Lemma one_self : pending C (focus (cl s) s) (z ++ x).
Proof.
  destruct (em_pending _ _ _ _ _ _ He) as (ys & Hr & Hs). exists ys. split; [eapply out_rep_client; [exact Hr|done|done]|exact Hs].
Qed.

Lemma one_linked : Z.of_nat (u id + k) <= LIST_LIMIT -> linked (more_for [id] k u) r'.
Proof.
  intros Hu. destruct L as [L1 L2 L3 L4 L5]. constructor.
  - intros j d Hj. cbn in Hj. destruct (decide (j = id)) as [->|Hne].
    + rewrite lookup_insert_eq in Hj. injection Hj as <-. exists (z ++ x). apply one_self.
    + rewrite lookup_insert_ne in Hj by done. destruct (L1 j d Hj) as [y Hy]. exists y. by eapply one_other.
  - intros a. rewrite one_base. apply L2.
  - intros j d Hj. cbn in Hj. destruct (decide (j = id)) as [->|Hne].
    + rewrite lookup_insert_eq in Hj. injection Hj as <-. pose proof (em_length _ _ _ _ _ _ He) as Hl.
      change (length (cre (cl s)) <= length (cre c) + k)%nat in Hl. specialize (L3 id c Hc). rewrite more_in by (by left). lia.
    + rewrite lookup_insert_ne in Hj by done. rewrite more_out by (intros ?%list_elem_of_singleton; done). apply L3, Hj.
  - intros j. unfold more_for. case_decide as Hin; [|apply L4]. apply list_elem_of_singleton in Hin as ->. lia.
  - cbn. rewrite map_size_insert_Some by (by eexists). done.
Qed.

Lemma one_same : same_client c (cl s).
Proof. destruct (em_frame _ _ _ _ _ _ He). by constructor. Qed.

End One.

(** A program that says [x] to a client, run for it. *)
Lemma with_client_wp u k r id c (m : Monad.M (state P) unit) x :
  linked u r -> clients r !! id = Some c -> says C k (focus c (sv r)) m x -> Z.of_nat (u id + k) <= LIST_LIMIT ->
  wp (with_client id m) (fun _ r' => only_clients r r' /\
    told u (more_for [id] k u) r r' (fun j => if decide (j = id) then if talks c then x else [] else [])) r.
Proof.
  intros L Hc Hsays Hu. destruct (lk_pending _ _ L id c Hc) as [z0 Hz0].
  pose proof (Hsays z0 Hz0 (focus_roomy u k r id c L Hc Hu)) as (s & [] & Hm & He0).
  exists (set_clients (fun m => <[id := cl s]> m) (set_sv s r)), tt.
  split; [unfold with_client; by rewrite Hc, Hm|]. split; [done|].
  constructor.
  - by eapply one_linked.
  - intros j. cbn. destruct (decide (j = id)) as [->|Hne].
    + rewrite Hc, lookup_insert_eq. by eapply one_same.
    + rewrite lookup_insert_ne by done. destruct (clients r !! j); [apply same_client_refl|done].
  - intros j z (d & Hd & Hz). destruct (decide (j = id)) as [->|Hne].
    + rewrite Hc in Hd. injection Hd as <-. pose proof (Hsays z Hz (focus_roomy u k r id c L Hc Hu)) as (s' & [] & Hm' & He).
      rewrite Hm in Hm'. injection Hm' as <-. exists (cl s). cbn. split; [by rewrite lookup_insert_eq|]. by eapply one_self.
    + rewrite app_nil_r. exists d. cbn. split; [by rewrite lookup_insert_ne|].
      eapply one_other; [exact L|exact Hc|exact He0|exact Hne|exact Hd|exact Hz].
  - intros a. eapply one_base; [exact Hc|exact He0].
  - intros a o Ha Ho. eapply one_kept; [exact He0| |exact Ho]. pose proof (spare_base r id c a Hc). lia.
Qed.

(** Whether a client is given the stream. *)
Definition attached c : bool := negb (replstate c =? SLAVE_STATE_WAIT_BGSAVE_START) && talks c.

Definition gets_stream r id : bool := match clients r !! id with Some c => attached c | None => false end.

Lemma told_gets u u' r r' w id : told u u' r r' w -> gets_stream r' id = gets_stream r id.
Proof.
  intros T. pose proof (td_clients _ _ _ _ _ T id) as Hs. unfold gets_stream, attached.
  destruct (clients r !! id) as [c|], (clients r' !! id) as [c'|]; try done. by rewrite (same_talks _ _ Hs), (sc_replstate _ _ Hs).
Qed.

Lemma told_client u u' r r' w id c : told u u' r r' w -> clients r !! id = Some c -> exists c', clients r' !! id = Some c' /\ same_client c c'.
Proof.
  intros T Hc. pose proof (td_clients _ _ _ _ _ T id) as Hs. rewrite Hc in Hs. destruct (clients r' !! id) as [c'|]; [|done]. by exists c'.
Qed.

(** The same for every replica of a list that is given the stream. *)
Lemma for_slaves_wp k (m : Monad.M (state P) unit) x ids : forall u r,
  linked u r -> NoDup ids -> (forall id, id ∈ ids -> is_Some (clients r !! id)) -> (forall id, id ∈ ids -> Z.of_nat (u id + k) <= LIST_LIMIT) ->
  (forall u' r' w id c, told u u' r r' w -> clients r' !! id = Some c -> says C k (focus c (sv r')) m x) ->
  wp (for_slaves ids m) (fun _ r' => only_clients r r' /\
    told u (more_for ids k u) r r' (fun j => if decide (j ∈ ids) then if gets_stream r j then x else [] else [])) r.
Proof.
  induction ids as [|id ids IH]; intros u r L Hn Hex Hu Hsays.
  { apply wp_skip. split; [apply only_clients_refl|]. eapply told_ext; [eapply told_mono; [by apply told_refl|intros j; apply more_le|]|].
    { intros j. rewrite more_out by apply not_elem_of_nil. apply (lk_limit _ _ L). }
    intros j. rewrite decide_False; [done|apply not_elem_of_nil]. }
  apply NoDup_cons in Hn as [Hni Hn]. destruct (Hex id) as [c Hc]; [by left|]. unfold for_slaves. cbn [for_each]. apply wp_bind.
  assert (Z.of_nat (u id + k) <= LIST_LIMIT) as Hu1 by (apply Hu; by left).
  assert (forall j, Z.of_nat (more_for [id] k u j) <= LIST_LIMIT) as Hl1.
  { intros j. unfold more_for. case_decide as Hin; [apply list_elem_of_singleton in Hin as ->; done|apply (lk_limit _ _ L)]. }
  apply (wp_mono _ (fun _ r1 => only_clients r r1 /\ told u (more_for [id] k u) r r1 (fun j => if decide (j = id) then if gets_stream r j then x else [] else []))).
  { unfold get_client. apply wp_bind. wp_step. eapply wp_lift; [exact Hc|]. cbn beta.
    assert (gets_stream r id = attached c) as Hg by (unfold gets_stream; by rewrite Hc). unfold attached in Hg.
    destruct (replstate c =? SLAVE_STATE_WAIT_BGSAVE_START) eqn:Er; cbn [negb andb] in Hg.
    - apply wp_skip. split; [apply only_clients_refl|]. eapply told_mono; [|intros j; apply more_le|exact Hl1]. eapply told_ext; [by apply told_refl|].
      intros j. destruct (decide (j = id)) as [->|]; [by rewrite Hg|done].
    - eapply wp_mono; [eapply (with_client_wp u k r id c m x L Hc); [eapply Hsays; [by apply told_refl|done]|exact Hu1]|].
      intros [] r1 [H1 T1]. split; [exact H1|]. eapply told_ext; [exact T1|]. intros j. cbn beta. destruct (decide (j = id)) as [->|]; [by rewrite Hg|done]. }
  intros [] r1 [H1 T1]. eapply wp_mono; [eapply (IH (more_for [id] k u) r1); [by apply (td_linked _ _ _ _ _ T1)|done| | |]|].
  - intros j Hj. destruct (Hex j) as [d Hd]; [by right|]. destruct (told_client _ _ _ _ _ j d T1 Hd) as (d' & Hd' & _). exists d'. exact Hd'.
  - intros j Hj. rewrite more_out by (intros ->%list_elem_of_singleton; done). apply Hu. by right.
  - intros u2 r2 w id2 c2 T2 Hc2. eapply Hsays; [|exact Hc2]. by eapply told_trans.
  - intros [] r2 [H2 T2]. split; [by eapply only_clients_trans|].
    eapply told_ext; [eapply told_mono; [by eapply told_trans| |]|].
    { intros j. destruct (decide (j = id)) as [->|Hne].
      - rewrite (more_out ids), !more_in by (done || by left). done.
      - assert (more_for [id] k u j = u j) as E by (by rewrite more_out by (intros ?%list_elem_of_singleton; done)).
        rewrite <- more_cons_ne by done. destruct (decide (j ∈ ids)); [rewrite !(more_in ids) by done|rewrite !(more_out ids) by done]; lia. }
    { intros j. destruct (decide (j ∈ id :: ids)) as [Hin|Hout]; [rewrite more_in by done; by apply Hu|rewrite more_out by done; apply (lk_limit _ _ L)]. } intros j. cbn beta. rewrite (told_gets _ _ _ _ _ j T1).
    destruct (decide (j = id)) as [->|Hne].
    + rewrite (decide_False (P := id ∈ ids)) by done. rewrite app_nil_r. rewrite decide_True by (by left). done.
    + destruct (decide (j ∈ ids)) as [Hin|Hout].
      * rewrite decide_True by (by right). done.
      * rewrite decide_False; [done|]. intros [->|?]%elem_of_cons; done.
Qed.

(** The heap changes around what the clients hold. *)
Lemma heap_linked u r h :
  linked u r -> (forall a, 0 <= count h a - held r a < 2 ^ 29) -> kept (objects (sv r)) h (fun a => 0 < held r a) ->
  let r' := set_sv (State.set_objects (fun _ => h) (sv r)) r in
  linked u r' /\ forall id z, outstanding r id z -> outstanding r' id z.
Proof.
  intros [L1 L2 L3 L4 L5] Hb Hk r'.
  assert (forall id c z, clients r !! id = Some c -> pending C (focus c (sv r)) z -> pending C (focus c (sv r')) z) as Hp.
  { intros id c z Hc Hz. apply (pending_focus (State.set_objects (fun _ => h) (focus c (sv r))) (sv r') c c); [|done|done].
    assert (forall a, rocc a (cre c) <= held r a) as Hle.
    { intros a. apply (zsum_ge (fun c => rocc a (cre c)) (clients r) id c); [|done]. intros j d _. apply rocc_nonneg. }
    apply (pending_heap C _ _ _ Hz).
    - intros a o Ha Ho. apply Hk; [|exact Ho]. pose proof (rocc_pos a (cre c) Ha). specialize (Hle a). lia.
    - intros a. change (rocc a (cre c) <= count h a). specialize (Hle a). specialize (Hb a). lia. }
  split.
  - constructor; [|exact Hb|exact L3|exact L4|exact L5]. intros id c Hc. destruct (L1 id c Hc) as [z Hz]. exists z. by eapply Hp.
  - intros id z (c & Hc & Hz). exists c. split; [exact Hc|by eapply Hp].
Qed.

Lemma held_nonneg u r a : linked u r -> 0 <= held r a.
Proof.
  intros L. unfold held. destruct (zsum_bound (fun c => rocc a (cre c)) (clients r) LIST_LIMIT) as [H _]; [|exact H].
  intros j e He. pose proof (rocc_nonneg a (cre e)). pose proof (rocc_le a (cre e)). pose proof (lk_len _ _ L j e He). pose proof (lk_limit _ _ L j). lia.
Qed.

End Spec.
End ReplSpec.
