(* ===== verification/ReplFeed.v ===== *)
(** * Feeding the replicas: the specification (src/replication.c)

    A command goes to the backlog and to every replica that is given the
    stream as the same bytes, those of the protocol, preceded by a SELECT when
    the database is not that of the command before. *)

From S2P Require Import Prelude Monad Util Sds DictTypes Object ObjectSpec State HeapSpec Reply ReplySpec Backlog ScriptCache Repl ReplSpec.
Import Monad Util Sds DictTypes Object ObjectSpec State HeapSpec Reply ReplySpec Backlog ScriptCache Repl ReplSpec.

Module ReplFeed.

(** ** The texts *)

Definition command_text (ys : list bytes) : bytes := header 42 (Z.of_nat (length ys)) ++ concat (bulk <$> ys).

Definition select_line (dictid : Z) : bytes := command_text [str "SELECT"; decimal dictid].

Definition piece (sel dictid : Z) (ys : list bytes) : bytes :=
  (if sel =? dictid then [] else select_line dictid) ++ command_text ys.

Section Spec.
Context {P : Type} (C : config) (R : repl_config).
Context {HC : sound_config C}.

Abbreviation repl := (repl P).
Implicit Types (r : repl) (a : addr) (c : client) (id : Z) (z x y p : bytes).

Lemma print_decimal n v : is_llong v -> Z.of_nat (length (decimal v)) < n -> print C n v = Some (decimal v).
Proof.
  intros Hv Hn. unfold print. rewrite ll2string_spec by (done || rewrite length_fmap, length_seq; lia).
  rewrite decide_True by done. cbn [mbind option_bind]. rewrite Nat2Z.id. by apply rdn_app0.
Qed.

Lemma object_text_spec (o : robj P) y : str_obj o y -> object_text C o = Some y.
Proof.
  intros Hs. unfold object_text. destruct (sdsEncodedObject o) eqn:He.
  - destruct (encoded_string o y Hs He) as (s & Hp & Hr). rewrite Hp.
    assert ((encoding o =? OBJ_ENCODING_INT) = false) as ->.
    { unfold sdsEncodedObject in He. destruct (Z.eqb_spec (encoding o) OBJ_ENCODING_INT) as [E|]; [|done]. by rewrite E in He. }
    cbn [as_sds mbind option_bind]. by eapply sds_rep_read.
  - destruct (int_string o y Hs He) as (Hi & v & Hp & Hv & ->). rewrite Hi, Hp. rewrite Z.eqb_refl. cbn [as_long mbind option_bind].
    apply print_decimal; [done|]. pose proof (decimal_length_20 v Hv). unfold LONG_STR_SIZE. lia.
Qed.

Lemma aux_line_spec n v : is_llong v -> aux_line C n v = Some (header n v).
Proof.
  intros Hv. pose proof (decimal_length_20 v Hv) as Hl. unfold aux_line.
  rewrite print_decimal by (done || (unfold LONG_STR_SIZE; lia)). cbn [mbind option_bind].
  by rewrite (proj2 (Z.leb_le _ _)) by (unfold LONG_STR_SIZE; lia).
Qed.

Lemma select_text_spec d : is_int d -> select_text C d = Some (select_line d).
Proof.
  intros Hd. assert (is_llong d) as Hl by (unfold is_signed in *; lia). pose proof (decimal_length_20 d Hl).
  unfold select_text. rewrite print_decimal by (done || (unfold LONG_STR_SIZE; lia)). cbn [mbind option_bind]. f_equal.
  unfold select_line, command_text, bulk, header. cbn [fmap list_fmap concat]. rewrite app_nil_r.
  change (Z.of_nat (length [str "SELECT"; decimal d])) with 2. change (Z.of_nat (length (str "SELECT"))) with 6.
  change (decimal 2) with (str "2"). change (decimal 6) with (str "6"). change (str "*2") with (42 :: str "2"). change (str "$6") with (36 :: str "6").
  change (str "$") with [36]. cbn [app]. rewrite <- !app_assoc. cbn [app]. by rewrite <- ?app_assoc.
Qed.

Lemma select_line_small d : is_int d -> Z.of_nat (length (select_line d)) < 256.
Proof.
  intros Hd. unfold select_line, command_text, bulk, header. rewrite !length_app. cbn [fmap list_fmap concat length].
  rewrite !length_app. cbn [length]. rewrite !length_app. pose proof (decimal_length_20 d ltac:(unfold is_signed in *; lia)).
  change (length CRLF) with 2%nat. change (length (str "SELECT")) with 6%nat.
  pose proof (decimal_length_20 (Z.of_nat 6) ltac:(done)). pose proof (decimal_length_20 (Z.of_nat (length (decimal d))) ltac:(unfold is_signed; lia)).
  pose proof (decimal_length_20 (Z.of_nat 2) ltac:(done)). lia.
Qed.

(** ** The backlog *)

Lemma on_backlog_wp {A} (m : Monad.M backlog A) (Q : A -> backlog -> Prop) r :
  wp m Q (bl r) -> wp (on_backlog (P := P) m) (fun v r' => exists b, r' = set_bl b r /\ Q v b) r.
Proof. intros (b & v & Hm & HQ). exists (set_bl b r), v. unfold on_backlog. rewrite Hm. split; [done|by exists b]. Qed.

Definition fed (o : Z) r r' x p : Prop :=
  exists b, r' = set_bl b r /\ feeding b o (x ++ p).

Lemma stream_trans o r1 r2 r3 x p1 p2 : fed o r1 r2 x p1 -> fed o r2 r3 (x ++ p1) p2 -> fed o r1 r3 x (p1 ++ p2).
Proof. intros (b1 & -> & _) (b2 & -> & F). exists b2. split; [done|by rewrite app_assoc]. Qed.

Lemma stream_refl o r x : feeding (bl r) o x -> fed o r r x [].
Proof. intros F. exists (bl r). split; [by destruct r|by rewrite app_nil_r]. Qed.

Lemma fed_feeding o r r' x p : fed o r r' x p -> feeding (bl r') o (x ++ p).
Proof. by intros (b & -> & F). Qed.

Definition fits o x p : Prop := o + Z.of_nat (length x + length p) < 2 ^ 61.

Lemma feed_wp o r x p : feeding (bl r) o x -> fits o x p -> wp (on_backlog (feedReplicationBacklog p)) (fun _ r' => fed o r r' x p) r.
Proof.
  intros F Hf. eapply wp_mono; [apply on_backlog_wp; by apply feedReplicationBacklog_wp|].
  intros [] r' (b & -> & Hb & _). by exists b.
Qed.

Lemma fits_app o x p1 p2 : fits o x (p1 ++ p2) -> fits o x p1 /\ fits o (x ++ p1) p2.
Proof. unfold fits. rewrite !length_app. lia. Qed.

Lemma feed_object_wp o r x a y : feeding (bl r) o x -> holds (objects (sv r)) a y -> fits o x y ->
  wp (feedReplicationBacklogWithObject C a) (fun _ r' => fed o r r' x y) r.
Proof.
  intros F (ob & Ho & Hs) Hf. unfold feedReplicationBacklogWithObject, object. apply wp_bind. wp_step. eapply wp_lift; [exact Ho|].
  apply wp_bind. eapply wp_lift; [by apply object_text_spec|]. by apply feed_wp.
Qed.

Lemma feed_argument_wp o r x a y : feeding (bl r) o x -> holds (objects (sv r)) a y -> is_llong (Z.of_nat (length y)) -> fits o x (bulk y) ->
  wp (feed_argument C a) (fun _ r' => fed o r r' x (bulk y)) r.
Proof.
  intros F Hh Hy Hf. unfold bulk in *. apply fits_app in Hf as [Hf1 Hf2]. apply fits_app in Hf2 as [Hf2 Hf3].
  unfold feed_argument. wp_step. apply wp_bind. eapply wp_lift; [by apply stringObjectLen_spec|].
  apply wp_bind. eapply wp_lift; [by apply aux_line_spec|]. wp_use (feed_wp o r x _ F Hf1). intros [] r1 F1. cbn beta in F1.
  assert (holds (objects (sv r1)) a y) as Hh1 by (destruct F1 as (b & -> & _); exact Hh).
  wp_use (feed_object_wp o r1 _ a y (fed_feeding _ _ _ _ _ F1) Hh1 Hf2). intros [] r2 F2. cbn beta in F2.
  eapply wp_mono; [apply (feed_wp o r2 _ _ (fed_feeding _ _ _ _ _ F2) Hf3)|]. intros [] r3 F3.
  eapply stream_trans; [exact F1|]. by eapply stream_trans.
Qed.

Lemma feed_backlog_wp o r x argv ys : feeding (bl r) o x -> Forall2 (holds (objects (sv r))) argv ys ->
  is_llong (Z.of_nat (length ys)) -> Forall (fun y => is_llong (Z.of_nat (length y))) ys -> fits o x (command_text ys) ->
  wp (feed_backlog C argv) (fun _ r' => fed o r r' x (command_text ys)) r.
Proof.
  intros F Hh Hn Hy Hf. unfold command_text in *. apply fits_app in Hf as [Hf1 Hf2]. unfold feed_backlog.
  rewrite (Forall2_length _ _ _ Hh). apply wp_bind. eapply wp_lift; [by apply aux_line_spec|].
  wp_use (feed_wp o r x _ F Hf1). intros [] r1 F1. cbn beta in F1.
  apply (wp_mono _ (fun _ r' => fed o r1 r' (x ++ header 42 (Z.of_nat (length ys))) (concat (bulk <$> ys)))); [|intros [] r2 F2; by eapply stream_trans].
  assert (Forall2 (holds (objects (sv r1))) argv ys) as Hh1 by (destruct F1 as (b & -> & _); exact Hh).
  apply fed_feeding in F1. clear Hn Hf1 F Hh. revert Hy Hf2 F1. generalize (x ++ header 42 (Z.of_nat (length ys))). clear r x. intros x Hy Hf F.
  revert r1 x Hy Hf F Hh1. induction argv as [|a argv IH] in ys |- *; intros r x Hy Hf F Hh; inversion Hh; subst; cbn [for_each fmap list_fmap concat] in *.
  { apply wp_skip. by apply stream_refl. }
  apply Forall_cons in Hy as [Hy1 Hy2]. apply fits_app in Hf as [Hf1 Hf2]. wp_use (feed_argument_wp o r x); [done..|]. intros [] r1 F1. cbn beta in F1.
  assert (Forall2 (holds (objects (sv r1))) argv l') as Hh1 by (destruct F1 as (b & -> & _); done).
  eapply wp_mono; [apply (IH l' r1 _ Hy2 Hf2 (fed_feeding _ _ _ _ _ F1) Hh1)|]. intros [] r2 F2. by eapply stream_trans.
Qed.

(** ** The replicas *)

Lemma bulks_say (s : state P) argv ys : shared_replies C s -> Forall2 (avail s) argv ys -> Forall (fun y => Z.of_nat (length y) < SDS_LIMIT) ys ->
  says C (length argv * 3) s (for_each argv (addReplyBulk C)) (concat (bulk <$> ys)).
Proof.
  induction argv as [|a argv IH] in s, ys |- *; intros Hsr Ha Hy; inversion Ha; subst; cbn [for_each fmap list_fmap concat].
  { intros z Hz _. apply wp_skip. unfold said. destruct (talks _); by apply emitted_refl. }
  apply Forall_cons in Hy as [Hy1 Hy2]. cbn [length Nat.mul]. apply (says_bind C 3); [by apply addReplyBulk_says|].
  intros s1 F. apply IH; [by eapply shared_frame| |done]. eapply Forall2_impl; [done|]. intros b y'. by apply avail_frame.
Qed.

Lemma reply_command_says (s : state P) argv ys :
  shared_replies C s -> Forall2 (avail s) argv ys -> Forall (fun y => Z.of_nat (length y) < SDS_LIMIT) ys -> is_llong (Z.of_nat (length ys)) ->
  says C (1 + length argv * 3) s (reply_command C argv) (command_text ys).
Proof.
  intros Hsr Ha Hy Hn. unfold reply_command, command_text. rewrite (Forall2_length _ _ _ Ha) at 2.
  apply (says_bind C 1); [apply addReplyMultiBulkLen_says; done || lia|].
  intros s1 F. apply bulks_say; [by eapply shared_frame| |done]. eapply Forall2_impl; [done|]. intros b y'. by apply avail_frame.
Qed.

(** What is not the backlog, the clients or the objects. *)
Definition rest r r' : Prop := r' = set_bl (bl r') (set_clients (fun _ => clients r') (set_sv (sv r') r)).

Lemma rest_refl r : rest r r.
Proof. by destruct r. Qed.

Lemma rest_trans r1 r2 r3 : rest r1 r2 -> rest r2 r3 -> rest r1 r3.
Proof. unfold rest. intros E1 E2. rewrite E2. by rewrite E1. Qed.

Lemma rest_parts r r' : rest r r' ->
  slaves r' = slaves r /\ infos r' = infos r /\ slaveseldb r' = slaveseldb r /\ rdb_child r' = rdb_child r /\ written r' = written r.
Proof. intros ->. done. Qed.

Lemma only_rest r r' : only_clients r r' -> rest r r'.
Proof. unfold only_clients, rest. intros ->. by destruct r. Qed.

(** The bytes of the replicas that are given the stream. *)
Definition for_ids r (ids : list Z) x (j : Z) : bytes := if decide (j ∈ ids) then if gets_stream r j then x else [] else [].

Definition ids_ok r (ids : list Z) : Prop := NoDup ids /\ forall id, id ∈ ids -> is_Some (clients r !! id).

(** What a step of the feeding does. *)
Record fed_all (u u' : Z -> nat) o r r' x p (w : Z -> bytes) : Prop := FedAll {
  fa_told : told C u u' r r' w;
  fa_feeding : feeding (bl r') o (x ++ p);
  fa_rest : rest r r'
}.

Lemma told_backlog u u' r b r' w : told C u u' (set_bl b r) r' w <-> told C u u' r r' w.
Proof. split; intros T; (eapply told_same; [exact T|done..]). Qed.

Lemma wp_seq2 {S A} (m1 m2 : Monad.M S unit) (m : Monad.M S A) (Q : A -> S -> Prop) s :
  wp (_ ← m1; m2) (fun _ s' => wp m Q s') s -> wp (_ ← m1; _ ← m2; m) Q s.
Proof.
  intros (s1 & [] & E & s2 & v & E2 & HQ). exists s2, v. split; [|done]. unfold mbind, M_bind in *.
  destruct (m1 s) as [[s3 []]|]; [|done]. by rewrite E.
Qed.

(** Queueing an object whose text is in the backlog too. *)
Lemma send_select_wp u o x r d ids a :
  linked C u r -> feeding (bl r) o x -> ids_ok r ids -> has_string r a (select_line d) -> is_int d ->
  fits o x (select_line d) -> (forall id, id ∈ ids -> Z.of_nat (u id + 1) <= LIST_LIMIT) ->
  wp (_ ← (match repl_backlog (bl r) with Some _ => feedReplicationBacklogWithObject C a | None => skip end);
      for_slaves ids (addReply C a))
    (fun _ r' => fed_all u (more_for ids 1 u) o r r' x (select_line d) (for_ids r ids (select_line d))) r.
Proof.
  intros L F [Hn Hid] Ha Hd Hf Hu. pose proof F as [_ _ _ _ _ _ (buf & Hb & _)]. rewrite Hb.
  wp_use (feed_object_wp o r x a (select_line d) F); [|exact Hf|].
  { destruct Ha as [(ob & Ho & Hs) _]. by exists ob. }
  intros [] r1 (b & -> & F1). cbn beta.
  pose proof (select_line_small d Hd) as Hlen.
  eapply wp_mono; [eapply (for_slaves_wp C 1 (addReply C a) (select_line d) ids u (set_bl b r))|].
  - by eapply linked_same.
  - done.
  - exact Hid.
  - exact Hu.
  - intros u' r' w id c T Hc. apply (addReply_says C); [|unfold SDS_LIMIT; lia]. eapply has_avail; [exact Hc|]. by apply (told_has C _ _ _ _ _ _ _ T).
  - cbn beta. intros [] r' [H1 T]. constructor.
    + exact (proj1 (told_backlog _ _ _ _ _ _) T).
    + destruct (only_clients_parts _ _ H1) as (-> & _). exact F1.
    + apply (rest_trans r (set_bl b r)); [unfold rest; by destruct r|by apply only_rest].
Qed.

(** A new object for the text, which is freed at the end. *)
Lemma select_new_wp u o x r d ids :
  linked C u r -> feeding (bl r) o x -> ids_ok r ids -> is_int d -> shared_select d = false ->
  fits o x (select_line d) -> (forall id, id ∈ ids -> Z.of_nat (u id + 1) <= LIST_LIMIT) ->
  wp (feed_select C R ids d) (fun _ r' => fed_all u (more_for ids 1 u) o r r' x (select_line d) (for_ids r ids (select_line d))) r.
Proof.
  intros L F Hid Hd Hsh Hf Hu. unfold feed_select, select_object. rewrite Hsh. apply wp_bind.
  apply wp_bind. eapply wp_lift; [by apply select_text_spec|]. apply wp_bind.
  destruct (sdsnewlen_rep (junk (senv C)) (Some (select_line d)) (Z.of_nat (length (select_line d)))) as (sd & Esd & Hsd).
  { pose proof (select_line_small d Hd). unfold SDS_LIMIT. lia. }
  { by intros ? [= <-]. }
  cbn [init_str] in Hsd. rewrite Nat2Z.id, firstn_all in Hsd. eapply wp_lift; [exact Esd|].
  set (h := objects (sv r)). set (a := alloc_object C (dom h)).
  assert (h !! a = None) as Ha by (apply not_elem_of_dom, alloc_object_fresh).
  set (ob := RObj OBJ_STRING OBJ_ENCODING_RAW (LRU_CLOCK (senv C)) 1 (PSds sd) : robj P).
  assert (str_obj ob (select_line d)) as Hob by (split; [done|]; left; split; [done|]; by exists sd).
  assert (held r a = 0) as Hha.
  { pose proof (lk_base _ _ _ L a) as Hba. assert (base r a = - held r a) as Eb by (unfold base; fold h; rewrite (count_None _ _ Ha); lia).
    pose proof (held_nonneg C u r a L). lia. }
  destruct (heap_linked C u r (<[a := ob]> h) L) as [L1 O1].
  { intros e. rewrite count_insert. destruct (decide (e = a)) as [->|]; [cbn; lia|]. exact (lk_base _ _ _ L e). }
  { intros e oe He Hoe. exists oe. split; [|done]. rewrite lookup_insert_ne; [exact Hoe|]. intros <-. lia. }
  set (r1 := set_sv (State.set_objects (fun _ => <[a := ob]> h) (sv r)) r) in *.
  apply (wp_mono _ (fun v r' => v = a /\ r' = r1)).
  { unfold on_objects. wp_step. apply wp_bind. eapply wp_lift; [reflexivity|]. cbn beta iota. wp_step. by wp_step. }
  intros v r' [-> ->].
  assert (has_string r1 a (select_line d)) as Hh1.
  { split; [exists ob; split; [apply lookup_insert_eq|done]|]. unfold base. change (held r1 a) with (held r a).
    change (objects (sv r1)) with (<[a := ob]> h). rewrite count_insert, decide_True by done. cbn. lia. }
  wp_step. apply wp_seq2. eapply wp_mono; [by eapply (send_select_wp u o x r1 d ids a)|].
  intros [] r2 [T F2 E2]. cbn beta.
  destruct (told_has C _ _ _ _ _ _ _ T Hh1) as [(o2 & Ho2 & Hs2) Hb2].
  pose proof (count_Some _ _ _ Ho2) as Hc2. pose proof (held_nonneg C _ r2 a (td_linked _ _ _ _ _ _ T)) as Hn2.
  destruct (decr_ok (objects (sv r2)) a o2 Ho2) as (h3 & Hd3 & Hsub & Hcnt); [unfold base in Hb2; lia|by destruct Hs2 as [E _]; unfold freeable; rewrite E|].
  assert (forall e, base r1 e = base r e + if decide (e = a) then 1 else 0) as Hbase1.
  { intros e. unfold base. change (held r1 e) with (held r e). change (objects (sv r1)) with (<[a := ob]> h). rewrite count_insert.
    destruct (decide (e = a)) as [->|]; [fold h; rewrite (count_None _ _ Ha); cbn; lia|fold h; lia]. }
  assert (forall e, count h3 e - held r2 e = base r e) as Hbase3.
  { intros e. rewrite Hcnt. pose proof (td_base _ _ _ _ _ _ T e) as E. rewrite Hbase1 in E. unfold base in *. destruct (decide (e = a)); lia. }
  destruct (heap_linked C _ r2 h3 (td_linked _ _ _ _ _ _ T)) as [L3 O3].
  { intros e. rewrite Hbase3. exact (lk_base _ _ _ L e). }
  { apply sub_kept; [exact Hsub|]. intros e He. apply count_live. specialize (Hbase3 e). pose proof (lk_base _ _ _ L e). lia. }
  unfold on_objects. wp_step. apply wp_bind. eapply wp_lift; [by rewrite Hd3|]. wp_step. apply wp_ret.
  constructor.
  - constructor; [exact L3|exact (td_clients _ _ _ _ _ _ T)| |exact Hbase3|].
    + intros j z Hz. apply O3, (td_out _ _ _ _ _ _ T), O1, Hz.
    + intros e oe He Hoe. assert (e <> a) as Hne by (intros ->; fold h in Hoe; congruence).
      destruct (td_kept _ _ _ _ _ _ T e oe) as (o' & Ho' & Hv).
      { rewrite Hbase1, decide_False by done. lia. }
      { change (objects (sv r1)) with (<[a := ob]> h). by rewrite lookup_insert_ne. }
      exists o'. split; [|exact Hv]. change (h3 !! e = Some o'). by rewrite (decr_others _ _ _ _ Hd3 Hne).
  - exact F2.
  - unfold rest in *. rewrite E2. reflexivity.
Qed.

(** The shared SELECT commands. *)
Definition selects_ok r : Prop :=
  forall n, 0 <= n < PROTO_SHARED_SELECT_CMDS -> exists a, select R !! Z.to_nat n = Some a /\ has_string r a (select_line n).

Lemma feed_select_wp u o x r d ids :
  linked C u r -> feeding (bl r) o x -> ids_ok r ids -> is_int d -> selects_ok r ->
  fits o x (select_line d) -> (forall id, id ∈ ids -> Z.of_nat (u id + 1) <= LIST_LIMIT) ->
  wp (feed_select C R ids d) (fun _ r' => fed_all u (more_for ids 1 u) o r r' x (select_line d) (for_ids r ids (select_line d))) r.
Proof.
  intros L F Hid Hd Hsel Hf Hu. destruct (shared_select d) eqn:Hsh; [|by apply select_new_wp].
  destruct (Hsel d) as (a & Ha & Hh); [unfold shared_select in Hsh; lia|].
  unfold feed_select, select_object. rewrite Hsh. apply wp_bind. eapply wp_lift; [exact Ha|]. wp_step. apply wp_seq2.
  eapply wp_mono; [by eapply send_select_wp|]. intros [] r' H. by apply wp_skip.
Qed.

(** A command that is fed to the backlog and to every replica. *)
Record fed_command u o r r' x d ys : Prop := FedCommand {
  fc_told : told C u (more_for (slaves r) (2 + length ys * 3) u) r r' (for_ids r (slaves r) (piece (slaveseldb r) d ys));
  fc_feeding : feeding (bl r') o (x ++ piece (slaveseldb r) d ys);
  fc_slaves : slaves r' = slaves r;
  fc_infos : infos r' = infos r;
  fc_db : slaveseldb r' = d;
  fc_child : rdb_child r' = rdb_child r;
  fc_written : written r' = written r
}.

Lemma ids_told u u' r r' w ids : told C u u' r r' w -> ids_ok r ids -> ids_ok r' ids.
Proof.
  intros T [Hn Hid]. split; [done|]. intros id Hin. destruct (Hid id Hin) as [c Hc].
  destruct (told_client C _ _ _ _ _ id c T Hc) as (c' & Hc' & _). by exists c'.
Qed.

Lemma shared_told u u' r r' w : told C u u' r r' w -> shared_by C (has_string r) -> shared_by C (has_string r').
Proof. intros T. apply shared_by_mono. intros a y. by apply (told_has C _ _ _ _ _ _ _ T). Qed.

Lemma held_strings r argv ys : Forall2 (has_string r) argv ys -> Forall2 (holds (objects (sv r))) argv ys.
Proof. intros H. eapply Forall2_impl; [exact H|]. intros a y [(o & Ho & Hs) _]. by exists o. Qed.

(** The select part: fed when the database changes. *)
Lemma maybe_select_wp u o x r d :
  linked C u r -> feeding (bl r) o x -> ids_ok r (slaves r) -> is_int d -> selects_ok r -> fits o x (select_line d) ->
  (forall id, id ∈ slaves r -> Z.of_nat (u id + 1) <= LIST_LIMIT) ->
  let text := if slaveseldb r =? d then [] else select_line d in
  wp (if slaveseldb r =? d then skip else feed_select C R (slaves r) d)
    (fun _ r' => fed_all u (more_for (slaves r) 1 u) o r r' x text (for_ids r (slaves r) text)) r.
Proof.
  intros L F Hid Hd Hsel Hf Hu. cbn zeta. destruct (slaveseldb r =? d); [|by apply feed_select_wp].
  apply wp_skip. constructor; [|by rewrite app_nil_r|apply rest_refl]. eapply told_ext; [eapply told_mono; [by apply told_refl|intros j; apply more_le|]|].
  - intros j. destruct (decide (j ∈ slaves r)); [rewrite more_in by done; by apply Hu|rewrite more_out by done; apply (lk_limit _ _ _ L)].
  - intros j. unfold for_ids. case_decide; [by destruct (gets_stream r j)|done].
Qed.

Lemma replicationFeedSlaves_wp u o x r d argv ys :
  linked C u r -> feeding (bl r) o x -> ids_ok r (slaves r) -> is_int d -> selects_ok r -> shared_by C (has_string r) ->
  Forall2 (has_string r) argv ys -> Forall (fun y => Z.of_nat (length y) < SDS_LIMIT) ys -> is_int (Z.of_nat (length ys)) ->
  fits o x (select_line d ++ command_text ys) -> (forall id, id ∈ slaves r -> Z.of_nat (u id + (2 + length ys * 3)) <= LIST_LIMIT) ->
  wp (replicationFeedSlaves C R (slaves r) d argv) (fun _ r' => fed_command u o r r' x d ys) r.
Proof.
  intros L F Hid Hd Hsel Hsh Ha Hy Hn Hf Hu. pose proof F as [_ _ _ _ _ _ (buf & Hb & _)]. unfold replicationFeedSlaves. wp_step.
  assert (bool_decide (is_Some (repl_backlog (bl r))) = true) as -> by (apply bool_decide_eq_true; by exists buf). cbn [negb andb].
  apply wp_bind, wp_check; [by rewrite andb_false_r|]. apply fits_app in Hf as [Hf1 Hf2].
  set (text := if slaveseldb r =? d then [] else select_line d).
  assert (fits o (x ++ text) (command_text ys)) as Hf3 by (unfold text, fits in *; destruct (slaveseldb r =? d); rewrite ?app_nil_r, ?length_app in *; lia).
  wp_use (maybe_select_wp u o x r d L F Hid Hd Hsel Hf1); [intros id Hin; specialize (Hu id Hin); lia|].
  intros [] r1 [T1 F1 E1]. fold text in F1, T1. cbn beta. unfold set_slaveseldb at 1. wp_step. wp_step.
  set (r2 := set_slaveseldb d r1). change (MkRepl _ _ _ _ _ _ _ _ _ _ _) with r2.
  assert (Forall2 (has_string r1) argv ys) as Ha1 by (eapply Forall2_impl; [exact Ha|intros a y; by apply (told_has C _ _ _ _ _ _ _ T1)]).
  pose proof F1 as [_ _ _ _ _ _ (buf1 & Hb1 & _)]. change (bl r2) with (bl r1) at 1. rewrite Hb1.
  wp_use (feed_backlog_wp o r2 (x ++ text) argv ys F1); [by apply (held_strings r1)|unfold is_signed in *; lia| |done|].
  { eapply Forall_impl; [exact Hy|]. intros y Hl. cbn beta in Hl. unfold SDS_LIMIT in Hl. unfold is_signed. lia. }
  intros [] r3 (b & -> & F3). cbn beta. change (slaves r2) with (slaves r1).
  destruct (rest_parts _ _ E1) as (Es & Ei & _ & Ec & Ew). rewrite Es. set (r3 := set_bl b r2) in *.
  assert (linked C (more_for (slaves r) 1 u) r3) as L3 by (eapply linked_same; [apply (td_linked _ _ _ _ _ _ T1)|done|done]).
  pose proof (Forall2_length _ _ _ Ha) as Hlen.
  eapply wp_mono; [eapply (for_slaves_wp C (1 + length argv * 3) (reply_command C argv) (command_text ys) (slaves r) (more_for (slaves r) 1 u) r3 L3)|].
  - apply Hid.
  - apply (ids_told _ _ _ _ _ _ T1 Hid).
  - intros id Hin. rewrite more_in by done. specialize (Hu id Hin). lia.
  - intros u' r' w id c T Hc. apply reply_command_says; [| |done|unfold is_signed in *; lia].
    + eapply shared_focus; [exact Hc|]. eapply shared_told; [exact T|]. by apply (shared_told _ _ _ _ _ T1).
    + eapply Forall2_impl; [exact Ha1|]. intros a y Hh. eapply has_avail; [exact Hc|]. by apply (told_has C _ _ _ _ _ _ _ T).
  - cbn beta. intros [] r4 [H4 T4]. destruct (only_clients_parts _ _ H4) as (P1 & P2 & P3 & P4 & P5 & P6). constructor.
    + eapply told_ext; [eapply told_mono; [eapply told_trans; [exact T1|eapply told_same; [exact T4|done..]]| |]|].
      * intros j. destruct (decide (j ∈ slaves r)); [rewrite !(more_in (slaves r)) by done; lia|rewrite !(more_out (slaves r)) by done; lia].
      * intros j. destruct (decide (j ∈ slaves r)); [rewrite more_in by done; by apply Hu|rewrite more_out by done; apply (lk_limit _ _ _ L)].
      * intros j. cbn beta. unfold for_ids, piece. fold text. change (gets_stream r3 j) with (gets_stream r1 j). rewrite (told_gets C _ _ _ _ _ j T1).
        case_decide; [by destruct (gets_stream r j)|done].
    + rewrite P1. unfold piece. fold text. rewrite app_assoc. exact F3.
    + rewrite P2. exact Es.
    + rewrite P3. exact Ei.
    + rewrite P4. done.
    + rewrite P5. exact Ec.
    + rewrite P6. exact Ew.
Qed.

(** With no backlog and no replicas there is nothing to do. *)
Lemma replicationFeedSlaves_none r d argv :
  repl_backlog (bl r) = None -> slaves r = [] -> wp (replicationFeedSlaves C R (slaves r) d argv) (fun _ r' => r' = r) r.
Proof. intros Hb Hs. unfold replicationFeedSlaves. wp_step. rewrite Hs, Hb. by apply wp_skip. Qed.

End Spec.
End ReplFeed.
