(* ===== verification/ReplSync.v ===== *)
(** * Becoming a replica: the specification (src/replication.c)

    [follows] is what a replica has still to be sent: all the stream since the
    offset that it asked for or was told.  [synced] says so of every replica
    and that the backlog has the last bytes of the stream; a SYNC or PSYNC
    command keeps it. *)

From S2P Require Import Prelude Monad Util Sds DictTypes Object ObjectSpec State HeapSpec Reply ReplySpec Backlog ScriptCache Repl ReplSpec ReplFeed.
Import Monad Util Sds DictTypes Object ObjectSpec State HeapSpec Reply ReplySpec Backlog ScriptCache Repl ReplSpec ReplFeed.

Module ReplSync.

Section Spec.
Context {P : Type} (C : config) (R : repl_config) (save : Monad.M (repl P) bool).
Context {HC : sound_config C}.

(** Whether a PSYNC may come with an offset that is not a number. *)
Context (bad : Prop).

Abbreviation repl := (repl P).
Implicit Types (r : repl) (a : addr) (c : client) (id : Z) (x y p : bytes) (K : Z -> Z -> Prop).

(** ** Changes that are not of the replies *)

Lemma upd_linked u r id c (f : client -> client) :
  linked C u r -> clients r !! id = Some c -> cout (f c) = cout c ->
  let r' := set_clients (fun m => <[id := f c]> m) r in
  linked C u r' /\ (forall j z, outstanding C r j z -> outstanding C r' j z) /\ forall a, base r' a = base r a.
Proof.
  intros [L1 L2 L3 L4 L5] Hc Hf r'.
  assert (forall a, base r' a = base r a) as Hb.
  { intros a. unfold base, held. cbn [clients r' set_clients sv]. rewrite (zsum_update _ _ id c) by done. unfold cre. rewrite Hf. lia. }
  split_and!; [constructor|..].
  - intros j d Hj. cbn in Hj. destruct (decide (j = id)) as [->|Hne].
    + rewrite lookup_insert_eq in Hj. injection Hj as <-. destruct (L1 id c Hc) as [z Hz]. exists z. by eapply pending_focus.
    + rewrite lookup_insert_ne in Hj by done. by apply (L1 j d).
  - intros a. rewrite Hb. apply L2.
  - intros j d Hj. cbn in Hj. destruct (decide (j = id)) as [->|Hne].
    + rewrite lookup_insert_eq in Hj. injection Hj as <-. unfold cre. rewrite Hf. by apply (L3 id c).
    + rewrite lookup_insert_ne in Hj by done. by apply (L3 j d).
  - exact L4.
  - cbn. rewrite map_size_insert_Some by (by eexists). exact L5.
  - intros j z (d & Hd & Hz). destruct (decide (j = id)) as [->|Hne].
    + rewrite Hc in Hd. injection Hd as <-. exists (f c). cbn. split; [by rewrite lookup_insert_eq|by eapply pending_focus].
    + exists d. cbn. split; [by rewrite lookup_insert_ne|exact Hz].
  - exact Hb.
Qed.

Lemma get_client_wp r id c (Q : client -> repl -> Prop) : clients r !! id = Some c -> Q c r -> wp (get_client id) Q r.
Proof. intros Hc HQ. unfold get_client. wp_step. by eapply wp_lift. Qed.

Lemma upd_client_wp r id c f (Q : unit -> repl -> Prop) :
  clients r !! id = Some c -> Q tt (set_clients (fun m => <[id := f c]> m) r) -> wp (upd_client id f) Q r.
Proof. intros Hc HQ. unfold upd_client. apply wp_bind. eapply get_client_wp; [exact Hc|]. by apply wp_modify. Qed.

Lemma get_info_wp r id i (Q : slave_info -> repl -> Prop) : infos r !! id = Some i -> Q i r -> wp (get_info id) Q r.
Proof. intros Hc HQ. unfold get_info. wp_step. by eapply wp_lift. Qed.

(** ** Requests *)

(** An argument that is a string, with its object. *)
Definition has_raw r a y : Prop :=
  exists ob, objects (sv r) !! a = Some ob /\ str_obj ob y /\ sdsEncodedObject ob = true /\ 0 < base r a.

Lemma raw_string r a y : has_raw r a y -> has_string r a y.
Proof. intros (ob & Ho & Hs & _ & Hb). split; [by exists ob|exact Hb]. Qed.

Definition asks r id (ys : list bytes) : Prop :=
  exists c, clients r !! id = Some c /\ Forall2 (has_raw r) (argv (cin c)) ys.

(** What may be asked: a command of one argument that is not PSYNC, or one of
    three, the last of which is a number unless [bad] ones are expected. *)
Definition request_ok (ys : list bytes) : Prop :=
  (exists y0, ys = [y0] /\ forall tl, strcasecmp (y0 ++ 0 :: tl) (str "psync" ++ [0]) <> 0) \/
  (exists y0 y1 y2, ys = [y0; y1; y2] /\ (is_Some (string2ll y2) \/ bad)).

(** What a client is told whose offset is not a number. *)
Definition not_a_number : bytes := error_line (str "value is not an integer or out of range").

(** What may go before the stream. *)
Definition warned pre : Prop := pre = [] \/ (bad /\ pre = not_a_number).

Lemma told_raw u u' r r' w a y : told C u u' r r' w -> has_raw r a y -> has_raw r' a y.
Proof.
  intros T (ob & Ho & Hs & He & Hb). destruct (td_kept _ _ _ _ _ _ T a ob Hb Ho) as (ob' & Ho' & Hv).
  exists ob'. split_and!; [done|by eapply str_obj_same| |by rewrite (td_base _ _ _ _ _ _ T)].
  destruct Hv as (_ & E & _). unfold sdsEncodedObject in *. by rewrite E.
Qed.

Lemma told_asks u u' r r' w id ys : told C u u' r r' w -> asks r id ys -> asks r' id ys.
Proof.
  intros T (c & Hc & Ha). destruct (told_client C _ _ _ _ _ id c T Hc) as (c' & Hc' & Hs).
  exists c'. split; [done|]. rewrite (sc_cin _ _ Hs). eapply Forall2_impl; [exact Ha|]. intros a y. by eapply told_raw.
Qed.

(** ** Replicas *)

Definition fullresync_text (offset : Z) : bytes := str "+FULLRESYNC " ++ runid R ++ str " " ++ decimal offset ++ CRLF.
Definition continue_text : bytes := str "+CONTINUE" ++ CRLF.

(** The bytes of the stream after an offset, when [x] follows offset [o]. *)
Definition since (o : Z) x (offset : Z) : bytes := drop (Z.to_nat (offset - o)) x.

Lemma since_app o x p offset : o <= offset <= o + Z.of_nat (length x) -> since o (x ++ p) offset = since o x offset ++ p.
Proof. intros H. unfold since. by rewrite drop_app_le by lia. Qed.

(** [K] is what is to be known of the offset of a replica that waits for the
    end of a save and the database that is selected in the stream; a database
    of -1 is one that will be selected again. *)
Definition resets K : Prop := forall offset d, K offset d -> K offset (-1).

Inductive follows_as K (o : Z) x r id c (i : slave_info) : Prop :=
| follows_start pre : replstate c = SLAVE_STATE_WAIT_BGSAVE_START -> warned pre -> outstanding C r id pre -> follows_as K o x r id c i
| follows_end pre : replstate c = SLAVE_STATE_WAIT_BGSAVE_END -> warned pre ->
    K (psync_initial_offset i) (slaveseldb r) -> o <= psync_initial_offset i <= o + Z.of_nat (length x) ->
    outstanding C r id (pre ++ since o x (psync_initial_offset i)) ->
    (has (flags c) CLIENT_PRE_PSYNC = false -> (fd c, fullresync_text (psync_initial_offset i)) ∈ written r) -> follows_as K o x r id c i
| follows_online ys offset : replstate c = SLAVE_STATE_ONLINE -> asks r id ys -> ys !! 2%nat = Some (decimal (offset + 1)) ->
    o <= offset <= o + Z.of_nat (length x) -> (has (flags c) CLIENT_CLOSE_ASAP = false -> outstanding C r id (since o x offset)) ->
    (fd c, continue_text) ∈ written r -> follows_as K o x r id c i.

Definition follows K (o : Z) x r id : Prop :=
  exists c i, clients r !! id = Some c /\ infos r !! id = Some i /\ has (flags c) CLIENT_SLAVE = true /\ talks c = true /\ follows_as K o x r id c i.

Lemma more_asap f f' : more_flags f f' -> has f' CLIENT_CLOSE_ASAP = false -> has f CLIENT_CLOSE_ASAP = false.
Proof.
  intros (e & -> & _) H. unfold has in *. apply negb_false_iff, Z.eqb_eq in H. apply negb_false_iff, Z.eqb_eq.
  rewrite Z.land_lor_distr_l in H. by apply Z.lor_eq_0_iff in H as [H _].
Qed.

(** Replies keep what a replica follows; those in the stream go to the ones
    that are given it. *)
Lemma follows_told K K' u u' o x p r r' w id :
  follows K o x r id -> (forall offset, K offset (slaveseldb r) -> K' offset (slaveseldb r')) -> told C u u' r r' w -> infos r' = infos r -> written r ⊆ written r' ->
  w id = (if gets_stream r id then p else []) -> follows K' o (x ++ p) r' id.
Proof.
  intros (c & i & Hc & Hi & Hs & Ht & Hf) HK T Ei Ew Hw. destruct (told_client C _ _ _ _ _ id c T Hc) as (c' & Hc' & Hsame).
  assert (gets_stream r id = negb (replstate c =? SLAVE_STATE_WAIT_BGSAVE_START)) as Hg by (unfold gets_stream, attached; by rewrite Hc, Ht, andb_true_r).
  rewrite Hg in Hw. exists c', i. split_and!; [done|by rewrite Ei|by rewrite (more_has (flags c)) by (apply Hsame || done)|by rewrite (same_talks _ _ Hsame)|].
  pose proof (sc_replstate _ _ Hsame) as Er. pose proof (sc_fd _ _ Hsame) as Ef.
  destruct Hf as [pre Hst Hpr Ho|pre Hst Hpr Hk Hr Ho Hwr|ys offset Hst Ha Hy Hr Ho Hwr]; rewrite Hst in Hw; cbn in Hw.
  - apply (follows_start _ _ _ _ _ _ _ pre); [congruence|done|]. apply (td_out _ _ _ _ _ _ T) in Ho. by rewrite Hw, app_nil_r in Ho.
  - apply (follows_end _ _ _ _ _ _ _ pre); [congruence|done|by apply HK|rewrite length_app; lia| |].
    + rewrite since_app by done. rewrite <- Hw, app_assoc. by apply (td_out _ _ _ _ _ _ T).
    + rewrite (more_has (flags c)) by (apply Hsame || done). rewrite Ef. intros Hpre. by apply Ew, Hwr.
  - apply (follows_online _ _ _ _ _ _ _ ys offset); [congruence|by eapply told_asks|done|rewrite length_app; lia| |rewrite Ef; by apply Ew].
    intros Hcl. rewrite since_app by done. rewrite <- Hw. apply (td_out _ _ _ _ _ _ T), Ho. eapply more_asap; [apply Hsame|done].
Qed.

(** A change that touches nothing of a replica but grows the trace. *)
Lemma follows_same K o x r r' id :
  follows K o x r id -> slaveseldb r' = slaveseldb r -> clients r' !! id = clients r !! id -> infos r' !! id = infos r !! id -> written r ⊆ written r' ->
  (forall z, outstanding C r id z -> outstanding C r' id z) -> (forall ys, asks r id ys -> asks r' id ys) -> follows K o x r' id.
Proof.
  intros (c & i & Hc & Hi & Hs & Ht & Hf) Es Ec Ei Ew Ho Ha. exists c, i. split_and!; [by rewrite Ec|by rewrite Ei|done|done|].
  destruct Hf as [pre Hst Hpr Hout|pre Hst Hpr Hk Hr Hout Hwr|ys offset Hst Hasks Hy Hr Hout Hwr].
  - apply (follows_start _ _ _ _ _ _ _ pre); [done|done|by apply Ho].
  - apply (follows_end _ _ _ _ _ _ _ pre); [done|done|by rewrite Es|done|by apply Ho|]. intros Hpre. by apply Ew, Hwr.
  - apply (follows_online _ _ _ _ _ _ _ ys offset); [done|by apply Ha|done|done| |by apply Ew]. intros Hcl. by apply Ho, Hout.
Qed.

(** The backlog, or that there is none yet. *)
Definition offered (b : backlog) (o : Z) x : Prop :=
  feeding b o x \/
  (repl_backlog b = None /\ x = [] /\ o = master_repl_offset b + 1 /\ 0 < repl_backlog_size b < 2 ^ 60 /\ 0 <= master_repl_offset b < 2 ^ 60).

Lemma initial_offset b o x : offered b o x -> getPsyncInitialOffset b = o + Z.of_nat (length x).
Proof.
  intros [[_ Ho _ _ _ _ (buf & Hb & _)]|(Hb & -> & -> & _ & Hm)]; unfold getPsyncInitialOffset; rewrite Hb; [done|].
  rewrite wraps_small by (unfold is_signed; lia). cbn. lia.
Qed.

(** A client that may become a replica. *)
Definition ready r id : Prop :=
  exists c i ys, clients r !! id = Some c /\ infos r !! id = Some i /\ talks c = true /\ has (flags c) CLIENT_LUA = false /\
    has (flags c) CLIENT_SLAVE = false /\ asks r id ys /\ request_ok ys.

(** A client whose requests do nothing any more: a replica, or one that is
    closed after its replies. *)
Definition settled r id : Prop :=
  exists c, clients r !! id = Some c /\ (has (flags c) CLIENT_SLAVE = true \/ has (flags c) CLIENT_CLOSE_AFTER_REPLY = true).

Definition candidate r id : Prop := ready r id \/ settled r id.

Lemma follows_settled K o x r id : follows K o x r id -> settled r id.
Proof. intros (c & i & Hc & _ & Hs & _). exists c. auto. Qed.

(** ** Steps for one client *)

Record only_for id r r' : Prop := OnlyFor {
  of_clients : forall j, j <> id -> match clients r !! j, clients r' !! j with Some c, Some c' => same_client c c' | None, None => True | _, _ => False end;
  of_outs : forall j z, j <> id -> outstanding C r j z -> outstanding C r' j z;
  of_bases : forall a, base r' a = base r a;
  of_objs : forall a ob, 0 < base r a -> objects (sv r) !! a = Some ob -> exists ob', objects (sv r') !! a = Some ob' /\ same_value ob ob';
  of_bl : bl r' = bl r;
  of_infos : forall j, j <> id -> infos r' !! j = infos r !! j;
  of_written : written r ⊆ written r';
  of_sel : slaveseldb r' = slaveseldb r \/ slaveseldb r' = -1
}.

Lemma only_for_refl id r : only_for id r r.
Proof.
  constructor; try done; [|intros a ob _ Ho; by exists ob|by left]. intros j _. destruct (clients r !! j); [apply same_client_refl|done].
Qed.

Lemma only_for_trans id r1 r2 r3 : only_for id r1 r2 -> only_for id r2 r3 -> only_for id r1 r3.
Proof.
  intros [A1 A2 A3 A4 A5 A6 A7 A8] [B1 B2 B3 B4 B5 B6 B7 B8]. constructor; try congruence.
  - intros j Hj. specialize (A1 j Hj). specialize (B1 j Hj). destruct (clients r1 !! j), (clients r2 !! j), (clients r3 !! j); try done. by eapply same_client_trans.
  - intros j z Hj Hz. by apply B2, A2.
  - intros a ob Ha Ho. destruct (A4 a ob Ha Ho) as (o2 & Ho2 & Hv). destruct (B4 a o2) as (o3 & Ho3 & Hv3); [by rewrite A3|done|].
    exists o3. split; [done|]. by eapply same_value_trans.
  - intros j Hj. rewrite B6, A6 by done. done.
  - by etrans.
  - destruct B8 as [->|]; [done|by right].
Qed.

Lemma told_only u u' r r' w id : told C u u' r r' w -> (forall j, j <> id -> w j = []) -> bl r' = bl r -> infos r' = infos r -> written r ⊆ written r' ->
  slaveseldb r' = slaveseldb r -> only_for id r r'.
Proof.
  intros T Hw Eb Ei Ew Es. constructor; [|..|exact Eb| |exact Ew|by left].
  - intros j _. apply (td_clients _ _ _ _ _ _ T).
  - intros j z Hj Hz. apply (td_out _ _ _ _ _ _ T) in Hz. by rewrite Hw, app_nil_r in Hz.
  - apply (td_base _ _ _ _ _ _ T).
  - apply (td_kept _ _ _ _ _ _ T).
  - intros j _. by rewrite Ei.
Qed.

Lemma upd_only id r c (f : client -> client) u : linked C u r -> clients r !! id = Some c -> cout (f c) = cout c ->
  only_for id r (set_clients (fun m => <[id := f c]> m) r).
Proof.
  intros L Hc Hf. destruct (upd_linked u r id c f L Hc Hf) as (_ & Ho & Hb). constructor; try done.
  - intros j Hj. cbn. rewrite lookup_insert_ne by done. destruct (clients r !! j); [apply same_client_refl|done].
  - intros j z _. apply Ho.
  - intros a ob _ Hob. by exists ob.
  - by left.
Qed.

(** The rest of the state. *)
Lemma state_only id r r' : clients r' = clients r -> objects (sv r') = objects (sv r) -> bl r' = bl r ->
  (forall j, j <> id -> infos r' !! j = infos r !! j) -> written r ⊆ written r' ->
  (slaveseldb r' = slaveseldb r \/ slaveseldb r' = -1) -> only_for id r r'.
Proof.
  intros Ec Eo Eb Ei Ew Es. constructor; try done.
  - intros j _. rewrite Ec. destruct (clients r !! j); [apply same_client_refl|done].
  - intros j z _ (c & Hc & Hz). exists c. split; [by rewrite Ec|by eapply pending_focus].
  - intros a. unfold base, held. by rewrite Ec, Eo.
  - intros a ob _ Hob. exists ob. by rewrite Eo.
Qed.

Lemma only_raw id r r' a y : only_for id r r' -> has_raw r a y -> has_raw r' a y.
Proof.
  intros F (ob & Ho & Hs & He & Hb). destruct (of_objs _ _ _ F a ob Hb Ho) as (ob' & Ho' & Hv).
  exists ob'. split_and!; [done|by eapply str_obj_same| |by rewrite (of_bases _ _ _ F)].
  destruct Hv as (_ & E & _). unfold sdsEncodedObject in *. by rewrite E.
Qed.

Lemma only_string id r r' a y : only_for id r r' -> has_string r a y -> has_string r' a y.
Proof.
  intros F [(ob & Ho & Hs) Hb]. destruct (of_objs _ _ _ F a ob Hb Ho) as (ob' & Ho' & Hv).
  split; [exists ob'; split; [done|by eapply str_obj_same]|by rewrite (of_bases _ _ _ F)].
Qed.

Lemma only_client id r r' j c : only_for id r r' -> j <> id -> clients r !! j = Some c -> exists c', clients r' !! j = Some c' /\ same_client c c'.
Proof.
  intros F Hj Hc. pose proof (of_clients _ _ _ F j Hj) as H. rewrite Hc in H. destruct (clients r' !! j) as [c'|]; [by exists c'|done].
Qed.

Lemma asks_other id r r' j ys : only_for id r r' -> j <> id -> asks r j ys -> asks r' j ys.
Proof.
  intros F Hj (c & Hc & Ha). destruct (only_client _ _ _ _ _ F Hj Hc) as (c' & Hc' & Hs). exists c'. split; [done|].
  rewrite (sc_cin _ _ Hs). eapply Forall2_impl; [exact Ha|]. intros a y. by eapply only_raw.
Qed.

Lemma follows_other K id o x r r' j : resets K -> only_for id r r' -> j <> id -> follows K o x r j -> follows K o x r' j.
Proof.
  intros HK F Hj (c & i & Hc & Hi & Hs & Ht & Hf). destruct (only_client _ _ _ _ _ F Hj Hc) as (c' & Hc' & Hsame).
  exists c', i. split_and!; [done|by rewrite (of_infos _ _ _ F)|by rewrite (more_has (flags c)) by (apply Hsame || done)|by rewrite (same_talks _ _ Hsame)|].
  pose proof (sc_replstate _ _ Hsame) as Er. pose proof (sc_fd _ _ Hsame) as Ef.
  destruct Hf as [pre Hst Hpr Ho|pre Hst Hpr Hk Hr Ho Hwr|ys offset Hst Ha Hy Hr Ho Hwr].
  - apply (follows_start _ _ _ _ _ _ _ pre); [congruence|done|]. by apply (of_outs _ _ _ F).
  - apply (follows_end _ _ _ _ _ _ _ pre); [congruence|done|destruct (of_sel _ _ _ F) as [->| ->]; [done|by eapply HK]|done|by apply (of_outs _ _ _ F)|].
    rewrite (more_has (flags c)) by (apply Hsame || done). rewrite Ef. intros Hpre. by apply (of_written _ _ _ F), Hwr.
  - apply (follows_online _ _ _ _ _ _ _ ys offset); [congruence|by eapply asks_other|done|done| |rewrite Ef; by apply (of_written _ _ _ F)].
    intros Hcl. apply (of_outs _ _ _ F); [done|]. apply Ho. eapply more_asap; [apply Hsame|done].
Qed.

Lemma ready_other id r r' j : only_for id r r' -> j <> id -> ready r j -> ready r' j.
Proof.
  intros F Hj (c & i & ys & Hc & Hi & Ht & Hl & Hs & Ha & Hok). destruct (only_client _ _ _ _ _ F Hj Hc) as (c' & Hc' & Hsame).
  exists c', i, ys. split_and!; [done|by rewrite (of_infos _ _ _ F)|by rewrite (same_talks _ _ Hsame)| | |by eapply asks_other|done];
    by rewrite (more_has (flags c)) by (apply Hsame || done).
Qed.

Lemma settled_other id r r' j : only_for id r r' -> j <> id -> settled r j -> settled r' j.
Proof.
  intros F Hj (c & Hc & Hs). destruct (only_client _ _ _ _ _ F Hj Hc) as (c' & Hc' & Hsame). exists c'. split; [done|].
  destruct Hs as [Hs|Hs]; [left|right]; rewrite (more_has (flags c)); (done || apply Hsame).
Qed.

Lemma candidate_other id r r' j : only_for id r r' -> j <> id -> candidate r j -> candidate r' j.
Proof. intros F Hj [H|H]; [left; by eapply ready_other|right; by eapply settled_other]. Qed.

(** [S] follow the stream, [T] may still become replicas or need not be asked
    any more, the strings of [A] are held. *)
Record synced K (A : addr -> bytes -> Prop) (S T : Z -> Prop) (n : nat) o x r : Prop := Synced {
  sy_linked : linked C (fun _ => n) r;
  sy_offered : offered (bl r) o x;
  sy_follows : forall id, S id -> follows K o x r id;
  sy_ready : forall id, T id -> candidate r id;
  sy_strings : forall a y, A a y -> has_string r a y
}.

Lemma synced_weaken K A (S S' T T' : Z -> Prop) n o x r :
  synced K A S T n o x r -> (forall id, S' id -> S id) -> (forall id, T' id -> T id) -> synced K A S' T' n o x r.
Proof. intros [L O F Y Z] HS HT. constructor; auto. Qed.

(** ** One client *)

Definition self r id c i z : Prop := clients r !! id = Some c /\ infos r !! id = Some i /\ outstanding C r id z.

Lemma freeClientAsync_says (s : state P) : says C 0 s freeClientAsync [].
Proof.
  intros z Hz _. unfold said. replace (if talks (cl s) then [] else []) with (@nil Z) by (by destruct (talks (cl s))).
  unfold freeClientAsync. wp_step. destruct (_ || _); [apply wp_skip; by apply emitted_refl|]. unfold add_flag. wp_step. apply wp_modify.
  apply quiet_emitted; try done. exists CLIENT_CLOSE_ASAP. by split.
Qed.

Lemma linked_const u n r : linked C u r -> (forall j, u j <= n)%nat -> Z.of_nat n <= LIST_LIMIT -> linked C (fun _ => n) r.
Proof. intros L Hu Hn. by eapply linked_mono. Qed.

Lemma with_client_self n k r id c i z m y :
  linked C (fun _ => n) r -> self r id c i z -> talks c = true -> says C k (focus c (sv r)) m y -> Z.of_nat (n + k) <= LIST_LIMIT ->
  wp (with_client id m) (fun _ r' => only_for id r r' /\ linked C (fun _ => (n + k)%nat) r' /\ only_clients r r' /\
    exists c', self r' id c' i (z ++ y) /\ same_client c c') r.
Proof.
  intros L (Hc & Hi & Ho) Ht Hm Hk. eapply wp_mono; [by eapply with_client_wp|]. cbn beta. intros [] r' [E T].
  destruct (only_clients_parts _ _ E) as (P1 & P2 & P3 & P4 & P5 & P6). destruct (told_client C _ _ _ _ _ id c T Hc) as (c' & Hc' & Hs).
  split_and!; [|..|exact E|].
  - eapply told_only; [exact T|intros j Hj; cbn beta; by rewrite decide_False|done..|by rewrite P6|by rewrite P4].
  - eapply linked_const; [apply (td_linked _ _ _ _ _ _ T)| |done]. intros j. unfold more_for. case_decide; lia.
  - exists c'. split; [|done]. split_and!; [done|by rewrite P3|]. apply (td_out _ _ _ _ _ _ T) in Ho. cbn beta in Ho. by rewrite decide_True, Ht in Ho.
Qed.

(** [upd_client] for a client in hand. *)
Lemma upd_self n r id c i z f :
  linked C (fun _ => n) r -> self r id c i z -> cout (f c) = cout c ->
  wp (upd_client id f) (fun _ r' => only_for id r r' /\ linked C (fun _ => n) r' /\ self r' id (f c) i z /\
    r' = set_clients (fun m => <[id := f c]> m) r) r.
Proof.
  intros L (Hc & Hi & Ho) Hf. eapply upd_client_wp; [exact Hc|]. destruct (upd_linked _ r id c f L Hc Hf) as (L' & Ho' & _).
  split_and!; [by eapply upd_only|exact L'| |done]. split_and!; [apply lookup_insert_eq|done|by apply Ho'].
Qed.

Lemma self_state r r' id c i z : self r id c i z -> clients r' = clients r -> objects (sv r') = objects (sv r) -> infos r' !! id = infos r !! id ->
  self r' id c i z.
Proof.
  intros (Hc & Hi & d & Hd & Hz) Ec Eo Ei. split_and!; [by rewrite Ec|by rewrite Ei|]. exists d. split; [by rewrite Ec|by eapply pending_focus].
Qed.

(** The parts of the state that the steps for one client keep. *)
Definition keeps r r' : Prop := slaves r' = slaves r /\ rdb_child r' = rdb_child r.

(** What a replica is when it waits for the end of a save. *)
Definition set_up r id c (offset : Z) z r' : Prop :=
  exists c' i', self r' id c' i' z /\ replstate c' = SLAVE_STATE_WAIT_BGSAVE_END /\ psync_initial_offset i' = offset /\
    more_flags (flags c) (flags c') /\ fd c' = fd c /\ cin c' = cin c /\ slaveseldb r' = -1 /\
    (has (flags c) CLIENT_PRE_PSYNC = false -> (fd c, fullresync_text offset) ∈ written r').

Lemma setup_wp n r id c i z offset :
  linked C (fun _ => n) r -> self r id c i z -> talks c = true ->
  wp (replicationSetupSlaveForFullResync R id offset) (fun _ r' => only_for id r r' /\ linked C (fun _ => n) r' /\ keeps r r' /\
    set_up r id c offset z r') r.
Proof.
  intros L Hself Ht. unfold replicationSetupSlaveForFullResync. pose proof Hself as (Hc & Hi & Ho).
  unfold upd_info. apply wp_bind. apply wp_bind. eapply get_info_wp; [exact Hi|]. apply wp_modify.
  set (i' := SlaveInfo offset (repl_ack_off i) (slave_capa i)). set (r1 := set_infos _ r).
  assert (only_for id r r1) as F1 by (apply state_only; try done; [intros j Hj; cbn; by rewrite lookup_insert_ne|by left]).
  assert (self r1 id c i' z) as S1.
  { split_and!; [done|cbn; apply lookup_insert_eq|]. destruct Ho as (d & Hd & Hz). exists d. split; [done|by eapply pending_focus]. }
  assert (linked C (fun _ => n) r1) as L1 by (by eapply linked_same).
  wp_use (upd_self n r1 id c i' z (set_replstate SLAVE_STATE_WAIT_BGSAVE_END) L1 S1); [done|]. intros [] r2 (F2 & L2 & S2 & E2).
  wp_step. set (r3 := set_slaveseldb (-1) r2).
  assert (only_for id r2 r3) as F3 by (apply state_only; try done; by right).
  assert (linked C (fun _ => n) r3) as L3 by (by eapply linked_same).
  assert (self r3 id (set_replstate SLAVE_STATE_WAIT_BGSAVE_END c) i' z) as S3 by (by eapply self_state).
  pose proof S3 as (Hc3 & _). apply wp_bind. eapply get_client_wp; [exact Hc3|].
  change (flags (set_replstate SLAVE_STATE_WAIT_BGSAVE_END c)) with (flags c). change (fd (set_replstate SLAVE_STATE_WAIT_BGSAVE_END c)) with (fd c).
  assert (keeps r r3) as K3 by (subst r3 r2 r1; done).
  assert (only_for id r r3) as F03 by (eapply only_for_trans; [exact F1|by eapply only_for_trans]).
  destruct (has (flags c) CLIENT_PRE_PSYNC) eqn:Hpre.
  { apply wp_ret. split_and!; [done..|]. eexists _, i'. split_and!; [exact S3|done|done|apply more_refl|done|done|done|congruence]. }
  fold (fullresync_text offset). unfold write_to. apply wp_bind. wp_step. wp_step. wp_step.
  set (r4 := add_written (fd c) (fullresync_text offset) r3).
  assert (only_for id r3 r4) as F4 by (apply state_only; try done; [cbn; set_solver|by left]).
  assert (linked C (fun _ => n) r4) as L4 by (by eapply linked_same).
  assert (self r4 id (set_replstate SLAVE_STATE_WAIT_BGSAVE_END c) i' z) as S4 by (by eapply self_state).
  assert (keeps r r4) as K4 by exact K3.
  assert ((fd c, fullresync_text offset) ∈ written r4) as W4 by (cbn; set_solver).
  assert (only_for id r r4) as F04 by (by eapply only_for_trans).
  destruct (_ =? _).
  { apply wp_ret. split_and!; [done..|]. eexists _, i'. split_and!; [exact S4|done..|apply more_refl|done|done|done|done]. }
  wp_use (with_client_self n 0 r4 id _ i' z freeClientAsync [] L4 S4); [exact Ht|apply freeClientAsync_says|rewrite Nat.add_0_r; apply (lk_limit _ _ _ L id)|].
  intros [] r5 (F5 & L5 & E5 & c5 & S5 & Hs5). rewrite Nat.add_0_r in L5. rewrite app_nil_r in S5. apply wp_ret.
  destruct (only_clients_parts _ _ E5) as (_ & P2 & _ & P4 & P5 & P6). destruct Hs5 as [G1 G2 G3 G4 G5].
  split_and!; [by eapply only_for_trans|done|split; [by rewrite P2; apply K4|by rewrite P5; apply K4]|].
  exists c5, i'. split_and!; [exact S5|by rewrite G5|done|exact G1|exact G3|exact G4|by rewrite P4|intros _; by rewrite P6].
Qed.

(** ** The stream so far *)

(** What is queued for one client. *)
Definition given (n n' : nat) r id c i z y r' : Prop :=
  only_for id r r' /\ linked C (fun _ => n') r' /\ only_clients r r' /\ exists c', self r' id c' i (z ++ y) /\ same_client c c'.

Lemma given_refl n r id c i z : linked C (fun _ => n) r -> self r id c i z -> given n n r id c i z [] r.
Proof.
  intros L S. split_and!; [apply only_for_refl|done|apply only_clients_refl|]. exists c. rewrite app_nil_r. split; [done|apply same_client_refl].
Qed.

Lemma pieces_wp xs : forall n r id c i z, linked C (fun _ => n) r -> self r id c i z -> talks c = true ->
  Z.of_nat (n + length xs) <= LIST_LIMIT -> Z.of_nat (length (concat xs)) < SDS_LIMIT ->
  wp (for_each xs (fun x => s ← lift (sdsnewlen (junk (senv C)) (Some x) (Z.of_nat (length x))); with_client id (addReplySds C s)))
    (fun _ r' => given n (n + length xs) r id c i z (concat xs) r') r.
Proof.
  induction xs as [|x xs IH]; intros n r id c i z L S Ht Hn Hl; cbn [for_each length concat] in *.
  { apply wp_skip. rewrite Nat.add_0_r. by apply given_refl. }
  rewrite length_app in Hl. apply wp_bind, wp_bind.
  destruct (sdsnewlen_rep (junk (senv C)) (Some x) (Z.of_nat (length x))) as (sd & E & Hsd); [lia|by intros ? [= <-]|].
  cbn [init_str] in Hsd. rewrite Nat2Z.id, firstn_all in Hsd. eapply wp_lift; [exact E|].
  eapply wp_mono; [eapply (with_client_self n 1); [done|exact S|done|by apply addReplySds_says|lia]|].
  cbn beta. intros [] r1 (F1 & L1 & E1 & c1 & S1 & Hs1).
  eapply wp_mono; [eapply (IH (n + 1)%nat r1); [done|exact S1|by rewrite (same_talks _ _ Hs1)|lia|lia]|].
  intros [] r2 (F2 & L2 & E2 & c2 & S2 & Hs2). split_and!; [by eapply only_for_trans|by replace (n + Datatypes.S (length xs))%nat with (n + 1 + length xs)%nat by lia|by eapply only_clients_trans|].
  exists c2. rewrite <- app_assoc in S2. split; [done|by eapply same_client_trans].
Qed.

Lemma addReplyReplicationBacklog_wp n r id c i z o x offset :
  linked C (fun _ => n) r -> self r id c i z -> talks c = true -> feeding (bl r) o x -> Z.of_nat (n + 2) <= LIST_LIMIT ->
  repl_backlog_off (bl r) <= offset <= master_repl_offset (bl r) + 1 ->
  wp (addReplyReplicationBacklog C id offset) (fun _ r' => given n (n + 2) r id c i z (since o x (offset - 1)) r') r.
Proof.
  intros L S Ht F Hn Hoff. unfold addReplyReplicationBacklog. wp_step. cbn zeta.
  destruct (read_from _ _ _ _ F Hoff) as (xs & Hc & Hr). destruct F as [Hs Ho [Ho0 Hsm] Hh Hf Hi _].
  assert (since o x (offset - 1) = concat xs) as -> by (rewrite Hc; unfold since; f_equal; lia).
  destruct (Z.eqb_spec (repl_backlog_histlen (bl r)) 0) as [E|E].
  - apply wp_ret. assert (concat xs = []) as -> by (rewrite Hc; apply drop_ge; lia).
    destruct (given_refl n r id c i z L S) as (G1 & G2 & G3 & G4). split_and!; try done. eapply linked_const; [done|intros j; cbn beta; lia|lia].
  - apply wp_bind. eapply wp_lift; [exact Hr|]. cbn beta iota.
    pose proof (from_pieces _ _ _ _ Hr) as Hp.
    wp_use (pieces_wp xs n r id c i z L S Ht); [lia|rewrite Hc, length_drop; unfold SDS_LIMIT; lia|].
    intros [] r1 (G1 & G2 & G3 & G4). apply wp_ret. split_and!; try done. eapply linked_const; [done|intros j; cbn beta; lia|lia].
Qed.

End Spec.
End ReplSync.
