(* ===== verification/ReplFull.v ===== *)
(** * SYNC and PSYNC: the specification (src/replication.c)

    A client that issues SYNC or PSYNC is given the stream from the offset it
    asks for, or made to wait for a save and told the offset at which its
    stream begins; the other replicas are not disturbed, but for those that
    wait for a save that cannot start. *)

From S2P Require Import Prelude Monad Util Sds DictTypes Object ObjectSpec State HeapSpec Reply ReplySpec Backlog ScriptCache Repl ReplSpec ReplFeed ReplSync.
Import Monad Util Sds DictTypes Object ObjectSpec State HeapSpec Reply ReplySpec Backlog ScriptCache Repl ReplSpec ReplFeed ReplSync.

Module ReplFull.

Lemma wp_and {S A} (m : Monad.M S A) (Q1 Q2 : A -> S -> Prop) s : wp m Q1 s -> wp m Q2 s -> wp m (fun v s' => Q1 v s' /\ Q2 v s') s.
Proof. intros (s1 & v1 & E1 & H1) (s2 & v2 & E2 & H2). rewrite E1 in E2. injection E2 as <- <-. by exists s1, v1. Qed.

Section Spec.
Context {P : Type} (C : config) (R : repl_config) (save : Monad.M (repl P) bool).
Context {HC : sound_config C}.
Context (bad : Prop).

Abbreviation repl := (repl P).
Implicit Types (r : repl) (a : addr) (c : client) (id : Z) (x y p : bytes) (K : Z -> Z -> Prop).

(** ** Steps for one client, one after the other *)

(** From [r0] the operations for [id] have come to [r]. *)
Record on r0 n id c (i : slave_info) z (l : list Z) (w : list (Z * bytes)) r : Prop := On {
  on_only : only_for C id r0 r;
  on_linked : linked C (fun _ => n) r;
  on_self : self C r id c i z;
  on_slaves : slaves r = l;
  on_child : rdb_child r = rdb_child r0;
  on_written : w ⊆ written r
}.

Lemma on_start n r id c i z : linked C (fun _ => n) r -> self C r id c i z -> on r n id c i z (slaves r) [] r.
Proof. intros L S. constructor; try done; [apply only_for_refl|set_solver]. Qed.

Lemma on_upd r0 n id c i z l w r f (Q : unit -> repl -> Prop) :
  on r0 n id c i z l w r -> cout (f c) = cout c -> (forall r', on r0 n id (f c) i z l w r' -> Q tt r') -> wp (upd_client id f) Q r.
Proof.
  intros [F L S Hl Hd Hw] Hf HQ. eapply wp_mono; [by eapply upd_self|]. cbn beta. intros [] r' (F' & L' & S' & E).
  apply HQ. constructor; try done; [by eapply only_for_trans|by rewrite E..].
Qed.

(** What is not the clients, the objects, the backlog or the replicas. *)
Lemma on_state r0 n id c i z l w r r' l' :
  on r0 n id c i z l w r -> clients r' = clients r -> objects (sv r') = objects (sv r) -> bl r' = bl r -> infos r' = infos r ->
  slaves r' = l' -> rdb_child r' = rdb_child r -> written r ⊆ written r' -> slaveseldb r' = slaveseldb r -> on r0 n id c i z l' w r'.
Proof.
  intros [F L S Hl Hd Hw] Ec Eo Eb Ei El Ed Ew Es. constructor; try done; [|by eapply linked_same| |congruence|by etrans].
  - eapply only_for_trans; [exact F|]. apply state_only; try done; [|by left]. intros j _. by rewrite Ei.
  - eapply self_state; [exact S|done|done|by rewrite Ei].
Qed.

Lemma on_with r0 n k id c i z l w r m y :
  on r0 n id c i z l w r -> talks c = true -> says C k (focus c (sv r)) m y -> Z.of_nat (n + k) <= LIST_LIMIT ->
  wp (with_client id m) (fun _ r' => exists c', on r0 (n + k) id c' i (z ++ y) l w r' /\ same_client c c') r.
Proof.
  intros [F L S Hl Hd Hw] Ht Hm Hk. eapply wp_mono; [by eapply with_client_self|]. cbn beta. intros [] r' (F' & L' & E & c' & S' & Hs).
  destruct (only_clients_parts _ _ E) as (_ & P2 & _ & _ & P5 & P6). exists c'. split; [|done].
  constructor; [by eapply only_for_trans|done|done|congruence|congruence|by rewrite P6].
Qed.

Lemma on_get r0 n id c i z l w r (Q : client -> repl -> Prop) : on r0 n id c i z l w r -> Q c r -> wp (get_client id) Q r.
Proof. intros [_ _ (Hc & _) _ _ _] HQ. by eapply get_client_wp. Qed.

(** What is written to the socket of the client. *)
Lemma on_write r0 n id c i z l w r fd x (Q : Z -> repl -> Prop) :
  on r0 n id c i z l w r -> (forall v r', on r0 n id c i z l (w ++ [(fd, x)]) r' -> Q v r') -> wp (write_to R fd x) Q r.
Proof.
  intros [F L S Hl Hd Hw] HQ. unfold write_to. wp_step. wp_step. wp_step. apply HQ.
  change (MkRepl _ _ _ _ _ _ _ _ _ _ _) with (add_written fd x r). constructor; try done.
  - eapply only_for_trans; [exact F|]. apply state_only; try done; [cbn; set_solver|by left].
  - by eapply linked_same.
  - intros e [He|He]%elem_of_app; apply elem_of_app; [left; by apply Hw|by right].
Qed.

(** A client that is closed as soon as possible. *)
Lemma closed_flag id r c (Q : unit -> repl -> Prop) : clients r !! id = Some c -> has (flags c) CLIENT_LUA = false ->
  wp (with_client id (freeClientAsync (P := P))) Q r ->
  wp (with_client id (freeClientAsync (P := P))) (fun v r' => Q v r' /\ exists c', clients r' !! id = Some c' /\ has (flags c') CLIENT_CLOSE_ASAP = true) r.
Proof.
  intros Hc Hl HQ. apply wp_and; [exact HQ|]. unfold with_client, wp. rewrite Hc. unfold freeClientAsync, gets, mbind, M_bind, get, mret, M_ret.
  cbn [cl focus State.set_cl]. rewrite Hl, orb_false_r. destruct (has (flags c) CLIENT_CLOSE_ASAP) eqn:E.
  - eexists _, tt. split; [done|]. exists c. split; [apply lookup_insert_eq|done].
  - eexists _, tt. split; [reflexivity|]. eexists. split; [apply lookup_insert_eq|]. cbn. unfold has. rewrite Z.land_lor_distr_l.
    apply negb_true_iff, Z.eqb_neq. intros [_ H]%Z.lor_eq_0_iff. discriminate H.
Qed.

(** ** Counting *)

Definition known r : Prop := forall j, j ∈ slaves r -> is_Some (clients r !! j) /\ is_Some (infos r !! j).

Lemma count_slaves_wp r ids f : (forall j, j ∈ ids -> is_Some (clients r !! j) /\ is_Some (infos r !! j)) ->
  wp (count_slaves ids f) (fun _ r' => r' = r) r.
Proof.
  intros H. unfold count_slaves. wp_step.
  assert (exists k, foldr (fun id acc => k ← acc; c ← clients r !! id; i ← infos r !! id; Some (if (f c i : bool) then k + 1 else k)) (Some 0) ids = Some k) as [k Hk].
  { induction ids as [|j ids IH]; [by exists 0|]. destruct IH as [k Hk]; [intros e He; apply H; by right|]. cbn [foldr]. rewrite Hk.
    destruct (H j) as [[c Hc] [i Hi]]; [by left|]. cbn [mbind option_bind]. rewrite Hc. cbn [mbind option_bind]. rewrite Hi. by eexists. }
  by eapply wp_lift.
Qed.

Lemma refresh_wp r0 n id c i z l w r (Q : unit -> repl -> Prop) :
  on r0 n id c i z l w r -> known r -> (forall r', on r0 n id c i z l w r' -> Q tt r') -> wp (refreshGoodSlavesCount C R) Q r.
Proof.
  intros H Hk HQ. unfold refreshGoodSlavesCount. destruct (_ || _); [apply wp_skip; by apply HQ|]. wp_step.
  wp_use (count_slaves_wp r (slaves r)); [exact Hk|]. intros g r' ->. apply wp_modify. apply HQ.
  eapply (on_state _ _ _ _ _ _ _ _ r); [exact H|try done..]. by destruct H.
Qed.

(** ** A partial resynchronization *)

Lemma talks_lor b c : b = CLIENT_SLAVE \/ b = CLIENT_PRE_PSYNC -> talks (set_flags (fun f => Z.lor f b) c) = talks c.
Proof. intros [->| ->]; unfold talks, prepares; cbn [flags fd set_flags]; by rewrite !has_lor by done. Qed.

Lemma arg_wp id j r c a (Q : addr -> repl -> Prop) : clients r !! id = Some c -> argv (cin c) !! j = Some a -> Q a r -> wp (arg id j) Q r.
Proof. intros Hc Ha HQ. unfold arg. apply wp_bind. eapply get_client_wp; [exact Hc|]. by eapply wp_lift. Qed.

Lemma sync_arg_wp id j r c a y (Q : bytes -> repl -> Prop) : clients r !! id = Some c -> argv (cin c) !! j = Some a -> has_raw r a y ->
  (forall tl, Q (y ++ 0 :: tl) r) -> wp (argv_chars id j) Q r.
Proof.
  intros Hc Ha (ob & Ho & Hs & He & _) HQ. unfold argv_chars. apply wp_bind. eapply arg_wp; [done..|].
  destruct (encoded_string ob y Hs He) as (sd & Hp & Hr). unfold object. apply wp_bind. wp_step. eapply wp_lift; [exact Ho|].
  apply wp_bind. eapply wp_lift; [by rewrite Hp|]. apply wp_ret. destruct Hr as (_ & tl & -> & _). apply HQ.
Qed.

(** *** An answer that the static buffer takes *)

Definition keeps_list k (m : Monad.M (state P) unit) : Prop := forall s : state P,
  replies s = [] -> Z.of_nat (length (cbuf (cout (cl s)))) + k <= PROTO_REPLY_CHUNK_BYTES ->
  wp m (fun _ s' => replies s' = [] /\ Z.of_nat (length (cbuf (cout (cl s')))) <= Z.of_nat (length (cbuf (cout (cl s)))) + k) s.

Lemma string_keeps_list x : keeps_list (Z.of_nat (length x)) (addReplyString C x).
Proof.
  intros s Hr Hb. unfold addReplyString. apply wp_bind.
  apply (wp_mono _ (fun _ s' => cout (cl s') = cout (cl s))).
  { unfold prepareClientToWrite. wp_step. destruct (has _ CLIENT_LUA); [by apply wp_ret|].
    destruct (has _ (Z.lor _ _)); [by apply wp_ret|]. destruct (has _ CLIENT_MASTER && _); [by apply wp_ret|]. destruct (_ <=? 0); [by apply wp_ret|].
    apply wp_bind. destruct (_ && _); [|apply wp_skip; by apply wp_ret]. unfold add_flag. wp_step. wp_step. by apply wp_ret. }
  intros ok s1 E1. destruct (negb ok); [apply wp_skip; unfold replies in *; rewrite E1; split; [done|lia]|].
  unfold _addReplyToBuffer. apply wp_bind. wp_step. destruct (has _ CLIENT_CLOSE_AFTER_REPLY); [apply wp_ret, wp_skip; unfold replies in *; rewrite E1; split; [done|lia]|].
  unfold replies in *. rewrite E1, Hr. cbn [length Z.of_nat Z.eqb negb]. rewrite Z.gtb_ltb, (proj2 (Z.ltb_ge _ _)) by lia.
  unfold set_cbuf, set_out. wp_step. apply wp_ret, wp_skip. cbn. rewrite E1, length_app. split; [done|lia].
Qed.

Lemma keeps_list_bind k1 k2 m1 m2 : 0 <= k2 -> keeps_list k1 m1 -> keeps_list k2 m2 -> keeps_list (k1 + k2) (_ ← m1; m2).
Proof.
  intros Hk H1 H2 s Hr Hb. apply wp_bind. eapply wp_mono; [apply H1; [done|lia]|]. intros [] s1 [Hr1 Hb1]. eapply wp_mono; [apply H2; [done|lia]|].
  intros [] s2 [Hr2 Hb2]. split; [done|lia].
Qed.

Lemma error_keeps_list x : keeps_list (5 + (Z.of_nat (length x) + 2)) (addReplyError C x).
Proof. apply keeps_list_bind; [lia|apply (string_keeps_list (str "-ERR "))|]. apply keeps_list_bind; [lia|apply string_keeps_list|apply (string_keeps_list CRLF)]. Qed.

Lemma with_keeps_list id r c k m : clients r !! id = Some c -> cre c = [] -> cbuf (cout c) = [] -> keeps_list k m -> k <= PROTO_REPLY_CHUNK_BYTES ->
  wp (with_client id m) (fun _ r' => exists c', clients r' !! id = Some c' /\ cre c' = []) r.
Proof.
  intros Hc Hr Hb Hm Hk. destruct (Hm (focus c (sv r))) as (s' & [] & E & Hr' & _); [exact Hr|cbn; rewrite Hb; cbn; lia|].
  unfold with_client, wp. rewrite Hc. change (State.set_cl _ _) with (focus c (sv r)). rewrite E. eexists _, tt. split; [reflexivity|].
  exists (cl s'). split; [apply lookup_insert_eq|exact Hr'].
Qed.

(** A request that is answered with a full resynchronization instead. *)
Definition declined (n : nat) r id c i r' : Prop := exists c' pre,
  on r n id c' i pre (slaves r) [] r' /\ same_client c c' /\ warned bad pre /\ cre c' = [].

Lemma on_declined n n' r id c i pre : on r n id c i pre (slaves r) [] r -> warned bad pre -> cre c = [] -> (n <= n')%nat -> Z.of_nat n' <= LIST_LIMIT ->
  declined n' r id c i r.
Proof.
  intros [F L S Hl Hd Hw] Hp Hr Hle Hn. exists c, pre. split_and!; [|apply same_client_refl|done|done]. constructor; try done.
  eapply linked_const; [exact L|intros j; cbn beta; lia|done].
Qed.

Lemma offset_wp n r id c i a y : linked C (fun _ => n) r -> self C r id c i [] -> talks c = true -> cre c = [] -> cbuf (cout c) = [] ->
  has_raw r a y -> is_Some (string2ll y) \/ bad -> Z.of_nat (n + 3) <= LIST_LIMIT ->
  wp (offset_or_reply C id a) (fun v r' => match v with Some v => r' = r /\ is_llong v /\ y = decimal v | None => declined (n + 3) r id c i r' end) r.
Proof.
  intros L S Ht Hr Hb (ob & Ho & Hs & _) Hy Hn. unfold offset_or_reply, getLongLongFromObjectOrReply. wp_step. apply wp_bind.
  destruct (getLongLongFromObject_spec (objects (sv r)) a y) as (w & Hw & Hiff); [by exists ob|]. eapply wp_lift; [by rewrite Hw|].
  destruct w as [v|]; cbn beta iota; [destruct (proj1 (Hiff v) eq_refl); by apply wp_ret|].
  assert (bad) as Hbad by (destruct Hy as [[v Hv]|]; [apply string2ll_spec, Hiff in Hv; discriminate Hv|done]).
  set (m := str "value is not an integer or out of range"). apply wp_bind.
  eapply wp_mono; [apply wp_and; [eapply (on_with r n 3 id c i [] (slaves r) [] r (addReplyError C m) (error_line m)); [by apply on_start|done|by apply addReplyError_says|done]
    |eapply with_keeps_list; [apply S|done|done|apply error_keeps_list|done]]|].
  cbn beta. intros [] r' [(c' & H & Hsame) (c2 & Hc2 & Hr2)]. apply wp_ret. assert (c2 = c') as -> by (destruct H as [_ _ (E & _) _ _ _]; congruence).
  exists c', (error_line m). split_and!; [exact H|done|by right|done].
Qed.

(** The follower that a partial resynchronization makes. *)
Lemma online_follows K r0 n id c i z l w r ys v o x :
  on r0 n id c i z l w r -> has (flags c) CLIENT_SLAVE = true -> talks c = true -> replstate c = SLAVE_STATE_ONLINE ->
  Forall2 (has_raw r0) (argv (cin c)) ys -> ys !! 2%nat = Some (decimal v) -> o <= v - 1 <= o + Z.of_nat (length x) ->
  (has (flags c) CLIENT_CLOSE_ASAP = false -> z = since o x (v - 1)) -> (fd c, continue_text) ∈ w -> follows C R bad K o x r id.
Proof.
  intros [F L (Hc & Hi & Ho) Hl Hd Hw] Hs Ht Hst Ha Hy Hr Hz Hwr. exists c, i. split_and!; [done..|].
  apply (follows_online _ _ _ _ _ _ _ _ _ _ ys (v - 1)); [done| |by rewrite Z.sub_add|done| |by apply Hw].
  - exists c. split; [done|]. eapply Forall2_impl; [exact Ha|]. intros a y. by eapply only_raw.
  - intros Hcl. by rewrite <- Hz.
Qed.

(** What a partial resynchronization does. *)
Record resumed K (n : nat) r id o x r' : Prop := Resumed {
  rs_only : only_for C id r r';
  rs_linked : linked C (fun _ => (n + 2)%nat) r';
  rs_follows : follows C R bad K o x r' id;
  rs_slaves : slaves r' = slaves r ++ [id];
  rs_child : rdb_child r' = rdb_child r
}.

(** The client as it is after the answer was written. *)
Record online c : Prop := Online {
  ol_slave : has (flags c) CLIENT_SLAVE = true;
  ol_lua : has (flags c) CLIENT_LUA = false;
  ol_talks : talks c = true;
  ol_state : replstate c = SLAVE_STATE_ONLINE
}.

Section Answered.
Context (K : Z -> Z -> Prop) (r0 : repl) (n : nat) (id : Z) (c : client) (i : slave_info) (ys : list bytes) (v o : Z) (x : bytes) (r : repl).
Context (H : on r0 n id c i [] (slaves r0 ++ [id]) [(fd c, continue_text)] r) (HO : online c).
Context (Ha : Forall2 (has_raw r0) (argv (cin c)) ys) (Hy : ys !! 2%nat = Some (decimal v)).
Context (Hv : o <= v - 1 <= o + Z.of_nat (length x)) (Hn : Z.of_nat (n + 2) <= LIST_LIMIT).

Lemma answered_resumed n' c' z r' : (n' <= n + 2)%nat -> on r0 n' id c' i z (slaves r0 ++ [id]) [(fd c, continue_text)] r' -> same_client c c' ->
  (has (flags c') CLIENT_CLOSE_ASAP = false -> z = since o x (v - 1)) -> resumed K n r0 id o x r'.
Proof.
  intros Hle H' Hs Hz. pose proof H' as [F' L' _ Hl' Hd' _]. constructor; [done| | |done|done].
  - eapply linked_const; [exact L'|intros j; cbn beta; lia|lia].
  - destruct HO as [O1 O2 O3 O4]. eapply (online_follows _ _ _ _ _ _ _ _ _ _ ys v); [exact H'|by rewrite (more_has (flags c)) by (apply Hs || done)|by rewrite (same_talks _ _ Hs)
      |by rewrite (sc_replstate _ _ Hs)|by rewrite (sc_cin _ _ Hs)|done|done|done|rewrite (sc_fd _ _ Hs); by left].
Qed.

Lemma unanswered_wp : wp (_ ← with_client id (freeClientAsync (P := P)); mret true) (fun ok r' => ok = true /\ resumed K n r0 id o x r') r.
Proof.
  apply wp_bind. pose proof H as [_ _ (Hc & _) _ _ _]. destruct HO as [O1 O2 O3 O4].
  eapply wp_mono; [eapply (closed_flag id r c _ Hc O2), (on_with _ _ 0); [exact H|done|apply freeClientAsync_says|lia]|].
  cbn beta. intros [] r' ((c' & H' & Hs') & c1 & Hc1 & Hcl). apply wp_ret. split; [done|].
  assert (c1 = c') as -> by (destruct H' as [_ _ (E & _) _ _ _]; congruence).
  eapply (answered_resumed (n + 0)); [lia|exact H'|exact Hs'|by rewrite Hcl].
Qed.

Lemma known_on n' c' z r' : known r0 -> on r0 n' id c' i z (slaves r0 ++ [id]) [(fd c, continue_text)] r' -> known r'.
Proof.
  intros Hk [F L (Hc & Hi & _) Hl _ _] j. rewrite Hl. destruct (decide (j = id)) as [->|Hne]; [by intros _; split; eexists|].
  rewrite elem_of_app, list_elem_of_singleton. intros [Hj|]; [|done]. destruct (Hk j Hj) as [[d Hd] Hij].
  destruct (only_client C id r0 r' j d F Hne Hd) as (d' & Hd' & _). split; [by exists d'|by rewrite (of_infos _ _ _ _ F)].
Qed.

Lemma answered_wp : known r0 -> feeding (bl r) o x -> repl_backlog_off (bl r) <= v <= master_repl_offset (bl r) + 1 ->
  wp (_ ← addReplyReplicationBacklog C id v; _ ← refreshGoodSlavesCount C R; mret true) (fun ok r' => ok = true /\ resumed K n r0 id o x r') r.
Proof.
  intros Hk F Hr. pose proof H as [F0 L0 S0 Hl0 Hd0 Hw0]. wp_use (addReplyReplicationBacklog_wp C n r id c i [] o x v L0 S0 (ol_talks _ HO) F Hn Hr).
  intros k r1 (F1 & L1 & E1 & c1 & S1 & Hs1). destruct (only_clients_parts _ _ E1) as (_ & P2 & _ & _ & P5 & P6).
  assert (on r0 (n + 2) id c1 i (since o x (v - 1)) (slaves r0 ++ [id]) [(fd c, continue_text)] r1) as H1.
  { constructor; [by eapply only_for_trans|done|done|congruence|congruence|by rewrite P6]. }
  apply wp_bind. eapply refresh_wp; [exact H1|by eapply known_on|]. intros r2 H2. apply wp_ret. split; [done|].
  by eapply (answered_resumed (n + 2)).
Qed.

End Answered.

Lemma resume_wp K n r id c i ys y0 y1 v o x :
  linked C (fun _ => n) r -> self C r id c i [] -> talks c = true -> has (flags c) CLIENT_LUA = false -> known r ->
  ys = [y0; y1; decimal v] -> Forall2 (has_raw r) (argv (cin c)) ys -> feeding (bl r) o x -> Z.of_nat (n + 2) <= LIST_LIMIT ->
  repl_backlog_off (bl r) <= v <= master_repl_offset (bl r) + 1 ->
  wp (_ ← upd_client id (set_flags (fun f => Z.lor f CLIENT_SLAVE));
      _ ← upd_client id (set_replstate SLAVE_STATE_ONLINE);
      _ ← upd_client id (set_repl_ack_time (unixtime C));
      _ ← upd_client id (set_put_online false);
      _ ← modify (set_slaves (fun l => l ++ [id]));
      c ← get_client id;
      n ← write_to R (fd c) continue_text;
      if negb (n =? Z.of_nat (length continue_text)) then _ ← with_client id (freeClientAsync (P := P)); mret true
      else
        _ ← addReplyReplicationBacklog C id v;
        _ ← refreshGoodSlavesCount C R;
        mret true)
    (fun ok r' => ok = true /\ resumed K n r id o x r') r.
Proof.
  intros L S Ht Hlua Hk Eys Ha F Hn Hv. pose proof (on_start n r id c i [] L S) as H.
  apply wp_bind. eapply on_upd; [exact H|done|]. intros r1 H1. apply wp_bind. eapply on_upd; [exact H1|done|]. intros r2 H2.
  apply wp_bind. eapply on_upd; [exact H2|done|]. intros r3 H3. apply wp_bind. eapply on_upd; [exact H3|done|]. intros r4 H4.
  set (c4 := set_put_online false _) in H4. wp_step.
  assert (online c4) as HO.
  { constructor; [|cbn; by rewrite has_lor by done| |done].
    - cbn. unfold has. rewrite Z.land_lor_distr_l. apply negb_true_iff, Z.eqb_neq. intros [_ E]%Z.lor_eq_0_iff. discriminate E.
    - change (talks c4) with (talks (set_flags (fun f => Z.lor f CLIENT_SLAVE) c)). rewrite talks_lor by (by left). done. }
  assert (on r n id c4 i [] (slaves r ++ [id]) [] (set_slaves (fun l => l ++ [id]) r4)) as H5.
  { eapply (on_state _ _ _ _ _ _ _ _ r4); [exact H4|try done..]. cbn. by rewrite (on_slaves _ _ _ _ _ _ _ _ _ H4). }
  apply wp_bind. eapply on_get; [exact H5|]. apply wp_bind. eapply on_write; [exact H5|]. intros k r6 H6. cbn [app] in H6.
  assert (o <= v - 1 <= o + Z.of_nat (length x)) as Hr by (destruct F as [Q1 Q2 Q3 Q4 Q5 _ _]; lia).
  assert (bl r6 = bl r) as E6 by apply H6. assert (ys !! 2%nat = Some (decimal v)) as Hy by (by rewrite Eys).
  destruct (negb _); [by eapply unanswered_wp|]. eapply answered_wp; by rewrite ?E6.
Qed.

(** The arguments of a PSYNC. *)
Lemma master_wp K n r id c i y0 y1 y2 o x :
  linked C (fun _ => n) r -> self C r id c i [] -> talks c = true -> has (flags c) CLIENT_LUA = false -> known r -> cre c = [] -> cbuf (cout c) = [] ->
  Forall2 (has_raw r) (argv (cin c)) [y0; y1; y2] -> is_Some (string2ll y2) \/ bad -> offered (bl r) o x -> Z.of_nat (n + 3) <= LIST_LIMIT ->
  wp (masterTryPartialResynchronization C R id) (fun ok r' => if ok then resumed K n r id o x r' /\ feeding (bl r) o x else declined (n + 3) r id c i r') r.
Proof.
  intros L S Ht Hlua Hk Hr Hb Ha Hy HO Hn. pose proof S as (Hc & _). pose proof Ha as Ha'.
  assert (declined (n + 3) r id c i r) as Hno by (eapply (on_declined n); [by apply on_start|by left|done|lia|done]).
  inversion Ha as [|a0 ? l0 ? Ha0 Hl0 Eargs]; subst. inversion Hl0 as [|a1 ? l1 ? Ha1 Hl1]; subst. inversion Hl1 as [|a2 ? l2 ? Ha2 Hl2]; subst. inversion Hl2; subst.
  unfold masterTryPartialResynchronization. apply wp_bind. eapply (sync_arg_wp id 1 r c a1 y1); [done|by rewrite <- Eargs|done|]. intros tl.
  destruct (negb (_ =? 0)); [by apply wp_ret|]. apply wp_bind. eapply (arg_wp id 2 r c a2); [done|by rewrite <- Eargs|].
  wp_use (offset_wp n r id c i a2 y2); [done..|]. cbn beta. intros [v|] r1 H1; [|by apply wp_ret]. destruct H1 as (-> & Hv & ->).
  wp_step. cbn zeta. destruct HO as [F|(Hbl & _)]; [|rewrite Hbl; by apply wp_ret].
  destruct (_ || _) eqn:E; [by apply wp_ret|]. apply orb_false_iff in E as [[_ E1]%orb_false_iff E2]. pose proof F as [Q1 Q2 [Q3 Q3'] Q4 Q5 _ _].
  rewrite wraps_small in E2 by (unfold is_signed; lia).
  eapply wp_mono; [eapply (resume_wp K n r id c i [y0; y1; decimal v] y0 y1 v o x); try done; lia|]. by intros ok r' [-> Hr'].
Qed.

(** ** Sharing what another replica was given *)

Definition live_kept (h h' : gmap addr (robj P)) : Prop := forall a o, h !! a = Some o -> exists o', h' !! a = Some o' /\ same_value o o'.

Lemma incr_all_ok l : forall h : gmap addr (robj P), (forall a, a ∈ l -> 0 < count h a) -> (forall a, count h a + rocc a l < 2 ^ 31) ->
  exists h', incr_all l h = Some h' /\ live_kept h h' /\ forall a, count h' a = count h a + rocc a l.
Proof.
  unfold incr_all. induction l as [|a l IH]; intros h Hl Hc; cbn [foldl].
  { exists h. split_and!; [done|intros e o Ho; by exists o|]. intros e. unfold rocc. cbn. lia. }
  cbn [mbind option_bind]. pose proof (Hl a ltac:(by left)) as Ha. destruct (count_live _ _ Ha) as [o Ho].
  pose proof (Hc a) as Hca. rewrite rocc_cons, decide_True in Hca by done. rewrite (count_Some _ _ _ Ho) in Ha, Hca.
  pose proof (rocc_nonneg a l). destruct (incr_ok h a o Ho) as (h1 & E1 & _ & C1); [lia|]. rewrite E1.
  destruct (IH h1) as (h' & E' & K' & C').
  - intros e He. rewrite C1. pose proof (Hl e ltac:(by right)). destruct (decide (e = a)); lia.
  - intros e. rewrite C1. specialize (Hc e). rewrite rocc_cons in Hc. lia.
  - exists h'. split_and!; [exact E'| |].
    + intros e oe He. destruct (incr_others _ _ _ _ _ E1 He) as (o1 & Ho1 & Hv1). destruct (K' e o1 Ho1) as (o2 & Ho2 & Hv2).
      exists o2. split; [done|by eapply same_value_trans].
    + intros e. rewrite C', C1, rocc_cons. lia.
Qed.

Lemma pending_more (s s' : state P) c z : pending C (focus c s) z -> live_kept (objects s) (objects s') ->
  (forall a, count (objects s) a <= count (objects s') a) -> pending C (focus c s') z.
Proof.
  intros Hz Hk Hc. apply (pending_focus C (State.set_objects (fun _ => objects s') (focus c s)) s' c c); [|done|done].
  apply (pending_heap C (focus c s) z (objects s') Hz).
  - intros a o _. apply Hk.
  - intros a. destruct Hz as (ys & [_ Hr _] & _). specialize (Hr a). unfold rspare in Hr. specialize (Hc a).
    change (objects (focus c s)) with (objects s) in Hr. lia.
Qed.

Lemma total_count u r a : linked C u r -> count (objects (sv r)) a < 2 ^ 30.
Proof.
  intros L. pose proof (lk_base _ _ _ L a) as Hb. unfold base, held in Hb.
  destruct (zsum_bound (fun c => rocc a (cre c)) (clients r) LIST_LIMIT) as [_ Hs].
  { intros j d Hd. pose proof (rocc_nonneg a (cre d)). pose proof (rocc_le a (cre d)). pose proof (lk_len _ _ _ L j d Hd). pose proof (lk_limit _ _ _ L j). lia. }
  pose proof (lk_size _ _ _ L). assert (Z.of_nat (size (clients r)) * LIST_LIMIT <= 511 * LIST_LIMIT) by (apply Z.mul_le_mono_nonneg_r; unfold LIST_LIMIT; lia).
  unfold LIST_LIMIT in *. lia.
Qed.

Section Copy.
Context (n : nat) (r : repl) (id src : Z) (d c : client) (i : slave_info) (z : bytes) (h : gmap addr (robj P)).
Context (L : linked C (fun _ => n) r) (Hd : clients r !! id = Some d) (Hi : infos r !! id = Some i) (Hr : cre d = []) (Hc : clients r !! src = Some c).
Context (Hz : pending C (focus c (sv r)) z) (Hk : live_kept (objects (sv r)) h) (Hn : forall a, count h a = count (objects (sv r)) a + rocc a (cre c)).

Definition copied : client := set_cout (fun o => COutput (cbuf (cout c)) (reply (cout c)) (reply_bytes (cout c)) (sentlen o) (obuf_soft_limit_reached_time o)) d.

Let r' : repl := set_clients (fun m => <[id := copied]> m) (set_sv (State.set_objects (fun _ => h) (sv r)) r).

Lemma copy_base a : base r' a = base r a.
Proof.
  unfold base, held. cbn [clients r' set_clients set_sv sv]. rewrite (zsum_update _ _ id d) by done. rewrite Hr.
  change (cre copied) with (cre c). change (objects (State.set_objects (fun _ => h) (sv r))) with h. rewrite Hn. unfold rocc at 3. cbn. lia.
Qed.

Lemma copy_pending e y : pending C (focus e (sv r)) y -> pending C (focus e (sv r')) y.
Proof. intros Hy. eapply pending_more; [exact Hy|exact Hk|]. intros a. change (objects (sv r')) with h. rewrite Hn. pose proof (rocc_nonneg a (cre c)). lia. Qed.

Lemma copy_self : outstanding C r' id z.
Proof. exists copied. split; [apply lookup_insert_eq|]. destruct (copy_pending c z Hz) as (ys & [O1 O2 O3] & Hs). by exists ys. Qed.

Lemma copy_linked : linked C (fun _ => n) r'.
Proof.
  destruct L as [L1 L2 L3 L4 L5]. constructor; [| | |done|].
  - intros j e Hj. cbn in Hj. destruct (decide (j = id)) as [->|Hne].
    + destruct copy_self as (e' & He' & Hp). cbn in He'. rewrite Hj in He'. injection He' as <-. by exists z.
    + rewrite lookup_insert_ne in Hj by done. destruct (L1 j e Hj) as [y Hy]. exists y. by apply copy_pending.
  - intros a. rewrite copy_base. apply L2.
  - intros j e Hj. cbn in Hj. destruct (decide (j = id)) as [->|Hne].
    + rewrite lookup_insert_eq in Hj. injection Hj as <-. apply (L3 src c Hc).
    + rewrite lookup_insert_ne in Hj by done. by apply (L3 j).
  - cbn. rewrite map_size_insert_Some by (by eexists). done.
Qed.

Lemma copy_only : only_for C id r r'.
Proof.
  constructor; try done; [| |exact copy_base| |by left].
  - intros j Hj. cbn. rewrite lookup_insert_ne by done. destruct (clients r !! j); [apply same_client_refl|done].
  - intros j y Hj (e & He & Hy). exists e. cbn. split; [by rewrite lookup_insert_ne|by apply copy_pending].
  - intros a o _ Ho. by apply Hk.
Qed.

Lemma copy_on : on r n id copied i z (slaves r) [] r'.
Proof. constructor; try done; [exact copy_only|exact copy_linked| |apply list_subseteq_nil]. split_and!; [apply lookup_insert_eq|done|exact copy_self]. Qed.

End Copy.

Lemma copy_wp n r id src d c i z z0 :
  linked C (fun _ => n) r -> self C r id d i z0 -> cre d = [] -> clients r !! src = Some c -> pending C (focus c (sv r)) z -> Z.of_nat n <= LIST_LIMIT ->
  wp (copyClientOutputBuffer id src) (fun _ r' => on r n id (copied d c) i z (slaves r) [] r') r.
Proof.
  intros L (Hd & Hi & _) Hr Hc Hz Hn. destruct (incr_all_ok (cre c) (objects (sv r))) as (h & Eh & Hk & Hcnt).
  - intros a Ha. pose proof (rocc_pos a _ Ha). destruct Hz as (ys & [_ Hs _] & _). specialize (Hs a). unfold rspare in Hs.
    change (rocc a (replies (focus c (sv r)))) with (rocc a (cre c)) in Hs. change (objects (focus c (sv r))) with (objects (sv r)) in Hs. lia.
  - intros a. pose proof (total_count _ r a L). pose proof (rocc_le a (cre c)). pose proof (lk_len _ _ _ L src c Hc). unfold LIST_LIMIT in *. lia.
  - unfold copyClientOutputBuffer, on_objects. apply wp_bind. eapply get_client_wp; [exact Hd|]. unfold cre in Hr. rewrite Hr.
    apply wp_bind. wp_step. apply wp_bind. eapply wp_lift; [reflexivity|]. cbn beta iota. wp_step. apply wp_ret.
    set (r1 := set_sv _ r). assert (r1 = r) as -> by (unfold r1; destruct r as [? [] ? ? ? ? ? ? ? ? ?]; reflexivity).
    apply wp_bind. eapply get_client_wp; [exact Hc|]. apply wp_bind. wp_step. unfold cre in Eh. apply wp_bind. eapply wp_lift; [by rewrite Eh|].
    cbn beta iota. wp_step. apply wp_ret. eapply upd_client_wp; [exact Hd|]. eapply (copy_on n r id src d c i z h); try done.
Qed.

End Spec.
End ReplFull.
