(* ===== verification/ReplStart.v ===== *)
(** * The full resynchronization: the specification (src/replication.c)

    A new replica waits for a save, is attached to one that runs for another
    replica, or starts one; when a save cannot start the replicas that wait
    for it are let go.  Whatever happens every replica that is left follows
    the stream. *)

From S2P Require Import Prelude Monad Util Sds DictTypes Object ObjectSpec State HeapSpec Reply ReplySpec Backlog ScriptCache Repl ReplSpec ReplFeed ReplSync ReplFull.
Import Monad Util Sds DictTypes Object ObjectSpec State HeapSpec Reply ReplySpec Backlog ScriptCache Repl ReplSpec ReplFeed ReplSync ReplFull.

Module ReplStart.

Section Spec.
Context {P : Type} (C : config) (R : repl_config) (save : Monad.M (repl P) bool).
Context {HC : sound_config C}.
Context (bad : Prop).

Abbreviation repl := (repl P).
Implicit Types (r : repl) (a : addr) (c : client) (id : Z) (x y p : bytes) (K : Z -> Z -> Prop).

(** Everything that the replicas and the others are. *)
Record fine K (A : addr -> bytes -> Prop) (T : Z -> Prop) n o x r : Prop := Fine {
  fi_synced : synced C R bad K A (fun j => j ∈ slaves r) T n o x r;
  fi_nodup : NoDup (slaves r)
}.

Section Fixed.
Context (K : Z -> Z -> Prop) (A : addr -> bytes -> Prop) (T : Z -> Prop) (o : Z) (x : bytes).
Context (HK : resets K) (HE : K (o + Z.of_nat (length x)) (-1)).

Abbreviation fine := (fine K A T).

Lemma fine_known n r : fine n o x r -> known r.
Proof. intros [[_ _ F _ _] _] j Hj. destruct (F j Hj) as (c & i & Hc & Hi & _). by split; eexists. Qed.

Lemma ready_not_slave n r id : fine n o x r -> ready bad r id -> id ∉ slaves r.
Proof.
  intros [[_ _ F _ _] _] (c' & _ & _ & Hc' & _ & _ & _ & Hs' & _) Hid. destruct (F id Hid) as (c & i & Hc & _ & Hs & _).
  rewrite Hc in Hc'. injection Hc' as <-. congruence.
Qed.

(** A step for one client that is a replica then. *)
Lemma fine_step n n' r r' id l : fine n o x r -> only_for C id r r' -> linked C (fun _ => n') r' -> slaves r' = l ->
  (forall j, j ∈ l -> j <> id -> j ∈ slaves r) -> (id ∈ l -> follows C R bad K o x r' id) ->
  (T id -> id ∉ l -> candidate bad r' id) -> NoDup l -> fine n' o x r'.
Proof.
  intros [S N] F L Hl Hj Hf HT Hn. constructor; [|by rewrite Hl]. destruct S as [L0 O0 F0 Y0 Z0]. constructor; [done|by rewrite (of_bl _ _ _ _ F)|..].
  - intros j Hin. rewrite Hl in Hin. destruct (decide (j = id)) as [->|Hne]; [by apply Hf|]. by eapply follows_other; [exact HK|..|by apply F0, Hj].
  - intros j Hin. destruct (decide (j = id)) as [->|Hne]; [|by eapply candidate_other; [..|by apply Y0]].
    destruct (decide (id ∈ l)) as [Hin'|Hin']; [right; by eapply follows_settled, Hf|by apply HT].
  - intros a y Ha. by eapply only_string; [|apply Z0].
Qed.

(** Whether the saves that are tried do start. *)
Definition saves_start : Prop := forall k, rdbSaveBackground R k = true.

(** No backlog is made or replica added. *)
Definition stays r r' : Prop := bl r' = bl r /\ forall j, j ∈ slaves r' -> j ∈ slaves r.

Lemma stays_refl r : stays r r.
Proof. by split. Qed.

Lemma stays_trans r1 r2 r3 : stays r1 r2 -> stays r2 r3 -> stays r1 r3.
Proof. intros [A1 A2] [B1 B2]. split; [congruence|auto]. Qed.

(** And none is lost but when a save cannot start. *)
Definition stays_all r r' : Prop := stays r r' /\ (saves_start -> slaves r' = slaves r).

Lemma stays_slaves r r' : bl r' = bl r -> slaves r' = slaves r -> stays_all r r'.
Proof. intros Eb Es. split; [|done]. split; [done|]. by rewrite Es. Qed.

(** ** The replicas that are told the offset *)

Lemma setup_follows r r' id c offset pre : set_up C R r id c offset (pre ++ since o x offset) r' -> warned bad pre -> has (flags c) CLIENT_SLAVE = true -> talks c = true ->
  o <= offset <= o + Z.of_nat (length x) -> K offset (-1) -> follows C R bad K o x r' id.
Proof.
  intros (c' & i' & (Hc & Hi & Ho) & Hst & Hoff & Hf & Hfd & Hcin & Hsel & Hw) Hpr Hs Ht Hr Hk.
  assert (same_client c (set_replstate (replstate c) (Client (cid c) (fd c') (flags c') (cdb c') (replstate c') (repl_put_online_on_ack c') (repl_ack_time c') (cmd c') (cin c') (cout c') (csock c') (cext c')))) as Hsame by (by constructor).
  exists c', i'. split_and!; [done|done|by rewrite (more_has (flags c))|exact (eq_trans (same_talks _ _ Hsame) Ht)|].
  apply (follows_end _ _ _ _ _ _ _ _ _ _ pre); [done|done|by rewrite Hoff, Hsel|by rewrite Hoff|by rewrite Hoff|]. rewrite Hoff, Hfd, (more_has (flags c)) by done. exact Hw.
Qed.

Lemma setup_fine n r id c i offset pre : fine n o x r -> id ∈ slaves r -> self C r id c i (pre ++ since o x offset) -> warned bad pre -> has (flags c) CLIENT_SLAVE = true ->
  talks c = true -> o <= offset <= o + Z.of_nat (length x) -> K offset (-1) ->
  wp (replicationSetupSlaveForFullResync R id offset) (fun _ r' => fine n o x r' /\ bl r' = bl r /\ slaves r' = slaves r) r.
Proof.
  intros H Hid Hself Hpr Hs Ht Hr Hk. eapply wp_mono; [eapply (setup_wp C R n r id c i); [apply (fi_synced _ _ _ _ _ _ _ H)|done|done]|].
  cbn beta. intros ok r' (F & L & [K1 K2] & U). split_and!; [|apply F|done]. eapply (fine_step n n r r' id (slaves r)); try done.
  - intros _. by eapply setup_follows.
  - apply H.
Qed.

Lemma start_wp n r id : fine n o x r -> id ∈ slaves r ->
  wp (c ← get_client id;
      if replstate c =? SLAVE_STATE_WAIT_BGSAVE_START
      then r ← get; _ ← replicationSetupSlaveForFullResync R id (getPsyncInitialOffset (bl r)); skip
      else skip) (fun _ r' => fine n o x r' /\ bl r' = bl r /\ slaves r' = slaves r) r.
Proof.
  intros H Hid. destruct (sy_follows _ _ _ _ _ _ _ _ _ _ _ (fi_synced _ _ _ _ _ _ _ H) id Hid) as (c & i & Hc & Hi & Hs & Ht & Hf).
  apply wp_bind. eapply get_client_wp; [exact Hc|]. destruct (Z.eqb_spec (replstate c) SLAVE_STATE_WAIT_BGSAVE_START) as [E|E]; [|by apply wp_skip].
  wp_step. rewrite (initial_offset _ o x) by apply (fi_synced _ _ _ _ _ _ _ H). set (offset := o + Z.of_nat (length x)).
  assert (since o x offset = []) as Esince by (unfold since, offset; apply drop_ge; lia).
  destruct Hf as [pre _ Hpr Ho|pre Hst _ _ _ _ _|ys v Hst _ _ _ _ _]; [|by rewrite Hst in E..].
  wp_use (setup_fine n r id c i offset pre H Hid); try done; [|unfold offset; lia|].
  - split_and!; [done|done|]. by rewrite Esince, app_nil_r.
  - intros ok r' H'. by apply wp_skip.
Qed.

Lemma start_all_wp n ids : forall r, fine n o x r -> (forall id, id ∈ ids -> id ∈ slaves r) ->
  wp (for_each ids (fun id =>
        c ← get_client id;
        if replstate c =? SLAVE_STATE_WAIT_BGSAVE_START
        then r ← get; _ ← replicationSetupSlaveForFullResync R id (getPsyncInitialOffset (bl r)); skip
        else skip)) (fun _ r' => fine n o x r' /\ bl r' = bl r /\ slaves r' = slaves r) r.
Proof.
  induction ids as [|id ids IH]; intros r H Hin; cbn [for_each]; [by apply wp_skip|].
  wp_use (start_wp n r id H); [apply Hin; by left|]. intros [] r1 (H1 & E1 & K1). cbn beta.
  eapply wp_mono; [apply IH; [exact H1|]|].
  - intros j Hj. rewrite K1. apply Hin. by right.
  - intros [] r2 (H2 & E2 & K2). split_and!; congruence || done.
Qed.

(** ** The replicas that are let go *)

Lemma has_clear f b m : Z.land (Z.lnot b) m = m -> has (Z.land f (Z.lnot b)) m = has f m.
Proof. intros H. unfold has. by rewrite <- Z.land_assoc, H. Qed.

Lemma talks_clear c : talks (set_flags (fun f => Z.land f (Z.lnot CLIENT_SLAVE)) c) = talks c.
Proof. unfold talks, prepares. cbn [flags fd set_flags]. by rewrite !has_clear by done. Qed.

Lemma filter_drop id (l : list Z) j : j ∈ filter (fun k => k <> id) l <-> j ∈ l /\ j <> id.
Proof. rewrite list_elem_of_filter. tauto. Qed.

Definition drop_one id : Monad.M repl unit :=
  c ← get_client id;
  if replstate c =? SLAVE_STATE_WAIT_BGSAVE_START then
    _ ← upd_client id (set_flags (fun f => Z.land f (Z.lnot CLIENT_SLAVE)));
    _ ← modify (set_slaves (filter (fun k : Z => k <> id)));
    _ ← with_client id (addReplyError C (str "BGSAVE failed, replication can't continue"));
    upd_client id (set_flags (fun f => Z.lor f CLIENT_CLOSE_AFTER_REPLY))
  else skip.

(** Some replicas are left. *)
Definition fewer n r (ids : list Z) r' : Prop :=
  fine n o x r' /\ stays r r' /\ forall j, j ∈ slaves r -> j ∉ ids -> j ∈ slaves r'.

Lemma drop_one_wp n r id : fine n o x r -> id ∈ slaves r -> Z.of_nat (n + 3) <= LIST_LIMIT ->
  wp (drop_one id) (fun _ r' => fewer (n + 3) r [id] r') r.
Proof.
  intros H Hid Hn. destruct (sy_follows _ _ _ _ _ _ _ _ _ _ _ (fi_synced _ _ _ _ _ _ _ H) id Hid) as (c & i & Hc & Hi & Hs & Ht & Hf).
  unfold drop_one. apply wp_bind. eapply get_client_wp; [exact Hc|]. destruct (Z.eqb_spec (replstate c) SLAVE_STATE_WAIT_BGSAVE_START) as [E|E].
  2: { apply wp_skip. split_and!; [|apply stays_refl|done]. destruct H as [[L O F Y Z] N]. constructor; [|done]. constructor; try done.
       eapply linked_const; [exact L|intros j; cbn beta; lia|done]. }
  destruct Hf as [pre _ _ Ho|pre Hst _ _ _ _ _|ys v Hst _ _ _ _ _]; [|by rewrite Hst in E..].
  assert (linked C (fun _ => n) r) as L by apply (fi_synced _ _ _ _ _ _ _ H).
  pose proof (on_start C n r id c i pre L) as H0. apply wp_bind. eapply on_upd; [by apply H0|done|]. intros r1 H1. wp_step.
  set (c1 := set_flags (fun f => Z.land f (Z.lnot CLIENT_SLAVE)) c) in *. assert (talks c1 = true) as Ht1 by (unfold c1; by rewrite talks_clear).
  set (r2 := set_slaves _ r1). assert (on C r n id c1 i pre (filter (fun k => k <> id) (slaves r)) [] r2) as H2.
  { eapply (on_state C _ _ _ _ _ _ _ _ r1); [exact H1|try done..]. unfold r2. cbn. by rewrite (on_slaves _ _ _ _ _ _ _ _ _ _ H1). }
  wp_use (on_with C r n 3 id c1 i pre _ [] r2 _ _ H2 Ht1); [by apply addReplyError_says|done|].
  intros [] r3 (c3 & H3 & _). eapply on_upd; [exact H3|done|]. intros r4 [F4 L4 (Hc4 & _) Hl4 Hd4 _]. split_and!; [|split; [apply F4|]|].
  - eapply (fine_step n (n + 3) r r4 id); [exact H|done|done|exact Hl4|by intros j [Hj _]%filter_drop|by intros [_ ?]%filter_drop| |].
    + intros _ _. right. eexists. split; [exact Hc4|]. right. cbn. unfold has. rewrite Z.land_lor_distr_l. apply negb_true_iff, Z.eqb_neq.
      intros [_ E']%Z.lor_eq_0_iff. discriminate E'.
    + apply NoDup_filter, H.
  - rewrite Hl4. by intros j [Hj _]%filter_drop.
  - rewrite Hl4. intros j Hj Hne. apply filter_drop. split; [done|]. intros ->. apply Hne. by left.
Qed.

Lemma drop_all_wp ids : forall n r, fine n o x r -> NoDup ids -> (forall id, id ∈ ids -> id ∈ slaves r) -> Z.of_nat (n + 3 * length ids) <= LIST_LIMIT ->
  wp (for_each ids drop_one) (fun _ r' => fewer (n + 3 * length ids) r ids r') r.
Proof.
  induction ids as [|id ids IH]; intros n r H Hnd Hin Hn; cbn [for_each length] in *.
  { apply wp_skip. rewrite Nat.mul_0_r, Nat.add_0_r. split_and!; [done|apply stays_refl|done]. }
  apply NoDup_cons in Hnd as [Hni Hnd]. wp_use (drop_one_wp n r id H); [apply Hin; by left|lia|]. intros [] r1 (H1 & A1 & B1). cbn beta.
  eapply wp_mono; [apply (IH (n + 3)%nat r1 H1 Hnd); [|lia]|].
  - intros j Hj. apply B1; [apply Hin; by right|]. intros ->%list_elem_of_singleton. done.
  - intros [] r2 (H2 & A2 & B2). replace (n + 3 * Datatypes.S (length ids))%nat with (n + 3 + 3 * length ids)%nat by lia.
    split_and!; [done|by eapply stays_trans|]. intros j Hj Hne. apply B2; [apply B1; [done|]|]; intros Hj'; apply Hne; [apply list_elem_of_singleton in Hj' as ->; by left|by right].
Qed.

Lemma known_size (m : gmap Z client) (l : list Z) : NoDup l -> (forall j, j ∈ l -> is_Some (m !! j)) -> (length l <= size m)%nat.
Proof.
  intros Hn Hin. rewrite <- (size_dom m).
  rewrite <- (size_list_to_set (C := gset Z) l) by done. apply subseteq_size. intros j Hj. apply elem_of_list_to_set in Hj. by apply elem_of_dom, Hin.
Qed.

Lemma fine_size n r : fine n o x r -> (length (slaves r) < 512)%nat.
Proof.
  intros H. pose proof (lk_size _ _ _ (sy_linked _ _ _ _ _ _ _ _ _ _ _ (fi_synced _ _ _ _ _ _ _ H))) as Hs.
  pose proof (known_size (clients r) (slaves r) (fi_nodup _ _ _ _ _ _ _ H)) as Hl. assert (length (slaves r) <= size (clients r))%nat; [|lia].
  apply Hl. intros j Hj. by apply (fine_known n r H).
Qed.

Lemma fine_mono n n' r : fine n o x r -> (n <= n')%nat -> Z.of_nat n' <= LIST_LIMIT -> fine n' o x r.
Proof. intros [[L O F Y Z] N] Hn Hl. constructor; [|done]. constructor; try done. eapply linked_const; [exact L|intros j; cbn beta; lia|done]. Qed.

(** Room for the messages of a save that cannot start, and for those of a
    request. *)
Definition DROPS : nat := 1533.
Definition MESSAGES : nat := 3 + DROPS.

Lemma fine_same n r r' : fine n o x r -> clients r' = clients r -> objects (sv r') = objects (sv r) -> bl r' = bl r -> slaves r' = slaves r ->
  infos r' = infos r -> written r' = written r -> slaveseldb r' = slaveseldb r -> fine n o x r'.
Proof.
  intros [[L O F Y Z] N] Ec Eo Eb Es Ei Ew Esel. assert (forall id, only_for C id r r') as Hf.
  { intros id. apply state_only; try done; [intros j _; by rewrite Ei|by rewrite Ew|by left]. }
  constructor; [|by rewrite Es]. constructor; [by eapply linked_same|by rewrite Eb|..]; rewrite ?Es.
  - intros j Hj. eapply (follows_other C R bad K (j + 1)); [done|apply Hf|lia|by apply F].
  - intros j Hj. eapply (candidate_other C bad (j + 1)); [apply Hf|lia|by apply Y].
  - intros a y Ha. eapply (only_string C 0); [apply Hf|by apply Z].
Qed.

Lemma flush_scripts_wp r (Q : unit -> repl -> Prop) : (forall k, Q tt (set_scripts k r)) -> wp (on_scripts replicationScriptCacheFlush) Q r.
Proof. intros HQ. eexists _, tt. split; [reflexivity|apply HQ]. Qed.

Lemma startBgsave_wp n r mincapa : fine n o x r -> repl_diskless_sync R && has mincapa SLAVE_CAPA_EOF = false -> Z.of_nat (n + DROPS) <= LIST_LIMIT ->
  wp (startBgsaveForReplication C R save mincapa) (fun _ r' => fine (n + DROPS) o x r' /\ stays_all r r') r.
Proof.
  intros H Hcapa Hn. unfold startBgsaveForReplication. rewrite Hcapa. cbn zeta. wp_step. destruct (rdbSaveBackground R _) eqn:Esave.
  - wp_step. set (r1 := set_child _ r). assert (fine n o x r1) as H1 by (by eapply fine_same). wp_step. cbn [negb].
    wp_use (start_all_wp n (slaves r1) r1 H1); [done|]. intros [] r2 (H2 & E2 & K2). apply wp_bind. apply (flush_scripts_wp r2). intros k. apply wp_ret.
    split; [apply (fine_mono n); [by eapply fine_same|lia|done]|by apply stays_slaves].
  - wp_step. wp_step. cbn [negb]. pose proof (fine_size n r H) as Hsize.
    assert (Z.of_nat (n + 3 * length (slaves r)) <= LIST_LIMIT) as Hn' by (unfold DROPS in Hn; lia).
    wp_use (drop_all_wp (slaves r) n r H); [apply H|done|done|]. intros [] r1 (H1 & E1 & _). apply wp_ret. split; [|split; [done|intros Hs; by rewrite Hs in Esave]].
    eapply fine_mono; [exact H1|unfold DROPS; lia|done].
Qed.

(** ** A replica that waits already *)

Lemma find_waiting_wp r ids : (forall j, j ∈ ids -> is_Some (clients r !! j)) ->
  wp (find_waiting ids) (fun w r' => r' = r /\
    match w with
    | Some s => s ∈ ids /\ exists c, clients r !! s = Some c /\ replstate c = SLAVE_STATE_WAIT_BGSAVE_END
    | None => True
    end) r.
Proof.
  induction ids as [|id ids IH]; intros Hin; cbn [find_waiting]; [by apply wp_ret|]. destruct (Hin id) as [c Hc]; [by left|].
  apply wp_bind. eapply get_client_wp; [exact Hc|]. destruct (Z.eqb_spec (replstate c) SLAVE_STATE_WAIT_BGSAVE_END) as [E|E].
  - apply wp_ret. split_and!; [done|by left|by exists c].
  - eapply wp_mono; [apply IH; intros j Hj; apply Hin; by right|]. intros [s|] r' [-> H]; [|done]. destruct H as [H1 H2]. split_and!; [done|by right|done].
Qed.

(** A new replica is given what another one was. *)
Lemma attach_wp n r id src c i z : fine n o x r -> on C r n id c i z (slaves r) [] r -> id ∈ slaves r -> cre c = [] ->
  has (flags c) CLIENT_SLAVE = true -> talks c = true -> replstate c = SLAVE_STATE_WAIT_BGSAVE_START -> src ∈ slaves r ->
  (exists d, clients r !! src = Some d /\ replstate d = SLAVE_STATE_WAIT_BGSAVE_END) ->
  exists si, infos r !! src = Some si /\
  wp (_ ← copyClientOutputBuffer id src; _ ← replicationSetupSlaveForFullResync R id (psync_initial_offset si); skip) (fun _ r' => fine n o x r' /\ stays_all r r') r.
Proof.
  intros H [_ L S _ _ _] Hid Hcre Hs Ht Hst Hsrc (d & Hd & Hdst).
  destruct (sy_follows _ _ _ _ _ _ _ _ _ _ _ (fi_synced _ _ _ _ _ _ _ H) src Hsrc) as (d' & si & Hd' & Hsi & _ & _ & Hf).
  rewrite Hd in Hd'. injection Hd' as <-. exists si. split; [done|].
  destruct Hf as [pre E _ _|pre _ Hpr Hk Hr (d' & Hd' & Hz) _|ys v E _ _ _ _ _]; [by rewrite Hdst in E| |by rewrite Hdst in E].
  rewrite Hd in Hd'. injection Hd' as <-.
  wp_use (copy_wp C n r id src c d i _ _ L S Hcre Hd Hz); [by apply (lk_limit _ _ _ L id)|]. intros [] r1 H1. pose proof H1 as [F1 L1 S1 Hl1 Hd1 _].
  wp_use (setup_wp C R n r1 id _ i); [done|exact S1|done|]. intros ok r2 (F2 & L2 & [K1 K2] & U). apply wp_skip.
  assert (only_for C id r r2) as F by (by eapply only_for_trans). split; [|apply stays_slaves; [apply F|congruence]].
  eapply (fine_step n n r r2 id (slaves r)); try done; [congruence| |apply H]. intros _. eapply setup_follows; [exact U|done..|by eapply HK].
Qed.

(** ** The backlog is made with the first replica *)

Lemma fine_backlog n r b : fine n o x r -> offered b o x -> fine n o x (set_bl b r).
Proof.
  intros [[L O F Y Z] N] Hb. constructor; [|done]. constructor; [by eapply linked_same|done|..].
  - intros j Hj. eapply (follows_same C R bad K o x r); [by apply F|done..|intros ys Ha; exact Ha].
  - intros j Hj. exact (Y j Hj).
  - intros a y Ha. exact (Z a y Ha).
Qed.

Definition make_backlog : Monad.M repl unit :=
  r ← get;
  if (length (slaves r) =? 1)%nat && bool_decide (repl_backlog (bl r) = None)
  then on_backlog (createReplicationBacklog (junk (senv C))) else skip.

Lemma make_backlog_wp n r id : fine n o x r -> feeding (bl r) o x \/ (forall j, j ∈ slaves r -> j = id) ->
  wp make_backlog (fun _ r' => fine n o x r' /\ (slaves r' = [] \/ feeding (bl r') o x) /\ slaves r' = slaves r /\ (feeding (bl r) o x -> feeding (bl r') o x)) r.
Proof.
  intros H Hid. unfold make_backlog. wp_step. destruct (_ && _) eqn:E.
  - apply andb_true_iff in E as [_ Hb%bool_decide_eq_true]. destruct (sy_offered _ _ _ _ _ _ _ _ _ _ _ (fi_synced _ _ _ _ _ _ _ H)) as [F|(_ & Ex & Eo & Hs & Hm)].
    { destruct F as [_ _ _ _ _ _ (buf & Hb' & _)]. congruence. }
    eapply wp_mono; [apply on_backlog_wp; by apply create_feeding|]. intros [] r' (b & -> & F & _).
    rewrite <- Ex, <- Eo in F. split_and!; [apply fine_backlog; [done|by left]| |done|done]. right. exact F.
  - apply wp_skip. split_and!; [done| |done|done]. apply andb_false_iff in E as [E%Nat.eqb_neq|E%bool_decide_eq_false].
    + destruct Hid as [F|Hid]; [by right|]. left. destruct (slaves r) as [|j [|k l]] eqn:Es; [done|done|]. exfalso.
      pose proof (fi_nodup _ _ _ _ _ _ _ H) as Hn. rewrite Es in Hn. apply NoDup_cons in Hn as [Hn _].
      apply Hn. rewrite (Hid j), (Hid k) by (rewrite ?elem_of_cons; tauto). by left.
    + right. destruct (sy_offered _ _ _ _ _ _ _ _ _ _ _ (fi_synced _ _ _ _ _ _ _ H)) as [F|(Hb & _)]; [exact F|done].
Qed.

(** ** All of it *)

Definition no_save id : Monad.M repl unit :=
  ci ← get_info id;
  if repl_diskless_sync R && has (slave_capa ci) SLAVE_CAPA_EOF then skip
  else if aof_child_pid C =? -1 then _ ← startBgsaveForReplication C R save (slave_capa ci); skip
  else skip.

Definition find_save r id : Monad.M repl unit :=
  match rdb_child r with
  | Some t =>
    if t =? RDB_CHILD_TYPE_DISK then
      w ← find_waiting (slaves r);
      match w with
      | Some slave =>
        ci ← get_info id;
        si ← get_info slave;
        if Z.land (slave_capa ci) (slave_capa si) =? slave_capa si then
          _ ← copyClientOutputBuffer id slave;
          _ ← replicationSetupSlaveForFullResync R id (psync_initial_offset si);
          skip
        else skip
      | None => skip
      end
    else if t =? RDB_CHILD_TYPE_SOCKET then skip
    else no_save id
  | None => no_save id
  end.

Lemma find_save_wp n r id c i z : fine n o x r -> self C r id c i z -> id ∈ slaves r -> cre c = [] ->
  has (flags c) CLIENT_SLAVE = true -> talks c = true -> replstate c = SLAVE_STATE_WAIT_BGSAVE_START -> Z.of_nat (n + DROPS) <= LIST_LIMIT ->
  wp (find_save r id) (fun _ r' => fine (n + DROPS) o x r' /\ stays_all r r') r.
Proof.
  intros H S Hid Hcre Hs Ht Hst Hn. pose proof S as (_ & Hi & _).
  assert (fine (n + DROPS) o x r /\ stays_all r r) as Hdone by (split; [apply (fine_mono n); [done|lia|done]|by apply stays_slaves]).
  assert (wp (no_save id) (fun _ r' => fine (n + DROPS) o x r' /\ stays_all r r') r) as Hno.
  { unfold no_save. apply wp_bind. eapply get_info_wp; [exact Hi|]. destruct (_ && _) eqn:E; [by apply wp_skip|]. destruct (_ =? _); [|by apply wp_skip].
    wp_use (startBgsave_wp n r (slave_capa i) H E Hn). intros ok r' H'. by apply wp_skip. }
  unfold find_save. destruct (rdb_child r) as [t|]; [|exact Hno].
  - destruct (t =? RDB_CHILD_TYPE_DISK); [|destruct (t =? RDB_CHILD_TYPE_SOCKET); [by apply wp_skip|exact Hno]]. wp_use (find_waiting_wp r (slaves r)); [intros j Hj; by apply (fine_known n r H)|].
    intros [src|] r' [-> Hw]; cbn beta iota; [|by apply wp_skip]. destruct Hw as [Hsrc Hd].
    destruct (attach_wp n r id src c i z H) as (si & Hsi & Hwp); try done.
    { apply (on_start C); [apply (fi_synced _ _ _ _ _ _ _ H)|done]. }
    apply wp_bind. eapply get_info_wp; [exact Hi|]. apply wp_bind. eapply get_info_wp; [exact Hsi|].
    destruct (_ =? _); [|by apply wp_skip]. eapply wp_mono; [exact Hwp|]. intros [] r' [H' St]. split; [apply (fine_mono n); [done|lia|done]|done].
Qed.

Lemma full_resync_wp n r id c i pre : fine n o x r -> self C r id c i pre -> warned bad pre -> id ∉ slaves r -> cre c = [] -> talks c = true ->
  slaves r = [] \/ feeding (bl r) o x -> Z.of_nat (n + DROPS) <= LIST_LIMIT ->
  wp (full_resync C R save id) (fun _ r' => fine (n + DROPS) o x r' /\ (slaves r' = [] \/ feeding (bl r') o x) /\
    (saves_start -> slaves r' = slaves r ++ [id]) /\ (feeding (bl r) o x -> feeding (bl r') o x)) r.
Proof.
  intros H S Hpr Hid Hcre Ht Hbl Hn. unfold full_resync. wp_step. set (r1 := set_stat _ r).
  assert (linked C (fun _ => n) r) as L by apply (fi_synced _ _ _ _ _ _ _ H).
  assert (on C r n id c i pre (slaves r) [] r1) as H1 by (eapply (on_state C _ _ _ _ _ _ _ _ r); [by apply (on_start C)|done..]).
  apply wp_bind. eapply on_upd; [exact H1|done|]. intros r2 H2. apply wp_bind. eapply on_upd; [exact H2|done|]. intros r3 H3. wp_step.
  set (c3 := set_flags _ _) in *. set (r4 := set_slaves _ r3).
  assert (on C r n id c3 i pre (slaves r ++ [id]) [] r4) as H4.
  { eapply (on_state C _ _ _ _ _ _ _ _ r3); [exact H3|try done..]. unfold r4. cbn. by rewrite (on_slaves _ _ _ _ _ _ _ _ _ _ H3). }
  pose proof H4 as [F4 L4 S4 Hl4 Hd4 _].
  assert (has (flags c3) CLIENT_SLAVE = true) as Hs3.
  { unfold c3. cbn. unfold has. rewrite Z.land_lor_distr_l. apply negb_true_iff, Z.eqb_neq. intros [_ E]%Z.lor_eq_0_iff. discriminate E. }
  assert (talks c3 = true) as Ht3 by (unfold c3; rewrite talks_lor by (by left); done).
  assert (fine n o x r4) as Hf4.
  { eapply (fine_step n n r r4 id); [exact H|done|done|exact Hl4| | | |].
    - intros j [Hj| ->%list_elem_of_singleton]%elem_of_app Hne; [done|done].
    - intros _. destruct S4 as (Hc4 & Hi4 & Ho4). exists c3, i. split_and!; [done..|]. by eapply follows_start.
    - intros _ []. apply elem_of_app. right. by left.
    - apply NoDup_app. split_and!; [apply H| |apply NoDup_singleton]. intros j Hj ->%list_elem_of_singleton. done. }
  wp_step. cbn zeta. fold (no_save id). fold (find_save r4 id). fold make_backlog. apply wp_bind.
  eapply wp_mono; [eapply (find_save_wp n r4 id c3 i pre Hf4 S4); try done; rewrite Hl4; apply elem_of_app; right; by left|].
  cbn beta. intros [] r5 [H5 [[E5 St5] Sv5]]. eapply wp_mono; [eapply (make_backlog_wp _ r5 id H5)|].
  2: { cbn beta. intros [] r6 (H6 & B6 & S6 & K6). split_and!; [done|done| |].
       - intros Hsv. by rewrite S6, Sv5, Hl4.
       - intros Hb. apply K6. by rewrite E5, (of_bl _ _ _ _ F4). }
  rewrite E5, (of_bl _ _ _ _ F4).
  destruct Hbl as [Hbl|Hbl]; [right|by left]. intros j Hj. apply St5 in Hj. rewrite Hl4, Hbl in Hj. by apply list_elem_of_singleton in Hj.
Qed.

End Fixed.
(** ** The commands *)

(** With replicas there is a backlog. *)
Definition sound K A T (n : nat) o x r : Prop := fine K A T n o x r /\ (slaves r = [] \/ feeding (bl r) o x).

Lemma no_pending (n : nat) r id c : linked C (fun _ => n) r -> clients r !! id = Some c -> clientHasPendingReplies c = false ->
  outstanding C r id [] /\ cre c = [] /\ cbuf (cout c) = [].
Proof.
  intros L Hc Hp. unfold clientHasPendingReplies in Hp. apply orb_false_iff in Hp as [H1%negb_false_iff%Z.eqb_eq H2%negb_false_iff%Z.eqb_eq].
  destruct (cbuf (cout c)) eqn:Eb; [|cbn in H1; lia]. destruct (reply (cout c)) eqn:Er; [|cbn in H2; lia]. split; [|done].
  destruct (lk_pending _ _ _ L id c Hc) as [z Hz]. pose proof Hz as (ys & [Hi _ _] & Hs). exists c. split; [done|].
  unfold stream in Hs. change (cout (cl (focus c (sv r)))) with (cout c) in Hs. unfold replies in Hi. change (cout (cl (focus c (sv r)))) with (cout c) in Hi.
  rewrite Er in Hi. inversion Hi; subst. rewrite Eb in Hz. exact Hz.
Qed.

Lemma fine_weaken K A (T T' : Z -> Prop) (n : nat) o x r : fine K A T n o x r -> (forall j, T' j -> T j) -> fine K A T' n o x r.
Proof. intros [S N] HT. constructor; [|done]. by eapply synced_weaken. Qed.

(** What is known of the offsets holds of the end of the stream. *)
Definition at_end K (o : Z) x : Prop := resets K /\ K (o + Z.of_nat (length x)) (-1).

(** A client that may still ask. *)
Lemma ready_self r r' id c i c' i' z : ready bad r id -> clients r !! id = Some c -> only_for C id r r' -> self C r' id c' i' z ->
  cin c' = cin c -> talks c' = talks c -> has (flags c') CLIENT_LUA = has (flags c) CLIENT_LUA -> has (flags c') CLIENT_SLAVE = has (flags c) CLIENT_SLAVE ->
  infos r !! id = Some i -> ready bad r' id.
Proof.
  intros (d & i2 & ys & Hd & _ & Ht & Hl & Hs & (d2 & Hd2 & Ha) & Hok) Hc F (Hc' & Hi' & _) E1 E2 E3 E4 _. rewrite Hd in Hc. injection Hc as <-.
  rewrite Hd in Hd2. injection Hd2 as <-. exists c', i', ys. split_and!; try congruence; try done. exists c'. split; [done|]. rewrite E1.
  eapply Forall2_impl; [exact Ha|]. intros a y. by eapply only_raw.
Qed.

Lemma ready_same r r' id c i c' i' z : ready bad r id -> clients r !! id = Some c -> only_for C id r r' -> self C r' id c' i' z -> same_client c c' ->
  infos r !! id = Some i -> ready bad r' id.
Proof.
  intros Hr Hc F S Hs Hi. eapply ready_self; [exact Hr|exact Hc|exact F|exact S|apply Hs|by apply same_talks| | |exact Hi]; apply (more_has (flags c)); (done || apply Hs).
Qed.

(** A step after which the client may still ask. *)
Lemma fine_ready K A T (n n' : nat) o x r r' id : resets K -> fine K A T n o x r -> only_for C id r r' -> linked C (fun _ => n') r' -> slaves r' = slaves r ->
  id ∉ slaves r -> ready bad r' id -> fine K A T n' o x r'.
Proof.
  intros HK H F L E Hid Hr. eapply (fine_step _ _ _ _ _ HK n n' r r' id (slaves r)); try done; [|apply H]. intros _ _. by left.
Qed.

(** A client that is refused. *)
Lemma refuse_sync_wp K A T (n : nat) o x r id c i text : resets K -> fine K A T n o x r -> ready bad r id -> clients r !! id = Some c -> infos r !! id = Some i -> talks c = true ->
  Z.of_nat (length text) < SDS_LIMIT -> Z.of_nat (n + DROPS) <= LIST_LIMIT ->
  wp (with_client id (addReplyError C text)) (fun _ r' => fine K A T (n + DROPS) o x r' /\ stays r r') r.
Proof.
  intros HK H Hrd Hc Hi Ht Hx Hn. pose proof (sy_linked _ _ _ _ _ _ _ _ _ _ _ (fi_synced _ _ _ _ _ _ _ H)) as L.
  destruct (lk_pending _ _ _ L id c Hc) as [z Hz]. unfold DROPS in *.
  eapply wp_mono; [eapply (with_client_self C n 3 r id c i z); [done|by split_and!; [..|exists c]|done|by apply addReplyError_says|lia]|].
  cbn beta. intros [] r' (F & L' & E & c' & S' & Hs'). destruct (only_clients_parts _ _ E) as (E1 & E2 & _). split; [|split; [done|by rewrite E2]].
  apply (fine_mono _ _ _ _ _ (n + 3)); [|lia|done]. eapply fine_ready; try done; [by eapply ready_not_slave|by eapply ready_same].
Qed.

Lemma sound_stays K A T (n n' : nat) o x r r' : slaves r = [] \/ feeding (bl r) o x -> fine K A T n' o x r' -> stays r r' -> sound K A T n' o x r'.
Proof.
  intros Hs H [E St]. split; [done|]. destruct Hs as [Hs|Hs]; [left|right; by rewrite E].
  destruct (slaves r') as [|j l] eqn:El; [done|]. specialize (St j ltac:(by left)). rewrite Hs in St. by apply not_elem_of_nil in St.
Qed.

(** SYNC, of an old replica. *)
Lemma sync_full_wp K A T (n : nat) o x r id c i : at_end K o x -> fine K A T n o x r -> self C r id c i [] -> ready bad r id -> cre c = [] -> talks c = true ->
  slaves r = [] \/ feeding (bl r) o x -> Z.of_nat (n + DROPS) <= LIST_LIMIT ->
  wp (_ ← upd_client id (set_flags (fun f => Z.lor f CLIENT_PRE_PSYNC)); full_resync C R save id) (fun _ r' => sound K A T (n + DROPS) o x r' /\
    (saves_start -> slaves r' = slaves r ++ [id]) /\ (feeding (bl r) o x -> feeding (bl r') o x)) r.
Proof.
  intros [HK HE] H S Hrd Hcre Ht Hbl Hn. pose proof (sy_linked _ _ _ _ _ _ _ _ _ _ _ (fi_synced _ _ _ _ _ _ _ H)) as L. pose proof S as (Hc & Hi & _).
  assert (id ∉ slaves r) as Hid by by eapply ready_not_slave.
  apply wp_bind. eapply on_upd; [by apply (on_start C)|done|]. intros r1 [F1 L1 S1 Hl1 _ _].
  assert (fine K A T n o x r1) as H1.
  { eapply fine_ready; try done. eapply ready_self; [exact Hrd|exact Hc|exact F1|exact S1|done|by apply talks_lor; right| | |exact Hi]; cbn; by rewrite has_lor. }
  eapply wp_mono; [eapply (full_resync_wp K A T o x HK HE n r1 id _ i []); [exact H1|exact S1|by left|by rewrite Hl1|exact Hcre|by rewrite talks_lor by (by right)|by rewrite Hl1, (of_bl _ _ _ _ F1)|done]|].
  cbn beta. rewrite Hl1, (of_bl _ _ _ _ F1). by intros [] r2 (H2 & B2 & S2 & K2).
Qed.

(** A client that is not refused. *)
Definition admitted r id : Prop :=
  masterhost C && negb (repl_state_connected R) = false /\
  forall c, clients r !! id = Some c -> clientHasPendingReplies c = false.

(** The client is a replica, and the backlog is not lost. *)
Definition synced_client r id (o : Z) x r' : Prop :=
  (saves_start -> admitted r id -> slaves r' = slaves r ++ [id]) /\ (feeding (bl r) o x -> feeding (bl r') o x).

(** A PSYNC that is answered with a full resynchronization. *)
Lemma psync_full_wp K A T (n : nat) o x r r1 id c i : at_end K o x -> sound K A T n o x r -> ready bad r id -> clients r !! id = Some c -> infos r !! id = Some i ->
  declined C bad (n + 3) r id c i r1 -> talks c = true -> Z.of_nat (n + 3 + DROPS) <= LIST_LIMIT ->
  wp (full_resync C R save id) (fun _ r' => sound K A T (n + 3 + DROPS) o x r' /\ synced_client r id o x r') r1.
Proof.
  intros [HK HE] [H Hbl] Hrd Hc Hi (c1 & pre & [F L S Hl Hd _] & Hs & Hpr & Hr) Ht Hn. assert (id ∉ slaves r) as Hid by by eapply ready_not_slave.
  assert (fine K A T (n + 3) o x r1) as H1 by (eapply fine_ready; try done; by eapply ready_same).
  eapply wp_mono; [eapply (full_resync_wp K A T o x HK HE (n + 3) r1 id c1 i pre); try done; [by rewrite Hl|by rewrite (same_talks _ _ Hs)|by rewrite Hl, (of_bl _ _ _ _ F)]|].
  cbn beta. rewrite Hl, (of_bl _ _ _ _ F). intros [] r' (H' & B' & Sl & Kp). split; [done|]. split; [|done]. intros Hsv _. by apply Sl.
Qed.

Lemma sound_mono K A T (n n' : nat) o x r : sound K A T n o x r -> (n <= n')%nat -> Z.of_nat n' <= LIST_LIMIT -> sound K A T n' o x r.
Proof. intros [H Hb] Hn Hl. split; [by eapply fine_mono|done]. Qed.

Lemma syncCommand_wp K A T (n : nat) o x r id : at_end K o x -> sound K A T n o x r -> ready bad r id -> Z.of_nat (n + MESSAGES) <= LIST_LIMIT ->
  wp (syncCommand C R save id) (fun _ r' => sound K A T (n + MESSAGES) o x r' /\ synced_client r id o x r') r.
Proof.
  intros HKE HS Hrd Hn. pose proof HS as [H Hbl]. pose proof HKE as [HK HE]. pose proof H as [[L O F Y Z] N].
  pose proof Hrd as (c & i & ys & Hc & Hi & Ht & Hl & Hs & (c' & Hc' & Hargs) & Hok). rewrite Hc in Hc'. injection Hc' as <-. unfold MESSAGES in *.
  assert (forall (m : Monad.M repl unit) r1, wp m (fun _ r' => sound K A T (n + DROPS) o x r' /\ synced_client r id o x r') r1 ->
    wp m (fun _ r' => sound K A T (n + (3 + DROPS)) o x r' /\ synced_client r id o x r') r1) as Hmore.
  { intros m r1 Hm. eapply wp_mono; [exact Hm|]. intros [] r' [H1 H2]. split; [eapply sound_mono; [exact H1|lia|done]|done]. }
  unfold syncCommand. apply wp_bind. eapply get_client_wp; [exact Hc|]. rewrite Hs.
  assert (forall text, Z.of_nat (length text) < SDS_LIMIT -> ~ admitted r id ->
    wp (with_client id (addReplyError C text)) (fun _ r' => sound K A T (n + DROPS) o x r' /\ synced_client r id o x r') r) as Hrefuse.
  { intros text Htext Had. eapply wp_mono; [by eapply refuse_sync_wp; try done; lia|]. cbn beta. intros [] r' [Hf St]. split; [by eapply sound_stays|].
    split; [done|]. destruct St as [-> _]. done. }
  destruct (_ && _) eqn:Hm; [apply Hmore, Hrefuse; [done|]; intros [Hm' _]; congruence|].
  destruct (clientHasPendingReplies c) eqn:Hp; [apply Hmore, Hrefuse; [done|]; intros [_ Hp']; specialize (Hp' c Hc); congruence|].
  destruct (no_pending n r id c L Hc Hp) as (Ho & Hcre & Hbuf). clear Hrefuse Hp. assert (self C r id c i []) as Hself by (by split_and!).
  assert (wp (_ ← upd_client id (set_flags (fun f => Z.lor f CLIENT_PRE_PSYNC)); full_resync C R save id)
    (fun _ r' => sound K A T (n + (3 + DROPS)) o x r' /\ synced_client r id o x r') r) as Hold.
  { apply Hmore. eapply wp_mono; [eapply sync_full_wp; try done; lia|]. intros [] r' (Hr & Hsl & Hk). split; [done|]. split; [|done]. intros Hsv _. by apply Hsl. }
  destruct Hok as [(y0 & -> & Hy0)|(y0 & y1 & y2 & -> & Hy2)].
  - inversion Hargs as [|a0 ? l0 ? Ha0 Hl0 Eargs]; subst. inversion Hl0; subst. apply wp_bind.
    eapply (sync_arg_wp id 0 r c a0); [done|by rewrite <- Eargs|done|]. intros tl. destruct (_ =? 0) eqn:E; [by apply Z.eqb_eq, Hy0 in E|].
    exact Hold.
  - pose proof Hargs as Hargs'. inversion Hargs as [|a0 ? l0 ? Ha0 Hl0 Eargs]; subst. inversion Hl0 as [|a1 ? l1 ? Ha1 Hl1]; subst.
    apply wp_bind. eapply (sync_arg_wp id 0 r c a0); [done|by rewrite <- Eargs|done|]. intros tl.
    destruct (_ =? 0); [|exact Hold]. clear Hold.
    wp_use (master_wp C R bad K n r id c i y0 y1 y2 o x L Hself Ht Hl (fine_known _ _ _ _ _ _ _ H) Hcre Hbuf Hargs' Hy2 O); [unfold DROPS in Hn; lia|].
    intros [] r' Hr; cbn beta iota in *.
    + destruct Hr as [[F1 L1 Hf Hsl _] Hfeed]. apply wp_modify.
      assert (fine K A T (n + (3 + DROPS)) o x r') as Hr'.
      { apply (fine_mono _ _ _ _ _ (n + 2)); [|unfold DROPS; lia|done]. eapply (fine_step _ _ _ _ _ HK n (n + 2) r r' id); [done|done|done|exact Hsl| |done| |].
        - intros j [Hj| ->%list_elem_of_singleton]%elem_of_app Hne; [done|done].
        - intros _ []. apply elem_of_app. right. by left.
        - apply NoDup_app. split_and!; [done| |apply NoDup_singleton]. intros j Hj ->%list_elem_of_singleton. by eapply ready_not_slave in Hj. }
      split; [|split; [intros _ _; exact Hsl|intros _; change (feeding (bl r') o x); by rewrite (of_bl _ _ _ _ F1)]]. split; [by eapply fine_same|]. right. change (feeding (bl r') o x). by rewrite (of_bl _ _ _ _ F1).
    + assert (has_raw r' a1 y1) as Ha1' by (destruct Hr as (? & ? & [F1 _ _ _ _ _] & _); by eapply only_raw).
      assert (exists c', clients r' !! id = Some c' /\ cin c' = cin c) as (c' & Hc' & Ein).
      { destruct Hr as (c' & ? & [_ _ (Hc' & _) _ _ _] & Hsm & _). exists c'. split; [done|apply Hsm]. }
      apply wp_bind. eapply (sync_arg_wp id 1 r' c' a1); [done|by rewrite Ein, <- Eargs|done|]. intros tl1.
      apply wp_bind. destruct ((y1 ++ 0 :: tl1) !! 0%nat) as [c0|] eqn:E0; [|by destruct y1]. eapply wp_lift; [done|].
      rewrite Nat.add_assoc in *. apply wp_bind. destruct (c0 =? 63); [apply wp_skip; by eapply psync_full_wp|].
      apply wp_modify. eapply psync_full_wp; try done. destruct Hr as (c2 & pre & Hon & Hr). exists c2, pre. split; [|done].
      eapply on_state; [exact Hon|done|done|done|done|by destruct Hon|done|by intros e He|done].
Qed.

End Spec.
End ReplStart.
