(* ===== verification/ReplRun.v ===== *)
(** * The stream that the replicas follow (src/replication.c)

    For every sequence of commands and of requests for synchronization: the
    replicas are sent the stream from where they asked for it or were told,
    and can tell the database of each command. *)

From S2P Require Import Prelude Monad Util Sds Dict DictTypes Object ObjectSpec State HeapSpec Reply ReplySpec Backlog ScriptCache Repl ReplSpec ReplFeed ReplSync ReplFull ReplStart Sample.
Import Monad Util Sds Dict DictTypes Object ObjectSpec State HeapSpec Reply ReplySpec Backlog ScriptCache Repl ReplSpec ReplFeed ReplSync ReplFull ReplStart Sample.

Module ReplRun.

(** ** What was sent *)

(** A command with its database, and whether a SELECT precedes it. *)
Definition entry : Type := bool * (Z * list bytes).

Definition entry_text (e : entry) : bytes :=
  let '(b, (d, ys)) := e in (if b then select_line d else []) ++ command_text ys.

Definition text (l : list entry) : bytes := concat (entry_text <$> l).

(** The database in the end, for a replica that knows only the first one, if
    it runs every command in its database. *)
Fixpoint replay (db : option Z) (l : list entry) : option (option Z) :=
  match l with
  | [] => Some db
  | (b, (d, _)) :: l => if b || bool_decide (db = Some d) then replay (Some d) l else None
  end.

Lemma text_app l1 l2 : text (l1 ++ l2) = text l1 ++ text l2.
Proof. unfold text. by rewrite fmap_app, concat_app. Qed.

Lemma text_single e : text [e] = entry_text e.
Proof. unfold text. cbn. apply app_nil_r. Qed.

Lemma replay_app db l1 l2 : replay db (l1 ++ l2) = db1 ← replay db l1; replay db1 l2.
Proof. revert db. induction l1 as [|[b [d ys]] l1 IH]; intros db; [done|]. cbn. destruct (_ || _); [apply IH|done]. Qed.

(** An offset between two commands, from which a replica that is told nothing
    else can run the rest of them, and whether the next command goes without
    a SELECT only if it would run that too. *)
Definition boundary (o : Z) (l : list entry) (offset sel : Z) : Prop :=
  exists l1 l2 db, l = l1 ++ l2 /\ offset = o + Z.of_nat (length (text l1)) /\ replay None l2 = Some db /\ (sel = -1 \/ db = Some sel).

Lemma boundary_resets o l : resets (boundary o l).
Proof. intros offset d (l1 & l2 & db & H1 & H2 & H3 & _). exists l1, l2, db. auto. Qed.

Lemma boundary_end o l : boundary o l (o + Z.of_nat (length (text l))) (-1).
Proof. exists l, [], None. split_and!; [by rewrite app_nil_r|done|done|by left]. Qed.

Lemma boundary_next o l offset sel d ys : 0 <= d -> boundary o l offset sel -> boundary o (l ++ [(negb (sel =? d), (d, ys))]) offset d.
Proof.
  intros Hd (l1 & l2 & db & -> & H2 & H3 & H4). exists l1, (l2 ++ [(negb (sel =? d), (d, ys))]), (Some d).
  split_and!; [by rewrite app_assoc|done| |by right]. rewrite replay_app, H3. cbn.
  destruct (Z.eqb_spec sel d) as [->|Hne]; [|done]. cbn. destruct H4 as [H4| ->]; [lia|]. by rewrite bool_decide_true.
Qed.

(** ** Events *)

Inductive event :=
| EFeed (dictid : Z) (args : list (addr * bytes))
| ESync (id : Z).

Definition fed_by (e : event) : list (Z * list bytes) :=
  match e with EFeed d args => [(d, args.*2)] | ESync _ => [] end.
Definition synced_by (e : event) : list Z :=
  match e with EFeed _ _ => [] | ESync id => [id] end.

Definition commands (es : list event) : list (Z * list bytes) := concat (fed_by <$> es).
Definition syncs (es : list event) : list Z := concat (synced_by <$> es).

(** What the events may cost: elements of a list of replies and bytes. *)
Definition nodes (e : event) : nat := match e with EFeed _ args => 2 + length args * 3 | ESync _ => MESSAGES end.
Definition sizes (e : event) : nat :=
  match e with EFeed d args => length (select_line d ++ command_text args.*2) | ESync _ => 0%nat end.

Section Run.
Context {P : Type} (C : config) (R : repl_config) (save : Monad.M (repl P) bool).
Context {HC : sound_config C}.
Context (bad : Prop).

Abbreviation repl := (repl P).
Implicit Types (r : repl) (a : addr) (c : client) (id : Z) (x y p : bytes) (l : list entry).

(** [processInputBuffer] runs nothing for a client that is closed after its
    replies. *)
Definition run_event (e : event) : Monad.M repl unit :=
  match e with
  | EFeed d args => r ← get; replicationFeedSlaves C R (slaves r) d args.*1
  | ESync id => c ← get_client id; if has (flags c) CLIENT_CLOSE_AFTER_REPLY then skip else syncCommand C R save id
  end.

Definition run (es : list event) : Monad.M repl unit := for_each es run_event.

(** The strings that the events may use and the shared ones are held. *)
Section Held.
Context (A : addr -> bytes -> Prop).

Record strings_ok : Prop := StringsOk {
  so_shared : shared_by C A;
  so_select : forall n, 0 <= n < PROTO_SHARED_SELECT_CMDS -> exists a, select R !! Z.to_nat n = Some a /\ A a (select_line n)
}.

Definition event_ok (e : event) : Prop :=
  match e with
  | EFeed d args => 0 <= d /\ is_int d /\ is_int (Z.of_nat (length args)) /\ Forall (fun ay => A ay.1 ay.2 /\ Z.of_nat (length ay.2) < SDS_LIMIT) args
  | ESync _ => True
  end.

Abbreviation holding o l T n := (sound C R bad (boundary o l) A T n o (text l)).

Lemma feeding_buffer b o x : feeding b o x -> repl_backlog b <> None.
Proof. intros [_ _ _ _ _ _ (buf & -> & _)]. done. Qed.

(** What was sent ends with the commands since there is a backlog. *)
Record advanced (es : list event) (o : Z) l (T : Z -> Prop) (n : nat) r (l' : list entry) (pre : list (Z * list bytes)) r' : Prop := Advanced {
  ad_holding : holding o (l ++ l') T n r';
  ad_commands : commands es = pre ++ l'.*2;
  ad_before : feeding (bl r) o (text l) -> pre = [] /\ feeding (bl r') o (text (l ++ l'));
  ad_after : l' <> [] -> feeding (bl r') o (text (l ++ l'))
}.

Definition advances es o l T n r r' : Prop := exists l' pre, advanced es o l T n r l' pre r'.

Lemma advances_none o l T n r : holding o l T n r -> advances [] o l T n r r.
Proof. intros H. exists [], []. constructor; rewrite ?app_nil_r; done. Qed.

Lemma advances_trans e es o l T1 n1 T2 n2 r1 r2 r3 l1 pre1 :
  advanced [e] o l T1 n1 r1 l1 pre1 r2 -> advances es o (l ++ l1) T2 n2 r2 r3 -> advances (e :: es) o l T2 n2 r1 r3.
Proof.
  intros [H1 C1 B1 A1] (l2 & pre2 & [H2 C2 B2 A2]). exists (l1 ++ l2).
  assert (commands (e :: es) = commands [e] ++ commands es) as Ec by (unfold commands; cbn [fmap list_fmap concat]; by rewrite app_nil_r).
  destruct (decide (l1 = [])) as [->|Hne].
  - exists (pre1 ++ pre2). rewrite app_nil_r in *. constructor; [done| | |done].
    + by rewrite Ec, C1, C2, <- app_assoc.
    + intros F. destruct (B1 F) as [-> F2]. by destruct (B2 F2) as [-> F3].
  - exists pre1. destruct (B2 (A1 Hne)) as [-> F3]. pose proof (app_assoc l l1 l2) as Ea. constructor; rewrite ?Ea; [done| | |done].
    + by rewrite Ec, C1, C2, fmap_app, <- app_assoc.
    + intros F. destruct (B1 F) as [-> _]. done.
Qed.

Lemma sync_ignored T (n : nat) o l r id : holding o l T n r -> Z.of_nat (n + MESSAGES) <= LIST_LIMIT ->
  exists l' pre, advanced [ESync id] o l T (n + MESSAGES) r l' pre r.
Proof.
  intros H Hn. exists [], []. constructor; rewrite ?app_nil_r; try done. eapply (sound_mono C R bad _ A T n); [exact H|lia|done].
Qed.

Lemma sync_event_wp T (n : nat) o l r id : holding o l T n r -> T id -> Z.of_nat (n + MESSAGES) <= LIST_LIMIT ->
  wp (run_event (ESync id)) (fun _ r' => exists l' pre, advanced [ESync id] o l T (n + MESSAGES) r l' pre r') r.
Proof.
  intros H HT Hn. pose proof (sy_ready _ _ _ _ _ _ _ _ _ _ _ (fi_synced _ _ _ _ _ _ _ _ _ _ (proj1 H)) id HT) as Hcand. cbn [run_event].
  assert (exists c, clients r !! id = Some c) as [c Hc] by (destruct Hcand as [(c & ? & ? & Hc & _)|(c & Hc & _)]; by exists c).
  apply wp_bind. eapply get_client_wp; [exact Hc|]. destruct (has (flags c) CLIENT_CLOSE_AFTER_REPLY) eqn:Hcl; [apply wp_skip; by apply sync_ignored|].
  destruct Hcand as [Hrd|(c' & Hc' & Hs)].
  - eapply wp_mono; [eapply (syncCommand_wp C R save bad (boundary o l)); [split; [apply boundary_resets|apply boundary_end]|done..]|].
    intros [] r' (Hr & _ & Hk). exists [], []. constructor; rewrite ?app_nil_r; try done. intros F. split; [done|by apply Hk].
  - rewrite Hc in Hc'. injection Hc' as <-. destruct Hs as [Hs|Hs]; [|congruence]. unfold syncCommand. apply wp_bind. eapply get_client_wp; [exact Hc|].
    rewrite Hs. apply wp_skip. by apply sync_ignored.
Qed.

(** ** A command *)

Lemma told_ready u u' r r' w id : told C u u' r r' w -> infos r' = infos r -> ready bad r id -> ready bad r' id.
Proof.
  intros T Ei (c & i & ys & Hc & Hi & Ht & Hl & Hs & Ha & Hok). destruct (told_client C _ _ _ _ _ id c T Hc) as (c' & Hc' & Hsame).
  exists c', i, ys. split_and!; [done|by rewrite Ei|by rewrite (same_talks _ _ Hsame)| | |by eapply told_asks|done];
    by rewrite (more_has (flags c)) by (apply Hsame || done).
Qed.

Lemma told_candidate u u' r r' w id : told C u u' r r' w -> infos r' = infos r -> candidate bad r id -> candidate bad r' id.
Proof.
  intros T Ei [H|(c & Hc & Hs)]; [left; by eapply told_ready|right]. destruct (told_client C _ _ _ _ _ id c T Hc) as (c' & Hc' & Hsame). exists c'. split; [done|].
  destruct Hs as [Hs|Hs]; [left|right]; rewrite (more_has (flags c)); (done || apply Hsame).
Qed.

Lemma told_fine K K' T (n n' : nat) o x p r r' w :
  fine C R bad K A T n o x r -> told C (fun _ => n) (fun _ => n') r r' w -> feeding (bl r') o (x ++ p) -> slaves r' = slaves r -> infos r' = infos r ->
  written r' = written r -> (forall offset, K offset (slaveseldb r) -> K' offset (slaveseldb r')) ->
  (forall id, id ∈ slaves r -> w id = if gets_stream r id then p else []) -> fine C R bad K' A T n' o (x ++ p) r'.
Proof.
  intros [[L O F Y Z] N] Ht Hf Es Ei Ew HK Hw. constructor; [|by rewrite Es]. constructor; [apply Ht|by left|..]; rewrite ?Es.
  - intros j Hj. eapply follows_told; [by apply F|exact HK|exact Ht|exact Ei|by rewrite Ew|by apply Hw].
  - intros j Hj. eapply told_candidate; [exact Ht|exact Ei|by apply Y].
  - intros a y Ha. eapply (told_has C); [exact Ht|by apply Z].
Qed.

Lemma feed_fed_wp T (n : nat) o l r d args : holding o l T n r -> feeding (bl r) o (text l) -> strings_ok -> event_ok (EFeed d args) ->
  Z.of_nat (n + nodes (EFeed d args)) <= LIST_LIMIT -> o + Z.of_nat (length (text l) + sizes (EFeed d args)) < 2 ^ 61 ->
  wp (run_event (EFeed d args)) (fun _ r' => exists l' pre, advanced [EFeed d args] o l T (n + nodes (EFeed d args)) r l' pre r') r.
Proof.
  intros [H Hbl] Hfeed [Hsh Hsel] (Hd & Hdi & Hlen & Hargs) Hn Hsize. pose proof H as [[L O F Y Z] N]. unfold run_event. wp_step.
  pose proof (length_fmap snd args) as Elen. cbn [nodes sizes] in *.
  eapply wp_mono; [eapply (replicationFeedSlaves_wp C R (fun _ => n) o (text l) r d args.*1 args.*2); try done|].
  - split; [done|]. intros j Hj. destruct (F j Hj) as (c & _ & Hc & _). by exists c.
  - intros m Hm. destruct (Hsel m Hm) as (a & Ea & Ha). exists a. split; [done|by apply Z].
  - eapply shared_by_mono; [|exact Hsh]. exact Z.
  - apply Forall2_fmap, Forall_Forall2_diag. eapply Forall_impl; [exact Hargs|]. intros [a y] [Ha _]. by apply Z.
  - apply Forall_fmap. eapply Forall_impl; [exact Hargs|]. intros [a y] [_ Hy]. exact Hy.
  - by rewrite Elen.
  - intros id _. rewrite Elen. lia.
  - cbn beta. intros [] r' [Ht Hf Es Ei Edb _ Ew]. set (e := (negb (slaveseldb r =? d), (d, args.*2)) : entry).
    assert (piece (slaveseldb r) d args.*2 = entry_text e) as Ep by (unfold piece, e, entry_text; by destruct (_ =? _)).
    rewrite Ep in *. exists [e], []. assert (text (l ++ [e]) = text l ++ entry_text e) as Et by (by rewrite text_app, text_single).
    constructor; rewrite ?Et; try done. split; [|by right].
    eapply (told_fine (boundary o l)); [exact H| |exact Hf|exact Es|exact Ei|exact Ew| |].
    + eapply told_mono; [exact Ht| |intros j; cbn beta; lia]. intros j. unfold more_for. rewrite Elen. case_decide; lia.
    + intros offset. rewrite Edb. by apply boundary_next.
    + intros id Hid. unfold for_ids. by rewrite decide_True.
Qed.

Lemma feed_event_wp T (n : nat) o l r d args : holding o l T n r -> strings_ok -> event_ok (EFeed d args) ->
  Z.of_nat (n + nodes (EFeed d args)) <= LIST_LIMIT -> o + Z.of_nat (length (text l) + sizes (EFeed d args)) < 2 ^ 61 ->
  wp (run_event (EFeed d args)) (fun _ r' => exists l' pre, advanced [EFeed d args] o l T (n + nodes (EFeed d args)) r l' pre r') r.
Proof.
  intros H Hs He Hn Hsize. pose proof H as [Hf Hbl].
  destruct (sy_offered _ _ _ _ _ _ _ _ _ _ _ (fi_synced _ _ _ _ _ _ _ _ _ _ Hf)) as [F|(Hb & _)]; [by apply feed_fed_wp|].
  destruct Hbl as [Hsl|F]; [|by apply feeding_buffer in F]. unfold run_event. wp_step.
  eapply wp_mono; [by apply replicationFeedSlaves_none|]. intros [] r' ->. exists [], [(d, args.*2)].
  constructor; rewrite ?app_nil_r; [|done| |done].
  - split; [|by left]. by eapply fine_mono; [exact Hf|lia|].
  - intros F. by apply feeding_buffer in F.
Qed.

(** ** All the events *)

Definition all_nodes (es : list event) : nat := sum_list (nodes <$> es).
Definition all_sizes (es : list event) : nat := sum_list (sizes <$> es).

Lemma advanced_size e o l T n r l' pre r' : advanced [e] o l T n r l' pre r' -> (length (text l') <= sizes e)%nat.
Proof.
  intros [_ Hc _ _]. unfold commands in Hc. cbn [fmap list_fmap concat] in Hc. rewrite app_nil_r in Hc. destruct e as [d args|id]; cbn [fed_by sizes] in *.
  - destruct pre as [|p pre]; cbn in Hc.
    + destruct l' as [|[b [d' ys]] l']; [done|]. cbn in Hc. injection Hc as <- <- Hl. destruct l'; [|done].
      rewrite text_single. unfold entry_text. destruct b; rewrite ?length_app; cbn; lia.
    + injection Hc as _ Hl. destruct pre; [|done]. destruct l'; [cbn; lia|done].
  - destruct pre; [|done]. destruct l'; [cbn; lia|done].
Qed.

Lemma event_wp T (n : nat) o l r e : holding o l T n r -> strings_ok -> event_ok e -> (forall id, id ∈ synced_by e -> T id) ->
  Z.of_nat (n + nodes e) <= LIST_LIMIT -> o + Z.of_nat (length (text l) + sizes e) < 2 ^ 61 ->
  wp (run_event e) (fun _ r' => exists l' pre, advanced [e] o l T (n + nodes e) r l' pre r') r.
Proof.
  intros H Hs He HT Hn Hsz. destruct e as [d args|id]; [by apply (feed_event_wp T)|]. apply (sync_event_wp T); [done|apply HT; by left|done].
Qed.

Lemma run_wp es : forall T (n : nat) o l r, holding o l T n r -> strings_ok -> Forall event_ok es -> (forall id, id ∈ syncs es -> T id) ->
  Z.of_nat (n + all_nodes es) <= LIST_LIMIT -> o + Z.of_nat (length (text l) + all_sizes es) < 2 ^ 61 ->
  wp (run es) (fun _ r' => advances es o l T (n + all_nodes es) r r') r.
Proof.
  induction es as [|e es IH]; intros T n o l r H Hs He HT Hn Hsz; unfold run; cbn [for_each].
  { apply wp_skip. unfold all_nodes. cbn. rewrite Nat.add_0_r. by apply advances_none. }
  apply Forall_cons in He as [He Hes]. unfold syncs, all_nodes, all_sizes in *. cbn [fmap list_fmap concat sum_list sum_list_with] in *.
  wp_use (event_wp T n o l r e H Hs He); [intros id Hid; apply HT, elem_of_app; by left|cbn in *; lia|cbn in *; lia|].
  cbn beta. intros [] r1 (l1 & pre1 & Ha). pose proof (advanced_size _ _ _ _ _ _ _ _ _ Ha) as Hl1.
  eapply wp_mono; [apply (IH _ _ _ _ _ (ad_holding _ _ _ _ _ _ _ _ _ Ha) Hs Hes)|].
  - intros id Hid. apply HT, elem_of_app. by right.
  - cbn in *. lia.
  - rewrite text_app, length_app. cbn in *. lia.
  - cbn beta. intros [] r2 H2. eapply advances_trans; [exact Ha|]. cbn. by rewrite Nat.add_assoc.
Qed.

(** ** From a server that has no replicas *)

Record alone (T : Z -> Prop) (n : nat) r : Prop := Alone {
  al_linked : linked C (fun _ => n) r;
  al_backlog : repl_backlog (bl r) = None;
  al_slaves : slaves r = [];
  al_size : 0 < repl_backlog_size (bl r) < 2 ^ 60;
  al_offset : 0 <= master_repl_offset (bl r) < 2 ^ 60;
  al_ready : forall id, T id -> ready True r id;
  al_strings : forall a y, A a y -> has_string r a y
}.

Lemma alone_sound T n r K : alone T n r -> (forall id, T id -> ready bad r id) -> sound C R bad K A T n (master_repl_offset (bl r) + 1) [] r.
Proof.
  intros [L Hb Hs Hz Ho _ Z] Y. split; [|by left]. constructor; [|rewrite Hs; apply NoDup_nil_2].
  constructor; [done|by right| |intros id Hid; left; by apply Y|done]. rewrite Hs. by intros j Hj%not_elem_of_nil.
Qed.

End Held.
End Run.

Section Properties.
Context {P : Type} (C : config) (R : repl_config) (save : Monad.M (repl P) bool).
Context {HC : sound_config C}.

Abbreviation repl := (repl P).
Implicit Types (r : repl) (a : addr) (id : Z) (x y : bytes) (l : list entry).

(** A client asks with an offset that is not a number. *)
Definition bad_request r (es : list event) : Prop :=
  exists id y0 y1 y2, id ∈ syncs es /\ asks r id [y0; y1; y2] /\ string2ll y2 = None.

Lemma ready_known r es id : id ∈ syncs es -> ready True r id -> ready (bad_request r es) r id.
Proof.
  intros Hid (c & i & ys & Hc & Hi & Ht & Hl & Hs & Ha & Hok). exists c, i, ys. split_and!; try done.
  destruct Hok as [Hok|(y0 & y1 & y2 & -> & _)]; [by left|right]. exists y0, y1, y2. split; [done|].
  destruct (string2ll y2) eqn:E; [left; by eexists|right]. by exists id, y0, y1, y2.
Qed.

(** C4. A server without replicas that is fed commands and receives SYNC and
    PSYNC requests, in any order and as often as the clients like, runs without
    failing, and in the end the stream is the texts of the commands since there
    was a backlog, each after a SELECT of its database or in that of the command
    before; the backlog has the last bytes of it; and every replica has still to
    be sent exactly the stream from where it asked for it, or from the offset
    that it was told, which is between two commands and from where a replica
    that knows nothing of the database runs every command in its own.  When one
    of the clients asks with an offset that is not a number ([bad_request]) the
    code answers it with an error and makes it a replica all the same
    (replication.c:409), and copies its output to others that wait for the same
    save: then, and only then, a replica that waits for a save may find this one
    line of an error before its stream ([warned]).  A client that is a replica
    or that is closed after its replies is not made one by a further request. *)
Theorem replicas_follow_stream (A : addr -> bytes -> Prop) (n : nat) r (es : list event) :
  alone C A (fun id => id ∈ syncs es) n r -> strings_ok C R A -> Forall (event_ok A) es ->
  Z.of_nat (n + all_nodes es) <= LIST_LIMIT -> Z.of_nat (all_sizes es) < 2 ^ 59 ->
  wp (run C R save es) (fun _ r' => exists pre log, commands es = pre ++ log.*2 /\
    let o := master_repl_offset (bl r) + 1 in
    (log <> [] \/ slaves r' <> [] -> feeding (bl r') o (text log)) /\
    NoDup (slaves r') /\
    forall id, id ∈ slaves r' -> follows C R (bad_request r es) (boundary o log) o (text log) r' id) r.
Proof.
  intros H Hs He Hn Hsz. pose proof (al_offset _ _ _ _ _ H) as Ho. set (T := fun id => id ∈ syncs es).
  assert (forall id, T id -> ready (bad_request r es) r id) as Hrd by (intros id Hid; apply ready_known; [exact Hid|by apply (al_ready _ _ _ _ _ H)]).
  eapply wp_mono; [apply (run_wp C R save (bad_request r es) A es T n (master_repl_offset (bl r) + 1) [] r); try done; [by apply alone_sound|cbn; lia]|].
  cbn beta. intros [] r' (log & pre & [[Hf Hb] Hc _ Ha]). cbn [app] in *. exists pre, log. split_and!; [done| |apply Hf|].
  - intros [Hl|Hl]; [by apply Ha|]. by destruct Hb.
  - apply (sy_follows _ _ _ _ _ _ _ _ _ _ _ (fi_synced _ _ _ _ _ _ _ _ _ _ Hf)).
Qed.

(** C37. A client that issues SYNC or PSYNC, that is not refused, becomes a
    replica when saves start, and follows the stream; the backlog and the
    other replicas are as before.  Unless offsets that are not numbers are
    expected ([bad]), nothing goes before the stream. *)
Theorem syncCommand_attaches (bad : Prop) (A : addr -> bytes -> Prop) (T : Z -> Prop) (n : nat) o l r id :
  sound C R bad (boundary o l) A T n o (text l) r -> ready bad r id -> Z.of_nat (n + MESSAGES) <= LIST_LIMIT ->
  saves_start R -> admitted C R r id ->
  wp (syncCommand C R save id) (fun _ r' => slaves r' = slaves r ++ [id] /\ feeding (bl r') o (text l) /\
    forall j, j ∈ slaves r' -> follows C R bad (boundary o l) o (text l) r' j) r.
Proof.
  intros H Hrd Hn Hsv Had. eapply wp_mono; [eapply (syncCommand_wp C R save bad (boundary o l)); [split; [apply boundary_resets|apply boundary_end]|done..]|].
  cbn beta. intros [] r' [[Hf Hb] [Hsl _]]. specialize (Hsl Hsv Had). split_and!; [done| |apply (sy_follows _ _ _ _ _ _ _ _ _ _ _ (fi_synced _ _ _ _ _ _ _ _ _ _ Hf))].
  destruct Hb as [Hb|Hb]; [|done]. rewrite Hb in Hsl. by apply app_cons_not_nil in Hsl.
Qed.

End Properties.

(** ** A server with three clients

    The third one asks with an offset that is not a number. *)

Definition demo_selects : list (addr * bytes) := (fun n => (84 + n, select_line n)) <$> seqZ 0 10.

Definition demo_strings : list (addr * bytes) :=
  [(9, str "SYNC"); (10, str "set"); (11, str "k"); (12, str "v"); (13, str "psync"); (14, str "?"); (15, decimal (-1));
   (95, str "0123"); (96, str "many")] ++ demo_selects.

Definition demo_repl_config : repl_config :=
  ReplConfig ((fun n => 84 + n) <$> seqZ 0 10) (str "0123") (fun _ _ x => Z.of_nat (length x)) (fun _ => true) false 0 0 false.

Definition demo_info : slave_info := SlaveInfo 0 0 0.

Definition demo_repl : repl unit :=
  MkRepl (MkBacklog None 16384 0 0 0 0) (demo demo_strings []) {[1 := demo_client [9]; 2 := demo_client [13; 14; 15]; 3 := demo_client [13; 95; 96]]} []
    {[1 := demo_info; 2 := demo_info; 3 := demo_info]} (-1) 0 (0, 0, 0) None [] (MkScripts dictCreate [] 10000).

Definition demo_held (a : addr) (x : bytes) : Prop := (a, x) ∈ demo_texts demo_strings.

Definition demo_command : event := EFeed 0 [(10, str "set"); (11, str "k"); (12, str "v")].
Definition demo_events : list event := [demo_command; ESync 3; demo_command; ESync 1; ESync 2; ESync 1; demo_command].

Lemma demo_strings_ok : demo_args demo_strings.
Proof. apply (bool_decide_unpack _). vm_compute. exact I. Qed.

Lemma demo_base a : base demo_repl a = count (demo_heap demo_strings) a.
Proof. unfold base, held. cbn [clients demo_repl]. by rewrite Z.sub_0_r. Qed.

Lemma demo_client_in id c : clients demo_repl !! id = Some c -> exists argv, c = demo_client argv.
Proof. cbn. intros [[_ <-]|[_ [[_ <-]|[_ [_ <-]%lookup_singleton_Some]]%lookup_insert_Some]]%lookup_insert_Some; by eexists. Qed.

Lemma demo_linked : linked demo_config (fun _ => 0%nat) demo_repl.
Proof.
  constructor; [| | |done|done].
  - intros id c [argv ->]%demo_client_in. exists []. exact (demo_pending demo_strings argv).
  - intros a. rewrite demo_base. pose proof (demo_count demo_strings a). lia.
  - by intros id c [argv ->]%demo_client_in.
Qed.

Lemma demo_has_raw a x : demo_held a x -> has_raw demo_repl a x.
Proof.
  intros Hin. exists (demo_string x). split_and!; [by apply (demo_lookup _ demo_strings_ok)|by apply (demo_string_obj _ demo_strings_ok a)|done|].
  rewrite demo_base, (demo_has _ demo_strings_ok _ _ Hin). lia.
Qed.

Lemma demo_held_in a x : (a, x) ∈ demo_strings -> demo_held a x.
Proof. intros H. apply elem_of_app. by left. Qed.

Lemma demo_asks id (l : list (addr * bytes)) : clients demo_repl !! id = Some (demo_client l.*1) -> Forall (fun p => p ∈ demo_strings) l -> asks demo_repl id l.*2.
Proof.
  intros Hc Hl. exists (demo_client l.*1). split; [exact Hc|]. change (argv (cin (demo_client l.*1))) with l.*1.
  apply Forall2_fmap, Forall_Forall2_diag. eapply Forall_impl; [exact Hl|]. intros [a y] Hin. by apply demo_has_raw, demo_held_in.
Qed.

Lemma demo_candidate id (l : list (addr * bytes)) : clients demo_repl !! id = Some (demo_client l.*1) -> infos demo_repl !! id = Some demo_info ->
  Forall (fun p => p ∈ demo_strings) l -> request_ok True l.*2 -> ready True demo_repl id.
Proof. intros Hc Hi Hl Hok. exists (demo_client l.*1), demo_info, l.*2. split_and!; try done. by apply demo_asks. Qed.

Lemma demo_ready id : id ∈ syncs demo_events -> ready True demo_repl id.
Proof.
  assert (ready True demo_repl 1) as H1.
  { apply (demo_candidate 1 [(9, str "SYNC")]); [done..| |]; [apply (bool_decide_unpack _); by vm_compute|]. left. by exists (str "SYNC"). }
  assert (ready True demo_repl 2) as H2.
  { apply (demo_candidate 2 [(13, str "psync"); (14, str "?"); (15, decimal (-1))]); [done..| |]; [apply (bool_decide_unpack _); by vm_compute|].
    right. exists (str "psync"), (str "?"), (decimal (-1)). split; [done|by right]. }
  assert (ready True demo_repl 3) as H3.
  { apply (demo_candidate 3 [(13, str "psync"); (95, str "0123"); (96, str "many")]); [done..| |]; [apply (bool_decide_unpack _); by vm_compute|].
    right. exists (str "psync"), (str "0123"), (str "many"). split; [done|by right]. }
  cbn. rewrite !elem_of_cons. intros [->|[->|[->|[->|?%not_elem_of_nil]]]]; done.
Qed.

Lemma demo_alone : alone demo_config demo_held (fun id => id ∈ syncs demo_events) 0 demo_repl.
Proof. constructor; [exact demo_linked|reflexivity|reflexivity|cbn; lia|cbn; lia|exact demo_ready|]. intros a y H. by apply raw_string, demo_has_raw. Qed.

Lemma demo_strings_shared : strings_ok demo_config demo_repl_config demo_held.
Proof.
  constructor; [exact (demo_shared_by demo_strings demo_strings_ok)|]. intros n Hn. exists (84 + n). cbn [select demo_repl_config]. unfold PROTO_SHARED_SELECT_CMDS in Hn.
  rewrite list_lookup_fmap, lookup_seqZ_lt by lia. split; [cbn; f_equal; lia|]. apply demo_held_in, elem_of_app. right.
  apply list_elem_of_fmap. exists n. split; [done|]. apply elem_of_seqZ. lia.
Qed.

Lemma demo_events_ok : Forall (event_ok demo_held) demo_events.
Proof.
  assert (event_ok demo_held demo_command) as H.
  { split_and!; try done. repeat constructor; cbn [fst snd]; try done; apply demo_held_in, elem_of_app; left; rewrite !elem_of_cons; tauto. }
  repeat (apply Forall_cons; split; [exact H || exact I|]). apply Forall_nil_2.
Qed.

Example replicas_follow_stream_witness :
  alone demo_config demo_held (fun id => id ∈ syncs demo_events) 0 demo_repl /\
  wp (run demo_config demo_repl_config (mret true) demo_events) (fun _ r' => exists pre log, commands demo_events = pre ++ log.*2 /\
    let o := master_repl_offset (bl demo_repl) + 1 in
    (log <> [] \/ slaves r' <> [] -> feeding (bl r') o (text log)) /\
    NoDup (slaves r') /\
    forall id, id ∈ slaves r' -> follows demo_config demo_repl_config (bad_request demo_repl demo_events) (boundary o log) o (text log) r' id) demo_repl.
Proof.
  split; [exact demo_alone|].
  apply (replicas_follow_stream demo_config demo_repl_config (mret true) demo_held 0 demo_repl demo_events demo_alone demo_strings_shared demo_events_ok).
  - apply Z.leb_le. vm_compute. reflexivity.
  - apply Z.ltb_lt. vm_compute. reflexivity.
Defined.

(** Every one of them becomes a replica, the first in spite of its offset, and
    the others are given the error that it was. *)
Example demo_replicas : (fun '(r', _) => (slaves r', (fun p => (p.1, take 5 (cbuf (cout p.2)))) <$> map_to_list (clients r'))) <$>
    run demo_config demo_repl_config (mret true) demo_events demo_repl
  = Some ([3; 1; 2], [(3, str "-ERR "); (2, str "-ERR "); (1, str "-ERR ")]).
Proof. vm_compute. reflexivity. Qed.

Lemma demo_saves : saves_start demo_repl_config.
Proof. by intros k. Qed.

Example syncCommand_attaches_witness :
  admitted demo_config demo_repl_config demo_repl 1 /\
  wp (syncCommand demo_config demo_repl_config (mret true) 1) (fun _ r' => slaves r' = slaves demo_repl ++ [1] /\ feeding (bl r') 1 (text []) /\
    forall j, j ∈ slaves r' -> follows demo_config demo_repl_config False (boundary 1 []) 1 (text []) r' j) demo_repl.
Proof.
  assert (admitted demo_config demo_repl_config demo_repl 1) as Had by (split; [done|]; by intros c [argv ->]%demo_client_in).
  split; [exact Had|].
  assert (ready False demo_repl 1) as Hrd.
  { destruct (demo_ready 1) as (c & i & ys & Hc & Hi & Ht & Hl & Hs & (c' & Hc' & Ha) & _); [apply (bool_decide_unpack _); by vm_compute|].
    exists (demo_client [9]), demo_info, [str "SYNC"]. split_and!; try done; [exact (demo_asks 1 [(9, str "SYNC")] eq_refl ltac:(apply (bool_decide_unpack _); by vm_compute))|].
    left. by exists (str "SYNC"). }
  apply (syncCommand_attaches demo_config demo_repl_config (mret true) False demo_held (fun id => id = 1) 0 1 [] demo_repl 1).
  - apply (alone_sound demo_config demo_repl_config False demo_held (fun id => id = 1) 0 demo_repl).
    + destruct demo_alone as [B1 B2 B3 B4 B5 B6 B7]. constructor; try done. intros id ->. apply B6. apply (bool_decide_unpack _); by vm_compute.
    + by intros id ->.
  - exact Hrd.
  - apply Z.leb_le. vm_compute. reflexivity.
  - exact demo_saves.
  - exact Had.
Defined.

End ReplRun.
