(* ===== verification/Ae.v ===== *)
(** * The event loop (src/ae.c, src/ae.h, src/ae_epoll.c)

    File events are registered in an array by descriptor and with the kernel;
    time events are a linked list in a heap, the newest first.  The callbacks
    are arguments: they are programs on the same state. *)

From S2P Require Import Prelude Monad.
Import Monad.

Module Ae.

Abbreviation addr := Z (only parsing).

Definition AE_NONE : Z := 0.
Definition AE_READABLE : Z := 1.
Definition AE_WRITABLE : Z := 2.
Definition AE_FILE_EVENTS : Z := 1.
Definition AE_TIME_EVENTS : Z := 2.
Definition AE_ALL_EVENTS : Z := Z.lor AE_FILE_EVENTS AE_TIME_EVENTS.
Definition AE_DONT_WAIT : Z := 4.
Definition AE_NOMORE : Z := -1.
Definition AE_DELETED_EVENT_ID : Z := -1.

(** Of <sys/epoll.h>. *)
Definition EPOLLIN : Z := 1.
Definition EPOLLOUT : Z := 4.
Definition EPOLLERR : Z := 8.
Definition EPOLLHUP : Z := 16.
Definition EPOLL_CTL_ADD : Z := 1.
Definition EPOLL_CTL_DEL : Z := 2.
Definition EPOLL_CTL_MOD : Z := 3.

(** Functions and data of the client are numbers. *)
Record aeFileEvent := FileEvent { mask : Z; rfileProc : Z; wfileProc : Z; fclientData : Z }.

Record aeTimeEvent := TimeEvent {
  te_id : Z;
  when_sec : Z;
  when_ms : Z;
  timeProc : Z;
  finalizerProc : option Z;
  tclientData : Z;
  te_next : option addr
}.

(** [events_block] counts the blocks that [events] has had: a pointer into an
    old one is not valid any more.  [timers] is the heap of the time events. *)
Record aeEventLoop := EventLoop {
  maxfd : Z;
  setsize : Z;
  timeEventNextId : Z;
  lastTime : Z;
  events : list aeFileEvent;
  events_block : nat;
  fired : list (Z * Z);
  timeEventHead : option addr;
  timers : gmap addr aeTimeEvent;
  stop : bool;
  beforesleep : option Z
}.

(** What the system does: [epoll_ctl] with an operation, a descriptor and
    events says whether it succeeds, [epoll_wait] is given a number of events
    and a timeout and returns descriptors with events, none when it fails. *)
Class kernel (W : Type) := Kernel {
  epoll_ctl : Z -> Z -> Z -> W -> W * bool;
  epoll_wait : Z -> Z -> W -> W * list (Z * Z);
  gettimeofday : W -> W * (Z * Z);
  time : W -> W * Z
}.

(** [called] and [finalized] are traces, which the program does not keep, of
    the time events that were called and whose finalizers were. *)
Record aestate (W : Type) := AeState { el : aeEventLoop; wd : W; called : list Z; finalized : list Z }.
#[global] Arguments AeState {W} _ _ _ _.
#[global] Arguments el {W} _.
#[global] Arguments wd {W} _.
#[global] Arguments called {W} _.
#[global] Arguments finalized {W} _.

Section Ops.
Context {W : Type} {KW : kernel W}.
Context (alloc_timer : gset addr -> addr) (junk : nat -> aeFileEvent) (junk_fired : nat -> Z * Z).

Abbreviation M := (M (aestate W)).

(** The functions of the client. *)
Context (file_proc : Z -> Z -> Z -> Z -> M unit).
Context (time_proc : Z -> Z -> Z -> M Z).
Context (finalizer_proc : Z -> Z -> M unit).
Context (beforesleep_proc : Z -> M unit).

(** ** Access *)

Definition set_el (f : aeEventLoop -> aeEventLoop) (s : aestate W) : aestate W := AeState (f (el s)) (wd s) (called s) (finalized s).
Definition set_wd (w : W) (s : aestate W) : aestate W := AeState (el s) w (called s) (finalized s).
Definition log_call (id : Z) (s : aestate W) : aestate W := AeState (el s) (wd s) (called s ++ [id]) (finalized s).
Definition log_final (data : Z) (s : aestate W) : aestate W := AeState (el s) (wd s) (called s) (finalized s ++ [data]).

Definition set_maxfd (n : Z) (l : aeEventLoop) : aeEventLoop :=
  EventLoop n (setsize l) (timeEventNextId l) (lastTime l) (events l) (events_block l) (fired l) (timeEventHead l) (timers l) (stop l) (beforesleep l).
Definition set_nextid (n : Z) (l : aeEventLoop) : aeEventLoop :=
  EventLoop (maxfd l) (setsize l) n (lastTime l) (events l) (events_block l) (fired l) (timeEventHead l) (timers l) (stop l) (beforesleep l).
Definition set_lastTime (n : Z) (l : aeEventLoop) : aeEventLoop :=
  EventLoop (maxfd l) (setsize l) (timeEventNextId l) n (events l) (events_block l) (fired l) (timeEventHead l) (timers l) (stop l) (beforesleep l).
Definition set_events (f : list aeFileEvent -> list aeFileEvent) (l : aeEventLoop) : aeEventLoop :=
  EventLoop (maxfd l) (setsize l) (timeEventNextId l) (lastTime l) (f (events l)) (events_block l) (fired l) (timeEventHead l) (timers l) (stop l) (beforesleep l).
Definition set_fired (f : list (Z * Z) -> list (Z * Z)) (l : aeEventLoop) : aeEventLoop :=
  EventLoop (maxfd l) (setsize l) (timeEventNextId l) (lastTime l) (events l) (events_block l) (f (fired l)) (timeEventHead l) (timers l) (stop l) (beforesleep l).
Definition set_head (h : option addr) (l : aeEventLoop) : aeEventLoop :=
  EventLoop (maxfd l) (setsize l) (timeEventNextId l) (lastTime l) (events l) (events_block l) (fired l) h (timers l) (stop l) (beforesleep l).
Definition set_timers (f : gmap addr aeTimeEvent -> gmap addr aeTimeEvent) (l : aeEventLoop) : aeEventLoop :=
  EventLoop (maxfd l) (setsize l) (timeEventNextId l) (lastTime l) (events l) (events_block l) (fired l) (timeEventHead l) (f (timers l)) (stop l) (beforesleep l).
Definition set_stop (b : bool) (l : aeEventLoop) : aeEventLoop :=
  EventLoop (maxfd l) (setsize l) (timeEventNextId l) (lastTime l) (events l) (events_block l) (fired l) (timeEventHead l) (timers l) b (beforesleep l).

(** A system call. *)
Definition sys {A} (f : W -> W * A) : M A := s ← get; let '(w, a) := f (wd s) in _ ← modify (set_wd w); mret a.

(** [&eventLoop->events[fd]] read or written. *)
Definition event (fd : Z) : M aeFileEvent := s ← get; _ ← check (0 <=? fd); lift (events (el s) !! Z.to_nat fd).
Definition upd_event (fd : Z) (f : aeFileEvent -> aeFileEvent) : M unit :=
  fe ← event fd; modify (set_el (set_events (fun l => <[Z.to_nat fd := f fe]> l))).

(** The same through a pointer that was taken before. *)
Definition event_at (block : nat) (fd : Z) : M aeFileEvent :=
  s ← get; _ ← check (events_block (el s) =? block)%nat; event fd.

Definition timer (a : addr) : M aeTimeEvent := s ← get; lift (timers (el s) !! a).
Definition upd_timer (a : addr) (f : aeTimeEvent -> aeTimeEvent) : M unit :=
  te ← timer a; modify (set_el (set_timers (fun m => <[a := f te]> m))).

Definition set_id (id : Z) (te : aeTimeEvent) : aeTimeEvent :=
  TimeEvent id (when_sec te) (when_ms te) (timeProc te) (finalizerProc te) (tclientData te) (te_next te).
Definition set_when (sec ms : Z) (te : aeTimeEvent) : aeTimeEvent :=
  TimeEvent (te_id te) sec ms (timeProc te) (finalizerProc te) (tclientData te) (te_next te).
Definition set_next (n : option addr) (te : aeTimeEvent) : aeTimeEvent :=
  TimeEvent (te_id te) (when_sec te) (when_ms te) (timeProc te) (finalizerProc te) (tclientData te) n.

(** ** File events *)

(** The loop when nothing fails. *)
Definition aeCreateEventLoop (size : Z) (w : W) : aeEventLoop * W :=
  let '(w, now) := time w in
  let clear fe := FileEvent AE_NONE (rfileProc fe) (wfileProc fe) (fclientData fe) in
  (EventLoop (-1) size 0 now (clear <$> (junk <$> seq 0 (Z.to_nat size))) 0 (junk_fired <$> seq 0 (Z.to_nat size)) None ∅ false None, w).

Definition aeGetSetSize : M Z := s ← get; mret (setsize (el s)).

(** A block of [size] elements with the old content. *)
Definition realloc_events (size : nat) (l : list aeFileEvent) : list aeFileEvent :=
  take size l ++ (junk <$> seq (length l) (size - length l)).

Definition realloc_fired (size : nat) (l : list (Z * Z)) : list (Z * Z) :=
  take size l ++ (junk_fired <$> seq (length l) (size - length l)).

Definition clear_from (n : Z) (l : list aeFileEvent) : list aeFileEvent :=
  imap (fun i fe => if n <=? Z.of_nat i then FileEvent AE_NONE (rfileProc fe) (wfileProc fe) (fclientData fe) else fe) l.

(** [AE_OK] is [true]. *)
Definition aeResizeSetSize (size : Z) : M bool :=
  s ← get;
  let l := el s in
  if size =? setsize l then mret true
  else if maxfd l >=? size then mret false
  else
    _ ← modify (set_el (fun l =>
      EventLoop (maxfd l) size (timeEventNextId l) (lastTime l) (clear_from (maxfd l + 1) (realloc_events (Z.to_nat size) (events l)))
        (S (events_block l)) (realloc_fired (Z.to_nat size) (fired l)) (timeEventHead l) (timers l) (stop l) (beforesleep l)));
    mret true.

Definition aeStop : M unit := modify (set_el (set_stop true)).

Definition epoll_bits (m : Z) : Z :=
  Z.lor (if negb (Z.land m AE_READABLE =? 0) then EPOLLIN else 0) (if negb (Z.land m AE_WRITABLE =? 0) then EPOLLOUT else 0).

Definition aeApiAddEvent (fd m : Z) : M bool :=
  fe ← event fd;
  let op := if mask fe =? AE_NONE then EPOLL_CTL_ADD else EPOLL_CTL_MOD in
  let m := Z.lor m (mask fe) in
  sys (epoll_ctl op fd (epoll_bits m)).

Definition aeApiDelEvent (fd delmask : Z) : M unit :=
  fe ← event fd;
  let m := Z.land (mask fe) (Z.lnot delmask) in
  _ ← (if negb (m =? AE_NONE) then sys (epoll_ctl EPOLL_CTL_MOD fd (epoll_bits m)) else sys (epoll_ctl EPOLL_CTL_DEL fd (epoll_bits m)));
  skip.

Definition aeCreateFileEvent (fd m proc clientData : Z) : M bool :=
  s ← get;
  if fd >=? setsize (el s) then mret false
  else
    ok ← aeApiAddEvent fd m;
    if negb ok then mret false
    else
      _ ← upd_event fd (fun fe => FileEvent (Z.lor (mask fe) m)
        (if negb (Z.land m AE_READABLE =? 0) then proc else rfileProc fe)
        (if negb (Z.land m AE_WRITABLE =? 0) then proc else wfileProc fe) clientData);
      _ ← modify (set_el (fun l => if fd >? maxfd l then set_maxfd fd l else l));
      mret true.

(** The highest registered descriptor below [n], or -1. *)
Fixpoint scan_down (l : list aeFileEvent) (n : nat) : option Z :=
  match n with
  | O => Some (-1)
  | S j => fe ← l !! j; if negb (mask fe =? AE_NONE) then Some (Z.of_nat j) else scan_down l j
  end.

Definition aeDeleteFileEvent (fd m : Z) : M unit :=
  s ← get;
  if fd >=? setsize (el s) then skip
  else
    fe ← event fd;
    if mask fe =? AE_NONE then skip
    else
      _ ← aeApiDelEvent fd m;
      _ ← upd_event fd (fun fe => FileEvent (Z.land (mask fe) (Z.lnot m)) (rfileProc fe) (wfileProc fe) (fclientData fe));
      fe ← event fd;
      s ← get;
      if (fd =? maxfd (el s)) && (mask fe =? AE_NONE) then
        j ← lift (scan_down (events (el s)) (Z.to_nat (maxfd (el s))));
        modify (set_el (set_maxfd j))
      else skip.

Definition aeGetFileEvents (fd : Z) : M Z :=
  s ← get;
  if fd >=? setsize (el s) then mret 0 else fe ← event fd; mret (mask fe).

(** ** Time events *)

Definition aeGetTime : M (Z * Z) := '(sec, usec) ← sys gettimeofday; mret (sec, Z.quot usec 1000).

Definition aeAddMillisecondsToNow (milliseconds : Z) : M (Z * Z) :=
  '(cur_sec, cur_ms) ← aeGetTime;
  let sec := s64 (cur_sec + Z.quot milliseconds 1000) in
  let ms := s64 (cur_ms + Z.rem milliseconds 1000) in
  mret (if ms >=? 1000 then (s64 (sec + 1), s64 (ms - 1000)) else (sec, ms)).

Definition aeCreateTimeEvent (milliseconds proc clientData : Z) (finalizer : option Z) : M Z :=
  s ← get;
  let id := timeEventNextId (el s) in
  _ ← modify (set_el (set_nextid (s64 (id + 1))));
  '(sec, ms) ← aeAddMillisecondsToNow milliseconds;
  s ← get;
  let a := alloc_timer (dom (timers (el s))) in
  let te := TimeEvent id sec ms proc finalizer clientData (timeEventHead (el s)) in
  _ ← modify (set_el (fun l => set_head (Some a) (set_timers (fun m => <[a := te]> m) l)));
  mret id.

(** A walk along the list needs no more steps than there are elements. *)
Definition fuel_for (l : aeEventLoop) : nat := S (size (timers l)).

Fixpoint delete_loop (fuel : nat) (te : option addr) (id : Z) : M bool :=
  match te with
  | None => mret false
  | Some a =>
    match fuel with
    | O => fail
    | S fuel =>
      e ← timer a;
      if te_id e =? id then _ ← upd_timer a (set_id AE_DELETED_EVENT_ID); mret true
      else delete_loop fuel (te_next e) id
    end
  end.

Definition aeDeleteTimeEvent (id : Z) : M bool := s ← get; delete_loop (fuel_for (el s)) (timeEventHead (el s)) id.

Definition earlier (e f : aeTimeEvent) : bool :=
  (when_sec e <? when_sec f) || ((when_sec e =? when_sec f) && (when_ms e <? when_ms f)).

Fixpoint nearest_loop (fuel : nat) (te : option addr) (nearest : option aeTimeEvent) : M (option aeTimeEvent) :=
  match te with
  | None => mret nearest
  | Some a =>
    match fuel with
    | O => fail
    | S fuel =>
      e ← timer a;
      nearest_loop fuel (te_next e) (match nearest with None => Some e | Some n => if earlier e n then Some e else nearest end)
    end
  end.

Definition aeSearchNearestTimer : M (option aeTimeEvent) :=
  s ← get; nearest_loop (fuel_for (el s)) (timeEventHead (el s)) None.

Fixpoint zero_loop (fuel : nat) (te : option addr) : M unit :=
  match te with
  | None => skip
  | Some a =>
    match fuel with
    | O => fail
    | S fuel => e ← timer a; _ ← upd_timer a (set_when 0 (when_ms e)); zero_loop fuel (te_next e)
    end
  end.

(** One event that is due: it is called, and given a new time or marked. *)
Definition fire (a : addr) : M unit :=
  e ← timer a;
  _ ← modify (log_call (te_id e));
  retval ← time_proc (timeProc e) (te_id e) (tclientData e);
  if negb (retval =? AE_NOMORE) then '(sec, ms) ← aeAddMillisecondsToNow retval; upd_timer a (set_when sec ms)
  else upd_timer a (set_id AE_DELETED_EVENT_ID).

(** An event that was marked is taken out and freed. *)
Definition unlink (prev : option addr) (a : addr) : M (option addr) :=
  e ← timer a;
  let next := te_next e in
  _ ← (match prev with
    | None => modify (set_el (set_head next))
    | Some p => upd_timer p (set_next next)
    end);
  _ ← (match finalizerProc e with
    | Some f => _ ← modify (log_final (tclientData e)); finalizer_proc f (tclientData e)
    | None => skip
    end);
  _ ← modify (set_el (set_timers (delete a)));
  mret next.

Definition due (e : aeTimeEvent) (now_sec now_ms : Z) : bool :=
  (now_sec >? when_sec e) || ((now_sec =? when_sec e) && (now_ms >=? when_ms e)).

Fixpoint process_loop (fuel : nat) (prev te : option addr) (maxId processed : Z) : M Z :=
  match te with
  | None => mret processed
  | Some a =>
    match fuel with
    | O => fail
    | S fuel =>
      e ← timer a;
      if te_id e =? AE_DELETED_EVENT_ID then next ← unlink prev a; process_loop fuel prev next maxId processed
      else if te_id e >? maxId then process_loop fuel prev (te_next e) maxId processed
      else
        '(now_sec, now_ms) ← aeGetTime;
        n ← (if due e now_sec now_ms then _ ← fire a; mret (processed + 1) else mret processed);
        e ← timer a;
        process_loop fuel (Some a) (te_next e) maxId n
    end
  end.

Definition processTimeEvents : M Z :=
  now ← sys time;
  s ← get;
  _ ← (if now <? lastTime (el s) then zero_loop (fuel_for (el s)) (timeEventHead (el s)) else skip);
  _ ← modify (set_el (set_lastTime now));
  s ← get;
  process_loop (fuel_for (el s)) None (timeEventHead (el s)) (s64 (timeEventNextId (el s) - 1)) 0.

(** ** The loop *)

(** [struct timeval], or no pointer. *)
Definition poll_timeout (flags : Z) : M (option (Z * Z)) :=
  shortest ← (if negb (Z.land flags AE_TIME_EVENTS =? 0) && (Z.land flags AE_DONT_WAIT =? 0) then aeSearchNearestTimer else mret None);
  match shortest with
  | Some e =>
    '(now_sec, now_ms) ← aeGetTime;
    let ms := s64 (s64 (s64 (s64 (when_sec e - now_sec) * 1000) + when_ms e) - now_ms) in
    mret (Some (if ms >? 0 then (Z.quot ms 1000, Z.rem ms 1000 * 1000) else (0, 0)))
  | None => mret (if negb (Z.land flags AE_DONT_WAIT =? 0) then Some (0, 0) else None)
  end.

Definition fired_mask (ev : Z) : Z :=
  let bit e m := if negb (Z.land ev e =? 0) then m else 0 in
  Z.lor (Z.lor (bit EPOLLIN AE_READABLE) (bit EPOLLOUT AE_WRITABLE)) (Z.lor (bit EPOLLERR AE_WRITABLE) (bit EPOLLHUP AE_WRITABLE)).

(** The timeout of [epoll_wait] is an [int]. *)
Definition aeApiPoll (tvp : option (Z * Z)) : M nat :=
  s ← get;
  let timeout := match tvp with Some (sec, usec) => s32 (sec * 1000 + Z.quot usec 1000) | None => -1 end in
  evs ← sys (epoll_wait (setsize (el s)) timeout);
  let n := length evs in
  _ ← check (n <=? length (fired (el s)))%nat;
  _ ← modify (set_el (set_fired (fun l => ((fun '(fd, ev) => (fd, fired_mask ev)) <$> evs) ++ drop n l)));
  mret n.

(** The event that fired under an index; [fe->mask & mask & AE_READABLE] is
    tested on the element as it is then. *)
Definition handle (j : nat) : M unit :=
  s ← get;
  '(fd, m) ← lift (fired (el s) !! j);
  let block := events_block (el s) in
  fe ← event_at block fd;
  let rfired := negb (Z.land (Z.land (mask fe) m) AE_READABLE =? 0) in
  _ ← (if rfired then file_proc (rfileProc fe) fd (fclientData fe) m else skip);
  fe ← event_at block fd;
  if negb (Z.land (Z.land (mask fe) m) AE_WRITABLE =? 0) && (negb rfired || negb (wfileProc fe =? rfileProc fe))
  then file_proc (wfileProc fe) fd (fclientData fe) m else skip.

Definition aeProcessEvents (flags : Z) : M Z :=
  if (Z.land flags AE_TIME_EVENTS =? 0) && (Z.land flags AE_FILE_EVENTS =? 0) then mret 0
  else
    s ← get;
    n ← (if negb (maxfd (el s) =? -1) || (negb (Z.land flags AE_TIME_EVENTS =? 0) && (Z.land flags AE_DONT_WAIT =? 0)) then
        tvp ← poll_timeout flags;
        numevents ← aeApiPoll tvp;
        _ ← for_each (seq 0 numevents) handle;
        mret (Z.of_nat numevents)
      else mret 0);
    if negb (Z.land flags AE_TIME_EVENTS =? 0) then k ← processTimeEvents; mret (n + k) else mret n.

(** [fuel] rounds are not exceeded; there is no bound on them in the code. *)
Fixpoint main_loop (fuel : nat) : M unit :=
  s ← get;
  if stop (el s) then skip
  else
    match fuel with
    | O => fail
    | S fuel =>
      _ ← (match beforesleep (el s) with Some f => beforesleep_proc f | None => skip end);
      _ ← aeProcessEvents AE_ALL_EVENTS;
      main_loop fuel
    end.

Definition aeMain (fuel : nat) : M unit := _ ← modify (set_el (set_stop false)); main_loop fuel.

Definition aeSetBeforeSleepProc (f : Z) : M unit :=
  modify (set_el (fun l => EventLoop (maxfd l) (setsize l) (timeEventNextId l) (lastTime l) (events l) (events_block l) (fired l) (timeEventHead l) (timers l) (stop l) (Some f))).

End Ops.
End Ae.
