(* ===== verification/AeSpec.v ===== *)
(** * The event loop: registrations (src/ae.c, src/ae_epoll.c)

    The array of file events, the highest descriptor and what the kernel was
    told agree with a map from descriptors to events, whatever is registered,
    deleted and resized. *)

From S2P Require Import Prelude Monad Ae.
Import Monad Ae.

Module AeSpec.

(** What is relied on of the system: a call that fails changes nothing, one
    that changes or deletes what is there succeeds, only what was asked for is
    reported, the clock, in milliseconds, does not go back. *)
Class kernel_laws (W : Type) `{KW : kernel W} := KernelLaws {
  interest : W -> gmap Z Z;
  clock : W -> Z;
  ctl_add : forall fd ev w, (epoll_ctl EPOLL_CTL_ADD fd ev w).2 = true -> interest (epoll_ctl EPOLL_CTL_ADD fd ev w).1 = <[fd := ev]> (interest w);
  ctl_fails : forall op fd ev w, (epoll_ctl op fd ev w).2 = false -> interest (epoll_ctl op fd ev w).1 = interest w;
  ctl_mod : forall fd ev w, is_Some (interest w !! fd) ->
    (epoll_ctl EPOLL_CTL_MOD fd ev w).2 = true /\ interest (epoll_ctl EPOLL_CTL_MOD fd ev w).1 = <[fd := ev]> (interest w);
  ctl_del : forall fd ev w, is_Some (interest w !! fd) ->
    (epoll_ctl EPOLL_CTL_DEL fd ev w).2 = true /\ interest (epoll_ctl EPOLL_CTL_DEL fd ev w).1 = delete fd (interest w);
  wait_interest : forall n t w, interest (epoll_wait n t w).1 = interest w;
  wait_length : forall n t w, (length (epoll_wait n t w).2 <= Z.to_nat n)%nat;
  wait_reports : forall n t w fd ev, (fd, ev) ∈ (epoll_wait n t w).2 -> is_Some (interest w !! fd);
  clock_reads : forall w, let '(w', (sec, usec)) := gettimeofday w in
    clock w <= sec * 1000 + Z.quot usec 1000 <= clock w' /\ 0 <= usec < 1000000 /\ 0 < sec < 2 ^ 40;
  time_reads : forall w, clock w <= clock (time w).1;
  clock_after_1970 : forall w, 1000 <= clock w
}.

Section Spec.
Context {W : Type} `{KL : kernel_laws W}.
Context (junk : nat -> aeFileEvent) (junk_fired : nat -> Z * Z).

Abbreviation aestate := (aestate W).
Implicit Types (s : aestate) (fd m : Z) (fe f : aeFileEvent).

(** ** Registrations *)

(** What a registration says: a function for each kind of event that is
    waited for, and the data. *)
Definition same_event fe f : Prop :=
  mask fe = mask f /\ (Z.land (mask f) AE_READABLE <> 0 -> rfileProc fe = rfileProc f) /\
  (Z.land (mask f) AE_WRITABLE <> 0 -> wfileProc fe = wfileProc f) /\ fclientData fe = fclientData f.

Definition is_mask m : Prop := m = 1 \/ m = 2 \/ m = 3.

Lemma same_event_refl fe : same_event fe fe.
Proof. by split_and!. Qed.

Definition slot_ok (r : gmap Z aeFileEvent) (i : nat) fe : Prop :=
  match r !! Z.of_nat i with Some f => is_mask (mask f) /\ same_event fe f | None => mask fe = AE_NONE end.

Definition top (r : gmap Z aeFileEvent) (n : Z) : Prop :=
  (n = -1 \/ is_Some (r !! n)) /\ forall fd, is_Some (r !! fd) -> 0 <= fd <= n.

(** The loop has the registrations [r]. *)
Record registered (r : gmap Z aeFileEvent) s : Prop := Registered {
  rg_size : Z.of_nat (length (events (el s))) = setsize (el s);
  rg_fired : Z.of_nat (length (fired (el s))) = setsize (el s);
  rg_slots : forall i fe, events (el s) !! i = Some fe -> slot_ok r i fe;
  rg_bound : forall fd, is_Some (r !! fd) -> fd < setsize (el s);
  rg_top : top r (maxfd (el s));
  rg_kernel : interest (wd s) = (fun f => epoll_bits (mask f)) <$> r
}.

(** The arrays are the same blocks, and nothing else was reported. *)
Definition calm s s' : Prop :=
  setsize (el s') = setsize (el s) /\ events_block (el s') = events_block (el s) /\ fired (el s') = fired (el s).

Lemma calm_refl s : calm s s.
Proof. by split_and!. Qed.

Lemma registered_wd r s w : registered r s -> interest w = interest (wd s) -> registered r (set_wd w s).
Proof. intros [H1 H2 H3 H4 H5 H6] Hw. constructor; try done. cbn. by rewrite Hw. Qed.

Lemma slot_wp fd r s (Q : aeFileEvent -> aestate -> Prop) :
  registered r s -> 0 <= fd < setsize (el s) -> (forall fe, events (el s) !! Z.to_nat fd = Some fe -> slot_ok r (Z.to_nat fd) fe -> Q fe s) -> wp (event fd) Q s.
Proof.
  intros H Hfd HQ. unfold event. wp_step. apply wp_bind, wp_check; [lia|]. destruct (events (el s) !! Z.to_nat fd) as [fe|] eqn:E.
  - eapply wp_lift; [done|]. apply HQ; [done|by apply (rg_slots _ _ H)].
  - apply lookup_ge_None in E. pose proof (rg_size _ _ H). lia.
Qed.

Lemma slot_at r fd fe : 0 <= fd -> slot_ok r (Z.to_nat fd) fe ->
  match r !! fd with Some f => is_mask (mask f) /\ same_event fe f | None => mask fe = AE_NONE end.
Proof. intros Hfd. unfold slot_ok. by rewrite Z2Nat.id. Qed.

Lemma mask_pos m : is_mask m -> (m =? AE_NONE) = false.
Proof. by intros [->|[->| ->]]. Qed.

Lemma mask_lor m m' : is_mask m -> is_mask m' \/ m' = 0 -> is_mask (Z.lor m m').
Proof. unfold is_mask. intros [->|[->| ->]] [[->|[->| ->]]| ->]; cbn; tauto. Qed.

(** The registration that [aeCreateFileEvent] makes. *)
Definition no_event : aeFileEvent := FileEvent AE_NONE 0 0 0.

Definition added fd m proc data (r : gmap Z aeFileEvent) : aeFileEvent :=
  let f := default no_event (r !! fd) in
  FileEvent (Z.lor (mask f) m) (if negb (Z.land m AE_READABLE =? 0) then proc else rfileProc f)
    (if negb (Z.land m AE_WRITABLE =? 0) then proc else wfileProc f) data.

Lemma same_added fd m proc data r fe : 0 <= fd -> slot_ok r (Z.to_nat fd) fe -> is_mask m ->
  is_mask (mask (added fd m proc data r)) /\
  same_event (FileEvent (Z.lor (mask fe) m) (if negb (Z.land m AE_READABLE =? 0) then proc else rfileProc fe)
    (if negb (Z.land m AE_WRITABLE =? 0) then proc else wfileProc fe) data) (added fd m proc data r).
Proof.
  intros Hfd Hs Hm. apply (slot_at r fd fe Hfd) in Hs. unfold added. destruct (r !! fd) as [f|]; cbn [default].
  - destruct Hs as [Hf (E1 & E2 & E3 & E4)]. split; [apply mask_lor; [done|by left]|]. unfold same_event. cbn [mask rfileProc wfileProc fclientData].
    rewrite E1. split_and!; try done; rewrite Z.land_lor_distr_l; destruct (Z.eqb_spec (Z.land m AE_READABLE) 0) as [Er|], (Z.eqb_spec (Z.land m AE_WRITABLE) 0) as [Ew|];
      cbn [negb]; rewrite ?Er, ?Ew, ?Z.lor_0_r; auto.
  - rewrite Hs. unfold AE_NONE, same_event. cbn [mask rfileProc wfileProc fclientData no_event]. unfold AE_NONE. rewrite Z.lor_0_l. split; [exact Hm|].
    split_and!; try done; intros Hb; by rewrite (proj2 (Z.eqb_neq _ _) Hb).
Qed.

Lemma sys_wp {A} (f : W -> W * A) s (Q : A -> aestate -> Prop) : Q (f (wd s)).2 (set_wd (f (wd s)).1 s) -> wp (sys f) Q s.
Proof. intros HQ. unfold sys. wp_step. destruct (f (wd s)) as [w a]. wp_step. by apply wp_ret. Qed.

(** ** Registering *)

Lemma insert_slots r s fd (f fe : aeFileEvent) : registered r s -> 0 <= fd < setsize (el s) -> is_mask (mask f) -> same_event fe f ->
  forall i e, <[Z.to_nat fd := fe]> (events (el s)) !! i = Some e -> slot_ok (<[fd := f]> r) i e.
Proof.
  intros H Hfd Hm Hs i e Hi. unfold slot_ok. destruct (decide (i = Z.to_nat fd)) as [->|Hne].
  - rewrite list_lookup_insert_eq in Hi by (pose proof (rg_size _ _ H); lia). injection Hi as <-. by rewrite Z2Nat.id, lookup_insert_eq by lia.
  - rewrite list_lookup_insert_ne in Hi by done. rewrite lookup_insert_ne by lia. by apply (rg_slots _ _ H).
Qed.

Lemma top_insert r fd n f : top r n -> 0 <= fd -> top (<[fd := f]> r) (if fd >? n then fd else n).
Proof.
  intros [Hn Hr] Hfd. split.
  - rewrite Z.gtb_ltb. destruct (Z.ltb_spec n fd); [right; rewrite lookup_insert_eq; by eexists|]. right. rewrite lookup_insert_is_Some.
    destruct (decide (fd = n)); [by left|right; split; [done|]]. destruct Hn as [->|Hn]; [lia|done].
  - intros j Hj. rewrite Z.gtb_ltb. rewrite lookup_insert_is_Some in Hj. destruct Hj as [<-|[Hne Hj]].
    + destruct (Z.ltb_spec n fd); lia.
    + specialize (Hr j Hj). destruct (Z.ltb_spec n fd); lia.
Qed.

Lemma kernel_takes r s fd f fe m op : registered r s -> 0 <= fd -> slot_ok r (Z.to_nat fd) fe ->
  op = (if mask fe =? AE_NONE then EPOLL_CTL_ADD else EPOLL_CTL_MOD) -> mask f = m ->
  let res := epoll_ctl op fd (epoll_bits m) (wd s) in
  if res.2 then interest res.1 = (fun f => epoll_bits (mask f)) <$> <[fd := f]> r else interest res.1 = interest (wd s).
Proof.
  intros H Hfd Hs -> Hm res. destruct res.2 eqn:E; [|by apply ctl_fails]. rewrite fmap_insert, Hm, <- (rg_kernel _ _ H).
  apply (slot_at r fd fe Hfd) in Hs. unfold res in *. destruct (r !! fd) as [g|] eqn:Eg.
  - destruct Hs as [Hg (E1 & _)]. rewrite E1, (mask_pos _ Hg) in *. apply ctl_mod. rewrite (rg_kernel _ _ H), lookup_fmap, Eg. by eexists.
  - rewrite Hs in *. by apply ctl_add.
Qed.

Lemma aeCreateFileEvent_wp r s fd m proc data : registered r s -> 0 <= fd -> is_mask m ->
  wp (aeCreateFileEvent fd m proc data) (fun ok s' => calm s s' /\
    if (ok : bool) then fd < setsize (el s) /\ registered (<[fd := added fd m proc data r]> r) s'
    else (setsize (el s) <= fd \/ r !! fd = None) /\ registered r s') s.
Proof.
  intros H Hfd Hm. unfold aeCreateFileEvent. wp_step. rewrite Z.geb_leb. destruct (Z.leb_spec (setsize (el s)) fd) as [E|E]; [apply wp_ret; split; [apply calm_refl|auto]|].
  apply wp_bind. unfold aeApiAddEvent. apply wp_bind. eapply slot_wp; [exact H|lia|]. intros fe Ef Hs. cbn zeta. apply sys_wp.
  destruct (same_added fd m proc data r fe Hfd Hs Hm) as [Hma Hsame]. set (f := added fd m proc data r) in *.
  assert (mask f = Z.lor m (mask fe)) as Em by (rewrite Z.lor_comm; symmetry; exact (proj1 Hsame)).
  pose proof (kernel_takes r s fd f fe _ _ H Hfd Hs eq_refl Em) as Hk. cbn zeta in Hk.
  destruct (epoll_ctl _ fd _ (wd s)).2 eqn:Hr; cbn [negb].
  2: { apply wp_ret. split; [by split_and!|]. split; [|by apply (registered_wd r s)]. right. destruct (r !! fd) as [g|] eqn:Eg; [|done].
    exfalso. apply (slot_at r fd fe Hfd) in Hs. rewrite Eg in Hs. destruct Hs as [Hg (E1 & _)]. rewrite E1, (mask_pos _ Hg) in Hr.
    destruct (ctl_mod fd (epoll_bits (Z.lor m (mask g))) (wd s)) as [Hy _]; [rewrite (rg_kernel _ _ H), lookup_fmap, Eg; by eexists|]. congruence. }
  apply wp_bind. unfold upd_event, event. apply wp_bind. wp_step. apply wp_bind, wp_check; [lia|]. eapply wp_lift; [exact Ef|]. wp_step. wp_step. apply wp_ret.
  split; [unfold calm; cbn; by destruct (_ >? _)|]. split; [done|].
  pose proof (insert_slots r s fd f _ H ltac:(lia) Hma Hsame) as Hslots. pose proof (top_insert r fd _ f (rg_top _ _ H) Hfd) as Htop.
  constructor; cbn.
  - assert (Z.of_nat (length (events (el s))) = setsize (el s)) by apply H. destruct (_ >? _); cbn; by rewrite length_insert.
  - destruct (_ >? _); apply H.
  - destruct (_ >? _); cbn; exact Hslots.
  - intros j. rewrite lookup_insert_is_Some. intros [<-|[_ Hj]]; [destruct (_ >? _); cbn; lia|]. pose proof (rg_bound _ _ H j Hj). destruct (_ >? _); cbn; lia.
  - destruct (fd >? maxfd (el s)); cbn; exact Htop.
  - exact Hk.
Qed.

(** ** Deleting *)

Definition with_mask k fe : aeFileEvent := FileEvent k (rfileProc fe) (wfileProc fe) (fclientData fe).

Definition removed fd m (r : gmap Z aeFileEvent) : gmap Z aeFileEvent :=
  match r !! fd with
  | Some f => let k := Z.land (mask f) (Z.lnot m) in if k =? 0 then delete fd r else <[fd := with_mask k f]> r
  | None => r
  end.

Lemma mask_land m m' : is_mask m -> is_mask m' -> is_mask (Z.land m (Z.lnot m')) \/ Z.land m (Z.lnot m') = 0.
Proof. unfold is_mask. intros [->|[->| ->]] [->|[->| ->]]; cbn; tauto. Qed.

Lemma land_bit m k b : Z.land (Z.land m (Z.lnot k)) b <> 0 -> Z.land m b <> 0.
Proof. intros H E. apply H. by rewrite <- Z.land_assoc, (Z.land_comm (Z.lnot k)), Z.land_assoc, E. Qed.

Lemma same_with_mask k fe f : same_event fe f -> (forall b, Z.land k b <> 0 -> Z.land (mask f) b <> 0) -> same_event (with_mask k fe) (with_mask k f).
Proof. intros (E1 & E2 & E3 & E4) Hb. unfold same_event. cbn. split_and!; auto. Qed.

(** The slots after the mask of [fd] became [k]. *)
Lemma removed_slots r s fd k (fe f : aeFileEvent) : registered r s -> 0 <= fd < setsize (el s) -> r !! fd = Some f -> same_event fe f ->
  is_mask k \/ k = 0 -> (forall b, Z.land k b <> 0 -> Z.land (mask f) b <> 0) ->
  forall i e, <[Z.to_nat fd := with_mask k fe]> (events (el s)) !! i = Some e ->
    slot_ok (if k =? 0 then delete fd r else <[fd := with_mask k f]> r) i e.
Proof.
  intros H Hfd Hr Hs Hk Hb i e Hi. destruct (Z.eqb_spec k 0) as [->|Hne].
  - unfold slot_ok. destruct (decide (i = Z.to_nat fd)) as [->|Hi'].
    + rewrite list_lookup_insert_eq in Hi by (pose proof (rg_size _ _ H); lia). injection Hi as <-. by rewrite Z2Nat.id, lookup_delete_eq by lia.
    + rewrite list_lookup_insert_ne in Hi by done. rewrite lookup_delete_ne by lia. by apply (rg_slots _ _ H).
  - destruct Hk as [Hk|]; [|done]. apply (insert_slots r s fd (with_mask k f) (with_mask k fe)); try done. by apply same_with_mask.
Qed.

Lemma scan_down_top (r : gmap Z aeFileEvent) (es : list aeFileEvent) : (forall i e, es !! i = Some e -> slot_ok r i e) ->
  forall n, (n <= length es)%nat -> (forall fd, is_Some (r !! fd) -> 0 <= fd < Z.of_nat n) -> exists j, scan_down es n = Some j /\ top r j.
Proof.
  intros Hs. induction n as [|n IH]; intros Hn Hr.
  - exists (-1). split; [done|]. split; [by left|]. intros fd Hfd. specialize (Hr fd Hfd). lia.
  - cbn [scan_down]. destruct (es !! n) as [fe|] eqn:E; [|apply lookup_ge_None in E; lia]. cbn. specialize (Hs n fe E). unfold slot_ok in Hs.
    destruct (r !! Z.of_nat n) as [f|] eqn:Ef.
    + destruct Hs as [Hm (E1 & _)]. rewrite E1, (mask_pos _ Hm). cbn. exists (Z.of_nat n). split; [done|]. split; [right; by eexists|].
      intros fd Hfd. specialize (Hr fd Hfd). lia.
    + rewrite Hs. cbn. apply IH; [lia|]. intros fd Hfd. specialize (Hr fd Hfd). assert (fd <> Z.of_nat n) by (intros ->; destruct Hfd as [? Hfd]; congruence). lia.
Qed.

Lemma top_overwrite r fd n f : top r n -> is_Some (r !! fd) -> top (<[fd := f]> r) n.
Proof.
  intros [Hn Hr] Hfd. split.
  - destruct Hn as [->|Hn]; [by left|right]. rewrite lookup_insert_is_Some. destruct (decide (fd = n)); auto.
  - intros j. rewrite lookup_insert_is_Some. intros [<-|[_ Hj]]; auto.
Qed.

Lemma top_delete r fd n : top r n -> fd <> n -> top (delete fd r) n.
Proof.
  intros [Hn Hr] Hne. split.
  - destruct Hn as [->|Hn]; [by left|right]. by rewrite lookup_delete_ne.
  - intros j. rewrite lookup_delete_is_Some. intros [_ Hj]. auto.
Qed.

Lemma aeApiDelEvent_wp r s fd m f : registered r s -> 0 <= fd < setsize (el s) -> r !! fd = Some f -> is_mask m ->
  wp (aeApiDelEvent fd m) (fun _ s' => exists w, s' = set_wd w s /\ interest w = (fun f => epoll_bits (mask f)) <$> removed fd m r) s.
Proof.
  intros H Hfd Hr Hm. unfold aeApiDelEvent. apply wp_bind. eapply slot_wp; [done..|]. intros fe _ Hs. apply slot_at in Hs; [|lia]. rewrite Hr in Hs.
  destruct Hs as [Hf (E1 & _)]. cbn zeta. rewrite E1. set (k := Z.land (mask f) (Z.lnot m)).
  assert (is_Some (interest (wd s) !! fd)) as Hi by (rewrite (rg_kernel _ _ H), lookup_fmap, Hr; by eexists).
  unfold removed. rewrite Hr. fold k. change (k =? AE_NONE) with (k =? 0). apply wp_bind. destruct (k =? 0); cbn [negb]; apply sys_wp; wp_step; eexists; (split; [done|]).
  - rewrite fmap_delete, <- (rg_kernel _ _ H). by apply ctl_del.
  - rewrite fmap_insert, <- (rg_kernel _ _ H). by apply ctl_mod.
Qed.

(** The loop after a slot and the kernel were changed; [maxfd] is still to be set. *)
Definition set_slot fd fe w s : aestate := set_el (set_events (fun es => <[Z.to_nat fd := fe]> es)) (set_wd w s).

Lemma registered_removed r s fd m f fe w n : registered r s -> 0 <= fd < setsize (el s) -> r !! fd = Some f -> is_mask m -> same_event fe f ->
  interest w = (fun f => epoll_bits (mask f)) <$> removed fd m r -> top (removed fd m r) n ->
  registered (removed fd m r) (set_el (set_maxfd n) (set_slot fd (with_mask (Z.land (mask f) (Z.lnot m)) fe) w s)).
Proof.
  intros H Hfd Hr Hm Hs Hw Hn. set (k := Z.land (mask f) (Z.lnot m)).
  assert (is_mask (mask f)) as Hf.
  { pose proof (rg_size _ _ H). destruct (events (el s) !! Z.to_nat fd) as [e|] eqn:E; [|apply lookup_ge_None in E; lia].
    apply (rg_slots _ _ H) in E. apply slot_at in E; [|lia]. rewrite Hr in E. apply E. }
  constructor; cbn.
  - rewrite length_insert. apply H.
  - apply H.
  - unfold removed. rewrite Hr. apply (removed_slots r s fd k fe f); try done; [by apply mask_land|]. apply land_bit.
  - intros j Hj. apply H. revert Hj. unfold removed. rewrite Hr. destruct (_ =? 0).
    + rewrite lookup_delete_is_Some. by intros [_ ?].
    + rewrite lookup_insert_is_Some. intros [<-|[_ ?]]; [by eexists|done].
  - exact Hn.
  - exact Hw.
Qed.

Lemma set_maxfd_same s : set_el (set_maxfd (maxfd (el s))) s = s.
Proof. by destruct s as [[]]. Qed.

Lemma aeDeleteFileEvent_wp r s fd m : registered r s -> 0 <= fd -> is_mask m ->
  wp (aeDeleteFileEvent fd m) (fun _ s' => calm s s' /\ registered (removed fd m r) s') s.
Proof.
  intros H Hfd Hm. unfold aeDeleteFileEvent. wp_step. rewrite Z.geb_leb.
  assert (r !! fd = None -> removed fd m r = r) as Hno by (unfold removed; by intros ->).
  destruct (Z.leb_spec (setsize (el s)) fd) as [E|E].
  { apply wp_skip. split; [by split_and!|]. rewrite Hno; [done|]. destruct (r !! fd) eqn:Er; [|done]. pose proof (rg_bound _ _ H fd ltac:(by eexists)). lia. }
  apply wp_bind. eapply slot_wp; [exact H|lia|]. intros fe Ef Hs. apply slot_at in Hs; [|lia]. destruct (r !! fd) as [f|] eqn:Er.
  2: { rewrite Hs. cbn. apply wp_skip. split; [by split_and!|]. by rewrite Hno. }
  destruct Hs as [Hf Hs]. assert (mask fe = mask f) as E1 by apply Hs. rewrite E1, (mask_pos _ Hf).
  wp_use (aeApiDelEvent_wp r s fd m f H ltac:(lia) Er Hm). intros _ s1 (w & -> & Hw).
  set (fe' := with_mask (Z.land (mask f) (Z.lnot m)) fe). apply wp_bind. unfold upd_event at 1, event at 1. apply wp_bind. wp_step. apply wp_bind, wp_check; [lia|].
  eapply wp_lift; [exact Ef|]. wp_step. rewrite E1. change (set_el _ _) with (set_slot fd fe' w s).
  assert (events (el (set_slot fd fe' w s)) !! Z.to_nat fd = Some fe') as Ef'.
  { cbn. rewrite list_lookup_insert_eq; [done|]. pose proof (rg_size _ _ H). lia. }
  apply wp_bind. unfold event. wp_step. apply wp_bind, wp_check; [lia|]. eapply wp_lift; [exact Ef'|]. wp_step. change (mask fe') with (Z.land (mask f) (Z.lnot m)).
  change (maxfd (el (set_slot fd fe' w s))) with (maxfd (el s)).
  destruct (andb _ _) eqn:Eb.
  - apply andb_true_iff in Eb. destruct Eb as [Efd Ek]. apply Z.eqb_eq in Efd. change AE_NONE with 0 in Ek.
    assert (removed fd m r = delete fd r) as Hrm by (unfold removed; by rewrite Er, Ek).
    destruct (scan_down_top (removed fd m r) (events (el (set_slot fd fe' w s)))) with (n := Z.to_nat (maxfd (el s))) as (j & Ej & Hj).
    { intros i e Hi. unfold removed. rewrite Er. apply (removed_slots r s fd _ fe f); try done; [lia|intros b; apply land_bit]. }
    { cbn. rewrite length_insert. pose proof (rg_size _ _ H). lia. }
    { rewrite Hrm. intros j. rewrite lookup_delete_is_Some. intros [Hne Hj]. pose proof (proj2 (rg_top _ _ H) j Hj). lia. }
    apply wp_bind. eapply wp_lift; [exact Ej|]. wp_step. split; [by split_and!|]. by apply (registered_removed r s fd m f fe w j H ltac:(lia) Er Hm Hs Hw).
  - apply wp_skip. split; [by split_and!|]. rewrite <- (set_maxfd_same (set_slot fd fe' w s)). apply (registered_removed r s fd m f fe w _ H ltac:(lia) Er Hm Hs Hw).
    change (maxfd _) with (maxfd (el s)). unfold removed. rewrite Er. apply andb_false_iff in Eb. change AE_NONE with 0 in Eb. destruct (_ =? 0) eqn:Ek.
    + destruct Eb as [Eb|?]; [|done]. apply top_delete; [apply H|]. lia.
    + apply top_overwrite; [apply H|by eexists].
Qed.

(** ** Resizing, and a new loop *)

Lemma length_realloc {A} (l : list A) (g : nat -> A) n : length (take n l ++ (g <$> seq (length l) (n - length l))) = n.
Proof. rewrite length_app, length_take, length_fmap, length_seq. lia. Qed.

Lemma clear_from_lookup n (es : list aeFileEvent) i e : clear_from n es !! i = Some e ->
  exists e0, es !! i = Some e0 /\ e = (if n <=? Z.of_nat i then with_mask AE_NONE e0 else e0).
Proof. unfold clear_from. rewrite list_lookup_imap. destruct (es !! i) as [e0|]; [|done]. cbn. intros [= <-]. by exists e0. Qed.

Lemma aeResizeSetSize_wp r s n : registered r s -> 0 < n ->
  wp (aeResizeSetSize junk junk_fired n) (fun ok s' => registered r s' /\
    if (ok : bool) then setsize (el s') = n /\ (forall fd, is_Some (r !! fd) -> fd < n)
    else setsize (el s') = setsize (el s) /\ exists fd, is_Some (r !! fd) /\ n <= fd) s.
Proof.
  intros H Hn. unfold aeResizeSetSize. wp_step. destruct (Z.eqb_spec n (setsize (el s))) as [->|Hne].
  { apply wp_ret. split; [done|]. split; [done|]. apply H. }
  rewrite Z.geb_leb. destruct (Z.leb_spec n (maxfd (el s))) as [E|E].
  { apply wp_ret. do 2 (split; [done|]). exists (maxfd (el s)). split; [|done]. destruct (rg_top _ _ H) as [[?|?] _]; [lia|done]. }
  pose proof (rg_top _ _ H) as [_ Htop].
  wp_step. wp_step. split; [|split; [done|intros fd Hfd; specialize (Htop fd Hfd); lia]]. constructor; cbn.
  - unfold clear_from, realloc_events. rewrite length_imap, length_realloc. lia.
  - unfold realloc_fired. rewrite length_realloc. lia.
  - intros i e He. apply clear_from_lookup in He. destruct He as (e0 & He0 & ->). destruct (Z.leb_spec (maxfd (el s) + 1) (Z.of_nat i)) as [Hi|Hi].
    + unfold slot_ok. destruct (r !! Z.of_nat i) eqn:Er; [|done]. specialize (Htop (Z.of_nat i) ltac:(by eexists)). lia.
    + apply (rg_slots _ _ H). unfold realloc_events in He0.
      assert (i < length (events (el s)))%nat as Hi'. { pose proof (rg_size _ _ H). pose proof (rg_bound _ _ H). destruct (rg_top _ _ H) as [[?|Hm] _]; [lia|]. specialize (H1 _ Hm). lia. }
      rewrite lookup_app_l in He0 by (rewrite length_take; lia). by rewrite lookup_take_lt in He0 by lia.
  - intros fd Hfd. specialize (Htop fd Hfd). lia.
  - apply H.
  - apply H.
Qed.

Lemma aeCreateEventLoop_registered n w : 0 < n -> interest (time w).1 = ∅ ->
  let '(l, w') := aeCreateEventLoop junk junk_fired n w in registered ∅ (AeState l w' [] []) /\ setsize l = n.
Proof.
  intros Hn Hw. unfold aeCreateEventLoop. destruct (time w) as [w' now]. split; [|done]. constructor; cbn.
  - rewrite !length_fmap, length_seq. lia.
  - rewrite length_fmap, length_seq. lia.
  - intros i fe Hi. rewrite list_lookup_fmap in Hi. unfold slot_ok. rewrite lookup_empty. destruct (_ !! i); [|done]. by injection Hi as <-.
  - intros fd. rewrite lookup_empty. by intros [? ?].
  - split; [by left|]. intros fd. rewrite lookup_empty. by intros [? ?].
  - by rewrite fmap_empty.
Qed.

Definition mask_at (r : gmap Z aeFileEvent) fd : Z := match r !! fd with Some f => mask f | None => AE_NONE end.

Lemma aeGetFileEvents_wp r s fd : registered r s -> 0 <= fd -> wp (aeGetFileEvents fd) (fun m s' => s' = s /\ m = mask_at r fd) s.
Proof.
  intros H Hfd. unfold aeGetFileEvents, mask_at. wp_step. rewrite Z.geb_leb. destruct (Z.leb_spec (setsize (el s)) fd) as [E|E].
  - apply wp_ret. split; [done|]. destruct (r !! fd) eqn:Er; [|done]. pose proof (rg_bound _ _ H fd ltac:(by eexists)). lia.
  - apply wp_bind. eapply slot_wp; [exact H|lia|]. intros fe _ Hs. apply slot_at in Hs; [|lia]. apply wp_ret. split; [done|].
    destruct (r !! fd); [|done]. apply Hs.
Qed.

(** ** Any sequence of calls *)

Inductive request := Create (fd m proc data : Z) | Delete (fd m : Z) | Resize (n : Z) | Get (fd : Z).

Definition run_call (c : request) : M aestate Z :=
  match c with
  | Create fd m proc data => ok ← aeCreateFileEvent fd m proc data; mret (if ok : bool then 0 else -1)
  | Delete fd m => _ ← aeDeleteFileEvent fd m; mret 0
  | Resize n => ok ← aeResizeSetSize junk junk_fired n; mret (if ok : bool then 0 else -1)
  | Get fd => aeGetFileEvents fd
  end.

Fixpoint run_calls (cs : list request) : M aestate (list Z) :=
  match cs with
  | [] => mret []
  | c :: cs => a ← run_call c; l ← run_calls cs; mret (a :: l)
  end.

Definition proper_call (c : request) : Prop :=
  match c with
  | Create fd m _ _ | Delete fd m => 0 <= fd /\ is_mask m
  | Resize n => 0 < n
  | Get fd => 0 <= fd
  end.

(** What a call may do to the registrations and the number of descriptors, and
    its result.  Only the first registration of a descriptor can be refused. *)
Inductive effect : gmap Z aeFileEvent * Z -> request -> gmap Z aeFileEvent * Z -> Z -> Prop :=
| created fd m proc data r n : fd < n -> effect (r, n) (Create fd m proc data) (<[fd := added fd m proc data r]> r, n) 0
| refused fd m proc data r n : n <= fd \/ r !! fd = None -> effect (r, n) (Create fd m proc data) (r, n) (-1)
| deleted fd m r n : effect (r, n) (Delete fd m) (removed fd m r, n) 0
| resized k r n : (forall fd, is_Some (r !! fd) -> fd < k) -> effect (r, n) (Resize k) (r, k) 0
| not_resized k r n : (exists fd, is_Some (r !! fd) /\ k <= fd) -> effect (r, n) (Resize k) (r, n) (-1)
| got fd r n : effect (r, n) (Get fd) (r, n) (mask_at r fd).

Inductive effects : gmap Z aeFileEvent * Z -> list request -> gmap Z aeFileEvent * Z -> list Z -> Prop :=
| no_effect x : effects x [] x []
| more_effects x c y a cs z (l : list Z) : effect x c y a -> effects y cs z l -> effects x (c :: cs) z (a :: l).

Lemma ae_call_wp r s c : registered r s -> proper_call c ->
  wp (run_call c) (fun a s' => exists r', registered r' s' /\ effect (r, setsize (el s)) c (r', setsize (el s')) a) s.
Proof.
  intros H Hc. destruct c as [fd m proc data|fd m|n|fd]; cbn in *.
  - wp_use aeCreateFileEvent_wp; [exact H|apply Hc..|]. cbn beta. intros [] s' [(Hz & _) Hr]; apply wp_ret; rewrite Hz; eexists; (split; [apply Hr|]).
    + apply created, Hr.
    + apply refused, Hr.
  - wp_use aeDeleteFileEvent_wp; [exact H|apply Hc..|]. cbn beta. intros [] s' [(Hz & _) Hr]; apply wp_ret; rewrite Hz. eexists; (split; [apply Hr|]). constructor.
  - wp_use aeResizeSetSize_wp; [exact H|done|]. cbn beta. intros [] s' [Hr [Hz Hx]]; apply wp_ret; rewrite Hz; eexists; (split; [apply Hr|]); by constructor.
  - wp_last aeGetFileEvents_wp; [exact H|done|]. cbn beta. intros a s' [-> ->]. exists r. split; [done|]. constructor.
Qed.

Lemma ae_calls_wp cs : Forall proper_call cs -> forall r s, registered r s ->
  wp (run_calls cs) (fun l s' => exists r', registered r' s' /\ effects (r, setsize (el s)) cs (r', setsize (el s')) l) s.
Proof.
  induction 1 as [|c cs Hc _ IH]; intros r s H; cbn [run_calls].
  - apply wp_ret. exists r. split; [done|constructor].
  - wp_use ae_call_wp; [done..|]. cbn beta. intros a s1 (r1 & H1 & He). apply wp_bind. eapply wp_mono; [by apply IH|]. cbn beta.
    intros l s2 (r2 & H2 & Hes). apply wp_ret. exists r2. split; [done|]. by econstructor.
Qed.

End Spec.
End AeSpec.
