(* ===== verification/AeDispatch.v ===== *)
(** * The event loop: file events (src/ae.c [aeProcessEvents])

    What the system reports is handed to the functions that are registered at
    that moment, which may change the registrations themselves. *)

From S2P Require Import Prelude Monad Ae AeSpec.
Import Monad Ae AeSpec.

Module AeDispatch.

Section Spec.
Context {W : Type} `{KL : kernel_laws W}.

Abbreviation aestate := (aestate W).
Implicit Types (s : aestate) (fd m : Z) (fe f : aeFileEvent).

Context (file_proc : Z -> Z -> Z -> Z -> M aestate unit).

(** A client of the loop: its own state, the registrations it has made, what
    holds of the loop beside them, and what its functions do. *)
Context {X : Type} (regs : X -> gmap Z aeFileEvent) (inv : X -> aestate -> Prop) (run : Z -> Z -> Z -> Z -> X -> X).

Definition rep (x : X) s : Prop := registered (regs x) s /\ inv x s.

(** [m] has the bit [b]. *)
Definition has m b : bool := negb (Z.land m b =? 0).

(** A function may be called: it is registered for one of the events [m]. *)
Definition may_call (x : X) (p fd data m : Z) : Prop :=
  exists f, regs x !! fd = Some f /\ fclientData f = data /\
    ((has (Z.land (mask f) m) AE_READABLE = true /\ p = rfileProc f) \/ (has (Z.land (mask f) m) AE_WRITABLE = true /\ p = wfileProc f)).

(** The functions need be right only when they are registered; they do not
    resize the loop or run it. *)
Hypothesis procs : forall x s p fd data m, rep x s -> may_call x p fd data m ->
  wp (file_proc p fd data m) (fun _ s' => rep (run p fd data m x) s' /\ calm s s') s.

Hypothesis inv_poll : forall x s g n t, inv x s -> inv x (set_el (set_fired g) (set_wd (epoll_wait n t (wd s)).1 s)).

(** ** What happens with an event *)

Definition call_read fd m (x : X) : option X :=
  f ← regs x !! fd; if has (Z.land (mask f) m) AE_READABLE then Some (run (rfileProc f) fd (fclientData f) m x) else None.

Definition call_write fd m (x : X) : option X :=
  f ← regs x !! fd; if has (Z.land (mask f) m) AE_WRITABLE then Some (run (wfileProc f) fd (fclientData f) m x) else None.

(** Whether one function serves both; [None] when it cannot be told, reading
    having been given up. *)
Definition one_function fd (x : X) : option bool :=
  f ← regs x !! fd; if has (mask f) AE_READABLE then Some (wfileProc f =? rfileProc f) else None.

Inductive dispatch1 (fd m : Z) (x : X) : X -> Prop :=
| only_writes : call_read fd m x = None -> dispatch1 fd m x (default x (call_write fd m x))
| reads y : call_read fd m x = Some y -> (call_write fd m y = None \/ one_function fd y <> Some false) -> dispatch1 fd m x y
| reads_writes y z : call_read fd m x = Some y -> call_write fd m y = Some z -> one_function fd y <> Some true -> dispatch1 fd m x z.

Inductive dispatched : list (Z * Z) -> X -> X -> Prop :=
| all_done x : dispatched [] x x
| next_one fd m evs x y z : dispatch1 fd m x y -> dispatched evs y z -> dispatched ((fd, m) :: evs) x z.

(** ** The code does that *)

Lemma event_at_wp x s block fd (Q : aeFileEvent -> aestate -> Prop) : rep x s -> 0 <= fd < setsize (el s) -> block = events_block (el s) ->
  (forall fe, match regs x !! fd with Some f => is_mask (mask f) /\ same_event fe f | None => mask fe = AE_NONE end -> Q fe s) -> wp (event_at block fd) Q s.
Proof.
  intros [H _] Hfd -> HQ. unfold event_at. wp_step. apply wp_bind, wp_check; [by rewrite Nat.eqb_refl|]. eapply slot_wp; [done..|].
  intros fe _ Hs. apply HQ. by apply slot_at in Hs; [|lia].
Qed.

Lemma has_land k m b : Z.land (Z.land k m) b = Z.land (Z.land k b) m.
Proof. by rewrite <- !Z.land_assoc, (Z.land_comm m). Qed.

Lemma has_both k m b : has (Z.land k m) b = true -> Z.land k b <> 0.
Proof. unfold has. rewrite has_land. intros H E. by rewrite E, Z.land_0_l in H. Qed.

(** A slot under a descriptor, as the registrations have it. *)
Definition agrees (o : option aeFileEvent) fe : Prop :=
  match o with Some f => is_mask (mask f) /\ same_event fe f | None => mask fe = AE_NONE end.

Lemma agrees_has o fe m b : agrees o fe -> has (Z.land (mask fe) m) b = true ->
  exists f, o = Some f /\ has (Z.land (mask f) m) b = true /\ fclientData fe = fclientData f /\
    (b = AE_READABLE -> rfileProc fe = rfileProc f) /\ (b = AE_WRITABLE -> wfileProc fe = wfileProc f).
Proof.
  destruct o as [f|]; cbn; [|intros ->; cbn; unfold has; by rewrite Z.land_0_l]. intros [_ (E1 & E2 & E3 & E4)]. rewrite E1. intros Hb. exists f.
  apply has_both in Hb as Hb'. split_and!; try done; intros ->; auto.
Qed.

Lemma agrees_hasn o fe m b : agrees o fe -> has (Z.land (mask fe) m) b = false -> forall f, o = Some f -> has (Z.land (mask f) m) b = false.
Proof. intros Ha Hb f ->. destruct Ha as [_ (E1 & _)]. by rewrite <- E1. Qed.

Lemma call_part x s fd m b fe (p : aeFileEvent -> Z) : rep x s -> agrees (regs x !! fd) fe ->
  (b = AE_READABLE /\ p = rfileProc) \/ (b = AE_WRITABLE /\ p = wfileProc) -> has (Z.land (mask fe) m) b = true ->
  exists f, regs x !! fd = Some f /\ has (Z.land (mask f) m) b = true /\
    wp (file_proc (p fe) fd (fclientData fe) m) (fun _ s' => rep (run (p f) fd (fclientData f) m x) s' /\ calm s s') s.
Proof.
  intros H Ha Hp Hb. destruct (agrees_has _ _ _ _ Ha Hb) as (f & Er & Hf & E4 & E2 & E3). exists f. split_and!; try done.
  assert (p fe = p f) as -> by (destruct Hp as [[-> ->]|[-> ->]]; auto). rewrite E4. apply procs; [done|].
  exists f. split_and!; try done. destruct Hp as [[-> ->]|[-> ->]]; auto.
Qed.

Lemma handle_wp x s j fd m : rep x s -> fired (el s) !! j = Some (fd, m) -> 0 <= fd < setsize (el s) ->
  wp (handle file_proc j) (fun _ s' => exists x', dispatch1 fd m x x' /\ rep x' s' /\ calm s s') s.
Proof.
  intros H Hj Hfd. unfold handle. wp_step. apply wp_bind. eapply wp_lift; [exact Hj|]. cbv zeta.
  apply wp_bind. eapply event_at_wp; [done..|]. intros fe Hfe. fold (has (Z.land (mask fe) m) AE_READABLE). fold (agrees (regs x !! fd) fe) in Hfe.
  destruct (has (Z.land (mask fe) m) AE_READABLE) eqn:Eb; apply wp_bind.
  - destruct (call_part x s fd m AE_READABLE fe rfileProc H Hfe ltac:(by left) Eb) as (f & Er & Hf & Hcall). wp_last Hcall. cbn beta.
    set (y := run (rfileProc f) fd (fclientData f) m x). intros _ s1 (H1 & C1). destruct C1 as (C1 & C2 & C3).
    assert (call_read fd m x = Some y) as Hy by (unfold call_read; rewrite Er; cbn; by rewrite Hf).
    apply wp_bind. eapply event_at_wp; [done|lia|congruence|]. intros fe1 Hfe1. fold (has (Z.land (mask fe1) m) AE_WRITABLE). fold (agrees (regs y !! fd) fe1) in Hfe1.
    destruct (has (Z.land (mask fe1) m) AE_WRITABLE) eqn:Ew; cbn [andb orb negb].
    2: { apply wp_skip. exists y. split; [|by split_and!]. apply reads; [done|left]. unfold call_write. destruct (regs y !! fd) as [g|] eqn:Eg; [|done].
         cbn. by rewrite (agrees_hasn _ _ _ _ Hfe1 Ew g eq_refl). }
    destruct (call_part y s1 fd m AE_WRITABLE fe1 wfileProc H1 Hfe1 ltac:(by right) Ew) as (g & Eg & Hg & Hcall').
    assert (one_function fd y = Some (wfileProc fe1 =? rfileProc fe1) \/ one_function fd y = None) as Hone.
    { unfold one_function. rewrite Eg in Hfe1 |- *. cbn. destruct Hfe1 as [_ (E1 & E2 & E3 & _)]. destruct (has (mask g) AE_READABLE) eqn:Ea; [left|by right].
      rewrite E2, E3; [done| |]; [by eapply has_both|]. intros E. unfold has in Ea. by rewrite E in Ea. }
    destruct (wfileProc fe1 =? rfileProc fe1); cbn [negb].
    + apply wp_skip. exists y. split; [|by split_and!]. apply reads; [done|right]. destruct Hone as [-> | ->]; done.
    + wp_last Hcall'. cbn beta. intros _ s2 (H2 & D1 & D2 & D3). eexists. split; [|split; [done|split_and!; congruence]].
      eapply reads_writes; [done|unfold call_write; rewrite Eg; cbn; by rewrite Hg|]. destruct Hone as [-> | ->]; done.
  - assert (call_read fd m x = None) as Hn.
    { unfold call_read. destruct (regs x !! fd) as [f|] eqn:Er; [|done]. cbn. by rewrite (agrees_hasn _ _ _ _ Hfe Eb f eq_refl). }
    apply wp_skip. apply wp_bind. eapply event_at_wp; [done..|]. intros fe1 Hfe1. fold (has (Z.land (mask fe1) m) AE_WRITABLE). fold (agrees (regs x !! fd) fe1) in Hfe1.
    destruct (has (Z.land (mask fe1) m) AE_WRITABLE) eqn:Ew; cbn [andb orb negb].
    + destruct (call_part x s fd m AE_WRITABLE fe1 wfileProc H Hfe1 ltac:(by right) Ew) as (g & Eg & Hg & Hcall'). wp_last Hcall'. cbn beta.
      intros _ s2 (H2 & D). exists (default x (call_write fd m x)). split; [by apply only_writes|]. unfold call_write. rewrite Eg. cbn. rewrite Hg. by split.
    + apply wp_skip. exists (default x (call_write fd m x)). split; [by apply only_writes|]. unfold call_write.
      destruct (regs x !! fd) as [g|] eqn:Eg; [|by split_and!]. cbn. rewrite (agrees_hasn _ _ _ _ Hfe1 Ew g eq_refl). by split_and!.
Qed.

Lemma handles_wp evs : forall done x s, rep x s -> (exists rest, fired (el s) = done ++ evs ++ rest) -> (forall fd m, (fd, m) ∈ evs -> 0 <= fd < setsize (el s)) ->
  wp (for_each (seq (length done) (length evs)) (handle file_proc)) (fun _ s' => exists x', dispatched evs x x' /\ rep x' s') s.
Proof.
  induction evs as [|[fd m] evs IH]; intros done x s H [rest Hf] Hfd; cbn [length seq for_each].
  - apply wp_skip. exists x. split; [constructor|done].
  - wp_use handle_wp; [exact H| |by apply (Hfd fd m); left|].
    { rewrite Hf, lookup_app_r, Nat.sub_diag by lia. reflexivity. }
    cbn beta. intros _ s1 (y & Hy & H1 & C1 & _ & C3). specialize (IH (done ++ [(fd, m)]) y s1 H1). rewrite length_app, Nat.add_1_r in IH.
    eapply wp_mono; [apply IH|]; cbn beta.
    + exists rest. by rewrite C3, Hf, <- app_assoc.
    + intros fd' m' Hin. rewrite C1. apply (Hfd fd' m'). by right.
    + intros _ s2 (z & Hz & H2). exists z. split; [by econstructor|done].
Qed.

(** What the system reports, as masks. *)
Definition reported timeout s : list (Z * Z) := (fun '(fd, ev) => (fd, fired_mask ev)) <$> (epoll_wait (setsize (el s)) timeout (wd s)).2.

Definition timeout_of (tvp : option (Z * Z)) : Z := match tvp with Some (sec, usec) => s32 (sec * 1000 + Z.quot usec 1000) | None => -1 end.

Lemma aeApiPoll_wp x s tvp : rep x s ->
  wp (aeApiPoll tvp) (fun n s' => n = length (reported (timeout_of tvp) s) /\ rep x s' /\ setsize (el s') = setsize (el s) /\
    exists rest, fired (el s') = reported (timeout_of tvp) s ++ rest) s.
Proof.
  intros [H Hi]. unfold aeApiPoll. wp_step. fold (timeout_of tvp). apply wp_bind, sys_wp.
  set (n := length (epoll_wait (setsize (el s)) (timeout_of tvp) (wd s)).2).
  assert (n <= length (fired (el s)))%nat as Hn. { unfold n. rewrite wait_length. pose proof (rg_fired _ _ H). lia. }
  apply wp_bind, wp_check; [by apply Nat.leb_le|]. wp_step. wp_step. split; [unfold reported; by rewrite length_fmap|]. split; [|split; [done|by eexists]].
  split; [|by apply inv_poll]. destruct H as [H1 H2 H3 H4 H5 H6]. constructor; try done; cbn.
  - rewrite length_app, length_fmap, length_drop. fold n. lia.
  - by rewrite wait_interest.
Qed.

Lemma reported_in_range x s timeout : rep x s -> forall fd m, (fd, m) ∈ reported timeout s -> 0 <= fd < setsize (el s).
Proof.
  intros [H _] fd m Hin. apply list_elem_of_fmap in Hin. destruct Hin as ([fd' ev] & [= -> _] & Hin). apply wait_reports in Hin.
  rewrite (rg_kernel _ _ H), lookup_fmap, fmap_is_Some in Hin. split; [by apply (rg_top _ _ H)|by apply (rg_bound _ _ H)].
Qed.

Lemma dispatch_wp x s tvp : rep x s ->
  wp (n ← aeApiPoll tvp; _ ← for_each (seq 0 n) (handle file_proc); mret (Z.of_nat n))
    (fun k s' => exists x', k = Z.of_nat (length (reported (timeout_of tvp) s)) /\ dispatched (reported (timeout_of tvp) s) x x' /\ rep x' s') s.
Proof.
  intros H. wp_use aeApiPoll_wp; [exact H|]. cbn beta. intros n s1 (-> & H1 & Hz & Hf). apply wp_bind.
  eapply wp_mono; [apply (handles_wp _ []); [done|done|]|]; cbn beta.
  - intros fd m Hin. rewrite Hz. by eapply reported_in_range.
  - intros _ s2 (y & Hy & H2). apply wp_ret. by exists y.
Qed.

End Spec.

End AeDispatch.
