(* ===== verification/AeTimers.v ===== *)
(** * The event loop: time events (src/ae.c)

    The list of time events in the heap, what the functions of a client may do
    to it, and a pass over it. *)

From S2P Require Import Prelude Monad Ae AeSpec.
Import Monad Ae AeSpec.

Module AeTimers.

(** ** The linked list *)

Fixpoint seg (m : gmap addr aeTimeEvent) (h : option addr) (l : list addr) (e : option addr) : Prop :=
  match l with
  | [] => h = e
  | a :: l => h = Some a /\ exists t, m !! a = Some t /\ seg m (te_next t) l e
  end.

Lemma seg_app m l1 : forall h l2 e, seg m h (l1 ++ l2) e <-> exists k, seg m h l1 k /\ seg m k l2 e.
Proof.
  induction l1 as [|a l1 IH]; intros h l2 e; cbn [app seg].
  - split; [intros H; by exists h|by intros (k & -> & H)].
  - split.
    + intros (-> & t & Ha & H). apply IH in H as (k & H1 & H2). exists k. split; [|done]. split; [done|]. by exists t.
    + intros (k & (-> & t & Ha & H1) & H2). split; [done|]. exists t. split; [done|]. apply IH. by exists k.
Qed.

Lemma seg_same m m' l : forall h e, (forall a t, a ∈ l -> m !! a = Some t -> exists t', m' !! a = Some t' /\ te_next t' = te_next t) -> seg m h l e -> seg m' h l e.
Proof.
  induction l as [|a l IH]; intros h e Hm; cbn [seg]; [done|]. intros (-> & t & Ha & H). split; [done|].
  destruct (Hm a t) as (t' & Ha' & Hn); [by left|done|]. exists t'. split; [done|]. rewrite Hn. apply IH; [|done]. intros b u Hb. apply Hm. by right.
Qed.

Lemma seg_lookup m l a : forall h e, seg m h l e -> a ∈ l -> is_Some (m !! a).
Proof.
  induction l as [|b l IH]; intros h e; cbn [seg]; [by rewrite elem_of_nil|]. intros (-> & t & Hb & H). rewrite elem_of_cons. intros [->|Ha]; [by eexists|].
  by eapply IH.
Qed.

(** ** The state of the timers *)

Section Spec.
Context {W : Type} `{KL : kernel_laws W}.

Abbreviation aestate := (aestate W).
Implicit Types (s : aestate) (t : aeTimeEvent) (x : gset addr).

(** What holds of the world of the client beside the loop, and the time events
    that its functions may delete. *)
Context (inv : W -> Prop) (may_delete : Z -> Prop).

(** In milliseconds. *)
Definition when t : Z := when_sec t * 1000 + when_ms t.

Definition timer_ok (next : Z) t : Prop :=
  (te_id t = -1 \/ 0 <= te_id t < next) /\ 0 <= when_sec t < 2 ^ 50 /\ 0 <= when_ms t < 1000.

(** The list is [l]; [x] are time events that are out of it and not freed yet. *)
Record timeline x (l : list addr) s : Prop := Timeline {
  tm_chain : seg (timers (el s)) (timeEventHead (el s)) l None;
  tm_nodup : NoDup l;
  tm_dom : dom (timers (el s)) = list_to_set l ∪ x;
  tm_apart : forall a, a ∈ l -> a ∉ x;
  tm_ok : forall a t, timers (el s) !! a = Some t -> timer_ok (timeEventNextId (el s)) t;
  tm_next : 0 <= timeEventNextId (el s) < 2 ^ 63;
  tm_inv : inv (wd s)
}.

(** Other functions can only mark it. *)
Definition same_timer t t' : Prop :=
  when_sec t' = when_sec t /\ when_ms t' = when_ms t /\ timeProc t' = timeProc t /\ finalizerProc t' = finalizerProc t /\ tclientData t' = tclientData t /\
  (te_id t' = te_id t \/ (te_id t' = -1 /\ may_delete (te_id t))).

Definition kept (l : list addr) s s' : Prop :=
  forall a t, a ∈ l -> timers (el s) !! a = Some t -> exists t', timers (el s') !! a = Some t' /\ same_timer t t'.

(** [new] are time events that were created. *)
Definition grows (new : list addr) s s' : Prop :=
  timeEventNextId (el s) <= timeEventNextId (el s') /\ clock (wd s) <= clock (wd s') /\
  forall a t', a ∈ new -> timers (el s') !! a = Some t' -> te_id t' = -1 \/ timeEventNextId (el s) <= te_id t'.

(** What is out of the list is not touched. *)
Definition untouched x s s' : Prop := forall a, a ∈ x -> timers (el s') !! a = timers (el s) !! a.

(** What a function of the client may do: create time events, at most [n], and
    delete some. *)
Definition evolves (n : Z) x (l new : list addr) s s' : Prop :=
  timeline x (new ++ l) s' /\ kept l s s' /\ grows new s s' /\ untouched x s s' /\ called s' = called s /\ finalized s' = finalized s /\
  timeEventNextId (el s') <= timeEventNextId (el s) + n.

Lemma untouched_trans x y s1 s2 s3 : (forall a, a ∈ y -> a ∈ x) -> untouched y s1 s2 -> untouched x s2 s3 -> untouched y s1 s3.
Proof. intros Hs H1 H2 a Ha. rewrite (H2 a (Hs a Ha)). by apply H1. Qed.

Lemma same_timer_refl t : same_timer t t.
Proof. unfold same_timer. by split_and!; auto. Qed.

Lemma same_timer_trans t1 t2 t3 : same_timer t1 t2 -> same_timer t2 t3 -> same_timer t1 t3.
Proof.
  intros (E1 & E2 & E3 & E4 & E5 & E6) (F1 & F2 & F3 & F4 & F5 & F6). unfold same_timer. split_and!; try congruence.
  destruct E6 as [E6|[E6 Hd]].
  - rewrite E6 in F6. destruct F6; auto.
  - right. split; [|done]. destruct F6 as [F6|[F6 _]]; congruence.
Qed.

Lemma kept_refl l s : kept l s s.
Proof. intros a t _ Ha. exists t. split; [done|apply same_timer_refl]. Qed.

Lemma kept_trans l s1 s2 s3 : kept l s1 s2 -> kept l s2 s3 -> kept l s1 s3.
Proof.
  intros H1 H2 a t Hin Ha. destruct (H1 a t Hin Ha) as (t2 & Ha2 & E2). destruct (H2 a t2 Hin Ha2) as (t3 & Ha3 & E3).
  exists t3. split; [done|]. by eapply same_timer_trans.
Qed.

Lemma kept_sub l l' s s' : (forall a, a ∈ l' -> a ∈ l) -> kept l s s' -> kept l' s s'.
Proof. intros Hs H a t Ha. apply H. by apply Hs. Qed.

Lemma grows_refl s : grows [] s s.
Proof. split; [lia|]. split; [lia|]. intros a t'. by rewrite elem_of_nil. Qed.

Lemma grows_trans x l new1 new2 s1 s2 s3 : timeline x (new1 ++ l) s2 -> grows new1 s1 s2 -> kept new1 s2 s3 -> grows new2 s2 s3 -> grows (new2 ++ new1) s1 s3.
Proof.
  intros Ht (N1 & C1 & F1) Hk (N2 & C2 & F2). split; [lia|]. split; [lia|]. intros a t' Hin Ha. apply elem_of_app in Hin. destruct Hin as [Hin|Hin].
  - destruct (F2 a t' Hin Ha); [by left|right; lia].
  - destruct (seg_lookup _ _ a _ _ (tm_chain _ _ _ Ht)) as [t2 Ha2]; [apply elem_of_app; by left|]. destruct (Hk a t2 Hin Ha2) as (t3 & Ha3 & _ & _ & _ & _ & _ & E).
    rewrite Ha in Ha3. injection Ha3 as <-. destruct (F1 a t2 Hin Ha2) as [E'|E'], E as [E|[E _]]; auto; [left|right]; lia.
Qed.

(** ** Steps *)

Lemma aeGetTime_wp s : inv (gettimeofday (wd s)).1 -> wp aeGetTime (fun now s' => exists w, s' = set_wd w s /\ inv w /\
  let '(sec, ms) := now in clock (wd s) <= sec * 1000 + ms <= clock w /\ 0 <= ms < 1000 /\ 0 < sec < 2 ^ 40) s.
Proof.
  intros Hi. unfold aeGetTime. pose proof (clock_reads (wd s)) as Hc. apply wp_bind, sys_wp. destruct (gettimeofday (wd s)) as [w [sec usec]].
  cbn [fst snd] in *. apply wp_ret. exists w. destruct Hc as (H1 & H2 & H3). split; [done|]. split; [done|]. split; [done|]. split; [|done].
  rewrite Z.quot_div_nonneg by lia. split; [apply Z.div_pos; lia|apply Z.div_lt_upper_bound; lia].
Qed.

Lemma timeline_upd x l s a t t' : timeline x l s -> timers (el s) !! a = Some t -> timer_ok (timeEventNextId (el s)) t' -> te_next t' = te_next t ->
  timeline x l (set_el (set_timers (fun m => <[a := t']> m)) s).
Proof.
  intros H Ha Hok Hn. destruct H as [H1 H2 H3 H4 H5 H6 H7]. constructor; try done; cbn.
  - eapply seg_same; [|exact H1]. intros b u _ Hb. destruct (decide (a = b)) as [<-|Hne].
    + exists t'. rewrite lookup_insert_eq. split; [done|]. congruence.
    + exists u. by rewrite lookup_insert_ne.
  - rewrite dom_insert_lookup_L; [done|]. by eexists.
  - intros b u. destruct (decide (a = b)) as [<-|Hne]; [rewrite lookup_insert_eq; by intros [= <-]|rewrite lookup_insert_ne by done; apply H5].
Qed.

Lemma timer_wp s a t (Q : aeTimeEvent -> aestate -> Prop) : timers (el s) !! a = Some t -> Q t s -> wp (timer a) Q s.
Proof. intros Ha HQ. unfold timer. wp_step. by eapply wp_lift. Qed.

Lemma upd_timer_wp s a t f (Q : unit -> aestate -> Prop) : timers (el s) !! a = Some t ->
  Q tt (set_el (set_timers (fun m => <[a := f t]> m)) s) -> wp (upd_timer a f) Q s.
Proof. intros Ha HQ. unfold upd_timer. apply wp_bind. eapply timer_wp; [done|]. by wp_step. Qed.

Lemma timeline_wd x l s w : timeline x l s -> inv w -> timeline x l (set_wd w s).
Proof. intros [H1 H2 H3 H4 H5 H6 H7] Hw. by constructor. Qed.

(** ** The list without an element *)

Lemma seg_head m h l : seg m h l None -> h = head l.
Proof. destruct l; cbn; [done|by intros [-> _]]. Qed.

Lemma seg_next m h l1 a l2 t : seg m h (l1 ++ a :: l2) None -> m !! a = Some t -> te_next t = head l2.
Proof.
  rewrite seg_app. intros (k & _ & _ & u & Hu & H) Ha. rewrite Ha in Hu. injection Hu as <-. by eapply seg_head.
Qed.

(** The element before [a], or the head, is made to point past it. *)
Definition cut (prev : option addr) (next : option addr) s : aestate :=
  match prev with
  | None => set_el (set_head next) s
  | Some p => set_el (set_timers (fun m => alter (set_next next) p m)) s
  end.

Lemma seg_cut m h before b a rest : NoDup (before ++ [b] ++ a :: rest) -> seg m h (before ++ [b] ++ a :: rest) None ->
  seg (alter (set_next (head rest)) b m) h (before ++ [b] ++ rest) None.
Proof.
  intros Hnd H. apply seg_app in H as (k & H1 & H2). cbn [app] in H2. destruct H2 as (-> & u & Hb & H2). destruct H2 as (_ & t & Ha & H2).
  apply NoDup_app in Hnd as (_ & Hd & Hnd). apply NoDup_cons in Hnd as [Hnb Hnd]. apply seg_app. exists (Some b). split.
  - eapply seg_same; [|exact H1]. intros c v Hc Hv. exists v. rewrite lookup_alter_ne; [done|]. intros ->. apply (Hd c Hc). by left.
  - cbn. split; [done|]. exists (set_next (head rest) u). rewrite lookup_alter_eq, Hb. split; [done|]. cbn. rewrite (seg_head _ _ _ H2) in H2.
    eapply seg_same; [|exact H2]. intros c v Hc Hv. exists v. rewrite lookup_alter_ne; [done|]. intros ->. apply Hnb. by right.
Qed.

Lemma timeline_cut x before a rest s : timeline x (before ++ a :: rest) s ->
  timeline ({[a]} ∪ x) (before ++ rest) (cut (last before) (head rest) s).
Proof.
  intros H. pose proof (tm_nodup _ _ _ H) as Hnd. pose proof Hnd as Hnd'. apply NoDup_app in Hnd' as (Hb & Hd & Hr). apply NoDup_cons in Hr as [Ha Hr].
  destruct H as [H1 H2 H3 H4 H5 H6 H7].
  assert (seg (timers (el (cut (last before) (head rest) s))) (timeEventHead (el (cut (last before) (head rest) s))) (before ++ rest) None) as Hseg.
  { destruct before as [|b before _] using rev_ind; cbn [last cut].
    - cbn in *. destruct H1 as (_ & t & _ & H1). by rewrite <- (seg_head _ _ _ H1).
    - rewrite last_snoc. cbn. rewrite <- app_assoc in *. by apply (seg_cut _ _ before b a rest). }
  assert (dom (timers (el (cut (last before) (head rest) s))) = dom (timers (el s))) as Hdom.
  { destruct (last before); cbn; [apply dom_alter_L|done]. }
  constructor; try done.
  - apply NoDup_app. split_and!; try done. intros c Hc Hc'. apply (Hd c Hc). by right.
  - rewrite Hdom, H3. apply set_eq. intros y. rewrite !elem_of_union, !elem_of_list_to_set, !elem_of_app, elem_of_cons, elem_of_singleton. tauto.
  - intros c Hc. assert (c <> a). { intros ->. apply elem_of_app in Hc. destruct Hc as [Hc|Hc]; [apply (Hd a Hc); by left|done]. }
    rewrite not_elem_of_union, not_elem_of_singleton. split; [done|]. apply H4. rewrite elem_of_app in *. rewrite elem_of_cons. tauto.
  - assert (timeEventNextId (el (cut (last before) (head rest) s)) = timeEventNextId (el s)) as -> by by destruct (last before).
    intros c u Hc. destruct (last before) as [p|]; cbn in Hc; [|by eapply H5]. destruct (decide (p = c)) as [->|Hne].
    + rewrite lookup_alter_eq in Hc. destruct (timers (el s) !! c) as [v|] eqn:Ev; [|done]. injection Hc as <-. by apply (H5 c v).
    + rewrite lookup_alter_ne in Hc by done. by eapply H5.
  - by destruct (last before).
  - by destruct (last before).
Qed.

Lemma kept_cut l prev next s : kept l s (cut prev next s).
Proof.
  intros a t _ Ha. destruct prev as [p|]; cbn; [|by exists t; split; [done|apply same_timer_refl]]. destruct (decide (p = a)) as [->|Hne].
  - exists (set_next next t). rewrite lookup_alter_eq, Ha. split; [done|]. unfold same_timer. by split_and!; auto.
  - exists t. rewrite lookup_alter_ne by done. split; [done|apply same_timer_refl].
Qed.

Lemma timeline_free x a l s : a ∉ l -> a ∉ x -> timeline ({[a]} ∪ x) l s -> timeline x l (set_el (set_timers (delete a)) s).
Proof.
  intros Hl Hx [H1 H2 H3 H4 H5 H6 H7]. constructor; try done; cbn.
  - eapply seg_same; [|exact H1]. intros b t Hb Ht. exists t. rewrite lookup_delete_ne by (intros ->; done). done.
  - rewrite dom_delete_L, H3. apply set_eq. intros y. rewrite elem_of_difference, !elem_of_union, elem_of_list_to_set, elem_of_singleton. destruct (decide (y = a)) as [->|]; tauto.
  - intros b Hb. specialize (H4 b Hb). rewrite not_elem_of_union in H4. apply H4.
  - intros b t Hb. apply lookup_delete_Some in Hb. by apply (H5 b t), Hb.
Qed.

Lemma kept_free a l s : a ∉ l -> kept l s (set_el (set_timers (delete a)) s).
Proof. intros Ha b t Hb Ht. exists t. cbn. rewrite lookup_delete_ne by (intros ->; done). split; [done|apply same_timer_refl]. Qed.

(** ** Creating and deleting are such changes *)

Lemma due_when t sec ms : 0 <= ms < 1000 -> 0 <= when_ms t < 1000 -> due t sec ms = (when t <=? sec * 1000 + ms).
Proof. intros H1 H2. unfold due, when. rewrite Z.gtb_ltb, Z.geb_leb. apply eq_true_iff_eq. rewrite orb_true_iff, andb_true_iff, Z.ltb_lt, Z.eqb_eq, !Z.leb_le. lia. Qed.

Lemma aeAddMillisecondsToNow_wp s r : inv (gettimeofday (wd s)).1 -> 0 <= r < 2 ^ 59 ->
  wp (aeAddMillisecondsToNow r) (fun at_ s' => exists w now, s' = set_wd w s /\ inv w /\ clock (wd s) <= now <= clock w /\
    let '(sec, ms) := at_ in sec * 1000 + ms = now + r /\ 0 <= sec < 2 ^ 50 /\ 0 <= ms < 1000) s.
Proof.
  intros Hi Hr. unfold aeAddMillisecondsToNow. wp_use aeGetTime_wp; [done|]. cbn beta. intros [sec ms] s' (w & -> & Hw & Hnow & Hms & Hsec). cbv zeta. apply wp_ret.
  exists w, (sec * 1000 + ms). do 3 (split; [done|]).
  pose proof (Z.rem_bound_pos r 1000 ltac:(lia) ltac:(lia)). pose proof (Z.quot_rem' r 1000). pose proof (Z.quot_pos r 1000 ltac:(lia) ltac:(lia)).
  rewrite (wraps_small 64 (sec + Z.quot r 1000)), (wraps_small 64 (ms + Z.rem r 1000)) by (unfold is_signed; lia). rewrite Z.geb_leb. destruct (Z.leb_spec 1000 (ms + Z.rem r 1000)).
  - rewrite !wraps_small by (unfold is_signed; lia). lia.
  - lia.
Qed.

Lemma aeCreateTimeEvent_wp (alloc_timer : gset addr -> addr) x l s r proc data fin : (forall d, alloc_timer d ∉ d) -> inv (gettimeofday (wd s)).1 ->
  timeline x l s -> 0 <= r < 2 ^ 59 -> timeEventNextId (el s) < 2 ^ 63 - 1 ->
  wp (aeCreateTimeEvent alloc_timer r proc data fin) (fun id s' => id = timeEventNextId (el s) /\ exists a now t, evolves 1 x l [a] s s' /\
    timers (el s') !! a = Some t /\ te_id t = id /\ timeProc t = proc /\ tclientData t = data /\ finalizerProc t = fin /\
    clock (wd s) <= now <= clock (wd s') /\ when t = now + r) s.
Proof.
  intros Hal Hi H Hr Hn. unfold aeCreateTimeEvent. wp_step. wp_step. pose proof (tm_next _ _ _ H). rewrite wraps_small by (try done; unfold is_signed; lia).
  wp_use aeAddMillisecondsToNow_wp; [done..|]. cbn beta. intros [sec ms] s1 (w & now & -> & Hw & Hnow & Hsum & Hsec & Hms). wp_step. wp_step. cbn in Hnow |- *.
  set (a := alloc_timer (dom (timers (el s)))). assert (a ∉ dom (timers (el s))) as Ha by apply Hal. pose proof Ha as Ha'.
  rewrite (tm_dom _ _ _ H), not_elem_of_union, elem_of_list_to_set in Ha'. destruct Ha' as [Hal' Hax]. apply not_elem_of_dom in Ha.
  apply wp_ret. split; [done|]. exists a, now, (TimeEvent (timeEventNextId (el s)) sec ms proc fin data (timeEventHead (el s))). cbn. rewrite lookup_insert_eq.
  split; [|split_and!; try done; try lia; unfold when; cbn; lia]. destruct H as [H1 H2 H3 H4 H5 H6 H7]. split; [constructor; cbn; try done; try lia|split_and!; try done].
  - split; [done|]. eexists. rewrite lookup_insert_eq. split; [done|]. eapply seg_same; [|exact H1]. intros b t Hb Ht. exists t.
    by rewrite lookup_insert_ne by (intros ->; done).
  - by apply NoDup_cons.
  - rewrite dom_insert_L, H3. by rewrite (assoc_L (∪)).
  - intros b Hb. apply elem_of_cons in Hb as [->|Hb]; [done|by apply H4].
  - intros b t. destruct (decide (a = b)) as [<-|Hne].
    + rewrite lookup_insert_eq. intros [= <-]. split; [right; cbn; lia|by split].
    + rewrite lookup_insert_ne by done. intros Hb. destruct (H5 b t Hb) as (E1 & E2). split; [cbn; lia|done].
  - intros b t Hb Ht. exists t. cbn. rewrite lookup_insert_ne by (intros ->; done). split; [done|apply same_timer_refl].
  - unfold grows. cbn. split_and!; [lia|lia|]. intros b t. rewrite list_elem_of_singleton. intros ->. rewrite lookup_insert_eq. intros [= <-]. by right.
  - intros b Hb. cbn. by rewrite lookup_insert_ne by (intros ->; done).
Qed.

Lemma evolves_refl x l s : timeline x l s -> evolves 0 x l [] s s.
Proof. intros H. split; [done|]. split_and!; [apply kept_refl|apply grows_refl|done..|lia]. Qed.

Lemma evolves_trans n1 n2 x l new1 new2 s1 s2 s3 : evolves n1 x l new1 s1 s2 -> evolves n2 x (new1 ++ l) new2 s2 s3 -> evolves (n1 + n2) x l (new2 ++ new1) s1 s3.
Proof.
  intros (H1 & K1 & G1 & U1 & C1 & F1 & N1) (H2 & K2 & G2 & U2 & C2 & F2 & N2). split_and!; [by rewrite <- app_assoc| | | |congruence|congruence|lia].
  - eapply kept_trans; [exact K1|]. eapply kept_sub; [|exact K2]. intros a Ha. apply elem_of_app. by right.
  - eapply grows_trans; [exact H1|exact G1| |exact G2]. eapply kept_sub; [|exact K2]. intros a Ha. apply elem_of_app. by left.
  - by eapply untouched_trans.
Qed.

Lemma evolves_weaken n n' x l new s s' : n <= n' -> evolves n x l new s s' -> evolves n' x l new s s'.
Proof. intros Hn (H & K & G & U & C & F & N). split_and!; try done. lia. Qed.

Lemma evolves_mark x l s a t : timeline x l s -> a ∈ l -> timers (el s) !! a = Some t -> may_delete (te_id t) ->
  evolves 0 x l [] s (set_el (set_timers (fun m => <[a := set_id AE_DELETED_EVENT_ID t]> m)) s).
Proof.
  intros H Hl Ha Hd. split; [|split_and!; try done].
  - eapply timeline_upd; [done..| |done]. destruct (tm_ok _ _ _ H _ _ Ha) as (_ & E). split; [by left|exact E].
  - intros b u _ Hu. cbn. destruct (decide (a = b)) as [<-|Hne].
    + rewrite lookup_insert_eq. rewrite Ha in Hu. injection Hu as <-. eexists. split; [done|]. unfold same_timer. split_and!; try done. by right.
    + exists u. rewrite lookup_insert_ne by done. split; [done|apply same_timer_refl].
  - unfold grows. cbn. split_and!; [lia|lia|]. intros b u. by rewrite elem_of_nil.
  - intros b Hb. cbn. rewrite lookup_insert_ne; [done|]. intros <-. by apply (tm_apart _ _ _ H a).
  - cbn. lia.
Qed.

Lemma delete_loop_wp x l id s (rest : list addr) : forall fuel before, timeline x l s -> l = before ++ rest -> (length rest <= fuel)%nat -> may_delete id ->
  wp (delete_loop fuel (head rest) id) (fun ok s' => evolves 0 x l [] s s' /\
    (ok = true <-> exists a t, a ∈ rest /\ timers (el s) !! a = Some t /\ te_id t = id) /\ (ok = false -> s' = s)) s.
Proof.
  induction rest as [|a rest IH]; intros fuel before H -> Hf Hd.
  - exists s, false. split; [by destruct fuel|]. split; [by apply evolves_refl|]. split; [|done].
    split; [done|]. intros (a & t & Ha & _). by apply elem_of_nil in Ha.
  - destruct fuel as [|fuel]; [cbn in Hf; lia|]. cbn [head delete_loop]. destruct (seg_lookup _ _ a _ _ (tm_chain _ _ _ H)) as [t Ha]; [apply elem_of_app; right; by left|].
    apply wp_bind. eapply timer_wp; [done|]. destruct (Z.eqb_spec (te_id t) id) as [<-|Hne].
    + apply wp_bind. eapply upd_timer_wp; [done|]. apply wp_ret. split; [apply evolves_mark; try done; apply elem_of_app; right; by left|]. split; [|done]. split; [intros _|done].
      exists a, t. split; [by left|done].
    + rewrite (seg_next _ _ _ _ _ _ (tm_chain _ _ _ H) Ha). eapply wp_mono; [apply (IH fuel (before ++ [a])); [exact H|by rewrite <- app_assoc|cbn in Hf; lia|done]|].
      cbn beta. intros ok s' (He & Hok & Hs). split; [done|]. split; [|done]. rewrite Hok. split; intros (b & u & Hb & Hu & Hid).
      * exists b, u. split; [by right|done].
      * exists b, u. apply elem_of_cons in Hb as [->|Hb]; [congruence|done].
Qed.

Lemma aeDeleteTimeEvent_wp x l id s : timeline x l s -> may_delete id ->
  wp (aeDeleteTimeEvent id) (fun ok s' => evolves 0 x l [] s s' /\
    (ok = true <-> exists a t, a ∈ l /\ timers (el s) !! a = Some t /\ te_id t = id) /\ (ok = false -> s' = s)) s.
Proof.
  intros H Hd. unfold aeDeleteTimeEvent. wp_step. rewrite (seg_head _ _ _ (tm_chain _ _ _ H)). apply (delete_loop_wp x l id s l _ []); [done..| |done].
  unfold fuel_for. rewrite <- size_dom, (tm_dom _ _ _ H). assert (length l = size (list_to_set l : gset addr)) as -> by (symmetry; apply size_list_to_set, H).
  pose proof (subseteq_size (list_to_set l : gset addr) (list_to_set l ∪ x) ltac:(apply union_subseteq_l)). lia.
Qed.

(** ** How long to sleep *)

Lemma earlier_when e f : 0 <= when_ms e < 1000 -> 0 <= when_ms f < 1000 -> earlier e f = (when e <? when f).
Proof. intros H1 H2. unfold earlier, when. apply eq_true_iff_eq. rewrite orb_true_iff, andb_true_iff, Z.eqb_eq, !Z.ltb_lt. lia. Qed.

(** [o] is a time event of [l], or the one that was known, that is due first. *)
Definition first_of (near : option aeTimeEvent) (l : list addr) s (o : option aeTimeEvent) : Prop :=
  match o with
  | Some e => (near = Some e \/ exists a, a ∈ l /\ timers (el s) !! a = Some e) /\ (forall f, near = Some f -> when e <= when f) /\
      forall a t, a ∈ l -> timers (el s) !! a = Some t -> when e <= when t
  | None => near = None /\ l = []
  end.

Lemma nearest_loop_wp x l s rest : timeline x l s -> forall before fuel near, l = before ++ rest -> (length rest <= fuel)%nat ->
  (forall f, near = Some f -> 0 <= when_ms f < 1000) ->
  wp (nearest_loop fuel (head rest) near) (fun o s' => s' = s /\ first_of near rest s o) s.
Proof.
  intros H. induction rest as [|a rest IH]; intros before fuel near -> Hf Hn.
  - exists s, near. split; [by destruct fuel|]. split; [done|]. destruct near as [e|]; [|done]. split; [by left|]. split; [by intros f [= <-]|].
    intros a t Ha. by apply elem_of_nil in Ha.
  - destruct fuel as [|fuel]; [cbn in Hf; lia|]. cbn in Hf. cbn [head nearest_loop]. destruct (seg_lookup _ _ a _ _ (tm_chain _ _ _ H)) as [t Ha]; [apply elem_of_app; right; by left|].
    apply wp_bind. eapply timer_wp; [done|]. rewrite (seg_next _ _ _ _ _ _ (tm_chain _ _ _ H) Ha). destruct (tm_ok _ _ _ H _ _ Ha) as (_ & _ & Hms).
    set (near' := match near with None => Some t | Some n => if earlier t n then Some t else near end).
    assert (exists e, near' = Some e /\ (e = t \/ near = Some e) /\ when e <= when t /\ (forall f, near = Some f -> when e <= when f) /\ 0 <= when_ms e < 1000) as (e & En & Ee & Et & Ef & Em).
    { unfold near'. destruct near as [n|]; [|exists t; do 2 (split; [by auto|]); split; [lia|by split]]. pose proof (Hn n eq_refl). rewrite earlier_when by done.
      destruct (Z.ltb_spec (when t) (when n)); [exists t|exists n]; (split; [done|]; split; [by auto|]; split; [lia|]; split; [intros f [= <-]; lia|done]). }
    eapply wp_mono; [apply (IH (before ++ [a]) fuel near'); [by rewrite <- app_assoc|lia|]|].
    + rewrite En. intros f [= <-]. done.
    + cbn beta. rewrite En. intros o s' [-> Ho]. split; [done|]. unfold first_of in *. destruct o as [o|]; [|by destruct Ho]. destruct Ho as (H1 & H2 & H3).
      specialize (H2 e eq_refl). split; [|split].
      * destruct H1 as [[= <-]|(b & Hb & Hbo)]; [destruct Ee as [->|]; [right; exists a; split; [by left|done]|by left]|right; exists b; split; [by right|done]].
      * intros f Hf'. specialize (Ef f Hf'). lia.
      * intros b u Hb Hu. apply elem_of_cons in Hb as [->|Hb]; [|by apply (H3 b)]. assert (u = t) as -> by congruence. lia.
Qed.

Lemma aeSearchNearestTimer_wp x l s : timeline x l s -> wp aeSearchNearestTimer (fun o s' => s' = s /\ first_of None l s o) s.
Proof.
  intros H. unfold aeSearchNearestTimer. wp_step. rewrite (seg_head _ _ _ (tm_chain _ _ _ H)). apply (nearest_loop_wp x l s l H []); try done.
  unfold fuel_for. rewrite <- size_dom, (tm_dom _ _ _ H). assert (length l = size (list_to_set l : gset addr)) as -> by (symmetry; apply size_list_to_set, H).
  pose proof (subseteq_size (list_to_set l : gset addr) (list_to_set l ∪ x) ltac:(apply union_subseteq_l)). lia.
Qed.

(** The timeout of [epoll_wait] in milliseconds. *)
Definition timeout_ms (tvp : option (Z * Z)) : Z := match tvp with Some (sec, usec) => sec * 1000 + Z.quot usec 1000 | None => -1 end.

Lemma split_ms ms : 0 <= ms -> Z.quot ms 1000 * 1000 + Z.quot (Z.rem ms 1000 * 1000) 1000 = ms.
Proof. intros H. rewrite Z.quot_mul by done. pose proof (Z.quot_rem' ms 1000). lia. Qed.

Lemma poll_timeout_wp x l s flags : inv (gettimeofday (wd s)).1 -> timeline x l s -> Z.land flags AE_TIME_EVENTS <> 0 -> Z.land flags AE_DONT_WAIT = 0 ->
  wp (poll_timeout flags) (fun tvp s' => timeline x l s' /\ (l = [] -> tvp = None) /\
    forall a, a ∈ l -> exists e now, first_of None l s (Some e) /\ clock (wd s) <= now <= clock (wd s') /\ timeout_ms tvp = Z.max 0 (when e - now)) s.
Proof.
  intros Hi H Ht Hd. unfold poll_timeout. rewrite (proj2 (Z.eqb_neq _ _) Ht), Hd. cbn [Z.eqb negb andb]. wp_use aeSearchNearestTimer_wp; [exact H|].
  cbn beta. intros [e|] s1 [-> Hf].
  - wp_use aeGetTime_wp; [done|]. cbn beta. intros [sec ms] s1 (w & -> & Hw & Hnow & Hms & Hsec). apply wp_ret. split; [by apply timeline_wd|].
    pose proof Hf as ([[=]|(a & Ha & Hae)] & _). split; [intros ->; by apply elem_of_nil in Ha|]. intros b _. exists e, (sec * 1000 + ms). split; [done|]. split; [done|].
    destruct (tm_ok _ _ _ H _ _ Hae) as (_ & Hs & Hm). 
    rewrite (wraps_small 64 (when_sec e - sec)) by (try done; unfold is_signed; lia). rewrite (wraps_small 64 ((when_sec e - sec) * 1000)) by (try done; unfold is_signed; lia).
    rewrite (wraps_small 64 (_ + when_ms e)) by (try done; unfold is_signed; lia). rewrite (wraps_small 64 (_ - ms)) by (try done; unfold is_signed; lia).
    assert ((when_sec e - sec) * 1000 + when_ms e - ms = when e - (sec * 1000 + ms)) as -> by (unfold when; lia). rewrite Z.gtb_ltb.
    destruct (Z.ltb_spec 0 (when e - (sec * 1000 + ms))); cbn [timeout_ms]; [rewrite split_ms by lia; lia|by rewrite Z.max_l by lia].
  - apply wp_ret. split; [done|]. destruct Hf as [_ ->]. split; [done|]. intros a Ha. by apply elem_of_nil in Ha.
Qed.

(** ** The functions of the client *)

Context (time_proc : Z -> Z -> Z -> M aestate Z) (finalizer_proc : Z -> Z -> M aestate unit).

(** What a time function may answer. *)
Context (answers : Z -> Z -> Z -> Z -> Prop).

(** They create at most [most] time events each, as long as there are numbers
    left for these. *)
Record good_client (most : Z) : Prop := GoodClient {
  gc_time : forall x l s a t, timeline x l s -> timers (el s) !! a = Some t -> te_id t <> -1 -> timeEventNextId (el s) + most < 2 ^ 63 ->
    wp (time_proc (timeProc t) (te_id t) (tclientData t)) (fun r s' => answers (timeProc t) (te_id t) (tclientData t) r /\
      (r = -1 \/ 0 <= r < 2 ^ 31) /\ exists new, evolves most x l new s s') s;
  gc_final : forall x l s f d, timeline x l s -> timeEventNextId (el s) + most < 2 ^ 63 ->
    wp (finalizer_proc f d) (fun _ s' => exists new, evolves most x l new s s') s;
  gc_clock : forall w, inv w -> inv (gettimeofday w).1 /\ inv (time w).1
}.

Context (most : Z).
Hypothesis GC : good_client most.
Hypothesis Hmost : 0 <= most.

Definition final_of t : list Z := match finalizerProc t with Some _ => [tclientData t] | None => [] end.

Lemma cut_wp prev next s (Q : unit -> aestate -> Prop) : (forall p, prev = Some p -> is_Some (timers (el s) !! p)) -> Q tt (cut prev next s) ->
  wp (match prev with None => modify (set_el (set_head next)) | Some p => upd_timer p (set_next next) end) Q s.
Proof.
  intros Hp HQ. destruct prev as [p|]; [|by apply wp_modify]. destruct (Hp p eq_refl) as [u Hu]. eapply upd_timer_wp; [done|]. revert HQ. cbn.
  assert (alter (set_next next) p (timers (el s)) = <[p := set_next next u]> (timers (el s))) as E.
  { apply map_eq. intros i. destruct (decide (p = i)) as [<-|Hne]; [by rewrite lookup_alter_eq, lookup_insert_eq, Hu|by rewrite lookup_alter_ne, lookup_insert_ne]. }
  unfold set_el, set_timers. cbn. by rewrite E.
Qed.

Lemma elem_last {A} (l : list A) p : last l = Some p -> p ∈ l.
Proof. destruct l as [|b l' _] using rev_ind; [done|]. rewrite last_snoc. intros [= ->]. apply elem_of_app. right. by left. Qed.

(** What a time event leaves behind that is taken out and freed. *)
Definition freed x (l new : list addr) t s s' : Prop :=
  timeline x (new ++ l) s' /\ kept l s s' /\ grows new s s' /\ untouched x s s' /\ called s' = called s /\ finalized s' = finalized s ++ final_of t /\
  timeEventNextId (el s') <= timeEventNextId (el s) + most /\ (final_of t = [] -> new = []).

Lemma finalize_wp x l a t (next : option addr) s : timeline ({[a]} ∪ x) l s -> a ∉ l -> a ∉ x -> timeEventNextId (el s) + most < 2 ^ 63 ->
  wp (_ ← (match finalizerProc t with
      | Some f => _ ← modify (log_final (tclientData t)); finalizer_proc f (tclientData t)
      | None => skip
      end);
    _ ← modify (set_el (set_timers (delete a)));
    mret next) (fun r s' => r = next /\ exists new, freed x l new t s s') s.
Proof.
  intros H Hl Hx Hn. apply wp_bind. apply (wp_mono _ (fun _ s' => exists new, timeline ({[a]} ∪ x) (new ++ l) s' /\ kept l s s' /\ grows new s s' /\
    untouched ({[a]} ∪ x) s s' /\ called s' = called s /\ finalized s' = finalized s ++ final_of t /\ timeEventNextId (el s') <= timeEventNextId (el s) + most /\ (final_of t = [] -> new = []))).
  - unfold final_of. destruct (finalizerProc t) as [f|].
    + wp_step. wp_last gc_final; [exact GC| | |].
      * instantiate (1 := l). instantiate (1 := {[a]} ∪ x). destruct H. by constructor.
      * done.
      * cbn beta. intros _ s2 (new & H2 & K2 & G2 & U2 & C2 & F2 & N2). by exists new.
    + apply wp_skip. exists []. rewrite app_nil_r. split_and!; try done; [apply kept_refl|apply grows_refl|lia].
  - intros _ s2 (new & H2 & K2 & G2 & U2 & C2 & F2 & N2 & E2). wp_step. apply wp_ret. split; [done|]. exists new.
    assert (a ∉ new ++ l) as Hna. { intros Ha. apply (tm_apart _ _ _ H2 a Ha). set_solver. }
    split_and!; try done.
    + by apply timeline_free.
    + eapply kept_trans; [exact K2|]. by apply kept_free.
    + destruct G2 as (N & T & I). split; [done|]. split; [done|]. intros b u Hb. cbn. intros Hu. apply lookup_delete_Some in Hu as [_ Hu]. by apply (I b u).
    + intros b Hb. cbn. rewrite lookup_delete_ne by (intros ->; done). apply U2. set_solver.
Qed.

Lemma without_elem (a : addr) before rest : NoDup (before ++ a :: rest) -> a ∉ before ++ rest.
Proof.
  intros Hnd. apply NoDup_app in Hnd as (_ & Hd & Hr). apply NoDup_cons in Hr as [Hr _]. rewrite elem_of_app. intros [Hb|]; [|done]. apply (Hd a Hb). by left.
Qed.

Lemma te_unlink_wp x before a rest s t : timeline x (before ++ a :: rest) s -> timers (el s) !! a = Some t -> timeEventNextId (el s) + most < 2 ^ 63 ->
  wp (unlink finalizer_proc (last before) a) (fun next s' => next = head rest /\ exists new, freed x (before ++ rest) new t s s') s.
Proof.
  intros H Ha Hn. unfold unlink. apply wp_bind. eapply timer_wp; [done|]. cbv zeta. rewrite (seg_next _ _ _ _ _ _ (tm_chain _ _ _ H) Ha).
  assert (forall p, last before = Some p -> p ∈ before ++ a :: rest) as Hlast by (intros p Hp; apply elem_last in Hp; rewrite elem_of_app; by left).
  apply wp_bind, cut_wp; [intros p Hp; eapply seg_lookup; [apply H|by apply Hlast]|].
  pose proof (timeline_cut x before a rest s H) as H1. pose proof (kept_cut (before ++ rest) (last before) (head rest) s) as K1.
  set (s1 := cut (last before) (head rest) s) in *.
  assert (called s1 = called s /\ finalized s1 = finalized s /\ wd s1 = wd s /\ timeEventNextId (el s1) = timeEventNextId (el s)) as (E1 & E2 & E3 & E4)
    by (unfold s1, cut; by destruct (last before)).
  assert (untouched x s s1) as U1.
  { intros b Hb. unfold s1, cut. destruct (last before) as [p|]; [|done]. cbn. rewrite lookup_alter_ne; [done|]. intros ->.
    by apply (tm_apart _ _ _ H b); [apply Hlast|]. }
  wp_last (finalize_wp x (before ++ rest) a t (head rest) s1 H1).
  - apply without_elem, H.
  - apply (tm_apart _ _ _ H), elem_of_app. right. by left.
  - by rewrite E4.
  - cbn beta. intros r s2 (-> & new & H2 & K2 & (N2 & T2 & I2) & U2 & C2 & F2 & M2 & X2). split; [done|]. exists new. rewrite E1 in C2. rewrite E2 in F2. rewrite E4 in M2, N2, I2. rewrite E3 in T2.
    split_and!; try done; [by eapply kept_trans|by eapply (untouched_trans x)].
Qed.

(** At the head: what was put in front of it meanwhile is out of the list as
    well. *)
Lemma unlink_head_wp x nw a rest s t : timeline x (nw ++ a :: rest) s -> timers (el s) !! a = Some t -> timeEventNextId (el s) + most < 2 ^ 63 ->
  wp (unlink finalizer_proc None a) (fun next s' => next = head rest /\ exists new, freed (list_to_set nw ∪ x) rest new t s s') s.
Proof.
  intros H Ha Hn. unfold unlink. apply wp_bind. eapply timer_wp; [done|]. cbv zeta. rewrite (seg_next _ _ _ _ _ _ (tm_chain _ _ _ H) Ha).
  pose proof (tm_nodup _ _ _ H) as Hnd. pose proof (without_elem _ _ _ Hnd) as Hna. apply NoDup_app in Hnd as (Hnw & Hd & Hr). apply NoDup_cons in Hr as [Hr1 Hr2].
  rewrite elem_of_app in Hna. apply wp_bind, wp_modify. set (s1 := set_el (set_head (head rest)) s).
  assert (timeline ({[a]} ∪ (list_to_set nw ∪ x)) rest s1) as H1.
  { destruct H as [H1 H2 H3 H4 H5 H6 H7]. constructor; try done; cbn.
    - apply seg_app in H1 as (k & _ & H1). cbn in H1. destruct H1 as (_ & u & _ & H1). by rewrite <- (seg_head _ _ _ H1).
    - rewrite H3, list_to_set_app_L, list_to_set_cons. set_solver.
    - intros b Hb. specialize (H4 b). specialize (Hd b). rewrite elem_of_app, elem_of_cons in H4. rewrite elem_of_cons in Hd. set_solver. }
  wp_last (finalize_wp (list_to_set nw ∪ x) rest a t (head rest) s1 H1); [set_solver|pose proof (tm_apart _ _ _ H a); set_solver|done|].
  cbn beta. intros r s2 (-> & new & Hf). split; [done|]. by exists new.
Qed.

(** ** One time event *)

(** After a call that answered [r] between two times. *)
Definition rearmed t (r lo hi : Z) t' : Prop :=
  timeProc t' = timeProc t /\ finalizerProc t' = finalizerProc t /\ tclientData t' = tclientData t /\
  if r =? AE_NOMORE then te_id t' = -1
  else (te_id t' = te_id t \/ (te_id t' = -1 /\ may_delete (te_id t))) /\ exists now, lo <= now <= hi /\ when t' = now + r.

Lemma rearmed_same t r lo hi lo' hi' t' t'' : rearmed t r lo hi t' -> same_timer t' t'' -> lo' <= lo -> hi <= hi' -> rearmed t r lo' hi' t''.
Proof.
  intros (E1 & E2 & E3 & E4) (F1 & F2 & F3 & F4 & F5 & F6) Hlo Hhi. unfold rearmed. split_and!; try congruence. destruct (r =? AE_NOMORE).
  - destruct F6 as [F6|[F6 _]]; congruence.
  - destruct E4 as [E4 (now & Hnow & Hw)]. split.
    + destruct F6 as [F6|[F6 Hd]]; [rewrite F6; exact E4|]. destruct E4 as [E4|[E4 Hd']]; right; (split; [done|]); congruence.
    + exists now. split; [lia|]. unfold when in *. by rewrite F1, F2.
Qed.

Lemma kept_upd l a t' s : a ∉ l -> kept l s (set_el (set_timers (fun m => <[a := t']> m)) s).
Proof. intros Ha b t Hb Ht. exists t. cbn. rewrite lookup_insert_ne by (intros ->; done). split; [done|apply same_timer_refl]. Qed.

(** What is left of a time event that was called and answered [r]. *)
Definition fired_to x before a rest t new r t' s s' : Prop :=
  timeline x (new ++ before ++ a :: rest) s' /\ kept (before ++ rest) s s' /\ grows new s s' /\ untouched x s s' /\
  timers (el s') !! a = Some t' /\ rearmed t r (clock (wd s)) (clock (wd s')) t' /\ answers (timeProc t) (te_id t) (tclientData t) r /\
  called s' = called s ++ [te_id t] /\ finalized s' = finalized s /\ timeEventNextId (el s') <= timeEventNextId (el s) + most.

(** From the state after the call, where it is [t1], to the one with [t']. *)
Lemma fired_to_upd x before a rest t new r t1 t' s s1 w : evolves most x (before ++ a :: rest) new (log_call (te_id t) s) s1 ->
  timeline x (before ++ a :: rest) s -> timers (el s1) !! a = Some t1 -> te_next t' = te_next t1 -> timer_ok (timeEventNextId (el s1)) t' ->
  te_id t' = te_id t1 \/ te_id t' = -1 -> inv w -> clock (wd s1) <= clock w ->
  rearmed t r (clock (wd s)) (clock w) t' -> answers (timeProc t) (te_id t) (tclientData t) r ->
  fired_to x before a rest t new r t' s (set_el (set_timers (fun m => <[a := t']> m)) (set_wd w s1)).
Proof.
  intros (H1 & K1 & G1 & U1 & C1 & F1 & N1) H Ha1 Hn Hok Hid Hw Hc Hr Hans. pose proof (without_elem _ _ _ (tm_nodup _ _ _ H)) as Hna. unfold fired_to. split_and!; try done.
  - eapply timeline_upd; [by apply timeline_wd|exact Ha1|done|done].
  - eapply kept_trans; [eapply kept_sub; [|exact K1]; intros b; rewrite !elem_of_app, elem_of_cons; tauto|]. by apply (kept_upd _ a _ (set_wd w s1)).
  - destruct G1 as (N & T & I). split; [done|]. split; [cbn in *; lia|]. intros b u Hb. cbn. destruct (decide (a = b)) as [<-|Hab].
    + rewrite lookup_insert_eq. intros [= <-]. destruct (I a t1 Hb Ha1), Hid; auto; [left|right]; cbn in *; congruence.
    + rewrite lookup_insert_ne by done. by apply I.
  - intros b Hb. cbn. rewrite lookup_insert_ne; [by apply U1|]. intros <-. apply (tm_apart _ _ _ H a); [|done]. apply elem_of_app. right. by left.
  - cbn. by rewrite lookup_insert_eq.
Qed.

Lemma fire_wp x before a rest s t : timeline x (before ++ a :: rest) s -> timers (el s) !! a = Some t -> te_id t <> -1 -> timeEventNextId (el s) + most < 2 ^ 63 ->
  wp (fire time_proc a) (fun _ s' => exists new r t', fired_to x before a rest t new r t' s s') s.
Proof.
  intros H Ha Hid Hn. unfold fire. apply wp_bind. eapply timer_wp; [done|]. wp_step. wp_use gc_time; [exact GC| |exact Ha|done|done|].
  { instantiate (1 := before ++ a :: rest). instantiate (1 := x). destruct H. by constructor. }
  cbn beta. intros r s1 (Hr & Hrr & new & He). pose proof He as (H1 & K1 & (_ & T1 & _) & _).
  destruct (K1 a t) as (t1 & Ha1 & S1 & S2 & S3 & S4 & S5 & S6); [apply elem_of_app; right; by left|done|].
  destruct (tm_ok _ _ _ H1 _ _ Ha1) as (Hok1 & Hok2 & Hok3). destruct (Z.eqb_spec r AE_NOMORE) as [->|Hne]; cbn [negb].
  - eapply upd_timer_wp; [exact Ha1|]. exists new, AE_NOMORE, (set_id AE_DELETED_EVENT_ID t1).
    assert (s1 = set_wd (wd s1) s1) as E by by destruct s1. rewrite E. eapply fired_to_upd; try done; [by split; [left|]|by right|apply H1].
  - destruct Hrr as [->|Hrr]; [done|]. wp_use aeAddMillisecondsToNow_wp; [apply GC, H1|lia|]. cbn beta.
    intros [sec ms] s2 (w & now & -> & Hw & Hnow & Hsum & Hsec & Hms).
    eapply upd_timer_wp; [exact Ha1|]. exists new, r, (set_when sec ms t1). cbn in T1. eapply fired_to_upd; try done; [by left|lia|].
    unfold rearmed. cbn. rewrite (proj2 (Z.eqb_neq _ _) Hne). split_and!; try done. exists now. split; [lia|]. unfold when. cbn. lia.
Qed.

(** ** A pass *)

(** What a pass from [s] to [s'] did to a list of time events: those that were
    left, the identifiers that were called and the data that were finalized. *)
Inductive passed s s' : list addr -> list addr -> list Z -> list Z -> Prop :=
| pass_end : passed s s' [] [] [] []
| pass_freed a l left calls finals t : timers (el s) !! a = Some t -> te_id t = -1 \/ may_delete (te_id t) ->
    passed s s' l left calls finals -> passed s s' (a :: l) left calls (final_of t ++ finals)
| pass_waits a l left calls finals t t' : timers (el s) !! a = Some t -> te_id t <> -1 -> clock (wd s) < when t ->
    timers (el s') !! a = Some t' -> same_timer t t' ->
    passed s s' l left calls finals -> passed s s' (a :: l) (a :: left) calls finals
| pass_called a l left calls finals t t' r : timers (el s) !! a = Some t -> te_id t <> -1 -> when t <= clock (wd s') ->
    answers (timeProc t) (te_id t) (tclientData t) r ->
    timers (el s') !! a = Some t' -> rearmed t r (clock (wd s)) (clock (wd s')) t' ->
    passed s s' l left calls finals -> passed s s' (a :: l) (a :: left) (te_id t :: calls) finals.

Lemma passed_lift s s1 s' l left calls finals : passed s1 s' l left calls finals -> (forall a, a ∈ l -> is_Some (timers (el s) !! a)) ->
  kept l s s1 -> clock (wd s) <= clock (wd s1) -> passed s s' l left calls finals.
Proof.
  intros H. induction H as [|a l sv c f t Ha Hd H IH|a l sv c f t t' Ha Hid Hw Ha' Hs H IH|a l sv c f t t' r Ha Hid Hw Hr Ha' Hs H IH]; intros Hl Hk Hc.
  { constructor. }
  all: assert (passed s s' l sv c f) as H' by (apply IH; [intros b Hb; apply Hl; by right|eapply kept_sub; [|exact Hk]; intros b Hb; by right|done]).
  all: destruct (Hl a) as [t0 Ha0]; [by left|]; destruct (Hk a t0) as (t1 & Ha1 & S); [by left|done|]; rewrite Ha in Ha1; injection Ha1 as <-.
  all: pose proof S as (S1 & S2 & S3 & S4 & S5 & S6).
  - assert (final_of t = final_of t0) as -> by (unfold final_of; by rewrite S4, S5). apply pass_freed; [done| |done].
    destruct S6 as [S6|[S6 Hd']]; [by rewrite S6 in Hd|by right].
  - assert (te_id t = te_id t0) as Eid by (destruct S6 as [|[? _]]; congruence). assert (when t = when t0) as Ew by (unfold when; congruence).
    apply (pass_waits s s' a l sv c f t0 t'); try done; [congruence|lia|by eapply same_timer_trans].
  - assert (te_id t = te_id t0) as Eid by (destruct S6 as [|[? _]]; congruence). assert (when t = when t0) as Ew by (unfold when; congruence).
    rewrite Eid. apply (pass_called s s' a l sv c f t0 t' r); try done; [congruence|lia|by rewrite <- S3, <- S5, <- Eid|].
    destruct Hs as (R1 & R2 & R3 & R4). unfold rearmed. split_and!; try congruence. destruct (r =? AE_NOMORE); [done|].
    destruct R4 as [R4 (now & Hnow & Hw')]. split; [by rewrite <- Eid|]. exists now. split; [lia|done].
Qed.

Definition below maxId s (l : list addr) : Prop := forall a t, a ∈ l -> timers (el s) !! a = Some t -> te_id t <= maxId.

Lemma timeline_at x l s a : timeline x l s -> a ∈ l -> is_Some (timers (el s) !! a).
Proof. intros H. eapply seg_lookup. apply H. Qed.

Lemma below_kept x l maxId s s1 rest : timeline x l s -> (forall a, a ∈ rest -> a ∈ l) -> -1 <= maxId -> kept rest s s1 -> below maxId s rest -> below maxId s1 rest.
Proof.
  intros H Hl Hm K Hb a u Ha Hu. destruct (timeline_at _ _ _ a H) as [t Ht]; [by apply Hl|]. destruct (K a t Ha Ht) as (u' & Hu' & _ & _ & _ & _ & _ & E).
  rewrite Hu in Hu'. injection Hu' as <-. pose proof (Hb a t Ha Ht). destruct E as [->|[-> _]]; lia.
Qed.

Lemma kept_parts before rest s s1 : kept (before ++ rest) s s1 -> kept before s s1 /\ kept rest s s1.
Proof. intros K. split; (eapply kept_sub; [|exact K]); intros b Hb; apply elem_of_app; auto. Qed.

(** The rest of a pass that has [n] calls behind it. *)
Definition loop_post x before rest n s (k : Z) s' : Prop := exists new left calls finals,
  timeline x (new ++ before ++ left) s' /\ kept before s s' /\ grows new s s' /\ untouched x s s' /\ passed s s' rest left calls finals /\
  called s' = called s ++ calls /\ finalized s' = finalized s ++ finals /\ k = n + Z.of_nat (length calls).

Lemma passed_after x before a rest s s1 s' left calls finals : timeline x (before ++ a :: rest) s -> kept rest s s1 -> clock (wd s) <= clock (wd s1) ->
  passed s1 s' rest left calls finals -> passed s s' rest left calls finals.
Proof. intros H K C P. eapply passed_lift; [exact P| |done|done]. intros b Hb. eapply timeline_at; [exact H|]. rewrite elem_of_app, elem_of_cons. auto. Qed.

Lemma loop_freed x before a rest n s s1 k s2 t new : timeline x (before ++ a :: rest) s -> timers (el s) !! a = Some t -> te_id t = -1 ->
  freed x (before ++ rest) new t s s1 -> loop_post x (new ++ before) rest n s1 k s2 -> loop_post x before (a :: rest) n s k s2.
Proof.
  intros H Ha Hid (H1 & K1 & G1 & U1 & C1 & F1 & _) (new2 & sv & c & f & H2 & K2 & G2 & U2 & P2 & C2 & F2 & ->). destruct (kept_parts _ _ _ _ K1) as [Kb Kr].
  destruct (kept_parts _ _ _ _ K2) as [Kn Kb2]. exists (new2 ++ new), sv, c, (final_of t ++ f). split_and!; try done.
  - rewrite <- (app_assoc new) in H2. by rewrite <- app_assoc.
  - by eapply kept_trans.
  - by eapply grows_trans.
  - by eapply (untouched_trans x).
  - eapply pass_freed; [exact Ha|by left|]. eapply passed_after; [exact H|exact Kr|apply G1|exact P2].
  - by rewrite C2, C1.
  - by rewrite F2, F1, app_assoc.
Qed.

Lemma loop_waits x before a rest n s w k s2 t : timeline x (before ++ a :: rest) s -> timers (el s) !! a = Some t -> te_id t <> -1 ->
  clock (wd s) < when t -> clock (wd s) <= clock w ->
  loop_post x (before ++ [a]) rest n (set_wd w s) k s2 -> loop_post x before (a :: rest) n s k s2.
Proof.
  intros H Ha Hid Hw Hc (new & sv & c & f & H2 & K2 & G2 & U2 & P2 & C2 & F2 & ->). destruct (kept_parts _ _ _ _ K2) as [Kb Ka].
  exists new, (a :: sv), c, f. destruct (Ka a t) as (t2 & Ha2 & S2); [by left|done|]. split_and!; try done.
  - by rewrite <- (app_assoc before) in H2.
  - destruct G2 as (N2 & T2 & I2). cbn in *. split_and!; [done|lia|done].
  - eapply pass_waits; try done. eapply (passed_after _ _ _ _ _ (set_wd w s)); [exact H| |exact Hc|exact P2]. intros b u _ Hu. exists u. split; [done|apply same_timer_refl].
Qed.

Lemma loop_called x before a rest n s w s1 k s2 t r t1 new : timeline x (before ++ a :: rest) s -> timers (el s) !! a = Some t -> te_id t <> -1 ->
  clock (wd s) <= clock w -> when t <= clock w -> fired_to x before a rest t new r t1 (set_wd w s) s1 ->
  loop_post x (new ++ before ++ [a]) rest (n + 1) s1 k s2 -> loop_post x before (a :: rest) n s k s2.
Proof.
  intros H Ha Hid Hc Hw (H1 & K1 & (N1 & T1 & I1) & U1 & Ha1 & R1 & Hr & C1 & F1 & _) (new2 & sv & c & f & H2 & K2 & G2 & U2 & P2 & C2 & F2 & ->).
  cbn in N1, T1, I1, C1, F1, R1. destruct (kept_parts _ _ _ _ K1) as [Kb Kr]. destruct (kept_parts _ _ _ _ K2) as [Kn K2']. destruct (kept_parts _ _ _ _ K2') as [Kb2 Ka].
  exists (new2 ++ new), (a :: sv), (te_id t :: c), f. destruct (Ka a t1) as (t2 & Ha2 & S2); [by left|done|].
  assert (clock (wd s1) <= clock (wd s2)) by apply G2. split_and!; try done.
  - rewrite <- !app_assoc in H2. rewrite <- app_assoc. exact H2.
  - by eapply kept_trans.
  - eapply grows_trans; [exact H1| |exact Kn|exact G2]. split; [done|]. split; [lia|done].
  - by eapply (untouched_trans x).
  - eapply (pass_called _ _ a rest sv c f t t2 r); try done; [lia| |].
    + eapply rearmed_same; [exact R1|exact S2|lia|done].
    + eapply passed_after; [exact H|exact Kr|lia|exact P2].
  - by rewrite C2, C1, <- app_assoc.
  - by rewrite F2, F1.
  - cbn [length]. lia.
Qed.

(** There are numbers left for what the functions of [l] may create. *)
Definition room (l : list addr) s : Prop := timeEventNextId (el s) + most * Z.of_nat (length l) < 2 ^ 63.

Lemma room_next a l s s' : room (a :: l) s -> timeEventNextId (el s') <= timeEventNextId (el s) + most -> room l s'.
Proof. unfold room. cbn [length]. intros H1 H2. lia. Qed.

Lemma room_most a l s : room (a :: l) s -> timeEventNextId (el s) + most < 2 ^ 63.
Proof. unfold room. cbn [length]. lia. Qed.

(** A time event that was not deleted. *)
Lemma live_wp x maxId before a rest fuel prev s n t : timeline x (before ++ a :: rest) s -> timers (el s) !! a = Some t -> te_id t <> -1 ->
  -1 <= maxId -> below maxId s (a :: rest) -> room (a :: rest) s ->
  (forall new s1 n1, timeline x ((new ++ before ++ [a]) ++ rest) s1 -> below maxId s1 rest -> room rest s1 ->
    wp (process_loop time_proc finalizer_proc fuel (Some a) (head rest) maxId n1) (loop_post x (new ++ before ++ [a]) rest n1 s1) s1) ->
  wp (process_loop time_proc finalizer_proc (S fuel) prev (Some a) maxId n) (loop_post x before (a :: rest) n s) s.
Proof.
  intros H Ha Hid Hmax Hb Hroom IH. cbn [process_loop].
  assert (forall s1, kept (before ++ rest) s s1 -> below maxId s1 rest) as Hbk.
  { intros s1 K. apply kept_parts in K as [_ K]. eapply (below_kept _ _ _ s); [exact H| |done|exact K|]; [intros b; rewrite elem_of_app, elem_of_cons; auto|]. intros b u Hbr. apply Hb. by right. }
  apply wp_bind. eapply timer_wp; [done|]. unfold AE_DELETED_EVENT_ID. rewrite (proj2 (Z.eqb_neq _ _) Hid).
  pose proof (Hb a t ltac:(by left) Ha) as Hle. rewrite Z.gtb_ltb, (proj2 (Z.ltb_ge _ _)) by done. destruct (tm_ok _ _ _ H _ _ Ha) as (_ & _ & Hms).
  wp_use aeGetTime_wp; [apply GC, H|]. cbn beta. intros [sec ms] s1 (w & -> & Hw & Hnow & Hms' & _). rewrite due_when by done.
  assert (timeline x (before ++ a :: rest) (set_wd w s)) as H1 by by apply timeline_wd.
  destruct (Z.leb_spec (when t) (sec * 1000 + ms)) as [Hdue|Hdue].
  - apply wp_bind. wp_use fire_wp; [exact H1|exact Ha|done|by eapply room_most|]. cbn beta. intros _ s1 (new & r & t1 & HF). pose proof HF as (H2 & K2 & _ & _ & Ha2 & _ & _ & _ & _ & N2).
    apply wp_ret. apply wp_bind. eapply timer_wp; [exact Ha2|]. pose proof (tm_chain _ _ _ H2) as Hc. rewrite app_assoc in Hc. rewrite (seg_next _ _ _ _ _ _ Hc Ha2).
    eapply wp_mono; [apply (IH new); [by rewrite <- !app_assoc|by apply Hbk|by eapply room_next]|]. intros k s2 HP. eapply (loop_called x before a rest n s w s1 k s2 t r t1 new); try done; lia.
  - apply wp_bind, wp_ret. apply wp_bind. eapply timer_wp; [exact Ha|]. rewrite (seg_next _ _ _ _ _ _ (tm_chain _ _ _ H) Ha).
    eapply wp_mono; [apply (IH [] (set_wd w s)); [cbn [app]; by rewrite <- app_assoc|apply (Hbk (set_wd w s)); exact (kept_refl _ s)|eapply room_next; [exact Hroom|cbn; lia]]|].
    intros k s2 HP. eapply (loop_waits x before a rest n s w k s2 t); try done; lia.
Qed.

(** Behind an element of the list. *)
Lemma process_loop_wp x maxId rest : forall fuel before p s n, timeline x (before ++ rest) s -> last before = Some p -> (length rest <= fuel)%nat -> -1 <= maxId ->
  below maxId s rest -> room rest s ->
  wp (process_loop time_proc finalizer_proc fuel (Some p) (head rest) maxId n) (loop_post x before rest n s) s.
Proof.
  induction rest as [|a rest IH]; intros fuel before p s n H Hp Hfuel Hmax Hb Hroom.
  { exists s, n. split; [by destruct fuel|]. exists [], [], [], []. rewrite !app_nil_r. cbn. split_and!; try done; [|apply kept_refl|apply grows_refl|constructor|lia].
    by rewrite app_nil_r in H. }
  destruct fuel as [|fuel]; [cbn in Hfuel; lia|]. cbn in Hfuel. cbn [head].
  destruct (timeline_at _ _ _ a H) as [t Ha]; [apply elem_of_app; right; by left|]. destruct (decide (te_id t = -1)) as [Hid|Hid].
  - cbn [process_loop]. apply wp_bind. eapply timer_wp; [done|]. unfold AE_DELETED_EVENT_ID. rewrite (proj2 (Z.eqb_eq _ _) Hid). rewrite <- Hp.
    wp_use te_unlink_wp; [exact H|exact Ha|by eapply room_most|]. cbn beta. intros next s1 (-> & new & HF). pose proof HF as (H1 & K1 & _ & _ & _ & _ & N1 & _).
    rewrite Hp. eapply wp_mono; [apply (IH _ (new ++ before)); [by rewrite <- app_assoc|by rewrite last_app, Hp|lia|done| |by eapply room_next]|].
    + apply kept_parts in K1 as [_ K1]. eapply (below_kept _ _ _ s); [exact H| |done|exact K1|]; [intros b; rewrite elem_of_app, elem_of_cons; auto|]. intros b u Hbr. apply Hb. by right.
    + intros k s2 HP. by eapply loop_freed.
  - eapply live_wp; try done. intros new s1 n1 H1 Hb1 Hr1. apply IH; try done; [|lia]. by rewrite app_assoc, last_snoc.
Qed.

(** *** At the head

    A finalizer that is called for the head of the list may create time events
    in front of what is next; when that one was deleted too, they are cut off
    with it.  [nw] are those that are in front now. *)

Definition fresh (base : Z) (y : gset addr) s : Prop :=
  forall a t, a ∈ y -> timers (el s) !! a = Some t -> te_id t = -1 \/ base <= te_id t.

Lemma fresh_kept base nw l x s s' : timeline x l s -> (forall a, a ∈ nw -> a ∈ l) -> fresh base (list_to_set nw) s -> kept nw s s' -> fresh base (list_to_set nw) s'.
Proof.
  intros H Hl F K a t' Ha Ht. pose proof Ha as Hn. apply elem_of_list_to_set in Hn. destruct (timeline_at _ _ _ a H) as [t Hu]; [by apply Hl|].
  destruct (K a t Hn Hu) as (t2 & Hu2 & _ & _ & _ & _ & _ & E). rewrite Ht in Hu2. injection Hu2 as <-.
  destruct (F a t Ha Hu) as [F'|F'], E as [E|[E _]]; auto; [left|right]; congruence.
Qed.

Lemma fresh_untouched base y s s' : fresh base y s -> untouched y s s' -> fresh base y s'.
Proof. intros F U a t Ha Ht. rewrite U in Ht by done. by eapply F. Qed.

Lemma fresh_grows base new s s' : base <= timeEventNextId (el s) -> grows new s s' -> fresh base (list_to_set new) s'.
Proof. intros Hb (_ & _ & I) a t Ha Ht. apply elem_of_list_to_set in Ha. destruct (I a t Ha Ht); [by left|right; lia]. Qed.

Lemma fresh_union base y z s : fresh base y s -> fresh base z s -> fresh base (y ∪ z) s.
Proof. intros Fy Fz a t Ha. apply elem_of_union in Ha as [Ha|Ha]; [by apply Fy|by apply Fz]. Qed.

(** Which can only be when the first and the next were freed. *)
Definition cut_off (nw rest left : list addr) (lost : gset addr) : Prop :=
  lost = ∅ \/ exists a rest', rest = a :: rest' /\ a ∉ left /\ (nw <> [] \/ exists b rest'', rest' = b :: rest'' /\ b ∉ left).

Definition head_post x nw rest n (base : Z) s (k : Z) s' : Prop := exists lost new left calls finals,
  timeline (lost ∪ x) (new ++ left) s' /\ fresh base (lost ∪ list_to_set new) s' /\ clock (wd s) <= clock (wd s') /\ untouched x s s' /\ cut_off nw rest left lost /\
  passed s s' rest left calls finals /\ called s' = called s ++ calls /\ finalized s' = finalized s ++ finals /\ k = n + Z.of_nat (length calls).

Lemma passed_left s s' l left calls finals : passed s s' l left calls finals -> forall a, a ∈ left -> a ∈ l.
Proof. induction 1; intros b Hb; try done; rewrite ?elem_of_cons in *; naive_solver. Qed.

Lemma head_live x nw a rest n base s k s' : timeline x (nw ++ a :: rest) s -> fresh base (list_to_set nw) s -> base <= timeEventNextId (el s) ->
  loop_post x nw (a :: rest) n s k s' -> head_post x nw (a :: rest) n base s k s'.
Proof.
  intros H F Hb (new & sv & c & f & H2 & K2 & G2 & U2 & P2 & C2 & F2 & ->). exists ∅, (new ++ nw), sv, c, f. rewrite union_empty_l_L, <- app_assoc.
  split_and!; try done; [|apply G2|by left]. rewrite union_empty_l_L, list_to_set_app_L. apply fresh_union; [by eapply fresh_grows|].
  apply (fresh_kept base nw (nw ++ a :: rest) x s); try done. intros b Hin. apply elem_of_app. by left.
Qed.

Lemma head_freed x nw a rest n base s s1 k s2 t new : timeline x (nw ++ a :: rest) s -> timers (el s) !! a = Some t -> te_id t = -1 ->
  fresh base (list_to_set nw) s -> freed (list_to_set nw ∪ x) rest new t s s1 ->
  head_post (list_to_set nw ∪ x) new rest n base s1 k s2 -> head_post x nw (a :: rest) n base s k s2.
Proof.
  intros H Ha Hid F (H1 & K1 & G1 & U1 & C1 & F1 & _) (lost & new2 & sv & c & f & H2 & Fr2 & T2 & U2 & X2 & P2 & C2 & F2 & ->).
  exists (lost ∪ list_to_set nw), new2, sv, c, (final_of t ++ f). assert (untouched (list_to_set nw ∪ x) s s2) as U by by eapply untouched_trans.
  pose proof (passed_left _ _ _ _ _ _ P2) as Hsv. pose proof (without_elem _ _ _ (tm_nodup _ _ _ H)) as Hna. assert (a ∉ sv) as Hasv.
  { intros Hin. apply Hna, elem_of_app. right. by apply Hsv. }
  split_and!; try done.
  - by rewrite <- (assoc_L (∪)).
  - intros b u Hbu. assert (b ∈ lost ∪ list_to_set new2 \/ b ∈ (list_to_set nw : gset addr)) as [Hin|Hin] by set_solver; [by apply Fr2|].
    apply (fresh_untouched base (list_to_set nw) s s2 F); [|done]. intros d Hd. apply U, elem_of_union. by left.
  - destruct G1 as (_ & T1 & _). lia.
  - intros b Hb. apply U, elem_of_union. by right.
  - destruct (decide (nw = [])) as [->|Hnw]; [|right; exists a, rest; split; [done|]; split; [done|by left]].
    rewrite list_to_set_nil, union_empty_r_L. destruct X2 as [->|(b & rest' & -> & Hb & _)]; [by left|]. right. exists a, (b :: rest'). split; [done|]. split; [done|]. right. by exists b, rest'.
  - eapply pass_freed; [exact Ha|by left|]. eapply passed_after; [exact H|exact K1|apply G1|exact P2].
  - by rewrite C2, C1.
  - by rewrite F2, F1, app_assoc.
Qed.

Lemma head_loop_wp maxId rest : forall x fuel nw base s n, timeline x (nw ++ rest) s -> fresh base (list_to_set nw) s -> base <= timeEventNextId (el s) ->
  (length rest <= fuel)%nat -> -1 <= maxId -> below maxId s rest -> room rest s ->
  wp (process_loop time_proc finalizer_proc fuel None (head rest) maxId n) (head_post x nw rest n base s) s.
Proof.
  induction rest as [|a rest IH]; intros x fuel nw base s n H F Hbase Hfuel Hmax Hb Hroom.
  { exists s, n. split; [by destruct fuel|]. exists ∅, nw, [], [], []. rewrite app_nil_r in H. rewrite !union_empty_l_L, !app_nil_r. cbn. split_and!; try done; [by left|exact (pass_end _ _)|lia]. }
  destruct fuel as [|fuel]; [cbn in Hfuel; lia|]. cbn in Hfuel. cbn [head].
  destruct (timeline_at _ _ _ a H) as [t Ha]; [apply elem_of_app; right; by left|]. destruct (decide (te_id t = -1)) as [Hid|Hid].
  - cbn [process_loop]. apply wp_bind. eapply timer_wp; [done|]. unfold AE_DELETED_EVENT_ID. rewrite (proj2 (Z.eqb_eq _ _) Hid).
    wp_use unlink_head_wp; [exact H|exact Ha|by eapply room_most|]. cbn beta. intros next s1 (-> & new & HF). pose proof HF as (H1 & K1 & G1 & _ & _ & _ & N1 & _).
    eapply wp_mono; [apply (IH (list_to_set nw ∪ x) _ new base); [done|by eapply fresh_grows|destruct G1; lia|lia|done| |by eapply room_next]|].
    + eapply (below_kept _ _ _ s); [exact H| |done|exact K1|]; [intros b; rewrite elem_of_app, elem_of_cons; auto|]. intros b u Hbr. apply Hb. by right.
    + intros k s2 HP. by eapply head_freed.
  - eapply wp_mono; [eapply live_wp; try done|].
    + intros new s1 n1 H1 Hb1 Hr1. apply process_loop_wp; try done; [|lia]. by rewrite app_assoc, last_snoc.
    + intros k s2 HP. by apply head_live.
Qed.

(** ** The clock was set back *)

Definition zeroed t : aeTimeEvent := set_when 0 (when_ms t) t.

Lemma zero_loop_wp l : forall fuel h s, seg (timers (el s)) h l None -> NoDup l -> (length l <= fuel)%nat ->
  wp (zero_loop fuel h) (fun _ s' => exists m, s' = set_el (set_timers (fun _ => m)) s /\
    forall a, m !! a = if decide (a ∈ l) then zeroed <$> timers (el s) !! a else timers (el s) !! a) s.
Proof.
  induction l as [|a l IH]; intros fuel h s; cbn [seg].
  - intros -> _ _. exists s, tt. split; [by destruct fuel|]. exists (timers (el s)). split; [by destruct s as [[]]|]. intros a. by rewrite decide_False by apply not_elem_of_nil.
  - intros (-> & t & Ha & H) Hnd Hf. destruct fuel as [|fuel]; [cbn in Hf; lia|]. apply NoDup_cons in Hnd as [Hna Hnd]. cbn [zero_loop].
    apply wp_bind. eapply timer_wp; [done|]. apply wp_bind. eapply upd_timer_wp; [done|]. eapply wp_mono; [apply IH; [|done|cbn in Hf; lia]|].
    + eapply seg_same; [|exact H]. intros b u Hb Hu. exists u. cbn. by rewrite lookup_insert_ne by (intros ->; done).
    + cbn beta. intros _ s' (m & -> & Hm). exists m. split; [done|]. intros b. rewrite Hm. cbn. destruct (decide (b = a)) as [->|Hne].
      * rewrite decide_False, decide_True by (try done; by left). by rewrite lookup_insert_eq, Ha.
      * rewrite lookup_insert_ne by done. destruct (decide (b ∈ l)); [by rewrite decide_True by by right|]. rewrite decide_False; [done|].
        rewrite elem_of_cons. tauto.
Qed.

(** The state that a pass starts from: the clock was read, and when it had
    been set back every time event is due. *)
Definition set_back s : bool := (time (wd s)).2 <? lastTime (el s).

Definition started s : aestate :=
  set_el (set_lastTime (time (wd s)).2) (set_el (set_timers (fun m => if set_back s then zeroed <$> m else m)) (set_wd (time (wd s)).1 s)).

Lemma timeline_started l s : timeline ∅ l s -> inv (time (wd s)).1 -> timeline ∅ l (started s).
Proof.
  intros [H1 H2 H3 H4 H5 H6 H7] Hi. constructor; try done; cbn.
  - destruct (set_back s); [|done]. eapply seg_same; [|exact H1]. intros a t _ Ha. exists (zeroed t). by rewrite lookup_fmap, Ha.
  - destruct (set_back s); [by rewrite dom_fmap_L|done].
  - destruct (set_back s); [|done]. intros a t. rewrite lookup_fmap. destruct (timers (el s) !! a) as [u|] eqn:Eu; [|done]. intros [= <-].
    destruct (H5 a u Eu) as (E1 & E2 & E3). split; [done|]. by split.
Qed.

Lemma timeline_size l s : timeline ∅ l s -> size (timers (el s)) = length l.
Proof. intros H. rewrite <- size_dom, (tm_dom _ _ _ H), union_empty_r_L. apply size_list_to_set, (tm_nodup _ _ _ H). Qed.

Lemma te_start_wp l s : timeline ∅ l s -> let s1 := set_wd (time (wd s)).1 s in
  wp (if set_back s then zero_loop (fuel_for (el s1)) (timeEventHead (el s1)) else skip)
    (fun _ s' => set_el (set_lastTime (time (wd s)).2) s' = started s) s1.
Proof.
  intros H s1. unfold started. destruct (set_back s).
  - wp_last (zero_loop_wp l); [apply H|apply H|unfold fuel_for; cbn; rewrite (timeline_size _ _ H); lia|]. cbn beta. intros _ s' (m & -> & Hm).
    assert (m = zeroed <$> timers (el s)) as ->; [|done]. apply map_eq. intros a. rewrite Hm, lookup_fmap. cbn. case_decide as Ha; [done|].
    destruct (timers (el s) !! a) eqn:E; [|done]. exfalso. apply Ha. assert (a ∈ dom (timers (el s))) as Hd by (apply elem_of_dom; by eexists).
    rewrite (tm_dom _ _ _ H), union_empty_r_L, elem_of_list_to_set in Hd. done.
  - apply wp_skip. by destruct s as [[]].
Qed.

Lemma processTimeEvents_wp l s : timeline ∅ l s -> room l s ->
  wp (processTimeEvents time_proc finalizer_proc) (head_post ∅ [] l 0 (timeEventNextId (el s)) (started s)) s.
Proof.
  intros H Hroom. pose proof (timeline_started l s H (proj2 (gc_clock most GC _ (tm_inv _ _ _ H)))) as H1.
  unfold processTimeEvents. apply wp_bind, sys_wp. wp_step. cbn [set_wd el lastTime]. fold (set_back s). wp_use te_start_wp; [exact H|]. cbn beta. intros _ s' Hs.
  wp_step. rewrite Hs. wp_step. rewrite (seg_head _ _ _ (tm_chain _ _ _ H1)).
  rewrite wraps_small by (try done; unfold is_signed; pose proof (tm_next _ _ _ H1); lia).
  apply head_loop_wp; [exact H1|intros a t; set_solver|done|unfold fuel_for; rewrite (timeline_size _ _ H1); lia|pose proof (tm_next _ _ _ H1); lia| |exact Hroom].
  intros a t _ Ha. destruct (tm_ok _ _ _ H1 _ _ Ha) as [Hid _]. pose proof (tm_next _ _ _ H1). lia.
Qed.

(** A time event that was due is called, when no function may delete it. *)
Lemma passed_calls s s' l left calls finals : passed s s' l left calls finals -> forall a t, a ∈ l -> timers (el s) !! a = Some t ->
  te_id t <> -1 -> ~ may_delete (te_id t) -> when t <= clock (wd s) -> te_id t ∈ calls.
Proof.
  induction 1 as [|a l sv c f t Ha Hd H IH|a l sv c f t t' Ha Hid Hw Ha' Hs H IH|a l sv c f t t' r Ha Hid Hw Hr Ha' Hs H IH]; intros b u Hb Hu Hid' Hd' Hw'.
  - by apply elem_of_nil in Hb.
  - apply elem_of_cons in Hb as [->|Hb]; [rewrite Ha in Hu; injection Hu as <-; tauto|by eapply IH].
  - apply elem_of_cons in Hb as [->|Hb]; [rewrite Ha in Hu; injection Hu as <-; lia|by eapply IH].
  - apply elem_of_cons. apply elem_of_cons in Hb as [->|Hb]; [left; congruence|right; by eapply IH].
Qed.

Lemma called_when_due l s s' left calls finals : timeline ∅ l s -> passed (started s) s' l left calls finals ->
  forall a t, a ∈ l -> timers (el s) !! a = Some t -> te_id t <> -1 -> ~ may_delete (te_id t) -> set_back s = true \/ when t <= clock (wd s) -> te_id t ∈ calls.
Proof.
  intros H HP a t Ha Ht Hid Hd Hw. pose proof (time_reads (wd s)). pose proof (clock_after_1970 (time (wd s)).1). destruct (tm_ok _ _ _ H _ _ Ht) as (_ & _ & Hms).
  assert (timers (el (started s)) !! a = Some (if set_back s then zeroed t else t)) as Hst.
  { unfold started. cbn. destruct (set_back s); [by rewrite lookup_fmap, Ht|done]. }
  assert (te_id (if set_back s then zeroed t else t) = te_id t) as <- by by destruct (set_back s).
  eapply passed_calls; [exact HP|exact Ha|exact Hst|by destruct (set_back s)..|]. cbn. destruct (set_back s); [|destruct Hw; [done|lia]]. unfold when, zeroed. cbn. lia.
Qed.

End Spec.

(** ** Clients that are written with the loop's own operations

    Their functions create and delete time events by calling it. *)

Section Scripts.
Context {W : Type} `{KL : kernel_laws W} (alloc_timer : gset addr -> addr) (alloc_fresh : forall d, alloc_timer d ∉ d).
Context (inv : W -> Prop) (inv_clock : forall w, inv w -> inv (gettimeofday w).1 /\ inv (time w).1) (may_delete : Z -> Prop).

Inductive action := Start (r proc data : Z) (fin : option Z) | Stop (id : Z).

Definition act (c : action) : M (aestate W) unit :=
  match c with
  | Start r proc data fin => _ ← aeCreateTimeEvent alloc_timer r proc data fin; skip
  | Stop id => _ ← aeDeleteTimeEvent id; skip
  end.

Definition action_ok (c : action) : Prop := match c with Start r _ _ _ => 0 <= r < 2 ^ 59 | Stop id => may_delete id end.

Lemma act_wp c x l s : action_ok c -> timeline inv x l s -> timeEventNextId (el s) + 1 < 2 ^ 63 ->
  wp (act c) (fun _ s' => exists new, evolves inv may_delete 1 x l new s s') s.
Proof.
  intros Hc H Hn. destruct c as [r proc data fin|id]; cbn [act].
  - wp_use (aeCreateTimeEvent_wp inv may_delete alloc_timer x l s r proc data fin); [done|apply inv_clock, H|done..|lia|].
    cbn beta. intros id s' (_ & a & now & t & He & _). apply wp_skip. by exists [a].
  - wp_use (aeDeleteTimeEvent_wp inv may_delete x l id s H); [done|]. cbn beta. intros ok s' (He & _). apply wp_skip. exists [].
    by eapply evolves_weaken; [|exact He].
Qed.

Lemma script_wp cs : forall x l s, Forall action_ok cs -> timeline inv x l s -> timeEventNextId (el s) + Z.of_nat (length cs) < 2 ^ 63 ->
  wp (for_each cs act) (fun _ s' => exists new, evolves inv may_delete (Z.of_nat (length cs)) x l new s s') s.
Proof.
  induction cs as [|c cs IH]; intros x l s Hcs H Hn; cbn [for_each].
  - apply wp_skip. exists []. by apply evolves_refl.
  - apply Forall_cons in Hcs as [Hc Hcs]. cbn [length] in Hn. wp_use act_wp; [done|exact H|lia|]. cbn beta. intros _ s1 (new1 & E1).
    pose proof E1 as (H1 & _ & _ & _ & _ & _ & N1). wp_last IH; [done|exact H1|lia|]. cbn beta. intros _ s2 (new2 & E2). exists (new2 ++ new1).
    eapply evolves_weaken; [|eapply evolves_trans; [exact E1|exact E2]]. cbn [length]. lia.
Qed.

Context (script : Z -> Z -> Z -> list action) (answer : Z -> Z -> Z -> Z) (final_script : Z -> Z -> list action) (most : nat).

Definition script_time (p id data : Z) : M (aestate W) Z := _ ← for_each (script p id data) act; mret (answer p id data).
Definition script_final (f data : Z) : M (aestate W) unit := for_each (final_script f data) act.

Lemma scripts_good : (forall p id data, Forall action_ok (script p id data) /\ (length (script p id data) <= most)%nat) ->
  (forall f data, Forall action_ok (final_script f data) /\ (length (final_script f data) <= most)%nat) ->
  (forall p id data, answer p id data = -1 \/ 0 <= answer p id data < 2 ^ 31) ->
  good_client inv may_delete script_time script_final (fun p id data r => r = answer p id data) (Z.of_nat most).
Proof.
  intros Ht Hf Ha. constructor; [| |done].
  - intros x l s a t H _ _ Hn. destruct (Ht (timeProc t) (te_id t) (tclientData t)) as [Hok Hlen]. unfold script_time. wp_use script_wp; [done|exact H|lia|].
    cbn beta. intros _ s' (new & He). apply wp_ret. split; [done|]. split; [done|]. exists new. eapply evolves_weaken; [|exact He]. lia.
  - intros x l s f d H Hn. destruct (Hf f d) as [Hok Hlen]. wp_last script_wp; [done|exact H|lia|]. cbn beta. intros _ s' (new & He). exists new.
    eapply evolves_weaken; [|exact He]. lia.
Qed.

End Scripts.
End AeTimers.
