(* ===== verification/AeRun.v ===== *)
(** * The event loop: its properties *)

From S2P Require Import Prelude Monad Ae AeSpec AeDispatch AeTimers.
Import Monad Ae AeSpec AeDispatch AeTimers.

Module AeRun.

Section Props.
Context {W : Type} `{KL : kernel_laws W}.

(** C6. Whatever is registered, deleted, resized and asked for, one call after
    the other on a new loop: no call fails, each does to a map of registrations
    what it is meant to (a descriptor gets the function for the events asked
    for and keeps the other, it is dropped with its last event, and only a
    descriptor that is too high or refused by the system is not registered),
    the array has these registrations, the highest descriptor is the highest
    one that is registered, and the system waits for exactly their events. *)
Theorem registrations_tracked (junk : nat -> aeFileEvent) (junk_fired : nat -> Z * Z) (n : Z) (w : W) (cs : list request) :
  0 < n -> interest (time w).1 = ∅ -> Forall proper_call cs ->
  let '(l, w') := aeCreateEventLoop junk junk_fired n w in
  wp (run_calls junk junk_fired cs) (fun results s' => exists r, registered r s' /\ effects (∅, n) cs (r, setsize (el s')) results) (AeState l w' [] []).
Proof.
  intros Hn Hw Hcs. pose proof (aeCreateEventLoop_registered junk junk_fired n w Hn Hw) as H. destruct (aeCreateEventLoop junk junk_fired n w) as [l w'].
  destruct H as [H E]. subst n. by apply (ae_calls_wp junk junk_fired cs Hcs ∅ (AeState l w' [] [])).
Qed.

(** C7. A round for file events alone ([processEventsWhileBlocked] asks for
    that): it does not fail, whatever the functions register and delete; each
    event that the system reports, in its order, goes to the functions that are
    registered for it at that moment with their data, reading before writing,
    and to one that serves both only once; and the number of events is
    returned.  A function is not called for what was deleted by another one
    before. *)
Theorem events_dispatched (file_proc : Z -> Z -> Z -> Z -> M (aestate W) unit) (time_proc : Z -> Z -> Z -> M (aestate W) Z)
    (finalizer_proc : Z -> Z -> M (aestate W) unit) {X : Type} (regs : X -> gmap Z aeFileEvent) (inv : X -> aestate W -> Prop) (run : Z -> Z -> Z -> Z -> X -> X)
    (x : X) (s : aestate W) (flags : Z) :
  (forall x s p fd data m, rep regs inv x s -> may_call regs x p fd data m ->
    wp (file_proc p fd data m) (fun _ s' => rep regs inv (run p fd data m x) s' /\ calm s s') s) ->
  (forall x s g n t, inv x s -> inv x (set_el (set_fired g) (set_wd (epoll_wait n t (wd s)).1 s))) ->
  rep regs inv x s -> Z.land flags AE_TIME_EVENTS = 0 -> Z.land flags AE_FILE_EVENTS <> 0 ->
  let evs := if maxfd (el s) =? -1 then [] else reported (if has flags AE_DONT_WAIT then 0 else -1) s in
  wp (aeProcessEvents file_proc time_proc finalizer_proc flags)
    (fun n s' => exists x', n = Z.of_nat (length evs) /\ dispatched regs run evs x x' /\ rep regs inv x' s') s.
Proof.
  intros Hprocs Hpoll H Ht Hf evs. unfold aeProcessEvents. rewrite Ht, (proj2 (Z.eqb_neq _ _) Hf). cbn [Z.eqb negb andb]. wp_step. rewrite orb_false_r.
  unfold evs. destruct (maxfd (el s) =? -1); cbn [negb]; apply wp_bind.
  - wp_step. apply wp_ret. exists x. split_and!; try done. constructor.
  - unfold poll_timeout. rewrite Ht. cbn [Z.eqb negb andb]. apply wp_bind, wp_bind, wp_ret, wp_ret. fold (has flags AE_DONT_WAIT).
    wp_last (dispatch_wp file_proc regs inv run Hprocs Hpoll); [exact H|]. cbn beta.
    assert (timeout_of (if has flags AE_DONT_WAIT then Some (0, 0) else None) = if has flags AE_DONT_WAIT then 0 else -1) as -> by by destruct (has _ _).
    intros k s' (y & -> & Hy & H'). apply wp_ret. by exists y.
Qed.

(** C5. A pass over the time events, whose functions and finalizers may create
    and delete time events ([good_client]: each call creates at most [most], as
    long as there are numbers for them; see [scripts_good] for clients that do
    this with the loop's own operations): it ends and does not fail.  Every time
    event that was there is either marked as deleted, and then it is taken out,
    its finalizer is called and it is freed, or not due yet, and it stays, or
    called once, in the order of the list: it stays with a new time, as late as
    it answered, or marked when it answered that it is done.  The number of
    those called is returned.  Time events that were created meanwhile have
    identifiers of their own and are not called in this pass; they are in front
    of the list, but for those ([lost]) that the finalizer of the first one
    created when the next one was freed as well: these are out of the list for
    ever (ae.c:265), and nothing is lost otherwise.  One that is due is called
    unless a function may delete it, and all are due when the clock was set
    back. *)
Theorem timers_pass (inv : W -> Prop) (may_delete : Z -> Prop) (answers : Z -> Z -> Z -> Z -> Prop)
    (time_proc : Z -> Z -> Z -> M (aestate W) Z) (finalizer_proc : Z -> Z -> M (aestate W) unit) (most : Z) (l : list addr) (s : aestate W) :
  good_client inv may_delete time_proc finalizer_proc answers most -> 0 <= most ->
  timeline inv ∅ l s -> timeEventNextId (el s) + most * Z.of_nat (length l) < 2 ^ 63 ->
  wp (processTimeEvents time_proc finalizer_proc) (fun k s' => exists lost created left calls finals,
    timeline inv lost (created ++ left) s' /\ passed may_delete answers (started s) s' l left calls finals /\
    (forall a t, a ∈ created \/ a ∈ lost -> timers (el s') !! a = Some t -> te_id t = -1 \/ timeEventNextId (el s) <= te_id t) /\
    (lost = ∅ \/ (exists a b rest, l = a :: b :: rest /\ (a ∉ left) /\ b ∉ left)) /\
    called s' = called s ++ calls /\ finalized s' = finalized s ++ finals /\ k = Z.of_nat (length calls) /\
    (forall a t, a ∈ l -> timers (el s) !! a = Some t -> te_id t <> -1 -> ~ may_delete (te_id t) ->
      set_back s = true \/ when t <= clock (wd s) -> te_id t ∈ calls)) s.
Proof.
  intros GC Hmost H Hroom. wp_last (processTimeEvents_wp inv may_delete time_proc finalizer_proc answers most GC Hmost l s H Hroom). cbn beta.
  intros k s' (lost & new & sv & c & f & H1 & F & _ & _ & X & P & C & Fi & ->). exists lost, new, sv, c, f. rewrite union_empty_r_L in H1. split_and!; try done.
  - intros a t Ha. apply F. rewrite elem_of_union, elem_of_list_to_set. tauto.
  - destruct X as [->|(a & rest & -> & Ha & [[]|(b & rest' & -> & Hb)])]; [by left|done|]. right. by exists a, b, rest'.
  - by eapply called_when_due.
Qed.

(** C40. The loop sleeps, when it may, until the time event that is due first,
    which it finds by looking at all of them: the timeout is the time that is
    left until then, or zero, in milliseconds, cut to an [int] (ae_epoll.c:82).
    It is this time itself, and so there is no sleep without a limit, when the
    time event is due within [2^31] milliseconds; without time events the sleep
    has no limit. *)
Theorem sleeps_until_nearest (x : gset addr) (l : list addr) (s : aestate W) (flags : Z) :
  timeline (fun _ => True) x l s -> Z.land flags AE_TIME_EVENTS <> 0 -> Z.land flags AE_DONT_WAIT = 0 ->
  wp (poll_timeout flags) (fun tvp s' => (l = [] -> timeout_of tvp = -1) /\
    forall a, a ∈ l -> exists e now, first_of None l s (Some e) /\ clock (wd s) <= now <= clock (wd s') /\
      timeout_of tvp = s32 (Z.max 0 (when e - now)) /\
      (when e - now < 2 ^ 31 -> timeout_of tvp = Z.max 0 (when e - now))) s.
Proof.
  intros H Ht Hd. wp_last (poll_timeout_wp (fun _ => True)); [done|exact H|done..|]. cbn beta. intros tvp s' (_ & Hnil & Hcons).
  split; [by intros ->; rewrite Hnil|]. intros a Ha. destruct (Hcons a Ha) as (e & now & Hf & Hnow & Hto). exists e, now. split; [done|]. split; [done|].
  assert (timeout_of tvp = s32 (Z.max 0 (when e - now))) as E; [|split; [exact E|]].
  - rewrite <- Hto. by destruct tvp as [[sec usec]|].
  - intros Hlt. rewrite E. apply wraps_small; [done|]. unfold is_signed. lia.
Qed.

End Props.

(** ** A small system *)

Record world := World { w_interest : gmap Z Z; w_clock : Z; w_ready : list (Z * Z) }.

Definition w_now (w : world) : Z := Z.max 1000 (Z.min (w_clock w) (2 ^ 40)).

#[export] Instance small_system : kernel world := {
  epoll_ctl op fd ev w :=
    match w_interest w !! fd with
    | Some _ => if op =? EPOLL_CTL_ADD then (w, false)
        else (World (if op =? EPOLL_CTL_DEL then delete fd (w_interest w) else <[fd := ev]> (w_interest w)) (w_clock w) (w_ready w), true)
    | None => if op =? EPOLL_CTL_ADD then (World (<[fd := ev]> (w_interest w)) (w_clock w) (w_ready w), true) else (w, false)
    end;
  epoll_wait n _ w := (w, take (Z.to_nat n) (filter (fun p => is_Some (w_interest w !! p.1)) (w_ready w)));
  gettimeofday w := (w, (w_now w / 1000, w_now w mod 1000 * 1000));
  time w := (w, w_now w / 1000)
}.

#[export] Instance small_system_laws : kernel_laws world.
Proof.
  refine {| interest := w_interest; clock := w_now |}; unfold epoll_ctl, epoll_wait, gettimeofday, time, small_system.
  - intros fd ev w. by destruct (w_interest w !! fd).
  - intros op fd ev w. destruct (w_interest w !! fd); by destruct (op =? EPOLL_CTL_ADD).
  - intros fd ev w [e ->]. done.
  - intros fd ev w [e ->]. done.
  - done.
  - intros n t w. cbn. rewrite length_take. lia.
  - intros n t w fd ev H. apply elem_of_take in H as (i & H & _). apply list_elem_of_lookup_2, list_elem_of_filter in H. apply H.
  - intros w. assert (1000 <= w_now w <= 2 ^ 40) as Hn by (unfold w_now; lia). rewrite Z.quot_mul by done.
    pose proof (Z.div_mod (w_now w) 1000 ltac:(done)). pose proof (Z.mod_pos_bound (w_now w) 1000 ltac:(done)). lia.
  - intros w. cbn. lia.
  - intros w. unfold w_now. lia.
Defined.

Definition demo_event (i : nat) : aeFileEvent := FileEvent 77 1 2 3.

Definition demo_world : world := World ∅ 5000 [(7, EPOLLIN); (9, Z.lor EPOLLIN EPOLLOUT)].

Definition demo_calls : list request := [Create 9 3 8 7; Get 9; Create 12 1 8 8; Create 7 1 8 9; Delete 9 1; Resize 8; Delete 9 2; Resize 9; Get 9].

Lemma demo_proper : Forall proper_call demo_calls.
Proof. repeat constructor; cbn; unfold is_mask; try lia; tauto. Qed.

Lemma registrations_tracked_witness :
  let '(l, w') := aeCreateEventLoop demo_event (fun _ => (0, 0)) 10 demo_world in
  wp (run_calls demo_event (fun _ => (0, 0)) demo_calls) (fun results s' => exists r, registered r s' /\ effects (∅, 10) demo_calls (r, setsize (el s')) results) (AeState l w' [] []).
Proof. exact (registrations_tracked demo_event (fun _ => (0, 0)) 10 demo_world demo_calls eq_refl eq_refl demo_proper). Defined.

Example demo_results : 
  let '(l, w') := aeCreateEventLoop demo_event (fun _ => (0, 0)) 10 demo_world in
  (fun '(s, r) => (r, maxfd (el s))) <$> run_calls demo_event (fun _ => (0, 0)) demo_calls (AeState l w' [] []) = Some ([0; 3; -1; 0; 0; -1; 0; 0; 0], 7).
Proof. vm_compute. reflexivity. Qed.

(** *** Events: a function that deletes the descriptor in its data *)

Definition demo_proc (p fd data m : Z) : M (aestate world) unit := aeDeleteFileEvent data 3.
Definition demo_run (p fd data m : Z) (r : gmap Z aeFileEvent) : gmap Z aeFileEvent := removed data 3 r.
Definition demo_inv (r : gmap Z aeFileEvent) (s : aestate world) : Prop := forall fd f, r !! fd = Some f -> 0 <= fclientData f.

Lemma demo_procs (r : gmap Z aeFileEvent) (s : aestate world) (p fd data m : Z) : rep id demo_inv r s -> may_call id r p fd data m ->
  wp (demo_proc p fd data m) (fun _ s' => rep id demo_inv (demo_run p fd data m r) s' /\ calm s s') s.
Proof.
  intros [H Hi] (f & Hf & <- & _). wp_last (aeDeleteFileEvent_wp r s (fclientData f) 3 H (Hi fd f Hf)); [unfold is_mask; tauto|]. cbn beta. intros _ s' (C & H').
  split; [|done]. split; [done|]. intros k g. unfold demo_run, removed. destruct (r !! fclientData f) as [h|] eqn:Eh; [|apply Hi].
  cbv zeta. destruct (_ =? 0).
  - intros Hg. apply lookup_delete_Some in Hg as [_ Hg]. by apply (Hi k).
  - rewrite lookup_insert_Some. intros [[<- <-]|[_ Hg]]; [apply (Hi _ h Eh)|by apply (Hi k)].
Qed.

Definition after {A} (m : M (aestate world) A) (s : aestate world) : aestate world := match m s with Some (s', _) => s' | None => s end.

Definition demo_start : aestate world := let '(l, w) := aeCreateEventLoop demo_event (fun _ => (0, 0)) 10 demo_world in AeState l w [] [].
Definition demo_regs1 : gmap Z aeFileEvent := <[9 := added 9 3 8 9 ∅]> ∅.
Definition demo_regs : gmap Z aeFileEvent := <[7 := added 7 1 8 9 demo_regs1]> demo_regs1.
Definition demo_loop1 : aestate world := after (aeCreateFileEvent 9 3 8 9) demo_start.
Definition demo_loop : aestate world := after (aeCreateFileEvent 7 1 8 9) demo_loop1.

Lemma after_create (r : gmap Z aeFileEvent) (s : aestate world) (fd m proc data : Z) : registered r s -> 0 <= fd -> is_mask m ->
  snd <$> aeCreateFileEvent fd m proc data s = Some true -> registered (<[fd := added fd m proc data r]> r) (after (aeCreateFileEvent fd m proc data) s).
Proof.
  intros H Hfd Hm He. destruct (aeCreateFileEvent_wp r s fd m proc data H Hfd Hm) as (s' & ok & E & Hok). unfold after. rewrite E in *. injection He as ->. apply Hok.
Qed.

Lemma demo_rep : rep id demo_inv demo_regs demo_loop.
Proof.
  split.
  - assert (registered ∅ demo_start) as H0 by apply (aeCreateEventLoop_registered (KL := small_system_laws) demo_event (fun _ => (0, 0)) 10 demo_world eq_refl eq_refl).
    apply after_create; [apply after_create; [exact H0|lia|right; by right|vm_compute; reflexivity]|lia|by left|vm_compute; reflexivity].
  - intros fd f. unfold demo_regs, demo_regs1. rewrite !lookup_insert_Some, lookup_empty. intros [[_ <-]|[_ [[_ <-]|[_ [=]]]]]; done.
Qed.

Lemma demo_poll (r : gmap Z aeFileEvent) (s : aestate world) g n t : demo_inv r s -> demo_inv r (set_el (set_fired g) (set_wd (epoll_wait n t (wd s)).1 s)).
Proof. done. Qed.

Lemma events_dispatched_witness :
  let evs := if maxfd (el demo_loop) =? -1 then [] else reported (if has 5 AE_DONT_WAIT then 0 else -1) demo_loop in
  wp (aeProcessEvents demo_proc (fun _ _ _ => mret 0) (fun _ _ => skip) 5)
    (fun n s' => exists x', n = Z.of_nat (length evs) /\ dispatched id demo_run evs demo_regs x' /\ rep id demo_inv x' s') demo_loop.
Proof.
  exact (events_dispatched demo_proc (fun _ _ _ => mret 0) (fun _ _ => skip) id demo_inv demo_run demo_regs demo_loop 5
    demo_procs demo_poll demo_rep eq_refl ltac:(vm_compute; lia)).
Defined.

(** Both are reported; the function of 7 deletes 9, which is not called. *)
Example demo_dispatch : (fun '(s, n) => (n, maxfd (el s), w_interest (wd s))) <$> aeProcessEvents demo_proc (fun _ _ _ => mret 0) (fun _ _ => skip) 5 demo_loop
  = Some (2, 7, {[7 := EPOLLIN]}).
Proof. vm_compute. reflexivity. Qed.

(** *** Time events: the function 1 deletes the event 0, creates another one and
    is done, the others come again after 100 ms; the finalizer of an event
    creates one as well *)

Definition demo_alloc (d : gset addr) : addr := set_fold Z.max 0 d + 1.

Lemma demo_alloc_fresh (d : gset addr) : demo_alloc d ∉ d.
Proof.
  intros H. unfold demo_alloc in H. assert (forall y, y ∈ d -> y <= set_fold Z.max 0 d) as Hle; [|specialize (Hle _ H); lia].
  apply (set_fold_ind_L (fun m (e : gset addr) => forall y, y ∈ e -> y <= m)); [set_solver|]. intros y e m _ IH z. rewrite elem_of_union, elem_of_singleton.
  intros [->|Hz]; [lia|]. specialize (IH _ Hz). lia.
Qed.

Definition demo_script (p id data : Z) : list action := if p =? 1 then [Stop 0; Start 50 0 75 None] else [].
Definition demo_answer (p id data : Z) : Z := if p =? 1 then -1 else 100.
Definition demo_final_script (f data : Z) : list action := [Start 70 0 (data + 10) None].
Definition demo_may (id : Z) : Prop := id = 0.

Definition demo_time : Z -> Z -> Z -> M (aestate world) Z := script_time demo_alloc demo_script demo_answer.
Definition demo_final : Z -> Z -> M (aestate world) unit := script_final demo_alloc demo_final_script.
Definition demo_answers (p id data r : Z) : Prop := r = demo_answer p id data.

Definition create (r proc data : Z) (fin : option Z) (s : aestate world) : aestate world := after (aeCreateTimeEvent demo_alloc r proc data fin) s.

(** The newest is the first of the list. *)
Definition demo_timers : aestate world := create 10000 0 73 None (create 0 0 72 None (create 0 1 71 None (create 0 0 70 (Some 1) demo_start))).

Lemma demo_client : good_client (fun _ => True) demo_may demo_time demo_final demo_answers 2.
Proof.
  apply (scripts_good demo_alloc demo_alloc_fresh (fun _ => True) (fun _ _ => conj I I) demo_may demo_script demo_answer demo_final_script 2).
  - intros p id data. unfold demo_script. destruct (p =? 1); (split; [|cbn; lia]); repeat constructor; cbn; lia.
  - intros f data. unfold demo_final_script. split; [|cbn; lia]. repeat constructor; cbn; lia.
  - intros p id data. unfold demo_answer. destruct (p =? 1); [by left|right; lia].
Qed.

#[export] Instance timer_ok_dec (n : Z) (t : aeTimeEvent) : Decision (timer_ok n t).
Proof. unfold timer_ok. apply _. Defined.

Lemma demo_timeline : timeline (fun _ => True) ∅ [4; 3; 2; 1] demo_timers.
Proof.
  constructor.
  - vm_compute. repeat (split; [reflexivity|]; eexists; split; [reflexivity|]). reflexivity.
  - by apply (bool_decide_unpack (NoDup [4; 3; 2; 1])); vm_compute.
  - vm_compute. reflexivity.
  - intros a _. apply not_elem_of_empty.
  - apply (bool_decide_unpack (map_Forall (fun _ t => timer_ok (timeEventNextId (el demo_timers)) t) (timers (el demo_timers)))). vm_compute. reflexivity.
  - split; vm_compute; [discriminate|reflexivity].
  - done.
Qed.

Lemma timers_pass_witness :
  wp (processTimeEvents demo_time demo_final) (fun k s' => exists lost created left calls finals,
    timeline (fun _ => True) lost (created ++ left) s' /\ passed demo_may demo_answers (started demo_timers) s' [4; 3; 2; 1] left calls finals /\
    (forall a t, a ∈ created \/ a ∈ lost -> timers (el s') !! a = Some t -> te_id t = -1 \/ timeEventNextId (el demo_timers) <= te_id t) /\
    (lost = ∅ \/ (exists a b rest, [4; 3; 2; 1] = a :: b :: rest /\ (a ∉ left) /\ b ∉ left)) /\
    called s' = called demo_timers ++ calls /\ finalized s' = finalized demo_timers ++ finals /\ k = Z.of_nat (length calls) /\
    (forall a t, a ∈ [4; 3; 2; 1] -> timers (el demo_timers) !! a = Some t -> te_id t <> -1 -> ~ demo_may (te_id t) ->
      set_back demo_timers = true \/ when t <= clock (wd demo_timers) -> te_id t ∈ calls)) demo_timers.
Proof.
  exact (timers_pass (fun _ => True) demo_may demo_answers demo_time demo_final 2 [4; 3; 2; 1] demo_timers demo_client ltac:(lia) demo_timeline ltac:(vm_compute; reflexivity)).
Defined.

Fixpoint chain (fuel : nat) (m : gmap addr aeTimeEvent) (h : option addr) : list Z :=
  match fuel, h with
  | S fuel, Some a => match m !! a with Some t => tclientData t :: chain fuel m (te_next t) | None => [] end
  | _, _ => []
  end.

(** The data of the time events, in the order of the list. *)
Definition listed (s : aestate world) : list Z := chain 20 (timers (el s)) (timeEventHead (el s)).

(** The event 3 waits, 2 and 1 are called and 1 creates one, 0 was deleted by 1
    and is freed, and its finalizer creates one. *)
Example demo_pass : (fun '(s, k) => (k, called s, finalized s, listed s)) <$> processTimeEvents demo_time demo_final demo_timers
  = Some (2, [2; 1], [70], [80; 75; 73; 72; 71]).
Proof. vm_compute. reflexivity. Qed.

(** Two that were deleted, at the head: what the finalizer of the first one
    created is lost (it is allocated, and not in the list). *)
Definition demo_deleted : aestate world :=
  after (aeDeleteTimeEvent 1) (after (aeDeleteTimeEvent 2) (create 0 0 62 (Some 1) (create 0 0 61 (Some 1) (create 10000 0 60 None demo_start)))).

Example demo_lost : (fun '(s, k) => (k, finalized s, listed s, (fun p => tclientData p.2) <$> map_to_list (timers (el s)))) <$> processTimeEvents demo_time demo_final demo_deleted
  = Some (0, [62; 61], [71; 60], [71; 72; 60]).
Proof. vm_compute. reflexivity. Qed.

Lemma sleeps_until_nearest_witness :
  wp (poll_timeout 3) (fun tvp s' => ([4; 3; 2; 1] = [] -> timeout_of tvp = -1) /\
    forall a, a ∈ [4; 3; 2; 1] -> exists e now, first_of None [4; 3; 2; 1] demo_timers (Some e) /\ clock (wd demo_timers) <= now <= clock (wd s') /\
      timeout_of tvp = s32 (Z.max 0 (when e - now)) /\
      (when e - now < 2 ^ 31 -> timeout_of tvp = Z.max 0 (when e - now))) demo_timers.
Proof. exact (sleeps_until_nearest ∅ [4; 3; 2; 1] demo_timers 3 demo_timeline ltac:(vm_compute; lia) eq_refl). Defined.

Example demo_sleep : (fun '(s, t) => (t, timeout_of t)) <$> poll_timeout 3 (create 10000 0 0 None (create 2500 0 0 None demo_start)) = Some (Some (2, 500000), 2500).
Proof. vm_compute. reflexivity. Qed.

(** A time event in thirty days: the timeout is negative, and [epoll_wait] waits
    without a limit. *)
Example demo_sleep_far : (fun '(s, t) => (t, timeout_of t)) <$> poll_timeout 3 (create 2592000000 0 0 None demo_start) = Some (Some (2592000, 0), -1702967296).
Proof. vm_compute. reflexivity. Qed.

End AeRun.
